(* ===== verification/_CoqProject ===== *)
-Q . S2P
Prelude.v
Effects.v
Threads.v
Primitives.v
Types.v
Format.v
Crypto.v
NodeKeys.v
Envelope.v
Sink.v
EncryptedFile.v
EncryptedFileSpec.v
EncryptedFileWitness.v
EncryptSession.v
Cipher.v
Slots.v
Session.v
BucketKeys.v
Lex.v
Query.v
Index.v
IndexSpec.v
Authz.v
Acl.v
Locks.v
Posix.v
FsView.v
Filesystem.v
NodeRotation.v
Keystore.v
FilesystemSpec.v
FilesystemSafety.v
FilesystemStream.v
Rebuild.v
NodeRotationSpec.v
KeystoreSpec.v
NodeKeyRotation.v
NodeKeyRotationSpec.v
NodeKeyRotationRun.v
Rotation.v
RotationSpec.v
RotationWitness.v
FilesystemWitness.v
NodeRotationWitness.v
KeystoreWitness.v
NodeKeyRotationWitness.v
Upload.v
SigV4.v
SigV4Spec.v
HttpDate.v
S3State.v
S3Auth.v
S3AuthSpec.v
S3Upload.v
S3Leash.v
S3Ops.v
S3AuthWitness.v
S3Listing.v
S3ListingSpec.v
S3Xml.v
S3Meta.v
UserStore.v
Accounts.v
AccountSafety.v
AccountThreads.v
Logins.v
AccountAdmin.v
AccountRaces.v
AccountWitness.v
DeviceTypes.v
Devices.v
DeviceUnlock.v
DeviceCheck.v
DeviceState.v
DeviceDurable.v
DeviceKeyed.v
DeviceChanges.v
DeviceRoster.v
DeviceSpec.v
DeviceWitness.v
