(* ===== verification/Prelude.v ===== *)
(** * Verification of y2q

    y2q is an encrypted object store.  A daemon (crates/y2qd) accepts objects over HTTP
    and S3, encrypts each one to a per-bucket ML-KEM public key while it streams to disk,
    and gives it back only to a logged-in persona that holds a sealed copy of that
    bucket's key.  This library models the parts of the program that carry that promise
    and proves what makes them correct.

    ** The parts and how they interact

    An upload runs through y2qd/src/cipher.rs ([Cipher]) into the envelope writer of
    y2q-core/src/crypto/envelope.rs ([EncryptSession]), which writes through a sink
    (y2q-core/src/storage/streaming_sink.rs, uring/streaming.rs: [Sink]) onto the
    filesystem backend (y2q-core/src/storage/filesystem.rs: [Filesystem]) and is read back
    by the envelope readers ([Envelope]); the stored file carries the header record of
    storage/format.rs ([Format]), its metadata is also kept in the index of
    storage/index.rs ([Index]), and a write holds the object's lock (storage/locks.rs:
    [Locks]).  The index and the user store are databases in a file that is encrypted
    block by block (storage/encrypted_backend.rs: [EncryptedFile]).

    The key an upload is encrypted to, and the key a download is decrypted with, come from
    y2qd/src/bucket_keys.rs ([BucketKeys]), whose grants are sealed (crypto/seal.rs:
    [Crypto]) to the persona keys of an account's four credential slots (crypto/kdf.rs,
    crypto/user_store.rs: [Slots], [UserStore]).  A login (y2qd/src/auth/handlers.rs:
    [Accounts]) opens one slot and leaves the persona's key in the session store
    (y2qd/src/auth/session.rs: [Session]), which every request passes.  y2qd/src/authz.rs
    ([Authz]) decides what a session may do on a bucket; handlers/acl.rs ([Acl]) is where
    grants are given and taken, handlers/keys.rs ([Rotation]) where a bucket's key is
    replaced and its objects are moved to the new one.  The node key everything on disk
    hangs from (crypto/node_keys.rs: [NodeKeys]) is made and checked by the keystore
    (crypto/keystore.rs: [Keystore]) and replaced offline by storage/rotation.rs and
    y2qd/src/node_key_rotation.rs ([NodeRotation], [NodeKeyRotation]).  It is typed in by
    the operator, or held wrapped in a registry of devices (crypto/devices: [Devices],
    [DeviceUnlock]) that a TPM, a security key or a one-time code opens.

    S3 clients sign their requests (y2qd/src/s3/sigv4.rs: [SigV4]) with credentials minted
    under a session (s3/state.rs: [S3State]); s3/auth.rs ([S3Auth]) verifies them and puts
    a leash on every transfer; bodies arrive in the aws-chunked framing of
    s3/body/upload.rs ([Upload], [S3Upload]); [S3Ops], [S3Listing], [S3Xml], [S3Meta] and
    [HttpDate] are what the handlers of s3/object.rs, bucket.rs, xml.rs, meta.rs and
    httpdate.rs compute.

    ** The files

    A component [X] that has grown has its definitions in X.v, its theorems in files named
    after it (XSpec, XSafety, ...), and concrete runs of them in XWitness.v.

    - Shared.  [Prelude] (this file): results, bytes, machine integers, lengths and slices,
      and the tactics and rewrite database the other files use.  [Effects]: the state and
      error monad of the handlers, with its rules.  [Threads]: programs cut at their atomic
      steps, interleaved by a schedule.  [Primitives]: third-party cryptography
      and randomness as type classes of operations with the laws their documentation gives,
      and a toy instance of each that shows the laws can hold.  [Types]: errors, metadata
      and roles of y2q-core/src/lib.rs.  [Lex]: byte strings in order.
    - Objects.  [Format], [Crypto], [NodeKeys], [Envelope], [Sink], [EncryptSession],
      [Cipher].
    - Storage.  [EncryptedFile], [EncryptedFileSpec], [EncryptedFileWitness]; [Query],
      [Index], [IndexSpec]; [Locks]; [Posix] (file system calls, faults and crashes) and
      [FsView] (a file system without faults as a map from paths to bytes); [Filesystem],
      [FilesystemSpec], [FilesystemSafety], [FilesystemStream], [Rebuild],
      [FilesystemWitness].
    - Node key.  [NodeRotation], [NodeRotationSpec], [NodeRotationWitness]; [Keystore],
      [KeystoreSpec], [KeystoreWitness]; [NodeKeyRotation], [NodeKeyRotationSpec],
      [NodeKeyRotationRun], [NodeKeyRotationWitness].
    - Devices.  [DeviceTypes]: records, errors and attested time.  [Devices]: registry.rs.
      [DeviceUnlock]: emergency.rs, the unlock order of mod.rs, repair.  [DeviceCheck]: what
      a checked registry is.  [DeviceState]: what the MAC covers.  [DeviceDurable]: what is
      on disk, of a new registry too.  [DeviceKeyed], [DeviceChanges], [DeviceRoster]: every change keeps every key
      openable.  [DeviceSpec]: the theorems.  [DeviceWitness].
    - Access.  [Slots], [Session], [BucketKeys], [Authz], [Acl]; [Rotation],
      [RotationSpec], [RotationWitness]; [UserStore], [Accounts], [AccountSafety],
      [AccountThreads] (the handlers as threads), [Logins], [AccountAdmin], [AccountRaces],
      [AccountWitness].
    - S3.  [Upload]; [SigV4], [SigV4Spec]; [HttpDate]; [S3State]; [S3Auth], [S3AuthSpec];
      [S3Upload]; [S3Leash]; [S3Ops]; [S3AuthWitness]; [S3Listing], [S3ListingSpec];
      [S3Xml]; [S3Meta].

    ** The interfaces

    Code outside the repository, and parts of it behind a trait, are classes of operations
    with a separate class of laws: the primitives of [Primitives]; [SinkOps] and [SinkLaws],
    discharged by both sinks; [RedbOps]/[RedbLaws] and [MetadataJson]/[JsonLaws] under the
    index; [ConfigJson] and [UnicodeOps] in the filesystem backend; [ListingOps]/
    [ListingLaws] and [ObjectOps]/[ObjectLaws], the storage as the handlers see it;
    [UserDbOps]/[UserDbLaws], [UserFileOps]/[UserFileLaws] and [KeystoreJson] under the user
    store and the keystore; [RegistryJson]/[RegistryJsonLaws] and [Base64NoPad] under the
    device registry; [RegexOps] under label queries;
    [Sharding], the shards of the concurrent session map.  The witness files give each a
    concrete instance and run the theorems on it.

    ** What the theorems show

    - Objects: an upload completes on a fault-free sink and reads back as itself, however
      the network splits it; one that reports success is complete; any byte range streams
      out exactly; truncation, relocation and header edits are detected; a read never has
      another size than the recorded one.
    - Files: a put is atomic for any reader, a crash at any point included, and durable once
      it has returned; what was put is read back; the rebuilt index holds exactly what the
      files hold; and the places where that fails.
    - Encrypted file: on a disk that does not fail the backend refines a plain file, however
      often it is reopened, and uses no nonce twice; both as long as no opening needs more
      than its 2^48 nonces, and an example shows how nonces repeat after that.
    - Index: it refines a finite map with its exact reverse map; scans enumerate it.
    - Keys: sealed rows and new accounts have one shape whatever they grant; opening a bucket
      key fails in one way only; rotation gives the new key to exactly the present readers, one
      persona each; a rekey job moves every object with its contents unchanged and ends.
    - Node key: an uninterrupted rotation keeps every object whose metadata is padded, the
      configurations, the records and the object index; it breaks older objects without
      padding and drops buckets without objects from the index; an interrupted one does not
      resume.
    - Devices: a new registry and every registry reached from it by commands and unlocks
      opens with each home device and holds the node key; a new one opens with each
      security key and each of the ten printed codes too; a security key opens it only in
      time and with a rising counter; a code opens it once, crashes included; the state MAC
      covers exactly a stated view of the registry, which leaves out wraps and TPM blobs.
    - Sessions and accounts: invariants of the session store and of the user records; what
      a token proves; what answers give away; refresh, duress switch, lockout, deletion and
      reset do what they say.  Handlers cut at their atomic steps keep the records well
      formed in any interleaving, but an administrator only when they run one after the
      other; a login and the deletion of its account end without a session left, except as
      stated there.  The overlaps that go wrong are theorems too.
    - Authorization: a permitted action is justified by role, relationship and key; a decoy
      persona is answered 404 as for an absent bucket, but where writing tells them apart
      or a drop-box grant shows the bucket; ACL edits cut off, let in and
      serialize; locks exclude.
    - S3: a request is accepted exactly under the documented conditions; the canonical
      request and so the signature determine what they are meant to cover, and the
      operation is not always part of that; a transfer stops within a re-check of its
      session's end; bodies decode to what was framed and have the digests that were
      declared; dates are those of the calendar and round trip; continuation tokens list
      every key of an unchanging bucket once, given that no key has U+10FFFF after its
      prefix, and markers do not; ranges stay inside the object; documents and
      metadata round trip.

    ** Conventions

    A machine integer is a [Z]; release arithmetic that may wrap is written with [wrap64] or
    [i64], saturating and checked operations as themselves.  Bytes are [list byte], a
    string stands for its UTF-8 bytes; the S3 files keep all text as bytes.  [Result] is
    [result] with the variants of the source's error types; an early return is a bind.
    Asynchronous code is sequential within one call; a stream is the list of items it will
    yield.  Where overlap matters a handler is cut at its atomic steps and the other side is
    a step relation or an argument ([S3Upload.World]).  Every reading of a clock is an
    argument or a field of the state.  The random source is threaded explicitly.  A slice
    or index that would panic is a separate outcome where an input can reach it.

    [Posix] keeps, for each path, what a crash may leave there: entries are volatile until
    their directory is synced, contents until the file is.  A failing call changes nothing
    but in [EncryptedFile], where a write may stop half way.  [EncryptedFile.used] and the
    row generations of [S3Auth.Rows] are not in the code: the first records the nonces
    handed to the cipher, the second stands for the address that [Arc::ptr_eq] compares.
    Security statements are exact up to a collision, which appears as a disjunct.

    Loops recurse on their data or on fuel.  [open_chunks], [xml_unescape_loop],
    [find_open_tag] and [extract_blocks] are started with fuel for every byte and lemmas
    show it is never used up; the paged loops of the index and of the daemon
    ([bucket_loop], [collect_stale_loop]), the rekey job and the S3 listing take a page per row, and their
    theorems state how much is enough; the download stream and the aws-chunked decoder are
    polled, and the round-trip theorems give the number of polls.

    ** What is not modelled

    Kernel interfaces: io_uring submission (the sink model stands in front of it), guarded
    memory pages, FUSE callbacks.  Of crypto/devices the TPM and FIDO2 calls,
    the Roughtime query and the key agent's messages, whose answers are arguments; and the
    rotation run that uses the registry.  HTTP and JSON plumbing, TLS, configuration, metrics and log lines,
    the set-up wizard, the HTTP client, command line and terminal tools.  Of the S3 gateway
    the handlers' own sequencing of storage calls, multipart assembly, response documents
    and the virtual-host rewrite.  The parser of label queries is generated from a grammar;
    the check that runs before it is modelled.  Third-party cryptography is assumed to
    satisfy its documented laws and nothing more; computational security is not stated. *)

From Stdlib Require Export ZArith Lia.
From Stdlib Require Export Strings.Byte.
From stdpp Require Export base list numbers strings gmap sets.

#[global] Open Scope Z_scope.

(** ** Fallible computations: Rust's [Result] *)

Inductive result (E A : Type) : Type :=
| Ok (a : A)
| Err (e : E).
Arguments Ok {E A} a.
Arguments Err {E A} e.

#[global] Instance result_ret (E : Type) : MRet (result E) := fun A a => Ok a.
#[global] Instance result_bind (E : Type) : MBind (result E) :=
  fun A B f m => match m with Ok a => f a | Err e => Err e end.

(** [m.map_err(f)] *)
Definition map_err {E F A : Type} (f : E -> F) (m : result E A) : result F A :=
  match m with Ok a => Ok a | Err e => Err (f e) end.

(** [o.ok_or(e)] *)
Definition ok_or {E A : Type} (o : option A) (e : E) : result E A :=
  match o with Some a => Ok a | None => Err e end.

(** [m.is_ok()] *)
Definition is_ok {E A : Type} (m : result E A) : bool :=
  match m with Ok _ => true | Err _ => false end.

(** [if c { return Err(e) }]: the early return of a guard. *)
Definition guard_err {E : Type} (c : bool) (e : E) : result E unit :=
  if c then Err e else Ok tt.

#[global] Instance result_eq_dec (E A : Type) `{EqDecision E} `{EqDecision A} :
  EqDecision (result E A).
Proof. solve_decision. Defined.

Lemma bind_Ok_inv {E A B : Type} (m : result E A) (f : A -> result E B) (b : B) :
  (m ≫= f) = Ok b -> exists a, m = Ok a /\ f a = Ok b.
Proof. destruct m; simpl; [eauto | done]. Qed.

Lemma bind_Err_inv {E A B : Type} (m : result E A) (f : A -> result E B) (e : E) :
  (m ≫= f) = Err e -> m = Err e \/ exists a, m = Ok a /\ f a = Err e.
Proof. destruct m; simpl; intros; simplify_eq; eauto. Qed.

Lemma map_err_Ok {E F A : Type} (f : E -> F) (m : result E A) (a : A) :
  map_err f m = Ok a <-> m = Ok a.
Proof. destruct m; simpl; split; intros; simplify_eq; done. Qed.

Lemma map_err_Err {E F A : Type} (f : E -> F) (m : result E A) (e : F) :
  map_err f m = Err e -> exists e', m = Err e' /\ e = f e'.
Proof. destruct m; simpl; intros; simplify_eq; eauto. Qed.

(** ** Bytes and machine integers *)

Abbreviation bytes := (list byte).

#[global] Instance byte_eq_dec : EqDecision byte.
Proof. intros x y. destruct (Byte.byte_eq_dec x y); [left | right]; done. Defined.

(** Length of a slice, Rust's [len()], as an integer. *)
Definition blen {A : Type} (l : list A) : Z := Z.of_nat (length l).

(** [&l[a..b]] for [0 <= a <= b <= len]. *)
Definition slice {A : Type} (a b : Z) (l : list A) : list A :=
  take (Z.to_nat (b - a)) (drop (Z.to_nat a) l).

#[global, program] Instance byte_countable : Countable byte :=
  inj_countable Byte.to_N Byte.of_N _.
Next Obligation. intros b. apply Byte.of_to_N. Qed.

Definition Z_of_byte (b : byte) : Z := Z.of_N (Byte.to_N b).

Definition byte_of_Z (z : Z) : byte :=
  match Byte.of_N (Z.to_N (z mod 256)) with Some b => b | None => x00 end.

Fixpoint le_bytes (n : nat) (z : Z) : bytes :=
  match n with
  | O => []
  | S n => byte_of_Z z :: le_bytes n (z / 256)
  end.

Fixpoint le_value (bs : bytes) : Z :=
  match bs with
  | [] => 0
  | b :: bs => Z_of_byte b + 256 * le_value bs
  end.

(** [z.to_le_bytes()] / [z.to_be_bytes()] of an [n]-byte integer, and the
    [from_*] readers. *)
Definition to_le_bytes (n : nat) (z : Z) : bytes := le_bytes n z.
Definition from_le_bytes (bs : bytes) : Z := le_value bs.
Definition to_be_bytes (n : nat) (z : Z) : bytes := reverse (le_bytes n z).
Definition from_be_bytes (bs : bytes) : Z := le_value (reverse bs).

(** Membership in an unsigned [w]-bit type. *)
Definition in_u (w z : Z) : Prop := 0 <= z < 2 ^ w.

Definition u32_max : Z := 2 ^ 32 - 1.
Definition u64_max : Z := 2 ^ 64 - 1.

(** Release-mode arithmetic on [u64]. *)
Definition wrap64 (z : Z) : Z := z mod 2 ^ 64.
(** [as u32] *)
Definition wrap32 (z : Z) : Z := z mod 2 ^ 32.
Lemma wrap64_small z : 0 <= z < 2 ^ 64 -> wrap64 z = z.
Proof. intros. by apply Z.mod_small. Qed.
(** [a.checked_add(b)], [a.saturating_add(b)] and [a.saturating_sub(b)] on u64. *)
Definition checked_add_u64 (a b : Z) : option Z :=
  if a + b <=? u64_max then Some (a + b) else None.
Definition saturating_add_u64 (a b : Z) : Z := Z.min (a + b) u64_max.
Definition saturating_sub_u64 (a b : Z) : Z := Z.max (a - b) 0.

(** Rust strings are UTF-8 byte sequences; [as_bytes]. *)
Definition as_bytes (s : string) : bytes := String.list_byte_of_string s.

(** Unsigned integer division rounded up, [a.div_ceil(b)]. *)
Definition div_ceil (a b : Z) : Z := (a + b - 1) / b.

Lemma Z_of_byte_range (b : byte) : 0 <= Z_of_byte b < 256.
Proof.
  unfold Z_of_byte. pose proof (Byte.to_N_bounded b). lia.
Qed.

Lemma Z_of_byte_of_Z (z : Z) : Z_of_byte (byte_of_Z z) = z mod 256.
Proof.
  unfold Z_of_byte, byte_of_Z.
  assert (0 <= z mod 256 < 256) by (apply Z.mod_pos_bound; lia).
  destruct (Byte.of_N (Z.to_N (z mod 256))) as [b|] eqn:E.
  - apply Byte.to_of_N in E. rewrite E. lia.
  - apply Byte.of_N_None_iff in E. lia.
Qed.

Lemma byte_of_Z_of_byte (b : byte) : byte_of_Z (Z_of_byte b) = b.
Proof.
  pose proof (Z_of_byte_range b).
  unfold byte_of_Z, Z_of_byte in *. rewrite Z.mod_small by lia.
  rewrite N2Z.id, Byte.of_to_N. done.
Qed.

Lemma Z_of_byte_inj (a b : byte) : Z_of_byte a = Z_of_byte b -> a = b.
Proof. intros H. rewrite <- (byte_of_Z_of_byte a), H. apply byte_of_Z_of_byte. Qed.

Lemma length_le_bytes (n : nat) (z : Z) : length (le_bytes n z) = n.
Proof. revert z; induction n; simpl; auto. Qed.

Lemma le_value_range (bs : bytes) : 0 <= le_value bs < 256 ^ blen bs.
Proof.
  unfold blen. induction bs as [|b bs IH]; simpl le_value; [done|].
  pose proof (Z_of_byte_range b). cbn [length].
  rewrite Nat2Z.inj_succ, Z.pow_succ_r by lia. nia.
Qed.

Lemma le_value_bytes (n : nat) (z : Z) :
  0 <= z < 256 ^ Z.of_nat n -> le_value (le_bytes n z) = z.
Proof.
  revert z; induction n as [|n IH]; intros z Hz; cbn [le_bytes le_value].
  - simpl in Hz. lia.
  - rewrite Nat2Z.inj_succ, Z.pow_succ_r in Hz by lia.
    rewrite Z_of_byte_of_Z, IH.
    + pose proof (Z.div_mod z 256). lia.
    + split; [apply Z.div_pos; lia | apply Z.div_lt_upper_bound; lia].
Qed.

Lemma le_bytes_value (bs : bytes) : le_bytes (length bs) (le_value bs) = bs.
Proof.
  induction bs as [|b bs IH]; [done|]. cbn [length le_value le_bytes].
  pose proof (Z_of_byte_range b). f_equal.
  - apply Z_of_byte_inj. rewrite Z_of_byte_of_Z.
    rewrite (Z.mul_comm 256), Z.mod_add, Z.mod_small by lia. done.
  - rewrite (Z.mul_comm 256), Z.div_add, Z.div_small, Z.add_0_l by lia. done.
Qed.

Lemma le_value_inj (a b : bytes) :
  length a = length b -> le_value a = le_value b -> a = b.
Proof.
  intros Hl Hv. rewrite <- (le_bytes_value a), <- (le_bytes_value b), Hl, Hv. done.
Qed.

Lemma length_to_le_bytes (n : nat) (z : Z) : length (to_le_bytes n z) = n.
Proof. apply length_le_bytes. Qed.
Lemma length_to_be_bytes (n : nat) (z : Z) : length (to_be_bytes n z) = n.
Proof. unfold to_be_bytes. rewrite length_reverse. apply length_le_bytes. Qed.

Lemma from_to_le_bytes (n : nat) (z : Z) :
  0 <= z < 256 ^ Z.of_nat n -> from_le_bytes (to_le_bytes n z) = z.
Proof. apply le_value_bytes. Qed.
Lemma from_to_be_bytes (n : nat) (z : Z) :
  0 <= z < 256 ^ Z.of_nat n -> from_be_bytes (to_be_bytes n z) = z.
Proof.
  intros. unfold from_be_bytes, to_be_bytes. rewrite reverse_involutive.
  by apply le_value_bytes.
Qed.

Lemma to_from_le_bytes (bs : bytes) : to_le_bytes (length bs) (from_le_bytes bs) = bs.
Proof. apply le_bytes_value. Qed.
Lemma to_from_be_bytes (bs : bytes) : to_be_bytes (length bs) (from_be_bytes bs) = bs.
Proof.
  unfold to_be_bytes, from_be_bytes. rewrite <- (length_reverse bs), le_bytes_value.
  apply reverse_involutive.
Qed.

Lemma to_be_bytes_inj (n : nat) (a b : Z) :
  0 <= a < 256 ^ Z.of_nat n -> 0 <= b < 256 ^ Z.of_nat n ->
  to_be_bytes n a = to_be_bytes n b -> a = b.
Proof.
  intros Ha Hb H. rewrite <- (from_to_be_bytes n a), <- (from_to_be_bytes n b), H; done.
Qed.

Lemma from_le_bytes_range (bs : bytes) : 0 <= from_le_bytes bs < 256 ^ blen bs.
Proof. apply le_value_range. Qed.
Lemma from_be_bytes_range (bs : bytes) : 0 <= from_be_bytes bs < 256 ^ blen bs.
Proof.
  unfold from_be_bytes. pose proof (le_value_range (reverse bs)) as H.
  unfold blen in *. by rewrite length_reverse in H.
Qed.

Lemma as_bytes_inj (s t : string) : as_bytes s = as_bytes t -> s = t.
Proof.
  unfold as_bytes. intros H.
  rewrite <- (String.string_of_list_byte_of_string s), H.
  apply String.string_of_list_byte_of_string.
Qed.

(** ** Lengths and slices *)

Create HintDb y2q.
Create Rewrite HintDb blen.

Lemma blen_nonneg {A} (l : list A) : 0 <= blen l.
Proof. unfold blen. lia. Qed.
Lemma blen_nil {A} : blen (@nil A) = 0.
Proof. done. Qed.
Lemma blen_cons {A} (x : A) l : blen (x :: l) = 1 + blen l.
Proof. unfold blen. cbn [length]. lia. Qed.
Lemma blen_app {A} (l k : list A) : blen (l ++ k) = blen l + blen k.
Proof. unfold blen. rewrite length_app. lia. Qed.
Lemma blen_take {A} (n : nat) (l : list A) : blen (take n l) = Z.min (Z.of_nat n) (blen l).
Proof. unfold blen. rewrite length_take. lia. Qed.
Lemma blen_drop {A} (n : nat) (l : list A) : blen (drop n l) = Z.max 0 (blen l - Z.of_nat n).
Proof. unfold blen. rewrite length_drop. lia. Qed.
Lemma blen_replicate {A} (n : nat) (x : A) : blen (replicate n x) = Z.of_nat n.
Proof. unfold blen. by rewrite length_replicate. Qed.
Lemma blen_reverse {A} (l : list A) : blen (reverse l) = blen l.
Proof. unfold blen. by rewrite length_reverse. Qed.
Lemma blen_to_le_bytes n z : blen (to_le_bytes n z) = Z.of_nat n.
Proof. unfold blen. by rewrite length_to_le_bytes. Qed.
Lemma blen_to_be_bytes n z : blen (to_be_bytes n z) = Z.of_nat n.
Proof. unfold blen. by rewrite length_to_be_bytes. Qed.
Lemma blen_zero_inv {A} (l : list A) : blen l = 0 -> l = [].
Proof. destruct l; [done|]. rewrite blen_cons. pose proof (blen_nonneg l). lia. Qed.
Lemma blen_slice {A} (i j : Z) (l : list A) :
  blen (slice i j l) = Z.min (Z.max 0 (j - i)) (Z.max 0 (blen l - Z.max 0 i)).
Proof.
  unfold slice. rewrite blen_take, blen_drop. pose proof (blen_nonneg l). lia.
Qed.

#[export] Hint Rewrite @blen_nil @blen_cons @blen_app @blen_take @blen_drop
  @blen_replicate @blen_reverse @blen_to_le_bytes @blen_to_be_bytes @blen_slice : blen.

(** [blen_lia]: normalise lengths, then linear arithmetic. *)
Ltac pose_blen :=
  repeat match goal with
  | |- context [blen ?l] => is_var l; lazymatch goal with
      | _ : 0 <= blen l |- _ => fail
      | _ => pose proof (blen_nonneg l)
      end
  | _ : context [blen ?l] |- _ => is_var l; lazymatch goal with
      | _ : 0 <= blen l |- _ => fail
      | _ => pose proof (blen_nonneg l)
      end
  end.
Ltac blen_lia := autorewrite with blen in *; pose_blen; lia.

Lemma slice_full {A} (i j : Z) (l : list A) : i <= 0 -> blen l + Z.min i 0 <= j -> slice i j l = l.
Proof.
  intros Hi Hj. unfold slice. replace (Z.to_nat i) with 0%nat by lia.
  rewrite drop_0. apply take_ge. unfold blen in *. lia.
Qed.
Lemma slice_app_skip {A} (i j : Z) (l k : list A) :
  blen l <= i -> slice i j (l ++ k) = slice (i - blen l) (j - blen l) k.
Proof.
  unfold slice, blen. intros H. rewrite drop_app_ge by lia.
  f_equal; [lia|]. f_equal; lia.
Qed.
Lemma slice_app_take {A} (i j : Z) (l k : list A) :
  0 <= i -> j <= blen l -> slice i j (l ++ k) = slice i j l.
Proof.
  unfold slice, blen. intros Hi Hj. destruct (decide (i <= j)) as [Hij|Hij].
  - rewrite drop_app_le by lia. rewrite take_app_le; [done|]. rewrite length_drop. lia.
  - replace (Z.to_nat (j - i)) with 0%nat by lia. done.
Qed.
Lemma slice_app_span {A} (i j : Z) (l k : list A) :
  0 <= i <= blen l -> blen l <= j ->
  slice i j (l ++ k) = slice i (blen l) l ++ slice 0 (j - blen l) k.
Proof.
  unfold slice, blen. intros Hi Hj.
  rewrite drop_app_le, take_app_ge by (rewrite ?length_drop; lia).
  rewrite length_drop, drop_0. f_equal; [|f_equal; lia].
  rewrite take_ge; [done|]. rewrite length_drop. lia.
Qed.
Lemma slice_empty {A} (i j : Z) (l : list A) : j <= i -> slice i j l = [].
Proof. intros. unfold slice. by replace (Z.to_nat (j - i)) with 0%nat by lia. Qed.
Lemma slice_take_drop {A} (i : Z) (l : list A) :
  0 <= i -> l = slice 0 i l ++ slice i (blen l) l.
Proof.
  intros Hi. unfold slice. rewrite drop_0, Z.sub_0_r.
  rewrite (take_ge (drop _ _)) by (rewrite length_drop; unfold blen; lia).
  by rewrite take_drop.
Qed.
Lemma slice_app_middle {A} (i j : Z) (l m k : list A) :
  i = blen l -> j = i + blen m -> slice i j (l ++ m ++ k) = m.
Proof.
  intros -> ->. unfold slice, blen. rewrite Nat2Z.id, drop_app_length.
  replace (Z.to_nat _) with (length m) by lia. apply take_app_length.
Qed.
Lemma slice_slice {A} (a b i j : Z) (l : list A) :
  0 <= a -> 0 <= i -> a + j <= b -> slice i j (slice a b l) = slice (a + i) (a + j) l.
Proof.
  intros. unfold slice. rewrite skipn_firstn_comm, drop_drop, take_take.
  f_equal; [lia|]. f_equal. lia.
Qed.
Lemma slice_join {A} (a b c : Z) (l : list A) :
  0 <= a <= b -> b <= c -> slice a b l ++ slice b c l = slice a c l.
Proof.
  intros. unfold slice.
  replace (Z.to_nat (c - a)) with (Z.to_nat (b - a) + Z.to_nat (c - b))%nat by lia.
  rewrite <- take_take_drop, drop_drop. f_equal. f_equal. f_equal. lia.
Qed.

(** [slices]: reduce slices of a concatenation of fields of known length. *)
Ltac slices :=
  repeat first
    [ rewrite slice_full by blen_lia
    | rewrite slice_app_skip by blen_lia
    | rewrite slice_app_take by blen_lia ].
