(* ===== verification/Effects.v ===== *)
(** * State and errors

    The shape most request handlers have: they read and change the daemon's state, may
    fail, and what they did before failing stays done.  [prog W E T] is such a handler
    over a state [W]; its bind is the [?] of the source.  The lemmas here are the ones
    the handler files share: inversion of a successful run, and the rules of a
    Hoare-style [post] that also speaks about failing runs. *)

From stdpp Require Import relations.
From S2P Require Import Prelude.

Definition prog (W E T : Type) : Type := W -> result E T * W.

#[global] Instance prog_ret W E : MRet (prog W E) := fun T x w => (Ok x, w).
#[global] Instance prog_bind W E : MBind (prog W E) := fun T U f m w =>
  match m w with
  | (Ok x, w) => f x w
  | (Err e, w) => (Err e, w)
  end.

Section combinators.
Context {W E : Type}.

Definition lift_res {T} (m : result E T) : prog W E T := fun w => (m, w).
Definition throw {T} (e : E) : prog W E T := fun w => (Err e, w).
Definition gets {T} (f : W -> T) : prog W E T := fun w => (Ok (f w), w).
Definition modify (f : W -> W) : prog W E unit := fun w => (Ok tt, f w).
(** [if c { return Err(e) }] *)
Definition guard_not (c : bool) (e : E) : prog W E unit := fun w => (if c then Err e else Ok tt, w).
(** Run [h] and answer with the error it is given: the clean-up of a failing branch. *)
Definition fail_after {T} (h : prog W E unit) (e : E) : prog W E T := h ≫= fun _ => throw e.
(** [match m { Ok x => k x, Err e => h e }] *)
Definition match_res {T U} (m : prog W E T) (k : T -> prog W E U) (h : E -> prog W E U) : prog W E U := fun w =>
  match m w with
  | (Ok x, w) => k x w
  | (Err e, w) => h e w
  end.

(** [for x in l { body(x)? }], threading an accumulator. *)
Fixpoint for_each {A S} (body : A -> S -> prog W E S) (l : list A) (s : S) : prog W E S :=
  match l with
  | [] => mret s
  | x :: l => s ← body x s; for_each body l s
  end.

(** ** Inversion of runs *)

Lemma prog_bind_Ok {T U} (m : prog W E T) (f : T -> prog W E U) w x w' :
  (m ≫= f) w = (Ok x, w') -> exists y w1, m w = (Ok y, w1) /\ f y w1 = (Ok x, w').
Proof. unfold mbind, prog_bind. destruct (m w) as [[y|e] w1]; [eauto|]. intros; simplify_eq. Qed.

Lemma prog_bind_Err {T U} (m : prog W E T) (f : T -> prog W E U) w e w' :
  (m ≫= f) w = (Err e, w') ->
  m w = (Err e, w') \/ exists y w1, m w = (Ok y, w1) /\ f y w1 = (Err e, w').
Proof. unfold mbind, prog_bind. destruct (m w) as [[y|e'] w1]; intros; simplify_eq; eauto. Qed.

Lemma prog_bind_run {T U} (m : prog W E T) (f : T -> prog W E U) w y w1 :
  m w = (Ok y, w1) -> (m ≫= f) w = f y w1.
Proof. unfold mbind, prog_bind. by intros ->. Qed.

Lemma prog_bind_fails {T U} (m : prog W E T) (f : T -> prog W E U) w e w1 :
  m w = (Err e, w1) -> (m ≫= f) w = (Err e, w1).
Proof. unfold mbind, prog_bind. by intros ->. Qed.

Lemma run_split {T} (m : prog W E T) w x : fst (m w) = x -> m w = (x, snd (m w)).
Proof. intros <-. by destruct (m w). Qed.

Lemma prog_bind_ext {T U} (m : prog W E T) (f g : T -> prog W E U) w :
  (forall x w1, f x w1 = g x w1) -> (m ≫= f) w = (m ≫= g) w.
Proof. intros Hfg. unfold mbind, prog_bind. by destruct (m w) as [[x|e] w1]. Qed.

Lemma lift_res_Ok {T} (m : result E T) (w : W) x w' : lift_res m w = (Ok x, w') -> m = Ok x /\ w' = w.
Proof. unfold lift_res. intros; by simplify_eq. Qed.

Lemma guard_not_Ok c (e : E) (w : W) x w' : guard_not c e w = (Ok x, w') -> c = false /\ w' = w.
Proof. unfold guard_not. destruct c; intros; by simplify_eq. Qed.

(** ** Postconditions

    [post m P Q w]: a run of [m] from [w] ends in [P] when it succeeds and in [Q] when it
    fails. *)
Definition post {T} (m : prog W E T) (P : T -> W -> Prop) (Q : E -> W -> Prop) (w : W) : Prop :=
  match m w with (Ok x, w') => P x w' | (Err e, w') => Q e w' end.

Lemma post_ret {T} (x : T) P Q w : P x w -> post (mret x) P Q w.
Proof. done. Qed.
Lemma post_bind {T U} (m : prog W E T) (f : T -> prog W E U) P Q w :
  post m (fun x => post (f x) P Q) Q w -> post (m ≫= f) P Q w.
Proof. unfold post, mbind, prog_bind. by destruct (m w) as [[]]. Qed.
Lemma post_lift {T} (m : result E T) P Q w :
  (forall x, m = Ok x -> P x w) -> (forall e, m = Err e -> Q e w) -> post (lift_res m) P Q w.
Proof. unfold post, lift_res. destruct m; eauto. Qed.
Lemma post_gets {T} (f : W -> T) P Q w : P (f w) w -> post (gets f) P Q w.
Proof. done. Qed.
Lemma post_modify f (P : unit -> W -> Prop) Q w : P tt (f w) -> post (modify f) P Q w.
Proof. done. Qed.
Lemma post_throw {T} e (P : T -> W -> Prop) (Q : E -> W -> Prop) w : Q e w -> post (throw e) P Q w.
Proof. done. Qed.
Lemma post_guard c e (P : unit -> W -> Prop) Q w :
  (c = false -> P tt w) -> (c = true -> Q e w) -> post (guard_not c e) P Q w.
Proof. unfold post, guard_not. destruct c; eauto. Qed.
Lemma post_match {T U} (m : prog W E T) (k : T -> prog W E U) h P Q w :
  post m (fun x => post (k x) P Q) (fun e => post (h e) P Q) w -> post (match_res m k h) P Q w.
Proof. unfold post, match_res. by destruct (m w) as [[]]. Qed.
Lemma post_mono {T} (m : prog W E T) (P P' : T -> W -> Prop) (Q Q' : E -> W -> Prop) w :
  (forall x w', P x w' -> P' x w') -> (forall e w', Q e w' -> Q' e w') -> post m P Q w -> post m P' Q' w.
Proof. unfold post. destruct (m w) as [[]]; eauto. Qed.

(** A loop keeps what its body keeps. *)
Lemma post_for_each_err {A S} (body : A -> S -> prog W E S) (I : W -> Prop) (Q : E -> W -> Prop) l : forall s w,
  (forall x s w, x ∈ l -> I w -> post (body x s) (fun _ => I) Q w) ->
  I w -> post (for_each body l s) (fun _ => I) Q w.
Proof.
  induction l as [|x l IH]; intros s w Hb HI; cbn [for_each]; [by apply post_ret|].
  apply post_bind. eapply post_mono; [| |apply (Hb x s w); [by left|done]]; [|done].
  intros s' w' HI'. apply IH; [|done]. intros y s'' w'' Hy. apply Hb. by right.
Qed.

Lemma post_for_each {A S} (body : A -> S -> prog W E S) (I : W -> Prop) l : forall s w,
  (forall x s w, x ∈ l -> I w -> post (body x s) (fun _ => I) (fun _ => I) w) ->
  I w -> post (for_each body l s) (fun _ => I) (fun _ => I) w.
Proof. intros s w. apply post_for_each_err. Qed.

Lemma post_run {T} (m : prog W E T) P Q w x w' : post m P Q w -> m w = (Ok x, w') -> P x w'.
Proof. unfold post. by intros H E0; rewrite E0 in H. Qed.
Lemma post_run_err {T} (m : prog W E T) P Q w e w' : post m P Q w -> m w = (Err e, w') -> Q e w'.
Proof. unfold post. by intros H E0; rewrite E0 in H. Qed.

End combinators.

#[global] Typeclasses Opaque prog.
Arguments post {W E T} m P Q w : simpl never.

(** ** Interleaving

    A [thread] is a handler cut into the operations that are atomic on the shared state; a
    failing one ends it, as [?] does.  Two of them race by taking turns. *)

Inductive thread (W E T : Type) : Type :=
| Halt (r : result E T)
| Atom {X : Type} (m : prog W E X) (k : X -> thread W E T).
Arguments Halt {W E T} r.
Arguments Atom {W E T X} m k.

Section threads.
Context {W E : Type}.

Definition resume {T} (t : thread W E T) (w : W) : thread W E T * W :=
  match t with
  | Halt r => (Halt r, w)
  | Atom m k => match m w with (Ok x, w) => (k x, w) | (Err e, w) => (Halt (Err e), w) end
  end.

(** A thread nobody interferes with. *)
Fixpoint alone {T} (t : thread W E T) : prog W E T :=
  match t with
  | Halt r => lift_res r
  | Atom m k => m ≫= fun x => alone (k x)
  end.

Lemma alone_resume {T} (t t' : thread W E T) w w' : resume t w = (t', w') -> alone t w = alone t' w'.
Proof.
  destruct t as [r|X m k]; cbn; [by intros [= <- <-]|]. unfold mbind, prog_bind. destruct (m w) as [[x|e] w1]; by intros [= <- <-].
Qed.

(** [P] holds of a thread and of everything it can become. *)
Fixpoint always {T} (P : thread W E T -> Prop) (t : thread W E T) : Prop :=
  P t /\ match t with Halt _ => True | Atom m k => forall x, always P (k x) end.

Lemma always_now {T} (P : thread W E T -> Prop) t : always P t -> P t.
Proof. by destruct t; intros [? _]. Qed.

Lemma always_resume {T} (P : thread W E T -> Prop) t w t' w' :
  (forall e, P (Halt (Err e))) -> always P t -> resume t w = (t', w') -> always P t'.
Proof.
  intros He Ha. destruct t as [r|X m k]; cbn; [by intros [= <- <-]|]. destruct Ha as [_ Ha].
  destruct (m w) as [[x|e] w1]; intros [= <- <-]; [done|]. by split.
Qed.

(** Two threads over one state. *)
Inductive race_step {T U} : thread W E T * thread W E U * W -> thread W E T * thread W E U * W -> Prop :=
| race_left t t' u w w' : resume t w = (t', w') -> race_step (t, u, w) (t', u, w')
| race_right t u u' w w' : resume u w = (u', w') -> race_step (t, u, w) (t, u', w').

(** A schedule: [true] lets the left thread go. *)
Fixpoint race_run {T U} (sched : list bool) (c : thread W E T * thread W E U * W) : thread W E T * thread W E U * W :=
  match sched with
  | [] => c
  | first :: sched =>
      let '(t, u, w) := c in
      race_run sched (if first then let '(t, w) := resume t w in (t, u, w) else let '(u, w) := resume u w in (t, u, w))
  end.

Lemma race_run_steps {T U} sched : forall c : thread W E T * thread W E U * W, rtc race_step c (race_run sched c).
Proof.
  induction sched as [|[] sched IH]; intros [[t u] w]; cbn [race_run]; [apply rtc_refl| |].
  - destruct (resume t w) as [t' w'] eqn:E0. eapply rtc_l; [by apply race_left|apply IH].
  - destruct (resume u w) as [u' w'] eqn:E0. eapply rtc_l; [by apply race_right|apply IH].
Qed.

Definition halted {T} (t : thread W E T) : option (result E T) :=
  match t with Halt r => Some r | Atom _ _ => None end.

Lemma race_run_halts {T U} sched (c : thread W E T * thread W E U * W) r s :
  halted (race_run sched c).1.1 = Some r -> halted (race_run sched c).1.2 = Some s ->
  rtc race_step c (Halt r, Halt s, (race_run sched c).2).
Proof.
  intros Hr Hs. pose proof (race_run_steps sched c) as Hrun. destruct (race_run sched c) as [[t u] w]. cbn in *.
  destruct t; simplify_eq/=. by destruct u; simplify_eq/=.
Qed.

End threads.

(** Peel one bind off a run that succeeded. *)
Ltac prog_step H x w H1 :=
  apply prog_bind_Ok in H as (x & w & H1 & H); cbn beta in H.

(** Walk a handler's binds and guards, leaving the interesting steps. *)
Ltac post_steps :=
  repeat first
    [ apply post_bind | apply post_ret | apply post_gets | apply post_modify | apply post_throw
    | apply post_guard; intros ? | apply post_lift; [intros ? ? | intros ? ?] | apply post_match ].

(** Turn a goal about the outcome of the successful run [E] into a postcondition. *)
Ltac run_post E :=
  lazymatch type of E with
  | ?m ?w = (Ok ?x, ?w') =>
      pattern x, w';
      lazymatch goal with
      | |- ?P x w' => refine (post_run m P (fun _ _ => True) w x w' _ E); clear E
      end
  end.
