(* ===== verification/Threads.v ===== *)
(** * Threads under a fair schedule

    A schedule is fair when each side is let go again and again.  A thread is a finite
    tree, whatever the answers it gets, so under a fair schedule both threads of a race
    end.  Also here: several requests in flight, and loops cut into steps. *)

From stdpp Require Import relations.
From S2P Require Import Prelude Effects.

(** The answer of a step, an error too. *)
Definition attempt {W E X} (m : prog W E X) : prog W E (result E X) := fun w => let '(r, w) := m w in (Ok r, w).

Lemma attempt_match {W E X V} (m : prog W E X) (k : X -> prog W E V) h w :
  (attempt m ≫= fun r => match r with Ok x => k x | Err e => h e end) w = match_res m k h w.
Proof. unfold attempt, match_res, mbind, prog_bind. by destruct (m w) as [[x|e] w1]. Qed.

Lemma prog_bind_assoc {W E X Y V} (m : prog W E X) (f : X -> prog W E Y) (g : Y -> prog W E V) w : ((m ≫= f) ≫= g) w = (m ≫= fun x => f x ≫= g) w.
Proof. unfold mbind, prog_bind. by destruct (m w) as [[x|e] w1]. Qed.

(** [for x in l { body }], where the body goes on with what it accumulated. *)
Fixpoint each {W E X S V} (body : X -> S -> (S -> thread W E V) -> thread W E V) (l : list X) (s : S) (k : S -> thread W E V) : thread W E V :=
  match l with
  | [] => k s
  | x :: l => body x s (fun s => each body l s k)
  end.

Lemma each_alone {W E X S V} (body : X -> S -> (S -> thread W E V) -> thread W E V) (step : X -> S -> prog W E S) l k :
  (forall x s k w, alone (body x s k) w = (step x s ≫= fun s => alone (k s)) w) ->
  forall s w, alone (each body l s k) w = (for_each step l s ≫= fun s => alone (k s)) w.
Proof.
  intros Hb. induction l as [|x l IH]; intros s w; cbn [each for_each]; [done|]. rewrite Hb. unfold mbind, prog_bind in *.
  destruct (step x s w) as [[s1|e] w1]; [|done]. apply IH.
Qed.

Section schedules.
Context {W E : Type}.

Definition fair (sched : nat -> bool) : Prop := forall b n, exists m, (n <= m)%nat /\ sched m = b.
Definition shift (sched : nat -> bool) : nat -> bool := fun i => sched (S i).
Definition upto (sched : nat -> bool) (n : nat) : list bool := sched <$> seq 0 n.

Lemma fair_shift sched : fair sched -> fair (shift sched).
Proof. intros Hf b n. destruct (Hf b (S n)) as ([|m] & Hm & E0); [lia|]. exists m. split; [lia|done]. Qed.
Lemma upto_S sched n : upto sched (S n) = sched 0%nat :: upto (shift sched) n.
Proof. unfold upto. cbn [seq fmap list_fmap]. f_equal. rewrite <- fmap_S_seq, <- list_fmap_compose. done. Qed.
Lemma upto_add sched n : forall m, upto sched (n + m) = upto sched n ++ upto (fun i => sched (n + i)%nat) m.
Proof.
  intros m. unfold upto. rewrite seq_app, fmap_app. f_equal. cbn [Nat.add].
  replace (seq n m) with (Nat.add n <$> seq 0 m) by (rewrite fmap_add_seq; by rewrite Nat.add_0_r). by rewrite <- list_fmap_compose.
Qed.
Lemma fair_add sched n : fair sched -> fair (fun i => sched (n + i)%nat).
Proof. intros Hf b k. destruct (Hf b (n + k)%nat) as (m & Hm & E0). exists (m - n)%nat. split; [lia|]. by replace (n + (m - n))%nat with m by lia. Qed.

Lemma race_run_app {T U} s s' : forall c : thread W E T * thread W E U * W, race_run (s ++ s') c = race_run s' (race_run s c).
Proof. induction s as [|b s IH]; intros [[t u] w]; [done|]. cbn [app race_run]. apply IH. Qed.

Lemma left_halts {T U} (t : thread W E T) : forall (u : thread W E U) w sched, fair sched -> exists n r u' w', race_run (upto sched n) (t, u, w) = (Halt r, u', w').
Proof.
  induction t as [r|X m k IH]; intros u w sched Hf; [by exists 0%nat, r, u, w|].
  assert (Hwait : forall i sched (u : thread W E U) w, fair sched -> sched i = true -> exists n r u' w', race_run (upto sched n) (Atom m k, u, w) = (Halt r, u', w')).
  { clear u w sched Hf. induction i as [|i IHi]; intros sched u w Hf Hi; (destruct (sched 0%nat) eqn:E0; [|try congruence]).
    1,2: cbn [resume]; destruct (m w) as [[x|e] w1] eqn:Em;
      [destruct (IH x u w1 (shift sched) (fair_shift _ Hf)) as (n & r & u' & w' & En); exists (S n), r, u', w'; rewrite upto_S, E0; cbn [race_run resume]; by rewrite Em
      |exists 1%nat, (Err e), u, w1; rewrite upto_S, E0; cbn [race_run resume upto seq fmap list_fmap]; by rewrite Em].
    destruct (resume u w) as [u1 w1] eqn:Eu. destruct (IHi (shift sched) u1 w1 (fair_shift _ Hf) Hi) as (n & r & u' & w' & En).
    exists (S n), r, u', w'. rewrite upto_S, E0. cbn [race_run]. by rewrite Eu. }
  destruct (Hf true 0%nat) as (i & _ & Hi). by apply (Hwait i).
Qed.

(** The other side, by symmetry. *)
Lemma race_run_swap {T U} s : forall (t : thread W E T) (u : thread W E U) w, race_run (negb <$> s) (u, t, w) = let '(t, u, w) := race_run s (t, u, w) in (u, t, w).
Proof.
  induction s as [|[] s IH]; intros t u w; [done|cbn [fmap list_fmap negb race_run]..].
  - destruct (resume t w) as [t1 w1]. apply IH.
  - destruct (resume u w) as [u1 w1]. apply IH.
Qed.
Lemma right_halts {T U} (u : thread W E U) (t : thread W E T) w sched : fair sched -> exists n r t' w', race_run (upto sched n) (t, u, w) = (t', Halt r, w').
Proof.
  intros Hf. destruct (left_halts u t w (fun i => negb (sched i))) as (n & r & t' & w' & En).
  { intros b n. destruct (Hf (negb b) n) as (m & Hm & E0). exists m. split; [done|]. by rewrite E0, negb_involutive. }
  exists n, r, t', w'. replace (upto (fun i => negb (sched i)) n) with (negb <$> upto sched n) in En by (unfold upto; by rewrite <- list_fmap_compose).
  rewrite race_run_swap in En. destruct (race_run (upto sched n) (t, u, w)) as [[t1 u1] w1]. by injection En as -> -> ->.
Qed.

Lemma halt_stays {T U} s (r : result E T) : forall (u : thread W E U) w, (race_run s (Halt r, u, w)).1.1 = Halt r.
Proof. induction s as [|[] s IH]; intros u w; [done|cbn [race_run resume]; apply IH|]. cbn [race_run]. destruct (resume u w) as [u1 w1]. apply IH. Qed.

(** Under a fair schedule both threads end. *)
Lemma race_ends {T U} (t : thread W E T) (u : thread W E U) w sched : fair sched -> exists n r s w', race_run (upto sched n) (t, u, w) = (Halt r, Halt s, w').
Proof.
  intros Hf. destruct (left_halts t u w sched Hf) as (n & r & u1 & w1 & E1). destruct (right_halts u1 (Halt r : thread W E T) w1 _ (fair_add sched n Hf)) as (m & s & t2 & w2 & E2).
  pose proof (halt_stays (upto (fun i => sched (n + i)%nat) m) r u1 w1) as Hr. rewrite E2 in Hr. cbn in Hr. subst t2.
  exists (n + m)%nat, r, s, w2. by rewrite upto_add, race_run_app, E1.
Qed.

(** ** Requests in flight *)

Inductive Flight : Type :=
| InFlight {T : Type} (t : thread W E T).

(** A request arrives, or one of those in flight takes its next step. *)
Inductive pool_step {Q} (thread_of : Q -> Flight) : list Flight * W -> list Flight * W -> Prop :=
| pool_arrive q l w : pool_step thread_of (l, w) (thread_of q :: l, w)
| pool_advance {T} l l' (t t' : thread W E T) w w' : resume t w = (t', w') -> pool_step thread_of (l ++ InFlight t :: l', w) (l ++ InFlight t' :: l', w').

(** [I] is kept by every step of the thread, whoever else kept it in between. *)
Fixpoint steady_thread {T} (I : W -> Prop) (t : thread W E T) : Prop :=
  match t with
  | Halt _ => True
  | Atom m k => forall w, I w -> post m (fun x w' => I w' /\ steady_thread I (k x)) (fun _ => I) w
  end.
Definition steady_flight (I : W -> Prop) (f : Flight) : Prop := let '(InFlight t) := f in steady_thread I t.

Lemma steady_resume {T} (I : W -> Prop) (t t' : thread W E T) w w' : steady_thread I t -> I w -> resume t w = (t', w') -> I w' /\ steady_thread I t'.
Proof.
  destruct t as [r|X m k]; cbn [steady_thread resume]; [by intros _ Hi [= <- <-]|]. intros Ht Hi. specialize (Ht w Hi). unfold post in Ht.
  destruct (m w) as [[x|e] w1]; by intros [= <- <-].
Qed.

Lemma pool_keeps {Q} (thread_of : Q -> Flight) (I : W -> Prop) c c' : (forall q, steady_flight I (thread_of q)) ->
  rtc (pool_step thread_of) c c' -> I c.2 -> Forall (steady_flight I) c.1 -> I c'.2.
Proof.
  intros Hq Hs. induction Hs as [|c c1 c' Hstep _ IH]; [done|]. intros Hi Hp. destruct Hstep as [q l w|T l l' t t' w w' E0]; cbn in *; [apply IH; auto|].
  apply Forall_app in Hp as [Hl Hp]. apply Forall_cons in Hp as [Ht Hl']. destruct (steady_resume I t t' w w' Ht Hi E0) as [Hi' Ht']. apply IH; [done|].
  apply Forall_app. split; [done|]. by apply Forall_cons.
Qed.
End schedules.
Arguments InFlight {W E T} t.
Arguments Flight : clear implicits.
