(* ===== verification/Primitives.v ===== *)
(** * The third-party primitives y2q calls

    The crates behind these operations (aes-gcm, ml-kem, hkdf, hmac, crc32fast,
    base64, xxhash-rust) are not part of the repository.  Each is an operational
    type class; what y2q relies on of its documented behaviour is the matching
    [..Laws] class, an explicit hypothesis of every theorem that uses it.
    [Module Toy] gives one concrete implementation of each interface that
    satisfies its laws; it is used only to show the hypotheses can hold. *)

From S2P Require Import Prelude.

(** ** Interfaces *)

(** [aes_gcm::Aes256Gcm]: [encrypt_in_place] appends a 16-byte tag and fails only
    on an over-long message; [decrypt_in_place] checks and strips it. *)
Class AeadOps := {
  aead_encrypt : bytes -> bytes -> bytes -> bytes -> option bytes;
  aead_decrypt : bytes -> bytes -> bytes -> bytes -> option bytes;
}.

(** Longest AES-GCM message the crate accepts, in bytes. *)
Definition AEAD_P_MAX : Z := 2 ^ 36.

Class AeadLaws {A : AeadOps} : Prop := {
  aead_encrypt_total : forall k n a p,
    blen p <= AEAD_P_MAX -> exists c, aead_encrypt k n a p = Some c;
  aead_encrypt_len : forall k n a p c,
    aead_encrypt k n a p = Some c -> blen c = blen p + 16;
  aead_decrypt_encrypt : forall k n a p c,
    aead_encrypt k n a p = Some c -> aead_decrypt k n a c = Some p;
  aead_encrypt_decrypt : forall k n a c p,
    aead_decrypt k n a c = Some p -> aead_encrypt k n a p = Some c;
}.

(** [ml_kem::ml_kem_768]; [Ek]/[Dk] are the encapsulation and decapsulation key
    types, ciphertexts and shared secrets are byte arrays.  The explicit [bytes]
    argument of generation and encapsulation is the randomness drawn. *)
Class KemOps := {
  Ek : Type;
  Dk : Type;
  dk_generate : bytes -> Dk;
  dk_encapsulation_key : Dk -> Ek;
  ek_encapsulate : Ek -> bytes -> bytes * bytes;
  dk_decapsulate : Dk -> bytes -> bytes;
  ek_new_from_slice : bytes -> option Ek;
  ek_to_bytes : Ek -> bytes;
  dk_from_expanded_bytes : bytes -> option Dk;
  dk_to_expanded_bytes : Dk -> bytes;
}.

Class KemLaws {K : KemOps} : Prop := {
  ml_kem_correct : forall dk r,
    dk_decapsulate dk (fst (ek_encapsulate (dk_encapsulation_key dk) r)) =
    snd (ek_encapsulate (dk_encapsulation_key dk) r);
  ml_kem_ct_len : forall ek r, blen (fst (ek_encapsulate ek r)) = 1088;
  ek_bytes_len : forall ek, blen (ek_to_bytes ek) = 1184;
  dk_bytes_len : forall dk, blen (dk_to_expanded_bytes dk) = 2400;
  ek_decode_encode : forall ek, ek_new_from_slice (ek_to_bytes ek) = Some ek;
  dk_decode_encode : forall dk, dk_from_expanded_bytes (dk_to_expanded_bytes dk) = Some dk;
}.

(** [Hkdf::<Sha256>::new(Some(salt), ikm).expand(info, &mut out)] for an output of
    the given length; fails only beyond 255 hash blocks. *)
Class HkdfOps := { hkdf_sha256_expand : bytes -> bytes -> bytes -> nat -> option bytes }.

Class HkdfLaws {H : HkdfOps} : Prop := {
  hkdf_expand_total : forall salt ikm info len,
    (len <= 255 * 32)%nat ->
    exists out, hkdf_sha256_expand salt ikm info len = Some out /\ length out = len;
}.

(** [Hmac<Sha256>] (key, message) and [crc32fast::hash]. *)
Class HashOps := {
  hmac_sha256 : bytes -> bytes -> bytes;
  crc32 : bytes -> Z;
}.

Class HashLaws {H : HashOps} : Prop := {
  hmac_sha256_len : forall k m, blen (hmac_sha256 k m) = 32;
  crc32_range : forall m, in_u 32 (crc32 m);
}.

(** [xxhash_rust::xxh3::Xxh3], a streaming hasher whose digest depends only on the
    concatenation of what it was fed. *)
Class Xxh3Ops := {
  xxh3 : Type;
  xxh3_with_seed : Z -> xxh3;
  xxh3_update : xxh3 -> bytes -> xxh3;
  xxh3_digest : xxh3 -> Z;
}.

Class Xxh3Laws {X : Xxh3Ops} : Prop := {
  xxh3_update_app : forall h a b,
    xxh3_update (xxh3_update h a) b = xxh3_update h (a ++ b);
  xxh3_update_nil : forall h, xxh3_update h [] = h;
}.

(** [base64::engine::general_purpose::STANDARD]. *)
Class Base64Ops := {
  b64_encode : bytes -> string;
  b64_decode : string -> option bytes;
}.

Class Base64Laws {B : Base64Ops} : Prop := {
  b64_decode_encode : forall b, b64_decode (b64_encode b) = Some b;
  b64_encode_len : forall b, blen (as_bytes (b64_encode b)) <= 4 * ((blen b + 2) / 3);
}.

(** [rand::rng()]: [fill_bytes] of a buffer of the given length. *)
Class RngOps := {
  rng : Type;
  fill_bytes : rng -> nat -> bytes * rng;
}.

Class RngLaws {R : RngOps} : Prop := {
  fill_bytes_len : forall r n, length (fst (fill_bytes r n)) = n;
}.

(** [rand::rng().random_range(0..n)]. *)
Class RandomRange {R : RngOps} := { random_range : rng -> nat -> nat * rng }.

Class RandomRangeLaws {R : RngOps} {RR : RandomRange} : Prop := {
  random_range_lt : forall r n, (0 < n)%nat -> (fst (random_range r n) < n)%nat;
}.

(** [argon2]: [Params::new] and [hash_password_into] of a 32-byte output; errors carry
    the crate's message. *)
Class Argon2Ops := {
  argon2_params : Z -> Z -> Z -> result string unit;
  argon2id : Z -> Z -> Z -> bytes -> bytes -> result string bytes;
}.

Class Argon2Laws {G : Argon2Ops} : Prop := {
  argon2id_len : forall m t p password salt k,
    argon2id m t p password salt = Ok k -> blen k = 32;
}.

(** SHA-256 ([sha2]) and the URL-safe unpadded base64 alphabet ([base64]) of bearer
    tokens. *)
Class TokenOps := {
  sha256 : bytes -> bytes;
  b64url_encode : bytes -> string;
}.

Class TokenLaws {T : TokenOps} : Prop := {
  sha256_len : forall m, length (sha256 m) = 32%nat;
}.

(** ** Concrete instances, for witnesses only *)

Module Toy.

Definition sum (b : bytes) : byte := byte_of_Z (foldr (fun x acc => Z_of_byte x + acc) 0 b).

(** A 16-byte tag that depends on every input and on the last AAD byte. *)
Definition tag (k n a p : bytes) : bytes :=
  [ default x00 (last a); sum a; sum n; sum p ] ++ take 12 (k ++ replicate 12 x00).

Lemma blen_tag k n a p : blen (tag k n a p) = 16.
Proof.
  unfold tag, blen. rewrite length_app, length_take, length_app, length_replicate.
  cbn [length]. lia.
Qed.

Definition seal (k n a p : bytes) : option bytes :=
  if blen p <=? AEAD_P_MAX then Some (p ++ tag k n a p) else None.

Definition open (k n a c : bytes) : option bytes :=
  let p := take (length c - 16) c in
  if bool_decide (c = p ++ tag k n a p) && (blen p <=? AEAD_P_MAX) then Some p else None.

Definition aead : AeadOps := {| aead_encrypt := seal; aead_decrypt := open |}.

Lemma aead_laws : @AeadLaws aead.
Proof.
  split; cbn; unfold seal, open; intros.
  - rewrite (proj2 (Z.leb_le _ _)) by done. eauto.
  - case_match; simplify_eq. rewrite blen_app, blen_tag. done.
  - case_match eqn:E; simplify_eq.
    assert (take (length (p ++ tag k n a p) - 16) (p ++ tag k n a p) = p) as ->.
    { pose proof (blen_tag k n a p). unfold blen in *.
      rewrite length_app, take_app_le by lia. apply take_ge. lia. }
    rewrite bool_decide_eq_true_2, E by done. done.
  - case_match eqn:E; simplify_eq. apply andb_true_iff in E as [E1 E2].
    apply bool_decide_eq_true_1 in E1. rewrite E2. by rewrite <- E1.
Qed.

Definition kem : KemOps := {|
  Ek := unit; Dk := unit;
  dk_generate := fun _ => tt;
  dk_encapsulation_key := fun _ => tt;
  ek_encapsulate := fun _ r => (replicate 1087 x00 ++ [sum r], replicate 31 x01 ++ [sum r]);
  dk_decapsulate := fun _ c => replicate 31 x01 ++ [default x00 (last c)];
  ek_new_from_slice := fun _ => Some tt;
  ek_to_bytes := fun _ => replicate 1184 x02;
  dk_from_expanded_bytes := fun _ => Some tt;
  dk_to_expanded_bytes := fun _ => replicate 2400 x03;
|}.

Lemma kem_laws : @KemLaws kem.
Proof.
  split; cbn -[replicate]; intros; rewrite ?last_app, ?blen_app, ?blen_replicate; try done.
  - by destruct ek.
  - by destruct dk.
Qed.

Definition hkdf : HkdfOps := {|
  hkdf_sha256_expand := fun salt ikm info len =>
    Some (take len ([sum salt; sum ikm; sum info] ++ replicate len x00)) |}.

Lemma hkdf_laws : @HkdfLaws hkdf.
Proof.
  split. cbn. intros. eexists; split; [done|].
  rewrite length_take. cbn [length]. rewrite length_replicate. lia.
Qed.

Definition hash : HashOps := {|
  hmac_sha256 := fun k m => [sum k; sum m] ++ replicate 30 x00;
  crc32 := fun m => Z_of_byte (sum m) |}.

Lemma hash_laws : @HashLaws hash.
Proof.
  split; cbn -[replicate]; intros.
  - by rewrite !blen_cons, blen_replicate.
  - unfold in_u. pose proof (Z_of_byte_range (sum m)). lia.
Qed.

Definition xxh3_ops : Xxh3Ops := {|
  xxh3 := bytes; xxh3_with_seed := fun _ => [];
  xxh3_update := fun h b => h ++ b;
  xxh3_digest := fun h => Z_of_byte (sum h) |}.

Lemma xxh3_laws : @Xxh3Laws xxh3_ops.
Proof. split; cbn; intros; [by rewrite app_assoc | by rewrite app_nil_r]. Qed.

Definition base64 : Base64Ops := {|
  b64_encode := String.string_of_list_byte;
  b64_decode := fun s => Some (String.list_byte_of_string s) |}.

Lemma base64_laws : @Base64Laws base64.
Proof.
  split; intros b; cbn [b64_encode b64_decode base64].
  - exact (f_equal Some (String.list_byte_of_string_of_list_byte b)).
  - unfold as_bytes. rewrite String.list_byte_of_string_of_list_byte. pose proof (Z.div_mod (blen b + 2) 3 ltac:(lia)). pose proof (Z.mod_pos_bound (blen b + 2) 3 ltac:(lia)).
    pose proof (blen_nonneg b). lia.
Qed.

Definition token_ops : TokenOps := {|
  sha256 := fun m => take 32 (m ++ replicate 32 x00);
  b64url_encode := String.string_of_list_byte |}.

Lemma token_laws : @TokenLaws token_ops.
Proof.
  split. intros m. change (length (take 32 (m ++ replicate 32 x00)) = 32%nat).
  rewrite length_take, length_app, length_replicate. lia.
Qed.

(** A counter: the n-th draw is a run of bytes [n]. *)
Definition rng_ops : RngOps := {|
  rng := Z; fill_bytes := fun r n => (replicate n (byte_of_Z r), r + 1) |}.

Lemma rng_laws : @RngLaws rng_ops.
Proof. split; intros. apply length_replicate. Qed.

Definition range_ops : @RandomRange rng_ops :=
  @Build_RandomRange rng_ops (fun (r : Z) n => (Nat.modulo (Z.to_nat r) n, r + 1)).

Lemma range_laws : @RandomRangeLaws rng_ops range_ops.
Proof. split. intros r n Hn. apply Nat.mod_upper_bound. lia. Qed.

Definition argon2 : Argon2Ops := {|
  argon2_params := fun m t p => if 8 <=? m then Ok tt else Err "m_cost";
  argon2id := fun m t p pw salt => Ok (sum salt :: take 31 (pw ++ replicate 31 x00)) |}.

Lemma argon2_laws : @Argon2Laws argon2.
Proof.
  split. intros m t p pw salt k [= <-]. rewrite blen_cons. unfold blen.
  change (1 + Z.of_nat (length (take 31 (pw ++ replicate 31 x00))) = 32).
  rewrite length_take, length_app, length_replicate. lia.
Qed.

End Toy.
