(* ===== verification/Types.v ===== *)
(** * The shared data types of y2q-core/src/lib.rs: errors, object metadata, and the
    read interface of the storage backends. *)

From stdpp Require Import pretty.
From S2P Require Import Prelude.

(** [y2q_core::Error]; a [SystemTime] is a number of nanoseconds. *)
Inductive Error : Type :=
| InvalidBucket (bucket : string)
| InvalidKey (key : string)
| NotFound (bucket key : string)
| Locked (bucket key : string) (since : Z)
| ReservedLabel (name : string)
| InvalidLabelValue (name : string)
| LabelNameTooLong (name : string)
| LabelValueTooLong (name : string)
| TooManyLabels (count : Z)
| Index (message : string)
| InternalError (bucket key operation message : string)
| RebuildAlreadyRunning
| InvalidStaleLockThreshold (value : string)
| QuotaExceeded (bucket : string) (limit used incoming : Z)
| BodyTooLarge (bucket key : string) (limit : Z)
| BadRequestBody (bucket key message : string)
| Forbidden (bucket : string)
| InvalidAcl (reason : string)
| AclConflict (reason : string)
| InvalidPersonaRequest (reason : string)
| KeystoreNotFound (path : string)
| KeystoreCorrupt (path reason : string)
| KdfFailed (reason : string)
| EncryptionFailed (bucket key : string)
| DecryptionFailed (bucket key : string)
| EnvelopeMalformed (bucket key reason : string)
| UnsupportedEnvelopeVersion (version : Z)
| Query (message : string)
| TooManyBucketKeyEpochs (bucket : string) (count max : Z)
| RekeyAlreadyRunning (bucket : string).

#[global] Instance Error_eq_dec : EqDecision Error.
Proof. solve_decision. Defined.

(** [SystemTime]'s [Debug], from nanoseconds since the epoch. *)
Definition SystemTime_debug (t : Z) : string :=
  "SystemTime { tv_sec: " ++ pretty (t / 1000000000) ++ ", tv_nsec: " ++ pretty (t mod 1000000000) ++ " }".

(** [Error]'s [Display]. *)
Definition Error_display (e : Error) : string :=
  match e with
  | InvalidBucket b => "invalid bucket: " ++ b
  | InvalidKey k => "invalid key: " ++ k
  | NotFound b k => "not found: " ++ b ++ "/" ++ k
  | Locked b k since => "object " ++ b ++ "/" ++ k ++ " is locked since " ++ SystemTime_debug since
  | ReservedLabel n => "reserved label: " ++ n
  | InvalidLabelValue n => "invalid label value (not UTF-8): " ++ n
  | LabelNameTooLong n => "label name too long: " ++ n
  | LabelValueTooLong n => "label value too long: " ++ n
  | TooManyLabels c => "too many labels: " ++ pretty c
  | Index m => "index error: " ++ m
  | InternalError b k o m => "internal error in " ++ o ++ " on " ++ b ++ "/" ++ k ++ ": " ++ m
  | RebuildAlreadyRunning => "rebuild already in progress"
  | InvalidStaleLockThreshold v => "invalid stale-lock threshold: " ++ v
  | QuotaExceeded b limit used incoming => "bucket `" ++ b ++ "` quota exceeded: " ++ pretty used ++ " + "
      ++ pretty incoming ++ " > " ++ pretty limit ++ " bytes"
  | BodyTooLarge b k limit => "object body for " ++ b ++ "/" ++ k ++ " exceeds the allowed size (" ++ pretty limit ++ " bytes)"
  | BadRequestBody b k m => "bad request body for " ++ b ++ "/" ++ k ++ ": " ++ m
  | Forbidden b => "forbidden: insufficient permission on bucket `" ++ b ++ "`"
  | InvalidAcl r => "invalid acl: " ++ r
  | AclConflict r => "acl conflict: " ++ r
  | InvalidPersonaRequest r => "invalid persona request: " ++ r
  | KeystoreNotFound p => "keystore not found at " ++ p
  | KeystoreCorrupt p r => "keystore corrupt at " ++ p ++ ": " ++ r
  | KdfFailed r => "kdf failure: " ++ r
  | EncryptionFailed b k => "encryption failed for " ++ b ++ "/" ++ k
  | DecryptionFailed b k => "decryption failed for " ++ b ++ "/" ++ k
  | EnvelopeMalformed b k r => "envelope malformed for " ++ b ++ "/" ++ k ++ ": " ++ r
  | UnsupportedEnvelopeVersion v => "unsupported envelope version: " ++ pretty v
  | Query m => "invalid query: " ++ m
  | TooManyBucketKeyEpochs b count max => "bucket `" ++ b ++ "` has " ++ pretty count ++ " retained key epochs (max "
      ++ pretty max ++ "); run rekey to prune before rotating again"
  | RekeyAlreadyRunning b => "rekey already in progress for bucket `" ++ b ++ "`"
  end.

(** [y2q_core::crypto::Role]. *)
Inductive Role : Type := Admin | User | ReadOnly | WriteOnly | Auditor | Disabled.
#[global] Instance Role_eq_dec : EqDecision Role.
Proof. solve_decision. Defined.

Definition LabelSet : Type := gset (string * string).

Record Metadata : Type := mkMetadata {
  md_created : Z;
  md_modified : Z;
  md_size : Z;
  md_checksum_gxhash : string;
  md_bucket : string;
  md_key : string;
  md_disk_path : string;
  md_url_path : string;
  md_labels : LabelSet;
  md_cipher_size : option Z;
  md_cipher_checksum : option string;
  md_kem_alg : option string;
  md_aead_alg : option string;
  md_envelope_version : option Z;
  md_version : option Z;
  md_committed_at : option Z;
  md_key_epoch : option Z;
}.

Record PlaintextMetrics : Type := mkPlaintextMetrics {
  pm_size : Z;
  pm_checksum_gxhash_b64 : string;
}.

Record CipherMetadata : Type := mkCipherMetadata {
  cm_cipher_size : Z;
  cm_cipher_checksum_b64 : string;
  cm_kem_alg : string;
  cm_aead_alg : string;
  cm_envelope_version : Z;
  cm_key_epoch : Z;
}.

(** The read half of the [Storage] trait that the cipher adapter calls. *)
Class StorageReader : Type := {
  get_range : string -> string -> Z -> Z -> result Error bytes;
}.

(** [get_range] is inclusive and clamped to the object, as the trait documents. *)
Definition serves {SR : StorageReader} (bucket key : string) (obj : bytes) : Prop :=
  forall a b, 0 <= a <= b -> get_range bucket key a b = Ok (slice a (Z.min (b + 1) (blen obj)) obj).
