(* ===== verification/Format.v ===== *)
(** * On-disk container format ([y2q-core/src/storage/format.rs])

    The 64-byte header record of a [.obj] file and its bitwise mirror, the
    trailer: field layout, CRC32 torn-write check, HMAC bound to the object id,
    and the arithmetic that lays out data, metadata and trailer in the file. *)

From S2P Require Import Prelude Primitives.

Definition MAGIC : bytes := as_bytes "Y2QO".
Definition VERSION : Z := 2.
Definition HEADER_SIZE : Z := 64.
Definition MIN_DIRECT_DATA_OFFSET : Z := 4096.

Module flags.
Definition WRITTEN_O_DIRECT : Z := Z.shiftl 1 0.
Definition DURABLE : Z := Z.shiftl 1 1.
End flags.

Inductive FormatError : Type :=
| FE_Magic
| FE_Version (v : Z)
| FE_Crc
| FE_Mac
| FE_TotalLen (declared actual : Z)
| FE_DataOffset (off : Z).

#[global] Instance FormatError_eq_dec : EqDecision FormatError.
Proof. solve_decision. Defined.

Record Header : Type := mkHeader {
  data_len : Z;     (* u64 *)
  meta_len : Z;     (* u32 *)
  data_offset : Z;  (* u32 *)
  hflags : Z;       (* u16 *)
  version : Z;      (* u16 *)
}.

#[global] Instance Header_eq_dec : EqDecision Header.
Proof. solve_decision. Defined.

Definition MIN_DATA_OFFSET : Z := HEADER_SIZE.

(** The two unchecked accessors use plain [u64] addition, which wraps. *)
Definition meta_offset (h : Header) : Z := (data_offset h + data_len h) mod 2 ^ 64.
Definition trailer_offset (h : Header) : Z := (meta_offset h + meta_len h) mod 2 ^ 64.

Definition checked_total_len (h : Header) : option Z :=
  a ← checked_add_u64 (data_offset h) (data_len h);
  b ← checked_add_u64 a (meta_len h);
  checked_add_u64 b HEADER_SIZE.

Definition check_total_len (h : Header) (actual : Z) : result FormatError unit :=
  match checked_total_len h with
  | Some declared =>
      if declared =? actual then Ok tt else Err (FE_TotalLen declared actual)
  | None => Err (FE_TotalLen u64_max actual)
  end.

Section with_hash.
Context {H : HashOps}.

Definition mac (chk buf : bytes) (object_id : string) : bytes :=
  hmac_sha256 chk (slice 0 24 buf ++ as_bytes object_id).

(** Bytes 0..24: every field that drives a read. *)
Definition header_prefix (h : Header) : bytes :=
  MAGIC ++ to_le_bytes 2 (version h) ++ to_le_bytes 2 (hflags h) ++
  to_le_bytes 8 (data_len h) ++ to_le_bytes 4 (meta_len h) ++ to_le_bytes 4 (data_offset h).

Definition encode (h : Header) (chk : bytes) (object_id : string) : bytes :=
  let pre := header_prefix h in
  let body := pre ++ mac chk pre object_id ++ replicate 4 x00 in
  body ++ to_le_bytes 4 (crc32 body).

Definition decode (buf chk : bytes) (object_id : string) : result FormatError Header :=
  if negb (bool_decide (slice 0 4 buf = MAGIC)) then Err FE_Magic else
  let version := from_le_bytes (slice 4 6 buf) in
  if negb (version =? VERSION) then Err (FE_Version version) else
  let stored_crc := from_le_bytes (slice 60 64 buf) in
  let computed_crc := crc32 (slice 0 60 buf) in
  if negb (stored_crc =? computed_crc) then Err FE_Crc else
  let expected := mac chk buf object_id in
  if negb (bool_decide (slice 24 56 buf = expected)) then Err FE_Mac else
  let flags := from_le_bytes (slice 6 8 buf) in
  let data_len := from_le_bytes (slice 8 16 buf) in
  let meta_len := from_le_bytes (slice 16 20 buf) in
  let raw_data_offset := from_le_bytes (slice 20 24 buf) in
  let data_offset := if raw_data_offset =? 0 then MIN_DATA_OFFSET else raw_data_offset in
  if data_offset <? MIN_DATA_OFFSET then Err (FE_DataOffset data_offset) else
  Ok (mkHeader data_len meta_len data_offset flags version).

End with_hash.

(** ** Well-formedness *)

(** The field widths of the Rust struct. *)
Definition header_fits (h : Header) : Prop :=
  in_u 64 (data_len h) /\ in_u 32 (meta_len h) /\ in_u 32 (data_offset h) /\
  in_u 16 (hflags h) /\ in_u 16 (version h).

(** What every writer in the code base produces. *)
Definition header_wf (h : Header) : Prop :=
  header_fits h /\ version h = VERSION /\ MIN_DATA_OFFSET <= data_offset h.

(** A header as it was written before [data_offset] existed. *)
Definition with_raw_offset (h : Header) (raw : Z) : Header :=
  mkHeader (data_len h) (meta_len h) raw (hflags h) (version h).

Lemma blen_MAGIC : blen MAGIC = 4.
Proof. done. Qed.
#[export] Hint Rewrite blen_MAGIC : blen.

Section theorems.
Context {H : HashOps} {HL : HashLaws}.

Lemma blen_header_prefix h : blen (header_prefix h) = 24.
Proof. unfold header_prefix. blen_lia. Qed.

Lemma blen_mac chk buf oid : blen (mac chk buf oid) = 32.
Proof. apply hmac_sha256_len. Qed.

Hint Rewrite blen_header_prefix blen_mac : blen.

Lemma blen_encode h chk oid : blen (encode h chk oid) = 64.
Proof. unfold encode. blen_lia. Qed.

Lemma mac_prefix chk pre rest oid : blen pre = 24 -> mac chk (pre ++ rest) oid = mac chk pre oid.
Proof. intros. unfold mac. by slices. Qed.

Lemma header_prefix_fields h rest :
  let buf := header_prefix h ++ rest in
  slice 0 4 buf = MAGIC /\ slice 4 6 buf = to_le_bytes 2 (version h) /\
  slice 6 8 buf = to_le_bytes 2 (hflags h) /\ slice 8 16 buf = to_le_bytes 8 (data_len h) /\
  slice 16 20 buf = to_le_bytes 4 (meta_len h) /\ slice 20 24 buf = to_le_bytes 4 (data_offset h).
Proof.
  intros buf. subst buf. unfold header_prefix. rewrite <- !app_assoc.
  repeat split; by slices.
Qed.

Lemma encode_sections h chk oid :
  slice 24 56 (encode h chk oid) = mac chk (header_prefix h) oid /\
  slice 60 64 (encode h chk oid) = to_le_bytes 4 (crc32 (slice 0 60 (encode h chk oid))).
Proof.
  unfold encode. cbv zeta. rewrite <- !app_assoc. split.
  - by slices.
  - assert (Hb : forall c, slice 0 60 (header_prefix h ++ mac chk (header_prefix h) oid ++
      replicate 4 x00 ++ c) =
      header_prefix h ++ mac chk (header_prefix h) oid ++ replicate 4 x00).
    { intros. rewrite !app_assoc. by slices. }
    rewrite Hb. rewrite !app_assoc. by slices.
Qed.

(** A header record written by [encode] is accepted by [decode] under the same
    key and object id and yields the same fields; a [data_offset] of zero, as
    written before the field existed, reads back as [MIN_DATA_OFFSET]. *)
Theorem header_roundtrip (h : Header) (chk : bytes) (oid : string) :
  header_fits h -> version h = VERSION ->
  data_offset h = 0 \/ MIN_DATA_OFFSET <= data_offset h ->
  decode (encode h chk oid) chk oid =
    Ok (with_raw_offset h (if data_offset h =? 0 then MIN_DATA_OFFSET else data_offset h)).
Proof.
  intros (Hd & Hm & Ho & Hf & Hv) Hver Hoff. unfold in_u in *.
  destruct (encode_sections h chk oid) as [Emac Ecrc].
  unfold decode. rewrite Emac, Ecrc.
  pose proof (crc32_range (slice 0 60 (encode h chk oid))) as Hcrc. unfold in_u in Hcrc.
  rewrite (from_to_le_bytes 4 (crc32 _)), Z.eqb_refl by done.
  unfold encode. cbv zeta. rewrite <- !app_assoc.
  rewrite mac_prefix by apply blen_header_prefix.
  destruct (header_prefix_fields h (mac chk (header_prefix h) oid ++ replicate 4 x00 ++
    to_le_bytes 4 (crc32 (header_prefix h ++ mac chk (header_prefix h) oid ++ replicate 4 x00))))
    as (-> & -> & -> & -> & -> & ->).
  rewrite !from_to_le_bytes by done.
  rewrite !bool_decide_eq_true_2, Hver by done. cbn [negb Z.eqb VERSION Pos.eqb].
  unfold MIN_DATA_OFFSET, HEADER_SIZE, with_raw_offset in *.
  destruct (Z.eqb_spec (data_offset h) 0) as [E|E].
  - by rewrite Hver.
  - rewrite (proj2 (Z.ltb_ge _ _)) by lia. by rewrite Hver.
Qed.

Lemma prefix_of_fields (buf : bytes) :
  blen buf = 64 -> slice 0 4 buf = MAGIC ->
  slice 0 24 buf = header_prefix (mkHeader (from_le_bytes (slice 8 16 buf))
    (from_le_bytes (slice 16 20 buf)) (from_le_bytes (slice 20 24 buf))
    (from_le_bytes (slice 6 8 buf)) (from_le_bytes (slice 4 6 buf))).
Proof.
  intros Hlen Hmag. unfold header_prefix. cbn [version hflags data_len meta_len data_offset].
  assert (Hw : forall i j n, j - i = Z.of_nat n -> 0 <= i <= j -> j <= 64 ->
    to_le_bytes n (from_le_bytes (slice i j buf)) = slice i j buf).
  { intros i j n Hn Hij Hj.
    replace n with (length (slice i j buf)) by
      (apply Nat2Z.inj; fold (blen (slice i j buf)); rewrite blen_slice; lia).
    apply to_from_le_bytes. }
  rewrite <- Hmag, !Hw by lia. by rewrite !slice_join by lia.
Qed.

Lemma field_range (buf : bytes) (i j w : Z) :
  0 <= i <= j -> w = 8 * (j - i) -> in_u w (from_le_bytes (slice i j buf)).
Proof.
  intros Hij ->. unfold in_u. pose proof (from_le_bytes_range (slice i j buf)) as [H0 H1].
  split; [done|]. eapply Z.lt_le_trans; [exact H1|].
  rewrite Z.pow_mul_r by lia. apply Z.pow_le_mono_r; [done|]. rewrite blen_slice. lia.
Qed.

(** Whatever 64 bytes are on disk, a record that [decode] accepts has its
    fields in range, the current version and a data section clear of the header,
    and its first 56 bytes (fields and HMAC) are exactly those [encode] produces
    for these fields under this key and object id. *)
Theorem header_decode_authentic (buf chk : bytes) (oid : string) (h : Header) :
  blen buf = 64 -> decode buf chk oid = Ok h ->
  header_wf h /\
  exists raw, (raw = data_offset h \/ raw = 0 /\ data_offset h = MIN_DATA_OFFSET) /\
    slice 0 56 buf = slice 0 56 (encode (with_raw_offset h raw) chk oid).
Proof.
  intros Hlen Hdec. unfold decode in Hdec.
  case_bool_decide as Hmag; [|done]. cbn [negb] in Hdec.
  destruct (Z.eqb_spec (from_le_bytes (slice 4 6 buf)) VERSION) as [Hver|]; [|done].
  destruct (from_le_bytes (slice 60 64 buf) =? _); [|done].
  case_bool_decide as Hmac; [|done]. cbn [negb] in Hdec.
  set (raw := from_le_bytes (slice 20 24 buf)) in *.
  destruct (_ <? MIN_DATA_OFFSET) eqn:Hlt in Hdec; [done|]. apply Z.ltb_ge in Hlt.
  simplify_eq. split.
  - assert (in_u 32 raw) by (apply field_range; lia).
    assert (in_u 32 (if raw =? 0 then MIN_DATA_OFFSET else raw)).
    { destruct (raw =? 0); [split; done | done]. }
    split; [|split; done]. refine (conj _ (conj _ (conj _ (conj _ _))));
      first [done | apply field_range; lia].
  - exists raw. split.
    + cbn. destruct (Z.eqb_spec raw 0); auto.
    + pose proof (prefix_of_fields buf Hlen Hmag) as Hpre. unfold with_raw_offset.
      cbn [data_len meta_len data_offset hflags version]. fold raw in Hpre. unfold encode. cbv zeta. rewrite <- Hpre, <- !app_assoc.
      assert (blen (slice 0 24 buf) = 24) by (rewrite blen_slice; lia).
      rewrite (app_assoc (slice 0 24 buf)), (slice_app_take 0 56), (slice_full 0 56 (_ ++ _))
        by blen_lia.
      rewrite <- (slice_join 0 24 56), Hmac by lia. unfold mac.
      by rewrite (slice_slice 0 24 0 24) by lia.
Qed.

(** [check_total_len] accepts exactly the headers whose 64-bit sum is the file
    length with no overflow, and then the unchecked offsets do not wrap: header,
    data, metadata and trailer tile the file in that order and the 64-byte trailer
    ends it. *)
Theorem header_layout (h : Header) (actual : Z) :
  header_wf h ->
  (check_total_len h actual = Ok tt <->
     data_offset h + data_len h + meta_len h + HEADER_SIZE = actual /\ actual <= u64_max) /\
  (check_total_len h actual = Ok tt ->
     HEADER_SIZE <= data_offset h /\ meta_offset h = data_offset h + data_len h /\
     trailer_offset h = meta_offset h + meta_len h /\ trailer_offset h + HEADER_SIZE = actual).
Proof.
  intros ((Hd & Hm & Ho & _ & _) & _ & Hmin).
  unfold check_total_len, checked_total_len, checked_add_u64, MIN_DATA_OFFSET, HEADER_SIZE,
    in_u, u64_max, trailer_offset, meta_offset in *.
  destruct (Z.leb_spec (data_offset h + data_len h) (2 ^ 64 - 1)); cbn [mbind option_bind];
    [destruct (Z.leb_spec (data_offset h + data_len h + meta_len h) (2 ^ 64 - 1));
       cbn [mbind option_bind];
       [destruct (Z.leb_spec (data_offset h + data_len h + meta_len h + 64) (2 ^ 64 - 1))|]|];
    [case_match|..]; split; try split; intros; try done; try lia.
  rewrite (Z.mod_small (data_offset h + data_len h)), Z.mod_small by lia. lia.
Qed.

End theorems.

(** ** Witnesses *)

Module FormatWitness.
Definition sample : Header :=
  mkHeader 1500000000000 1234 64 (Z.lor flags.DURABLE flags.WRITTEN_O_DIRECT) VERSION.
Definition key : bytes := replicate 32 x5a.

Lemma sample_wf : header_wf sample.
Proof. repeat split; vm_compute; first [reflexivity | discriminate]. Qed.

Lemma header_roundtrip_witness :
  @decode Toy.hash (@encode Toy.hash sample key "abc") key "abc" = Ok sample.
Proof.
  pose proof (@header_roundtrip Toy.hash Toy.hash_laws sample key "abc") as T.
  apply T; [apply sample_wf | reflexivity | right; vm_compute; discriminate].
Defined.

Lemma header_decode_authentic_witness :
  exists raw, (raw = 64 \/ raw = 0 /\ 64 = MIN_DATA_OFFSET) /\
    slice 0 56 (@encode Toy.hash sample key "abc") =
    slice 0 56 (@encode Toy.hash (with_raw_offset sample raw) key "abc").
Proof.
  refine (proj2 (@header_decode_authentic Toy.hash Toy.hash_laws
    (@encode Toy.hash sample key "abc") key "abc" sample _ _)); vm_compute; reflexivity.
Defined.

Lemma header_layout_witness :
  trailer_offset sample + HEADER_SIZE = 1500000001362.
Proof.
  refine (proj2 (proj2 (proj2 (proj2 (header_layout sample 1500000001362 sample_wf) _))));
    vm_compute; reflexivity.
Defined.
End FormatWitness.
