(* ===== verification/Crypto.v ===== *)
(** * Crypto building blocks ([y2q-core/src/crypto] and [checksum.rs])

    The wrappers y2q puts around the third-party primitives: key decoding and
    encapsulation ([kem.rs]), wrapping under a symmetric key ([kdf.rs]), sealing to
    a public key ([seal.rs]) with its associated-data builders, and the streaming
    checksum ([checksum.rs]).  Randomness is an explicit state that is threaded
    through the operations that draw from it. *)

From stdpp Require Import pretty.
From S2P Require Import Prelude Primitives.

(** The variants of [CryptoError] the modelled operations raise; [CUserStore] is its
    [UserStore]. *)
Inductive CryptoError : Type :=
| Aead (what : string)
| Kdf (what : string)
| KemDecode (what : string)
| Envelope (what : string)
| UnsupportedVersion (v : Z)
| AuthFailed
| KeystoreIo (what : string)
| KeystoreMissing (path : string)
| CKeystoreCorrupt (path reason : string)
| CUserStore (what : string)
| NodeKeyMissing
| NodeKeyMalformed (what : string)
| NodeKeyMismatch
| LegacyKeystore (path : string).

#[global] Instance CryptoError_eq_dec : EqDecision CryptoError.
Proof. solve_decision. Defined.

(** [CryptoError]'s [Display]. *)
Definition CryptoError_display (e : CryptoError) : string :=
  match e with
  | Aead w => "aead failure: " ++ w
  | Kdf w => "kdf failure: " ++ w
  | KemDecode w => "kem decode: " ++ w
  | Envelope w => "malformed envelope: " ++ w
  | UnsupportedVersion v => "unsupported envelope version: " ++ pretty v
  | AuthFailed => "authentication failed"
  | KeystoreIo w => "keystore io: " ++ w
  | KeystoreMissing p => "keystore not found at " ++ p
  | CKeystoreCorrupt p w => "keystore corrupt at " ++ p ++ ": " ++ w
  | CUserStore w => "user store: " ++ w
  | NodeKeyMissing => "node key not supplied: set Y2QD_NODE_KEY or [crypto] node_key_file"
  | NodeKeyMalformed w => "node key malformed: " ++ w
  | NodeKeyMismatch => "node key does not match this keystore (wrong key, or keystore from another deployment)"
  | LegacyKeystore p =>
      "keystore at " ++ p ++ " predates the per-bucket key hierarchy; re-initialize the deployment (this build cannot read it)"
  end.

(** ** [kem.rs] *)

Module kem.
Definition PUBLIC_KEY_BYTES : Z := 1184.
Definition SECRET_KEY_BYTES : Z := 2400.
Definition CIPHERTEXT_BYTES : Z := 1088.

Section with_kem.
Context {K : KemOps} {R : RngOps}.

Definition keypair (r : rng) : (Ek * Dk) * rng :=
  let '(seed, r) := fill_bytes r 64 in
  let sk := dk_generate seed in
  ((dk_encapsulation_key sk, sk), r).

(** Returns [(shared secret, ciphertext)]. *)
Definition encapsulate (pk : Ek) (r : rng) : (bytes * bytes) * rng :=
  let '(m, r) := fill_bytes r 32 in
  let '(ct, ss) := ek_encapsulate pk m in
  ((ss, ct), r).

Definition decapsulate (ct : bytes) (sk : Dk) : bytes := dk_decapsulate sk ct.

Definition PublicKey_from_bytes (b : bytes) : result CryptoError Ek :=
  if negb (blen b =? PUBLIC_KEY_BYTES) then Err (KemDecode "public key")
  else ok_or (ek_new_from_slice b) (KemDecode "public key").

Definition SecretKey_from_bytes (b : bytes) : result CryptoError Dk :=
  if negb (blen b =? SECRET_KEY_BYTES) then Err (KemDecode "secret key")
  else ok_or (dk_from_expanded_bytes b) (KemDecode "secret key").

Definition ciphertext_from_bytes (b : bytes) : result CryptoError bytes :=
  if negb (blen b =? CIPHERTEXT_BYTES) then Err (KemDecode "ciphertext") else Ok b.
End with_kem.
End kem.

(** ** [checksum.rs] *)

Module checksum.
Section with_xxh3.
Context {X : Xxh3Ops} {B : Base64Ops}.

Definition CHECKSUM_SEED : Z := 0.
Record StreamChecksum := mkStreamChecksum { hasher : xxh3 }.
Definition new : StreamChecksum := mkStreamChecksum (xxh3_with_seed CHECKSUM_SEED).
Definition update (c : StreamChecksum) (data : bytes) : StreamChecksum :=
  mkStreamChecksum (xxh3_update (hasher c) data).
Definition finish (c : StreamChecksum) : Z := xxh3_digest (hasher c).
Definition finish_b64 (c : StreamChecksum) : string := b64_encode (to_le_bytes 8 (finish c)).
Definition checksum_b64 (data : bytes) : string := finish_b64 (update new data).

Lemma update_app {L : Xxh3Laws} c a b : update (update c a) b = update c (a ++ b).
Proof. unfold update. cbn. by rewrite xxh3_update_app. Qed.
Lemma update_nil {L : Xxh3Laws} c : update c [] = c.
Proof. unfold update. rewrite xxh3_update_nil. by destruct c. Qed.
End with_xxh3.
End checksum.

(** ** Length-prefixed encodings

    [u32_be(len) || bytes], the unit every associated-data builder uses.  The cast
    [len as u32] truncates, which is what [to_be_bytes 4] does. *)
Definition lp (b : bytes) : bytes := to_be_bytes 4 (blen b) ++ b.

Lemma lp_inj (a b x y : bytes) :
  blen a < 2 ^ 32 -> blen b < 2 ^ 32 -> lp a ++ x = lp b ++ y -> a = b /\ x = y.
Proof.
  intros Ha Hb He. unfold lp in He. rewrite <- !app_assoc in He.
  apply app_inj_1 in He as [Hl He]; [|by rewrite !length_to_be_bytes].
  apply to_be_bytes_inj in Hl; [|pose_blen; lia..].
  apply app_inj_1 in He; [done|]. unfold blen in Hl. lia.
Qed.

Lemma lp_inj_nil (a b : bytes) :
  blen a < 2 ^ 32 -> blen b < 2 ^ 32 -> lp a = lp b -> a = b.
Proof.
  intros Ha Hb He. apply (lp_inj a b [] []); [done..|]. by rewrite !app_nil_r.
Qed.

Lemma be_field_inj (n : nat) (a b : Z) (x y : bytes) :
  0 <= a < 256 ^ Z.of_nat n -> 0 <= b < 256 ^ Z.of_nat n ->
  to_be_bytes n a ++ x = to_be_bytes n b ++ y -> a = b /\ x = y.
Proof.
  intros Ha Hb He. apply app_inj_1 in He as [Hl He]; [|by rewrite !length_to_be_bytes].
  by apply to_be_bytes_inj in Hl.
Qed.

(** A string whose byte length fits the 32-bit length prefix. *)
Definition short_str (s : string) : Prop := blen (as_bytes s) < 2 ^ 32.

(** ** [kdf.rs]: wrapping under a symmetric key *)

Record WrappedSk : Type := mkWrappedSk { w_nonce : bytes; w_ciphertext : bytes }.

Section with_aead.
Context {A : AeadOps} {R : RngOps}.

Definition wrap_with_key (payload key aad : bytes) (r : rng) : result CryptoError (WrappedSk * rng) :=
  let '(nonce_bytes, r) := fill_bytes r 12 in
  ct ← ok_or (aead_encrypt key nonce_bytes aad payload) (Aead "wrap encrypt");
  Ok (mkWrappedSk nonce_bytes ct, r).

Definition unwrap_with_key (wrapped : WrappedSk) (key aad : bytes) : result CryptoError bytes :=
  ok_or (aead_decrypt key (w_nonce wrapped) aad (w_ciphertext wrapped)) AuthFailed.

Lemma unwrap_wrap {L : AeadLaws} payload key aad r w r' :
  wrap_with_key payload key aad r = Ok (w, r') -> unwrap_with_key w key aad = Ok payload.
Proof.
  unfold wrap_with_key, unwrap_with_key. destruct (fill_bytes r 12) as [nonce r1].
  destruct (aead_encrypt key nonce aad payload) as [ct|] eqn:E; cbn; [|done].
  intros ?; simplify_eq. cbn. by rewrite (aead_decrypt_encrypt _ _ _ _ _ E).
Qed.
End with_aead.

(** ** [seal.rs]: sealing to a recipient's public key *)

Module seal.

Definition SEAL_HKDF_INFO : bytes := as_bytes "y2q/v3/seal".

Definition bucket_grant_aad (bucket : string) (epoch : Z) (user : string) (slot : Z) : bytes :=
  as_bytes "y2q/v3/bucket-grant" ++ lp (as_bytes bucket) ++ to_be_bytes 4 epoch ++
  lp (as_bytes user) ++ to_be_bytes 4 slot.

Definition bucket_sk_wrap_aad (bucket : string) (epoch : Z) : bytes :=
  as_bytes "y2q/v3/bucket-sk" ++ lp (as_bytes bucket) ++ to_be_bytes 4 epoch.

Record SealedKey : Type := mkSealedKey {
  kem_ct_b64 : string;
  nonce_b64 : string;
  ct_b64 : string;
}.

Section with_ops.
Context {A : AeadOps} {K : KemOps} {H : HkdfOps} {B : Base64Ops} {R : RngOps}.

Definition derive_seal_key (ss kem_ct : bytes) : result CryptoError bytes :=
  ok_or (hkdf_sha256_expand kem_ct ss SEAL_HKDF_INFO 32) (Aead "hkdf expand").

Definition seal_to (recipient_pk plaintext aad : bytes) (r : rng)
  : result CryptoError (SealedKey * rng) :=
  pk ← kem.PublicKey_from_bytes recipient_pk;
  let '((ss, kem_ct_bytes), r) := kem.encapsulate pk r in
  key_bytes ← derive_seal_key ss kem_ct_bytes;
  let '(nonce_bytes, r) := fill_bytes r 12 in
  buf ← ok_or (aead_encrypt key_bytes nonce_bytes aad plaintext) (Aead "seal encrypt");
  Ok (mkSealedKey (b64_encode kem_ct_bytes) (b64_encode nonce_bytes) (b64_encode buf), r).

Definition open_sealed (recipient_sk : bytes) (sealed : SealedKey) (aad : bytes)
  : result CryptoError bytes :=
  kem_ct_bytes ← ok_or (b64_decode (kem_ct_b64 sealed)) (KemDecode "kem ciphertext");
  nonce_bytes ← ok_or (b64_decode (nonce_b64 sealed)) (KemDecode "nonce");
  ct_bytes ← ok_or (b64_decode (ct_b64 sealed)) (KemDecode "ciphertext");
  _ ← guard_err (negb (blen nonce_bytes =? 12)) (KemDecode "nonce");
  sk ← kem.SecretKey_from_bytes recipient_sk;
  kem_ct ← kem.ciphertext_from_bytes kem_ct_bytes;
  key_bytes ← derive_seal_key (kem.decapsulate kem_ct sk) kem_ct_bytes;
  ok_or (aead_decrypt key_bytes nonce_bytes aad ct_bytes) AuthFailed.

Fixpoint seal_to_slots_from (i : nat) (secret : bytes) (slot_identity_pks_b64 : list string)
    (real_idx : nat) (aad : bytes) (r : rng) : result CryptoError (list SealedKey * rng) :=
  match slot_identity_pks_b64 with
  | [] => Ok ([], r)
  | pk_b64 :: rest =>
      pk_bytes ← ok_or (b64_decode pk_b64) (KemDecode "slot identity public key");
      '(sealed, r) ←
        (if Nat.eqb i real_idx then seal_to pk_bytes secret aad r
         else let '(padding, r) := fill_bytes r (length secret) in
              seal_to pk_bytes padding aad r);
      '(out, r) ← seal_to_slots_from (S i) secret rest real_idx aad r;
      Ok (sealed :: out, r)
  end.

Definition seal_to_slots (secret : bytes) (slot_identity_pks_b64 : list string)
    (real_idx : nat) (aad : bytes) (r : rng) : result CryptoError (list SealedKey * rng) :=
  seal_to_slots_from 0 secret slot_identity_pks_b64 real_idx aad r.

End with_ops.

(** The two halves of one key pair, as stored. *)
Definition pk_bytes_of {K : KemOps} (dk : Dk) : bytes := ek_to_bytes (dk_encapsulation_key dk).
Definition sk_bytes_of {K : KemOps} (dk : Dk) : bytes := dk_to_expanded_bytes dk.

(** Ciphertext bytes of a sealed blob, as stored in base64. *)
Definition sealed_ct {B : Base64Ops} (s : SealedKey) : option bytes := b64_decode (ct_b64 s).

Section theorems.
Context {A : AeadOps} {K : KemOps} {H : HkdfOps} {B : Base64Ops} {R : RngOps}.
Context {AL : AeadLaws} {KL : KemLaws} {HL : HkdfLaws} {BL : Base64Laws} {RL : RngLaws}.

Lemma PublicKey_from_bytes_of dk :
  kem.PublicKey_from_bytes (pk_bytes_of dk) = Ok (dk_encapsulation_key dk).
Proof.
  unfold kem.PublicKey_from_bytes, pk_bytes_of. by rewrite ek_bytes_len, ek_decode_encode.
Qed.
Lemma SecretKey_from_bytes_of dk : kem.SecretKey_from_bytes (sk_bytes_of dk) = Ok dk.
Proof.
  unfold kem.SecretKey_from_bytes, sk_bytes_of. by rewrite dk_bytes_len, dk_decode_encode.
Qed.

Lemma derive_seal_key_total ss ct : exists k, derive_seal_key ss ct = Ok k.
Proof.
  unfold derive_seal_key.
  destruct (hkdf_expand_total ct ss SEAL_HKDF_INFO 32) as (out & -> & _); [lia|]. eauto.
Qed.

(** Sealing to an honest key succeeds; what it produces opens under the matching
    secret key and the same associated data, and is 16 bytes longer. *)
Lemma seal_to_opens dk p aad r :
  blen p <= AEAD_P_MAX ->
  exists s r', seal_to (pk_bytes_of dk) p aad r = Ok (s, r') /\
    open_sealed (sk_bytes_of dk) s aad = Ok p /\
    exists c, sealed_ct s = Some c /\ blen c = blen p + 16.
Proof.
  intros Hp. unfold seal_to. rewrite PublicKey_from_bytes_of. cbn [mbind result_bind].
  unfold kem.encapsulate. destruct (fill_bytes r 32) as [m r1] eqn:Em.
  pose proof (ml_kem_correct dk m) as Hkem. pose proof (ml_kem_ct_len (dk_encapsulation_key dk) m) as Hct.
  destruct (ek_encapsulate (dk_encapsulation_key dk) m) as [ct ss]. cbn [fst snd] in *.
  destruct (derive_seal_key_total ss ct) as [key Hkey]. rewrite Hkey. cbn [mbind result_bind].
  destruct (fill_bytes r1 12) as [nonce r2] eqn:En.
  assert (Hnl : blen nonce = 12).
  { pose proof (fill_bytes_len r1 12) as Hl. rewrite En in Hl. unfold blen. cbn in Hl. lia. }
  destruct (aead_encrypt_total key nonce aad p Hp) as [c Hc]. rewrite Hc.
  eexists _, _. split; [done|]. split.
  - unfold open_sealed. cbn [kem_ct_b64 nonce_b64 ct_b64].
    rewrite !b64_decode_encode. cbn. rewrite Hnl. cbn.
    rewrite SecretKey_from_bytes_of. cbn. unfold kem.ciphertext_from_bytes, kem.decapsulate.
    rewrite Hct. cbn. rewrite Hkem, Hkey. cbn.
    by rewrite (aead_decrypt_encrypt _ _ _ _ _ Hc).
  - unfold sealed_ct. cbn [ct_b64]. rewrite b64_decode_encode.
    eexists; split; [done|]. by apply aead_encrypt_len in Hc.
Qed.

(** Position [i] of a [seal_to_slots] row: the secret at [real_idx], padding of the
    same length elsewhere; the stored ciphertexts all have one length. *)
Definition slot_entry_ok (secret aad : bytes) (real : bool) (dk : Dk) (s : SealedKey) : Prop :=
  exists p c, open_sealed (sk_bytes_of dk) s aad = Ok p /\ blen p = blen secret /\
    (real = true -> p = secret) /\ sealed_ct s = Some c /\ blen c = blen secret + 16.

Lemma seal_to_slots_from_spec secret aad real_idx (dks : list Dk) (i : nat) r :
  blen secret <= AEAD_P_MAX ->
  exists out r',
    seal_to_slots_from i secret (b64_encode ∘ pk_bytes_of <$> dks) real_idx aad r = Ok (out, r') /\
    length out = length dks /\
    forall j dk s, dks !! j = Some dk -> out !! j = Some s ->
      slot_entry_ok secret aad (Nat.eqb (i + j) real_idx) dk s.
Proof.
  intros Hs. revert i r. induction dks as [|dk dks IH]; intros i r.
  { eexists [], r. split; [done|]. split; [done|]. intros j ? ? Hj. by rewrite lookup_nil in Hj. }
  rewrite fmap_cons. cbn [seal_to_slots_from].
  change ((b64_encode ∘ pk_bytes_of) dk) with (b64_encode (pk_bytes_of dk)).
  rewrite b64_decode_encode.
  cbn [ok_or mbind result_bind].
  assert (exists s r1, (if Nat.eqb i real_idx then seal_to (pk_bytes_of dk) secret aad r
     else let '(padding, r) := fill_bytes r (length secret) in
          seal_to (pk_bytes_of dk) padding aad r) = Ok (s, r1) /\
     slot_entry_ok secret aad (Nat.eqb i real_idx) dk s) as (s & r1 & -> & Hhd).
  { destruct (Nat.eqb i real_idx).
    - destruct (seal_to_opens dk secret aad r Hs) as (s & r1 & -> & Ho & c & Hc & Hl).
      exists s, r1. split; [done|]. exists secret, c. done.
    - pose proof (fill_bytes_len r (length secret)) as Hpl.
      destruct (fill_bytes r (length secret)) as [pad r0]. cbn [fst] in Hpl.
      assert (blen pad = blen secret) as Hb by (unfold blen; lia).
      destruct (seal_to_opens dk pad aad r0) as (s & r1 & -> & Ho & c & Hc & Hl); [lia|].
      exists s, r1. split; [done|]. exists pad, c. split; [done|]. split; [done|].
      split; [done|]. split; [done|]. lia. }
  cbn [mbind result_bind].
  destruct (IH (S i) r1) as (out & r2 & -> & Hlen & Hrest). cbn [mbind result_bind].
  exists (s :: out), r2. split; [done|]. split; [cbn; lia|].
  intros [|j] dk' s' Hd Ho; cbn in Hd, Ho; simplify_eq.
  - by rewrite Nat.add_0_r.
  - rewrite Nat.add_succ_r. by apply (Hrest j).
Qed.

(** Sealing a secret to a user's credential slots succeeds, yields one blob per
    slot, the blob at [real_idx] opens to the secret under that slot's key, every
    other blob opens to padding of the same length, and all stored ciphertexts have
    the same length, so the row does not reveal which slot is real. *)
Theorem seal_to_slots_deniable (secret aad : bytes) (dks : list Dk) (real_idx : nat) (r : rng) :
  blen secret <= AEAD_P_MAX ->
  exists out r',
    seal_to_slots secret (b64_encode ∘ pk_bytes_of <$> dks) real_idx aad r = Ok (out, r') /\
    length out = length dks /\
    (forall i dk s, dks !! i = Some dk -> out !! i = Some s ->
       exists p c, open_sealed (sk_bytes_of dk) s aad = Ok p /\ blen p = blen secret /\
         (i = real_idx -> p = secret) /\ sealed_ct s = Some c /\ blen c = blen secret + 16).
Proof.
  intros Hs. destruct (seal_to_slots_from_spec secret aad real_idx dks 0 r Hs)
    as (out & r' & Hout & Hlen & Hall).
  exists out, r'. split; [done|]. split; [done|]. intros i dk s Hd Ho.
  destruct (Hall i dk s Hd Ho) as (p & c & ? & ? & Hreal & ? & ?).
  exists p, c. split_and!; try done. intros ->. apply Hreal. apply Nat.eqb_refl.
Qed.

End theorems.

(** The associated data of a sealed grant determines the bucket, the epoch, the
    grantee and the credential slot, and that of a wrapped bucket secret key the
    bucket and the epoch: no two distinct positions share associated data. *)
Theorem grant_aad_binds_position (b b' u u' : string) (e e' s s' : Z) :
  short_str b -> short_str b' -> short_str u -> short_str u' ->
  in_u 32 e -> in_u 32 e' -> in_u 32 s -> in_u 32 s' ->
  (bucket_grant_aad b e u s = bucket_grant_aad b' e' u' s' ->
     b = b' /\ e = e' /\ u = u' /\ s = s') /\
  (bucket_sk_wrap_aad b e = bucket_sk_wrap_aad b' e' -> b = b' /\ e = e').
Proof.
  unfold short_str, in_u. intros. split; intros He.
  - unfold bucket_grant_aad in He. apply app_inv_head in He.
    apply lp_inj in He as [Hb He]; [|done..].
    apply be_field_inj in He as [-> He]; [|done..].
    apply lp_inj in He as [Hu He]; [|done..]. apply to_be_bytes_inj in He; [|done..].
    split_and!; try done; by apply as_bytes_inj.
  - unfold bucket_sk_wrap_aad in He. apply app_inv_head in He.
    apply lp_inj in He as [Hb He]; [|done..]. apply to_be_bytes_inj in He; [|done..].
    split; [by apply as_bytes_inj | done].
Qed.

Lemma seal_to_slots_deniable_witness :
  exists out r', @seal_to_slots Toy.aead Toy.kem Toy.hkdf Toy.base64 Toy.rng_ops (replicate 32 x07)
    ((@b64_encode Toy.base64) ∘ (@pk_bytes_of Toy.kem) <$> [tt; tt; tt; tt]) 2 [x01] 5 =
    Ok (out, r') /\ length out = 4%nat.
Proof.
  destruct (@seal_to_slots_deniable Toy.aead Toy.kem Toy.hkdf Toy.base64 Toy.rng_ops Toy.aead_laws
    Toy.kem_laws Toy.hkdf_laws Toy.base64_laws Toy.rng_laws (replicate 32 x07) [x01]
    [tt; tt; tt; tt] 2 5) as (out & r' & Ho & Hl & _).
  - vm_compute. discriminate.
  - exists out, r'. exact (conj Ho Hl).
Defined.

Lemma grant_aad_binds_position_witness :
  bucket_grant_aad "photos" 3 "alice" 0 <> bucket_grant_aad "photos" 3 "alice" 1.
Proof.
  intros E. destruct (grant_aad_binds_position "photos" "photos" "alice" "alice" 3 3 0 1) as [Hg _];
    [vm_compute; first [reflexivity | split; [discriminate | reflexivity]].. |].
  destruct (Hg E) as (_ & _ & _ & Hs). discriminate Hs.
Defined.

End seal.
