(* ===== verification/NodeKeys.v ===== *)
(** * Keys derived from the node key

    Models y2q-core/src/crypto/node_keys.rs: the keyed PRF, the derived keys and the slot
    that holds the hot ones, and the sealing of metadata sidecars.  A guarded buffer that
    cannot be unlocked is not modelled. *)

From S2P Require Import Prelude Primitives Types Crypto.

Definition INDEX_FILE_KEY_LABEL : bytes := as_bytes "y2q/v3/index-file-key".
Definition USER_STORE_FILE_KEY_LABEL : bytes := as_bytes "y2q/v3/user-store-file-key".
Definition INDEX_KEY_LABEL : bytes := as_bytes "y2q/v3/index-key".
Definition PATH_KEY_LABEL : bytes := as_bytes "y2q/v3/path-key".
Definition OBJECT_METADATA_KEY_LABEL : bytes := as_bytes "y2q/v3/object-metadata-key".
Definition BUCKET_CONFIG_KEY_LABEL : bytes := as_bytes "y2q/v3/bucket-config-key".
Definition NODE_KEY_VERIFIER_LABEL : bytes := as_bytes "y2q/v3/node-key-verifier".
Definition CONTAINER_HEADER_KEY_LABEL : bytes := as_bytes "y2q/v3/container-header-key".

Definition VERSION_BYTE : byte := x01.
Definition VERSION_BYTE_PADDED : byte := x02.
Definition NONCE_LEN : Z := 12.
Definition MIN_ENCRYPTED_LEN : Z := 1 + NONCE_LEN + 16.
Definition MIN_ENCRYPTED_PADDED_LEN : Z := 1 + NONCE_LEN + 4 + 16.
Definition META_PAD_BLOCK : Z := 4096.
Definition BUCKET_CONFIG_PAD_BLOCK : Z := 65536.

Definition IDX_INDEX_KEY : Z := 0.
Definition IDX_PATH_KEY : Z := 32.
Definition IDX_OBJECT_METADATA_KEY : Z := 64.
Definition IDX_BUCKET_CONFIG_KEY : Z := 96.
Definition IDX_CONTAINER_HEADER_KEY : Z := 128.

(** [usize::next_multiple_of] *)
Definition next_multiple_of (n block : Z) : Z := if n mod block =? 0 then n else n + (block - n mod block).

Section keys.
Context {HO : HashOps}.

Definition prf (key data : bytes) : bytes := hmac_sha256 key data.

Definition derive_index_file_key (nk : bytes) : bytes := prf nk INDEX_FILE_KEY_LABEL.
Definition derive_user_store_file_key (nk : bytes) : bytes := prf nk USER_STORE_FILE_KEY_LABEL.
Definition derive_index_key (nk : bytes) : bytes := prf nk INDEX_KEY_LABEL.
Definition derive_path_key (nk : bytes) : bytes := prf nk PATH_KEY_LABEL.
Definition derive_object_metadata_key (nk : bytes) : bytes := prf nk OBJECT_METADATA_KEY_LABEL.
Definition derive_bucket_config_key (nk : bytes) : bytes := prf nk BUCKET_CONFIG_KEY_LABEL.
Definition derive_node_key_verifier (nk : bytes) : bytes := prf nk NODE_KEY_VERIFIER_LABEL.
Definition derive_container_header_key (nk : bytes) : bytes := prf nk CONTAINER_HEADER_KEY_LABEL.

(** The 160-byte buffer of the hot keys, once installed. *)
Record NodeKeySlot : Type := mkNodeKeySlot { nks_inner : option bytes }.

Definition slot_new : NodeKeySlot := mkNodeKeySlot None.
Definition install (nk : bytes) : NodeKeySlot :=
  mkNodeKeySlot (Some (derive_index_key nk ++ derive_path_key nk ++ derive_object_metadata_key nk
                       ++ derive_bucket_config_key nk ++ derive_container_header_key nk)).

Definition key_at (slot : NodeKeySlot) (offset : Z) : option bytes :=
  buf ← nks_inner slot; Some (slice offset (offset + 32) buf).

Definition index_key (slot : NodeKeySlot) : option bytes := key_at slot IDX_INDEX_KEY.
Definition path_key (slot : NodeKeySlot) : option bytes := key_at slot IDX_PATH_KEY.
Definition object_metadata_key (slot : NodeKeySlot) : option bytes := key_at slot IDX_OBJECT_METADATA_KEY.
Definition bucket_config_key (slot : NodeKeySlot) : option bytes := key_at slot IDX_BUCKET_CONFIG_KEY.
Definition container_header_key (slot : NodeKeySlot) : option bytes := key_at slot IDX_CONTAINER_HEADER_KEY.
Definition slot_is_set (slot : NodeKeySlot) : bool := bool_decide (is_Some (nks_inner slot)).

Lemma installed_keys {HL : HashLaws} nk :
  index_key (install nk) = Some (derive_index_key nk) /\ path_key (install nk) = Some (derive_path_key nk) /\
  object_metadata_key (install nk) = Some (derive_object_metadata_key nk) /\
  bucket_config_key (install nk) = Some (derive_bucket_config_key nk) /\
  container_header_key (install nk) = Some (derive_container_header_key nk).
Proof.
  unfold index_key, path_key, object_metadata_key, bucket_config_key, container_header_key, key_at, install. cbn [nks_inner mbind option_bind].
  assert (Hl : forall l, blen (prf nk l) = 32) by (intros; apply hmac_sha256_len).
  unfold derive_index_key, derive_path_key, derive_object_metadata_key, derive_bucket_config_key, derive_container_header_key.
  pose proof (Hl INDEX_KEY_LABEL). pose proof (Hl PATH_KEY_LABEL). pose proof (Hl OBJECT_METADATA_KEY_LABEL).
  pose proof (Hl BUCKET_CONFIG_KEY_LABEL). pose proof (Hl CONTAINER_HEADER_KEY_LABEL).
  unfold IDX_INDEX_KEY, IDX_PATH_KEY, IDX_OBJECT_METADATA_KEY, IDX_BUCKET_CONFIG_KEY, IDX_CONTAINER_HEADER_KEY.
  split_and!; f_equal; by slices.
Qed.

End keys.

(** ** Sealed metadata *)

Section meta.
Context {A : AeadOps} {R : RngOps}.

Definition padded_len_of (json_len pad_block : Z) : Z :=
  let len_prefixed := 4 + json_len in
  if 1 <? pad_block then next_multiple_of len_prefixed pad_block else len_prefixed.

Definition encrypt_meta (omk json : bytes) (object_id : string) (pad_block : Z) (r : rng) : result CryptoError (bytes * rng) :=
  let padded_len := padded_len_of (blen json) pad_block in
  if u32_max <? blen json then Err (Envelope "metadata too large to seal") else
  let plain := to_be_bytes 4 (blen json) ++ json ++ replicate (Z.to_nat (padded_len - (4 + blen json))) x00 in
  let '(nonce_bytes, r) := fill_bytes r (Z.to_nat NONCE_LEN) in
  ct ← ok_or (aead_encrypt omk nonce_bytes (as_bytes object_id) plain) (Aead "metadata encrypt");
  Ok (VERSION_BYTE_PADDED :: nonce_bytes ++ ct, r).

Definition decrypt_meta (omk blob : bytes) (object_id : string) : result CryptoError bytes :=
  padded ← (match blob with
            | v :: _ => if bool_decide (v = VERSION_BYTE) then Ok false
                        else if bool_decide (v = VERSION_BYTE_PADDED) then Ok true
                        else Err (Envelope "unrecognized metadata format")
            | [] => Err (Envelope "unrecognized metadata format")
            end);
  let min_len := if (padded : bool) then MIN_ENCRYPTED_PADDED_LEN else MIN_ENCRYPTED_LEN in
  if blen blob <? min_len then Err (Envelope "metadata blob too short for decryption") else
  plain ← ok_or (aead_decrypt omk (slice 1 (1 + NONCE_LEN) blob) (as_bytes object_id) (drop (Z.to_nat (1 + NONCE_LEN)) blob)) AuthFailed;
  if negb padded then Ok plain else
  if blen plain <? 4 then Err (Envelope "padded metadata too short") else
  let declared := from_be_bytes (take 4 plain) in
  if blen plain - 4 <? declared then Err (Envelope "metadata length prefix out of range") else
  Ok (slice 4 (4 + declared) plain).

Context {AL : AeadLaws} {RL : RngLaws}.

Lemma next_multiple_of_ge n block : 0 < block -> n <= next_multiple_of n block < n + block.
Proof. intros Hb. unfold next_multiple_of. pose proof (Z.mod_pos_bound n block Hb). destruct (Z.eqb_spec (n mod block) 0); lia. Qed.

Lemma padded_len_of_ge n block : 4 + n <= padded_len_of n block < 4 + n + Z.max 1 block.
Proof.
  unfold padded_len_of. cbv zeta. destruct (Z.ltb_spec 1 block); [|lia]. pose proof (next_multiple_of_ge (4 + n) block ltac:(lia)). lia.
Qed.

(** What a sealed sidecar is: 29 bytes more than its padded contents, and it opens under
    the key and the id it was sealed for. *)
Lemma encrypt_meta_spec omk json id block r : blen json <= u32_max -> block <= 2 ^ 32 ->
  exists blob r', encrypt_meta omk json id block r = Ok (blob, r') /\
    blen blob = 29 + padded_len_of (blen json) block /\ decrypt_meta omk blob id = Ok json.
Proof using AL RL.
  intros Hj Hblock. pose proof (padded_len_of_ge (blen json) block) as Hp. pose proof (blen_nonneg json) as Hnn. unfold encrypt_meta, u32_max in *.
  rewrite (proj2 (Z.ltb_ge _ _)) by lia. cbv zeta. pose proof (fill_bytes_len r (Z.to_nat NONCE_LEN)) as Hn. destruct (fill_bytes r _) as [nonce r'].
  cbn [fst] in Hn. change (Z.to_nat NONCE_LEN) with 12%nat in Hn. set (pad := replicate _ _). set (plain := to_be_bytes 4 (blen json) ++ json ++ pad).
  assert (Hpl : blen plain = padded_len_of (blen json) block).
  { unfold plain, pad. rewrite !blen_app, blen_to_be_bytes, blen_replicate. lia. }
  destruct (aead_encrypt_total omk nonce (as_bytes id) plain) as (ct & Ect); [unfold AEAD_P_MAX; lia|].
  pose proof (aead_encrypt_len _ _ _ _ _ Ect) as Hct. apply aead_decrypt_encrypt in Ect as Edc.
  rewrite Ect. cbn [ok_or mbind result_bind]. eexists _, r'. split; [done|].
  assert (Hbl : blen (VERSION_BYTE_PADDED :: nonce ++ ct) = 29 + padded_len_of (blen json) block).
  { rewrite blen_cons, blen_app. unfold blen at 1. rewrite Hn. lia. }
  split; [done|]. unfold decrypt_meta. rewrite Hbl. rewrite bool_decide_eq_false_2 by done. rewrite bool_decide_eq_true_2 by done.
  cbn [mbind result_bind]. unfold MIN_ENCRYPTED_PADDED_LEN, NONCE_LEN. rewrite (proj2 (Z.ltb_ge _ _)) by lia.
  assert (Hs : slice 1 (1 + 12) (VERSION_BYTE_PADDED :: nonce ++ ct) = nonce).
  { change (VERSION_BYTE_PADDED :: nonce ++ ct) with ([VERSION_BYTE_PADDED] ++ nonce ++ ct). unfold slice. change (Z.to_nat 1) with 1%nat.
    cbn [app drop]. change (Z.to_nat (1 + 12 - 1)) with 12%nat. rewrite <- Hn. apply take_app_length. }
  assert (Hd : drop (Z.to_nat (1 + 12)) (VERSION_BYTE_PADDED :: nonce ++ ct) = ct).
  { change (Z.to_nat (1 + 12)) with 13%nat. cbn [drop]. rewrite <- Hn. apply drop_app_length. }
  rewrite Hs, Hd, Edc. cbn [ok_or mbind result_bind negb]. rewrite (proj2 (Z.ltb_ge (blen plain) _)) by lia.
  assert (Ht : take 4 plain = to_be_bytes 4 (blen json)) by (unfold plain; by rewrite take_app_length' by (symmetry; apply length_to_be_bytes)).
  rewrite Ht, from_to_be_bytes by (change (256 ^ Z.of_nat 4) with (2 ^ 32); lia). rewrite (proj2 (Z.ltb_ge _ _)) by lia. f_equal.
  unfold slice, plain. change (Z.to_nat 4) with 4%nat. rewrite drop_app_length' by (symmetry; apply length_to_be_bytes).
  replace (Z.to_nat (4 + blen json - 4)) with (length json) by (unfold blen; lia). apply take_app_length.
Qed.

(** The length of a sealed sidecar tells only how many blocks its contents need. *)
Lemma meta_len_hides (json json' : bytes) block : 1 < block ->
  (4 + blen json - 1) / block = (4 + blen json' - 1) / block -> padded_len_of (blen json) block = padded_len_of (blen json') block.
Proof using.
  intros Hb. unfold padded_len_of. cbv zeta. rewrite (proj2 (Z.ltb_lt _ _)) by lia. pose proof (blen_nonneg json). pose proof (blen_nonneg json').
  assert (Hnm : forall n, 0 < n -> next_multiple_of n block = ((n - 1) / block + 1) * block).
  { intros n Hn. unfold next_multiple_of. pose proof (Z.div_mod n block ltac:(lia)). pose proof (Z.mod_pos_bound n block ltac:(lia)).
    destruct (Z.eqb_spec (n mod block) 0) as [Hz|Hz].
    - assert ((n - 1) / block = n / block - 1) as ->; [|nia]. symmetry. apply (Z.div_unique _ _ _ (block - 1)); lia.
    - assert ((n - 1) / block = n / block) as ->; [|nia]. symmetry. apply (Z.div_unique _ _ _ (n mod block - 1)); lia. }
  intros He. rewrite !Hnm by lia. by rewrite He.
Qed.

End meta.
