(* ===== verification/Envelope.v ===== *)
(** * The object envelope ([y2q-core/src/crypto/envelope.rs])

    Wire layout, per-chunk nonces and associated data, content-key derivation,
    Padme length hiding, and the readers: [decrypt] (borrowing), [decrypt_owned]
    (in place) and the ranged [decrypt_v3_chunks]/[decrypt_v4_chunks].  The
    streaming writer is in [EncryptSession].  Positions and lengths are [usize]
    values as [Z]; the chunk counter is a [u64] that wraps.  The chunk loops carry
    fuel; the length of the buffer is always enough because every iteration
    consumes at least one byte ([open_chunks_fuel]). *)

From S2P Require Import Prelude Primitives Crypto.

(** ** Constants *)

Definition ENVELOPE_V3_HEADER_FIXED_LEN : Z := 4 + 2 + 1 + 1 + 4 + 12 + 8 + 4.
Definition MAGIC_V3 : bytes := as_bytes "Y2Q3".
Definition FORMAT_VER_V3 : Z := 3.
Definition FORMAT_VER_V4 : Z := 4.
Definition DEFAULT_CHUNK_SIZE_BYTES : Z := Z.shiftl 4 20.
Definition V3_PLAINTEXT_LEN_OFFSET : Z := 24.
Definition KEM_ALG_MLKEM768 : Z := 1.
Definition AEAD_ALG_AES256GCM : Z := 1.
Definition HKDF_INFO : bytes := as_bytes "y2q/v1/content-key".
Definition TAG_LEN : Z := 16.
Definition KEM_ALG_NAME : string := "ml-kem-768".
Definition AEAD_ALG_NAME : string := "aes-256-gcm".
Definition V3_AAD_PREFIX_LEN : Z := 24.

Definition v3_preamble_len : Z := ENVELOPE_V3_HEADER_FIXED_LEN + kem.CIPHERTEXT_BYTES.

(** ** Padme padding *)

(** [x.leading_zeros()] of a [w]-bit unsigned integer. *)
Definition leading_zeros (w x : Z) : Z := if x =? 0 then w else w - 1 - Z.log2 x.

Definition padme_len (l : Z) : Z :=
  if l <? 2 then l else
  let e := 63 - leading_zeros 64 l in
  let s := (31 - leading_zeros 32 e) + 1 in
  if e <=? s then l else
  let last_bits := e - s in
  let mask := Z.shiftl 1 last_bits - 1 in
  Z.land (saturating_add_u64 l mask) (Z.lxor u64_max mask).

(** ** Nonces, associated data, content key *)

Definition byte_xor (a b : byte) : byte := byte_of_Z (Z.lxor (Z_of_byte a) (Z_of_byte b)).

(** [n[4 + i] ^= idx_bytes[i]] for [i] in [0..8]. *)
Definition chunk_nonce (base : bytes) (idx : Z) : bytes :=
  take 4 base ++ zip_with byte_xor (drop 4 base) (to_be_bytes 8 idx).

Definition build_v3_aad (header : bytes) : bytes :=
  slice 0 V3_AAD_PREFIX_LEN header ++ slice 32 36 header.

Definition build_v4_aad (aad_base : bytes) (is_final : bool) : bytes :=
  aad_base ++ [if is_final then x01 else x00].

Definition content_key_info (bucket key : string) : bytes :=
  HKDF_INFO ++ lp (as_bytes bucket) ++ lp (as_bytes key).

Record EnvelopeInfo : Type := mkEnvelopeInfo {
  envelope_version : Z;
  ei_kem_alg : string;
  ei_aead_alg : string;
  cipher_size : Z;
  cipher_checksum_b64 : string;
  ei_key_epoch : Z;
}.

(** The fixed-header fields a reader extracts. *)
Record EnvHeader : Type := mkEnvHeader {
  eh_key_epoch : Z;
  eh_nonce_base : bytes;
  eh_plaintext_len : Z;
  eh_chunk_size : Z;
}.

(** The validation shared by every reader after its own length check. *)
Definition check_header (ver : Z) (header : bytes) : result CryptoError EnvHeader :=
  let v := from_be_bytes (slice 4 6 header) in
  if negb (v =? ver) then Err (UnsupportedVersion v) else
  if negb (from_be_bytes (slice 6 7 header) =? KEM_ALG_MLKEM768)
  then Err (Envelope "unknown kem_alg") else
  if negb (from_be_bytes (slice 7 8 header) =? AEAD_ALG_AES256GCM)
  then Err (Envelope "unknown aead_alg") else
  let chunk_size := from_be_bytes (slice 32 36 header) in
  if chunk_size =? 0 then Err (Envelope "zero chunk_size") else
  Ok (mkEnvHeader (from_be_bytes (slice 8 12 header)) (slice 12 24 header)
        (from_be_bytes (slice 24 32 header)) chunk_size).

Definition parse_geometry (ver : Z) (trunc : string) (header : bytes)
  : result CryptoError (Z * Z * Z) :=
  if blen header <? ENVELOPE_V3_HEADER_FIXED_LEN then Err (Envelope trunc) else
  if negb (bool_decide (slice 0 4 header = MAGIC_V3)) then Err (Envelope "bad magic") else
  h ← check_header ver header;
  Ok (eh_key_epoch h, eh_chunk_size h, eh_plaintext_len h).

Definition parse_v3_geometry : bytes -> result CryptoError (Z * Z * Z) :=
  parse_geometry FORMAT_VER_V3 "truncated v3 header".
Definition parse_v4_geometry : bytes -> result CryptoError (Z * Z * Z) :=
  parse_geometry FORMAT_VER_V4 "truncated v4 header".

(** [chunk_idx += 1] on [u64]. *)
Definition next_idx (i : Z) : Z := (i + 1) mod 2 ^ 64.

Definition finish_plaintext (plaintext : bytes) (expected_plaintext_len : Z)
  : result CryptoError bytes :=
  if blen plaintext <? expected_plaintext_len
  then Err (Envelope "plaintext shorter than authenticated size")
  else Ok (take (Z.to_nat expected_plaintext_len) plaintext).

Definition finish_plaintext_owned (plaintext : bytes) (expected_plaintext_len : Z)
  : result CryptoError bytes :=
  if blen plaintext <? expected_plaintext_len
  then Err (Envelope "plaintext shorter than authenticated size")
  else Ok (take (Z.to_nat expected_plaintext_len) plaintext).

Section with_ops.
Context {A : AeadOps} {K : KemOps} {H : HkdfOps}.

Definition derive_content_key (ss kem_ct : bytes) (bucket key : string) : result CryptoError bytes :=
  ok_or (hkdf_sha256_expand kem_ct ss (content_key_info bucket key) 32) (Aead "hkdf expand").

(** Key recovery, the same statements in every reader: decode the secret key and
    the KEM ciphertext, decapsulate, derive the content key for this address. *)
Definition recover_content_key (sk_bytes kem_ct_bytes : bytes) (bucket key : string)
  : result CryptoError bytes :=
  sk ← kem.SecretKey_from_bytes sk_bytes;
  kem_ct ← kem.ciphertext_from_bytes kem_ct_bytes;
  derive_content_key (kem.decapsulate kem_ct sk) kem_ct_bytes bucket key.

(** [while pos < buf.len() { .. }]: open the chunk at [pos], append its plaintext,
    move on.  [aad ct_end idx] is the associated data expected for it. *)
Fixpoint open_chunks (fuel : nat) (k nonce_base : bytes) (aad : Z -> Z -> bytes)
    (chunk_size : Z) (buf : bytes) (pos idx : Z) (plaintext : bytes) : result CryptoError bytes :=
  if negb (pos <? blen buf) then Ok plaintext else
  match fuel with
  | O => Err (Envelope "out of fuel")
  | S fuel =>
      let ct_end := Z.min (pos + chunk_size + TAG_LEN) (blen buf) in
      if ct_end - pos <? TAG_LEN then Err (Envelope "truncated chunk ciphertext") else
      pt ← ok_or (aead_decrypt k (chunk_nonce nonce_base idx) (aad ct_end idx) (slice pos ct_end buf))
             AuthFailed;
      open_chunks fuel k nonce_base aad chunk_size buf ct_end (next_idx idx) (plaintext ++ pt)
  end.

(** [while !body.is_empty() { .. body.split_to(take) .. }]: the owning loop, which
    consumes [body]; [consumed] counts envelope bytes including the preamble. *)
Fixpoint open_chunks_owned (fuel : nat) (k nonce_base : bytes) (aad : Z -> Z -> bytes)
    (chunk_size : Z) (body : bytes) (consumed idx : Z) (plaintext : bytes)
    : result CryptoError bytes :=
  if bool_decide (body = []) then Ok plaintext else
  match fuel with
  | O => Err (Envelope "out of fuel")
  | S fuel =>
      let take_n := Z.min (chunk_size + TAG_LEN) (blen body) in
      if take_n <? TAG_LEN then Err (Envelope "truncated chunk ciphertext") else
      let consumed := consumed + take_n in
      let chunk := take (Z.to_nat take_n) body in
      let body := drop (Z.to_nat take_n) body in
      pt ← ok_or (aead_decrypt k (chunk_nonce nonce_base idx) (aad consumed idx) chunk) AuthFailed;
      open_chunks_owned fuel k nonce_base aad chunk_size body consumed (next_idx idx) (plaintext ++ pt)
  end.

Definition kem_ct_of (envelope : bytes) : bytes :=
  slice ENVELOPE_V3_HEADER_FIXED_LEN v3_preamble_len envelope.

Definition decrypt_v3 (sk_bytes envelope : bytes) (bucket key : string) (expected_plaintext_len : Z)
  : result CryptoError bytes :=
  let preamble_len := v3_preamble_len in
  if blen envelope <? preamble_len then Err (Envelope "truncated v3 envelope") else
  h ← check_header FORMAT_VER_V3 envelope;
  let aad := build_v3_aad (slice 0 ENVELOPE_V3_HEADER_FIXED_LEN envelope) in
  k ← recover_content_key sk_bytes (kem_ct_of envelope) bucket key;
  plaintext ← open_chunks (length envelope) k (eh_nonce_base h) (fun _ _ => aad) (eh_chunk_size h)
                envelope preamble_len 0 [];
  if negb (blen plaintext =? eh_plaintext_len h) then Err (Envelope "plaintext length mismatch")
  else finish_plaintext plaintext expected_plaintext_len.

Definition decrypt_v4 (sk_bytes envelope : bytes) (bucket key : string) (expected_plaintext_len : Z)
  : result CryptoError bytes :=
  let preamble_len := v3_preamble_len in
  if blen envelope <? preamble_len then Err (Envelope "truncated v4 envelope") else
  h ← check_header FORMAT_VER_V4 envelope;
  let aad_base := build_v3_aad (slice 0 ENVELOPE_V3_HEADER_FIXED_LEN envelope) in
  k ← recover_content_key sk_bytes (kem_ct_of envelope) bucket key;
  plaintext ← open_chunks (length envelope) k (eh_nonce_base h)
                (fun ct_end _ => build_v4_aad aad_base (ct_end =? blen envelope))
                (eh_chunk_size h) envelope preamble_len 0 [];
  if negb (blen plaintext =? eh_plaintext_len h) then Err (Envelope "plaintext length mismatch")
  else finish_plaintext plaintext expected_plaintext_len.

Definition decrypt (sk_bytes envelope : bytes) (bucket key : string) (expected_plaintext_len : Z)
  : result CryptoError bytes :=
  if blen envelope <? 4 then Err (Envelope "truncated header") else
  if negb (bool_decide (slice 0 4 envelope = MAGIC_V3)) then Err (Envelope "bad magic") else
  if blen envelope <? 6 then Err (Envelope "truncated header") else
  let ver := from_be_bytes (slice 4 6 envelope) in
  if ver =? FORMAT_VER_V3 then decrypt_v3 sk_bytes envelope bucket key expected_plaintext_len else
  if ver =? FORMAT_VER_V4 then decrypt_v4 sk_bytes envelope bucket key expected_plaintext_len else
  Err (UnsupportedVersion ver).

Definition decrypt_v3_owned (sk_bytes envelope : bytes) (bucket key : string)
    (expected_plaintext_len : Z) : result CryptoError bytes :=
  let preamble_len := v3_preamble_len in
  if blen envelope <? preamble_len then Err (Envelope "truncated v3 envelope") else
  h ← check_header FORMAT_VER_V3 envelope;
  let aad := build_v3_aad (slice 0 ENVELOPE_V3_HEADER_FIXED_LEN envelope) in
  k ← recover_content_key sk_bytes (kem_ct_of envelope) bucket key;
  let body := drop (Z.to_nat preamble_len) envelope in
  plaintext ← open_chunks_owned (length body) k (eh_nonce_base h) (fun _ _ => aad) (eh_chunk_size h)
                body preamble_len 0 [];
  if negb (blen plaintext =? eh_plaintext_len h) then Err (Envelope "plaintext length mismatch")
  else finish_plaintext_owned plaintext expected_plaintext_len.

Definition decrypt_v4_owned (sk_bytes envelope : bytes) (bucket key : string)
    (expected_plaintext_len : Z) : result CryptoError bytes :=
  let preamble_len := v3_preamble_len in
  if blen envelope <? preamble_len then Err (Envelope "truncated v4 envelope") else
  h ← check_header FORMAT_VER_V4 envelope;
  let aad_base := build_v3_aad (slice 0 ENVELOPE_V3_HEADER_FIXED_LEN envelope) in
  k ← recover_content_key sk_bytes (kem_ct_of envelope) bucket key;
  let total_len := blen envelope in
  let body := drop (Z.to_nat preamble_len) envelope in
  plaintext ← open_chunks_owned (length body) k (eh_nonce_base h)
                (fun consumed _ => build_v4_aad aad_base (consumed =? total_len))
                (eh_chunk_size h) body preamble_len 0 [];
  if negb (blen plaintext =? eh_plaintext_len h) then Err (Envelope "plaintext length mismatch")
  else finish_plaintext_owned plaintext expected_plaintext_len.

Definition decrypt_owned (sk_bytes envelope : bytes) (bucket key : string)
    (expected_plaintext_len : Z) : result CryptoError bytes :=
  if blen envelope <? 4 then Err (Envelope "truncated header") else
  if negb (bool_decide (slice 0 4 envelope = MAGIC_V3)) then Err (Envelope "bad magic") else
  if blen envelope <? 6 then Err (Envelope "truncated header") else
  let ver := from_be_bytes (slice 4 6 envelope) in
  if ver =? FORMAT_VER_V3
  then decrypt_v3_owned sk_bytes envelope bucket key expected_plaintext_len else
  if ver =? FORMAT_VER_V4
  then decrypt_v4_owned sk_bytes envelope bucket key expected_plaintext_len else
  Err (UnsupportedVersion ver).

Definition decrypt_v3_chunks (sk_bytes preamble chunks_ct : bytes) (first_chunk_idx : Z)
    (bucket key : string) : result CryptoError bytes :=
  let preamble_len := v3_preamble_len in
  if blen preamble <? preamble_len then Err (Envelope "truncated v3 preamble") else
  '(_, chunk_size, _) ← parse_v3_geometry (slice 0 ENVELOPE_V3_HEADER_FIXED_LEN preamble);
  let nonce_base := slice 12 24 preamble in
  let aad := build_v3_aad (slice 0 ENVELOPE_V3_HEADER_FIXED_LEN preamble) in
  k ← recover_content_key sk_bytes (kem_ct_of preamble) bucket key;
  open_chunks (length chunks_ct) k nonce_base (fun _ _ => aad) chunk_size chunks_ct 0 first_chunk_idx [].

Definition decrypt_v4_chunks (sk_bytes preamble chunks_ct : bytes) (first_chunk_idx total_chunks : Z)
    (bucket key : string) : result CryptoError bytes :=
  let preamble_len := v3_preamble_len in
  if blen preamble <? preamble_len then Err (Envelope "truncated v4 preamble") else
  '(_, chunk_size, _) ← parse_v4_geometry (slice 0 ENVELOPE_V3_HEADER_FIXED_LEN preamble);
  let nonce_base := slice 12 24 preamble in
  let aad_base := build_v3_aad (slice 0 ENVELOPE_V3_HEADER_FIXED_LEN preamble) in
  k ← recover_content_key sk_bytes (kem_ct_of preamble) bucket key;
  open_chunks (length chunks_ct) k nonce_base
    (fun _ idx => build_v4_aad aad_base (next_idx idx =? total_chunks))
    chunk_size chunks_ct 0 first_chunk_idx [].

End with_ops.

(** ** Padme: bounds *)

Section padme.

Lemma land_not_mask (x b : Z) :
  0 <= b -> 0 <= x < 2 ^ 64 ->
  Z.land x (Z.lxor u64_max (Z.shiftl 1 b - 1)) = (x / 2 ^ b) * 2 ^ b.
Proof.
  intros Hb Hx.
  rewrite Z.shiftl_1_l. replace (2 ^ b - 1) with (Z.ones b) by (rewrite Z.ones_equiv; lia).
  replace u64_max with (Z.ones 64) by done.
  rewrite <- Z.shiftl_mul_pow2, <- Z.shiftr_div_pow2, <- Z.ldiff_ones_r by lia.
  apply Z.bits_inj'. intros i Hi.
  rewrite Z.land_spec, Z.lxor_spec, Z.ldiff_spec, !Z.testbit_ones_nonneg by lia.
  destruct (Z.ltb_spec i 64); [by destruct (i <? b)|].
  replace (Z.testbit x i) with false; [done|].
  symmetry. destruct (Z.eq_dec x 0) as [->|]; [apply Z.bits_0|].
  apply Z.bits_above_log2; [lia|]. apply Z.log2_lt_pow2; [lia|].
  eapply Z.lt_le_trans; [apply Hx|]. apply Z.pow_le_mono_r; lia.
Qed.

(** Exponents of [padme_len] on inputs of at least 2. *)
Definition padme_e (l : Z) : Z := Z.log2 l.
Definition padme_s (l : Z) : Z := Z.log2 (padme_e l) + 1.

Lemma padme_e_range l : 2 <= l < 2 ^ 64 -> 1 <= padme_e l <= 63.
Proof.
  intros Hl. unfold padme_e. split.
  - apply Z.log2_le_pow2; lia.
  - assert (Z.log2 l < 64) by (apply Z.log2_lt_pow2; lia). lia.
Qed.

Lemma padme_s_range l : 2 <= l < 2 ^ 64 -> 1 <= padme_s l <= 6.
Proof.
  intros Hl. pose proof (padme_e_range l Hl). unfold padme_s.
  pose proof (Z.log2_nonneg (padme_e l)).
  assert (Z.log2 (padme_e l) < 6) by (apply Z.log2_lt_pow2; lia). lia.
Qed.

Lemma padme_len_eq l :
  2 <= l < 2 ^ 64 ->
  padme_len l = if padme_e l <=? padme_s l then l else
    let b := padme_e l - padme_s l in
    (saturating_add_u64 l (2 ^ b - 1) / 2 ^ b) * 2 ^ b.
Proof.
  intros Hl. pose proof (padme_e_range l Hl). pose proof (padme_s_range l Hl).
  unfold padme_len, leading_zeros.
  rewrite (proj2 (Z.ltb_ge l 2)), (proj2 (Z.eqb_neq l 0)) by lia.
  replace (63 - (64 - 1 - Z.log2 l)) with (padme_e l) by (unfold padme_e; lia).
  cbv zeta. rewrite (proj2 (Z.eqb_neq (padme_e l) 0)) by lia.
  replace (31 - (32 - 1 - Z.log2 (padme_e l)) + 1) with (padme_s l) by (unfold padme_s; lia).
  destruct (Z.leb_spec (padme_e l) (padme_s l)); [done|].
  rewrite land_not_mask, Z.shiftl_1_l; [done|lia|].
  unfold saturating_add_u64, u64_max. split; [|lia].
  rewrite Z.shiftl_1_l. pose proof (Z.pow_pos_nonneg 2 (padme_e l - padme_s l)). lia.
Qed.

(** Rounding up to a multiple of [2^b]. *)
Lemma round_up_bounds (l b : Z) :
  0 <= b -> 0 <= l -> let p := (l + (2 ^ b - 1)) / 2 ^ b * 2 ^ b in l <= p < l + 2 ^ b.
Proof.
  intros Hb Hl p. subst p. pose proof (Z.pow_pos_nonneg 2 b ltac:(lia) Hb).
  pose proof (Z.div_mod (l + (2 ^ b - 1)) (2 ^ b)).
  pose proof (Z.mod_pos_bound (l + (2 ^ b - 1)) (2 ^ b)). lia.
Qed.

Lemma padme_len_upper l :
  2 <= l <= 2 ^ 64 - 2 ^ 57 -> padme_s l < padme_e l ->
  l <= padme_len l < l + 2 ^ (padme_e l - padme_s l).
Proof.
  intros Hl Hes. rewrite padme_len_eq by lia. pose proof (padme_s_range l ltac:(lia)).
  pose proof (padme_e_range l ltac:(lia)).
  rewrite (proj2 (Z.leb_gt _ _)) by done. cbv zeta.
  set (b := padme_e l - padme_s l) in *.
  assert (b <= 57).
  { destruct (decide (padme_e l <= 57)); [lia|].
    assert (Z.log2 32 <= Z.log2 (padme_e l)) by (apply Z.log2_le_mono; lia).
    change (Z.log2 32) with 5 in *. unfold b, padme_s. lia. }
  assert (2 ^ b <= 2 ^ 57) by (apply Z.pow_le_mono_r; lia).
  unfold saturating_add_u64. rewrite Z.min_l by (unfold u64_max; lia).
  apply round_up_bounds; lia.
Qed.

Lemma padme_small : forallb (fun n => let l := Z.of_nat n in
  (l <=? padme_len l) && (100 * (padme_len l - l) <=? 12 * l)) (seq 0 256) = true.
Proof. vm_compute. reflexivity. Qed.

Lemma padme_len_facts (l : Z) :
  0 <= l <= 2 ^ 64 - 2 ^ 57 ->
  l <= padme_len l <= u64_max /\ 100 * (padme_len l - l) <= 12 * l.
Proof.
  intros Hl. destruct (decide (l < 256)) as [Hs|Hs].
  { pose proof padme_small as Hf. rewrite forallb_forall in Hf.
    specialize (Hf (Z.to_nat l)). cbv zeta in Hf. rewrite Z2Nat.id in Hf by lia.
    assert (In (Z.to_nat l) (seq 0 256)) as Hin by (apply in_seq; lia).
    apply Hf, andb_true_iff in Hin as [H1 H2].
    apply Z.leb_le in H1, H2. unfold u64_max. lia. }
  assert (8 <= padme_e l) as He by (apply Z.log2_le_pow2; lia).
  assert (4 <= padme_s l) as Hs4.
  { unfold padme_s. pose proof (Z.log2_le_mono 8 (padme_e l) He). change (Z.log2 8) with 3 in *. lia. }
  pose proof (padme_s_range l ltac:(lia)).
  pose proof (padme_len_upper l ltac:(lia) ltac:(lia)) as [Hlo Hhi].
  assert (Hp : 2 ^ (padme_e l - padme_s l) * 16 <= l).
  { transitivity (2 ^ (padme_e l - padme_s l) * 2 ^ padme_s l).
    - change 16 with (2 ^ 4). apply Z.mul_le_mono_nonneg_l; [|apply Z.pow_le_mono_r; lia].
      apply Z.pow_nonneg. lia.
    - rewrite <- Z.pow_add_r by lia. replace (padme_e l - padme_s l + padme_s l) with (padme_e l) by lia.
      apply Z.log2_spec. lia. }
  assert (padme_len l <= u64_max).
  { rewrite padme_len_eq in * by lia. rewrite (proj2 (Z.leb_gt _ _)) in * by lia. cbv zeta in *.
    set (b := padme_e l - padme_s l) in *.
    pose proof (Z.pow_pos_nonneg 2 b ltac:(lia) ltac:(lia)).
    pose proof (Z.mul_div_le (saturating_add_u64 l (2 ^ b - 1)) (2 ^ b) ltac:(lia)).
    unfold saturating_add_u64, u64_max in *. lia. }
  lia.
Qed.

(** Padme never shrinks a length, stays within the 64-bit range and adds at most
    12 percent, for every length up to 2^64 - 2^57; in particular decrypting a padded
    object yields at least its true size. *)
Theorem padme_len_bounds (l : Z) :
  0 <= l <= 2 ^ 64 - 2 ^ 57 ->
  l <= padme_len l <= u64_max /\ 100 * (padme_len l - l) <= 12 * l.
Proof. apply padme_len_facts. Qed.

(** Beyond that range the saturating addition loses the guarantee: the padded
    length of [u64::MAX] is smaller than [u64::MAX]. *)
Theorem padme_len_saturates : padme_len u64_max = 2 ^ 64 - 2 ^ 57 /\ padme_len u64_max < u64_max.
Proof. vm_compute. done. Qed.

Lemma padme_len_bounds_witness : 1000000 <= padme_len 1000000 <= u64_max.
Proof. exact (proj1 (padme_len_bounds 1000000 ltac:(split; vm_compute; discriminate))). Defined.

End padme.

(** ** Nonces and bindings *)

Lemma byte_xor_inj_r (a b c : byte) : byte_xor a b = byte_xor a c -> b = c.
Proof.
  intros E. apply Z_of_byte_inj. apply (f_equal Z_of_byte) in E. unfold byte_xor in E.
  rewrite !Z_of_byte_of_Z in E.
  assert (Hs : forall x y, 0 <= Z.lxor (Z_of_byte x) (Z_of_byte y) < 256).
  { intros x y. pose proof (Z_of_byte_range x). pose proof (Z_of_byte_range y). split.
    - apply Z.lxor_nonneg; lia.
    - destruct (Z.eq_dec (Z.lxor (Z_of_byte x) (Z_of_byte y)) 0) as [->|]; [done|].
      change 256 with (2 ^ 8). apply Z.log2_lt_pow2; [|].
      + assert (0 <= Z.lxor (Z_of_byte x) (Z_of_byte y)) by (apply Z.lxor_nonneg; lia). lia.
      + pose proof (Z.log2_lxor (Z_of_byte x) (Z_of_byte y) ltac:(lia) ltac:(lia)).
        assert (Hl : forall z, 0 <= z < 256 -> Z.log2 z < 8).
        { intros z Hz. destruct (Z.eq_dec z 0) as [->|]; [done|]. apply Z.log2_lt_pow2; lia. }
        pose proof (Hl (Z_of_byte x) ltac:(lia)). pose proof (Hl (Z_of_byte y) ltac:(lia)). lia. }
  rewrite !Z.mod_small in E by apply Hs.
  apply (f_equal (Z.lxor (Z_of_byte a))) in E.
  rewrite <- !Z.lxor_assoc, Z.lxor_nilpotent, !Z.lxor_0_l in E. done.
Qed.

Lemma zip_with_xor_inj (base x y : bytes) :
  length x = length base -> length y = length base ->
  zip_with byte_xor base x = zip_with byte_xor base y -> x = y.
Proof.
  revert x y. induction base as [|b base IH]; intros [|a x] [|c y] Hx Hy E; try done.
  cbn in *. injection E as E1 E2. f_equal; [by apply (byte_xor_inj_r b)|]. apply IH; [lia..|done].
Qed.

(** Under one 12-byte nonce base, two chunk indices of the 64-bit counter never
    share a nonce, so no chunk of an object reuses one. *)
Theorem chunk_nonce_injective (base : bytes) (i j : Z) :
  blen base = 12 -> in_u 64 i -> in_u 64 j ->
  chunk_nonce base i = chunk_nonce base j -> i = j.
Proof.
  unfold in_u, chunk_nonce. intros Hb Hi Hj E. apply app_inv_head in E.
  apply zip_with_xor_inj in E.
  - apply (to_be_bytes_inj 8); [done..|exact E].
  - rewrite length_to_be_bytes, length_drop. unfold blen in Hb. lia.
  - rewrite length_to_be_bytes, length_drop. unfold blen in Hb. lia.
Qed.

Lemma chunk_nonce_injective_witness :
  chunk_nonce (replicate 12 xff) 7 <> chunk_nonce (replicate 12 xff) 8.
Proof.
  intros E. assert (Heq : 7 = 8); [|discriminate Heq].
  apply (chunk_nonce_injective (replicate 12 xff) 7 8); [reflexivity | split | split | exact E];
    vm_compute; first [reflexivity | discriminate].
Defined.

(** The associated data covers every fixed-header byte except [plaintext_len]: two
    36-byte headers with the same associated data agree on magic, version, algorithm
    ids, key epoch, nonce base and chunk size, and the final-chunk marker is part of
    it. *)
Theorem aad_covers_header (h h' : bytes) (fin fin' : bool) :
  blen h = 36 -> blen h' = 36 ->
  build_v4_aad (build_v3_aad h) fin = build_v4_aad (build_v3_aad h') fin' ->
  slice 0 24 h = slice 0 24 h' /\ slice 32 36 h = slice 32 36 h' /\ fin = fin'.
Proof.
  unfold build_v4_aad, build_v3_aad, V3_AAD_PREFIX_LEN. intros Hh Hh' E.
  apply app_inj_2 in E as [E F]; [|done].
  apply app_inj_1 in E as [E1 E2].
  - split; [done|]. split; [done|]. by destruct fin, fin'.
  - pose proof (blen_slice 0 24 h). pose proof (blen_slice 0 24 h'). unfold blen in *. lia.
Qed.

Lemma aad_covers_header_witness :
  slice 0 24 (replicate 36 x05) = slice 0 24 (replicate 36 x05).
Proof.
  refine (proj1 (aad_covers_header (replicate 36 x05) (replicate 36 x05) true true _ _ _));
    vm_compute; reflexivity.
Defined.

(** The HKDF context of an object's content key determines its address: no two
    distinct (bucket, key) pairs share one, whatever bytes the names hold, so an
    envelope copied to another address is opened with another derivation context. *)
Theorem content_key_info_binds_address (b b' k k' : string) :
  short_str b -> short_str b' -> short_str k -> short_str k' ->
  content_key_info b k = content_key_info b' k' -> b = b' /\ k = k'.
Proof.
  unfold short_str, content_key_info. intros Hb Hb' Hk Hk' E. apply app_inv_head in E.
  apply lp_inj in E as [E1 E2]; [|done..]. apply lp_inj_nil in E2; [|done..].
  split; by apply as_bytes_inj.
Qed.

Lemma content_key_info_binds_address_witness :
  content_key_info "ab" "c" = content_key_info "ab" "c" -> "ab"%string = "ab" /\ "c"%string = "c".
Proof.
  apply (content_key_info_binds_address "ab" "ab" "c" "c"); vm_compute; reflexivity.
Defined.

(** ** The chunk loops *)

Section loops.
Context {A : AeadOps} {K : KemOps} {H : HkdfOps}.

Lemma next_step_bounds pos cs n :
  0 < cs -> pos < n -> pos < Z.min (pos + cs + TAG_LEN) n <= n.
Proof. unfold TAG_LEN. lia. Qed.

(** Fuel equal to the number of bytes left is enough, and more changes nothing. *)
Lemma open_chunks_fuel k nb aad cs buf pos idx acc (f g : nat) :
  0 < cs -> blen buf - pos <= Z.of_nat f -> blen buf - pos <= Z.of_nat g ->
  open_chunks f k nb aad cs buf pos idx acc = open_chunks g k nb aad cs buf pos idx acc.
Proof.
  intros Hcs. revert g pos idx acc. induction f as [|f IH]; intros g pos idx acc Hf Hg.
  - destruct g; cbn; destruct (Z.ltb_spec pos (blen buf)); cbn; try done; lia.
  - destruct g as [|g]; cbn [open_chunks]; destruct (Z.ltb_spec pos (blen buf)); cbn [negb];
      try done; try lia.
    pose proof (next_step_bounds pos cs (blen buf) Hcs ltac:(lia)).
    destruct (_ <? TAG_LEN); [done|].
    destruct (aead_decrypt _ _ _ _); cbn [ok_or mbind result_bind]; [|done].
    apply IH; lia.
Qed.

(** The owning loop on the rest of the buffer computes what the indexing loop does. *)
Lemma open_chunks_owned_eq k nb aad cs buf (f : nat) pos idx acc :
  0 < cs -> 0 <= pos <= blen buf -> blen buf - pos <= Z.of_nat f ->
  open_chunks_owned f k nb aad cs (drop (Z.to_nat pos) buf) pos idx acc =
  open_chunks f k nb aad cs buf pos idx acc.
Proof.
  intros Hcs. revert pos idx acc. induction f as [|f IH]; intros pos idx acc Hp Hf.
  - rewrite drop_ge by (unfold blen in *; lia). cbn.
    by rewrite (proj2 (Z.ltb_ge pos (blen buf))) by lia.
  - cbn [open_chunks_owned open_chunks].
    destruct (Z.ltb_spec pos (blen buf)) as [Hlt|Hge]; cbn [negb].
    2: { rewrite drop_ge by (unfold blen in *; lia). done. }
    assert (Hrest : blen (drop (Z.to_nat pos) buf) = blen buf - pos) by blen_lia.
    rewrite bool_decide_eq_false_2 by (intros E; rewrite E, blen_nil in Hrest; lia).
    rewrite Hrest.
    set (n := Z.min (cs + TAG_LEN) (blen buf - pos)).
    set (ct_end := Z.min (pos + cs + TAG_LEN) (blen buf)).
    pose proof (next_step_bounds pos cs (blen buf) Hcs Hlt) as Hstep. fold ct_end in Hstep.
    assert (ct_end = pos + n) as Hn by lia.
    replace (ct_end - pos) with n by lia. destruct (n <? TAG_LEN) eqn:Ht; [done|].
    rewrite drop_drop. replace (Z.to_nat pos + Z.to_nat n)%nat with (Z.to_nat ct_end) by lia.
    rewrite <- Hn.
    replace (slice pos ct_end buf) with (take (Z.to_nat n) (drop (Z.to_nat pos) buf))
      by (unfold slice; f_equal; lia).
    destruct (aead_decrypt _ _ _ _); cbn [ok_or mbind result_bind]; [|done].
    apply IH; lia.
Qed.

Lemma check_header_chunk_size ver header h :
  check_header ver header = Ok h -> 0 < eh_chunk_size h < 2 ^ 32.
Proof.
  unfold check_header. intros E.
  repeat (case_match; cbn [negb] in *; try discriminate). simplify_eq. cbn.
  pose proof (from_be_bytes_range (slice 32 36 header)) as [Hlo Hhi].
  assert (256 ^ blen (slice 32 36 header) <= 2 ^ 32).
  { change (2 ^ 32) with (256 ^ 4). apply Z.pow_le_mono_r; [lia|]. rewrite blen_slice. lia. }
  match goal with E : (_ =? 0) = false |- _ => apply Z.eqb_neq in E end. lia.
Qed.

Lemma open_chunks_owned_full k nb aad cs buf pos :
  0 < cs -> 0 <= pos <= blen buf ->
  open_chunks_owned (length (drop (Z.to_nat pos) buf)) k nb aad cs (drop (Z.to_nat pos) buf) pos 0 [] =
  open_chunks (length buf) k nb aad cs buf pos 0 [].
Proof.
  intros Hcs Hp. rewrite open_chunks_owned_eq; [|done..|].
  - apply open_chunks_fuel; [done| |]; rewrite ?length_drop; unfold blen in *; lia.
  - rewrite length_drop. unfold blen in *. lia.
Qed.

Lemma owned_equiv (sk envelope : bytes) (bucket key : string) (expected : Z) :
  decrypt_owned sk envelope bucket key expected = decrypt sk envelope bucket key expected.
Proof.
  unfold decrypt_owned, decrypt.
  destruct (blen envelope <? 4); [done|]. destruct (negb _); [done|].
  destruct (blen envelope <? 6); [done|]. cbv zeta.
  assert (Hpre : 0 <= v3_preamble_len) by done.
  destruct (_ =? FORMAT_VER_V3); [|destruct (_ =? FORMAT_VER_V4); [|done]].
  - unfold decrypt_v3_owned, decrypt_v3. destruct (Z.ltb_spec (blen envelope) v3_preamble_len); [done|].
    destruct (check_header _ _) as [h|] eqn:Eh; [|done]. cbn [mbind result_bind].
    apply check_header_chunk_size in Eh.
    destruct (recover_content_key _ _ _ _); [|done]. cbn [mbind result_bind].
    by rewrite open_chunks_owned_full by lia.
  - unfold decrypt_v4_owned, decrypt_v4. destruct (Z.ltb_spec (blen envelope) v3_preamble_len); [done|].
    destruct (check_header _ _) as [h|] eqn:Eh; [|done]. cbn [mbind result_bind].
    apply check_header_chunk_size in Eh.
    destruct (recover_content_key _ _ _ _); [|done]. cbn [mbind result_bind].
    by rewrite open_chunks_owned_full by lia.
Qed.

(** The in-place reader and the borrowing reader agree on every input, byte for
    byte and error for error. *)
Theorem decrypt_owned_equiv (sk envelope : bytes) (bucket key : string) (expected : Z) :
  decrypt_owned sk envelope bucket key expected = decrypt sk envelope bucket key expected.
Proof. apply owned_equiv. Qed.

Lemma finish_plaintext_len pt expected out :
  0 <= expected -> finish_plaintext pt expected = Ok out -> blen out = expected.
Proof.
  unfold finish_plaintext. destruct (Z.ltb_spec (blen pt) expected); intros; simplify_eq.
  rewrite blen_take. lia.
Qed.

(** Whatever bytes an attacker puts on disk, a successful read has exactly the
    authenticated size; a truncated or re-lengthed envelope can never surface as a
    shorter or longer object. *)
Theorem decrypt_exact_size (sk envelope : bytes) (bucket key : string) (expected : Z) (out : bytes) :
  0 <= expected -> decrypt sk envelope bucket key expected = Ok out -> blen out = expected.
Proof.
  intros He Hd. unfold decrypt in Hd.
  repeat (case_match; try discriminate).
  - unfold decrypt_v3 in Hd. case_match; [done|].
    apply bind_Ok_inv in Hd as (h & _ & Hd). apply bind_Ok_inv in Hd as (k & _ & Hd).
    apply bind_Ok_inv in Hd as (pt & _ & Hd). case_match; [done|].
    by apply finish_plaintext_len in Hd.
  - unfold decrypt_v4 in Hd. case_match; [done|].
    apply bind_Ok_inv in Hd as (h & _ & Hd). apply bind_Ok_inv in Hd as (k & _ & Hd).
    apply bind_Ok_inv in Hd as (pt & _ & Hd). case_match; [done|].
    by apply finish_plaintext_len in Hd.
Qed.

End loops.

(** ** The abstract envelope

    What a version-4 object is on disk, independent of how it was written: the fixed
    header, the KEM ciphertext and the chunks sealed in order, the last one marked
    final. *)

Definition env_header (ver key_epoch : Z) (nonce_base : bytes) (plaintext_len chunk_size : Z) : bytes :=
  MAGIC_V3 ++ to_be_bytes 2 ver ++ [x01] ++ [x01] ++ to_be_bytes 4 key_epoch ++ nonce_base ++
  to_be_bytes 8 plaintext_len ++ to_be_bytes 4 chunk_size.

(** Chunks of the given size: all full but the last, which is not empty. *)
Inductive chunked (cs : Z) : list bytes -> Prop :=
| chunked_nil : chunked cs []
| chunked_last c : 0 < blen c <= cs -> chunked cs [c]
| chunked_cons c d rest : blen c = cs -> chunked cs (d :: rest) -> chunked cs (c :: d :: rest).

Fixpoint seal_chunks {A : AeadOps} (k nb aad_base : bytes) (total idx : Z) (chunks : list bytes)
  : option bytes :=
  match chunks with
  | [] => Some []
  | c :: rest =>
      ct ← aead_encrypt k (chunk_nonce nb idx) (build_v4_aad aad_base (idx + 1 =? total)) c;
      r ← seal_chunks k nb aad_base total (idx + 1) rest;
      Some (ct ++ r)
  end.

(** The associated-data base of a header does not depend on [plaintext_len]. *)
Lemma blen_MAGIC_V3 : blen MAGIC_V3 = 4.
Proof. done. Qed.
#[export] Hint Rewrite blen_MAGIC_V3 : blen.

Definition env_aad (ver key_epoch : Z) (nonce_base : bytes) (chunk_size : Z) : bytes :=
  MAGIC_V3 ++ to_be_bytes 2 ver ++ [x01] ++ [x01] ++ to_be_bytes 4 key_epoch ++ nonce_base ++
  to_be_bytes 4 chunk_size.

Lemma blen_env_header ver ep nb pl cs : blen nb = 12 -> blen (env_header ver ep nb pl cs) = 36.
Proof. intros. unfold env_header. blen_lia. Qed.

Ltac env_slices := unfold env_header; rewrite <- ?app_assoc; slices; try done.

Lemma build_v3_aad_env ver ep nb pl cs rest :
  blen nb = 12 -> build_v3_aad (env_header ver ep nb pl cs ++ rest) = env_aad ver ep nb cs.
Proof.
  intros Hnb. unfold build_v3_aad, V3_AAD_PREFIX_LEN, env_aad.
  replace (slice 32 36 (env_header ver ep nb pl cs ++ rest)) with (to_be_bytes 4 cs) by env_slices.
  replace (slice 0 24 (env_header ver ep nb pl cs ++ rest)) with
    (MAGIC_V3 ++ to_be_bytes 2 ver ++ [x01] ++ [x01] ++ to_be_bytes 4 ep ++ nb).
  { by rewrite <- !app_assoc. }
  unfold env_header. rewrite !app_assoc. by slices.
Qed.

Lemma check_header_env ver ep nb pl cs rest :
  blen nb = 12 -> in_u 16 ver -> in_u 32 ep -> in_u 64 pl -> 0 < cs < 2 ^ 32 ->
  check_header ver (env_header ver ep nb pl cs ++ rest) = Ok (mkEnvHeader ep nb pl cs).
Proof.
  unfold in_u. intros Hnb Hver Hep Hpl Hcs. unfold check_header.
  replace (slice 4 6 (env_header ver ep nb pl cs ++ rest)) with (to_be_bytes 2 ver) by env_slices.
  replace (slice 6 7 (env_header ver ep nb pl cs ++ rest)) with [x01] by env_slices.
  replace (slice 7 8 (env_header ver ep nb pl cs ++ rest)) with [x01] by env_slices.
  replace (slice 8 12 (env_header ver ep nb pl cs ++ rest)) with (to_be_bytes 4 ep) by env_slices.
  replace (slice 12 24 (env_header ver ep nb pl cs ++ rest)) with nb by env_slices.
  replace (slice 24 32 (env_header ver ep nb pl cs ++ rest)) with (to_be_bytes 8 pl) by env_slices.
  replace (slice 32 36 (env_header ver ep nb pl cs ++ rest)) with (to_be_bytes 4 cs) by env_slices.
  rewrite !from_to_be_bytes by (cbn; lia). rewrite Z.eqb_refl. cbn [negb].
  change (from_be_bytes [x01]) with 1. cbn [negb Z.eqb KEM_ALG_MLKEM768 AEAD_ALG_AES256GCM Pos.eqb].
  by rewrite (proj2 (Z.eqb_neq cs 0)) by lia.
Qed.

Lemma magic_env ver ep nb pl cs rest :
  slice 0 4 (env_header ver ep nb pl cs ++ rest) = MAGIC_V3.
Proof. env_slices. Qed.

Lemma kem_ct_of_env ver ep nb pl cs kem_ct rest :
  blen nb = 12 -> blen kem_ct = kem.CIPHERTEXT_BYTES ->
  kem_ct_of (env_header ver ep nb pl cs ++ kem_ct ++ rest) = kem_ct.
Proof.
  intros Hnb Hct. unfold kem_ct_of, v3_preamble_len, ENVELOPE_V3_HEADER_FIXED_LEN, kem.CIPHERTEXT_BYTES in *.
  pose proof (blen_env_header ver ep nb pl cs Hnb) as Hh.
  rewrite slice_app_skip by lia. rewrite Hh, slice_app_take by lia. apply slice_full; lia.
Qed.

Section sealed.
Context {A : AeadOps} {AL : AeadLaws}.

Lemma seal_chunks_total k nb ab total idx chunks cs :
  cs <= AEAD_P_MAX -> Forall (fun c => blen c <= cs) chunks ->
  exists body, seal_chunks k nb ab total idx chunks = Some body.
Proof.
  intros Hcs Hall. revert idx. induction Hall as [|c chunks Hc Hall IH]; intros idx; cbn.
  { eauto. }
  destruct (aead_encrypt_total k (chunk_nonce nb idx) (build_v4_aad ab (idx + 1 =? total)) c) as [ct ->]; [lia|].
  cbn. destruct (IH (idx + 1)) as [r ->]. cbn. eauto.
Qed.

Lemma seal_chunks_len k nb ab total idx chunks body :
  seal_chunks k nb ab total idx chunks = Some body ->
  blen body = blen (concat chunks) + 16 * blen chunks.
Proof.
  revert idx body. induction chunks as [|c chunks IH]; intros idx body E; cbn in E.
  { by simplify_eq. }
  destruct (aead_encrypt _ _ _ _) as [ct|] eqn:Ec; cbn in E; [|done].
  destruct (seal_chunks _ _ _ _ _ chunks) as [r|] eqn:Er; cbn in E; simplify_eq.
  apply aead_encrypt_len in Ec. apply IH in Er. cbn [concat].
  rewrite !blen_app, blen_cons. lia.
Qed.

Lemma seal_chunks_app k nb ab total idx l1 l2 body :
  seal_chunks k nb ab total idx (l1 ++ l2) = Some body ->
  exists b1 b2, seal_chunks k nb ab total idx l1 = Some b1 /\
    seal_chunks k nb ab total (idx + blen l1) l2 = Some b2 /\ body = b1 ++ b2.
Proof.
  revert idx body. induction l1 as [|c l1 IH]; intros idx body E; cbn in E.
  { exists [], body. rewrite blen_nil, Z.add_0_r. done. }
  cbn. destruct (aead_encrypt _ _ _ _) as [ct|]; cbn in *; [|done].
  destruct (seal_chunks _ _ _ _ _ (l1 ++ l2)) as [r|] eqn:Er; cbn in E; simplify_eq.
  apply IH in Er as (b1 & b2 & -> & H2 & ->). cbn.
  exists (ct ++ b1), b2. rewrite blen_cons, <- app_assoc.
  replace (idx + (1 + blen l1)) with (idx + 1 + blen l1) by lia. done.
Qed.

Lemma chunked_head_len cs c rest : 0 < cs -> chunked cs (c :: rest) -> 0 < blen c <= cs.
Proof. intros ?. inversion 1; subst; lia. Qed.
Lemma chunked_tail cs c rest : chunked cs (c :: rest) -> chunked cs rest.
Proof. inversion 1; subst; [constructor | done]. Qed.
Lemma chunked_Forall cs chunks : 0 < cs -> chunked cs chunks -> Forall (fun c => blen c <= cs) chunks.
Proof. intros Hcs. induction 1; constructor; try done; try lia. Qed.

Lemma seal_chunks_pos k nb ab total idx c rest body :
  seal_chunks k nb ab total idx (c :: rest) = Some body -> 16 <= blen body.
Proof.
  intros E. apply seal_chunks_len in E. rewrite blen_cons in E.
  pose proof (blen_nonneg rest). pose proof (blen_nonneg (concat (c :: rest))). lia.
Qed.

(** Reading back sealed chunks: if the loop expects, at every chunk it reaches, the
    associated data the chunk was sealed under, it returns their plaintext. *)
Lemma open_seal_chunks k nb ab total cs aad chunks :
  forall idx pre body acc (f : nat),
  0 < cs -> chunked cs chunks -> 0 <= idx -> idx + blen chunks < 2 ^ 64 ->
  seal_chunks k nb ab total idx chunks = Some body ->
  blen body <= Z.of_nat f ->
  (forall i ct_end, idx <= i < idx + blen chunks ->
     (ct_end = blen (pre ++ body) <-> i + 1 = idx + blen chunks) ->
     aad ct_end i = build_v4_aad ab (i + 1 =? total)) ->
  open_chunks f k nb aad cs (pre ++ body) (blen pre) idx acc = Ok (acc ++ concat chunks).
Proof.
  induction chunks as [|c rest IH]; intros idx pre body acc f Hcs Hch Hi Hbound Hs Hf Haad.
  { cbn in Hs. simplify_eq. rewrite !app_nil_r. destruct f; cbn; by rewrite Z.ltb_irrefl. }
  pose proof (chunked_head_len cs c rest Hcs Hch) as Hc.
  pose proof (seal_chunks_pos _ _ _ _ _ _ _ _ Hs) as Hpos.
  assert (Hlast : rest = [] \/ (blen c = cs /\ exists d r, rest = d :: r)).
  { inversion Hch; subst; [by left | right; eauto]. }
  cbn [seal_chunks] in Hs.
  destruct (aead_encrypt k _ _ c) as [ct|] eqn:Ec; cbn in Hs; [|done].
  destruct (seal_chunks k nb ab total (idx + 1) rest) as [r|] eqn:Er; cbn in Hs; simplify_eq.
  pose proof (aead_encrypt_len _ _ _ _ _ Ec) as Hct.
  rewrite blen_cons in *. pose proof (blen_nonneg rest) as Hrn. pose proof (blen_nonneg r).
  destruct f as [|f]; [cbn in Hf; pose proof (blen_nonneg (ct ++ r)); lia|].
  cbn [open_chunks].
  rewrite (proj2 (Z.ltb_lt _ _)) by (rewrite blen_app; lia). cbn [negb].
  assert (Hend : Z.min (blen pre + cs + TAG_LEN) (blen (pre ++ ct ++ r)) = blen pre + blen ct).
  { rewrite !blen_app. unfold TAG_LEN. destruct Hlast as [->|(Hcc & d & q & ->)].
    - cbn in Er. simplify_eq. rewrite blen_nil. lia.
    - lia. }
  assert (Hiff : blen pre + blen ct = blen (pre ++ ct ++ r) <-> idx + 1 = idx + (1 + blen rest)).
  { rewrite !blen_app. destruct Hlast as [->|(_ & d & q & ->)].
    - cbn in Er. simplify_eq. autorewrite with blen. lia.
    - apply seal_chunks_pos in Er. rewrite blen_cons. pose proof (blen_nonneg q). lia. }
  rewrite Hend. replace (blen pre + blen ct - blen pre) with (blen ct) by lia.
  rewrite (proj2 (Z.ltb_ge _ _)) by (unfold TAG_LEN; lia).
  rewrite Haad by (done || lia).
  assert (slice (blen pre) (blen pre + blen ct) (pre ++ ct ++ r) = ct) as ->.
  { rewrite slice_app_skip by lia. rewrite slice_app_take by lia. apply slice_full; lia. }
  rewrite (aead_decrypt_encrypt _ _ _ _ _ Ec). cbn [ok_or mbind result_bind].
  unfold next_idx. rewrite Z.mod_small by lia.
  rewrite (app_assoc pre ct r). replace (blen pre + blen ct) with (blen (pre ++ ct)) by (rewrite blen_app; lia).
  rewrite (IH (idx + 1) (pre ++ ct) r (acc ++ c) f); [by rewrite <- app_assoc|done|..]; try lia; try done.
  - by apply chunked_tail in Hch.
  - rewrite blen_app in Hf. lia.
  - intros i ct_end Hir Hce. apply Haad; [lia|]. rewrite (app_assoc pre ct r). lia.
Qed.

End sealed.

Section abstract_envelope.
Context {A : AeadOps} {K : KemOps} {H : HkdfOps} {AL : AeadLaws}.

(** A complete version-4 envelope of the given chunks. *)
Definition envelope_of (ep : Z) (nb : bytes) (cs plen : Z) (kem_ct body : bytes) : bytes :=
  env_header FORMAT_VER_V4 ep nb plen cs ++ kem_ct ++ body.

(** The ranges and lengths a writer guarantees. *)
Definition env_params_ok (ep : Z) (nb : bytes) (cs : Z) (kem_ct : bytes) : Prop :=
  in_u 32 ep /\ blen nb = 12 /\ 0 < cs < 2 ^ 32 /\ blen kem_ct = kem.CIPHERTEXT_BYTES.

(** [body] is the sealed form of [chunks]. *)
Definition sealed_body (k : bytes) (ep : Z) (nb : bytes) (cs : Z) (chunks : list bytes) (body : bytes)
  : Prop :=
  chunked cs chunks /\ blen chunks < 2 ^ 64 /\
  seal_chunks k nb (env_aad FORMAT_VER_V4 ep nb cs) (blen chunks) 0 chunks = Some body.

Lemma blen_preamble ep nb cs pl kem_ct :
  env_params_ok ep nb cs kem_ct ->
  blen (env_header FORMAT_VER_V4 ep nb pl cs ++ kem_ct) = v3_preamble_len.
Proof.
  intros (_ & Hnb & _ & Hct). rewrite blen_app, (blen_env_header _ _ _ _ _ Hnb), Hct. done.
Qed.

Lemma envelope_of_split ep nb cs pl kem_ct body :
  envelope_of ep nb cs pl kem_ct body = (env_header FORMAT_VER_V4 ep nb pl cs ++ kem_ct) ++ body.
Proof. unfold envelope_of. by rewrite <- app_assoc. Qed.

Lemma blen_envelope_of ep nb cs pl kem_ct body :
  env_params_ok ep nb cs kem_ct -> blen (envelope_of ep nb cs pl kem_ct body) = 1124 + blen body.
Proof. intros Hok. by rewrite envelope_of_split, blen_app, (blen_preamble _ _ _ _ _ Hok). Qed.

Lemma envelope_of_aad ep nb cs pl kem_ct body :
  blen nb = 12 ->
  build_v3_aad (slice 0 ENVELOPE_V3_HEADER_FIXED_LEN (envelope_of ep nb cs pl kem_ct body)) =
  env_aad FORMAT_VER_V4 ep nb cs.
Proof.
  intros Hnb. pose proof (blen_env_header FORMAT_VER_V4 ep nb pl cs Hnb).
  assert (slice 0 ENVELOPE_V3_HEADER_FIXED_LEN (envelope_of ep nb cs pl kem_ct body) =
    env_header FORMAT_VER_V4 ep nb pl cs ++ []) as ->.
  { rewrite app_nil_r. unfold envelope_of, ENVELOPE_V3_HEADER_FIXED_LEN.
    rewrite slice_app_take by lia. apply slice_full; lia. }
  by apply build_v3_aad_env.
Qed.

(** Every check before the chunk loop passes on an envelope with a version-4 header;
    only the loop and the length checks remain. *)
Lemma decrypt_envelope_loop sk ep nb cs kem_ct k body pl bucket key expected :
  env_params_ok ep nb cs kem_ct -> in_u 64 pl ->
  recover_content_key sk kem_ct bucket key = Ok k ->
  let E := envelope_of ep nb cs pl kem_ct body in
  decrypt sk E bucket key expected =
    (plaintext ← open_chunks (length E) k nb
       (fun ct_end _ => build_v4_aad (env_aad FORMAT_VER_V4 ep nb cs) (ct_end =? blen E))
       cs E v3_preamble_len 0 [];
     if negb (blen plaintext =? pl) then Err (Envelope "plaintext length mismatch")
     else finish_plaintext plaintext expected).
Proof.
  intros Hok Hpl Hk E. pose proof Hok as (Hep & Hnb & Hcs & Hct).
  pose proof (blen_envelope_of ep nb cs pl kem_ct body Hok) as HlenE. fold E in HlenE.
  pose proof (blen_nonneg body).
  unfold decrypt. rewrite (proj2 (Z.ltb_ge _ _)) by lia.
  rewrite bool_decide_eq_true_2 by apply magic_env. cbn [negb].
  rewrite (proj2 (Z.ltb_ge _ _)) by lia. cbv zeta.
  assert (slice 4 6 E = to_be_bytes 2 FORMAT_VER_V4) as -> by (unfold E, envelope_of; env_slices).
  change (from_be_bytes (to_be_bytes 2 FORMAT_VER_V4)) with 4.
  cbn [Z.eqb FORMAT_VER_V3 FORMAT_VER_V4 Pos.eqb].
  unfold decrypt_v4. cbv zeta.
  rewrite (proj2 (Z.ltb_ge _ _)) by (change v3_preamble_len with 1124; lia).
  assert (check_header FORMAT_VER_V4 E = Ok (mkEnvHeader ep nb pl cs)) as ->
    by (apply check_header_env; done).
  cbn [mbind result_bind].
  assert (kem_ct_of E = kem_ct) as -> by (apply kem_ct_of_env; done).
  rewrite Hk. cbn [mbind result_bind eh_nonce_base eh_chunk_size eh_plaintext_len].
  unfold E. by rewrite envelope_of_aad by done.
Qed.

Lemma decrypt_envelope sk ep nb cs kem_ct k chunks body pl bucket key expected :
  env_params_ok ep nb cs kem_ct -> in_u 64 pl ->
  recover_content_key sk kem_ct bucket key = Ok k ->
  sealed_body k ep nb cs chunks body ->
  decrypt sk (envelope_of ep nb cs pl kem_ct body) bucket key expected =
    if negb (blen (concat chunks) =? pl) then Err (Envelope "plaintext length mismatch")
    else finish_plaintext (concat chunks) expected.
Proof.
  intros Hok Hpl Hk (Hch & Hn & Hs). pose proof Hok as (Hep & Hnb & Hcs & Hct).
  rewrite (decrypt_envelope_loop _ _ _ _ _ k) by done. rewrite envelope_of_split.
  rewrite <- (blen_preamble ep nb cs pl kem_ct Hok) at 1.
  rewrite (open_seal_chunks k nb (env_aad FORMAT_VER_V4 ep nb cs) (blen chunks) cs _ chunks);
    try done; try lia.
  - unfold blen. rewrite length_app. lia.
  - intros i ct_end Hi Hce. f_equal.
    destruct (Z.eqb_spec ct_end (blen ((env_header FORMAT_VER_V4 ep nb pl cs ++ kem_ct) ++ body))),
      (Z.eqb_spec (i + 1) (blen chunks)); try done; lia.
Qed.

Lemma parse_v4_geometry_env ep nb cs pl :
  in_u 32 ep -> blen nb = 12 -> in_u 64 pl -> 0 < cs < 2 ^ 32 ->
  parse_v4_geometry (env_header FORMAT_VER_V4 ep nb pl cs) = Ok (ep, cs, pl).
Proof.
  intros Hep Hnb Hpl Hcs. unfold parse_v4_geometry, parse_geometry.
  rewrite blen_env_header by done.
  rewrite <- (app_nil_r (env_header _ _ _ _ _)).
  rewrite bool_decide_eq_true_2 by apply magic_env.
  by rewrite check_header_env by done.
Qed.

(** Opening the ciphertext of a run of chunks [mid], given how many chunks precede it
    and how many the object has in total. *)
Lemma decrypt_v4_chunks_window sk ep nb cs kem_ct k pl bucket key (l1 mid : list bytes) total window rest :
  env_params_ok ep nb cs kem_ct -> in_u 64 pl ->
  recover_content_key sk kem_ct bucket key = Ok k ->
  chunked cs mid -> blen l1 + blen mid < 2 ^ 64 ->
  seal_chunks k nb (env_aad FORMAT_VER_V4 ep nb cs) total (blen l1) mid = Some window ->
  decrypt_v4_chunks sk (env_header FORMAT_VER_V4 ep nb pl cs ++ kem_ct ++ rest) window (blen l1) total
    bucket key = Ok (concat mid).
Proof.
  intros Hok Hpl Hk Hch Hn Hs. pose proof Hok as (Hep & Hnb & Hcs & Hct).
  unfold decrypt_v4_chunks. cbv zeta.
  pose proof (blen_preamble ep nb cs pl kem_ct Hok) as Hpre.
  rewrite (proj2 (Z.ltb_ge _ _)).
  2: { rewrite app_assoc, blen_app, Hpre. pose proof (blen_nonneg rest). lia. }
  pose proof (blen_env_header FORMAT_VER_V4 ep nb pl cs Hnb) as Hh.
  assert (slice 0 ENVELOPE_V3_HEADER_FIXED_LEN (env_header FORMAT_VER_V4 ep nb pl cs ++ kem_ct ++ rest)
    = env_header FORMAT_VER_V4 ep nb pl cs) as ->.
  { unfold ENVELOPE_V3_HEADER_FIXED_LEN. rewrite slice_app_take by lia. apply slice_full; lia. }
  rewrite parse_v4_geometry_env by done. cbn [mbind result_bind].
  rewrite kem_ct_of_env, Hk by done. cbn [mbind result_bind].
  assert (slice 12 24 (env_header FORMAT_VER_V4 ep nb pl cs ++ kem_ct ++ rest) = nb) as -> by env_slices.
  rewrite <- (app_nil_r (env_header _ _ _ _ _)), build_v3_aad_env by done.
  change window with ([] ++ window) at 2. change 0 with (blen (@nil byte)).
  pose proof (blen_nonneg l1).
  rewrite (open_seal_chunks k nb (env_aad FORMAT_VER_V4 ep nb cs) total cs _ mid); try done; try lia.
  intros i ct_end Hi _. unfold next_idx. rewrite Z.mod_small by lia. done.
Qed.

(** A ranged read recovers exactly the chunks it fetched: opening the stored
    ciphertext of any run of consecutive chunks of a version-4 object, with the true
    first index and the true chunk total, yields those chunks' plaintext. *)
Theorem ranged_read_correct (sk : bytes) (ep : Z) (nb : bytes) (cs : Z) (kem_ct k : bytes) (pl : Z)
    (bucket key : string) (l1 mid l2 : list bytes) (body : bytes) :
  env_params_ok ep nb cs kem_ct -> in_u 64 pl ->
  recover_content_key sk kem_ct bucket key = Ok k ->
  sealed_body k ep nb cs (l1 ++ mid ++ l2) body -> chunked cs mid ->
  exists b1 window b2, body = b1 ++ window ++ b2 /\
    blen b1 = blen (concat l1) + 16 * blen l1 /\
    blen window = blen (concat mid) + 16 * blen mid /\
    decrypt_v4_chunks sk (envelope_of ep nb cs pl kem_ct body) window (blen l1)
      (blen (l1 ++ mid ++ l2)) bucket key = Ok (concat mid).
Proof.
  intros Hok Hpl Hk (Hch & Hn & Hs) Hmid.
  apply seal_chunks_app in Hs as (b1 & b' & H1 & Hs & ->).
  apply seal_chunks_app in Hs as (window & b2 & Hw & H2 & ->).
  exists b1, window, b2. split; [done|]. rewrite Z.add_0_l in Hw.
  split; [by apply seal_chunks_len in H1|]. split; [by apply seal_chunks_len in Hw|].
  apply (decrypt_v4_chunks_window sk ep nb cs kem_ct k); try done.
  rewrite !blen_app in Hn. pose proof (blen_nonneg l2). lia.
Qed.

(** ** Truncation *)

(** The authenticity the marker relies on: AES-GCM does not accept, under the final
    marker, a chunk that was sealed under the non-final one.  (For two associated
    data of equal length differing in one bit the two tags differ whenever the hash
    subkey of [k] is not zero.) *)
Definition marker_binding (k : bytes) : Prop := forall n ab c ct,
  aead_encrypt k n (build_v4_aad ab false) c = Some ct ->
  aead_decrypt k n (build_v4_aad ab true) ct = None.

Lemma open_chunks_truncated k nb ab total cs chunks :
  marker_binding k ->
  forall idx pre body acc (f : nat),
  0 < cs -> chunks <> [] -> Forall (fun c => blen c = cs) chunks ->
  0 <= idx -> idx + blen chunks < total -> total < 2 ^ 64 ->
  seal_chunks k nb ab total idx chunks = Some body -> blen body <= Z.of_nat f ->
  open_chunks f k nb (fun ct_end _ => build_v4_aad ab (ct_end =? blen (pre ++ body))) cs
    (pre ++ body) (blen pre) idx acc = Err AuthFailed.
Proof.
  intros HB. induction chunks as [|c rest IH]; intros idx pre body acc f Hcs Hne Hall Hi Ht Ht64 Hs Hf;
    [done|].
  inversion Hall as [|? ? Hc Hrest]; subst. pose proof (seal_chunks_pos _ _ _ _ _ _ _ _ Hs) as Hpos.
  cbn [seal_chunks] in Hs. rewrite blen_cons in Ht. pose proof (blen_nonneg rest).
  rewrite (proj2 (Z.eqb_neq _ _)) in Hs by lia.
  destruct (aead_encrypt k _ _ c) as [ct|] eqn:Ec; cbn in Hs; [|done].
  destruct (seal_chunks k nb ab total (idx + 1) rest) as [r|] eqn:Er; cbn in Hs; simplify_eq.
  pose proof (aead_encrypt_len _ _ _ _ _ Ec) as Hct. pose proof (blen_nonneg r).
  destruct f as [|f]; [cbn [Z.of_nat] in Hf; lia|]. cbn [open_chunks].
  rewrite (proj2 (Z.ltb_lt _ _)) by (rewrite blen_app; lia). cbn [negb].
  assert (Hend : Z.min (blen pre + blen c + TAG_LEN) (blen (pre ++ ct ++ r)) = blen pre + blen ct)
    by (rewrite !blen_app; unfold TAG_LEN; lia).
  rewrite Hend, (proj2 (Z.ltb_ge _ _)) by (unfold TAG_LEN; lia).
  assert (slice (blen pre) (blen pre + blen ct) (pre ++ ct ++ r) = ct) as ->.
  { rewrite slice_app_skip by lia. rewrite slice_app_take by lia. apply slice_full; lia. }
  destruct rest as [|d q].
  - cbn in Er. simplify_eq. rewrite app_nil_r, blen_app, Z.eqb_refl. by rewrite (HB _ _ _ _ Ec).
  - pose proof (seal_chunks_pos _ _ _ _ _ _ _ _ Er).
    rewrite (proj2 (Z.eqb_neq _ _)) by (rewrite !blen_app; lia).
    rewrite (aead_decrypt_encrypt _ _ _ _ _ Ec). cbn [ok_or mbind result_bind].
    unfold next_idx. rewrite Z.mod_small by lia.
    replace (blen pre + blen ct) with (blen (pre ++ ct)) by (rewrite blen_app; lia).
    rewrite (app_assoc pre ct r). apply IH; try done; try lia.
    rewrite blen_app in Hf. lia.
Qed.

Lemma chunked_prefix_full cs l1 l2 :
  chunked cs (l1 ++ l2) -> l2 <> [] -> Forall (fun c => blen c = cs) l1.
Proof.
  revert l2. induction l1 as [|c l1 IH]; intros l2 Hch Hne; [constructor|].
  assert (Htl : chunked cs (l1 ++ l2)) by (by apply chunked_tail in Hch).
  constructor; [|by apply (IH l2)].
  destruct (l1 ++ l2) as [|d rest] eqn:E.
  - apply app_eq_nil in E as [_ ?]. done.
  - cbn in Hch. rewrite E in Hch. by inversion Hch.
Qed.

(** C3: dropping trailing chunks from a stored version-4 object and patching its
    unauthenticated length field to anything at all is detected: the read fails
    authentication, because the new last chunk was not sealed as final. *)
Theorem truncation_detected (sk : bytes) (ep : Z) (nb : bytes) (cs : Z) (kem_ct k : bytes)
    (bucket key : string) (kept dropped : list bytes) (body kept_body : bytes) (forged_len expected : Z) :
  marker_binding k -> env_params_ok ep nb cs kem_ct -> in_u 64 forged_len ->
  recover_content_key sk kem_ct bucket key = Ok k ->
  sealed_body k ep nb cs (kept ++ dropped) body -> kept <> [] -> dropped <> [] ->
  kept_body = take (length kept_body) body -> blen kept_body = blen (concat kept) + 16 * blen kept ->
  decrypt sk (envelope_of ep nb cs forged_len kem_ct kept_body) bucket key expected = Err AuthFailed.
Proof.
  intros HB Hok Hpl Hk (Hch & Hn & Hs) Hkept Hdrop Hpref Hklen.
  pose proof Hok as (Hep & Hnb & Hcs & Hct).
  apply seal_chunks_app in Hs as (b1 & b2 & H1 & H2 & ->).
  assert (kept_body = b1) as ->.
  { pose proof (seal_chunks_len _ _ _ _ _ _ _ H1) as Hl1.
    assert (length kept_body = length b1) as Hl by (unfold blen in *; lia).
    rewrite Hpref, Hl, take_app_le by lia. by apply take_ge. }
  rewrite (decrypt_envelope_loop _ _ _ _ _ k) by done. rewrite envelope_of_split.
  rewrite <- (blen_preamble ep nb cs forged_len kem_ct Hok) at 1.
  rewrite blen_app in Hn, H1.
  assert (0 < blen dropped) by (destruct dropped; [done|rewrite blen_cons; pose proof (blen_nonneg dropped); lia]).
  rewrite (open_chunks_truncated k nb _ (blen kept + blen dropped) cs kept); try done; try lia.
  - by apply (chunked_prefix_full cs kept dropped).
  - unfold blen. rewrite length_app. lia.
Qed.

End abstract_envelope.

(** ** Concrete envelopes, evaluated with the toy primitives *)

Module EnvelopeWitness.
#[local] Existing Instances Toy.aead Toy.kem Toy.hkdf Toy.aead_laws.

Definition w_sk : bytes := replicate 2400 x03.
Definition w_nb : bytes := replicate 12 x07.
Definition w_kem_ct : bytes := replicate 1088 x05.
Definition w_key : bytes :=
  match recover_content_key w_sk w_kem_ct "b" "k" with Ok k => k | Err _ => [] end.
Definition w_first : list bytes := [[x61; x62]].
Definition w_mid : list bytes := [[x63; x64]].
Definition w_last : list bytes := [[x65]].
Definition w_body : bytes :=
  default [] (seal_chunks w_key w_nb (env_aad FORMAT_VER_V4 1 w_nb 2) 3 0 (w_first ++ w_mid ++ w_last)).
Definition w_kept : bytes := take 36 w_body.

Lemma w_params : env_params_ok 1 w_nb 2 w_kem_ct.
Proof. unfold env_params_ok, in_u. split_and!; vm_compute; first [reflexivity | discriminate]. Qed.

Lemma w_recover : recover_content_key w_sk w_kem_ct "b" "k" = Ok w_key.
Proof. vm_compute. reflexivity. Qed.

Lemma w_sealed : sealed_body w_key 1 w_nb 2 (w_first ++ w_mid ++ w_last) w_body.
Proof.
  split; [|split].
  - apply chunked_cons; [done|]. apply chunked_cons; [done|]. apply chunked_last. vm_compute. done.
  - vm_compute. reflexivity.
  - vm_compute. reflexivity.
Qed.

Lemma w_marker : marker_binding w_key.
Proof.
  intros n ab c ct E. cbn in E |- *. unfold Toy.seal, Toy.open in *.
  case_match; simplify_eq.
  case_bool_decide as Hd; [|done]. exfalso.
  assert (Hl : forall a p, length (Toy.tag w_key n a p) = 16%nat).
  { intros a p. pose proof (Toy.blen_tag w_key n a p). unfold blen in *. lia. }
  replace (length (c ++ Toy.tag w_key n (build_v4_aad ab false) c) - 16)%nat with (length c) in Hd
    by (rewrite length_app, Hl; lia).
  rewrite take_app_length in Hd. apply app_inv_head in Hd.
  apply (f_equal head) in Hd. unfold Toy.tag, build_v4_aad in Hd.
  cbn [head app] in Hd. by rewrite !last_snoc in Hd.
Qed.

Lemma ranged_read_correct_witness :
  exists b1 window b2, w_body = b1 ++ window ++ b2 /\
    blen b1 = blen (concat w_first) + 16 * blen w_first /\
    blen window = blen (concat w_mid) + 16 * blen w_mid /\
    decrypt_v4_chunks w_sk (envelope_of 1 w_nb 2 5 w_kem_ct w_body) window (blen w_first)
      (blen (w_first ++ w_mid ++ w_last)) "b" "k" = Ok (concat w_mid).
Proof.
  apply (ranged_read_correct w_sk 1 w_nb 2 w_kem_ct w_key 5 "b" "k" w_first w_mid w_last w_body).
  - apply w_params.
  - done.
  - apply w_recover.
  - apply w_sealed.
  - apply chunked_last. vm_compute. done.
Defined.

Lemma truncation_detected_witness :
  decrypt w_sk (envelope_of 1 w_nb 2 4 w_kem_ct w_kept) "b" "k" 4 = Err AuthFailed.
Proof.
  apply (truncation_detected w_sk 1 w_nb 2 w_kem_ct w_key "b" "k" (w_first ++ w_mid) w_last w_body
           w_kept 4 4).
  - apply w_marker.
  - apply w_params.
  - done.
  - apply w_recover.
  - apply w_sealed.
  - done.
  - done.
  - vm_compute. reflexivity.
  - vm_compute. reflexivity.
Defined.

Lemma decrypt_exact_size_witness : blen ([x61; x62; x63; x64; x65] : bytes) = 5.
Proof.
  apply (decrypt_exact_size w_sk (envelope_of 1 w_nb 2 5 w_kem_ct w_body) "b" "k" 5); [lia|].
  vm_compute. reflexivity.
Defined.
End EnvelopeWitness.
