(* ===== verification/Sink.v ===== *)
(** * The write sink of the streaming upload path

    Models y2q-core/src/storage/streaming_sink.rs and the [UringStreamingWriter] of
    y2q-core/src/storage/uring/streaming.rs.  [SinkOps] is the interface the encrypting
    session is written against, [SinkLaws] what it promises: a byte file with a cursor,
    writes that overwrite in place, and success on a file without faults.  Both
    backends discharge it ([tokio_sink_laws], [uring_sink_laws]), and so does the enum that
    dispatches between them ([streaming_sink_laws]).

    An I/O error is an [Err] and carries no sink: every caller propagates it with [?]
    and drops the sink. *)

From S2P Require Import Prelude.

(** ** Files *)

Inductive IoError : Type := IoOther (msg : string).

(** Largest file offset ([off_t]). *)
Definition FILE_MAX : Z := 2 ^ 63 - 1.

(** The bytes of a file and the faults still to come: one boolean is consumed by every
    system call, [true] makes it fail; an exhausted list means no more faults. *)
Record Disk : Type := mkDisk { contents : bytes; faults : list bool }.

(** Write [b] at [off]: holes read as zero, an empty write changes nothing. *)
Definition overwrite (c : bytes) (off : Z) (b : bytes) : bytes :=
  if bool_decide (b = []) then c else
  take (Z.to_nat off) c ++ replicate (Z.to_nat off - length c) x00 ++ b ++
  drop (Z.to_nat off + length b) c.

Definition syscall (d : Disk) : result IoError Disk :=
  match faults d with
  | true :: _ => Err (IoOther "io")
  | false :: fs => Ok (mkDisk (contents d) fs)
  | [] => Ok d
  end.

Definition pwrite_all (d : Disk) (b : bytes) (off : Z) : result IoError Disk :=
  d' ← syscall d;
  if FILE_MAX <? off + blen b then Err (IoOther "EFBIG") else
  Ok (mkDisk (overwrite (contents d') off b) (faults d')).

(** ** The interface *)

Class SinkOps (S : Type) := {
  write_all : S -> bytes -> result IoError S;
  write_all_at : S -> bytes -> Z -> result IoError S;
  seek : S -> Z -> result IoError S;
  seek_to_end : S -> result IoError (Z * S);
}.

Class SinkLaws (S : Type) {O : SinkOps S} := {
  sink_file : S -> bytes;
  sink_cursor : S -> Z;
  (** The sink's own bookkeeping agrees with the file. *)
  sink_wf : S -> Prop;
  (** No fault is pending. *)
  sink_healthy : S -> Prop;
  sink_wf_cursor : forall s, sink_wf s -> 0 <= sink_cursor s;
  write_all_spec : forall s b s', sink_wf s -> write_all s b = Ok s' ->
    sink_wf s' /\ sink_file s' = overwrite (sink_file s) (sink_cursor s) b /\
    sink_cursor s' = sink_cursor s + blen b /\ (b <> [] -> sink_cursor s' <= FILE_MAX);
  write_all_at_spec : forall s b off s', sink_wf s -> 0 <= off -> b <> [] ->
    write_all_at s b off = Ok s' ->
    sink_wf s' /\ sink_file s' = overwrite (sink_file s) off b /\ sink_cursor s' = off + blen b;
  seek_spec : forall s off s', sink_wf s -> 0 <= off -> seek s off = Ok s' ->
    sink_wf s' /\ sink_file s' = sink_file s /\ sink_cursor s' = off;
  seek_to_end_spec : forall s n s', sink_wf s -> seek_to_end s = Ok (n, s') ->
    sink_wf s' /\ sink_file s' = sink_file s /\ n = blen (sink_file s) /\
    sink_cursor s' = blen (sink_file s);
  write_all_healthy : forall s b, sink_wf s -> sink_healthy s ->
    sink_cursor s + blen b <= FILE_MAX -> exists s', write_all s b = Ok s' /\ sink_healthy s';
  write_all_at_healthy : forall s b off, sink_wf s -> sink_healthy s -> 0 <= off ->
    off + blen b <= FILE_MAX -> exists s', write_all_at s b off = Ok s' /\ sink_healthy s';
  seek_healthy : forall s off, sink_wf s -> sink_healthy s -> off <= FILE_MAX ->
    exists s', seek s off = Ok s' /\ sink_healthy s';
  seek_to_end_healthy : forall s, sink_wf s -> sink_healthy s ->
    exists n s', seek_to_end s = Ok (n, s') /\ sink_healthy s';
}.

(** ** Facts about files *)

Lemma blen_overwrite c off b :
  0 <= off -> b <> [] -> blen (overwrite c off b) = Z.max (blen c) (off + blen b).
Proof.
  intros Ho Hb. unfold overwrite. rewrite bool_decide_eq_false_2 by done.
  unfold blen. rewrite !length_app, length_take, length_replicate, length_drop. lia.
Qed.

Lemma overwrite_nil c off : overwrite c off [] = c.
Proof. done. Qed.

Lemma overwrite_end c b : overwrite c (blen c) b = c ++ b.
Proof.
  unfold overwrite. case_bool_decide as Hb; [subst; by rewrite app_nil_r|].
  unfold blen. rewrite Nat2Z.id, Nat.sub_diag, take_ge by lia. cbn [replicate app].
  rewrite drop_ge by lia. by rewrite app_nil_r.
Qed.

Lemma overwrite_middle (a x y z : bytes) :
  length x = length y -> overwrite (a ++ x ++ z) (blen a) y = a ++ y ++ z.
Proof.
  intros Hl. unfold overwrite. case_bool_decide as Hy.
  { subst. by destruct x. }
  unfold blen. rewrite Nat2Z.id, take_app_length.
  replace (length a - length (a ++ x ++ z))%nat with 0%nat by (rewrite length_app; lia).
  cbn [replicate app]. do 2 f_equal.
  rewrite <- Hl, <- drop_drop, drop_app_length. apply drop_app_length.
Qed.

Lemma pwrite_all_spec d b off d' :
  pwrite_all d b off = Ok d' ->
  contents d' = overwrite (contents d) off b /\ off + blen b <= FILE_MAX.
Proof.
  unfold pwrite_all, syscall. destruct (faults d) as [|[] fs]; cbn; try done;
    destruct (Z.ltb_spec FILE_MAX (off + blen b)); intros; simplify_eq; cbn; split; done || lia.
Qed.

Lemma pwrite_all_healthy d b off :
  faults d = [] -> off + blen b <= FILE_MAX ->
  exists d', pwrite_all d b off = Ok d' /\ faults d' = [].
Proof.
  intros Hf Ho. unfold pwrite_all, syscall. rewrite Hf. cbn.
  rewrite (proj2 (Z.ltb_ge _ _)) by lia. eauto.
Qed.

(** ** The tokio backend: a file descriptor with its own position *)

Record TokioFile : Type := mkTokioFile { t_disk : Disk; t_pos : Z }.

Definition t_seek_start (f : TokioFile) (offset : Z) : result IoError TokioFile :=
  d ← syscall (t_disk f);
  if FILE_MAX <? offset then Err (IoOther "EINVAL") else Ok (mkTokioFile d offset).

Definition t_write_all (f : TokioFile) (b : bytes) : result IoError TokioFile :=
  if bool_decide (b = []) then Ok f else
  d ← pwrite_all (t_disk f) b (t_pos f);
  Ok (mkTokioFile d (t_pos f + blen b)).

Definition t_write_all_at (f : TokioFile) (b : bytes) (offset : Z) : result IoError TokioFile :=
  f' ← t_seek_start f offset; t_write_all f' b.

Definition t_seek_to_end (f : TokioFile) : result IoError (Z * TokioFile) :=
  d ← syscall (t_disk f);
  Ok (blen (contents d), mkTokioFile d (blen (contents d))).

#[export] Instance tokio_ops : SinkOps TokioFile := {
  write_all := t_write_all; write_all_at := t_write_all_at;
  seek := t_seek_start; seek_to_end := t_seek_to_end }.

Lemma syscall_contents d d' : syscall d = Ok d' -> contents d' = contents d.
Proof. unfold syscall. destruct (faults d) as [|[] fs]; intros; by simplify_eq. Qed.

Lemma syscall_healthy d : faults d = [] -> syscall d = Ok d.
Proof. unfold syscall. by intros ->. Qed.

Lemma t_write_all_spec f b f' :
  t_write_all f b = Ok f' ->
  contents (t_disk f') = overwrite (contents (t_disk f)) (t_pos f) b /\
  t_pos f' = t_pos f + blen b /\ (b <> [] -> t_pos f' <= FILE_MAX).
Proof.
  unfold t_write_all. case_bool_decide as Hb; intros E.
  - simplify_eq. rewrite overwrite_nil, blen_nil. split_and!; done || lia.
  - apply bind_Ok_inv in E as (d & Ed & E). simplify_eq. cbn.
    apply pwrite_all_spec in Ed as [-> ?]. done.
Qed.

Lemma t_seek_start_spec f off f' :
  t_seek_start f off = Ok f' -> contents (t_disk f') = contents (t_disk f) /\ t_pos f' = off.
Proof.
  unfold t_seek_start. intros E. apply bind_Ok_inv in E as (d & Ed & E).
  case_match; simplify_eq. by apply syscall_contents in Ed.
Qed.

#[export, program] Instance tokio_sink_laws : SinkLaws TokioFile := {
  sink_file f := contents (t_disk f); sink_cursor f := t_pos f;
  sink_wf f := 0 <= t_pos f; sink_healthy f := faults (t_disk f) = [] }.
Next Obligation. done. Qed.
Next Obligation.
  cbn. intros s b s' Hwf E. apply t_write_all_spec in E as (-> & E & ?).
  pose proof (blen_nonneg b). split_and!; done || lia.
Qed.
Next Obligation.
  cbn. intros s b off s' Hwf Ho Hb E. apply bind_Ok_inv in E as (f & Ef & E).
  apply t_seek_start_spec in Ef as [Hc Hp]. apply t_write_all_spec in E as (-> & E & _).
  rewrite Hc, Hp in *. pose proof (blen_nonneg b). split_and!; done || lia.
Qed.
Next Obligation. cbn. intros s off s' Hwf Ho E. apply t_seek_start_spec in E as [-> E]. rewrite E. done. Qed.
Next Obligation.
  cbn. intros s n s' Hwf E. apply bind_Ok_inv in E as (d & Ed & E).
  apply syscall_contents in Ed. simplify_eq. cbn. rewrite Ed.
  split_and!; try done. apply blen_nonneg.
Qed.
Next Obligation.
  cbn. intros s b Hwf Hh Hl. unfold t_write_all. case_bool_decide; [eauto|].
  destruct (pwrite_all_healthy (t_disk s) b (t_pos s) Hh Hl) as (d & -> & ?). cbn. eauto.
Qed.
Next Obligation.
  cbn. intros s b off Hwf Hh Ho Hl. unfold t_write_all_at, t_seek_start.
  rewrite syscall_healthy by done. pose proof (blen_nonneg b). cbn.
  rewrite (proj2 (Z.ltb_ge _ _)) by lia. cbn. unfold t_write_all. case_bool_decide; [eauto|].
  destruct (pwrite_all_healthy (t_disk s) b off Hh Hl) as (d & E & ?). cbn. rewrite E. cbn. eauto.
Qed.
Next Obligation.
  cbn. intros s off Hwf Hh Ho. unfold t_seek_start. rewrite syscall_healthy by done. cbn.
  rewrite (proj2 (Z.ltb_ge _ _)) by lia. eauto.
Qed.
Next Obligation.
  cbn. intros s Hwf Hh. unfold t_seek_to_end. rewrite syscall_healthy by done. cbn. eauto.
Qed.

(** ** The io_uring backend: every write is positioned, the cursor and the high-water
    mark are kept by the writer *)

Record UringStreamingWriter : Type := mkUringStreamingWriter {
  u_disk : Disk;      (** the worker's view of the file at [path] *)
  u_cursor : Z;
  u_end : Z;
}.

Definition uring_new (d : Disk) (start_offset : Z) : UringStreamingWriter :=
  mkUringStreamingWriter d start_offset start_offset.

Definition end_offset (w : UringStreamingWriter) : Z := u_end w.

Definition set_offset (w : UringStreamingWriter) (offset : Z) : UringStreamingWriter :=
  mkUringStreamingWriter (u_disk w) offset (u_end w).

Definition u_write_all_at (w : UringStreamingWriter) (b : bytes) (offset : Z)
  : result IoError UringStreamingWriter :=
  if bool_decide (b = []) then Ok w else
  d ← pwrite_all (u_disk w) b offset;
  let e := (offset + blen b) mod 2 ^ 64 in
  Ok (mkUringStreamingWriter d e (if u_end w <? e then e else u_end w)).

Definition u_write_all (w : UringStreamingWriter) (b : bytes) : result IoError UringStreamingWriter :=
  u_write_all_at w b (u_cursor w).

#[export] Instance uring_ops : SinkOps UringStreamingWriter := {
  write_all := u_write_all; write_all_at := u_write_all_at;
  seek w offset := Ok (set_offset w offset);
  seek_to_end w := Ok (end_offset w, set_offset w (end_offset w)) }.

Lemma u_write_all_at_spec w b off w' :
  u_end w = blen (contents (u_disk w)) -> 0 <= off ->
  u_write_all_at w b off = Ok w' -> b <> [] ->
  u_end w' = blen (contents (u_disk w')) /\
  contents (u_disk w') = overwrite (contents (u_disk w)) off b /\
  u_cursor w' = off + blen b /\ u_cursor w' <= FILE_MAX.
Proof.
  intros He Ho E Hb. unfold u_write_all_at in E. rewrite bool_decide_eq_false_2 in E by done.
  apply bind_Ok_inv in E as (d & Ed & E). simplify_eq. cbn.
  apply pwrite_all_spec in Ed as [-> Hmax]. rewrite blen_overwrite by done.
  pose proof (blen_nonneg b). unfold FILE_MAX in *. rewrite Z.mod_small by lia.
  split_and!; try done. rewrite He. case_match; lia.
Qed.

Lemma u_write_all_at_healthy w b off :
  faults (u_disk w) = [] -> off + blen b <= FILE_MAX ->
  exists w', u_write_all_at w b off = Ok w' /\ faults (u_disk w') = [].
Proof.
  intros Hf Hl. unfold u_write_all_at. case_bool_decide; [eauto|].
  destruct (pwrite_all_healthy (u_disk w) b off Hf Hl) as (d & -> & ?). cbn. eauto.
Qed.

#[export, program] Instance uring_sink_laws : SinkLaws UringStreamingWriter := {
  sink_file w := contents (u_disk w); sink_cursor w := u_cursor w;
  sink_wf w := 0 <= u_cursor w /\ u_end w = blen (contents (u_disk w));
  sink_healthy w := faults (u_disk w) = [] }.
Next Obligation. by intros s [? _]. Qed.
Next Obligation.
  cbn. intros s b s' [Hc He] E. destruct (decide (b = [])) as [->|Hb].
  - unfold u_write_all, u_write_all_at in E. cbn in E. simplify_eq.
    split_and!; try done; rewrite ?blen_nil; lia.
  - pose proof (blen_nonneg b). unfold u_write_all in E.
    destruct (u_write_all_at_spec _ _ _ _ He Hc E Hb) as (? & ? & ? & ?). split_and!; done || lia.
Qed.
Next Obligation.
  cbn. intros s b off s' [Hc He] Ho Hb E. pose proof (blen_nonneg b).
  destruct (u_write_all_at_spec _ _ _ _ He Ho E Hb) as (? & ? & ? & _). split_and!; done || lia.
Qed.
Next Obligation. cbn. intros s off s' [Hc He] Ho E. by simplify_eq. Qed.
Next Obligation.
  cbn. intros s n s' [Hc He] E. simplify_eq. cbn. unfold end_offset. rewrite He.
  split_and!; try done. apply blen_nonneg.
Qed.
Next Obligation. cbn. intros s b [Hc He] Hh Hl. by apply u_write_all_at_healthy. Qed.
Next Obligation. cbn. intros s b off _ Hh Ho Hl. by apply u_write_all_at_healthy. Qed.
Next Obligation. cbn. eauto. Qed.
Next Obligation. cbn. eauto. Qed.

(** ** The sink the upload path holds: one of the two backends *)

Inductive StreamingSink : Type :=
| Tokio (f : TokioFile)
| Uring (w : UringStreamingWriter).

Definition map_ok {E A B} (f : A -> B) (r : result E A) : result E B :=
  match r with Ok a => Ok (f a) | Err e => Err e end.

#[export] Instance streaming_sink_ops : SinkOps StreamingSink := {
  write_all s b := match s with
    | Tokio f => map_ok Tokio (write_all f b) | Uring w => map_ok Uring (write_all w b) end;
  write_all_at s b off := match s with
    | Tokio f => map_ok Tokio (write_all_at f b off) | Uring w => map_ok Uring (write_all_at w b off) end;
  seek s off := match s with
    | Tokio f => map_ok Tokio (seek f off) | Uring w => map_ok Uring (seek w off) end;
  seek_to_end s := match s with
    | Tokio f => map_ok (prod_map id Tokio) (seek_to_end f)
    | Uring w => map_ok (prod_map id Uring) (seek_to_end w) end }.

Lemma map_ok_inv {E A B} (f : A -> B) (r : result E A) b :
  map_ok f r = Ok b -> exists a, r = Ok a /\ b = f a.
Proof. destruct r; cbn; intros; simplify_eq; eauto. Qed.

#[export, program] Instance streaming_sink_laws : SinkLaws StreamingSink := {
  sink_file s := match s with Tokio f => sink_file f | Uring w => sink_file w end;
  sink_cursor s := match s with Tokio f => sink_cursor f | Uring w => sink_cursor w end;
  sink_wf s := match s with Tokio f => sink_wf f | Uring w => sink_wf w end;
  sink_healthy s := match s with Tokio f => sink_healthy f | Uring w => sink_healthy w end }.
Next Obligation. intros [f|w] Hwf; [exact (sink_wf_cursor f Hwf) | exact (sink_wf_cursor w Hwf)]. Qed.
Next Obligation.
  intros [f|w] b s' Hwf E; apply map_ok_inv in E as (x & E & ->);
    [exact (write_all_spec f b x Hwf E) | exact (write_all_spec w b x Hwf E)].
Qed.
Next Obligation.
  intros [f|w] b off s' Hwf Ho Hb E; apply map_ok_inv in E as (x & E & ->);
    [exact (write_all_at_spec f b off x Hwf Ho Hb E) | exact (write_all_at_spec w b off x Hwf Ho Hb E)].
Qed.
Next Obligation.
  intros [f|w] off s' Hwf Ho E; apply map_ok_inv in E as (x & E & ->);
    [exact (seek_spec f off x Hwf Ho E) | exact (seek_spec w off x Hwf Ho E)].
Qed.
Next Obligation.
  intros [f|w] n s' Hwf E; apply map_ok_inv in E as ([m x] & E & [= -> ->]);
    [exact (seek_to_end_spec f m x Hwf E) | exact (seek_to_end_spec w m x Hwf E)].
Qed.
Next Obligation.
  intros [f|w] b Hwf Hh Hl;
    [destruct (write_all_healthy f b Hwf Hh Hl) as (x & E & Hx); exists (Tokio x)
    |destruct (write_all_healthy w b Hwf Hh Hl) as (x & E & Hx); exists (Uring x)];
    (split; [exact (f_equal (map_ok _) E) | exact Hx]).
Qed.
Next Obligation.
  intros [f|w] b off Hwf Hh Ho Hl;
    [destruct (write_all_at_healthy f b off Hwf Hh Ho Hl) as (x & E & Hx); exists (Tokio x)
    |destruct (write_all_at_healthy w b off Hwf Hh Ho Hl) as (x & E & Hx); exists (Uring x)];
    (split; [exact (f_equal (map_ok _) E) | exact Hx]).
Qed.
Next Obligation.
  intros [f|w] off Hwf Hh Ho;
    [destruct (seek_healthy f off Hwf Hh Ho) as (x & E & Hx); exists (Tokio x)
    |destruct (seek_healthy w off Hwf Hh Ho) as (x & E & Hx); exists (Uring x)];
    (split; [exact (f_equal (map_ok _) E) | exact Hx]).
Qed.
Next Obligation.
  intros [f|w] Hwf Hh;
    [destruct (seek_to_end_healthy f Hwf Hh) as (n & x & E & Hx); exists n, (Tokio x)
    |destruct (seek_to_end_healthy w Hwf Hh) as (n & x & E & Hx); exists n, (Uring x)];
    (split; [exact (f_equal (map_ok _) E) | exact Hx]).
Qed.

(** ** Refinement: every backend behaves as one abstract file with a cursor *)

Inductive SinkOp : Type :=
| OpWrite (b : bytes)
| OpWriteAt (b : bytes) (off : Z)
| OpSeek (off : Z)
| OpSeekEnd.

Definition run_op {S} {O : SinkOps S} (s : S) (op : SinkOp) : result IoError S :=
  match op with
  | OpWrite b => write_all s b
  | OpWriteAt b off => write_all_at s b off
  | OpSeek off => seek s off
  | OpSeekEnd => map_ok snd (seek_to_end s)
  end.

Fixpoint run_ops {S} {O : SinkOps S} (s : S) (ops : list SinkOp) : result IoError S :=
  match ops with
  | [] => Ok s
  | op :: rest => s' ← run_op s op; run_ops s' rest
  end.

(** The abstract file: contents and cursor.  An empty positioned write is left out: the
    two backends leave their cursors at different places after one. *)
Definition file_op (st : bytes * Z) (op : SinkOp) : option (bytes * Z) :=
  let '(c, pos) := st in
  match op with
  | OpWrite b => if pos + blen b <=? FILE_MAX then Some (overwrite c pos b, pos + blen b) else None
  | OpWriteAt b off =>
      if bool_decide (b <> []) && (0 <=? off) && (off + blen b <=? FILE_MAX)
      then Some (overwrite c off b, off + blen b) else None
  | OpSeek off => if (0 <=? off) && (off <=? FILE_MAX) then Some (c, off) else None
  | OpSeekEnd => Some (c, blen c)
  end.

Fixpoint file_ops (st : bytes * Z) (ops : list SinkOp) : option (bytes * Z) :=
  match ops with
  | [] => Some st
  | op :: rest => st' ← file_op st op; file_ops st' rest
  end.

Section refinement.
Context {S : Type} {O : SinkOps S} {L : SinkLaws S}.

Lemma run_op_refines s op st :
  sink_wf s -> sink_healthy s -> file_op (sink_file s, sink_cursor s) op = Some st ->
  exists s', run_op s op = Ok s' /\ sink_wf s' /\ sink_healthy s' /\
    (sink_file s', sink_cursor s') = st.
Proof.
  intros Hwf Hh Hop. destruct op as [b|b off|off|]; cbn in Hop |- *.
  - destruct (Z.leb_spec (sink_cursor s + blen b) FILE_MAX); simplify_eq.
    destruct (write_all_healthy s b) as (s' & E & ?); try done. exists s'.
    destruct (write_all_spec s b s') as (? & -> & -> & _); eauto.
  - case_match eqn:E; simplify_eq. apply andb_true_iff in E as [E Ho%Z.leb_le].
    apply andb_true_iff in E as [Hb%bool_decide_eq_true Ho'%Z.leb_le].
    destruct (write_all_at_healthy s b off) as (s' & E & ?); try done. exists s'.
    destruct (write_all_at_spec s b off s') as (? & -> & ->); eauto.
  - case_match eqn:E; simplify_eq. apply andb_true_iff in E as [Ho%Z.leb_le Ho'%Z.leb_le].
    destruct (seek_healthy s off) as (s' & E & ?); try done. exists s'.
    destruct (seek_spec s off s') as (? & -> & ->); eauto.
  - simplify_eq. destruct (seek_to_end_healthy s) as (n & s' & E & ?); try done.
    destruct (seek_to_end_spec s n s') as (? & Hf & _ & Hc); try done.
    rewrite E. cbn [map_ok snd]. exists s'. by rewrite Hf, Hc.
Qed.

End refinement.

(** Over either backend, a sequence of sink operations on a fault-free file
    succeeds and leaves exactly the contents and the cursor of the abstract file it
    denotes; so the io_uring writer, which never asks the kernel for its position or
    the file's length, cannot be told apart from a file descriptor. *)
Theorem streaming_sink_refines_file (s : StreamingSink) (ops : list SinkOp) (st : bytes * Z) :
  sink_wf s -> sink_healthy s -> file_ops (sink_file s, sink_cursor s) ops = Some st ->
  exists s', run_ops s ops = Ok s' /\ sink_wf s' /\ sink_healthy s' /\
    (sink_file s', sink_cursor s') = st.
Proof.
  revert s. induction ops as [|op ops IH]; intros s Hwf Hh Hst; cbn [file_ops run_ops] in *.
  - simplify_eq. eauto.
  - apply bind_Some in Hst as (st' & Hop & Hst).
    destruct (run_op_refines s op st') as (s' & -> & ? & ? & <-); try done.
    cbn [mbind result_bind]. by apply IH.
Qed.

Lemma streaming_sink_refines_file_witness :
  exists s', run_ops (Uring (uring_new (mkDisk (replicate 4 x00) []) 4))
      [OpWrite [x61; x62]; OpWriteAt [x63] 1; OpSeekEnd; OpWrite [x64]] = Ok s' /\
    sink_wf s' /\ sink_healthy s' /\
    (sink_file s', sink_cursor s') = ([x00; x63; x00; x00; x61; x62; x64], 7).
Proof.
  apply streaming_sink_refines_file; [split; vm_compute; done | done | vm_compute; reflexivity].
Defined.
