(* ===== verification/EncryptedFile.v ===== *)
(** * The encrypted file under the databases

    Models y2q-core/src/storage/encrypted_backend.rs: the metadata index and the user store
    keep their redb files in blocks of 4096 bytes, each sealed under a nonce that counts up.

    The file is its bytes and a list of faults: every system call takes one, and [Some n]
    makes it fail, a write after [n] of its bytes.  The nonces handed to the cipher are
    recorded in [used], which is not in the code. *)

From S2P Require Import Prelude Effects Primitives Sink.

Module EncryptedFileBackend.

Definition BLOCK_SIZE : Z := 4096.
Definition NONCE_LEN : Z := 12.
Definition TAG_LEN : Z := 16.
Definition PHYS_BLOCK : Z := NONCE_LEN + BLOCK_SIZE + TAG_LEN.
Definition MAGIC : bytes := as_bytes "Y2QIDX01".
Definition FORMAT_VERSION : byte := x02.
Definition LEGACY_VERSION_TAG : byte := x00.
Definition FLAG_RESEAL_PENDING : Z := Z.shiftl 1 0.
Definition HEADER_PLAINTEXT_LEN : Z := 16.
Definition HEADER_PHYS : Z := 8 + NONCE_LEN + HEADER_PLAINTEXT_LEN + TAG_LEN.
Definition MAX_U48 : Z := Z.shiftl 1 48 - 1.

Definition block_phys_offset (idx : Z) : Z := wrap64 (HEADER_PHYS + wrap64 (idx * PHYS_BLOCK)).

Record Inner : Type := mkInner {
  file : bytes;
  faults : list (option nat);
  logical_len : Z;
  phys_len : Z;
  epoch : Z;
  seq : Z;
  used : list bytes;
}.

Definition set_file (f : bytes) (w : Inner) : Inner := mkInner f (faults w) (logical_len w) (phys_len w) (epoch w) (seq w) (used w).
Definition set_faults (l : list (option nat)) (w : Inner) : Inner := mkInner (file w) l (logical_len w) (phys_len w) (epoch w) (seq w) (used w).
Definition set_logical_len (n : Z) (w : Inner) : Inner := mkInner (file w) (faults w) n (phys_len w) (epoch w) (seq w) (used w).
Definition set_phys_len (n : Z) (w : Inner) : Inner := mkInner (file w) (faults w) (logical_len w) n (epoch w) (seq w) (used w).
Definition set_counter (e s : Z) (w : Inner) : Inner := mkInner (file w) (faults w) (logical_len w) (phys_len w) e s (used w).
Definition set_used (l : list bytes) (w : Inner) : Inner := mkInner (file w) (faults w) (logical_len w) (phys_len w) (epoch w) (seq w) l.

Abbreviation backend := (prog Inner string).

(** ** System calls *)

Definition sys : backend unit := fun w =>
  match faults w with
  | [] => (Ok tt, w)
  | None :: l => (Ok tt, set_faults l w)
  | Some _ :: l => (Err "io", set_faults l w)
  end.
Definition file_len : backend Z := _ ← sys; gets (fun w => blen (file w)).
Definition file_read_exact_at (off n : Z) : backend bytes :=
  _ ← sys;
  f ← gets file;
  lift_res (if blen f <? off + n then Err "failed to fill whole buffer" else Ok (slice off (off + n) f)).
Definition file_write_all_at (buf : bytes) (off : Z) : backend unit := fun w =>
  match faults w with
  | Some n :: l => (Err "io", set_faults l (set_file (overwrite (file w) off (take n buf)) w))
  | l =>
      let w := set_faults (tail l) w in
      if FILE_MAX <? off + blen buf then (Err "File too large", w) else (Ok tt, set_file (overwrite (file w) off buf) w)
  end.
(** [ftruncate] *)
Definition resize (n : Z) (f : bytes) : bytes := take (Z.to_nat n) f ++ replicate (Z.to_nat n - length f) x00.
Definition file_set_len (n : Z) : backend unit := _ ← sys; modify (fun w => set_file (resize n (file w)) w).
Definition file_sync_data : backend unit := sys.

(** ** The header *)

Record StoredHeader : Type := mkStoredHeader { sh_logical_len : Z; nonce_epoch : Z; legacy : bool; reseal_pending : bool }.
Definition StoredHeader_default : StoredHeader := mkStoredHeader 0 0 false false.

Inductive ForeignFile : Type := Recreate | Reject.
#[global] Instance ForeignFile_eq_dec : EqDecision ForeignFile.
Proof. solve_decision. Defined.

Definition read_u48 (b : bytes) : Z := from_be_bytes ([x00; x00] ++ b).

Section backend.
Context {A : AeadOps} (cipher : bytes).

Definition read_magic : backend bytes := _ ← sys; file_read_exact_at 0 8.

(** The sealed part of a header *)
Definition parse_header (plain : bytes) : result string StoredHeader :=
  if negb (blen plain =? HEADER_PLAINTEXT_LEN) then Err "index header wrong length" else
  if bool_decide (head plain = Some LEGACY_VERSION_TAG) then
    let version := from_be_bytes (slice 0 4 plain) in
    if negb (version =? 1) then Err "unsupported index format" else
    if negb (from_be_bytes (slice 4 8 plain) =? BLOCK_SIZE) then Err "index block size mismatch" else
    Ok (mkStoredHeader (from_be_bytes (slice 8 16 plain)) 0 true false)
  else
  if negb (bool_decide (head plain = Some FORMAT_VERSION)) then Err "unsupported index format" else
  Ok (mkStoredHeader (read_u48 (slice 2 8 plain)) (read_u48 (slice 8 14 plain)) false
        (negb (Z.land (Z_of_byte (nth 1 plain x00)) FLAG_RESEAL_PENDING =? 0))).

Definition read_header : backend StoredHeader :=
  _ ← sys;
  buf ← file_read_exact_at 0 HEADER_PHYS;
  plain ← lift_res (ok_or (aead_decrypt cipher (slice 8 (8 + NONCE_LEN) buf) MAGIC (drop (Z.to_nat (8 + NONCE_LEN)) buf))
                      "index header decrypt/auth (wrong key or tampered)");
  lift_res (parse_header plain).

Definition next_nonce : backend bytes := fun w =>
  let nonce := drop 2 (to_be_bytes 8 (epoch w)) ++ drop 2 (to_be_bytes 8 (seq w)) in
  (Ok nonce, set_used (nonce :: used w) (set_counter (epoch w) (wrap64 (seq w + 1)) w)).

Definition header_plaintext (len ep : Z) (pending : bool) : bytes :=
  [FORMAT_VERSION; if pending then byte_of_Z FLAG_RESEAL_PENDING else x00]
  ++ drop 2 (to_be_bytes 8 len) ++ drop 2 (to_be_bytes 8 ep) ++ [x00; x00].

Definition write_header (pending : bool) : backend unit :=
  len ← gets logical_len;
  _ ← guard_not (MAX_U48 <? len) "index logical length exceeds 48-bit field";
  ep ← gets epoch;
  nonce ← next_nonce;
  ct ← lift_res (ok_or (aead_encrypt cipher nonce MAGIC (header_plaintext len ep pending)) "index header encrypt");
  _ ← file_write_all_at (MAGIC ++ nonce ++ ct) 0;
  modify (fun w => set_phys_len (Z.max HEADER_PHYS (phys_len w)) w).

(** The epoch after this one *)
Definition epoch_after (ep : Z) : result string Z :=
  ok_or (e ← checked_add_u64 ep 1; if e <=? MAX_U48 then Some e else None) "index nonce epoch exhausted".

Definition ensure_nonce_space : backend unit :=
  s ← gets seq;
  if s <? MAX_U48 then mret tt else
  ep ← gets epoch;
  next ← lift_res (epoch_after ep);
  _ ← modify (set_counter next 0);
  _ ← write_header false;
  file_sync_data.

(** ** Blocks *)

Definition seal_block (idx : Z) (plain : bytes) : backend bytes :=
  nonce ← next_nonce;
  ct ← lift_res (ok_or (aead_encrypt cipher nonce (to_be_bytes 8 idx) plain) "index block encrypt");
  mret (nonce ++ ct).

Definition read_block (idx : Z) : backend bytes :=
  let phys := block_phys_offset idx in
  n ← gets phys_len;
  if n <? saturating_add_u64 phys PHYS_BLOCK then mret (replicate (Z.to_nat BLOCK_SIZE) x00) else
  buf ← file_read_exact_at phys PHYS_BLOCK;
  plain ← lift_res (ok_or (aead_decrypt cipher (take (Z.to_nat NONCE_LEN) buf) (to_be_bytes 8 idx) (drop (Z.to_nat NONCE_LEN) buf))
                      "index block decrypt/auth");
  if negb (blen plain =? BLOCK_SIZE) then throw "index block wrong plaintext length" else mret plain.

(** [a..b] *)
Definition range (a b : Z) : list Z := seqZ a (b - a).

Definition write_block (idx : Z) (plain : bytes) : backend unit :=
  _ ← ensure_nonce_space;
  n ← gets phys_len;
  let next_missing := if n <=? HEADER_PHYS then 0 else div_ceil (n - HEADER_PHYS) PHYS_BLOCK in
  _ ← (if next_missing <? idx then
         batch ← for_each (fun gap batch =>
                   sealed ← seal_block gap (replicate (Z.to_nat BLOCK_SIZE) x00); mret (batch ++ sealed))
                   (range next_missing idx) [];
         file_write_all_at batch (block_phys_offset next_missing)
       else mret tt);
  block ← seal_block idx plain;
  _ ← file_write_all_at block (block_phys_offset idx);
  let end_phys := wrap64 (block_phys_offset idx + PHYS_BLOCK) in
  modify (fun w => set_phys_len (Z.max end_phys (phys_len w)) w).

(** ** Opening *)

Definition reseal_legacy_blocks : backend unit :=
  n ← gets phys_len;
  let blocks := saturating_sub_u64 n HEADER_PHYS / PHYS_BLOCK in
  _ ← for_each (fun idx _ => plain ← read_block idx; write_block idx plain) (range 0 blocks) tt;
  _ ← write_header false;
  file_sync_data.

(** On a handle just opened, whose other fields mean nothing yet. *)
Definition open_file (on_foreign : ForeignFile) : backend unit :=
  initial_phys ← file_len;
  stored ← (if initial_phys =? 0 then mret StoredHeader_default else
            magic ← (if 8 <=? initial_phys then m ← read_magic; mret (Some m) else mret None);
            if bool_decide (magic = Some MAGIC) then read_header else
            if bool_decide (on_foreign = Reject) then throw "encrypted file has no recognizable magic" else
            _ ← file_set_len 0; mret StoredHeader_default);
  ep ← lift_res (epoch_after (nonce_epoch stored));
  n ← file_len;
  _ ← modify (fun w => set_counter ep 0 (set_phys_len n (set_logical_len (sh_logical_len stored) w)));
  let needs_reseal := legacy stored || reseal_pending stored in
  _ ← write_header needs_reseal;
  _ ← file_sync_data;
  if needs_reseal then reseal_legacy_blocks else mret tt.

(** ** The trait *)

Definition len : backend Z := gets logical_len.

(** The block and the place in it of a position, and how much of what is left fits. *)
Definition place (offset done total : Z) : Z * Z * Z :=
  let logical_pos := wrap64 (offset + done) in
  (logical_pos / BLOCK_SIZE, logical_pos mod BLOCK_SIZE, Z.min (BLOCK_SIZE - logical_pos mod BLOCK_SIZE) (total - done)).

(** Each round makes [done] grow, so [total] rounds are enough. *)
Fixpoint read_loop (fuel : nat) (offset total : Z) (out : bytes) : backend bytes :=
  match fuel with
  | O => mret out
  | S fuel =>
      if total <=? blen out then mret out else
      let '(idx, within, n) := place offset (blen out) total in
      plain ← read_block idx;
      read_loop fuel offset total (out ++ slice within (within + n) plain)
  end.
Definition read (offset total : Z) : backend bytes := read_loop (Z.to_nat total) offset total [].

Fixpoint write_loop (fuel : nat) (offset : Z) (data : bytes) (done : Z) : backend unit :=
  match fuel with
  | O => mret tt
  | S fuel =>
      if blen data <=? done then mret tt else
      let '(idx, within, n) := place offset done (blen data) in
      plain ← (if (within =? 0) && (n =? BLOCK_SIZE) then mret (replicate (Z.to_nat BLOCK_SIZE) x00) else read_block idx);
      _ ← write_block idx (overwrite plain within (slice done (done + n) data));
      write_loop fuel offset data (done + n)
  end.
Definition write (offset : Z) (data : bytes) : backend unit :=
  _ ← write_loop (length data) offset data 0;
  let end_ := wrap64 (offset + blen data) in
  n ← gets logical_len;
  if n <? end_ then _ ← modify (set_logical_len end_); write_header false else mret tt.

Definition set_len (n : Z) : backend unit :=
  _ ← modify (set_logical_len n);
  let needed_blocks := div_ceil n BLOCK_SIZE in
  let needed_phys := wrap64 (HEADER_PHYS + wrap64 (needed_blocks * PHYS_BLOCK)) in
  phys ← gets phys_len;
  _ ← (if needed_phys <? phys then _ ← file_set_len needed_phys; modify (set_phys_len needed_phys) else mret tt);
  let rem := n mod BLOCK_SIZE in
  _ ← (if rem =? 0 then mret tt else
       let idx := n / BLOCK_SIZE in
       phys ← gets phys_len;
       if phys <? block_phys_offset (idx + 1) then mret tt else
       plain ← read_block idx;
       write_block idx (take (Z.to_nat rem) plain ++ replicate (Z.to_nat (BLOCK_SIZE - rem)) x00));
  write_header false.

Definition sync_data : backend unit := file_sync_data.

End backend.
End EncryptedFileBackend.
