(* ===== verification/EncryptedFileSpec.v ===== *)
(** * The encrypted file is a plain file

    A backend refines a plain file of bytes: reads, writes and changes of length answer as on
    the plain file, also after the file is closed and opened again, and no nonce is used
    twice, as long as the nonces of an opening last. *)

From S2P Require Import Prelude Effects Primitives Sink EncryptedFile.
Import EncryptedFileBackend.

(** ** Files as functions *)

(** The byte at a position, zero beyond the end. *)
Definition at_ (c : bytes) (pos : Z) : byte := nth (Z.to_nat pos) c x00.

Lemma at_beyond c pos : blen c <= pos -> at_ c pos = x00.
Proof. intros H. unfold at_, blen in *. apply nth_overflow. lia. Qed.
Lemma at_app c d pos : 0 <= pos -> at_ (c ++ d) pos = if pos <? blen c then at_ c pos else at_ d (pos - blen c).
Proof.
  intros H. unfold at_, blen. destruct (Z.ltb_spec pos (Z.of_nat (length c))); [apply app_nth1; lia|]. rewrite app_nth2 by lia. f_equal. lia.
Qed.
Lemma at_zeros n pos : at_ (replicate n x00) pos = x00.
Proof. unfold at_. rewrite nth_lookup. destruct (replicate n x00 !! _) as [x|] eqn:E; [|done]. by apply lookup_replicate in E as [-> _]. Qed.
Lemma at_take n c pos : 0 <= pos -> at_ (take n c) pos = if pos <? Z.of_nat n then at_ c pos else x00.
Proof. intros H. unfold at_. rewrite nth_firstn. destruct (Nat.ltb_spec (Z.to_nat pos) n), (Z.ltb_spec pos (Z.of_nat n)); done || lia. Qed.
Lemma at_drop n c pos : 0 <= pos -> at_ (drop n c) pos = at_ c (Z.of_nat n + pos).
Proof. intros H. unfold at_. rewrite nth_skipn. f_equal. lia. Qed.
Lemma at_slice a b c i : 0 <= a -> 0 <= i < b - a -> at_ (slice a b c) i = at_ c (a + i).
Proof. intros Ha Hi. unfold slice. rewrite at_take by lia. rewrite (proj2 (Z.ltb_lt _ _)) by lia. rewrite at_drop by lia. f_equal. lia. Qed.
Lemma at_overwrite c off b pos : 0 <= off -> 0 <= pos ->
  at_ (overwrite c off b) pos = if (off <=? pos) && (pos <? off + blen b) then at_ b (pos - off) else at_ c pos.
Proof.
  intros Ho Hp. unfold overwrite. case_bool_decide as Hb.
  - subst b. rewrite blen_nil. by replace ((off <=? pos) && (pos <? off + 0)) with false by (symmetry; apply andb_false_iff; lia).
  - set (n := Z.to_nat off). assert (Ht : blen (take n c) = Z.min off (blen c)) by (unfold blen, n; rewrite length_take; lia).
    assert (Hr : blen (replicate (n - length c) x00) = Z.max 0 (off - blen c)) by (unfold blen, n; rewrite length_replicate; lia).
    rewrite at_app, Ht by done. destruct (Z.ltb_spec pos (Z.min off (blen c))).
    { rewrite at_take by done. rewrite (proj2 (Z.ltb_lt _ _)) by lia. by rewrite (proj2 (Z.leb_gt _ _)) by lia. }
    rewrite at_app, Hr by lia. destruct (Z.ltb_spec (pos - Z.min off (blen c)) (Z.max 0 (off - blen c))).
    { rewrite at_zeros, (at_beyond c) by lia. by rewrite (proj2 (Z.leb_gt _ _)) by lia. }
    rewrite at_app by lia. rewrite (proj2 (Z.leb_le off pos)) by lia. cbn [andb].
    replace (pos - Z.min off (blen c) - Z.max 0 (off - blen c)) with (pos - off) by lia.
    destruct (Z.ltb_spec pos (off + blen b)); [by rewrite (proj2 (Z.ltb_lt _ _)) by lia|]. rewrite (proj2 (Z.ltb_ge _ _)) by lia.
    rewrite at_drop by lia. f_equal. unfold n, blen. lia.
Qed.
Lemma at_resize n c pos : 0 <= pos -> at_ (resize n c) pos = if pos <? n then at_ c pos else x00.
Proof.
  intros Hp. unfold resize. rewrite at_app, at_zeros by done. unfold blen. rewrite length_take.
  repeat match goal with |- context [?a <? ?b] => destruct (Z.ltb_spec a b) end; try lia; try done.
  - rewrite at_take by lia. by rewrite (proj2 (Z.ltb_lt _ _)) by lia.
  - by rewrite at_beyond by (unfold blen; lia).
Qed.
Lemma blen_resize n c : 0 <= n -> blen (resize n c) = n.
Proof. intros H. unfold blen, resize. rewrite length_app, length_take, length_replicate. lia. Qed.
Lemma at_ext a b : blen a = blen b -> (forall i, 0 <= i < blen a -> at_ a i = at_ b i) -> a = b.
Proof.
  unfold blen. intros Hl H. apply (nth_ext _ _ x00 x00); [lia|]. intros n Hn. specialize (H (Z.of_nat n) ltac:(lia)). unfold at_ in H. by rewrite !Nat2Z.id in H.
Qed.

Lemma slice_overwrite_in c off b x y : 0 <= off -> 0 <= x <= y -> y <= blen b -> slice (off + x) (off + y) (overwrite c off b) = slice x y b.
Proof.
  intros Ho Hx Hy. destruct (decide (b = [])) as [->|Hb]; [rewrite blen_nil in Hy; rewrite !slice_empty by lia; done|].
  assert (Hl : blen (slice (off + x) (off + y) (overwrite c off b)) = y - x) by (rewrite blen_slice, blen_overwrite by done; lia).
  apply at_ext; [rewrite Hl, blen_slice; lia|]. rewrite Hl. intros i Hi. rewrite !at_slice, at_overwrite by lia.
  rewrite (proj2 (Z.leb_le _ _)), (proj2 (Z.ltb_lt _ _)) by lia. cbn [andb]. f_equal. lia.
Qed.
Lemma slice_overwrite_out c off b x y : 0 <= off -> 0 <= x <= y -> y <= blen c -> y <= off \/ off + blen b <= x -> slice x y (overwrite c off b) = slice x y c.
Proof.
  intros Ho Hx Hy Hd. destruct (decide (b = [])) as [->|Hb]; [done|].
  assert (Hl : blen (slice x y (overwrite c off b)) = y - x) by (rewrite blen_slice, blen_overwrite by done; lia).
  apply at_ext; [rewrite Hl, blen_slice; lia|]. rewrite Hl. intros i Hi. rewrite !at_slice, at_overwrite by lia.
  by replace ((off <=? x + i) && (x + i <? off + blen b)) with false by (symmetry; apply andb_false_iff; lia).
Qed.

(** ** The state of a backend *)

(** Where block [i] starts. *)
Definition phys (i : Z) : Z := HEADER_PHYS + i * PHYS_BLOCK.
Definition MAX_BLOCKS : Z := 2 ^ 36.

Ltac geometry := unfold phys, HEADER_PHYS, PHYS_BLOCK, MAX_BLOCKS, HEADER_PLAINTEXT_LEN, NONCE_LEN, TAG_LEN, BLOCK_SIZE, MAX_U48, FILE_MAX, u64_max in *; change (Z.shiftl 1 48) with (2 ^ 48) in *.

Lemma block_phys_offset_small i : 0 <= i <= MAX_BLOCKS -> block_phys_offset i = phys i.
Proof. intros Hi. unfold block_phys_offset. geometry. rewrite (wrap64_small (i * _)) by lia. rewrite wrap64_small; lia. Qed.

Definition nonce_of (e s : Z) : bytes := drop 2 (to_be_bytes 8 e) ++ drop 2 (to_be_bytes 8 s).

Lemma drop_be_bytes z : drop 2 (to_be_bytes 8 z) = to_be_bytes 6 z.
Proof. done. Qed.
Lemma nonce_of_inj e s e' s' : 0 <= e < 2 ^ 48 -> 0 <= s < 2 ^ 48 -> 0 <= e' < 2 ^ 48 -> 0 <= s' < 2 ^ 48 -> nonce_of e s = nonce_of e' s' -> e = e' /\ s = s'.
Proof.
  intros He Hs He' Hs' H. unfold nonce_of in H. rewrite !drop_be_bytes in H. apply app_inj_1 in H as [H1 H2]; [|by rewrite !length_to_be_bytes].
  apply to_be_bytes_inj in H1, H2; try (change (256 ^ Z.of_nat 6) with (2 ^ 48)); done.
Qed.
Lemma blen_nonce e s : blen (nonce_of e s) = 12.
Proof. unfold nonce_of. rewrite !drop_be_bytes, blen_app, !blen_to_be_bytes. done. Qed.

(** Every nonce handed out lies before the counter, and none was handed out twice. *)
Record nonces_ok (w : Inner) : Prop := mkNoncesOk {
  no_epoch : 0 <= epoch w < 2 ^ 48;
  no_seq : 0 <= seq w;
  no_before : forall x, x ∈ used w -> exists e s, x = nonce_of e s /\ 0 <= e /\ 0 <= s < 2 ^ 48 /\ (e < epoch w \/ e = epoch w /\ s < seq w);
  no_dup : NoDup (used w);
}.

(** [k] nonces were handed out on the way. *)
Definition counted (k : Z) (w w' : Inner) : Prop :=
  epoch w' = epoch w /\ seq w' = seq w + k /\ (nonces_ok w -> seq w + k <= 2 ^ 48 -> nonces_ok w').

Lemma counted_refl w : counted 0 w w.
Proof. split_and!; [done|lia|done]. Qed.
Lemma counted_trans k l w w' w'' : 0 <= k -> 0 <= l -> counted k w w' -> counted l w' w'' -> counted (k + l) w w''.
Proof.
  intros Hk Hl (He & Hs & Hn) (He' & Hs' & Hn'). split_and!; [congruence|lia|]. intros Hok Hb. apply Hn'; [apply Hn; [done|lia]|lia].
Qed.

(** Nothing but the file, its length and the counter moved. *)
Definition same_len (w w' : Inner) : Prop := logical_len w' = logical_len w /\ faults w' = faults w.

Section spec.
Context {A : AeadOps} {AL : AeadLaws} (cipher : bytes).

Definition opens (i : Z) (c p : bytes) : Prop :=
  blen c = PHYS_BLOCK /\ blen p = BLOCK_SIZE /\ aead_decrypt cipher (take 12 c) (to_be_bytes 8 i) (drop 12 c) = Some p.

(** The file has a header and [n] blocks, which hold the bytes [f] tells. *)
Record stored (c : bytes) (n : Z) (f : Z -> byte) : Prop := mkStored {
  st_len : blen c = phys n;
  st_open : forall i, 0 <= i < n -> exists p, opens i (slice (phys i) (phys (i + 1)) c) p /\
    forall j, 0 <= j < BLOCK_SIZE -> at_ p j = f (i * BLOCK_SIZE + j);
  st_zero : forall pos, n * BLOCK_SIZE <= pos -> f pos = x00;
}.

Record blocks_ok (w : Inner) (n : Z) (f : Z -> byte) : Prop := mkBlocksOk {
  b_n : 0 <= n <= MAX_BLOCKS;
  b_phys : phys_len w = phys n;
  b_stored : stored (file w) n f;
}.

Lemma stored_extend c n i f out : stored c n f -> 0 <= n <= i -> blen out = (i - n) * PHYS_BLOCK ->
  (forall j, 0 <= j < i - n -> opens (n + j) (slice (j * PHYS_BLOCK) ((j + 1) * PHYS_BLOCK) out) (replicate (Z.to_nat BLOCK_SIZE) x00)) ->
  stored (overwrite c (phys n) out) i f.
Proof using.
  intros [Hl Ho Hz] Hn Hout Hos. assert (Hp : 0 <= phys n) by (geometry; lia). constructor.
  - destruct (decide (out = [])) as [->|Hne]; [rewrite blen_nil in Hout; assert (i = n) as -> by (geometry; lia); done|]. rewrite blen_overwrite, Hl, Hout by done. geometry. lia.
  - intros k Hk. destruct (Z.lt_ge_cases k n).
    + rewrite slice_overwrite_out by (rewrite ?Hl; geometry; lia). apply Ho; lia.
    + exists (replicate (Z.to_nat BLOCK_SIZE) x00). specialize (Hos (k - n) ltac:(lia)). replace (n + (k - n)) with k in Hos by lia.
      replace (phys k) with (phys n + (k - n) * PHYS_BLOCK) by (geometry; lia). replace (phys (k + 1)) with (phys n + (k - n + 1) * PHYS_BLOCK) by (geometry; lia).
      rewrite slice_overwrite_in by (rewrite ?Hout; geometry; lia). split; [done|]. intros j Hj. rewrite at_zeros, Hz; [done|]. geometry. lia.
  - intros pos Hpos. apply Hz. geometry. lia.
Qed.

Lemma stored_put c n i f f' b p : stored c n f -> 0 <= i <= n -> opens i b p ->
  (forall j, 0 <= j < BLOCK_SIZE -> f' (i * BLOCK_SIZE + j) = at_ p j) ->
  (forall pos, 0 <= pos -> ~ (i * BLOCK_SIZE <= pos < (i + 1) * BLOCK_SIZE) -> f' pos = f pos) ->
  stored (overwrite c (phys i) b) (Z.max n (i + 1)) f'.
Proof using.
  intros [Hl Ho Hz] Hi Hb Hin Hout. pose proof Hb as (Hbl & Hpl & _). assert (Hne : b <> []) by (intros ->; rewrite blen_nil in Hbl; geometry; lia).
  assert (Hp : 0 <= phys i) by (geometry; lia). constructor.
  - rewrite blen_overwrite, Hl, Hbl by done. geometry. lia.
  - intros k Hk. destruct (decide (k = i)) as [->|Hki].
    + exists p. replace (phys i) with (phys i + 0) at 1 by lia. replace (phys (i + 1)) with (phys i + PHYS_BLOCK) by (geometry; lia).
      rewrite slice_overwrite_in by (rewrite ?Hbl; geometry; lia). rewrite slice_full by (rewrite ?Hbl; geometry; lia). split; [done|]. intros j Hj. by rewrite Hin.
    + rewrite slice_overwrite_out by (rewrite ?Hl, ?Hbl; geometry; lia). destruct (Ho k) as (q & Hq & Hat); [lia|]. exists q. split; [done|]. intros j Hj. rewrite Hout by (geometry; lia). by apply Hat.
  - intros pos Hpos. rewrite Hout by (geometry; lia). apply Hz. geometry. lia.
Qed.

Lemma next_nonce_run w : 0 <= seq w < 2 ^ 48 ->
  exists w', next_nonce w = (Ok (nonce_of (epoch w) (seq w)), w') /\ counted 1 w w' /\ same_len w w' /\ file w' = file w /\ phys_len w' = phys_len w.
Proof using.
  intros Hs. eexists. split; [done|]. cbn. rewrite wrap64_small by lia. split; [|done]. split; [done|]. split; [done|]. intros [He Hs0 Hb Hd] Hk. constructor; cbn; try lia.
  - intros x [->|Hx]%elem_of_cons; [eexists _, _; split; [done|lia]|]. destruct (Hb x Hx) as (e & s & -> & ? & ? & ?). eexists _, _. split; [done|lia].
  - apply NoDup_cons. split; [|done]. intros (e & s & Hx & ? & ? & Hlt)%Hb. apply nonce_of_inj in Hx; lia.
Qed.

Lemma seal_block_run i p w : blen p = BLOCK_SIZE -> 0 <= seq w < 2 ^ 48 ->
  exists c w', seal_block cipher i p w = (Ok c, w') /\ opens i c p /\ counted 1 w w' /\ same_len w w' /\ file w' = file w /\ phys_len w' = phys_len w.
Proof using AL.
  intros Hp Hs. destruct (next_nonce_run w Hs) as (w' & E & Hc & Hl & Hf & Hph).
  destruct (aead_encrypt_total cipher (nonce_of (epoch w) (seq w)) (to_be_bytes 8 i) p) as [ct Ect]; [rewrite Hp; unfold AEAD_P_MAX, BLOCK_SIZE; lia|].
  exists (nonce_of (epoch w) (seq w) ++ ct), w'. split_and!; try done.
  - unfold seal_block, mbind, prog_bind. rewrite E, Ect. done.
  - pose proof (aead_encrypt_len _ _ _ _ _ Ect) as Hct. pose proof (blen_nonce (epoch w) (seq w)) as Hn. split_and!; [rewrite blen_app; geometry; lia|done|].
    rewrite take_app_length', drop_app_length' by (unfold blen in Hn; lia). by apply aead_decrypt_encrypt.
Qed.

Lemma read_block_run w n f i : blocks_ok w n f -> faults w = [] -> 0 <= i < MAX_BLOCKS ->
  exists p, read_block cipher i w = (Ok p, w) /\ blen p = BLOCK_SIZE /\ forall j, 0 <= j < BLOCK_SIZE -> at_ p j = f (i * BLOCK_SIZE + j).
Proof using.
  intros [Hn Hph [Hf Ho Hz]] Hq Hi. unfold read_block. rewrite block_phys_offset_small by lia. unfold mbind, prog_bind, gets, saturating_add_u64.
  assert (Hsum : Z.min (phys i + PHYS_BLOCK) u64_max = phys (i + 1)) by (geometry; lia). rewrite Hsum, Hph. destruct (Z.ltb_spec (phys n) (phys (i + 1))) as [Hlt|Hge].
  - assert (n <= i) by (geometry; lia). eexists. split; [done|]. split; [by rewrite blen_replicate|]. intros j Hj. rewrite at_zeros, Hz; [done|]. geometry. lia.
  - destruct (Ho i) as (p & (Hc & Hp & Hd) & Hat); [geometry; lia|]. exists p. split_and!; [|done|done].
    unfold file_read_exact_at, mbind, prog_bind, sys, gets. rewrite Hq. replace (phys i + PHYS_BLOCK) with (phys (i + 1)) by (geometry; lia).
    rewrite Hf, (proj2 (Z.ltb_ge _ _)) by done. unfold lift_res. change (Z.to_nat NONCE_LEN) with 12%nat. rewrite Hd. cbn [ok_or]. by rewrite Hp.
Qed.

Lemma file_write_run buf off w : faults w = [] -> off + blen buf <= FILE_MAX -> file_write_all_at buf off w = (Ok tt, set_file (overwrite (file w) off buf) w).
Proof using. intros Hq Hb. unfold file_write_all_at. rewrite Hq. cbn [tail]. rewrite (proj2 (Z.ltb_ge _ _)) by done. unfold set_faults, set_file. by rewrite <- Hq. Qed.

Definition zeros : bytes := replicate (Z.to_nat BLOCK_SIZE) x00.
Lemma blen_zeros : blen zeros = BLOCK_SIZE.
Proof using. unfold zeros. by rewrite blen_replicate. Qed.

Lemma seal_gap_run k : forall a w (batch : bytes), 0 <= seq w -> seq w + Z.of_nat k <= 2 ^ 48 ->
  exists out w', for_each (fun gap batch => sealed ← seal_block cipher gap zeros; mret (batch ++ sealed)) (seqZ a (Z.of_nat k)) batch w = (Ok (batch ++ out), w') /\
    blen out = Z.of_nat k * PHYS_BLOCK /\ (forall j, 0 <= j < Z.of_nat k -> opens (a + j) (slice (j * PHYS_BLOCK) ((j + 1) * PHYS_BLOCK) out) zeros) /\
    counted (Z.of_nat k) w w' /\ same_len w w' /\ file w' = file w /\ phys_len w' = phys_len w.
Proof using AL.
  induction k as [|k IH]; intros a w batch Hs Hb.
  - exists [], w. rewrite app_nil_r. split; [done|]. split; [done|]. split; [lia|]. split; [apply counted_refl|done].
  - rewrite seqZ_cons by lia. replace (Z.pred (Z.of_nat (S k))) with (Z.of_nat k) by lia. cbn [for_each].
    destruct (seal_block_run a zeros w blen_zeros ltac:(lia)) as (c & w1 & E & Ho & Hc & [Hl1 Hq1] & Hf & Hp). pose proof Hc as (He1 & Hs1 & _).
    destruct (IH (Z.succ a) w1 (batch ++ c)) as (out & w2 & E2 & Hlen & Hos & Hc2 & [Hl2 Hq2] & Hf2 & Hp2); [lia..|].
    exists (c ++ out), w2. pose proof Ho as (Hcl & _). split_and!.
    + erewrite prog_bind_run; [|erewrite prog_bind_run; [reflexivity|exact E]]. rewrite E2. by rewrite app_assoc.
    + rewrite blen_app, Hcl, Hlen. lia.
    + intros j Hj. destruct (decide (j = 0)) as [->|].
      * rewrite slice_app_take by (rewrite ?Hcl; geometry; lia). rewrite slice_full by (rewrite ?Hcl; geometry; lia). by replace (a + 0) with a by lia.
      * rewrite slice_app_skip by (rewrite ?Hcl; geometry; lia). rewrite Hcl. replace (j * PHYS_BLOCK - PHYS_BLOCK) with ((j - 1) * PHYS_BLOCK) by lia.
        replace ((j + 1) * PHYS_BLOCK - PHYS_BLOCK) with ((j - 1 + 1) * PHYS_BLOCK) by lia. replace (a + j) with (Z.succ a + (j - 1)) by lia. apply Hos. lia.
    + replace (Z.of_nat (S k)) with (1 + Z.of_nat k) by lia. by eapply counted_trans; [lia|lia| |].
    + split; congruence.
    + congruence.
    + congruence.
Qed.

Lemma ensure_nonce_space_run w : seq w < MAX_U48 -> ensure_nonce_space cipher w = (Ok tt, w).
Proof using. intros Hs. unfold ensure_nonce_space, mbind, prog_bind, gets. by rewrite (proj2 (Z.ltb_lt _ _)). Qed.

Lemma write_block_run w n f i p f' : blocks_ok w n f -> faults w = [] -> 0 <= i < MAX_BLOCKS -> blen p = BLOCK_SIZE ->
  0 <= seq w -> seq w + Z.max 0 (i - n) + 1 < 2 ^ 48 ->
  (forall j, 0 <= j < BLOCK_SIZE -> f' (i * BLOCK_SIZE + j) = at_ p j) ->
  (forall pos, 0 <= pos -> ~ (i * BLOCK_SIZE <= pos < (i + 1) * BLOCK_SIZE) -> f' pos = f pos) ->
  exists w', write_block cipher i p w = (Ok tt, w') /\ blocks_ok w' (Z.max n (i + 1)) f' /\ counted (Z.max 0 (i - n) + 1) w w' /\ same_len w w' /\
    slice 0 HEADER_PHYS (file w') = slice 0 HEADER_PHYS (file w).
Proof using AL.
  intros [Hn Hph Hst] Hq Hi Hp Hs Hroom Hin Hout. unfold write_block. erewrite prog_bind_run by (apply ensure_nonce_space_run; geometry; lia).
  erewrite prog_bind_run by reflexivity. cbv zeta. rewrite Hph.
  assert (Hnm : (if phys n <=? HEADER_PHYS then 0 else div_ceil (phys n - HEADER_PHYS) PHYS_BLOCK) = n).
  { destruct (Z.leb_spec (phys n) HEADER_PHYS); [geometry; lia|]. unfold div_ceil. replace (phys n - HEADER_PHYS + PHYS_BLOCK - 1) with (PHYS_BLOCK - 1 + n * PHYS_BLOCK) by (geometry; lia).
    rewrite Z.div_add by (geometry; lia). rewrite Z.div_small; geometry; lia. }
  rewrite Hnm. pose proof (st_len _ _ _ Hst) as Hlen.
  assert (Hgap : exists w1, (if n <? i then batch ← for_each (fun gap batch => sealed ← seal_block cipher gap zeros; mret (batch ++ sealed)) (range n i) [];
      file_write_all_at batch (block_phys_offset n) else mret tt) w = (Ok tt, w1) /\ stored (file w1) (Z.max n i) f /\ counted (Z.max 0 (i - n)) w w1 /\ same_len w w1 /\
      phys_len w1 = phys_len w /\ slice 0 HEADER_PHYS (file w1) = slice 0 HEADER_PHYS (file w)).
  { destruct (Z.ltb_spec n i).
    - unfold range.
      destruct (seal_gap_run (Z.to_nat (i - n)) n w [] Hs ltac:(lia)) as (out & w1 & E & Hol & Hos & Hc & [Hl1 Hq1] & Hf1 & Hp1).
      rewrite Z2Nat.id in E, Hol, Hos, Hc by lia. erewrite prog_bind_run by exact E. rewrite block_phys_offset_small by lia. cbn [app].
      rewrite file_write_run by (rewrite ?Hq1, ?Hol; try done; geometry; lia). eexists. split; [done|]. cbn [set_file file phys_len]. rewrite Hf1. split_and!.
      + rewrite Z.max_r by lia. apply stored_extend; try done; lia.
      + rewrite Z.max_r by lia. destruct Hc as (? & ? & Hc). split_and!; try done. intros Hok Hb. destruct (Hc Hok Hb). by constructor.
      + by split.
      + done.
      + rewrite slice_overwrite_out; [done|geometry; lia..].
    - eexists. split; [done|]. rewrite !Z.max_l by lia. split_and!; try done. apply counted_refl. }
  destruct Hgap as (w1 & E1 & Hst1 & Hc1 & [Hl1 Hq1] & Hp1 & Hh1). fold zeros in E1 |- *. erewrite prog_bind_run by exact E1.
  pose proof Hc1 as (He1 & Hs1 & _). destruct (seal_block_run i p w1 Hp ltac:(lia)) as (c & w2 & E2 & Ho & Hc2 & [Hl2 Hq2] & Hf2 & Hp2).
  erewrite prog_bind_run by exact E2. rewrite block_phys_offset_small by lia. pose proof Ho as (Hcl & _).
  erewrite prog_bind_run by (apply file_write_run; [congruence|rewrite Hcl; geometry; lia]).
  eexists. split; [done|]. rewrite wrap64_small by (geometry; lia). cbn [set_file set_phys_len file phys_len]. rewrite Hf2. split_and!.
  - constructor; cbn [set_file set_phys_len file phys_len].
    + lia.
    + rewrite Hp2, Hp1, Hph. geometry. lia.
    + replace (Z.max n (i + 1)) with (Z.max (Z.max n i) (i + 1)) by lia. apply (stored_put _ _ _ f _ _ p); try done; lia.
  - destruct (counted_trans (Z.max 0 (i - n)) 1 w w1 w2 ltac:(lia) ltac:(lia) Hc1 Hc2) as (? & ? & Hc). split_and!; try done. intros Hok Hb. destruct (Hc Hok Hb). by constructor.
  - split; cbn; congruence.
  - rewrite slice_overwrite_out; [done|geometry; try lia..]. rewrite (st_len _ _ _ Hst1). geometry. lia.
Qed.

(** *** The header *)

(** [c] starts with a sealed header that says [sh]. *)
Definition headed (c : bytes) (sh : StoredHeader) : Prop :=
  HEADER_PHYS <= blen c /\ slice 0 8 c = MAGIC /\
  exists plain, aead_decrypt cipher (slice 8 20 c) MAGIC (slice 20 HEADER_PHYS c) = Some plain /\ parse_header plain = Ok sh.

Lemma headed_ext c c' sh : HEADER_PHYS <= blen c' -> slice 0 HEADER_PHYS c' = slice 0 HEADER_PHYS c -> headed c sh -> headed c' sh.
Proof using.
  intros Hl He (Hc & Hm & plain & Hd & Hp).
  assert (Hs : forall a b, 0 <= a <= b -> b <= HEADER_PHYS -> slice a b c' = slice a b c).
  { intros a b Ha Hb. replace a with (0 + a) by lia. replace b with (0 + b) by lia. rewrite <- !(slice_slice 0 HEADER_PHYS) by lia. by rewrite He. }
  split; [done|]. split; [by rewrite Hs by (geometry; lia)|]. exists plain. rewrite !Hs by (geometry; lia). done.
Qed.

Lemma read_u48_of z : 0 <= z <= MAX_U48 -> read_u48 (to_be_bytes 6 z) = z.
Proof using.
  intros Hz. unfold read_u48. replace ([x00; x00] ++ to_be_bytes 6 z) with (to_be_bytes 8 z); [apply from_to_be_bytes; change (256 ^ Z.of_nat 8) with (2 ^ 64); geometry; lia|].
  rewrite <- drop_be_bytes. rewrite <- (take_drop 2 (to_be_bytes 8 z)) at 1. f_equal. unfold to_be_bytes. cbn [le_bytes].
  assert (Hb : forall y, y = 0 -> byte_of_Z y = x00) by (by intros y ->). 
  rewrite !Z.div_div by lia. cbn -[Z.div byte_of_Z]. rewrite !Hb; [done|apply Z.div_small; geometry; lia..].
Qed.

Lemma blen_header_plaintext len ep pending : blen (header_plaintext len ep pending) = HEADER_PLAINTEXT_LEN.
Proof using. unfold header_plaintext. rewrite !drop_be_bytes, !blen_app, !blen_to_be_bytes. done. Qed.

Lemma parse_header_plaintext len ep pending : 0 <= len <= MAX_U48 -> 0 <= ep <= MAX_U48 ->
  parse_header (header_plaintext len ep pending) = Ok (mkStoredHeader len ep false pending).
Proof using.
  intros Hl He. unfold parse_header. rewrite blen_header_plaintext, Z.eqb_refl. cbn [negb]. unfold header_plaintext. rewrite !drop_be_bytes. cbn [head app].
  rewrite bool_decide_eq_false_2, bool_decide_eq_true_2 by done. cbn [negb nth].
  set (flag := if pending then _ else x00). change (flag :: to_be_bytes 6 len ++ to_be_bytes 6 ep ++ [x00; x00]) with ([flag] ++ to_be_bytes 6 len ++ to_be_bytes 6 ep ++ [x00; x00]).
  change (FORMAT_VERSION :: [flag] ++ to_be_bytes 6 len ++ to_be_bytes 6 ep ++ [x00; x00]) with ([FORMAT_VERSION; flag] ++ to_be_bytes 6 len ++ to_be_bytes 6 ep ++ [x00; x00]).
  assert (H6 : forall z, blen (to_be_bytes 6 z) = 6) by (intros; by rewrite blen_to_be_bytes).
  assert (Hs1 : slice 2 8 ([FORMAT_VERSION; flag] ++ to_be_bytes 6 len ++ to_be_bytes 6 ep ++ [x00; x00]) = to_be_bytes 6 len).
  { rewrite slice_app_skip by done. change (2 - blen [FORMAT_VERSION; flag]) with 0. change (8 - blen [FORMAT_VERSION; flag]) with 6.
    rewrite slice_app_take by (rewrite ?H6; lia). apply slice_full; rewrite ?H6; lia. }
  assert (Hs2 : slice 8 14 ([FORMAT_VERSION; flag] ++ to_be_bytes 6 len ++ to_be_bytes 6 ep ++ [x00; x00]) = to_be_bytes 6 ep).
  { rewrite slice_app_skip by done. change (8 - blen [FORMAT_VERSION; flag]) with 6. change (14 - blen [FORMAT_VERSION; flag]) with 12.
    rewrite slice_app_skip by (rewrite ?H6; lia). rewrite H6. rewrite slice_app_take by (rewrite ?H6; lia). apply slice_full; rewrite ?H6; lia. }
  rewrite Hs1, Hs2, !read_u48_of by done. by destruct pending.
Qed.

Lemma write_header_run w pending : faults w = [] -> 0 <= seq w < 2 ^ 48 -> 0 <= logical_len w <= MAX_U48 -> 0 <= epoch w <= MAX_U48 ->
  exists hdr w', write_header cipher pending w = (Ok tt, w') /\ blen hdr = HEADER_PHYS /\ headed hdr (mkStoredHeader (logical_len w) (epoch w) false pending) /\
    file w' = overwrite (file w) 0 hdr /\ counted 1 w w' /\ same_len w w' /\ phys_len w' = Z.max HEADER_PHYS (phys_len w).
Proof using AL.
  intros Hq Hs Hl He. destruct (next_nonce_run w Hs) as (w1 & E & Hc & [Hl1 Hq1] & Hf & Hp). set (nonce := nonce_of (epoch w) (seq w)) in *.
  destruct (aead_encrypt_total cipher nonce MAGIC (header_plaintext (logical_len w) (epoch w) pending)) as [ct Ect]; [rewrite blen_header_plaintext; unfold AEAD_P_MAX, HEADER_PLAINTEXT_LEN; lia|].
  pose proof (aead_encrypt_len _ _ _ _ _ Ect) as Hct. rewrite blen_header_plaintext in Hct. pose proof (blen_nonce (epoch w) (seq w) : blen nonce = 12) as Hn.
  assert (Hh : blen (MAGIC ++ nonce ++ ct) = HEADER_PHYS) by (rewrite !blen_app, Hn, Hct; done).
  eexists (MAGIC ++ nonce ++ ct), _. split_and!.
  - unfold write_header. erewrite prog_bind_run by reflexivity. erewrite prog_bind_run by (unfold guard_not; rewrite (proj2 (Z.ltb_ge _ _)) by lia; reflexivity).
    erewrite prog_bind_run by reflexivity. erewrite prog_bind_run by exact E. erewrite prog_bind_run by (unfold lift_res; rewrite Ect; reflexivity).
    erewrite prog_bind_run by (apply file_write_run; [congruence|rewrite Hh; geometry; lia]). reflexivity.
  - exact Hh.
  - split; [rewrite Hh; done|]. split; [by rewrite slice_app_take|]. exists (header_plaintext (logical_len w) (epoch w) pending). split; [|by apply parse_header_plaintext].
    rewrite !(slice_app_skip _ _ MAGIC) by (change (blen MAGIC) with 8; lia). change (8 - blen MAGIC) with 0. change (20 - blen MAGIC) with 12. change (HEADER_PHYS - blen MAGIC) with 44.
    rewrite (slice_app_take 0 12), (slice_full 0 12) by (rewrite ?Hn; lia). rewrite slice_app_skip by (rewrite Hn; lia). rewrite Hn.
    rewrite slice_full by (rewrite ?Hct; unfold HEADER_PLAINTEXT_LEN; lia). by apply aead_decrypt_encrypt.
  - cbn. by rewrite Hf.
  - destruct Hc as (? & ? & Hc). split_and!; try done. intros Hok Hb. destruct (Hc Hok Hb). by constructor.
  - by split.
  - cbn. by rewrite Hp.
Qed.

Lemma stored_header c n f hdr : stored c n f -> 0 <= n -> blen hdr = HEADER_PHYS -> stored (overwrite c 0 hdr) n f.
Proof using.
  intros [Hl Ho Hz] Hn Hh. constructor; [|intros i Hi|done].
  - rewrite blen_overwrite, Hl, Hh; [geometry; lia|done|]. intros ->. by rewrite blen_nil in Hh.
  - rewrite slice_overwrite_out by (rewrite ?Hl, ?Hh; geometry; lia). by apply Ho.
Qed.

Lemma headed_overwrite c hdr sh : blen hdr = HEADER_PHYS -> headed hdr sh -> headed (overwrite c 0 hdr) sh.
Proof using.
  intros Hh. apply headed_ext.
  - rewrite blen_overwrite; [rewrite Hh; lia|done|]. intros ->. by rewrite blen_nil in Hh.
  - apply (slice_overwrite_in c 0 hdr 0 HEADER_PHYS); rewrite ?Hh; geometry; lia.
Qed.

(** *** Reading and writing *)

Lemma blocks_ok_ext w n f g : (forall pos, 0 <= pos -> f pos = g pos) -> blocks_ok w n f -> blocks_ok w n g.
Proof using.
  intros He [Hn Hp [Hl Ho Hz]]. constructor; [done|done|]. constructor; [done|intros i Hi|].
  - destruct (Ho i Hi) as (p & Hop & Hat). exists p. split; [done|]. intros j Hj. rewrite Hat by done. apply He. geometry. lia.
  - intros pos Hpos. rewrite <- He by (geometry; lia). by apply Hz.
Qed.

Lemma place_spec offset done total : 0 <= offset -> 0 <= done < total -> offset + total <= MAX_U48 ->
  exists idx within n, place offset done total = (idx, within, n) /\ offset + done = idx * BLOCK_SIZE + within /\ 0 <= idx < MAX_BLOCKS /\ 0 <= within < BLOCK_SIZE /\
    0 < n <= BLOCK_SIZE - within /\ n <= total - done /\ (n = BLOCK_SIZE - within \/ n = total - done).
Proof using.
  intros Ho Hd Hb. unfold place. cbv zeta. rewrite wrap64_small by (geometry; lia). eexists _, _, _. split; [done|].
  pose proof (Z.div_mod (offset + done) BLOCK_SIZE ltac:(done)). pose proof (Z.mod_pos_bound (offset + done) BLOCK_SIZE ltac:(done)).
  assert ((offset + done) / BLOCK_SIZE < MAX_BLOCKS) by (apply Z.div_lt_upper_bound; geometry; lia). assert (0 <= (offset + done) / BLOCK_SIZE) by (apply Z.div_pos; geometry; lia).
  geometry. lia.
Qed.

Lemma read_loop_run w n f offset total : blocks_ok w n f -> faults w = [] -> 0 <= offset -> offset + total <= MAX_U48 ->
  forall fuel out, blen out <= total -> total - blen out <= Z.of_nat fuel -> (forall i, 0 <= i < blen out -> at_ out i = f (offset + i)) ->
  exists res, read_loop cipher fuel offset total out w = (Ok res, w) /\ blen res = total /\ forall i, 0 <= i < total -> at_ res i = f (offset + i).
Proof using.
  intros Hb Hq Ho Hmax. induction fuel as [|fuel IH]; intros out Hl Hf Hat; cbn [read_loop].
  - exists out. split; [done|]. replace total with (blen out) by lia. by split.
  - destruct (Z.leb_spec total (blen out)); [exists out; split; [done|]; replace total with (blen out) by lia; by split|].
    pose proof (blen_nonneg out). destruct (place_spec offset (blen out) total) as (idx & within & k & -> & Hpos & Hidx & Hw & Hk & Hkt & _); [lia..|].
    destruct (read_block_run w n f idx Hb Hq Hidx) as (p & Ep & Hp & Hpat). erewrite prog_bind_run by exact Ep.
    assert (Hs : blen (slice within (within + k) p) = k) by (rewrite blen_slice; lia). apply IH; rewrite ?blen_app, ?Hs; [lia..|].
    intros i Hi. rewrite at_app by lia. destruct (Z.ltb_spec i (blen out)); [by apply Hat; lia|]. rewrite at_slice by lia. rewrite Hpat by lia. f_equal. lia.
Qed.

(** How many nonces the rest of a write takes when [n] blocks are there: one for every block it
    touches and one for every block of the gap before it; and how many blocks are there
    afterwards. *)
Definition drawn (n offset total done : Z) : Z :=
  if total <=? done then 0 else Z.max 0 ((offset + done) / BLOCK_SIZE - n) + ((offset + total - 1) / BLOCK_SIZE - (offset + done) / BLOCK_SIZE + 1).
Definition grown (n offset total done : Z) : Z := if total <=? done then n else Z.max n ((offset + total - 1) / BLOCK_SIZE + 1).

Lemma div_block x i y : x = i * BLOCK_SIZE + y -> 0 <= y < BLOCK_SIZE -> x / BLOCK_SIZE = i.
Proof using. intros E Hy. symmetry. apply (Z.div_unique x BLOCK_SIZE i y); lia. Qed.

(** One block of the write. *)
Lemma drawn_step n offset total done idx within k : 0 <= done < total -> offset + done = idx * BLOCK_SIZE + within -> 0 <= within < BLOCK_SIZE -> 0 < k <= BLOCK_SIZE - within -> k <= total - done ->
  k = BLOCK_SIZE - within \/ k = total - done ->
  drawn n offset total done = Z.max 0 (idx - n) + 1 + drawn (Z.max n (idx + 1)) offset total (done + k) /\ 0 <= drawn (Z.max n (idx + 1)) offset total (done + k) /\
  grown n offset total done = grown (Z.max n (idx + 1)) offset total (done + k).
Proof using.
  intros Hd Hpos Hw Hk Hkt Hkk. unfold drawn, grown. rewrite (proj2 (Z.leb_gt total done)) by lia. rewrite (div_block _ _ _ Hpos Hw). destruct (Z.leb_spec total (done + k)).
  - rewrite (div_block (offset + total - 1) idx (within + (total - done) - 1)) by lia. lia.
  - rewrite (div_block (offset + (done + k)) (idx + 1) 0) by (geometry; lia).
    assert (idx + 1 <= (offset + total - 1) / BLOCK_SIZE) by (apply Z.div_le_lower_bound; geometry; lia). lia.
Qed.

Lemma write_loop_run offset data : 0 <= offset -> offset + blen data <= MAX_U48 ->
  forall fuel w n f done, blocks_ok w n f -> faults w = [] -> 0 <= done <= blen data -> blen data - done <= Z.of_nat fuel ->
    0 <= seq w -> seq w + drawn n offset (blen data) done < 2 ^ 48 ->
  exists w', write_loop cipher fuel offset data done w = (Ok tt, w') /\
    blocks_ok w' (grown n offset (blen data) done) (fun pos => if (offset + done <=? pos) && (pos <? offset + blen data) then at_ data (pos - offset) else f pos) /\
    counted (drawn n offset (blen data) done) w w' /\ same_len w w' /\ slice 0 HEADER_PHYS (file w') = slice 0 HEADER_PHYS (file w).
Proof using AL.
  intros Ho Hmax. assert (Hstop : forall w n f done, blen data <= done -> blocks_ok w n f -> exists w', (mret tt : backend unit) w = (Ok tt, w') /\
    blocks_ok w' (grown n offset (blen data) done) (fun pos => if (offset + done <=? pos) && (pos <? offset + blen data) then at_ data (pos - offset) else f pos) /\
    counted (drawn n offset (blen data) done) w w' /\ same_len w w' /\ slice 0 HEADER_PHYS (file w') = slice 0 HEADER_PHYS (file w)).
  { intros w n f done Hle Hb. exists w. unfold grown, drawn. rewrite (proj2 (Z.leb_le _ _)) by done. split; [done|]. split; [|split; [apply counted_refl|done]].
    eapply blocks_ok_ext; [|exact Hb]. intros pos Hpos. cbn. by replace ((_ <=? pos) && _) with false by (symmetry; apply andb_false_iff; lia). }
  induction fuel as [|fuel IH]; intros w n f done Hb Hq Hd Hf Hs Hroom; cbn [write_loop].
  - apply Hstop; [lia|done].
  - destruct (Z.leb_spec (blen data) done).
    + by apply Hstop.
    + destruct (place_spec offset done (blen data)) as (idx & within & k & -> & Hpos & Hidx & Hw & Hk & Hkt & Hkk); [lia..|].
      assert (Hread : exists p, (if (within =? 0) && (k =? BLOCK_SIZE) then mret zeros else read_block cipher idx) w = (Ok p, w) /\ blen p = BLOCK_SIZE /\
        forall j, 0 <= j < BLOCK_SIZE -> ~ (within <= j < within + k) -> at_ p j = f (idx * BLOCK_SIZE + j)).
      { destruct ((within =? 0) && (k =? BLOCK_SIZE)) eqn:Ef.
        - apply andb_true_iff in Ef as [->%Z.eqb_eq ->%Z.eqb_eq]. exists zeros. split; [done|]. split; [apply blen_zeros|]. intros j Hj Hn. lia.
        - destruct (read_block_run w n f idx Hb Hq Hidx) as (p & Ep & Hp & Hpat). exists p. split_and!; [done|done|]. intros j Hj _. by apply Hpat. }
      destruct Hread as (p & Ep & Hp & Hpat). fold zeros. erewrite prog_bind_run by exact Ep. set (piece := slice done (done + k) data).
      assert (Hpl : blen piece = k) by (unfold piece; rewrite blen_slice; lia). assert (Hpne : piece <> []) by (intros Hx; rewrite Hx, blen_nil in Hpl; lia).
      destruct (drawn_step n offset (blen data) done idx within k) as (Hdr & Hdr0 & Hgr); [lia..|done|]. rewrite Hdr, Hgr in *.
      set (f1 := fun pos => if (offset + done <=? pos) && (pos <? offset + done + k) then at_ data (pos - offset) else f pos).
      destruct (write_block_run w n f idx (overwrite p within piece) f1 Hb Hq Hidx) as (w1 & E1 & Hb1 & Hc1 & [Hl1 Hq1] & Hh1).
      * rewrite blen_overwrite, Hp, Hpl by (done || lia). lia.
      * done.
      * lia.
      * intros j Hj. unfold f1. rewrite at_overwrite, Hpl by lia.
        destruct (Z.leb_spec (offset + done) (idx * BLOCK_SIZE + j)), (Z.leb_spec within j); cbn [andb]; try lia; [|by rewrite Hpat by lia].
        destruct (Z.ltb_spec (idx * BLOCK_SIZE + j) (offset + done + k)), (Z.ltb_spec j (within + k)); try lia; [|by rewrite Hpat by lia].
        unfold piece. rewrite at_slice by lia. f_equal. lia.
      * intros pos Hp0 Hnot. unfold f1. destruct (Z.leb_spec (offset + done) pos), (Z.ltb_spec pos (offset + done + k)); cbn [andb]; try done. geometry. lia.
      * erewrite prog_bind_run by exact E1. pose proof Hc1 as (He1 & Hs1 & _).
        destruct (IH w1 (Z.max n (idx + 1)) f1 (done + k) Hb1) as (w2 & E2 & Hb2 & Hc2 & [Hl2 Hq2] & Hh2); [congruence|lia..|].
        exists w2. split; [done|]. split; [|split; [by eapply counted_trans; [lia|lia| |]|split; [split; congruence|congruence]]].
        eapply blocks_ok_ext; [|exact Hb2]. intros pos Hp0. unfold f1. cbn beta.
        destruct (Z.leb_spec (offset + (done + k)) pos), (Z.ltb_spec pos (offset + blen data)), (Z.leb_spec (offset + done) pos), (Z.ltb_spec pos (offset + done + k)); cbn [andb]; done || lia.
Qed.

(** ** Refinement *)

(** The backend [w] stands for the plain file [L]. *)
Record refines (w : Inner) (L : bytes) : Prop := mkRefines {
  rf_blocks : exists n, blocks_ok w n (at_ L);
  rf_len : logical_len w = blen L;
  rf_max : blen L <= MAX_U48;
  rf_head : headed (file w) (mkStoredHeader (blen L) (epoch w) false false);
  rf_quiet : faults w = [];
  rf_nonces : nonces_ok w;
}.

Lemma blocks_headed w n f : blocks_ok w n f -> HEADER_PHYS <= blen (file w).
Proof using. intros [Hn Hp [Hl _ _]]. rewrite Hl. geometry. lia. Qed.

(** Writing the header settles what the file stands for. *)
Lemma write_header_settles w n L : blocks_ok w n (at_ L) -> logical_len w = blen L -> blen L <= MAX_U48 -> faults w = [] -> nonces_ok w -> seq w + 1 <= 2 ^ 48 ->
  exists w', write_header cipher false w = (Ok tt, w') /\ refines w' L /\ epoch w' = epoch w /\ seq w' = seq w + 1 /\ phys_len w' = phys n.
Proof using AL.
  intros [Hn Hp Hst] Hl Hmax Hq Hok Hs. pose proof (blen_nonneg L). destruct (write_header_run w false Hq) as (hdr & w' & E & Hh & Hhd & Hf & (He & Hsq & Hno) & [Hl' Hq'] & Hp').
  - destruct Hok. lia.
  - lia.
  - destruct Hok. geometry. lia.
  - exists w'. split_and!; try done; [|rewrite Hp', Hp; geometry; lia]. constructor; [|congruence|done| |congruence|apply Hno; [done|lia]].
    + exists n. constructor; [done|rewrite Hp', Hp; geometry; lia|]. rewrite Hf. apply stored_header; [done|lia|done].
    + rewrite Hf, <- Hl, He. by apply headed_overwrite.
Qed.

Definition spec_read (off n : Z) (L : bytes) : bytes := slice off (off + n) (resize (off + n) L).
(** A write past the end fills the hole with zeros; so does an empty one. *)
Definition spec_write (off : Z) (data L : bytes) : bytes := overwrite (resize (Z.max (blen L) (off + blen data)) L) off data.

Lemma read_refines w L off n : refines w L -> 0 <= off -> 0 <= n -> off + n <= MAX_U48 -> read cipher off n w = (Ok (spec_read off n L), w).
Proof using.
  intros [(nb & Hb) _ _ _ Hq _] Ho Hn Hmax. destruct (read_loop_run w nb (at_ L) off n Hb Hq Ho Hmax (Z.to_nat n) []) as (res & E & Hl & Hat); [unfold blen; cbn [length]; lia..|].
  unfold read. rewrite E. do 2 f_equal. unfold spec_read. assert (Hs : blen (slice off (off + n) (resize (off + n) L)) = n) by (rewrite blen_slice, blen_resize; lia).
  apply at_ext; [congruence|]. rewrite Hl. intros i Hi. rewrite Hat, at_slice, at_resize by lia. by rewrite (proj2 (Z.ltb_lt _ _)) by lia.
Qed.

Lemma at_spec_write off data L pos : 0 <= off -> 0 <= pos -> at_ (spec_write off data L) pos = if (off <=? pos) && (pos <? off + blen data) then at_ data (pos - off) else at_ L pos.
Proof using.
  intros Ho Hp. unfold spec_write. rewrite at_overwrite by done. destruct (_ && _); [done|]. rewrite at_resize by done. destruct (Z.ltb_spec pos (Z.max (blen L) (off + blen data))); [done|].
  by rewrite at_beyond by lia.
Qed.
Lemma blen_spec_write off data L : 0 <= off -> blen (spec_write off data L) = Z.max (blen L) (off + blen data).
Proof using.
  intros Ho. unfold spec_write. pose proof (blen_nonneg L). pose proof (blen_nonneg data). destruct (decide (data = [])) as [->|Hd]; [rewrite overwrite_nil, blen_resize; lia|].
  rewrite blen_overwrite, blen_resize by (done || lia). lia.
Qed.

(** With the header, if the file grows. *)
Definition write_cost (n off : Z) (data : bytes) : Z := drawn n off (blen data) 0 + 1.

Lemma phys_inj n m : phys n = phys m -> n = m.
Proof using. geometry. lia. Qed.
Lemma refines_blocks w L n : refines w L -> phys_len w = phys n -> blocks_ok w n (at_ L).
Proof using. intros [(m & Hb) _ _ _ _ _] Hn. pose proof (b_phys _ _ _ Hb) as Hm. rewrite Hn in Hm. by apply phys_inj in Hm as ->. Qed.

Lemma drawn_nonneg n off total : 0 <= off -> 0 <= drawn n off total 0.
Proof using. intros Ho. unfold drawn. destruct (Z.leb_spec total 0); [lia|]. assert ((off + 0) / BLOCK_SIZE <= (off + total - 1) / BLOCK_SIZE) by (apply Z.div_le_mono; geometry; lia). lia. Qed.

Lemma write_refines w L n off data : refines w L -> phys_len w = phys n -> 0 <= off -> off + blen data <= MAX_U48 -> seq w + write_cost n off data <= 2 ^ 48 ->
  exists w', write cipher off data w = (Ok tt, w') /\ refines w' (spec_write off data L) /\ phys_len w' = phys (grown n off (blen data) 0) /\ epoch w' = epoch w /\ seq w' <= seq w + write_cost n off data.
Proof using AL.
  intros Hr Hn Ho Hend Hroom. pose proof (refines_blocks _ _ _ Hr Hn) as Hb. destruct Hr as [_ Hl Hmax Hhd Hq Hok]. unfold write_cost in *.
  pose proof (blen_nonneg data). pose proof (blen_nonneg L). pose proof (no_seq _ Hok). pose proof (drawn_nonneg n off (blen data) Ho).
  destruct (write_loop_run off data Ho Hend (length data) w n (at_ L) 0 Hb Hq) as (w1 & E1 & Hb1 & (He1 & Hs1 & Hno1) & [Hl1 Hq1] & Hh1); [lia|unfold blen; lia|done|lia|].
  set (n1 := grown n off (blen data) 0) in *. assert (Hb2 : blocks_ok w1 n1 (at_ (spec_write off data L))).
  { eapply blocks_ok_ext; [|exact Hb1]. intros pos Hpos. rewrite at_spec_write by done. cbn beta. by replace (off + 0) with off by lia. }
  assert (Hok1 : nonces_ok w1) by (apply Hno1; [done|lia]). pose proof (blen_spec_write off data L Ho) as Hlen.
  unfold write. erewrite prog_bind_run by exact E1. cbv zeta. rewrite wrap64_small by (geometry; lia). erewrite prog_bind_run by reflexivity. rewrite Hl1, Hl.
  destruct (Z.ltb_spec (blen L) (off + blen data)).
  - erewrite prog_bind_run by reflexivity. destruct (write_header_settles (set_logical_len (off + blen data) w1) n1 (spec_write off data L)) as (w2 & E2 & Hr2 & He2 & Hs2 & Hp2); cbn.
    + destruct Hb2. by constructor.
    + rewrite Hlen. lia.
    + rewrite Hlen. lia.
    + congruence.
    + destruct Hok1. by constructor.
    + lia.
    + cbn in He2, Hs2. exists w2. split_and!; [done|done|done|congruence|lia].
  - exists w1. split_and!; [done| |by destruct Hb2|done|lia]. constructor; [by exists n1|rewrite Hlen, Hl1; lia|rewrite Hlen; lia| |congruence|done].
    eapply headed_ext; [by eapply blocks_headed|exact Hh1|]. rewrite Hlen, He1, Z.max_l by lia. done.
Qed.

(** Cutting the file down to [need] blocks. *)
Lemma cut_run w L nb need : blocks_ok w nb (at_ L) -> faults w = [] -> 0 <= need -> let m := Z.min nb need in
  exists w1, (if phys need <? phys_len w then _ ← file_set_len (phys need); modify (set_phys_len (phys need)) else mret tt) w = (Ok tt, w1) /\
    blocks_ok w1 m (fun pos => if pos <? m * BLOCK_SIZE then at_ L pos else x00) /\ counted 0 w w1 /\ same_len w w1.
Proof using.
  intros [Hnb Hp Hst] Hq Hneed m. pose proof (st_len _ _ _ Hst) as Hb. rewrite Hp.
  assert (Hc : forall w1, epoch w1 = epoch w -> seq w1 = seq w -> used w1 = used w -> counted 0 w w1).
  { intros w1 He Hs Hu. split_and!; [done|lia|]. intros [? ? Hbf Hd] _. constructor; rewrite ?He, ?Hs, ?Hu; done. }
  destruct (Z.ltb_spec (phys need) (phys nb)).
  - eexists. split; [unfold file_set_len, mbind, prog_bind, sys, modify; rewrite Hq; reflexivity|].
    assert (m = need) as Hm by (unfold m; geometry; lia). rewrite Hm. split_and!; [|by apply Hc|by split]. constructor; [geometry; lia|done|]. cbn.
    constructor; [apply blen_resize; geometry; lia|intros i Hi|intros pos Hpos; by rewrite (proj2 (Z.ltb_ge _ _)) by lia].
    destruct (st_open _ _ _ Hst i) as (p & Ho & Hat); [geometry; lia|]. exists p. split.
    + replace (slice (phys i) (phys (i + 1)) (resize (phys need) (file w))) with (slice (phys i) (phys (i + 1)) (file w)); [done|].
      apply at_ext; [rewrite !blen_slice, blen_resize, Hb; geometry; lia|]. rewrite blen_slice, Hb. intros j Hj.
      rewrite !at_slice, at_resize by (geometry; lia). by rewrite (proj2 (Z.ltb_lt _ _)) by (geometry; lia).
    + intros j Hj. rewrite Hat by done. by rewrite (proj2 (Z.ltb_lt _ _)) by (geometry; lia).
  - eexists. split; [done|]. assert (m = nb) as Hm by (unfold m; geometry; lia). rewrite Hm. split_and!; [|by apply Hc|by split].
    apply (blocks_ok_ext _ _ (at_ L)); [|by constructor]. intros pos Hpos. destruct (Z.ltb_spec pos (nb * BLOCK_SIZE)); [done|]. by apply (st_zero _ _ _ Hst).
Qed.

(** Zeroing the tail of the block that holds the end [n]: afterwards nothing but zeros lies
    behind it. *)
Lemma zero_tail_run w m g n : blocks_ok w m g -> faults w = [] -> 0 <= n <= MAX_U48 -> m * BLOCK_SIZE < n + BLOCK_SIZE -> nonces_ok w -> seq w + 1 < 2 ^ 48 ->
  let idx := n / BLOCK_SIZE in let rem := n mod BLOCK_SIZE in
  exists w2, (if rem =? 0 then mret tt else phys ← gets phys_len; if phys <? block_phys_offset (idx + 1) then mret tt else
        plain ← read_block cipher idx; write_block cipher idx (take (Z.to_nat rem) plain ++ replicate (Z.to_nat (BLOCK_SIZE - rem)) x00)) w = (Ok tt, w2) /\
      blocks_ok w2 m (fun pos => if pos <? n then g pos else x00) /\ same_len w w2 /\ epoch w2 = epoch w /\ seq w <= seq w2 <= seq w + 1 /\ nonces_ok w2.
Proof using AL.
  intros Hb Hq Hn Hm Hok Hroom idx rem. pose proof (no_seq _ Hok). pose proof (b_n _ _ _ Hb) as Hm0.
  assert (Hmod : n = idx * BLOCK_SIZE + rem /\ 0 <= rem < BLOCK_SIZE).
  { pose proof (Z.div_mod n BLOCK_SIZE ltac:(done)). pose proof (Z.mod_pos_bound n BLOCK_SIZE ltac:(done)). unfold idx, rem. lia. }
  assert (Hidx : 0 <= idx < MAX_BLOCKS) by (geometry; lia). clearbody idx rem.
  assert (Hnop : m * BLOCK_SIZE <= n -> exists w2, (mret tt : backend unit) w = (Ok tt, w2) /\ blocks_ok w2 m (fun pos => if pos <? n then g pos else x00) /\ same_len w w2 /\ epoch w2 = epoch w /\ seq w <= seq w2 <= seq w + 1 /\ nonces_ok w2).
  { intros Hle. exists w. split_and!; try done; [|lia..]. eapply blocks_ok_ext; [|exact Hb]. intros pos Hpos. cbn beta. destruct (Z.ltb_spec pos n); [done|]. apply (st_zero _ _ _ (b_stored _ _ _ Hb)). lia. }
  destruct (Z.eqb_spec rem 0); [apply Hnop; geometry; lia|]. erewrite prog_bind_run by reflexivity. rewrite (b_phys _ _ _ Hb), block_phys_offset_small by lia.
  destruct (Z.ltb_spec (phys m) (phys (idx + 1))); [apply Hnop; geometry; lia|].
  destruct (read_block_run w m g idx Hb Hq Hidx) as (p & Ep & Hpl & Hpat). erewrite prog_bind_run by exact Ep. assert (Hmi : m = idx + 1) by (geometry; lia).
  destruct (write_block_run w m g idx (take (Z.to_nat rem) p ++ replicate (Z.to_nat (BLOCK_SIZE - rem)) x00) (fun pos => if pos <? n then g pos else x00) Hb Hq Hidx) as (w2 & E2 & Hb2 & Hc2 & [Hl2 Hq2] & _); try lia.
  - rewrite blen_app, blen_replicate. unfold blen in *. rewrite length_take. geometry. lia.
  - intros j Hj. assert (Ht : blen (take (Z.to_nat rem) p) = rem) by (unfold blen in *; rewrite length_take; geometry; lia).
    rewrite at_app, Ht by lia. destruct (Z.ltb_spec (idx * BLOCK_SIZE + j) n), (Z.ltb_spec j rem); try (geometry; lia); [|by rewrite at_zeros].
    rewrite at_take by lia. rewrite (proj2 (Z.ltb_lt _ _)) by lia. by rewrite Hpat by done.
  - intros pos Hp0 Hnot. destruct (Z.ltb_spec pos n); [done|]. symmetry. apply (st_zero _ _ _ (b_stored _ _ _ Hb)). geometry. lia.
  - replace (Z.max m (idx + 1)) with m in Hb2 by lia. destruct Hc2 as (He2 & Hs2 & Hno2). exists w2. split_and!; [done|done|done|done|lia|lia|]. apply Hno2; [done|lia].
Qed.

Lemma set_len_refines w L nb n : refines w L -> phys_len w = phys nb -> 0 <= n <= MAX_U48 -> seq w + 3 <= 2 ^ 48 ->
  exists w', set_len cipher n w = (Ok tt, w') /\ refines w' (resize n L) /\ phys_len w' = phys (Z.min nb (div_ceil n BLOCK_SIZE)) /\ epoch w' = epoch w /\ seq w' <= seq w + 3.
Proof using AL.
  intros Hr Hnb Hn Hroom. pose proof (refines_blocks _ _ _ Hr Hnb) as Hb. destruct Hr as [_ Hl Hmax Hhd Hq Hok]. pose proof (no_seq _ Hok). unfold set_len. erewrite prog_bind_run by reflexivity. cbv zeta.
  set (need := div_ceil n BLOCK_SIZE). assert (Hneed : n <= need * BLOCK_SIZE < n + BLOCK_SIZE).
  { unfold need, div_ceil. pose proof (Z.div_mod (n + BLOCK_SIZE - 1) BLOCK_SIZE ltac:(done)). pose proof (Z.mod_pos_bound (n + BLOCK_SIZE - 1) BLOCK_SIZE ltac:(done)). geometry. lia. }
  assert (Hphys : wrap64 (HEADER_PHYS + wrap64 (need * PHYS_BLOCK)) = phys need) by (geometry; rewrite (wrap64_small (need * _)) by lia; rewrite wrap64_small; lia). rewrite Hphys.
  erewrite prog_bind_run by reflexivity.
  destruct (cut_run (set_logical_len n w) L nb need) as (w1 & E1 & Hb1 & (He1 & Hs1 & Hno1) & [Hl1 Hq1]); [destruct Hb; by constructor|done|geometry; lia|].
  erewrite prog_bind_run by exact E1. cbn [set_logical_len epoch seq logical_len faults] in *. set (m := Z.min nb need) in *.
  destruct (zero_tail_run w1 m _ n Hb1) as (w2 & E2 & Hb2 & [Hl2 Hq2] & He2 & Hs2 & Hok2); [congruence|lia|unfold m; geometry; lia|apply Hno1; [destruct Hok; by constructor|lia]|lia|].
  erewrite prog_bind_run by exact E2.
  destruct (write_header_settles w2 m (resize n L)) as (w3 & E3 & Hr3 & He3 & Hs3 & Hp3); [|rewrite blen_resize; lia|rewrite blen_resize; lia|congruence|done|lia|].
  - eapply blocks_ok_ext; [|exact Hb2]. intros pos Hpos. cbn beta. rewrite at_resize by done. destruct (Z.ltb_spec pos n); [|done]. destruct (Z.ltb_spec pos (m * BLOCK_SIZE)); [done|].
    symmetry. apply (st_zero _ _ _ (b_stored _ _ _ Hb)). unfold m in *. geometry. lia.
  - exists w3. split_and!; [done|done|done|congruence|lia].
Qed.

(** *** Opening *)

Lemma sys_run w : faults w = [] -> sys w = (Ok tt, w).
Proof using. intros Hq. unfold sys. by rewrite Hq. Qed.
Lemma file_len_run w : faults w = [] -> file_len w = (Ok (blen (file w)), w).
Proof using. intros Hq. unfold file_len. erewrite prog_bind_run by (by apply sys_run). done. Qed.
Lemma file_read_run w off n : faults w = [] -> off + n <= blen (file w) -> file_read_exact_at off n w = (Ok (slice off (off + n) (file w)), w).
Proof using.
  intros Hq Hl. unfold file_read_exact_at. erewrite prog_bind_run by (by apply sys_run). erewrite prog_bind_run by reflexivity. unfold lift_res. by rewrite (proj2 (Z.ltb_ge _ _)) by lia.
Qed.

Lemma read_header_run w sh : faults w = [] -> headed (file w) sh -> read_magic w = (Ok MAGIC, w) /\ read_header cipher w = (Ok sh, w).
Proof using.
  intros Hq (Hl & Hm & plain & Hd & Hp). split.
  - unfold read_magic. erewrite prog_bind_run by (by apply sys_run). rewrite file_read_run by (done || geometry; lia). change (0 + 8) with 8. by rewrite Hm.
  - unfold read_header. erewrite prog_bind_run by (by apply sys_run). erewrite prog_bind_run by (apply file_read_run; [done|lia]).
    change (8 + NONCE_LEN) with 20. change (0 + HEADER_PHYS) with HEADER_PHYS.
    assert (Hb : slice 8 20 (slice 0 HEADER_PHYS (file w)) = slice 8 20 (file w)) by (rewrite slice_slice by (geometry; lia); done).
    assert (Hc : drop (Z.to_nat 20) (slice 0 HEADER_PHYS (file w)) = slice 20 HEADER_PHYS (file w)).
    { unfold slice. rewrite skipn_firstn_comm, drop_drop. f_equal. }
    rewrite Hb, Hc, Hd. erewrite prog_bind_run by reflexivity. unfold lift_res. by rewrite Hp.
Qed.

Lemma reseal_run k : forall i w n f, blocks_ok w n f -> faults w = [] -> 0 <= i -> i + Z.of_nat k <= n -> 0 <= seq w -> seq w + Z.of_nat k < 2 ^ 48 ->
  exists w', for_each (fun idx (_ : unit) => plain ← read_block cipher idx; write_block cipher idx plain) (seqZ i (Z.of_nat k)) tt w = (Ok tt, w') /\
    blocks_ok w' n f /\ counted (Z.of_nat k) w w' /\ same_len w w'.
Proof using AL.
  induction k as [|k IH]; intros i w n f Hb Hq Hi Hn Hs Hroom; [exists w; split; [done|split; [done|split; [apply counted_refl|done]]]|].
  rewrite seqZ_cons by lia. replace (Z.pred (Z.of_nat (S k))) with (Z.of_nat k) by lia. cbn [for_each]. pose proof (b_n _ _ _ Hb).
  destruct (read_block_run w n f i Hb Hq ltac:(lia)) as (p & Ep & Hp & Hat).
  destruct (write_block_run w n f i p f Hb Hq) as (w1 & E1 & Hb1 & Hc1 & [Hl1 Hq1] & _); [lia|done|done|lia|intros; by rewrite Hat|done|].
  rewrite Z.max_l in Hb1 by lia. replace (Z.max 0 (i - n) + 1) with 1 in Hc1 by lia. pose proof Hc1 as (He1 & Hs1 & _).
  destruct (IH (Z.succ i) w1 n f Hb1) as (w2 & E2 & Hb2 & Hc2 & [Hl2 Hq2]); [congruence|lia..|]. exists w2. split_and!.
  - erewrite prog_bind_run; [exact E2|]. by erewrite prog_bind_run by exact Ep.
  - done.
  - replace (Z.of_nat (S k)) with (1 + Z.of_nat k) by lia. by eapply counted_trans; [lia|lia| |].
  - split; congruence.
Qed.

(** Nonces of the epochs up to [e], each once. *)
Definition nonces_upto (e : Z) (l : list bytes) : Prop :=
  NoDup l /\ forall x, x ∈ l -> exists e' s, x = nonce_of e' s /\ 0 <= e' <= e /\ 0 <= s < 2 ^ 48.

Lemma open_run on_foreign w sh n L : faults w = [] -> headed (file w) sh -> 0 <= n <= MAX_BLOCKS -> stored (file w) n (at_ L) -> sh_logical_len sh = blen L -> blen L <= MAX_U48 ->
  0 <= nonce_epoch sh < MAX_U48 -> nonces_upto (nonce_epoch sh) (used w) ->
  exists w', open_file cipher on_foreign w = (Ok tt, w') /\ refines w' L /\ epoch w' = nonce_epoch sh + 1 /\ (legacy sh || reseal_pending sh = false -> seq w' = 1 /\ phys_len w' = phys n).
Proof using AL.
  intros Hq Hhd Hn Hst Hlen Hmax Hep [Hdup Hused]. pose proof Hhd as (Hh52 & _). destruct (read_header_run w sh Hq Hhd) as [Em Eh]. pose proof (blen_nonneg L).
  unfold open_file. erewrite prog_bind_run by (by apply file_len_run).
  erewrite prog_bind_run; [|rewrite (proj2 (Z.eqb_neq _ _)) by (geometry; lia); rewrite (proj2 (Z.leb_le _ _)) by (geometry; lia); erewrite prog_bind_run by (erewrite prog_bind_run by exact Em; reflexivity); rewrite bool_decide_eq_true_2 by done; exact Eh].
  erewrite prog_bind_run; [|unfold epoch_after, checked_add_u64, lift_res; rewrite (proj2 (Z.leb_le _ _)) by (geometry; lia); cbn [mbind option_bind]; rewrite (proj2 (Z.leb_le _ _)) by (geometry; lia); reflexivity].
  erewrite prog_bind_run by (by apply file_len_run). erewrite prog_bind_run by reflexivity. cbv zeta.
  set (w1 := set_counter _ _ _). set (pending := legacy sh || reseal_pending sh).
  assert (Hok1 : nonces_ok w1).
  { constructor; cbn; [geometry; lia|lia| |done]. intros x Hx. destruct (Hused x Hx) as (e & s & -> & ? & ?). exists e, s. split; [done|]. lia. }
  destruct (write_header_run w1 pending) as (hdr & w2 & E2 & Hh2 & Hhd2 & Hf2 & (He2 & Hs2 & Hno2) & [Hl2 Hq2] & Hp2); [done|cbn; lia|cbn; rewrite Hlen; lia|cbn; geometry; lia|].
  cbn in Hhd2, Hf2, He2, Hs2, Hl2, Hq2, Hp2, Hno2. erewrite prog_bind_run by exact E2. erewrite prog_bind_run by (apply sys_run; congruence).
  assert (Hb2 : blocks_ok w2 n (at_ L)).
  { constructor; [done|rewrite Hp2, (st_len _ _ _ Hst); geometry; lia|]. rewrite Hf2. apply stored_header; [done|lia|done]. }
  assert (Hok2 : nonces_ok w2) by (apply Hno2; [done|lia]).
  unfold pending in *. clear pending. destruct (legacy sh || reseal_pending sh).
  - unfold reseal_legacy_blocks. erewrite prog_bind_run by reflexivity. cbv zeta.
    assert (Hcount : saturating_sub_u64 (phys_len w2) HEADER_PHYS / PHYS_BLOCK = n).
    { rewrite (b_phys _ _ _ Hb2). unfold saturating_sub_u64. replace (Z.max (phys n - HEADER_PHYS) 0) with (n * PHYS_BLOCK) by (geometry; lia). apply Z.div_mul. done. }
    rewrite Hcount. unfold range. rewrite Z.sub_0_r.
    destruct (reseal_run (Z.to_nat n) 0 w2 n (at_ L) Hb2) as (w3 & E3 & Hb3 & (He3 & Hs3 & Hno3) & [Hl3 Hq3]); [congruence|lia..|rewrite Hs2; geometry; lia|].
    rewrite Z2Nat.id in E3, Hs3, Hno3 by lia. erewrite prog_bind_run by exact E3.
    destruct (write_header_settles w3 n L Hb3) as (w4 & E4 & Hr4 & He4 & Hs4 & _); [congruence|done|congruence|apply Hno3; [done|rewrite Hs2; geometry; lia]|geometry; lia|].
    erewrite prog_bind_run by exact E4. exists w4. split_and!; [by apply sys_run, rf_quiet with L|done|congruence|done].
  - exists w2. split_and!; [done| |done|intros _; split; [lia|by destruct Hb2]]. constructor; [by exists n|congruence|done| |congruence|done]. rewrite Hf2, He2, <- Hlen. by apply headed_overwrite.
Qed.

Lemma open_fresh_backend on_foreign : let empty_file := mkInner [] [] 0 0 0 0 [] in exists w', open_file cipher on_foreign empty_file = (Ok tt, w') /\ refines w' [] /\ epoch w' = 1 /\ seq w' = 1 /\ phys_len w' = phys 0.
Proof using AL.
  intros w0. set (w1 := set_counter 1 0 (set_phys_len 0 (set_logical_len 0 w0))).
  destruct (write_header_run w1 false) as (hdr & w2 & E2 & Hh2 & Hhd2 & Hf2 & (He2 & Hs2 & Hno2) & [Hl2 Hq2] & Hp2); [done|cbn; lia|cbn; geometry; lia|cbn; geometry; lia|].
  cbn in Hhd2, Hf2, He2, Hs2, Hl2, Hq2, Hp2, Hno2. assert (Hf : file w2 = hdr) by (rewrite Hf2; apply (overwrite_end [] hdr)).
  exists w2. split_and!; [|constructor|done|done|by rewrite Hp2].
  - change (open_file cipher on_foreign w0) with ((write_header cipher false ≫= fun _ => file_sync_data ≫= fun _ => mret tt) w1).
    erewrite prog_bind_run by exact E2. by erewrite prog_bind_run by (by apply sys_run).
  - exists 0. constructor; [unfold MAX_BLOCKS; lia|rewrite Hp2; done|]. rewrite Hf. constructor; [by rewrite Hh2|lia|]. intros pos Hpos. apply at_beyond. rewrite blen_nil. geometry. lia.
  - done.
  - done.
  - rewrite Hf, He2. exact Hhd2.
  - done.
  - apply Hno2; [|lia]. constructor; cbn; [lia|lia|by intros x []%elem_of_nil|constructor].
Qed.

(** ** Histories *)

Inductive Op : Type :=
| Read (off n : Z)
| Write (off : Z) (data : bytes)
| SetLen (n : Z)
| Len
| Sync
(** The process goes away, and another one opens the file. *)
| Reopen.

Inductive Answer : Type := Bytes (b : bytes) | Number (n : Z) | Done.

(** A handle on the file of [w] that has not been opened yet. *)
Definition closed (w : Inner) : Inner := mkInner (file w) (faults w) 0 0 0 0 (used w).

Definition run_op (op : Op) : backend Answer :=
  match op with
  | Read off n => b ← read cipher off n; mret (Bytes b)
  | Write off data => _ ← write cipher off data; mret Done
  | SetLen n => _ ← set_len cipher n; mret Done
  | Len => n ← len; mret (Number n)
  | Sync => _ ← sync_data; mret Done
  | Reopen => _ ← modify closed; _ ← open_file cipher Reject; mret Done
  end.
Definition spec_op (op : Op) (L : bytes) : Answer * bytes :=
  match op with
  | Read off n => (Bytes (spec_read off n L), L)
  | Write off data => (Done, spec_write off data L)
  | SetLen n => (Done, resize n L)
  | Len => (Number (blen L), L)
  | Sync | Reopen => (Done, L)
  end.

Fixpoint run_ops (ops : list Op) : backend (list Answer) :=
  match ops with [] => mret [] | op :: ops => a ← run_op op; l ← run_ops ops; mret (a :: l) end.
Fixpoint spec_ops (ops : list Op) (L : bytes) : list Answer * bytes :=
  match ops with [] => ([], L) | op :: ops => let '(a, L) := spec_op op L in let '(l, L) := spec_ops ops L in (a :: l, L) end.

(** The accesses stay within what the length field can hold. *)
Definition op_ok (op : Op) : Prop :=
  match op with
  | Read off n => 0 <= off /\ 0 <= n /\ off + n <= MAX_U48
  | Write off data => 0 <= off /\ off + blen data <= MAX_U48
  | SetLen n => 0 <= n <= MAX_U48
  | Len | Sync | Reopen => True
  end.

(** The nonces of each opening last, when [s] of the current one are gone and the file has
    [n] blocks: opening the file again starts a new epoch, whose header takes the first. *)
Fixpoint lasts (s n : Z) (ops : list Op) : Prop :=
  match ops with
  | [] => s <= 2 ^ 48
  | Read _ _ :: ops | Len :: ops | Sync :: ops => lasts s n ops
  | Write off data :: ops => lasts (s + write_cost n off data) (grown n off (blen data) 0) ops
  | SetLen len :: ops => lasts (s + 3) (Z.min n (div_ceil len BLOCK_SIZE)) ops
  | Reopen :: ops => s <= 2 ^ 48 /\ lasts 1 n ops
  end.
Fixpoint reopens (ops : list Op) : Z := match ops with [] => 0 | Reopen :: ops => 1 + reopens ops | _ :: ops => reopens ops end.

Lemma lasts_now ops : forall s n, Forall op_ok ops -> lasts s n ops -> s <= 2 ^ 48.
Proof using.
  induction ops as [|op ops IH]; intros s n Hok Hl; [done|]. apply Forall_cons in Hok as [Hop Hok]. destruct op; cbn [lasts op_ok] in *; try (apply (IH _ _ Hok) in Hl; lia); [|by destruct Hl].
  apply (IH _ _ Hok) in Hl. unfold write_cost in Hl. pose proof (drawn_nonneg n off (blen data) ltac:(lia)). lia.
Qed.
Lemma lasts_mono ops : forall s s' n, s' <= s -> lasts s n ops -> lasts s' n ops.
Proof using.
  induction ops as [|op ops IH]; intros s s' n Hs Hl; cbn [lasts] in *; [lia|]. destruct op; try (eapply IH; [|exact Hl]; lia). destruct Hl. split; [lia|done].
Qed.
Lemma reopens_nonneg ops : 0 <= reopens ops.
Proof using. induction ops as [|[] ops IH]; cbn; lia. Qed.

Lemma page_op_refines op ops w L n : refines w L -> phys_len w = phys n -> op_ok op -> Forall op_ok ops -> lasts (seq w) n (op :: ops) -> epoch w + reopens [op] <= MAX_U48 ->
  exists w' n', run_op op w = (Ok (spec_op op L).1, w') /\ refines w' (spec_op op L).2 /\ phys_len w' = phys n' /\ epoch w' = epoch w + reopens [op] /\ lasts (seq w') n' ops.
Proof using AL.
  intros Hr Hn Hop Hok Hs He. destruct op as [off k|off data|k| | |]; cbn [run_op spec_op reopens fst snd op_ok lasts] in *.
  - destruct Hop as (? & ? & ?). exists w, n. erewrite prog_bind_run by (by apply (read_refines w L)). split_and!; [done|done|done|lia|done].
  - destruct Hop as [Ho Hb]. pose proof (lasts_now _ _ _ Hok Hs). destruct (write_refines w L n off data Hr Hn Ho Hb) as (w' & E & Hr' & Hn' & He' & Hs'); [done|]. eexists w', _. erewrite prog_bind_run by exact E. split_and!; [done|done|done|lia|by eapply lasts_mono].
  - pose proof (lasts_now _ _ _ Hok Hs). destruct (set_len_refines w L n k Hr Hn Hop) as (w' & E & Hr' & Hn' & He' & Hs'); [done|]. eexists w', _. erewrite prog_bind_run by exact E. split_and!; [done|done|done|lia|by eapply lasts_mono].
  - exists w, n. erewrite prog_bind_run by reflexivity. rewrite (rf_len _ _ Hr). split_and!; [done|done|done|lia|done].
  - exists w, n. erewrite prog_bind_run by (apply sys_run, (rf_quiet _ _ Hr)). split_and!; [done|done|done|lia|done].
  - destruct (refines_blocks _ _ _ Hr Hn) as [Hn0 _ Hst]. pose proof Hr as [_ Hl Hmax Hhd Hq [He0 Hs0 Hb Hd]].
    destruct (open_run Reject (closed w) (mkStoredHeader (blen L) (epoch w) false false) n L) as (w' & E & Hr' & He' & Hs'); try done; cbn; [geometry; lia| |].
    + split; [done|]. intros x Hx. destruct (Hb x Hx) as (e & s & -> & ? & ? & ?). exists e, s. split; [done|lia].
    + exists w', n. erewrite prog_bind_run by reflexivity. erewrite prog_bind_run by exact E. destruct (Hs' eq_refl) as [-> Hn']. destruct Hs as [_ Hs]. by split_and!.
Qed.

Lemma run_ops_refines ops : forall w L n, refines w L -> phys_len w = phys n -> Forall op_ok ops -> lasts (seq w) n ops -> epoch w + reopens ops <= MAX_U48 ->
  exists w', run_ops ops w = (Ok (spec_ops ops L).1, w') /\ refines w' (spec_ops ops L).2.
Proof using AL.
  induction ops as [|op ops IH]; intros w L n Hr Hn Hok Hs He; [by exists w|]. apply Forall_cons in Hok as [Hop Hok].
  pose proof (reopens_nonneg ops). assert (Hre : reopens (op :: ops) = reopens [op] + reopens ops) by (by destruct op).
  destruct (page_op_refines op ops w L n Hr Hn Hop Hok Hs) as (w1 & n1 & E1 & Hr1 & Hn1 & He1 & Hs1); [lia|]. cbn [run_ops spec_ops]. erewrite prog_bind_run by exact E1.
  destruct (spec_op op L) as [a L1]. cbn [fst snd] in *. destruct (IH w1 L1 n1 Hr1 Hn1 Hok) as (w2 & E2 & Hr2); [done|lia|]. erewrite prog_bind_run by exact E2.
  destruct (spec_ops ops L1) as [l L2]. by exists w2.
Qed.

(** A file just created, and everything that happens to it. *)
Definition history (on_foreign : ForeignFile) (ops : list Op) : result string (list Answer) * Inner :=
  (_ ← open_file cipher on_foreign; run_ops ops) (mkInner [] [] 0 0 0 0 []).

Lemma history_refines on_foreign ops : Forall op_ok ops -> lasts 1 0 ops -> 1 + reopens ops <= MAX_U48 ->
  exists w', history on_foreign ops = (Ok (spec_ops ops []).1, w') /\ refines w' (spec_ops ops []).2.
Proof using AL.
  intros Hok Hs He. destruct (open_fresh_backend on_foreign) as (w & E & Hr & Hep & Hsq & Hn). unfold history. erewrite prog_bind_run by exact E. apply (run_ops_refines ops w [] 0); [done|done|done|by rewrite Hsq|lia].
Qed.

(** C27: the encrypted file is a plain file. From its creation on, whatever is read, written and
    cut, and however often the file is closed and opened again, the backend answers as a
    plain file of the same bytes would; holes read as zeros.  The disk does not fail, no
    access passes 2^48 bytes, no opening needs more than its 2^48 nonces ([lasts]: one for
    every block a write touches or fills a gap with, one for a header, three to change the
    length), and the file is opened less than 2^48 times. *)
Theorem backend_refines_file (on_foreign : ForeignFile) (ops : list Op) : Forall op_ok ops -> lasts 1 0 ops -> 1 + reopens ops <= MAX_U48 ->
  fst (history on_foreign ops) = Ok (spec_ops ops []).1 /\ refines (snd (history on_foreign ops)) (spec_ops ops []).2.
Proof using AL. intros Hok Hs He. by destruct (history_refines on_foreign ops Hok Hs He) as (w' & -> & Hr). Qed.

(** C28: while nonces last, none is used twice under a file key, neither for blocks nor for
    headers, and neither within an opening of the file nor by the openings after it.  That
    is for a file from its creation on, on a disk that does not fail, with accesses below
    2^48 bytes, as long as no single opening needs more than 2^48 nonces ([lasts], as
    above) and the file is opened less than 2^48 times.  Beyond [lasts] it is false:
    [epoch_end_repeats] of EncryptedFileWitness.v. *)
Theorem nonces_never_repeat (on_foreign : ForeignFile) (ops : list Op) : Forall op_ok ops -> lasts 1 0 ops -> 1 + reopens ops <= MAX_U48 ->
  NoDup (used (snd (history on_foreign ops))).
Proof using AL. intros Hok Hs He. destruct (history_refines on_foreign ops Hok Hs He) as (w' & -> & Hr). apply (no_dup _ (rf_nonces _ _ Hr)). Qed.

(** A file of the first format is taken over as it is: opening it keeps its length and its
    bytes and leaves a file of the current format all of whose blocks are sealed under
    counted nonces, also when an earlier attempt broke off half way. *)
Theorem legacy_file_resealed (on_foreign : ForeignFile) (w : Inner) (sh : StoredHeader) (n : Z) (L : bytes) :
  faults w = [] -> headed (file w) sh -> legacy sh = true \/ reseal_pending sh = true -> 0 <= n <= MAX_BLOCKS -> stored (file w) n (at_ L) ->
  sh_logical_len sh = blen L -> blen L <= MAX_U48 -> 0 <= nonce_epoch sh < MAX_U48 -> nonces_upto (nonce_epoch sh) (used w) ->
  exists w', open_file cipher on_foreign w = (Ok tt, w') /\ refines w' L /\ headed (file w') (mkStoredHeader (blen L) (nonce_epoch sh + 1) false false).
Proof using AL.
  intros Hq Hhd _ Hn Hst Hl Hmax Hep Hu. destruct (open_run on_foreign w sh n L Hq Hhd Hn Hst Hl Hmax Hep Hu) as (w' & E & Hr & He & _). exists w'. split_and!; [done|done|].
  rewrite <- He. apply (rf_head _ _ Hr).
Qed.

Lemma stored_truncated c n L m : stored c n (at_ L) -> 0 <= m <= n -> stored (take (Z.to_nat (phys m)) c) m (at_ (resize (blen L) (take (Z.to_nat (m * BLOCK_SIZE)) L))).
Proof using.
  intros [Hl Ho Hz] Hm. assert (Hlen : blen (take (Z.to_nat (phys m)) c) = phys m) by (unfold blen in *; rewrite length_take; geometry; lia).
  assert (Hat : forall pos, 0 <= pos -> at_ (resize (blen L) (take (Z.to_nat (m * BLOCK_SIZE)) L)) pos = if pos <? m * BLOCK_SIZE then at_ L pos else x00).
  { intros pos Hp. rewrite at_resize, at_take by done. rewrite Z2Nat.id by (geometry; lia). destruct (Z.ltb_spec pos (blen L)), (Z.ltb_spec pos (m * BLOCK_SIZE)); try done. by rewrite at_beyond. }
  constructor; [done|intros i Hi|intros pos Hpos; rewrite Hat by (geometry; lia); by rewrite (proj2 (Z.ltb_ge _ _)) by lia].
  destruct (Ho i) as (p & Hop & Hpat); [lia|]. exists p. split.
  - replace (slice (phys i) (phys (i + 1)) (take (Z.to_nat (phys m)) c)) with (slice (phys i) (phys (i + 1)) c); [done|].
    apply at_ext; [rewrite !blen_slice, Hlen; geometry; lia|]. rewrite blen_slice. intros j Hj. rewrite !at_slice, at_take by (geometry; lia). by rewrite (proj2 (Z.ltb_lt _ _)) by (geometry; lia).
  - intros j Hj. rewrite Hat by (geometry; lia). rewrite (proj2 (Z.ltb_lt _ _)) by (geometry; lia). by apply Hpat.
Qed.

(** Cutting blocks off the end of the file is not noticed. The header authenticates the
    length, but nothing compares it with the file: a file whose last blocks are gone opens
    without an error and stands for the same file with zeros in their place. *)
Theorem truncation_unnoticed (w : Inner) (n : Z) (L : bytes) (m : Z) :
  refines w L -> blocks_ok w n (at_ L) -> 0 <= m <= n -> epoch w < MAX_U48 ->
  let cut := closed (set_file (take (Z.to_nat (phys m)) (file w)) w) in
  exists w', open_file cipher Reject cut = (Ok tt, w') /\ refines w' (resize (blen L) (take (Z.to_nat (m * BLOCK_SIZE)) L)).
Proof using AL.
  intros Hr [Hn Hp Hst] Hm He cut. pose proof Hr as [_ Hl Hmax Hhd Hq [He0 Hs0 Hb Hd]]. pose proof (blen_nonneg L).
  destruct (open_run Reject cut (mkStoredHeader (blen L) (epoch w) false false) m (resize (blen L) (take (Z.to_nat (m * BLOCK_SIZE)) L))) as (w' & E & Hr' & _); try done; cbn.
  - eapply headed_ext; [| |exact Hhd]; cbn.
    + unfold blen. rewrite length_take. pose proof (st_len _ _ _ Hst) as Hlen. unfold blen in Hlen. geometry. lia.
    + unfold slice. rewrite take_drop_commute, take_take. rewrite Nat.min_l by (geometry; lia). done.
  - lia.
  - by apply (stored_truncated _ n).
  - by rewrite blen_resize.
  - by rewrite blen_resize.
  - lia.
  - split; [done|]. intros x Hx. destruct (Hb x Hx) as (e & s & -> & ? & ? & ?). exists e, s. split; [done|lia].
  - by exists w'.
Qed.

End spec.
