(* ===== verification/EncryptedFileWitness.v ===== *)
(** * Concrete encrypted files *)

From S2P Require Import Prelude Effects Primitives Sink EncryptedFile EncryptedFileSpec.
Import EncryptedFileBackend.

Module EncryptedFileWitness.
#[local] Existing Instances Toy.aead Toy.aead_laws.

Definition key0 : bytes := replicate 32 x2a.
Definition ops0 : list Op := [SetLen 5000; Write 4090 (as_bytes "hello world"); Reopen; Read 4092 6; SetLen 4093; Len; Read 4091 4].

Lemma page_ops0_ok : Forall op_ok ops0.
Proof. repeat constructor; vm_compute; (discriminate || reflexivity). Qed.

Lemma backend_refines_file_witness :
  fst (history key0 Reject ops0) = Ok [Done; Done; Done; Bytes (as_bytes "llo wo"); Done; Number 4093; Bytes (as_bytes "el" ++ [x00; x00])] /\
  refines key0 (snd (history key0 Reject ops0)) (spec_ops ops0 []).2.
Proof.
  destruct (backend_refines_file key0 Reject ops0) as [Ha Hr]; [exact page_ops0_ok|vm_compute; split; discriminate|vm_compute; discriminate|].
  split; [|exact Hr]. rewrite Ha. vm_compute. reflexivity.
Defined.

Lemma nonces_never_repeat_witness : NoDup (used (snd (history key0 Reject ops0))) /\ length (used (snd (history key0 Reject ops0))) = 7%nat.
Proof.
  split; [|vm_compute; reflexivity]. apply (nonces_never_repeat key0 Reject ops0); [exact page_ops0_ok|vm_compute; split; discriminate|vm_compute; discriminate].
Defined.

(** The end of an epoch. An empty file, two nonces before the last of its epoch: a write
    behind a gap of one block takes both for the blocks, and the header then takes the one
    that the first header had. *)
Definition late : Inner := set_counter 1 (MAX_U48 - 1) (snd (history key0 Reject [])).
Theorem epoch_end_repeats : refines key0 late [] /\ fst (write key0 4096 [x01] late) = Ok tt /\ ~ NoDup (used (snd (write key0 4096 [x01] late))).
Proof.
  split_and!; [|vm_compute; reflexivity|].
  - destruct (history_refines key0 Reject []) as (w & E & [(n & [Hn Hp Hst]) Hl Hm Hh Hq _]); [constructor|vm_compute; discriminate|vm_compute; discriminate|].
    assert (Ew : snd (history key0 Reject []) = w) by (by rewrite E). unfold late. assert (Ee : epoch w = 1) by (rewrite <- Ew; vm_compute; reflexivity). rewrite Ee in Hh. rewrite Ew.
    constructor; [by exists n|done|done|done|done|]. constructor; cbn; [lia|vm_compute; discriminate| |].
    + intros x Hx. rewrite <- Ew in Hx. assert (Eu : used (snd (history key0 Reject [])) = [nonce_of 1 0]) by (vm_compute; reflexivity). rewrite Eu in Hx. apply list_elem_of_singleton in Hx as ->.
      exists 1, 0. split; [done|]. vm_compute. intuition discriminate.
    + rewrite <- Ew. assert (Eu : used (snd (history key0 Reject [])) = [nonce_of 1 0]) by (vm_compute; reflexivity). rewrite Eu. apply NoDup_singleton.
  - assert (Eu : used (snd (write key0 4096 [x01] late)) = [nonce_of 1 0; nonce_of 1 MAX_U48; nonce_of 1 (MAX_U48 - 1); nonce_of 1 0]) by (vm_compute; reflexivity).
    rewrite Eu. intros [Hin _]%NoDup_cons. apply Hin. by do 2 right; left.
Qed.

(** A file of the first format: version 1, one block, random nonces. *)
Definition legacy_plain : bytes := to_be_bytes 4 1 ++ to_be_bytes 4 4096 ++ to_be_bytes 8 4096.
Definition block1 : bytes := replicate 4096 x07.
Definition legacy_bytes : bytes :=
  MAGIC ++ replicate 12 x55 ++ default [] (aead_encrypt key0 (replicate 12 x55) MAGIC legacy_plain)
  ++ replicate 12 x66 ++ default [] (aead_encrypt key0 (replicate 12 x66) (to_be_bytes 8 0) block1).
Definition legacy_inner : Inner := mkInner legacy_bytes [] 0 0 0 0 [].

Lemma legacy_stored : stored key0 legacy_bytes 1 (at_ block1).
Proof.
  constructor; [vm_compute; reflexivity| |].
  - intros i Hi. assert (i = 0) as -> by lia. exists block1. split; [|done]. split_and!; vm_compute; reflexivity.
  - intros pos Hpos. apply at_beyond. exact Hpos.
Qed.

Lemma legacy_file_resealed_witness : exists w', open_file key0 Reject legacy_inner = (Ok tt, w') /\ refines key0 w' block1 /\
  headed key0 (file w') (mkStoredHeader 4096 1 false false).
Proof.
  apply (legacy_file_resealed key0 Reject legacy_inner (mkStoredHeader 4096 0 true false) 1 block1).
  - reflexivity.
  - split; [vm_compute; discriminate|]. split; [vm_compute; reflexivity|]. exists legacy_plain. split; vm_compute; reflexivity.
  - by left.
  - vm_compute. split; discriminate.
  - exact legacy_stored.
  - reflexivity.
  - vm_compute. discriminate.
  - vm_compute. split; [discriminate|reflexivity].
  - split; [constructor|by intros x []%elem_of_nil].
Defined.

Definition ops1 : list Op := [Write 0 (replicate 4096 x01 ++ replicate 4096 x02)].
Definition w1 : Inner := snd (history key0 Reject ops1).
Lemma truncation_unnoticed_witness :
  let cut := closed (set_file (take (Z.to_nat (phys 1)) (file w1)) w1) in
  exists w', open_file key0 Reject cut = (Ok tt, w') /\ refines key0 w' (replicate 4096 x01 ++ replicate 4096 x00).
Proof.
  assert (Hok : Forall op_ok ops1) by (repeat constructor; vm_compute; discriminate).
  destruct (history_refines key0 Reject ops1 Hok) as (w & E & Hr); [vm_compute; discriminate..|].
  assert (Ew : w1 = w) by (unfold w1; by rewrite E). rewrite <- Ew in Hr. clear E Ew.
  assert (El : (spec_ops ops1 []).2 = replicate 4096 x01 ++ replicate 4096 x02) by (vm_compute; reflexivity). rewrite El in Hr.
  destruct (rf_blocks _ _ _ Hr) as (n & Hb). assert (Hn : n = 2).
  { pose proof (b_phys _ _ _ _ Hb) as Hp. assert (Ep : phys_len w1 = phys 2) by (vm_compute; reflexivity). rewrite Ep in Hp. geometry. lia. }
  subst n. destruct (truncation_unnoticed key0 w1 2 (replicate 4096 x01 ++ replicate 4096 x02) 1 Hr Hb) as (w' & E & Hr'); [lia|vm_compute; reflexivity|].
  exists w'. split; [exact E|].
  assert (Et : resize (blen (replicate 4096 x01 ++ replicate 4096 x02)) (take (Z.to_nat (1 * BLOCK_SIZE)) (replicate 4096 x01 ++ replicate 4096 x02)) = replicate 4096 x01 ++ replicate 4096 x00) by (vm_compute; reflexivity).
  rewrite <- Et. exact Hr'.
Defined.

End EncryptedFileWitness.
