(* ===== verification/EncryptSession.v ===== *)
(** * The streaming encryptor

    Models [EncryptSession] of y2q-core/src/crypto/envelope.rs (the version-4 writer)
    over any sink that satisfies [SinkLaws].  The main results: on a fault-free sink the
    session always completes and the file holds exactly the abstract envelope of the
    concatenated input, padded to its Padme length, however the input was split into
    [feed] calls; and the reader of Envelope.v gives the input back. *)

From S2P Require Import Prelude Primitives Crypto Envelope Sink.

Section session.
Context {A : AeadOps} {K : KemOps} {H : HkdfOps} {X : Xxh3Ops} {B : Base64Ops} {R : RngOps}.
Context {Snk : Type} {SO : SinkOps Snk}.

(** The cipher of the source is an AES-256 key schedule: here, the key. *)
Record EncryptSession : Type := mkSession {
  sink : Snk;
  cipher : bytes;
  nonce_base : bytes;
  chunk_idx : Z;
  staging : bytes;
  pending : option bytes;
  plaintext_total : Z;
  aad_base : bytes;
  bytes_written : Z;
  write_offset : Z;
  chunk_size : Z;
  key_epoch : Z;
  cipher_hasher : checksum.StreamChecksum;
}.

Definition with_buffers (s : EncryptSession) (st : bytes) (p : option bytes) : EncryptSession :=
  mkSession (sink s) (cipher s) (nonce_base s) (chunk_idx s) st p (plaintext_total s) (aad_base s)
    (bytes_written s) (write_offset s) (chunk_size s) (key_epoch s) (cipher_hasher s).

Definition session_new (snk : Snk) (pk_bytes : bytes) (ep : Z) (bucket key : string) (woff cs : Z) (r : rng)
  : result CryptoError (EncryptSession * rng) :=
  if (cs =? 0) || (u32_max <? cs) then Err (Envelope "invalid chunk_size") else
  pk ← kem.PublicKey_from_bytes pk_bytes;
  let '((ss, kem_ct_bytes), r) := kem.encapsulate pk r in
  let '(nb, r) := fill_bytes r 12 in
  let header := MAGIC_V3 ++ to_be_bytes 2 FORMAT_VER_V4 ++ to_be_bytes 1 KEM_ALG_MLKEM768 ++
    to_be_bytes 1 AEAD_ALG_AES256GCM ++ to_be_bytes 4 ep ++ nb ++ to_be_bytes 8 0 ++ to_be_bytes 4 cs in
  snk ← map_err (fun _ => Aead "write header") (write_all snk header);
  snk ← map_err (fun _ => Aead "write kem ct") (write_all snk kem_ct_bytes);
  key_bytes ← derive_content_key ss kem_ct_bytes bucket key;
  Ok (mkSession snk key_bytes nb 0 [] None 0 (build_v3_aad header)
        (blen header + blen kem_ct_bytes) woff cs ep
        (checksum.update (checksum.update checksum.new header) kem_ct_bytes), r).

Definition flush_raw (s : EncryptSession) (data : bytes) (is_final : bool)
  : result CryptoError EncryptSession :=
  let chunk_nonce_bytes := chunk_nonce (nonce_base s) (chunk_idx s) in
  let aad := build_v4_aad (aad_base s) is_final in
  ct ← ok_or (aead_encrypt (cipher s) chunk_nonce_bytes aad data) (Aead "encrypt chunk");
  snk ← map_err (fun _ => Aead "write chunk") (write_all (sink s) ct);
  Ok (mkSession snk (cipher s) (nonce_base s) (wrap64 (chunk_idx s + 1)) (staging s) (pending s)
        (wrap64 (plaintext_total s + blen data)) (aad_base s) (wrap64 (bytes_written s + blen ct))
        (write_offset s) (chunk_size s) (key_epoch s) (checksum.update (cipher_hasher s) ct)).

Definition promote_staging (s : EncryptSession) : result CryptoError EncryptSession :=
  s ← match pending s with
      | Some prev => flush_raw (with_buffers s (staging s) None) prev false
      | None => Ok s
      end;
  Ok (with_buffers s [] (Some (staging s))).

(** One turn of the buffering loops: append [add] to the staging buffer, promote it when
    it is full. *)
Definition stage (s : EncryptSession) (add : bytes) : result CryptoError EncryptSession :=
  let s := with_buffers s (staging s ++ add) (pending s) in
  if blen (staging s) =? chunk_size s then promote_staging s else Ok s.

Fixpoint feed_loop (fuel : nat) (s : EncryptSession) (remaining : bytes)
  : result CryptoError EncryptSession :=
  if bool_decide (remaining = []) then Ok s else
  match fuel with
  | O => Err (Envelope "out of fuel")
  | S fuel =>
      let space := chunk_size s - blen (staging s) in
      let n := Z.to_nat (Z.min (blen remaining) space) in
      s ← stage s (take n remaining);
      feed_loop fuel s (drop n remaining)
  end.

Definition feed (s : EncryptSession) (data : bytes) : result CryptoError EncryptSession :=
  feed_loop (length data) s data.

(** The padding loop of [session_finish]; [staging.resize(len + take, 0)] appends zeros. *)
Fixpoint pad_loop (fuel : nat) (s : EncryptSession) (pad_remaining : Z)
  : result CryptoError EncryptSession :=
  if pad_remaining <=? 0 then Ok s else
  match fuel with
  | O => Err (Envelope "out of fuel")
  | S fuel =>
      let space := chunk_size s - blen (staging s) in
      let n := Z.min space pad_remaining in
      s ← stage s (replicate (Z.to_nat n) x00);
      pad_loop fuel s (pad_remaining - n)
  end.

(** The last chunk: the tail if there is one, else the held-back chunk. *)
Definition flush_last (s : EncryptSession) : result CryptoError EncryptSession :=
  if negb (bool_decide (staging s = [])) then
    let tail := staging s in
    s ← match pending s with
        | Some prev => flush_raw (with_buffers s (staging s) None) prev false
        | None => Ok s
        end;
    flush_raw (with_buffers s [] (pending s)) tail true
  else
    match pending s with
    | Some prev => flush_raw (with_buffers s (staging s) None) prev true
    | None => Ok s
    end.

Definition already_absorbed (s : EncryptSession) : Z :=
  wrap64 (wrap64 (plaintext_total s + default 0 (blen <$> pending s)) + blen (staging s)).

Definition session_finish (s : EncryptSession) : result CryptoError (Snk * EnvelopeInfo) :=
  let target := padme_len (already_absorbed s) in
  let pad_remaining := wrap64 (target - already_absorbed s) in
  s ← pad_loop (Z.to_nat pad_remaining) s pad_remaining;
  s ← flush_last s;
  snk ← map_err (fun _ => Aead "write plaintext_len")
          (write_all_at (sink s) (to_be_bytes 8 (plaintext_total s))
             (wrap64 (write_offset s + V3_PLAINTEXT_LEN_OFFSET)));
  '(_, snk) ← map_err (fun _ => Aead "seek end") (seek_to_end snk);
  Ok (snk, mkEnvelopeInfo FORMAT_VER_V4 KEM_ALG_NAME AEAD_ALG_NAME (bytes_written s)
             (checksum.finish_b64 (cipher_hasher s)) (key_epoch s)).

(** A whole upload: open a session, feed the pieces in order, finish. *)
Fixpoint feed_all (s : EncryptSession) (pieces : list bytes) : result CryptoError EncryptSession :=
  match pieces with
  | [] => Ok s
  | p :: rest => s ← feed s p; feed_all s rest
  end.

Definition encrypt_pieces (snk : Snk) (pk_bytes : bytes) (ep : Z) (bucket key : string)
    (woff cs : Z) (pieces : list bytes) (r : rng) : result CryptoError (Snk * EnvelopeInfo) :=
  '(s, _) ← session_new snk pk_bytes ep bucket key woff cs r;
  s ← feed_all s pieces;
  session_finish s.

End session.
#[global] Arguments EncryptSession {_} Snk.

(** ** The session invariant *)

Ltac cbn_session := cbn [sink cipher nonce_base chunk_idx staging pending plaintext_total aad_base bytes_written write_offset chunk_size key_epoch cipher_hasher with_buffers].

Section invariant.
Context {A : AeadOps} {K : KemOps} {H : HkdfOps} {X : Xxh3Ops} {B : Base64Ops} {R : RngOps}.
Context {Snk : Type} {SO : SinkOps Snk} {SL : SinkLaws Snk}.
Context {AL : AeadLaws} {XL : Xxh3Laws}.

(** What stays fixed during a session: the content key, the header fields, the bytes
    before the envelope and the KEM ciphertext. *)
Record Params : Type := mkParams {
  p_key : bytes; p_ep : Z; p_nb : bytes; p_cs : Z; p_pre : bytes; p_kem_ct : bytes }.

Definition params_ok (P : Params) : Prop :=
  env_params_ok (p_ep P) (p_nb P) (p_cs P) (p_kem_ct P).

(** The preamble as first written, with the length placeholder. *)
Definition preamble (P : Params) : bytes :=
  env_header FORMAT_VER_V4 (p_ep P) (p_nb P) 0 (p_cs P) ++ p_kem_ct P.

Definition p_aad (P : Params) : bytes := env_aad FORMAT_VER_V4 (p_ep P) (p_nb P) (p_cs P).

(** The chunks [L] have been sealed, in order, into the file; the counters and the
    running checksum agree with it. *)
Record flushed (P : Params) (total : Z) (L : list bytes) (body : bytes) (s : EncryptSession Snk)
  : Prop := mkFlushed {
  fl_params : params_ok P;
  fl_cipher : cipher s = p_key P;
  fl_nonce : nonce_base s = p_nb P;
  fl_epoch : key_epoch s = p_ep P;
  fl_cs : chunk_size s = p_cs P;
  fl_aad : aad_base s = p_aad P;
  fl_offset : write_offset s = blen (p_pre P);
  fl_wf : sink_wf (sink s);
  fl_sealed : seal_chunks (p_key P) (p_nb P) (p_aad P) total 0 L = Some body;
  fl_file : sink_file (sink s) = p_pre P ++ preamble P ++ body;
  fl_cursor : sink_cursor (sink s) = blen (sink_file (sink s));
  fl_max : blen (sink_file (sink s)) <= FILE_MAX;
  fl_total : plaintext_total s = blen (concat L);
  fl_written : bytes_written s = v3_preamble_len + blen body;
  fl_idx : chunk_idx s = blen L;
  fl_hash : cipher_hasher s = checksum.update checksum.new (preamble P ++ body);
}.

Lemma blen_pre_amble P : params_ok P -> blen (preamble P) = 1124.
Proof. intros Hok. unfold preamble. rewrite (blen_preamble _ _ _ _ _ Hok). reflexivity. Qed.

Lemma flushed_len P total L body s :
  flushed P total L body s ->
  blen (sink_file (sink s)) = blen (p_pre P) + 1124 + blen (concat L) + 16 * blen L.
Proof.
  intros F. rewrite (fl_file _ _ _ _ _ F), !blen_app, blen_pre_amble by apply F.
  pose proof (seal_chunks_len _ _ _ _ _ _ _ (fl_sealed _ _ _ _ _ F)). lia.
Qed.

Lemma flushed_buffers P total L body s st p :
  flushed P total L body s -> flushed P total L body (with_buffers s st p).
Proof. intros []. by constructor. Qed.

(** Only the position of the final chunk distinguishes two totals. *)
Lemma seal_chunks_total_irrel k nb ab t t' idx L :
  idx + blen L < t -> (t' <= idx \/ idx + blen L < t') ->
  seal_chunks k nb ab t idx L = seal_chunks k nb ab t' idx L.
Proof.
  revert idx. induction L as [|c L IH]; intros idx Ht Ht'; [done|].
  rewrite blen_cons in *. pose proof (blen_nonneg L). cbn [seal_chunks].
  rewrite (proj2 (Z.eqb_neq (idx + 1) t)), (proj2 (Z.eqb_neq (idx + 1) t')) by lia.
  by rewrite (IH (idx + 1)) by lia.
Qed.

Lemma flushed_total P L body s t :
  flushed P 0 L body s -> blen L < t -> flushed P t L body s.
Proof.
  intros F Ht. destruct F. constructor; try done.
  rewrite (seal_chunks_total_irrel _ _ _ t 0) by lia. done.
Qed.

Lemma seal_chunks_snoc k nb ab total idx L body c ct :
  seal_chunks k nb ab total idx L = Some body ->
  aead_encrypt k (chunk_nonce nb (idx + blen L)) (build_v4_aad ab (idx + blen L + 1 =? total)) c = Some ct ->
  seal_chunks k nb ab total idx (L ++ [c]) = Some (body ++ ct).
Proof.
  revert idx body. induction L as [|d L IH]; intros idx body Hs Hc; cbn in *.
  - simplify_eq. rewrite blen_nil, Z.add_0_r in Hc. rewrite Hc. cbn. by rewrite app_nil_r.
  - destruct (aead_encrypt k _ _ d) as [e|]; cbn in *; [|done].
    destruct (seal_chunks _ _ _ _ _ L) as [r|] eqn:Er; cbn in *; simplify_eq.
    rewrite blen_cons in Hc. replace (idx + (1 + blen L)) with (idx + 1 + blen L) in Hc by lia.
    rewrite (IH _ _ Er Hc). cbn. by rewrite app_assoc.
Qed.

Lemma flush_raw_sound P total L body s data fin s' :
  flushed P total L body s -> fin = (blen L + 1 =? total) ->
  flush_raw s data fin = Ok s' ->
  exists ct, flushed P total (L ++ [data]) (body ++ ct) s' /\
    staging s' = staging s /\ pending s' = pending s.
Proof.
  intros F Hfin Hr. unfold flush_raw in Hr. cbv zeta in Hr.
  apply bind_Ok_inv in Hr as (ct & Hct & Hr). apply bind_Ok_inv in Hr as (snk & Hw & Hr).
  destruct (aead_encrypt _ _ _ _) as [ct'|] eqn:Ec; cbn in Hct; simplify_eq.
  destruct (write_all (sink s) ct) as [snk'|] eqn:Ew; cbn in Hw; simplify_eq.
  pose proof (flushed_len _ _ _ _ _ F) as Hlen. destruct F.
  destruct (write_all_spec _ _ _ fl_wf0 Ew) as (Hwf & Hfile & Hcur & Hmax).
  pose proof (aead_encrypt_len _ _ _ _ _ Ec) as Hl. pose proof (blen_nonneg data).
  assert (Hne : ct <> []) by (intros ->; rewrite blen_nil in Hl; lia).
  specialize (Hmax Hne). rewrite fl_cursor0, overwrite_end in Hfile.
  rewrite fl_cipher0, fl_nonce0, fl_aad0, fl_idx0 in Ec.
  pose proof (blen_nonneg (concat L)). pose proof (blen_nonneg L). pose proof (blen_nonneg (p_pre P)).
  unfold FILE_MAX in *. rewrite fl_file0, !blen_app in Hlen. rewrite (blen_pre_amble P) in Hlen by done.
  assert (Hcur' : sink_cursor snk = blen (sink_file snk)).
  { rewrite Hcur, Hfile, blen_app. lia. }
  rewrite fl_file0 in Hfile, fl_max0. rewrite !blen_app, (blen_pre_amble P) in fl_max0 by done.
  exists ct. split; [|done].
  constructor; cbn_session; try done.
  - by apply seal_chunks_snoc.
  - rewrite Hfile. by rewrite <- !app_assoc.
  - unfold FILE_MAX. lia.
  - rewrite concat_app, !blen_app, fl_total0. cbn [concat]. rewrite app_nil_r.
    apply wrap64_small. rewrite Hcur', Hfile, !blen_app, (blen_pre_amble P) in Hmax by done. lia.
  - rewrite fl_written0, blen_app. change v3_preamble_len with 1124.
    rewrite wrap64_small; [lia|]. rewrite Hcur', Hfile, !blen_app, (blen_pre_amble P) in Hmax by done.
    pose proof (blen_nonneg body). lia.
  - rewrite fl_idx0, blen_app, blen_cons, blen_nil. apply wrap64_small. lia.
  - rewrite fl_hash0, checksum.update_app. by rewrite <- !app_assoc.
Qed.

Lemma flush_raw_total P total L body s data fin :
  flushed P total L body s -> sink_healthy (sink s) -> blen data <= AEAD_P_MAX ->
  blen (sink_file (sink s)) + blen data + 16 <= FILE_MAX ->
  exists s', flush_raw s data fin = Ok s' /\ sink_healthy (sink s').
Proof.
  intros F Hh Hd Hmax. unfold flush_raw. cbv zeta.
  destruct (aead_encrypt_total (cipher s) (chunk_nonce (nonce_base s) (chunk_idx s))
    (build_v4_aad (aad_base s) fin) data Hd) as [ct Ec].
  rewrite Ec. cbn [ok_or mbind result_bind]. apply aead_encrypt_len in Ec.
  destruct (write_all_healthy (sink s) ct) as (snk & -> & ?); try apply F; try done.
  { rewrite (fl_cursor _ _ _ _ _ F). lia. }
  cbn. eauto.
Qed.

(** The flush of the held-back chunk that [promote_staging] and [session_finish] share. *)
Abbreviation flush_pending s :=
  (match pending s with
   | Some prev => flush_raw (with_buffers s (staging s) None) prev false
   | None => Ok s
   end).

Lemma flush_pending_sound P total L body s s' :
  flushed P total L body s -> (pending s <> None -> (blen L + 1 =? total) = false) ->
  flush_pending s = Ok s' ->
  exists body', flushed P total (L ++ option_list (pending s)) body' s' /\
    staging s' = staging s /\ pending s' = None.
Proof.
  intros F Ht E. destruct (pending s) as [p|] eqn:Ep.
  - apply (flush_raw_sound P total L body) in E as (ct & F' & Hs & Hp);
      [eauto|by apply flushed_buffers|by rewrite Ht].
  - simplify_eq. cbn. rewrite app_nil_r. eauto.
Qed.

(** Everything fed so far, [T]: flushed chunks, the held-back chunk, the staging buffer. *)
Definition absorbed (P : Params) (s : EncryptSession Snk) (T : bytes) : Prop := exists L body,
  flushed P 0 L body s /\ Forall (fun c => blen c = p_cs P) L /\
  (pending s = None -> L = []) /\ (forall p, pending s = Some p -> blen p = p_cs P) /\
  blen (staging s) < p_cs P /\ T = concat L ++ default [] (pending s) ++ staging s.

(** Space for [n] bytes of plaintext even if every chunk held a single byte. *)
Definition room (P : Params) (n : Z) : Prop := blen (p_pre P) + 1124 + 17 * n <= FILE_MAX.

Lemma full_chunks_count cs L :
  0 < cs -> Forall (fun c : bytes => blen c = cs) L -> blen L <= blen (concat L).
Proof.
  intros Hcs. induction 1 as [|c L Hc HL IH]; [done|].
  cbn [concat]. rewrite blen_cons, blen_app. lia.
Qed.

Lemma flush_pending_total P total L body s :
  flushed P total L body s -> sink_healthy (sink s) ->
  Forall (fun c => blen c = p_cs P) L -> (forall p, pending s = Some p -> blen p = p_cs P) ->
  room P (blen (concat L ++ default [] (pending s))) ->
  exists s', flush_pending s = Ok s' /\ sink_healthy (sink s').
Proof.
  intros F Hh HL Hp Hroom. destruct (pending s) as [p|] eqn:Ep; [|eauto].
  pose proof (fl_params _ _ _ _ _ F) as (_ & _ & Hcs & _).
  pose proof (full_chunks_count _ _ (proj1 Hcs) HL). specialize (Hp _ eq_refl).
  cbn in Hroom. unfold room in Hroom. rewrite blen_app in Hroom.
  apply (flush_raw_total P total L body); [by apply flushed_buffers|done|..].
  - unfold AEAD_P_MAX. lia.
  - cbn_session. rewrite (flushed_len _ _ _ _ _ F). lia.
Qed.

Lemma stage_sound P s T add s' :
  absorbed P s T -> blen (staging s) + blen add <= p_cs P ->
  stage s add = Ok s' -> absorbed P s' (T ++ add).
Proof.
  intros (L & body & F & HL & Hn & Hp & Hst & ->) Hadd E. unfold stage in E. cbv zeta in E.
  cbn [staging chunk_size with_buffers] in E. rewrite (fl_cs _ _ _ _ _ F), blen_app in E.
  apply (flushed_buffers _ _ _ _ _ (staging s ++ add) (pending s)) in F.
  destruct (Z.eqb_spec (blen (staging s) + blen add) (p_cs P)) as [Hfull|Hpart].
  - apply bind_Ok_inv in E as (s1 & E & Hs'). simplify_eq.
    apply (flush_pending_sound P 0 L body) in E as (body' & F' & Hs & Hp'); [|done|].
    2: { intros _. apply Z.eqb_neq. pose proof (blen_nonneg L). lia. }
    cbn [pending staging with_buffers] in F', Hs.
    exists (L ++ option_list (pending s)), body'. rewrite Hs.
    split_and!; cbn [pending staging with_buffers].
    + by apply flushed_buffers.
    + apply Forall_app. split; [done|]. destruct (pending s); cbn; auto.
    + done.
    + intros p [= <-]. by rewrite blen_app.
    + rewrite blen_nil. pose proof (fl_params _ _ _ _ _ F). unfold params_ok, env_params_ok in *. lia.
    + rewrite concat_app, app_nil_r, <- !app_assoc. f_equal.
      destruct (pending s); cbn; by rewrite ?app_nil_r.
  - simplify_eq. exists L, body. split_and!; cbn [pending staging with_buffers]; try done.
    + rewrite blen_app. lia.
    + by rewrite <- !app_assoc.
Qed.

Lemma stage_total P s T add :
  absorbed P s T -> sink_healthy (sink s) -> room P (blen T) ->
  exists s', stage s add = Ok s' /\ sink_healthy (sink s').
Proof.
  intros (L & body & F & HL & Hn & Hp & Hst & ->) Hh Hroom. unfold stage. cbv zeta.
  case_match; [|eauto].
  apply (flushed_buffers _ _ _ _ _ (staging s ++ add) (pending s)) in F.
  destruct (flush_pending_total P 0 L body _ F) as (s1 & E & Hh1); try done.
  { cbn_session. unfold room in *. rewrite !blen_app in *. pose proof (blen_nonneg (staging s)). lia. }
  unfold promote_staging. rewrite E. cbn. eauto.
Qed.

Lemma feed_loop_sound P fuel : forall s T remaining s',
  absorbed P s T -> feed_loop fuel s remaining = Ok s' -> absorbed P s' (T ++ remaining).
Proof.
  induction fuel as [|fuel IH]; intros s T remaining s' Habs E; cbn [feed_loop] in E;
    case_bool_decide as Hr; simplify_eq; rewrite ?app_nil_r; try done.
  apply bind_Ok_inv in E as (s1 & E & E').
  pose proof Habs as (L & body & F & _ & _ & _ & Hst & _). rewrite (fl_cs _ _ _ _ _ F) in *.
  set (n := Z.to_nat (Z.min (blen remaining) (p_cs P - blen (staging s)))) in *.
  apply (stage_sound P s T) in E; [|done|].
  - apply IH with (T := T ++ take n remaining) in E'; [|done].
    by rewrite <- app_assoc, take_drop in E'.
  - unfold blen in *. rewrite length_take. lia.
Qed.

Lemma feed_loop_total P fuel : forall s T remaining,
  absorbed P s T -> sink_healthy (sink s) -> (length remaining <= fuel)%nat ->
  room P (blen (T ++ remaining)) ->
  exists s', feed_loop fuel s remaining = Ok s' /\ sink_healthy (sink s').
Proof.
  induction fuel as [|fuel IH]; intros s T remaining Habs Hh Hf Hroom; cbn [feed_loop];
    case_bool_decide as Hr; try (by eauto).
  { destruct remaining; cbn in Hf; [done|lia]. }
  pose proof Habs as (L & body & F & _ & _ & _ & Hst & _). rewrite (fl_cs _ _ _ _ _ F).
  set (n := Z.to_nat (Z.min (blen remaining) (p_cs P - blen (staging s)))).
  assert (Hr0 : 0 < blen remaining).
  { destruct remaining as [|b l]; [done|]. rewrite blen_cons. pose proof (blen_nonneg l). lia. }
  assert (Hn : (0 < n)%nat) by (unfold n; lia).
  destruct (stage_total P s T (take n remaining)) as (s1 & E & Hh1); try done.
  { unfold room in *. rewrite blen_app in Hroom. pose proof (blen_nonneg remaining). lia. }
  rewrite E. cbn [mbind result_bind].
  apply (IH s1 (T ++ take n remaining)); try done.
  - apply (stage_sound P s T) in E; [done|done|]. unfold blen in Hst |- *. rewrite length_take. unfold n, blen. lia.
  - rewrite length_drop. lia.
  - by rewrite <- app_assoc, take_drop.
Qed.

(** Padding is feeding zeros. *)
Lemma pad_loop_feed P fuel : forall s T n,
  absorbed P s T -> (n <= fuel)%nat ->
  pad_loop fuel s (Z.of_nat n) = feed_loop fuel s (replicate n x00).
Proof.
  induction fuel as [|fuel IH]; intros s T n Habs Hn; cbn [pad_loop feed_loop].
  { by replace n with 0%nat by lia. }
  destruct n as [|n]; [done|]. set (m := S n) in *.
  rewrite (proj2 (Z.leb_gt _ _)), bool_decide_eq_false_2 by (done || lia).
  pose proof Habs as (L & body & F & _ & _ & _ & Hst & _). rewrite (fl_cs _ _ _ _ _ F).
  rewrite (Z.min_comm (blen _)), blen_replicate.
  set (z := Z.min (p_cs P - blen (staging s)) (Z.of_nat m)).
  assert (Hz : 0 < z <= Z.of_nat m) by lia.
  assert (Ht : take (Z.to_nat z) (replicate m x00) = replicate (Z.to_nat z) x00).
  { rewrite take_replicate. f_equal. lia. }
  rewrite Ht. destruct (stage s _) as [s1|e] eqn:E; [|done]. cbn [mbind result_bind].
  rewrite drop_replicate. replace (Z.of_nat m - z) with (Z.of_nat (m - Z.to_nat z)) by lia.
  apply (stage_sound P s T) in E; [|done|rewrite blen_replicate; lia].
  eapply IH; [done|lia].
Qed.

Lemma absorbed_count P s T :
  absorbed P s T -> already_absorbed s = blen T /\ blen T <= FILE_MAX + 2 ^ 33.
Proof.
  intros (L & body & F & HL & Hn & Hp & Hst & ->). unfold already_absorbed.
  pose proof (flushed_len _ _ _ _ _ F) as Hlen. pose proof (fl_max _ _ _ _ _ F) as Hmax.
  pose proof (fl_params _ _ _ _ _ F) as (_ & _ & Hcs & _).
  rewrite (fl_total _ _ _ _ _ F), !blen_app.
  assert (Hpend : default 0 (blen <$> pending s) = blen (default [] (pending s))) by (by destruct (pending s)).
  assert (Hpl : blen (default [] (pending s)) <= p_cs P).
  { destruct (pending s) eqn:E; cbn; [rewrite (Hp _ eq_refl); lia | rewrite blen_nil; lia]. }
  rewrite Hpend. pose proof (blen_nonneg (concat L)). pose proof (blen_nonneg L).
  pose proof (blen_nonneg (p_pre P)). pose proof (blen_nonneg (default [] (pending s))).
  pose proof (blen_nonneg (staging s)). unfold FILE_MAX in *.
  rewrite (wrap64_small (blen (concat L) + _)) by lia. rewrite wrap64_small by lia. lia.
Qed.

(** The chunk list of a finished object. *)
Definition tail_chunks (s : EncryptSession Snk) : list bytes :=
  option_list (pending s) ++ (if bool_decide (staging s = []) then [] else [staging s]).

Lemma full_then_tail_chunked cs L c :
  Forall (fun c : bytes => blen c = cs) L -> 0 < blen c <= cs -> chunked cs (L ++ [c]).
Proof.
  induction 1 as [|d L Hd HL IH]; intros Hc; cbn.
  - by apply chunked_last.
  - specialize (IH Hc). destruct (L ++ [c]) as [|e r] eqn:E; [by destruct L|].
    by apply chunked_cons.
Qed.

Lemma tail_chunks_chunked P L s :
  0 < p_cs P -> Forall (fun c => blen c = p_cs P) L -> (pending s = None -> L = []) ->
  (forall p, pending s = Some p -> blen p = p_cs P) -> blen (staging s) < p_cs P ->
  chunked (p_cs P) (L ++ tail_chunks s) /\
  concat (L ++ tail_chunks s) = concat L ++ default [] (pending s) ++ staging s.
Proof.
  intros Hcs HL Hn Hp Hst. unfold tail_chunks. split.
  - case_bool_decide as Hs.
    + destruct (pending s) as [p|]; cbn.
      * apply full_then_tail_chunked; [done|]. rewrite (Hp p eq_refl). lia.
      * rewrite Hn by done. constructor.
    + rewrite app_assoc. apply full_then_tail_chunked.
      * apply Forall_app. split; [done|]. destruct (pending s); cbn; auto.
      * destruct (staging s) as [|b l]; [done|]. rewrite blen_cons in *. pose proof (blen_nonneg l). lia.
  - rewrite !concat_app. f_equal. f_equal.
    + destruct (pending s); cbn; by rewrite ?app_nil_r.
    + case_bool_decide as Hs; [by rewrite Hs|]. cbn. by rewrite app_nil_r.
Qed.

Lemma flush_last_sound P s T s' :
  absorbed P s T -> flush_last s = Ok s' ->
  exists chunks body, chunked (p_cs P) chunks /\ concat chunks = T /\
    flushed P (blen chunks) chunks body s'.
Proof.
  intros (L & body & F & HL & Hn & Hp & Hst & ->) E.
  pose proof (fl_params _ _ _ _ _ F) as (_ & _ & Hcs & _).
  destruct (tail_chunks_chunked P L s (proj1 Hcs) HL Hn Hp Hst) as [Hch Hcat].
  exists (L ++ tail_chunks s). unfold flush_last in E. unfold tail_chunks in *.
  case_bool_decide as Hs; cbn [negb] in E.
  - rewrite app_nil_r in *. destruct (pending s) as [p|] eqn:Ep.
    + cbn [option_list] in *. apply (flush_raw_sound P (blen (L ++ [p])) L body) in E as (ct & F' & _).
      * eauto.
      * apply flushed_buffers, flushed_total; [done|]. rewrite blen_app, blen_cons, blen_nil. lia.
      * rewrite blen_app, blen_cons, blen_nil. symmetry. apply Z.eqb_eq. lia.
    + cbn [option_list] in *. rewrite (Hn eq_refl) in *. simplify_eq. exists body. split_and!; done.
  - rewrite app_assoc in *. apply bind_Ok_inv in E as (s1 & E1 & E).
    set (L1 := L ++ option_list (pending s)) in *.
    assert (Ht : blen (L1 ++ [staging s]) = blen L1 + 1) by (rewrite blen_app, blen_cons, blen_nil; lia).
    assert (HL1 : blen L <= blen L1) by (unfold L1; rewrite blen_app; pose proof (blen_nonneg (option_list (pending s))); lia).
    apply (flush_pending_sound P (blen L1 + 1) L body) in E1 as (body1 & F1 & Hs1 & Hp1).
    + apply (flush_raw_sound P (blen L1 + 1) L1 body1) in E as (ct & F' & _).
      * rewrite Ht. eauto.
      * by apply flushed_buffers.
      * symmetry. by apply Z.eqb_eq.
    + apply flushed_total; [done|lia].
    + intros Hpn. apply Z.eqb_neq. unfold L1. destruct (pending s) as [l|]; [|done].
      change (option_list (Some l)) with [l]. rewrite blen_app, blen_cons, blen_nil. lia.
Qed.

Lemma chunked_count cs chunks : 0 < cs -> chunked cs chunks -> blen chunks <= blen (concat chunks).
Proof.
  intros Hcs. induction 1; cbn [concat] in *; autorewrite with blen in *; lia.
Qed.

Lemma flush_last_total P s T :
  absorbed P s T -> sink_healthy (sink s) -> room P (blen T) ->
  exists s', flush_last s = Ok s' /\ sink_healthy (sink s').
Proof.
  intros (L & body & F & HL & Hn & Hp & Hst & ->) Hh Hroom. unfold room in Hroom. rewrite !blen_app in Hroom.
  pose proof (fl_params _ _ _ _ _ F) as (_ & _ & Hcs & _).
  pose proof (full_chunks_count _ _ (proj1 Hcs) HL) as Hcnt.
  pose proof (blen_nonneg (staging s)). unfold flush_last. case_bool_decide as Hs; cbn [negb].
  - destruct (pending s) as [p|] eqn:Ep; [|eauto]. pose proof (Hp _ eq_refl). cbn [default] in Hroom.
    apply (flush_raw_total P 0 L body); [by apply flushed_buffers|done|..].
    + unfold AEAD_P_MAX. lia.
    + cbn_session. rewrite (flushed_len _ _ _ _ _ F). cbn in Hroom. lia.
  - destruct (flush_pending_total P 0 L body s) as (s1 & E & Hh1); try done.
    { unfold room. rewrite blen_app. lia. }
    rewrite E. cbn [mbind result_bind].
    apply (flush_pending_sound P 0 L body) in E as (body1 & F1 & Hs1 & _); [|done|].
    2: { intros _. apply Z.eqb_neq. pose proof (blen_nonneg L). lia. }
    apply (flush_raw_total P 0 (L ++ option_list (pending s)) body1); [by apply flushed_buffers|done|..].
    + unfold AEAD_P_MAX. lia.
    + cbn_session. rewrite (flushed_len _ _ _ _ _ F1).
      assert (0 < blen (staging s)).
      { destruct (staging s) as [|b l]; [done|]. rewrite blen_cons. pose proof (blen_nonneg l). lia. }
      rewrite concat_app, !blen_app. destruct (pending s) as [p|] eqn:Ep; cbn in *.
      * rewrite (Hp _ eq_refl) in *. rewrite app_nil_r, blen_cons, blen_nil.
        rewrite (Hp _ eq_refl). lia.
      * rewrite !blen_nil in *. change (blen (@nil bytes)) with 0. lia.
Qed.

(** The envelope the file holds after [session_finish], for the plaintext [T]. *)
Definition padded (T : bytes) : bytes :=
  T ++ replicate (Z.to_nat (padme_len (blen T) - blen T)) x00.

Lemma patch_header P body n :
  params_ok P ->
  overwrite (p_pre P ++ preamble P ++ body) (blen (p_pre P) + V3_PLAINTEXT_LEN_OFFSET) (to_be_bytes 8 n) =
  p_pre P ++ envelope_of (p_ep P) (p_nb P) (p_cs P) n (p_kem_ct P) body.
Proof.
  intros (_ & Hnb & _ & _). unfold preamble, envelope_of, env_header.
  set (a := p_pre P ++ MAGIC_V3 ++ to_be_bytes 2 FORMAT_VER_V4 ++ [x01] ++ [x01] ++
            to_be_bytes 4 (p_ep P) ++ p_nb P).
  replace (blen (p_pre P) + V3_PLAINTEXT_LEN_OFFSET) with (blen a)
    by (unfold a, V3_PLAINTEXT_LEN_OFFSET; blen_lia).
  set (z := to_be_bytes 4 (p_cs P) ++ p_kem_ct P ++ body).
  transitivity (overwrite (a ++ to_be_bytes 8 0 ++ z) (blen a) (to_be_bytes 8 n)).
  { f_equal. unfold a, z. by rewrite <- !app_assoc. }
  rewrite overwrite_middle by (by rewrite !length_to_be_bytes).
  unfold a, z. by rewrite <- !app_assoc.
Qed.

Lemma pad_amount P s T :
  absorbed P s T ->
  wrap64 (padme_len (already_absorbed s) - already_absorbed s) =
    Z.of_nat (Z.to_nat (padme_len (blen T) - blen T)) /\ blen T <= padme_len (blen T) <= u64_max.
Proof.
  intros Habs. apply absorbed_count in Habs as [-> Hmax]. unfold FILE_MAX in *.
  pose proof (blen_nonneg T). destruct (padme_len_facts (blen T)) as [[Hlo Hhi] _]; [lia|].
  unfold u64_max in *. rewrite wrap64_small by lia. lia.
Qed.

Lemma pad_loop_eq P s T :
  absorbed P s T ->
  let n := wrap64 (padme_len (already_absorbed s) - already_absorbed s) in
  pad_loop (Z.to_nat n) s n =
    feed_loop (Z.to_nat (padme_len (blen T) - blen T)) s
      (replicate (Z.to_nat (padme_len (blen T) - blen T)) x00).
Proof.
  intros Habs n. destruct (pad_amount P s T Habs) as [Hn _]. unfold n. rewrite Hn, Nat2Z.id.
  by apply (pad_loop_feed P _ s T).
Qed.

Lemma blen_padded P s T : absorbed P s T -> blen (padded T) = padme_len (blen T).
Proof.
  intros Habs. destruct (pad_amount P s T Habs) as [_ ?]. unfold padded.
  rewrite blen_app, blen_replicate. lia.
Qed.

(** What a finished session leaves behind. *)
Record finished (P : Params) (T : bytes) (snk : Snk) (info : EnvelopeInfo) : Prop := mkFinished {
  fin_body : exists chunks body,
    sealed_body (p_key P) (p_ep P) (p_nb P) (p_cs P) chunks body /\ concat chunks = padded T /\
    sink_file snk = p_pre P ++
      envelope_of (p_ep P) (p_nb P) (p_cs P) (padme_len (blen T)) (p_kem_ct P) body /\
    info = mkEnvelopeInfo FORMAT_VER_V4 KEM_ALG_NAME AEAD_ALG_NAME
      (blen (envelope_of (p_ep P) (p_nb P) (p_cs P) (padme_len (blen T)) (p_kem_ct P) body))
      (checksum.checksum_b64 (envelope_of (p_ep P) (p_nb P) (p_cs P) 0 (p_kem_ct P) body)) (p_ep P);
  fin_len : blen (padded T) = padme_len (blen T) /\ padme_len (blen T) <= u64_max;
  fin_cursor : sink_cursor snk = blen (sink_file snk);
  fin_wf : sink_wf snk;
  fin_max : blen (sink_file snk) <= FILE_MAX;
}.

Lemma finish_sound P s T snk info :
  absorbed P s T -> session_finish s = Ok (snk, info) -> finished P T snk info.
Proof.
  intros Habs E. unfold session_finish in E. cbv zeta in E. rewrite (pad_loop_eq P s T Habs) in E.
  pose proof (blen_padded P s T Habs) as Hpad. pose proof (pad_amount P s T Habs) as [_ Hpm].
  apply bind_Ok_inv in E as (s1 & E1 & E). apply (feed_loop_sound P _ s T) in E1; [|done].
  fold (padded T) in E1.
  apply bind_Ok_inv in E as (s2 & E2 & E). apply (flush_last_sound P _ _ _ E1) in E2
    as (chunks & body & Hch & Hcat & F).
  apply bind_Ok_inv in E as (snk1 & E3 & E). apply bind_Ok_inv in E as ([n snk2] & E4 & E). simplify_eq.
  destruct (write_all_at _ _ _) as [snk1'|] eqn:Ew; cbn in E3; simplify_eq.
  destruct (seek_to_end snk1) as [[n' snk']|] eqn:Es; cbn in E4; simplify_eq.
  pose proof (flushed_len _ _ _ _ _ F) as Hlen. pose proof F as [Hok ? ? Hep ? ? Hoff Hwf Hs Hfile ? Hmax Htot Hwr ? Hh].
  pose proof (blen_nonneg (concat chunks)). pose proof (blen_nonneg chunks). pose proof (blen_nonneg (p_pre P)).
  unfold FILE_MAX, V3_PLAINTEXT_LEN_OFFSET in *. rewrite Hoff, wrap64_small in Ew by lia.
  apply write_all_at_spec in Ew as (Hwf1 & Hf1 & _); [|done|lia|].
  2: { intros Hz. apply (f_equal length) in Hz. by rewrite length_to_be_bytes in Hz. }
  rewrite Hfile, (patch_header P body) in Hf1 by done.
  apply seek_to_end_spec in Es as (Hwf2 & Hf2 & _ & Hcur); [|done].
  rewrite <- Hf2 in Hcur. rewrite Hf1, Htot, Hcat, Hpad in Hf2.
  constructor; [|split; [done|lia]|done|done|].
  2: { rewrite Hf2, blen_app, blen_envelope_of by done. apply seal_chunks_len in Hs.
       unfold FILE_MAX in *. lia. }
  exists chunks, body. split_and!; try done.
  - unfold sealed_body. split_and!; try done. lia.
  - rewrite Hep, Hwr, Hh, blen_envelope_of by done. f_equal. unfold checksum.checksum_b64.
    do 2 f_equal. unfold preamble, envelope_of. by rewrite <- app_assoc.
Qed.

Lemma finish_total P s T :
  absorbed P s T -> sink_healthy (sink s) -> room P (padme_len (blen T)) ->
  exists snk info, session_finish s = Ok (snk, info) /\ sink_healthy snk.
Proof.
  intros Habs Hh Hroom. unfold session_finish. cbv zeta. rewrite (pad_loop_eq P s T Habs).
  pose proof (blen_padded P s T Habs) as Hpad.
  destruct (feed_loop_total P (Z.to_nat (padme_len (blen T) - blen T)) s T
    (replicate (Z.to_nat (padme_len (blen T) - blen T)) x00)) as (s1 & E1 & Hh1); try done.
  { by rewrite length_replicate. }
  { fold (padded T). by rewrite Hpad. }
  rewrite E1. cbn [mbind result_bind]. apply (feed_loop_sound P _ s T) in E1; [|done].
  fold (padded T) in E1.
  destruct (flush_last_total P s1 _ E1) as (s2 & E2 & Hh2); [done|by rewrite Hpad|].
  rewrite E2. cbn [mbind result_bind].
  apply (flush_last_sound P _ _ _ E1) in E2 as (chunks & body & Hch & Hcat & F).
  pose proof (flushed_len _ _ _ _ _ F) as Hlen. pose proof (fl_max _ _ _ _ _ F) as Hmax.
  pose proof (blen_nonneg (concat chunks)). pose proof (blen_nonneg chunks). pose proof (blen_nonneg (p_pre P)).
  unfold FILE_MAX, V3_PLAINTEXT_LEN_OFFSET in *.
  rewrite (fl_offset _ _ _ _ _ F), wrap64_small by lia.
  destruct (write_all_at_healthy (sink s2) (to_be_bytes 8 (plaintext_total s2)) (blen (p_pre P) + 24))
    as (snk1 & Ew & Hh3); [apply F|done|lia| |].
  { rewrite blen_to_be_bytes. unfold FILE_MAX. lia. }
  rewrite Ew. cbn [map_err mbind result_bind].
  apply write_all_at_spec in Ew as (Hwf1 & _); [|apply F|lia|].
  2: { intros Hz. apply (f_equal length) in Hz. by rewrite length_to_be_bytes in Hz. }
  destruct (seek_to_end_healthy snk1 Hwf1 Hh3) as (n & snk2 & -> & Hh4). cbn. eauto.
Qed.

Lemma feed_all_sound P pieces : forall s T s',
  absorbed P s T -> feed_all s pieces = Ok s' -> absorbed P s' (T ++ concat pieces).
Proof.
  induction pieces as [|p pieces IH]; intros s T s' Habs E; cbn [feed_all concat] in *.
  - simplify_eq. by rewrite app_nil_r.
  - apply bind_Ok_inv in E as (s1 & E1 & E). apply (feed_loop_sound P _ s T) in E1; [|done].
    rewrite app_assoc. by apply (IH s1).
Qed.

Lemma feed_all_total P pieces : forall s T,
  absorbed P s T -> sink_healthy (sink s) -> room P (blen (T ++ concat pieces)) ->
  exists s', feed_all s pieces = Ok s' /\ sink_healthy (sink s').
Proof.
  induction pieces as [|p pieces IH]; intros s T Habs Hh Hroom; cbn [feed_all concat] in *; [eauto|].
  rewrite app_assoc in Hroom. unfold feed.
  destruct (feed_loop_total P (length p) s T p) as (s1 & E1 & Hh1); try done.
  { unfold room in *. rewrite blen_app in Hroom. pose proof (blen_nonneg (concat pieces)). lia. }
  rewrite E1. cbn [mbind result_bind]. apply (feed_loop_sound P _ s T) in E1; [|done]. by apply (IH s1 (T ++ p)).
Qed.

Lemma chunked_concat_pos cs c rest : 0 < cs -> chunked cs (c :: rest) -> 0 < blen (concat (c :: rest)).
Proof.
  intros Hcs Hch. pose proof (chunked_head_len _ _ _ Hcs Hch). cbn [concat]. rewrite blen_app.
  pose proof (blen_nonneg (concat rest)). lia.
Qed.

(** A byte string has one division into chunks. *)
Lemma chunked_unique cs l : 0 < cs -> chunked cs l ->
  forall l', chunked cs l' -> concat l = concat l' -> l = l'.
Proof.
  intros Hcs. induction 1 as [|c Hc|c d rest Hc Hch IH]; intros l' Hl' E.
  - destruct l' as [|c' r']; [done|]. pose proof (chunked_concat_pos _ _ _ Hcs Hl') as Hp.
    rewrite <- E in Hp. done.
  - inversion Hl' as [|c' Hc'|c' d' r' Hc' Hch']; subst; cbn [concat] in E.
    + apply (f_equal blen) in E. autorewrite with blen in E. lia.
    + by rewrite !app_nil_r in E; subst.
    + pose proof (chunked_concat_pos _ _ _ Hcs Hch') as Hp. cbn [concat] in Hp.
      apply (f_equal blen) in E. rewrite app_nil_r, (blen_app c') in E. lia.
  - pose proof (chunked_concat_pos _ _ _ Hcs Hch) as Hp. cbn [concat] in Hp.
    inversion Hl' as [|c' Hc'|c' d' r' Hc' Hch']; subst; cbn [concat] in E.
    + apply (f_equal blen) in E. rewrite (blen_app c), blen_nil in E. pose proof (blen_nonneg c). lia.
    + apply (f_equal blen) in E. rewrite app_nil_r, (blen_app c) in E. lia.
    + apply app_inj_1 in E as [-> E]; [|unfold blen in *; lia].
      f_equal. by apply IH.
Qed.

Lemma finished_det P T snk1 info1 snk2 info2 :
  0 < p_cs P -> finished P T snk1 info1 -> finished P T snk2 info2 ->
  sink_file snk1 = sink_file snk2 /\ info1 = info2.
Proof.
  intros Hcs [(c1 & b1 & (Hch1 & _ & Hs1) & Hc1 & -> & ->) _ _ _ _]
    [(c2 & b2 & (Hch2 & _ & Hs2) & Hc2 & -> & ->) _ _ _ _].
  assert (c1 = c2) as -> by (apply (chunked_unique (p_cs P)); congruence).
  by simplify_eq.
Qed.

End invariant.

(** ** Whole uploads *)

Section uploads.
Context {A : AeadOps} {K : KemOps} {H : HkdfOps} {X : Xxh3Ops} {B : Base64Ops} {R : RngOps}.
Context {Snk : Type} {SO : SinkOps Snk} {SL : SinkLaws Snk}.
Context {AL : AeadLaws} {KL : KemLaws} {HL : HkdfLaws} {XL : Xxh3Laws} {RL : RngLaws}.

(** The sink stands at the end of whatever precedes the envelope. *)
Definition sink_at_end (snk : Snk) (woff : Z) : Prop :=
  sink_wf snk /\ sink_cursor snk = blen (sink_file snk) /\ woff = blen (sink_file snk).

(** What [session_new] draws: the KEM ciphertext and shared secret, and the nonce base. *)
Lemma derive_content_key_total ss ct bucket key : exists k, derive_content_key ss ct bucket key = Ok k.
Proof.
  unfold derive_content_key.
  destruct (hkdf_expand_total ct ss (content_key_info bucket key) 32) as (out & -> & _); [lia|]. eauto.
Qed.

Lemma header_is_env ep nb cs :
  MAGIC_V3 ++ to_be_bytes 2 FORMAT_VER_V4 ++ to_be_bytes 1 KEM_ALG_MLKEM768 ++
    to_be_bytes 1 AEAD_ALG_AES256GCM ++ to_be_bytes 4 ep ++ nb ++ to_be_bytes 8 0 ++ to_be_bytes 4 cs =
  env_header FORMAT_VER_V4 ep nb 0 cs.
Proof. done. Qed.

(** Either [session_new] fails on a sink write or it opens a session on the envelope's preamble;
    without faults it opens one. *)
Definition opens_session (dk : Dk) (snk : Snk) (ep : Z) (bucket key : string) (cs : Z)
    (s : EncryptSession Snk) : Prop := exists P,
  absorbed P s [] /\ p_pre P = sink_file snk /\ p_ep P = ep /\ p_cs P = cs /\
  recover_content_key (seal.sk_bytes_of dk) (p_kem_ct P) bucket key = Ok (p_key P).

Lemma new_spec dk snk ep bucket key woff cs r :
  in_u 32 ep -> 0 < cs <= u32_max -> sink_at_end snk woff ->
  match session_new snk (seal.pk_bytes_of dk) ep bucket key woff cs r with
  | Ok (s, _) => opens_session dk snk ep bucket key cs s
  | Err e => e = Aead "write header" \/ e = Aead "write kem ct"
  end /\
  (sink_healthy snk -> woff + 1124 <= FILE_MAX ->
   exists s r', session_new snk (seal.pk_bytes_of dk) ep bucket key woff cs r = Ok (s, r') /\
     sink_healthy (sink s)).
Proof.
  intros Hep Hcs (Hwf & Hcur & Hoff). unfold session_new, u32_max in *.
  rewrite (proj2 (Z.eqb_neq cs 0)), (proj2 (Z.ltb_ge _ _)) by lia. cbn [orb].
  rewrite seal.PublicKey_from_bytes_of. cbn [mbind result_bind]. unfold kem.encapsulate.
  destruct (fill_bytes r 32) as [m r1].
  pose proof (ml_kem_correct dk m) as Hkem. pose proof (ml_kem_ct_len (dk_encapsulation_key dk) m) as Hct.
  destruct (ek_encapsulate (dk_encapsulation_key dk) m) as [ct ss]. cbn [fst snd] in *.
  pose proof (fill_bytes_len r1 12) as Hnb. destruct (fill_bytes r1 12) as [nb r2]. cbn [fst] in Hnb.
  assert (Hnb' : blen nb = 12) by (unfold blen; lia). cbv zeta. rewrite header_is_env.
  set (hd := env_header FORMAT_VER_V4 ep nb 0 cs).
  assert (Hhd : blen hd = 36) by (by apply blen_env_header).
  destruct (derive_content_key_total ss ct bucket key) as [k Hk].
  set (P := mkParams k ep nb cs (sink_file snk) ct).
  assert (HP : params_ok P) by (unfold params_ok, env_params_ok; cbn; split_and!; done || lia).
  destruct (write_all snk hd) as [snk1|] eqn:E1; cbn [map_err mbind result_bind].
  2: { split; [by left|]. intros Hh Hl. destruct (write_all_healthy snk hd) as (? & ? & _); try done; [lia|congruence]. }
  destruct (write_all_spec _ _ _ Hwf E1) as (Hwf1 & Hf1 & Hc1 & Hm1).
  rewrite Hcur, overwrite_end in Hf1. rewrite Hcur in Hc1.
  assert (Hh1 : sink_healthy snk -> woff + 1124 <= FILE_MAX -> sink_healthy snk1).
  { intros Hh Hl. destruct (write_all_healthy snk hd) as (? & ? & ?); try done; [lia|congruence]. }
  destruct (write_all snk1 ct) as [snk2|] eqn:E2; cbn [map_err mbind result_bind].
  2: { split; [by right|]. intros Hh Hl.
       destruct (write_all_healthy snk1 ct) as (? & ? & _); try done; [by apply Hh1|lia|congruence]. }
  destruct (write_all_spec _ _ _ Hwf1 E2) as (Hwf2 & Hf2 & Hc2 & Hm2).
  replace (sink_cursor snk1) with (blen (sink_file snk1)) in Hf2, Hc2 by (rewrite Hf1, blen_app; lia).
  rewrite overwrite_end in Hf2. rewrite Hk. cbn [mbind result_bind]. split.
  - exists P. unfold recover_content_key. cbn [p_kem_ct p_key p_pre p_ep p_cs P].
    rewrite seal.SecretKey_from_bytes_of. cbn [mbind result_bind].
    unfold kem.ciphertext_from_bytes, kem.decapsulate. rewrite Hct. cbn [Z.eqb negb kem.CIPHERTEXT_BYTES Pos.eqb mbind result_bind].
    rewrite Hkem. split_and!; try done.
    exists [], []. split; [|split_and!; try done; cbn_session; rewrite ?blen_nil; cbn [p_cs P]; lia].
    constructor; cbn_session; try done.
    + rewrite <- (app_nil_r hd). unfold hd. by rewrite build_v3_aad_env.
    + rewrite Hf2, Hf1, app_nil_r, <- app_assoc. done.
    + rewrite Hc2, Hf2, blen_app. done.
    + rewrite Hf2, blen_app. rewrite Hc2 in Hm2. apply Hm2. intros ->. by rewrite blen_nil in Hct.
    + rewrite Hhd. done.
    + rewrite app_nil_r. apply checksum.update_app.
  - intros Hh Hl. eexists _, _. split; [done|]. cbn_session.
    destruct (write_all_healthy snk1 ct) as (? & ? & ?); try done; [by apply Hh1| |congruence].
    rewrite Hf1, blen_app in Hc2. lia.
Qed.

(** The parameters of the session [encrypt_pieces] runs. *)
Definition upload_params (dk : Dk) (snk : Snk) (ep : Z) (bucket key : string) (cs : Z) (P : Params) : Prop :=
  params_ok P /\ p_pre P = sink_file snk /\ p_ep P = ep /\ p_cs P = cs /\
  recover_content_key (seal.sk_bytes_of dk) (p_kem_ct P) bucket key = Ok (p_key P).

Lemma upload_finished dk snk ep bucket key woff cs pieces r snk' info :
  in_u 32 ep -> 0 < cs <= u32_max -> sink_at_end snk woff ->
  encrypt_pieces snk (seal.pk_bytes_of dk) ep bucket key woff cs pieces r = Ok (snk', info) ->
  exists P, upload_params dk snk ep bucket key cs P /\ finished P (concat pieces) snk' info.
Proof.
  intros Hep Hcs Hat E. unfold encrypt_pieces in E.
  destruct (new_spec dk snk ep bucket key woff cs r Hep Hcs Hat) as [Hn _].
  apply bind_Ok_inv in E as ([s r'] & En & E). rewrite En in Hn.
  destruct Hn as (P & Habs & Hpre & Hpe & Hpc & Hrec).
  apply bind_Ok_inv in E as (s1 & Ef & E). exists P. split.
  - destruct Habs as (L & body & F & _). split_and!; try done. apply F.
  - apply (feed_all_sound P _ s []) in Ef; [|done]. by apply (finish_sound P s1).
Qed.

Lemma upload_total dk snk ep bucket key woff cs pieces r :
  in_u 32 ep -> 0 < cs <= u32_max -> sink_at_end snk woff -> sink_healthy snk ->
  woff + 1124 + 20 * blen (concat pieces) <= FILE_MAX ->
  exists snk' info,
    encrypt_pieces snk (seal.pk_bytes_of dk) ep bucket key woff cs pieces r = Ok (snk', info).
Proof.
  intros Hep Hcs Hat Hh Hroom. unfold encrypt_pieces.
  pose proof (blen_nonneg (concat pieces)) as Hnn.
  destruct (new_spec dk snk ep bucket key woff cs r Hep Hcs Hat) as [Hn Ht].
  destruct (Ht Hh) as (s & r' & En & Hhs); [lia|]. rewrite En in *. cbn [mbind result_bind].
  destruct Hn as (P & Habs & Hpre & Hpe & Hpc & Hrec). destruct Hat as (_ & _ & Hoff).
  pose proof (blen_nonneg (sink_file snk)). unfold FILE_MAX in *.
  destruct (padme_len_facts (blen (concat pieces))) as [[Hlo _] Hhi]; [lia|].
  assert (Hroom' : room P (padme_len (blen (concat pieces)))) by (unfold room, FILE_MAX; rewrite Hpre; lia).
  destruct (feed_all_total P pieces s []) as (s1 & Ef & Hh1); try done.
  { cbn [app]. unfold room in *. lia. }
  rewrite Ef. cbn [mbind result_bind]. apply (feed_all_sound P _ s []) in Ef; [|done].
  destruct (finish_total P s1 (concat pieces)) as (snk' & info & E & _); eauto.
Qed.

(** The plaintext of a finished upload reads back. *)
Lemma finished_decrypts dk snk ep bucket key cs P T snk' info :
  upload_params dk snk ep bucket key cs P -> finished P T snk' info ->
  exists env, sink_file snk' = sink_file snk ++ env /\ cipher_size info = blen env /\
    ei_key_epoch info = ep /\
    decrypt (seal.sk_bytes_of dk) env bucket key (blen T) = Ok T.
Proof.
  intros (Hok & Hpre & Hpe & Hpc & Hrec) [(chunks & body & Hs & Hcat & Hfile & ->) [Hpl Hmax] _ _ _].
  eexists. rewrite Hfile, Hpre. split_and!; try done. pose proof (blen_nonneg (padded T)) as Hnn.
  rewrite (decrypt_envelope _ _ _ _ _ (p_key P) chunks); [|done|unfold in_u, u64_max in *; lia|done|done].
  rewrite Hcat, Hpl, Z.eqb_refl. cbn [negb]. unfold finish_plaintext, padded.
  pose proof (blen_nonneg T). rewrite (proj2 (Z.ltb_ge _ _)).
  2: { rewrite blen_app. pose proof (blen_nonneg (replicate (Z.to_nat (padme_len (blen T) - blen T)) x00)). lia. }
  f_equal. unfold blen. rewrite Nat2Z.id. apply take_app_length.
Qed.

(** An upload to a fault-free sink always completes, and reading the stored
    envelope back under the matching secret key, the same address and the recorded size
    returns exactly the bytes that were fed, in order, for every chunk size, every
    split of the input into [feed] calls and every prefix already in the file. *)
Theorem upload_roundtrip (dk : Dk) (snk : Snk) (ep : Z) (bucket key : string) (woff cs : Z)
    (pieces : list bytes) (r : rng) :
  in_u 32 ep -> 0 < cs <= u32_max -> sink_at_end snk woff -> sink_healthy snk ->
  woff + 1124 + 20 * blen (concat pieces) <= FILE_MAX ->
  exists snk' info env,
    encrypt_pieces snk (seal.pk_bytes_of dk) ep bucket key woff cs pieces r = Ok (snk', info) /\
    sink_file snk' = sink_file snk ++ env /\ cipher_size info = blen env /\ ei_key_epoch info = ep /\
    decrypt (seal.sk_bytes_of dk) env bucket key (blen (concat pieces)) = Ok (concat pieces).
Proof.
  intros Hep Hcs Hat Hh Hroom.
  destruct (upload_total dk snk ep bucket key woff cs pieces r) as (snk' & info & E); try done.
  destruct (upload_finished _ _ _ _ _ _ _ _ _ _ _ Hep Hcs Hat E) as (P & HP & Hfin).
  destruct (finished_decrypts _ _ _ _ _ _ _ _ _ _ HP Hfin) as (env & ? & ? & ? & ?). eauto 10.
Qed.

(** An upload that reports success has written a complete, readable object,
    whatever I/O faults the sink produced on the way: a failed write is never
    swallowed. *)
Theorem upload_success_is_complete (dk : Dk) (snk : Snk) (ep : Z) (bucket key : string) (woff cs : Z)
    (pieces : list bytes) (r : rng) (snk' : Snk) (info : EnvelopeInfo) :
  in_u 32 ep -> 0 < cs <= u32_max -> sink_at_end snk woff ->
  encrypt_pieces snk (seal.pk_bytes_of dk) ep bucket key woff cs pieces r = Ok (snk', info) ->
  sink_cursor snk' = blen (sink_file snk') /\
  exists env, sink_file snk' = sink_file snk ++ env /\ cipher_size info = blen env /\
    ei_key_epoch info = ep /\
    decrypt (seal.sk_bytes_of dk) env bucket key (blen (concat pieces)) = Ok (concat pieces).
Proof.
  intros Hep Hcs Hat E.
  destruct (upload_finished _ _ _ _ _ _ _ _ _ _ _ Hep Hcs Hat E) as (P & HP & Hfin).
  split; [apply Hfin|]. by apply (finished_decrypts dk snk ep bucket key cs P).
Qed.

(** The checksum an upload reports is that of its envelope with the plaintext-length
    field still zero, because the running hash is fed the placeholder header and not
    the patch: for a non-empty object it is not the checksum of the stored bytes. *)
Theorem upload_checksum_of_placeholder (dk : Dk) (snk : Snk) (ep : Z) (bucket key : string)
    (woff cs : Z) (pieces : list bytes) (r : rng) (snk' : Snk) (info : EnvelopeInfo) :
  in_u 32 ep -> 0 < cs <= u32_max -> sink_at_end snk woff ->
  encrypt_pieces snk (seal.pk_bytes_of dk) ep bucket key woff cs pieces r = Ok (snk', info) ->
  exists a z, sink_file snk' = sink_file snk ++ a ++ to_be_bytes 8 (padme_len (blen (concat pieces))) ++ z /\
    blen a = 24 /\
    cipher_checksum_b64 info = checksum.checksum_b64 (a ++ to_be_bytes 8 0 ++ z).
Proof.
  intros Hep Hcs Hat E.
  destruct (upload_finished _ _ _ _ _ _ _ _ _ _ _ Hep Hcs Hat E) as (P & (Hok & Hpre & _) & Hfin).
  destruct Hfin as [(chunks & body & _ & _ & Hfile & ->) _ _ _ _].
  exists (MAGIC_V3 ++ to_be_bytes 2 FORMAT_VER_V4 ++ [x01] ++ [x01] ++ to_be_bytes 4 (p_ep P) ++ p_nb P),
    (to_be_bytes 4 (p_cs P) ++ p_kem_ct P ++ body).
  destruct Hok as (_ & Hnb & _). split_and!.
  - rewrite Hfile, Hpre. unfold envelope_of, env_header. by rewrite <- !app_assoc.
  - blen_lia.
  - cbn [cipher_checksum_b64]. f_equal. unfold envelope_of, env_header. by rewrite <- !app_assoc.
Qed.

(** How the network splits an upload does not matter: two fault-free uploads of the
    same bytes with the same randomness leave the same file and report the same
    envelope, whatever the pieces were. *)
Theorem upload_fragmentation_irrelevant (dk : Dk) (snk : Snk) (ep : Z) (bucket key : string)
    (woff cs : Z) (pieces pieces' : list bytes) (r : rng) :
  in_u 32 ep -> 0 < cs <= u32_max -> sink_at_end snk woff -> sink_healthy snk ->
  woff + 1124 + 20 * blen (concat pieces) <= FILE_MAX -> concat pieces = concat pieces' ->
  exists snk1 snk2 info,
    encrypt_pieces snk (seal.pk_bytes_of dk) ep bucket key woff cs pieces r = Ok (snk1, info) /\
    encrypt_pieces snk (seal.pk_bytes_of dk) ep bucket key woff cs pieces' r = Ok (snk2, info) /\
    sink_file snk1 = sink_file snk2.
Proof.
  intros Hep Hcs Hat Hh Hroom Heq.
  destruct (upload_total dk snk ep bucket key woff cs pieces r) as (snk1 & info1 & E1); try done.
  destruct (upload_total dk snk ep bucket key woff cs pieces' r) as (snk2 & info2 & E2); try done;
    [by rewrite <- Heq|].
  exists snk1, snk2, info1. rewrite E1, E2.
  destruct (new_spec dk snk ep bucket key woff cs r Hep Hcs Hat) as [Hn _].
  unfold encrypt_pieces in E1, E2.
  apply bind_Ok_inv in E1 as ([s r'] & En & E1). rewrite En in E2, Hn. cbn [mbind result_bind] in E2.
  destruct Hn as (P & Habs & _ & _ & Hpc & _).
  apply bind_Ok_inv in E1 as (s1 & Ef1 & E1). apply bind_Ok_inv in E2 as (s2 & Ef2 & E2).
  apply (feed_all_sound P _ s []) in Ef1, Ef2; try done. cbn [app] in *. rewrite <- Heq in Ef2.
  apply (finish_sound P _ (concat pieces)) in E1, E2; try done.
  destruct (finished_det P (concat pieces) snk1 info1 snk2 info2) as [-> ->]; [lia|done|done|done].
Qed.

End uploads.

Module EncryptWitness.
#[local] Existing Instances Toy.aead Toy.kem Toy.hkdf Toy.xxh3_ops Toy.base64 Toy.rng_ops
  Toy.aead_laws Toy.kem_laws Toy.hkdf_laws Toy.xxh3_laws Toy.rng_laws.

(** A container file whose 64-byte header placeholder has been written. *)
Definition w_sink : StreamingSink := Uring (uring_new (mkDisk (replicate 64 x00) []) 64).
Definition w_pieces : list bytes := [[x61; x62; x63]; []; [x64; x65; x66; x67; x68]; [x69]].
Definition w_pieces' : list bytes := [[x61]; [x62; x63; x64; x65; x66; x67; x68; x69]].

Lemma w_at_end : sink_at_end w_sink 64.
Proof. split; [split|split]; vm_compute; first [reflexivity | discriminate]. Qed.

Lemma upload_roundtrip_witness :
  exists snk' info env,
    encrypt_pieces w_sink (seal.pk_bytes_of (tt : @Dk Toy.kem)) 7 "b" "k" 64 4 w_pieces (0 : @rng Toy.rng_ops)
      = Ok (snk', info) /\
    sink_file snk' = sink_file w_sink ++ env /\ cipher_size info = blen env /\ ei_key_epoch info = 7 /\
    decrypt (seal.sk_bytes_of (tt : @Dk Toy.kem)) env "b" "k" (blen (concat w_pieces)) = Ok (concat w_pieces).
Proof.
  apply (upload_roundtrip (tt : @Dk Toy.kem) w_sink 7 "b" "k" 64 4 w_pieces (0 : @rng Toy.rng_ops)).
  - done.
  - done.
  - apply w_at_end.
  - done.
  - vm_compute. discriminate.
Defined.

Definition w_upload :=
  encrypt_pieces w_sink (seal.pk_bytes_of (tt : @Dk Toy.kem)) 7 "b" "k" 64 4 w_pieces (0 : @rng Toy.rng_ops).
Definition w_snk' : StreamingSink := match w_upload with Ok (s, _) => s | Err _ => w_sink end.
Definition w_info : EnvelopeInfo :=
  match w_upload with Ok (_, i) => i | Err _ => mkEnvelopeInfo 0 "" "" 0 "" 0 end.

Lemma upload_success_is_complete_witness :
  sink_cursor w_snk' = blen (sink_file w_snk') /\
  exists env, sink_file w_snk' = sink_file w_sink ++ env /\ cipher_size w_info = blen env /\
    ei_key_epoch w_info = 7 /\
    decrypt (seal.sk_bytes_of (tt : @Dk Toy.kem)) env "b" "k" (blen (concat w_pieces)) = Ok (concat w_pieces).
Proof.
  apply (upload_success_is_complete (tt : @Dk Toy.kem) w_sink 7 "b" "k" 64 4 w_pieces (0 : @rng Toy.rng_ops)).
  - done.
  - done.
  - apply w_at_end.
  - vm_compute. reflexivity.
Defined.

Lemma upload_checksum_of_placeholder_witness :
  exists a z, sink_file w_snk' =
      sink_file w_sink ++ a ++ to_be_bytes 8 (padme_len (blen (concat w_pieces))) ++ z /\
    blen a = 24 /\ cipher_checksum_b64 w_info = checksum.checksum_b64 (a ++ to_be_bytes 8 0 ++ z).
Proof.
  apply (upload_checksum_of_placeholder (tt : @Dk Toy.kem) w_sink 7 "b" "k" 64 4 w_pieces
           (0 : @rng Toy.rng_ops)).
  - done.
  - done.
  - apply w_at_end.
  - vm_compute. reflexivity.
Defined.

Lemma upload_fragmentation_irrelevant_witness :
  exists snk1 snk2 info,
    encrypt_pieces w_sink (seal.pk_bytes_of (tt : @Dk Toy.kem)) 7 "b" "k" 64 4 w_pieces (0 : @rng Toy.rng_ops)
      = Ok (snk1, info) /\
    encrypt_pieces w_sink (seal.pk_bytes_of (tt : @Dk Toy.kem)) 7 "b" "k" 64 4 w_pieces' (0 : @rng Toy.rng_ops)
      = Ok (snk2, info) /\
    sink_file snk1 = sink_file snk2.
Proof.
  apply (upload_fragmentation_irrelevant (tt : @Dk Toy.kem) w_sink 7 "b" "k" 64 4 w_pieces w_pieces'
           (0 : @rng Toy.rng_ops)).
  - done.
  - done.
  - apply w_at_end.
  - done.
  - vm_compute. discriminate.
  - reflexivity.
Defined.

(** A fault on the third system call (the first chunk) fails the upload. *)
Example faulty_upload :
  encrypt_pieces (Tokio (mkTokioFile (mkDisk [] [false; false; true]) 0))
    (seal.pk_bytes_of (tt : @Dk Toy.kem)) 7 "b" "k" 0 4 w_pieces (0 : @rng Toy.rng_ops) =
  Err (Aead "write chunk").
Proof. vm_compute. reflexivity. Qed.

End EncryptWitness.
