(* ===== verification/Cipher.v ===== *)
(** * The daemon's cipher adapter

    Models y2qd/src/cipher.rs: decryption of whole objects and of chunk windows with
    their error mapping, encryption of uploads with the size cap, and the streaming
    ranged reader.  The end-to-end result: a byte range streamed out of an uploaded
    object is that range of the upload. *)

From S2P Require Import Prelude Primitives Crypto Envelope Sink EncryptSession Types.

Section adapter.
Context {A : AeadOps} {K : KemOps} {H : HkdfOps} {X : Xxh3Ops} {B : Base64Ops} {R : RngOps}.

(** The match on [CryptoError] every read path ends in. *)
Definition map_read_error (bucket key : string) (e : CryptoError) : Error :=
  match e with
  | UnsupportedVersion v => UnsupportedEnvelopeVersion v
  | Envelope reason => EnvelopeMalformed bucket key reason
  | _ => DecryptionFailed bucket key
  end.

Definition decrypt_after_get (deployment_sk : bytes) (bucket key : string) (b : bytes)
    (expected_size : Z) : result Error bytes :=
  map_err (map_read_error bucket key) (decrypt_owned deployment_sk b bucket key expected_size).

Definition window_v3 (bucket_sk : bytes) (bucket key : string) (preamble chunks_ct : bytes)
    (first_chunk_idx : Z) : result Error bytes :=
  map_err (map_read_error bucket key)
    (decrypt_v3_chunks bucket_sk preamble chunks_ct first_chunk_idx bucket key).

Definition window_v4 (bucket_sk : bytes) (bucket key : string) (preamble chunks_ct : bytes)
    (first_chunk_idx total_chunks : Z) : result Error bytes :=
  map_err (map_read_error bucket key)
    (decrypt_v4_chunks bucket_sk preamble chunks_ct first_chunk_idx total_chunks bucket key).

(** ** Uploads *)

Context {Snk : Type} {SO : SinkOps Snk}.

Definition enc_failed {T} (bucket key : string) (r : result CryptoError T) : result Error T :=
  map_err (fun _ => EncryptionFailed bucket key) r.

Definition cipher_metadata_of (info : EnvelopeInfo) : CipherMetadata :=
  mkCipherMetadata (cipher_size info) (cipher_checksum_b64 info) (ei_kem_alg info) (ei_aead_alg info)
    (envelope_version info) (ei_key_epoch info).

(** [while let Some(chunk) = stream.next().await]: a body stream is the list of the items
    it will yield. *)
Fixpoint put_loop (bucket key : string) (max_bytes : option Z) (s : EncryptSession Snk)
    (hasher : checksum.StreamChecksum) (plaintext_size : Z) (stream : list (result Error bytes))
  : result Error (EncryptSession Snk * checksum.StreamChecksum * Z) :=
  match stream with
  | [] => Ok (s, hasher, plaintext_size)
  | Err e :: _ => Err e
  | Ok chunk :: rest =>
      let hasher := checksum.update hasher chunk in
      let plaintext_size := wrap64 (plaintext_size + blen chunk) in
      if match max_bytes with Some limit => limit <? plaintext_size | None => false end
      then Err (BodyTooLarge bucket key (default 0 max_bytes)) else
      s ← enc_failed bucket key (feed s chunk);
      put_loop bucket key max_bytes s hasher plaintext_size rest
  end.

Definition stream_encrypt_for_put (bucket_pk : bytes) (key_epoch : Z)
    (stream : list (result Error bytes)) (snk : Snk) (bucket key : string)
    (woff cs : Z) (max_bytes : option Z) (r : rng)
  : result Error (Snk * PlaintextMetrics * CipherMetadata) :=
  '(session, _) ← enc_failed bucket key (session_new snk bucket_pk key_epoch bucket key woff cs r);
  '(session, hasher, plaintext_size) ← put_loop bucket key max_bytes session checksum.new 0 stream;
  '(snk, info) ← enc_failed bucket key (session_finish session);
  Ok (snk, mkPlaintextMetrics plaintext_size (checksum.finish_b64 hasher), cipher_metadata_of info).

Definition encrypt_bytes_for_put (bucket_pk : bytes) (key_epoch : Z) (plaintext : bytes)
    (snk : Snk) (bucket key : string) (woff cs : Z) (r : rng)
  : result Error (Snk * PlaintextMetrics * CipherMetadata) :=
  '(session, _) ← enc_failed bucket key (session_new snk bucket_pk key_epoch bucket key woff cs r);
  session ← enc_failed bucket key (feed session plaintext);
  '(snk, info) ← enc_failed bucket key (session_finish session);
  let hasher := checksum.update checksum.new plaintext in
  Ok (snk, mkPlaintextMetrics (blen plaintext) (checksum.finish_b64 hasher), cipher_metadata_of info).

(** ** The streaming ranged reader *)

Context {SR : StorageReader}.

Definition CHUNK_TAG_LEN : Z := 16.

Record StreamGeometry : Type := mkStreamGeometry {
  sg_preamble : bytes;
  sg_chunk_size : Z;
  sg_v4_total_chunks : option Z;
}.

Record StreamState : Type := mkStreamState {
  ss_bucket : string;
  ss_key : string;
  ss_md : Metadata;
  ss_bucket_sk : bytes;
  ss_start : Z;
  ss_end : Z;
  ss_geometry : option StreamGeometry;
  ss_cur : Z;
}.

(** One poll of the stream; [SPanic] is an out-of-range [Bytes::slice]. *)
Inductive Poll : Type :=
| SDone
| SYield (b : bytes) (st : StreamState)
| SErr (e : Error)
| SPanic.

(** The first poll fetches the preamble and reads the geometry. *)
Definition init_geometry (st : StreamState) : result Error StreamState :=
  match ss_geometry st with
  | Some _ => Ok st
  | None =>
      let bucket := ss_bucket st in let key := ss_key st in
      preamble ← get_range bucket key 0 (v3_preamble_len - 1);
      '(chunk_size, v4_total_chunks) ←
        (if bool_decide (md_envelope_version (ss_md st) = Some 3) then
           '(_, cs, _) ← map_err (fun _ => EnvelopeMalformed bucket key "bad v3 header")
                           (parse_v3_geometry preamble);
           Ok (cs, None)
         else if bool_decide (md_envelope_version (ss_md st) = Some 4) then
           '(_, cs, _) ← map_err (fun _ => EnvelopeMalformed bucket key "bad v4 header")
                           (parse_v4_geometry preamble);
           Ok (cs, Some (div_ceil (padme_len (md_size (ss_md st))) cs))
         else Err (UnsupportedEnvelopeVersion (default 0 (md_envelope_version (ss_md st)))));
      Ok (mkStreamState bucket key (ss_md st) (ss_bucket_sk st) (ss_start st) (ss_end st)
            (Some (mkStreamGeometry preamble chunk_size v4_total_chunks)) (ss_start st / chunk_size))
  end.

(** [Bytes::slice(a..=b)]. *)
Definition slice_incl (a b : Z) (bs : bytes) : option bytes :=
  if (a <=? b + 1) && (b + 1 <=? blen bs) then Some (slice a (b + 1) bs) else None.

(** The rest of a poll, for the chunk at [ss_cur]. *)
Definition poll_chunk (st : StreamState) (g : StreamGeometry) : Poll :=
  let chunk_size := sg_chunk_size g in
  let last := ss_end st / chunk_size in
  if last <? ss_cur st then SDone else
  let preamble_len := blen (sg_preamble g) in
  let stride := wrap64 (chunk_size + CHUNK_TAG_LEN) in
  let cipher_start := wrap64 (preamble_len + wrap64 (ss_cur st * stride)) in
  let cipher_end_calc := wrap64 (wrap64 (preamble_len + wrap64 (wrap64 (ss_cur st + 1) * stride)) - 1) in
  let cipher_end := match md_cipher_size (ss_md st) with
                    | Some cs => Z.min cipher_end_calc (wrap64 (cs - 1))
                    | None => cipher_end_calc
                    end in
  match get_range (ss_bucket st) (ss_key st) cipher_start cipher_end with
  | Err e => SErr e
  | Ok window =>
      if negb (blen window =? wrap64 (wrap64 (cipher_end - cipher_start) + 1))
      then SErr (EnvelopeMalformed (ss_bucket st) (ss_key st) "on-disk object shorter than recorded metadata")
      else
      match (match sg_v4_total_chunks g with
             | Some total_chunks =>
                 window_v4 (ss_bucket_sk st) (ss_bucket st) (ss_key st) (sg_preamble g) window
                   (ss_cur st) total_chunks
             | None =>
                 window_v3 (ss_bucket_sk st) (ss_bucket st) (ss_key st) (sg_preamble g) window (ss_cur st)
             end) with
      | Err e => SErr e
      | Ok chunk_pt =>
          let chunk_pt_start_abs := wrap64 (ss_cur st * chunk_size) in
          let trim_front := saturating_sub_u64 (ss_start st) chunk_pt_start_abs in
          let last_valid_idx := saturating_sub_u64 (blen chunk_pt) 1 in
          let trim_back_idx := if ss_cur st =? last
                               then Z.min (wrap64 (ss_end st - chunk_pt_start_abs)) last_valid_idx
                               else last_valid_idx in
          match slice_incl trim_front trim_back_idx chunk_pt with
          | None => SPanic
          | Some out =>
              SYield out (mkStreamState (ss_bucket st) (ss_key st) (ss_md st) (ss_bucket_sk st)
                (ss_start st) (ss_end st) (Some g) (wrap64 (ss_cur st + 1)))
          end
      end
  end.

Definition poll (st : StreamState) : Poll :=
  match init_geometry st with
  | Err e => SErr e
  | Ok st => match ss_geometry st with Some g => poll_chunk st g | None => SPanic end
  end.

Definition plaintext_stream (bucket key : string) (md : Metadata) (bucket_sk : bytes) (start end_ : Z)
  : StreamState :=
  mkStreamState bucket key md bucket_sk start end_ None 0.

(** Drain the stream with at most [fuel] polls: the items it yields and how it ends,
    [None] when the fuel runs out first. *)
Inductive StreamEnd : Type := EndOk | EndErr (e : Error) | EndPanic.

Fixpoint drain (fuel : nat) (st : StreamState) : list bytes * option StreamEnd :=
  match fuel with
  | O => ([], None)
  | S fuel =>
      match poll st with
      | SDone => ([], Some EndOk)
      | SErr e => ([], Some (EndErr e))
      | SPanic => ([], Some EndPanic)
      | SYield b st => let '(items, e) := drain fuel st in (b :: items, e)
      end
  end.

End adapter.

(** ** Chunk arithmetic *)

Lemma chunked_split cs l : 0 < cs -> chunked cs l -> forall n,
  0 <= n -> n * cs < blen (concat l) ->
  exists l1 c l2, l = l1 ++ [c] ++ l2 /\ blen l1 = n /\ blen (concat l1) = n * cs /\
    0 < blen c /\ blen c = Z.min cs (blen (concat l) - n * cs) /\ chunked cs [c].
Proof.
  intros Hcs. induction 1 as [|c Hc|c d rest Hc Hch IH]; intros n Hn Hlt.
  - cbn in Hlt. rewrite blen_nil in Hlt. nia.
  - cbn [concat] in *. rewrite app_nil_r in *. assert (n = 0) as -> by nia.
    exists [], c, []. rewrite !blen_nil. split_and!; try done; try lia. by apply chunked_last.
  - destruct (decide (n = 0)) as [->|Hn0].
    + exists [], c, (d :: rest). pose proof (chunked_concat_pos _ _ _ Hcs Hch).
      cbn [concat] in *. rewrite (blen_app c), !blen_nil.
      split_and!; try done; try lia. apply chunked_last. lia.
    + change (concat (c :: d :: rest)) with (c ++ concat (d :: rest)) in *.
      rewrite blen_app in *.
      pose proof (Z.mul_sub_distr_r n 1 cs).
      destruct (IH (n - 1)) as (l1 & e & l2 & E & Hl1 & Hc1 & He & Hmin & Hche); [lia|lia|].
      exists (c :: l1), e, l2. change (concat (c :: l1)) with (c ++ concat l1).
      rewrite blen_cons, (blen_app c (concat l1)).
      split; [cbn; by rewrite E|]. split_and!; try done; lia.
Qed.

Lemma chunked_blen cs l : 0 < cs -> chunked cs l -> blen l = div_ceil (blen (concat l)) cs.
Proof.
  intros Hcs. unfold div_ceil. induction 1 as [|c Hc|c d rest Hc Hch IH].
  - cbn [concat]. autorewrite with blen. symmetry. apply Z.div_small. lia.
  - cbn [concat]. rewrite app_nil_r, blen_cons, blen_nil.
    apply (Z.div_unique _ _ _ (blen c - 1)); lia.
  - change (concat (c :: d :: rest)) with (c ++ concat (d :: rest)).
    rewrite blen_cons, IH, blen_app, Hc.
    replace (cs + blen (concat (d :: rest)) + cs - 1) with (blen (concat (d :: rest)) + cs - 1 + 1 * cs) by lia.
    rewrite Z.div_add by lia. lia.
Qed.

(** ** A stored version-4 object *)

Section stored.
Context {A : AeadOps} {K : KemOps} {H : HkdfOps} {X : Xxh3Ops} {B : Base64Ops} {R : RngOps}.
Context {AL : AeadLaws} {SR : StorageReader}.

(** An object whose envelope is [envelope_of .. body], of plaintext [T] padded, with
    metadata that tells its size and its cipher size, served by the backend. *)
Record stored (sk : bytes) (bucket key : string) (md : Metadata) (T : bytes) (cs : Z) : Prop := mkStored {
  st_cs : 0 < cs < 2 ^ 32;
  st_size : md_size md = blen T;
  st_version : md_envelope_version md = Some 4;
  st_object : exists ep nb kem_ct k chunks body,
    env_params_ok ep nb cs kem_ct /\
    recover_content_key sk kem_ct bucket key = Ok k /\
    sealed_body k ep nb cs chunks body /\ concat chunks = padded T /\
    blen (padded T) = padme_len (blen T) /\
    let env := envelope_of ep nb cs (padme_len (blen T)) kem_ct body in
    md_cipher_size md = Some (blen env) /\ blen env <= FILE_MAX /\ serves bucket key env;
}.

(** The ciphertext window of chunk [n]: where it lies in the envelope and how long it is. *)
Lemma chunk_window k ep nb cs kem_ct pl chunks body n :
  env_params_ok ep nb cs kem_ct -> sealed_body k ep nb cs chunks body ->
  0 <= n -> n * cs < blen (concat chunks) ->
  exists l1 c l2 b1 w b2,
    chunks = l1 ++ [c] ++ l2 /\ body = b1 ++ w ++ b2 /\ blen l1 = n /\
    concat chunks = concat l1 ++ c ++ concat l2 /\ blen (concat l1) = n * cs /\
    0 < blen c /\ blen c = Z.min cs (blen (concat chunks) - n * cs) /\ chunked cs [c] /\
    seal_chunks k nb (env_aad FORMAT_VER_V4 ep nb cs) (blen chunks) n [c] = Some w /\
    blen b1 = n * (cs + 16) /\ blen w = blen c + 16 /\ (blen c < cs -> b2 = []) /\
    envelope_of ep nb cs pl kem_ct body =
      ((env_header FORMAT_VER_V4 ep nb pl cs ++ kem_ct) ++ b1) ++ w ++ b2.
Proof.
  intros (Hep & Hnb & Hcs & Hct) (Hch & Hn & Hs) Hn0 Hlt.
  destruct (chunked_split cs chunks ltac:(lia) Hch n Hn0 Hlt)
    as (l1 & c & l2 & E & Hl1 & Hcl1 & Hc & Hmin & Hchc).
  pose proof Hs as Hs'. rewrite E in Hs' at 2.
  apply seal_chunks_app in Hs' as (b1 & b' & H1 & Hs' & ->).
  apply seal_chunks_app in Hs' as (w & b2 & Hw & H2 & ->).
  pose proof (seal_chunks_len _ _ _ _ _ _ _ H1) as Hb1. pose proof (seal_chunks_len _ _ _ _ _ _ _ Hw) as Hwl.
  cbn [concat] in Hwl. rewrite app_nil_r, blen_cons, blen_nil in Hwl. rewrite Z.add_0_l, Hl1 in Hw.
  exists l1, c, l2, b1, w, b2. split_and!; try done; try lia.
  - rewrite E at 1. by rewrite !concat_app; cbn [concat]; rewrite app_nil_r.
  - intros Hlt'. destruct l2 as [|d l2]; [by cbn in H2; simplify_eq|].
    rewrite E, app_assoc in Hch. apply chunked_prefix_full in Hch; [|done].
    apply Forall_app in Hch as [_ Hf]. inversion Hf; subst; lia.
  - unfold envelope_of. by rewrite <- !app_assoc.
Qed.

Lemma slice_middle {T} (a b c : list T) : slice (blen a) (blen a + blen b) (a ++ b ++ c) = b.
Proof.
  rewrite slice_app_skip by lia. pose proof (blen_nonneg b).
  rewrite slice_app_take by lia. apply slice_full; lia.
Qed.

(** *** Reading one chunk

    The facts a stored object gives, shared by the lemmas about its stream. *)
Section one_object.
Context (sk : bytes) (bucket key : string) (md : Metadata) (T : bytes) (cs ep : Z).
Context (nb kem_ct k : bytes) (chunks : list bytes) (body : bytes) (start end_ : Z).
Let pl := padme_len (blen T).
Let env := envelope_of ep nb cs pl kem_ct body.
Let pre := env_header FORMAT_VER_V4 ep nb pl cs ++ kem_ct.
Let geo := mkStreamGeometry pre cs (Some (blen chunks)).
Let at_chunk (cur : Z) : StreamState := mkStreamState bucket key md sk start end_ (Some geo) cur.

Hypothesis Hok : env_params_ok ep nb cs kem_ct.
Hypothesis Hpl : in_u 64 pl.
Hypothesis Hrec : recover_content_key sk kem_ct bucket key = Ok k.
Hypothesis Hsb : sealed_body k ep nb cs chunks body.
Hypothesis Hcat : concat chunks = padded T.
Hypothesis Hpad : blen (padded T) = pl.
Hypothesis Hsize : md_size md = blen T.
Hypothesis Hver : md_envelope_version md = Some 4.
Hypothesis Hciph : md_cipher_size md = Some (blen env).
Hypothesis Hmax : blen env <= FILE_MAX.
Hypothesis Hserve : serves bucket key env.
Hypothesis Hse : 0 <= start <= end_.
Hypothesis Hend : end_ < blen T.

Lemma obj_cs : 0 < cs < 2 ^ 32.
Proof using Hok. by destruct Hok as (_ & _ & ? & _). Qed.

Lemma obj_pre : blen pre = 1124.
Proof using Hok. exact (blen_preamble ep nb cs pl kem_ct Hok). Qed.

(** The chunks the stream visits lie inside the object. *)
Lemma cur_bounds cur : start / cs <= cur <= end_ / cs ->
  0 <= cur /\ 0 <= cur * cs <= end_ /\ start < (cur + 1) * cs /\ end_ < (end_ / cs + 1) * cs /\
  cur * cs < blen (concat chunks) /\ blen T <= blen (concat chunks).
Proof using Hok Hse Hend Hcat.
  intros Hcur. pose proof obj_cs as Hcs.
  pose proof (Z.mul_div_le end_ cs ltac:(lia)). pose proof (Z.mul_succ_div_gt end_ cs ltac:(lia)).
  pose proof (Z.mul_succ_div_gt start cs ltac:(lia)) as Hst. pose proof (Z.div_pos start cs ltac:(lia) ltac:(lia)).
  assert (cur * cs <= end_ / cs * cs) by (apply Z.mul_le_mono_nonneg_r; lia).
  assert (0 <= cur * cs) by (apply Z.mul_nonneg_nonneg; lia).
  assert (start < (cur + 1) * cs).
  { eapply Z.lt_le_trans; [exact Hst|]. rewrite Z.mul_comm. apply Z.mul_le_mono_nonneg_r; lia. }
  rewrite Hcat. unfold padded. rewrite blen_app.
  pose proof (blen_nonneg (replicate (Z.to_nat (padme_len (blen T) - blen T)) x00)). lia.
Qed.

(** Nothing wraps: the window of chunk [cur] is [cstart, cstart + |w|). *)
Lemma window_bounds cur (c w b2 : bytes) :
  0 <= cur -> 0 < blen c <= cs -> blen w = blen c + 16 -> (blen c < cs -> b2 = []) ->
  blen env = 1124 + cur * (cs + 16) + blen w + blen b2 ->
  let stride := wrap64 (cs + CHUNK_TAG_LEN) in
  let cstart := 1124 + cur * (cs + 16) in
  wrap64 (1124 + wrap64 (cur * stride)) = cstart /\
  Z.min (wrap64 (wrap64 (1124 + wrap64 (wrap64 (cur + 1) * stride)) - 1)) (wrap64 (blen env - 1)) =
    cstart + blen w - 1 /\
  wrap64 (wrap64 (cstart + blen w - 1 - cstart) + 1) = blen w.
Proof using Hok Hmax.
  intros H0 Hc Hw Hb2 Henv stride cstart. pose proof obj_cs as Hcs. unfold FILE_MAX in *.
  pose proof (Z.mul_add_distr_l cur cs 16). pose proof (blen_nonneg b2).
  assert (0 <= cur * cs) by (apply Z.mul_nonneg_nonneg; lia).
  assert (stride = cs + 16) as -> by (unfold stride, CHUNK_TAG_LEN; rewrite wrap64_small; lia).
  unfold cstart. rewrite (wrap64_small (cur + 1)), (wrap64_small (cur * (cs + 16))),
    (wrap64_small ((cur + 1) * (cs + 16))) by lia.
  rewrite (wrap64_small (1124 + (cur + 1) * (cs + 16))), (wrap64_small (1124 + cur * (cs + 16))) by lia.
  rewrite (wrap64_small (1124 + (cur + 1) * (cs + 16) - 1)), (wrap64_small (blen env - 1)) by lia.
  rewrite (wrap64_small (_ - (1124 + cur * (cs + 16)))), wrap64_small by lia.
  split; [done|]. split; [|lia].
  destruct (decide (blen c < cs)) as [Hs|Hs]; [|lia].
  rewrite (Hb2 Hs), blen_nil in Henv. lia.
Qed.

(** Trimming the chunk to the requested range. *)
Lemma trim_chunk cur c l1 l2 :
  start / cs <= cur <= end_ / cs -> concat chunks = concat l1 ++ c ++ concat l2 ->
  blen (concat l1) = cur * cs -> blen c = Z.min cs (blen (concat chunks) - cur * cs) ->
  slice_incl (saturating_sub_u64 start (wrap64 (cur * cs)))
    (if cur =? end_ / cs
     then Z.min (wrap64 (end_ - wrap64 (cur * cs))) (saturating_sub_u64 (blen c) 1)
     else saturating_sub_u64 (blen c) 1) c =
  Some (slice (Z.max start (cur * cs)) (Z.min (end_ + 1) ((cur + 1) * cs)) T).
Proof using AL Hok Hse Hend Hcat Hsb Hmax.
  intros Hcur Ecat Hl1 Hc. pose proof obj_cs as Hcs.
  destruct (cur_bounds cur Hcur) as (H0 & Hcc & Hst & Hlast & Hin & HlD).
  assert (HD : blen (concat chunks) <= FILE_MAX).
  { destruct Hsb as (_ & _ & Hs). apply seal_chunks_len in Hs. revert Hmax. unfold env.
    rewrite blen_envelope_of by done. pose proof (blen_nonneg chunks). lia. }
  unfold FILE_MAX in *. rewrite (wrap64_small (cur * cs)) by lia. unfold saturating_sub_u64.
  replace (Z.max (blen c - 1) 0) with (blen c - 1) by lia.
  assert (Htb : (if cur =? end_ / cs then Z.min (wrap64 (end_ - cur * cs)) (blen c - 1) else blen c - 1) =
    Z.min (end_ + 1) ((cur + 1) * cs) - cur * cs - 1).
  { destruct (Z.eqb_spec cur (end_ / cs)) as [Heq|Hne].
    - rewrite <- Heq in Hlast. rewrite wrap64_small by lia. lia.
    - assert ((cur + 1) * cs <= end_ / cs * cs) by (apply Z.mul_le_mono_nonneg_r; lia).
      pose proof (Z.mul_div_le end_ cs ltac:(lia)). lia. }
  rewrite Htb. unfold slice_incl.
  replace (Z.min (end_ + 1) ((cur + 1) * cs) - cur * cs - 1 + 1)
    with (Z.min (end_ + 1) ((cur + 1) * cs) - cur * cs) by lia.
  rewrite (proj2 (Z.leb_le _ _)), (proj2 (Z.leb_le _ _)) by lia. cbn [andb]. f_equal.
  assert (Ec : c = slice (cur * cs) (cur * cs + blen c) (concat chunks)).
  { rewrite Ecat, <- Hl1. symmetry. apply slice_middle. }
  rewrite Ec, slice_slice by lia.
  replace (cur * cs + Z.max (start - cur * cs) 0) with (Z.max start (cur * cs)) by lia.
  replace (cur * cs + (Z.min (end_ + 1) ((cur + 1) * cs) - cur * cs))
    with (Z.min (end_ + 1) ((cur + 1) * cs)) by lia.
  rewrite Hcat. unfold padded. by rewrite slice_app_take by lia.
Qed.

(** What the poll at chunk [cur] yields. *)
Lemma poll_chunk_yields cur : start / cs <= cur <= end_ / cs ->
  poll_chunk (at_chunk cur) geo =
    SYield (slice (Z.max start (cur * cs)) (Z.min (end_ + 1) ((cur + 1) * cs)) T) (at_chunk (cur + 1)).
Proof using All.
  intros Hcur. pose proof obj_cs as Hcs. pose proof obj_pre as Hpre.
  destruct (cur_bounds cur Hcur) as (H0 & Hcc & Hst & Hlast & Hin & HlD).
  destruct (chunk_window k ep nb cs kem_ct pl chunks body cur Hok Hsb H0 Hin)
    as (l1 & c & l2 & b1 & w & b2 & Ech & Ebody & Hl1 & Ecat & Hcl1 & Hc & Hmin & Hchc & Hw & Hb1 & Hwl & Hb2 & Eenv).
  fold env pre in Eenv.
  assert (Henv : blen env = 1124 + cur * (cs + 16) + blen w + blen b2) by (rewrite Eenv, !blen_app; lia).
  destruct (window_bounds cur c w b2) as (E1 & E2 & E3); try done; [lia|].
  unfold poll_chunk, at_chunk. cbn [sg_chunk_size sg_preamble sg_v4_total_chunks ss_bucket ss_key ss_md
    ss_bucket_sk ss_start ss_end ss_cur geo]. rewrite (proj2 (Z.ltb_ge _ _)) by lia.
  rewrite Hpre, Hciph, E1, E2, E3, Hserve by (pose proof (blen_nonneg pre); nia).
  assert (Hwin : slice (1124 + cur * (cs + 16))
     (Z.min (1124 + cur * (cs + 16) + blen w - 1 + 1) (blen env)) env = w).
  { rewrite Henv, Eenv. pose proof (blen_nonneg b2).
    replace (1124 + cur * (cs + 16)) with (blen (pre ++ b1)) by (rewrite blen_app; lia).
    replace (Z.min _ _) with (blen (pre ++ b1) + blen w) by lia. apply slice_middle. }
  rewrite Hwin, Z.eqb_refl. cbn [negb]. unfold window_v4.
  assert (Hopen : decrypt_v4_chunks sk pre w cur (blen chunks) bucket key = Ok c).
  { rewrite <- Hl1. unfold pre. rewrite <- (app_nil_r kem_ct), <- (app_nil_r c) at 1.
    change (c ++ []) with (concat [c]).
    apply (decrypt_v4_chunks_window sk ep nb cs kem_ct k pl); try done; [|by rewrite Hl1].
    destruct Hsb as (_ & Hn & _). rewrite Ech, !blen_app in Hn. pose proof (blen_nonneg l2). lia. }
  rewrite Hopen. cbn [map_err]. rewrite (trim_chunk cur c l1 l2) by done.
  assert (cur * 1 <= cur * (cs + 16)) by (apply Z.mul_le_mono_nonneg_l; lia).
  pose proof (blen_nonneg b2). unfold FILE_MAX in Hmax. by rewrite wrap64_small by lia.
Qed.

(** The first poll reads the geometry. *)
Lemma init_geometry_stored :
  init_geometry (plaintext_stream bucket key md sk start end_) = Ok (at_chunk (start / cs)).
Proof using All.
  pose proof obj_cs as Hcs. pose proof obj_pre as Hpre.
  unfold init_geometry, plaintext_stream. cbn [ss_geometry ss_bucket ss_key ss_md ss_bucket_sk ss_start ss_end].
  rewrite Hserve by (vm_compute; split; discriminate). cbn [mbind result_bind]. rewrite Hver.
  rewrite bool_decide_eq_false_2, bool_decide_eq_true_2 by done.
  assert (slice 0 (Z.min (v3_preamble_len - 1 + 1) (blen env)) env = pre) as ->.
  { unfold env. rewrite blen_envelope_of by done. pose proof (blen_nonneg body).
    change (v3_preamble_len - 1 + 1) with 1124. rewrite Z.min_l by lia. rewrite envelope_of_split.
    fold pre. rewrite slice_app_take by lia. apply slice_full; lia. }
  destruct Hok as (Hep & Hnb & _ & _). unfold parse_v4_geometry, parse_geometry.
  rewrite (proj2 (Z.ltb_ge _ _)) by (rewrite Hpre; done).
  unfold pre. rewrite bool_decide_eq_true_2 by apply magic_env. cbn [negb].
  rewrite check_header_env by done. cbn [map_err mbind result_bind eh_key_epoch eh_chunk_size eh_plaintext_len].
  assert (div_ceil (padme_len (md_size md)) cs = blen chunks) as ->; [|done].
  rewrite Hsize. fold pl. rewrite <- Hpad, <- Hcat. symmetry. apply chunked_blen; [lia|apply Hsb].
Qed.

Lemma drain_from fuel : forall cur, start / cs <= cur <= end_ / cs + 1 ->
  (Z.to_nat (end_ / cs - cur + 2) <= fuel)%nat ->
  exists items, drain fuel (at_chunk cur) = (items, Some EndOk) /\
    concat items = slice (Z.max start (cur * cs)) (end_ + 1) T.
Proof using All.
  pose proof obj_cs as Hcs. induction fuel as [|fuel IH]; intros cur Hcur Hf; [lia|].
  cbn [drain]. change (poll (at_chunk cur)) with (poll_chunk (at_chunk cur) geo).
  destruct (decide (cur = end_ / cs + 1)) as [->|Hne].
  - assert (poll_chunk (at_chunk (end_ / cs + 1)) geo = SDone) as ->.
    { unfold poll_chunk, at_chunk, geo. cbn [sg_chunk_size ss_end ss_cur].
      by rewrite (proj2 (Z.ltb_lt _ _)) by lia. }
    exists []. split; [done|].
    pose proof (Z.mul_succ_div_gt end_ cs ltac:(lia)). rewrite slice_empty by lia. done.
  - rewrite poll_chunk_yields by lia.
    destruct (IH (cur + 1)) as (items & -> & Hi); [lia|lia|].
    eexists; split; [done|]. cbn [concat]. rewrite Hi.
    destruct (cur_bounds cur ltac:(lia)) as (H0 & Hcc & Hst & Hlast & _ & _).
    rewrite (Z.max_r start ((cur + 1) * cs)) by lia.
    destruct (decide ((cur + 1) * cs <= end_ + 1)).
    + rewrite Z.min_r by lia. apply slice_join; lia.
    + rewrite Z.min_l by lia. rewrite (slice_empty ((cur + 1) * cs)) by lia. apply app_nil_r.
Qed.

End one_object.

Lemma drain_poll fuel st st' : poll st = poll st' -> drain fuel st = drain fuel st'.
Proof. intros E. destruct fuel; [done|]. cbn [drain]. by rewrite E. Qed.

(** Polls a range of [start..=end] needs: one per chunk it touches and one to end. *)
Definition polls_needed (cs start end_ : Z) : nat := Z.to_nat (end_ / cs - start / cs + 2).

Lemma drain_range sk bucket key md T cs start end_ fuel :
  stored sk bucket key md T cs -> 0 <= start <= end_ -> end_ < blen T ->
  (polls_needed cs start end_ <= fuel)%nat ->
  exists items, drain fuel (plaintext_stream bucket key md sk start end_) = (items, Some EndOk) /\
    concat items = slice start (end_ + 1) T.
Proof.
  intros [Hcs Hsize Hver (ep & nb & kem_ct & k & chunks & body & Hok & Hrec & Hsb & Hcat & Hpad & Hciph & Hmax & Hserve)]
    Hse Hend Hfuel.
  assert (Hpl : in_u 64 (padme_len (blen T))).
  { unfold in_u. rewrite <- Hpad, <- Hcat. destruct Hsb as (Hch & _ & Hs).
    apply seal_chunks_len in Hs. unfold FILE_MAX in Hmax. rewrite blen_envelope_of in Hmax by done.
    pose proof (blen_nonneg chunks). pose proof (blen_nonneg (concat chunks)). lia. }
  pose proof (init_geometry_stored sk bucket key md T cs ep nb kem_ct k chunks body start end_
    Hok Hpl Hrec Hsb Hcat Hpad Hsize Hver Hciph Hmax Hserve Hse Hend) as Hinit.
  destruct (drain_from sk bucket key md T cs ep nb kem_ct k chunks body start end_
    Hok Hpl Hrec Hsb Hcat Hpad Hsize Hver Hciph Hmax Hserve Hse Hend fuel (start / cs)) as (items & Hd & Hi).
  { pose proof (Z.div_le_mono start end_ cs ltac:(lia) ltac:(lia)). lia. }
  { unfold polls_needed in Hfuel. lia. }
  exists items. split.
  - rewrite <- Hd. apply drain_poll. unfold poll. by rewrite Hinit.
  - rewrite Hi, Z.max_l; [done|]. rewrite Z.mul_comm. apply Z.mul_div_le. lia.
Qed.

End stored.

(** ** Uploads, end to end *)

Section puts.
Context {A : AeadOps} {K : KemOps} {H : HkdfOps} {X : Xxh3Ops} {B : Base64Ops} {R : RngOps}.
Context {AL : AeadLaws} {KL : KemLaws} {HL : HkdfLaws} {XL : Xxh3Laws} {RL : RngLaws}.
Context {Snk : Type} {SO : SinkOps Snk} {SL : SinkLaws Snk}.

Lemma enc_failed_inv {T} bucket key (r : result CryptoError T) v :
  enc_failed bucket key r = Ok v -> r = Ok v.
Proof. destruct r; cbn; intros; by simplify_eq. Qed.

Lemma wrap64_add a b : wrap64 (wrap64 a + b) = wrap64 (a + b).
Proof. unfold wrap64. by rewrite Z.add_mod_idemp_l by lia. Qed.

Lemma fmap_Ok_inj (a b : list bytes) : (Ok <$> a : list (result Error bytes)) = Ok <$> b -> a = b.
Proof. revert b. induction a as [|x a IH]; intros [|y b] E; cbn in E; simplify_eq; f_equal; auto. Qed.

(** A loop that ends well has consumed a fault-free body within the cap. *)
Lemma put_loop_ok bucket key mx stream : forall (s : EncryptSession Snk) h n s' h' n',
  0 <= n < 2 ^ 64 ->
  put_loop bucket key mx s h n stream = Ok (s', h', n') ->
  exists pieces, stream = Ok <$> pieces /\ feed_all s pieces = Ok s' /\
    h' = checksum.update h (concat pieces) /\ n' = wrap64 (n + blen (concat pieces)) /\
    (forall limit, mx = Some limit -> n <= limit -> n' <= limit).
Proof.
  induction stream as [|[chunk|e] rest IH]; intros s h n s' h' n' Hn E; cbn [put_loop] in E; try done.
  - simplify_eq. exists []. cbn [concat fmap list_fmap feed_all]. autorewrite with blen.
    rewrite checksum.update_nil, Z.add_0_r, wrap64_small by lia. done.
  - destruct (match mx with Some limit => _ | None => false end) eqn:Hcap; [done|].
    apply bind_Ok_inv in E as (s1 & E1 & E). apply enc_failed_inv in E1.
    apply IH in E as (pieces & -> & Hf & -> & -> & Hl);
      [|unfold wrap64; apply Z.mod_pos_bound; lia].
    exists (chunk :: pieces). cbn [feed_all concat fmap list_fmap]. rewrite E1, checksum.update_app, blen_app.
    split_and!; try done.
    + by rewrite wrap64_add, Z.add_assoc.
    + intros limit -> Hle. apply (Hl limit); [done|]. by apply Z.ltb_ge in Hcap.
Qed.

Lemma put_loop_run bucket key mx pieces : forall (s s' : EncryptSession Snk) h n,
  0 <= n -> n + blen (concat pieces) < 2 ^ 64 ->
  (forall limit, mx = Some limit -> n + blen (concat pieces) <= limit) ->
  feed_all s pieces = Ok s' ->
  put_loop bucket key mx s h n (Ok <$> pieces) =
    Ok (s', checksum.update h (concat pieces), n + blen (concat pieces)).
Proof.
  induction pieces as [|p pieces IH]; intros s s' h n Hn Hmax Hcap E;
    cbn [feed_all concat fmap list_fmap put_loop] in *.
  - simplify_eq. autorewrite with blen. by rewrite checksum.update_nil, Z.add_0_r.
  - apply bind_Ok_inv in E as (s1 & E1 & E). rewrite blen_app in *.
    pose proof (blen_nonneg p). pose proof (blen_nonneg (concat pieces)).
    rewrite wrap64_small by lia.
    assert (match mx with Some limit => limit <? n + blen p | None => false end = false) as ->.
    { destruct mx as [l|]; [|done]. specialize (Hcap l eq_refl). apply Z.ltb_ge. lia. }
    rewrite E1. cbn [enc_failed map_err mbind result_bind].
    change (list_fmap _ _ Ok pieces) with (Ok <$> pieces : list (result Error bytes)).
    rewrite (IH s1 s' _ (n + blen p)), checksum.update_app; try done; try lia.
    + f_equal. f_equal. lia.
    + intros l ->. specialize (Hcap l eq_refl). lia.
Qed.

Lemma put_loop_app bucket key mx l l' : forall (s : EncryptSession Snk) h n s' h' n',
  put_loop bucket key mx s h n l = Ok (s', h', n') ->
  put_loop bucket key mx s h n (l ++ l') = put_loop bucket key mx s' h' n' l'.
Proof.
  induction l as [|[c|e] l IH]; intros s h n s' h' n' E; cbn [put_loop app] in *; try done.
  - by simplify_eq.
  - destruct (match mx with Some limit => _ | None => false end); [done|].
    apply bind_Ok_inv in E as (s1 & -> & E). cbn [mbind result_bind]. by apply IH.
Qed.

(** A successful upload, unfolded: the body, the session's parameters and what is left in
    the sink. *)
Lemma stream_put_finished dk ep stream snk bucket key woff cs mx r snk' pm cm :
  in_u 32 ep -> 0 < cs <= u32_max -> sink_at_end snk woff ->
  stream_encrypt_for_put (seal.pk_bytes_of dk) ep stream snk bucket key woff cs mx r = Ok (snk', pm, cm) ->
  exists pieces P info, stream = Ok <$> pieces /\
    upload_params dk snk ep bucket key cs P /\ finished P (concat pieces) snk' info /\
    pm = mkPlaintextMetrics (blen (concat pieces)) (checksum.checksum_b64 (concat pieces)) /\
    cm = cipher_metadata_of info /\
    (forall limit, mx = Some limit -> 0 <= limit -> blen (concat pieces) <= limit).
Proof.
  intros Hep Hcs Hat E. unfold stream_encrypt_for_put in E.
  apply bind_Ok_inv in E as ([s r'] & En & E). apply enc_failed_inv in En.
  destruct (new_spec dk snk ep bucket key woff cs r Hep Hcs Hat) as [Hn _]. rewrite En in Hn.
  destruct Hn as (P & Habs & Hpre & Hpe & Hpc & Hrec).
  apply bind_Ok_inv in E as ([[s1 h] n] & El & E). apply bind_Ok_inv in E as ([snk1 info] & Ef & E).
  apply enc_failed_inv in Ef. simplify_eq.
  apply put_loop_ok in El as (pieces & -> & Hfeed & -> & -> & Hlim); [|lia].
  apply (feed_all_sound P _ s []) in Hfeed; [|done]. cbn [app] in Hfeed.
  pose proof (absorbed_count P s1 _ Hfeed) as [_ Hle]. unfold FILE_MAX in Hle.
  pose proof (blen_nonneg (concat pieces)).
  rewrite Z.add_0_l, wrap64_small in * by lia.
  exists pieces, P, info. split_and!; try done.
  - destruct Habs as (L & body & F & _). split_and!; try done. apply F.
  - by apply (finish_sound P s1).
Qed.

Lemma stream_put_total dk ep pieces snk bucket key woff cs mx r :
  in_u 32 ep -> 0 < cs <= u32_max -> sink_at_end snk woff -> sink_healthy snk ->
  woff + 1124 + 20 * blen (concat pieces) <= FILE_MAX ->
  (forall limit, mx = Some limit -> blen (concat pieces) <= limit) ->
  exists v, stream_encrypt_for_put (seal.pk_bytes_of dk) ep (Ok <$> pieces) snk bucket key woff cs mx r = Ok v.
Proof.
  intros Hep Hcs Hat Hh Hroom Hcap.
  destruct (upload_total dk snk ep bucket key woff cs pieces r) as (snk' & info & E); try done.
  unfold encrypt_pieces in E. apply bind_Ok_inv in E as ([s r'] & En & E).
  apply bind_Ok_inv in E as (s1 & Ef & E). unfold stream_encrypt_for_put. rewrite En. cbn [enc_failed map_err mbind result_bind].
  destruct Hat as (_ & _ & Hw). pose proof (blen_nonneg (sink_file snk)). unfold FILE_MAX in *.
  rewrite (put_loop_run _ _ _ _ s s1); try done; try lia. cbn [mbind result_bind]. rewrite E. cbn. eauto.
Qed.

(** An object sealed from memory reads back. *)
Lemma bytes_put_decrypts dk ep T snk bucket key woff cs r snk' pm cm :
  in_u 32 ep -> 0 < cs <= u32_max -> sink_at_end snk woff ->
  encrypt_bytes_for_put (seal.pk_bytes_of dk) ep T snk bucket key woff cs r = Ok (snk', pm, cm) ->
  pm_size pm = blen T /\ cm_key_epoch cm = ep /\
  decrypt_after_get (seal.sk_bytes_of dk) bucket key (drop (Z.to_nat woff) (sink_file snk')) (blen T) = Ok T.
Proof.
  intros Hep Hcs Hat E. unfold encrypt_bytes_for_put in E.
  apply bind_Ok_inv in E as ([s r'] & En & E). apply enc_failed_inv in En.
  apply bind_Ok_inv in E as (s1 & Ef & E). apply enc_failed_inv in Ef.
  apply bind_Ok_inv in E as ([snk1 info] & Efin & E). apply enc_failed_inv in Efin. injection E as <- <- <-.
  destruct (upload_finished dk snk ep bucket key woff cs [T] r snk1 info Hep Hcs Hat) as (P & HP & Hfin).
  { unfold encrypt_pieces. rewrite En. cbn [mbind result_bind feed_all]. rewrite Ef. exact Efin. }
  cbn [concat] in Hfin. rewrite app_nil_r in Hfin. destruct (finished_decrypts _ _ _ _ _ _ _ _ _ _ HP Hfin) as (env & Hf & _ & He & Hd).
  split_and!; [done|done|]. destruct Hat as (_ & _ & ->). unfold blen at 1. rewrite Nat2Z.id, Hf, drop_app_length.
  unfold decrypt_after_get. by rewrite owned_equiv, Hd.
Qed.

(** The metadata record an upload's metrics become (the fields the read path uses). *)
Definition describes (md : Metadata) (pm : PlaintextMetrics) (cm : CipherMetadata) : Prop :=
  md_size md = pm_size pm /\ md_cipher_size md = Some (cm_cipher_size cm) /\
  md_envelope_version md = Some (cm_envelope_version cm).

Lemma finished_stored {SR : StorageReader} dk snk ep bucket key cs P T snk' info md :
  cs <= u32_max -> upload_params dk snk ep bucket key cs P -> finished P T snk' info ->
  describes md (mkPlaintextMetrics (blen T) (checksum.checksum_b64 T)) (cipher_metadata_of info) ->
  serves bucket key (drop (length (sink_file snk)) (sink_file snk')) ->
  stored (seal.sk_bytes_of dk) bucket key md T cs.
Proof.
  intros Hcs (Hok & Hpre & Hpe & Hpc & Hrec) [(chunks & body & Hs & Hcat & Hfile & ->) [Hpl _] _ _ Hmax]
    (Hsz & Hci & Hve) Hserve.
  rewrite Hfile, Hpre in Hserve, Hmax. rewrite drop_app_length in Hserve.
  pose proof Hok as (_ & _ & Hcr & _). subst cs. constructor; try done.
  exists (p_ep P), (p_nb P), (p_kem_ct P), (p_key P), chunks, body.
  pose proof (blen_nonneg (sink_file snk)). rewrite blen_app in Hmax.
  split_and!; try done. cbv zeta. split_and!; try done. lia.
Qed.

(** A whole object written through the upload path and read back through the
    download path is the body the client sent: the upload succeeds within the cap, its
    recorded size and checksum are those of the body, and decrypting what it stored
    with that size returns the body. *)
Theorem put_get_roundtrip (dk : Dk) (ep : Z) (pieces : list bytes) (snk : Snk) (bucket key : string)
    (woff cs : Z) (mx : option Z) (r : rng) :
  in_u 32 ep -> 0 < cs <= u32_max -> sink_at_end snk woff -> sink_healthy snk ->
  woff + 1124 + 20 * blen (concat pieces) <= FILE_MAX ->
  (forall limit, mx = Some limit -> blen (concat pieces) <= limit) ->
  exists snk' pm cm env,
    stream_encrypt_for_put (seal.pk_bytes_of dk) ep (Ok <$> pieces) snk bucket key woff cs mx r =
      Ok (snk', pm, cm) /\
    sink_file snk' = sink_file snk ++ env /\ cm_cipher_size cm = blen env /\ cm_key_epoch cm = ep /\
    pm = mkPlaintextMetrics (blen (concat pieces)) (checksum.checksum_b64 (concat pieces)) /\
    decrypt_after_get (seal.sk_bytes_of dk) bucket key env (pm_size pm) = Ok (concat pieces).
Proof.
  intros Hep Hcs Hat Hh Hroom Hcap.
  destruct (stream_put_total dk ep pieces snk bucket key woff cs mx r) as ([[snk' pm] cm] & E); try done.
  destruct (stream_put_finished _ _ _ _ _ _ _ _ _ _ _ _ _ Hep Hcs Hat E)
    as (pieces' & P & info & Hp & HP & Hfin & -> & -> & _).
  apply fmap_Ok_inj in Hp. subst pieces'.
  destruct (finished_decrypts _ _ _ _ _ _ _ _ _ _ HP Hfin) as (env & Hf & Hc & He & Hd).
  exists snk', (mkPlaintextMetrics (blen (concat pieces)) (checksum.checksum_b64 (concat pieces))),
    (cipher_metadata_of info), env. split_and!; try done.
  unfold decrypt_after_get. cbn [pm_size]. by rewrite owned_equiv, Hd.
Qed.

(** Streaming any byte range out of an uploaded object yields exactly those bytes:
    for every inclusive range within the object, the stream of decrypted chunks ends
    without error or panic after at most one poll per touched chunk plus one, and its
    items concatenate to that range of the uploaded body. *)
Theorem put_range_get {SR : StorageReader} (dk : Dk) (ep : Z) (pieces : list bytes) (snk : Snk)
    (bucket key : string) (woff cs : Z) (mx : option Z) (r : rng) (snk' : Snk) (pm : PlaintextMetrics)
    (cm : CipherMetadata) (md : Metadata) (start end_ : Z) (fuel : nat) :
  in_u 32 ep -> 0 < cs <= u32_max -> sink_at_end snk woff ->
  stream_encrypt_for_put (seal.pk_bytes_of dk) ep (Ok <$> pieces) snk bucket key woff cs mx r =
    Ok (snk', pm, cm) ->
  describes md pm cm -> serves bucket key (drop (length (sink_file snk)) (sink_file snk')) ->
  0 <= start <= end_ -> end_ < blen (concat pieces) -> (polls_needed cs start end_ <= fuel)%nat ->
  exists items,
    drain fuel (plaintext_stream bucket key md (seal.sk_bytes_of dk) start end_) = (items, Some EndOk) /\
    concat items = slice start (end_ + 1) (concat pieces).
Proof.
  intros Hep Hcs Hat E Hmd Hserve Hse Hend Hfuel.
  destruct (stream_put_finished _ _ _ _ _ _ _ _ _ _ _ _ _ Hep Hcs Hat E)
    as (pieces' & P & info & Hp & HP & Hfin & -> & -> & _).
  apply fmap_Ok_inj in Hp. subst pieces'.
  apply (drain_range _ _ _ _ _ cs); try done.
  apply (finished_stored dk snk ep bucket key cs P _ snk' info); try done. lia.
Qed.

(** The upload cap is exact, even for a body of unknown length: a body within the
    cap is never refused for its size, and one that exceeds it is refused with
    [BodyTooLarge] at the first piece that crosses the cap. *)
Theorem put_cap_enforced (dk : Dk) (ep : Z) (before : list bytes) (crossing : bytes)
    (after : list (result Error bytes)) (snk : Snk) (bucket key : string) (woff cs limit : Z) (r : rng) :
  in_u 32 ep -> 0 < cs <= u32_max -> sink_at_end snk woff -> sink_healthy snk ->
  woff + 1124 + 20 * blen (concat before ++ crossing) <= FILE_MAX ->
  blen (concat before) <= limit -> limit < blen (concat before ++ crossing) ->
  is_ok (stream_encrypt_for_put (seal.pk_bytes_of dk) ep (Ok <$> before) snk bucket key woff cs
    (Some limit) r) = true /\
  stream_encrypt_for_put (seal.pk_bytes_of dk) ep ((Ok <$> before) ++ Ok crossing :: after) snk
    bucket key woff cs (Some limit) r = Err (BodyTooLarge bucket key limit).
Proof.
  intros Hep Hcs Hat Hh Hroom Hle Hgt. rewrite blen_app in *. pose proof (blen_nonneg crossing).
  split.
  - destruct (stream_put_total dk ep before snk bucket key woff cs (Some limit) r) as [v ->]; try done; [lia|].
    by intros ? [= ->].
  - destruct (upload_total dk snk ep bucket key woff cs before r) as (snk' & info & E); try done; [lia|].
    unfold encrypt_pieces in E. apply bind_Ok_inv in E as ([s r'] & En & E).
    apply bind_Ok_inv in E as (s1 & Ef & E). unfold stream_encrypt_for_put. rewrite En.
    cbn [enc_failed map_err mbind result_bind].
    destruct Hat as (_ & _ & Hw). pose proof (blen_nonneg (sink_file snk)).
    pose proof (blen_nonneg (concat before)). unfold FILE_MAX in *.
    assert (Hrun := put_loop_run bucket key (Some limit) before s s1 checksum.new 0 ltac:(lia) ltac:(lia)
      ltac:(by intros ? [= <-]) Ef).
    rewrite (put_loop_app _ _ _ _ _ _ _ _ _ _ _ Hrun). cbn [put_loop].
    rewrite wrap64_small by lia. rewrite (proj2 (Z.ltb_lt _ _)) by lia. done.
Qed.

End puts.

Module CipherWitness.
Import EncryptWitness.
#[local] Existing Instances Toy.aead Toy.kem Toy.hkdf Toy.xxh3_ops Toy.base64 Toy.rng_ops
  Toy.aead_laws Toy.kem_laws Toy.hkdf_laws Toy.xxh3_laws Toy.rng_laws.
Definition w_dk : @Dk Toy.kem := tt.
Definition w_rng : @rng Toy.rng_ops := 0.

Lemma put_get_roundtrip_witness :
  exists snk' pm cm env,
    stream_encrypt_for_put (seal.pk_bytes_of w_dk) 7 (Ok <$> w_pieces) w_sink "b" "k" 64 4 (Some 9) w_rng =
      Ok (snk', pm, cm) /\
    sink_file snk' = sink_file w_sink ++ env /\ cm_cipher_size cm = blen env /\ cm_key_epoch cm = 7 /\
    pm = mkPlaintextMetrics (blen (concat w_pieces)) (checksum.checksum_b64 (concat w_pieces)) /\
    decrypt_after_get (seal.sk_bytes_of w_dk) "b" "k" env (pm_size pm) = Ok (concat w_pieces).
Proof.
  apply (put_get_roundtrip w_dk 7 w_pieces w_sink "b" "k" 64 4 (Some 9) w_rng).
  - done.
  - done.
  - apply w_at_end.
  - done.
  - vm_compute. discriminate.
  - intros limit [= <-]. vm_compute. discriminate.
Defined.

Definition w_put :=
  stream_encrypt_for_put (seal.pk_bytes_of w_dk) 7 (Ok <$> w_pieces) w_sink "b" "k" 64 4 (Some 9) w_rng.
Definition w_psnk : StreamingSink := match w_put with Ok (s, _, _) => s | Err _ => w_sink end.
Definition w_pm : PlaintextMetrics :=
  match w_put with Ok (_, m, _) => m | Err _ => mkPlaintextMetrics 0 "" end.
Definition w_cm : CipherMetadata :=
  match w_put with Ok (_, _, m) => m | Err _ => mkCipherMetadata 0 "" "" "" 0 0 end.
Definition w_md : Metadata :=
  mkMetadata 0 0 (pm_size w_pm) "" "b" "k" "" "" empty (Some (cm_cipher_size w_cm)) None None None
    (Some (cm_envelope_version w_cm)) None None (Some 7).
Definition w_reader : StorageReader :=
  {| get_range := fun _ _ a b =>
       let obj := drop (length (sink_file w_sink)) (sink_file w_psnk) in
       Ok (slice a (Z.min (b + 1) (blen obj)) obj) |}.
#[local] Existing Instance w_reader.

Lemma put_range_get_witness :
  exists items,
    drain 5 (plaintext_stream "b" "k" w_md (seal.sk_bytes_of w_dk) 3 8) = (items, Some EndOk) /\
    concat items = slice 3 9 (concat w_pieces).
Proof.
  apply (put_range_get w_dk 7 w_pieces w_sink "b" "k" 64 4 (Some 9) w_rng w_psnk w_pm w_cm w_md 3 8 5).
  - done.
  - done.
  - apply w_at_end.
  - vm_compute. reflexivity.
  - split_and!; vm_compute; reflexivity.
  - intros a b _. reflexivity.
  - done.
  - vm_compute. reflexivity.
  - vm_compute. lia.
Defined.

Lemma put_cap_enforced_witness :
  is_ok (stream_encrypt_for_put (seal.pk_bytes_of w_dk) 7 (Ok <$> w_pieces) w_sink "b" "k" 64 4
    (Some 9) w_rng) = true /\
  stream_encrypt_for_put (seal.pk_bytes_of w_dk) 7 ((Ok <$> w_pieces) ++ [Ok [x6a]]) w_sink
    "b" "k" 64 4 (Some 9) w_rng = Err (BodyTooLarge "b" "k" 9).
Proof.
  apply (put_cap_enforced w_dk 7 w_pieces [x6a] [] w_sink "b" "k" 64 4 9 w_rng).
  - done.
  - done.
  - apply w_at_end.
  - done.
  - vm_compute. discriminate.
  - vm_compute. discriminate.
  - vm_compute. reflexivity.
Defined.

End CipherWitness.
