(* ===== verification/Slots.v ===== *)
(** * Credential slots

    Models y2q-core/src/crypto/kdf.rs and the records of y2q-core/src/crypto/user_store.rs:
    the fixed-width slot payload, wrapping a slot under a password, and the four-slot row
    of a new account, one real slot at a random position and three decoys of the same
    shape. *)

From stdpp Require Import pretty.
From S2P Require Import Prelude Primitives Types Crypto.

Definition CREDENTIAL_SLOTS : nat := 4.

Record Argon2Params : Type := mkArgon2Params {
  m_cost_kib : Z;
  t_cost : Z;
  p_cost : Z;
  salt : bytes;
}.

Record CredentialSlot : Type := mkCredentialSlot {
  identity_pk_b64 : string;
  wrapped : WrappedSk;
}.

Record SlotPayload : Type := mkSlotPayload {
  sp_identity_sk : bytes;
  sp_role : Role;
  sp_revoke_other_sessions : bool;
}.

Record UserRecord : Type := mkUserRecord {
  ur_username : string;
  ur_created_at : Z;
  ur_last_login : option Z;
  ur_kdf : Argon2Params;
  ur_slots : list CredentialSlot;
  ur_primary_slot : Z;
  ur_role : Role;
}.

(** ** The fixed-width payload *)

Definition role_to_byte (role : Role) : byte :=
  match role with
  | Admin => x00 | User => x01 | ReadOnly => x02 | WriteOnly => x03 | Auditor => x04 | Disabled => x05
  end.

Definition role_from_byte (b : byte) : option Role :=
  match b with
  | x00 => Some Admin | x01 => Some User | x02 => Some ReadOnly
  | x03 => Some WriteOnly | x04 => Some Auditor | x05 => Some Disabled
  | _ => None
  end.

Definition SlotPayload_to_bytes (p : SlotPayload) : result CryptoError bytes :=
  if negb (blen (sp_identity_sk p) =? kem.SECRET_KEY_BYTES)
  then Err (Kdf ("identity secret key wrong size: " ++ pretty (blen (sp_identity_sk p)) ++ " (expected "
              ++ pretty kem.SECRET_KEY_BYTES ++ ")"))
  else Ok (sp_identity_sk p ++ [role_to_byte (sp_role p)] ++
           [if sp_revoke_other_sessions p then x01 else x00]).

Definition SlotPayload_from_bytes (b : bytes) : result CryptoError SlotPayload :=
  let expected := kem.SECRET_KEY_BYTES + 2 in
  let wrong_size := Kdf ("slot payload wrong size: " ++ pretty (blen b) ++ " (expected " ++ pretty expected ++ ")") in
  if negb (blen b =? expected) then Err wrong_size else
  let sk := take (Z.to_nat kem.SECRET_KEY_BYTES) b in
  match drop (Z.to_nat kem.SECRET_KEY_BYTES) b with
  | t0 :: t1 :: _ =>
      role ← ok_or (role_from_byte t0) (Kdf ("invalid role byte: " ++ pretty (Z_of_byte t0)));
      Ok (mkSlotPayload sk role (negb (bool_decide (t1 = x00))))
  | _ => Err wrong_size
  end.

Section slots.
Context {A : AeadOps} {K : KemOps} {B : Base64Ops} {R : RngOps} {RR : RandomRange} {G : Argon2Ops}.

Definition with_random_salt (m t p : Z) (r : rng) : Argon2Params * rng :=
  let '(s, r) := fill_bytes r 16 in (mkArgon2Params m t p s, r).

Definition default_argon2_params (r : rng) : Argon2Params * rng := with_random_salt (64 * 1024) 3 4 r.

Definition derive_kek (params : Argon2Params) (password : bytes) : result CryptoError bytes :=
  _ ← map_err (fun e => Kdf ("invalid params: " ++ e)%string)
        (argon2_params (m_cost_kib params) (t_cost params) (p_cost params));
  map_err (fun e => Kdf ("hash: " ++ e)%string)
    (argon2id (m_cost_kib params) (t_cost params) (p_cost params) password (salt params)).

Definition slot_wrap_aad (username : string) (slot : Z) : bytes :=
  as_bytes "y2q/v3/slot-wrap" ++ to_be_bytes 4 slot ++ lp (as_bytes username).

Definition wrap_slot (payload password : bytes) (params : Argon2Params) (aad : bytes) (r : rng)
  : result CryptoError (WrappedSk * rng) :=
  kek ← derive_kek params password;
  wrap_with_key payload kek aad r.

Definition unwrap_slot (w : WrappedSk) (kek aad : bytes) : result CryptoError bytes :=
  unwrap_with_key w kek aad.

Definition new_slot (username : string) (slot : nat) (password : bytes) (params : Argon2Params)
    (role : Role) (revoke_other_sessions : bool) (r : rng) : result CryptoError (CredentialSlot * rng) :=
  let '((pk, sk), r) := kem.keypair r in
  let payload := mkSlotPayload (dk_to_expanded_bytes sk) role revoke_other_sessions in
  payload_bytes ← SlotPayload_to_bytes payload;
  let aad := slot_wrap_aad username (Z.of_nat slot) in
  '(w, r) ← wrap_slot payload_bytes password params aad r;
  Ok (mkCredentialSlot (b64_encode (ek_to_bytes pk)) w, r).

Definition decoy_slot (username : string) (slot : nat) (params : Argon2Params) (r : rng)
  : result CryptoError (CredentialSlot * rng) :=
  let '((pk, sk), r) := kem.keypair r in
  let payload := mkSlotPayload (dk_to_expanded_bytes sk) User false in
  payload_bytes ← SlotPayload_to_bytes payload;
  let '(discarded_password, r) := fill_bytes r 32 in
  let aad := slot_wrap_aad username (Z.of_nat slot) in
  '(w, r) ← wrap_slot payload_bytes discarded_password params aad r;
  Ok (mkCredentialSlot (b64_encode (ek_to_bytes pk)) w, r).

(** [range.map(f).collect::<Result<Vec<_>, _>>()], threading the generator. *)
Fixpoint collect_slots (f : nat -> rng -> result CryptoError (CredentialSlot * rng)) (is_ : list nat)
    (r : rng) : result CryptoError (list CredentialSlot * rng) :=
  match is_ with
  | [] => Ok ([], r)
  | i :: rest =>
      '(s, r) ← f i r;
      '(ss, r) ← collect_slots f rest r;
      Ok (s :: ss, r)
  end.

Definition decoy_slots_from (username : string) (start : nat) (params : Argon2Params) (r : rng)
  : result CryptoError (list CredentialSlot * rng) :=
  collect_slots (fun i r => decoy_slot username i params r) (seq start (CREDENTIAL_SLOTS - start)) r.

Definition new_slots_random (username : string) (password : bytes) (params : Argon2Params)
    (role : Role) (revoke_other_sessions : bool) (r : rng)
  : result CryptoError (list CredentialSlot * nat * rng) :=
  let '(real_slot, r) := random_range r CREDENTIAL_SLOTS in
  '(slots, r) ← collect_slots (fun i r =>
      if bool_decide (i = real_slot) then new_slot username i password params role revoke_other_sessions r
      else decoy_slot username i params r) (seq 0 CREDENTIAL_SLOTS) r;
  Ok (slots, real_slot, r).

(** The loop of [attempt_unwrap]: every slot's AEAD open is tried, the first slot that
    opens to a well-formed payload is kept. *)
Fixpoint open_slots (username : string) (kek : bytes) (i : nat) (slots : list CredentialSlot)
    (opened : option (nat * SlotPayload)) : option (nat * SlotPayload) :=
  match slots with
  | [] => opened
  | s :: rest =>
      let aad := slot_wrap_aad username (Z.of_nat i) in
      let opened := match unwrap_slot (wrapped s) kek aad, opened with
                    | Ok b, None => match SlotPayload_from_bytes b with
                                    | Ok p => Some (i, p)
                                    | Err _ => None
                                    end
                    | _, _ => opened
                    end in
      open_slots username kek (S i) rest opened
  end.

End slots.

(** ** Round trips and shapes *)

Lemma role_byte_roundtrip role : role_from_byte (role_to_byte role) = Some role.
Proof. by destruct role. Qed.

Lemma payload_roundtrip p : blen (sp_identity_sk p) = kem.SECRET_KEY_BYTES ->
  exists b, SlotPayload_to_bytes p = Ok b /\ blen b = kem.SECRET_KEY_BYTES + 2 /\
    SlotPayload_from_bytes b = Ok p.
Proof.
  intros Hl. unfold SlotPayload_to_bytes. rewrite Hl, Z.eqb_refl. cbn [negb].
  eexists; split; [done|].
  assert (Hlen : blen (sp_identity_sk p ++ [role_to_byte (sp_role p)] ++
      [if sp_revoke_other_sessions p then x01 else x00]) = kem.SECRET_KEY_BYTES + 2)
    by (rewrite !blen_app, !blen_cons, !blen_nil; lia).
  split; [done|]. unfold SlotPayload_from_bytes. cbv zeta. rewrite Hlen, Z.eqb_refl. cbn [negb].
  assert (Hn : Z.to_nat kem.SECRET_KEY_BYTES = length (sp_identity_sk p)) by (unfold blen in Hl; lia).
  rewrite Hn, take_app_length, drop_app_length. cbn [app].
  rewrite role_byte_roundtrip. cbn [ok_or mbind result_bind]. destruct p as [sk role []]; done.
Qed.

Section theorems.
Context {A : AeadOps} {K : KemOps} {B : Base64Ops} {R : RngOps} {RR : RandomRange} {G : Argon2Ops}.
Context {AL : AeadLaws} {KL : KemLaws} {BL : Base64Laws} {RL : RngLaws} {RRL : RandomRangeLaws}.

(** A slot as a reader of the disk sees it: the public key has the ML-KEM length and the
    wrapped payload the length of any other. *)
Definition slot_shape (s : CredentialSlot) : Prop :=
  (exists pk, b64_decode (identity_pk_b64 s) = Some pk /\ blen pk = kem.PUBLIC_KEY_BYTES) /\
  blen (w_nonce (wrapped s)) = 12 /\
  blen (w_ciphertext (wrapped s)) = kem.SECRET_KEY_BYTES + 2 + 16.

(** A slot that belongs to the holder of [kek]: its payload opens to the secret half of
    its public key, with the given role and duress flag. *)
Definition opens_as (username : string) (i : nat) (kek : bytes) (role : Role) (rv : bool)
    (s : CredentialSlot) : Prop := exists dk b,
  identity_pk_b64 s = b64_encode (seal.pk_bytes_of dk) /\
  unwrap_slot (wrapped s) kek (slot_wrap_aad username (Z.of_nat i)) = Ok b /\
  SlotPayload_from_bytes b = Ok (mkSlotPayload (seal.sk_bytes_of dk) role rv).

Lemma wrap_with_key_shape p key aad r :
  blen p <= AEAD_P_MAX ->
  exists w r', wrap_with_key p key aad r = Ok (w, r') /\ blen (w_nonce w) = 12 /\
    blen (w_ciphertext w) = blen p + 16 /\ unwrap_with_key w key aad = Ok p.
Proof.
  intros Hp. pose proof (fill_bytes_len r 12) as Hn. pose proof (unwrap_wrap p key aad r) as Huw.
  unfold wrap_with_key in *. destruct (fill_bytes r 12) as [nonce r1]. cbn [fst] in Hn.
  destruct (aead_encrypt_total key nonce aad p Hp) as [ct E]. rewrite E in *. cbn in *.
  eexists _, _. split; [done|]. cbn. split_and!.
  - unfold blen. lia.
  - by apply aead_encrypt_len in E.
  - by apply (Huw _ r1).
Qed.

(** Both kinds of slot are made the same way, from a key pair and a key to wrap under. *)
Lemma slot_made username i kek role rv (sk : Dk) r :
  exists pb w r', SlotPayload_to_bytes (mkSlotPayload (dk_to_expanded_bytes sk) role rv) = Ok pb /\
    wrap_with_key pb kek (slot_wrap_aad username (Z.of_nat i)) r = Ok (w, r') /\
    let s := mkCredentialSlot (b64_encode (ek_to_bytes (dk_encapsulation_key sk))) w in
    slot_shape s /\ opens_as username i kek role rv s.
Proof.
  destruct (payload_roundtrip (mkSlotPayload (dk_to_expanded_bytes sk) role rv)) as (pb & Epb & Hlen & Hfrom).
  { cbn. apply dk_bytes_len. }
  destruct (wrap_with_key_shape pb kek (slot_wrap_aad username (Z.of_nat i)) r) as (w & r' & Ew & Hn & Hc & Hu).
  { rewrite Hlen. unfold kem.SECRET_KEY_BYTES, AEAD_P_MAX. lia. }
  exists pb, w, r'. split; [done|]. split; [done|]. cbv zeta. split.
  - unfold slot_shape. cbn [identity_pk_b64 wrapped]. split_and!; [|done|lia].
    eexists. rewrite b64_decode_encode. split; [done|]. apply ek_bytes_len.
  - exists sk, pb. done.
Qed.

Lemma new_slot_spec username i password params role rv kek r :
  derive_kek params password = Ok kek ->
  exists s r', new_slot username i password params role rv r = Ok (s, r') /\
    slot_shape s /\ opens_as username i kek role rv s.
Proof.
  intros Hk. unfold new_slot, kem.keypair. destruct (fill_bytes r 64) as [seed r1].
  destruct (slot_made username i kek role rv (dk_generate seed) r1) as (pb & w & r' & Epb & Ew & Hs & Ho).
  rewrite Epb. cbn [mbind result_bind]. unfold wrap_slot. rewrite Hk. cbn [mbind result_bind].
  rewrite Ew. cbn [mbind result_bind]. eauto.
Qed.

(** Key derivation does not depend on the password for its success. *)
Definition kdf_total (params : Argon2Params) : Prop :=
  forall password, exists kek, derive_kek params password = Ok kek.

Lemma decoy_slot_spec username i params r :
  kdf_total params ->
  exists s r', decoy_slot username i params r = Ok (s, r') /\ slot_shape s.
Proof.
  intros Hk. unfold decoy_slot, kem.keypair. destruct (fill_bytes r 64) as [seed r1].
  destruct (fill_bytes r1 32) as [pw r2] eqn:Epw. destruct (Hk pw) as [kek Hkek].
  destruct (slot_made username i kek User false (dk_generate seed) r2) as (pb & w & r' & Epb & Ew & Hs & _).
  rewrite Epb. cbn [mbind result_bind]. unfold wrap_slot. rewrite Hkek. cbn [mbind result_bind].
  rewrite Ew. cbn [mbind result_bind]. eauto.
Qed.

Lemma collect_slots_spec (f : nat -> rng -> result CryptoError (CredentialSlot * rng))
    (Q : nat -> CredentialSlot -> Prop) :
  (forall i r, exists s r', f i r = Ok (s, r') /\ Q i s) ->
  forall n start r, exists ss r', collect_slots f (seq start n) r = Ok (ss, r') /\ length ss = n /\
    forall j s, ss !! j = Some s -> Q (start + j)%nat s.
Proof.
  intros Hf. induction n as [|n IH]; intros start r; cbn [seq collect_slots].
  - exists [], r. split_and!; try done.
  - destruct (Hf start r) as (s & r1 & -> & Hs). cbn [mbind result_bind].
    destruct (IH (S start) r1) as (ss & r2 & -> & Hl & Hss). cbn [mbind result_bind].
    exists (s :: ss), r2. split_and!; [done | cbn; lia |].
    intros [|j] s' Hj; cbn in Hj; simplify_eq; [by rewrite Nat.add_0_r|].
    specialize (Hss j s' Hj). by rewrite Nat.add_succ_comm in Hss.
Qed.

(** A new account's credential row is deniable: it has exactly four slots, the slot
    at the returned index opens under the account's password to an identity key that
    matches its public key and to the account's role and duress flag, and every slot,
    real or decoy, has a public key and a wrapped payload of the same lengths. *)
Theorem new_account_deniable (username : string) (password : bytes) (params : Argon2Params) (role : Role)
    (rv : bool) (kek : bytes) (r : rng) :
  kdf_total params -> derive_kek params password = Ok kek ->
  exists slots real r', new_slots_random username password params role rv r = Ok (slots, real, r') /\
    length slots = CREDENTIAL_SLOTS /\ (real < CREDENTIAL_SLOTS)%nat /\ Forall slot_shape slots /\
    exists s, slots !! real = Some s /\ opens_as username real kek role rv s.
Proof.
  intros Htot Hk. unfold new_slots_random. pose proof (random_range_lt r CREDENTIAL_SLOTS) as Hlt.
  destruct (random_range r CREDENTIAL_SLOTS) as [real r1]. cbn [fst] in Hlt.
  specialize (Hlt ltac:(unfold CREDENTIAL_SLOTS; lia)).
  destruct (collect_slots_spec (fun i r =>
      if bool_decide (i = real) then new_slot username i password params role rv r
      else decoy_slot username i params r)
    (fun i s => slot_shape s /\ (i = real -> opens_as username i kek role rv s))) with (n := CREDENTIAL_SLOTS)
    (start := 0%nat) (r := r1) as (slots & r2 & E & Hl & Hall).
  { intros i r'. case_bool_decide as Hi.
    - destruct (new_slot_spec username i password params role rv kek r' Hk) as (s & r2 & E & ? & ?).
      exists s, r2. rewrite E. auto.
    - destruct (decoy_slot_spec username i params r' Htot) as (s & r2 & E & ?).
      exists s, r2. rewrite E. split_and!; done. }
  rewrite E. cbn [mbind result_bind]. exists slots, real, r2. split_and!; try done.
  - apply Forall_lookup_2. intros j s Hj. by apply (Hall j s).
  - destruct (lookup_lt_is_Some_2 slots real) as [s Hs]; [lia|]. exists s. split; [done|].
    by apply (Hall real s).
Qed.

(** The first slot that opens wins, and only slots that open are considered. *)
Lemma open_slots_kept username kek slots : forall i o, open_slots username kek i slots (Some o) = Some o.
Proof.
  induction slots as [|s slots IH]; intros i o; cbn [open_slots]; [done|].
  destruct (unwrap_slot _ _ _); apply IH.
Qed.

(** The login loop opens the right slot: when a slot's password derives [kek] and no
    earlier slot opens under it, the loop returns that slot's position, identity key,
    role and duress flag; and whatever it returns really is a slot of the record that
    opens under [kek] at its own position. *)
Theorem login_opens_slot (username : string) (kek : bytes) (before after : list CredentialSlot)
    (s : CredentialSlot) (role : Role) (rv : bool) (i : nat) (p : SlotPayload) :
  (opens_as username (length before) kek role rv s ->
   (forall j c, before !! j = Some c ->
      unwrap_slot (wrapped c) kek (slot_wrap_aad username (Z.of_nat j)) = Err AuthFailed) ->
   exists dk, open_slots username kek 0 (before ++ s :: after) None =
     Some (length before, mkSlotPayload (seal.sk_bytes_of dk) role rv) /\
     identity_pk_b64 s = b64_encode (seal.pk_bytes_of dk)) /\
  (open_slots username kek 0 (before ++ s :: after) None = Some (i, p) ->
   exists c b, (before ++ s :: after) !! i = Some c /\
     unwrap_slot (wrapped c) kek (slot_wrap_aad username (Z.of_nat i)) = Ok b /\
     SlotPayload_from_bytes b = Ok p).
Proof.
  split.
  - intros (dk & b & Hpk & Hu & Hf) Hbefore. exists dk. split; [|done].
    assert (Hgo : forall l k, (forall j c, l !! j = Some c ->
        unwrap_slot (wrapped c) kek (slot_wrap_aad username (Z.of_nat (k + j))) = Err AuthFailed) ->
      open_slots username kek k (l ++ s :: after) None =
      open_slots username kek (k + length l) (s :: after) None).
    { induction l as [|c l IH]; intros k Hl; cbn [app length]; [by rewrite Nat.add_0_r|].
      cbn [open_slots]. pose proof (Hl 0%nat c eq_refl) as Hc. rewrite Nat.add_0_r in Hc. rewrite Hc.
      rewrite IH; [by rewrite Nat.add_succ_comm|].
      intros j c' Hj. rewrite Nat.add_succ_comm. by apply (Hl (S j)). }
    rewrite (Hgo before 0%nat) by done. cbn [open_slots]. rewrite Nat.add_0_l, Hu, Hf.
    apply open_slots_kept.
  - generalize (before ++ s :: after) as slots. intros slots.
    assert (Hgo : forall l k, open_slots username kek k l None = Some (i, p) ->
      exists c b, l !! (i - k)%nat = Some c /\ (k <= i)%nat /\
        unwrap_slot (wrapped c) kek (slot_wrap_aad username (Z.of_nat i)) = Ok b /\
        SlotPayload_from_bytes b = Ok p).
    { induction l as [|c l IH]; intros k E; cbn [open_slots] in E; [done|].
      destruct (unwrap_slot (wrapped c) kek _) as [b|e] eqn:Eu.
      - destruct (SlotPayload_from_bytes b) as [q|] eqn:Eq.
        + rewrite open_slots_kept in E. simplify_eq. rewrite Nat.sub_diag. eauto 10.
        + apply IH in E as (c' & b' & Hl & Hle & ? & ?). exists c', b'.
          replace (i - k)%nat with (S (i - S k)) by lia. split_and!; try done. lia.
      - apply IH in E as (c' & b' & Hl & Hle & ? & ?). exists c', b'.
        replace (i - k)%nat with (S (i - S k)) by lia. split_and!; try done. lia. }
    intros E. apply Hgo in E as (c & b & Hl & _ & ? & ?). rewrite Nat.sub_0_r in Hl. eauto.
Qed.

End theorems.

Module SlotsWitness.
#[local] Existing Instances Toy.aead Toy.kem Toy.base64 Toy.rng_ops Toy.range_ops Toy.argon2
  Toy.aead_laws Toy.kem_laws Toy.base64_laws Toy.rng_laws Toy.range_laws.

Definition w_params : Argon2Params := mkArgon2Params 65536 3 4 (replicate 16 x09).
Definition w_pw : bytes := as_bytes "correct horse".
Definition w_kek : bytes := match derive_kek w_params w_pw with Ok k => k | Err _ => [] end.

Lemma new_account_deniable_witness :
  exists slots real r', new_slots_random "alice" w_pw w_params Admin true (6 : @rng Toy.rng_ops) =
      Ok (slots, real, r') /\
    length slots = CREDENTIAL_SLOTS /\ (real < CREDENTIAL_SLOTS)%nat /\ Forall slot_shape slots /\
    exists s, slots !! real = Some s /\ opens_as "alice" real w_kek Admin true s.
Proof.
  apply (new_account_deniable "alice" w_pw w_params Admin true w_kek (6 : @rng Toy.rng_ops)).
  - intros pw. vm_compute. eauto.
  - vm_compute. reflexivity.
Defined.

Definition w_slot : CredentialSlot :=
  match new_slot "alice" 0 w_pw w_params Admin true (6 : @rng Toy.rng_ops) with
  | Ok (s, _) => s
  | Err _ => mkCredentialSlot "" (mkWrappedSk [] [])
  end.

Lemma login_opens_slot_witness :
  exists c b, [w_slot] !! 0%nat = Some c /\
    unwrap_slot (wrapped c) w_kek (slot_wrap_aad "alice" 0) = Ok b /\
    SlotPayload_from_bytes b = Ok (mkSlotPayload (replicate 2400 x03) Admin true).
Proof.
  apply (login_opens_slot "alice" w_kek [] [] w_slot Admin true 0
           (mkSlotPayload (replicate 2400 x03) Admin true)).
  vm_compute. reflexivity.
Defined.

End SlotsWitness.
