(* ===== verification/Session.v ===== *)
(** * Sessions

    Models y2qd/src/auth/session.rs, y2qd/src/auth/keyring.rs, the sealing half of
    y2q-core/src/secmem.rs and the session gate of y2qd/src/auth/mod.rs.

    The store is a finite map from token hash to session row.  A [SystemTime] is a number
    of nanoseconds and [now] an explicit argument; the process-ephemeral wrapping key is
    the store's [keyring].  Failures of guarded-memory allocation are not modelled.
    [reachable] is the set of stores any sequence of operations can produce. *)

From stdpp Require Import pretty.
From S2P Require Import Prelude Primitives Types Crypto.

(** [AuthError]; [AuthForbidden] is its [Forbidden]. *)
Inductive AuthError : Type :=
| InvalidCredentials
| TokenMissing
| TokenInvalid
| TokenExpired
| AuthForbidden
| AccountDisabled
| TtlOutOfRange (max : Z)
| LockedOut (until : Z)
| UserExists (username : string)
| UserNotFound (username : string)
| CannotDeleteLastUser
| CannotDeleteLastAdmin
| CannotDeleteSoleGrantee (buckets : list string)
| CannotDemoteLastAdmin
| InvalidRole (role : string)
| InvalidUsername (reason : string)
| InvalidBody (reason : string)
| InvalidPersonaSlot (reason : string)
| RoleExceedsAccount
| PasswordReused
| Backend (what : string)
| InternalState
| S3CredentialUnknown
| RefreshLimitExceeded.

Definition AuthError_display (e : AuthError) : string :=
  match e with
  | InvalidCredentials => "invalid credentials"
  | TokenMissing => "authentication required"
  | TokenInvalid => "invalid authentication token"
  | TokenExpired => "authentication token expired"
  | AuthForbidden => "administrator privileges required"
  | AccountDisabled => "account disabled"
  | TtlOutOfRange m => "ttl_seconds out of range (max " ++ pretty m ++ ")"
  | LockedOut _ => "account temporarily locked; retry later"
  | UserExists u => "user already exists: " ++ u
  | UserNotFound u => "user not found: " ++ u
  | CannotDeleteLastUser => "cannot delete last remaining user"
  | CannotDeleteLastAdmin => "cannot delete the last remaining administrator"
  | CannotDeleteSoleGrantee bs => "user is the only key holder for bucket(s): " ++ String.concat ", " bs
  | CannotDemoteLastAdmin => "cannot demote the last remaining administrator"
  | InvalidRole r => "invalid role: " ++ r
  | InvalidUsername r => "invalid username: " ++ r
  | InvalidBody r => "invalid request body: " ++ r
  | InvalidPersonaSlot r => "invalid persona slot: " ++ r
  | RoleExceedsAccount => "persona role must not exceed the account's global role"
  | PasswordReused => "that password already opens one of your credential slots"
  | Backend w => "auth backend error: " ++ w
  | InternalState => "internal: auth state not configured"
  | S3CredentialUnknown => "invalid credential"
  | RefreshLimitExceeded => "refresh limit exceeded; log in again to continue"
  end.

Definition auth_status_code (e : AuthError) : Z :=
  match e with
  | InvalidCredentials | TokenMissing | TokenInvalid | TokenExpired => 401
  | AuthForbidden | AccountDisabled | S3CredentialUnknown | RefreshLimitExceeded => 403
  | LockedOut _ => 429
  | TtlOutOfRange _ | InvalidUsername _ | InvalidRole _ | InvalidPersonaSlot _ | RoleExceedsAccount
  | InvalidBody _ => 400
  | UserExists _ | CannotDeleteLastUser | CannotDeleteLastAdmin | CannotDemoteLastAdmin
  | CannotDeleteSoleGrantee _ | PasswordReused => 409
  | UserNotFound _ => 404
  | Backend _ | InternalState => 500
  end.

(** [AuthError::Backend(e.to_string())] *)
Definition backend (e : CryptoError) : AuthError := Backend (CryptoError_display e).

(** ** [secmem.rs]: sealing under the process-ephemeral key *)

Record SealedSecret : Type := mkSealedSecret { ss_nonce : bytes; ss_ct : bytes }.

Section keyring.
Context {A : AeadOps} {R : RngOps}.

Definition MemoryKey : Type := bytes.

Definition memory_seal (key : MemoryKey) (plaintext aad : bytes) (r : rng)
  : result CryptoError (SealedSecret * rng) :=
  let '(nonce_bytes, r) := fill_bytes r 12 in
  ct ← ok_or (aead_encrypt key nonce_bytes aad plaintext) (Aead "memory key seal");
  Ok (mkSealedSecret nonce_bytes ct, r).

Definition memory_open (key : MemoryKey) (sealed : SealedSecret) (aad : bytes)
  : result CryptoError bytes :=
  ok_or (aead_decrypt key (ss_nonce sealed) aad (ss_ct sealed)) AuthFailed.

(** ** [keyring.rs] *)

Definition identity_aad (token_hash : bytes) (username : string) (persona : Z) : bytes :=
  as_bytes "y2q/v1/session-sk" ++ token_hash ++ to_be_bytes 1 persona ++ lp (as_bytes username).

Definition bucket_key_aad (token_hash : bytes) (bucket : string) (epoch : Z) : bytes :=
  as_bytes "y2q/v1/session-bk" ++ token_hash ++ to_be_bytes 4 epoch ++ lp (as_bytes bucket).

Definition s3_secret_aad (token_hash : bytes) (access_key_id : string) : bytes :=
  as_bytes "y2q/v1/s3-secret" ++ token_hash ++ lp (as_bytes access_key_id).

Definition seal_identity (key : MemoryKey) (token_hash : bytes) (username : string) (persona : Z)
    (sk : bytes) (r : rng) : result AuthError (SealedSecret * rng) :=
  map_err backend (memory_seal key sk (identity_aad token_hash username persona) r).

Definition open_identity (key : MemoryKey) (token_hash : bytes) (username : string) (persona : Z)
    (sealed : SealedSecret) : result AuthError bytes :=
  map_err backend (memory_open key sealed (identity_aad token_hash username persona)).

Definition seal_bucket_key (key : MemoryKey) (token_hash : bytes) (bucket : string) (epoch : Z)
    (sk : bytes) (r : rng) : result AuthError (SealedSecret * rng) :=
  map_err backend (memory_seal key sk (bucket_key_aad token_hash bucket epoch) r).

Definition open_bucket_key (key : MemoryKey) (token_hash : bytes) (bucket : string) (epoch : Z)
    (sealed : SealedSecret) : result AuthError bytes :=
  map_err backend (memory_open key sealed (bucket_key_aad token_hash bucket epoch)).

Definition seal_s3_secret (key : MemoryKey) (token_hash : bytes) (access_key_id : string)
    (secret : bytes) (r : rng) : result AuthError (SealedSecret * rng) :=
  map_err backend (memory_seal key secret (s3_secret_aad token_hash access_key_id) r).

Definition open_s3_secret (key : MemoryKey) (token_hash : bytes) (access_key_id : string)
    (sealed : SealedSecret) : result AuthError bytes :=
  map_err backend (memory_open key sealed (s3_secret_aad token_hash access_key_id)).
End keyring.

(** ** The per-session bucket-key cache *)

Record BucketKeyCache : Type := mkBucketKeyCache {
  entries : gmap (string * Z) SealedSecret;
  order : list (string * Z);
}.

Definition MAX_SESSION_BUCKET_KEYS : Z := 32.

Definition cache_default : BucketKeyCache := mkBucketKeyCache empty [].

Definition cache_get (c : BucketKeyCache) (bucket : string) (epoch : Z) : option SealedSecret :=
  entries c !! (bucket, epoch).

Definition cache_insert (c : BucketKeyCache) (bucket : string) (epoch : Z) (key : SealedSecret)
  : BucketKeyCache :=
  let id := (bucket, epoch) in
  let c := match entries c !! id with
           | Some _ => c
           | None =>
               let order' := order c ++ [id] in
               if MAX_SESSION_BUCKET_KEYS <? blen order' then
                 match order' with
                 | oldest :: rest => mkBucketKeyCache (delete oldest (entries c)) rest
                 | [] => mkBucketKeyCache (entries c) order'
                 end
               else mkBucketKeyCache (entries c) order'
           end in
  mkBucketKeyCache (<[id := key]> (entries c)) (order c).

(** ** Sessions *)

Record NewSession : Type := mkNewSession {
  ns_username : string;
  ns_role : Role;
  ns_created_at : Z;
  ns_expires_at : Z;
  ns_persona : Z;
  ns_revoke_other_sessions : bool;
  ns_identity_sk : bytes;
}.

Record SessionInfo : Type := mkSessionInfo {
  si_username : string;
  si_role : Role;
  si_created_at : Z;
  si_expires_at : Z;
  si_persona : Z;
  si_revoke_other_sessions : bool;
  si_identity_sk : SealedSecret;
  si_refresh_count : Z;
  si_token_hash : bytes;
  si_bucket_keys : BucketKeyCache;
}.

Record SessionStore : Type := mkSessionStore {
  inner : gmap bytes SessionInfo;
  keyring : MemoryKey;
}.

Definition is_expired (s : SessionInfo) (now : Z) : bool := si_expires_at s <=? now.

Definition with_inner (st : SessionStore) (m : gmap bytes SessionInfo) : SessionStore :=
  mkSessionStore m (keyring st).

Section store.
Context {A : AeadOps} {R : RngOps} {T : TokenOps}.

Definition token_random (r : rng) : string * rng :=
  let '(raw, r) := fill_bytes r 32 in (b64url_encode raw, r).

Definition hash_token (token : string) : bytes := sha256 (as_bytes token).

Definition open_identity_sk (key : MemoryKey) (s : SessionInfo) : result AuthError bytes :=
  open_identity key (si_token_hash s) (si_username s) (si_persona s) (si_identity_sk s).

Definition with_identity_sk {B} (key : MemoryKey) (s : SessionInfo) (f : bytes -> B) : result AuthError B :=
  sk ← open_identity_sk key s; Ok (f sk).

Definition cached_bucket_key (key : MemoryKey) (s : SessionInfo) (bucket : string) (epoch : Z)
  : option (result AuthError bytes) :=
  open_bucket_key key (si_token_hash s) bucket epoch <$> cache_get (si_bucket_keys s) bucket epoch.

Definition cache_bucket_key (key : MemoryKey) (s : SessionInfo) (bucket : string) (epoch : Z)
    (sk : bytes) (r : rng) : result AuthError (SessionInfo * rng) :=
  '(sealed, r) ← seal_bucket_key key (si_token_hash s) bucket epoch sk r;
  Ok (mkSessionInfo (si_username s) (si_role s) (si_created_at s) (si_expires_at s) (si_persona s)
        (si_revoke_other_sessions s) (si_identity_sk s) (si_refresh_count s) (si_token_hash s)
        (cache_insert (si_bucket_keys s) bucket epoch sealed), r).

Definition store_new (r : rng) : SessionStore * rng :=
  let '(key, r) := fill_bytes r 32 in (mkSessionStore empty key, r).

Definition session_insert (st : SessionStore) (s : NewSession) (r : rng)
  : result AuthError (string * SessionStore * rng) :=
  let '(token, r) := token_random r in
  let token_hash := hash_token token in
  '(identity_sk, r) ← seal_identity (keyring st) token_hash (ns_username s) (ns_persona s)
                        (ns_identity_sk s) r;
  let info := mkSessionInfo (ns_username s) (ns_role s) (ns_created_at s) (ns_expires_at s)
    (ns_persona s) (ns_revoke_other_sessions s) identity_sk 0 token_hash cache_default in
  Ok (token, with_inner st (<[token_hash := info]> (inner st)), r).

Definition reissue (st : SessionStore) (old_hash : bytes) (expires_at max_refreshes : Z) (r : rng)
  : result AuthError (string * SessionStore * rng) :=
  old ← ok_or (inner st !! old_hash) TokenInvalid;
  if max_refreshes <=? si_refresh_count old then Err RefreshLimitExceeded else
  sk ← open_identity_sk (keyring st) old;
  let '(token, r) := token_random r in
  let new_hash := hash_token token in
  '(identity_sk, r) ← seal_identity (keyring st) new_hash (si_username old) (si_persona old) sk r;
  let info := mkSessionInfo (si_username old) (si_role old) (si_created_at old) expires_at
    (si_persona old) (si_revoke_other_sessions old) identity_sk (si_refresh_count old + 1)
    new_hash cache_default in
  Ok (token, with_inner st (delete old_hash (<[new_hash := info]> (inner st))), r).

(** The store is updated also on the error path (an expired row is dropped). *)
Definition get_active (st : SessionStore) (token_hash : bytes) (now : Z)
  : result AuthError SessionInfo * SessionStore :=
  match inner st !! token_hash with
  | None => (Err TokenInvalid, st)
  | Some info =>
      if is_expired info now then (Err TokenExpired, with_inner st (delete token_hash (inner st)))
      else (Ok info, st)
  end.

Definition revoke (st : SessionStore) (token_hash : bytes) : bool * SessionStore :=
  (bool_decide (is_Some (inner st !! token_hash)), with_inner st (delete token_hash (inner st))).

(** The keys of the rows that satisfy [p], and their removal one by one. *)
Definition victims_of (p : bytes -> SessionInfo -> bool) (m : gmap bytes SessionInfo) : list bytes :=
  (map_to_list (filter (fun kv => p kv.1 kv.2 = true) m)).*1.

Definition remove_all (st : SessionStore) (victims : list bytes) : SessionStore :=
  with_inner st (foldl (fun m k => delete k m) (inner st) victims).

Definition revoke_user (st : SessionStore) (username : string) : Z * SessionStore :=
  let victims := victims_of (fun _ i => bool_decide (si_username i = username)) (inner st) in
  (blen victims, remove_all st victims).

Definition revoke_user_persona (st : SessionStore) (username : string) (persona : Z) : Z * SessionStore :=
  let victims := victims_of (fun _ i => bool_decide (si_username i = username) && (si_persona i =? persona))
    (inner st) in
  (blen victims, remove_all st victims).

Definition revoke_user_persona_except (st : SessionStore) (username : string) (persona : Z) (keep : bytes)
  : Z * SessionStore :=
  let victims := victims_of (fun k i => bool_decide (si_username i = username) && (si_persona i =? persona)
    && negb (bool_decide (k = keep))) (inner st) in
  (blen victims, remove_all st victims).

Definition sweep (st : SessionStore) (now : Z) : Z * SessionStore :=
  let stale := victims_of (fun _ i => is_expired i now) (inner st) in
  (blen stale, remove_all st stale).

Definition store_len (st : SessionStore) : Z := Z.of_nat (size (inner st)).

(** One victim of [switch_user_to_persona]; a failed re-seal is logged and skipped. *)
Definition switch_one (username : string) (new_persona : Z) (new_role : Role) (new_revoke : bool)
    (identity_sk : bytes) (st_r : SessionStore * rng) (k : bytes) : SessionStore * rng :=
  let '(st, r) := st_r in
  match inner st !! k with
  | None => (st, r)
  | Some old =>
      match seal_identity (keyring st) k username new_persona identity_sk r with
      | Err _ => (st, r)
      | Ok (sealed, r) =>
          let switched := mkSessionInfo (si_username old) new_role (si_created_at old) (si_expires_at old)
            new_persona new_revoke sealed (si_refresh_count old) k cache_default in
          (with_inner st (<[k := switched]> (inner st)), r)
      end
  end.

Definition switch_user_to_persona (st : SessionStore) (username : string) (new_persona : Z)
    (new_role : Role) (new_revoke : bool) (identity_sk : bytes) (r : rng) : Z * SessionStore * rng :=
  let victims := victims_of
    (fun _ i => bool_decide (si_username i = username) && negb (si_persona i =? new_persona)) (inner st) in
  let '(st, r) := foldl (switch_one username new_persona new_role new_revoke identity_sk) (st, r) victims in
  (blen victims, st, r).

(** [SystemTime::now() + Duration::from_secs(ttl)], in nanoseconds. *)
Definition compute_expiry (requested_seconds : option Z) (default_ttl max_ttl now : Z)
  : result AuthError Z :=
  let ttl := default default_ttl requested_seconds in
  if (ttl =? 0) || (max_ttl <? ttl) then Err (TtlOutOfRange max_ttl) else Ok (now + ttl * 1000000000).

(** ** [auth/mod.rs]: the gate every request passes *)

Record Authenticated : Type := mkAuthenticated {
  au_username : string;
  au_role : Role;
  au_token_hash : bytes;
  au_session : SessionInfo;
  au_authz_enforced : bool;
}.

Definition is_admin (a : Authenticated) : bool :=
  negb (au_authz_enforced a) || bool_decide (au_role a = Admin).

Definition is_admin_or_auditor (a : Authenticated) : bool :=
  negb (au_authz_enforced a) || bool_decide (au_role a = Admin) || bool_decide (au_role a = Auditor).

Definition authenticate_token_hash (st : SessionStore) (enforce_authorization : bool)
    (token_hash : bytes) (now : Z) : result AuthError Authenticated * SessionStore :=
  let '(res, st) := get_active st token_hash now in
  (session ← res;
   if enforce_authorization && bool_decide (si_role session = Disabled) then Err AccountDisabled
   else Ok (mkAuthenticated (si_username session) (si_role session) token_hash session
              enforce_authorization), st).

End store.

(** ** The cache invariant *)

Definition cache_ok (c : BucketKeyCache) : Prop :=
  NoDup (order c) /\ blen (order c) <= MAX_SESSION_BUCKET_KEYS /\
  forall id, id ∈ order c <-> is_Some (entries c !! id).

Lemma cache_default_ok : cache_ok cache_default.
Proof.
  split_and!; [constructor | done |]. intros id. cbn. rewrite lookup_empty.
  split; [by intros ?%elem_of_nil | by intros [? ?]].
Qed.

Lemma cache_insert_hit c b e key v :
  entries c !! (b, e) = Some v ->
  cache_insert c b e key = mkBucketKeyCache (<[(b, e) := key]> (entries c)) (order c).
Proof. intros E. unfold cache_insert. by rewrite E. Qed.

Lemma cache_insert_ok c b e key : cache_ok c -> cache_ok (cache_insert c b e key).
Proof.
  intros (Hnd & Hlen & Hiff). destruct (entries c !! (b, e)) as [v|] eqn:E.
  { rewrite (cache_insert_hit _ _ _ _ v E). split_and!; try done. intros id. cbn.
    rewrite Hiff, lookup_insert_is_Some'. split; [by right|]. intros [<-|?]; [by rewrite E|done]. }
  assert (Hni : (b, e) ∉ order c) by (rewrite Hiff, E; by intros [? ?]).
  unfold cache_insert. rewrite E. unfold MAX_SESSION_BUCKET_KEYS in *.
  assert (Hl : blen (order c ++ [(b, e)]) = blen (order c) + 1)
    by (rewrite blen_app, blen_cons, blen_nil; lia).
  destruct (Z.ltb_spec 32 (blen (order c ++ [(b, e)]))) as [Hlt|Hle].
  - destruct (order c) as [|o rest] eqn:Eo; [rewrite Hl, blen_nil in Hlt; lia|].
    cbn [app order entries]. apply NoDup_cons in Hnd as [Ho Hnd]. rewrite blen_cons in *.
    split_and!.
    + apply NoDup_app. split_and!; [done | | apply NoDup_singleton].
      intros x Hx ->%list_elem_of_singleton. apply Hni. by right.
    + cbn [order]. unfold MAX_SESSION_BUCKET_KEYS. rewrite blen_app, blen_cons, blen_nil. lia.
    + intros id. cbn [order entries].
      assert (Hor : id ∈ rest ++ [(b, e)] <-> id ∈ rest \/ id = (b, e))
        by (rewrite elem_of_app, list_elem_of_singleton; done).
      rewrite Hor, lookup_insert_is_Some', lookup_delete_is_Some, <- Hiff, elem_of_cons.
      split; [intros [Hr| ->]; [right; split; [by intros -> | by right] | by left] |].
      intros [<-|[Hne [->|Hr]]]; [by right | done | by left].
  - cbn [order entries]. split_and!.
    + apply NoDup_app. split_and!; [done | | apply NoDup_singleton].
      by intros x Hx ->%list_elem_of_singleton.
    + cbn [order]. unfold MAX_SESSION_BUCKET_KEYS. lia.
    + intros id. cbn [order entries].
      rewrite elem_of_app, list_elem_of_singleton, lookup_insert_is_Some', <- Hiff. split; [intros [?| ->]; auto | intros [<-|?]; auto].
Qed.

(** ** The store invariant *)

Section invariant.
Context {A : AeadOps} {R : RngOps} {T : TokenOps} {AL : AeadLaws} {RL : RngLaws}.

Lemma memory_open_seal key p aad r s r' :
  memory_seal key p aad r = Ok (s, r') -> memory_open key s aad = Ok p.
Proof.
  unfold memory_seal, memory_open. destruct (fill_bytes r 12) as [nonce r1].
  destruct (aead_encrypt key nonce aad p) as [ct|] eqn:E; cbn; [|done].
  intros ?; simplify_eq. cbn. by rewrite (aead_decrypt_encrypt _ _ _ _ _ E).
Qed.

Lemma memory_seal_total key p aad r :
  blen p <= AEAD_P_MAX -> exists s r', memory_seal key p aad r = Ok (s, r').
Proof.
  intros Hp. unfold memory_seal. destruct (fill_bytes r 12) as [nonce r1].
  destruct (aead_encrypt_total key nonce aad p Hp) as [ct ->]. cbn. eauto.
Qed.

Lemma map_err_Ok_inv {E F B} (f : E -> F) (x : result E B) v : map_err f x = Ok v -> x = Ok v.
Proof. destruct x; cbn; intros; by simplify_eq. Qed.

Lemma seal_identity_opens key h u p sk r s r' :
  seal_identity key h u p sk r = Ok (s, r') -> open_identity key h u p s = Ok sk.
Proof.
  intros E%map_err_Ok_inv. unfold open_identity. by rewrite (memory_open_seal _ _ _ _ _ _ E).
Qed.

(** A row sits under its own token hash, its sealed identity key opens there, every
    cached bucket key opens, and it has not been refreshed too often. *)
Record row_ok (max_refreshes : Z) (key : MemoryKey) (h : bytes) (i : SessionInfo) : Prop := mkRowOk {
  row_hash : si_token_hash i = h;
  row_identity : exists sk, open_identity_sk key i = Ok sk;
  row_refresh : 0 <= si_refresh_count i <= max_refreshes;
  row_cache : cache_ok (si_bucket_keys i);
  row_keys : forall b e v, entries (si_bucket_keys i) !! (b, e) = Some v ->
    exists sk, open_bucket_key key h b e v = Ok sk;
}.

Definition store_ok (max_refreshes : Z) (st : SessionStore) : Prop :=
  map_Forall (row_ok max_refreshes (keyring st)) (inner st).

Lemma fresh_row_ok max key h u role c e p rv sealed n sk :
  open_identity key h u p sealed = Ok sk -> 0 <= n <= max ->
  row_ok max key h (mkSessionInfo u role c e p rv sealed n h cache_default).
Proof.
  intros Ho Hn. constructor; cbn -[cache_ok cache_default]; try done.
  - by exists sk.
  - apply cache_default_ok.
Qed.

(** Rows removed by key. *)
Lemma foldl_delete_lookup (vs : list bytes) (m : gmap bytes SessionInfo) (k : bytes) :
  foldl (fun m k => delete k m) m vs !! k = if decide (k ∈ vs) then None else m !! k.
Proof.
  revert m. induction vs as [|v vs IH]; intros m; cbn [foldl].
  - by rewrite decide_False by apply not_elem_of_nil.
  - rewrite IH. destruct (decide (k ∈ vs)).
    + by rewrite decide_True by (by right).
    + destruct (decide (k = v)) as [->|Hne].
      * rewrite lookup_delete_eq, decide_True by (by left). done.
      * rewrite lookup_delete_ne, decide_False; [done| |done]. by intros [?|?]%elem_of_cons.
Qed.

Lemma elem_of_victims (p : bytes -> SessionInfo -> bool) (m : gmap bytes SessionInfo) (k : bytes) :
  k ∈ victims_of p m <-> exists i, m !! k = Some i /\ p k i = true.
Proof.
  unfold victims_of. rewrite list_elem_of_fmap. split.
  - intros ([k' i] & -> & Hin). apply elem_of_map_to_list, map_lookup_filter_Some in Hin. eauto.
  - intros (i & Hi & Hp). exists (k, i). split; [done|].
    by apply elem_of_map_to_list, map_lookup_filter_Some.
Qed.

Lemma victims_NoDup (p : bytes -> SessionInfo -> bool) (m : gmap bytes SessionInfo) : NoDup (victims_of p m).
Proof. apply NoDup_fst_map_to_list. Qed.

(** Removal of victims keeps exactly the rows the predicate rejects. *)
Lemma lookup_revoked st p k i :
  inner (remove_all st (victims_of p (inner st))) !! k = Some i <->
  inner st !! k = Some i /\ p k i = false.
Proof.
  unfold remove_all, with_inner. cbn [inner]. rewrite foldl_delete_lookup.
  destruct (decide (k ∈ victims_of p (inner st))) as [Hv|Hv]; rewrite elem_of_victims in Hv.
  - destruct Hv as (j & Hj & Hp). split; [done|]. intros [Hi Hf]. congruence.
  - split; [|tauto]. intros Hi. split; [done|].
    destruct (p k i) eqn:Hp; [|done]. exfalso. eauto.
Qed.

Lemma store_ok_sub max st st' :
  store_ok max st -> keyring st' = keyring st ->
  (forall k i, inner st' !! k = Some i -> inner st !! k = Some i) -> store_ok max st'.
Proof. intros Hok Hk Hsub k i Hi. rewrite Hk. by apply Hok, Hsub. Qed.

Lemma store_ok_insert max st h i :
  store_ok max st -> row_ok max (keyring st) h i -> store_ok max (with_inner st (<[h := i]> (inner st))).
Proof. intros Hok Hr. by apply map_Forall_insert_2. Qed.

Lemma store_ok_remove max st vs : store_ok max st -> store_ok max (remove_all st vs).
Proof.
  intros Hok. apply (store_ok_sub max st); [done|done|]. intros k i Hi.
  unfold remove_all, with_inner in Hi. cbn [inner] in Hi. rewrite foldl_delete_lookup in Hi.
  by case_decide.
Qed.

Lemma store_ok_delete max st k : store_ok max st -> store_ok max (with_inner st (delete k (inner st))).
Proof.
  intros Hok. apply (store_ok_sub max st); [done|done|]. intros k' i Hi. cbn in Hi.
  by apply lookup_delete_Some in Hi as [_ ?].
Qed.

Lemma switch_one_ok max u p role rv sk st r k st' r' :
  store_ok max st ->
  (forall i, inner st !! k = Some i -> si_username i = u) ->
  switch_one u p role rv sk (st, r) k = (st', r') -> store_ok max st' /\ keyring st' = keyring st.
Proof.
  intros Hok Hu E. unfold switch_one in E. destruct (inner st !! k) as [old|] eqn:Hk; [|by simplify_eq].
  destruct (seal_identity _ _ _ _ _ _) as [[sealed r1]|] eqn:Es; simplify_eq; [|done].
  split; [|done]. apply store_ok_insert; [done|]. rewrite (Hu old eq_refl).
  apply (fresh_row_ok _ _ _ _ _ _ _ _ _ _ _ sk); [by apply seal_identity_opens in Es|].
  by apply Hok in Hk as [].
Qed.

(** ** Reachable stores *)

(** One operation on the store; [max_refreshes] is the configured limit. *)
Inductive store_step (max_refreshes : Z) : SessionStore -> SessionStore -> Prop :=
| step_insert st s r token st' r' :
    session_insert st s r = Ok (token, st', r') -> store_step max_refreshes st st'
| step_reissue st h e r token st' r' :
    reissue st h e max_refreshes r = Ok (token, st', r') -> store_step max_refreshes st st'
| step_get_active st h now : store_step max_refreshes st (snd (get_active st h now))
| step_revoke st h : store_step max_refreshes st (snd (revoke st h))
| step_revoke_user st u : store_step max_refreshes st (snd (revoke_user st u))
| step_revoke_persona st u p : store_step max_refreshes st (snd (revoke_user_persona st u p))
| step_revoke_except st u p k : store_step max_refreshes st (snd (revoke_user_persona_except st u p k))
| step_sweep st now : store_step max_refreshes st (snd (sweep st now))
| step_switch st u p role rv sk r n st' r' :
    switch_user_to_persona st u p role rv sk r = (n, st', r') -> store_step max_refreshes st st'
| step_cache st h s b e sk r s' r' :
    inner st !! h = Some s -> cache_bucket_key (keyring st) s b e sk r = Ok (s', r') ->
    store_step max_refreshes st (with_inner st (<[h := s']> (inner st))).

Definition reachable (max_refreshes : Z) (st : SessionStore) : Prop :=
  exists r, rtc (store_step max_refreshes) (fst (store_new r)) st.

Lemma switch_one_username u p role rv sk st r k st' r' :
  switch_one u p role rv sk (st, r) k = (st', r') ->
  forall h i', inner st' !! h = Some i' -> exists i, inner st !! h = Some i /\ si_username i' = si_username i.
Proof.
  intros E h i' Hi'. unfold switch_one in E. destruct (inner st !! k) as [old|] eqn:Hk; simplify_eq; [|eauto].
  destruct (seal_identity _ _ _ _ _ _) as [[sealed r1]|]; simplify_eq; [|eauto].
  cbn in Hi'. apply lookup_insert_Some in Hi' as [[<- <-]|[_ ?]]; eauto.
Qed.

Lemma switch_all_ok max u p role rv sk vs : forall st r st' r',
  store_ok max st ->
  (forall k i, k ∈ vs -> inner st !! k = Some i -> si_username i = u) ->
  foldl (switch_one u p role rv sk) (st, r) vs = (st', r') ->
  store_ok max st' /\ keyring st' = keyring st.
Proof.
  induction vs as [|v vs IH]; intros st r st' r' Hok Hu E; cbn [foldl] in E; [by simplify_eq|].
  destruct (switch_one u p role rv sk (st, r) v) as [st1 r1] eqn:E1.
  destruct (switch_one_ok max _ _ _ _ _ _ _ _ _ _ Hok (fun i => Hu v i ltac:(by left)) E1) as [Hok1 Hk1].
  rewrite <- Hk1. apply (IH st1 r1 st' r'); [done| |done].
  intros k i Hk Hi. destruct (switch_one_username _ _ _ _ _ _ _ _ _ _ E1 k i Hi) as (j & Hj & ->).
  apply (Hu k j); [by right|done].
Qed.

Lemma cache_bucket_key_ok max key h s b e sk r s' r' :
  row_ok max key h s -> cache_bucket_key key s b e sk r = Ok (s', r') -> row_ok max key h s'.
Proof.
  intros [Hh Hid Hr Hc Hks] E. unfold cache_bucket_key in E.
  apply bind_Ok_inv in E as ([sealed r1] & Es & E). simplify_eq.
  constructor; cbn [si_token_hash si_refresh_count si_bucket_keys]; try done.
  - by apply cache_insert_ok.
  - intros b' e' v Hv. destruct (decide ((b', e') = (b, e))) as [[= -> ->]|Hne].
    + assert (v = sealed) as -> by (unfold cache_insert in Hv; cbn in Hv; by rewrite lookup_insert_eq in Hv; simplify_eq).
      exists sk. apply map_err_Ok_inv in Es. unfold open_bucket_key.
      by rewrite (memory_open_seal _ _ _ _ _ _ Es).
    + apply (Hks b' e' v). unfold cache_insert in Hv. cbn [entries] in Hv.
      rewrite lookup_insert_ne in Hv by done.
      destruct (entries (si_bucket_keys s) !! (b, e)); [done|].
      case_match; [|done]. case_match; [done|]. cbn [entries] in Hv.
      by apply lookup_delete_Some in Hv as [_ ?].
Qed.

Lemma store_step_ok max st st' : 0 <= max -> store_step max st st' -> store_ok max st -> store_ok max st'.
Proof.
  intros Hmax Hstep Hok. destruct Hstep as
    [st s r token st' r' E|st h e r token st' r' E|st h now|st h|st u|st u p|st u p k|st now
    |st u p role rv sk r n st' r' E|st h s b e sk r s' r' Hs E];
    try (by apply store_ok_remove).
  - unfold session_insert in E. destruct (token_random r) as [tok r1].
    apply bind_Ok_inv in E as ([sealed r2] & Es & E). simplify_eq.
    apply store_ok_insert; [done|]. apply seal_identity_opens in Es.
    by apply (fresh_row_ok _ _ _ _ _ _ _ _ _ _ _ (ns_identity_sk s)).
  - unfold reissue in E. apply bind_Ok_inv in E as (old & Ho & E).
    destruct (inner st !! h) as [old'|] eqn:Hl; cbn in Ho; simplify_eq.
    destruct (Z.leb_spec max (si_refresh_count old)); [done|].
    apply bind_Ok_inv in E as (sk & Hsk & E). destruct (token_random r) as [tok r1].
    apply bind_Ok_inv in E as ([sealed r2] & Es & E). simplify_eq. apply seal_identity_opens in Es.
    refine (store_ok_delete max (with_inner st _) h _).
    apply store_ok_insert; [done|]. apply (fresh_row_ok _ _ _ _ _ _ _ _ _ _ _ sk); [done|].
    apply Hok in Hl as []. lia.
  - unfold get_active. destruct (inner st !! h); [|done]. case_match; [|done]. by apply store_ok_delete.
  - by apply store_ok_delete.
  - unfold switch_user_to_persona in E.
    destruct (foldl _ _ _) as [st1 r1] eqn:Ef in E. simplify_eq.
    apply (switch_all_ok max) in Ef as [? _]; [done|done|].
    intros k i Hv Hi. apply elem_of_victims in Hv as (j & Hj & Hp). simplify_eq.
    apply andb_true_iff in Hp as [Hp%bool_decide_eq_true _]. done.
  - apply store_ok_insert; [done|]. apply (cache_bucket_key_ok max _ _ s b e sk r s' r'); [|done]. by apply Hok.
Qed.

(** C18: in every reachable session store each row sits under the hash of its own token,
    its sealed identity key and all its cached bucket keys open there, its cache holds at
    most 32 keys without duplicates, and no token lineage has been refreshed more often
    than the configured limit. *)
Theorem session_store_invariant (max_refreshes : Z) (st : SessionStore) :
  0 <= max_refreshes -> reachable max_refreshes st -> store_ok max_refreshes st.
Proof.
  intros Hmax [r Hr].
  assert (Hok : store_ok max_refreshes (fst (store_new r))).
  { unfold store_new. destruct (fill_bytes r 32). apply map_Forall_empty. }
  induction Hr as [|st st1 st2 Hstep Hr IH]; [done|].
  apply IH. by apply (store_step_ok max_refreshes st).
Qed.

(** A refresh rotates the token and nothing else: the old token is dead, the new one
    names a session of the same user, role and persona whose identity key is the same,
    with the new expiry, an empty key cache and the refresh count one higher; every other
    session is untouched; and a session at the limit is refused. *)
Theorem reissue_rotates (st st' : SessionStore) (old_hash : bytes) (expires_at max_refreshes : Z)
    (r r' : rng) (token : string) :
  reissue st old_hash expires_at max_refreshes r = Ok (token, st', r') ->
  hash_token token <> old_hash ->
  exists old new, inner st !! old_hash = Some old /\ si_refresh_count old < max_refreshes /\
    inner st' !! old_hash = None /\ inner st' !! hash_token token = Some new /\
    si_username new = si_username old /\ si_role new = si_role old /\
    si_persona new = si_persona old /\ si_expires_at new = expires_at /\
    si_refresh_count new = si_refresh_count old + 1 /\ si_bucket_keys new = cache_default /\
    (exists sk, open_identity_sk (keyring st) old = Ok sk /\ open_identity_sk (keyring st') new = Ok sk) /\
    forall h, h <> old_hash -> h <> hash_token token -> inner st' !! h = inner st !! h.
Proof.
  intros E Hne. unfold reissue in E. apply bind_Ok_inv in E as (old & Ho & E).
  destruct (inner st !! old_hash) as [old'|] eqn:Hl; cbn in Ho; simplify_eq.
  destruct (Z.leb_spec max_refreshes (si_refresh_count old)); [done|].
  apply bind_Ok_inv in E as (sk & Hsk & E). destruct (token_random r) as [tok r1].
  apply bind_Ok_inv in E as ([sealed r2] & Es & E). simplify_eq. apply seal_identity_opens in Es.
  eexists old, _. cbn [inner with_inner].
  rewrite lookup_delete_eq, lookup_delete_ne, lookup_insert_eq by done.
  split_and!; try done; [by exists sk|].
  intros h Hh Hh'. by rewrite lookup_delete_ne, lookup_insert_ne.
Qed.

Lemma size_foldl_delete (vs : list bytes) : forall (m : gmap bytes SessionInfo),
  NoDup vs -> (forall k, k ∈ vs -> is_Some (m !! k)) ->
  Z.of_nat (size (foldl (fun m k => delete k m) m vs)) = Z.of_nat (size m) - blen vs.
Proof.
  induction vs as [|v vs IH]; intros m Hnd Hin; cbn [foldl]; [rewrite blen_nil; lia|].
  apply NoDup_cons in Hnd as [Hv Hnd]. destruct (Hin v) as [i Hi]; [by left|].
  rewrite IH, blen_cons.
  - rewrite map_size_delete, Hi. pose proof (map_size_ne_0_lookup_2 m v) as Hs.
    rewrite Hi in Hs. specialize (Hs ltac:(done)). lia.
  - done.
  - intros k Hk. rewrite lookup_delete_ne by (by intros ->). apply Hin. by right.
Qed.

(** Every bulk removal keeps exactly the rows its predicate rejects and returns how many
    it removed. *)
Lemma bulk_removal st (p : bytes -> SessionInfo -> bool) :
  let st' := remove_all st (victims_of p (inner st)) in
  (forall k i, inner st' !! k = Some i <-> inner st !! k = Some i /\ p k i = false) /\
  store_len st' = store_len st - blen (victims_of p (inner st)).
Proof.
  split; [intros; apply lookup_revoked|].
  apply size_foldl_delete; [apply victims_NoDup|].
  intros k (i & Hi & _)%elem_of_victims. eauto.
Qed.

(** Revocation is exact: revoking a user drops every session of that user and no
    other; a password change drops every session of that user and persona except the
    caller's; the sweep drops exactly the expired ones; each returns how many it removed. *)
Theorem revocation_exact (st : SessionStore) (user : string) (persona : Z) (keep : bytes) (now : Z) :
  (forall k i, inner (snd (revoke_user st user)) !! k = Some i <->
     inner st !! k = Some i /\ si_username i <> user) /\
  (forall k i, inner (snd (revoke_user_persona_except st user persona keep)) !! k = Some i <->
     inner st !! k = Some i /\ (si_username i <> user \/ si_persona i <> persona \/ k = keep)) /\
  (forall k i, inner (snd (sweep st now)) !! k = Some i <->
     inner st !! k = Some i /\ now < si_expires_at i) /\
  store_len (snd (revoke_user st user)) = store_len st - fst (revoke_user st user) /\
  store_len (snd (revoke_user_persona_except st user persona keep)) =
    store_len st - fst (revoke_user_persona_except st user persona keep) /\
  store_len (snd (sweep st now)) = store_len st - fst (sweep st now).
Proof.
  split_and!; try (apply bulk_removal); intros k i.
  - unfold revoke_user. cbn [snd]. rewrite lookup_revoked, bool_decide_eq_false. done.
  - unfold revoke_user_persona_except. cbn [snd]. rewrite lookup_revoked.
    rewrite !andb_false_iff, negb_false_iff, bool_decide_eq_false, Z.eqb_neq, bool_decide_eq_true. tauto.
  - unfold sweep, is_expired. cbn [snd]. rewrite lookup_revoked, Z.leb_gt. done.
Qed.

(** What the duress switch does to one row. *)
Definition switched_row (key : MemoryKey) (h : bytes) (persona : Z) (role : Role) (rv : bool) (sk : bytes)
    (old new : SessionInfo) : Prop :=
  si_username new = si_username old /\ si_role new = role /\ si_persona new = persona /\
  si_revoke_other_sessions new = rv /\ si_created_at new = si_created_at old /\
  si_expires_at new = si_expires_at old /\ si_refresh_count new = si_refresh_count old /\
  si_token_hash new = h /\ si_bucket_keys new = cache_default /\
  open_identity_sk key new = Ok sk.

Lemma switch_all_rows u p role rv sk vs : forall st r st' r',
  blen sk <= AEAD_P_MAX -> NoDup vs ->
  (forall k, k ∈ vs -> exists i, inner st !! k = Some i /\ si_username i = u) ->
  foldl (switch_one u p role rv sk) (st, r) vs = (st', r') ->
  keyring st' = keyring st /\
  (forall k i, k ∈ vs -> inner st !! k = Some i ->
     exists i', inner st' !! k = Some i' /\ switched_row (keyring st) k p role rv sk i i') /\
  (forall k, k ∉ vs -> inner st' !! k = inner st !! k).
Proof.
  induction vs as [|v vs IH]; intros st r st' r' Hsk Hnd Hu E; cbn [foldl] in E.
  { simplify_eq. split_and!; [done | by intros k i ?%elem_of_nil | done]. }
  apply NoDup_cons in Hnd as [Hv Hnd]. destruct (Hu v) as (old & Hold & Hname); [by left|].
  unfold switch_one in E at 2. rewrite Hold in E.
  destruct (memory_seal_total (keyring st) sk (identity_aad v u p) r Hsk) as (sealed & r1 & Es).
  assert (Es' : seal_identity (keyring st) v u p sk r = Ok (sealed, r1))
    by (unfold seal_identity; by rewrite Es).
  rewrite Es' in E. set (new := mkSessionInfo _ _ _ _ _ _ _ _ _ _) in E.
  apply IH in E as (Hk & Hin & Hout); [|done|done|].
  2: { intros k Hk. destruct (Hu k) as (i & Hi & ?); [by right|]. exists i. cbn.
       by rewrite lookup_insert_ne by (by intros ->). }
  cbn [keyring with_inner inner] in *. split_and!; [done| |].
  - intros k i [->|Hk']%elem_of_cons Hi.
    + exists new. rewrite Hout, lookup_insert_eq by done. split; [done|]. simplify_eq.
      unfold switched_row. split_and!; try done.
      unfold open_identity_sk. cbn [si_token_hash si_username si_persona si_identity_sk new].
      by apply seal_identity_opens in Es'.
    + apply Hin; [done|]. by rewrite lookup_insert_ne by (by intros ->).
  - intros k Hk'. apply not_elem_of_cons in Hk' as [? ?]. rewrite Hout by done. by rewrite lookup_insert_ne.
Qed.

(** The switch, over all the rows of the store. *)
Lemma switch_user_rows (st st' : SessionStore) (user : string) (persona : Z) (role : Role)
    (rv : bool) (sk : bytes) (r r' : rng) (n : Z) :
  blen sk <= AEAD_P_MAX ->
  switch_user_to_persona st user persona role rv sk r = (n, st', r') ->
  (forall h i, inner st !! h = Some i -> si_username i = user -> si_persona i <> persona ->
     exists i', inner st' !! h = Some i' /\ switched_row (keyring st') h persona role rv sk i i') /\
  (forall h i, inner st !! h = Some i -> si_username i <> user \/ si_persona i = persona ->
     inner st' !! h = Some i) /\
  (forall h i', inner st' !! h = Some i' -> si_username i' = user -> si_persona i' = persona) /\
  dom (inner st') = dom (inner st).
Proof.
  intros Hsk E. unfold switch_user_to_persona in E. cbv zeta in E.
  set (vs := victims_of _ _) in E. destruct (foldl _ _ _) as [st1 r1] eqn:Ef in E. simplify_eq.
  assert (Hvs : forall k, k ∈ vs <-> exists i, inner st !! k = Some i /\ si_username i = user /\ si_persona i <> persona).
  { intros k. unfold vs. rewrite elem_of_victims. setoid_rewrite andb_true_iff.
    setoid_rewrite bool_decide_eq_true. setoid_rewrite negb_true_iff. by setoid_rewrite Z.eqb_neq. }
  apply switch_all_rows in Ef as (Hk & Hin & Hout); [|done|apply victims_NoDup|].
  2: { intros k (i & ? & ? & _)%Hvs. eauto. }
  rewrite Hk. split_and!.
  - intros h i Hi Hu Hp. apply Hin; [|done]. apply Hvs. eauto.
  - intros h i Hi Hor. rewrite Hout; [done|]. rewrite Hvs. intros (j & Hj & ? & ?). simplify_eq. tauto.
  - intros h i' Hi' Hu. destruct (decide (h ∈ vs)) as [Hh|Hh].
    + pose proof Hh as (i & Hi & _)%Hvs. destruct (Hin h i Hh Hi) as (i'' & Hi'' & Hsw).
      unfold switched_row in Hsw. simplify_eq. tauto.
    + rewrite Hout in Hi' by done. destruct (decide (si_persona i' = persona)); [done|].
      exfalso. apply Hh, Hvs. eauto.
  - apply set_eq. intros h. rewrite !elem_of_dom. destruct (decide (h ∈ vs)) as [Hh|Hh].
    + pose proof Hh as (i & Hi & _)%Hvs. destruct (Hin h i Hh Hi) as (i'' & -> & _). rewrite Hi. done.
    + by rewrite Hout.
Qed.

(** C17: a duress login converts every other live session of the account at once: each
    session of that user under another persona keeps its token, its expiry and its
    refresh count, but now runs as the duress persona with the duress role, holds the
    duress identity key and has an empty key cache; sessions of other users and of the
    duress persona itself are untouched, and none of the user's sessions is left under
    another persona. *)
Theorem duress_switch_complete (st st' : SessionStore) (user : string) (persona : Z) (role : Role)
    (rv : bool) (sk : bytes) (r r' : rng) (n : Z) :
  blen sk <= AEAD_P_MAX ->
  switch_user_to_persona st user persona role rv sk r = (n, st', r') ->
  (forall h i, inner st !! h = Some i -> si_username i = user -> si_persona i <> persona ->
     exists i', inner st' !! h = Some i' /\ switched_row (keyring st') h persona role rv sk i i') /\
  (forall h i, inner st !! h = Some i -> si_username i <> user \/ si_persona i = persona ->
     inner st' !! h = Some i) /\
  (forall h i', inner st' !! h = Some i' -> si_username i' = user -> si_persona i' = persona) /\
  dom (inner st') = dom (inner st).
Proof. exact (switch_user_rows st st' user persona role rv sk r r' n). Qed.

(** ** Interleaving: a refresh and a duress login

    [reissue] looks the old row up, and inserts the new row and removes the old one in
    later, separate map operations; another request can run in between. *)

Definition reissue_begin (st : SessionStore) (old_hash : bytes) (max_refreshes : Z)
  : result AuthError (SessionInfo * bytes) :=
  old ← ok_or (inner st !! old_hash) TokenInvalid;
  if max_refreshes <=? si_refresh_count old then Err RefreshLimitExceeded else
  sk ← open_identity_sk (keyring st) old;
  Ok (old, sk).

Definition reissue_commit (st : SessionStore) (old_hash : bytes) (old : SessionInfo) (sk : bytes) (expires_at : Z)
    (r : rng) : result AuthError (string * SessionStore * rng) :=
  let '(token, r) := token_random r in
  let new_hash := hash_token token in
  '(identity_sk, r) ← seal_identity (keyring st) new_hash (si_username old) (si_persona old) sk r;
  let info := mkSessionInfo (si_username old) (si_role old) (si_created_at old) expires_at
    (si_persona old) (si_revoke_other_sessions old) identity_sk (si_refresh_count old + 1)
    new_hash cache_default in
  Ok (token, with_inner st (delete old_hash (<[new_hash := info]> (inner st))), r).

(** Without interference the two halves are [reissue]. *)
Lemma reissue_split st old_hash expires_at max r :
  reissue st old_hash expires_at max r =
  ('(old, sk) ← reissue_begin st old_hash max; reissue_commit st old_hash old sk expires_at r).
Proof.
  unfold reissue, reissue_begin. destruct (inner st !! old_hash) as [old|]; [|done]. cbn [ok_or mbind result_bind].
  destruct (max <=? si_refresh_count old); [done|]. by destruct (open_identity_sk (keyring st) old).
Qed.

(** A refresh that is under way when a duress login switches the account escapes the
    switch. Right after the switch every session of the account runs as the duress
    persona; then the refresh succeeds, inserting its new row from the row it had read
    before, and the account is left with a live session under the old persona, role and
    identity key. *)
Theorem refresh_escapes_duress (st mid : SessionStore) (old_hash : bytes) (old : SessionInfo) (sk : bytes)
    (max_refreshes expires_at : Z) (persona : Z) (role : Role) (rv : bool) (dsk : bytes) (r r1 : rng) (n : Z) :
  reissue_begin st old_hash max_refreshes = Ok (old, sk) -> si_persona old <> persona ->
  blen sk <= AEAD_P_MAX -> blen dsk <= AEAD_P_MAX ->
  switch_user_to_persona st (si_username old) persona role rv dsk r = (n, mid, r1) ->
  hash_token (fst (token_random r1)) <> old_hash ->
  (forall h i, inner mid !! h = Some i -> si_username i = si_username old -> si_persona i = persona) /\
  exists token st' r2 i, reissue_commit mid old_hash old sk expires_at r1 = Ok (token, st', r2) /\
    inner st' !! hash_token token = Some i /\ si_username i = si_username old /\
    si_persona i <> persona /\ si_role i = si_role old /\ open_identity_sk (keyring st') i = Ok sk.
Proof.
  intros _ Hp Hsk Hdsk Hsw Hne. split; [by eapply switch_user_rows|]. clear Hsw.
  unfold reissue_commit. destruct (token_random r1) as [tok r3].
  destruct (memory_seal_total (keyring mid) sk (identity_aad (hash_token tok) (si_username old) (si_persona old)) r3 Hsk)
    as (s & r4 & Es).
  assert (Es' : seal_identity (keyring mid) (hash_token tok) (si_username old) (si_persona old) sk r3 = Ok (s, r4))
    by (unfold seal_identity; by rewrite Es).
  rewrite Es'. cbn [mbind result_bind]. do 4 eexists. split; [done|]. cbn [with_inner inner keyring].
  rewrite lookup_delete_ne, lookup_insert_eq by done. split_and!; try done.
  exact (seal_identity_opens _ _ _ _ _ _ _ _ Es').
Qed.

(** Every request that passes the session gate names a session that is in the store
    and has not expired, and, while authorization is enforced, one whose account is not
    disabled; an expired token is refused and its row is gone afterwards. *)
Theorem request_gate (st : SessionStore) (enforce : bool) (h : bytes) (now : Z) :
  match authenticate_token_hash st enforce h now with
  | (Ok a, st') => st' = st /\ inner st !! h = Some (au_session a) /\ now < si_expires_at (au_session a) /\
      au_token_hash a = h /\ au_username a = si_username (au_session a) /\
      au_role a = si_role (au_session a) /\ (enforce = true -> au_role a <> Disabled)
  | (Err e, st') =>
      (e = TokenInvalid /\ inner st !! h = None /\ st' = st) \/
      (e = TokenExpired /\ inner st' !! h = None /\ exists i, inner st !! h = Some i /\ si_expires_at i <= now) \/
      (e = AccountDisabled /\ enforce = true /\ st' = st /\
         exists i, inner st !! h = Some i /\ si_role i = Disabled)
  end.
Proof.
  unfold authenticate_token_hash, get_active, is_expired.
  destruct (inner st !! h) as [i|] eqn:Hi; [|by left].
  destruct (Z.leb_spec (si_expires_at i) now).
  - right; left. cbn. rewrite lookup_delete_eq. eauto.
  - cbn [mbind result_bind]. destruct (enforce && bool_decide (si_role i = Disabled)) eqn:Ed.
    + apply andb_true_iff in Ed as [? ?%bool_decide_eq_true]. right; right. eauto 10.
    + cbn. split_and!; try done. intros -> Hd. rewrite bool_decide_eq_true_2 in Ed by done. done.
Qed.

End invariant.

(** ** What the keyring binds *)

(** The associated data of session-held secrets determines what they are: a sealed
    identity key its session, user and persona; a cached bucket key its session, bucket
    and epoch; an S3 secret its session and access key; and no secret of one of the three
    kinds shares associated data with one of another kind. *)
Theorem session_aads_bind (h h' : bytes) (u u' : string) (p p' e e' : Z) :
  length h = 32%nat -> length h' = 32%nat -> short_str u -> short_str u' ->
  in_u 8 p -> in_u 8 p' -> in_u 32 e -> in_u 32 e' ->
  (identity_aad h u p = identity_aad h' u' p' -> h = h' /\ u = u' /\ p = p') /\
  (bucket_key_aad h u e = bucket_key_aad h' u' e' -> h = h' /\ u = u' /\ e = e') /\
  (s3_secret_aad h u = s3_secret_aad h' u' -> h = h' /\ u = u') /\
  identity_aad h u p <> bucket_key_aad h' u' e' /\
  identity_aad h u p <> s3_secret_aad h' u' /\
  bucket_key_aad h u e <> s3_secret_aad h' u'.
Proof.
  unfold short_str, in_u. intros Hh Hh' Hu Hu' Hp Hp' He He'. split_and!.
  - intros E. unfold identity_aad in E. apply app_inv_head in E.
    apply app_inj_1 in E as [-> E]; [|congruence]. apply be_field_inj in E as [-> E]; [|done..].
    apply lp_inj_nil in E; [|done..]. split_and!; try done. by apply as_bytes_inj.
  - intros E. unfold bucket_key_aad in E. apply app_inv_head in E.
    apply app_inj_1 in E as [-> E]; [|congruence]. apply be_field_inj in E as [-> E]; [|done..].
    apply lp_inj_nil in E; [|done..]. split_and!; try done. by apply as_bytes_inj.
  - intros E. unfold s3_secret_aad in E. apply app_inv_head in E.
    apply app_inj_1 in E as [-> E]; [|congruence].
    apply lp_inj_nil in E; [|done..]. split; [done|]. by apply as_bytes_inj.
  - intros E. apply (f_equal (fun b => b !! 15%nat)) in E. discriminate E.
  - intros E. apply (f_equal (fun b => b !! 8%nat)) in E. discriminate E.
  - intros E. apply (f_equal (fun b => b !! 8%nat)) in E. discriminate E.
Qed.

Lemma session_aads_bind_witness :
  identity_aad (replicate 32 x01) "alice" 1 <> bucket_key_aad (replicate 32 x01) "alice" 1.
Proof.
  apply (session_aads_bind (replicate 32 x01) (replicate 32 x01) "alice" "alice" 1 1 1 1);
    vm_compute; first [reflexivity | split; [discriminate | reflexivity]].
Defined.

Module SessionWitness.
#[local] Existing Instances Toy.aead Toy.rng_ops Toy.token_ops Toy.aead_laws Toy.rng_laws.

Definition w_rng : @rng Toy.rng_ops := 3.
Definition w_new : SessionStore := fst (store_new w_rng).
Definition w_real : NewSession := mkNewSession "alice" Admin 0 1000 2 false [x11].
Definition w_bob : NewSession := mkNewSession "bob" User 0 1000 0 false [x22].
Definition w_add (s : NewSession) (st : SessionStore) (r : @rng Toy.rng_ops) : SessionStore :=
  match session_insert st s r with Ok (_, st, _) => st | Err _ => st end.
Definition w_st1 : SessionStore := w_add w_real w_new 10.
Definition w_st2 : SessionStore := w_add w_bob w_st1 20.
Definition w_hash : bytes := hash_token (fst (token_random (10 : @rng Toy.rng_ops))).

Lemma session_store_invariant_witness : store_ok 3 w_st2.
Proof.
  apply (session_store_invariant 3 w_st2); [lia|].
  exists w_rng. eapply rtc_l; [|eapply rtc_l; [|apply rtc_refl]].
  - eapply (step_insert 3 _ w_real (10 : @rng Toy.rng_ops)). vm_compute. reflexivity.
  - eapply (step_insert 3 _ w_bob (20 : @rng Toy.rng_ops)). vm_compute. reflexivity.
Defined.

Definition w_re := reissue w_st2 w_hash 2000 1 (30 : @rng Toy.rng_ops).
Definition w_re_st : SessionStore := match w_re with Ok (_, st, _) => st | Err _ => w_st2 end.
Definition w_re_tok : string := match w_re with Ok (t, _, _) => t | Err _ => EmptyString end.

Lemma reissue_rotates_witness :
  exists old new, inner w_st2 !! w_hash = Some old /\ si_refresh_count old < 1 /\
    inner w_re_st !! w_hash = None /\ inner w_re_st !! hash_token w_re_tok = Some new /\
    si_username new = si_username old /\ si_role new = si_role old /\
    si_persona new = si_persona old /\ si_expires_at new = 2000 /\
    si_refresh_count new = si_refresh_count old + 1 /\ si_bucket_keys new = cache_default /\
    (exists sk, open_identity_sk (keyring w_st2) old = Ok sk /\ open_identity_sk (keyring w_re_st) new = Ok sk) /\
    forall h, h <> w_hash -> h <> hash_token w_re_tok -> inner w_re_st !! h = inner w_st2 !! h.
Proof.
  apply (reissue_rotates w_st2 w_re_st w_hash 2000 1 (30 : @rng Toy.rng_ops) (32 : @rng Toy.rng_ops) w_re_tok).
  - vm_compute. reflexivity.
  - vm_compute. discriminate.
Defined.

Definition w_sw := switch_user_to_persona w_st2 "alice" 1 User true [x33] (40 : @rng Toy.rng_ops).

Lemma duress_switch_complete_witness :
  exists i', inner (w_sw.1.2) !! w_hash = Some i' /\ si_persona i' = 1 /\ si_role i' = User.
Proof.
  destruct (duress_switch_complete w_st2 (w_sw.1.2) "alice" 1 User true [x33] (40 : @rng Toy.rng_ops)
    (w_sw.2) (w_sw.1.1)) as (Hsw & _ & _ & _).
  - vm_compute. discriminate.
  - vm_compute. reflexivity.
  - destruct (inner w_st2 !! w_hash) as [i|] eqn:Ei; [|exfalso; revert Ei; vm_compute; discriminate].
    destruct (Hsw w_hash i Ei) as (i' & Hi' & _ & Hr & Hp & _).
    + revert Ei. vm_compute. intros [= <-]. reflexivity.
    + revert Ei. vm_compute. intros [= <-]. discriminate.
    + exists i'. auto.
Defined.

Definition w_begin : SessionInfo * bytes :=
  match reissue_begin w_st2 w_hash 3 with
  | Ok x => x
  | Err _ => (mkSessionInfo "" User 0 0 0 false (mkSealedSecret [] []) 0 [] cache_default, [])
  end.
Definition w_switched := switch_user_to_persona w_st2 "alice" 1 User true [x33] (49 : @rng Toy.rng_ops).

Lemma refresh_escapes_duress_witness :
  exists token st' r2 i, reissue_commit w_switched.1.2 w_hash w_begin.1 w_begin.2 2000 w_switched.2 = Ok (token, st', r2) /\
    inner st' !! hash_token token = Some i /\ si_username i = "alice" /\
    si_persona i <> 1 /\ si_role i = Admin /\ open_identity_sk (keyring st') i = Ok [x11].
Proof.
  apply (refresh_escapes_duress w_st2 w_switched.1.2 w_hash w_begin.1 w_begin.2 3 2000 1 User true [x33]
           (49 : @rng Toy.rng_ops) w_switched.2 w_switched.1.1).
  - vm_compute. reflexivity.
  - vm_compute. discriminate.
  - vm_compute. discriminate.
  - vm_compute. discriminate.
  - vm_compute. reflexivity.
  - vm_compute. discriminate.
Defined.

End SessionWitness.
