(* ===== verification/BucketKeys.v ===== *)
(** * Per-bucket key material

    Models y2qd/src/bucket_keys.rs, the bucket records of y2q-core/src/lib.rs and the
    grant-row rewriting of y2qd/src/handlers/acl.rs.

    A bucket's secret key is wrapped under a bucket wrap key (BWK) that is itself stored
    only as sealed copies, four per grantee: the real BWK for an authorized persona,
    random bytes for any other.  The results: a grant row gives the bucket key to exactly
    the personas it authorizes, and to nobody else, and tells a reader of the row nothing
    about which those are. *)

From stdpp Require Import pretty sorting.
From S2P Require Import Prelude Primitives Types Crypto Slots Session.

(** ** Data *)

Inductive BucketPermission : Type := PRead | PWrite | PWriteOnly | PAdmin.
#[global] Instance BucketPermission_eq_dec : EqDecision BucketPermission.
Proof. solve_decision. Defined.

Record BucketKeyVersion : Type := mkBucketKeyVersion {
  bk_epoch : Z;
  public_key_b64 : string;
  sk_blob : WrappedSk;
  grants : gmap string (list seal.SealedKey);
}.

Record BucketConfig : Type := mkBucketConfig {
  quota_bytes : option Z;
  default_sse : option string;
  cors_allow_origin : option string;
  owner : option string;
  acl : gmap string BucketPermission;
  keys : list BucketKeyVersion;
  acl_generation : Z;
}.

Definition config_default : BucketConfig := mkBucketConfig None None None None empty [] 0.

Record GranteeSlots : Type := mkGranteeSlots {
  gs_identity_pks_b64 : list string;
  gs_authorized : list bool;
}.

Definition MAX_RETAINED_EPOCHS : Z := 8.

(** ** Errors *)

Definition forbidden (bucket : string) : Error := Forbidden bucket.
Definition crypto_err (bucket operation : string) (e : CryptoError) : Error :=
  InternalError bucket "" operation (CryptoError_display e).
Definition crypto_decode_err (bucket what : string) : Error :=
  InternalError bucket "" "bucket-key-grant" ("malformed " ++ what).
Definition auth_err (bucket operation : string) (e : AuthError) : Error :=
  InternalError bucket "" operation (AuthError_display e).

(** ** The user store, as this layer sees it *)

Class UserStoreReader : Type := {
  user_get : string -> result CryptoError (option UserRecord);
}.

(** The order [BTreeSet<String>] iterates in: bytewise lexicographic. *)
Fixpoint bytes_leb (a b : bytes) : bool :=
  match a, b with
  | [], _ => true
  | _ :: _, [] => false
  | x :: a, y :: b =>
      (Z_of_byte x <? Z_of_byte y) || ((Z_of_byte x =? Z_of_byte y) && bytes_leb a b)
  end.
Definition str_le (a b : string) : Prop := bytes_leb (as_bytes a) (as_bytes b) = true.
#[global] Instance str_le_dec : RelDecision str_le.
Proof. intros a b. unfold str_le. apply _. Defined.
Definition sorted_strings (s : gset string) : list string := merge_sort str_le (elements s).

Section bucket_keys.
Context {A : AeadOps} {K : KemOps} {H : HkdfOps} {B : Base64Ops} {R : RngOps}.

(** ** Sealing grant rows *)

(** The loop of [seal_grant_slots] from slot [slot] on. *)
Fixpoint seal_slots_from (slot : nat) (bucket : string) (epoch : Z) (username : string) (bwk : bytes)
    (rows : list (string * bool)) (r : rng) : result Error (list seal.SealedKey * rng) :=
  match rows with
  | [] => Ok ([], r)
  | (pk_b64, authorized) :: rest =>
      identity_pk ← ok_or (b64_decode pk_b64) (crypto_decode_err bucket "identity public key");
      let aad := seal.bucket_grant_aad bucket epoch username (Z.of_nat slot) in
      let '(payload, r) := if (authorized : bool) then (bwk, r) else fill_bytes r 32 in
      '(s, r) ← map_err (crypto_err bucket "seal-grant") (seal.seal_to identity_pk payload aad r);
      '(ss, r) ← seal_slots_from (S slot) bucket epoch username bwk rest r;
      Ok (s :: ss, r)
  end.

Definition seal_grant_slots (bucket : string) (epoch : Z) (username : string) (slots : GranteeSlots)
    (bwk : bytes) (r : rng) : result Error (list seal.SealedKey * rng) :=
  if negb (bool_decide (length (gs_identity_pks_b64 slots) = CREDENTIAL_SLOTS))
     || negb (bool_decide (length (gs_authorized slots) = CREDENTIAL_SLOTS))
  then Err (InternalError bucket "" "bucket-key-grant"
    ("expected 4 credential slots for " ++ username ++ ", found a mismatched count"))
  else seal_slots_from 0 bucket epoch username bwk
         (zip (gs_identity_pks_b64 slots) (gs_authorized slots)) r.

Fixpoint seal_grantees (bucket : string) (epoch : Z) (bwk : bytes) (grantees : list (string * GranteeSlots))
    (m : gmap string (list seal.SealedKey)) (r : rng)
  : result Error (gmap string (list seal.SealedKey) * rng) :=
  match grantees with
  | [] => Ok (m, r)
  | (username, slots) :: rest =>
      '(sealed, r) ← seal_grant_slots bucket epoch username slots bwk r;
      seal_grantees bucket epoch bwk rest (<[username := sealed]> m) r
  end.

Definition new_bucket_key_version (epoch : Z) (bucket : string) (grantees : list (string * GranteeSlots))
    (r : rng) : result Error (BucketKeyVersion * bytes * rng) :=
  let '((pk, sk), r) := kem.keypair r in
  let '(bwk, r) := fill_bytes r 32 in
  let sk_aad := seal.bucket_sk_wrap_aad bucket epoch in
  '(blob, r) ← map_err (crypto_err bucket "new_bucket_key")
                 (wrap_with_key (dk_to_expanded_bytes sk) bwk sk_aad r);
  '(gr, r) ← seal_grantees bucket epoch bwk grantees empty r;
  Ok (mkBucketKeyVersion epoch (b64_encode (ek_to_bytes pk)) blob gr, bwk, r).

Definition put_grant_slot (kv : BucketKeyVersion) (bucket username : string) (slots : GranteeSlots)
    (bwk : bytes) (r : rng) : result Error (BucketKeyVersion * rng) :=
  '(sealed, r) ← seal_grant_slots bucket (bk_epoch kv) username slots bwk r;
  Ok (mkBucketKeyVersion (bk_epoch kv) (public_key_b64 kv) (sk_blob kv)
        (<[username := sealed]> (grants kv)), r).

(** ** Opening *)

Definition find_epoch (config : BucketConfig) (epoch : Z) : option BucketKeyVersion :=
  snd <$> list_find (fun k => bk_epoch k = epoch) (keys config).

Definition open_bwk (config : BucketConfig) (bucket : string) (epoch : Z) (username : string)
    (slot : nat) (identity_sk : bytes) : result Error bytes :=
  kv ← ok_or (find_epoch config epoch) (forbidden bucket);
  sealed_slots ← ok_or (grants kv !! username) (forbidden bucket);
  if negb (bool_decide (length sealed_slots = CREDENTIAL_SLOTS))
  then Err (InternalError bucket "" "bucket-key-grant"
    ("expected 4 credential slots for " ++ username ++ ", found " ++ pretty (length sealed_slots)))
  else
  sealed ← ok_or (sealed_slots !! slot) (forbidden bucket);
  let grant_aad := seal.bucket_grant_aad bucket epoch username (Z.of_nat slot) in
  bwk ← map_err (fun _ => forbidden bucket) (seal.open_sealed identity_sk sealed grant_aad);
  if blen bwk =? 32 then Ok bwk else Err (forbidden bucket).

Definition open_verified_bwk (config : BucketConfig) (bucket : string) (epoch : Z) (username : string)
    (slot : nat) (identity_sk : bytes) : result Error bytes :=
  kv ← ok_or (find_epoch config epoch) (forbidden bucket);
  bwk ← open_bwk config bucket epoch username slot identity_sk;
  let sk_aad := seal.bucket_sk_wrap_aad bucket epoch in
  _ ← map_err (fun _ => forbidden bucket) (unwrap_with_key (sk_blob kv) bwk sk_aad);
  Ok bwk.

Definition read_key (config : BucketConfig) (bucket : string) (epoch : Z) (username : string)
    (slot : nat) (identity_sk : bytes) : result Error bytes :=
  kv ← ok_or (find_epoch config epoch) (forbidden bucket);
  bwk ← open_bwk config bucket epoch username slot identity_sk;
  let sk_aad := seal.bucket_sk_wrap_aad bucket epoch in
  map_err (fun _ => forbidden bucket) (unwrap_with_key (sk_blob kv) bwk sk_aad).

Definition current_key (config : BucketConfig) : option BucketKeyVersion := last (keys config).

(** The session's cache is behind a mutex: the session comes back with it updated. *)
Definition resolve_read_key (key : MemoryKey) (session : SessionInfo) (config : BucketConfig)
    (bucket : string) (epoch : Z) (r : rng) : result Error bytes * SessionInfo * rng :=
  match cached_bucket_key key session bucket epoch with
  | Some cached => (map_err (auth_err bucket "bucket-key-cache") cached, session, r)
  | None =>
      match map_err (auth_err bucket "resolve-read-key")
              (with_identity_sk key session (fun sk =>
                 read_key config bucket epoch (si_username session) (Z.to_nat (si_persona session)) sk)) with
      | Err e | Ok (Err e) => (Err e, session, r)
      | Ok (Ok sk) =>
          match cache_bucket_key key session bucket epoch sk r with
          | Err e => (Err (auth_err bucket "bucket-key-cache" e), session, r)
          | Ok (session, r) => (Ok sk, session, r)
          end
      end
  end.

Definition is_visible (key : MemoryKey) (session : SessionInfo) (config : BucketConfig) (bucket : string)
    (r : rng) : bool * SessionInfo * rng :=
  match current_key config with
  | Some kv =>
      let '(res, session, r) := resolve_read_key key session config bucket (bk_epoch kv) r in
      (is_ok res, session, r)
  | None => (false, session, r)
  end.

Definition resolve_write_key (config : BucketConfig) (bucket : string) : result Error (Z * bytes) :=
  kv ← ok_or (current_key config)
         (InternalError bucket "" "resolve_write_key" "bucket has no key material");
  pk ← ok_or (b64_decode (public_key_b64 kv)) (crypto_decode_err bucket "bucket public key");
  Ok (bk_epoch kv, pk).

(** ** Choosing grantees *)

Context {US : UserStoreReader}.

(** [vec[i] = true] on a fresh [vec![false; 4]]; out of range panics in the source, which
    a record's [primary_slot] and a session's [persona] never are. *)
Definition only_slot (i : nat) : list bool := (fun j => bool_decide (j = i)) <$> seq 0 CREDENTIAL_SLOTS.

Definition read_implying_grantees (a : gmap string BucketPermission) : gset string :=
  dom (filter (fun kv => kv.2 <> PWriteOnly) a).

Fixpoint grantees_of (bucket caller_username : string) (caller_persona : Z) (usernames : list string)
  : result Error (list (string * GranteeSlots)) :=
  match usernames with
  | [] => Ok []
  | username :: rest =>
      rec ← map_err (crypto_err bucket "rotate_key") (user_get username);
      gs ← grantees_of bucket caller_username caller_persona rest;
      match rec with
      | None => Ok gs
      | Some rec =>
          let i := if bool_decide (username = caller_username) then caller_persona else ur_primary_slot rec in
          Ok ((username, mkGranteeSlots (identity_pk_b64 <$> ur_slots rec) (only_slot (Z.to_nat i))) :: gs)
      end
  end.

Definition current_grantees (config : BucketConfig) (bucket caller_username : string) (caller_persona : Z)
  : result Error (list (string * GranteeSlots)) :=
  let usernames := read_implying_grantees (acl config) in
  let usernames := match owner config with Some o => {[o]} ∪ usernames | None => usernames end in
  let usernames := {[caller_username]} ∪ usernames in
  grantees_of bucket caller_username caller_persona (sorted_strings usernames).

Definition new_owner_key (bucket : string) (session : SessionInfo) (r : rng)
  : result Error (BucketKeyVersion * rng) :=
  rec ← map_err (crypto_err bucket "claim_ownership") (user_get (si_username session));
  rec ← ok_or rec (InternalError bucket "" "claim_ownership" "claiming user's record vanished");
  let slots := mkGranteeSlots (identity_pk_b64 <$> ur_slots rec) (only_slot (Z.to_nat (si_persona session))) in
  '(kv, _, r) ← new_bucket_key_version 0 bucket [(si_username session, slots)] r;
  Ok (kv, r).

End bucket_keys.

(** ** Theorems *)

Section theorems.
Context {A : AeadOps} {K : KemOps} {H : HkdfOps} {B : Base64Ops} {R : RngOps}.
Context {AL : AeadLaws} {KL : KemLaws} {HL : HkdfLaws} {BL : Base64Laws} {RL : RngLaws}.

(** The identity keys of one user's four personas, as the user store publishes them. *)
Definition published (dks : list Dk) : list string := (fun dk => b64_encode (seal.pk_bytes_of dk)) <$> dks.

(** One entry of a grant row, seen by its persona: it opens to 32 bytes, to the BWK when
    the persona is authorized and to a fresh draw when not, and its stored ciphertext has
    one fixed length. *)
Definition entry_ok (bucket : string) (epoch : Z) (username : string) (bwk : bytes) (slot : nat)
    (authorized : bool) (dk : Dk) (s : seal.SealedKey) : Prop := exists p c,
  seal.open_sealed (seal.sk_bytes_of dk) s (seal.bucket_grant_aad bucket epoch username (Z.of_nat slot)) = Ok p /\
  blen p = 32 /\ (if authorized then p = bwk else exists r0, p = (fill_bytes r0 32).1) /\
  seal.sealed_ct s = Some c /\ blen c = 48.

Lemma seal_slots_from_spec bucket epoch username bwk : blen bwk = 32 ->
  forall dks auths slot r, length dks = length auths ->
  exists ss r', seal_slots_from slot bucket epoch username bwk (zip (published dks) auths) r = Ok (ss, r') /\
    length ss = length dks /\
    forall i dk a s, dks !! i = Some dk -> auths !! i = Some a -> ss !! i = Some s ->
      entry_ok bucket epoch username bwk (slot + i) a dk s.
Proof.
  intros Hb. induction dks as [|dk dks IH]; intros [|a auths] slot r Hl; try done.
  { exists [], r. split_and!; done. }
  change (zip (published (dk :: dks)) (a :: auths))
    with ((b64_encode (seal.pk_bytes_of dk), a) :: zip (published dks) auths).
  cbn [seal_slots_from]. rewrite b64_decode_encode. cbn [ok_or mbind result_bind].
  set (aad := seal.bucket_grant_aad bucket epoch username (Z.of_nat slot)).
  assert (Hpay : exists p r1, (if a then (bwk, r) else fill_bytes r 32) = (p, r1) /\ blen p = 32 /\
    (if a then p = bwk else exists r0, p = (fill_bytes r0 32).1)).
  { destruct a; [eauto|]. pose proof (fill_bytes_len r 32) as Hf. destruct (fill_bytes r 32) as [p r1] eqn:Ed.
    exists p, r1. cbn in Hf. unfold blen. split_and!; [done | lia | exists r; by rewrite Ed]. }
  destruct Hpay as (p & r1 & -> & Hp & Hpa).
  destruct (seal.seal_to_opens dk p aad r1) as (s & r2 & -> & Hopen & c & Hc & Hcl).
  { unfold AEAD_P_MAX. lia. }
  cbn [map_err mbind result_bind]. injection Hl as Hl.
  destruct (IH auths (S slot) r2 Hl) as (ss & r3 & E & Hlen & Hall).
  rewrite E. cbn [mbind result_bind].
  exists (s :: ss), r3. split_and!; [done | cbn; lia |].
  intros [|i] dk' a' s' Hd Ha Hs; cbn in Hd, Ha, Hs; simplify_eq.
  - rewrite Nat.add_0_r. exists p, c. split_and!; try done. lia.
  - rewrite <- Nat.add_succ_comm. by apply (Hall i).
Qed.

Lemma seal_grant_slots_spec bucket epoch username bwk dks auths r :
  blen bwk = 32 -> length dks = CREDENTIAL_SLOTS -> length auths = CREDENTIAL_SLOTS ->
  exists row r', seal_grant_slots bucket epoch username (mkGranteeSlots (published dks) auths) bwk r = Ok (row, r') /\
    length row = CREDENTIAL_SLOTS /\
    forall i dk a s, dks !! i = Some dk -> auths !! i = Some a -> row !! i = Some s ->
      entry_ok bucket epoch username bwk i a dk s.
Proof.
  intros Hb Hd Ha. unfold seal_grant_slots. cbn [gs_identity_pks_b64 gs_authorized].
  assert (length (published dks) = CREDENTIAL_SLOTS) by (unfold published; by rewrite length_fmap).
  rewrite !bool_decide_eq_true_2 by done. cbn [negb orb].
  destruct (seal_slots_from_spec bucket epoch username bwk Hb dks auths 0 r) as (row & r' & -> & Hl & Hall); [lia|].
  exists row, r'. split_and!; [done | lia | done].
Qed.

(** *** Where the decoys come from *)

(** [r'] is the random source [r] after some draws. *)
Definition drawn_after (r r' : rng) : Prop := rtc (fun a b => exists n, b = (fill_bytes a n).2) r r'.
#[global] Instance drawn_after_preorder : PreOrder drawn_after.
Proof using. split; [intros r; apply rtc_refl|intros r r1 r2; apply relations.rtc_trans]. Qed.

Lemma drawn_once r n b r' : fill_bytes r n = (b, r') -> drawn_after r r'.
Proof using. intros E. apply rtc_once. exists n. by rewrite E. Qed.
Lemma seal_to_draws pk p aad r s r' : seal.seal_to pk p aad r = Ok (s, r') -> drawn_after r r'.
Proof using.
  unfold seal.seal_to. destruct (kem.PublicKey_from_bytes pk) as [ek|]; [|done]. cbn [mbind result_bind].
  unfold kem.encapsulate. destruct (fill_bytes r 32) as [m r1] eqn:E1. destruct (ek_encapsulate ek m) as [ct ss].
  destruct (seal.derive_seal_key ss ct) as [k|]; [|done]. cbn [mbind result_bind].
  destruct (fill_bytes r1 12) as [nonce r2] eqn:E2. destruct (aead_encrypt k nonce aad p); [|done]. intros [= _ <-].
  etrans; eapply drawn_once; eauto.
Qed.
Lemma wrap_with_key_draws p key aad r w r' : wrap_with_key p key aad r = Ok (w, r') -> drawn_after r r'.
Proof using.
  unfold wrap_with_key. destruct (fill_bytes r 12) as [nonce r1] eqn:E. destruct (aead_encrypt key nonce aad p); [|done].
  intros [= _ <-]. by eapply drawn_once.
Qed.

Lemma seal_slots_from_draws bucket epoch username bwk rows : forall slot r ss r',
  seal_slots_from slot bucket epoch username bwk rows r = Ok (ss, r') -> drawn_after r r'.
Proof using.
  induction rows as [|[pk a] rows IH]; intros slot r ss r'; cbn [seal_slots_from]; [by intros [= _ <-]|].
  destruct (b64_decode pk) as [ipk|]; [|done]. cbn [ok_or mbind result_bind].
  destruct (if a then (bwk, r) else fill_bytes r 32) as [p r1] eqn:Ep.
  assert (H1 : drawn_after r r1) by (destruct a; [by injection Ep as _ <-|by eapply drawn_once]).
  destruct (seal.seal_to ipk p _ r1) as [[s r2]|] eqn:E2; [|done]. cbn [map_err mbind result_bind].
  destruct (seal_slots_from (S slot) _ _ _ _ rows r2) as [[ss' r3]|] eqn:E3; [|done]. intros [= _ <-].
  etrans; [exact H1|]. etrans; [by eapply seal_to_draws|by eapply IH].
Qed.

(** A persona the row does not authorize finds bytes drawn while the row was sealed. *)
Lemma seal_slots_decoys bucket epoch username bwk : forall dks auths slot r ss r',
  seal_slots_from slot bucket epoch username bwk (zip (published dks) auths) r = Ok (ss, r') ->
  forall i dk s, dks !! i = Some dk -> auths !! i = Some false -> ss !! i = Some s ->
  exists r0, drawn_after r r0 /\
    seal.open_sealed (seal.sk_bytes_of dk) s (seal.bucket_grant_aad bucket epoch username (Z.of_nat (slot + i)))
      = Ok (fill_bytes r0 32).1.
Proof using AL KL HL BL RL.
  induction dks as [|dk dks IH]; intros [|a auths] slot r ss r' E i dk' s Hd Ha Hs; try done.
  change (zip (published (dk :: dks)) (a :: auths))
    with ((b64_encode (seal.pk_bytes_of dk), a) :: zip (published dks) auths) in E.
  cbn [seal_slots_from] in E. rewrite b64_decode_encode in E. cbn [ok_or mbind result_bind] in E.
  destruct (if a then (bwk, r) else fill_bytes r 32) as [p r1] eqn:Ep.
  assert (H1 : drawn_after r r1) by (destruct a; [by injection Ep as _ <-|by eapply drawn_once]).
  destruct (seal.seal_to _ p _ r1) as [[s1 r2]|] eqn:E2; [|done]. cbn [map_err mbind result_bind] in E.
  destruct (seal_slots_from (S slot) _ _ _ _ _ r2) as [[ss' r3]|] eqn:E3; [|done]. injection E as <- <-.
  destruct i as [|i]; cbn in Hd, Ha, Hs; simplify_eq.
  - rewrite Nat.add_0_r. exists r. split; [reflexivity|]. pose proof (fill_bytes_len r 32) as Hl. rewrite Ep in Hl |- *. cbn [fst] in *.
    destruct (seal.seal_to_opens dk' p (seal.bucket_grant_aad bucket epoch username (Z.of_nat slot)) r1) as (s' & r' & E' & Ho & _).
    { unfold AEAD_P_MAX, blen. lia. }
    rewrite E2 in E'. by injection E' as <- <-.
  - rewrite <- Nat.add_succ_comm. destruct (IH auths (S slot) r2 ss' r3 E3 i dk' s Hd Ha Hs) as (r0 & Hr & Ho). exists r0. split; [|done].
    etrans; [exact H1|]. etrans; [by eapply seal_to_draws|exact Hr].
Qed.

(** A sealed grant row is deniable: it always has four entries of one length, every
    persona's own key opens its entry to 32 bytes, and the bytes are the bucket wrap key
    exactly where the row authorizes the persona. *)
Theorem grant_row_deniable (bucket : string) (epoch : Z) (username : string) (bwk : bytes)
    (dks : list Dk) (auths : list bool) (r : rng) :
  blen bwk = 32 -> length dks = CREDENTIAL_SLOTS -> length auths = CREDENTIAL_SLOTS ->
  exists row r', seal_grant_slots bucket epoch username (mkGranteeSlots (published dks) auths) bwk r = Ok (row, r') /\
    length row = CREDENTIAL_SLOTS /\
    forall i dk a s, dks !! i = Some dk -> auths !! i = Some a -> row !! i = Some s ->
      entry_ok bucket epoch username bwk i a dk s.
Proof. apply seal_grant_slots_spec. Qed.

(** The config's key version of this epoch. *)
Definition has_version (config : BucketConfig) (kv : BucketKeyVersion) : Prop :=
  find_epoch config (bk_epoch kv) = Some kv.

Lemma open_bwk_entry config kv bucket username row dk bwk slot a s :
  has_version config kv -> grants kv !! username = Some row -> length row = CREDENTIAL_SLOTS ->
  row !! slot = Some s -> entry_ok bucket (bk_epoch kv) username bwk slot a dk s ->
  exists p, open_bwk config bucket (bk_epoch kv) username slot (seal.sk_bytes_of dk) = Ok p /\
    blen p = 32 /\ (if a then p = bwk else exists r0, p = (fill_bytes r0 32).1).
Proof.
  intros Hv Hg Hl Hs (p & c & Ho & Hp & Ha & _). exists p. split_and!; try done.
  unfold open_bwk. rewrite Hv. cbn [ok_or mbind result_bind]. rewrite Hg. cbn [ok_or mbind result_bind].
  rewrite bool_decide_eq_true_2 by done. cbn [negb]. rewrite Hs. cbn [ok_or mbind result_bind].
  rewrite Ho. cbn [map_err mbind result_bind]. by rewrite Hp.
Qed.

(** What an epoch grants: the wrapped secret key is [bsk] under [bwk], the published key
    is its public half, and the row of [username] authorizes [auths]. *)
Record epoch_grants (kv : BucketKeyVersion) (bucket : string) (bdk : Dk) (bwk : bytes) (username : string)
    (dks : list Dk) (auths : list bool) : Prop := mkEpochGrants {
  eg_pk : public_key_b64 kv = b64_encode (seal.pk_bytes_of bdk);
  eg_blob : unwrap_with_key (sk_blob kv) bwk (seal.bucket_sk_wrap_aad bucket (bk_epoch kv)) =
    Ok (seal.sk_bytes_of bdk);
  eg_row : exists row, grants kv !! username = Some row /\ length row = CREDENTIAL_SLOTS /\
    forall i dk a s, dks !! i = Some dk -> auths !! i = Some a -> row !! i = Some s ->
      entry_ok bucket (bk_epoch kv) username bwk i a dk s;
}.

Lemma epoch_entry kv bucket bdk bwk username dks auths slot dk a :
  epoch_grants kv bucket bdk bwk username dks auths -> length dks = CREDENTIAL_SLOTS ->
  dks !! slot = Some dk -> auths !! slot = Some a ->
  exists row s, grants kv !! username = Some row /\ length row = CREDENTIAL_SLOTS /\ row !! slot = Some s /\
    entry_ok bucket (bk_epoch kv) username bwk slot a dk s.
Proof.
  intros [_ _ (row & Hg & Hl & Hall)] Hd Hdk Ha.
  destruct (lookup_lt_is_Some_2 row slot) as [s Hs].
  { rewrite Hl, <- Hd. by apply lookup_lt_Some in Hdk. }
  exists row, s. split_and!; try done. by apply (Hall slot dk a s).
Qed.

Lemma read_key_authorized config kv bucket bdk bwk username dks auths slot dk :
  has_version config kv -> epoch_grants kv bucket bdk bwk username dks auths ->
  length dks = CREDENTIAL_SLOTS -> dks !! slot = Some dk -> auths !! slot = Some true ->
  read_key config bucket (bk_epoch kv) username slot (seal.sk_bytes_of dk) = Ok (seal.sk_bytes_of bdk).
Proof.
  intros Hv HE Hd Hdk Ha. destruct (epoch_entry _ _ _ _ _ _ _ _ _ _ HE Hd Hdk Ha) as (row & s & Hg & Hl & Hs & He).
  destruct (open_bwk_entry config kv bucket username row dk bwk slot true s) as (p & Ho & _ & Hp); try done.
  rewrite Hp in Ho. unfold read_key. rewrite Hv. cbn [ok_or mbind result_bind]. rewrite Ho. cbn [mbind result_bind].
  by rewrite (eg_blob _ _ _ _ _ _ _ HE).
Qed.

Lemma new_version_grants epoch bucket username dks auths r :
  length dks = CREDENTIAL_SLOTS -> length auths = CREDENTIAL_SLOTS ->
  exists kv bwk r' bdk,
    new_bucket_key_version epoch bucket [(username, mkGranteeSlots (published dks) auths)] r = Ok (kv, bwk, r') /\
    bk_epoch kv = epoch /\ blen bwk = 32 /\ epoch_grants kv bucket bdk bwk username dks auths.
Proof.
  intros Hd Ha. unfold new_bucket_key_version, kem.keypair. destruct (fill_bytes r 64) as [seed r1].
  pose proof (fill_bytes_len r1 32) as Hb. destruct (fill_bytes r1 32) as [bwk r2]. cbn [fst] in Hb.
  assert (Hb' : blen bwk = 32) by (unfold blen; lia). set (bdk := dk_generate seed).
  destruct (wrap_with_key_shape (dk_to_expanded_bytes bdk) bwk (seal.bucket_sk_wrap_aad bucket epoch) r2)
    as (w & r3 & -> & _ & _ & Hu).
  { rewrite dk_bytes_len. unfold AEAD_P_MAX. lia. }
  cbn [map_err mbind result_bind seal_grantees].
  destruct (seal_grant_slots_spec bucket epoch username bwk dks auths r3 Hb' Hd Ha) as (row & r4 & -> & Hl & Hall).
  cbn [mbind result_bind]. eexists _, bwk, r4, bdk. split_and!; [done|done|done|].
  constructor; cbn [public_key_b64 sk_blob bk_epoch grants]; [done|done|].
  exists row. rewrite lookup_insert_eq. done.
Qed.

(** ** Failure modes *)

(** The row stored for [username] does not have four entries. *)
Definition malformed_row (config : BucketConfig) (epoch : Z) (username : string) : Prop := exists kv row,
  find_epoch config epoch = Some kv /\ grants kv !! username = Some row /\ length row <> CREDENTIAL_SLOTS.

Lemma open_bwk_cases config bucket epoch username slot sk :
  match open_bwk config bucket epoch username slot sk with
  | Ok bwk => blen bwk = 32
  | Err e => e = Forbidden bucket \/ malformed_row config epoch username
  end.
Proof using.
  unfold open_bwk. destruct (find_epoch config epoch) as [kv|] eqn:Ef; [|by left].
  cbn [ok_or mbind result_bind]. destruct (grants kv !! username) as [row|] eqn:Eg; [|by left].
  cbn [ok_or mbind result_bind]. case_bool_decide as Hl; cbn [negb].
  - destruct (row !! slot) as [s|]; [|by left]. cbn [ok_or mbind result_bind].
    destruct (seal.open_sealed sk s _) as [p|e]; [|by left]. cbn [map_err mbind result_bind].
    destruct (Z.eqb_spec (blen p) 32); [done | by left].
  - right. by exists kv, row.
Qed.

(** Reading a bucket key fails in one way only: whatever is missing or wrong, the
    error is the same [Forbidden], a malformed row on disk apart; and the check the
    privileged operations use ([open_verified_bwk]) accepts exactly the callers that
    [read_key] gives the bucket key to. *)
Theorem read_key_uniform (config : BucketConfig) (bucket : string) (epoch : Z) (username : string)
    (slot : nat) (identity_sk : bytes) :
  is_ok (open_verified_bwk config bucket epoch username slot identity_sk) =
  is_ok (read_key config bucket epoch username slot identity_sk) /\
  match read_key config bucket epoch username slot identity_sk with
  | Ok sk => exists kv bwk, find_epoch config epoch = Some kv /\
      open_bwk config bucket epoch username slot identity_sk = Ok bwk /\ blen bwk = 32 /\
      unwrap_with_key (sk_blob kv) bwk (seal.bucket_sk_wrap_aad bucket epoch) = Ok sk
  | Err e => e = Forbidden bucket \/ malformed_row config epoch username
  end.
Proof using.
  pose proof (open_bwk_cases config bucket epoch username slot identity_sk) as Hc.
  unfold open_verified_bwk, read_key. destruct (find_epoch config epoch) as [kv|] eqn:Ef; [|split; [done|by left]].
  cbn [ok_or mbind result_bind]. destruct (open_bwk config bucket epoch username slot identity_sk) as [bwk|e];
    [|done]. cbn [mbind result_bind].
  destruct (unwrap_with_key (sk_blob kv) bwk _) as [sk|e] eqn:Eu; cbn [map_err]; [|split; [done|by left]].
  split; [done|]. by exists kv, bwk.
Qed.

(** A persona whose entry opens to bytes that do not unwrap the bucket key reads nothing. *)
Lemma read_key_decoy config kv bucket username row slot s sk p :
  has_version config kv -> grants kv !! username = Some row -> length row = CREDENTIAL_SLOTS ->
  row !! slot = Some s ->
  seal.open_sealed sk s (seal.bucket_grant_aad bucket (bk_epoch kv) username (Z.of_nat slot)) = Ok p ->
  is_ok (unwrap_with_key (sk_blob kv) p (seal.bucket_sk_wrap_aad bucket (bk_epoch kv))) = false ->
  read_key config bucket (bk_epoch kv) username slot sk = Err (Forbidden bucket).
Proof using.
  intros Hv Hg Hl Hs Ho Hsep. unfold read_key, open_bwk. rewrite !Hv. cbn [ok_or mbind result_bind]. rewrite !Hg.
  cbn [ok_or mbind result_bind]. rewrite bool_decide_eq_true_2 by done. cbn [negb]. rewrite Hs.
  cbn [ok_or mbind result_bind]. rewrite Ho. cbn [map_err mbind result_bind].
  destruct (Z.eqb (blen p) 32); cbn [mbind result_bind]; [|done]. by destruct (unwrap_with_key (sk_blob kv) p _).
Qed.

(** ** The session cache *)

Lemma cache_get_insert c b e v : cache_get (cache_insert c b e v) b e = Some v.
Proof. unfold cache_get, cache_insert. cbv zeta. cbn [entries]. by rewrite lookup_insert_eq. Qed.

Lemma resolve_cases key session config bucket epoch r :
  match resolve_read_key key session config bucket epoch r with
  | (Ok sk, session', r') =>
      cached_bucket_key key session' bucket epoch = Some (Ok sk) /\ si_username session' = si_username session /\
      si_persona session' = si_persona session /\ open_identity_sk key session' = open_identity_sk key session
  | (Err _, session', r') => session' = session
  end.
Proof using AL.
  unfold resolve_read_key. destruct (cached_bucket_key key session bucket epoch) as [[sk|e]|] eqn:Ec; cbn [map_err].
  - done.
  - done.
  - destruct (map_err _ (with_identity_sk _ _ _)) as [[sk|e]|e]; try done.
    unfold cache_bucket_key. destruct (seal_bucket_key key _ bucket epoch sk r) as [[sealed r1]|e] eqn:Es; [|done].
    cbn [mbind result_bind]. split_and!; try done. unfold cached_bucket_key.
    cbn [si_bucket_keys si_token_hash]. rewrite cache_get_insert. cbn [fmap option_fmap option_map].
    apply map_err_Ok_inv in Es. unfold open_bucket_key. by rewrite (memory_open_seal _ _ _ _ _ _ Es).
Qed.

(** Once a session has resolved a bucket key, every later resolution of the same
    bucket and epoch in that session returns the same key, whatever the configuration
    says by then, and touches neither the session nor the random source. *)
Theorem resolve_read_key_cached (key : MemoryKey) (session session' : SessionInfo)
    (config config' : BucketConfig) (bucket : string) (epoch : Z) (r r' r'' : rng) (sk : bytes) :
  resolve_read_key key session config bucket epoch r = (Ok sk, session', r') ->
  resolve_read_key key session' config' bucket epoch r'' = (Ok sk, session', r'').
Proof using AL.
  intros E. pose proof (resolve_cases key session config bucket epoch r) as Hc. rewrite E in Hc.
  destruct Hc as [Hc _]. unfold resolve_read_key. by rewrite Hc.
Qed.

End theorems.

(** ** Witnesses *)
Module BucketKeysWitness.
#[local] Existing Instances Toy.aead Toy.kem Toy.hkdf Toy.base64 Toy.rng_ops.
#[local] Existing Instances Toy.aead_laws Toy.kem_laws Toy.hkdf_laws Toy.base64_laws Toy.rng_laws.

Definition dk_of (n : nat) : Dk := dk_generate (replicate 64 (byte_of_Z (Z.of_nat n))).
Definition personas : list Dk := [dk_of 1; dk_of 2; dk_of 3; dk_of 4].
Definition bwk0 : bytes := replicate 32 (byte_of_Z 7).

Lemma grant_row_deniable_witness :
  exists row r', seal_grant_slots "photos" 3 "alice" (mkGranteeSlots (published personas) (only_slot 2)) bwk0
      (10 : @rng Toy.rng_ops) = Ok (row, r') /\
    length row = CREDENTIAL_SLOTS /\
    forall i dk a s, personas !! i = Some dk -> only_slot 2 !! i = Some a -> row !! i = Some s ->
      entry_ok "photos" 3 "alice" bwk0 i a dk s.
Proof. apply (grant_row_deniable "photos" 3 "alice" bwk0 personas (only_slot 2)); reflexivity. Defined.

Definition key0 : MemoryKey := replicate 32 (byte_of_Z 9).
Definition hash0 : bytes := replicate 32 (byte_of_Z 5).
Definition config0 : BucketConfig :=
  match new_bucket_key_version 0 "photos" [("alice", mkGranteeSlots (published personas) (only_slot 2))]
          (10 : @rng Toy.rng_ops) with
  | Ok (kv, _, _) => mkBucketConfig None None None (Some "alice") empty [kv] 0
  | Err _ => config_default
  end.
Definition session0 : SessionInfo :=
  match seal_identity key0 hash0 "alice" 2 (seal.sk_bytes_of (dk_of 3)) (20 : @rng Toy.rng_ops) with
  | Ok (s, _) => mkSessionInfo "alice" User 0 100 2 false s 0 hash0 cache_default
  | Err _ => mkSessionInfo "" User 0 100 2 false (mkSealedSecret [] []) 0 hash0 cache_default
  end.

Lemma resolve_read_key_cached_witness :
  match resolve_read_key key0 session0 config0 "photos" 0 (30 : @rng Toy.rng_ops) with
  | (Ok sk, session', _) =>
      resolve_read_key key0 session' config_default "photos" 0 (40 : @rng Toy.rng_ops) =
        (Ok sk, session', (40 : @rng Toy.rng_ops))
  | _ => False
  end.
Proof.
  assert (is_ok (resolve_read_key key0 session0 config0 "photos" 0 (30 : @rng Toy.rng_ops)).1.1 = true) as Hok
    by (vm_compute; reflexivity).
  destruct (resolve_read_key key0 session0 config0 "photos" 0 (30 : @rng Toy.rng_ops)) as [[[sk|e] s'] r'] eqn:E.
  - exact (resolve_read_key_cached key0 session0 s' config0 config_default "photos" 0 30 r' 40 sk E).
  - discriminate Hok.
Defined.
End BucketKeysWitness.
