(* ===== verification/Lex.v ===== *)
(** * Byte strings in order

    What the index and its clients use of Rust's [str] and [[u8]]: bytewise lexicographic
    order, prefixes, UTF-8 validation, and [next_lex_after] of
    y2q-core/src/storage/index.rs, the end of the range of all keys with a prefix. *)

From stdpp Require Import sorting.
From S2P Require Import Prelude BucketKeys.

(** ** Order *)

Definition bytes_le (a b : bytes) : Prop := bytes_leb a b = true.
Definition bytes_lt (a b : bytes) : Prop := bytes_leb b a = false.

#[global] Instance bytes_le_dec : RelDecision bytes_le.
Proof. intros a b. unfold bytes_le. apply _. Defined.

Lemma bytes_leb_cons x y a b :
  bytes_leb (x :: a) (y :: b) = true <-> Z_of_byte x < Z_of_byte y \/ (x = y /\ bytes_leb a b = true).
Proof.
  cbn [bytes_leb]. rewrite orb_true_iff, andb_true_iff, Z.ltb_lt, Z.eqb_eq. split.
  - intros [?|[?%Z_of_byte_inj ?]]; auto.
  - intros [?|[-> ?]]; auto.
Qed.

#[global] Instance bytes_le_preorder : PreOrder bytes_le.
Proof.
  split.
  - intros a. induction a as [|x a IH]; [done|]. apply bytes_leb_cons. by right.
  - intros a. unfold bytes_le. induction a as [|x a IH]; intros [|y b] [|z c]; try done.
    rewrite !bytes_leb_cons. intros [?|[-> Hab]] [?|[-> Hbc]]; [left; lia|auto..|]. right. split; [done|]. by apply (IH b).
Qed.

#[global] Instance bytes_le_anti : AntiSymm (=) bytes_le.
Proof.
  intros a. unfold bytes_le. induction a as [|x a IH]; intros [|y b]; try done.
  rewrite !bytes_leb_cons. intros [?|[-> Hab]] [?|[? Hba]]; subst; try lia. f_equal. by apply IH.
Qed.

#[global] Instance bytes_le_total : Total bytes_le.
Proof.
  intros a. unfold bytes_le. induction a as [|x a IH]; intros [|y b]; auto.
  rewrite !bytes_leb_cons. destruct (Z.lt_trichotomy (Z_of_byte x) (Z_of_byte y)) as [?|[Hx|?]]; auto.
  apply Z_of_byte_inj in Hx as ->. destruct (IH b); auto.
Qed.

Lemma bytes_lt_nge a b : bytes_lt a b <-> ~ bytes_le b a.
Proof. unfold bytes_lt, bytes_le. by destruct (bytes_leb b a). Qed.

Lemma bytes_lt_le a b : bytes_lt a b <-> bytes_le a b /\ a <> b.
Proof.
  rewrite bytes_lt_nge. split.
  - intros Hn. destruct (total bytes_le a b); [|done]. split; [done|]. by intros ->.
  - intros [Hle Hne] Hge. by apply Hne, (anti_symm bytes_le).
Qed.

Lemma bytes_lt_cons x y a b :
  bytes_lt (x :: a) (y :: b) <-> Z_of_byte x < Z_of_byte y \/ (x = y /\ bytes_lt a b).
Proof.
  rewrite !bytes_lt_nge. unfold bytes_le. rewrite bytes_leb_cons. split.
  - intros Hn. destruct (Z.lt_trichotomy (Z_of_byte x) (Z_of_byte y)) as [?|[Hx|?]]; auto; [|tauto].
    apply Z_of_byte_inj in Hx as ->. right. split; [done|]. tauto.
  - intros [?|[-> Hn]] [?|[? ?]]; subst; try lia; tauto.
Qed.

Lemma bytes_lt_trans a b c : bytes_lt a b -> bytes_lt b c -> bytes_lt a c.
Proof.
  rewrite !bytes_lt_le. intros [Hab Hne] [Hbc Hne']. split; [by trans b|]. intros ->.
  by apply Hne, (anti_symm bytes_le).
Qed.

Lemma bytes_le_lt_trans a b c : bytes_le a b -> bytes_lt b c -> bytes_lt a c.
Proof. intros Hab Hbc. rewrite bytes_lt_nge in *. intros Hca. apply Hbc. by trans a. Qed.

(** [starts_with] *)
Fixpoint starts_with (b prefix : bytes) {struct prefix} : bool :=
  match prefix, b with
  | [], _ => true
  | _, [] => false
  | p :: prefix, x :: b => bool_decide (p = x) && starts_with b prefix
  end.

Lemma starts_with_spec b prefix : starts_with b prefix = true <-> exists rest, b = prefix ++ rest.
Proof.
  revert b. induction prefix as [|p prefix IH]; intros b; cbn.
  - split; [intros _; by exists b|done].
  - destruct b as [|x b]; [split; [done|by intros [? [=]]]|]. rewrite andb_true_iff, bool_decide_eq_true, IH. split.
    + intros [-> [rest ->]]. by exists rest.
    + intros [rest [= -> ->]]. eauto.
Qed.

Lemma starts_with_app prefix rest : starts_with (prefix ++ rest) prefix = true.
Proof. apply starts_with_spec. by exists rest. Qed.

Lemma prefix_le prefix rest : bytes_le prefix (prefix ++ rest).
Proof. induction prefix as [|x prefix IH]; [done|]. apply bytes_leb_cons. by right. Qed.

(** ** [next_lex_after] *)

(** The loop from the last byte back, on the reversed prefix. *)
Fixpoint bump (rev_prefix : bytes) : option bytes :=
  match rev_prefix with
  | [] => None
  | x :: rest => if Z_of_byte x <? 255 then Some (byte_of_Z (Z_of_byte x + 1) :: rest) else bump rest
  end.

Definition next_lex_after (prefix : bytes) : option bytes := reverse <$> bump (reverse prefix).

Lemma bump_app a b : bump (a ++ b) = match bump a with Some q => Some (q ++ b) | None => bump b end.
Proof. induction a as [|x a IH]; [done|]. cbn [app bump]. by destruct (Z_of_byte x <? 255). Qed.

Lemma next_lex_cons x p : next_lex_after (x :: p) =
  match next_lex_after p with
  | Some q => Some (x :: q)
  | None => if Z_of_byte x <? 255 then Some [byte_of_Z (Z_of_byte x + 1)] else None
  end.
Proof.
  unfold next_lex_after. rewrite reverse_cons, bump_app. destruct (bump (reverse p)) as [q|]; cbn.
  - by rewrite reverse_app.
  - by destruct (Z_of_byte x <? 255).
Qed.

Lemma Z_of_byte_succ x : (Z_of_byte x <? 255) = true -> Z_of_byte (byte_of_Z (Z_of_byte x + 1)) = Z_of_byte x + 1.
Proof. intros Hx%Z.ltb_lt. rewrite Z_of_byte_of_Z. pose proof (Z_of_byte_range x). apply Z.mod_small. lia. Qed.

(** The keys past the range are exactly those after [prefix] that do not start with it. *)
Lemma next_lex_after_spec p : forall b, bytes_le p b ->
  match next_lex_after p with
  | Some q => bytes_le q b <-> starts_with b p = false
  | None => starts_with b p = true
  end.
Proof.
  induction p as [|x p IH]; intros b Hb; [done|]. rewrite next_lex_cons. unfold bytes_le in *.
  destruct b as [|y b]; [done|]. apply bytes_leb_cons in Hb. cbn [starts_with].
  destruct Hb as [Hlt|[-> Hb]].
  - assert (Hne : bool_decide (x = y) = false) by (apply bool_decide_eq_false; intros ->; lia). rewrite Hne. cbn [andb].
    destruct (next_lex_after p) as [q|].
    + rewrite bytes_leb_cons. split; [done|]. by left.
    + destruct (Z_of_byte x <? 255) eqn:E255.
      * split; [done|]. intros _. rewrite bytes_leb_cons, Z_of_byte_succ by done.
        destruct (Z.eq_dec (Z_of_byte x + 1) (Z_of_byte y)) as [He|]; [right|left; lia].
        split; [|done]. apply Z_of_byte_inj. by rewrite Z_of_byte_succ.
      * apply Z.ltb_ge in E255. pose proof (Z_of_byte_range y). lia.
  - rewrite bool_decide_eq_true_2 by done. cbn [andb]. specialize (IH b Hb).
    destruct (next_lex_after p) as [q|].
    + rewrite <- IH, bytes_leb_cons. split; [intros [?|[_ ?]]; [lia|done]|]. intros ?. by right.
    + rewrite IH. destruct (Z_of_byte y <? 255) eqn:E255; [|done]. split; [|done].
      rewrite bytes_leb_cons, Z_of_byte_succ by done. intros [?|[He _]]; [lia|].
      apply (f_equal Z_of_byte) in He. rewrite Z_of_byte_succ in He by done. lia.
Qed.

Lemma next_lex_after_gt p q : next_lex_after p = Some q -> bytes_lt p q.
Proof.
  intros E. apply bytes_lt_nge. intros Hle. assert (Hs : starts_with p p = true) by (rewrite <- (app_nil_r p) at 1; apply starts_with_app).
  pose proof (next_lex_after_spec p p (reflexivity _)) as Hq. rewrite E in Hq. apply Hq in Hle. congruence.
Qed.

(** ** UTF-8 *)

(** [str::from_utf8]'s check: the well-formed sequences of the Unicode standard. *)
Definition in_range (lo hi : Z) (b : byte) : bool := (lo <=? Z_of_byte b) && (Z_of_byte b <=? hi).
Definition cont (b : byte) : bool := in_range 128 191 b.

Fixpoint valid_utf8 (s : bytes) : bool :=
  match s with
  | [] => true
  | a :: s1 =>
      if in_range 0 127 a then valid_utf8 s1 else
      match s1 with
      | [] => false
      | b :: s2 =>
          if in_range 194 223 a then cont b && valid_utf8 s2 else
          match s2 with
          | [] => false
          | c :: s3 =>
              if in_range 224 239 a then
                in_range (if Z_of_byte a =? 224 then 160 else 128) (if Z_of_byte a =? 237 then 159 else 191) b
                && cont c && valid_utf8 s3
              else
              match s3 with
              | [] => false
              | d :: s4 =>
                  in_range 240 244 a
                  && in_range (if Z_of_byte a =? 240 then 144 else 128) (if Z_of_byte a =? 244 then 143 else 191) b
                  && cont c && cont d && valid_utf8 s4
              end
          end
      end
  end.

Definition to_ascii_lowercase (s : bytes) : bytes :=
  (fun b => if in_range 65 90 b then byte_of_Z (Z_of_byte b + 32) else b) <$> s.

Definition hex_char (n : Z) : byte := if n <? 10 then byte_of_Z (48 + n) else byte_of_Z (87 + n).
Definition hex_encode (b : bytes) : bytes :=
  b ≫= (fun x => [hex_char (Z_of_byte x / 16); hex_char (Z_of_byte x mod 16)]).

Definition from_utf8 (b : bytes) : option string :=
  if valid_utf8 b then Some (String.string_of_list_byte b) else None.

(** The type invariant of [str]. *)
Definition is_str (s : string) : Prop := valid_utf8 (as_bytes s) = true.

Lemma from_utf8_as_bytes s : is_str s -> from_utf8 (as_bytes s) = Some s.
Proof. unfold is_str, from_utf8. intros ->. f_equal. apply String.string_of_list_byte_of_string. Qed.
