(* ===== verification/Query.v ===== *)
(** * Label queries

    Models the evaluation of label queries and the check that runs before they are parsed,
    y2q-core/src/query/mod.rs.  The parser itself is generated from a grammar and is not
    modelled; the check is what keeps its recursion bounded. *)

From S2P Require Import Prelude Types BucketKeys Lex.

(** [regex::Regex], compiled. *)
Class RegexOps : Type := {
  regex : Type;
  is_match : regex -> string -> bool;
}.

Section query.
Context {RX : RegexOps}.

Inductive MatchOp : Type :=
| MEq (v : string)
| MNe (v : string)
| MRegex (re : regex)
| MPrefix (v : string)
| MSuffix (v : string).

Inductive LabelQuery : Type :=
| And (a b : LabelQuery)
| Or (a b : LabelQuery)
| Not (inner : LabelQuery)
| Cond (name : string) (op : MatchOp).

Definition ends_with (b suffix : bytes) : bool := starts_with (reverse b) (reverse suffix).

(** The condition on one value; [!=] is the negation of [==] over all values. *)
Definition op_holds (op : MatchOp) (x : string) : bool :=
  match op with
  | MEq v | MNe v => bool_decide (x = v)
  | MRegex re => is_match re x
  | MPrefix v => starts_with (as_bytes x) (as_bytes v)
  | MSuffix v => ends_with (as_bytes x) (as_bytes v)
  end.

Fixpoint matches (q : LabelQuery) (labels : LabelSet) : bool :=
  match q with
  | And a b => matches a labels && matches b labels
  | Or a b => matches a labels || matches b labels
  | Not inner => negb (matches inner labels)
  | Cond name op =>
      let values := snd <$> filter (fun nv => nv.1 = name) (elements labels) in
      let any := existsb (op_holds op) values in
      match op with MNe _ => negb any | _ => any end
  end.

(** What a condition says of the labels. *)
Lemma matches_cond name op labels :
  matches (Cond name op) labels = true <->
  match op with
  | MNe v => (name, v) ∉ labels
  | _ => exists v, (name, v) ∈ labels /\ op_holds op v = true
  end.
Proof.
  assert (Hany : existsb (op_holds op) (snd <$> filter (fun nv => nv.1 = name) (elements labels)) = true <->
    exists v, (name, v) ∈ labels /\ op_holds op v = true).
  { rewrite existsb_exists. split.
    - intros (v & Hin%list_elem_of_In & Hv). apply list_elem_of_fmap in Hin as ([n v'] & -> & Hin).
      apply list_elem_of_filter in Hin as [Hn Hin%elem_of_elements]. cbn in *. subst n. eauto.
    - intros (v & Hin & Hv). exists v. split; [|done]. apply list_elem_of_In, list_elem_of_fmap. exists (name, v).
      split; [done|]. by apply list_elem_of_filter, (conj eq_refl), elem_of_elements. }
  cbn [matches]. cbv zeta. destruct op; try exact Hany. rewrite negb_true_iff, <- not_true_iff_false, Hany. cbn [op_holds].
  split.
  - intros Hn Hin. apply Hn. exists v. by rewrite bool_decide_eq_true.
  - intros Hn (v' & Hin & ->%bool_decide_eq_true). done.
Qed.

End query.

(** ** The nesting check *)

Definition MAX_PAREN_DEPTH : Z := 32.

Definition quote : byte := x22.
Definition open_paren : byte := x28.
Definition close_paren : byte := x29.

(** [find] and [rfind] of the quote. *)
Definition first_quote (b : bytes) : option nat := fst <$> list_find (fun c => c = quote) b.
Definition last_quote (b : bytes) : option nat :=
  (fun i => length b - 1 - i)%nat <$> first_quote (reverse b).

Definition maybe_quoted (quoted : option (nat * nat)) (i : nat) : bool :=
  match quoted with Some (first, last) => (first <? i)%nat && (i <? last)%nat | None => false end.

Definition nesting_error : Error :=
  Query "query parenthesis nesting exceeds 32 levels (parenthesis characters inside quoted text also count toward the limit)".

(** The scan of [LabelQuery::parse], from position [i] at [depth].  Parentheses and quotes
    are ASCII, so byte offsets are what [char_indices] gives for them. *)
Fixpoint check_nesting (quoted : option (nat * nat)) (i : nat) (depth : Z) (b : bytes) : result Error unit :=
  match b with
  | [] => Ok tt
  | c :: b =>
      if bool_decide (c = open_paren) then
        if MAX_PAREN_DEPTH <? depth + 1 then Err nesting_error else check_nesting quoted (S i) (depth + 1) b
      else if bool_decide (c = close_paren) && negb (maybe_quoted quoted i) then
        check_nesting quoted (S i) (Z.max 0 (depth - 1)) b
      else check_nesting quoted (S i) depth b
  end.

Definition parse_guard (input : string) : result Error unit :=
  let b := as_bytes input in
  let quoted := match first_quote b, last_quote b with Some f, Some l => Some (f, l) | _, _ => None end in
  check_nesting quoted 0 0 b.

(** A reading of the input: which parentheses are grouping.  [groups i] may be false only
    for one that could be text. *)
Fixpoint nesting (groups : nat -> bool) (i : nat) (depth : Z) (b : bytes) : list Z :=
  match b with
  | [] => []
  | c :: b =>
      let depth := if groups i then if bool_decide (c = open_paren) then depth + 1
                                    else if bool_decide (c = close_paren) then depth - 1 else depth
                   else depth in
      depth :: nesting groups (S i) depth b
  end.

Lemma check_nesting_covers quoted groups b : forall i d depth,
  (forall j c, b !! j = Some c -> c = close_paren -> maybe_quoted quoted (i + j) = false -> groups (i + j)%nat = true) ->
  0 <= d <= depth -> check_nesting quoted i depth b = Ok tt ->
  Forall (fun n => 0 <= n) (nesting groups i d b) -> Forall (fun n => n <= Z.max d MAX_PAREN_DEPTH) (nesting groups i d b).
Proof.
  assert (Hlow : forall m m' l, m <= m' -> Forall (fun n => n <= Z.max m MAX_PAREN_DEPTH) l ->
    Forall (fun n => n <= Z.max m' MAX_PAREN_DEPTH) l).
  { intros m m' l Hm Hl. eapply Forall_impl; [exact Hl|]. cbn. intros n. lia. }
  induction b as [|c b IH]; intros i d depth Hg Hd E Hpos; [constructor|]. cbn [nesting check_nesting] in *.
  assert (Hg' : forall j c, b !! j = Some c -> c = close_paren -> maybe_quoted quoted (S i + j) = false -> groups (S i + j)%nat = true).
  { intros j c' Hj. rewrite Nat.add_succ_comm. by apply (Hg (S j)). }
  inversion_clear Hpos as [|? ? Hp Hrest].
  case_bool_decide as Ho.
  - destruct (Z.ltb_spec MAX_PAREN_DEPTH (depth + 1)); [done|].
    assert (Hle : (if groups i then d + 1 else d) <= MAX_PAREN_DEPTH) by (destruct (groups i); lia).
    set (d' := if groups i then d + 1 else d) in *. assert (d' <= depth + 1) by (unfold d'; destruct (groups i); lia).
    constructor; [lia|]. eapply Forall_impl; [exact (IH (S i) d' (depth + 1) Hg' ltac:(lia) E Hrest)|]. cbn. intros n. lia.
  - case_bool_decide as Hc; cbn [andb] in E.
    + pose proof (Hg 0%nat c eq_refl Hc) as Hq. rewrite Nat.add_0_r in Hq.
      destruct (maybe_quoted quoted i); cbn [negb] in E.
      * set (d' := if groups i then d - 1 else d) in *. assert (d' <= d) by (unfold d'; destruct (groups i); lia).
        constructor; [lia|]. apply (Hlow d'); [lia|]. by apply (IH (S i) d' depth Hg' ltac:(lia) E).
      * rewrite Hq in * by done. constructor; [lia|]. apply (Hlow (d - 1)); [lia|].
        by apply (IH (S i) (d - 1) (Z.max 0 (depth - 1)) Hg' ltac:(lia) E).
    + replace (if groups i then d else d) with d in * by (by destruct (groups i)). constructor; [lia|].
      by apply (IH (S i) d depth Hg' Hd E).
Qed.

Lemma first_quote_le b f : b !! f = Some quote -> exists f0, first_quote b = Some f0 /\ (f0 <= f)%nat.
Proof.
  intros Hf. unfold first_quote. destruct (list_find (fun c => c = quote) b) as [[f0 c]|] eqn:E.
  - exists f0. split; [done|]. apply list_find_Some in E as (_ & _ & Hno). destruct (decide (f0 <= f)%nat); [done|].
    exfalso. apply (Hno f quote Hf); [lia|done].
  - apply list_find_None in E. rewrite Forall_forall in E. exfalso. apply (E quote); [by apply list_elem_of_lookup_2 in Hf|done].
Qed.

Lemma last_quote_ge b l : b !! l = Some quote -> exists l0, last_quote b = Some l0 /\ (l <= l0)%nat.
Proof.
  intros Hl. pose proof (lookup_lt_Some _ _ _ Hl) as Hlt.
  destruct (first_quote_le (reverse b) (length b - S l)) as (i & Hi & Hle).
  { rewrite reverse_lookup by lia. by replace (length b - S (length b - S l))%nat with l by lia. }
  exists (length b - 1 - i)%nat. unfold last_quote. rewrite Hi. split; [done|]. lia.
Qed.

(** The check before parsing bounds the parser's recursion: whatever the grammar takes
    for grouping and whatever for text, as long as a closing parenthesis that is text
    stands between two quotes and the groups are balanced from the left, a query that
    passes the check never nests more than 32 deep. *)
Theorem parse_guard_sound (input : string) (groups : nat -> bool) :
  parse_guard input = Ok tt ->
  (forall j, as_bytes input !! j = Some close_paren -> groups j = false ->
     exists f l, (f < j < l)%nat /\ as_bytes input !! f = Some quote /\ as_bytes input !! l = Some quote) ->
  Forall (fun n => 0 <= n) (nesting groups 0 0 (as_bytes input)) ->
  Forall (fun n => n <= 32) (nesting groups 0 0 (as_bytes input)).
Proof.
  intros E Hq Hpos. unfold parse_guard in E. cbv zeta in E.
  refine (check_nesting_covers _ groups _ 0 0 0 _ ltac:(lia) E Hpos). intros j c Hj -> Hm. cbn [Nat.add] in *.
  destruct (groups j) eqn:Eg; [done|]. exfalso. destruct (Hq j Hj Eg) as (f & l & [H1 H2] & Hf & Hl).
  apply first_quote_le in Hf as (f0 & Hf0 & ?). apply last_quote_ge in Hl as (l0 & Hl0 & ?).
  rewrite Hf0, Hl0 in Hm. cbn in Hm. apply andb_false_iff in Hm as [?%Nat.ltb_ge|?%Nat.ltb_ge]; lia.
Qed.

(** A group around a quoted value that contains a closing parenthesis. *)
Lemma parse_guard_sound_witness :
  let q := (String.string_of_list_byte (as_bytes "(a == " ++ [quote] ++ as_bytes "x)" ++ [quote] ++ as_bytes ")")) in
  Forall (fun n => n <= 32) (nesting (fun i => negb (i =? 8)%nat) 0 0 (as_bytes q)).
Proof.
  intros q. apply (parse_guard_sound q (fun i => negb (i =? 8)%nat)).
  - vm_compute. reflexivity.
  - intros j _ Hj%negb_false_iff%Nat.eqb_eq. subst j. exists 6%nat, 9%nat. split; [lia|]. split; vm_compute; reflexivity.
  - apply (bool_decide_unpack _). vm_compute. exact I.
Defined.
