(* ===== verification/Index.v ===== *)
(** * The metadata index

    Models y2q-core/src/storage/index.rs: the key encodings of the three tables, the
    operations on them, and the paged scans.

    redb and serde are interfaces: a table is an ordered map from byte strings to byte
    strings whose operations may fail, a write transaction is a copy of the tables that
    replaces them when it commits, and the JSON of a record decodes to that record.
    Durability levels and the failure of a worker thread to join are not modelled. *)

From stdpp Require Import sorting.
From S2P Require Import Prelude Types Crypto BucketKeys Lex Query.

(** ** Interfaces *)

(** [redb]: [tbl_iter t start] is the cursor of [range(start..)], one item per row; an
    item that cannot be read is an error. *)
Class RedbOps : Type := {
  tbl : Type;
  tbl_get : tbl -> bytes -> result string (option bytes);
  tbl_insert : tbl -> bytes -> bytes -> result string tbl;
  tbl_remove : tbl -> bytes -> result string tbl;
  tbl_iter : tbl -> bytes -> result string (list (result string (bytes * bytes)));
}.

(** [serde_json] on [Metadata]. *)
Class MetadataJson : Type := {
  to_vec : Metadata -> result string bytes;
  from_slice : bytes -> result string Metadata;
}.

Record ListPage : Type := mkListPage { lp_items : list Metadata; lp_next : option string }.

(** ** Keys *)

(** [write_len_prefixed] *)
Definition field (s : string) : bytes := lp (as_bytes s).
Arguments field : simpl never.

Definition encode_object_key (bucket key : string) : bytes := field bucket ++ field key.
Definition encode_bucket_prefix (bucket : string) : bytes := field bucket.
Definition encode_label_key (name value bucket key : string) : bytes :=
  field name ++ field value ++ field bucket ++ field key.
Definition encode_label_prefix (name value : string) : bytes := field name ++ field value.

Definition read_len_prefixed (buf : bytes) : option (string * bytes) :=
  if blen buf <? 4 then None else
  let len := from_be_bytes (take 4 buf) in
  if blen buf <? 4 + len then None else
  s ← from_utf8 (slice 4 (4 + len) buf);
  Some (s, drop (Z.to_nat (4 + len)) buf).

Definition decode_label_suffix (buf : bytes) : option (string * string) :=
  '(bucket, rest) ← read_len_prefixed buf;
  '(key, _) ← read_len_prefixed rest;
  Some (bucket, key).

(** [format!] with a NUL between bucket and key *)
Definition cursor (m : Metadata) : string := md_bucket m +:+ String.String (Ascii.ascii_of_nat 0) (md_key m).

Definition DEFAULT_LIST_LIMIT : nat := Z.to_nat 1000.
Definition MAX_LIST_LIMIT : nat := Z.to_nat 10000.

(** [options.limit.filter(|&n| n > 0).unwrap_or(DEFAULT_LIST_LIMIT).min(MAX_LIST_LIMIT)] *)
Definition page_limit (limit : option nat) : nat :=
  Nat.min (match limit with Some (S n) => S n | _ => DEFAULT_LIST_LIMIT end) MAX_LIST_LIMIT.

Module MetaIndex.

Section index.
Context {RD : RedbOps} {J : MetadataJson}.

Record IndexDb : Type := mkIndexDb { objects : tbl; labels : tbl; buckets : tbl }.
(** [None] while the database is not open. *)
Record MetadataIndex : Type := mkMetadataIndex { idx_db : option IndexDb }.

Definition redb {T} (m : result string T) : result Error T := map_err Index m.
Definition db (idx : MetadataIndex) : result Error IndexDb :=
  ok_or (idx_db idx) (Index "metadata index locked; login required").
Definition decode (v : bytes) : result Error Metadata :=
  map_err (fun e => Index ("deserialize metadata: " ++ e)%string) (from_slice v).
Definition malformed : Error := Index "malformed object key in index".

(** A write transaction: the tables it leaves replace the old ones. *)
Definition commit (d : IndexDb) : MetadataIndex := mkMetadataIndex (Some d).

(** [for (n, v) in labels { table.remove(..)? }] and its counterpart. *)
Definition remove_labels (bucket key : string) (ls : list (string * string)) (t : tbl) : result Error tbl :=
  foldl (fun acc nv => t ← acc; redb (tbl_remove t (encode_label_key nv.1 nv.2 bucket key))) (Ok t) ls.
Definition insert_labels (bucket key : string) (ls : list (string * string)) (t : tbl) : result Error tbl :=
  foldl (fun acc nv => t ← acc; redb (tbl_insert t (encode_label_key nv.1 nv.2 bucket key) [])) (Ok t) ls.

(** Tear down the label rows of the row being replaced; a row that does not decode is
    passed over. *)
Definition tear_down (bucket key : string) (d : IndexDb) : result Error tbl :=
  prev ← redb (tbl_get (objects d) (encode_object_key bucket key));
  match prev with
  | Some v =>
      match from_slice v with
      | Ok m => remove_labels bucket key (elements (md_labels m)) (labels d)
      | Err _ => Ok (labels d)
      end
  | None => Ok (labels d)
  end.

Definition upsert (idx : MetadataIndex) (m : Metadata) : result Error MetadataIndex :=
  d ← db idx;
  payload ← map_err (fun e => Index ("serialize metadata: " ++ e)%string) (to_vec m);
  ls ← tear_down (md_bucket m) (md_key m) d;
  os ← redb (tbl_insert (objects d) (encode_object_key (md_bucket m) (md_key m)) payload);
  ls ← insert_labels (md_bucket m) (md_key m) (elements (md_labels m)) ls;
  Ok (commit (mkIndexDb os ls (buckets d))).

Definition remove (idx : MetadataIndex) (bucket key : string) : result Error MetadataIndex :=
  d ← db idx;
  ls ← tear_down bucket key d;
  os ← redb (tbl_remove (objects d) (encode_object_key bucket key));
  Ok (commit (mkIndexDb os ls (buckets d))).

Definition lookup_by_key (idx : MetadataIndex) (bucket key : string) : result Error (option Metadata) :=
  d ← db idx;
  v ← redb (tbl_get (objects d) (encode_object_key bucket key));
  match v with
  | None => Ok None
  | Some v => m ← decode v; Ok (Some m)
  end.

(** The loop of [lookup_by_label]. *)
Fixpoint label_hits (prefix : bytes) (rows : list (result string (bytes * bytes))) : result Error (list (string * string)) :=
  match rows with
  | [] => Ok []
  | row :: rows =>
      kv ← redb row;
      let hit := if starts_with kv.1 prefix then decode_label_suffix (drop (length prefix) kv.1) else None in
      hits ← label_hits prefix rows;
      Ok (match hit with Some bk => bk :: hits | None => hits end)
  end.

Definition lookup_by_label (idx : MetadataIndex) (name value : string) : result Error (list (string * string)) :=
  d ← db idx;
  rows ← redb (tbl_iter (labels d) []);
  label_hits (encode_label_prefix name value) rows.

(** The skip-ahead loop of [list_buckets]; [None] when the fuel is not enough. *)
Fixpoint bucket_loop (fuel : nat) (t : tbl) (start : bytes) (acc : list string) : option (result Error (list string)) :=
  match fuel with
  | O => None
  | S fuel =>
      match redb (tbl_iter t start) with
      | Err e => Some (Err e)
      | Ok [] => Some (Ok acc)
      | Ok (row :: _) =>
          match redb row with
          | Err e => Some (Err e)
          | Ok (k, _) =>
              match read_len_prefixed k with
              | None => Some (Err malformed)
              | Some (bucket, _) =>
                  match next_lex_after (encode_bucket_prefix bucket) with
                  | None => Some (Ok (acc ++ [bucket]))
                  | Some next => bucket_loop fuel t next (acc ++ [bucket])
                  end
              end
          end
      end
  end.

Definition list_buckets (fuel : nat) (idx : MetadataIndex) : option (result Error (list string)) :=
  match db idx with
  | Err e => Some (Err e)
  | Ok d =>
      match bucket_loop fuel (objects d) [] [] with
      | None => None
      | Some (Err e) => Some (Err e)
      | Some (Ok bs) => Some (Ok (merge_sort str_le bs))
      end
  end.

Definition bucket_exists (idx : MetadataIndex) (bucket : string) : result Error bool :=
  d ← db idx;
  registered ← redb (tbl_get (buckets d) (as_bytes bucket));
  match registered with
  | Some _ => Ok true
  | None =>
      rows ← redb (tbl_iter (objects d) (encode_bucket_prefix bucket));
      match rows with
      | [] => Ok false
      | row :: _ => kv ← redb row; Ok (starts_with kv.1 (encode_bucket_prefix bucket))
      end
  end.

Definition register_bucket (idx : MetadataIndex) (bucket : string) : result Error MetadataIndex :=
  d ← db idx;
  bs ← redb (tbl_insert (buckets d) (as_bytes bucket) []);
  Ok (commit (mkIndexDb (objects d) (labels d) bs)).

Definition unregister_bucket (idx : MetadataIndex) (bucket : string) : result Error MetadataIndex :=
  d ← db idx;
  bs ← redb (tbl_remove (buckets d) (as_bytes bucket));
  Ok (commit (mkIndexDb (objects d) (labels d) bs)).

(** [for entry in table.iter()? { .. }], collecting what [f] makes of each row. *)
Fixpoint collect {T} (f : bytes * bytes -> result Error (option T)) (rows : list (result string (bytes * bytes)))
  : result Error (list T) :=
  match rows with
  | [] => Ok []
  | row :: rows =>
      kv ← redb row;
      x ← f kv;
      xs ← collect f rows;
      Ok (match x with Some x => x :: xs | None => xs end)
  end.

Definition list_registered_buckets (idx : MetadataIndex) : result Error (list string) :=
  d ← db idx;
  rows ← redb (tbl_iter (buckets d) []);
  collect (fun kv => Ok (from_utf8 kv.1)) rows.

Definition list_all_keys (idx : MetadataIndex) : result Error (list (string * string)) :=
  d ← db idx;
  rows ← redb (tbl_iter (objects d) []);
  collect (fun kv => bk ← ok_or (decode_label_suffix kv.1) malformed; Ok (Some bk)) rows.

(** ** Paged scans *)

(** The rows of one bucket, up to the first key that is not its. *)
Fixpoint bucket_rows (prefix : bytes) (rows : list (result string (bytes * bytes))) : result Error (list Metadata) :=
  match rows with
  | [] => Ok []
  | row :: rows =>
      kv ← redb row;
      if negb (starts_with kv.1 prefix) then Ok [] else
      m ← decode kv.2;
      ms ← bucket_rows prefix rows;
      Ok (m :: ms)
  end.

Definition key_le (a b : Metadata) : Prop := str_le (md_key a) (md_key b).
#[global] Instance key_le_dec : RelDecision key_le.
Proof. intros a b. unfold key_le. apply _. Defined.

(** [m.key.as_str() <= a], on whatever string orders the listing. *)
Definition after_ok (after : option string) (s : string) : bool :=
  match after with Some a => negb (bool_decide (str_le s a)) | None => true end.
Definition prefix_ok (prefix : option string) (s : string) : bool :=
  match prefix with Some p => starts_with (as_bytes s) (as_bytes p) | None => true end.

(** The loop that fills a page: [page.len() == limit] is tested before each push. *)
Fixpoint fill_page (order : Metadata -> string) (keep : Metadata -> bool) (limit : nat) (page : list Metadata)
    (items : list Metadata) : list Metadata * bool :=
  match items with
  | [] => (page, false)
  | m :: items =>
      if negb (keep m) then fill_page order keep limit page items else
      if (length page =? limit)%nat then (page, true) else
      fill_page order keep limit (page ++ [m]) items
  end.

Definition page_of (order : Metadata -> string) (keep : Metadata -> bool) (limit : nat) (items : list Metadata) : ListPage :=
  let '(page, overflowed) := fill_page order keep limit [] items in
  mkListPage page (if overflowed then order <$> last page else None).

Definition scan_objects (idx : MetadataIndex) (bucket : string) (prefix after : option string) (limit : nat)
  : result Error ListPage :=
  d ← db idx;
  rows ← redb (tbl_iter (objects d) (encode_bucket_prefix bucket));
  items ← bucket_rows (encode_bucket_prefix bucket) rows;
  Ok (page_of md_key (fun m => prefix_ok prefix (md_key m) && after_ok after (md_key m)) limit (merge_sort key_le items)).

Definition bucket_key_le (a b : Metadata) : Prop :=
  str_le (md_bucket a) (md_bucket b) /\ (md_bucket a = md_bucket b -> str_le (md_key a) (md_key b)).
#[global] Instance bucket_key_le_dec : RelDecision bucket_key_le.
Proof. intros a b. unfold bucket_key_le. apply _. Defined.

Context {RX : RegexOps}.

Definition search_labels (idx : MetadataIndex) (query : LabelQuery) (bucket prefix after : option string) (limit : nat)
  : result Error ListPage :=
  d ← db idx;
  rows ← redb (tbl_iter (objects d) []);
  matched ← collect (fun kv =>
      m ← decode kv.2;
      Ok (if match bucket with Some b => bool_decide (md_bucket m = b) | None => true end
             && prefix_ok prefix (md_key m) && matches query (md_labels m) then Some m else None)) rows;
  Ok (page_of cursor (fun m => after_ok after (cursor m)) limit (merge_sort bucket_key_le matched)).

End index.

End MetaIndex.
