(* ===== verification/IndexSpec.v ===== *)
(** * What the metadata index promises

    The index refines a finite map from bucket and key to metadata: its object table is
    that map, its label table the exact reverse map, its scans enumerate it page by page,
    and the skip-ahead listing of buckets finds what a full scan would. *)

From stdpp Require Import sorting relations.
From S2P Require Import Prelude Types Crypto BucketKeys Lex Query Index.
Import MetaIndex.

(** ** What redb and serde promise *)

Definition row_le (a b : bytes * bytes) : Prop := bytes_le a.1 b.1.
#[global] Instance row_le_dec : RelDecision row_le.
Proof. intros a b. unfold row_le. apply _. Defined.
#[global] Instance row_le_total : Total row_le.
Proof. intros a b. apply (total bytes_le). Qed.
#[global] Instance row_le_trans : Transitive row_le.
Proof. intros a b c. unfold row_le. apply transitivity. Qed.

(** The rows at or after [start], in key order. *)
Definition rows_from (m : gmap bytes bytes) (start : bytes) : list (bytes * bytes) :=
  filter (fun kv => bytes_le start kv.1) (merge_sort row_le (map_to_list m)).

(** A cursor gives the rows in turn until it fails. *)
Fixpoint delivers {T} (items : list (result string T)) (rows : list T) : Prop :=
  match items, rows with
  | [], _ => rows = []
  | Err _ :: _, _ => True
  | Ok _ :: _, [] => False
  | Ok x :: items, y :: rows => x = y /\ delivers items rows
  end.

Class RedbLaws {RD : RedbOps} : Type := {
  tbl_view : tbl -> gmap bytes bytes;
  tbl_get_view t k o : tbl_get t k = Ok o -> o = tbl_view t !! k;
  tbl_insert_view t k v t' : tbl_insert t k v = Ok t' -> tbl_view t' = <[k := v]> (tbl_view t);
  tbl_remove_view t k t' : tbl_remove t k = Ok t' -> tbl_view t' = delete k (tbl_view t);
  tbl_iter_view t start items : tbl_iter t start = Ok items -> delivers items (rows_from (tbl_view t) start);
}.

Class JsonLaws {J : MetadataJson} : Prop := {
  json_roundtrip m b : to_vec m = Ok b -> from_slice b = Ok m;
  json_created m b : from_slice b = Ok m -> in_u 64 (md_created m);
}.

(** ** Encodings *)

(** A string whose length fits the prefix. *)
Definition name_ok (s : string) : Prop := is_str s /\ blen (as_bytes s) < 2 ^ 32.

Definition meta_ok (m : Metadata) : Prop :=
  name_ok (md_bucket m) /\ name_ok (md_key m) /\ forall n v, (n, v) ∈ md_labels m -> name_ok n /\ name_ok v.

Lemma read_field s rest : name_ok s -> read_len_prefixed (field s ++ rest) = Some (s, rest).
Proof.
  intros [Hs Hl]. unfold read_len_prefixed, field, lp. rewrite <- app_assoc. set (n := blen (as_bytes s)) in *.
  assert (Hpos : 0 <= n) by apply blen_nonneg.
  assert (H4 : length (to_be_bytes 4 n) = 4%nat) by apply length_to_be_bytes.
  assert (Ht : take 4 (to_be_bytes 4 n ++ as_bytes s ++ rest) = to_be_bytes 4 n) by (by rewrite take_app_length').
  rewrite Ht, from_to_be_bytes by (change (256 ^ Z.of_nat 4) with (2 ^ 32); lia). cbv zeta.
  rewrite !blen_app, blen_to_be_bytes. pose proof (blen_nonneg rest).
  rewrite (proj2 (Z.ltb_ge _ _)) by lia. rewrite (proj2 (Z.ltb_ge _ _)) by lia.
  assert (Hsl : slice 4 (4 + n) (to_be_bytes 4 n ++ as_bytes s ++ rest) = as_bytes s).
  { unfold slice. replace (Z.to_nat 4) with 4%nat by lia. rewrite drop_app_length' by done.
    replace (Z.to_nat (4 + n - 4)) with (length (as_bytes s)) by (unfold n, blen; lia). apply take_app_length. }
  rewrite Hsl, from_utf8_as_bytes by done. cbn [mbind option_bind]. f_equal. f_equal.
  replace (Z.to_nat (4 + n)) with (length (to_be_bytes 4 n ++ as_bytes s)) by (rewrite length_app, H4; unfold n, blen; lia).
  by rewrite app_assoc, drop_app_length.
Qed.

Lemma field_inj s t x y : name_ok s -> name_ok t -> field s ++ x = field t ++ y -> s = t /\ x = y.
Proof. intros [_ Hs] [_ Ht] He. apply lp_inj in He as [He ->]; [|done..]. split; [|done]. by apply as_bytes_inj. Qed.

Lemma field_prefix s t x : name_ok s -> name_ok t -> starts_with (field s ++ x) (field t) = true <-> s = t.
Proof.
  intros Hs Ht. rewrite starts_with_spec. split.
  - intros [rest He]. by apply field_inj in He as [-> _].
  - intros ->. by exists x.
Qed.

Lemma object_key_inj b k b' k' : name_ok b -> name_ok k -> name_ok b' -> name_ok k' ->
  encode_object_key b k = encode_object_key b' k' -> b = b' /\ k = k'.
Proof.
  intros ? ? ? ? He. unfold encode_object_key in He. apply field_inj in He as [-> He]; [|done..]. split; [done|].
  rewrite <- (app_nil_r (field k)), <- (app_nil_r (field k')) in He. by apply field_inj in He as [-> _].
Qed.

Lemma label_key_inj n v b k n' v' b' k' :
  name_ok n -> name_ok v -> name_ok b -> name_ok k -> name_ok n' -> name_ok v' -> name_ok b' -> name_ok k' ->
  encode_label_key n v b k = encode_label_key n' v' b' k' -> n = n' /\ v = v' /\ b = b' /\ k = k'.
Proof.
  intros ? ? ? ? ? ? ? ? He. unfold encode_label_key in He.
  apply field_inj in He as [-> He]; [|done..]. apply field_inj in He as [-> He]; [|done..].
  apply (object_key_inj b k b' k') in He as [-> ->]; done.
Qed.

Lemma decode_suffix b k : name_ok b -> name_ok k -> decode_label_suffix (field b ++ field k) = Some (b, k).
Proof.
  intros Hb Hk. unfold decode_label_suffix. rewrite read_field by done. cbn [mbind option_bind].
  rewrite <- (app_nil_r (field k)). by rewrite read_field.
Qed.

(** ** Cursors *)

Lemma sorted_filter {T} (R : relation T) (P : T -> Prop) `{forall x, Decision (P x)} l :
  StronglySorted R l -> StronglySorted R (filter P l).
Proof.
  induction 1 as [|x l Hs IH Hall]; [constructor|]. rewrite filter_cons. case_decide; [|done]. constructor; [done|].
  apply Forall_forall. intros y [_ Hy]%list_elem_of_filter. rewrite Forall_forall in Hall. by apply Hall.
Qed.

Lemma NoDup_fst_filter {T U} (P : T * U -> Prop) `{forall x, Decision (P x)} (l : list (T * U)) :
  NoDup l.*1 -> NoDup (filter P l).*1.
Proof.
  induction l as [|x l IH]; [done|]. cbn [fmap list_fmap]. intros [Hx Hl]%NoDup_cons. rewrite filter_cons.
  case_decide; [|auto]. cbn [fmap list_fmap]. apply NoDup_cons. split; [|auto]. intros (y & Hy & Hin)%list_elem_of_fmap. apply Hx, list_elem_of_fmap.
  apply list_elem_of_filter in Hin as [_ ?]. eauto.
Qed.

Lemma elem_of_rows_from m start k v : (k, v) ∈ rows_from m start <-> m !! k = Some v /\ bytes_le start k.
Proof.
  unfold rows_from. rewrite list_elem_of_filter, merge_sort_Permutation, elem_of_map_to_list. cbn. tauto.
Qed.

Lemma rows_from_nil_start m : rows_from m [] = merge_sort row_le (map_to_list m).
Proof. unfold rows_from. induction (merge_sort _ _) as [|kv l IH]; [done|]. rewrite filter_cons_True by done. by rewrite IH. Qed.

Lemma delivers_cons {T} (x : T) items rows : delivers (Ok x :: items) rows ->
  exists rows', rows = x :: rows' /\ delivers items rows'.
Proof. destruct rows as [|y rows]; [done|]. intros [-> ?]. eauto. Qed.

Lemma collect_delivered {T} (f : bytes * bytes -> result Error (option T)) items : forall rows xs,
  delivers items rows -> collect f items = Ok xs ->
  exists ys, Forall2 (fun kv y => f kv = Ok y) rows ys /\ xs = omap id ys.
Proof.
  induction items as [|[kv|e] items IH]; intros rows xs Hd E; cbn [collect] in E.
  - cbn in Hd. subst rows. injection E as <-. exists []. split; [constructor|done].
  - apply delivers_cons in Hd as (rows' & -> & Hd). cbn [redb map_err mbind result_bind] in E.
    apply bind_Ok_inv in E as (x & Ex & E). apply bind_Ok_inv in E as (xs' & Exs & E). injection E as <-.
    destruct (IH rows' xs' Hd Exs) as (ys & Hf & ->). exists (x :: ys). split; [by constructor|]. by destruct x.
  - done.
Qed.

Lemma collect_pure {T} (g : bytes * bytes -> option T) items : forall rows xs,
  delivers items rows -> collect (fun kv => Ok (g kv)) items = Ok xs -> xs = omap g rows.
Proof.
  induction items as [|[kv|e] items IH]; intros rows xs Hd E; cbn [collect] in E; [|cbn [redb map_err mbind result_bind] in E|done].
  - cbn in Hd. subst rows. by injection E as <-.
  - apply delivers_cons in Hd as (rows' & -> & Hd). apply bind_Ok_inv in E as (xs' & Exs & E). injection E as <-.
    cbn [omap list_omap]. by rewrite <- (IH rows' xs' Hd Exs).
Qed.

Section spec.
Context {RD : RedbOps} {J : MetadataJson} {RX : RegexOps} {RL : RedbLaws} {JL : JsonLaws}.

Abbreviation catalog := (gmap (string * string) Metadata).

(** The index holds exactly [M], and its label table exactly the labels in [M]. *)
Record represents (d : IndexDb) (M : catalog) : Prop := mkRepresents {
  rep_meta : forall b k m, M !! (b, k) = Some m -> md_bucket m = b /\ md_key m = k /\ meta_ok m;
  rep_objects : forall kb v, tbl_view (objects d) !! kb = Some v ->
    exists m, from_slice v = Ok m /\ M !! (md_bucket m, md_key m) = Some m /\ kb = encode_object_key (md_bucket m) (md_key m);
  rep_complete : forall b k m, M !! (b, k) = Some m ->
    exists v, tbl_view (objects d) !! encode_object_key b k = Some v /\ from_slice v = Ok m;
  rep_labels : forall lk, is_Some (tbl_view (labels d) !! lk) <->
    exists b k m n v, M !! (b, k) = Some m /\ (n, v) ∈ md_labels m /\ lk = encode_label_key n v b k;
}.

Lemma rep_lookup d M b k : represents d M -> name_ok b -> name_ok k ->
  match tbl_view (objects d) !! encode_object_key b k with
  | Some v => exists m, from_slice v = Ok m /\ M !! (b, k) = Some m
  | None => M !! (b, k) = None
  end.
Proof using.
  intros HR Hb Hk. destruct (tbl_view (objects d) !! encode_object_key b k) as [v|] eqn:E.
  - destruct (rep_objects _ _ HR _ _ E) as (m & Hm & HM & He). destruct (rep_meta _ _ HR _ _ _ HM) as (_ & _ & ? & ? & _).
    apply object_key_inj in He as [-> ->]; [|done..]. eauto.
  - apply eq_None_not_Some. intros [m Hm]. destruct (rep_complete _ _ HR _ _ _ Hm) as (v & Hv & _). congruence.
Qed.

(** *** Label rows *)

Lemma remove_labels_view b k ls : forall t t', remove_labels b k ls t = Ok t' -> forall lk,
  is_Some (tbl_view t' !! lk) <-> is_Some (tbl_view t !! lk) /\ lk ∉ (fun nv => encode_label_key nv.1 nv.2 b k) <$> ls.
Proof using RL.
  unfold remove_labels. induction ls as [|nv ls IH] using rev_ind; intros t t' E lk; cbn in E.
  - injection E as <-. split; [intros ?; split; [done|apply not_elem_of_nil] | by intros [? _]].
  - rewrite foldl_snoc in E. apply bind_Ok_inv in E as (t1 & E1 & E). apply map_err_Ok, tbl_remove_view in E.
    specialize (IH t t1 E1 lk). rewrite E, fmap_app, lookup_delete_is_Some, IH, elem_of_app. cbn [fmap list_fmap].
    rewrite list_elem_of_singleton, (symmetry_iff (=) lk). clear. tauto.
Qed.

Lemma insert_labels_view b k ls : forall t t', insert_labels b k ls t = Ok t' -> forall lk,
  is_Some (tbl_view t' !! lk) <-> is_Some (tbl_view t !! lk) \/ lk ∈ (fun nv => encode_label_key nv.1 nv.2 b k) <$> ls.
Proof using RL.
  unfold insert_labels. induction ls as [|nv ls IH] using rev_ind; intros t t' E lk; cbn in E.
  - injection E as <-. split; [by left | by intros [?|?%elem_of_nil]].
  - rewrite foldl_snoc in E. apply bind_Ok_inv in E as (t1 & E1 & E). apply map_err_Ok, tbl_insert_view in E.
    specialize (IH t t1 E1 lk). rewrite E, fmap_app, lookup_insert_is_Some, IH, elem_of_app. cbn [fmap list_fmap].
    rewrite list_elem_of_singleton, (symmetry_iff (=) lk). clear.
    destruct (decide (encode_label_key nv.1 nv.2 b k = lk)); tauto.
Qed.

(** After the tear-down the label rows are those of the other objects. *)
Lemma tear_down_view d M b k t' : represents d M -> name_ok b -> name_ok k -> tear_down b k d = Ok t' -> forall lk,
  is_Some (tbl_view t' !! lk) <->
  exists b' k' m n v, (b', k') <> (b, k) /\ M !! (b', k') = Some m /\ (n, v) ∈ md_labels m /\ lk = encode_label_key n v b' k'.
Proof using RL.
  intros HR Hb Hk E lk. unfold tear_down in E. apply bind_Ok_inv in E as (prev & Eg & E). apply map_err_Ok, tbl_get_view in Eg.
  pose proof (rep_lookup d M b k HR Hb Hk) as Hp. rewrite <- Eg in Hp. destruct prev as [v0|].
  - destruct Hp as (m0 & Hm0 & HM0). rewrite Hm0 in E. rewrite (remove_labels_view _ _ _ _ _ E lk), (rep_labels _ _ HR lk).
    destruct (rep_meta _ _ HR _ _ _ HM0) as (_ & _ & _ & _ & Hl0). split.
    + intros [(b' & k' & m & n & v & HM & Hin & ->) Hnot]. exists b', k', m, n, v. split_and!; try done.
      intros [= -> ->]. apply Hnot, list_elem_of_fmap. exists (n, v). split; [done|]. apply elem_of_elements. congruence.
    + intros (b' & k' & m & n & v & Hne & HM & Hin & ->). split; [eauto 10|].
      intros ([n0 v1] & He & Hin0)%list_elem_of_fmap. apply elem_of_elements in Hin0. cbn in He.
      destruct (rep_meta _ _ HR _ _ _ HM) as (<- & <- & ? & ? & Hl).
      destruct (Hl0 _ _ Hin0), (Hl _ _ Hin). apply label_key_inj in He as (_ & _ & <- & <-); done.
  - injection E as <-. rewrite (rep_labels _ _ HR lk). split.
    + intros (b' & k' & m & n & v & HM & Hin & ->). exists b', k', m, n, v. split_and!; try done. intros [= -> ->]. congruence.
    + intros (b' & k' & m & n & v & _ & HM & Hin & ->). eauto 10.
Qed.

Lemma upsert_represents d M m idx' : represents d M -> meta_ok m -> upsert (commit d) m = Ok idx' ->
  exists d', idx' = commit d' /\ buckets d' = buckets d /\ represents d' (<[(md_bucket m, md_key m) := m]> M).
Proof using RL JL.
  intros HR Hm E. pose proof Hm as (Hb & Hk & _). unfold upsert in E. cbn [db commit idx_db ok_or mbind result_bind] in E.
  apply bind_Ok_inv in E as (payload & Ep & E). apply map_err_Ok, json_roundtrip in Ep.
  apply bind_Ok_inv in E as (ls & El & E). pose proof (tear_down_view _ _ _ _ _ HR Hb Hk El) as Hls.
  apply bind_Ok_inv in E as (os & Eo & E). apply map_err_Ok, tbl_insert_view in Eo.
  apply bind_Ok_inv in E as (ls' & El' & E). pose proof (insert_labels_view _ _ _ _ _ El') as Hls'.
  injection E as <-. eexists. split; [done|]. split; [done|]. constructor; cbn [objects labels].
  - intros b k m' [[[= <- <-] <-]|[_ HM]]%lookup_insert_Some; [done|]. by apply (rep_meta _ _ HR).
  - intros kb v. rewrite Eo. intros [[<- <-]|[Hne Hv]]%lookup_insert_Some.
    + exists m. split_and!; try done. apply lookup_insert_eq.
    + destruct (rep_objects _ _ HR _ _ Hv) as (m' & Hm' & HM' & ->). exists m'. split_and!; try done.
      rewrite lookup_insert_ne; [done|]. intros [= H1 H2]. apply Hne. congruence.
  - intros b k m' [[[= <- <-] <-]|[Hne HM]]%lookup_insert_Some.
    + exists payload. rewrite Eo. by rewrite lookup_insert_eq.
    + destruct (rep_complete _ _ HR _ _ _ HM) as (v & Hv & Hd). exists v. split; [|done]. rewrite Eo.
      rewrite lookup_insert_ne; [done|]. destruct (rep_meta _ _ HR _ _ _ HM) as (<- & <- & ? & ? & _).
      intros [H1 H2]%object_key_inj; [|done..]. apply Hne. congruence.
  - intros lk. rewrite Hls', Hls. split.
    + intros [(b & k & m' & n & v & Hne & HM & Hin & ->)|([n v] & -> & Hin%elem_of_elements)%list_elem_of_fmap].
      * exists b, k, m', n, v. by rewrite lookup_insert_ne.
      * exists (md_bucket m), (md_key m), m, n, v. by rewrite lookup_insert_eq.
    + intros (b & k & m' & n & v & [[[= <- <-] <-]|[Hne HM]]%lookup_insert_Some & Hin & ->).
      * right. apply list_elem_of_fmap. exists (n, v). split; [done|]. by apply elem_of_elements.
      * left. exists b, k, m', n, v. split_and!; first [done|congruence].
Qed.

Lemma remove_represents d M b k idx' : represents d M -> name_ok b -> name_ok k -> remove (commit d) b k = Ok idx' ->
  exists d', idx' = commit d' /\ buckets d' = buckets d /\ represents d' (delete (b, k) M).
Proof using RL.
  intros HR Hb Hk E. unfold remove in E. cbn [db commit idx_db ok_or mbind result_bind] in E.
  apply bind_Ok_inv in E as (ls & El & E). pose proof (tear_down_view _ _ _ _ _ HR Hb Hk El) as Hls.
  apply bind_Ok_inv in E as (os & Eo & E). apply map_err_Ok, tbl_remove_view in Eo.
  injection E as <-. eexists. split; [done|]. split; [done|]. constructor; cbn [objects labels].
  - intros b' k' m' [_ HM]%lookup_delete_Some. by apply (rep_meta _ _ HR).
  - intros kb v. rewrite Eo. intros [Hne Hv]%lookup_delete_Some.
    destruct (rep_objects _ _ HR _ _ Hv) as (m' & Hm' & HM' & ->). exists m'. split_and!; try done.
    rewrite lookup_delete_ne; [done|]. intros [= H1 H2]. apply Hne. congruence.
  - intros b' k' m' [Hne HM]%lookup_delete_Some. destruct (rep_complete _ _ HR _ _ _ HM) as (v & Hv & Hd).
    exists v. split; [|done]. rewrite Eo, lookup_delete_ne; [done|]. destruct (rep_meta _ _ HR _ _ _ HM) as (<- & <- & ? & ? & _).
    intros [H1 H2]%object_key_inj; [|done..]. apply Hne. congruence.
  - intros lk. rewrite Hls. split.
    + intros (b' & k' & m' & n & v & Hne & HM & Hin & ->). exists b', k', m', n, v. by rewrite lookup_delete_ne.
    + intros (b' & k' & m' & n & v & [Hne HM]%lookup_delete_Some & Hin & ->). exists b', k', m', n, v. split_and!; first [done|congruence].
Qed.

(** *** Point lookups *)

Lemma lookup_by_key_spec d M b k o : represents d M -> name_ok b -> name_ok k ->
  lookup_by_key (commit d) b k = Ok o -> o = M !! (b, k).
Proof using RL.
  intros HR Hb Hk E. unfold lookup_by_key in E. cbn [db commit idx_db ok_or mbind result_bind] in E.
  apply bind_Ok_inv in E as (v & Ev & E). apply map_err_Ok, tbl_get_view in Ev.
  pose proof (rep_lookup d M b k HR Hb Hk) as Hp. rewrite <- Ev in Hp. destruct v as [v|]; [|congruence].
  destruct Hp as (m & Hm & ->). unfold decode in E. rewrite Hm in E. by injection E.
Qed.

Lemma label_hits_collect prefix items : label_hits prefix items =
  collect (fun kv => Ok (if starts_with kv.1 prefix then decode_label_suffix (drop (length prefix) kv.1) else None)) items.
Proof using. induction items as [|[kv|e] items IH]; [done| |done]. cbn [label_hits collect redb map_err mbind result_bind]. by rewrite IH. Qed.

Lemma label_key_hit n v n' v' b k : name_ok n -> name_ok v -> name_ok n' -> name_ok v' -> name_ok b -> name_ok k ->
  (if starts_with (encode_label_key n' v' b k) (encode_label_prefix n v)
   then decode_label_suffix (drop (length (encode_label_prefix n v)) (encode_label_key n' v' b k)) else None) =
  if decide (n' = n /\ v' = v) then Some (b, k) else None.
Proof using.
  intros Hn Hv Hn' Hv' Hb Hk. unfold encode_label_key, encode_label_prefix. case_decide as Heq.
  - destruct Heq as [-> ->]. rewrite app_assoc, starts_with_app, drop_app_length. by apply decode_suffix.
  - destruct (starts_with _ _) eqn:Es; [|done]. exfalso. apply Heq. apply starts_with_spec in Es as [rest He].
    rewrite <- app_assoc in He. apply field_inj in He as [-> He]; [|done..]. by apply field_inj in He as [-> _].
Qed.

Lemma lookup_by_label_spec d M n v l : represents d M -> name_ok n -> name_ok v ->
  lookup_by_label (commit d) n v = Ok l ->
  forall b k, (b, k) ∈ l <-> exists m, M !! (b, k) = Some m /\ (n, v) ∈ md_labels m.
Proof using RL.
  intros HR Hn Hv E b k. unfold lookup_by_label in E. cbn [db commit idx_db ok_or mbind result_bind] in E.
  apply bind_Ok_inv in E as (items & Ei & E). apply map_err_Ok, tbl_iter_view in Ei.
  rewrite label_hits_collect in E. apply (collect_pure _ _ _ _ Ei) in E as ->.
  set (g := fun kv : bytes * bytes => if starts_with kv.1 (encode_label_prefix n v)
    then decode_label_suffix (drop (length (encode_label_prefix n v)) kv.1) else None).
  assert (Hhit : forall n' v' b k x, name_ok n' -> name_ok v' -> name_ok b -> name_ok k ->
    g (encode_label_key n' v' b k, x) = if decide (n' = n /\ v' = v) then Some (b, k) else None).
  { intros. by apply label_key_hit. }
  clearbody g. rewrite list_elem_of_omap. split.
  - intros ([lk x] & Hrow & Hg). apply elem_of_rows_from in Hrow as [Hrow _].
    destruct (proj1 (rep_labels _ _ HR lk)) as (b0 & k0 & m0 & n0 & v0 & HM & Hin & ->); [by exists x|].
    destruct (rep_meta _ _ HR _ _ _ HM) as (Hb0 & Hk0 & Hb & Hk & Hl). rewrite Hb0 in Hb. rewrite Hk0 in Hk. destruct (Hl _ _ Hin).
    rewrite Hhit in Hg by done. case_decide as Hd; [|done]. destruct Hd as [-> ->]. injection Hg as -> ->. eauto.
  - intros (m & HM & Hin). destruct (rep_meta _ _ HR _ _ _ HM) as (Hb0 & Hk0 & Hb & Hk & Hl). rewrite Hb0 in Hb. rewrite Hk0 in Hk.
    destruct (proj2 (rep_labels _ _ HR (encode_label_key n v b k))) as [x Hx]; [eauto 10|].
    exists (encode_label_key n v b k, x). split; [by apply elem_of_rows_from|]. rewrite Hhit by done. by rewrite decide_True.
Qed.

(** *** Rows of one bucket *)

Lemma rows_from_sorted m start : StronglySorted row_le (rows_from m start).
Proof using. unfold rows_from. apply sorted_filter, (StronglySorted_merge_sort _). Qed.

(** The keys with a prefix are consecutive. *)
Lemma prefix_convex p k k' : bytes_le p k -> bytes_le k k' -> starts_with k' p = true -> starts_with k p = true.
Proof using.
  intros Hk Hkk Hk'. pose proof (next_lex_after_spec p k Hk) as H1.
  assert (Hpk' : bytes_le p k') by (by trans k). pose proof (next_lex_after_spec p k' Hpk') as H2.
  destruct (next_lex_after p) as [q|]; [|done]. destruct (starts_with k p) eqn:E; [done|]. exfalso.
  assert (Hq : bytes_le q k) by (by apply H1). assert (Hqk : bytes_le q k') by (by trans k). apply H2 in Hqk. congruence.
Qed.

(** The rows up to the first one outside the prefix. *)
Fixpoint take_prefix (prefix : bytes) (rows : list (bytes * bytes)) : list (bytes * bytes) :=
  match rows with
  | [] => []
  | kv :: rows => if starts_with kv.1 prefix then kv :: take_prefix prefix rows else []
  end.

Lemma take_prefix_all prefix rows : StronglySorted row_le rows -> Forall (fun kv => bytes_le prefix kv.1) rows ->
  take_prefix prefix rows = filter (fun kv => starts_with kv.1 prefix = true) rows.
Proof using.
  induction 1 as [|kv rows Hs IH Hall]; intros Hge; [done|]. inversion_clear Hge as [|? ? Hkv Hrest]. cbn [take_prefix].
  destruct (starts_with kv.1 prefix) eqn:E; [by rewrite filter_cons_True, IH|].
  rewrite filter_cons_False by congruence. symmetry.
  assert (Hnone : forall kv', kv' ∈ rows -> starts_with kv'.1 prefix = false).
  { intros kv' Hin. destruct (starts_with kv'.1 prefix) eqn:E'; [|done]. rewrite Forall_forall in Hall.
    rewrite (prefix_convex prefix kv.1 kv'.1) in E; [done|done|by apply Hall|done]. }
  clear IH Hall Hrest Hs. induction rows as [|r rows IH]; [done|]. rewrite filter_cons_False by (rewrite Hnone; [done|left]).
  apply IH. intros kv' Hin. apply Hnone. by right.
Qed.

Lemma bucket_rows_delivered prefix items : forall rows ms, delivers items rows -> bucket_rows prefix items = Ok ms ->
  Forall2 (fun kv m => from_slice kv.2 = Ok m) (take_prefix prefix rows) ms.
Proof using.
  induction items as [|[kv|e] items IH]; intros rows ms Hd E; cbn [bucket_rows] in E; [|cbn [redb map_err mbind result_bind] in E|done].
  - cbn in Hd. subst rows. injection E as <-. constructor.
  - apply delivers_cons in Hd as (rows' & -> & Hd). cbn [take_prefix]. destruct (starts_with kv.1 prefix); cbn [negb] in E.
    + apply bind_Ok_inv in E as (m & Em & E). apply bind_Ok_inv in E as (ms' & Ems & E). injection E as <-.
      apply map_err_Ok in Em. constructor; [done|]. by apply IH.
    + injection E as <-. constructor.
Qed.

Lemma NoDup_rows m start : NoDup (rows_from m start).*1.
Proof using.
  unfold rows_from. apply NoDup_fst_filter.
  rewrite merge_sort_Permutation. apply NoDup_fst_map_to_list.
Qed.

(** The objects of a bucket, as the scan reads them. *)
Lemma bucket_rows_spec d M bucket items ms : represents d M -> name_ok bucket ->
  tbl_iter (objects d) (encode_bucket_prefix bucket) = Ok items ->
  bucket_rows (encode_bucket_prefix bucket) items = Ok ms ->
  (forall m, m ∈ ms <-> md_bucket m = bucket /\ M !! (bucket, md_key m) = Some m) /\ NoDup (md_key <$> ms).
Proof using RL.
  intros HR Hb Hi E. apply tbl_iter_view in Hi. apply (bucket_rows_delivered _ _ _ _ Hi) in E.
  rewrite take_prefix_all in E; [| apply rows_from_sorted | apply Forall_forall; intros [k v] [_ ?]%elem_of_rows_from; done].
  set (rows := filter _ _) in E.
  assert (Hrows : forall k v, (k, v) ∈ rows <-> exists m, from_slice v = Ok m /\ md_bucket m = bucket /\
    M !! (bucket, md_key m) = Some m /\ k = encode_object_key bucket (md_key m) /\ tbl_view (objects d) !! k = Some v).
  { intros k v. unfold rows. rewrite list_elem_of_filter, elem_of_rows_from. cbn [fst]. split.
    - intros (Hs & Hv & _). destruct (rep_objects _ _ HR _ _ Hv) as (m & Hm & HM & ->).
      destruct (rep_meta _ _ HR _ _ _ HM) as (_ & _ & ? & ? & _). apply field_prefix in Hs; [|done..]. subst bucket. eauto 10.
    - intros (m & Hm & Hbm & HM & -> & Hv). split_and!; [by apply field_prefix|done|apply prefix_le]. }
  split.
  - intros m. split.
    + intros Hin. apply list_elem_of_lookup in Hin as [i Hm]. destruct (Forall2_lookup_r _ _ _ _ _ E Hm) as ([k v] & Hr & Hv).
      apply list_elem_of_lookup_2, Hrows in Hr as (m' & Hm' & ? & ? & _). cbn in Hv. rewrite Hv in Hm'. injection Hm' as <-. done.
    + intros [Hbm HM]. destruct (rep_complete _ _ HR _ _ _ HM) as (v & Hv & Hm).
      assert (Hr : (encode_object_key bucket (md_key m), v) ∈ rows) by (apply Hrows; eauto 10).
      apply list_elem_of_lookup in Hr as [i Hr]. destruct (Forall2_lookup_l _ _ _ _ _ E Hr) as (m' & Hm' & Hv'). cbn in Hv'.
      apply list_elem_of_lookup_2 in Hm'. congruence.
  - assert (Hnd : NoDup rows.*1) by apply NoDup_fst_filter, NoDup_rows.
    apply NoDup_alt. intros i j x Hx Hy. rewrite NoDup_alt in Hnd.
    assert (Hrow : forall i, (md_key <$> ms) !! i = Some x -> rows.*1 !! i = Some (encode_object_key bucket x)).
    { intros l Hl. apply list_lookup_fmap_Some in Hl as (m & -> & Hm). destruct (Forall2_lookup_r _ _ _ _ _ E Hm) as ([k v] & Hr & Hv).
      apply list_lookup_fmap_Some. exists (k, v). split; [|done]. apply list_elem_of_lookup_2, Hrows in Hr as (m' & Hm' & _ & _ & -> & _).
      cbn in Hv. rewrite Hv in Hm'. by injection Hm' as <-. }
    by apply (Hnd i j (encode_object_key bucket x)); apply Hrow.
Qed.

(** *** Pages *)

Lemma fill_page_spec order keep limit items : forall page, (length page <= limit)%nat ->
  fill_page order keep limit page items =
    (page ++ take (limit - length page) (filter (fun m => keep m = true) items),
     (limit - length page <? length (filter (fun m => keep m = true) items))%nat).
Proof using.
  induction items as [|m items IH]; intros page Hp; cbn [fill_page].
  { rewrite filter_nil, take_nil, app_nil_r. cbn [length]. by destruct (Nat.ltb_spec (limit - length page) 0); [lia|]. }
  destruct (keep m) eqn:Ek; cbn [negb].
  - rewrite filter_cons_True by done. destruct (Nat.eqb_spec (length page) limit) as [He|Hne].
    + rewrite He, Nat.sub_diag. cbn [take]. by rewrite app_nil_r.
    + rewrite IH by (rewrite length_app; cbn [length]; lia). rewrite length_app. cbn [length].
      destruct (limit - length page)%nat as [|n] eqn:En; [lia|]. replace (limit - (length page + 1))%nat with n by lia.
      cbn [take]. by rewrite <- app_assoc.
  - rewrite filter_cons_False by congruence. by apply IH.
Qed.

Lemma page_of_spec order keep limit items :
  page_of order keep limit items =
    mkListPage (take limit (filter (fun m => keep m = true) items))
      (if (limit <? length (filter (fun m => keep m = true) items))%nat
       then order <$> last (take limit (filter (fun m => keep m = true) items)) else None).
Proof using. unfold page_of. rewrite fill_page_spec by (cbn; lia). cbn [length]. by rewrite Nat.sub_0_r. Qed.

Definition key_lt (a b : Metadata) : Prop := bytes_lt (as_bytes (md_key a)) (as_bytes (md_key b)).

(** Distinct keys in order are in strict order. *)
Lemma strictly_sorted l : StronglySorted key_le l -> NoDup (md_key <$> l) -> StronglySorted key_lt l.
Proof using.
  induction 1 as [|m l Hs IH Hall]; [constructor|]. cbn [fmap list_fmap]. intros [Hm Hl]%NoDup_cons. constructor; [auto|].
  rewrite Forall_forall in *. intros m' Hm'. apply bytes_lt_le. split; [by apply Hall|].
  intros He%as_bytes_inj. apply Hm, list_elem_of_fmap. eauto.
Qed.

#[local] Instance key_le_total : Total key_le.
Proof using. intros a b. apply (total bytes_le). Qed.
#[local] Instance key_le_trans : Transitive key_le.
Proof using. intros a b c. unfold key_le, str_le. apply (transitivity (R := bytes_le)). Qed.

(** The listing a scan pages through: the matching objects of the bucket by key. *)
Definition listing (M : catalog) (bucket : string) (prefix after : option string) (l : list Metadata) : Prop :=
  StronglySorted key_lt l /\
  forall m, m ∈ l <-> md_bucket m = bucket /\ M !! (bucket, md_key m) = Some m /\
    prefix_ok prefix (md_key m) = true /\ after_ok after (md_key m) = true.

Lemma scan_objects_spec d M bucket prefix after limit page : represents d M -> name_ok bucket ->
  scan_objects (commit d) bucket prefix after limit = Ok page ->
  exists l, listing M bucket prefix after l /\ lp_items page = take limit l /\
    lp_next page = if (limit <? length l)%nat then md_key <$> last (take limit l) else None.
Proof using RL.
  intros HR Hb E. unfold scan_objects in E. cbn [db commit idx_db ok_or mbind result_bind] in E.
  apply bind_Ok_inv in E as (items & Ei & E). apply map_err_Ok in Ei. apply bind_Ok_inv in E as (ms & Em & E). injection E as <-.
  destruct (bucket_rows_spec d M bucket items ms HR Hb Ei Em) as [Hms Hnd]. rewrite page_of_spec. cbn [lp_items lp_next].
  exists (filter (fun m => prefix_ok prefix (md_key m) && after_ok after (md_key m) = true) (merge_sort key_le ms)).
  split; [|done]. split.
  - apply sorted_filter, strictly_sorted; [apply (StronglySorted_merge_sort _)|]. by rewrite merge_sort_Permutation.
  - intros m. rewrite list_elem_of_filter, merge_sort_Permutation, Hms, andb_true_iff. clear. tauto.
Qed.

(** *** Buckets *)

(** The buckets that have a row at or after [start]. *)
Definition bucket_from (M : catalog) (start : bytes) (b : string) : Prop :=
  exists k m, M !! (b, k) = Some m /\ bytes_le start (encode_object_key b k).

Lemma rows_from_split m start start' : bytes_le start start' ->
  forall kv, kv ∈ rows_from m start' <-> kv ∈ rows_from m start /\ bytes_le start' kv.1.
Proof using.
  intros Hle [k v]. rewrite !elem_of_rows_from. cbn [fst]. split; [|tauto]. intros [? ?]. split_and!; try done. by trans start'.
Qed.

Lemma rows_from_shorter m start start' k v : bytes_le start start' -> m !! k = Some v -> bytes_le start k -> ~ bytes_le start' k ->
  (length (rows_from m start') < length (rows_from m start))%nat.
Proof using.
  intros Hle Hk Hsk Hno. assert (Hsub : (k, v) :: rows_from m start' ⊆+ rows_from m start).
  { apply NoDup_submseteq.
    - apply NoDup_cons. split; [by intros [_ ?]%elem_of_rows_from|]. apply (NoDup_fmap_1 fst), NoDup_rows.
    - intros kv [->|Hin]%elem_of_cons; [by apply elem_of_rows_from|]. by apply (rows_from_split m start start') in Hin as [? _]. }
  apply submseteq_length in Hsub. cbn [length] in Hsub. lia.
Qed.

(** The first row at or after [start] names a bucket, and past the range of that bucket
    are exactly the rows of the others. *)
Lemma first_bucket d M start k v rows : represents d M -> rows_from (tbl_view (objects d)) start = (k, v) :: rows ->
  exists b rest, k = encode_bucket_prefix b ++ rest /\ name_ok b /\ bucket_from M start b /\
    match next_lex_after (encode_bucket_prefix b) with
    | Some next => (length (rows_from (tbl_view (objects d)) next) < length (rows_from (tbl_view (objects d)) start))%nat /\
        forall b', bucket_from M next b' <-> bucket_from M start b' /\ b' <> b
    | None => forall b', bucket_from M start b' -> b' = b
    end.
Proof using.
  intros HR Hrows.
  assert (Hin : (k, v) ∈ rows_from (tbl_view (objects d)) start) by (rewrite Hrows; left).
  apply elem_of_rows_from in Hin as [Hv Hle]. destruct (rep_objects _ _ HR _ _ Hv) as (m & _ & HM & ->).
  destruct (rep_meta _ _ HR _ _ _ HM) as (_ & _ & Hbm & Hkm & _). set (b := md_bucket m) in *.
  exists b, (field (md_key m)). split; [done|]. split; [done|]. split; [by exists (md_key m), m|].
  assert (Hrest : forall b' k' m', M !! (b', k') = Some m' -> bytes_le start (encode_object_key b' k') ->
    bytes_le (encode_bucket_prefix b) (encode_object_key b' k') /\
    (starts_with (encode_object_key b' k') (encode_bucket_prefix b) = true <-> b' = b)).
  { intros b' k' m' HM' Hle'. destruct (rep_complete _ _ HR _ _ _ HM') as (v' & Hv' & _).
    destruct (rep_meta _ _ HR _ _ _ HM') as (<- & <- & ? & ? & _). split; [|by apply field_prefix].
    trans (encode_object_key b (md_key m)); [apply prefix_le|].
    assert (Hin : (encode_object_key (md_bucket m') (md_key m'), v') ∈ rows_from (tbl_view (objects d)) start) by (by apply elem_of_rows_from).
    pose proof (rows_from_sorted (tbl_view (objects d)) start) as Hs. rewrite Hrows in Hs, Hin. inversion_clear Hs as [|? ? _ Hall].
    apply elem_of_cons in Hin as [He|Hin]; [by apply (f_equal fst) in He; cbn [fst] in He; rewrite He|].
    rewrite Forall_forall in Hall. exact (Hall _ Hin). }
  destruct (next_lex_after (encode_bucket_prefix b)) as [next|] eqn:En.
  2: { intros b' (k' & m' & HM' & Hle'). destruct (Hrest _ _ _ HM' Hle') as [Hp Hst].
       pose proof (next_lex_after_spec _ _ Hp) as Hn. rewrite En in Hn. by apply Hst. }
  assert (Hnext : forall b' k' m', M !! (b', k') = Some m' -> bytes_le start (encode_object_key b' k') ->
    bytes_le next (encode_object_key b' k') <-> b' <> b).
  { intros b' k' m' HM' Hle'. destruct (Hrest _ _ _ HM' Hle') as [Hp Hst].
    pose proof (next_lex_after_spec _ _ Hp) as Hn. rewrite En in Hn. rewrite Hn, <- Hst. by destruct (starts_with _ _). }
  assert (Hno : ~ bytes_le next (encode_object_key b (md_key m))) by (intros Hc; by apply (Hnext _ _ _ HM Hle) in Hc).
  assert (Hsn : bytes_le start next).
  { trans (encode_object_key b (md_key m)); [done|]. by destruct (total bytes_le next (encode_object_key b (md_key m))). }
  split; [exact (rows_from_shorter _ _ _ _ _ Hsn Hv Hle Hno)|]. intros b'. split.
  - intros (k' & m' & HM' & Hle'). assert (Hs : bytes_le start (encode_object_key b' k')) by (by trans next).
    split; [by exists k', m'|]. by apply (Hnext _ _ _ HM' Hs).
  - intros [(k' & m' & HM' & Hle') Hne]. exists k', m'. split; [done|]. by apply (Hnext _ _ _ HM' Hle').
Qed.

Lemma bucket_loop_spec d M : represents d M -> forall fuel start acc,
  (length (rows_from (tbl_view (objects d)) start) < fuel)%nat ->
  exists res, bucket_loop fuel (objects d) start acc = Some res /\
    forall bs, res = Ok bs -> exists new, bs = acc ++ new /\ NoDup new /\ forall b, b ∈ new <-> bucket_from M start b.
Proof using RL.
  intros HR. induction fuel as [|fuel IH]; intros start acc Hf; [lia|]. cbn [bucket_loop].
  destruct (tbl_iter (objects d) start) as [items|e] eqn:Ei; [|by eexists; split; [|intros ? ?]]. cbn [redb map_err].
  apply tbl_iter_view in Ei. destruct items as [|[[k v]|e] items]; [| |by eexists; split; [|intros ? ?]].
  { cbn in Ei. eexists. split; [done|]. intros bs [= <-]. exists []. rewrite app_nil_r. split_and!; [done|constructor|].
    intros b. split; [by intros ?%elem_of_nil|]. intros (k & m & HM & Hle). exfalso.
    destruct (rep_complete _ _ HR _ _ _ HM) as (v & Hv & _).
    assert (Hin : (encode_object_key b k, v) ∈ rows_from (tbl_view (objects d)) start) by (by apply elem_of_rows_from).
    rewrite Ei in Hin. by apply elem_of_nil in Hin. }
  apply delivers_cons in Ei as (rows & Hrows & _). cbn [redb map_err].
  destruct (first_bucket d M start k v rows HR Hrows) as (b & rest & -> & Hb & Hfrom & Hnext).
  unfold encode_bucket_prefix at 1. rewrite read_field by done.
  destruct (next_lex_after (encode_bucket_prefix b)) as [next|].
  - destruct Hnext as [Hlen Hb'].
    destruct (IH next (acc ++ [b])) as (res & Hres & Hspec); [lia|].
    exists res. split; [done|]. intros bs ->. destruct (Hspec bs eq_refl) as (new & -> & Hnd & Hnew).
    exists (b :: new). rewrite <- app_assoc. split; [done|]. split.
    + apply NoDup_cons. split; [|done]. rewrite Hnew, Hb'. tauto.
    + intros b'. rewrite elem_of_cons, Hnew, Hb'. split; [intros [->|[? _]]; done|].
      intros Hs. destruct (decide (b' = b)); auto.
  - eexists. split; [done|]. intros bs [= <-]. exists [b]. split; [done|]. split; [apply NoDup_singleton|].
    intros b'. rewrite list_elem_of_singleton. split; [by intros ->|apply Hnext].
Qed.

(** ** The claims *)

Lemma rows_from_length m start : (length (rows_from m start) <= size m)%nat.
Proof using.
  unfold rows_from. etrans; [apply length_filter|]. rewrite merge_sort_Permutation. by rewrite length_map_to_list.
Qed.

#[local] Instance str_le_total : Total str_le.
Proof using. intros a b. apply (total bytes_le). Qed.
#[local] Instance str_le_trans : Transitive str_le.
Proof using. intros a b c. unfold str_le. apply (transitivity (R := bytes_le)). Qed.

(** The skip-ahead listing of buckets ends and misses nothing: on an index with [n]
    rows, after at most [n + 1] probes it has an answer, and if that is not a storage
    error it is the sorted list, without duplicates, of exactly the buckets that hold at
    least one object, however many objects each of them holds. *)
Theorem list_buckets_exact (d : IndexDb) (M : catalog) (fuel : nat) :
  represents d M -> (size (tbl_view (objects d)) < fuel)%nat ->
  exists res, list_buckets fuel (commit d) = Some res /\
    forall bs, res = Ok bs -> StronglySorted str_le bs /\ NoDup bs /\
      forall b, b ∈ bs <-> exists k m, M !! (b, k) = Some m.
Proof using RL.
  intros HR Hf. unfold list_buckets. cbn [db commit idx_db ok_or].
  destruct (bucket_loop_spec d M HR fuel [] []) as (res & Hres & Hspec).
  { pose proof (rows_from_length (tbl_view (objects d)) []). lia. }
  rewrite Hres. destruct res as [bs|e]; [|by eexists; split; [|intros ? ?]]. destruct (Hspec bs eq_refl) as (new & -> & Hnd & Hnew).
  eexists. split; [done|]. intros bs [= <-]. cbn [app]. split_and!.
  - apply (StronglySorted_merge_sort _).
  - by rewrite merge_sort_Permutation.
  - intros b. rewrite merge_sort_Permutation, Hnew. unfold bucket_from. split; [|by intros (k & m & HM); exists k, m].
    intros (k & m & HM & _). eauto.
Qed.

(** *** Following the cursor *)

Lemma key_lt_sorted_NoDup l : StronglySorted key_lt l -> NoDup l.
Proof using.
  induction 1 as [|m l Hs IH Hall]; constructor; [|done]. intros Hin. rewrite Forall_forall in Hall.
  specialize (Hall m Hin). unfold key_lt in Hall. apply bytes_lt_le in Hall as [_ ?]. done.
Qed.

#[local] Instance key_lt_anti : AntiSymm (=) key_lt.
Proof using. intros a b H1 H2. unfold key_lt in *. pose proof (bytes_lt_trans _ _ _ H1 H2) as H3. by apply bytes_lt_le in H3 as [_ ?]. Qed.

Lemma listing_unique M bucket prefix after l l' :
  listing M bucket prefix after l -> listing M bucket prefix after l' -> l = l'.
Proof using.
  intros [Hs Hm] [Hs' Hm']. apply (StronglySorted_unique key_lt); [done..|].
  apply NoDup_Permutation; [by apply key_lt_sorted_NoDup..|]. intros m. by rewrite Hm, Hm'.
Qed.

Lemma after_ok_lt a s : after_ok (Some a) s = true <-> bytes_lt (as_bytes a) (as_bytes s).
Proof using.
  unfold after_ok. rewrite negb_true_iff, bool_decide_eq_false, bytes_lt_nge. done.
Qed.

Lemma after_ok_weaken after a s : after_ok after a = true -> bytes_le (as_bytes a) (as_bytes s) -> after_ok after s = true.
Proof using.
  destruct after as [c|]; [|done]. rewrite !after_ok_lt. intros H1 H2. apply bytes_lt_le in H1 as [Hle Hne].
  apply bytes_lt_le. split; [by trans (as_bytes a)|]. intros He. apply Hne, (anti_symm bytes_le); [done|]. by rewrite He.
Qed.

(** What comes after the cursor of a page is what the page left out. *)
Lemma listing_next M bucket prefix after l n c :
  listing M bucket prefix after l -> md_key <$> last (take n l) = Some c -> listing M bucket prefix (Some c) (drop n l).
Proof using.
  intros [Hs Hm] Hc. apply fmap_Some in Hc as (lst & Hlst & ->). apply last_Some in Hlst as [front Hlst].
  assert (Hl : l = front ++ lst :: drop n l) by (rewrite <- (take_drop n l) at 1; rewrite Hlst, <- app_assoc; done).
  rewrite Hl in Hs. apply StronglySorted_app in Hs as (Hfb & Hf & Hb). inversion_clear Hb as [|? ? Hd Hall]. split; [done|].
  rewrite Forall_forall in Hall. intros m. rewrite after_ok_lt. split.
  - intros Hin. assert (Hml : m ∈ l) by (rewrite Hl; apply elem_of_app; right; by right). apply Hm in Hml as (? & ? & ? & _). split_and!; try done. by apply Hall.
  - intros (Hb & HM & Hp & Hlt). assert (Hlin : lst ∈ l) by (rewrite Hl; apply elem_of_app; right; by left). apply Hm in Hlin as (_ & _ & _ & Ha).
    assert (Hml : m ∈ l).
    { apply Hm. split_and!; try done. apply (after_ok_weaken _ (md_key lst)); [done|]. by apply bytes_lt_le in Hlt as [? _]. }
    rewrite Hl in Hml. apply elem_of_app in Hml as [Hin|[->|Hin]%elem_of_cons]; [| |done].
    + exfalso. specialize (Hfb m lst Hin ltac:(left)). pose proof (bytes_lt_trans _ _ _ Hfb Hlt) as Hc.
      by apply bytes_lt_le in Hc as [_ ?].
    + exfalso. by apply bytes_lt_le in Hlt as [_ ?].
Qed.

(** There is always such a listing. *)
Lemma listing_exists d M bucket prefix after : represents d M ->
  exists l, listing M bucket prefix after l /\ (length l <= size M)%nat.
Proof using.
  intros HR. set (rows := filter (fun kv => kv.1.1 = bucket) (map_to_list M)).
  assert (Hrows : forall m, m ∈ rows.*2 <-> md_bucket m = bucket /\ M !! (bucket, md_key m) = Some m).
  { intros m. rewrite list_elem_of_fmap. unfold rows. split.
    - intros ([[b k] m'] & -> & Hin). apply list_elem_of_filter in Hin as [Hb Hin%elem_of_map_to_list]. cbn in Hb. subst b.
      destruct (rep_meta _ _ HR _ _ _ Hin) as (? & <- & _). done.
    - intros [Hb HM]. exists ((bucket, md_key m), m). split; [done|]. apply list_elem_of_filter. split; [done|].
      by apply elem_of_map_to_list. }
  assert (Hnd : NoDup (md_key <$> rows.*2)).
  { rewrite <- list_fmap_compose. apply NoDup_fmap_2_strong; [|apply NoDup_filter, NoDup_map_to_list].
    intros [[b k] m] [[b' k'] m'] Hin Hin'. unfold rows in Hin, Hin'. apply list_elem_of_filter in Hin as [Hb Hin%elem_of_map_to_list].
    apply list_elem_of_filter in Hin' as [Hb' Hin'%elem_of_map_to_list]. cbn in *. subst b b'.
    destruct (rep_meta _ _ HR _ _ _ Hin) as (_ & <- & _), (rep_meta _ _ HR _ _ _ Hin') as (_ & <- & _). intros He. congruence. }
  exists (filter (fun m => prefix_ok prefix (md_key m) && after_ok after (md_key m) = true) (merge_sort key_le rows.*2)). split; [split|].
  - apply sorted_filter, strictly_sorted; [apply (StronglySorted_merge_sort _)|]. by rewrite merge_sort_Permutation.
  - intros m. rewrite list_elem_of_filter, merge_sort_Permutation, Hrows, andb_true_iff. clear. tauto.
  - etrans; [apply length_filter|]. rewrite merge_sort_Permutation, length_fmap. unfold rows. etrans; [apply length_filter|].
    by rewrite length_map_to_list.
Qed.

(** *** Sequences of writes *)

Inductive IndexOp : Type := Upsert (m : Metadata) | Remove (b k : string).
Definition op_ok (op : IndexOp) : Prop :=
  match op with Upsert m => meta_ok m | Remove b k => name_ok b /\ name_ok k end.
Definition run_op (idx : MetadataIndex) (op : IndexOp) : result Error MetadataIndex :=
  match op with Upsert m => upsert idx m | Remove b k => remove idx b k end.
Definition spec_op (M : catalog) (op : IndexOp) : catalog :=
  match op with Upsert m => <[(md_bucket m, md_key m) := m]> M | Remove b k => delete (b, k) M end.

Definition run_ops (idx : MetadataIndex) (ops : list IndexOp) : result Error MetadataIndex :=
  foldl (fun acc op => idx ← acc; run_op idx op) (Ok idx) ops.

Lemma run_ops_represents ops : forall d M idx', represents d M -> Forall op_ok ops -> run_ops (commit d) ops = Ok idx' ->
  exists d', idx' = commit d' /\ buckets d' = buckets d /\ represents d' (foldl spec_op M ops).
Proof using RL JL.
  induction ops as [|op ops IH] using rev_ind; intros d M idx' HR Hok E; [injection E as <-; eauto|].
  apply Forall_app in Hok as [Hops Hop]. inversion_clear Hop as [|? ? Hop1 _]. rename Hop1 into Hop. unfold run_ops in *. rewrite foldl_snoc in E. rewrite foldl_snoc.
  apply bind_Ok_inv in E as (idx1 & E1 & E). destruct (IH d M idx1 HR Hops E1) as (d1 & -> & Hb1 & HR1).
  destruct op as [m|b k]; cbn [run_op spec_op] in *.
  - destruct (upsert_represents _ _ _ _ HR1 Hop E) as (d' & -> & Hb' & HR'). exists d'. split_and!; [done|congruence|done].
  - destruct Hop as [Hb Hk]. destruct (remove_represents _ _ _ _ _ HR1 Hb Hk E) as (d' & -> & Hb' & HR'). exists d'. split_and!; [done|congruence|done].
Qed.

(** C21: the index refines a map from bucket and key to metadata: after any sequence of
    inserts, replacements and removals, looking a key up gives what the map after the same
    sequence holds, and looking a label up gives exactly the objects of that map which
    carry the label now, with no row left behind by a label an object no longer has. *)
Theorem index_refines (d : IndexDb) (M : catalog) (ops : list IndexOp) (idx' : MetadataIndex) :
  represents d M -> Forall op_ok ops -> run_ops (commit d) ops = Ok idx' ->
  let M' := foldl spec_op M ops in
  (forall b k o, name_ok b -> name_ok k -> lookup_by_key idx' b k = Ok o -> o = M' !! (b, k)) /\
  (forall n v l, name_ok n -> name_ok v -> lookup_by_label idx' n v = Ok l ->
     forall b k, (b, k) ∈ l <-> exists m, M' !! (b, k) = Some m /\ (n, v) ∈ md_labels m).
Proof using RL JL.
  intros HR Hok E M'. destruct (run_ops_represents ops d M idx' HR Hok E) as (d' & -> & _ & HR'). split.
  - intros b k o Hb Hk. by apply lookup_by_key_spec.
  - intros n v l Hn Hv. by apply lookup_by_label_spec.
Qed.

End spec.
