(* ===== verification/Authz.v ===== *)
(** * Bucket authorization

    Models y2qd/src/authz.rs and the status mapping of y2qd/src/error.rs.

    What a caller may do on a bucket is the meet of the role's ceiling, the username's
    relationship to the bucket, and the sealed key grant of the persona that is logged
    in.  The results: nothing is permitted without all three (the write-only drop box
    apart), a persona that holds a decoy sees what it would see if the bucket did not
    exist, a bucket one claims is usable by the claiming session at once, and a persona
    minted under a role gains nothing over it.

    The storage layer is the interface [ListingOps] with the laws its trait documents. *)

From S2P Require Import Prelude Primitives Types Crypto Slots Session BucketKeys.

(** ** Capability sets *)

Record Caps : Type := mkCaps { c_read : bool; c_write : bool; c_admin : bool }.
#[global] Instance Caps_eq_dec : EqDecision Caps.
Proof. solve_decision. Defined.

Definition NONE : Caps := mkCaps false false false.
Definition FULL : Caps := mkCaps true true true.

Definition allows (c : Caps) (required : BucketPermission) : bool :=
  match required with
  | PRead => c_read c
  | PWrite | PWriteOnly => c_write c
  | PAdmin => c_admin c
  end.

Definition intersect (a b : Caps) : Caps :=
  mkCaps (c_read a && c_read b) (c_write a && c_write b) (c_admin a && c_admin b).

Definition role_caps (role : Role) : Caps :=
  match role with
  | Admin | User => FULL
  | ReadOnly | Auditor => mkCaps true false false
  | WriteOnly => mkCaps false true false
  | Disabled => NONE
  end.

Definition role_is_global (role : Role) : bool :=
  match role with Admin | Auditor => true | _ => false end.

Definition role_permits (candidate ceiling : Role) : bool :=
  let c := role_caps candidate in
  let m := role_caps ceiling in
  let caps_permitted := (negb (c_read c) || c_read m) && (negb (c_write c) || c_write m)
                        && (negb (c_admin c) || c_admin m) in
  let global_permitted := negb (role_is_global candidate) || role_is_global ceiling in
  caps_permitted && global_permitted.

Definition grant_caps (level : BucketPermission) : Caps :=
  match level with
  | PRead => mkCaps true false false
  | PWrite => mkCaps true true false
  | PWriteOnly => mkCaps false true false
  | PAdmin => FULL
  end.

Definition bucket_grant_caps (cfg : BucketConfig) (username : string) : option Caps :=
  match owner cfg with
  | Some o => if bool_decide (o = username) then Some FULL else grant_caps <$> acl cfg !! username
  | None => None
  end.

Definition is_write_only_relationship (cfg : BucketConfig) (username : string) : bool :=
  match owner cfg with
  | Some o => if bool_decide (o = username) then false
              else bool_decide (acl cfg !! username = Some PWriteOnly)
  | None => false
  end.

Inductive Decision_ : Type := Allowed | ClaimOwnership.
#[global] Instance Decision_eq_dec : EqDecision Decision_.
Proof. solve_decision. Defined.

(** ** [error.rs]: the status an error is answered with *)

Definition status_code (e : Error) : Z :=
  match e with
  | NotFound _ _ => 404
  | InvalidBucket _ | InvalidKey _ | ReservedLabel _ | InvalidLabelValue _ | LabelNameTooLong _
  | LabelValueTooLong _ | TooManyLabels _ | Query _ | InvalidAcl _ | InvalidPersonaRequest _
  | InvalidStaleLockThreshold _ | BadRequestBody _ _ _ => 400
  | Locked _ _ _ | RebuildAlreadyRunning | TooManyBucketKeyEpochs _ _ _ | RekeyAlreadyRunning _
  | AclConflict _ => 409
  | Forbidden _ => 403
  | QuotaExceeded _ _ _ _ | BodyTooLarge _ _ _ => 413
  | Index _ | InternalError _ _ _ _ | KdfFailed _ | EncryptionFailed _ _ | DecryptionFailed _ _
  | EnvelopeMalformed _ _ _ | UnsupportedEnvelopeVersion _ | KeystoreCorrupt _ _ => 500
  | KeystoreNotFound _ => 503
  end.

(** ** The storage interface *)

(** The bucket half of the [Listing] trait of y2q-core/src/lib.rs. *)
Class ListingOps : Type := {
  storage : Type;
  bucket_exists : storage -> string -> result Error bool;
  create_bucket : storage -> string -> result Error (bool * storage);
  get_bucket_config : storage -> string -> result Error BucketConfig;
  set_bucket_config : storage -> string -> BucketConfig -> result Error storage;
}.

(** What the trait documents of it. *)
Class ListingLaws `{ListingOps} : Prop := {
  config_of_absent st b : bucket_exists st b = Ok false -> get_bucket_config st b = Ok config_default;
  config_of_created st b st' : create_bucket st b = Ok (true, st') -> get_bucket_config st' b = Ok config_default;
  exists_created st b st' c : create_bucket st b = Ok (c, st') -> bucket_exists st' b = Ok true;
  config_of_set st b cfg st' : set_bucket_config st b cfg = Ok st' -> get_bucket_config st' b = Ok cfg;
}.

Definition with_session (auth : Authenticated) (s : SessionInfo) : Authenticated :=
  mkAuthenticated (au_username auth) (au_role auth) (au_token_hash auth) s (au_authz_enforced auth).

Section authz.
Context {A : AeadOps} {K : KemOps} {H : HkdfOps} {B : Base64Ops} {R : RngOps} {L : ListingOps}.

(** ** Decisions *)

(** [effective_caps] once the key grant has been tried. *)
Definition caps_given (role : Role) (username : string) (cfg : BucketConfig) (real_grant : bool) : Caps * bool :=
  let rc := role_caps role in
  if real_grant && role_is_global role then (rc, true) else
  match bucket_grant_caps cfg username with
  | Some bc =>
      if negb real_grant then
        if is_write_only_relationship cfg username then (intersect rc bc, true) else (NONE, false)
      else (intersect rc bc, true)
  | None => (NONE, false)
  end.

Definition effective_caps (key : MemoryKey) (auth : Authenticated) (cfg : BucketConfig) (bucket : string)
    (r : rng) : Caps * bool * Authenticated * rng :=
  let '(real_grant, session, r) := is_visible key (au_session auth) cfg bucket r in
  (caps_given (au_role auth) (au_username auth) cfg real_grant, with_session auth session, r).

Definition denied_only_by_missing_crypto_grant (role : Role) (username : string) (cfg : BucketConfig)
    (required : BucketPermission) : bool :=
  negb (role_is_global role) &&
  match bucket_grant_caps cfg username with
  | Some bc => match required with PRead => c_read bc | PAdmin => c_admin bc | _ => false end
  | None => false
  end.

(** [authorize_bucket] after [effective_caps]. *)
Definition decide_bucket (role : Role) (username : string) (cfg : BucketConfig) (exists_ : result Error bool)
    (bucket : string) (required : BucketPermission) (eff : Caps) (visible : bool) : result Error Decision_ :=
  let unowned := bool_decide (owner cfg = None) in
  let is_write := bool_decide (required = PWrite) in
  if allows eff required then
    if unowned && is_write then e ← exists_; if (e : bool) then Ok Allowed else Ok ClaimOwnership
    else Ok Allowed
  else if visible && negb (denied_only_by_missing_crypto_grant role username cfg required) then
    Err (Forbidden bucket)
  else if unowned && is_write && c_write (role_caps role) then
    e ← exists_; if (e : bool) then Err (NotFound bucket "") else Ok ClaimOwnership
  else Err (NotFound bucket "").

Definition authorize_bucket (key : MemoryKey) (auth : Authenticated) (st : storage) (bucket : string)
    (required : BucketPermission) (r : rng) : result Error Decision_ * Authenticated * rng :=
  if negb (au_authz_enforced auth) then
    (if bool_decide (required = PWrite) then
       e ← bucket_exists st bucket; if (e : bool) then Ok Allowed else Ok ClaimOwnership
     else Ok Allowed, auth, r)
  else
  match get_bucket_config st bucket with
  | Err e => (Err e, auth, r)
  | Ok cfg =>
      let '(eff, visible, auth, r) := effective_caps key auth cfg bucket r in
      (decide_bucket (au_role auth) (au_username auth) cfg (bucket_exists st bucket) bucket required eff visible,
       auth, r)
  end.

Definition bucket_readable (key : MemoryKey) (auth : Authenticated) (st : storage) (bucket : string) (r : rng)
  : result Error bool * Authenticated * rng :=
  if negb (au_authz_enforced auth) then (Ok true, auth, r) else
  match get_bucket_config st bucket with
  | Err e => (Err e, auth, r)
  | Ok cfg => let '(eff, _, auth, r) := effective_caps key auth cfg bucket r in (Ok (c_read eff), auth, r)
  end.

(** ** Claiming *)

Context {US : UserStoreReader}.

Definition claim_ownership (st : storage) (bucket : string) (session : SessionInfo) (r : rng)
  : result Error (BucketConfig * bool * storage * rng) :=
  '(created, st) ← create_bucket st bucket;
  cfg ← get_bucket_config st bucket;
  if created && bool_decide (owner cfg = None) then
    '(key, r) ← new_owner_key bucket session r;
    let cfg := mkBucketConfig (quota_bytes cfg) (default_sse cfg) (cors_allow_origin cfg)
      (Some (si_username session)) (acl cfg) (keys cfg ++ [key]) (acl_generation cfg) in
    st ← set_bucket_config st bucket cfg;
    cfg ← get_bucket_config st bucket;
    Ok (cfg, created, st, r)
  else Ok (cfg, created, st, r).

Definition resolve_bucket_config (decision : Decision_) (st : storage) (bucket : string) (session : SessionInfo)
    (r : rng) : result Error (BucketConfig * storage * rng) :=
  match decision with
  | ClaimOwnership => '(cfg, _, st, r) ← claim_ownership st bucket session r; Ok (cfg, st, r)
  | Allowed => cfg ← get_bucket_config st bucket; Ok (cfg, st, r)
  end.

End authz.

(** ** Capability algebra *)

Definition caps_le (a b : Caps) : Prop := forall v, allows a v = true -> allows b v = true.

#[global] Instance caps_le_preorder : PreOrder caps_le.
Proof. split; [by intros ? ? | intros a b c Hab Hbc v Hv; auto]. Qed.

Lemma caps_le_bool a b :
  (negb (c_read a) || c_read b) && (negb (c_write a) || c_write b) && (negb (c_admin a) || c_admin b) = true <->
  caps_le a b.
Proof.
  split.
  - rewrite !andb_true_iff, !orb_true_iff, !negb_true_iff. intros [[ER EW] EA] [] Hv; cbn in *;
      intuition congruence.
  - intros E. pose proof (E PRead) as ER. pose proof (E PWrite) as EW. pose proof (E PAdmin) as EA.
    cbn in *. destruct (c_read a), (c_write a), (c_admin a); cbn; rewrite ?ER, ?EW, ?EA by done; done.
Qed.

Lemma allows_intersect a b v : allows (intersect a b) v = allows a v && allows b v.
Proof. by destruct v. Qed.
Lemma intersect_le_l a b : caps_le (intersect a b) a.
Proof. intros v. rewrite allows_intersect. by intros [? _]%andb_true_iff. Qed.
Lemma intersect_mono a a' b : caps_le a a' -> caps_le (intersect a b) (intersect a' b).
Proof.
  intros Ha v. rewrite !allows_intersect, !andb_true_iff. intros [Hv ?]. auto.
Qed.
Lemma NONE_le c : caps_le NONE c.
Proof. by intros []. Qed.

Lemma role_permits_iff c m :
  role_permits c m = true <-> caps_le (role_caps c) (role_caps m) /\ (role_is_global c = true -> role_is_global m = true).
Proof.
  unfold role_permits. cbv zeta. rewrite andb_true_iff, caps_le_bool.
  destruct (role_is_global c), (role_is_global m); cbn; intuition.
Qed.

(** The owner of a bucket gets its role's ceiling at most, and so does everybody. *)
Lemma caps_given_ceiling role u cfg g : caps_le (caps_given role u cfg g).1 (role_caps role).
Proof.
  unfold caps_given. cbv zeta. destruct (g && role_is_global role); [done|].
  destruct (bucket_grant_caps cfg u); [|apply NONE_le].
  destruct g; cbn [negb fst]; [apply intersect_le_l|].
  destruct (is_write_only_relationship cfg u); [apply intersect_le_l|apply NONE_le].
Qed.

Lemma caps_given_role_mono c m u cfg g :
  role_permits c m = true -> caps_le (caps_given c u cfg g).1 (caps_given m u cfg g).1.
Proof.
  rewrite role_permits_iff. intros [Hle Hgl]. unfold caps_given. cbv zeta.
  destruct (role_is_global c) eqn:Ec.
  - rewrite (Hgl eq_refl). destruct g; cbn [andb negb]; [done|].
    destruct (bucket_grant_caps cfg u); [|done].
    destruct (is_write_only_relationship cfg u); [by apply intersect_mono|done].
  - rewrite andb_false_r. destruct (g && role_is_global m) eqn:Eg.
    { destruct (bucket_grant_caps cfg u); [|apply NONE_le].
      destruct g; cbn [negb fst]; [|done]. trans (role_caps c); [apply intersect_le_l|done]. }
    destruct (bucket_grant_caps cfg u); [|done].
    destruct g; cbn [negb fst]; [by apply intersect_mono|].
    destruct (is_write_only_relationship cfg u); [by apply intersect_mono|done].
Qed.

(** [role_permits] is what stops a persona from exceeding its account: where it
    accepts a role, a session with that role is given no capability on any bucket, and
    no administrator or auditor standing, that the account's own role would not give. It
    is reflexive and transitive, so a chain of minted personas gains nothing either. *)
Theorem role_permits_no_escalation :
  (forall c, role_permits c c = true) /\
  (forall a b c, role_permits a b = true -> role_permits b c = true -> role_permits a c = true) /\
  forall candidate ceiling, role_permits candidate ceiling = true ->
    (forall username cfg grant, caps_le (caps_given candidate username cfg grant).1
                                        (caps_given ceiling username cfg grant).1) /\
    (forall auth, is_admin (mkAuthenticated (au_username auth) candidate (au_token_hash auth) (au_session auth) true) = true ->
                  is_admin (mkAuthenticated (au_username auth) ceiling (au_token_hash auth) (au_session auth) true) = true) /\
    (forall auth, is_admin_or_auditor (mkAuthenticated (au_username auth) candidate (au_token_hash auth) (au_session auth) true) = true ->
                  is_admin_or_auditor (mkAuthenticated (au_username auth) ceiling (au_token_hash auth) (au_session auth) true) = true).
Proof.
  split_and!.
  - by intros [].
  - intros a b c. rewrite !role_permits_iff. intros [? ?] [? ?]. split; [by trans (role_caps b)|auto].
  - intros c m Hp. split_and!; [by intros; apply caps_given_role_mono | |];
      intros auth; destruct c, m; vm_compute in Hp |- *; done.
Qed.

(** ** What is permitted, and what is seen *)

Section theorems.
Context {A : AeadOps} {K : KemOps} {H : HkdfOps} {B : Base64Ops} {R : RngOps} {L : ListingOps}.
Context {AL : AeadLaws} {KL : KemLaws} {HL : HkdfLaws} {BL : Base64Laws} {RL : RngLaws} {LL : ListingLaws}.

(** The persona behind [auth] can open the bucket's newest key. *)
Definition holds_key (key : MemoryKey) (auth : Authenticated) (cfg : BucketConfig) (bucket : string) (r : rng) : Prop :=
  (is_visible key (au_session auth) cfg bucket r).1.1 = true.

(** Why an action on an existing bucket was permitted. *)
Inductive justified (key : MemoryKey) (auth : Authenticated) (cfg : BucketConfig) (bucket : string)
    (required : BucketPermission) (r : rng) : Prop :=
| by_global_role : holds_key key auth cfg bucket r -> role_is_global (au_role auth) = true ->
    justified key auth cfg bucket required r
| by_relationship bc : holds_key key auth cfg bucket r -> bucket_grant_caps cfg (au_username auth) = Some bc ->
    allows bc required = true -> justified key auth cfg bucket required r
| by_drop_box : is_write_only_relationship cfg (au_username auth) = true ->
    required = PWrite \/ required = PWriteOnly -> justified key auth cfg bucket required r.

Lemma drop_box_caps cfg u : is_write_only_relationship cfg u = true ->
  bucket_grant_caps cfg u = Some (grant_caps PWriteOnly).
Proof using.
  unfold is_write_only_relationship, bucket_grant_caps. destruct (owner cfg); [|done].
  case_bool_decide; [done|]. intros Ha%bool_decide_eq_true. by rewrite Ha.
Qed.

Lemma decide_bucket_allowed role u cfg ex bucket required eff visible :
  decide_bucket role u cfg ex bucket required eff visible = Ok Allowed -> allows eff required = true.
Proof using.
  unfold decide_bucket. cbv zeta. destruct (allows eff required); [done|].
  destruct (visible && _); [done|]. destruct (_ && _ && _); [|done]. destruct ex as [[]|]; done.
Qed.

Lemma decide_bucket_claim role u cfg ex bucket required eff visible :
  decide_bucket role u cfg ex bucket required eff visible = Ok ClaimOwnership -> caps_le eff (role_caps role) ->
  required = PWrite /\ owner cfg = None /\ ex = Ok false /\ allows (role_caps role) required = true.
Proof using.
  unfold decide_bucket. cbv zeta. intros E Hle. destruct (allows eff required) eqn:Ea.
  - case_bool_decide; [|done]. case_bool_decide; [|done]. destruct ex as [[]|]; try done. auto.
  - destruct (visible && _); [done|]. do 2 (case_bool_decide; [|done]). cbn [andb] in E.
    destruct (c_write (role_caps role)) eqn:Ew; [|done]. destruct ex as [[]|]; try done. by subst.
Qed.

(** C7: with authorization on, every permitted action is within the role's ceiling and is
    justified: either the persona itself can decrypt the bucket (and its role is global
    or the username's relationship allows the verb), or it is a write into a write-only
    drop box, or it is a write that creates a bucket that does not exist yet. *)
Theorem authorize_bucket_sound (key : MemoryKey) (auth auth' : Authenticated) (st : storage) (bucket : string)
    (required : BucketPermission) (r r' : rng) (d : Decision_) :
  au_authz_enforced auth = true ->
  authorize_bucket key auth st bucket required r = (Ok d, auth', r') ->
  exists cfg, get_bucket_config st bucket = Ok cfg /\ allows (role_caps (au_role auth)) required = true /\
  match d with
  | Allowed => justified key auth cfg bucket required r
  | ClaimOwnership => required = PWrite /\ owner cfg = None /\ bucket_exists st bucket = Ok false
  end.
Proof using.
  intros He Hauth. unfold authorize_bucket in Hauth. rewrite He in Hauth. cbn [negb] in Hauth.
  destruct (get_bucket_config st bucket) as [cfg|e]; [|done]. exists cfg. split; [done|].
  revert Hauth. unfold effective_caps. destruct (is_visible key (au_session auth) cfg bucket r) as [[g s] r1] eqn:Ev.
  pose proof (caps_given_ceiling (au_role auth) (au_username auth) cfg g) as Hceil.
  destruct (caps_given (au_role auth) (au_username auth) cfg g) as [eff vis] eqn:Ecaps.
  cbn [with_session au_role au_username fst] in *. intros E. assert (Hd : decide_bucket (au_role auth) (au_username auth) cfg (bucket_exists st bucket) bucket required
    eff vis = Ok d) by congruence. clear E. destruct d; last first.
  { by destruct (decide_bucket_claim _ _ _ _ _ _ _ _ Hd Hceil) as (? & ? & ? & ?). }
  apply decide_bucket_allowed in Hd. split; [by apply Hceil|].
  assert (Hk : g = true -> holds_key key auth cfg bucket r) by (unfold holds_key; by rewrite Ev).
  revert Ecaps. unfold caps_given. cbv zeta. destruct (g && role_is_global (au_role auth)) eqn:Eg.
  { apply andb_true_iff in Eg as [? ?]. intros _. by apply by_global_role; auto. }
  destruct (bucket_grant_caps cfg (au_username auth)) as [bc|] eqn:Ebc; [|intros; simplify_eq; by destruct required].
  destruct g; cbn [negb].
  { intros ?; simplify_eq. rewrite allows_intersect in Hd. apply andb_true_iff in Hd as [_ ?].
    by eapply by_relationship; eauto. }
  destruct (is_write_only_relationship cfg (au_username auth)) eqn:Ew; intros; simplify_eq; [|by destruct required].
  rewrite (drop_box_caps _ _ Ew) in Ebc. simplify_eq. rewrite allows_intersect in Hd.
  apply andb_true_iff in Hd as [_ Ha]. apply by_drop_box; [done|]. destruct required; try done; auto.
Qed.

(** ** Hidden buckets *)

Lemma authorize_unseen key auth st bucket required r cfg s r1 :
  au_authz_enforced auth = true -> get_bucket_config st bucket = Ok cfg ->
  is_visible key (au_session auth) cfg bucket r = (false, s, r1) ->
  is_write_only_relationship cfg (au_username auth) = false ->
  (authorize_bucket key auth st bucket required r).1.1 =
    (if bool_decide (owner cfg = None) && bool_decide (required = PWrite) && c_write (role_caps (au_role auth))
     then e ← bucket_exists st bucket; if (e : bool) then Err (NotFound bucket "") else Ok ClaimOwnership
     else Err (NotFound bucket "")).
Proof using.
  intros He Hc Hv Hw. unfold authorize_bucket, effective_caps. rewrite He, Hc, Hv. cbn [negb].
  unfold caps_given. cbv zeta. rewrite Hw. cbn [andb negb with_session au_role au_username fst].
  destruct (bucket_grant_caps cfg (au_username auth)) as [bc|]; by destruct required.
Qed.

Lemma default_invisible key s bucket r : is_visible key s config_default bucket r = (false, s, r).
Proof using. done. Qed.

(** The newest epoch [kv] has a row for the session's user, in which the entry of the
    session's own persona opens to a payload [p] that is not the bucket wrap key: it does
    not open the wrapped bucket key. *)
Record decoyed (key : MemoryKey) (session : SessionInfo) (cfg : BucketConfig) (bucket : string)
    (kv : BucketKeyVersion) (row : list seal.SealedKey) (s : seal.SealedKey) (sk p : bytes) : Prop := mkDecoyed {
  dc_current : current_key cfg = Some kv;
  dc_version : has_version cfg kv;
  dc_grants : grants kv !! si_username session = Some row;
  dc_len : length row = CREDENTIAL_SLOTS;
  dc_slot : row !! Z.to_nat (si_persona session) = Some s;
  dc_opens : seal.open_sealed sk s (seal.bucket_grant_aad bucket (bk_epoch kv) (si_username session)
    (Z.of_nat (Z.to_nat (si_persona session)))) = Ok p;
  dc_separate : is_ok (unwrap_with_key (sk_blob kv) p (seal.bucket_sk_wrap_aad bucket (bk_epoch kv))) = false;
  dc_uncached : cache_get (si_bucket_keys session) bucket (bk_epoch kv) = None;
  dc_identity : open_identity_sk key session = Ok sk;
}.

Lemma decoyed_invisible key session cfg bucket kv row s sk p r :
  decoyed key session cfg bucket kv row s sk p -> is_visible key session cfg bucket r = (false, session, r).
Proof using.
  intros [Hcur Hv Hg Hl Hs Ho Hsep Hun Hid]. unfold is_visible. rewrite Hcur.
  unfold resolve_read_key, cached_bucket_key. rewrite Hun. cbn [fmap option_fmap option_map].
  unfold with_identity_sk. rewrite Hid. cbn [mbind result_bind map_err].
  by rewrite (read_key_decoy cfg kv bucket (si_username session) row _ s sk p Hv Hg Hl Hs Ho Hsep).
Qed.

(** What a drop box answers a persona that cannot open the bucket. *)
Lemma authorize_drop_box key auth st bucket required r cfg s r1 :
  au_authz_enforced auth = true -> get_bucket_config st bucket = Ok cfg ->
  is_visible key (au_session auth) cfg bucket r = (false, s, r1) ->
  is_write_only_relationship cfg (au_username auth) = true -> is_Some (owner cfg) ->
  (authorize_bucket key auth st bucket required r).1.1 =
    (if allows (intersect (role_caps (au_role auth)) (grant_caps PWriteOnly)) required then Ok Allowed
     else Err (Forbidden bucket)) /\
  (bucket_readable key auth st bucket r).1.1 = Ok false.
Proof using.
  intros He Hc Hv Hw [o Ho]. unfold authorize_bucket, bucket_readable, effective_caps. rewrite He, Hc, Hv. cbn [negb].
  unfold caps_given. cbv zeta. rewrite Hw, (drop_box_caps _ _ Hw). cbn [andb negb with_session au_role au_username fst].
  unfold decide_bucket, denied_only_by_missing_crypto_grant. cbv zeta. rewrite Ho, (drop_box_caps _ _ Hw).
  split; [|by destruct (au_role auth)]. by destruct required, (au_role auth).
Qed.

(** What a bucket that does not exist answers. *)
Lemma authorize_missing key auth st bucket required r :
  au_authz_enforced auth = true -> bucket_exists st bucket = Ok false ->
  (authorize_bucket key auth st bucket required r).1.1 =
    (if bool_decide (required = PWrite) && c_write (role_caps (au_role auth)) then Ok ClaimOwnership
     else Err (NotFound bucket "")).
Proof using LL.
  intros He Habs. rewrite (authorize_unseen _ _ _ _ _ _ config_default _ _ He (config_of_absent _ _ Habs)
    (default_invisible _ _ _ _) eq_refl), Habs. cbn [owner config_default mbind result_bind].
  by rewrite bool_decide_eq_true_2 by done.
Qed.

(** C6: what an owned bucket answers a persona whose own entry in the newest epoch is a
    decoy and that has no key of that epoch cached, whatever its role. Without a drop-box
    grant to the username, every verb is answered 404 and listings leave the bucket out; a
    bucket that does not exist answers every verb the same way except a write by a role that
    may write, which it lets claim the name, so that one verb tells the two apart. With a
    drop-box grant, writing is allowed as far as the role goes and everything else is
    answered 403: the persona sees the bucket, but it cannot read it. *)
Theorem decoy_persona_sees_404 (key : MemoryKey) (auth : Authenticated) (st absent : storage) (bucket o : string)
    (cfg : BucketConfig) (kv : BucketKeyVersion) (row : list seal.SealedKey) (s : seal.SealedKey) (sk p : bytes) (r : rng) :
  au_authz_enforced auth = true -> get_bucket_config st bucket = Ok cfg -> owner cfg = Some o ->
  decoyed key (au_session auth) cfg bucket kv row s sk p -> bucket_exists absent bucket = Ok false ->
  let answer st v := (authorize_bucket key auth st bucket v r).1.1 in
  (bucket_readable key auth st bucket r).1.1 = Ok false /\
  (forall v, answer st v =
     if negb (is_write_only_relationship cfg (au_username auth)) then Err (NotFound bucket "")
     else if allows (intersect (role_caps (au_role auth)) (grant_caps PWriteOnly)) v then Ok Allowed
     else Err (Forbidden bucket)) /\
  (forall v, answer absent v =
     if bool_decide (v = PWrite) && c_write (role_caps (au_role auth)) then Ok ClaimOwnership else Err (NotFound bucket "")).
Proof using LL.
  intros He Hc Ho Hd Habs answer. pose proof (decoyed_invisible _ _ _ _ _ _ _ _ _ r Hd) as Hv.
  assert (Hown : is_Some (owner cfg)) by (rewrite Ho; by eexists). split_and!.
  - destruct (is_write_only_relationship cfg (au_username auth)) eqn:Hw; [by apply (authorize_drop_box key auth st bucket PRead r cfg _ _ He Hc Hv Hw Hown)|].
    unfold bucket_readable, effective_caps. rewrite He, Hc, Hv. cbn [negb]. unfold caps_given. cbv zeta.
    rewrite Hw. cbn [andb negb]. by destruct (bucket_grant_caps cfg (au_username auth)).
  - intros v. unfold answer. destruct (is_write_only_relationship cfg (au_username auth)) eqn:Hw; cbn [negb];
      [by apply (authorize_drop_box key auth st bucket v r cfg _ _ He Hc Hv Hw Hown)|].
    by rewrite (authorize_unseen _ _ _ _ _ _ cfg _ _ He Hc Hv Hw), Ho.
  - intros v. by apply authorize_missing.
Qed.

(** ** Claimed buckets *)

Context {US : UserStoreReader}.

(** The user store knows the session's user with these persona keys, and the session
    holds the identity key of its persona. *)
Record known_session (key : MemoryKey) (session : SessionInfo) (rec : UserRecord) (dks : list Dk) (dk : Dk) : Prop :=
  mkKnownSession {
  ks_record : user_get (si_username session) = Ok (Some rec);
  ks_slots : identity_pk_b64 <$> ur_slots rec = published dks;
  ks_four : length dks = CREDENTIAL_SLOTS;
  ks_persona : dks !! Z.to_nat (si_persona session) = Some dk;
  ks_identity : open_identity_sk key session = Ok (seal.sk_bytes_of dk);
}.

Lemma only_slot_lookup i : (i < CREDENTIAL_SLOTS)%nat -> only_slot i !! i = Some true.
Proof using.
  intros Hi. unfold only_slot. rewrite list_lookup_fmap, lookup_seq_lt by done. cbn. by rewrite bool_decide_eq_true_2.
Qed.

Lemma new_owner_key_spec key session rec dks dk bucket r :
  known_session key session rec dks dk ->
  exists kv bwk r' bdk, new_owner_key bucket session r = Ok (kv, r') /\ bk_epoch kv = 0 /\
    epoch_grants kv bucket bdk bwk (si_username session) dks (only_slot (Z.to_nat (si_persona session))).
Proof using AL KL HL BL RL.
  intros [Hr Hs Hl _ _]. unfold new_owner_key. rewrite Hr. cbn [map_err ok_or mbind result_bind]. rewrite Hs.
  destruct (new_version_grants 0 bucket (si_username session) dks (only_slot (Z.to_nat (si_persona session))) r Hl)
    as (kv & bwk & r' & bdk & -> & He & _ & Hg); [done|].
  cbn [mbind result_bind]. by exists kv, bwk, r', bdk.
Qed.

Lemma resolve_fresh key session cfg bucket kv bdk bwk dks dk r :
  cache_get (si_bucket_keys session) bucket (bk_epoch kv) = None ->
  open_identity_sk key session = Ok (seal.sk_bytes_of dk) -> has_version cfg kv ->
  epoch_grants kv bucket bdk bwk (si_username session) dks (only_slot (Z.to_nat (si_persona session))) ->
  length dks = CREDENTIAL_SLOTS -> dks !! Z.to_nat (si_persona session) = Some dk ->
  (resolve_read_key key session cfg bucket (bk_epoch kv) r).1.1 = Ok (seal.sk_bytes_of bdk).
Proof using AL KL.
  intros Hun Hid Hv Hg Hl Hdk. unfold resolve_read_key, cached_bucket_key. rewrite Hun.
  cbn [fmap option_fmap option_map]. unfold with_identity_sk. rewrite Hid. cbn [mbind result_bind map_err].
  rewrite (read_key_authorized cfg kv bucket bdk bwk (si_username session) dks _ _ dk Hv Hg Hl Hdk).
  2:{ apply only_slot_lookup. rewrite <- Hl. by apply lookup_lt_Some in Hdk. }
  unfold cache_bucket_key, seal_bucket_key.
  destruct (memory_seal_total key (seal.sk_bytes_of bdk) (bucket_key_aad (si_token_hash session) bucket (bk_epoch kv)) r)
    as (s & r1 & ->); [|done].
  unfold seal.sk_bytes_of. rewrite dk_bytes_len. unfold AEAD_P_MAX. lia.
Qed.

(** Claiming a new bucket makes it usable at once: the stored configuration names the
    claimer as owner, uploads are encrypted to the public half of a key pair whose secret
    half the claiming session can open, and a session of an ordinary user is then allowed
    every verb on the bucket. *)
Theorem claimed_bucket_usable (key : MemoryKey) (session : SessionInfo) (rec : UserRecord) (dks : list Dk) (dk : Dk)
    (st st1 : storage) (bucket : string) (r : rng) :
  known_session key session rec dks dk ->
  cache_get (si_bucket_keys session) bucket 0 = None ->
  create_bucket st bucket = Ok (true, st1) -> (forall cfg, is_ok (set_bucket_config st1 bucket cfg) = true) ->
  exists cfg st2 r2 bdk, claim_ownership st bucket session r = Ok (cfg, true, st2, r2) /\
    get_bucket_config st2 bucket = Ok cfg /\ owner cfg = Some (si_username session) /\
    resolve_write_key cfg bucket = Ok (0, seal.pk_bytes_of bdk) /\
    (forall r', (resolve_read_key key session cfg bucket 0 r').1.1 = Ok (seal.sk_bytes_of bdk)) /\
    (forall th required r',
      (authorize_bucket key (mkAuthenticated (si_username session) User th session true) st2 bucket required r').1.1 =
        Ok Allowed).
Proof using AL KL HL BL RL LL.
  intros Hk Hun Hcr Hset. destruct (new_owner_key_spec key session rec dks dk bucket r Hk)
    as (kv & bwk & r' & bdk & Hnew & He & Hg).
  unfold claim_ownership. rewrite Hcr. cbn [mbind result_bind]. rewrite (config_of_created _ _ _ Hcr).
  cbn [mbind result_bind]. rewrite bool_decide_eq_true_2 by done. cbn [andb]. rewrite Hnew. cbn [mbind result_bind].
  cbn [quota_bytes default_sse cors_allow_origin acl keys acl_generation config_default app].
  set (cfg := mkBucketConfig None None None (Some (si_username session)) empty [kv] 0).
  specialize (Hset cfg). destruct (set_bucket_config st1 bucket cfg) as [st2|] eqn:Es; [|done].
  cbn [mbind result_bind]. pose proof (config_of_set _ _ _ _ Es) as Hget. rewrite Hget. cbn [mbind result_bind].
  assert (Hv : has_version cfg kv).
  { unfold has_version, find_epoch. cbn [cfg keys list_find]. by rewrite decide_True. }
  assert (Hres : forall r', (resolve_read_key key session cfg bucket 0 r').1.1 = Ok (seal.sk_bytes_of bdk)).
  { intros r0. rewrite <- He. destruct Hk. eapply resolve_fresh; eauto. by rewrite He. }
  exists cfg, st2, r', bdk. split_and!; try done.
  - unfold resolve_write_key. cbn [current_key last cfg keys ok_or mbind result_bind].
    rewrite (eg_pk _ _ _ _ _ _ _ Hg), b64_decode_encode. cbn [ok_or mbind result_bind]. by rewrite He.
  - intros th required r0. unfold authorize_bucket. rewrite Hget. cbn [negb au_authz_enforced].
    unfold effective_caps, is_visible. cbn [au_session current_key last cfg keys]. rewrite He.
    specialize (Hres r0). destruct (resolve_read_key key session cfg bucket 0 r0) as [[res s'] r1]. cbn [fst] in Hres.
    subst res. cbn [is_ok fst snd au_role au_username with_session]. unfold caps_given, bucket_grant_caps.
    cbn [role_caps role_is_global andb owner cfg]. rewrite bool_decide_eq_true_2 by done. by destruct required.
Qed.

End theorems.

(** ** Witnesses *)
Module AuthzWitness.
Import BucketKeysWitness.
#[local] Existing Instances Toy.aead Toy.kem Toy.hkdf Toy.base64 Toy.rng_ops.
#[local] Existing Instances Toy.aead_laws Toy.kem_laws Toy.hkdf_laws Toy.base64_laws Toy.rng_laws.

(** A storage that is a map from the buckets that exist to their configurations. *)
Definition mem_listing : ListingOps := {|
  storage := gmap string BucketConfig;
  bucket_exists st b := Ok (bool_decide (is_Some (st !! b)));
  create_bucket st b := match st !! b with
                        | Some _ => Ok (false, st)
                        | None => Ok (true, <[b := config_default]> st)
                        end;
  get_bucket_config st b := Ok (default config_default (st !! b));
  set_bucket_config st b cfg := Ok (<[b := cfg]> st);
|}.
#[local] Existing Instance mem_listing.

Lemma mem_listing_laws : ListingLaws.
Proof.
  split; cbn.
  - intros st b [= E]. apply bool_decide_eq_false in E. destruct (st !! b); [by destruct E|done].
  - intros st b st' E. destruct (st !! b); [done|]. injection E as <-. by rewrite lookup_insert_eq.
  - intros st b st' c E. destruct (st !! b) eqn:Eb; injection E as _ <-.
    + by rewrite Eb, bool_decide_eq_true_2.
    + by rewrite lookup_insert_eq, bool_decide_eq_true_2.
  - intros st b cfg st' [= <-]. by rewrite lookup_insert_eq.
Qed.
#[local] Existing Instance mem_listing_laws.

Definition st0 : storage := {["photos" := config0]}.
Definition auth0 : Authenticated := mkAuthenticated "alice" User hash0 session0 true.

Lemma role_permits_no_escalation_witness :
  role_permits ReadOnly User = true /\
  caps_le (caps_given ReadOnly "alice" config0 true).1 (caps_given User "alice" config0 true).1.
Proof.
  split; [reflexivity|]. exact (proj1 (proj2 (proj2 role_permits_no_escalation) ReadOnly User eq_refl) "alice" config0 true).
Defined.

Lemma authorize_bucket_sound_witness :
  match authorize_bucket key0 auth0 st0 "photos" PRead (30 : @rng Toy.rng_ops) with
  | (Ok Allowed, _, _) => exists cfg, get_bucket_config st0 "photos" = Ok cfg /\
      allows (role_caps User) PRead = true /\ justified key0 auth0 cfg "photos" PRead (30 : @rng Toy.rng_ops)
  | _ => False
  end.
Proof.
  assert ((authorize_bucket key0 auth0 st0 "photos" PRead (30 : @rng Toy.rng_ops)).1.1 = Ok Allowed) as Hok
    by (vm_compute; reflexivity).
  destruct (authorize_bucket key0 auth0 st0 "photos" PRead (30 : @rng Toy.rng_ops)) as [[d a'] r'] eqn:E.
  cbn [fst] in Hok. subst d.
  exact (authorize_bucket_sound key0 auth0 a' st0 "photos" PRead 30 r' Allowed eq_refl E).
Defined.

(** The same user, logged in with persona 1, whose entry is a decoy. *)
Definition session1 : SessionInfo :=
  match seal_identity key0 hash0 "alice" 1 (seal.sk_bytes_of (dk_of 2)) (20 : @rng Toy.rng_ops) with
  | Ok (s, _) => mkSessionInfo "alice" Admin 0 100 1 false s 0 hash0 cache_default
  | Err _ => session0
  end.
Definition auth1 : Authenticated := mkAuthenticated "alice" Admin hash0 session1 true.

Definition kv0 : BucketKeyVersion :=
  default (mkBucketKeyVersion 0 "" (mkWrappedSk [] []) empty) (current_key config0).
Definition row0 : list seal.SealedKey := default [] (grants kv0 !! "alice").
Definition entry0 : seal.SealedKey := default (seal.mkSealedKey "" "" "") (row0 !! 1%nat).
Definition payload0 : bytes :=
  match seal.open_sealed (seal.sk_bytes_of (dk_of 2)) entry0 (seal.bucket_grant_aad "photos" 0 "alice" 1) with
  | Ok p => p
  | Err _ => []
  end.

Lemma decoy_persona_sees_404_witness :
  (bucket_readable key0 auth1 st0 "photos" (30 : @rng Toy.rng_ops)).1.1 = Ok false /\
  (forall v, (authorize_bucket key0 auth1 st0 "photos" v (30 : @rng Toy.rng_ops)).1.1 = Err (NotFound "photos" "")) /\
  (authorize_bucket key0 auth1 (empty : storage) "photos" PRead (30 : @rng Toy.rng_ops)).1.1 = Err (NotFound "photos" "") /\
  (authorize_bucket key0 auth1 (empty : storage) "photos" PWrite (30 : @rng Toy.rng_ops)).1.1 = Ok ClaimOwnership.
Proof.
  destruct (decoy_persona_sees_404 key0 auth1 st0 empty "photos" "alice" config0 kv0 row0 entry0
           (seal.sk_bytes_of (dk_of 2)) payload0 (30 : @rng Toy.rng_ops)) as (Hr & Hs & Ha).
  - reflexivity.
  - reflexivity.
  - vm_compute; reflexivity.
  - constructor; vm_compute; reflexivity.
  - reflexivity.
  - split; [exact Hr|]. split; [exact Hs|]. split; [exact (Ha PRead)|exact (Ha PWrite)].
Defined.

Definition slot_of (dk : Dk) : CredentialSlot :=
  mkCredentialSlot (b64_encode (seal.pk_bytes_of dk)) (mkWrappedSk [] []).
Definition record0 : UserRecord :=
  mkUserRecord "alice" 0 None (mkArgon2Params 0 0 0 []) (slot_of <$> personas) 2 User.
Definition users0 : UserStoreReader := {|
  user_get u := Ok (if bool_decide (u = "alice") then Some record0 else None) |}.
#[local] Existing Instance users0.

Lemma claimed_bucket_usable_witness :
  exists cfg st2 r2 bdk, claim_ownership (empty : storage) "photos" session0 (50 : @rng Toy.rng_ops) = Ok (cfg, true, st2, r2) /\
    get_bucket_config st2 "photos" = Ok cfg /\ owner cfg = Some "alice" /\
    resolve_write_key cfg "photos" = Ok (0, seal.pk_bytes_of bdk) /\
    (forall r', (resolve_read_key key0 session0 cfg "photos" 0 r').1.1 = Ok (seal.sk_bytes_of bdk)) /\
    (forall th required r',
      (authorize_bucket key0 (mkAuthenticated "alice" User th session0 true) st2 "photos" required r').1.1 = Ok Allowed).
Proof.
  apply (claimed_bucket_usable key0 session0 record0 personas (dk_of 3) empty {["photos" := config_default]} "photos"
           (50 : @rng Toy.rng_ops)).
  - constructor; vm_compute; reflexivity.
  - vm_compute; reflexivity.
  - vm_compute; reflexivity.
  - intros cfg. reflexivity.
Defined.
End AuthzWitness.
