(* ===== verification/Acl.v ===== *)
(** * The bucket ACL endpoint

    Models y2qd/src/handlers/acl.rs: reading a bucket's owner and grants, and replacing
    them.  Replacing them is where the clear-text ACL and the sealed key grants meet: a
    new reader's row is sealed with the real bucket wrap key, a removed reader's row is
    overwritten with decoys and their sessions dropped, and a compare-and-swap token
    orders concurrent edits.

    A handler runs in a small state and error monad over the storage, the session store,
    the caller's session and the random source; what it did before an error stays done. *)

From stdpp Require Import pretty sorting.
From S2P Require Import Prelude Primitives Types Crypto Slots Session BucketKeys Authz.

Record AclBody : Type := mkAclBody {
  ab_owner : option string;
  ab_grants : gmap string BucketPermission;
  ab_key_epochs : list Z;
  ab_generation : Z;
}.

(** [char::is_whitespace] on the UTF-8 bytes of a string: [s.trim().is_empty()]. *)
Fixpoint trim_is_empty (b : bytes) : bool :=
  match b with
  | [] => true
  | (x09 | x0a | x0b | x0c | x0d | x20) :: b => trim_is_empty b
  | xc2 :: (x85 | xa0) :: b => trim_is_empty b
  | xe1 :: x9a :: x80 :: b => trim_is_empty b
  | xe2 :: x80 :: (x80 | x81 | x82 | x83 | x84 | x85 | x86 | x87 | x88 | x89 | x8a | xa8 | xa9 | xaf) :: b =>
      trim_is_empty b
  | xe2 :: x81 :: x9f :: b => trim_is_empty b
  | xe3 :: x80 :: x80 :: b => trim_is_empty b
  | _ => false
  end.

Definition invalid_acl (reason : string) : Error := InvalidAcl reason.
Definition not_found (bucket : string) : Error := NotFound bucket "".

(** [AppError::from(AuthError)]. *)
Definition auth_app_error : Error := InternalError "" "" "auth" "auth error".

Section acl.
Context {A : AeadOps} {K : KemOps} {H : HkdfOps} {B : Base64Ops} {R : RngOps} {L : ListingOps} {US : UserStoreReader}.

(** ** The handler's world *)

Record World : Type := mkWorld {
  w_storage : storage;
  w_sessions : SessionStore;
  w_auth : Authenticated;
  w_rng : rng;
}.

Definition handler (T : Type) : Type := World -> result Error T * World.

#[global] Instance handler_ret : MRet handler := fun T x w => (Ok x, w).
#[global] Instance handler_bind : MBind handler := fun T U f m w =>
  match m w with
  | (Ok x, w) => f x w
  | (Err e, w) => (Err e, w)
  end.

Definition lift {T} (m : result Error T) : handler T := fun w => (m, w).
Definition fail {T} (e : Error) : handler T := lift (Err e).
(** A step that draws from the random source. *)
Definition lift_rng {T} (m : rng -> result Error (T * rng)) : handler T := fun w =>
  match m (w_rng w) with
  | Ok (x, r) => (Ok x, mkWorld (w_storage w) (w_sessions w) (w_auth w) r)
  | Err e => (Err e, w)
  end.
Definition ask_auth : handler Authenticated := fun w => (Ok (w_auth w), w).
Definition ask_storage : handler storage := fun w => (Ok (w_storage w), w).

Definition authorize (bucket : string) (required : BucketPermission) : handler Decision_ := fun w =>
  let '(d, auth, r) := authorize_bucket (keyring (w_sessions w)) (w_auth w) (w_storage w) bucket required (w_rng w) in
  (d, mkWorld (w_storage w) (w_sessions w) auth r).

Definition store_config (bucket : string) (cfg : BucketConfig) : handler unit := fun w =>
  match set_bucket_config (w_storage w) bucket cfg with
  | Ok st => (Ok tt, mkWorld st (w_sessions w) (w_auth w) (w_rng w))
  | Err e => (Err e, w)
  end.

Definition revoke_sessions (user : string) : handler unit := fun w =>
  (Ok tt, mkWorld (w_storage w) (snd (revoke_user (w_sessions w) user)) (w_auth w) (w_rng w)).

(** ** Reading *)

Definition body_of (cfg : BucketConfig) : AclBody :=
  mkAclBody (owner cfg) (acl cfg) (bk_epoch <$> keys cfg) (acl_generation cfg).

Definition get_acl (bucket : string) : handler AclBody :=
  auth ← ask_auth;
  _ ← authorize bucket (if is_admin_or_auditor auth then PRead else PAdmin);
  st ← ask_storage;
  ex ← lift (bucket_exists st bucket);
  if negb ex then fail (not_found bucket) else
  cfg ← lift (get_bucket_config st bucket);
  mret (body_of cfg).

(** ** Replacing *)

Definition ensure_user_exists (username : string) : result Error unit :=
  rec ← map_err (fun e => Index (CryptoError_display e)) (user_get username);
  match rec with
  | Some _ => Ok tt
  | None => Err (invalid_acl ("unknown user `" ++ username ++ "`"))
  end.

Definition reseal_grantee (bucket : string) (kv : BucketKeyVersion) (user : string) (bwk : bytes)
    (authorized : bool) : handler BucketKeyVersion :=
  rec ← lift (map_err (fun e => Index (CryptoError_display e)) (user_get user));
  match rec with
  | None => mret kv
  | Some rec =>
      let slots_authorized := if authorized then only_slot (Z.to_nat (ur_primary_slot rec))
                              else replicate CREDENTIAL_SLOTS false in
      let slots := mkGranteeSlots (identity_pk_b64 <$> ur_slots rec) slots_authorized in
      lift_rng (put_grant_slot kv bucket user slots bwk)
  end.

Fixpoint grant_all (bucket : string) (bwk : bytes) (users : list string) (kv : BucketKeyVersion)
  : handler BucketKeyVersion :=
  match users with
  | [] => mret kv
  | user :: rest => kv ← reseal_grantee bucket kv user bwk true; grant_all bucket bwk rest kv
  end.

Fixpoint revoke_all (bucket : string) (bwk : bytes) (users : list string) (kv : BucketKeyVersion)
  : handler BucketKeyVersion :=
  match users with
  | [] => mret kv
  | user :: rest =>
      kv ← reseal_grantee bucket kv user bwk false;
      _ ← revoke_sessions user;
      revoke_all bucket bwk rest kv
  end.

Fixpoint validate_grants (own : option string) (users : list string) : result Error unit :=
  match users with
  | [] => Ok tt
  | user :: rest =>
      if trim_is_empty (as_bytes user) then Err (invalid_acl "grant username must not be empty") else
      if bool_decide (own = Some user) then
        Err (invalid_acl ("user `" ++ user ++ "` is the bucket owner and already has full access"))
      else validate_grants own rest
  end.

(** [cfg.keys.iter_mut().find(|k| k.epoch == new.epoch)], overwritten when found. *)
Fixpoint replace_epoch (new : BucketKeyVersion) (ks : list BucketKeyVersion) : list BucketKeyVersion :=
  match ks with
  | [] => []
  | k :: ks => if bk_epoch k =? bk_epoch new then new :: ks else k :: replace_epoch new ks
  end.

(** The owner part: who may change it, and the new value. *)
Definition change_owner (bucket : string) (auth : Authenticated) (cfg : BucketConfig) (new : option string)
  : result Error (option string) :=
  match new with
  | None => Ok (owner cfg)
  | Some new_owner =>
      if negb (is_admin auth) && negb (bool_decide (owner cfg = Some (au_username auth)))
      then Err (Forbidden bucket)
      else _ ← ensure_user_exists new_owner; Ok (Some new_owner)
  end.

(** The caller's own real bucket wrap key. *)
Definition callers_bwk (bucket : string) (cfg : BucketConfig) (epoch : Z) : handler bytes := fun w =>
  let session := au_session (w_auth w) in
  match with_identity_sk (keyring (w_sessions w)) session (fun sk =>
          open_verified_bwk cfg bucket epoch (au_username (w_auth w)) (Z.to_nat (si_persona session)) sk) with
  | Err _ => (Err auth_app_error, w)
  | Ok res => (res, w)
  end.

(** The rows of the readers that came and went. *)
Definition reseal_readers (bucket : string) (bwk : bytes) (old_readers new_readers : gset string)
    (kv : BucketKeyVersion) : handler BucketKeyVersion :=
  kv ← grant_all bucket bwk (sorted_strings (new_readers ∖ old_readers)) kv;
  revoke_all bucket bwk (sorted_strings (old_readers ∖ new_readers)) kv.

(** The rows of the new owner and of the previous one. *)
Definition reseal_owner (bucket : string) (bwk : bytes) (new_readers : gset string)
    (previous_owner : option string) (new_owner : string) (kv : BucketKeyVersion) : handler BucketKeyVersion :=
  kv ← reseal_grantee bucket kv new_owner bwk true;
  match previous_owner with
  | Some prev =>
      if negb (bool_decide (prev = new_owner)) && negb (bool_decide (prev ∈ new_readers)) then
        kv ← reseal_grantee bucket kv prev bwk false;
        _ ← revoke_sessions prev;
        mret kv
      else mret kv
  | None => mret kv
  end.

Definition reseal_rows (bucket : string) (bwk : bytes) (grants_changed owner_changed : bool)
    (old_readers new_readers : gset string) (previous_owner new_owner : option string) (kv : BucketKeyVersion)
  : handler BucketKeyVersion :=
  kv ← (if grants_changed then reseal_readers bucket bwk old_readers new_readers kv else mret kv);
  match owner_changed, new_owner with
  | true, Some o => reseal_owner bucket bwk new_readers previous_owner o kv
  | _, _ => mret kv
  end.

Definition with_acl (cfg : BucketConfig) (own : option string) (a : gmap string BucketPermission)
    (ks : list BucketKeyVersion) (gen : Z) : BucketConfig :=
  mkBucketConfig (quota_bytes cfg) (default_sse cfg) (cors_allow_origin cfg) own a ks gen.

(** The key material after the change; untouched when there is none, or nothing to seal. *)
Definition rewrite_keys (bucket : string) (cfg : BucketConfig) (grants_changed owner_changed : bool)
    (old_readers new_readers : gset string) (previous_owner new_owner : option string)
  : handler (list BucketKeyVersion) :=
  match (if grants_changed || owner_changed then current_key cfg else None) with
  | Some kv =>
      bwk ← callers_bwk bucket cfg (bk_epoch kv);
      kv ← reseal_rows bucket bwk grants_changed owner_changed old_readers new_readers
             previous_owner new_owner kv;
      mret (replace_epoch kv (keys cfg))
  | None => mret (keys cfg)
  end.

(** [set_acl] once the caller is authorized and the configuration [cfg] is read. *)
Definition replace_acl (bucket : string) (body : AclBody) (cfg : BucketConfig) : handler AclBody :=
  if negb (ab_generation body =? acl_generation cfg) then
    fail (AclConflict ("generation mismatch: client sent " ++ pretty (ab_generation body) ++ ", server has "
            ++ pretty (acl_generation cfg) ++ "; re-fetch the ACL and retry"))
  else
  let previous_owner := owner cfg in
  auth ← ask_auth;
  new_owner ← lift (change_owner bucket auth cfg (ab_owner body));
  let owner_changed := negb (bool_decide (new_owner = previous_owner)) in
  _ ← lift (validate_grants new_owner (sorted_strings (dom (ab_grants body))));
  let old_readers := read_implying_grantees (acl cfg) in
  let new_readers := read_implying_grantees (ab_grants body) in
  let grants_changed := negb (bool_decide (old_readers = new_readers)) in
  let cfg := with_acl cfg new_owner (ab_grants body) (keys cfg) (acl_generation cfg) in
  ks ← rewrite_keys bucket cfg grants_changed owner_changed old_readers new_readers previous_owner new_owner;
  let cfg := with_acl cfg new_owner (ab_grants body) ks (wrap64 (acl_generation cfg + 1)) in
  _ ← store_config bucket cfg;
  mret (body_of cfg).

Definition set_acl (bucket : string) (body : AclBody) : handler AclBody :=
  _ ← authorize bucket PAdmin;
  st ← ask_storage;
  ex ← lift (bucket_exists st bucket);
  if negb ex then fail (not_found bucket) else
  cfg ← lift (get_bucket_config st bucket);
  replace_acl bucket body cfg.

End acl.

(** ** Reasoning about handlers *)

Section handlers.
Context {R : RngOps} {L : ListingOps}.

Lemma handler_bind_Ok {T U} (m : handler T) (f : T -> handler U) w x w' :
  (m ≫= f) w = (Ok x, w') -> exists y w1, m w = (Ok y, w1) /\ f y w1 = (Ok x, w').
Proof.
  unfold mbind, handler_bind. destruct (m w) as [[y|e] w1]; [eauto|]. intros; simplify_eq.
Qed.

Lemma lift_Ok {T} (m : result Error T) w x w' : lift m w = (Ok x, w') -> m = Ok x /\ w' = w.
Proof. unfold lift. intros; by simplify_eq. Qed.

End handlers.

(** Peel one bind off a handler that succeeded. *)
Ltac handler_step H x w H1 :=
  apply handler_bind_Ok in H as (x & w & H1 & H); cbn beta in H.

Section theorems.
Context {A : AeadOps} {K : KemOps} {H : HkdfOps} {B : Base64Ops} {R : RngOps} {L : ListingOps} {US : UserStoreReader}.
Context {AL : AeadLaws} {KL : KemLaws} {HL : HkdfLaws} {BL : Base64Laws} {RL : RngLaws} {LL : ListingLaws}.

(** A row of [u] in which exactly the personas of [auths] hold the wrap key. *)
Definition row_for (kv : BucketKeyVersion) (bucket u : string) (bwk : bytes) (dks : list Dk) (auths : list bool) : Prop :=
  exists row, grants kv !! u = Some row /\ length row = CREDENTIAL_SLOTS /\
    forall i dk a s, dks !! i = Some dk -> auths !! i = Some a -> row !! i = Some s ->
      entry_ok bucket (bk_epoch kv) u bwk i a dk s.

Definition all_decoys : list bool := replicate CREDENTIAL_SLOTS false.

(** The user store's record of [u], and the persona keys it publishes. *)
Definition known_user (u : string) (rec : UserRecord) (dks : list Dk) : Prop :=
  user_get u = Ok (Some rec) /\ identity_pk_b64 <$> ur_slots rec = published dks /\ length dks = CREDENTIAL_SLOTS.

Definition auths_of (rec : UserRecord) (authorized : bool) : list bool :=
  if authorized then only_slot (Z.to_nat (ur_primary_slot rec)) else all_decoys.

(** [kv'] is [kv] with the rows of the users [us] rewritten. *)
Record resealed (bucket : string) (bwk : bytes) (us : list string) (authorized : bool) (kv kv' : BucketKeyVersion) : Prop :=
  mkResealed {
  rs_epoch : bk_epoch kv' = bk_epoch kv;
  rs_pk : public_key_b64 kv' = public_key_b64 kv;
  rs_blob : sk_blob kv' = sk_blob kv;
  rs_others : forall v, v ∉ us -> grants kv' !! v = grants kv !! v;
  rs_rows : forall u rec dks, u ∈ us -> known_user u rec dks -> row_for kv' bucket u bwk dks (auths_of rec authorized);
}.

Lemma row_for_frame kv kv' bucket u bwk dks auths :
  bk_epoch kv' = bk_epoch kv -> grants kv' !! u = grants kv !! u ->
  row_for kv bucket u bwk dks auths -> row_for kv' bucket u bwk dks auths.
Proof using. intros He Hg (row & ? & ? & ?). exists row. rewrite He, Hg. done. Qed.

Lemma resealed_nil bucket bwk a kv : resealed bucket bwk [] a kv kv.
Proof using. split; try done. intros u rec dks []%elem_of_nil. Qed.

Lemma resealed_cons bucket bwk u us a kv kv1 kv2 :
  resealed bucket bwk [u] a kv kv1 -> resealed bucket bwk us a kv1 kv2 -> resealed bucket bwk (u :: us) a kv kv2.
Proof using.
  intros [E1 P1 B1 O1 R1] [E2 P2 B2 O2 R2]. split; [congruence.. | |].
  - intros v [Hu Hus]%not_elem_of_cons. rewrite O2, O1; [done | | done]. by intros ->%list_elem_of_singleton.
  - intros v rec dks Hv Hk. destruct (decide (v ∈ us)) as [Hin|Hin]; [by apply R2|].
    apply row_for_frame with kv1; [done | by apply O2 |]. apply R1; [|done].
    apply elem_of_cons in Hv as [->|?]; [by left | done].
Qed.

(** What a handler step leaves alone. *)
Definition frame (w w' : World) : Prop :=
  w_storage w' = w_storage w /\ w_sessions w' = w_sessions w /\ w_auth w' = w_auth w.

Lemma reseal_grantee_spec bucket kv u bwk a w kv' w' : blen bwk = 32 ->
  reseal_grantee bucket kv u bwk a w = (Ok kv', w') -> frame w w' /\ resealed bucket bwk [u] a kv kv'.
Proof using AL KL HL BL RL.
  intros Hb E. unfold reseal_grantee in E. handler_step E rec w1 E1. apply lift_Ok in E1 as [E1 ->].
  apply map_err_Ok in E1. destruct rec as [rec|]; last first.
  { injection E as <- <-. split; [done|]. split; try done.
    intros v rec dks ->%list_elem_of_singleton (Hu & _). rewrite Hu in E1. done. }
  unfold lift_rng, put_grant_slot in E.
  destruct (seal_grant_slots bucket (bk_epoch kv) u _ bwk (w_rng w)) as [[row r]|e] eqn:Es; [|done].
  cbn [mbind result_bind] in E. injection E as <- <-. split; [done|]. split; try done.
  - cbn [grants]. intros v Hv. rewrite lookup_insert_ne; [done|]. intros ->. apply Hv. by left.
  - intros v rec' dks ->%list_elem_of_singleton (Hu & Hp & Hl). rewrite Hu in E1. injection E1 as ->.
    exists row. cbn [grants bk_epoch]. rewrite lookup_insert_eq. rewrite Hp in Es.
    destruct (seal_grant_slots_spec bucket (bk_epoch kv) u bwk dks (auths_of rec a) (w_rng w) Hb Hl)
      as (row' & r' & E' & Hlen & Hall); [by destruct a|].
    unfold auths_of, all_decoys in E'. rewrite Es in E'. simplify_eq. done.
Qed.

Lemma grant_all_spec bucket bwk us : blen bwk = 32 -> forall kv w kv' w',
  grant_all bucket bwk us kv w = (Ok kv', w') -> frame w w' /\ resealed bucket bwk us true kv kv'.
Proof using AL KL HL BL RL.
  intros Hb. induction us as [|u us IH]; intros kv w kv' w' E; cbn [grant_all] in E.
  { injection E as <- <-. split; [done | apply resealed_nil]. }
  handler_step E kv1 w1 E1. apply reseal_grantee_spec in E1 as [F1 R1]; [|done].
  apply IH in E as [F2 R2]. unfold frame in *. split; [destruct F1 as (? & ? & ?), F2 as (? & ? & ?); split_and!; congruence|].
  by apply resealed_cons with kv1.
Qed.

(** ** Sessions that were dropped *)

Definition no_session (st : SessionStore) (u : string) : Prop :=
  map_Forall (fun _ i => si_username i <> u) (inner st).

(** The second store has only rows of the first. *)
Definition shrinks (st st' : SessionStore) : Prop := keyring st' = keyring st /\ inner st' ⊆ inner st.

#[global] Instance shrinks_preorder : PreOrder shrinks.
Proof. split; [by split | intros a b c [? ?] [? ?]; split; [congruence | by trans (inner b)]]. Qed.

Lemma no_session_shrinks st st' u : shrinks st st' -> no_session st u -> no_session st' u.
Proof using. intros [_ Hs] Hn k i Hk. eapply Hn, lookup_weaken; eauto. Qed.

Lemma revoke_user_spec st u : shrinks st (revoke_user st u).2 /\ no_session (revoke_user st u).2 u.
Proof using.
  unfold revoke_user. cbn [snd]. split; [split; [done|]|].
  - apply map_subseteq_spec. intros k i Hk. by apply lookup_revoked in Hk as [? _].
  - intros k i Hk. apply lookup_revoked in Hk as [_ Hp]. by apply bool_decide_eq_false in Hp.
Qed.

(** A step that may drop sessions. *)
Definition drops (w w' : World) : Prop :=
  w_storage w' = w_storage w /\ w_auth w' = w_auth w /\ shrinks (w_sessions w) (w_sessions w').

#[global] Instance drops_preorder : PreOrder drops.
Proof.
  split; [by intros w | intros a b c (? & ? & ?) (? & ? & ?); split_and!; [congruence.. | by trans (w_sessions b)]].
Qed.
Lemma frame_drops w w' : frame w w' -> drops w w'.
Proof using. intros (? & Hs & ?). split_and!; [done.. |]. by rewrite Hs. Qed.

Lemma revoke_sessions_spec u w w' : revoke_sessions u w = (Ok tt, w') ->
  drops w w' /\ no_session (w_sessions w') u.
Proof using.
  unfold revoke_sessions. intros [= <-]. destruct (revoke_user_spec (w_sessions w) u) as [Hs Hn]. done.
Qed.

Lemma revoke_all_spec bucket bwk us : blen bwk = 32 -> forall kv w kv' w',
  revoke_all bucket bwk us kv w = (Ok kv', w') ->
  drops w w' /\ resealed bucket bwk us false kv kv' /\ forall u, u ∈ us -> no_session (w_sessions w') u.
Proof using AL KL HL BL RL.
  intros Hb. induction us as [|u us IH]; intros kv w kv' w' E; cbn [revoke_all] in E.
  { injection E as <- <-. split_and!; [done | apply resealed_nil | by intros u ?%elem_of_nil]. }
  handler_step E kv1 w1 E1. apply reseal_grantee_spec in E1 as [F1 R1]; [|done].
  handler_step E tt1 w2 E2. destruct tt1. apply revoke_sessions_spec in E2 as [D2 N2].
  apply IH in E as (D3 & R3 & N3). split_and!.
  - trans w1; [by apply frame_drops|]. by trans w2.
  - by apply resealed_cons with kv1.
  - intros v [->|Hv]%elem_of_cons; [|by apply N3]. destruct D3 as (_ & _ & Hs). by apply no_session_shrinks with (w_sessions w2).
Qed.

Lemma elem_of_sorted_strings (s : gset string) u : u ∈ sorted_strings s <-> u ∈ s.
Proof using. unfold sorted_strings. rewrite merge_sort_Permutation. apply elem_of_elements. Qed.

(** The parts of an epoch that resealing leaves alone. *)
Definition same_epoch (kv kv' : BucketKeyVersion) : Prop :=
  bk_epoch kv' = bk_epoch kv /\ public_key_b64 kv' = public_key_b64 kv /\ sk_blob kv' = sk_blob kv.
Lemma resealed_same bucket bwk us a kv kv' : resealed bucket bwk us a kv kv' -> same_epoch kv kv'.
Proof using. by intros []. Qed.

Lemma reseal_readers_spec bucket bwk old new kv w kv' w' : blen bwk = 32 ->
  reseal_readers bucket bwk old new kv w = (Ok kv', w') ->
  drops w w' /\ same_epoch kv kv' /\
  (forall u rec dks, u ∈ new ∖ old -> known_user u rec dks -> row_for kv' bucket u bwk dks (auths_of rec true)) /\
  (forall u rec dks, u ∈ old ∖ new -> known_user u rec dks -> row_for kv' bucket u bwk dks all_decoys) /\
  (forall u, u ∈ old ∖ new -> no_session (w_sessions w') u).
Proof using AL KL HL BL RL.
  intros Hb E. unfold reseal_readers in E. handler_step E kv1 w1 E1. apply grant_all_spec in E1 as [F1 R1]; [|done].
  apply revoke_all_spec in E as (D2 & R2 & N2); [|done]. split_and!.
  - trans w1; [by apply frame_drops | done].
  - destruct R1, R2. split_and!; congruence.
  - intros u rec dks Hu Hk. apply row_for_frame with kv1; [by destruct R2 | |].
    + apply R2. rewrite elem_of_sorted_strings. apply elem_of_difference in Hu as [? ?].
      rewrite elem_of_difference. tauto.
    + apply R1; [by apply elem_of_sorted_strings | done].
  - intros u rec dks Hu Hk. apply (rs_rows _ _ _ _ _ _ R2 u rec dks); [by apply elem_of_sorted_strings | done].
  - intros u Hu. apply N2. by apply elem_of_sorted_strings.
Qed.

(** What resealing the owners did to the other rows. *)
Definition owner_effect (bucket : string) (bwk : bytes) (new : gset string) (o : string)
    (kv : BucketKeyVersion) (w : World) (kv' : BucketKeyVersion) (w' : World) : Prop :=
  drops w w' /\ same_epoch kv kv' /\
  (forall u, u <> o -> u ∈ new -> grants kv' !! u = grants kv !! u) /\
  (forall u rec dks, u <> o -> known_user u rec dks ->
     grants kv' !! u = grants kv !! u \/ row_for kv' bucket u bwk dks all_decoys).

Lemma reseal_owner_spec bucket bwk new prev o kv w kv' w' : blen bwk = 32 ->
  reseal_owner bucket bwk new prev o kv w = (Ok kv', w') -> owner_effect bucket bwk new o kv w kv' w'.
Proof using AL KL HL BL RL.
  intros Hb E. unfold reseal_owner in E. handler_step E kv1 w1 E1. apply reseal_grantee_spec in E1 as [F1 R1]; [|done].
  assert (Ho : forall u, u <> o -> grants kv1 !! u = grants kv !! u).
  { intros u Hu. apply R1. by intros ->%list_elem_of_singleton. }
  assert (Hstop : owner_effect bucket bwk new o kv w kv1 w1).
  { split_and!; [by apply frame_drops | by eapply resealed_same | by intros; apply Ho |].
    intros u rec dks Hu _. left. by apply Ho. }
  destruct prev as [prev|]; [|by injection E as <- <-].
  destruct (negb (bool_decide (prev = o)) && negb (bool_decide (prev ∈ new))) eqn:Eg; [|by injection E as <- <-].
  apply andb_true_iff in Eg as [_ Eg%negb_true_iff%bool_decide_eq_false].
  handler_step E kv2 w2 E2. apply reseal_grantee_spec in E2 as [F2 R2]; [|done].
  handler_step E tt1 w3 E3. destruct tt1. apply revoke_sessions_spec in E3 as [D3 _]. injection E as <- <-.
  split_and!.
  - trans w1; [by apply frame_drops|]. trans w2; [by apply frame_drops|done].
  - destruct R1, R2. split_and!; congruence.
  - intros u Hu Hn. rewrite <- Ho by done. apply R2. intros ->%list_elem_of_singleton. done.
  - intros u rec dks Hu Hk. destruct (decide (u = prev)) as [->|Hne].
    + right. apply (rs_rows _ _ _ _ _ _ R2 prev rec dks); [by left | done].
    + left. rewrite <- Ho by done. apply R2. by intros ->%list_elem_of_singleton.
Qed.

(** What rewriting the rows did when the set of readers changed, for users other than a new owner. *)
Definition rows_effect (bucket : string) (bwk : bytes) (old new : gset string) (own : option string)
    (kv : BucketKeyVersion) (w : World) (kv' : BucketKeyVersion) (w' : World) : Prop :=
  drops w w' /\ same_epoch kv kv' /\
  (forall u rec dks, u ∈ new ∖ old -> own <> Some u -> known_user u rec dks ->
     row_for kv' bucket u bwk dks (auths_of rec true)) /\
  (forall u rec dks, u ∈ old ∖ new -> own <> Some u -> known_user u rec dks ->
     row_for kv' bucket u bwk dks all_decoys) /\
  (forall u, u ∈ old ∖ new -> no_session (w_sessions w') u).

Lemma reseal_rows_spec bucket bwk oc old new prev own kv w kv' w' : blen bwk = 32 ->
  reseal_rows bucket bwk true oc old new prev own kv w = (Ok kv', w') ->
  rows_effect bucket bwk old new own kv w kv' w'.
Proof using AL KL HL BL RL.
  intros Hb E. unfold reseal_rows in E. handler_step E kv1 w1 E1.
  apply reseal_readers_spec in E1 as (D1 & S1 & G1 & V1 & N1); [|done].
  assert (Hstop : rows_effect bucket bwk old new own kv w kv1 w1) by (split_and!; eauto).
  destruct oc; [|by injection E as <- <-]. destruct own as [o|]; [|by injection E as <- <-]. clear Hstop.
  apply reseal_owner_spec in E as (D2 & S2 & K2 & V2); [|done].
  assert (He : bk_epoch kv' = bk_epoch kv1) by apply S2.
  split_and!.
  - by trans w1.
  - destruct S1 as (? & ? & ?), S2 as (? & ? & ?). split_and!; congruence.
  - intros u rec dks Hu Hne Hk. apply row_for_frame with kv1; [done | | by apply G1].
    apply K2; [congruence | by apply elem_of_difference in Hu as [? _]].
  - intros u rec dks Hu Hne Hk. destruct (V2 u rec dks) as [Hs|?]; [congruence | done | | done].
    apply row_for_frame with kv1; [done | done | by eapply V1].
  - intros u Hu. destruct D2 as (_ & _ & Hs). by apply no_session_shrinks with (w_sessions w1); [|apply N1].
Qed.

(** ** The whole request *)

(** The caller is the same persona with the same identity key. *)
Definition same_caller (w w' : World) : Prop :=
  au_username (w_auth w') = au_username (w_auth w) /\
  si_persona (au_session (w_auth w')) = si_persona (au_session (w_auth w)) /\
  open_identity_sk (keyring (w_sessions w)) (au_session (w_auth w')) =
    open_identity_sk (keyring (w_sessions w)) (au_session (w_auth w)).

Lemma is_visible_same key session cfg bucket r :
  let s := (is_visible key session cfg bucket r).1.2 in
  si_persona s = si_persona session /\ open_identity_sk key s = open_identity_sk key session.
Proof using AL.
  unfold is_visible. destruct (current_key cfg) as [kv|]; [|done].
  pose proof (resolve_cases key session cfg bucket (bk_epoch kv) r) as Hc.
  destruct (resolve_read_key key session cfg bucket (bk_epoch kv) r) as [[[sk|e] s] r1]; cbn [fst snd]; [|by subst].
  by destruct Hc as (_ & _ & ? & ?).
Qed.

Lemma authorize_frame bucket req w :
  let w' := (authorize bucket req w).2 in
  w_storage w' = w_storage w /\ w_sessions w' = w_sessions w /\ same_caller w w'.
Proof using AL.
  unfold authorize, authorize_bucket. destruct (negb (au_authz_enforced (w_auth w))); [done|].
  destruct (get_bucket_config (w_storage w) bucket) as [cfg|e]; [|done]. unfold effective_caps.
  pose proof (is_visible_same (keyring (w_sessions w)) (au_session (w_auth w)) cfg bucket (w_rng w)) as Hv.
  destruct (is_visible _ _ _ _ _) as [[g s] r1]. cbn [fst snd] in Hv.
  destruct (caps_given _ _ _ _) as [eff vis]. done.
Qed.

(** A successful [set_acl], step by step: what it read, the rewritten keys, and what it stored. *)
Lemma set_acl_Ok bucket body w b' w' : set_acl bucket body w = (Ok b', w') ->
  exists cfg own ks w1 w2,
    get_bucket_config (w_storage w) bucket = Ok cfg /\ ab_generation body = acl_generation cfg /\
    w_storage w1 = w_storage w /\ w_sessions w1 = w_sessions w /\ same_caller w w1 /\
    validate_grants own (sorted_strings (dom (ab_grants body))) = Ok tt /\
    rewrite_keys bucket (with_acl cfg own (ab_grants body) (keys cfg) (acl_generation cfg))
      (negb (bool_decide (read_implying_grantees (acl cfg) = read_implying_grantees (ab_grants body))))
      (negb (bool_decide (own = owner cfg))) (read_implying_grantees (acl cfg))
      (read_implying_grantees (ab_grants body)) (owner cfg) own w1 = (Ok ks, w2) /\
    w_sessions w' = w_sessions w2 /\
    get_bucket_config (w_storage w') bucket =
      Ok (with_acl cfg own (ab_grants body) ks (wrap64 (acl_generation cfg + 1))) /\
    b' = body_of (with_acl cfg own (ab_grants body) ks (wrap64 (acl_generation cfg + 1))).
Proof using AL LL.
  intros E. unfold set_acl in E. handler_step E d w0 E0.
  pose proof (authorize_frame bucket PAdmin w) as F0. rewrite E0 in F0. cbn [snd] in F0. destruct F0 as (Fst & Fss & Fc).
  handler_step E st w1 E1. injection E1 as <- <-. handler_step E present w1 E1. apply lift_Ok in E1 as [E1 ->].
  destruct present; [|done]. cbn [negb] in E. handler_step E cfg w1 E2. apply lift_Ok in E2 as [E2 ->].
  unfold replace_acl in E. destruct (Z.eqb_spec (ab_generation body) (acl_generation cfg)) as [Hg|]; [|done].
  cbn [negb] in E. handler_step E auth w1 E3. injection E3 as <- <-.
  handler_step E own w1 E4. apply lift_Ok in E4 as [E4 ->]. handler_step E tt0 w1 E5. apply lift_Ok in E5 as [E5 ->].
  destruct tt0. handler_step E ks w2 E6. handler_step E tt1 w3 E7. injection E as <- <-.
  unfold store_config in E7. destruct (set_bucket_config (w_storage w2) bucket _) as [st'|e] eqn:Es; [|done].
  injection E7 as _ <-. rewrite Fst in E2. exists cfg, own, ks, w0, w2.
  split_and!; try done. apply config_of_set in Es. done.
Qed.

Lemma find_replace_epoch cfg own a new gen e kv0 : kv0 ∈ keys cfg -> bk_epoch kv0 = bk_epoch new -> e = bk_epoch new ->
  find_epoch (with_acl cfg own a (replace_epoch new (keys cfg)) gen) e = Some new.
Proof using.
  intros Hin He ->. unfold find_epoch. cbn [with_acl keys].
  induction (keys cfg) as [|k ks IH]; [by apply elem_of_nil in Hin|]. cbn [replace_epoch].
  destruct (Z.eqb_spec (bk_epoch k) (bk_epoch new)) as [Hk|Hk]; cbn [list_find].
  - by rewrite decide_True by done.
  - rewrite decide_False by done. apply elem_of_cons in Hin as [->|Hin]; [done|]. specialize (IH Hin).
    destruct (list_find _ (replace_epoch new ks)) as [[j y]|]; cbn in *; done.
Qed.

Lemma callers_bwk_Ok bucket cfg epoch w bwk w' : callers_bwk bucket cfg epoch w = (Ok bwk, w') ->
  let session := au_session (w_auth w) in
  w' = w /\ blen bwk = 32 /\ exists sk kv bsk, open_identity_sk (keyring (w_sessions w)) session = Ok sk /\
    find_epoch cfg epoch = Some kv /\
    unwrap_with_key (sk_blob kv) bwk (seal.bucket_sk_wrap_aad bucket epoch) = Ok bsk /\
    read_key cfg bucket epoch (au_username (w_auth w)) (Z.to_nat (si_persona session)) sk = Ok bsk.
Proof using.
  unfold callers_bwk, with_identity_sk. destruct (open_identity_sk _ _) as [sk|e] eqn:Eid; [|done].
  cbn [mbind result_bind]. unfold open_verified_bwk, read_key. destruct (find_epoch cfg epoch) as [kv|] eqn:Ef; [|done].
  cbn [ok_or mbind result_bind].
  pose proof (open_bwk_cases cfg bucket epoch (au_username (w_auth w)) (Z.to_nat (si_persona (au_session (w_auth w)))) sk) as Hc.
  destruct (open_bwk cfg bucket epoch _ _ sk) as [p|e] eqn:Eo; [|done]. cbn [mbind result_bind].
  destruct (unwrap_with_key (sk_blob kv) p _) as [bsk|e] eqn:Eu; [|done]. cbn [map_err mbind result_bind].
  intros [= <- <-]. split_and!; [done.. |]. exists sk, kv, bsk. split_and!; try done.
  cbn [ok_or mbind result_bind]. rewrite Eo. cbn [mbind result_bind]. by rewrite Eu.
Qed.

(** A change of readers that went through, where the bucket has key material. *)
Lemma set_acl_readers bucket body w b' w' cfg kv : set_acl bucket body w = (Ok b', w') ->
  get_bucket_config (w_storage w) bucket = Ok cfg -> current_key cfg = Some kv ->
  read_implying_grantees (acl cfg) <> read_implying_grantees (ab_grants body) ->
  exists w1 w2 bwk cfg' kv' sk kv1 bsk, let session := au_session (w_auth w) in
    get_bucket_config (w_storage w') bucket = Ok cfg' /\ find_epoch cfg' (bk_epoch kv) = Some kv' /\
    ab_owner b' = owner cfg' /\ ab_grants body = acl cfg' /\
    validate_grants (owner cfg') (sorted_strings (dom (ab_grants body))) = Ok tt /\
    blen bwk = 32 /\ w_sessions w' = w_sessions w2 /\
    rows_effect bucket bwk (read_implying_grantees (acl cfg)) (read_implying_grantees (ab_grants body)) (owner cfg')
      kv w1 kv' w2 /\
    open_identity_sk (keyring (w_sessions w)) session = Ok sk /\ find_epoch cfg (bk_epoch kv) = Some kv1 /\
    unwrap_with_key (sk_blob kv1) bwk (seal.bucket_sk_wrap_aad bucket (bk_epoch kv)) = Ok bsk /\
    read_key cfg bucket (bk_epoch kv) (au_username (w_auth w)) (Z.to_nat (si_persona session)) sk = Ok bsk.
Proof using AL KL HL BL RL LL.
  intros E Hcfg Hkv Hne. apply set_acl_Ok in E
    as (cfg0 & own & ks & w1 & w2 & Hcfg0 & _ & _ & Hss & (Hu & Hp & Hid) & Hval & Hks & Hss' & Hget & ->).
  rewrite Hcfg0 in Hcfg. injection Hcfg as ->. unfold rewrite_keys in Hks.
  rewrite bool_decide_eq_false_2 in Hks by done. cbn [negb orb] in Hks.
  change (current_key (with_acl _ _ _ (keys cfg) _)) with (current_key cfg) in Hks. rewrite Hkv in Hks.
  handler_step Hks bwk w3 E1. apply callers_bwk_Ok in E1 as (-> & Hb & sk & kv1 & bsk & Hsk & Hf & Hun & Hrd).
  handler_step Hks kv' w4 E2. apply reseal_rows_spec in E2; [|done]. injection Hks as <- <-.
  assert (Hin : kv ∈ keys cfg) by (by apply last_Some_elem_of).
  destruct E2 as (HD & HS & Hrest). destruct (HS) as (He & _ & _).
  exists w1, w4, bwk, (with_acl cfg own (ab_grants body) (replace_epoch kv' (keys cfg)) (wrap64 (acl_generation cfg + 1))),
    kv', sk, kv1, bsk. rewrite Hss, Hid in Hsk. rewrite Hu, Hp in Hrd.
  split_and!; try done. by apply find_replace_epoch with kv.
Qed.

Lemma in_validated own us u : validate_grants own us = Ok tt -> u ∈ us -> own <> Some u.
Proof using.
  induction us as [|v us IH]; [by intros _ ?%elem_of_nil|]. cbn [validate_grants].
  destruct (trim_is_empty _); [done|]. case_bool_decide; [done|].
  intros Hv [->|?]%elem_of_cons; [done | by apply IH].
Qed.

Lemma read_implying_dom (a : gmap string BucketPermission) u : u ∈ read_implying_grantees a -> u ∈ dom a.
Proof using.
  unfold read_implying_grantees. rewrite !elem_of_dom. intros [p [Hp _]%map_lookup_filter_Some]. by exists p.
Qed.

(** C8: removing a reader from a bucket's ACL cuts them off: after a successful request
    their row in the current key epoch holds a fresh decoy for each of the four personas,
    and no session of theirs is left in the store, so no cached bucket key is either. *)
Theorem set_acl_cuts_off (bucket : string) (body b' : AclBody) (w w' : World) (cfg : BucketConfig)
    (kv : BucketKeyVersion) (u : string) (rec : UserRecord) (dks : list Dk) :
  set_acl bucket body w = (Ok b', w') ->
  get_bucket_config (w_storage w) bucket = Ok cfg -> current_key cfg = Some kv ->
  u ∈ read_implying_grantees (acl cfg) -> u ∉ read_implying_grantees (ab_grants body) -> ab_owner b' <> Some u ->
  known_user u rec dks ->
  no_session (w_sessions w') u /\
  exists cfg' kv' bwk, get_bucket_config (w_storage w') bucket = Ok cfg' /\
    find_epoch cfg' (bk_epoch kv) = Some kv' /\ row_for kv' bucket u bwk dks all_decoys.
Proof using AL KL HL BL RL LL.
  intros E Hcfg Hkv Hold Hnew Hown Hk.
  destruct (set_acl_readers _ _ _ _ _ _ _ E Hcfg Hkv) as (w1 & w2 & bwk & cfg' & kv' & sk & kv1 & bsk & Hget & Hf & Hown' &
    _ & _ & Hb & Hss & (_ & _ & _ & Hdec & Hno) & _). { intros Heq. by rewrite Heq in Hold. }
  assert (Hd : u ∈ read_implying_grantees (acl cfg) ∖ read_implying_grantees (ab_grants body))
    by by apply elem_of_difference.
  split; [rewrite Hss; by apply Hno|]. exists cfg', kv', bwk. split_and!; try done.
  apply (Hdec u rec dks); [done | by rewrite <- Hown' | done].
Qed.

(** C9: adding a reader to a bucket's ACL gives them the bucket: after a successful
    request the persona in the new reader's primary slot opens the current epoch to the
    very secret key the caller opens it to. *)
Theorem set_acl_lets_in (bucket : string) (body b' : AclBody) (w w' : World) (cfg : BucketConfig)
    (kv : BucketKeyVersion) (u : string) (rec : UserRecord) (dks : list Dk) (dk : Dk) :
  set_acl bucket body w = (Ok b', w') ->
  get_bucket_config (w_storage w) bucket = Ok cfg -> current_key cfg = Some kv -> has_version cfg kv ->
  u ∉ read_implying_grantees (acl cfg) -> u ∈ read_implying_grantees (ab_grants body) ->
  known_user u rec dks -> dks !! Z.to_nat (ur_primary_slot rec) = Some dk ->
  exists cfg' callers_sk bucket_sk, get_bucket_config (w_storage w') bucket = Ok cfg' /\
    open_identity_sk (keyring (w_sessions w)) (au_session (w_auth w)) = Ok callers_sk /\
    read_key cfg bucket (bk_epoch kv) (au_username (w_auth w))
      (Z.to_nat (si_persona (au_session (w_auth w)))) callers_sk = Ok bucket_sk /\
    read_key cfg' bucket (bk_epoch kv) u (Z.to_nat (ur_primary_slot rec)) (seal.sk_bytes_of dk) = Ok bucket_sk.
Proof using AL KL HL BL RL LL.
  intros E Hcfg Hkv Hver Hold Hnew Hk Hdk.
  destruct (set_acl_readers _ _ _ _ _ _ _ E Hcfg Hkv) as (w1 & w2 & bwk & cfg' & kv' & sk & kv1 & bsk & Hget & Hf & Hown' &
    _ & Hval & Hb & _ & (_ & (He & _ & Hblob) & Hadd & _) & Hid & Hf1 & Hun & Hrd). { intros Heq. by rewrite <- Heq in Hnew. }
  exists cfg', sk, bsk. split_and!; try done. unfold has_version in Hver. rewrite Hver in Hf1. injection Hf1 as <-.
  destruct Hk as (Hu & Hpub & Hl). destruct (Hadd u rec dks) as (row & Hg & Hlen & Hall).
  { by apply elem_of_difference. }
  { eapply in_validated; [done|]. rewrite elem_of_sorted_strings. by apply read_implying_dom. }
  { done. }
  destruct (lookup_lt_is_Some_2 row (Z.to_nat (ur_primary_slot rec))) as [s Hs].
  { rewrite Hlen, <- Hl. by apply lookup_lt_Some in Hdk. }
  assert (Hon : auths_of rec true !! Z.to_nat (ur_primary_slot rec) = Some true).
  { apply only_slot_lookup. rewrite <- Hl. by apply lookup_lt_Some in Hdk. }
  specialize (Hall _ dk true s Hdk Hon Hs).
  destruct (open_bwk_entry cfg' kv' bucket u row dk bwk (Z.to_nat (ur_primary_slot rec)) true s)
    as (p & Ho & _ & ->); try done.
  { unfold has_version. by rewrite He. }
  rewrite He in Ho. unfold read_key. rewrite Hf. cbn [ok_or mbind result_bind]. rewrite Ho. cbn [mbind result_bind].
  by rewrite Hblob, Hun.
Qed.

Lemma set_acl_stale bucket body w cfg : get_bucket_config (w_storage w) bucket = Ok cfg ->
  ab_generation body <> acl_generation cfg ->
  is_ok (set_acl bucket body w).1 = false /\
  w_storage (set_acl bucket body w).2 = w_storage w /\ w_sessions (set_acl bucket body w).2 = w_sessions w.
Proof using AL.
  intros Hcfg Hne. pose proof (authorize_frame bucket PAdmin w) as F. unfold set_acl, mbind, handler_bind.
  destruct (authorize bucket PAdmin w) as [[d|e] w1]; cbn [fst snd] in F |- *; destruct F as (F1 & F2 & _); [|done].
  unfold ask_storage, lift. rewrite F1. destruct (bucket_exists (w_storage w) bucket) as [[]|]; cbn [negb fail lift fst snd is_ok];
    try done.
  rewrite Hcfg. unfold replace_acl. rewrite (proj2 (Z.eqb_neq _ _) Hne). cbn [negb fail lift fst snd is_ok]. done.
Qed.

(** Concurrent ACL edits cannot overwrite each other: a successful request stores the
    grants it was sent under the next generation number, and any later request that
    still carries the generation the first one consumed fails and leaves the storage and
    the sessions as they are, whoever sends it. *)
Theorem acl_edits_serialize (bucket : string) (body1 body2 b' : AclBody) (w w1 w2 : World) :
  set_acl bucket body1 w = (Ok b', w1) ->
  in_u 64 (ab_generation body1) -> ab_generation body2 = ab_generation body1 -> w_storage w2 = w_storage w1 ->
  ab_generation b' = wrap64 (ab_generation body1 + 1) /\ ab_grants b' = ab_grants body1 /\
  (exists cfg', get_bucket_config (w_storage w1) bucket = Ok cfg' /\ b' = body_of cfg') /\
  is_ok (set_acl bucket body2 w2).1 = false /\
  w_storage (set_acl bucket body2 w2).2 = w_storage w2 /\ w_sessions (set_acl bucket body2 w2).2 = w_sessions w2.
Proof using AL LL.
  intros E Hr Heq Hst. apply set_acl_Ok in E
    as (cfg & own & ks & w3 & w4 & Hcfg & Hg & _ & _ & _ & _ & _ & _ & Hget & ->).
  rewrite Hg in Heq, Hr |- *. rewrite <- Hst in Hget.
  split; [done|]. split; [done|]. split; [rewrite <- Hst; by eexists|].
  apply (set_acl_stale bucket body2 w2 _ Hget). rewrite Heq. cbn [with_acl acl_generation]. unfold wrap64, in_u in *.
  destruct (Z.eq_dec (acl_generation cfg) (2 ^ 64 - 1)) as [->|]; [vm_compute; discriminate|].
  rewrite Z.mod_small; lia.
Qed.

End theorems.

(** ** Witnesses *)
Module AclWitness.
Import BucketKeysWitness AuthzWitness.
#[local] Existing Instances Toy.aead Toy.kem Toy.hkdf Toy.base64 Toy.rng_ops mem_listing.
#[local] Existing Instances Toy.aead_laws Toy.kem_laws Toy.hkdf_laws Toy.base64_laws Toy.rng_laws mem_listing_laws.

Definition bobs : list Dk := [dk_of 11; dk_of 12; dk_of 13; dk_of 14].
Definition record_bob : UserRecord :=
  mkUserRecord "bob" 0 None (mkArgon2Params 0 0 0 []) (slot_of <$> bobs) 1 User.
Definition users1 : UserStoreReader := {|
  user_get u := Ok (if bool_decide (u = "alice") then Some record0
                    else if bool_decide (u = "bob") then Some record_bob else None) |}.
#[local] Existing Instance users1.

(** Alice owns the bucket; a session of Bob's is live. *)
Definition sessions0 : SessionStore :=
  mkSessionStore {[ replicate 32 (byte_of_Z 6) :=
    mkSessionInfo "bob" User 0 100 1 false (mkSealedSecret [] []) 0 (replicate 32 (byte_of_Z 6)) cache_default ]} key0.
Definition world0 : World := mkWorld st0 sessions0 auth0 (60 : @rng Toy.rng_ops).
Definition add_bob : AclBody := mkAclBody None {["bob" := PRead]} [] 0.
Definition drop_bob : AclBody := mkAclBody None empty [] 1.

Definition world1 : World := (set_acl "photos" add_bob world0).2.
Definition cfg1 : BucketConfig :=
  match get_bucket_config (w_storage world1) "photos" with Ok c => c | Err _ => config_default end.
Definition kv1 : BucketKeyVersion := default kv0 (current_key cfg1).
Definition answer (m : result Error AclBody) : AclBody :=
  match m with Ok b => b | Err _ => mkAclBody None empty [] 0 end.

Lemma set_acl_lets_in_witness :
  exists cfg' callers_sk bucket_sk, get_bucket_config (w_storage world1) "photos" = Ok cfg' /\
    open_identity_sk key0 session0 = Ok callers_sk /\
    read_key config0 "photos" 0 "alice" 2 callers_sk = Ok bucket_sk /\
    read_key cfg' "photos" 0 "bob" 1 (seal.sk_bytes_of (dk_of 12)) = Ok bucket_sk.
Proof.
  apply (set_acl_lets_in "photos" add_bob (answer (set_acl "photos" add_bob world0).1) world0 world1 config0 kv0
           "bob" record_bob bobs (dk_of 12)).
  - vm_compute; reflexivity.
  - reflexivity.
  - vm_compute; reflexivity.
  - vm_compute; reflexivity.
  - vm_compute; intros Hin; discriminate Hin.
  - apply elem_of_dom. vm_compute. eexists. reflexivity.
  - split_and!; vm_compute; reflexivity.
  - reflexivity.
Defined.

Lemma set_acl_cuts_off_witness :
  no_session (w_sessions (set_acl "photos" drop_bob world1).2) "bob" /\
  exists cfg' kv' bwk, get_bucket_config (w_storage (set_acl "photos" drop_bob world1).2) "photos" = Ok cfg' /\
    find_epoch cfg' (bk_epoch kv1) = Some kv' /\ row_for kv' "photos" "bob" bwk bobs all_decoys.
Proof.
  apply (set_acl_cuts_off "photos" drop_bob (answer (set_acl "photos" drop_bob world1).1) world1
           (set_acl "photos" drop_bob world1).2 cfg1 kv1 "bob" record_bob bobs).
  - vm_compute; reflexivity.
  - vm_compute; reflexivity.
  - vm_compute; reflexivity.
  - apply elem_of_dom. vm_compute. eexists. reflexivity.
  - vm_compute; intros Hin; discriminate Hin.
  - vm_compute; discriminate.
  - split_and!; vm_compute; reflexivity.
Defined.

Lemma acl_edits_serialize_witness :
  let b' := answer (set_acl "photos" add_bob world0).1 in
  ab_generation b' = wrap64 (ab_generation add_bob + 1) /\ ab_grants b' = ab_grants add_bob /\
  (exists cfg', get_bucket_config (w_storage world1) "photos" = Ok cfg' /\ b' = body_of cfg') /\
  is_ok (set_acl "photos" add_bob world1).1 = false /\
  w_storage (set_acl "photos" add_bob world1).2 = w_storage world1 /\
  w_sessions (set_acl "photos" add_bob world1).2 = w_sessions world1.
Proof.
  apply (acl_edits_serialize "photos" add_bob add_bob (answer (set_acl "photos" add_bob world0).1) world0 world1 world1).
  - vm_compute; reflexivity.
  - vm_compute; split; [discriminate | reflexivity].
  - reflexivity.
  - reflexivity.
Defined.
End AclWitness.
