(* ===== verification/Locks.v ===== *)
(** * Object locks

    Models y2q-core/src/storage/locks.rs, the registry of write locks, and the parsing of
    the cutoff in y2qd/src/handlers/locks.rs.  Each operation on the shared map is atomic.
    A lock is released by the drop of its guard, which removes the entry of its object. *)

From stdpp Require Import relations.
From S2P Require Import Prelude Types Lex.

Abbreviation LockRegistry := (gmap (string * string) Z).

Definition try_acquire (reg : LockRegistry) (bucket key : string) (now : Z) : result Error LockRegistry :=
  match reg !! (bucket, key) with
  | None => Ok (<[(bucket, key) := now]> reg)
  | Some since => Err (Locked bucket key since)
  end.

(** [LockGuard::drop] *)
Definition release (reg : LockRegistry) (bucket key : string) : LockRegistry := delete (bucket, key) reg.

Definition check_not_locked (reg : LockRegistry) (bucket key : string) : result Error unit :=
  match reg !! (bucket, key) with
  | Some since => Err (Locked bucket key since)
  | None => Ok tt
  end.

Record StaleLock : Type := mkStaleLock { sl_bucket : string; sl_key : string; locked_since : Z }.

Definition stale_rows (reg : LockRegistry) (older_than : Z) : list ((string * string) * Z) :=
  filter (fun r => r.2 < older_than) (map_to_list reg).

Definition list_stale (reg : LockRegistry) (older_than : Z) : list StaleLock :=
  (fun r => mkStaleLock r.1.1 r.1.2 r.2) <$> stale_rows reg older_than.

Definition clear_stale (reg : LockRegistry) (older_than : Z) : Z * LockRegistry :=
  foldl (fun '(removed, reg) k => if bool_decide (is_Some (reg !! k)) then (removed + 1, delete k reg) else (removed, reg))
    (0, reg) (stale_rows reg older_than).*1.

(** ** The cutoff *)

Inductive Cutoff : Type := CutoffAt (t : Z) | BadCutoff (e : Error) | CutoffPanics.

Definition ascii_digit (b : byte) : bool := in_range 48 57 b.

(** [str::parse::<u64>] of a string of digits *)
Definition digits_value (b : bytes) : Z := foldl (fun acc c => acc * 10 + (Z_of_byte c - 48)) 0 b.
Definition parse_u64 (b : bytes) : option Z :=
  if bool_decide (b = []) then None else
  let v := digits_value b in if v <=? u64_max then Some v else None.

Definition unit_secs (c : byte) : option Z :=
  if bool_decide (c = x73) then Some 1 else
  if bool_decide (c = x6d) then Some 60 else
  if bool_decide (c = x68) then Some 3600 else
  if bool_decide (c = x64) then Some 86400 else
  if bool_decide (c = x77) then Some 604800 else None.

(** Seconds of a [SystemTime] are an [i64]: adding past it panics, subtracting past it is
    noticed. *)
Definition parse_older_than (value : string) (now : Z) : Cutoff :=
  let b := as_bytes value in
  let bad := BadCutoff (InvalidStaleLockThreshold value) in
  if bool_decide (b = []) then bad else
  if forallb ascii_digit b then
    match parse_u64 b with
    | None => bad
    | Some seconds => if 2 ^ 63 <=? seconds then CutoffPanics else CutoffAt (seconds * 1000000000)
    end
  else
  match last b with
  | None => bad
  | Some c =>
      match unit_secs c with
      | None => bad
      | Some unit =>
          let n_str := take (length b - 1) b in
          if bool_decide (n_str = []) || negb (forallb ascii_digit n_str) then bad else
          match parse_u64 n_str with
          | None => bad
          | Some n =>
              if u64_max <? n * unit then bad else
              if now / 1000000000 - n * unit <? - 2 ^ 63 then bad else CutoffAt (now - n * unit * 1000000000)
          end
      end
  end.

(** ** Theorems *)

Lemma clear_stale_spec reg older : snd (clear_stale reg older) = filter (fun r => ~ r.2 < older) reg /\
  fst (clear_stale reg older) = blen (list_stale reg older).
Proof.
  unfold clear_stale, list_stale, blen. rewrite length_fmap.
  assert (Hgen : forall (rows : list ((string * string) * Z)) (n : Z) (m : LockRegistry), NoDup rows.*1 -> (forall k v, (k, v) ∈ rows -> m !! k = Some v) ->
    foldl (fun '(removed, reg) k => if bool_decide (is_Some (reg !! k)) then (removed + 1, delete k reg) else (removed, reg)) (n, m) rows.*1
      = (n + Z.of_nat (length rows), foldr delete m rows.*1)).
  { induction rows as [|[k v] rows IH]; intros n m Hnd Hin; cbn [fmap list_fmap foldl foldr length fst]; [by rewrite Z.add_0_r|].
    apply NoDup_cons in Hnd as [Hk Hnd]. rewrite bool_decide_eq_true_2 by (exists v; apply Hin; left). rewrite IH; [|done|].
    - f_equal; [lia|]. clear -Hk. induction rows as [|[k' v'] rows IH]; [done|]. cbn [fmap list_fmap foldr fst] in *.
      apply not_elem_of_cons in Hk as [Hne Hk]. rewrite IH by done. by rewrite delete_delete.
    - intros k' v' Hin'. rewrite lookup_delete_ne; [apply Hin; by right|]. intros ->. apply Hk, list_elem_of_fmap. by exists (k', v'). }
  rewrite (Hgen _ 0 reg).
  - cbn [fst snd]. split; [|lia]. apply map_eq. intros k. apply option_eq. intros v. rewrite map_lookup_filter_Some. cbn [snd].
    assert (Hd : forall ks m, foldr delete m ks !! k = Some v <-> (k ∉ ks) /\ (m : LockRegistry) !! k = Some v).
    { induction ks as [|k0 ks IH]; intros m; cbn [foldr]; [split; [intros ?; split; [apply not_elem_of_nil|done]|by intros []]|].
      rewrite lookup_delete_Some, IH, not_elem_of_cons. split; [intros (? & ? & ?); by split_and!|intros [[? ?] ?]; by split_and!]. }
    rewrite Hd. split; intros [H1 H2].
    + split; [done|]. intros Hlt. apply H1, list_elem_of_fmap. exists (k, v). split; [done|]. apply list_elem_of_filter. split; [done|]. by apply elem_of_map_to_list.
    + split; [|done]. intros ([k' v'] & -> & Hin)%list_elem_of_fmap. apply list_elem_of_filter in Hin as [Hlt Hin%elem_of_map_to_list]. cbn in *. by simplify_eq.
  - unfold stale_rows. apply NoDup_fmap_2_strong; [|apply NoDup_filter, NoDup_map_to_list]. intros [k v] [k' v'] Hin Hin' He.
    apply list_elem_of_filter in Hin as [_ Hin%elem_of_map_to_list]. apply list_elem_of_filter in Hin' as [_ Hin'%elem_of_map_to_list].
    cbn in He. subst k'. congruence.
  - intros k v Hin. by apply list_elem_of_filter in Hin as [_ Hin%elem_of_map_to_list].
Qed.

(** *** Guards *)

(** The registry together with the guards that are alive. *)
Record LockState : Type := mkLockState { ls_reg : LockRegistry; ls_guards : list (string * string) }.

Inductive lock_step : LockState -> LockState -> Prop :=
| step_acquire s b k now reg : try_acquire (ls_reg s) b k now = Ok reg -> lock_step s (mkLockState reg ((b, k) :: ls_guards s))
| step_drop s b k before after : ls_guards s = before ++ (b, k) :: after ->
    lock_step s (mkLockState (release (ls_reg s) b k) (before ++ after)).

Inductive clear_step : LockState -> LockState -> Prop :=
| step_lock s s' : lock_step s s' -> clear_step s s'
| step_clear s older : clear_step s (mkLockState (snd (clear_stale (ls_reg s) older)) (ls_guards s)).

Definition locks_ok (s : LockState) : Prop :=
  NoDup (ls_guards s) /\ forall bk, is_Some (ls_reg s !! bk) <-> bk ∈ ls_guards s.

Lemma lock_step_ok s s' : locks_ok s -> lock_step s s' -> locks_ok s'.
Proof.
  intros Hok Hstep. destruct Hstep as [s0 b k now reg E|s0 b k before after Hg]; destruct Hok as [Hnd Hreg].
  - unfold try_acquire in E. destruct (ls_reg s0 !! (b, k)) eqn:El; [done|]. injection E as <-. split; cbn [ls_reg ls_guards].
    + apply NoDup_cons. split; [|done]. rewrite <- Hreg. rewrite El. intros [? Hx]. discriminate Hx.
    + intros bk. rewrite lookup_insert_is_Some', Hreg, elem_of_cons. split; intros [?|?]; auto.
  - rewrite Hg in Hnd, Hreg. apply NoDup_app in Hnd as (Hb & Hdisj & Ha). apply NoDup_cons in Ha as [Hk Ha]. split; cbn [ls_reg ls_guards].
    + apply NoDup_app. split_and!; [done| |done]. intros x Hx Hxa. apply (Hdisj x Hx). by right.
    + intros bk. unfold release. destruct (decide (bk = (b, k))) as [->|Hne].
      * rewrite lookup_delete_eq, elem_of_app. split; [by intros [? ?]|]. intros [Hx|Hx]; [|done]. exfalso. apply (Hdisj _ Hx). left.
      * rewrite lookup_delete_ne, Hreg, !elem_of_app, elem_of_cons by done. split; [intros [?|[?|?]]|intros [?|?]]; auto. done.
Qed.

(** C30: without a forced clear the locks exclude: however guards are taken and dropped, no
    two live guards are for the same object, and an object is refused to writers and
    readers exactly while a guard for it is alive. *)
Theorem locks_exclusive (s : LockState) :
  rtc lock_step (mkLockState empty []) s ->
  NoDup (ls_guards s) /\
  forall b k, (check_not_locked (ls_reg s) b k = Ok tt <-> (b, k) ∉ ls_guards s) /\
    forall now, (exists reg, try_acquire (ls_reg s) b k now = Ok reg) <-> (b, k) ∉ ls_guards s.
Proof.
  intros Hr. assert (locks_ok s) as [Hnd Hreg].
  { revert Hr. apply (rtc_ind_r (fun s => locks_ok s)); [split; cbn; [constructor|]|].
    - intros bk. rewrite lookup_empty. split; [by intros [? ?]|by intros ?%elem_of_nil].
    - intros s1 s2 _ Hs Hok. by apply (lock_step_ok s1). }
  split; [done|]. intros b k. pose proof (Hreg (b, k)) as Hbk. unfold check_not_locked, try_acquire. destruct (ls_reg s !! (b, k)) as [since|].
  - assert (Hin : (b, k) ∈ ls_guards s) by (apply Hbk; eauto). split; [by split|]. intros now. split; [by intros [? ?]|done].
  - assert (Hin : (b, k) ∉ ls_guards s) by (rewrite <- Hbk; by intros [? ?]). split; [done|]. intros now. split; [done|]. eauto.
Qed.

(** Clearing a stale lock breaks the exclusion of the next one. A write takes the lock
    at [t0] and stalls; an administrator clears locks older than [cut]; a second write
    takes the lock; when the stalled one ends, its guard removes the second one's lock:
    the second write is still going on, yet readers are let in and a third write can
    start. *)
Theorem cleared_lock_lost (b k : string) (t0 cut t1 : Z) : t0 < cut ->
  exists s, rtc clear_step (mkLockState empty []) s /\ ls_guards s = [(b, k)] /\
    check_not_locked (ls_reg s) b k = Ok tt /\ forall t2, exists reg, try_acquire (ls_reg s) b k t2 = Ok reg.
Proof.
  intros Hlt. set (r0 := {[(b, k) := t0]} : LockRegistry). set (r1 := {[(b, k) := t1]} : LockRegistry).
  assert (Hclear : snd (clear_stale r0 cut) = empty).
  { rewrite (proj1 (clear_stale_spec r0 cut)). apply map_empty. intros bk. apply eq_None_not_Some. intros [v Hv].
    apply map_lookup_filter_Some in Hv as [Hv Hn]. unfold r0 in Hv. rewrite lookup_singleton_Some in Hv. destruct Hv as [_ <-]. apply Hn. exact Hlt. }
  exists (mkLockState empty [(b, k)]). split_and!; [|done|done|].
  - eapply rtc_l; [apply step_lock, (step_acquire _ b k t0 r0); cbn [ls_reg]; unfold try_acquire; by rewrite lookup_empty|]. cbn [ls_guards].
    eapply rtc_l; [apply (step_clear _ cut)|]. cbn [ls_reg ls_guards]. rewrite Hclear.
    eapply rtc_l; [apply step_lock, (step_acquire _ b k t1 r1); cbn [ls_reg]; unfold try_acquire; by rewrite lookup_empty|]. cbn [ls_guards].
    eapply rtc_l; [apply step_lock, (step_drop _ b k [(b, k)] [])|]; [done|]. cbn [ls_reg app]. unfold release, r1.
    rewrite delete_singleton_eq. apply rtc_refl.
  - intros t2. unfold try_acquire. cbn [ls_reg]. rewrite lookup_empty. eauto.
Qed.

Lemma locks_exclusive_witness :
  check_not_locked {[("photos", "cat") := 5]} "photos" "dog" = Ok tt /\ NoDup [("photos", "cat")].
Proof.
  destruct (locks_exclusive (mkLockState {[("photos", "cat") := 5]} [("photos", "cat")])) as [Hnd Hl].
  - eapply rtc_l; [apply (step_acquire _ "photos" "cat" 5); reflexivity|]. apply rtc_refl.
  - split; [|exact Hnd]. apply (Hl "photos" "dog"). intros Hin. apply list_elem_of_singleton in Hin. discriminate Hin.
Defined.

Lemma cleared_lock_lost_witness : exists s, rtc clear_step (mkLockState empty []) s /\ ls_guards s = [("photos", "cat")] /\
  check_not_locked (ls_reg s) "photos" "cat" = Ok tt.
Proof.
  destruct (cleared_lock_lost "photos" "cat" 5 100 101 ltac:(reflexivity)) as (s & Hr & Hg & Hc & _). exists s. split_and!; assumption.
Defined.

(** The cutoff parser answers every value without panicking, except a bare number of
    seconds from 2^63 up to the largest [u64]: those panic, where the endpoint documents a
    400. *)
Theorem cutoff_panics_exactly (value : string) (now : Z) :
  parse_older_than value now = CutoffPanics <->
  as_bytes value <> [] /\ forallb ascii_digit (as_bytes value) = true /\ 2 ^ 63 <= digits_value (as_bytes value) <= u64_max.
Proof.
  unfold parse_older_than. cbv zeta. set (b := as_bytes value). case_bool_decide as Hb; [split; [done|by intros []]|].
  destruct (forallb ascii_digit b) eqn:Ed.
  - unfold parse_u64. rewrite bool_decide_eq_false_2 by done. cbv zeta. destruct (Z.leb_spec (digits_value b) u64_max) as [Hle|Hgt].
    + destruct (Z.leb_spec (2 ^ 63) (digits_value b)); split; try done; intros (_ & _ & ?); lia.
    + split; [done|]. intros (_ & _ & ?). lia.
  - split; [|by intros (_ & ? & _)]. destruct (last b) as [c|]; [|done]. destruct (unit_secs c) as [u|]; [|done].
    destruct (_ || _); [done|]. destruct (parse_u64 _) as [n|]; [|done]. destruct (_ <? _); [done|]. by destruct (_ <? _).
Qed.
