(* ===== verification/Posix.v ===== *)
(** * Files

    What the storage backend uses of [std::fs] and [tokio::fs]: directory entries that name
    inodes, calls that may fail, and what a crash may leave.

    A call that fails changes nothing, so the state of a run that ends in an error at some
    call is the state a crash just before that call finds.  After a crash a path names
    what it named at the moment of the crash or at any moment since its directory was last
    synced; it names nothing if a directory on the way to it was made and the directory
    holding that one was not synced since; and a file whose contents were not synced may
    hold anything. *)

From S2P Require Import Prelude Effects Sink.

(** ** Paths *)

(** A file name is a stem and an extension, as [file_stem] and [extension] see it. *)
Record fpath : Type := mkPath { fp_dir : list string; fp_stem : string; fp_ext : string }.
#[global] Instance fpath_eq_dec : EqDecision fpath.
Proof. solve_decision. Defined.
#[global] Instance fpath_countable : Countable fpath.
Proof.
  refine (inj_countable' (fun p => (fp_dir p, fp_stem p, fp_ext p)) (fun t => mkPath t.1.1 t.1.2 t.2) _). by intros [].
Defined.

Definition with_extension (p : fpath) (ext : string) : fpath := mkPath (fp_dir p) (fp_stem p) ext.
Definition path_display (p : fpath) : string := "/" +:+ String.concat "/" (fp_dir p) +:+ "/" +:+ fp_stem p +:+ "." +:+ fp_ext p.

Definition parent_dir (d : list string) : list string := take (length d - 1) d.

(** Whether [d] is [base] or below it. *)
Fixpoint below (base d : list string) : bool :=
  match base, d with
  | [], _ => true
  | _, [] => false
  | a :: base, b :: d => bool_decide (a = b) && below base d
  end.

(** [d] and the directories above it, outermost first. *)
Definition ancestors (d : list string) : list (list string) := (fun n => take n d) <$> seq 0 (S (length d)).

Lemma elem_of_ancestors x d : x ∈ ancestors d <-> below x d = true.
Proof.
  unfold ancestors. rewrite list_elem_of_fmap. split.
  - intros (n & -> & _). revert d. induction n as [|n IH]; intros d; [done|]. destruct d as [|a d]; [done|]. cbn. by rewrite bool_decide_eq_true_2, IH.
  - intros Hb. exists (length x). revert d Hb. induction x as [|a x IH]; intros d Hb; [split; [done|apply elem_of_seq; cbn; lia]|].
    destruct d as [|b d]; [done|]. cbn in Hb. apply andb_true_iff in Hb as [Hab Hb]. apply bool_decide_eq_true in Hab as ->.
    destruct (IH d Hb) as [He Hs]. split; [cbn; by rewrite <- He|]. apply elem_of_seq in Hs. apply elem_of_seq. cbn. lia.
Qed.

Lemma below_refl d : below d d = true.
Proof. induction d as [|a d IH]; [done|]. cbn. by rewrite bool_decide_eq_true_2, IH. Qed.

Lemma below_trans a b c : below a b = true -> below b c = true -> below a c = true.
Proof.
  revert b c. induction a as [|x a IH]; intros [|y b] [|z c] H1 H2; try done. cbn in *.
  apply andb_true_iff in H1 as [Hx H1], H2 as [Hy H2]. apply bool_decide_eq_true in Hx as ->, Hy as ->.
  rewrite bool_decide_eq_true_2 by done. by apply (IH b).
Qed.

(** ** The file system *)

Inductive FsError : Type := NoEntry | FsFailed (msg : string).
Definition fs_message (e : FsError) : string :=
  match e with NoEntry => "No such file or directory (os error 2)" | FsFailed m => m end.

Record inode : Type := mkInode { in_data : bytes; in_synced : bool; in_mtime : Z }.

Record Fs : Type := mkFs {
  fs_entries : gmap fpath nat;
  (** What each path named since its directory was last synced. *)
  fs_older : gmap fpath (list (option nat));
  fs_inodes : gmap nat inode;
  fs_next : nat;
  fs_dirs : gset (list string);
  (** The directories made since the one that holds them was last synced. *)
  fs_volatile : gset (list string);
  (** The outcome of the calls to come; no more faults when it is exhausted. *)
  fs_faults : list (option string);
}.

Definition fs_init (base : list string) (faults : list (option string)) : Fs :=
  mkFs empty empty empty 0 (list_to_set (ancestors base)) empty faults.

Abbreviation fsop := (prog Fs FsError).

Definition inode_at (fs : Fs) (p : fpath) : option inode := i ← fs_entries fs !! p; fs_inodes fs !! i.
Definition data_at (fs : Fs) (p : fpath) : option bytes := in_data <$> inode_at fs p.

Definition with_faults (l : list (option string)) (fs : Fs) : Fs :=
  mkFs (fs_entries fs) (fs_older fs) (fs_inodes fs) (fs_next fs) (fs_dirs fs) (fs_volatile fs) l.

(** A system call: its fault, if it has one. *)
Definition sys : fsop unit := fun fs =>
  match fs_faults fs with
  | [] => (Ok tt, fs)
  | Some msg :: rest => (Err (FsFailed msg), with_faults rest fs)
  | None :: rest => (Ok tt, with_faults rest fs)
  end.

(** The entry of [p] becomes [e]; what it was may come back. *)
Definition relink (p : fpath) (e : option nat) (fs : Fs) : Fs :=
  mkFs (partial_alter (fun _ => e) p (fs_entries fs))
    (<[p := (fs_entries fs !! p) :: default [] (fs_older fs !! p)]> (fs_older fs))
    (fs_inodes fs) (fs_next fs) (fs_dirs fs) (fs_volatile fs) (fs_faults fs).

Definition set_inode (i : nat) (n : inode) (fs : Fs) : Fs :=
  mkFs (fs_entries fs) (fs_older fs) (<[i := n]> (fs_inodes fs)) (fs_next fs) (fs_dirs fs) (fs_volatile fs) (fs_faults fs).

(** *** Directories *)

Definition add_dir (d : list string) (fs : Fs) : Fs :=
  mkFs (fs_entries fs) (fs_older fs) (fs_inodes fs) (fs_next fs) ({[d]} ∪ fs_dirs fs) ({[d]} ∪ fs_volatile fs) (fs_faults fs).
Definition drop_dir (d : list string) (fs : Fs) : Fs :=
  mkFs (fs_entries fs) (fs_older fs) (fs_inodes fs) (fs_next fs) (fs_dirs fs ∖ {[d]}) (fs_volatile fs) (fs_faults fs).

Definition fs_try_exists_dir (d : list string) : fsop bool := _ ← sys; gets (fun fs => bool_decide (d ∈ fs_dirs fs)).

(** [DirBuilder::recursive(true).create], which makes what is missing from the top down. *)
Definition fs_create_dir_all (d : list string) : fsop unit :=
  _ ← sys;
  for_each (fun x _ =>
    there ← gets (fun fs => bool_decide (x ∈ fs_dirs fs));
    if there : bool then mret tt else _ ← sys; modify (add_dir x)) (ancestors d) tt.

Definition in_use (d : list string) (fs : Fs) : bool :=
  existsb (fun p => below d (fp_dir p)) (map_to_list (fs_entries fs)).*1
  || existsb (fun x => below d x && negb (bool_decide (x = d))) (elements (fs_dirs fs)).
Definition fs_remove_dir (d : list string) : fsop unit :=
  _ ← sys;
  busy ← gets (in_use d);
  if busy : bool then throw (FsFailed "Directory not empty (os error 39)") else modify (drop_dir d).

Definition fs_remove_file (p : fpath) : fsop unit :=
  _ ← sys;
  o ← gets (fun fs => fs_entries fs !! p);
  _ ← lift_res (ok_or o NoEntry);
  modify (relink p None).

(** Deeper directories first. *)
Definition deeper (a b : list string) : bool := (length b <=? length a)%nat.
Fixpoint insert_deep (d : list string) (l : list (list string)) : list (list string) :=
  match l with [] => [d] | x :: l => if deeper d x then d :: x :: l else x :: insert_deep d l end.

Definition fs_remove_dir_all (d : list string) : fsop unit :=
  files ← gets (fun fs => filter (fun p => below d (fp_dir p) = true) (map_to_list (fs_entries fs)).*1);
  _ ← for_each (fun p _ => fs_remove_file p) files tt;
  dirs ← gets (fun fs => foldr insert_deep [] (filter (fun x => below d x = true) (elements (fs_dirs fs))));
  for_each (fun x _ => fs_remove_dir x) dirs tt.

Inductive dirent : Type := SubDir (d : list string) | File (p : fpath).

(** The entries of a directory, in no particular order. *)
Definition fs_read_dir (d : list string) : fsop (list dirent) :=
  _ ← sys;
  there ← gets (fun fs => bool_decide (d ∈ fs_dirs fs));
  if negb there then throw NoEntry else
  gets (fun fs =>
    (SubDir <$> filter (fun x => parent_dir x = d /\ x <> d) (elements (fs_dirs fs)))
    ++ (File <$> filter (fun p => fp_dir p = d) (map_to_list (fs_entries fs)).*1)).

(** [sync_all] on an open directory *)
Definition sync_dir (d : list string) (fs : Fs) : Fs :=
  mkFs (fs_entries fs) (filter (fun kv => fp_dir kv.1 <> d) (fs_older fs)) (fs_inodes fs) (fs_next fs)
    (fs_dirs fs) (filter (fun x => parent_dir x <> d) (fs_volatile fs)) (fs_faults fs).
Definition fs_sync_dir (d : list string) : fsop unit := _ ← sys; modify (sync_dir d).

(** *** Reading *)

(** The length of the file, as [metadata] gives it. *)
Definition fs_metadata (p : fpath) : fsop Z :=
  _ ← sys; o ← gets (fun fs => data_at fs p); b ← lift_res (ok_or o NoEntry); mret (blen b).
Definition fs_try_exists (p : fpath) : fsop bool := _ ← sys; gets (fun fs => bool_decide (is_Some (data_at fs p))).

(** A file open for reading is what it held when it was opened: the files read here are
    replaced, not written in place. *)
Definition fs_open (p : fpath) : fsop bytes := _ ← sys; o ← gets (fun fs => data_at fs p); lift_res (ok_or o NoEntry).
Definition fs_read (p : fpath) : fsop bytes := b ← fs_open p; _ ← sys; mret b.
Definition fs_len (file : bytes) : fsop Z := _ ← sys; mret (blen file).

(** [seek] to [off] and [read_exact] of [n] bytes *)
Definition fs_read_exact (file : bytes) (off n : Z) : fsop bytes :=
  _ ← sys;
  lift_res (if blen file <? off + n then Err (FsFailed "early eof") else Ok (slice off (off + n) file)).

(** *** Writing *)

Record FileHandle : Type := mkFileHandle { fh_inode : nat; fh_pos : Z }.

Definition alloc (p : fpath) (now : Z) (fs : Fs) : Fs :=
  relink p (Some (fs_next fs))
    (mkFs (fs_entries fs) (fs_older fs) (<[fs_next fs := mkInode [] false now]> (fs_inodes fs)) (S (fs_next fs)) (fs_dirs fs)
       (fs_volatile fs) (fs_faults fs)).

(** [open] with [create] and [truncate] *)
Definition fs_open_truncate (p : fpath) (now : Z) : fsop FileHandle :=
  _ ← sys;
  there ← gets (fun fs => bool_decide (fp_dir p ∈ fs_dirs fs));
  if negb there then throw NoEntry else
  o ← gets (fun fs => fs_entries fs !! p);
  match o with
  | Some i => _ ← modify (set_inode i (mkInode [] false now)); mret (mkFileHandle i 0)
  | None => i ← gets fs_next; _ ← modify (alloc p now); mret (mkFileHandle i 0)
  end.

Definition write_at (i : nat) (pos : Z) (b : bytes) (now : Z) (fs : Fs) : Fs :=
  set_inode i (mkInode (overwrite (default [] (in_data <$> fs_inodes fs !! i)) pos b) false now) fs.
Definition fs_write_all (h : FileHandle) (b : bytes) (now : Z) : fsop FileHandle :=
  if bool_decide (b = []) then mret h else
  _ ← sys;
  if FILE_MAX <? fh_pos h + blen b then throw (FsFailed "File too large (os error 27)") else
  _ ← modify (write_at (fh_inode h) (fh_pos h) b now);
  mret (mkFileHandle (fh_inode h) (fh_pos h + blen b)).
Definition fs_seek (h : FileHandle) (pos : Z) : fsop FileHandle := _ ← sys; mret (mkFileHandle (fh_inode h) pos).

Definition mark_synced (i : nat) (fs : Fs) : Fs :=
  match fs_inodes fs !! i with
  | Some n => set_inode i (mkInode (in_data n) true (in_mtime n)) fs
  | None => fs
  end.
Definition fs_sync_data (h : FileHandle) : fsop unit := _ ← sys; modify (mark_synced (fh_inode h)).

(** [tokio::fs::write] *)
Definition fs_write (p : fpath) (b : bytes) (now : Z) : fsop unit :=
  h ← fs_open_truncate p now; _ ← fs_write_all h b now; mret tt.

Definition fs_rename (a b : fpath) : fsop unit :=
  _ ← sys;
  o ← gets (fun fs => fs_entries fs !! a);
  i ← lift_res (ok_or o NoEntry);
  there ← gets (fun fs => bool_decide (fp_dir b ∈ fs_dirs fs));
  if negb there then throw NoEntry else
  modify (fun fs => relink a None (relink b (Some i) fs)).

(** ** Crashes *)

Definition candidates (fs : Fs) (p : fpath) : list (option nat) := (fs_entries fs !! p) :: default [] (fs_older fs !! p).

(** After a crash [p] may read as [o]. *)
Definition may_read (fs : Fs) (p : fpath) (o : option bytes) : Prop :=
  (o = None /\ exists d, d ∈ ancestors (fp_dir p) /\ d ∈ fs_volatile fs) \/
  exists e, e ∈ candidates fs p /\
    match e with
    | None => o = None
    | Some i => exists n b, fs_inodes fs !! i = Some n /\ o = Some b /\ (in_synced n = true -> b = in_data n)
    end.

(** The inodes of an object are not being written to through another name; names have
    inodes; directories hold what is in them. *)
Record fs_wf (fs : Fs) : Prop := mkFsWf {
  wf_next : forall i, is_Some (fs_inodes fs !! i) -> (i < fs_next fs)%nat;
  wf_named : forall p i, Some i ∈ candidates fs p -> is_Some (fs_inodes fs !! i);
  wf_inj : forall p q i, fs_entries fs !! p = Some i -> fs_entries fs !! q = Some i -> p = q;
  wf_private : forall p q i, fp_ext p = "obj" -> Some i ∈ candidates fs p -> fs_entries fs !! q = Some i -> q = p;
  wf_linked : forall p i, fs_entries fs !! p = Some i -> fp_dir p ∈ fs_dirs fs;
  wf_closed : forall d x, d ∈ fs_dirs fs -> x ∈ ancestors d -> x ∈ fs_dirs fs;
}.

(** ** Facts *)

Lemma candidates_relink fs p e q :
  candidates (relink p e fs) q = if decide (q = p) then e :: candidates fs p else candidates fs q.
Proof.
  unfold candidates, relink. cbn [fs_entries fs_older]. case_decide as Hq.
  - subst q. by rewrite lookup_partial_alter_eq, lookup_insert_eq.
  - by rewrite lookup_partial_alter_ne, lookup_insert_ne.
Qed.

Lemma entry_relink fs p e q : fs_entries (relink p e fs) !! q = if decide (q = p) then e else fs_entries fs !! q.
Proof.
  unfold relink. cbn [fs_entries]. case_decide; [subst; by rewrite lookup_partial_alter_eq|by rewrite lookup_partial_alter_ne].
Qed.

Lemma entry_candidate fs p i : fs_entries fs !! p = Some i -> Some i ∈ candidates fs p.
Proof. intros <-. left. Qed.

Lemma ancestors_self d : d ∈ ancestors d.
Proof. apply elem_of_ancestors, below_refl. Qed.

Lemma ancestors_trans a b c : a ∈ ancestors b -> b ∈ ancestors c -> a ∈ ancestors c.
Proof. rewrite !elem_of_ancestors. apply below_trans. Qed.

(** *** What keeps the file system well formed *)

Lemma wf_with_faults l fs : fs_wf fs -> fs_wf (with_faults l fs).
Proof. intros []. by constructor. Qed.

Lemma wf_set_inode i n fs : is_Some (fs_inodes fs !! i) -> fs_wf fs -> fs_wf (set_inode i n fs).
Proof.
  intros Hi [Hn Hnm Hin Hp Hl Hc]. constructor; try done; cbn [set_inode fs_inodes fs_next].
  - intros j. rewrite lookup_insert_is_Some'. intros [<-|?]; auto.
  - intros p j Hj. rewrite lookup_insert_is_Some'. right. by apply (Hnm p).
Qed.

Lemma wf_mark_synced i fs : fs_wf fs -> fs_wf (mark_synced i fs).
Proof. intros Hwf. unfold mark_synced. destruct (fs_inodes fs !! i) eqn:E; [|done]. apply wf_set_inode; [by rewrite E|done]. Qed.

Lemma wf_unlink p fs : fs_wf fs -> fs_wf (relink p None fs).
Proof.
  intros [Hn Hnm Hin Hp Hl Hc]. constructor; try done.
  - intros q i. rewrite candidates_relink. cbn [fs_inodes relink]. case_decide as Hq; [|apply Hnm].
    rewrite elem_of_cons. intros [?|Hi]; [done|by apply (Hnm p)].
  - intros q q' i. rewrite !entry_relink. repeat case_decide; try done. apply Hin.
  - intros q q' i Hq. rewrite candidates_relink, entry_relink. case_decide as Hqp; [subst q|]; case_decide; try done; [|by apply Hp].
    rewrite elem_of_cons. intros [?|Hi]; [done|by apply Hp].
  - intros q i. rewrite entry_relink. case_decide; [done|apply Hl].
Qed.

(** A new name for an inode nothing else names and no object has had. *)
Lemma wf_link p i fs : fs_wf fs -> is_Some (fs_inodes fs !! i) -> fp_dir p ∈ fs_dirs fs ->
  (forall q, fs_entries fs !! q = Some i -> q = p) ->
  (forall q, fp_ext q = "obj" -> Some i ∈ candidates fs q -> q = p) -> fs_wf (relink p (Some i) fs).
Proof.
  intros [Hn Hnm Hin Hp Hl Hc] Hi Hd Hfree Hobj. constructor; try done.
  - intros q j. rewrite candidates_relink. cbn [fs_inodes relink]. case_decide; [|apply Hnm].
    rewrite elem_of_cons. intros [[= ->]|Hj]; [done|by apply (Hnm p)].
  - intros q q' j. rewrite !entry_relink. repeat case_decide; subst; try done.
    + intros [= ->] Hq'. symmetry. by apply Hfree.
    + intros Hq [= ->]. by apply Hfree.
    + apply Hin.
  - intros q q' j Hq. rewrite candidates_relink, entry_relink. case_decide as Hqp; case_decide as Hq'p; subst; try done.
    + rewrite elem_of_cons. intros [[= ->]|Hj] He; [by apply Hfree|by apply Hp with j].
    + intros Hj [= ->]. symmetry. by apply Hobj.
    + by apply Hp.
  - intros q j. rewrite entry_relink. case_decide; [by subst|apply Hl].
Qed.

Lemma wf_rename a b i fs : fs_wf fs -> fs_entries fs !! a = Some i -> fp_ext a <> "obj" -> fp_dir b ∈ fs_dirs fs ->
  fs_wf (relink a None (relink b (Some i) fs)).
Proof.
  intros Hwf Ha Hext Hd. destruct (decide (a = b)) as [->|Hab].
  { apply wf_unlink, wf_link; try done; [by eapply wf_named, entry_candidate| |].
    - intros q Hq. by apply (wf_inj _ Hwf q b i).
    - intros q Hq Hi. symmetry. by apply (wf_private _ Hwf q b i). }
  (* moving the name first is the same *)
  assert (Heq : fs_wf (relink b (Some i) (relink a None fs))).
  { apply wf_link; [by apply wf_unlink|exact (wf_named _ Hwf _ _ (entry_candidate _ _ _ Ha))|done| |].
    - intros q. rewrite entry_relink. case_decide; [done|]. intros Hq. exfalso. by apply (wf_inj _ Hwf q a i) in Hq.
    - intros q Hq. rewrite candidates_relink. case_decide as Hqa; [by subst q|]. intros Hi.
      exfalso. by apply (wf_private _ Hwf q a i) in Hi. }
  destruct Heq as [Hn Hnm Hin Hp Hl Hc].
  assert (Hcand : forall q, candidates (relink a None (relink b (Some i) fs)) q = candidates (relink b (Some i) (relink a None fs)) q).
  { intros q. rewrite !candidates_relink. repeat case_decide; subst; try done. }
  assert (Hent : forall q, fs_entries (relink a None (relink b (Some i) fs)) !! q = fs_entries (relink b (Some i) (relink a None fs)) !! q).
  { intros q. rewrite !entry_relink. repeat case_decide; subst; done. }
  constructor; try done.
  - intros q j. rewrite Hcand. apply Hnm.
  - intros q q' j. rewrite !Hent. apply Hin.
  - intros q q' j. rewrite Hcand, Hent. apply Hp.
  - intros q j. rewrite Hent. apply Hl.
Qed.

Lemma wf_alloc p now fs : fs_wf fs -> fs_entries fs !! p = None -> fp_dir p ∈ fs_dirs fs -> fs_wf (alloc p now fs).
Proof.
  intros Hwf Hp Hd. unfold alloc.
  assert (Hfresh : forall q, Some (fs_next fs) ∈ candidates fs q -> False).
  { intros q Hq. apply (wf_named _ Hwf), (wf_next _ Hwf) in Hq. lia. }
  apply wf_link; cbn [fs_inodes fs_entries fs_dirs]; [|rewrite lookup_insert_eq; eauto|done| |].
  - destruct Hwf as [Hn Hnm Hin Hpr Hl Hc]. constructor; try done; cbn [fs_inodes fs_next].
    + intros i. rewrite lookup_insert_is_Some'. intros [<-|Hi]; [lia|]. apply Hn in Hi. lia.
    + intros q i Hq. rewrite lookup_insert_is_Some'. right. by apply (Hnm q).
  - intros q Hq. destruct (Hfresh q). by apply entry_candidate.
  - intros q _ Hq. by destruct (Hfresh q).
Qed.

Lemma wf_add_dir d fs : fs_wf fs -> (forall x, x ∈ ancestors d -> x <> d -> x ∈ fs_dirs fs) -> fs_wf (add_dir d fs).
Proof.
  intros [Hn Hnm Hin Hp Hl Hc] Hd. constructor; try done; cbn [add_dir fs_dirs].
  - intros p i Hi. apply Hl in Hi. by apply elem_of_union_r.
  - intros x y Hx Hy. destruct (decide (y = d)) as [->|]; [by apply elem_of_union_l, elem_of_singleton|]. apply elem_of_union in Hx as [Hx|Hx]; [|apply elem_of_union_r; by apply (Hc x)].
    apply elem_of_singleton in Hx as ->. apply elem_of_union_r. by apply Hd.
Qed.

Lemma wf_sync_dir d fs : fs_wf fs -> fs_wf (sync_dir d fs).
Proof.
  intros [Hn Hnm Hin Hp Hl Hc].
  assert (Hsub : forall q e, e ∈ candidates (sync_dir d fs) q -> e ∈ candidates fs q).
  { intros q e. unfold candidates, sync_dir. cbn [fs_entries fs_older]. rewrite !elem_of_cons. intros [?|He]; [by left|right].
    rewrite map_lookup_filter in He. destruct (fs_older fs !! q); [|by apply elem_of_nil in He]. cbn in He. revert He. destruct (guard _); cbn; [done|by intros ?%elem_of_nil]. }
  constructor; try done; [intros; eapply Hnm, Hsub; eauto|]. intros p q i Hext Hi. by apply Hp, Hsub.
Qed.

Lemma in_use_false d fs : in_use d fs = false ->
  (forall p i, fs_entries fs !! p = Some i -> below d (fp_dir p) = false) /\
  (forall x, x ∈ fs_dirs fs -> below d x = true -> x = d).
Proof.
  unfold in_use. rewrite orb_false_iff, <- !not_true_iff_false, !existsb_exists. intros [Hf Hx]. split.
  - intros p i Hp. apply not_true_iff_false. intros Hb. apply Hf. exists p. split; [|done]. apply list_elem_of_In, list_elem_of_fmap.
    exists (p, i). split; [done|]. by apply elem_of_map_to_list.
  - intros x Hin Hb. destruct (decide (x = d)); [done|]. exfalso. apply Hx. exists x. rewrite Hb, bool_decide_eq_false_2 by done.
    split; [|done]. by apply list_elem_of_In, elem_of_elements.
Qed.

Lemma wf_drop_dir d fs : fs_wf fs -> in_use d fs = false -> fs_wf (drop_dir d fs).
Proof.
  intros [Hn Hnm Hin Hp Hl Hc] [Hf Hx]%in_use_false. constructor; try done; cbn [drop_dir fs_dirs].
  - intros p i Hi. apply elem_of_difference. split; [by apply (Hl p i)|]. rewrite elem_of_singleton. intros He.
    pose proof (Hf _ _ Hi) as Hb. rewrite He, below_refl in Hb. done.
  - intros x y [Hxd Hne]%elem_of_difference Hy. apply elem_of_difference. split; [by apply (Hc x)|].
    rewrite elem_of_singleton in *. intros ->. apply Hne, Hx; [done|]. by apply elem_of_ancestors.
Qed.

(** ** Calls that only read *)

Definition only_reads {T} (m : fsop T) : Prop :=
  forall fs, exists l, snd (m fs) = with_faults l fs /\ (fs_faults fs = [] -> l = []).

Lemma with_faults_self fs : with_faults (fs_faults fs) fs = fs.
Proof. by destruct fs. Qed.

Lemma only_reads_pure {T} (r : Fs -> result FsError T) : only_reads (fun fs => (r fs, fs)).
Proof. intros fs. exists (fs_faults fs). by rewrite with_faults_self. Qed.

Lemma only_reads_sys : only_reads sys.
Proof.
  intros fs. unfold sys. destruct (fs_faults fs) as [|[msg|] rest] eqn:E; [exists []|exists rest..]; split; try done.
  cbn. rewrite <- E. by rewrite with_faults_self.
Qed.

Lemma only_reads_bind {T U} (m : fsop T) (f : T -> fsop U) :
  only_reads m -> (forall x, only_reads (f x)) -> only_reads (m ≫= f).
Proof.
  intros Hm Hf fs. unfold mbind, prog_bind. destruct (Hm fs) as (l & El & Hl). destruct (m fs) as [[x|e] fs1]; cbn in El; subst fs1; [|eauto].
  destruct (Hf x (with_faults l fs)) as (l' & -> & Hl'). exists l'. split; [done|]. intros H0. apply Hl'. cbn. auto.
Qed.

Create HintDb reads.
#[export] Hint Resolve only_reads_sys only_reads_bind : reads.
#[export] Hint Extern 2 (only_reads (mret _)) => apply only_reads_pure : reads.
#[export] Hint Extern 2 (only_reads (throw _)) => apply only_reads_pure : reads.
#[export] Hint Extern 2 (only_reads (gets _)) => apply (only_reads_pure (fun fs => Ok _)) : reads.
#[export] Hint Extern 2 (only_reads (lift_res _)) => apply (only_reads_pure (fun _ => _)) : reads.

Ltac reads :=
  repeat first [apply only_reads_bind; [|intros ?]|apply only_reads_sys|apply (only_reads_pure (fun fs => Ok _))
    |apply (only_reads_pure (fun _ => _))|solve [eauto with reads]|case_match].

Lemma fs_open_reads p : only_reads (fs_open p).
Proof. unfold fs_open. reads. Qed.
Lemma fs_read_reads p : only_reads (fs_read p).
Proof. unfold fs_read. apply only_reads_bind; [apply fs_open_reads|]. intros. reads. Qed.
Lemma fs_metadata_reads p : only_reads (fs_metadata p).
Proof. unfold fs_metadata. reads. Qed.
Lemma fs_try_exists_reads p : only_reads (fs_try_exists p).
Proof. unfold fs_try_exists. reads. Qed.
Lemma fs_len_reads f : only_reads (fs_len f).
Proof. unfold fs_len. reads. Qed.
Lemma fs_read_exact_reads f off n : only_reads (fs_read_exact f off n).
Proof. unfold fs_read_exact. reads. Qed.
#[export] Hint Resolve fs_open_reads fs_read_reads fs_metadata_reads fs_try_exists_reads fs_len_reads fs_read_exact_reads : reads.

(** ** What a write leaves of the other objects *)

(** Between [fs0] and [fs] no object file changed, neither what it holds nor what a crash
    may leave of it; and faults do not come from nowhere. *)
Record kept (fs0 fs : Fs) : Prop := mkKept {
  kept_wf : fs_wf fs;
  kept_data : forall p, fp_ext p = "obj" -> data_at fs p = data_at fs0 p;
  kept_read : forall p o, fp_ext p = "obj" -> may_read fs p o -> may_read fs0 p o;
  kept_quiet : fs_faults fs0 = [] -> fs_faults fs = [];
  kept_dirs : forall d, d ∈ fs_dirs fs0 -> d ∈ fs_dirs fs;
  kept_volatile : forall d, d ∈ fs_volatile fs -> d ∈ fs_volatile fs0 \/ d ∉ fs_dirs fs0;
  kept_made : forall d, d ∈ fs_dirs fs -> d ∈ fs_dirs fs0 \/ d ∈ fs_volatile fs;
}.

Lemma kept_refl fs : fs_wf fs -> kept fs fs.
Proof. intros Hwf. constructor; auto. Qed.

Lemma kept_with_faults fs0 fs l : kept fs0 fs -> (fs_faults fs = [] -> l = []) -> kept fs0 (with_faults l fs).
Proof. intros [? ? ? Hq ? ? ?] Hl. constructor; try done; [by apply wf_with_faults|]. cbn. auto. Qed.

(** A run that failed: what stopped it, if nothing failed by itself, is [why]. *)
Definition gave_up (why : Prop) (fs0 fs : Fs) : Prop := kept fs0 fs /\ (fs_faults fs0 = [] -> why).

Lemma gave_up_mono (P Q : Prop) fs0 fs : (P -> Q) -> gave_up P fs0 fs -> gave_up Q fs0 fs.
Proof. intros H [? ?]. split; auto. Qed.

Lemma fault_gave_up why fs0 fs l : kept fs0 fs -> fs_faults fs <> [] -> gave_up why fs0 (with_faults l fs).
Proof. intros Hk Hf. split; [by apply kept_with_faults|]. intros Hq. by rewrite (kept_quiet _ _ Hk Hq) in Hf. Qed.

Lemma sys_cases fs : sys fs = (Ok tt, with_faults (tail (fs_faults fs)) fs) \/
  exists m, sys fs = (Err (FsFailed m), with_faults (tail (fs_faults fs)) fs) /\ fs_faults fs <> [].
Proof.
  unfold sys. destruct fs as [? ? ? ? ? ? [|[m|] rest]]; [by left| |by left]. right. exists m. done.
Qed.

(** The rule for a system call: the state changes only in its faults. *)
Lemma post_sys (P : unit -> Fs -> Prop) (Q : FsError -> Fs -> Prop) fs :
  (forall l, (fs_faults fs = [] -> l = []) -> P tt (with_faults l fs)) ->
  (forall l m, fs_faults fs <> [] -> Q (FsFailed m) (with_faults l fs)) -> post sys P Q fs.
Proof.
  intros HP HQ. unfold post. destruct (sys_cases fs) as [->|(m & -> & Hf)]; [|by apply HQ]. apply HP. by intros ->.
Qed.

Lemma kept_add_dir fs0 fs d : kept fs0 fs -> d ∉ fs_dirs fs -> (forall x, x ∈ ancestors d -> x <> d -> x ∈ fs_dirs fs) ->
  kept fs0 (add_dir d fs).
Proof.
  intros [Hwf Hd Hr Hq Hdir Hvol Hmade] Hnew Hanc. constructor; try done; [by apply wf_add_dir| | | |].
  4: { intros x. cbn [add_dir fs_dirs fs_volatile]. rewrite !elem_of_union, elem_of_singleton. intros [->|Hx]; [auto|]. destruct (Hmade x Hx); auto. }
  2: { intros x Hx. cbn [add_dir fs_dirs]. apply elem_of_union_r. auto. }
  2: { intros x. cbn [add_dir fs_volatile]. rewrite elem_of_union, elem_of_singleton. intros [->|Hx]; [right; auto|auto]. }
  intros p o Hp [(-> & x & Hx & Hv)|He]; [|apply Hr; [done|by right]].
  cbn [add_dir fs_volatile] in Hv. apply elem_of_union in Hv as [Hv|Hv]; [|apply Hr; [done|left; eauto]].
  apply elem_of_singleton in Hv as ->. apply Hr; [done|]. right. exists None. split; [|done]. unfold candidates.
  destruct (fs_entries fs !! p) as [i|] eqn:Ep; [|left]. exfalso. apply Hnew. by eapply (wf_closed _ Hwf), Hx; eapply wf_linked.
Qed.

Lemma kept_set_inode fs0 fs i n q : kept fs0 fs -> fs_entries fs !! q = Some i -> fp_ext q <> "obj" -> kept fs0 (set_inode i n fs).
Proof.
  intros [Hwf Hd Hr Hq Hdir Hvol Hmade] Hi Hext.
  assert (Hne : forall p, fp_ext p = "obj" -> Some i ∈ candidates fs p -> False).
  { intros p Hp Hc. apply Hext. by rewrite (wf_private _ Hwf p q i Hp Hc Hi). }
  constructor; try done.
  - apply wf_set_inode; [by eapply wf_named, entry_candidate|done].
  - intros p Hp. rewrite <- Hd by done. unfold data_at, inode_at. cbn [set_inode fs_entries fs_inodes].
    destruct (fs_entries fs !! p) as [j|] eqn:Ej; [|done]. cbn [mbind option_bind]. rewrite lookup_insert_ne; [done|].
    intros <-. apply (Hne p Hp). by apply entry_candidate.
  - intros p o Hp [Hv|(e & He & Ho)]; apply Hr; try done; [by left|]. right. exists e. split; [done|]. destruct e as [j|]; [|done].
    destruct Ho as (n' & b & Hn' & Hb). exists n', b. split; [|done]. cbn [set_inode fs_inodes] in Hn'. rewrite lookup_insert_ne in Hn'; [done|].
    intros <-. by apply (Hne p).
Qed.

Lemma kept_alloc fs0 fs p now : kept fs0 fs -> fs_entries fs !! p = None -> fp_dir p ∈ fs_dirs fs -> fp_ext p <> "obj" ->
  kept fs0 (alloc p now fs).
Proof.
  intros [Hwf Hd Hr Hq Hdirs Hvol Hmade] Hp Hdir Hext.
  assert (Hold : forall q i, Some i ∈ candidates fs q -> i <> fs_next fs).
  { intros q i Hi ->. apply (wf_named _ Hwf), (wf_next _ Hwf) in Hi. lia. }
  assert (Hpq : forall q, fp_ext q = "obj" -> q <> p) by (by intros q Hq' ->).
  constructor; try done; [by apply wf_alloc| |].
  - intros q Hq'. rewrite <- Hd by done. unfold data_at, inode_at, alloc. rewrite entry_relink, decide_False by auto. cbn [fs_entries relink fs_inodes].
    destruct (fs_entries fs !! q) as [j|] eqn:Ej; [|done]. cbn [mbind option_bind]. rewrite lookup_insert_ne; [done|].
    intros He. eapply Hold; [by eapply entry_candidate|done].
  - intros q o Hq' [Hv|(e & He & Ho)]; apply Hr; try done; [by left|]. unfold alloc in He. rewrite candidates_relink, decide_False in He by auto.
    right. exists e. split; [done|]. destruct e as [j|]; [|done]. destruct Ho as (n' & b & Hn' & Hb). exists n', b. split; [|done].
    cbn [alloc relink fs_inodes] in Hn'. rewrite lookup_insert_ne in Hn'; [done|]. intros Hj. by apply (Hold q j).
Qed.

Lemma kept_unlink fs0 fs p : kept fs0 fs -> fp_ext p <> "obj" -> kept fs0 (relink p None fs).
Proof.
  intros [Hwf Hd Hr Hq Hdir Hvol Hmade] Hext. constructor; try done; [by apply wf_unlink| |].
  - intros q Hq'. rewrite <- Hd by done. unfold data_at, inode_at. rewrite entry_relink, decide_False; [done|]. by intros ->.
  - intros q o Hq' [Hv|(e & He & Ho)]; apply Hr; try done; [by left|]. rewrite candidates_relink, decide_False in He by (by intros ->). right. by exists e.
Qed.

(** ** Staging a file and moving it into place *)

(** [h] is the file [p] open for writing, which holds [data] and is synced or not. *)
Record staged (fs0 fs : Fs) (p : fpath) (h : FileHandle) (data : bytes) (synced : bool) : Prop := mkStaged {
  st_kept : kept fs0 fs;
  st_entry : fs_entries fs !! p = Some (fh_inode h);
  st_inode : exists mtime, fs_inodes fs !! fh_inode h = Some (mkInode data synced mtime);
}.

Lemma staged_with_faults fs0 fs p h data s l : staged fs0 fs p h data s -> (fs_faults fs = [] -> l = []) ->
  staged fs0 (with_faults l fs) p h data s.
Proof. intros [? ? ?] Hl. constructor; try done. by apply kept_with_faults. Qed.

Lemma staged_set_inode fs0 fs p h data s data' s' t pos : staged fs0 fs p h data s -> fp_ext p <> "obj" ->
  staged fs0 (set_inode (fh_inode h) (mkInode data' s' t) fs) p (mkFileHandle (fh_inode h) pos) data' s'.
Proof.
  intros [Hk He Hi] Hext. constructor; [by eapply kept_set_inode|done|]. exists t. cbn [set_inode fs_inodes fh_inode]. by rewrite lookup_insert_eq.
Qed.

Lemma open_truncate_staged fs0 fs p now : kept fs0 fs -> fp_ext p <> "obj" ->
  post (fs_open_truncate p now) (fun h fs' => staged fs0 fs' p h [] false /\ fh_pos h = 0)
    (fun _ => gave_up (fp_dir p ∉ fs_dirs fs) fs0) fs.
Proof.
  intros Hk Hext. unfold fs_open_truncate. apply post_bind, post_sys.
  - intros l Hl. apply (kept_with_faults _ _ l) in Hk; [|done]. apply post_bind, post_gets. case_bool_decide as Hd; cbn [negb]; [|apply post_throw; by split].
    apply post_bind, post_gets. destruct (fs_entries (with_faults l fs) !! p) as [i|] eqn:Ei.
    + apply post_bind, post_modify, post_ret. split; [|done]. constructor; [by eapply kept_set_inode|done|]. exists now. cbn [fh_inode set_inode fs_inodes]. by rewrite lookup_insert_eq.
    + apply post_bind, post_gets, post_bind, post_modify, post_ret. split; [|done]. constructor; [by apply kept_alloc| |].
      * unfold alloc. by rewrite entry_relink, decide_True.
      * exists now. unfold alloc. cbn [relink fs_inodes fh_inode with_faults fs_next]. by rewrite lookup_insert_eq.
  - intros l m Hf. by apply fault_gave_up.
Qed.

Lemma write_all_staged fs0 fs p h data s b now : staged fs0 fs p h data s -> fp_ext p <> "obj" -> b <> [] ->
  post (fs_write_all h b now)
    (fun h' fs' => staged fs0 fs' p h' (overwrite data (fh_pos h) b) false /\ fh_pos h' = fh_pos h + blen b /\ fh_pos h' <= FILE_MAX)
    (fun _ => gave_up (FILE_MAX < fh_pos h + blen b) fs0) fs.
Proof.
  intros Hs Hext Hb. unfold fs_write_all. rewrite bool_decide_eq_false_2 by done. apply post_bind, post_sys.
  - intros l Hl. apply (staged_with_faults _ _ _ _ _ _ l) in Hs; [|done]. destruct (Z.ltb_spec FILE_MAX (fh_pos h + blen b)).
    + apply post_throw. split; [by apply st_kept in Hs|done].
    + apply post_bind, post_modify, post_ret. split; [|by split]. unfold write_at. destruct (st_inode _ _ _ _ _ _ Hs) as [t Ht]. rewrite Ht.
      cbn [fmap option_fmap option_map in_data default]. by eapply staged_set_inode.
  - intros l m Hf. apply fault_gave_up; [by apply st_kept in Hs|done].
Qed.

(** Appending, where an empty write does nothing. *)
Lemma append_staged fs0 fs p h data s b now : staged fs0 fs p h data s -> fp_ext p <> "obj" -> fh_pos h = blen data ->
  post (fs_write_all h b now) (fun h' fs' => (exists s', staged fs0 fs' p h' (data ++ b) s') /\ fh_pos h' = blen (data ++ b) /\ (b <> [] -> blen (data ++ b) <= FILE_MAX))
    (fun _ => gave_up (FILE_MAX < blen data + blen b) fs0) fs.
Proof.
  intros Hs Hext Hpos. destruct (decide (b = [])) as [->|Hb].
  - unfold fs_write_all. rewrite bool_decide_eq_true_2 by done. apply post_ret. rewrite app_nil_r. split; [eauto|]. by split.
  - eapply post_mono; [| |by apply (write_all_staged fs0 fs p h data s b now)].
    + intros h' fs' (Hs' & Hp' & Hm). rewrite Hpos, overwrite_end in Hs'. rewrite blen_app. split_and!; [eauto|lia|lia].
    + intros e fs'. by rewrite Hpos.
Qed.

Lemma sync_data_staged fs0 fs p h data s : staged fs0 fs p h data s -> fp_ext p <> "obj" ->
  post (fs_sync_data h) (fun _ fs' => staged fs0 fs' p h data true) (fun _ => gave_up False fs0) fs.
Proof.
  intros Hs Hext. unfold fs_sync_data. apply post_bind, post_sys.
  - intros l Hl. apply (staged_with_faults _ _ _ _ _ _ l) in Hs; [|done]. apply post_modify. unfold mark_synced.
    destruct (st_inode _ _ _ _ _ _ Hs) as [t Ht]. rewrite Ht. cbn [in_data in_mtime].
    pose proof (staged_set_inode _ _ _ _ _ _ data true t (fh_pos h) Hs Hext) as H'. by destruct h.
  - intros l m Hf. apply fault_gave_up; [by apply st_kept in Hs|done].
Qed.

(** [q] was replaced by a file that holds [data], and nothing else changed. *)
Record replaced (fs0 fs : Fs) (q : fpath) (data : bytes) (synced : bool) : Prop := mkReplaced {
  rp_wf : fs_wf fs;
  rp_quiet : fs_faults fs0 = [] -> fs_faults fs = [];
  rp_inode : exists mtime, inode_at fs q = Some (mkInode data synced mtime);
  rp_data : forall p, fp_ext p = "obj" -> p <> q -> data_at fs p = data_at fs0 p;
  rp_read : forall p o, fp_ext p = "obj" -> p <> q -> may_read fs p o -> may_read fs0 p o;
  rp_crash : forall o, may_read fs q o -> may_read fs0 q o \/ exists b, o = Some b /\ (synced = true -> b = data);
  rp_volatile : forall d, d ∈ fs_volatile fs -> d ∈ fs_volatile fs0 \/ d ∉ fs_dirs fs0;
  rp_made : fp_dir q ∈ fs_dirs fs0 \/ fp_dir q ∈ fs_volatile fs;
}.

Lemma rename_replaced fs0 fs p h data s q : staged fs0 fs p h data s -> fp_ext p <> "obj" -> fp_ext q = "obj" -> fp_dir q = fp_dir p ->
  post (fs_rename p q) (fun _ fs' => replaced fs0 fs' q data s) (fun _ => gave_up False fs0) fs.
Proof.
  intros Hs Hpe Hqe Hdir. unfold fs_rename. apply post_bind, post_sys.
  2: { intros l m Hf. apply fault_gave_up; [by apply st_kept in Hs|done]. }
  intros l Hl. apply (staged_with_faults _ _ _ _ _ _ l) in Hs; [|done].
  revert Hs. generalize (with_faults l fs). clear fs l Hl. intros fs [Hk He [t Ht]]. pose proof (kept_wf _ _ Hk) as Hwf.
  apply post_bind, post_gets. rewrite He. apply post_bind, post_lift; [|done]. intros i [= <-]. cbn [ok_or].
  apply post_bind, post_gets. assert (Hd : fp_dir q ∈ fs_dirs fs) by (rewrite Hdir; by eapply wf_linked). rewrite bool_decide_eq_true_2 by done. cbn [negb].
  apply post_modify. set (i := fh_inode h) in *. set (fs' := relink p None (relink q (Some i) fs)).
  assert (Hpq : p <> q) by (intros ->; by apply Hpe).
  assert (Hoth : forall x, fp_ext x = "obj" -> x <> q -> candidates fs' x = candidates fs x /\ fs_entries fs' !! x = fs_entries fs !! x).
  { intros x Hx Hxq. assert (x <> p) by (by intros ->). unfold fs'. rewrite !candidates_relink, !entry_relink, !decide_False by done. done. }
  constructor; [| | | | | |apply (kept_volatile _ _ Hk)|by apply (kept_made _ _ Hk)].
  - by apply wf_rename.
  - apply (kept_quiet _ _ Hk).
  - exists t. unfold inode_at, fs'. rewrite !entry_relink, decide_False, decide_True by done. cbn [mbind option_bind]. exact Ht.
  - intros x Hx Hxq. rewrite <- (kept_data _ _ Hk) by done. unfold data_at, inode_at. by rewrite (proj2 (Hoth x Hx Hxq)).
  - intros x o Hx Hxq [Hv|(e & Hin & Ho)]; apply (kept_read _ _ Hk); try done; [by left|right]. exists e. by rewrite (proj1 (Hoth x Hx Hxq)) in Hin.
  - intros o [Hv|(e & Hin & Ho)]; [left; apply (kept_read _ _ Hk); [done|by left]|].
    unfold fs' in Hin. rewrite !candidates_relink, decide_False, decide_True in Hin by done. apply elem_of_cons in Hin as [->|Hin].
    + right. destruct Ho as (n & b & Hn & -> & Hb). cbn [fs' relink fs_inodes] in Hn. rewrite Ht in Hn. injection Hn as <-. eauto.
    + left. apply (kept_read _ _ Hk); [done|]. right. by exists e.
Qed.

(** A directory that cannot be synced is passed over. *)
Lemma sync_dir_replaced fs0 fs q data s : replaced fs0 fs q data s -> fp_dir q <> [] ->
  replaced fs0 (sync_dir (fp_dir q) fs) q data s.
Proof.
  intros [Hwf Hq Hi Hd Hr Hc Hvol Hmade] Hne. set (d := fp_dir q) in *.
  assert (Hmay : forall p o, may_read (sync_dir d fs) p o -> may_read fs p o).
  { intros p o [(-> & x & Hx & Hv)|(e & He & Ho)].
    - left. split; [done|]. exists x. split; [done|]. cbn [sync_dir fs_volatile] in Hv. by apply elem_of_filter in Hv as [_ Hv].
    - right. exists e. split; [|done]. unfold candidates, sync_dir in *. cbn [fs_entries fs_older] in He. apply elem_of_cons in He as [->|He]; [left|right].
      rewrite map_lookup_filter in He. destruct (fs_older fs !! p); [|by apply elem_of_nil in He]. cbn in *. revert He. destruct (guard _); cbn; [done|by intros ?%elem_of_nil]. }
  constructor; try done; [by apply wf_sync_dir| | | |].
  - intros p o Hp Hpq Hm. apply Hr; auto.
  - intros o Hm. apply Hc; auto.
  - intros x. cbn [sync_dir fs_volatile]. intros [_ Hx]%elem_of_filter. auto.
  - fold d. cbn [sync_dir fs_volatile]. rewrite elem_of_filter. destruct Hmade as [?|Hv]; [by left|right]. split; [|done].
    unfold parent_dir. intros He. apply (f_equal length) in He. rewrite length_take in He. destruct d; [done|cbn in He; lia].
Qed.

Lemma replaced_with_faults fs0 fs q data s l : replaced fs0 fs q data s -> (fs_faults fs = [] -> l = []) -> replaced fs0 (with_faults l fs) q data s.
Proof. intros [? Hq ? ? ? ? ? ?] Hl. constructor; try done; [by apply wf_with_faults|]. cbn. auto. Qed.

(** After the directory is synced, and with the directories above it safe, only the new
    contents can come back. *)
Lemma synced_for_good fs q data t :
  inode_at fs q = Some (mkInode data true t) -> (forall d, d ∈ ancestors (fp_dir q) -> d ∉ fs_volatile fs) ->
  forall o, may_read (sync_dir (fp_dir q) fs) q o -> o = Some data.
Proof.
  intros Hi Hv o [(_ & d & Hd & Hin)|(e & He & Ho)].
  - cbn [sync_dir fs_volatile] in Hin. apply elem_of_filter in Hin as [_ Hin]. by destruct (Hv d Hd).
  - unfold candidates, sync_dir in He. cbn [fs_entries fs_older] in He. rewrite map_lookup_filter in He.
    assert (Hnil : default [] (fs_older fs !! q ≫= fun x => guard (fp_dir q <> fp_dir q) ;; Some x) = []).
    { destruct (fs_older fs !! q); [|done]. cbn. by destruct (guard _). }
    cbn [fst] in He. rewrite Hnil in He. apply list_elem_of_singleton in He as ->. unfold inode_at in Hi.
    destruct (fs_entries fs !! q) as [i|]; [|done]. cbn [mbind option_bind] in Hi. destruct Ho as (n & b & Hn & -> & Hb).
    cbn [sync_dir fs_inodes] in Hn. rewrite Hi in Hn. injection Hn as <-. by rewrite Hb.
Qed.

Lemma ancestors_take n d x : x ∈ ancestors (take n d) -> exists k, (k <= n)%nat /\ x = take k d.
Proof.
  intros (k & -> & _)%list_elem_of_fmap. exists (k `min` n)%nat. split; [lia|]. by rewrite take_take.
Qed.

Lemma create_dirs_loop fs0 d m : forall k fs, (k + m = S (length d))%nat -> kept fs0 fs ->
  (forall j, (j < k)%nat -> take j d ∈ fs_dirs fs) ->
  post (for_each (fun x _ =>
      there ← gets (fun fs => bool_decide (x ∈ fs_dirs fs));
      if there : bool then mret tt else _ ← sys; modify (add_dir x)) ((fun n => take n d) <$> seq k m) tt)
    (fun _ fs' => kept fs0 fs' /\ d ∈ fs_dirs fs') (fun _ => gave_up False fs0) fs.
Proof.
  induction m as [|m IH]; intros k fs Hkm Hk Hdone; cbn [seq fmap list_fmap for_each].
  { apply post_ret. split; [done|]. specialize (Hdone (length d) ltac:(lia)). by rewrite firstn_all in Hdone. }
  apply post_bind, post_bind, post_gets. case_bool_decide as Hx.
  - apply post_ret, IH; [lia|done|]. intros j Hj. destruct (decide (j = k)) as [->|]; [done|apply Hdone; lia].
  - apply post_bind, post_sys; [|intros l m' Hf; by apply fault_gave_up].
    intros l Hl. apply post_modify. set (fs1 := add_dir (take k d) (with_faults l fs)).
    assert (Hk1 : kept fs0 fs1).
    { apply kept_add_dir; [by apply kept_with_faults|done|]. intros x (j & Hj & ->)%ancestors_take Hne. apply Hdone.
      destruct (decide (j = k)) as [->|]; [done|lia]. }
    apply (IH (S k) fs1); [lia|done|]. intros j Hj. cbn [fs1 add_dir fs_dirs]. destruct (decide (j = k)) as [->|]; [by apply elem_of_union_l, elem_of_singleton|].
      apply elem_of_union_r, Hdone. lia.
Qed.

Lemma create_dir_all_kept fs0 fs d : kept fs0 fs ->
  post (fs_create_dir_all d)
    (fun _ fs' => kept fs0 fs' /\ d ∈ fs_dirs fs') (fun _ => gave_up False fs0) fs.
Proof.
  intros Hk. unfold fs_create_dir_all. apply post_bind, post_sys.
  - intros l Hl. apply (create_dirs_loop fs0 d (S (length d)) 0 (with_faults l fs)); [lia|by apply kept_with_faults|lia].
  - intros l m Hf. by apply fault_gave_up.
Qed.

(** Only the new contents can come back, if the directories above were there and safe. *)
Definition settled (fs0 fs : Fs) (q : fpath) (data : bytes) : Prop :=
  (forall d, d ∈ ancestors (fp_dir q) -> d ∈ fs_dirs fs0 /\ d ∉ fs_volatile fs0) -> forall o, may_read fs q o -> o = Some data.

Lemma sync_dir_settled fs0 fs q data : replaced fs0 fs q data true -> settled fs0 (sync_dir (fp_dir q) fs) q data.
Proof.
  intros Hr Hsafe o. destruct (rp_inode _ _ _ _ _ Hr) as [t Ht]. apply (synced_for_good _ _ _ t); [done|].
  intros d Hd Hv. destruct (Hsafe d Hd) as [Hin Hn]. by destruct (rp_volatile _ _ _ _ _ Hr d Hv).
Qed.

(** *** Cleaning up *)

Lemma may_read_unlink fs p q o : q <> p -> may_read (relink p None fs) q o -> may_read fs q o.
Proof. intros Hne [Hv|(e & He & Ho)]; [by left|right]. exists e. by rewrite candidates_relink, decide_False in He. Qed.

Lemma replaced_unlink fs0 fs q data s p : replaced fs0 fs q data s -> fp_ext p <> "obj" -> fp_ext q = "obj" -> replaced fs0 (relink p None fs) q data s.
Proof.
  intros [Hwf Hq Hi Hd Hr Hc Hv Hm] Hp Hqe. assert (Hne : forall x, fp_ext x = "obj" -> x <> p) by (by intros x Hx ->).
  assert (Hin : forall x, fp_ext x = "obj" -> inode_at (relink p None fs) x = inode_at fs x).
  { intros x Hx. unfold inode_at. rewrite entry_relink, decide_False by auto. done. }
  constructor; try done; [by apply wf_unlink| | | |].
  - by rewrite Hin.
  - intros x Hx Hxq. unfold data_at. rewrite Hin by done. by apply Hd.
  - intros x o Hx Hxq Hmr. apply Hr; try done. eapply may_read_unlink; [|done]. auto.
  - intros o Hmr. apply Hc. eapply may_read_unlink; [|done]. auto.
Qed.

(** What a removal of a file that is no object leaves, whether it succeeds or not. *)
Lemma remove_file_cases p fs : exists l, (fs_faults fs = [] -> l = []) /\
  (snd (fs_remove_file p fs) = with_faults l fs \/ snd (fs_remove_file p fs) = relink p None (with_faults l fs)).
Proof.
  unfold fs_remove_file, mbind, prog_bind. destruct (sys_cases fs) as [->|(m & -> & Hf)]; (exists (tail (fs_faults fs)); split; [by intros ->|]); [|by left].
  unfold gets, lift_res. cbn [with_faults fs_entries]. destruct (fs_entries fs !! p); [by right|by left].
Qed.

Lemma remove_file_kept fs0 fs p : kept fs0 fs -> fp_ext p <> "obj" -> kept fs0 (snd (fs_remove_file p fs)).
Proof.
  intros Hk Hp. destruct (remove_file_cases p fs) as (l & Hl & [->| ->]); [|apply kept_unlink; [|done]]; by apply kept_with_faults.
Qed.

Lemma remove_file_replaced fs0 fs q data s p : replaced fs0 fs q data s -> fp_ext p <> "obj" -> fp_ext q = "obj" ->
  replaced fs0 (snd (fs_remove_file p fs)) q data s /\ (settled fs0 fs q data -> settled fs0 (snd (fs_remove_file p fs)) q data).
Proof.
  intros Hr Hp Hq. destruct (remove_file_cases p fs) as (l & Hl & [->| ->]).
  - split; [by apply replaced_with_faults|done].
  - split; [apply replaced_unlink; [by apply replaced_with_faults|done|done]|]. intros Hs Hsafe o Hm. apply (Hs Hsafe).
    apply may_read_unlink in Hm; [done|]. by intros ->.
Qed.
