(* ===== verification/FsView.v ===== *)
(** * Files by their contents

    A file system without faults seen as a map from paths to bytes: what each call of [Posix]
    does to that map.  The offline tools (node key rotation, the keystore) are verified against
    this view; it also adds the two calls only they make, the renaming of a directory and the
    opening of a file for writing in place. *)

From S2P Require Import Prelude Effects Sink Posix.

(** ** Renaming a directory *)

(** The path with [old] and [new] in front exchanged. *)
Definition swap_dir (old new d : list string) : list string :=
  if below old d then new ++ drop (length old) d else if below new d then old ++ drop (length new) d else d.
Definition swap_path (old new : list string) (p : fpath) : fpath := mkPath (swap_dir old new (fp_dir p)) (fp_stem p) (fp_ext p).

(** Everything below [old] is below [new] instead, where nothing is.  Until the directory
    above is synced every path below either may still name what it did. *)
Definition move_dir (old new : list string) (fs : Fs) : Fs :=
  let f := swap_path old new in
  let touched := filter (fun p => below old (fp_dir p) || below new (fp_dir p) = true)
                   (dom (fs_entries fs) ∪ dom (fs_older fs) : gset fpath) in
  mkFs (kmap f (fs_entries fs))
    (set_to_map (fun q => (q, candidates fs q ++ default [] (fs_older fs !! f q))) (touched ∪ set_map f touched) ∪ fs_older fs)
    (fs_inodes fs) (fs_next fs) (set_map (swap_dir old new) (fs_dirs fs)) ({[new]} ∪ set_map (swap_dir old new) (fs_volatile fs)) (fs_faults fs).

(** [rename] of a directory to a name that is not taken *)
Definition fs_rename_dir (old new : list string) : fsop unit :=
  _ ← sys;
  there ← gets (fun fs => bool_decide (old ∈ fs_dirs fs /\ parent_dir new ∈ fs_dirs fs));
  if negb there then throw NoEntry else
  taken ← gets (fun fs => bool_decide (new ∈ fs_dirs fs));
  if taken : bool then throw (FsFailed "Directory not empty (os error 39)") else
  modify (move_dir old new).

(** [OpenOptions::read(true).write(true).open] of a file that is there *)
Definition fs_open_rw (p : fpath) : fsop FileHandle :=
  _ ← sys; o ← gets (fun fs => fs_entries fs !! p); i ← lift_res (ok_or o NoEntry); mret (mkFileHandle i 0).

(** ** What a file system without faults keeps *)

Record fs_ok (fs : Fs) : Prop := mkFsOk {
  fo_quiet : fs_faults fs = [];
  fo_next : forall i, is_Some (fs_inodes fs !! i) -> (i < fs_next fs)%nat;
  fo_named : forall p i, fs_entries fs !! p = Some i -> is_Some (fs_inodes fs !! i);
  fo_inj : forall p q i, fs_entries fs !! p = Some i -> fs_entries fs !! q = Some i -> p = q;
  fo_linked : forall p i, fs_entries fs !! p = Some i -> fp_dir p ∈ fs_dirs fs;
  fo_closed : forall d x, d ∈ fs_dirs fs -> below x d = true -> x ∈ fs_dirs fs;
}.

Lemma wf_ok fs : fs_wf fs -> fs_faults fs = [] -> fs_ok fs.
Proof.
  intros [Hn Hnm Hi Hp Hl Hc] Hq. constructor; try done.
  - intros p i E. apply (Hnm p), entry_candidate, E.
  - intros d x Hd Hx. apply (Hc d); [done|]. by apply elem_of_ancestors.
Qed.

(** [fs'] holds the bytes [v] says and the directories [D]. *)
Record shows (fs' : Fs) (v : fpath -> option bytes) (D : gset (list string)) : Prop := mkShows {
  sh_ok : fs_ok fs';
  sh_data : forall q, data_at fs' q = v q;
  sh_dirs : fs_dirs fs' = D;
}.

Lemma sys_ok fs : fs_ok fs -> sys fs = (Ok tt, fs).
Proof. intros [Hq _ _ _ _ _]. unfold sys. by rewrite Hq. Qed.

Lemma data_entry fs p b : data_at fs p = Some b -> exists i n, fs_entries fs !! p = Some i /\ fs_inodes fs !! i = Some n /\ in_data n = b.
Proof.
  unfold data_at, inode_at. destruct (fs_entries fs !! p) as [i|]; [|done]. cbn. destruct (fs_inodes fs !! i) as [n|] eqn:E; [|done].
  intros [= <-]. eauto.
Qed.

Lemma data_none fs p : fs_ok fs -> data_at fs p = None <-> fs_entries fs !! p = None.
Proof.
  intros Hok. unfold data_at, inode_at. destruct (fs_entries fs !! p) as [i|] eqn:E; [|done]. cbn.
  destruct (fo_named _ Hok p i E) as [n ->]. split; by intros.
Qed.

(** *** Writing *)

Lemma set_inode_shows fs p i b s t : fs_ok fs -> fs_entries fs !! p = Some i ->
  shows (set_inode i (mkInode b s t) fs) (fun q => if decide (q = p) then Some b else data_at fs q) (fs_dirs fs).
Proof.
  intros Hok Hp. split; [| |done].
  - destruct Hok as [Hq Hn Hnm Hi Hl Hc]. constructor; try done; cbn [set_inode fs_inodes fs_next fs_entries].
    + intros j. rewrite lookup_insert_is_Some'. intros [<-|?]; [|auto]. apply Hn. by apply (Hnm p).
    + intros q j E. rewrite lookup_insert_is_Some'. right. by apply (Hnm q).
  - intros q. unfold data_at, inode_at. cbn [set_inode fs_inodes fs_entries]. case_decide as Hqp.
    + subst q. rewrite Hp. cbn. by rewrite lookup_insert_eq.
    + destruct (fs_entries fs !! q) as [j|] eqn:E; [|done]. cbn. rewrite lookup_insert_ne; [done|]. intros <-. apply Hqp. by apply (fo_inj _ Hok q p i).
Qed.

Lemma alloc_shows fs p now : fs_ok fs -> fs_entries fs !! p = None -> fp_dir p ∈ fs_dirs fs ->
  shows (alloc p now fs) (fun q => if decide (q = p) then Some [] else data_at fs q) (fs_dirs fs).
Proof.
  intros [Hq Hn Hnm Hi Hl Hc] Hp Hd. split; [| |done].
  - constructor; try done; unfold alloc; cbn [relink fs_inodes fs_next fs_entries].
    + intros j. rewrite lookup_insert_is_Some'. intros [<-|?%Hn]; lia.
    + intros q i E. rewrite lookup_insert_is_Some'. destruct (decide (q = p)) as [->|Hne]; [rewrite lookup_partial_alter_eq in E; injection E; auto|].
      rewrite lookup_partial_alter_ne in E by done. right. by apply (Hnm q).
    + intros q q' i E E'. destruct (decide (q = p)) as [->|Hne], (decide (q' = p)) as [->|Hne']; try done;
        rewrite ?lookup_partial_alter_eq in *; rewrite ?lookup_partial_alter_ne in * by done.
      * injection E as <-. apply Hnm, Hn in E'. lia.
      * injection E' as <-. apply Hnm, Hn in E. lia.
      * by apply (Hi q q' i).
    + intros q i. destruct (decide (q = p)) as [->|Hne]; [done|]. rewrite lookup_partial_alter_ne by done. apply Hl.
  - intros q. unfold data_at, inode_at, alloc. cbn [relink fs_inodes fs_entries]. case_decide as Hqp.
    + subst q. rewrite lookup_partial_alter_eq. cbn. by rewrite lookup_insert_eq.
    + rewrite lookup_partial_alter_ne by done. destruct (fs_entries fs !! q) as [j|] eqn:E; [|done]. cbn. rewrite lookup_insert_ne; [done|].
      intros <-. apply Hnm, Hn in E. lia.
Qed.

Lemma fs_open_truncate_ok fs p now : fs_ok fs -> fp_dir p ∈ fs_dirs fs ->
  exists fs1 i, fs_open_truncate p now fs = (Ok (mkFileHandle i 0), fs1) /\ fs_entries fs1 !! p = Some i /\
    shows fs1 (fun q => if decide (q = p) then Some [] else data_at fs q) (fs_dirs fs).
Proof.
  intros Hok Hd. unfold fs_open_truncate, mbind, prog_bind. rewrite sys_ok by done. unfold gets, modify. rewrite bool_decide_eq_true_2 by done. cbn [negb].
  destruct (fs_entries fs !! p) as [i|] eqn:E; eexists _, _; (split; [done|]).
  - split; [done|]. by apply set_inode_shows.
  - split; [unfold alloc; cbn; by rewrite lookup_partial_alter_eq|]. by apply alloc_shows.
Qed.

Lemma fs_write_ok fs p b now : fs_ok fs -> fp_dir p ∈ fs_dirs fs -> blen b <= FILE_MAX ->
  exists fs', fs_write p b now fs = (Ok tt, fs') /\ shows fs' (fun q => if decide (q = p) then Some b else data_at fs q) (fs_dirs fs).
Proof.
  intros Hok Hd Hb.
  destruct (fs_open_truncate_ok fs p now Hok Hd) as (fs1 & i & E1 & Ei & [Hok1 Hv1 Hd1]). unfold fs_write. erewrite prog_bind_run by exact E1.
  unfold fs_write_all, mbind, prog_bind. case_bool_decide as Hnil; [subst b; by exists fs1|].
  rewrite sys_ok by done. cbn [fh_pos fh_inode]. rewrite (proj2 (Z.ltb_ge _ _)) by lia. unfold modify, mret, prog_ret. eexists. split; [done|]. unfold write_at.
  assert (Hold : default [] (in_data <$> fs_inodes fs1 !! i) = []).
  { specialize (Hv1 p). rewrite decide_True in Hv1 by done. apply data_entry in Hv1 as (j & n & Ej & En & Hn). assert (j = i) as -> by congruence. by rewrite En. }
  rewrite Hold. change 0 with (blen ([] : bytes)). rewrite overwrite_end. cbn [app]. destruct (set_inode_shows fs1 p i b false now Hok1 Ei) as [H1 H2 H3]. split; [done| |by rewrite H3].
  intros q. rewrite H2. case_decide; [done|]. rewrite Hv1, decide_False by done. done.
Qed.

(** *** Names *)

Lemma unlink_ok fs p : fs_ok fs -> shows (relink p None fs) (fun q => if decide (q = p) then None else data_at fs q) (fs_dirs fs).
Proof.
  intros [Hq Hn Hnm Hi Hl Hc]. split; [| |done].
  - constructor; try done; intros *; rewrite ?entry_relink; repeat case_decide; try done; eauto.
  - intros q. unfold data_at, inode_at. rewrite entry_relink. by case_decide.
Qed.

Lemma fs_remove_file_ok fs p b : fs_ok fs -> data_at fs p = Some b ->
  exists fs', fs_remove_file p fs = (Ok tt, fs') /\ shows fs' (fun q => if decide (q = p) then None else data_at fs q) (fs_dirs fs).
Proof.
  intros Hok (i & n & Ei & _)%data_entry. unfold fs_remove_file, mbind, prog_bind. rewrite sys_ok by done. unfold gets, lift_res, modify. rewrite Ei. cbn [ok_or].
  eexists. split; [done|]. by apply unlink_ok.
Qed.

Lemma fs_rename_ok fs a b c : fs_ok fs -> data_at fs a = Some c -> fp_dir b ∈ fs_dirs fs -> a <> b ->
  exists fs', fs_rename a b fs = (Ok tt, fs') /\
    shows fs' (fun q => if decide (q = b) then Some c else if decide (q = a) then None else data_at fs q) (fs_dirs fs).
Proof.
  intros Hok Ha Hd Hab. pose proof Ha as (i & n & Ei & En & Hn)%data_entry. unfold fs_rename, mbind, prog_bind. rewrite sys_ok by done. unfold gets, lift_res, modify. rewrite Ei. cbn [ok_or].
  rewrite bool_decide_eq_true_2 by done. cbn [negb]. eexists. split; [done|]. destruct Hok as [Hq Hnx Hnm Hi Hl Hc].
  assert (He : forall q, fs_entries (relink a None (relink b (Some i) fs)) !! q = if decide (q = b) then Some i else if decide (q = a) then None else fs_entries fs !! q).
  { intros q. rewrite !entry_relink. repeat case_decide; try done. congruence. }
  split; [| |done].
  - constructor; try done.
    + intros q j. rewrite He. repeat case_decide; [intros [= <-]|done|apply Hnm]. by apply (Hnm a).
    + intros q q' j. rewrite !He. repeat case_decide; try done; try congruence; [intros [= <-] E|intros E [= <-]|apply Hi]; exfalso; [apply (Hi a q' i) in E|apply (Hi q a i) in E]; congruence.
    + intros q j. rewrite He. repeat case_decide; subst; try done. apply Hl.
  - intros q. unfold data_at at 1, inode_at. rewrite He. repeat case_decide; try done. cbn. by rewrite En, <- Hn.
Qed.

(** *** Directories *)

Lemma below_take x d : below x d = true -> exists k, (k <= length d)%nat /\ x = take k d.
Proof.
  intros Hb%elem_of_ancestors. apply list_elem_of_fmap in Hb as (k & -> & Hk%elem_of_seq). exists k. split; [lia|done].
Qed.

Lemma add_dir_shows fs d v : (forall x, below x d = true -> x <> d -> x ∈ fs_dirs fs) -> shows fs v (fs_dirs fs) -> shows (add_dir d fs) v ({[d]} ∪ fs_dirs fs).
Proof.
  intros Hup [[Hq Hn Hnm Hi Hl Hc] Hv _]. split; [|done|done]. constructor; try done; cbn [add_dir fs_dirs fs_entries].
  - intros p i E. apply elem_of_union_r. by apply (Hl p i).
  - intros y x [->%elem_of_singleton|Hy]%elem_of_union Hx.
    + destruct (decide (x = d)) as [->|]; [by apply elem_of_union_l, elem_of_singleton|]. by apply elem_of_union_r, Hup.
    + apply elem_of_union_r. by apply (Hc y).
Qed.

Lemma make_dirs_ok d v m : forall k fs, (k + m = S (length d))%nat -> shows fs v (fs_dirs fs) ->
  (forall j, (j < k)%nat -> take j d ∈ fs_dirs fs) ->
  exists fs', for_each (fun x _ =>
      there ← gets (fun fs => bool_decide (x ∈ fs_dirs fs));
      if there : bool then mret tt else _ ← sys; modify (add_dir x)) ((fun n => take n d) <$> seq k m) tt fs = (Ok tt, fs') /\
    shows fs' v (fs_dirs fs ∪ list_to_set ((fun n => take n d) <$> seq k m)).
Proof.
  induction m as [|m IH]; intros k fs Hkm Hs Hdone; cbn [seq fmap list_fmap for_each list_to_set].
  { exists fs. split; [done|]. by rewrite (right_id_L ∅ (∪)). }
  unfold mbind at 1, prog_bind at 1, mbind at 1, prog_bind at 1, gets at 1. case_bool_decide as Hx.
  - destruct (IH (S k) fs) as (fs' & E & Hs'); [lia|done| |].
    { intros j Hj. destruct (decide (j = k)) as [->|]; [done|apply Hdone; lia]. }
    exists fs'. split; [exact E|]. destruct Hs' as [H1 H2 H3]. split; [done|done|]. rewrite H3, (assoc_L (∪)). f_equal. rewrite (comm_L (∪)). symmetry. apply subseteq_union_L. by apply singleton_subseteq_l.
  - unfold mbind at 1, prog_bind at 1. rewrite sys_ok by apply (sh_ok _ _ _ Hs). unfold modify at 1.
    assert (Hs1 : shows (add_dir (take k d) fs) v (fs_dirs (add_dir (take k d) fs))).
    { apply add_dir_shows; [|done]. intros x Hbx Hne. apply below_take in Hbx as (j & Hj & ->). rewrite take_take in *. apply Hdone. rewrite length_take in Hj.
      destruct (decide (j = k)) as [->|]; [|lia]. exfalso. apply Hne. f_equal. lia. }
    destruct (IH (S k) (add_dir (take k d) fs)) as (fs' & E & Hs'); [lia|exact Hs1| |].
    { intros j Hj. cbn [add_dir fs_dirs]. destruct (decide (j = k)) as [->|]; [by apply elem_of_union_l, elem_of_singleton|]. apply elem_of_union_r, Hdone. lia. }
    exists fs'. split; [exact E|]. destruct Hs' as [H1 H2 H3]. split; [done|done|]. rewrite H3. cbn [add_dir fs_dirs]. by rewrite (assoc_L (∪)), (comm_L (∪) (fs_dirs fs)).
Qed.

Lemma fs_create_dir_all_ok fs d : fs_ok fs ->
  exists fs', fs_create_dir_all d fs = (Ok tt, fs') /\ shows fs' (data_at fs) (fs_dirs fs ∪ list_to_set (ancestors d)).
Proof.
  intros Hok. unfold fs_create_dir_all, mbind at 1, prog_bind at 1. rewrite sys_ok by done.
  apply (make_dirs_ok d (data_at fs) (S (length d)) 0 fs); [lia|by split|lia].
Qed.

(** *** Moving a directory *)

Section move.
Context (base : list string) (a b : string) (Hab : a <> b).
Abbreviation old := (base ++ [a]).
Abbreviation new := (base ++ [b]).

Lemma below_app x r : below x (x ++ r) = true.
Proof using. induction x as [|y x IH]; [done|]. cbn. by rewrite bool_decide_eq_true_2, IH. Qed.
Lemma below_inv x d : below x d = true -> exists r, d = x ++ r.
Proof using. intros (k & _ & ->)%below_take. exists (drop k d). by rewrite take_drop. Qed.

Lemma not_both r r' : old ++ r <> new ++ r'.
Proof using Hab. rewrite <- !app_assoc. intros E%app_inv_head. cbn in E. congruence. Qed.

Lemma swap_old r : swap_dir old new (old ++ r) = new ++ r.
Proof using. unfold swap_dir. by rewrite below_app, drop_app_length. Qed.
Lemma swap_new r : swap_dir old new (new ++ r) = old ++ r.
Proof using Hab.
  unfold swap_dir. destruct (below old (new ++ r)) eqn:E; [apply below_inv in E as [r' E]; by destruct (not_both r' r)|].
  by rewrite below_app, drop_app_length.
Qed.
Lemma swap_new_self : swap_dir old new new = old.
Proof using Hab. pose proof (swap_new []) as E. by rewrite !app_nil_r in E. Qed.
Lemma swap_other d : below old d = false -> below new d = false -> swap_dir old new d = d.
Proof using. unfold swap_dir. by intros -> ->. Qed.

Lemma swap_dir_invol d : swap_dir old new (swap_dir old new d) = d.
Proof using Hab.
  destruct (below old d) eqn:E; [apply below_inv in E as [r ->]; by rewrite swap_old, swap_new|].
  destruct (below new d) eqn:E'; [apply below_inv in E' as [r ->]; by rewrite swap_new, swap_old|]. rewrite (swap_other d) by done. by apply swap_other.
Qed.
Lemma swap_path_invol p : swap_path old new (swap_path old new p) = p.
Proof using Hab. destruct p. unfold swap_path. cbn. by rewrite swap_dir_invol. Qed.
#[local] Instance swap_dir_inj : Inj (=) (=) (swap_dir old new).
Proof using Hab. intros x y E. by rewrite <- (swap_dir_invol x), E, swap_dir_invol. Qed.
#[local] Instance swap_path_inj : Inj (=) (=) (swap_path old new).
Proof using Hab. intros x y E. by rewrite <- (swap_path_invol x), E, swap_path_invol. Qed.

Lemma entry_move fs q : fs_entries (move_dir old new fs) !! q = fs_entries fs !! swap_path old new q.
Proof using Hab. unfold move_dir. cbn [fs_entries]. rewrite <- (swap_path_invol q) at 1. apply (lookup_kmap (swap_path old new)). Qed.

Lemma dir_move fs d : d ∈ fs_dirs (move_dir old new fs) <-> swap_dir old new d ∈ fs_dirs fs.
Proof using Hab.
  unfold move_dir. cbn [fs_dirs]. rewrite elem_of_map. split; [intros (x & -> & Hx); by rewrite swap_dir_invol|].
  intros Hx. exists (swap_dir old new d). by rewrite swap_dir_invol.
Qed.

(** With nothing at [new], what was below [old] is below [new] and the rest is as it was. *)
Lemma fs_rename_dir_ok fs : fs_ok fs -> old ∈ fs_dirs fs -> new ∉ fs_dirs fs ->
  exists fs', fs_rename_dir old new fs = (Ok tt, fs') /\
    shows fs' (fun q => data_at fs (swap_path old new q)) (fs_dirs fs') /\ (forall d, d ∈ fs_dirs fs' <-> swap_dir old new d ∈ fs_dirs fs).
Proof using Hab.
  intros Hok Ho Hn. pose proof Hok as [Hq Hnx Hnm Hi Hl Hc]. unfold fs_rename_dir, mbind, prog_bind. rewrite sys_ok by done. unfold gets, modify.
  assert (Hbase : base ∈ fs_dirs fs) by (apply (Hc old); [done|apply below_app]).
  assert (Hp : parent_dir new = base) by (unfold parent_dir; rewrite length_app; cbn; replace (length base + 1 - 1)%nat with (length base) by lia; apply take_app_length).
  rewrite bool_decide_eq_true_2 by (by rewrite Hp). cbn [negb]. rewrite bool_decide_eq_false_2 by done.
  eexists. split; [done|]. split; [|by intros d; apply dir_move].
  assert (Hnone : forall r, new ++ r ∉ fs_dirs fs) by (intros r Hr; apply Hn, (Hc (new ++ r)); [done|apply below_app]).
  split; [|intros q; unfold data_at, inode_at; by rewrite entry_move|done]. constructor; try done.
  - intros p i. rewrite entry_move. apply Hnm.
  - intros p q i. rewrite !entry_move. intros E E'. by apply (inj (swap_path old new)), (Hi _ _ i).
  - intros p i. rewrite entry_move, dir_move. intros E%Hl. exact E.
  - intros d x. rewrite !dir_move. intros Hd Hx. destruct (below_inv x d Hx) as [r ->].
    destruct (below new (swap_dir old new (x ++ r))) eqn:En; [apply below_inv in En as [r' En]; rewrite En in Hd; by destruct (Hnone r')|].
    destruct (below new (x ++ r)) eqn:Enx.
    + apply below_inv in Enx as [r' Er]. rewrite Er, swap_new in Hd. destruct (below new x) eqn:Ex.
      * apply below_inv in Ex as [r'' ->]. rewrite swap_new. rewrite <- app_assoc in Er. apply app_inv_head in Er. subst r'. apply (Hc _ _ Hd). rewrite app_assoc. apply below_app.
      * assert (x ∈ ancestors base) as Hxb.
        { apply elem_of_ancestors. assert (Hle : (length x <= length base)%nat).
          { destruct (decide (length x <= length base)%nat); [done|]. exfalso. assert (Ht : take (length new) (x ++ r) = take (length new) (new ++ r')) by (by rewrite Er).
            rewrite take_app_length, take_app_le in Ht by (rewrite length_app; cbn; lia). rewrite <- Ht in Ex. rewrite <- (take_drop (length new) x) in Ex at 2. by rewrite below_app in Ex. }
          assert (Ht : take (length x) (x ++ r) = take (length x) (base ++ ([b] ++ r'))) by (by rewrite Er, <- app_assoc).
          rewrite take_app_length, take_app_le in Ht by lia. rewrite Ht. rewrite <- (take_drop (length x) base) at 2. apply below_app. }
        apply elem_of_ancestors in Hxb. rewrite swap_other; [by apply (Hc base)| |done].
        destruct (below old x) eqn:Eo; [|done]. apply below_inv in Hxb as [s Hs], Eo as [s' ->]. apply (f_equal length) in Hs. rewrite !length_app in Hs. cbn in Hs. lia.
    + assert (Enn : below new x = false).
      { destruct (below new x) eqn:Ex; [|done]. apply below_inv in Ex as [s ->]. by rewrite <- app_assoc, below_app in Enx. }
      destruct (below old x) eqn:Eo; [apply below_inv in Eo as [s ->]; rewrite <- app_assoc, swap_old in Hd; by destruct (Hnone (s ++ r))|].
      rewrite swap_other by done. destruct (below old (x ++ r)) eqn:Eor; [apply below_inv in Eor as [s Es]; rewrite Es, swap_old in Hd; by destruct (Hnone s)|].
      rewrite swap_other in Hd by done. by apply (Hc (x ++ r)).
Qed.

End move.

Lemma below_take_l n d : below (take n d) d = true.
Proof. rewrite <- (take_drop n d) at 2. apply below_app. Qed.

(** *** Reading *)

Lemma fs_read_ok fs p b : fs_ok fs -> data_at fs p = Some b -> fs_read p fs = (Ok b, fs).
Proof.
  intros Hok Hb. unfold fs_read, fs_open, mbind, prog_bind. rewrite sys_ok by done. unfold gets, lift_res. rewrite Hb. cbn [ok_or]. by rewrite sys_ok.
Qed.
Lemma fs_read_missing fs p : fs_ok fs -> data_at fs p = None -> fs_read p fs = (Err NoEntry, fs).
Proof.
  intros Hok Hb. unfold fs_read, fs_open, mbind, prog_bind. rewrite sys_ok by done. unfold gets, lift_res. by rewrite Hb.
Qed.
Lemma fs_try_exists_ok fs p : fs_ok fs -> fs_try_exists p fs = (Ok (bool_decide (is_Some (data_at fs p))), fs).
Proof. intros Hok. unfold fs_try_exists, mbind, prog_bind. by rewrite sys_ok. Qed.
Lemma fs_try_exists_dir_ok fs d : fs_ok fs -> fs_try_exists_dir d fs = (Ok (bool_decide (d ∈ fs_dirs fs)), fs).
Proof. intros Hok. unfold fs_try_exists_dir, mbind, prog_bind. by rewrite sys_ok. Qed.

(** *** Writing in place *)

(** Opening a file for writing in place and overwriting a part of it. *)
Lemma fs_open_rw_ok fs p c : fs_ok fs -> data_at fs p = Some c ->
  exists i, fs_open_rw p fs = (Ok (mkFileHandle i 0), fs) /\ fs_entries fs !! p = Some i /\ default [] (in_data <$> fs_inodes fs !! i) = c.
Proof.
  intros Hok (i & n & Hi & Hn & <-)%data_entry. exists i. unfold fs_open_rw, mbind, prog_bind. rewrite sys_ok by done. unfold gets, lift_res. by rewrite Hi, Hn.
Qed.

Lemma fs_seek_ok fs h pos : fs_ok fs -> fs_seek h pos fs = (Ok (mkFileHandle (fh_inode h) pos), fs).
Proof. intros Hok. unfold fs_seek, mbind, prog_bind. by rewrite sys_ok. Qed.

Lemma write_in_place fs p i c off b now : fs_ok fs -> fs_entries fs !! p = Some i -> data_at fs p = Some c -> b <> [] -> off + blen b <= FILE_MAX ->
  exists fs', fs_write_all (mkFileHandle i off) b now fs = (Ok (mkFileHandle i (off + blen b)), fs') /\ fs_entries fs' !! p = Some i /\
    shows fs' (fun q => if decide (q = p) then Some (overwrite c off b) else data_at fs q) (fs_dirs fs).
Proof.
  intros Hok Hi Hc Hb Hmax. unfold fs_write_all. rewrite bool_decide_eq_false_2 by done. unfold mbind, prog_bind. rewrite sys_ok by done. cbn [fh_pos fh_inode].
  rewrite (proj2 (Z.ltb_ge _ _)) by lia. unfold modify, mret, prog_ret. eexists. split; [done|]. split; [done|]. unfold write_at.
  apply data_entry in Hc as (j & n & Hj & Hn & <-). assert (j = i) as -> by congruence. rewrite Hn. cbn [default fmap option_fmap option_map]. by apply set_inode_shows.
Qed.

Lemma fs_sync_data_ok fs p h : fs_ok fs -> fs_entries fs !! p = Some (fh_inode h) ->
  exists fs', fs_sync_data h fs = (Ok tt, fs') /\ shows fs' (data_at fs) (fs_dirs fs).
Proof.
  intros Hok Hi. unfold fs_sync_data, mbind, prog_bind. rewrite sys_ok by done. unfold modify. eexists. split; [done|]. unfold mark_synced.
  destruct (fo_named _ Hok _ _ Hi) as [n Hn]. rewrite Hn. destruct (set_inode_shows fs p (fh_inode h) (in_data n) true (in_mtime n) Hok Hi) as [H1 H2 H3]. split; [done| |done].
  intros q. rewrite H2. case_decide as Hq; [|done]. subst q. unfold data_at, inode_at. rewrite Hi. cbn. by rewrite Hn.
Qed.

Lemma fs_read_exact_ok fs c off n : fs_ok fs -> off + n <= blen c -> fs_read_exact c off n fs = (Ok (slice off (off + n) c), fs).
Proof. intros Hok Hn. unfold fs_read_exact, mbind, prog_bind. rewrite sys_ok by done. unfold lift_res. by rewrite (proj2 (Z.ltb_ge _ _)). Qed.
Lemma fs_len_ok fs c : fs_ok fs -> fs_len c fs = (Ok (blen c), fs).
Proof. intros Hok. unfold fs_len, mbind, prog_bind. by rewrite sys_ok. Qed.
