(* ===== verification/Filesystem.v ===== *)
(** * The filesystem backend

    Models y2q-core/src/storage/filesystem.rs: where an object lives, how it is written,
    replaced, read and removed, the bucket directories and their sealed configuration, and
    the rebuilding of the index from the files.

    An operation runs in a [Store]: the files of [Posix], the index of [Index], the lock
    registry of [Locks], the node keys, the clock and the random source.  serde on bucket
    configurations and the Unicode tables past ASCII are interfaces.  Metrics, log lines and
    file modes are not modelled. *)

From stdpp Require Import pretty sorting.
From S2P Require Import Prelude Effects Primitives Types Format Crypto NodeKeys Sink BucketKeys Lex Query Index Locks Posix.

(** [serde_json] on [BucketConfig]. *)
Class ConfigJson : Type := {
  config_to_vec : BucketConfig -> result string bytes;
  config_from_slice : bytes -> result string BucketConfig;
}.

(** [char::is_alphanumeric] beyond ASCII. *)
Class UnicodeOps : Type := { unicode_alphanumeric : Z -> bool }.

Inductive SyncLevel : Type := Durable | BestEffort.
#[global] Instance SyncLevel_eq_dec : EqDecision SyncLevel.
Proof. solve_decision. Defined.

Record PutOptions : Type := mkPutOptions {
  po_labels : LabelSet;
  po_sync : SyncLevel;
  po_plaintext_metrics : option PlaintextMetrics;
  po_cipher_metadata : option CipherMetadata;
  po_version : option Z;
}.

Inductive CacheRebuildStatus : Type := Idle | Running (percent : Z) | Completed | Failed (reason : string).

Record DirtyEntry : Type := mkDirtyEntry { de_obj_path : fpath; de_parent_dir : list string }.

Definition FormatError_display (e : FormatError) : string :=
  match e with
  | FE_Magic => "invalid magic bytes"
  | FE_Version v => "unsupported format version " +:+ pretty v
  | FE_Crc => "header CRC32 mismatch"
  | FE_Mac => "header MAC mismatch"
  | FE_TotalLen d a => "header declares total length " +:+ pretty d +:+ " but the file is " +:+ pretty a +:+ " bytes"
  | FE_DataOffset o => "data_offset " +:+ pretty o +:+ " is below the minimum of " +:+ pretty HEADER_SIZE
  end.

(** ** Names *)

(** [str::chars], as code points. *)
Fixpoint chars (s : bytes) : list Z :=
  match s with
  | [] => []
  | a :: s1 =>
      if in_range 0 127 a then Z_of_byte a :: chars s1 else
      match s1 with
      | [] => []
      | b :: s2 =>
          if in_range 194 223 a then (Z_of_byte a - 192) * 64 + (Z_of_byte b - 128) :: chars s2 else
          match s2 with
          | [] => []
          | c :: s3 =>
              if in_range 224 239 a
              then (Z_of_byte a - 224) * 4096 + (Z_of_byte b - 128) * 64 + (Z_of_byte c - 128) :: chars s3 else
              match s3 with
              | [] => []
              | d :: s4 => (Z_of_byte a - 240) * 262144 + (Z_of_byte b - 128) * 4096 + (Z_of_byte c - 128) * 64
                             + (Z_of_byte d - 128) :: chars s4
              end
          end
      end
  end.

Definition slash : byte := x2f.
Definition backslash : byte := x5c.
Definition dot : byte := x2e.

(** [str::contains] of a string *)
Fixpoint contains (s pat : bytes) : bool :=
  starts_with s pat || match s with [] => false | _ :: s => contains s pat end.

(** [str::split] on one character *)
Fixpoint split_on (sep : byte) (s acc : bytes) : list bytes :=
  match s with
  | [] => [acc]
  | x :: s => if bool_decide (x = sep) then acc :: split_on sep s [] else split_on sep s (acc ++ [x])
  end.

Definition MAX_KEY_LEN : Z := 1024.

Definition validate_key (key : string) : result Error unit :=
  let b := as_bytes key in
  if bool_decide (b = []) || bool_decide (x00 ∈ b) || (MAX_KEY_LEN <? blen b) then Err (InvalidKey key) else
  if existsb (fun part => bool_decide (part = []) || bool_decide (part = [dot]) || bool_decide (part = [dot; dot]))
       (split_on slash b [])
  then Err (InvalidKey key) else Ok tt.

Section names.
Context {U : UnicodeOps}.

Definition is_alphanumeric (c : Z) : bool :=
  if c <? 128 then ((48 <=? c) && (c <=? 57)) || ((65 <=? c) && (c <=? 90)) || ((97 <=? c) && (c <=? 122))
  else unicode_alphanumeric c.

Definition RESERVED_BUCKETS : list bytes := [as_bytes "api"].

Definition validate_bucket (bucket : string) : result Error unit :=
  let b := as_bytes bucket in
  if bool_decide (b = []) || bool_decide (slash ∈ b) || bool_decide (backslash ∈ b) || contains b [dot; dot]
     || negb (forallb (fun c => is_alphanumeric c || (c =? 45) || (c =? 95)) (chars b))
     || bool_decide (to_ascii_lowercase b ∈ RESERVED_BUCKETS)
  then Err (InvalidBucket bucket) else Ok tt.

End names.

(** ** Where things are *)

Definition to_hex (b : bytes) : string := String.string_of_list_byte (hex_encode b).

Section paths.
Context {HO : HashOps}.

Definition encode_bucket_dir (path_key : bytes) (bucket : string) : string :=
  to_hex (prf path_key ((as_bytes "y2q-bucket" ++ [x00]) ++ lp (as_bytes bucket))).

Definition encode_object_id (path_key : bytes) (bucket key : string) : string :=
  to_hex (prf path_key ((as_bytes "y2q-object" ++ [x00]) ++ lp (as_bytes bucket) ++ lp (as_bytes key))).

Definition bucket_dir_path (base : list string) (path_key : bytes) (bucket : string) : list string :=
  base ++ [encode_bucket_dir path_key bucket].

Definition obj_path_for (base : list string) (path_key : bytes) (bucket key : string) : fpath :=
  let id := encode_object_id path_key bucket key in
  mkPath (bucket_dir_path base path_key bucket ++ [String.substring 0 2 id; String.substring 2 2 id]) id "obj".

(** The stem of the file name; a name [obj_path_for] makes always has one. *)
Definition object_id_from_path (p : fpath) : string := fp_stem p.

End paths.

(** The two files of a bucket's configuration. *)
Definition config_path (dir : list string) : fpath := mkPath dir ".y2q-bucket" "json".
Definition config_tmp (dir : list string) : fpath := mkPath dir ".y2q-bucket.json" "tmp".
(** [with_extension("labels.tmp")] *)
Definition labels_tmp (p : fpath) : fpath := mkPath (fp_dir p) (fp_stem p +:+ ".labels") "tmp".

Module FilesystemStorage.

Section storage.
Context {A : AeadOps} {X : Xxh3Ops} {B : Base64Ops} {HO : HashOps} {R : RngOps}.
Context {RD : RedbOps} {J : MetadataJson} {CJ : ConfigJson} {U : UnicodeOps}.

Record Store : Type := mkStore {
  s_base : list string;
  s_fs : Fs;
  s_index : MetaIndex.MetadataIndex;
  s_keys : NodeKeySlot;
  s_locks : LockRegistry;
  s_rebuild : CacheRebuildStatus;
  (** The dirty channel, when one is attached, what is in it, and the limit. *)
  s_dirty : option (list DirtyEntry);
  s_flush_limit : nat;
  s_notified : bool;
  s_rng : rng;
  s_now : Z;
}.

Definition set_fs (fs : Fs) (w : Store) : Store :=
  mkStore (s_base w) fs (s_index w) (s_keys w) (s_locks w) (s_rebuild w) (s_dirty w) (s_flush_limit w) (s_notified w) (s_rng w) (s_now w).
Definition set_index (idx : MetaIndex.MetadataIndex) (w : Store) : Store :=
  mkStore (s_base w) (s_fs w) idx (s_keys w) (s_locks w) (s_rebuild w) (s_dirty w) (s_flush_limit w) (s_notified w) (s_rng w) (s_now w).
Definition set_locks (l : LockRegistry) (w : Store) : Store :=
  mkStore (s_base w) (s_fs w) (s_index w) (s_keys w) l (s_rebuild w) (s_dirty w) (s_flush_limit w) (s_notified w) (s_rng w) (s_now w).
Definition set_rebuild (s : CacheRebuildStatus) (w : Store) : Store :=
  mkStore (s_base w) (s_fs w) (s_index w) (s_keys w) (s_locks w) s (s_dirty w) (s_flush_limit w) (s_notified w) (s_rng w) (s_now w).
Definition set_dirty (d : option (list DirtyEntry)) (n : bool) (w : Store) : Store :=
  mkStore (s_base w) (s_fs w) (s_index w) (s_keys w) (s_locks w) (s_rebuild w) d (s_flush_limit w) n (s_rng w) (s_now w).
Definition set_rng (r : rng) (w : Store) : Store :=
  mkStore (s_base w) (s_fs w) (s_index w) (s_keys w) (s_locks w) (s_rebuild w) (s_dirty w) (s_flush_limit w) (s_notified w) r (s_now w).

Abbreviation store := (prog Store Error).

Definition internal (bucket key operation message : string) : Error := InternalError bucket key operation message.

(** [fs_call().map_err(f)?] *)
Definition io {E T} (f : FsError -> E) (m : fsop T) : prog Store E T := fun w =>
  let '(r, fs) := m (s_fs w) in (map_err f r, set_fs fs w).
Definition io_failed (bucket key operation prefix : string) (e : FsError) : Error :=
  internal bucket key operation (prefix +:+ fs_message e).

Definition indexed {E} (f : Error -> E) (m : MetaIndex.MetadataIndex -> result Error MetaIndex.MetadataIndex) : prog Store E unit := fun w =>
  match m (s_index w) with
  | Ok idx => (Ok tt, set_index idx w)
  | Err e => (Err (f e), w)
  end.
(** [if let Err(e) = .. { warn }] *)
Definition best_effort {E} (m : prog Store E unit) : prog Store E unit := match_res m (fun _ => mret tt) (fun _ => mret tt).

(** [.unwrap_or(false)] *)
Definition unwrap_or_false (m : fsop bool) : fsop bool := match_res m mret (fun _ => mret false).

(** ** Keys *)

Definition require_path_key (slot : NodeKeySlot) : result Error bytes :=
  ok_or (path_key slot) (internal "" "" "path" "path operation attempted without an installed node key").
Definition require_object_metadata_key (slot : NodeKeySlot) : result Error bytes :=
  ok_or (object_metadata_key slot) (internal "" "" "metadata" "metadata operation attempted without an installed node key").
Definition require_container_header_key (slot : NodeKeySlot) : result Error bytes :=
  ok_or (container_header_key slot)
    (internal "" "" "container-header" "object header operation attempted without an installed node key").
Definition require_bucket_config_key (slot : NodeKeySlot) : result Error bytes :=
  ok_or (bucket_config_key slot) (internal "" "" "bucket-config" "bucket config operation attempted without an installed node key").

Definition need {T} (f : NodeKeySlot -> result Error T) : store T := slot ← gets s_keys; lift_res (f slot).

Definition key_path (bucket key : string) : store fpath :=
  pk ← need require_path_key;
  base ← gets s_base;
  mret (obj_path_for base pk bucket key).

Definition unlocked (bucket key : string) : store unit :=
  l ← gets s_locks; lift_res (check_not_locked l bucket key).

(** [let _lock = self.locks.try_acquire(..)?] and the rest of the block. *)
Definition with_lock {T} (bucket key : string) (body : store T) : store T := fun w =>
  match try_acquire (s_locks w) bucket key (s_now w) with
  | Err e => (Err e, w)
  | Ok l => let '(r, w) := body (set_locks l w) in (r, set_locks (release (s_locks w) bucket key) w)
  end.

(** ** Reading *)

Definition invalid {E T} (display : E -> string) (m : result E T) : fsop T := lift_res (map_err (fun e => FsFailed (display e)) m).

Definition read_obj_metadata (path : fpath) (mek chk : bytes) : fsop Metadata :=
  file ← fs_open path;
  actual_len ← fs_len file;
  header_buf ← fs_read_exact file 0 HEADER_SIZE;
  let object_id := object_id_from_path path in
  header ← invalid FormatError_display (Format.decode header_buf chk object_id);
  _ ← invalid FormatError_display (check_total_len header actual_len);
  _ ← sys;
  meta_buf ← fs_read_exact file (meta_offset header) (meta_len header);
  json ← invalid CryptoError_display (decrypt_meta mek meta_buf object_id);
  invalid (fun e => e) (from_slice json).

Definition read_obj_created (path : fpath) (mek chk : bytes) : fsop (option Z) :=
  match_res (read_obj_metadata path mek chk) (fun m => mret (Some (md_created m))) (fun _ => mret None).

(** Open an object's file and check its header: how [get], [get_range] and [delete] start. *)
Definition open_checked (operation bucket key : string) (path : fpath) : store (bytes * Header) :=
  file ← io (fun e => match e with NoEntry => NotFound bucket key | _ => io_failed bucket key operation "" e end) (fs_open path);
  header_buf ← io (io_failed bucket key operation "read header: ") (fs_read_exact file 0 HEADER_SIZE);
  chk ← need require_container_header_key;
  let object_id := object_id_from_path path in
  header ← lift_res (map_err (fun e => internal bucket key operation ("decode header: " +:+ FormatError_display e))
                       (Format.decode header_buf chk object_id));
  file_len ← io (io_failed bucket key operation "stat: ") (fs_len file);
  _ ← lift_res (map_err (fun e => internal bucket key operation (FormatError_display e)) (check_total_len header file_len));
  mret (file, header).

Definition get (bucket key : string) : store bytes :=
  _ ← lift_res (validate_bucket bucket);
  _ ← lift_res (validate_key key);
  obj_path ← key_path bucket key;
  _ ← unlocked bucket key;
  '(file, header) ← open_checked "get" bucket key obj_path;
  _ ← io (io_failed bucket key "get" "seek data: ") sys;
  io (io_failed bucket key "get" "read data: ") (fs_read_exact file (data_offset header) (data_len header)).

(** [range.start..=range.last], which the callers keep in order: the length of a range in
    reverse wraps, and allocating a buffer for it would panic. *)
Definition get_range (bucket key : string) (start last : Z) : store bytes :=
  _ ← lift_res (validate_bucket bucket);
  _ ← lift_res (validate_key key);
  obj_path ← key_path bucket key;
  _ ← unlocked bucket key;
  '(file, header) ← open_checked "get_range" bucket key obj_path;
  if (data_len header =? 0) || (data_len header <=? start) then mret [] else
  let end_inclusive := Z.min last (data_len header - 1) in
  let len := wrap64 (wrap64 (end_inclusive - start) + 1) in
  _ ← io (io_failed bucket key "get_range" "seek: ") sys;
  io (io_failed bucket key "get_range" "read data: ") (fs_read_exact file (data_offset header + start) len).

Definition describe (bucket key : string) : store Metadata :=
  _ ← lift_res (validate_bucket bucket);
  _ ← lift_res (validate_key key);
  obj_path ← key_path bucket key;
  _ ← unlocked bucket key;
  there ← io (io_failed bucket key "describe" "") (unwrap_or_false (fs_try_exists obj_path));
  if negb there then throw (NotFound bucket key) else
  mek ← need require_object_metadata_key;
  chk ← need require_container_header_key;
  io (io_failed bucket key "describe" "") (read_obj_metadata obj_path mek chk).

(** ** Writing *)

(** Whether the object is there, and since when. *)
Definition existing (operation bucket key : string) (path : fpath) (mek chk : bytes) : store (bool * option Z) :=
  io (io_failed bucket key operation "stat existing: ")
    (there ← match_res (fs_metadata path) (fun _ => mret true)
               (fun e => match e with NoEntry => mret false | _ => throw e end);
     if there : bool then created ← read_obj_created path mek chk; mret (true, created) else mret (false, None)).

(** [encrypt_meta] with the thread's random source *)
Definition seal_meta (bucket key operation prefix : string) (mek json : bytes) (object_id : string) (pad_block : Z) : store bytes := fun w =>
  match encrypt_meta mek json object_id pad_block (s_rng w) with
  | Ok (blob, r) => (Ok blob, set_rng r w)
  | Err e => (Err (internal bucket key operation (prefix +:+ CryptoError_display e)), w)
  end.

Definition durable_flag (sync : SyncLevel) : Z := match sync with Durable => Z.lor 0 flags.DURABLE | BestEffort => 0 end.

(** [if let Ok(dir) = File::open(parent) { let _ = dir.sync_all() }] *)
Definition sync_parent (d : list string) : fsop unit :=
  match_res sys (fun _ => match_res (fs_sync_dir d) mret (fun _ => mret tt)) (fun _ => mret tt).

(** Queue a best-effort write for flushing. *)
Definition queue_dirty (path : fpath) : store unit :=
  modify (fun w =>
    match s_dirty w with
    | None => w
    | Some q =>
        let q := q ++ [mkDirtyEntry path (fp_dir path)] in
        set_dirty (Some q) (s_notified w || (s_flush_limit w <=? length q)%nat) w
    end).

(** The end of a write, once its file is complete: sync, move into place, sync the
    directory or queue it, update the index. *)
Definition install_object (bucket key : string) (sync : SyncLevel) (h : FileHandle) (tmp_path obj_path : fpath) (metadata : Metadata) : store unit :=
  _ ← (if bool_decide (sync = Durable) then io (io_failed bucket key "put" "fdatasync: ") (fs_sync_data h) else mret tt);
  _ ← io (io_failed bucket key "put" "rename: ") (fs_rename tmp_path obj_path);
  _ ← (if bool_decide (sync = Durable) then io (io_failed bucket key "put" "") (sync_parent (fp_dir obj_path)) else queue_dirty obj_path);
  best_effort (indexed id (fun idx => MetaIndex.upsert idx metadata)).

(** [file.write_all(..).map_err(..)?] at the time of the write *)
Definition write_part (bucket key operation prefix : string) (h : FileHandle) (b : bytes) : store FileHandle :=
  now ← gets s_now; io (io_failed bucket key operation prefix) (fs_write_all h b now).
Definition open_tmp (bucket key operation prefix : string) (p : fpath) : store FileHandle :=
  now ← gets s_now; io (io_failed bucket key operation prefix) (fs_open_truncate p now).

Definition put_metadata (bucket key : string) (obj_path : fpath) (payload : bytes) (options : PutOptions) (prior_created : option Z) (now : Z) : Metadata :=
  let '(size, checksum) := match po_plaintext_metrics options with
                           | Some p => (pm_size p, pm_checksum_gxhash_b64 p)
                           | None => (blen payload, checksum.checksum_b64 payload)
                           end in
  let c := po_cipher_metadata options in
  mkMetadata (default now prior_created) now size checksum bucket key (path_display obj_path)
    (bucket +:+ "/" +:+ key) (po_labels options)
    (cm_cipher_size <$> c) (cm_cipher_checksum_b64 <$> c) (cm_kem_alg <$> c) (cm_aead_alg <$> c) (cm_envelope_version <$> c)
    None None (cm_key_epoch <$> c).

Definition put (bucket key : string) (payload : bytes) (options : PutOptions) : store bool :=
  _ ← lift_res (validate_bucket bucket);
  _ ← lift_res (validate_key key);
  obj_path ← key_path bucket key;
  let tmp_path := with_extension obj_path "tmp" in
  _ ← io (io_failed bucket key "put" "") (fs_create_dir_all (fp_dir obj_path));
  with_lock bucket key (
    mek ← need require_object_metadata_key;
    chk ← need require_container_header_key;
    '(is_overwrite, prior_created) ← existing "put" bucket key obj_path mek chk;
    now ← gets s_now;
    let metadata := put_metadata bucket key obj_path payload options prior_created now in
    meta_json ← lift_res (map_err (internal bucket key "put") (to_vec metadata));
    let object_id := object_id_from_path obj_path in
    meta_bytes ← seal_meta bucket key "put" "" mek meta_json object_id META_PAD_BLOCK;
    let header := mkHeader (blen payload) (wrap32 (blen meta_bytes)) MIN_DATA_OFFSET (durable_flag (po_sync options)) VERSION in
    let header_enc := Format.encode header chk object_id in
    h ← open_tmp bucket key "put" "" tmp_path;
    h ← write_part bucket key "put" "write header: " h header_enc;
    h ← write_part bucket key "put" "write data: " h payload;
    h ← write_part bucket key "put" "write meta: " h meta_bytes;
    h ← write_part bucket key "put" "write trailer: " h header_enc;
    _ ← install_object bucket key (po_sync options) h tmp_path obj_path metadata;
    mret is_overwrite).

(** *** Streaming *)

Record StreamingPutGuard : Type := mkStreamingPutGuard {
  g_tmp_path : fpath;
  g_obj_path : fpath;
  g_bucket : string;
  g_key : string;
  g_is_overwrite : bool;
  g_prior_created : option Z;
}.

Definition begin_streaming_put (bucket key : string) : store (StreamingPutGuard * FileHandle) :=
  _ ← lift_res (validate_bucket bucket);
  _ ← lift_res (validate_key key);
  obj_path ← key_path bucket key;
  let tmp_path := with_extension obj_path "tmp" in
  _ ← io (io_failed bucket key "begin_streaming_put" "create dirs: ") (fs_create_dir_all (fp_dir obj_path));
  mek ← need require_object_metadata_key;
  chk ← need require_container_header_key;
  '(is_overwrite, prior_created) ← existing "begin_streaming_put" bucket key obj_path mek chk;
  l ← gets s_locks;
  now ← gets s_now;
  l ← lift_res (try_acquire l bucket key now);
  _ ← modify (set_locks l);
  (* the lock guard is dropped if what follows fails *)
  let drop_lock {T} (e : Error) : store T := fail_after (modify (fun w => set_locks (release (s_locks w) bucket key) w)) e in
  match_res (h ← open_tmp bucket key "begin_streaming_put" "open tmp: " tmp_path;
             write_part bucket key "begin_streaming_put" "write placeholder header: " h (replicate 64 x00))
    (fun h => mret (mkStreamingPutGuard tmp_path obj_path bucket key is_overwrite prior_created, h))
    drop_lock.

(** [Drop]: the staging file, then the lock. *)
Definition guard_drop (g : StreamingPutGuard) {E} : prog Store E unit :=
  _ ← modify (fun w => set_fs (snd (fs_remove_file (g_tmp_path g) (s_fs w))) w);
  modify (fun w => set_locks (release (s_locks w) (g_bucket g) (g_key g)) w).

Definition commit_metadata (g : StreamingPutGuard) (options : PutOptions) (pm : PlaintextMetrics) (cm : CipherMetadata) (now : Z) : Metadata :=
  mkMetadata (default now (g_prior_created g)) now (pm_size pm) (pm_checksum_gxhash_b64 pm) (g_bucket g) (g_key g)
    (path_display (g_obj_path g)) (g_bucket g +:+ "/" +:+ g_key g) (po_labels options)
    (Some (cm_cipher_size cm)) (Some (cm_cipher_checksum_b64 cm)) (Some (cm_kem_alg cm)) (Some (cm_aead_alg cm))
    (Some (cm_envelope_version cm)) (po_version options) ((fun _ => now) <$> po_version options) (Some (cm_key_epoch cm)).

(** [file] is where the encrypting session left it: at its end. *)
Definition commit (g : StreamingPutGuard) (file : FileHandle) (options : PutOptions) (pm : PlaintextMetrics) (cm : CipherMetadata) : store bool :=
  let bucket := g_bucket g in let key := g_key g in
  let finish {T} (r : result Error T) : store T := guard_drop g ≫= fun _ => lift_res r in
  match_res (
    now ← gets s_now;
    let metadata := commit_metadata g options pm cm now in
    meta_json ← lift_res (map_err (fun e => internal bucket key "put" ("encode meta: " +:+ e)) (to_vec metadata));
    mek ← need require_object_metadata_key;
    chk ← need require_container_header_key;
    let object_id := object_id_from_path (g_obj_path g) in
    meta_bytes ← seal_meta bucket key "put" "encrypt meta: " mek meta_json object_id META_PAD_BLOCK;
    let header := mkHeader (cm_cipher_size cm) (wrap32 (blen meta_bytes)) MIN_DATA_OFFSET (durable_flag (po_sync options)) VERSION in
    let header_enc := Format.encode header chk object_id in
    h ← write_part bucket key "put" "write meta: " file meta_bytes;
    h ← write_part bucket key "put" "write trailer: " h header_enc;
    h ← io (io_failed bucket key "put" "seek to header: ") (fs_seek h 0);
    h ← write_part bucket key "put" "write header: " h header_enc;
    install_object bucket key (po_sync options) h (g_tmp_path g) (g_obj_path g) metadata)
    (fun _ => finish (Ok (g_is_overwrite g)))
    (fun e => finish (Err e)).

Definition delete (bucket key : string) : store unit :=
  _ ← lift_res (validate_bucket bucket);
  _ ← lift_res (validate_key key);
  obj_path ← key_path bucket key;
  _ ← unlocked bucket key;
  _ ← open_checked "delete" bucket key obj_path;
  _ ← io (io_failed bucket key "delete" "unlink: ")
        (match_res (fs_remove_file obj_path) mret (fun e => match e with NoEntry => mret tt | _ => throw e end));
  best_effort (indexed id (fun idx => MetaIndex.remove idx bucket key)).

(** *** Labels *)

(** What [set_labels] reads of the object before it writes. *)
Record LabelsRead : Type := mkLabelsRead { lr_path : fpath; lr_bytes : bytes; lr_header : Header; lr_metadata : Metadata }.

(** The first half of [set_labels]: the lock is looked at, the object is read and
    checked. *)
Definition labels_read (bucket key : string) : store LabelsRead :=
  _ ← unlocked bucket key;
  pk ← need require_path_key;
  mek ← need require_object_metadata_key;
  chk ← need require_container_header_key;
  _ ← lift_res (validate_bucket bucket);
  _ ← lift_res (validate_key key);
  base ← gets s_base;
  let obj_path := obj_path_for base pk bucket key in
  b ← io (fun e => match e with NoEntry => NotFound bucket key | _ => io_failed bucket key "set_labels" "" e end) (fs_read obj_path);
  _ ← guard_not (blen b <? HEADER_SIZE) (internal bucket key "set_labels" "object file shorter than header");
  let object_id := object_id_from_path obj_path in
  header ← lift_res (map_err (fun e => internal bucket key "set_labels" ("decode header: " +:+ FormatError_display e))
                       (Format.decode (slice 0 HEADER_SIZE b) chk object_id));
  _ ← lift_res (map_err (fun e => internal bucket key "set_labels" (FormatError_display e)) (check_total_len header (blen b)));
  let meta_start := meta_offset header in
  meta_json ← lift_res (map_err (fun e => internal bucket key "set_labels" ("decrypt meta: " +:+ CryptoError_display e))
                          (decrypt_meta mek (slice meta_start (meta_start + meta_len header) b) object_id));
  metadata ← lift_res (map_err (fun e => internal bucket key "set_labels" ("parse meta: " +:+ e)) (from_slice meta_json));
  mret (mkLabelsRead obj_path b header metadata).

Definition relabel (m : Metadata) (ls : LabelSet) (now : Z) : Metadata :=
  mkMetadata (md_created m) now (md_size m) (md_checksum_gxhash m) (md_bucket m) (md_key m) (md_disk_path m) (md_url_path m) ls
    (md_cipher_size m) (md_cipher_checksum m) (md_kem_alg m) (md_aead_alg m) (md_envelope_version m) (md_version m)
    (md_committed_at m) (md_key_epoch m).

(** The second half: the new file is written next to the old one and replaces it. *)
Definition labels_write (bucket key : string) (r : LabelsRead) (ls : LabelSet) : store unit :=
  mek ← need require_object_metadata_key;
  chk ← need require_container_header_key;
  now ← gets s_now;
  let obj_path := lr_path r in
  let object_id := object_id_from_path obj_path in
  let header := lr_header r in
  let metadata := relabel (lr_metadata r) ls now in
  new_json ← lift_res (map_err (fun e => internal bucket key "set_labels" ("encode meta: " +:+ e)) (to_vec metadata));
  new_meta ← seal_meta bucket key "set_labels" "encrypt meta: " mek new_json object_id META_PAD_BLOCK;
  let new_header := mkHeader (data_len header) (wrap32 (blen new_meta)) (data_offset header) (hflags header) (version header) in
  let header_enc := Format.encode new_header chk object_id in
  let data := slice (data_offset header) (meta_offset header) (lr_bytes r) in
  let out := header_enc ++ replicate (Z.to_nat (data_offset header - blen header_enc)) x00 ++ data ++ new_meta ++ header_enc in
  _ ← io (io_failed bucket key "set_labels" "write tmp: ") (fs_write (labels_tmp obj_path) out now);
  _ ← io (io_failed bucket key "set_labels" "rename: ") (fs_rename (labels_tmp obj_path) obj_path);
  best_effort (indexed id (fun idx => MetaIndex.upsert idx metadata)).

Definition set_labels_thread (bucket key : string) (ls : LabelSet) : thread Store Error unit :=
  Atom (labels_read bucket key) (fun r => Atom (labels_write bucket key r ls) (fun u => Halt (Ok u))).
Definition set_labels (bucket key : string) (ls : LabelSet) : store unit := alone (set_labels_thread bucket key ls).

(** ** Buckets *)

Definition create_bucket (bucket : string) : store bool :=
  pk ← need require_path_key;
  _ ← lift_res (validate_bucket bucket);
  base ← gets s_base;
  let dir := bucket_dir_path base pk bucket in
  there ← io (io_failed bucket "" "create_bucket" "") (unwrap_or_false (fs_try_exists_dir dir));
  if there : bool then mret false else
  _ ← io (io_failed bucket "" "create_bucket" "") (fs_create_dir_all dir);
  _ ← indexed id (fun idx => MetaIndex.register_bucket idx bucket);
  mret true.

Definition delete_bucket (bucket : string) : store Z :=
  pk ← need require_path_key;
  _ ← lift_res (validate_bucket bucket);
  base ← gets s_base;
  let dir := bucket_dir_path base pk bucket in
  dir_exists ← io (io_failed bucket "" "delete_bucket" "") (unwrap_or_false (fs_try_exists_dir dir));
  idx ← gets s_index;
  ks ← lift_res (MetaIndex.list_all_keys idx);
  removed ← for_each (fun bk removed =>
      if bool_decide (bk.1 = bucket)
      then _ ← indexed id (fun idx => MetaIndex.remove idx bucket bk.2); mret (removed + 1)
      else mret removed) ks 0;
  _ ← guard_not (negb dir_exists && (removed =? 0)) (NotFound bucket "");
  _ ← (if dir_exists : bool then io (io_failed bucket "" "delete_bucket" "") (fs_remove_dir_all dir) else mret tt);
  _ ← indexed id (fun idx => MetaIndex.unregister_bucket idx bucket);
  mret removed.

(** [Vec::dedup] *)
Fixpoint dedup (l : list string) : list string :=
  match l with
  | [] => []
  | x :: l => match l with
              | y :: _ => if bool_decide (x = y) then dedup l else x :: dedup l
              | [] => [x]
              end
  end.

Definition list_buckets_union (fuel : nat) (idx : MetaIndex.MetadataIndex) : option (result Error (list string)) :=
  named ← MetaIndex.list_buckets fuel idx;
  Some (named ← named; registered ← MetaIndex.list_registered_buckets idx; Ok (dedup (merge_sort str_le (named ++ registered)))).

Definition bucket_exists (bucket : string) : store bool := idx ← gets s_index; lift_res (MetaIndex.bucket_exists idx bucket).

Definition get_bucket_config (bucket : string) : store BucketConfig :=
  pk ← need require_path_key;
  config_key ← need require_bucket_config_key;
  _ ← lift_res (validate_bucket bucket);
  base ← gets s_base;
  o ← io (io_failed bucket "" "get_bucket_config" "")
        (match_res (fs_read (config_path (bucket_dir_path base pk bucket))) (fun b => mret (Some b))
           (fun e => match e with NoEntry => mret None | _ => throw e end));
  match o with
  | None => mret config_default
  | Some b =>
      plain ← lift_res (map_err (fun e => internal bucket "" "get_bucket_config" ("decrypt config: " +:+ CryptoError_display e))
                          (decrypt_meta config_key b (encode_bucket_dir pk bucket)));
      lift_res (map_err (fun e => internal bucket "" "get_bucket_config" ("parse config: " +:+ e)) (config_from_slice plain))
  end.

Definition set_bucket_config (bucket : string) (config : BucketConfig) : store unit :=
  pk ← need require_path_key;
  config_key ← need require_bucket_config_key;
  _ ← lift_res (validate_bucket bucket);
  base ← gets s_base;
  let dir := bucket_dir_path base pk bucket in
  _ ← io (io_failed bucket "" "set_bucket_config" "create bucket dir: ") (fs_create_dir_all dir);
  json ← lift_res (map_err (fun e => internal bucket "" "set_bucket_config" ("encode config: " +:+ e)) (config_to_vec config));
  ciphertext ← seal_meta bucket "" "set_bucket_config" "encrypt config: " config_key json (encode_bucket_dir pk bucket) BUCKET_CONFIG_PAD_BLOCK;
  h ← open_tmp bucket "" "set_bucket_config" "write config: " (config_tmp dir);
  _ ← write_part bucket "" "set_bucket_config" "write config: " h ciphertext;
  io (io_failed bucket "" "set_bucket_config" "rename config: ") (fs_rename (config_tmp dir) (config_path dir)).

(** [None] when the fuel is not enough. *)
Fixpoint usage_loop (fuel : nat) (idx : MetaIndex.MetadataIndex) (bucket : string) (after : option string) (total : Z) : option (result Error Z) :=
  match fuel with
  | O => None
  | S fuel =>
      match MetaIndex.scan_objects idx bucket None after (Z.to_nat 1000) with
      | Err e => Some (Err e)
      | Ok page =>
          let total := foldl (fun t m => wrap64 (t + md_size m)) total (lp_items page) in
          match lp_next page with
          | Some c => usage_loop fuel idx bucket (Some c) total
          | None => Some (Ok total)
          end
      end
  end.
Definition bucket_usage (fuel : nat) (idx : MetaIndex.MetadataIndex) (bucket : string) : option (result Error Z) :=
  match validate_bucket bucket with
  | Err e => Some (Err e)
  | Ok _ => usage_loop fuel idx bucket None 0
  end.

Definition list_objects (bucket : string) (prefix after : option string) (limit : option nat) : store ListPage :=
  _ ← lift_res (validate_bucket bucket);
  idx ← gets s_index;
  lift_res (MetaIndex.scan_objects idx bucket prefix after (page_limit limit)).

Context {RX : RegexOps}.

Definition search_objects (query : LabelQuery) (bucket prefix after : option string) (limit : option nat) : store ListPage :=
  _ ← (match bucket with Some b => lift_res (validate_bucket b) | None => mret tt end);
  idx ← gets s_index;
  lift_res (MetaIndex.search_labels idx query bucket prefix after (page_limit limit)).

(** ** The index and the staging files *)

(** [while let Some(e) = dir.next_entry().await?] *)
Definition each_entry {S} (d : list string) (f : dirent -> S -> fsop S) (s : S) : fsop S :=
  es ← fs_read_dir d;
  s ← for_each (fun e s => _ ← sys; f e s) es s;
  _ ← sys;
  mret s.
(** [if !e.file_type().await?.is_dir() { continue }] *)
Definition when_dir {S} (k : list string -> S -> fsop S) (e : dirent) (s : S) : fsop S :=
  _ ← sys; match e with SubDir d => k d s | File _ => mret s end.

(** The three levels of directories under the base, and the files in them. *)
Definition walk {S} (base : list string) (file : fpath -> S -> fsop S) (s : S) : fsop S :=
  each_entry base (when_dir (fun b => each_entry b (when_dir (fun l1 => each_entry l1 (when_dir (fun l2 =>
    each_entry l2 (fun e s => match e with File p => file p s | SubDir _ => mret s end))))))) s.

Definition collect_obj_files (base : list string) : fsop (list fpath) :=
  walk base (fun p out => mret (if bool_decide (fp_ext p = "obj") then out ++ [p] else out)) [].

Definition sweep_tmp (cutoff : Z) (p : fpath) (removed : Z) : fsop Z :=
  if negb (bool_decide (fp_ext p = "tmp")) then mret removed else
  stale ← unwrap_or_false (_ ← sys; o ← gets (fun fs => inode_at fs p); n ← lift_res (ok_or o NoEntry); mret (in_mtime n <? cutoff));
  if negb stale then mret removed else
  match_res (fs_remove_file p) (fun _ => mret (removed + 1)) (fun _ => mret removed).
Definition clear_orphan_tmp_files (base : list string) (cutoff : Z) : fsop Z := walk base (sweep_tmp cutoff) 0.

Definition clear_stale_locks (older_than : Z) : store Z :=
  l ← gets s_locks;
  let '(locks, l) := clear_stale l older_than in
  _ ← modify (set_locks l);
  base ← gets s_base;
  tmp ← io (io_failed "" "" "" "") (match_res (clear_orphan_tmp_files base older_than) mret (fun _ => mret 0));
  mret (locks + tmp).
Definition list_stale_locks (older_than : Z) : store (list StaleLock) := gets (fun w => list_stale (s_locks w) older_than).

Abbreviation rebuild := (prog Store string).

Definition rebuild_one (mek chk : bytes) (total : nat) (item : nat * fpath) (seen : gset (string * string)) : rebuild (gset (string * string)) :=
  let '(i, path) := item in
  o ← io fs_message (match_res (read_obj_metadata path mek chk) (fun m => mret (Some m)) (fun _ => mret None));
  seen ← (match o with
          | Some m =>
              _ ← best_effort (indexed Error_display (fun idx => MetaIndex.upsert idx m));
              mret ({[(md_bucket m, md_key m)]} ∪ seen)
          | None => mret seen
          end);
  _ ← (if bool_decide (i mod (Nat.max (total / 100) 1) = 0)%nat && (0 <? total)%nat
       then modify (set_rebuild (Running (Z.min 99 ((Z.of_nat ((i + 1) * 100 / total)) mod 256))))
       else mret tt);
  mret seen.

(** The addresses of the records the files hold, each now in the index. *)
Definition rebuild_scan (mek chk : bytes) : rebuild (gset (string * string)) :=
  base ← gets s_base;
  obj_files ← io (fun e => "enumerate obj files: " +:+ fs_message e) (collect_obj_files base);
  for_each (rebuild_one mek chk (length obj_files)) (imap pair obj_files) empty.
(** Drop the rows of every other address. *)
Definition rebuild_prune (seen : gset (string * string)) : rebuild unit :=
  idx ← gets s_index;
  all_keys ← lift_res (map_err (fun e => "list index keys: " +:+ Error_display e) (MetaIndex.list_all_keys idx));
  for_each (fun bk _ =>
    if bool_decide (bk ∈ seen) then mret tt
    else best_effort (indexed Error_display (fun idx => MetaIndex.remove idx bk.1 bk.2))) all_keys tt.
Definition run_rebuild (mek chk : bytes) : rebuild unit := seen ← rebuild_scan mek chk; rebuild_prune seen.

(** Answers with the keys the spawned task works with. *)
Definition rebuild_cache : store (bytes * bytes) :=
  st ← gets s_rebuild;
  _ ← guard_not (match st with Running _ => true | _ => false end) RebuildAlreadyRunning;
  _ ← modify (set_rebuild (Running 0));
  mek ← need require_object_metadata_key;
  chk ← need require_container_header_key;
  mret (mek, chk).
(** The spawned task. *)
Definition rebuild_task (mek chk : bytes) : rebuild unit :=
  match_res (run_rebuild mek chk) (fun _ => modify (set_rebuild Completed)) (fun msg => modify (set_rebuild (Failed msg))).
Definition rebuild_progress : store CacheRebuildStatus := gets s_rebuild.

End storage.
End FilesystemStorage.
