(* ===== verification/NodeRotation.v ===== *)
(** * Rotating the node key

    Models y2q-core/src/storage/rotation.rs: how the object tree is moved from the keys of one
    node key to those of another (paths, sealed metadata, container headers, bucket
    configurations and the names of the bucket directories), and how container headers of
    the first format are given a MAC.

    The functions run on the files, the clock and the random source of a [Store].  The
    [debug_assert] on the length of re-sealed metadata is not part of a release build. *)

From S2P Require Import Prelude Effects Primitives Types Format Crypto NodeKeys Sink BucketKeys Lex Query Index Locks Posix FsView Filesystem.
Import FilesystemStorage.

Record RotationStats : Type := mkRotationStats { buckets_migrated : nat; objects_migrated : nat; objects_already_done : nat }.
Definition stats_default : RotationStats := mkRotationStats 0 0 0.

Record RotationKeys : Type := mkRotationKeys {
  old_path_key : bytes; new_path_key : bytes;
  old_omk : bytes; new_omk : bytes;
  old_bck : bytes; new_bck : bytes;
  old_chk : bytes; new_chk : bytes;
}.

(** The keys of two node keys *)
Definition rotation_keys {HO : HashOps} (old_nk new_nk : bytes) : RotationKeys :=
  mkRotationKeys (derive_path_key old_nk) (derive_path_key new_nk) (derive_object_metadata_key old_nk) (derive_object_metadata_key new_nk)
    (derive_bucket_config_key old_nk) (derive_bucket_config_key new_nk) (derive_container_header_key old_nk) (derive_container_header_key new_nk).

Section rotation.
Context {A : AeadOps} {HO : HashOps} {R : RngOps} {RD : RedbOps} {J : MetadataJson}.

Abbreviation store := (prog Store Error).

Definition op_rotate : string := "rotate-node-key".
Definition op_upgrade : string := "upgrade-container-headers".
Definition io_err (op bucket : string) (e : FsError) : Error := internal bucket "" op (fs_message e).

(** The object files two directories below the bucket's. *)
Definition collect_bucket_obj_files (bucket_dir : list string) : fsop (list fpath) :=
  each_entry bucket_dir (when_dir (fun e1 => each_entry e1 (when_dir (fun e2 =>
    each_entry e2 (fun e out => match e with
                                | File p => mret (if bool_decide (fp_ext p = "obj") then out ++ [p] else out)
                                | SubDir _ => mret out
                                end))))) [].

(** Where an object with the id goes inside its bucket's directory. *)
Definition id_path (bucket_dir : list string) (id : string) : fpath :=
  mkPath (bucket_dir ++ [String.substring 0 2 id; String.substring 2 2 id]) id "obj".

(** The file under its new keys: the header keeps its fields. *)
Definition migrated_file (header : Header) (new_chk : bytes) (new_id : string) (data new_meta : bytes) : bytes :=
  let new_header_buf := Format.encode header new_chk new_id in
  new_header_buf ++ replicate (Z.to_nat (data_offset header) - length new_header_buf) x00 ++ data ++ new_meta ++ new_header_buf.

Definition migrate_object_file (keys : RotationKeys) (path : fpath) (bucket : string) : store bool :=
  let err := fun msg => internal bucket "" op_rotate msg in
  let current_id := object_id_from_path path in
  bytes ← io (io_err op_rotate bucket) (fs_read path);
  if blen bytes <? HEADER_SIZE then throw (err "object file shorter than header") else
  header ← lift_res (map_err (fun e => err ("decode header: " +:+ FormatError_display e))
                       (Format.decode (slice 0 HEADER_SIZE bytes) (old_chk keys) current_id));
  _ ← lift_res (map_err (fun e => err (FormatError_display e)) (check_total_len header (blen bytes)));
  let data_start := data_offset header in
  let meta_start := meta_offset header in
  let data := slice data_start meta_start bytes in
  let meta_bytes := slice meta_start (meta_start + meta_len header) bytes in
  if is_ok (decrypt_meta (new_omk keys) meta_bytes current_id) then mret false else
  plain_json ← lift_res (map_err (fun _ => err ("object at " +:+ path_display path +:+
                           ": metadata decrypts under neither the old nor the new node key"))
                           (decrypt_meta (old_omk keys) meta_bytes current_id));
  metadata ← lift_res (map_err (fun e => err ("parse metadata: " +:+ e)) (from_slice plain_json));
  let new_id := encode_object_id (new_path_key keys) (md_bucket metadata) (md_key metadata) in
  if (length (fp_dir path) <? 2)%nat then throw (err "object path too shallow") else
  let new_path := id_path (take (length (fp_dir path) - 2) (fp_dir path)) new_id in
  there ← io (io_err op_rotate bucket) (unwrap_or_false (fs_try_exists new_path));
  if there : bool then
    _ ← (if bool_decide (new_path = path) then mret tt else best_effort (io (io_err op_rotate bucket) (fs_remove_file path)));
    mret false
  else
  new_meta ← seal_meta bucket "" op_rotate "re-encrypt metadata: " (new_omk keys) plain_json new_id META_PAD_BLOCK;
  let out := migrated_file header (new_chk keys) new_id data new_meta in
  _ ← io (io_err op_rotate bucket) (fs_create_dir_all (fp_dir new_path));
  let tmp_path := with_extension new_path "tmp" in
  now ← gets s_now;
  _ ← io (io_err op_rotate bucket) (fs_write tmp_path out now);
  _ ← io (io_err op_rotate bucket) (fs_rename tmp_path new_path);
  _ ← (if bool_decide (new_path = path) then mret tt else io (io_err op_rotate bucket) (fs_remove_file path));
  mret true.

(** [with_extension("json.rotate-tmp")] *)
Definition rotate_tmp (dir : list string) : fpath := mkPath dir ".y2q-bucket.json" "rotate-tmp".

Definition migrate_bucket_config (keys : RotationKeys) (old_dir : list string) (bucket : string) : store unit :=
  let path := config_path old_dir in
  o ← io (io_err op_rotate bucket)
        (match_res (fs_read path) (fun b => mret (Some b)) (fun e => match e with NoEntry => mret None | _ => throw e end));
  match o with
  | None => mret tt
  | Some bytes =>
      let new_aad := encode_bucket_dir (new_path_key keys) bucket in
      if is_ok (decrypt_meta (new_bck keys) bytes new_aad) then mret tt else
      let old_aad := encode_bucket_dir (old_path_key keys) bucket in
      plain ← lift_res (map_err (fun _ => internal bucket "" op_rotate "bucket config decrypts under neither the old nor the new node key")
                          (decrypt_meta (old_bck keys) bytes old_aad));
      new_bytes ← seal_meta bucket "" op_rotate "re-encrypt bucket config: " (new_bck keys) plain new_aad BUCKET_CONFIG_PAD_BLOCK;
      now ← gets s_now;
      _ ← io (io_err op_rotate bucket) (fs_write (rotate_tmp old_dir) new_bytes now);
      io (io_err op_rotate bucket) (fs_rename (rotate_tmp old_dir) path)
  end.

Definition count_object (migrated : bool) (s : RotationStats) : RotationStats :=
  if migrated then mkRotationStats (buckets_migrated s) (S (objects_migrated s)) (objects_already_done s)
  else mkRotationStats (buckets_migrated s) (objects_migrated s) (S (objects_already_done s)).

(** One round of the loop over the buckets *)
Definition rotate_bucket (base : list string) (keys : RotationKeys) (bucket : string) (stats : RotationStats) : store RotationStats :=
  let old_dir := bucket_dir_path base (old_path_key keys) bucket in
  let new_dir := bucket_dir_path base (new_path_key keys) bucket in
  done ← io (io_err op_rotate bucket) (unwrap_or_false (fs_try_exists_dir new_dir));
  if done : bool then mret stats else
  there ← io (io_err op_rotate bucket) (unwrap_or_false (fs_try_exists_dir old_dir));
  if negb there then mret stats else
  obj_files ← io (io_err op_rotate bucket) (collect_bucket_obj_files old_dir);
  stats ← for_each (fun path stats => migrated ← migrate_object_file keys path bucket; mret (count_object migrated stats)) obj_files stats;
  _ ← migrate_bucket_config keys old_dir bucket;
  _ ← io (io_err op_rotate bucket) (fs_rename_dir old_dir new_dir);
  mret (mkRotationStats (S (buckets_migrated stats)) (objects_migrated stats) (objects_already_done stats)).

Definition rotate_storage_tree (base : list string) (buckets : list string) (keys : RotationKeys) : store RotationStats :=
  for_each (rotate_bucket base keys) buckets stats_default.

(** ** Headers of the first format *)

Definition decode_v1_header (buf : bytes) : option Header :=
  if negb (bool_decide (slice 0 4 buf = MAGIC)) then None else
  if negb (from_le_bytes (slice 4 6 buf) =? 1) then None else
  if negb (from_le_bytes (slice 60 64 buf) =? crc32 (slice 0 60 buf)) then None else
  let raw_data_offset := from_le_bytes (slice 20 24 buf) in
  let data_offset := if raw_data_offset =? 0 then MIN_DATA_OFFSET else raw_data_offset in
  if data_offset <? MIN_DATA_OFFSET then None else
  Some (mkHeader (from_le_bytes (slice 8 16 buf)) (from_le_bytes (slice 16 20 buf)) data_offset (from_le_bytes (slice 6 8 buf)) VERSION).

Definition upgrade_one_container_header (chk : bytes) (path : fpath) (bucket : string) : store bool :=
  let err := fun msg => internal bucket "" op_upgrade msg in
  let fail := io_err op_upgrade bucket in
  let object_id := object_id_from_path path in
  h ← io fail (fs_open_rw path);
  file ← gets (fun w => default [] (in_data <$> fs_inodes (s_fs w) !! fh_inode h));
  actual_len ← io fail (fs_len file);
  buf ← io fail (fs_read_exact file 0 HEADER_SIZE);
  if is_ok (Format.decode buf chk object_id) then mret false else
  header ← lift_res (ok_or (decode_v1_header buf) (err (path_display path +:+ ": unrecognized header")));
  _ ← lift_res (map_err (fun e => err (FormatError_display e)) (check_total_len header actual_len));
  let encoded := Format.encode header chk object_id in
  now ← gets s_now;
  h ← io fail (fs_seek h 0);
  h ← io fail (fs_write_all h encoded now);
  h ← io fail (fs_seek h (trailer_offset header));
  h ← io fail (fs_write_all h encoded now);
  _ ← io fail (fs_sync_data h);
  mret true.

Definition upgrade_container_headers (base : list string) (buckets : list string) (path_key chk : bytes) : store Z :=
  for_each (fun bucket upgraded =>
    let dir := bucket_dir_path base path_key bucket in
    there ← io (io_err op_upgrade bucket) (unwrap_or_false (fs_try_exists_dir dir));
    if negb there then mret upgraded else
    obj_files ← io (io_err op_upgrade bucket) (collect_bucket_obj_files dir);
    for_each (fun path upgraded => u ← upgrade_one_container_header chk path bucket; mret (if u : bool then wrap64 (upgraded + 1) else upgraded))
      obj_files upgraded) buckets 0.

End rotation.
