(* ===== verification/Keystore.v ===== *)
(** * The keystore directory

    Models y2q-core/src/crypto/keystore.rs: the manifest that names the node key, the first
    run that creates it with the root account, the re-keying of the user store, the journal
    of a node key rotation, and the lock file.

    The user database is a file: [UserFileOps] is what redb over the encrypted file does to
    its bytes, under a file key.  serde on the manifest and the journal is an interface.
    The functions run on the files, the clock and the random source of a [Store]; file
    modes and log lines are not modelled. *)

From S2P Require Import Prelude Effects Primitives Types Format Crypto NodeKeys Sink Slots BucketKeys Lex Query Index Locks Posix FsView Filesystem EncryptedFile.
Import FilesystemStorage.

Record KeystoreManifest : Type := mkKeystoreManifest { format_version : Z; node_key_verifier_b64 : string; km_created_at : Z }.
Record RotationJournal : Type := mkRotationJournal { old_verifier_b64 : string; new_verifier_b64 : string }.

Class KeystoreJson : Type := {
  manifest_to_vec : KeystoreManifest -> result string bytes;
  manifest_from_slice : bytes -> result string KeystoreManifest;
  journal_to_vec : RotationJournal -> result string bytes;
  journal_from_slice : bytes -> result string RotationJournal;
}.
(** The values the fields can have. *)
Definition manifest_fits (m : KeystoreManifest) : Prop := in_u 16 (format_version m) /\ in_u 64 (km_created_at m) /\ blen (as_bytes (node_key_verifier_b64 m)) <= 2 ^ 20.
Definition journal_fits (j : RotationJournal) : Prop := blen (as_bytes (old_verifier_b64 j)) <= 2 ^ 20 /\ blen (as_bytes (new_verifier_b64 j)) <= 2 ^ 20.

Class KeystoreJsonLaws {KJ : KeystoreJson} : Prop := {
  manifest_written : forall m, manifest_fits m -> exists b, manifest_to_vec m = Ok b /\ manifest_from_slice b = Ok m /\ blen b <= 2 ^ 40;
  manifest_parsed : forall b m, manifest_from_slice b = Ok m -> in_u 16 (format_version m) /\ in_u 64 (km_created_at m);
  journal_written : forall j, journal_fits j -> exists b, journal_to_vec j = Ok b /\ journal_from_slice b = Ok j /\ blen b <= 2 ^ 40;
}.

(** The user database in its file, under a file key: opening it, which makes an empty one of
    an empty file, its rows in order, and a transaction that inserts some; the payload of
    a record. *)
Class UserFileOps : Type := {
  uf_open : bytes -> bytes -> result string bytes;
  uf_rows : bytes -> bytes -> result string (list (string * bytes));
  uf_insert : bytes -> bytes -> list (string * bytes) -> result string bytes;
  uf_plaintext_rows : bytes -> result string (list (string * bytes));
  uf_record : UserRecord -> result string bytes;
}.

(** [uf_view k c]: the file holds these users, sealed under [k]. *)
Class UserFileLaws {UF : UserFileOps} : Type := {
  uf_view : bytes -> bytes -> option (gmap string bytes);
  uf_open_new : forall k, exists c, uf_open k [] = Ok c /\ uf_view k c = Some ∅;
  uf_open_view : forall k c m, uf_view k c = Some m -> exists c', uf_open k c = Ok c' /\ uf_view k c' = Some m;
  uf_open_wrong : forall k c, uf_view k c = None -> c <> [] -> is_ok (uf_open k c) = false;
  uf_rows_view : forall k c m, uf_view k c = Some m -> exists l, uf_rows k c = Ok l /\ l ≡ₚ map_to_list m;
  uf_insert_view : forall k c m l, uf_view k c = Some m -> NoDup l.*1 -> exists c', uf_insert k c l = Ok c' /\ uf_view k c' = Some (list_to_map l ∪ m);
  uf_view_empty : forall k, uf_view k [] = None;
  uf_magic : forall k c m, uf_view k c = Some m -> take 8 c = EncryptedFileBackend.MAGIC;
}.

(** The bytes of two file keys do not open each other's databases. *)
Definition sealed_apart {UF : UserFileOps} {UL : UserFileLaws} (k k' : bytes) : Prop := forall c, is_Some (uf_view k c) -> uf_view k' c = None.

Section keystore.
Context {B : Base64Ops} {T : TokenOps} {HO : HashOps} {R : RngOps} {RR : RandomRange} {A : AeadOps} {KE : KemOps} {AR : Argon2Ops}.
Context {RD : RedbOps} {KJ : KeystoreJson} {UF : UserFileOps}.

Abbreviation ks := (prog Store CryptoError).

Definition KEYSTORE_FORMAT_VERSION : Z := 3.

Definition manifest_path (dir : list string) : fpath := mkPath dir "keystore" "json".
Definition users_path (dir : list string) : fpath := mkPath dir "users" "redb".
Definition legacy_pubkey_path (dir : list string) : fpath := mkPath dir "pubkey" "json".
Definition lock_path (dir : list string) : fpath := mkPath dir ".lock" "".
(** [node-key-rotation.json] *)
Definition rotation_journal_path (dir : list string) : fpath := mkPath dir "node-key-rotation" "json".

Definition kio (what : string) (p : fpath) (e : FsError) : CryptoError := KeystoreIo (what +:+ path_display p +:+ ": " +:+ fs_message e).
Definition uio (what : string) (p : fpath) (e : FsError) : CryptoError := CUserStore (what +:+ path_display p +:+ ": " +:+ fs_message e).
(** [Path::exists] *)
Definition exists_ (p : fpath) : ks bool := io (kio "" p) (unwrap_or_false (fs_try_exists p)).

(** [open] with [create_new] *)
Definition fs_create_new (p : fpath) (now : Z) : fsop FileHandle :=
  _ ← sys;
  there ← gets (fun fs => bool_decide (fp_dir p ∈ fs_dirs fs));
  if negb there then throw NoEntry else
  o ← gets (fun fs => fs_entries fs !! p);
  match o with
  | Some _ => throw (FsFailed "File exists (os error 17)")
  | None => i ← gets fs_next; _ ← modify (alloc p now); mret (mkFileHandle i 0)
  end.
(** [open] with [create]: the file as it is, or a new one *)
Definition fs_open_create (p : fpath) (now : Z) : fsop bytes :=
  _ ← sys;
  there ← gets (fun fs => bool_decide (fp_dir p ∈ fs_dirs fs));
  if negb there then throw NoEntry else
  o ← gets (fun fs => data_at fs p);
  match o with
  | Some c => mret c
  | None => _ ← modify (alloc p now); mret []
  end.
(** What the database leaves in its open file. *)
Definition fs_commit (p : fpath) (c : bytes) (now : Z) : fsop unit :=
  _ ← sys;
  o ← gets (fun fs => fs_entries fs !! p);
  i ← lift_res (ok_or o NoEntry);
  modify (set_inode i (mkInode c true now)).

(** ** The user store's file *)

Definition us_open (path : fpath) (nk : bytes) : ks unit :=
  now ← gets s_now;
  c ← io (uio "open " path) (fs_open_create path now);
  c ← lift_res (map_err (fun e => CUserStore ("open " +:+ path_display path +:+ ": " +:+ e)) (uf_open (derive_user_store_file_key nk) c));
  io (uio "open " path) (fs_commit path c now).

Definition with_users {V} (path : fpath) (f : bytes -> result string V) : ks V :=
  c ← io (uio "" path) (fs_read path); lift_res (map_err CUserStore (f c)).

Definition export_raw (path : fpath) (nk : bytes) : ks (list (string * bytes)) := with_users path (uf_rows (derive_user_store_file_key nk)).

Definition import_raw (path : fpath) (nk : bytes) (records : list (string * bytes)) : ks unit :=
  c ← with_users path (fun c => uf_insert (derive_user_store_file_key nk) c records);
  now ← gets s_now;
  io (uio "commit" path) (fs_commit path c now).

(** [UserStore::upsert] on the open file *)
Definition upsert_record (path : fpath) (nk : bytes) (record : UserRecord) : ks unit :=
  payload ← lift_res (map_err (fun e => CUserStore ("serialize record: " +:+ e)) (uf_record record));
  import_raw path nk [(ur_username record, payload)].

Definition is_plaintext_user_store (path : fpath) : ks bool :=
  o ← io (uio "open " path) (match_res (fs_open path) (fun c => mret (Some c)) (fun e => match e with NoEntry => mret None | _ => throw e end));
  match o with
  | None => mret false
  | Some c =>
      _ ← io (uio "read " path) sys;
      let head := take 8 c in
      mret (negb (bool_decide (head = [])) && ((length head <? 8)%nat || negb (bool_decide (head = EncryptedFileBackend.MAGIC))))
  end.

(** [match remove_file(&tmp) { NotFound => {} .. }] *)
Definition remove_if_there (f : FsError -> CryptoError) (p : fpath) : ks unit :=
  io f (match_res (fs_remove_file p) mret (fun e => match e with NoEntry => mret tt | _ => throw e end)).

Definition mark_path_synced (p : fpath) : fsop unit :=
  _ ← sys; _ ← sys; o ← gets (fun fs => fs_entries fs !! p); i ← lift_res (ok_or o NoEntry); modify (mark_synced i).

(** The copy is synced, renamed into place, and so is its directory if it can be. *)
Definition install_users (f : string -> fpath -> FsError -> CryptoError) (tmp path : fpath) : ks unit :=
  _ ← io (f "sync " tmp) (mark_path_synced tmp);
  _ ← io (f "rename " tmp) (fs_rename tmp path);
  io (f "" tmp) (sync_parent (fp_dir path)).

Definition migrate_plaintext_user_store (path : fpath) (nk : bytes) : ks unit :=
  let tmp := with_extension path "migrating" in
  _ ← remove_if_there (uio "remove " tmp) tmp;
  records ← with_users path uf_plaintext_rows;
  _ ← us_open tmp nk;
  _ ← import_raw tmp nk records;
  install_users uio tmp path.

(** ** The manifest *)

Definition read_manifest (p : fpath) : ks KeystoreManifest :=
  raw ← io (kio "read " p) (fs_read p);
  lift_res (map_err (fun e => CKeystoreCorrupt (path_display p) ("parse: " +:+ e)) (manifest_from_slice raw)).

Definition verify_node_key (dir : list string) (nk : bytes) : ks unit :=
  let corrupt := CKeystoreCorrupt (path_display (manifest_path dir)) in
  legacy ← exists_ (legacy_pubkey_path dir);
  if legacy : bool then throw (LegacyKeystore (path_display (legacy_pubkey_path dir))) else
  there ← exists_ (manifest_path dir);
  if negb there then
    users ← exists_ (users_path dir);
    throw (if users : bool then corrupt "keystore.json missing but users.redb present" else KeystoreMissing (path_display (manifest_path dir)))
  else
  parsed ← read_manifest (manifest_path dir);
  if negb (format_version parsed =? KEYSTORE_FORMAT_VERSION) then throw (corrupt "unsupported format_version") else
  actual ← lift_res (ok_or (b64_decode (node_key_verifier_b64 parsed)) (corrupt "verifier base64 decode"));
  if bool_decide (actual = derive_node_key_verifier nk) then mret tt else throw NodeKeyMismatch.

Definition load (dir : list string) (nk : bytes) : ks unit :=
  _ ← verify_node_key dir nk;
  plain ← is_plaintext_user_store (users_path dir);
  _ ← (if plain : bool then migrate_plaintext_user_store (users_path dir) nk else mret tt);
  us_open (users_path dir) nk.

(** Write all of a new file and sync it. *)
Definition write_synced (p : fpath) (opened : fsop FileHandle) (what : string) (b : bytes) : ks unit :=
  now ← gets s_now;
  h ← io (kio what p) opened;
  h ← io (kio "write " p) (fs_write_all h b now);
  io (kio "fsync " p) (fs_sync_data h).

Definition write_manifest (p : fpath) (m : KeystoreManifest) : ks unit :=
  json ← lift_res (map_err (fun e => KeystoreIo ("serialize keystore manifest: " +:+ e)) (manifest_to_vec m));
  now ← gets s_now;
  write_synced p (fs_create_new p now) "open O_EXCL " json.

(** Missing parents, then the directory itself, which may be there. *)
Definition ensure_keystore_dir (dir : list string) : ks bool :=
  let mkdir_err := fun e => KeystoreIo ("mkdir: " +:+ fs_message e) in
  _ ← io mkdir_err (fs_create_dir_all (parent_dir dir));
  _ ← io mkdir_err sys;
  there ← gets (fun w => bool_decide (dir ∈ fs_dirs (s_fs w)));
  if there : bool then mret false else
  _ ← modify (fun w => set_fs (add_dir dir (s_fs w)) w);
  mret true.

Definition draw {V} (f : rng -> result CryptoError (V * rng)) : ks V := fun w =>
  match f (s_rng w) with Ok (v, r) => (Ok v, set_rng r w) | Err e => (Err e, w) end.

Definition generate_root_password : ks bytes :=
  draw (fun r => let '(buf, r) := fill_bytes r 24 in Ok (as_bytes (b64url_encode buf), r)).

(** The answer: the root password. *)
Definition first_run (dir : list string) (root_username : string) (params : Argon2Params) (nk : bytes) : ks bytes :=
  _ ← ensure_keystore_dir dir;
  there ← exists_ (manifest_path dir);
  if there : bool then throw (KeystoreIo (path_display (manifest_path dir) +:+ " already exists; refusing to overwrite")) else
  root_password ← generate_root_password;
  '(slots, primary_slot) ← draw (fun r => '(slots, p, r) ← new_slots_random root_username root_password params Admin false r; Ok ((slots, p), r));
  now ← gets s_now;
  _ ← write_manifest (manifest_path dir)
        (mkKeystoreManifest KEYSTORE_FORMAT_VERSION (b64_encode (derive_node_key_verifier nk)) now);
  _ ← us_open (users_path dir) nk;
  now ← gets s_now;
  _ ← upsert_record (users_path dir) nk
        (mkUserRecord root_username now None params slots (Z.of_nat primary_slot mod 256) Admin);
  mret root_password.

(** ** Rotation *)

Definition rekey_user_store (dir : list string) (old_nk new_nk : bytes) : ks unit :=
  let users := users_path dir in
  let tmp := with_extension users "rekeying" in
  _ ← remove_if_there (kio "remove " tmp) tmp;
  match_res (us_open users old_nk)
    (fun _ =>
       records ← export_raw users old_nk;
       _ ← us_open tmp new_nk;
       _ ← import_raw tmp new_nk records;
       install_users kio tmp users)
    (fun old_err => match_res (us_open users new_nk) (fun _ => mret tt) (fun _ => throw old_err)).

Definition rotation_journal_exists (dir : list string) : ks bool := exists_ (rotation_journal_path dir).

Definition write_rotation_journal (dir : list string) (old_nk new_nk : bytes) : ks unit :=
  let journal := mkRotationJournal (b64_encode (derive_node_key_verifier old_nk)) (b64_encode (derive_node_key_verifier new_nk)) in
  json ← lift_res (map_err (fun e => KeystoreIo ("serialize rotation journal: " +:+ e)) (journal_to_vec journal));
  now ← gets s_now;
  write_synced (rotation_journal_path dir) (fs_create_new (rotation_journal_path dir) now) "create " json.

Definition read_rotation_journal (dir : list string) : ks (option RotationJournal) :=
  let path := rotation_journal_path dir in
  there ← exists_ path;
  if negb there then mret None else
  raw ← io (kio "read " path) (fs_read path);
  journal ← lift_res (map_err (fun e => CKeystoreCorrupt (path_display path) ("parse rotation journal: " +:+ e)) (journal_from_slice raw));
  mret (Some journal).

Definition delete_rotation_journal (dir : list string) : ks unit :=
  let path := rotation_journal_path dir in
  there ← exists_ path;
  if there : bool then io (kio "remove " path) (fs_remove_file path) else mret tt.

(** [with_extension("json.rotate-tmp")] *)
Definition manifest_tmp (dir : list string) : fpath := mkPath dir "keystore.json" "rotate-tmp".

Definition rewrite_verifier (dir : list string) (new_nk : bytes) : ks unit :=
  parsed ← read_manifest (manifest_path dir);
  let parsed := mkKeystoreManifest (format_version parsed) (b64_encode (derive_node_key_verifier new_nk)) (km_created_at parsed) in
  json ← lift_res (map_err (fun e => KeystoreIo ("serialize keystore manifest: " +:+ e)) (manifest_to_vec parsed));
  now ← gets s_now;
  _ ← write_synced (manifest_tmp dir) (fs_open_truncate (manifest_tmp dir) now) "open " json;
  io (kio "rename " (manifest_path dir)) (fs_rename (manifest_tmp dir) (manifest_path dir)).

(** Whether another process holds the lock is up to the environment. *)
Definition acquire_lock (held : bool) (dir : list string) : ks unit :=
  _ ← ensure_keystore_dir dir;
  now ← gets s_now;
  _ ← io (kio "open lock " (lock_path dir)) (fs_open_create (lock_path dir) now);
  _ ← io (kio "lock " (lock_path dir)) sys;
  if held then throw (KeystoreIo ("another y2qd already holds " +:+ path_display (lock_path dir))) else mret tt.

End keystore.
