(* ===== verification/FilesystemSpec.v ===== *)
(** * What the filesystem backend promises

    An object that was stored is read back as it was; a write replaces it in one step, also
    for a reader that comes after a crash; and where that fails. *)

From S2P Require Import Prelude Effects Primitives Types Format Crypto NodeKeys Sink BucketKeys Lex Query Index IndexSpec Locks Posix Filesystem.
Import FilesystemStorage.

(** ** Runs that only faults can spoil *)

Section yields.
Context {W E : Type} (step : W -> W -> Prop) (faulty : W -> Prop).
Context {Hrefl : Reflexive step} {Htrans : Transitive step}.
Hypothesis Hback : forall w w', step w w' -> faulty w' -> faulty w.

(** [m] answers [v], unless a fault stops it; either way it takes a [step]. *)
Definition yields {T} (m : prog W E T) (v : T) (w : W) : Prop :=
  post m (fun x w' => x = v /\ step w w') (fun _ w' => faulty w /\ step w w') w.

Lemma yields_ret {T} (v : T) w : yields (mret v) v w.
Proof using Hrefl. apply post_ret. by split. Qed.

Lemma yields_bind {T U} (m : prog W E T) (f : T -> prog W E U) v u w :
  yields m v w -> (forall w', step w w' -> yields (f v) u w') -> yields (m ≫= f) u w.
Proof using Hback Htrans.
  intros Hm Hf. apply post_bind. eapply post_mono; [| |exact Hm]; [|done].
  intros x w1 [-> Hs]. eapply post_mono; [| |exact (Hf w1 Hs)].
  - intros y w2 [-> Hs2]. split; [done|by trans w1].
  - intros e w2 [Hf2 Hs2]. split; [by apply (Hback w w1)|by trans w1].
Qed.

Lemma yields_run {T} (m : prog W E T) v w : yields m v w -> ~ faulty w -> exists w', m w = (Ok v, w') /\ step w w'.
Proof using. unfold yields, post. destruct (m w) as [[x|e] w']; [intros [-> ?] _; eauto|]. by intros [? _]. Qed.

End yields.

Definition fs_step (fs fs' : Fs) : Prop := exists l, fs' = with_faults l fs /\ (fs_faults fs = [] -> l = []).
Definition fs_faulty (fs : Fs) : Prop := fs_faults fs <> [].
#[export] Instance fs_step_refl : Reflexive fs_step.
Proof. intros fs. exists (fs_faults fs). by rewrite with_faults_self. Qed.
#[export] Instance fs_step_trans : Transitive fs_step.
Proof. intros a b c (l & -> & Hl) (l' & -> & Hl'). exists l'. split; [done|]. cbn in Hl'. auto. Qed.
Lemma fs_step_back fs fs' : fs_step fs fs' -> fs_faulty fs' -> fs_faulty fs.
Proof. intros (l & -> & Hl) Hf Hn. apply Hf. cbn. auto. Qed.

Abbreviation fs_yields := (yields fs_step fs_faulty).

Lemma fs_step_data fs fs' p : fs_step fs fs' -> data_at fs' p = data_at fs p.
Proof. by intros (l & -> & _). Qed.

Lemma fs_yields_bind {T U} (m : fsop T) (f : T -> fsop U) v u fs :
  fs_yields m v fs -> (forall fs', fs_step fs fs' -> fs_yields (f v) u fs') -> fs_yields (m ≫= f) u fs.
Proof. apply yields_bind; [apply _|apply fs_step_back]. Qed.

Lemma sys_yields fs : fs_yields sys tt fs.
Proof. apply post_sys; [intros l Hl; split; [done|by exists l]|]. intros l m Hf. split; [done|]. by exists l. Qed.

Lemma lift_yields {T} (m : result FsError T) v fs : m = Ok v -> fs_yields (lift_res m) v fs.
Proof. intros ->. by apply post_lift; [intros ? [= ->]|]. Qed.

Lemma fs_open_yields p b fs : data_at fs p = Some b -> fs_yields (fs_open p) b fs.
Proof.
  intros Hd. apply (fs_yields_bind _ _ tt); [apply sys_yields|]. intros fs' Hs. apply (fs_yields_bind _ _ (Some b)).
  - apply post_gets. split; [by rewrite (fs_step_data fs)|done].
  - intros fs'' _. by apply lift_yields.
Qed.
Lemma fs_read_yields p b fs : data_at fs p = Some b -> fs_yields (fs_read p) b fs.
Proof.
  intros Hd. apply (fs_yields_bind _ _ b); [by apply fs_open_yields|]. intros fs' _. apply (fs_yields_bind _ _ tt); [apply sys_yields|].
  intros fs'' _. by apply post_ret.
Qed.
Lemma fs_len_yields b fs : fs_yields (fs_len b) (blen b) fs.
Proof. apply (fs_yields_bind _ _ tt); [apply sys_yields|]. intros fs' _. by apply post_ret. Qed.
Lemma fs_read_exact_yields b off n fs : off + n <= blen b -> fs_yields (fs_read_exact b off n) (slice off (off + n) b) fs.
Proof.
  intros Hn. apply (fs_yields_bind _ _ tt); [apply sys_yields|]. intros fs' _. apply lift_yields.
  by rewrite (proj2 (Z.ltb_ge _ _)).
Qed.
Lemma invalid_yields {E T} (display : E -> string) (m : result E T) v fs : m = Ok v -> fs_yields (invalid display m) v fs.
Proof. intros ->. by apply lift_yields. Qed.

(** The calls a reader makes, one after the other. *)
Ltac fs_calls :=
  first [eapply fs_yields_bind; [first [eapply fs_open_yields; eassumption|eapply fs_len_yields|eapply fs_read_exact_yields
    |eapply sys_yields|eapply invalid_yields; eassumption]|intros]].

Section spec.
Context {A : AeadOps} {X : Xxh3Ops} {B : Base64Ops} {HO : HashOps} {R : RngOps}.
Context {RD : RedbOps} {J : MetadataJson} {CJ : ConfigJson} {U : UnicodeOps}.
Context {AL : AeadLaws} {HL : HashLaws} {RL : RngLaws} {JL : JsonLaws}.

(** ** An object's file *)

(** [file] is the file of an object at [p] with these data and this metadata. *)
Definition object_file (mek chk : bytes) (p : fpath) (file data : bytes) (md : Metadata) : Prop :=
  exists h pad meta json,
    header_wf h /\ data_len h = blen data /\ meta_len h = blen meta /\ data_offset h = HEADER_SIZE + blen pad /\
    file = Format.encode h chk (fp_stem p) ++ pad ++ data ++ meta ++ Format.encode h chk (fp_stem p) /\
    blen file <= FILE_MAX /\ decrypt_meta mek meta (fp_stem p) = Ok json /\ from_slice json = Ok md.

(** What a reader finds in it. *)
Record readable (mek chk : bytes) (p : fpath) (file data : bytes) (md : Metadata) (h : Header) : Prop := mkReadable {
  rd_long : HEADER_SIZE <= blen file;
  rd_header : Format.decode (slice 0 HEADER_SIZE file) chk (fp_stem p) = Ok h;
  rd_len : check_total_len h (blen file) = Ok tt;
  rd_data_len : data_len h = blen data;
  rd_data : slice (data_offset h) (data_offset h + data_len h) file = data;
  rd_meta_end : data_offset h + data_len h + meta_len h <= blen file;
  rd_meta_offset : meta_offset h = data_offset h + data_len h;
  rd_offset : HEADER_SIZE <= data_offset h;
  rd_wf : header_wf h;
  rd_meta : exists json, decrypt_meta mek (slice (meta_offset h) (meta_offset h + meta_len h) file) (fp_stem p) = Ok json /\
    from_slice json = Ok md;
}.

Lemma object_file_readable mek chk p file data md : object_file mek chk p file data md -> exists h, readable mek chk p file data md h.
Proof using HL.
  intros (h & pad & meta & json & Hwf & Hd & Hm & Ho & Hf & Hmax & Hdec & Hjs).
  pose proof (blen_encode h chk (fp_stem p)) as He. pose proof (blen_nonneg pad) as Hp. pose proof (blen_nonneg data). pose proof (blen_nonneg meta).
  assert (Hlen : blen file = 64 + blen pad + blen data + blen meta + 64) by (rewrite Hf, !blen_app, He; lia).
  unfold HEADER_SIZE, FILE_MAX in *. destruct (header_layout h (blen file) Hwf) as [Hok Hlay].
  assert (Hct : check_total_len h (blen file) = Ok tt) by (apply Hok; unfold HEADER_SIZE, u64_max; lia).
  destruct (Hlay Hct) as (_ & Hmo & _ & _). exists h. constructor; unfold HEADER_SIZE; try done; try lia.
  - assert (slice 0 64 file = Format.encode h chk (fp_stem p)) as -> by (rewrite Hf; by slices).
    pose proof Hwf as (Hfit & Hv & Hmin). unfold MIN_DATA_OFFSET, HEADER_SIZE in Hmin. rewrite header_roundtrip; [|done|done|right; unfold MIN_DATA_OFFSET, HEADER_SIZE; lia].
    rewrite (proj2 (Z.eqb_neq _ _)) by lia. by destruct h.
  - rewrite Hf, Ho, Hd. set (e := Format.encode h chk (fp_stem p)) in *. rewrite app_assoc. apply slice_app_middle; [rewrite blen_app|]; lia.
  - exists json. split; [|done]. rewrite Hmo, Hm, Ho, Hd. set (e := Format.encode h chk (fp_stem p)) in *. rewrite Hf.
    replace (e ++ pad ++ data ++ meta ++ e) with ((e ++ pad ++ data) ++ meta ++ e) by (by rewrite <- !app_assoc).
    rewrite slice_app_middle; [done| |]; rewrite ?blen_app; lia.
Qed.

Lemma read_obj_metadata_yields mek chk p file data md fs :
  object_file mek chk p file data md -> data_at fs p = Some file -> fs_yields (read_obj_metadata p mek chk) md fs.
Proof using HL.
  intros [h [Hlong Hh Hl Hdl Hdata Hend Hmo Hoff Hwf (json & Hdec & Hjs)]]%object_file_readable Hf. unfold read_obj_metadata.
  fs_calls. fs_calls. fs_calls; [lia|]. cbv zeta. fs_calls. fs_calls. fs_calls. fs_calls; [lia|]. fs_calls. by apply invalid_yields.
Qed.

(** ** The store *)

Lemma post_io {E T} (f : FsError -> E) (m : fsop T) P Q w :
  post m (fun x fs => P x (set_fs fs w)) (fun e fs => Q (f e) (set_fs fs w)) (s_fs w) -> post (io f m) P Q w.
Proof using. unfold post, io. by destruct (m (s_fs w)) as [[x|e] fs]. Qed.

Definition st_step (w w' : Store) : Prop := exists fs, fs_step (s_fs w) fs /\ w' = set_fs fs w.
Definition st_faulty (w : Store) : Prop := fs_faulty (s_fs w).
#[export] Instance st_step_refl : Reflexive st_step.
Proof using. intros w. exists (s_fs w). split; [done|]. by destruct w. Qed.
#[export] Instance st_step_trans : Transitive st_step.
Proof using. intros a b c (f & Hf & ->) (g & Hg & ->). exists g. split; [by trans f|done]. Qed.
Lemma st_step_back w w' : st_step w w' -> st_faulty w' -> st_faulty w.
Proof using. intros (fs & Hs & ->). by apply fs_step_back. Qed.

Abbreviation st_yields := (yields st_step st_faulty).

Lemma st_bind {T V} (m : prog Store Error T) (f : T -> prog Store Error V) v u w :
  st_yields m v w -> (forall w', st_step w w' -> st_yields (f v) u w') -> st_yields (m ≫= f) u w.
Proof using. apply yields_bind; [apply _|apply st_step_back]. Qed.

Lemma io_yields {T} (f : FsError -> Error) (m : fsop T) v w : fs_yields m v (s_fs w) -> st_yields (io f m) v w.
Proof using.
  intros Hm. apply post_io. eapply post_mono; [| |exact Hm]; intros ? fs [? ?]; (split; [done|]); by exists fs.
Qed.
Lemma st_lift {T} (m : result Error T) v w : m = Ok v -> st_yields (lift_res m) v w.
Proof using. intros ->. by apply post_lift; [intros ? [= ->]|]. Qed.
Lemma st_gets {T} (f : Store -> T) v w : f w = v -> st_yields (gets f : prog Store Error T) v w.
Proof using. intros <-. by apply post_gets. Qed.
Lemma st_need {T} (f : NodeKeySlot -> result Error T) v w : f (s_keys w) = Ok v -> st_yields (need f) v w.
Proof using. intros Hf. apply (st_bind _ _ (s_keys w)); [by apply st_gets|]. intros w' _. by apply st_lift. Qed.

(** [(bucket, key)] is a valid address, the node keys are installed, and its file is [p]. *)
Record addressed (w : Store) (bucket key : string) (p : fpath) (mek chk : bytes) : Prop := mkAddressed {
  ad_bucket : validate_bucket bucket = Ok tt;
  ad_key : validate_key key = Ok tt;
  ad_path : exists pk, path_key (s_keys w) = Some pk /\ p = obj_path_for (s_base w) pk bucket key;
  ad_mek : object_metadata_key (s_keys w) = Some mek;
  ad_chk : container_header_key (s_keys w) = Some chk;
}.

Lemma addressed_step w w' b k p mek chk : st_step w w' -> addressed w b k p mek chk -> addressed w' b k p mek chk.
Proof using. intros (fs & _ & ->) []. by constructor. Qed.

Lemma key_path_yields w b k p mek chk : addressed w b k p mek chk -> st_yields (key_path b k) p w.
Proof using.
  intros [_ _ (pk & Hpk & ->) _ _]. apply (st_bind _ _ pk); [apply st_need; unfold require_path_key; by rewrite Hpk|].
  intros w' (fs & _ & ->). apply (st_bind _ _ (s_base w)); [by apply st_gets|]. intros ? _. by apply post_ret.
Qed.

Lemma unlocked_yields w b k : s_locks w !! (b, k) = None -> st_yields (unlocked b k) tt w.
Proof using.
  intros Hl. apply (st_bind _ _ (s_locks w)); [by apply st_gets|]. intros w' _. apply st_lift. unfold check_not_locked. by rewrite Hl.
Qed.

(** What the checks at the start of every reader leave: the address, and a file to open. *)
Record serving (w : Store) (b k : string) (p : fpath) (mek chk file data : bytes) (md : Metadata) : Prop := mkServing {
  sv_addr : addressed w b k p mek chk;
  sv_file : data_at (s_fs w) p = Some file;
  sv_object : object_file mek chk p file data md;
}.

Lemma serving_step w w' b k p mek chk file data md : st_step w w' -> serving w b k p mek chk file data md -> serving w' b k p mek chk file data md.
Proof using.
  intros Hs [Ha Hf Ho]. constructor; [by apply (addressed_step w)| |done]. destruct Hs as (fs & Hs & ->). cbn [set_fs s_fs]. by rewrite (fs_step_data (s_fs w)).
Qed.

Lemma open_checked_yields op w b k p mek chk file data md : serving w b k p mek chk file data md ->
  exists h, readable mek chk p file data md h /\ st_yields (open_checked op b k p) (file, h) w.
Proof using HL.
  intros [Ha Hf Ho]. destruct (object_file_readable _ _ _ _ _ _ Ho) as [h Hr]. exists h. split; [done|].
  pose proof Hr as [Hlong Hh Hl Hdl Hdata Hend Hmo Hoff Hwf _].
  apply (st_bind _ _ file); [by apply io_yields, fs_open_yields|]. intros w1 Hs1.
  apply (st_bind _ _ (slice 0 HEADER_SIZE file)); [apply io_yields, fs_read_exact_yields; lia|]. intros w2 Hs2.
  apply (st_bind _ _ chk).
  { apply st_need. unfold require_container_header_key. apply (addressed_step _ w1) in Ha; [|done]. apply (addressed_step _ w2) in Ha; [|done].
    by rewrite (ad_chk _ _ _ _ _ _ Ha). }
  intros w3 _. cbv zeta. apply (st_bind _ _ h); [apply st_lift; unfold object_id_from_path; by rewrite Hh|]. intros w4 _.
  apply (st_bind _ _ (blen file)); [by apply io_yields, fs_len_yields|]. intros w5 _.
  apply (st_bind _ _ tt); [apply st_lift; by rewrite Hl|]. intros w6 _. by apply post_ret.
Qed.

(** The common start of the readers. *)
Lemma reader_yields {T} op w b k p mek chk file data md (f : bytes * Header -> prog Store Error T) v :
  serving w b k p mek chk file data md -> s_locks w !! (b, k) = None ->
  (forall h w', readable mek chk p file data md h -> st_yields (f (file, h)) v w') ->
  st_yields (_ ← lift_res (validate_bucket b); _ ← lift_res (validate_key k); obj_path ← key_path b k; _ ← unlocked b k;
             x ← open_checked op b k obj_path; f x) v w.
Proof using HL.
  intros Hsv Hl Hf. pose proof (sv_addr _ _ _ _ _ _ _ _ _ Hsv) as Ha.
  apply (st_bind _ _ tt); [by apply st_lift, (ad_bucket _ _ _ _ _ _ Ha)|]. intros w1 Hs1.
  apply (st_bind _ _ tt); [by apply st_lift, (ad_key _ _ _ _ _ _ Ha)|]. intros w2 Hs2. assert (Hs12 : st_step w w2) by (by trans w1).
  apply (st_bind _ _ p); [eapply key_path_yields, addressed_step; eassumption|]. intros w3 Hs3. assert (Hs13 : st_step w w3) by (by trans w2).
  apply (st_bind _ _ tt); [apply unlocked_yields; by destruct Hs13 as (? & _ & ->)|]. intros w4 Hs4. assert (Hs14 : st_step w w4) by (by trans w3).
  destruct (open_checked_yields op w4 b k p mek chk file data md) as (h & Hr & Hy); [by apply (serving_step w)|].
  apply (st_bind _ _ (file, h)); [done|]. intros w5 _. by apply Hf.
Qed.

Lemma get_yields w b k p mek chk file data md : serving w b k p mek chk file data md -> s_locks w !! (b, k) = None -> st_yields (get b k) data w.
Proof using HL.
  intros Hsv Hl. eapply reader_yields; [done..|]. intros h w' [Hlong Hh Hln Hdl Hdata Hend Hmo Hoff Hwf _].
  apply (st_bind _ _ tt); [apply io_yields, sys_yields|]. intros w1 _. apply io_yields. rewrite <- Hdata. apply fs_read_exact_yields.
  destruct Hwf as ((_ & Hm & _) & _). unfold in_u in Hm. lia.
Qed.

Lemma get_range_yields w b k p mek chk file data md a z : serving w b k p mek chk file data md -> s_locks w !! (b, k) = None ->
  0 <= a <= z -> st_yields (get_range b k a z) (slice a (Z.min (z + 1) (blen data)) data) w.
Proof using HL.
  intros Hsv Hl Haz. eapply reader_yields; [done..|]. intros h w' [Hlong Hh Hln Hdl Hdata Hend Hmo Hoff Hwf _].
  pose proof (blen_nonneg data) as Hnn. destruct Hwf as ((Hd & Hm & _) & _). unfold in_u in Hm, Hd. unfold HEADER_SIZE in Hoff.
  destruct ((data_len h =? 0) || (data_len h <=? a)) eqn:Ec.
  - rewrite slice_empty; [by apply post_ret|]. apply orb_true_iff in Ec as [Ec|Ec]; [apply Z.eqb_eq in Ec|apply Z.leb_le in Ec]; lia.
  - apply orb_false_iff in Ec as [Hne Hlt]. apply Z.eqb_neq in Hne. apply Z.leb_gt in Hlt. cbv zeta.
    apply (st_bind _ _ tt); [apply io_yields, sys_yields|]. intros w1 _. apply io_yields.
    rewrite !wrap64_small; [|lia|rewrite wrap64_small; lia]. set (n := Z.min z (data_len h - 1) - a + 1).
    assert (slice a (Z.min (z + 1) (blen data)) data = slice (data_offset h + a) (data_offset h + a + n) file) as ->.
    { rewrite <- Hdata at 2. rewrite slice_slice by lia. f_equal; lia. }
    apply fs_read_exact_yields. lia.
Qed.

Lemma describe_yields w b k p mek chk file data md : serving w b k p mek chk file data md -> s_locks w !! (b, k) = None ->
  fs_faults (s_fs w) = [] -> st_yields (describe b k) md w.
Proof using HL.
  intros Hsv Hl Hq. pose proof (sv_addr _ _ _ _ _ _ _ _ _ Hsv) as Ha.
  apply (st_bind _ _ tt); [by apply st_lift, (ad_bucket _ _ _ _ _ _ Ha)|]. intros w1 Hs1.
  apply (st_bind _ _ tt); [by apply st_lift, (ad_key _ _ _ _ _ _ Ha)|]. intros w2 Hs2. assert (Hs12 : st_step w w2) by (by trans w1).
  apply (st_bind _ _ p); [eapply key_path_yields, addressed_step; eassumption|]. intros w3 Hs3. assert (Hs13 : st_step w w3) by (by trans w2).
  apply (st_bind _ _ tt); [apply unlocked_yields; by destruct Hs13 as (? & _ & ->)|]. intros w4 Hs4. assert (Hs14 : st_step w w4) by (by trans w3).
  apply (serving_step _ w4) in Hsv as Hsv4; [|done].
  assert (Hq4 : fs_faults (s_fs w4) = []) by (destruct Hs14 as (fs & (l & -> & Hl') & ->); cbn; auto).
  apply (st_bind _ _ true).
  { apply io_yields. unfold unwrap_or_false, fs_try_exists, sys, match_res, yields, post, mbind, prog_bind. rewrite Hq4. cbn.
    rewrite (sv_file _ _ _ _ _ _ _ _ _ Hsv4). split; [by rewrite bool_decide_eq_true_2|done]. }
  intros w5 Hs5. assert (Hs15 : st_step w w5) by (by trans w4). apply (addressed_step _ w5) in Ha as Ha5; [|done].
  apply (st_bind _ _ mek); [apply st_need; unfold require_object_metadata_key; by rewrite (ad_mek _ _ _ _ _ _ Ha5)|]. intros w6 Hs6.
  assert (Hs16 : st_step w w6) by (by trans w5). apply (addressed_step _ w6) in Ha as Ha6; [|done].
  apply (st_bind _ _ chk); [apply st_need; unfold require_container_header_key; by rewrite (ad_chk _ _ _ _ _ _ Ha6)|]. intros w7 Hs7.
  apply (serving_step _ w7) in Hsv as [_ Hf Ho]; [|by trans w6]. by eapply io_yields, read_obj_metadata_yields.
Qed.


(** ** Writing *)

(** [w] differs from [w0] in its files, its random source and its queue only, and its
    locks are [L]. *)
Record at_work (w0 w : Store) (L : LockRegistry) : Prop := mkAtWork {
  aw_base : s_base w = s_base w0;
  aw_keys : s_keys w = s_keys w0;
  aw_now : s_now w = s_now w0;
  aw_index : s_index w = s_index w0;
  aw_locks : s_locks w = L;
}.

(** How a write fails: no object changed, and without a fault there is a reason. *)
Definition failed (why : Prop) (w0 w : Store) (L : LockRegistry) : Prop := at_work w0 w L /\ gave_up why (s_fs w0) (s_fs w).

Lemma failed_mono (P Q : Prop) w0 w L : (P -> Q) -> failed P w0 w L -> failed Q w0 w L.
Proof using. intros HPQ [? ?]. split; [done|]. by apply (gave_up_mono P). Qed.

Lemma io_work {T} (f : FsError -> Error) (m : fsop T) (P : T -> Fs -> Prop) (why : Prop) w0 w L :
  at_work w0 w L -> post m P (fun _ => gave_up why (s_fs w0)) (s_fs w) ->
  post (io f m) (fun x w' => at_work w0 w' L /\ P x (s_fs w')) (fun _ w' => failed why w0 w' L) w.
Proof using.
  intros [? ? ? ? ?] Hm. apply post_io. eapply post_mono; [| |exact Hm]; intros x fs HP; (split; [|done]); by constructor.
Qed.

(** Reading in the middle of a write. *)
Lemma reads_kept {T} (m : fsop T) fs0 fs : only_reads m -> kept fs0 fs ->
  post m (fun _ fs' => kept fs0 fs' /\ fs_step fs fs') (fun _ fs' => kept fs0 fs' /\ fs_step fs fs') fs.
Proof using.
  intros Hm Hk. unfold post. destruct (Hm fs) as (l & El & Hl). destruct (m fs) as [[x|e] fs']; cbn in El; subst fs';
    (split; [by apply kept_with_faults|by exists l]).
Qed.

Lemma read_obj_metadata_reads p mek chk : only_reads (read_obj_metadata p mek chk).
Proof using. unfold read_obj_metadata, invalid. cbv zeta. reads. Qed.

(** A creation time as it can come out of a file. *)
Definition stamp_ok (prior : option Z) : Prop := forall t, prior = Some t -> in_u 64 t.

Lemma read_obj_metadata_stamp p mek chk fs m fs' : read_obj_metadata p mek chk fs = (Ok m, fs') -> stamp_ok (Some (md_created m)).
Proof using JL.
  intros E t [= <-]. unfold read_obj_metadata in E. repeat (apply prog_bind_Ok in E as (? & ? & ? & E)). unfold invalid in E.
  destruct (from_slice _) eqn:Ej; [|done]. cbn in E. injection E as <- <-. by eapply json_created.
Qed.

Lemma existing_work op b k p mek chk w0 w L : at_work w0 w L -> kept (s_fs w0) (s_fs w) -> fp_ext p = "obj" ->
  post (existing op b k p mek chk)
    (fun x w' => (at_work w0 w' L /\ kept (s_fs w0) (s_fs w') /\ fs_dirs (s_fs w') = fs_dirs (s_fs w)) /\ x.1 = bool_decide (is_Some (data_at (s_fs w0) p)) /\
       stamp_ok x.2 /\
       forall file data md, data_at (s_fs w0) p = Some file -> object_file mek chk p file data md -> fs_faults (s_fs w0) = [] ->
         x.2 = Some (md_created md))
    (fun _ w' => failed False w0 w' L) w.
Proof using HL JL.
  intros Hw Hk Hext. unfold existing.
  set (P := fun (x : bool * option Z) (fs' : Fs) => (kept (s_fs w0) fs' /\ fs_dirs fs' = fs_dirs (s_fs w)) /\ x.1 = bool_decide (is_Some (data_at (s_fs w0) p)) /\ stamp_ok x.2 /\
    forall file data md, data_at (s_fs w0) p = Some file -> object_file mek chk p file data md -> fs_faults (s_fs w0) = [] ->
      x.2 = Some (md_created md)).
  eapply post_mono; [| |apply (io_work _ _ P False w0 w L Hw)]; [intros x w' [Hw' [[Hk' Hd'] HP]]; by split|done|]. unfold P. clear P.
  set (fs := s_fs w) in *. set (fs0 := s_fs w0) in *. clearbody fs fs0.
  apply post_bind, post_match. unfold fs_metadata. apply post_bind, post_sys.
  2: { intros l m Hf. apply post_throw. by apply fault_gave_up. }
  intros l Hl. apply (kept_with_faults _ _ l) in Hk; [|done]. change (fs_dirs fs) with (fs_dirs (with_faults l fs)).
  revert Hk. generalize (with_faults l fs). clear fs l Hl. intros fs Hk.
  apply post_bind, post_gets, post_bind. rewrite (kept_data _ _ Hk) by done. destruct (data_at fs0 p) as [file|] eqn:Ed; cbn [ok_or].
  - apply post_ret, post_ret, post_ret, post_bind, post_match.
    assert (Hy : forall d md, object_file mek chk p file d md -> fs_faults fs0 = [] -> exists fs2, read_obj_metadata p mek chk fs = (Ok md, fs2)).
    { intros d md Ho Hq. destruct (yields_run _ _ _ _ _ (read_obj_metadata_yields mek chk p _ d md fs Ho ltac:(by rewrite (kept_data _ _ Hk)))) as (fs2 & E2 & _); [|eauto].
      intros Hf. by apply Hf, (kept_quiet _ _ Hk). }
    pose proof (reads_kept (read_obj_metadata p mek chk) fs0 fs (read_obj_metadata_reads p mek chk) Hk) as Hpost.
    destruct (read_obj_metadata p mek chk fs) as [[m|e] fs'] eqn:Er; unfold post in Hpost |- *; rewrite Er in *; cbn;
      destruct Hpost as [Hk' (l & -> & _)]; (split_and!; [done|done|done|first [by eapply read_obj_metadata_stamp|done]|]); intros f d md [= <-] Ho Hq; destruct (Hy d md Ho Hq) as [fs2 E2]; [|discriminate E2].
    by injection E2 as -> _.
  - apply post_throw, post_ret, post_ret. split_and!; [done|done|by rewrite bool_decide_eq_false_2 by (by intros [? ?])|done|done].
Qed.


Lemma at_work_set_rng w0 w L r : at_work w0 w L -> at_work w0 (set_rng r w) L.
Proof using. intros []. by constructor. Qed.

Lemma seal_meta_work b k op prefix mek json id block w0 w L (P : Fs -> Prop) :
  at_work w0 w L -> P (s_fs w) -> kept (s_fs w0) (s_fs w) -> block <= 2 ^ 32 ->
  post (seal_meta b k op prefix mek json id block)
    (fun blob w' => at_work w0 w' L /\ P (s_fs w') /\ blen blob = 29 + padded_len_of (blen json) block /\ decrypt_meta mek blob id = Ok json)
    (fun _ w' => failed (u32_max < blen json) w0 w' L) w.
Proof using AL RL.
  intros Hw HP Hk Hb. unfold seal_meta, post. destruct (Z.le_gt_cases (blen json) u32_max) as [Hle|Hgt].
  - destruct (encrypt_meta_spec mek json id block (s_rng w) Hle Hb) as (blob & r & -> & Hlen & Hdec).
    split_and!; [by apply at_work_set_rng|done|done|done].
  - unfold encrypt_meta. rewrite (proj2 (Z.ltb_lt _ _)) by done. split; [done|]. by split.
Qed.

(** The staging file [tmp] of [w] holds [data], and the handle is at its end. *)
Definition writing (w0 w : Store) (L : LockRegistry) (tmp : fpath) (h : FileHandle) (data : bytes) : Prop :=
  at_work w0 w L /\ (exists s, staged (s_fs w0) (s_fs w) tmp h data s) /\ fh_pos h = blen data.

Lemma writing_kept w0 w L tmp h data : writing w0 w L tmp h data -> kept (s_fs w0) (s_fs w).
Proof using. intros (_ & [s [Hk _ _]] & _). done. Qed.

Lemma open_tmp_work b k op prefix tmp w0 w L : at_work w0 w L -> kept (s_fs w0) (s_fs w) -> fp_ext tmp <> "obj" -> fp_dir tmp ∈ fs_dirs (s_fs w) ->
  post (open_tmp b k op prefix tmp) (fun h w' => writing w0 w' L tmp h []) (fun _ w' => failed False w0 w' L) w.
Proof using.
  intros Hw Hk Hext Hd. unfold open_tmp. apply post_bind, post_gets.
  eapply post_mono; [| |eapply (io_work _ _ _ _ w0 w L Hw), (open_truncate_staged (s_fs w0)); done].
  - intros h w' [Hw' [Hs Hp]]. split_and!; [done|by exists false|done].
  - intros e w'. by apply failed_mono.
Qed.

Lemma write_part_work b k op prefix h tmp data part w0 w L : writing w0 w L tmp h data -> fp_ext tmp <> "obj" ->
  post (write_part b k op prefix h part)
    (fun h' w' => writing w0 w' L tmp h' (data ++ part) /\ (part <> [] -> blen (data ++ part) <= FILE_MAX))
    (fun _ w' => failed (FILE_MAX < blen data + blen part) w0 w' L) w.
Proof using.
  intros (Hw & [s Hs] & Hp) Hext. unfold write_part. apply post_bind, post_gets.
  eapply post_mono; [| |eapply (io_work _ _ _ _ w0 w L Hw), (append_staged (s_fs w0)); done]; [|done].
  intros h' w' [Hw' (Hs' & Hp' & Hm)]. split; [|done]. by split_and!.
Qed.

(** The state a write leaves. *)
Record installed (w0 w : Store) (L : LockRegistry) (q : fpath) (file : bytes) (sync : SyncLevel) (md : Metadata) : Prop := mkInstalled {
  ii_base : s_base w = s_base w0;
  ii_keys : s_keys w = s_keys w0;
  ii_now : s_now w = s_now w0;
  ii_locks : s_locks w = L;
  ii_index : s_index w = match MetaIndex.upsert (s_index w0) md with Ok idx => idx | Err _ => s_index w0 end;
  ii_files : exists s, replaced (s_fs w0) (s_fs w) q file s /\ (sync = Durable -> s = true);
  ii_settled : sync = Durable -> fs_faults (s_fs w0) = [] -> settled (s_fs w0) (s_fs w) q file;
}.

Lemma sync_parent_replaced fs0 fs q data s : replaced fs0 fs q data s -> fp_dir q <> [] ->
  post (sync_parent (fp_dir q)) (fun _ fs' => replaced fs0 fs' q data s /\ (s = true -> fs_faults fs0 = [] -> settled fs0 fs' q data)) (fun _ _ => False) fs.
Proof using.
  intros Hr Hne.
  assert (Hfaulty : forall fs1 l, replaced fs0 fs1 q data s -> fs_faults fs1 <> [] ->
    replaced fs0 (with_faults l fs1) q data s /\ (s = true -> fs_faults fs0 = [] -> settled fs0 (with_faults l fs1) q data)).
  { intros fs1 l Hr1 Hf. split; [by apply replaced_with_faults|]. intros _ Hq. by rewrite (rp_quiet _ _ _ _ _ Hr1 Hq) in Hf. }
  unfold sync_parent. apply post_match, post_sys.
  2: { intros l m Hf. apply post_ret. by apply Hfaulty. }
  intros l Hl. apply (replaced_with_faults _ _ _ _ _ l) in Hr; [|done]. apply post_match. unfold fs_sync_dir. apply post_bind, post_sys.
  - intros l' Hl'. apply (replaced_with_faults _ _ _ _ _ l') in Hr; [|done]. apply post_modify, post_ret. split; [by apply sync_dir_replaced|].
    intros -> _. by apply sync_dir_settled.
  - intros l' m Hf. apply post_ret. by apply Hfaulty.
Qed.

Lemma install_object_work b k sync h tmp q file md w0 w L : at_work w0 w L -> (exists s, staged (s_fs w0) (s_fs w) tmp h file s) ->
  fp_ext tmp <> "obj" -> fp_ext q = "obj" -> fp_dir q = fp_dir tmp -> fp_dir q <> [] ->
  post (install_object b k sync h tmp q md) (fun _ w' => installed w0 w' L q file sync md) (fun _ w' => failed False w0 w' L) w.
Proof using.
  intros Hw Hs Htmp Hq Hdir Hne. unfold install_object. apply post_bind.
  apply (post_mono _ (fun _ w' => at_work w0 w' L /\ exists s, staged (s_fs w0) (s_fs w') tmp h file s /\ (sync = Durable -> s = true)) _
    (fun _ w' => failed False w0 w' L)); [|done|].
  2: { case_bool_decide as Hd; [|apply post_ret; split; [done|]; destruct Hs as [s Hs]; by exists s]. destruct Hs as [s Hs].
       eapply post_mono; [| |eapply (io_work _ _ _ False w0 w L Hw), (sync_data_staged (s_fs w0)); done]; [|done].
       intros [] w' [Hw' Hs']. split; [done|]. by exists true. }
  intros _ w1 (Hw1 & s & Hs1 & Hsync). apply post_bind.
  eapply post_mono; [| |eapply (io_work _ _ _ False w0 w1 L Hw1), (rename_replaced (s_fs w0)); done]; [|done].
  intros _ w2 [Hw2 Hr2]. apply post_bind.
  apply (post_mono _ (fun _ w' => at_work w0 w' L /\ replaced (s_fs w0) (s_fs w') q file s /\
    (sync = Durable -> fs_faults (s_fs w0) = [] -> settled (s_fs w0) (s_fs w') q file)) _ (fun _ _ => False)); [|done|].
  2: { case_bool_decide as Hd.
       - apply post_io. eapply post_mono; [| |apply (sync_parent_replaced (s_fs w0)); [exact Hr2|done]]; [|done]. intros [] fs [Hr' Hset]. cbn.
         split; [destruct Hw2; by constructor|]. split; [done|]. intros Hs'. apply Hset. by apply Hsync.
       - unfold queue_dirty. apply post_modify. destruct (s_dirty w2); (split; [destruct Hw2; by constructor|]); by split. }
  intros _ w3 (Hw3 & Hr3 & Hset). unfold best_effort. apply post_match. unfold indexed, post. destruct Hw3 as [? ? ? Hidx ?].
  rewrite Hidx. destruct (MetaIndex.upsert (s_index w0) md) as [idx|e] eqn:Eu; cbn; (constructor; [done..| |by eexists|done]).
  - by rewrite Eu.
  - by rewrite Eu.
Qed.


Lemma need_work {T} (f : NodeKeySlot -> result Error T) v w (P : T -> Store -> Prop) Q : f (s_keys w) = Ok v -> P v w -> post (need f) P Q w.
Proof using. intros Hf HP. unfold need. apply post_bind, post_gets, post_lift; intros ? E; rewrite Hf in E; by simplify_eq. Qed.

Lemma with_lock_post {T} b k (body : prog Store Error T) P Q w :
  (s_locks w !! (b, k) = None ->
   post body (fun x w' => P x (set_locks (release (s_locks w') b k) w')) (fun e w' => Q e (set_locks (release (s_locks w') b k) w'))
     (set_locks (<[(b, k) := s_now w]> (s_locks w)) w)) ->
  (forall since, s_locks w !! (b, k) = Some since -> Q (Locked b k since) w) -> post (with_lock b k body) P Q w.
Proof using.
  intros Hfree Hbusy. unfold with_lock, try_acquire, post in *. destruct (s_locks w !! (b, k)) as [since|]; [by apply Hbusy|].
  specialize (Hfree eq_refl). by destruct (body _) as [[x|e] w'].
Qed.

Lemma key_path_post w b k p mek chk (P : fpath -> Store -> Prop) Q : addressed w b k p mek chk -> P p w -> post (key_path b k) P Q w.
Proof using.
  intros [_ _ (pk & Hpk & ->) _ _] HP. unfold key_path. apply post_bind, (need_work _ pk); [unfold require_path_key; by rewrite Hpk|].
  apply post_bind, post_gets, post_ret. done.
Qed.

Lemma obj_path_dir base pk b k : fp_dir (obj_path_for base pk b k) <> [].
Proof using. cbn. by destruct (bucket_dir_path base pk b). Qed.

(** The file [put] and [commit] write. *)
Definition container (chk : bytes) (id : string) (sync : SyncLevel) (data meta : bytes) : bytes :=
  let h := mkHeader (blen data) (wrap32 (blen meta)) MIN_DATA_OFFSET (durable_flag sync) VERSION in
  Format.encode h chk id ++ data ++ meta ++ Format.encode h chk id.

Lemma container_object mek chk p sync data meta json md :
  blen json <= 2 ^ 31 -> blen meta = 29 + padded_len_of (blen json) META_PAD_BLOCK -> decrypt_meta mek meta (fp_stem p) = Ok json ->
  from_slice json = Ok md -> blen (container chk (fp_stem p) sync data meta) <= FILE_MAX ->
  object_file mek chk p (container chk (fp_stem p) sync data meta) data md.
Proof using HL.
  intros Hj Hlen Hdec Hjs Hmax. pose proof (padded_len_of_ge (blen json) META_PAD_BLOCK) as Hp. pose proof (blen_nonneg json). pose proof (blen_nonneg data).
  pose proof (blen_nonneg meta). unfold META_PAD_BLOCK in *. rewrite Z.max_r in Hp by lia.
  unfold container in *. cbv zeta in *. set (h := mkHeader _ _ _ _ _) in *.
  assert (Hm : wrap32 (blen meta) = blen meta) by (unfold wrap32; apply Z.mod_small; lia).
  rewrite !blen_app, blen_encode in Hmax. unfold FILE_MAX in Hmax.
  exists h, [], meta, json. split_and!; try done; cbn [h data_len meta_len data_offset]; try done.
  - unfold header_wf, header_fits, in_u. cbn [h data_len meta_len data_offset hflags version]. rewrite Hm. unfold MIN_DATA_OFFSET, HEADER_SIZE, VERSION.
    split_and!; try lia; by destruct sync.
  - rewrite !blen_app, blen_encode. unfold FILE_MAX. lia.
Qed.

Lemma encode_nonempty h chk id : Format.encode h chk id <> [].
Proof using HL. intros He. pose proof (blen_encode h chk id) as Hb. by rewrite He in Hb. Qed.

(** Header, data, metadata, trailer. *)
Lemma four_parts_work {T} b k h tmp enc data meta (K : FileHandle -> prog Store Error T) P Q w0 w L :
  writing w0 w L tmp h [] -> fp_ext tmp <> "obj" ->
  (forall h' w', at_work w0 w' L -> (exists s, staged (s_fs w0) (s_fs w') tmp h' (enc ++ data ++ meta ++ enc) s) ->
     (enc <> [] -> blen (enc ++ data ++ meta ++ enc) <= FILE_MAX) -> post (K h') P Q w') ->
  (forall e w', failed (FILE_MAX < blen (enc ++ data ++ meta ++ enc)) w0 w' L -> Q e w') ->
  post (h ← write_part b k "put" "write header: " h enc; h ← write_part b k "put" "write data: " h data;
        h ← write_part b k "put" "write meta: " h meta; h ← write_part b k "put" "write trailer: " h enc; K h) P Q w.
Proof using.
  intros Hwr Htmp HK HQ. pose proof (blen_nonneg enc). pose proof (blen_nonneg data). pose proof (blen_nonneg meta).
  assert (Hbig : forall n e w', n <= blen (enc ++ data ++ meta ++ enc) -> failed (FILE_MAX < n) w0 w' L -> Q e w').
  { intros n e w' Hn Hf. apply HQ. eapply failed_mono; [|exact Hf]. lia. }
  rewrite !blen_app in Hbig.
  do 4 (apply post_bind; eapply post_mono; [| |eapply write_part_work; [eassumption|exact Htmp]];
    [|intros e w'; apply Hbig; rewrite ?blen_app, ?blen_nil; lia]; cbn [app];
    let h := fresh "h" in let w' := fresh "w" in let Hwr := fresh "Hwr" in intros h w' [Hwr ?]).
  destruct Hwr3 as (Hw & Hs & _). rewrite <- !app_assoc in *. by apply HK.
Qed.

(** What stands in the way of a put. *)
Definition put_refused (w : Store) (b k : string) (payload : bytes) (options : PutOptions) (p : fpath) : Prop :=
  is_Some (s_locks w !! (b, k)) \/
  (exists prior, stamp_ok prior /\ is_ok (to_vec (put_metadata b k p payload options prior (s_now w))) = false) \/
  FILE_MAX < 128 + blen payload + 2 ^ 32.

(** Labels and names are bounded by the request parser. *)
Definition metadata_fits (mk : option Z -> Metadata) : Prop :=
  forall prior json, stamp_ok prior -> to_vec (mk prior) = Ok json -> blen json <= 2 ^ 31.

Lemma at_work_refl w : at_work w w (s_locks w).
Proof using. done. Qed.

Lemma put_post w b k payload options p mek chk :
  addressed w b k p mek chk -> fs_wf (s_fs w) -> metadata_fits (fun prior => put_metadata b k p payload options prior (s_now w)) ->
  post (put b k payload options)
    (fun overwrite w' => overwrite = bool_decide (is_Some (data_at (s_fs w) p)) /\ exists prior file,
       let md := put_metadata b k p payload options prior (s_now w) in
       installed w w' (s_locks w) p file (po_sync options) md /\ object_file mek chk p file payload md /\
       forall f0 d0 md0, data_at (s_fs w) p = Some f0 -> object_file mek chk p f0 d0 md0 -> fs_faults (s_fs w) = [] -> prior = Some (md_created md0))
    (fun _ w' => failed (put_refused w b k payload options p) w w' (s_locks w)) w.
Proof using AL HL RL JL.
  intros Ha Hwf Hfits. pose proof Ha as [Hb Hk (pk & Hpk & Hp) Hmek Hchk]. assert (Hext : fp_ext p = "obj") by (by rewrite Hp).
  unfold put. apply post_bind, post_lift; rewrite Hb; [intros [] _|done]. apply post_bind, post_lift; rewrite Hk; [intros [] _|done].
  apply post_bind, (key_path_post w b k p mek chk); [done|]. cbv zeta. set (tmp := with_extension p "tmp").
  assert (Htmp : fp_ext tmp <> "obj") by done. apply post_bind.
  eapply post_mono; [| |eapply (io_work _ _ _ False w w), (create_dir_all_kept (s_fs w)); [done|by apply kept_refl]];
    [|intros e w'; by apply failed_mono].
  intros _ w1 [Hw1 [Hk1 Hd1]]. set (L := <[(b, k) := s_now w]> (s_locks w)). apply with_lock_post.
  2: { intros since Hl. split; [done|]. split; [done|]. intros _. left. rewrite <- (aw_locks _ _ _ Hw1), Hl. eauto. }
  intros Hfree. rewrite (aw_locks _ _ _ Hw1), (aw_now _ _ _ Hw1) in *. fold L.
  assert (Hw2 : at_work w (set_locks L w1) L) by (destruct Hw1; by constructor). change (s_fs w1) with (s_fs (set_locks L w1)) in Hk1, Hd1.
  assert (Hrel : release L b k = s_locks w) by (unfold release, L; by apply delete_insert_id).
  set (w2 := set_locks L w1) in *. clearbody w2. clear w1 Hw1.
  (* the lock is given back whatever happens *)
  apply (post_mono _ (fun ow w' => ow = bool_decide (is_Some (data_at (s_fs w) p)) /\ exists prior file,
       let md := put_metadata b k p payload options prior (s_now w) in
       installed w w' L p file (po_sync options) md /\ object_file mek chk p file payload md /\
       forall f0 d0 md0, data_at (s_fs w) p = Some f0 -> object_file mek chk p f0 d0 md0 -> fs_faults (s_fs w) = [] -> prior = Some (md_created md0)) _
    (fun _ w' => failed (put_refused w b k payload options p) w w' L)).
  { intros ow w' [Hov (prior & file & [? ? ? Hl ? ? ?] & Hobj)]. split; [done|]. exists prior, file. split; [|done].
    constructor; try done. cbn [set_locks s_locks]. by rewrite Hl. }
  { intros e w' [[? ? ? ? Hl] Hg]. split; [|done]. constructor; try done. cbn [set_locks s_locks]. by rewrite Hl. }
  apply post_bind, (need_work _ mek); [unfold require_object_metadata_key; by rewrite (aw_keys _ _ _ Hw2), Hmek|].
  apply post_bind, (need_work _ chk); [unfold require_container_header_key; by rewrite (aw_keys _ _ _ Hw2), Hchk|].
  apply post_bind. eapply post_mono; [| |apply (existing_work _ b k p mek chk w w2 L)]; try done; [|intros e w'; by apply failed_mono].
  intros [ow prior] w3 [(Hw3 & Hk3 & Hd3) (How & Hstamp & Hprior)]. cbn [fst snd] in How, Hstamp, Hprior. apply post_bind, post_gets. rewrite (aw_now _ _ _ Hw3).
  set (md := put_metadata b k p payload options prior (s_now w)).
  apply post_bind, post_lift.
  2: { intros e He. split; [done|]. split; [done|]. intros _. right. left. exists prior. split; [done|]. apply map_err_Err in He as (e' & He & _). fold md. by rewrite He. }
  intros json Hjson%map_err_Ok. pose proof (Hfits prior json Hstamp Hjson) as Hjl. cbv zeta. unfold object_id_from_path. apply post_bind.
  eapply post_mono; [| |apply (seal_meta_work _ _ _ _ _ _ _ _ w w3 L (fun fs => kept (s_fs w) fs /\ fp_dir tmp ∈ fs_dirs fs) Hw3)]; try done.
  2: { intros e w'. apply failed_mono. unfold u32_max. lia. }
  2: { split; [done|]. by rewrite Hd3. }
  intros meta w4 (Hw4 & [Hk4 Hd4] & Hml & Hdec). apply post_bind. eapply post_mono; [| |by apply (open_tmp_work _ _ _ _ tmp w w4 L)].
  2: { intros e w'. by apply failed_mono. }
  intros h5 w5 Hwr5. cbv beta in Hwr5. assert (Hlen : blen (container chk (fp_stem p) (po_sync options) payload meta) < 128 + blen payload + 2 ^ 32).
  { unfold container. cbv zeta. rewrite !blen_app, blen_encode. pose proof (padded_len_of_ge (blen json) META_PAD_BLOCK). unfold META_PAD_BLOCK in *. lia. }
  eapply four_parts_work; [exact Hwr5|done| |].
  2: { intros e w'. apply failed_mono. intros Hbig. right. right. fold (container chk (fp_stem p) (po_sync options) payload meta) in Hbig. lia. }
  intros h6 w6 Hw6 Hst6 Hmax. fold (container chk (fp_stem p) (po_sync options) payload meta) in Hst6, Hmax.
  assert (Hfit : blen (container chk (fp_stem p) (po_sync options) payload meta) <= FILE_MAX) by (apply Hmax, encode_nonempty).
  apply post_bind. eapply post_mono; [| |eapply (install_object_work _ _ _ _ tmp p); try done; rewrite Hp; apply obj_path_dir]; [|intros e w'; by apply failed_mono].
  intros [] w7 Hin. apply post_ret. split; [done|]. eexists prior, _. cbv zeta. fold md. split_and!; [exact Hin| |done].
  apply (container_object mek chk p (po_sync options) payload meta json md); try done. by apply json_roundtrip.
Qed.

End spec.
