(* ===== verification/FilesystemSafety.v ===== *)
(** * Reading back, crashes and races on the filesystem backend

    The theorems about [put], [set_labels] and buckets, from the lemmas of
    [FilesystemSpec]. *)

From stdpp Require Import sorting.
From S2P Require Import Prelude Effects Primitives Types Format Crypto NodeKeys Sink BucketKeys Lex Query Index IndexSpec Locks Posix Filesystem FilesystemSpec.
Import FilesystemStorage.

Section safety.
Context {A : AeadOps} {X : Xxh3Ops} {B : Base64Ops} {HO : HashOps} {R : RngOps}.
Context {RD : RedbOps} {J : MetadataJson} {CJ : ConfigJson} {U : UnicodeOps}.
Context {AL : AeadLaws} {HL : HashLaws} {RL : RngLaws} {JL : JsonLaws}.

(** The store as the cipher adapter reads it. *)
Definition reader (w : Store) : StorageReader := {| Types.get_range b k a z := fst (get_range b k a z w) |}.

(** Everything a put needs, faults apart. *)
Record put_ready (w : Store) (b k : string) (payload : bytes) (options : PutOptions) (p : fpath) : Prop := mkPutReady {
  pr_free : s_locks w !! (b, k) = None;
  pr_json : forall prior, stamp_ok prior -> exists json, to_vec (put_metadata b k p payload options prior (s_now w)) = Ok json /\ blen json <= 2 ^ 31;
  pr_room : 128 + blen payload + 2 ^ 32 <= FILE_MAX;
}.

Lemma put_ready_fits w b k payload options p : put_ready w b k payload options p ->
  metadata_fits (fun prior => put_metadata b k p payload options prior (s_now w)).
Proof using. intros [_ Hj _] prior json Hs E. destruct (Hj prior Hs) as (json' & E' & Hl). rewrite E in E'. by injection E' as ->. Qed.

Lemma put_ready_not_refused w b k payload options p : put_ready w b k payload options p -> ~ put_refused w b k payload options p.
Proof using.
  intros [Hf Hj Hr] [Hl|[(prior & Hs & Hn)|Hx]]; [rewrite Hf in Hl; by destruct Hl|destruct (Hj prior Hs) as (json & E & _); by rewrite E in Hn|lia].
Qed.

Lemma installed_serving w w' L b k p mek chk file data md sync md0 : addressed w b k p mek chk -> installed w w' L p file sync md0 ->
  object_file mek chk p file data md -> serving w' b k p mek chk file data md.
Proof using.
  intros [? ? ? ? ?] [Hbase Hkeys _ _ _ (s & Hr & _) _] Ho. constructor; [|by destruct (rp_inode _ _ _ _ _ Hr) as [t Ht]; unfold data_at; rewrite Ht|done].
  constructor; try done; by rewrite ?Hbase, Hkeys.
Qed.

Lemma installed_quiet w w' L p file sync md : installed w w' L p file sync md -> fs_faults (s_fs w) = [] -> fs_faults (s_fs w') = [].
Proof using. intros [_ _ _ _ _ (s & Hr & _) _]. apply (rp_quiet _ _ _ _ _ Hr). Qed.

Lemma yields_quiet {T} (m : prog Store Error T) v w : yields st_step st_faulty m v w -> fs_faults (s_fs w) = [] -> fst (m w) = Ok v.
Proof using. intros Hy Hq. destruct (yields_run _ _ _ _ _ Hy) as (w' & -> & _); [|done]. intros Hf. by apply Hf. Qed.

(** C5: an object reads back as it was stored. On a store without faults, with the address
    valid, the object not locked and its metadata serializable, [put] succeeds and tells
    whether it replaced an object; afterwards [get] gives the payload, [get_range] every
    range of it, and [describe] the metadata of the put, with the creation time of the
    object it replaced; every other object is served as before. *)
Theorem put_read_back (w : Store) (b k : string) (payload : bytes) (options : PutOptions) (p : fpath) (mek chk : bytes) :
  addressed w b k p mek chk -> fs_wf (s_fs w) -> fs_faults (s_fs w) = [] -> put_ready w b k payload options p ->
  exists w' prior, put b k payload options w = (Ok (bool_decide (is_Some (data_at (s_fs w) p))), w') /\
    fst (get b k w') = Ok payload /\ @serves (reader w') b k payload /\
    fst (describe b k w') = Ok (put_metadata b k p payload options prior (s_now w)) /\
    (forall file data md, serving w b k p mek chk file data md -> prior = Some (md_created md)) /\
    forall b' k' p' file data md, p' <> p -> serving w b' k' p' mek chk file data md -> serving w' b' k' p' mek chk file data md.
Proof using AL HL RL JL.
  intros Ha Hwf Hq Hready. pose proof (put_post w b k payload options p mek chk Ha Hwf (put_ready_fits _ _ _ _ _ _ Hready)) as Hpost.
  unfold post in Hpost. destruct (put b k payload options w) as [[ow|e] w']; [|by destruct Hpost as [_ [_ Hwhy]]; destruct (put_ready_not_refused _ _ _ _ _ _ Hready (Hwhy Hq))].
  destruct Hpost as [-> (prior & file & Hin & Hobj & Hprior)]. exists w', prior.
  pose proof (installed_serving _ _ _ _ _ _ _ _ _ _ _ _ _ Ha Hin Hobj) as Hsv. pose proof (installed_quiet _ _ _ _ _ _ _ Hin Hq) as Hq'.
  assert (Hfree : s_locks w' !! (b, k) = None) by (rewrite (ii_locks _ _ _ _ _ _ _ Hin); apply Hready).
  split_and!; [done|by eapply yields_quiet; [eapply get_yields|]| | | |].
  - intros a z Haz. by eapply yields_quiet; [eapply get_range_yields|].
  - by eapply yields_quiet; [eapply describe_yields|].
  - intros f d md [_ Hf Ho]. by apply (Hprior f d).
  - intros b' k' p' f d md Hne [[? ? (pk & Hpk & Hp') ? ?] Hf Ho]. destruct Hin as [Hbase Hkeys _ _ _ (s & Hr & _) _]. constructor; [|by rewrite (rp_data _ _ _ _ _ Hr) by (first [done|by rewrite Hp'])|done].
    constructor; rewrite ?Hkeys, ?Hbase; eauto.
Qed.

(** *** Ranges *)

(** The same error, whichever operation reports it. *)
Definition unsigned (e : Error) : Error := match e with InternalError b k _ m => InternalError b k "" m | e => e end.

Lemma read_exact_in (file : bytes) (off n : Z) fs : fs_faults fs = [] -> off + n <= blen file -> fs_read_exact file off n fs = (Ok (slice off (off + n) file), fs).
Proof using. intros Hq Hle. unfold fs_read_exact, mbind, prog_bind, sys. rewrite Hq. unfold lift_res. by rewrite (proj2 (Z.ltb_ge _ _)). Qed.

Abbreviation store := (prog Store Error).

(** Two readers leave the store alone and give answers in [V], or errors alike. *)
Definition alike {T T'} (V : T -> T' -> Prop) (m : store T) (m' : store T') (w : Store) : Prop :=
  exists r r', m w = (r, w) /\ m' w = (r', w) /\
    match r, r' with Ok x, Ok y => V x y | Err e, Err e' => unsigned e = unsigned e' | _, _ => False end.

Lemma alike_bind {T T' S S'} (V : T -> T' -> Prop) (V' : S -> S' -> Prop) m m' (f : T -> store S) (f' : T' -> store S') w :
  alike V m m' w -> (forall x y, V x y -> alike V' (f x) (f' y) w) -> alike V' (m ≫= f) (m' ≫= f') w.
Proof using.
  intros ([x|e] & [y|e'] & E & E' & Hv) Hf; try done; unfold alike, mbind, prog_bind; rewrite E, E'; [by apply Hf|]. by eexists _, _.
Qed.
Lemma alike_lift {T} (r r' : result Error T) w : match r, r' with Ok x, Ok y => x = y | Err e, Err e' => unsigned e = unsigned e' | _, _ => False end ->
  alike (fun x y => x = y /\ r = Ok x) (lift_res r) (lift_res r') w.
Proof using. intros Hr. exists r, r'. split_and!; [done..|]. by destruct r, r'; subst. Qed.
Lemma alike_refl {T} (r : result Error T) w : alike (fun x y => x = y /\ r = Ok x) (lift_res r) (lift_res r) w.
Proof using. apply alike_lift. by destruct r. Qed.
Lemma alike_gets {T} (f : Store -> T) w : alike (fun x y => x = f w /\ y = f w) (gets f) (gets f) w.
Proof using. by eexists _, _. Qed.
Lemma alike_map_err {E T} (f f' : E -> Error) (r : result E T) : (forall e, unsigned (f e) = unsigned (f' e)) ->
  match map_err f r, map_err f' r with Ok x, Ok y => x = y | Err e, Err e' => unsigned e = unsigned e' | _, _ => False end.
Proof using. intros Hf. destruct r; [done|apply Hf]. Qed.
Lemma alike_io {T} f f' (m : fsop T) r w : m (s_fs w) = (r, s_fs w) -> (forall e, unsigned (f e) = unsigned (f' e)) ->
  alike (fun x y => x = y /\ r = Ok x) (io f m) (io f' m) w.
Proof using.
  intros E Hf. assert (Hw : set_fs (s_fs w) w = w) by (by destruct w). exists (map_err f r), (map_err f' r). unfold io. rewrite E, Hw. split_and!; [done..|]. destruct r; [done|apply Hf].
Qed.
Lemma sys_answer {T} (r : result FsError T) fs : fs_faults fs = [] -> (sys ≫= fun _ => lift_res r) fs = (r, fs).
Proof using. intros Hq. unfold mbind, prog_bind, sys. by rewrite Hq. Qed.

Lemma check_total_len_exact h n : check_total_len h n = Ok tt -> data_offset h + data_len h + meta_len h + HEADER_SIZE = n.
Proof using.
  unfold check_total_len. destruct (checked_total_len h) as [t|] eqn:Et; [|done]. destruct (Z.eqb_spec t n) as [<-|]; [|done]. intros _.
  unfold checked_total_len in Et. apply bind_Some in Et as (x & Ex & Et). apply bind_Some in Et as (y & Ey & Et). unfold checked_add_u64 in *.
  repeat case_match; by simplify_eq.
Qed.

(** Opening an object is the same for every reader. *)
Lemma open_checked_alike op op' b k p w : fs_faults (s_fs w) = [] ->
  alike (fun x y => x = y /\ header_wf x.2 /\ data_offset x.2 + data_len x.2 + meta_len x.2 + HEADER_SIZE = blen x.1) (open_checked op b k p) (open_checked op' b k p) w.
Proof using HL.
  intros Hq. unfold open_checked.
  eapply alike_bind; [apply (alike_io _ _ _ (ok_or (data_at (s_fs w) p) NoEntry)); [unfold fs_open, mbind, prog_bind, sys; by rewrite Hq|by intros []]|]. intros file _ [<- _].
  eapply alike_bind; [eapply (alike_io _ _ _ _ w); [by apply sys_answer|done]|]. intros buf _ [<- Hbuf].
  eapply alike_bind; [eapply alike_bind; [apply alike_gets|]; intros ? ? [-> ->]; apply alike_refl|]. intros chk _ [<- _]. cbv zeta.
  eapply alike_bind; [apply alike_lift, alike_map_err; done|]. intros h _ [<- Hh%map_err_Ok].
  eapply alike_bind; [eapply (alike_io _ _ _ (Ok (blen file)) w); [unfold fs_len, mbind, prog_bind, sys; by rewrite Hq|done]|]. intros n _ [<- [= <-]].
  eapply alike_bind; [apply alike_lift, alike_map_err; done|]. intros [] _ [<- Hn%map_err_Ok]. eexists _, _. split_and!; [done..|]. cbn [fst snd].
  assert (Hwf : header_wf h).
  { destruct (Z.ltb_spec (blen file) (0 + HEADER_SIZE)); [done|]. injection Hbuf as <-. eapply (header_decode_authentic _ chk); [|exact Hh]. rewrite blen_slice. unfold HEADER_SIZE in *. lia. }
  split_and!; [done|done|]. by apply check_total_len_exact.
Qed.

(** Reading a range is reading the object and cutting the range out, whatever is on the
    disk: on a store without faults [get_range] answers with the part of [get]'s answer that
    lies in the range, and where one reports an error the other reports the same. *)
Theorem get_range_slices_get (w : Store) (b k : string) (start last : Z) : fs_faults (s_fs w) = [] -> 0 <= start <= last ->
  alike (fun part whole => part = slice start (Z.min (last + 1) (blen whole)) whole) (get_range b k start last) (get b k) w.
Proof using HL.
  intros Hq Hr. unfold get_range, get. eapply alike_bind; [apply alike_refl|]. intros [] _ _. eapply alike_bind; [apply alike_refl|]. intros [] _ _.
  eapply (alike_bind (fun x y => x = y)).
  { eapply alike_bind; [eapply alike_bind; [apply alike_gets|]; intros ? ? [-> ->]; apply alike_refl|]. intros pk _ [<- _].
    eapply alike_bind; [apply alike_gets|]. intros ? ? [-> ->]. by eexists _, _. }
  intros p _ <-. eapply alike_bind; [eapply alike_bind; [apply alike_gets|]; intros ? ? [-> ->]; apply alike_refl|]. intros [] _ _.
  eapply alike_bind; [apply open_checked_alike, Hq|]. intros [file h] _ (<- & Hwf & Hlen). cbn [fst snd] in *.
  destruct Hwf as ((Hd & Hm & Ho & _) & _ & Hmin). unfold in_u, MIN_DATA_OFFSET, HEADER_SIZE in *.
  assert (Hw : set_fs (s_fs w) w = w) by (by destruct w).
  set (whole := slice (data_offset h) (data_offset h + data_len h) file).
  assert (Hwhole : blen whole = data_len h) by (unfold whole; rewrite blen_slice; lia).
  assert (Eg : (io (io_failed b k "get" "seek data: ") sys ≫= fun _ => io (io_failed b k "get" "read data: ") (fs_read_exact file (data_offset h) (data_len h))) w = (Ok whole, w)).
  { unfold mbind, prog_bind, io. unfold sys. rewrite Hq, Hw, read_exact_in by (try done; lia). by rewrite Hw. }
  destruct ((data_len h =? 0) || (data_len h <=? start)) eqn:Ec.
  - exists (Ok []), (Ok whole). split_and!; [done|exact Eg|]. rewrite slice_empty; [done|]. apply orb_true_iff in Ec as [Ec|Ec]; [apply Z.eqb_eq in Ec|apply Z.leb_le in Ec]; lia.
  - apply orb_false_iff in Ec as [Hne%Z.eqb_neq Hlt%Z.leb_gt]. cbv zeta. rewrite !wrap64_small; [|lia|rewrite wrap64_small; lia].
    eexists (Ok _), (Ok whole). split_and!; [|exact Eg|].
    + unfold mbind, prog_bind, io. unfold sys. rewrite Hq, Hw, read_exact_in by (try done; lia). by rewrite Hw.
    + rewrite Hwhole. unfold whole. rewrite slice_slice by lia. f_equal; lia.
Qed.

(** C2: a durable put is atomic, also across a crash. However its run goes and wherever a
    fault or a crash stops it, what a crash may leave of any object is what it could have
    left before the put, or, of the object being put and only once the put succeeded up to
    its rename, the complete new file; and a put that reports an error has changed no
    object. *)
Theorem put_crash_atomic (w : Store) (b k : string) (payload : bytes) (options : PutOptions) (p : fpath) (mek chk : bytes) (res : result Error bool) (w' : Store) :
  addressed w b k p mek chk -> fs_wf (s_fs w) -> metadata_fits (fun prior => put_metadata b k p payload options prior (s_now w)) ->
  po_sync options = Durable -> put b k payload options w = (res, w') ->
  (forall q o, fp_ext q = "obj" -> may_read (s_fs w') q o ->
     may_read (s_fs w) q o \/ (q = p /\ is_ok res = true /\ exists file md, o = Some file /\ object_file mek chk p file payload md)) /\
  (is_ok res = false -> forall q, fp_ext q = "obj" -> data_at (s_fs w') q = data_at (s_fs w) q) /\ fs_wf (s_fs w').
Proof using AL HL RL JL.
  intros Ha Hwf Hfits Hsync E. pose proof (put_post w b k payload options p mek chk Ha Hwf Hfits) as Hpost. unfold post in Hpost. rewrite E in Hpost.
  destruct res as [ow|e].
  - destruct Hpost as [_ (prior & file & Hin & Hobj & _)]. destruct (ii_files _ _ _ _ _ _ _ Hin) as (s & Hr & Hs). specialize (Hs Hsync). subst s.
    split_and!; [|done|apply (rp_wf _ _ _ _ _ Hr)]. intros q o Hq Hm. destruct (decide (q = p)) as [->|Hne]; [|left; by apply (rp_read _ _ _ _ _ Hr)].
    destruct (rp_crash _ _ _ _ _ Hr o Hm) as [?|(c & -> & Hc)]; [by left|]. right. rewrite Hc by done. split_and!; eauto.
  - destruct Hpost as [_ [Hk _]]. split_and!; [|intros _; apply (kept_data _ _ Hk)|apply (kept_wf _ _ Hk)].
    intros q o Hq Hm. left. by apply (kept_read _ _ Hk).
Qed.

(** C37: a durable put that succeeded without faults survives a crash, if the directories
    down to the object were there before and had themselves been synced. *)
Theorem put_durable (w : Store) (b k : string) (payload : bytes) (options : PutOptions) (p : fpath) (mek chk : bytes) (ow : bool) (w' : Store) :
  addressed w b k p mek chk -> fs_wf (s_fs w) -> metadata_fits (fun prior => put_metadata b k p payload options prior (s_now w)) ->
  po_sync options = Durable -> fs_faults (s_fs w) = [] ->
  (forall d, d ∈ ancestors (fp_dir p) -> d ∈ fs_dirs (s_fs w) /\ d ∉ fs_volatile (s_fs w)) ->
  put b k payload options w = (Ok ow, w') ->
  forall o, may_read (s_fs w') p o -> exists file md, o = Some file /\ object_file mek chk p file payload md.
Proof using AL HL RL JL.
  intros Ha Hwf Hfits Hsync Hq Hsafe E o Hm. pose proof (put_post w b k payload options p mek chk Ha Hwf Hfits) as Hpost. unfold post in Hpost. rewrite E in Hpost.
  destruct Hpost as [_ (prior & file & Hin & Hobj & _)]. rewrite (ii_settled _ _ _ _ _ _ _ Hin Hsync Hq Hsafe o Hm). eauto.
Qed.

(** The first put into a shard directory is not durable. When the object's directory is
    made by the put itself, then, although the put was asked to be durable and reports
    success, a crash may leave nothing of the object: the new directories are never synced
    into the ones above them. *)
Theorem first_put_lost (w : Store) (b k : string) (payload : bytes) (options : PutOptions) (p : fpath) (mek chk : bytes) (ow : bool) (w' : Store) :
  addressed w b k p mek chk -> fs_wf (s_fs w) -> metadata_fits (fun prior => put_metadata b k p payload options prior (s_now w)) ->
  fp_dir p ∉ fs_dirs (s_fs w) -> put b k payload options w = (Ok ow, w') -> may_read (s_fs w') p None.
Proof using AL HL RL JL.
  intros Ha Hwf Hfits Hnew E. pose proof (put_post w b k payload options p mek chk Ha Hwf Hfits) as Hpost. unfold post in Hpost. rewrite E in Hpost.
  destruct Hpost as [_ (prior & file & Hin & _)]. destruct (ii_files _ _ _ _ _ _ _ Hin) as (s & Hr & _).
  left. split; [done|]. exists (fp_dir p). split; [apply ancestors_self|]. by destruct (rp_made _ _ _ _ _ Hr).
Qed.


(** ** Labels *)

Lemma post_io_reads {T} (f : FsError -> Error) (m : fsop T) (P : T -> Store -> Prop) (Q : Error -> Store -> Prop) w : only_reads m ->
  (forall x w', st_step w w' -> P x w') -> (forall e w', st_step w w' -> Q e w') -> post (io f m) P Q w.
Proof using.
  intros Hm HP HQ. apply post_io. unfold post. destruct (Hm (s_fs w)) as (l & El & Hl). destruct (m (s_fs w)) as [[x|e] fs]; cbn in El; subst fs;
    [apply HP|apply HQ]; (exists (with_faults l (s_fs w)); split; [by exists l|done]).
Qed.

(** What the first half of [set_labels] finds, when the object is there. *)
Lemma labels_read_yields w b k p mek chk file data md : serving w b k p mek chk file data md -> s_locks w !! (b, k) = None ->
  exists h, readable mek chk p file data md h /\ yields st_step st_faulty (labels_read b k) (mkLabelsRead p file h md) w.
Proof using HL.
  intros [Ha Hf Ho] Hl. destruct (object_file_readable _ _ _ _ _ _ Ho) as [h Hr]. exists h. split; [done|].
  pose proof Hr as [Hlong Hh Hln Hdl Hdata Hend Hmo Hoff Hwf (json & Hdec & Hjs)]. pose proof Ha as [Hb Hk (pk & Hpk & Hp) Hmek Hchk].
  assert (Hkeys : forall w', st_step w w' -> s_keys w' = s_keys w /\ s_base w' = s_base w /\ data_at (s_fs w') p = Some file).
  { intros w' (fs & Hs & ->). split_and!; [done|done|]. cbn [set_fs s_fs]. by rewrite (fs_step_data (s_fs w)). }
  unfold labels_read. apply (st_bind _ _ tt); [by apply unlocked_yields|]. intros w1 Hs1. destruct (Hkeys _ Hs1) as (Hk1 & Hb1 & _).
  apply (st_bind _ _ pk); [apply st_need; unfold require_path_key; by rewrite Hk1, Hpk|]. intros w2 Hs2. assert (Hs2' : st_step w w2) by (by trans w1). destruct (Hkeys _ Hs2') as (Hk2 & _ & _).
  apply (st_bind _ _ mek); [apply st_need; unfold require_object_metadata_key; by rewrite Hk2, Hmek|]. intros w3 Hs3. assert (Hs3' : st_step w w3) by (by trans w2). destruct (Hkeys _ Hs3') as (Hk3 & _ & _).
  apply (st_bind _ _ chk); [apply st_need; unfold require_container_header_key; by rewrite Hk3, Hchk|]. intros w4 Hs4. assert (Hs4' : st_step w w4) by (by trans w3).
  apply (st_bind _ _ tt); [by apply st_lift|]. intros w5 Hs5. apply (st_bind _ _ tt); [by apply st_lift|]. intros w6 Hs6.
  assert (Hs6' : st_step w w6) by (trans w5; [by trans w4|done]). destruct (Hkeys _ Hs6') as (Hk6 & Hb6 & _).
  apply (st_bind _ _ (s_base w)); [by apply st_gets|]. intros w7 Hs7. cbv zeta. rewrite <- Hp. assert (Hs7' : st_step w w7) by (by trans w6). destruct (Hkeys _ Hs7') as (_ & _ & Hf7).
  apply (st_bind _ _ file); [by apply io_yields, fs_read_yields|]. intros w8 _.
  apply (st_bind _ _ tt); [unfold guard_not, yields, post; by rewrite (proj2 (Z.ltb_ge _ _) Hlong)|]. intros w9 _.
  apply (st_bind _ _ h); [apply st_lift; unfold object_id_from_path; by rewrite Hh|]. intros w10 _.
  apply (st_bind _ _ tt); [apply st_lift; by rewrite Hln|]. intros w11 _.
  apply (st_bind _ _ json); [apply st_lift; unfold object_id_from_path; by rewrite Hdec|]. intros w12 _.
  apply (st_bind _ _ md); [apply st_lift; by rewrite Hjs|]. intros w13 _. by apply post_ret.
Qed.

Lemma fs_write_staged fs0 fs p b now : kept fs0 fs -> fp_ext p <> "obj" -> b <> [] ->
  post (fs_write p b now) (fun _ fs' => (exists h, staged fs0 fs' p h b false) /\ blen b <= FILE_MAX)
    (fun _ => gave_up (fp_dir p ∉ fs_dirs fs \/ FILE_MAX < blen b) fs0) fs.
Proof using.
  intros Hk Hext Hb. unfold fs_write. apply post_bind. eapply post_mono; [| |by apply (open_truncate_staged fs0)].
  - intros h fs1 [Hs Hp]. apply post_bind. eapply post_mono; [| |by apply (write_all_staged fs0 fs1 p h [] false)].
    + intros h' fs2 (Hs2 & Hp2 & Hm). apply post_ret. rewrite Hp in *. change 0 with (blen (@nil byte)) in Hs2. rewrite overwrite_end in Hs2. split; [by exists h'|lia].
    + intros e fs2. apply gave_up_mono. rewrite Hp. auto.
  - intros e fs1. apply gave_up_mono. auto.
Qed.

(** The file the second half writes. *)
Definition relabelled (chk : bytes) (id : string) (r : LabelsRead) (meta : bytes) : bytes :=
  let h := lr_header r in
  let enc := Format.encode (mkHeader (data_len h) (wrap32 (blen meta)) (data_offset h) (hflags h) (version h)) chk id in
  enc ++ replicate (Z.to_nat (data_offset h - blen enc)) x00 ++ slice (data_offset h) (meta_offset h) (lr_bytes r) ++ meta ++ enc.

(** What the second half does to a store that need no longer be the one the first half
    read. *)
Lemma labels_write_post w b k r ls p mek chk : lr_path r = p -> fp_ext p = "obj" -> fs_wf (s_fs w) ->
  object_metadata_key (s_keys w) = Some mek -> container_header_key (s_keys w) = Some chk ->
  post (labels_write b k r ls)
    (fun _ w' => s_keys w' = s_keys w /\ s_base w' = s_base w /\ s_locks w' = s_locks w /\
       exists json meta, let md := relabel (lr_metadata r) ls (s_now w) in let file := relabelled chk (fp_stem p) r meta in
       to_vec md = Ok json /\ replaced (s_fs w) (s_fs w') p file false /\ blen file <= FILE_MAX /\
       blen meta = 29 + padded_len_of (blen json) META_PAD_BLOCK /\ decrypt_meta mek meta (fp_stem p) = Ok json)
    (fun _ w' => failed (is_ok (to_vec (relabel (lr_metadata r) ls (s_now w))) = false \/ fp_dir p ∉ fs_dirs (s_fs w) \/
       exists json meta, to_vec (relabel (lr_metadata r) ls (s_now w)) = Ok json /\
         (u32_max < blen json \/ blen meta = 29 + padded_len_of (blen json) META_PAD_BLOCK /\ FILE_MAX < blen (relabelled chk (fp_stem p) r meta))) w w' (s_locks w)) w.
Proof using AL HL RL.
  intros Hp Hext Hwf Hmek Hchk. set (md := relabel (lr_metadata r) ls (s_now w)). unfold labels_write.
  apply post_bind, (need_work _ mek); [unfold require_object_metadata_key; by rewrite Hmek|].
  apply post_bind, (need_work _ chk); [unfold require_container_header_key; by rewrite Hchk|].
  apply post_bind, post_gets. cbv zeta. fold md. rewrite Hp. unfold object_id_from_path. apply post_bind, post_lift.
  2: { intros e (e' & He & _)%map_err_Err. split; [done|]. split; [by apply kept_refl|]. intros _. left. by rewrite He. }
  intros json Hj%map_err_Ok. apply post_bind.
  eapply post_mono; [| |apply (seal_meta_work _ _ _ _ _ _ _ _ w w (s_locks w) (fun fs => fs = s_fs w))]; try done; [| |by apply kept_refl].
  2: { intros e w'. apply failed_mono. intros Hl. right. right. exists json, []. auto. }
  intros meta w1 (Hw1 & Hfs1 & Hml & Hdec). fold (relabelled chk (fp_stem p) r meta). set (out := relabelled _ _ _ _).
  assert (Hne : out <> []). { unfold out, relabelled. cbv zeta. intros He. apply app_eq_nil in He as [He _]. by apply encode_nonempty in He. }
  assert (Htmp : fp_ext (labels_tmp p) <> "obj") by done.
  apply post_bind. eapply post_mono; [| |eapply (io_work _ _ _ _ w w1 (s_locks w) Hw1), (fs_write_staged (s_fs w)); [rewrite Hfs1; by apply kept_refl|done|done]].
  2: { intros e w'. apply failed_mono. rewrite Hfs1. intros [?|?]; [auto|]. right. right. exists json, meta. auto. }
  intros [] w2 [Hw2 [[h Hst] Hmax]]. apply post_bind.
  eapply post_mono; [| |eapply (io_work _ _ _ False w w2 (s_locks w) Hw2), (rename_replaced (s_fs w)); done].
  2: { intros e w'. by apply failed_mono. }
  intros [] w3 [Hw3 Hr]. unfold best_effort. apply post_match. destruct Hw3 as [Hba Hke _ _ Hlo].
  unfold indexed, post. destruct (MetaIndex.upsert (s_index w3) md) as [idx|e]; cbn; (split_and!; [done|done|done|]); exists json, meta; by split_and!.
Qed.

Lemma relabelled_object mek chk p r data h0 meta json md md0 : readable mek chk p (lr_bytes r) data md0 h0 -> lr_header r = h0 ->
  blen json <= 2 ^ 31 -> blen meta = 29 + padded_len_of (blen json) META_PAD_BLOCK -> decrypt_meta mek meta (fp_stem p) = Ok json ->
  from_slice json = Ok md -> blen (relabelled chk (fp_stem p) r meta) <= FILE_MAX ->
  object_file mek chk p (relabelled chk (fp_stem p) r meta) data md.
Proof using HL.
  intros [Hlong Hh Hln Hdl Hdata Hend Hmo Hoff Hwf _] Hhdr Hj Hml Hdec Hjs Hmax. unfold relabelled in *. cbv zeta in *. rewrite Hhdr in *.
  set (hn := mkHeader _ _ _ _ _) in *. rewrite Hmo, Hdata in *. unfold HEADER_SIZE in Hoff.
  pose proof (padded_len_of_ge (blen json) META_PAD_BLOCK) as Hp. pose proof (blen_nonneg json). unfold META_PAD_BLOCK in *. rewrite Z.max_r in Hp by lia.
  assert (Hm : wrap32 (blen meta) = blen meta) by (unfold wrap32; apply Z.mod_small; lia).
  exists hn, (replicate (Z.to_nat (data_offset h0 - blen (Format.encode hn chk (fp_stem p)))) x00), meta, json.
  destruct Hwf as ((Hf1 & _ & Hf3 & Hf4 & Hf5) & Hv & Hmin). split_and!; try done; cbn [hn data_len meta_len data_offset]; try done.
  - unfold header_wf, header_fits. cbn [hn data_len meta_len data_offset hflags version]. split_and!; try done; unfold in_u; lia.
  - rewrite blen_replicate, blen_encode. unfold HEADER_SIZE. lia.
Qed.

(** Changing labels undoes the durability of an object. Whenever [set_labels] succeeds,
    a crash may afterwards leave any bytes at all in the place of the object, however
    durably it had been stored: the file that replaces it is never synced. *)
Theorem set_labels_not_durable (w : Store) (b k : string) (ls : LabelSet) (p : fpath) (mek chk file data : bytes) (md : Metadata) (w' : Store) :
  serving w b k p mek chk file data md -> fs_wf (s_fs w) -> fs_faults (s_fs w) = [] -> set_labels b k ls w = (Ok tt, w') ->
  forall garbage, may_read (s_fs w') p (Some garbage).
Proof using AL HL RL.
  intros Hsv Hwf Hq E garbage. pose proof (sv_addr _ _ _ _ _ _ _ _ _ Hsv) as [Hb Hk (pk & Hpk & Hp) Hmek Hchk].
  unfold set_labels, set_labels_thread in E. cbn [alone] in E. apply prog_bind_Ok in E as (r & w1 & E1 & E2).
  destruct (s_locks w !! (b, k)) eqn:El.
  { unfold labels_read, unlocked in E1. cbn in E1. unfold mbind, prog_bind, gets, lift_res, check_not_locked in E1. rewrite El in E1. done. }
  destruct (labels_read_yields w b k p mek chk file data md Hsv El) as (h & Hr & Hy).
  destruct (yields_run _ _ _ _ _ Hy) as (w1' & E1' & (fs1 & (l & -> & _) & ->)); [intros Hf; by apply Hf|]. rewrite E1 in E1'. injection E1' as -> ->.
  apply prog_bind_Ok in E2 as (u & w2 & E2 & [= -> <-]).
  pose proof (labels_write_post (set_fs (with_faults l (s_fs w)) w) b k (mkLabelsRead p file h md) ls p mek chk) as Hpost.
  unfold post in Hpost. rewrite E2 in Hpost. destruct Hpost as (_ & _ & _ & json & meta & _ & Hrep & _); try done; [by rewrite Hp|by apply wf_with_faults|].
  destruct (rp_inode _ _ _ _ _ Hrep) as [t Ht]. unfold inode_at in Ht. destruct (fs_entries (s_fs w2) !! p) as [i|] eqn:Ei; [|done]. cbn in Ht.
  right. exists (Some i). split; [by apply entry_candidate|]. by eexists _, garbage.
Qed.


Lemma st_step_quiet w w' : st_step w w' -> fs_faults (s_fs w) = [] -> w' = w.
Proof using. intros (fs & (l & -> & Hl) & ->) Hq. rewrite (Hl Hq), <- Hq, with_faults_self. by destruct w. Qed.

Lemma blen_relabelled chk id r data meta h md mek p : readable mek chk p (lr_bytes r) data md h -> lr_header r = h ->
  blen (relabelled chk id r meta) = data_offset h + blen data + blen meta + 64.
Proof using HL.
  intros [Hlong Hh Hln Hdl Hdata Hend Hmo Hoff Hwf _] Hhdr. unfold relabelled. cbv zeta. rewrite Hhdr, Hmo, Hdata. unfold HEADER_SIZE in Hoff.
  rewrite !blen_app, blen_replicate, !blen_encode. lia.
Qed.

(** On a quiet store the second half succeeds, and the object has the data of the store
    the first half read. *)
Lemma labels_write_installs w b k r ls p mek chk data md0 h : lr_path r = p -> lr_header r = h -> readable mek chk p (lr_bytes r) data md0 h ->
  addressed w b k p mek chk -> fs_wf (s_fs w) -> fs_faults (s_fs w) = [] -> fp_dir p ∈ fs_dirs (s_fs w) ->
  (exists json, to_vec (relabel (lr_metadata r) ls (s_now w)) = Ok json /\ blen json <= 2 ^ 31) -> blen data + 2 ^ 34 <= FILE_MAX ->
  exists w' file, labels_write b k r ls w = (Ok tt, w') /\ serving w' b k p mek chk file data (relabel (lr_metadata r) ls (s_now w)) /\
    s_locks w' = s_locks w /\ fs_faults (s_fs w') = [].
Proof using AL HL RL JL.
  intros Hp Hh Hrd Ha Hwf Hq Hd (json & Hj & Hjl) Hroom. pose proof Ha as [? ? (pk & Hpk & Hpp) Hmek Hchk].
  pose proof (labels_write_post w b k r ls p mek chk Hp ltac:(by rewrite Hpp) Hwf Hmek Hchk) as Hpost. unfold post in Hpost.
  destruct (labels_write b k r ls w) as [[[]|e] w'].
  - destruct Hpost as (Hke & Hba & Hlo & json' & meta & Hj' & Hr & Hmax & Hml & Hdec). rewrite Hj in Hj'. injection Hj' as <-.
    exists w', (relabelled chk (fp_stem p) r meta). split_and!; [done| |done|by apply (rp_quiet _ _ _ _ _ Hr)].
    constructor; [constructor; rewrite ?Hke, ?Hba; eauto| |].
    + unfold data_at. destruct (rp_inode _ _ _ _ _ Hr) as [t ->]. done.
    + eapply relabelled_object; try done. by apply json_roundtrip.
  - exfalso. destruct Hpost as [_ [_ Hwhy]]. destruct (Hwhy Hq) as [Hn|[Hn|(json' & meta & Hj' & [Hn|[Hml Hn]])]]; [by rewrite Hj in Hn|by apply Hn| |];
      rewrite Hj in Hj'; injection Hj' as <-; [unfold u32_max in Hn; lia|].
    erewrite blen_relabelled in Hn by done. destruct (rd_wf _ _ _ _ _ _ _ Hrd) as ((_ & _ & Ho & _) & _). unfold in_u in Ho.
    pose proof (padded_len_of_ge (blen json) META_PAD_BLOCK). unfold META_PAD_BLOCK in *. lia.
Qed.

(** A label change can undo a put. [set_labels] looks at the lock but does not take it:
    when a put of the same object runs between its read and its write, both report success
    and the object is back to the data it had before the put. *)
Theorem labels_undo_put (w : Store) (b k : string) (ls : LabelSet) (payload : bytes) (options : PutOptions) (p : fpath) (mek chk file data : bytes) (md : Metadata) :
  serving w b k p mek chk file data md -> fs_wf (s_fs w) -> fs_faults (s_fs w) = [] -> put_ready w b k payload options p ->
  (exists json, to_vec (relabel md ls (s_now w)) = Ok json /\ blen json <= 2 ^ 31) -> blen data + 2 ^ 34 <= FILE_MAX ->
  exists w', race_run [true; false; true] (set_labels_thread b k ls, Atom (put b k payload options) (fun ow => Halt (Ok ow)), w) =
      (Halt (Ok tt), Halt (Ok true), w') /\ fst (get b k w') = Ok data.
Proof using AL HL RL JL.
  intros Hsv Hwf Hq Hready Hjson Hroom. pose proof Hsv as [Ha Hf Ho].
  destruct (labels_read_yields w b k p mek chk file data md Hsv (pr_free _ _ _ _ _ _ Hready)) as (h & Hrd & Hy).
  destruct (yields_run _ _ _ _ _ Hy) as (w1 & E1 & Hs1); [intros Hx; by apply Hx|]. apply st_step_quiet in Hs1; [|done]. subst w1.
  pose proof (put_post w b k payload options p mek chk Ha Hwf (put_ready_fits _ _ _ _ _ _ Hready)) as Hpost. unfold post in Hpost.
  destruct (put b k payload options w) as [[ow|e] w2] eqn:E2; [|by destruct Hpost as [_ [_ Hwhy]]; destruct (put_ready_not_refused _ _ _ _ _ _ Hready (Hwhy Hq))].
  destruct Hpost as [How (prior & file' & Hin & _)]. rewrite Hf, bool_decide_eq_true_2 in How by eauto. subst ow. pose proof Hin as [Hba Hke Hno Hlo _ (s & Hr & _) _].
  assert (Ha2 : addressed w2 b k p mek chk) by (destruct Ha; constructor; rewrite ?Hke, ?Hba; eauto).
  destruct (labels_write_installs w2 b k (mkLabelsRead p file h md) ls p mek chk data md h) as (w3 & file3 & E3 & Hsv3 & Hlo3 & Hq3); try done.
  - apply (rp_wf _ _ _ _ _ Hr).
  - by eapply installed_quiet.
  - destruct (rp_inode _ _ _ _ _ Hr) as [t Ht]. unfold inode_at in Ht. destruct (fs_entries (s_fs w2) !! p) as [i|] eqn:Ei; [|done]. by eapply wf_linked; [apply (rp_wf _ _ _ _ _ Hr)|].
  - by rewrite Hno.
  - exists w3. split.
    + cbn [race_run resume set_labels_thread]. rewrite E1. cbn. rewrite E2. cbn. by rewrite E3.
    + eapply yields_quiet; [eapply get_yields; [done|]|done]. rewrite Hlo3, Hlo. apply Hready.
Qed.

(** ** Buckets *)

(** A bucket whose registration failed can never be registered. [create_bucket] makes the
    directory before it registers the name; if the index refuses, every later attempt finds
    the directory, reports that the bucket is there already, and registers nothing: the
    bucket stays absent. *)
Theorem half_created_bucket (w : Store) (b : string) (pk : bytes) (e : Error) (w' : Store) :
  path_key (s_keys w) = Some pk -> fs_wf (s_fs w) -> fs_faults (s_fs w) = [] -> bucket_dir_path (s_base w) pk b ∉ fs_dirs (s_fs w) ->
  validate_bucket b = Ok tt -> MetaIndex.register_bucket (s_index w) b = Err e -> create_bucket b w = (Err e, w') ->
  create_bucket b w' = (Ok false, w') /\ s_index w' = s_index w.
Proof using.
  intros Hpk Hwf Hq Hnew Hv Hreg E. set (dir := bucket_dir_path (s_base w) pk b) in *.
  assert (Hpost : post (create_bucket b) (fun _ _ => False) (fun _ w' => s_keys w' = s_keys w /\ s_base w' = s_base w /\ s_index w' = s_index w /\ fs_faults (s_fs w') = [] /\ dir ∈ fs_dirs (s_fs w')) w).
  { unfold create_bucket. apply post_bind, (need_work _ pk); [unfold require_path_key; by rewrite Hpk|]. apply post_bind, post_lift; rewrite Hv; [intros [] _|done].
    apply post_bind, post_gets. cbv zeta. fold dir. apply post_bind, post_io. unfold unwrap_or_false, fs_try_exists_dir. apply post_match, post_bind.
    unfold sys, post at 1. rewrite Hq. apply post_gets, post_ret. rewrite bool_decide_eq_false_2 by done. apply post_bind.
    eapply post_mono; [| |eapply (io_work _ _ _ False w (set_fs (s_fs w) w) (s_locks w)); [by constructor|apply (create_dir_all_kept (s_fs w)), kept_refl, Hwf]].
    2: { intros e' w1 [_ [_ Hn]]. by destruct (Hn Hq). }
    intros [] w1 [[Hba Hke _ Hid _] [Hk Hd]]. apply post_bind. unfold indexed, post at 1. rewrite Hid, Hreg. split_and!; try done. by apply (kept_quiet _ _ Hk). }
  unfold post in Hpost. rewrite E in Hpost. destruct Hpost as (Hke & Hba & Hid & Hq' & Hd). split; [|done].
  unfold create_bucket, need, require_path_key, gets, lift_res, io, unwrap_or_false, fs_try_exists_dir, match_res, mbind, prog_bind, sys.
  rewrite Hke, Hpk. cbn [ok_or]. rewrite Hv, Hba, Hq'. fold dir. cbn. rewrite bool_decide_eq_true_2 by done. unfold set_fs. by destruct w'.
Qed.

End safety.
