(* ===== verification/FilesystemStream.v ===== *)
(** * Streaming uploads onto the filesystem

    An upload opens a staging file under the object's lock, hands it to the encrypting
    session, and commits it.  The theorems join the backend with [Cipher]: what an upload
    stored is what a download streams. *)

From S2P Require Import Prelude Effects Primitives Types Format Crypto NodeKeys Envelope Sink EncryptSession Cipher BucketKeys Lex Query Index IndexSpec Locks Posix Filesystem FilesystemSpec FilesystemSafety.
Import FilesystemStorage.

Section stream.
Context {A : AeadOps} {K : KemOps} {H : HkdfOps} {X : Xxh3Ops} {B : Base64Ops} {HO : HashOps} {R : RngOps}.
Context {RD : RedbOps} {J : MetadataJson} {CJ : ConfigJson} {U : UnicodeOps}.
Context {AL : AeadLaws} {KL : KemLaws} {HKL : HkdfLaws} {XL : Xxh3Laws} {HL : HashLaws} {RL : RngLaws} {JL : JsonLaws}.

(** The staging file as the sink the session writes to, with the faults it will meet. *)
Definition open_file (w : Store) (h : FileHandle) (faults : list bool) : TokioFile :=
  mkTokioFile (mkDisk (default [] (in_data <$> fs_inodes (s_fs w) !! fh_inode h)) faults) (fh_pos h).
(** The file as the session left it. *)
Definition store_back (h : FileHandle) (f : TokioFile) (w : Store) : FileHandle * Store :=
  (mkFileHandle (fh_inode h) (t_pos f),
   set_fs (set_inode (fh_inode h) (mkInode (contents (t_disk f)) false (s_now w)) (s_fs w)) w).

(** [AnyStorage::begin_streaming_put] and [AnyStreamingPutGuard::commit] with the session in
    between: if it fails, the guard is dropped. *)
Definition write_offset : Z := HEADER_SIZE.

Definition streaming_put (bucket key : string) (session : TokioFile -> result Error (TokioFile * PlaintextMetrics * CipherMetadata))
    (faults : list bool) (options : PutOptions) : prog Store Error bool :=
  '(g, h) ← begin_streaming_put bucket key;
  file ← gets (fun w => open_file w h faults);
  match session file with
  | Err e => fail_after (guard_drop g) e
  | Ok (f, pm, cm) =>
      h ← (fun w => let '(h, w) := store_back h f w in (Ok h, w));
      commit g h options pm cm
  end.

(** ** Opening *)

Definition guard_for (b k : string) (p : fpath) (overwrite : bool) (prior : option Z) : StreamingPutGuard :=
  mkStreamingPutGuard (with_extension p "tmp") p b k overwrite prior.

Lemma begin_post w b k p mek chk : addressed w b k p mek chk -> fs_wf (s_fs w) ->
  post (begin_streaming_put b k)
    (fun x w' => exists prior, x.1 = guard_for b k p (bool_decide (is_Some (data_at (s_fs w) p))) prior /\ s_locks w !! (b, k) = None /\
       writing w w' (<[(b, k) := s_now w]> (s_locks w)) (with_extension p "tmp") x.2 (replicate 64 x00) /\ stamp_ok prior /\
       forall f0 d0 md0, data_at (s_fs w) p = Some f0 -> object_file mek chk p f0 d0 md0 -> fs_faults (s_fs w) = [] -> prior = Some (md_created md0))
    (fun _ w' => failed (is_Some (s_locks w !! (b, k))) w w' (s_locks w)) w.
Proof using HL JL.
  intros Ha Hwf. pose proof Ha as [Hb Hk (pk & Hpk & Hp) Hmek Hchk]. assert (Hext : fp_ext p = "obj") by (by rewrite Hp).
  unfold begin_streaming_put. apply post_bind, post_lift; rewrite Hb; [intros [] _|done]. apply post_bind, post_lift; rewrite Hk; [intros [] _|done].
  apply post_bind, (key_path_post w b k p mek chk); [done|]. cbv zeta. set (tmp := with_extension p "tmp"). assert (Htmp : fp_ext tmp <> "obj") by done.
  apply post_bind. eapply post_mono; [| |eapply (io_work _ _ _ False w w); [done|apply (create_dir_all_kept (s_fs w)), kept_refl, Hwf]];
    [|intros e w'; by apply failed_mono].
  intros [] w1 [Hw1 [Hk1 Hd1]]. apply post_bind, (need_work _ mek); [unfold require_object_metadata_key; by rewrite (aw_keys _ _ _ Hw1), Hmek|].
  apply post_bind, (need_work _ chk); [unfold require_container_header_key; by rewrite (aw_keys _ _ _ Hw1), Hchk|].
  apply post_bind. eapply post_mono; [| |apply (existing_work _ b k p mek chk w w1 (s_locks w))]; try done; [|intros e w'; by apply failed_mono].
  intros [ow prior] w2 [(Hw2 & Hk2 & Hd2) (How & Hstamp & Hprior)]. cbn [fst snd] in How, Hstamp, Hprior. subst ow.
  apply post_bind, post_gets, post_bind, post_gets, post_bind. rewrite (aw_locks _ _ _ Hw2), (aw_now _ _ _ Hw2). unfold try_acquire.
  destruct (s_locks w !! (b, k)) as [since|] eqn:El; [apply post_lift; [done|]; intros e _; split; [done|]; split; [done|]; by eauto|].
  apply post_lift; [|done]. intros L [= <-]. apply post_bind, post_modify. set (L := <[(b, k) := s_now w]> (s_locks w)).
  assert (Hw3 : at_work w (set_locks L w2) L) by (destruct Hw2; by constructor).
  apply post_match, post_bind. eapply post_mono; [| |apply (open_tmp_work b k "begin_streaming_put" "open tmp: " tmp w (set_locks L w2) L); [done|done|done|]].
  - intros h w4 Hwr4. eapply post_mono; [| |eapply (write_part_work _ _ _ _ h tmp []); [exact Hwr4|done]].
    + intros h5 w5 [Hwr5 _]. apply post_ret. exists prior. by split_and!.
    + intros e w5 [Hw5 Hg]. apply post_bind, post_modify, post_throw. split; [|by apply (gave_up_mono (FILE_MAX < 0 + 64))].
      destruct Hw5 as [? ? ? ? Hl]. constructor; try done. cbn [set_locks s_locks]. rewrite Hl. unfold release, L. by apply delete_insert_id.
  - intros e w4 [Hw4 Hg]. apply post_bind, post_modify, post_throw. split; [|by eapply gave_up_mono, Hg].
    destruct Hw4 as [? ? ? ? Hl]. constructor; try done. cbn [set_locks s_locks]. rewrite Hl. unfold release, L. by apply delete_insert_id.
  - cbn [set_locks s_fs]. by rewrite Hd2.
Qed.


(** ** Committing *)

Lemma guard_drop_failed why w0 w L b k p ow prior e {T} : failed why w0 w L -> fp_ext p = "obj" -> release L b k = s_locks w0 ->
  post (guard_drop (guard_for b k p ow prior) ≫= fun _ => lift_res (Err e : result Error T)) (fun _ _ => False)
    (fun _ w' => failed why w0 w' (s_locks w0)) w.
Proof using.
  intros [[? ? ? ? Hl] [Hk Hwhy]] Hp Hrel. unfold guard_drop. apply post_bind, post_bind, post_modify, post_modify, post_lift; [done|].
  intros e' [= <-]. split.
  - constructor; try done. cbn [set_locks set_fs s_locks guard_for g_bucket g_key]. by rewrite Hl.
  - split; [|done]. by apply remove_file_kept.
Qed.

Lemma guard_drop_installed w0 w L b k p ow prior file sync md : installed w0 w L p file sync md -> fp_ext p = "obj" -> release L b k = s_locks w0 ->
  post (guard_drop (guard_for b k p ow prior) ≫= fun _ => lift_res (Ok ow : result Error bool)) (fun x w' => x = ow /\ installed w0 w' (s_locks w0) p file sync md)
    (fun _ _ => False) w.
Proof using.
  intros [? ? ? Hl ? (s & Hr & Hs) Hset] Hp Hrel. unfold guard_drop. apply post_bind, post_bind, post_modify, post_modify, post_lift; [|done].
  intros x [= <-]. split; [done|]. destruct (remove_file_replaced (s_fs w0) (s_fs w) p file s (with_extension p "tmp") Hr) as [Hr' Hset']; [done|done|].
  constructor; try done; [cbn [set_locks set_fs s_locks guard_for g_bucket g_key]; by rewrite Hl|by exists s|].
  intros Hd Hq. apply Hset'. by apply Hset.
Qed.

(** Metadata and trailer after the data, then the header over its placeholder. *)
Lemma close_parts_work {T} b k h tmp enc data meta (K' : FileHandle -> prog Store Error T) P Q w0 w L :
  writing w0 w L tmp h (replicate 64 x00 ++ data) -> fp_ext tmp <> "obj" -> blen enc = 64 ->
  (forall h' w', at_work w0 w' L -> (exists s, staged (s_fs w0) (s_fs w') tmp h' (enc ++ data ++ meta ++ enc) s) ->
     blen (enc ++ data ++ meta ++ enc) <= FILE_MAX -> post (K' h') P Q w') ->
  (forall e w', failed (FILE_MAX < 128 + blen data + blen meta) w0 w' L -> Q e w') ->
  post (h ← write_part b k "put" "write meta: " h meta; h ← write_part b k "put" "write trailer: " h enc;
        h ← io (io_failed b k "put" "seek to header: ") (fs_seek h 0); h ← write_part b k "put" "write header: " h enc; K' h) P Q w.
Proof using.
  intros Hwr Htmp Henc HK HQ. pose proof (blen_nonneg data). pose proof (blen_nonneg meta). assert (Hne : enc <> []) by (by intros ->).
  assert (Hbig : forall n e w', n <= 128 + blen data + blen meta -> failed (FILE_MAX < n) w0 w' L -> Q e w').
  { intros n e w' Hn Hf. apply HQ. eapply failed_mono; [|exact Hf]. lia. }
  apply post_bind. eapply post_mono; [| |eapply write_part_work; [exact Hwr|exact Htmp]]; [|intros e w'; apply Hbig; rewrite ?blen_app, ?blen_replicate; lia].
  intros h1 w1 [Hwr1 _].
  apply post_bind. eapply post_mono; [| |eapply write_part_work; [exact Hwr1|exact Htmp]]; [|intros e w'; apply Hbig; rewrite ?blen_app, ?blen_replicate; lia].
  intros h2 w3 [(Hw & [s Hs] & _) Hmax].
  apply post_bind. eapply post_mono; [| |eapply (io_work _ _ (fun h' fs' => staged (s_fs w0) fs' tmp h' ((((replicate 64 x00 ++ data) ++ meta) ++ enc)) s /\ fh_pos h' = 0) False w0 w3 L Hw)].
  2: { intros e w'. intros Hf. apply HQ. by eapply failed_mono, Hf. }
  2: { unfold fs_seek. apply post_bind, post_sys.
       - intros l Hl. apply post_ret. split; [|done]. apply (staged_with_faults _ _ _ _ _ _ l) in Hs as [? ? ?]; [|done]. by constructor.
       - intros l m Hf. apply fault_gave_up; [by apply st_kept in Hs|done]. }
  intros h3 w4 [Hw4 [Hs4 Hp4]]. unfold write_part at 1. apply post_bind, post_bind, post_gets.
  eapply post_mono; [| |eapply (io_work _ _ _ _ w0 w4 L Hw4), (write_all_staged (s_fs w0)); [exact Hs4|done|done]].
  - intros h5 w5 [Hw5 (Hs5 & _ & _)]. rewrite Hp4 in Hs5.
    assert (Hov : overwrite (((replicate 64 x00 ++ data) ++ meta) ++ enc) 0 enc = enc ++ data ++ meta ++ enc).
    { rewrite <- !app_assoc. change 0 with (blen (@nil byte)). apply (overwrite_middle [] (replicate 64 x00) enc). unfold blen in Henc. rewrite length_replicate. lia. }
    rewrite Hov in Hs5. apply HK; [done|by eexists|]. rewrite !blen_app, Henc. specialize (Hmax Hne). rewrite !blen_app, blen_replicate, Henc in Hmax. lia.
  - intros e w5. rewrite Hp4. apply Hbig. lia.
Qed.

Definition commit_refused (g : StreamingPutGuard) (options : PutOptions) (pm : PlaintextMetrics) (cm : CipherMetadata) (now n : Z) : Prop :=
  is_ok (to_vec (commit_metadata g options pm cm now)) = false \/ FILE_MAX < n + 2 ^ 32.

Lemma commit_post w0 w b k p mek chk ow prior h env options pm cm :
  addressed w0 b k p mek chk -> s_locks w0 !! (b, k) = None ->
  writing w0 w (<[(b, k) := s_now w0]> (s_locks w0)) (with_extension p "tmp") h (replicate 64 x00 ++ env) ->
  cm_cipher_size cm = blen env -> let g := guard_for b k p ow prior in let md := commit_metadata g options pm cm (s_now w0) in
  (forall json, to_vec md = Ok json -> blen json <= 2 ^ 31) ->
  post (commit g h options pm cm)
    (fun x w' => x = ow /\ exists file, installed w0 w' (s_locks w0) p file (po_sync options) md /\ object_file mek chk p file env md)
    (fun _ w' => failed (commit_refused g options pm cm (s_now w0) (128 + blen env)) w0 w' (s_locks w0)) w.
Proof using AL HL RL JL.
  intros Ha Hfree Hwr Hcs g md Hfits. pose proof Ha as [_ _ (pk & Hpk & Hp) Hmek Hchk]. assert (Hext : fp_ext p = "obj") by (by rewrite Hp).
  set (tmp := with_extension p "tmp") in *. assert (Htmp : fp_ext tmp <> "obj") by done. set (L := <[(b, k) := s_now w0]> (s_locks w0)) in *.
  assert (Hrel : release L b k = s_locks w0) by (unfold release, L; by apply delete_insert_id).
  pose proof Hwr as (Hw & _ & _). unfold commit. cbv zeta. apply post_match.
  apply (post_mono _ (fun _ w' => exists file, installed w0 w' L p file (po_sync options) md /\ object_file mek chk p file env md) _
    (fun _ w' => failed (commit_refused g options pm cm (s_now w0) (128 + blen env)) w0 w' L)).
  { intros [] w' (file & Hin & Ho). eapply post_mono; [| |by apply (guard_drop_installed w0 w' L b k p ow prior file (po_sync options) md)]; [|done].
    intros x w2 [-> Hin2]. eauto. }
  { intros e w' Hf. eapply post_mono; [| |by apply (guard_drop_failed _ w0 w' L b k p ow prior e Hf)]; done. }
  apply post_bind, post_gets. rewrite (aw_now _ _ _ Hw). cbn [g guard_for g_bucket g_key g_obj_path g_tmp_path]. fold g. fold md.
  apply post_bind, post_lift.
  2: { intros e (e' & He & _)%map_err_Err. split; [done|]. split; [by eapply writing_kept|]. intros _. left. fold md. by rewrite He. }
  intros json Hj%map_err_Ok. specialize (Hfits json Hj).
  apply post_bind, (need_work _ mek); [unfold require_object_metadata_key; by rewrite (aw_keys _ _ _ Hw), Hmek|].
  apply post_bind, (need_work _ chk); [unfold require_container_header_key; by rewrite (aw_keys _ _ _ Hw), Hchk|].
  unfold object_id_from_path. apply post_bind.
  eapply post_mono; [| |apply (seal_meta_work _ _ _ _ _ _ _ _ w0 w L (fun fs => exists s, staged (s_fs w0) fs tmp h (replicate 64 x00 ++ env) s) Hw)]; [| |apply Hwr|by eapply writing_kept|done].
  2: { intros e w'. apply failed_mono. unfold u32_max. lia. }
  intros meta w1 (Hw1 & Hst1 & Hml & Hdec). rewrite Hcs. set (hdr := mkHeader _ _ _ _ _). set (enc := Format.encode hdr chk (fp_stem p)).
  assert (Henc : blen enc = 64) by apply blen_encode. pose proof (blen_nonneg env). pose proof (blen_nonneg meta).
  pose proof (padded_len_of_ge (blen json) META_PAD_BLOCK) as Hpad. unfold META_PAD_BLOCK in *.
  eapply (close_parts_work b k h tmp enc env meta _ _ _ w0 w1 L); [split_and!; [done|done|by apply Hwr]|done|done| |].
  2: { intros e w'. apply failed_mono. intros Hx. right. lia. }
  intros h2 w2 Hw2 Hst2 Hmax. eapply post_mono; [| |eapply (install_object_work _ _ _ _ tmp p); try done; rewrite Hp; apply obj_path_dir]; [|intros e w'; by apply failed_mono].
  intros [] w3 Hin. eexists. split; [exact Hin|]. apply (container_object mek chk p (po_sync options) env meta json md); try done. by apply json_roundtrip.
Qed.


(** ** From upload to download *)

(** The file a session starts on: the placeholder of the header. *)
Definition fresh_file : TokioFile := mkTokioFile (mkDisk (replicate 64 x00) []) write_offset.

Lemma fresh_at_end : sink_at_end fresh_file write_offset.
Proof using. split_and!; done. Qed.

Lemma open_fresh w0 w L tmp h : writing w0 w L tmp h (replicate 64 x00) -> open_file w h [] = fresh_file.
Proof using. intros (_ & [s [_ _ [t Ht]]] & Hp). unfold open_file, fresh_file. rewrite Ht, Hp. done. Qed.

Lemma store_back_writing w0 w L tmp h data f : writing w0 w L tmp h data -> fp_ext tmp <> "obj" -> t_pos f = blen (contents (t_disk f)) ->
  writing w0 (store_back h f w).2 L tmp (store_back h f w).1 (contents (t_disk f)).
Proof using.
  intros ([? ? ? ? ?] & [s Hs] & _) Htmp Hp. cbn [store_back fst snd]. split_and!; [by constructor| |done].
  exists false. eapply staged_set_inode; [exact Hs|done].
Qed.

(** C1: what is uploaded is what is downloaded. On a store without faults, with the address
    valid and the object not locked, streaming a body through encryption into the store
    succeeds whatever pieces the network splits it into, within the cap; afterwards the
    object is described with the size of the body, and streaming any range of it back out,
    through [get_range] and decryption, ends without error and gives exactly those bytes. *)
Theorem upload_download (w : Store) (b k : string) (p : fpath) (mek chk : bytes) (dk : Dk) (ep : Z) (pieces : list bytes) (cs : Z)
    (mx : option Z) (r : rng) (options : PutOptions) :
  let session f := stream_encrypt_for_put (seal.pk_bytes_of dk) ep (Ok <$> pieces) f b k write_offset cs mx r in
  addressed w b k p mek chk -> fs_wf (s_fs w) -> fs_faults (s_fs w) = [] -> s_locks w !! (b, k) = None ->
  in_u 32 ep -> 0 < cs <= u32_max -> 20 * blen (concat pieces) + 2 ^ 34 <= FILE_MAX ->
  (forall limit, mx = Some limit -> blen (concat pieces) <= limit) ->
  (forall f pm cm ow prior, stamp_ok prior -> session fresh_file = Ok (f, pm, cm) ->
     blen (contents (t_disk f)) + 2 ^ 33 <= FILE_MAX /\
     exists json, to_vec (commit_metadata (guard_for b k p ow prior) options pm cm (s_now w)) = Ok json /\ blen json <= 2 ^ 31) ->
  exists w' md, streaming_put b k session [] options w = (Ok (bool_decide (is_Some (data_at (s_fs w) p))), w') /\
    fst (describe b k w') = Ok md /\ md_size md = blen (concat pieces) /\
    forall start end_ fuel, 0 <= start <= end_ -> end_ < blen (concat pieces) -> (polls_needed cs start end_ <= fuel)%nat ->
      exists items, @drain _ _ _ (reader w') fuel (@plaintext_stream b k md (seal.sk_bytes_of dk) start end_) = (items, Some EndOk) /\
        concat items = slice start (end_ + 1) (concat pieces).
Proof using AL KL HKL XL HL RL JL.
  intros session Ha Hwf Hq Hfree Hep Hcs Hroom Hcap Hjson.
  pose proof (begin_post w b k p mek chk Ha Hwf) as Hb. unfold post in Hb.
  destruct (begin_streaming_put b k w) as [[[g h]|e] w1] eqn:Eb; [|destruct Hb as [_ [_ Hwhy]]; specialize (Hwhy Hq); rewrite Hfree in Hwhy; by destruct Hwhy].
  destruct Hb as (prior & Hg & _ & Hwr & Hstamp & _). cbn [fst snd] in Hg, Hwr. set (ow := bool_decide (is_Some (data_at (s_fs w) p))) in *. subst g.
  destruct (stream_put_total dk ep pieces fresh_file b k write_offset cs mx r) as ([[f pm] cm] & Es); try done; [unfold write_offset, HEADER_SIZE; lia|].
  destruct (Hjson f pm cm ow prior Hstamp Es) as [Hsize (json & Hj & Hjl)].
  destruct (stream_put_finished _ _ _ _ _ _ _ _ _ _ _ _ _ Hep Hcs fresh_at_end Es) as (pieces' & P & info & Hpc & HP & Hfin & Hpm & Hcm & _).
  apply fmap_Ok_inj in Hpc. subst pieces'. destruct (finished_decrypts _ _ _ _ _ _ _ _ _ _ HP Hfin) as (env & Hf & Hc & _ & _).
  cbn [sink_file tokio_sink_laws fresh_file t_disk contents] in Hf.
  assert (Hpos : t_pos f = blen (contents (t_disk f))) by exact (fin_cursor _ _ _ _ Hfin).
  pose proof (store_back_writing _ _ _ _ _ _ f Hwr ltac:(done) Hpos) as Hwr2. rewrite Hf in Hwr2.
  assert (Hsz : cm_cipher_size cm = blen env) by (by rewrite Hcm).
  pose proof (commit_post w (store_back h f w1).2 b k p mek chk ow prior (store_back h f w1).1 env options pm cm Ha Hfree Hwr2 Hsz) as Hcommit.
  cbv zeta in Hcommit. specialize (Hcommit ltac:(intros j Ej; rewrite Hj in Ej; by injection Ej as <-)). unfold post in Hcommit.
  destruct (commit _ _ _ _ _ (store_back h f w1).2) as [[x|e] w'] eqn:Ec.
  2: { exfalso. destruct Hcommit as [_ [_ Hwhy]]. destruct (Hwhy Hq) as [Hn|Hn]; [by rewrite Hj in Hn|]. rewrite Hf, blen_app, blen_replicate in Hsize. lia. }
  destruct Hcommit as [-> (file & Hin & Ho)]. set (md := commit_metadata (guard_for b k p ow prior) options pm cm (s_now w)) in *.
  pose proof (installed_serving _ _ _ _ _ _ _ _ _ _ _ _ _ Ha Hin Ho) as Hsv. pose proof (installed_quiet _ _ _ _ _ _ _ Hin Hq) as Hq'.
  assert (Hfree' : s_locks w' !! (b, k) = None) by (by rewrite (ii_locks _ _ _ _ _ _ _ Hin)).
  exists w', md. split_and!.
  - unfold streaming_put. rewrite (prog_bind_run _ _ _ _ _ Eb). unfold gets, mbind, prog_bind. rewrite (open_fresh _ _ _ _ _ Hwr). fold (session fresh_file) in Es. rewrite Es. exact Ec.
  - by eapply yields_quiet; [eapply describe_yields|].
  - cbn [md commit_metadata md_size]. by rewrite Hpm.
  - intros start end_ fuel Hse Hend Hfuel. eapply (put_range_get (SR := reader w') dk ep pieces fresh_file b k write_offset cs mx r f pm cm md); try done.
    cbn [sink_file tokio_sink_laws fresh_file t_disk contents]. rewrite Hf, drop_app_length. intros a z Haz. by eapply yields_quiet; [eapply get_range_yields|].
Qed.

End stream.
