(* ===== verification/Rebuild.v ===== *)
(** * Rebuilding the index from the files

    The walk over the object tree visits exactly the object files, and a rebuild leaves an
    index that holds exactly what can be read from them. *)

From S2P Require Import Prelude Effects Primitives Types Format Crypto NodeKeys Sink BucketKeys Lex Query Index IndexSpec Locks Posix Filesystem FilesystemSpec FilesystemSafety.
Import FilesystemStorage.

(** ** The walk *)

(** The entries of a directory. *)
Definition dirents (d : list string) (fs : Fs) : list dirent :=
  (SubDir <$> filter (fun x => parent_dir x = d /\ x <> d) (elements (fs_dirs fs)))
  ++ (File <$> filter (fun p => fp_dir p = d) (map_to_list (fs_entries fs)).*1).

Lemma elem_of_dirents d fs e : e ∈ dirents d fs <->
  match e with
  | SubDir x => x ∈ fs_dirs fs /\ parent_dir x = d /\ x <> d
  | File p => fp_dir p = d /\ is_Some (fs_entries fs !! p)
  end.
Proof.
  unfold dirents. rewrite elem_of_app, !list_elem_of_fmap. destruct e as [x|p]; split.
  - intros [(y & [= <-] & [Hp Hy]%list_elem_of_filter)|(y & ? & _)]; [|done]. rewrite elem_of_elements in Hy. tauto.
  - intros (Hx & Hp & Hne). left. exists x. split; [done|]. apply list_elem_of_filter. by rewrite elem_of_elements.
  - intros [(y & ? & _)|(y & [= <-] & [Hp Hy]%list_elem_of_filter)]; [done|]. apply list_elem_of_fmap in Hy as ([q i] & -> & Hq%elem_of_map_to_list). cbn in *. split; [done|]. rewrite Hq. eauto.
  - intros (Hp & [i Hi]). right. exists p. split; [done|]. apply list_elem_of_filter. split; [done|]. apply list_elem_of_fmap. exists (p, i). split; [done|]. by apply elem_of_map_to_list.
Qed.

(** On a quiet file system [f] adds [h e] for each entry and changes nothing. *)
Definition emits {T} (fs : Fs) (f : dirent -> list T -> fsop (list T)) (h : dirent -> list T) (e : dirent) : Prop :=
  forall out, f e out fs = (Ok (out ++ h e), fs).

Lemma sys_quiet fs : fs_faults fs = [] -> sys fs = (Ok tt, fs).
Proof. unfold sys. by intros ->. Qed.

Lemma for_each_emits {T} fs (f : dirent -> list T -> fsop (list T)) h es : fs_faults fs = [] -> Forall (emits fs f h) es ->
  forall out, for_each (fun e s => _ ← sys; f e s) es out fs = (Ok (out ++ (es ≫= h)), fs).
Proof.
  intros Hq. induction 1 as [|e es He _ IH]; intros out; cbn [for_each mbind list_bind]; [by rewrite app_nil_r|].
  unfold mbind, prog_bind. rewrite sys_quiet by done. rewrite He, IH. by rewrite app_assoc.
Qed.

Lemma each_entry_emits {T} fs d (f : dirent -> list T -> fsop (list T)) h out : fs_faults fs = [] -> d ∈ fs_dirs fs ->
  Forall (emits fs f h) (dirents d fs) -> each_entry d f out fs = (Ok (out ++ (dirents d fs ≫= h)), fs).
Proof.
  intros Hq Hd Hall. unfold each_entry, fs_read_dir, mbind, prog_bind. rewrite sys_quiet by done. unfold gets. rewrite bool_decide_eq_true_2 by done.
  cbn [negb]. fold (dirents d fs). pose proof (for_each_emits fs f h (dirents d fs) Hq Hall out) as E. unfold mbind, prog_bind in E. rewrite E. by rewrite sys_quiet.
Qed.

Lemma when_dir_emits {T} fs d (k : list string -> list T -> fsop (list T)) h : fs_faults fs = [] ->
  (forall x out, x ∈ fs_dirs fs -> k x out fs = (Ok (out ++ h x), fs)) ->
  Forall (emits fs (when_dir k) (fun e => match e with SubDir x => h x | File _ => [] end)) (dirents d fs).
Proof.
  intros Hq Hk. apply Forall_forall. intros [x|p] He out; unfold when_dir, mbind, prog_bind; rewrite sys_quiet by done; [|by rewrite app_nil_r].
  apply elem_of_dirents in He as [Hx _]. by apply Hk.
Qed.

(** The files three directories below the base. *)
Definition shelved (base : list string) (fs : Fs) (p : fpath) : Prop :=
  is_Some (fs_entries fs !! p) /\ exists x y z, fp_dir p = base ++ [x; y; z].

Definition sub {T} (h : list string -> list T) (e : dirent) : list T := match e with SubDir x => h x | File _ => [] end.
Definition obj_leaf (e : dirent) : list fpath :=
  match e with File p => if bool_decide (fp_ext p = "obj") then [p] else [] | SubDir _ => [] end.
Definition files_below (fs : Fs) (base : list string) : list fpath :=
  dirents base fs ≫= sub (fun b => dirents b fs ≫= sub (fun l1 => dirents l1 fs ≫= sub (fun l2 =>
    dirents l2 fs ≫= obj_leaf))).

Lemma collect_obj_files_run fs base : fs_faults fs = [] -> base ∈ fs_dirs fs ->
  collect_obj_files base fs = (Ok (files_below fs base), fs).
Proof.
  intros Hq Hb. unfold collect_obj_files, walk. change (files_below fs base) with ([] ++ files_below fs base).
  apply each_entry_emits; [done|done|]. apply when_dir_emits; [done|]. intros b out Hbd.
  apply each_entry_emits; [done|done|]. apply when_dir_emits; [done|]. intros l1 out' Hl1.
  apply each_entry_emits; [done|done|]. apply when_dir_emits; [done|]. intros l2 out'' Hl2.
  apply each_entry_emits; [done|done|]. apply Forall_forall. intros [x|p] _ out3; unfold obj_leaf; [by rewrite app_nil_r|].
  case_bool_decide; [done|by rewrite app_nil_r].
Qed.

Lemma parent_dir_snoc d x : parent_dir (d ++ [x]) = d.
Proof. unfold parent_dir. rewrite length_app. cbn. replace (length d + 1 - 1)%nat with (length d) by lia. apply take_app_length. Qed.

Lemma parent_dir_inv x d : parent_dir x = d -> x <> d -> exists a, x = d ++ [a].
Proof.
  intros Hp Hne. destruct x as [|a x] using rev_ind; [by subst|]. exists a. by rewrite parent_dir_snoc in Hp; subst.
Qed.

(** Every file is in a directory that is there, and so is what is above it. *)
Record fs_tree (fs : Fs) : Prop := mkFsTree {
  ft_linked : forall p i, fs_entries fs !! p = Some i -> fp_dir p ∈ fs_dirs fs;
  ft_closed : forall d x, d ∈ fs_dirs fs -> x ∈ ancestors d -> x ∈ fs_dirs fs;
}.
Lemma wf_tree fs : fs_wf fs -> fs_tree fs.
Proof. intros Hwf. split; [apply (wf_linked _ Hwf)|apply (wf_closed _ Hwf)]. Qed.

Lemma elem_of_files_below fs base p : fs_tree fs -> p ∈ files_below fs base <-> shelved base fs p /\ fp_ext p = "obj".
Proof.
  intros Hwf. unfold files_below, shelved.
  assert (Hsub : forall T (h : list string -> list T) d x, x ∈ dirents d fs ≫= sub h <-> exists a, d ++ [a] ∈ fs_dirs fs /\ x ∈ h (d ++ [a])).
  { intros T h d x. rewrite list_elem_of_bind. split.
    - intros ([y|q] & Hx & He); [|by apply elem_of_nil in Hx]. apply elem_of_dirents in He as (Hy & Hp & Hne). destruct (parent_dir_inv _ _ Hp Hne) as [a ->]. eauto.
    - intros (a & Ha & Hx). exists (SubDir (d ++ [a])). split; [done|]. apply elem_of_dirents. split_and!; [done|apply parent_dir_snoc|]. intros He. apply (f_equal length) in He. rewrite length_app in He. cbn in He. lia. }
  setoid_rewrite Hsub. setoid_rewrite Hsub. setoid_rewrite Hsub. split.
  - intros (a & _ & b & _ & c & _ & Hp). apply list_elem_of_bind in Hp as ([x|q] & Hx & He); unfold obj_leaf in Hx; [by apply elem_of_nil in Hx|]. apply elem_of_dirents in He as [Hd Hs].
    case_bool_decide as Hext; [|by apply elem_of_nil in Hx]. apply list_elem_of_singleton in Hx as ->. split; [|done]. split; [done|]. exists a, b, c. by rewrite Hd, <- !app_assoc.
  - intros [[[i Hi] (a & b & c & Hd)] Hext]. pose proof (ft_linked _ Hwf _ _ Hi) as Hin. rewrite Hd in Hin.
    assert (Hanc : forall l r, base ++ [a; b; c] = l ++ r -> l ∈ fs_dirs fs).
    { intros l r He. eapply (ft_closed _ Hwf); [exact Hin|]. rewrite He. apply list_elem_of_fmap. exists (length l). split; [by rewrite take_app_length|]. apply elem_of_seq. rewrite length_app. lia. }
    exists a. split; [by apply (Hanc _ [b; c]); rewrite <- app_assoc|]. exists b. split; [by apply (Hanc _ [c]); rewrite <- !app_assoc|]. exists c. split; [by apply (Hanc _ []); rewrite app_nil_r, <- !app_assoc|].
    apply list_elem_of_bind. exists (File p). unfold obj_leaf. rewrite bool_decide_eq_true_2 by done. split; [by left|]. apply elem_of_dirents. rewrite Hd, <- !app_assoc. split; [done|]. rewrite Hi. eauto.
Qed.

(** ** The rebuilt index *)

Section rebuild.
Context {A : AeadOps} {X : Xxh3Ops} {B : Base64Ops} {HO : HashOps} {R : RngOps}.
Context {RD : RedbOps} {J : MetadataJson} {CJ : ConfigJson} {U : UnicodeOps}.
Context {AL : AeadLaws} {HL : HashLaws} {RL : RngLaws} {RDL : RedbLaws} {JL : JsonLaws}.
Abbreviation catalog := (gmap (string * string) Metadata).

(** A database none of whose calls fails. *)
Record redb_healthy : Prop := mkRedbHealthy {
  rh_get : forall t k, is_ok (tbl_get t k) = true;
  rh_insert : forall t k v, is_ok (tbl_insert t k v) = true;
  rh_remove : forall t k, is_ok (tbl_remove t k) = true;
  rh_iter : forall t start, exists items, tbl_iter t start = Ok (Ok <$> items);
}.
Hypothesis Hdb : redb_healthy.

Lemma is_ok_inv {E T} (m : result E T) : is_ok m = true -> exists x, m = Ok x.
Proof using. destruct m; [eauto|done]. Qed.

Lemma remove_labels_total b k ls : forall t, exists t', MetaIndex.remove_labels b k ls t = Ok t'.
Proof using Hdb.
  unfold MetaIndex.remove_labels. induction ls as [|nv ls IH] using rev_ind; intros t; [by eexists|]. rewrite foldl_snoc. destruct (IH t) as [t1 ->]. cbn.
  destruct (is_ok_inv _ (rh_remove Hdb t1 (encode_label_key nv.1 nv.2 b k))) as [t2 ->]. by eexists.
Qed.
Lemma insert_labels_total b k ls : forall t, exists t', MetaIndex.insert_labels b k ls t = Ok t'.
Proof using Hdb.
  unfold MetaIndex.insert_labels. induction ls as [|nv ls IH] using rev_ind; intros t; [by eexists|]. rewrite foldl_snoc. destruct (IH t) as [t1 ->]. cbn.
  destruct (is_ok_inv _ (rh_insert Hdb t1 (encode_label_key nv.1 nv.2 b k) [])) as [t2 ->]. by eexists.
Qed.
Lemma tear_down_total b k d : exists t, MetaIndex.tear_down b k d = Ok t.
Proof using Hdb.
  unfold MetaIndex.tear_down. destruct (is_ok_inv _ (rh_get Hdb (MetaIndex.objects d) (encode_object_key b k))) as [o ->]. cbn.
  destruct o as [v|]; [|by eexists]. destruct (from_slice v) as [m|e]; [apply remove_labels_total|by eexists].
Qed.
Lemma upsert_total d m : is_ok (to_vec m) = true -> exists idx, MetaIndex.upsert (MetaIndex.commit d) m = Ok idx.
Proof using Hdb.
  intros [json Hj]%is_ok_inv. unfold MetaIndex.upsert. cbn. rewrite Hj. cbn. destruct (tear_down_total (md_bucket m) (md_key m) d) as [ls ->]. cbn.
  destruct (is_ok_inv _ (rh_insert Hdb (MetaIndex.objects d) (encode_object_key (md_bucket m) (md_key m)) json)) as [os ->]. cbn.
  destruct (insert_labels_total (md_bucket m) (md_key m) (elements (md_labels m)) ls) as [ls' ->]. by eexists.
Qed.
Lemma remove_total d b k : exists idx, MetaIndex.remove (MetaIndex.commit d) b k = Ok idx.
Proof using Hdb.
  unfold MetaIndex.remove. cbn. destruct (tear_down_total b k d) as [ls ->]. cbn.
  destruct (is_ok_inv _ (rh_remove Hdb (MetaIndex.objects d) (encode_object_key b k))) as [os ->]. by eexists.
Qed.

Lemma list_all_keys_total (d : MetaIndex.IndexDb) (M : catalog) : represents d M ->
  exists l, MetaIndex.list_all_keys (MetaIndex.commit d) = Ok l /\ forall bk, bk ∈ l <-> is_Some (M !! bk).
Proof using Hdb RDL.
  intros HR. unfold MetaIndex.list_all_keys. cbn. destruct (rh_iter Hdb (MetaIndex.objects d) []) as [items Ei]. rewrite Ei. cbn.
  apply tbl_iter_view in Ei. assert (Hitems : items = rows_from (tbl_view (MetaIndex.objects d)) []).
  { revert Ei. generalize (rows_from (tbl_view (MetaIndex.objects d)) []). induction items as [|x items IH]; intros rows; cbn; [by intros ->|]. destruct rows as [|y rows]; [done|]. intros [-> Hd]. f_equal. by apply IH. }
  subst items. clear Ei.
  assert (Hrow : forall kb v, (kb, v) ∈ rows_from (tbl_view (MetaIndex.objects d)) [] -> exists bk, decode_label_suffix kb = Some bk /\ is_Some (M !! bk) /\ name_ok bk.1 /\ name_ok bk.2 /\ kb = encode_object_key bk.1 bk.2).
  { intros kb v [Hv _]%elem_of_rows_from. destruct (rep_objects _ _ HR _ _ Hv) as (m & _ & Hm & ->). destruct (rep_meta _ _ HR _ _ _ Hm) as (_ & _ & Hb & Hk & _).
    exists (md_bucket m, md_key m). split_and!; [by apply decode_suffix|by eexists|done|done|done]. }
  assert (Hcov : forall bk, is_Some (M !! bk) -> exists v, (encode_object_key bk.1 bk.2, v) ∈ rows_from (tbl_view (MetaIndex.objects d)) []).
  { intros [b k] [m Hm]. destruct (rep_complete _ _ HR _ _ _ Hm) as (v & Hv & _). exists v. by apply elem_of_rows_from. }
  assert (Hkeys : forall bk, is_Some (M !! bk) -> name_ok bk.1 /\ name_ok bk.2).
  { intros [b k] [m Hm]. destruct (rep_meta _ _ HR _ _ _ Hm) as (<- & <- & ? & ? & _). done. }
  set (f := fun kv : bytes * bytes => bk ← ok_or (decode_label_suffix kv.1) MetaIndex.malformed; Ok (Some bk)).
  assert (Hcol : forall rows, (forall kb v, (kb, v) ∈ rows -> is_Some (decode_label_suffix kb)) ->
    MetaIndex.collect f (Ok <$> rows) = Ok (omap (fun kv => decode_label_suffix kv.1) rows)).
  { induction rows as [|[kb v] rows IH]; intros Hd; [done|]. cbn [fmap list_fmap MetaIndex.collect MetaIndex.redb map_err mbind result_bind omap list_omap fst].
    destruct (Hd kb v) as [bk Hbk]; [by left|]. replace (f (kb, v)) with (Ok (Some bk) : result Error (option (string * string))) by (unfold f; cbn [fst]; by rewrite Hbk).
    cbn [mbind result_bind]. change (list_fmap _ _ Ok rows) with (Ok <$> rows : list (result string (bytes * bytes))). rewrite Hbk, IH; [done|]. intros kb' v' Hin. apply (Hd kb' v'). by right. }
  eexists. split; [apply Hcol; intros kb v Hin; destruct (Hrow kb v Hin) as (bk & -> & _); eauto|]. intros bk. rewrite list_elem_of_omap. split.
  - intros ([kb v] & Hin & He). destruct (Hrow kb v Hin) as (bk' & He' & Hs & _). cbn in He. by simplify_eq.
  - intros Hs. destruct (Hcov bk Hs) as [v Hv]. eexists. split; [exact Hv|]. cbn. destruct (Hkeys bk Hs). unfold encode_object_key. rewrite decode_suffix by done. by destruct bk.
Qed.

(** What can be read from the object files: [M] says which record each address has. *)
Record on_disk (fs : Fs) (base : list string) (mek chk : bytes) (M : catalog) : Prop := mkOnDisk {
  od_files : forall p md, shelved base fs p -> fp_ext p = "obj" -> fst (read_obj_metadata p mek chk fs) = Ok md -> M !! (md_bucket md, md_key md) = Some md;
  od_found : forall bk md, M !! bk = Some md -> (md_bucket md, md_key md) = bk /\ exists p, shelved base fs p /\ fp_ext p = "obj" /\ fst (read_obj_metadata p mek chk fs) = Ok md;
  od_ok : forall bk md, M !! bk = Some md -> meta_ok md /\ is_ok (to_vec md) = true;
}.

(** Half way: the addresses in [seen] are as on disk, the others as they were. *)
Definition half_way (M0 M M1 : catalog) (seen : gset (string * string)) : Prop :=
  forall bk, M1 !! bk = if bool_decide (bk ∈ seen) then M !! bk else M0 !! bk.

(** Only the index and the progress may differ. *)
Definition same_files (w w' : Store) : Prop :=
  s_fs w' = s_fs w /\ s_base w' = s_base w /\ s_keys w' = s_keys w /\ s_locks w' = s_locks w /\ s_now w' = s_now w.

Lemma rebuild_one_run (w : Store) (base : list string) (mek chk : bytes) (total i : nat) (p : fpath) (seen : gset (string * string)) (d : MetaIndex.IndexDb) (M0 M M1 : catalog) : fs_faults (s_fs w) = [] -> on_disk (s_fs w) base mek chk M -> shelved base (s_fs w) p -> fp_ext p = "obj" ->
  s_index w = MetaIndex.commit d -> represents d M1 -> half_way M0 M M1 seen ->
  exists w' d' M1' seen', rebuild_one mek chk total (i, p) seen w = (Ok seen', w') /\ same_files w w' /\
    s_index w' = MetaIndex.commit d' /\ MetaIndex.buckets d' = MetaIndex.buckets d /\ represents d' M1' /\ half_way M0 M M1' seen' /\
    seen' = match fst (read_obj_metadata p mek chk (s_fs w)) with Ok md => {[(md_bucket md, md_key md)]} ∪ seen | Err _ => seen end.
Proof using Hdb RDL JL.
  intros Hq Hon Hsh Hext Hidx HR Hhalf. unfold rebuild_one.
  assert (Hread : snd (read_obj_metadata p mek chk (s_fs w)) = s_fs w).
  { destruct (read_obj_metadata_reads p mek chk (s_fs w)) as (l & -> & Hl). rewrite (Hl Hq), <- Hq. apply with_faults_self. }
  set (tick := if _ && _ then _ else _).
  assert (Htick : forall w1, exists st, tick w1 = (Ok tt, set_rebuild st w1)).
  { intros w1. unfold tick. destruct (_ && _); [by eexists|]. exists (s_rebuild w1). by destruct w1. }
  clearbody tick. destruct (read_obj_metadata p mek chk (s_fs w)) as [[md|e] fs] eqn:Er; cbn [fst snd] in *; subst fs.
  - pose proof (od_files _ _ _ _ _ Hon p md Hsh Hext ltac:(by rewrite Er)) as HM. destruct (od_ok _ _ _ _ _ Hon _ _ HM) as [Hok Hjs].
    destruct (upsert_total d md Hjs) as [idx Eu]. destruct (upsert_represents d M1 md idx HR Hok Eu) as (d' & -> & Hb' & HR').
    destruct (Htick (set_index (MetaIndex.commit d') (set_fs (s_fs w) w))) as [st Et].
    exists (set_rebuild st (set_index (MetaIndex.commit d') (set_fs (s_fs w) w))), d', (<[(md_bucket md, md_key md) := md]> M1), ({[(md_bucket md, md_key md)]} ∪ seen). split_and!; try done.
    + unfold mbind, prog_bind, io, match_res. rewrite Er. cbn [map_err mret prog_ret]. unfold best_effort, match_res, indexed. cbn [set_fs s_index]. rewrite Hidx, Eu. cbn [mret prog_ret]. by rewrite Et.
    + intros bk. destruct (decide (bk = (md_bucket md, md_key md))) as [->|Hne].
      * rewrite lookup_insert_eq, bool_decide_eq_true_2 by (apply elem_of_union_l; by apply elem_of_singleton). done.
      * rewrite lookup_insert_ne, Hhalf by done. by rewrite (bool_decide_ext (bk ∈ {[(md_bucket md, md_key md)]} ∪ seen) (bk ∈ seen)) by (rewrite elem_of_union, elem_of_singleton; tauto).
  - destruct (Htick (set_fs (s_fs w) w)) as [st Et]. exists (set_rebuild st (set_fs (s_fs w) w)), d, M1, seen. split_and!; try done.
    + unfold mbind, prog_bind, io, match_res. rewrite Er. cbn [map_err mret prog_ret]. by rewrite Et.
Qed.

(** The store with another index that holds [M1]. *)
Definition reindexed (w : Store) (d : MetaIndex.IndexDb) (M1 : catalog) (w' : Store) : Prop :=
  same_files w w' /\ exists d', s_index w' = MetaIndex.commit d' /\ MetaIndex.buckets d' = MetaIndex.buckets d /\ represents d' M1.

Lemma reindexed_step (w w' w'' : Store) (d d' : MetaIndex.IndexDb) (M2 : catalog) : same_files w w' -> MetaIndex.buckets d' = MetaIndex.buckets d ->
  reindexed w' d' M2 w'' -> reindexed w d M2 w''.
Proof using.
  intros (? & ? & ? & ? & ?) Hd [(? & ? & ? & ? & ?) (d2 & Hi & Hd2 & HR)]. split; [split_and!; congruence|]. exists d2. split_and!; [done|congruence|done].
Qed.

Lemma rebuild_loop (base : list string) (mek chk : bytes) (total : nat) (M0 M : catalog) (items : list (nat * fpath)) :
  forall (w : Store) (seen : gset (string * string)) (d : MetaIndex.IndexDb) (M1 : catalog),
  fs_faults (s_fs w) = [] -> on_disk (s_fs w) base mek chk M -> Forall (fun x => shelved base (s_fs w) x.2 /\ fp_ext x.2 = "obj") items ->
  s_index w = MetaIndex.commit d -> represents d M1 -> half_way M0 M M1 seen ->
  exists w' M1' seen', for_each (rebuild_one mek chk total) items seen w = (Ok seen', w') /\ reindexed w d M1' w' /\ half_way M0 M M1' seen' /\
    forall bk, bk ∈ seen' <-> bk ∈ seen \/ exists x md, x ∈ items /\ fst (read_obj_metadata x.2 mek chk (s_fs w)) = Ok md /\ bk = (md_bucket md, md_key md).
Proof using Hdb RDL JL.
  induction items as [|[i p] items IH]; intros w seen d M1 Hq Hon Hall Hidx HR Hhalf; cbn [for_each].
  - exists w, M1, seen. split_and!; [done|by split; [|exists d]|done|]. intros bk. split; [by left|]. intros [?|(x & md & []%elem_of_nil & _)]; done.
  - apply Forall_cons in Hall as [[Hsh Hext] Hall].
    destruct (rebuild_one_run w base mek chk total i p seen d M0 M M1 Hq Hon Hsh Hext Hidx HR Hhalf) as (w1 & d1 & M2 & s1 & E & Hsame & Hi1 & Hb1 & HR1 & Hh1 & Hs1). pose proof Hsame as [Hf _].
    destruct (IH w1 s1 d1 M2) as (w' & M3 & s' & E' & Hre & Hh' & Hs'); try (rewrite Hf); try done.
    exists w', M3, s'. split_and!; [unfold mbind, prog_bind; by rewrite E|by eapply reindexed_step|done|]. intros bk. rewrite Hs', Hf, Hs1. cbn [snd] in *. split.
    + intros [Hin|(x & md & Hx & Hr & ->)]; [|right; exists x, md; split_and!; [by right|done|done]].
      destruct (fst (read_obj_metadata p mek chk (s_fs w))) as [md|e] eqn:Er; [|by left]. apply elem_of_union in Hin as [->%elem_of_singleton|Hin]; [|by left].
      right. exists (i, p), md. split_and!; [by left|done|done].
    + intros [Hin|(x & md & Hx & Hr & ->)]; [left; destruct (fst _); [apply elem_of_union_r|]; done|].
      apply elem_of_cons in Hx as [->|Hx]; [|right; by exists x, md]. left. cbn [snd] in Hr. rewrite Hr. apply elem_of_union_l, elem_of_singleton. done.
Qed.

(** The second loop drops the rows of [keys] that were not seen. *)
Lemma prune_loop (seen : gset (string * string)) (keys : list (string * string)) :
  forall (w : Store) (d : MetaIndex.IndexDb) (M1 : catalog), s_index w = MetaIndex.commit d -> represents d M1 -> Forall (fun bk => name_ok bk.1 /\ name_ok bk.2) keys ->
  exists w' M2, for_each (fun bk (_ : unit) => if bool_decide (bk ∈ seen) then mret tt
    else best_effort (indexed Error_display (fun idx => MetaIndex.remove idx bk.1 bk.2))) keys tt w = (Ok tt, w') /\ reindexed w d M2 w' /\
    forall bk, M2 !! bk = if bool_decide (bk ∈ seen \/ bk ∉ keys) then M1 !! bk else None.
Proof using Hdb RDL JL.
  induction keys as [|bk keys IH]; intros w d M1 Hidx HR Hall; cbn [for_each].
  - exists w, M1. split_and!; [done|by split; [|exists d]|]. intros bk. rewrite bool_decide_eq_true_2; [done|]. right. apply not_elem_of_nil.
  - apply Forall_cons in Hall as [[Hb Hk] Hall]. case_bool_decide as Hin.
    + destruct (IH w d M1 Hidx HR Hall) as (w' & M2 & E & Hre & HM2). exists w', M2. split_and!; [unfold mbind, prog_bind, mret, prog_ret; exact E|done|]. intros x. rewrite HM2. rewrite (bool_decide_ext (x ∈ seen \/ x ∉ keys) (x ∈ seen \/ x ∉ bk :: keys)); [done|].
      rewrite not_elem_of_cons. destruct (decide (x = bk)) as [->|]; tauto.
    + destruct (remove_total d bk.1 bk.2) as [idx Er]. destruct (remove_represents d M1 bk.1 bk.2 idx HR Hb Hk Er) as (d1 & -> & Hb1 & HR1).
      destruct (IH (set_index (MetaIndex.commit d1) w) d1 (base.delete (bk.1, bk.2) M1) eq_refl HR1 Hall) as (w' & M2 & E & Hre & HM2). exists w', M2. split_and!.
      * unfold mbind, prog_bind, best_effort, match_res, indexed. rewrite Hidx, Er. exact E.
      * by eapply reindexed_step; [|exact Hb1|exact Hre].
      * intros x. rewrite HM2. rewrite <- surjective_pairing. destruct (decide (x = bk)) as [->|Hne].
        -- rewrite lookup_delete_eq. rewrite (bool_decide_eq_false_2 (bk ∈ seen \/ bk ∉ bk :: keys)) by (rewrite not_elem_of_cons; tauto). by case_bool_decide.
        -- rewrite lookup_delete_ne by done. rewrite (bool_decide_ext (x ∈ seen \/ x ∉ keys) (x ∈ seen \/ x ∉ bk :: keys)); [done|]. rewrite not_elem_of_cons. tauto.
Qed.

Lemma rebuild_scan_run (w : Store) (mek chk : bytes) (d : MetaIndex.IndexDb) (M0 M : catalog) :
  fs_faults (s_fs w) = [] -> fs_tree (s_fs w) -> s_base w ∈ fs_dirs (s_fs w) -> s_index w = MetaIndex.commit d -> represents d M0 -> on_disk (s_fs w) (s_base w) mek chk M ->
  exists w' M1 seen, rebuild_scan mek chk w = (Ok seen, w') /\ reindexed w d M1 w' /\ half_way M0 M M1 seen /\ forall bk, bk ∈ seen <-> is_Some (M !! bk).
Proof using Hdb RDL JL.
  intros Hq Hwf Hbase Hidx HR Hon. set (files := files_below (s_fs w) (s_base w)).
  assert (Hfiles : Forall (fun x => shelved (s_base w) (s_fs w) x.2 /\ fp_ext x.2 = "obj") (imap pair files)).
  { apply Forall_forall. intros x (i & p & -> & Hp)%elem_of_lookup_imap. apply (elem_of_files_below (s_fs w) (s_base w) p Hwf). by eapply list_elem_of_lookup_2. }
  destruct (rebuild_loop (s_base w) mek chk (length files) M0 M (imap pair files) w ∅ d M0 Hq Hon Hfiles Hidx HR) as (w1 & M1 & seen & E1 & Hre & Hh & Hseen).
  { intros bk. by rewrite bool_decide_eq_false_2 by apply not_elem_of_empty. }
  exists w1, M1, seen. split_and!; [|done|done|].
  - unfold rebuild_scan, mbind, prog_bind, gets, io, match_res. rewrite collect_obj_files_run by done. cbn [map_err].
    replace (set_fs (s_fs w) w) with w by (by destruct w). exact E1.
  - intros bk. rewrite Hseen. split.
    + intros [[]%not_elem_of_empty|([i p] & md & Hx & Hr & ->)]. destruct (proj1 (Forall_forall _ _) Hfiles _ Hx) as [Hsh Hext]. rewrite (od_files _ _ _ _ _ Hon p md Hsh Hext Hr). eauto.
    + intros [md Hmd]. right. destruct (od_found _ _ _ _ _ Hon bk md Hmd) as (He & p & Hsh & Hext & Hr).
      destruct (proj1 (list_elem_of_lookup _ _) (proj2 (elem_of_files_below (s_fs w) (s_base w) p Hwf) (conj Hsh Hext))) as [i Hi].
      exists (i, p), md. split_and!; [|done|done]. apply elem_of_lookup_imap. by exists i, p.
Qed.

Lemma rebuild_prune_run (w : Store) (seen : gset (string * string)) (d : MetaIndex.IndexDb) (M1 : catalog) : s_index w = MetaIndex.commit d -> represents d M1 ->
  exists w' M2, rebuild_prune seen w = (Ok tt, w') /\ reindexed w d M2 w' /\ forall bk, M2 !! bk = if bool_decide (bk ∈ seen) then M1 !! bk else None.
Proof using Hdb RDL JL.
  intros Hi HR. destruct (list_all_keys_total d M1 HR) as (keys & Ek & Hkeys).
  destruct (prune_loop seen keys w d M1 Hi HR) as (w2 & M2 & E2 & Hre & HM2).
  { apply Forall_forall. intros [b k] [m Hm]%Hkeys. destruct (rep_meta _ _ HR _ _ _ Hm) as (<- & <- & ? & ? & _). done. }
  exists w2, M2. split_and!; [|done|].
  - unfold rebuild_prune, mbind, prog_bind, gets. rewrite Hi, Ek. exact E2.
  - intros bk. rewrite HM2. repeat case_bool_decide; try tauto. apply eq_None_not_Some. rewrite <- Hkeys. tauto.
Qed.

Lemma rebuild_task_run (w : Store) (mek chk : bytes) (d : MetaIndex.IndexDb) (M0 M : catalog) :
  fs_faults (s_fs w) = [] -> fs_tree (s_fs w) -> s_base w ∈ fs_dirs (s_fs w) -> s_index w = MetaIndex.commit d -> represents d M0 -> on_disk (s_fs w) (s_base w) mek chk M ->
  exists w' d', rebuild_task mek chk w = (Ok tt, w') /\ s_rebuild w' = Completed /\ same_files w w' /\
    s_index w' = MetaIndex.commit d' /\ represents d' M /\ MetaIndex.buckets d' = MetaIndex.buckets d.
Proof using Hdb RDL JL.
  intros Hq Hwf Hbase Hidx HR Hon. destruct (rebuild_scan_run w mek chk d M0 M Hq Hwf Hbase Hidx HR Hon) as (w1 & M1 & seen & E1 & [(Hf1 & Hb1 & Hk1 & Hl1 & Hn1) (d1 & Hi1 & Hd1 & HR1)] & Hh & Hseen).
  destruct (rebuild_prune_run w1 seen d1 M1 Hi1 HR1) as (w2 & M2 & E2 & [(Hf2 & Hb2 & Hk2 & Hl2 & Hn2) (d2 & Hi2 & Hd2 & HR2)] & HM2).
  exists (set_rebuild Completed w2), d2. split_and!; try done; [|unfold same_files; cbn; split_and!; congruence| |congruence].
  - unfold rebuild_task, match_res, run_rebuild, mbind, prog_bind. by rewrite E1, E2.
  - replace M with M2; [done|]. apply map_eq. intros bk. rewrite HM2, Hh. case_bool_decide as Hs; [done|]. rewrite Hseen in Hs. symmetry. by apply eq_None_not_Some.
Qed.

(** C23: when the file system and the database answer, a rebuild completes and leaves an index that
    holds exactly the records that can be read from the object files, whatever the index held
    before; stale rows are dropped, the buckets and the files stay as they were. *)
Theorem rebuild_restores (w : Store) (mek chk : bytes) (d : MetaIndex.IndexDb) (M0 M : catalog) :
  fs_faults (s_fs w) = [] -> fs_wf (s_fs w) -> s_base w ∈ fs_dirs (s_fs w) -> s_index w = MetaIndex.commit d -> represents d M0 -> on_disk (s_fs w) (s_base w) mek chk M ->
  exists w' d', rebuild_task mek chk w = (Ok tt, w') /\ s_rebuild w' = Completed /\ s_fs w' = s_fs w /\
    s_index w' = MetaIndex.commit d' /\ represents d' M /\ MetaIndex.buckets d' = MetaIndex.buckets d.
Proof using Hdb RDL JL.
  intros Hq Hwf%wf_tree Hbase Hidx HR Hon. destruct (rebuild_task_run w mek chk d M0 M Hq Hwf Hbase Hidx HR Hon) as (w' & d' & E & Hc & (Hf & _) & H). by exists w', d'.
Qed.

(** A rebuild can hide an object that was uploaded meanwhile. A put that finishes after the
    files were listed and before the stale rows are dropped reports success, and its object can
    be read; but the rebuild takes its row for a stale one: afterwards the index does not know
    the object, so no listing, search or rekey finds it. *)
Theorem rebuild_hides_put (w : Store) (b k : string) (payload : bytes) (options : PutOptions) (p : fpath) (mek chk : bytes) (d : MetaIndex.IndexDb) (M0 M : catalog) :
  fs_faults (s_fs w) = [] -> fs_wf (s_fs w) -> s_base w ∈ fs_dirs (s_fs w) -> s_index w = MetaIndex.commit d -> represents d M0 -> on_disk (s_fs w) (s_base w) mek chk M ->
  addressed w b k p mek chk -> put_ready w b k payload options p -> M !! (b, k) = None ->
  meta_ok (put_metadata b k p payload options None (s_now w)) ->
  exists seen w1 w2 w3 ow d3, rebuild_scan mek chk w = (Ok seen, w1) /\ put b k payload options w1 = (Ok ow, w2) /\ rebuild_prune seen w2 = (Ok tt, w3) /\
    fst (get b k w3) = Ok payload /\ s_index w3 = MetaIndex.commit d3 /\ represents d3 M.
Proof using Hdb RDL JL AL HL RL.
  intros Hq Hwf Hbase Hidx HR Hon Ha Hready Hnew Hmd.
  destruct (rebuild_scan_run w mek chk d M0 M Hq (wf_tree _ Hwf) Hbase Hidx HR Hon) as (w1 & M1 & seen & E1 & [(Hf1 & Hb1 & Hk1 & Hl1 & Hn1) (d1 & Hi1 & Hd1 & HR1)] & Hh & Hseen).
  assert (Ha1 : addressed w1 b k p mek chk) by (destruct Ha; constructor; rewrite ?Hb1, ?Hk1; done).
  assert (Hready1 : put_ready w1 b k payload options p) by (destruct Hready; constructor; rewrite ?Hl1, ?Hn1; done).
  rewrite <- Hf1 in Hwf, Hq. pose proof (put_post w1 b k payload options p mek chk Ha1 Hwf (put_ready_fits _ _ _ _ _ _ Hready1)) as Hpost. unfold post in Hpost.
  destruct (put b k payload options w1) as [[ow|e] w2] eqn:E2; [|by destruct Hpost as [_ [_ Hwhy]]; destruct (put_ready_not_refused _ _ _ _ _ _ Hready1 (Hwhy Hq))].
  destruct Hpost as [_ (prior & file & Hin & Hobj & _)]. rewrite Hn1 in Hin, Hobj. set (md := put_metadata b k p payload options prior (s_now w)) in *.
  pose proof (installed_serving _ _ _ _ _ _ _ _ _ _ _ _ _ Ha1 Hin Hobj) as Hsv.
  assert (Hok : meta_ok md) by (revert Hmd; unfold md, put_metadata; by destruct (po_plaintext_metrics options)).
  assert (Hst : stamp_ok prior).
  { intros t ->. destruct Hobj as (h & pad & meta & json & _ & _ & _ & _ & _ & _ & _ & Hjs). apply json_created in Hjs. revert Hjs. unfold md, put_metadata. by destruct (po_plaintext_metrics options). }
  destruct (pr_json _ _ _ _ _ _ Hready prior Hst) as (json & Hj & _). fold md in Hj. assert (Hjs : is_ok (to_vec md) = true) by (by rewrite Hj). destruct (upsert_total d1 md Hjs) as [idx Eu].
  destruct (upsert_represents d1 M1 md idx HR1 Hok Eu) as (d2 & -> & Hd2 & HR2).
  assert (Hi2 : s_index w2 = MetaIndex.commit d2) by (by rewrite (ii_index _ _ _ _ _ _ _ Hin), Hi1, Eu).
  destruct (rebuild_prune_run w2 seen d2 _ Hi2 HR2) as (w3 & M3 & E3 & [(Hf3 & Hb3 & Hk3 & Hl3 & Hn3) (d3 & Hi3 & Hd3 & HR3)] & HM3).
  exists seen, w1, w2, w3, ow, d3. split_and!; try done.
  - eapply yields_quiet; [eapply (get_yields w3 b k p mek chk file payload md)|rewrite Hf3; by eapply installed_quiet].
    + destruct Hsv as [[]]. constructor; [constructor|..]; rewrite ?Hk3, ?Hb3, ?Hf3; done.
    + rewrite Hl3, (ii_locks _ _ _ _ _ _ _ Hin). apply Hready1.
  - replace M with M3; [done|]. apply map_eq. intros bk. rewrite HM3. case_bool_decide as Hs.
    + rewrite lookup_insert_ne, Hh, bool_decide_eq_true_2; [done|done|]. intros <-. apply Hseen in Hs. assert (Hbk : (md_bucket md, md_key md) = (b, k)) by (unfold md, put_metadata; by destruct (po_plaintext_metrics options)). rewrite Hbk in Hs. by rewrite Hnew in Hs; destruct Hs.
    + rewrite Hseen in Hs. symmetry. by apply eq_None_not_Some.
Qed.

End rebuild.
