(* ===== verification/NodeRotationSpec.v ===== *)
(** * What a node key rotation keeps

    Rotating the tree of a store whose files are all sealed under the old keys succeeds and
    leaves every object and bucket configuration readable, with the same contents, under the
    new ones; a rotation that was interrupted inside a bucket cannot be resumed. *)

From S2P Require Import Prelude Effects Primitives Types Format Crypto NodeKeys Sink BucketKeys Lex Query Index IndexSpec Locks Posix FsView Filesystem FilesystemSpec FilesystemSafety Rebuild NodeRotation.
Import FilesystemStorage.

(** ** The object files of a bucket *)

Definition bucket_files (fs : Fs) (dir : list string) : list fpath :=
  dirents dir fs ≫= sub (fun l1 => dirents l1 fs ≫= sub (fun l2 => dirents l2 fs ≫= obj_leaf)).

Lemma elem_of_sub {T} (h : list string -> list T) d fs x :
  x ∈ dirents d fs ≫= sub h <-> exists a, d ++ [a] ∈ fs_dirs fs /\ x ∈ h (d ++ [a]).
Proof.
  rewrite list_elem_of_bind. split.
  - intros ([y|q] & Hx & He); [|by apply elem_of_nil in Hx]. apply elem_of_dirents in He as (Hy & Hp & Hne). destruct (parent_dir_inv _ _ Hp Hne) as [a ->]. eauto.
  - intros (a & Ha & Hx). exists (SubDir (d ++ [a])). split; [done|]. apply elem_of_dirents. split_and!; [done|apply parent_dir_snoc|].
    intros He. apply (f_equal length) in He. rewrite length_app in He. cbn in He. lia.
Qed.

Lemma elem_of_leaf d fs p : p ∈ dirents d fs ≫= obj_leaf <-> fp_dir p = d /\ is_Some (fs_entries fs !! p) /\ fp_ext p = "obj".
Proof.
  rewrite list_elem_of_bind. split.
  - intros ([x|q] & Hx & He); unfold obj_leaf in Hx; [by apply elem_of_nil in Hx|]. apply elem_of_dirents in He as [Hd Hs].
    case_bool_decide; [|by apply elem_of_nil in Hx]. by apply list_elem_of_singleton in Hx as ->.
  - intros (Hd & Hs & He). exists (File p). unfold obj_leaf. rewrite bool_decide_eq_true_2 by done. split; [by left|]. by apply elem_of_dirents.
Qed.

Lemma elem_of_bucket_files fs dir p : fs_ok fs ->
  p ∈ bucket_files fs dir <-> is_Some (data_at fs p) /\ fp_ext p = "obj" /\ exists x y, fp_dir p = dir ++ [x; y].
Proof.
  intros Hok. unfold bucket_files. setoid_rewrite elem_of_sub. setoid_rewrite elem_of_sub. setoid_rewrite elem_of_leaf. split.
  - intros (x & _ & y & _ & Hd & [i Hi] & He). split_and!; [|done|exists x, y; by rewrite Hd, <- app_assoc].
    destruct (data_at fs p) eqn:E; [by eexists|]. apply data_none in E; [|done]. congruence.
  - intros ([b (i & n & Hi & _)%data_entry] & He & x & y & Hd). pose proof (fo_linked _ Hok _ _ Hi) as Hin. rewrite Hd in Hin.
    exists x. split; [apply (fo_closed _ Hok _ _ Hin); change [x; y] with ([x] ++ [y]); rewrite app_assoc; apply below_app|].
    exists y. rewrite <- app_assoc. split; [done|]. split_and!; [done|by rewrite Hi|done].
Qed.

Lemma NoDup_dirents d fs : NoDup (dirents d fs).
Proof.
  unfold dirents. apply NoDup_app. split_and!.
  - apply NoDup_fmap; [intros ? ? [= ->]; done|]. apply NoDup_filter, NoDup_elements.
  - intros e (x & -> & _)%list_elem_of_fmap (y & ? & _)%list_elem_of_fmap. done.
  - apply NoDup_fmap; [intros ? ? [= ->]; done|]. apply NoDup_filter. apply (NoDup_fst_map_to_list (fs_entries fs)).
Qed.

Lemma NoDup_sub {T} (h : list string -> list T) d fs : (forall x y z, z ∈ h x -> z ∈ h y -> x = y) -> (forall x, NoDup (h x)) ->
  NoDup (dirents d fs ≫= sub h).
Proof.
  intros Hd Hn. apply NoDup_bind; [| |apply NoDup_dirents].
  - intros [x|p] [y|q] z _ _; cbn; try (by intros ?%elem_of_nil); [|by intros _ ?%elem_of_nil]. intros Hx Hy. f_equal. by apply (Hd x y z).
  - intros [x|p] _; cbn; [apply Hn|apply NoDup_nil_2].
Qed.

Lemma NoDup_bucket_files fs dir : NoDup (bucket_files fs dir).
Proof.
  assert (Hl : forall d, NoDup (dirents d fs ≫= obj_leaf)).
  { intros d. apply NoDup_bind; [| |apply NoDup_dirents].
    - intros [x|p] [y|q] z _ _; unfold obj_leaf; try (by intros ?%elem_of_nil); [by intros _ ?%elem_of_nil|].
      repeat case_bool_decide; try (by intros ?%elem_of_nil); [|by intros _ ?%elem_of_nil]. by intros ->%list_elem_of_singleton ->%list_elem_of_singleton.
    - intros [x|p] _; unfold obj_leaf; [apply NoDup_nil_2|]. case_bool_decide; [apply NoDup_singleton|apply NoDup_nil_2]. }
  unfold bucket_files. apply NoDup_sub.
  - intros x y z (a & _ & (Hz & _)%elem_of_leaf)%elem_of_sub (b & _ & (Hz' & _)%elem_of_leaf)%elem_of_sub. rewrite Hz in Hz'. by apply app_inj_tail in Hz' as [? _].
  - intros x. apply NoDup_sub; [|done]. intros y y' z (Hz & _)%elem_of_leaf (Hz' & _)%elem_of_leaf. by rewrite <- Hz, <- Hz'.
Qed.

Lemma collect_bucket_run fs dir : fs_ok fs -> dir ∈ fs_dirs fs -> collect_bucket_obj_files dir fs = (Ok (bucket_files fs dir), fs).
Proof.
  intros Hok Hd. pose proof (fo_quiet _ Hok) as Hq. unfold collect_bucket_obj_files. change (bucket_files fs dir) with ([] ++ bucket_files fs dir).
  apply each_entry_emits; [done|done|]. apply when_dir_emits; [done|]. intros l1 out Hl1.
  apply each_entry_emits; [done|done|]. apply when_dir_emits; [done|]. intros l2 out' Hl2.
  apply each_entry_emits; [done|done|]. apply Forall_forall. intros [x|p] _ out3; unfold obj_leaf; [by rewrite app_nil_r|].
  case_bool_decide; [done|by rewrite app_nil_r].
Qed.

Section spec.
Context {A : AeadOps} {X : Xxh3Ops} {B : Base64Ops} {HO : HashOps} {R : RngOps}.
Context {RD : RedbOps} {J : MetadataJson} {CJ : ConfigJson} {U : UnicodeOps}.
Context {AL : AeadLaws} {HL : HashLaws} {RL : RngLaws}.
Context (K : RotationKeys) (base : list string).

(** ** One object *)

(** [file] is an object's file, with this sealed metadata. *)
Definition object_with (mek chk : bytes) (id : string) (file data meta json : bytes) (md : Metadata) : Prop :=
  exists h pad,
    header_wf h /\ data_len h = blen data /\ meta_len h = blen meta /\ data_offset h = HEADER_SIZE + blen pad /\
    file = Format.encode h chk id ++ pad ++ data ++ meta ++ Format.encode h chk id /\ blen file <= FILE_MAX /\
    decrypt_meta mek meta id = Ok json /\ from_slice json = Ok md /\ blen json <= u32_max.

(** As the current code writes it: its metadata is padded. [decrypt_meta] still opens blobs from
    before padding; what a rotation does to an object with one is [rotation_breaks_unpadded]. *)
Definition sealed_object (mek chk : bytes) (id : string) (file data : bytes) (md : Metadata) : Prop :=
  exists meta json, object_with mek chk id file data meta json md /\ blen meta = 29 + padded_len_of (blen json) META_PAD_BLOCK.

Lemma object_with_file mek chk id file data meta json md p : object_with mek chk id file data meta json md -> fp_stem p = id -> object_file mek chk p file data md.
Proof using. intros (h & pad & Hwf & Hd & Hm & Ho & Hf & Hmax & Hdec & Hjs & _) <-. by exists h, pad, meta, json. Qed.
Lemma sealed_object_file mek chk id file data md p : sealed_object mek chk id file data md -> fp_stem p = id -> object_file mek chk p file data md.
Proof using. intros (meta & json & Ho & _). by apply object_with_file with meta json. Qed.

(** The new metadata key does not open the metadata in the file. *)
Definition unmigrated (id : string) (file : bytes) : Prop :=
  forall h, Format.decode (slice 0 HEADER_SIZE file) (old_chk K) id = Ok h ->
    is_ok (decrypt_meta (new_omk K) (slice (meta_offset h) (meta_offset h + meta_len h) file) id) = false.

(** The store afterwards: its files, and otherwise only the random source differs. *)
Definition refiled (w : Store) (fs : Fs) (w' : Store) : Prop := exists r, w' = set_rng r (set_fs fs w).
Lemma refiled_refl w : refiled w (s_fs w) w.
Proof using. exists (s_rng w). by destruct w. Qed.
Lemma refiled_trans w fs w1 fs' w2 : refiled w fs w1 -> refiled w1 fs' w2 -> refiled w fs' w2.
Proof using. intros [r ->] [r' ->]. by exists r'. Qed.
Lemma refiled_fs w fs w' : refiled w fs w' -> s_fs w' = fs.
Proof using. by intros [r ->]. Qed.

Lemma io_run {E T} (f : FsError -> E) (m : fsop T) w x fs : m (s_fs w) = (Ok x, fs) -> io f m w = (Ok x, set_fs fs w).
Proof using. unfold io. by intros ->. Qed.
Lemma set_fs_self w : set_fs (s_fs w) w = w.
Proof using. by destruct w. Qed.

(** What [migrate_object_file] reads from such a file. *)
Lemma object_parts mek chk id file data meta json md : object_with mek chk id file data meta json md ->
  exists h, HEADER_SIZE <= blen file /\ Format.decode (slice 0 HEADER_SIZE file) chk id = Ok h /\ check_total_len h (blen file) = Ok tt /\
    slice (data_offset h) (meta_offset h) file = data /\ slice (meta_offset h) (meta_offset h + meta_len h) file = meta /\
    header_wf h /\ data_len h = blen data /\ meta_len h = blen meta /\ data_offset h + data_len h + meta_len h + HEADER_SIZE = blen file.
Proof using HL.
  intros Hs. pose proof Hs as (h & pad & Hwf & Hd & Hm & Ho & Hf & Hmax & Hdec & Hjs & Hju).
  destruct (object_file_readable _ _ (mkPath [] id "obj") _ _ _ (object_with_file _ _ _ _ _ _ _ _ (mkPath [] id "obj") Hs eq_refl)) as [h' [Hlong Hh Hlen _ _ _ Hmo _ _ _]].
  cbn [fp_stem] in *.
  assert (h' = h) as ->.
  { assert (slice 0 HEADER_SIZE file = Format.encode h chk id) as E by (rewrite Hf; unfold HEADER_SIZE; pose proof (blen_encode h chk id); by slices).
    rewrite E in Hh. pose proof Hwf as (Hfit & Hv & Hmin). unfold MIN_DATA_OFFSET, HEADER_SIZE in Hmin. rewrite header_roundtrip in Hh; [|done|done|right; unfold MIN_DATA_OFFSET, HEADER_SIZE; lia].
    rewrite (proj2 (Z.eqb_neq _ _)) in Hh by lia. injection Hh as <-. by destruct h. }
  pose proof (blen_encode h chk id) as He. pose proof (blen_nonneg pad). pose proof (blen_nonneg data). pose proof (blen_nonneg meta).
  exists h. split_and!; try done.
  - rewrite Hmo, Hd, Ho. unfold HEADER_SIZE. rewrite Hf. set (e := Format.encode h chk id) in *. rewrite app_assoc. apply slice_app_middle; [rewrite blen_app|]; lia.
  - rewrite Hmo, Hm, Ho, Hd. unfold HEADER_SIZE. set (e := Format.encode h chk id) in *. rewrite Hf.
    replace (e ++ pad ++ data ++ meta ++ e) with ((e ++ pad ++ data) ++ meta ++ e) by (by rewrite <- !app_assoc).
    apply slice_app_middle; rewrite ?blen_app; lia.
  - apply (proj1 (header_layout h (blen file) Hwf)) in Hlen as [Hlen _]. done.
Qed.

Lemma migrated_len h chk id data meta : header_wf h -> data_len h = blen data ->
  blen (migrated_file h chk id data meta) = data_offset h + data_len h + blen meta + HEADER_SIZE.
Proof using HL.
  intros (_ & _ & Hmin) Hd. unfold migrated_file. cbv zeta. pose proof (blen_encode h chk id) as He. rewrite !blen_app, blen_replicate, He.
  unfold MIN_DATA_OFFSET, HEADER_SIZE, blen in *. lia.
Qed.

(** The new file holds the same object. *)
Lemma migrated_sealed h mek chk id data md meta' json : header_wf h -> data_len h = blen data -> blen meta' = meta_len h ->
  decrypt_meta mek meta' id = Ok json -> from_slice json = Ok md -> blen json <= u32_max -> blen meta' = 29 + padded_len_of (blen json) META_PAD_BLOCK ->
  blen (migrated_file h chk id data meta') <= FILE_MAX -> sealed_object mek chk id (migrated_file h chk id data meta') data md.
Proof using HL.
  intros Hwf Hd Hm Hdec Hjs Hju Hpl Hmax. exists meta', json. split; [|done]. exists h, (replicate (Z.to_nat (data_offset h) - length (Format.encode h chk id)) x00).
  pose proof (blen_encode h chk id) as He. pose proof Hwf as (_ & _ & Hmin). split_and!; try done. rewrite blen_replicate. unfold MIN_DATA_OFFSET, HEADER_SIZE, blen in *. lia.
Qed.

(** The files as they were, but for the object that moved. *)
Definition moved (fs fs' : Fs) (path new_path : fpath) (file' : bytes) : Prop :=
  fs_ok fs' /\ fs_dirs fs' = fs_dirs fs ∪ list_to_set (ancestors (fp_dir new_path)) /\
  forall q, fp_ext q <> "tmp" -> data_at fs' q = if decide (q = new_path) then Some file' else if decide (q = path) then None else data_at fs q.

Lemma unwrap_run (m : fsop bool) fs x : m fs = (Ok x, fs) -> unwrap_or_false m fs = (Ok x, fs).
Proof using. unfold unwrap_or_false, match_res. by intros ->. Qed.

(** An object with an id of its own under the new key is moved, whatever the length of its
    metadata. *)
Lemma migrate_moves w dir oid file data meta json md b :
  let path := id_path dir oid in
  let new_id := encode_object_id (new_path_key K) (md_bucket md) (md_key md) in
  let new_path := id_path dir new_id in
  fs_ok (s_fs w) -> data_at (s_fs w) path = Some file -> object_with (old_omk K) (old_chk K) oid file data meta json md -> unmigrated oid file ->
  data_at (s_fs w) new_path = None -> blen file - blen meta + 29 + padded_len_of (blen json) META_PAD_BLOCK <= FILE_MAX ->
  exists fs' w' h meta', migrate_object_file K path b w = (Ok true, w') /\ refiled w fs' w' /\
    moved (s_fs w) fs' path new_path (migrated_file h (new_chk K) new_id data meta') /\
    header_wf h /\ data_len h = blen data /\ meta_len h = blen meta /\ blen meta' = 29 + padded_len_of (blen json) META_PAD_BLOCK /\ decrypt_meta (new_omk K) meta' new_id = Ok json /\
    data_offset h + data_len h + meta_len h + HEADER_SIZE = blen file.
Proof using HL AL RL.
  intros path new_id new_path Hok Hf Hs Hun Hnone Hfit. destruct (object_parts _ _ _ _ _ _ _ _ Hs) as (h & Hlong & Hdec & Htot & Hdata & Hmeta & Hwf & Hdl & Hml & Hsum).
  destruct Hs as (_ & _ & _ & _ & _ & _ & _ & _ & Hjson & Hmd & Hju).
  assert (Hne : new_path <> path) by (intros E; rewrite E in Hnone; congruence).
  unfold migrate_object_file. cbv zeta. erewrite prog_bind_run by (apply io_run, fs_read_ok; eassumption). rewrite set_fs_self.
  rewrite (proj2 (Z.ltb_ge _ _)) by done. change (object_id_from_path path) with oid. rewrite Hdec. cbn [map_err]. erewrite prog_bind_run by reflexivity.
  rewrite Htot. cbn [map_err]. erewrite prog_bind_run by reflexivity. pose proof (Hun h Hdec) as Hu. rewrite Hmeta in *. rewrite Hu, Hjson. cbn [map_err]. erewrite prog_bind_run by reflexivity.
  rewrite Hmd. cbn [map_err]. erewrite prog_bind_run by reflexivity. fold new_id.
  assert (Hdir : fp_dir path = dir ++ [String.substring 0 2 oid; String.substring 2 2 oid]) by done.
  rewrite Hdir, length_app. cbn [length]. rewrite (proj2 (Nat.ltb_ge _ _)) by lia. replace (length dir + 2 - 2)%nat with (length dir) by lia. rewrite take_app_length. fold new_path.
  erewrite prog_bind_run by (apply io_run, unwrap_run, fs_try_exists_ok; done). rewrite set_fs_self, Hnone. rewrite bool_decide_eq_false_2 by (by intros []).
  destruct (encrypt_meta_spec (new_omk K) json new_id META_PAD_BLOCK (s_rng w) Hju ltac:(by vm_compute)) as (meta' & r & Eenc & Hml' & Hdec').
  unfold seal_meta. erewrite prog_bind_run by (rewrite Eenc; reflexivity). set (w1 := set_rng r w). rewrite Hdata.
  pose proof (migrated_len h (new_chk K) new_id data meta' Hwf Hdl) as Hmax'. set (file' := migrated_file h (new_chk K) new_id data meta') in *.
  destruct (fs_create_dir_all_ok (s_fs w1) (fp_dir new_path) Hok) as (fs1 & E1 & [Hok1 Hv1 Hd1]).
  erewrite prog_bind_run by (apply io_run; exact E1). erewrite prog_bind_run by reflexivity.
  assert (Hin : fp_dir new_path ∈ fs_dirs fs1) by (rewrite Hd1; apply elem_of_union_r, elem_of_list_to_set, ancestors_self).
  destruct (fs_write_ok fs1 (with_extension new_path "tmp") file' (s_now (set_fs fs1 w1)) Hok1 Hin ltac:(lia)) as (fs2 & E2 & [Hok2 Hv2 Hd2]).
  erewrite prog_bind_run by (apply io_run; exact E2).
  destruct (fs_rename_ok fs2 (with_extension new_path "tmp") new_path file' Hok2) as (fs3 & E3 & [Hok3 Hv3 Hd3]); [rewrite Hv2; by rewrite decide_True|by rewrite Hd2|done|].
  erewrite prog_bind_run by (apply io_run; exact E3). rewrite bool_decide_eq_false_2 by done.
  assert (Hpt : path <> with_extension new_path "tmp") by done.
  destruct (fs_remove_file_ok fs3 path file Hok3) as (fs4 & E4 & [Hok4 Hv4 Hd4]).
  { rewrite Hv3, decide_False, decide_False, Hv2, decide_False, Hv1 by done. exact Hf. }
  erewrite prog_bind_run by (apply io_run; exact E4).
  eexists fs4, _, h, meta'. split; [reflexivity|]. split; [by exists r|]. split; [|done]. split_and!; [done|by rewrite Hd4, Hd3, Hd2, Hd1|].
  intros q Hq. assert (q <> with_extension new_path "tmp") by (by intros ->). rewrite Hv4. destruct (decide (q = path)) as [->|Hqp]; [by rewrite decide_False|].
  rewrite Hv3. case_decide; [done|]. rewrite decide_False by done. by rewrite Hv2, decide_False, Hv1.
Qed.

Lemma migrate_run w dir oid file data md b :
  let path := id_path dir oid in
  let new_id := encode_object_id (new_path_key K) (md_bucket md) (md_key md) in
  let new_path := id_path dir new_id in
  fs_ok (s_fs w) -> data_at (s_fs w) path = Some file -> sealed_object (old_omk K) (old_chk K) oid file data md -> unmigrated oid file ->
  data_at (s_fs w) new_path = None ->
  exists fs' w' file', migrate_object_file K path b w = (Ok true, w') /\ refiled w fs' w' /\ moved (s_fs w) fs' path new_path file' /\
    sealed_object (new_omk K) (new_chk K) new_id file' data md.
Proof using HL AL RL.
  intros path new_id new_path Hok Hf (meta & json & Hs & Hpl) Hun Hnone. pose proof Hs as (_ & _ & _ & _ & _ & _ & _ & Hmax & _ & Hmd & Hju).
  destruct (migrate_moves w dir oid file data meta json md b Hok Hf Hs Hun Hnone ltac:(lia)) as (fs' & w' & h & meta' & E & Hre & Hmv & Hwf & Hdl & Hml & Hml' & Hdec' & Hsum).
  eexists fs', w', _. split_and!; [exact E|exact Hre|exact Hmv|]. eapply migrated_sealed; try done; [lia|]. rewrite migrated_len by done. lia.
Qed.

(** ** The objects of a bucket *)

Abbreviation contents := (gmap string (bytes * Metadata)).
Definition old_id (b k : string) : string := encode_object_id (old_path_key K) b k.
Definition new_id (b k : string) : string := encode_object_id (new_path_key K) b k.

(** The ids of the objects, old and new, do not collide. *)
Definition ids_apart (b : string) (M : contents) : Prop :=
  NoDup ((old_id b <$> (map_to_list M).*1) ++ (new_id b <$> (map_to_list M).*1)).

(** The bucket's directory holds the objects [M], those in [done] under the new keys and the
    others under the old ones, and no other objects. *)
Record rotated_upto (fs : Fs) (dir : list string) (b : string) (M : contents) (done : gset string) : Prop := mkRotatedUpto {
  ru_md : forall k d md, M !! k = Some (d, md) -> md_bucket md = b /\ md_key md = k;
  ru_old : forall k d md, M !! k = Some (d, md) -> k ∉ done ->
    exists file, data_at fs (id_path dir (old_id b k)) = Some file /\ sealed_object (old_omk K) (old_chk K) (old_id b k) file d md /\ unmigrated (old_id b k) file;
  ru_new : forall k d md, M !! k = Some (d, md) -> k ∈ done ->
    exists file, data_at fs (id_path dir (new_id b k)) = Some file /\ sealed_object (new_omk K) (new_chk K) (new_id b k) file d md;
  ru_only : forall q, fp_ext q = "obj" -> below dir (fp_dir q) = true -> is_Some (data_at fs q) ->
    exists k, is_Some (M !! k) /\ q = id_path dir (if decide (k ∈ done) then new_id b k else old_id b k);
}.

Lemma elem_of_keys (M : contents) k : k ∈ (map_to_list M).*1 <-> is_Some (M !! k).
Proof using.
  rewrite list_elem_of_fmap. split; [intros ([k' v] & -> & Hv%elem_of_map_to_list); by eexists|].
  intros [v Hv]. exists (k, v). by rewrite elem_of_map_to_list.
Qed.

Lemma fmap_inj_in {T V} (f : T -> V) l x y : NoDup (f <$> l) -> x ∈ l -> y ∈ l -> f x = f y -> x = y.
Proof using.
  induction l as [|z l IH]; cbn; intros Hn Hx Hy E; [by apply elem_of_nil in Hx|]. apply NoDup_cons in Hn as [Hz Hn].
  apply elem_of_cons in Hx as [->|Hx], Hy as [->|Hy]; try done.
  - exfalso. apply Hz. rewrite E. by apply list_elem_of_fmap_2.
  - exfalso. apply Hz. rewrite <- E. by apply list_elem_of_fmap_2.
  - by apply IH.
Qed.

Lemma ids_apart_old b M k k' : ids_apart b M -> is_Some (M !! k) -> is_Some (M !! k') -> old_id b k = old_id b k' -> k = k'.
Proof using. intros (Ho & _ & _)%NoDup_app Hk Hk'. rewrite <- elem_of_keys in Hk, Hk'. by apply (fmap_inj_in _ _ k k' Ho). Qed.
Lemma ids_apart_new b M k k' : ids_apart b M -> is_Some (M !! k) -> is_Some (M !! k') -> new_id b k = new_id b k' -> k = k'.
Proof using. intros (_ & _ & Ho)%NoDup_app Hk Hk'. rewrite <- elem_of_keys in Hk, Hk'. by apply (fmap_inj_in _ _ k k' Ho). Qed.
Lemma ids_apart_cross b M k k' : ids_apart b M -> is_Some (M !! k) -> is_Some (M !! k') -> old_id b k <> new_id b k'.
Proof using.
  intros (_ & Hx & _)%NoDup_app Hk Hk' E. rewrite <- elem_of_keys in Hk, Hk'. apply (Hx (old_id b k)); [by apply list_elem_of_fmap_2|]. rewrite E. by apply list_elem_of_fmap_2.
Qed.

Lemma id_path_inj dir i j : id_path dir i = id_path dir j -> i = j.
Proof using. intros E. exact (f_equal fp_stem E). Qed.
Lemma below_id_path dir i : below dir (fp_dir (id_path dir i)) = true.
Proof using. apply below_app. Qed.

Lemma new_path_free fs dir b M done k : ids_apart b M -> rotated_upto fs dir b M done -> is_Some (M !! k) -> k ∉ done ->
  data_at fs (id_path dir (new_id b k)) = None.
Proof using.
  intros Hids Hr Hk Hnd. destruct (data_at fs (id_path dir (new_id b k))) eqn:E; [|done]. exfalso.
  destruct (ru_only _ _ _ _ _ Hr (id_path dir (new_id b k)) eq_refl (below_id_path _ _)) as (k' & Hk' & Hp); [by rewrite E|].
  apply id_path_inj in Hp. case_decide as Hd.
  - assert (k = k') as -> by (by apply (ids_apart_new b M)). done.
  - by apply (ids_apart_cross b M k' k).
Qed.

Lemma rotated_step fs fs' dir b M done k d md file' : ids_apart b M -> rotated_upto fs dir b M done -> M !! k = Some (d, md) -> k ∉ done ->
  moved fs fs' (id_path dir (old_id b k)) (id_path dir (new_id b k)) file' -> sealed_object (new_omk K) (new_chk K) (new_id b k) file' d md ->
  rotated_upto fs' dir b M ({[k]} ∪ done).
Proof using.
  intros Hids [Hmd Hold Hnew Honly] Hk Hnd (_ & _ & Hv) Hs. assert (Hks : is_Some (M !! k)) by (by eexists). constructor; [done| | |].
  - intros k' d' md' Hk' Hni. apply not_elem_of_union in Hni as [Hne%not_elem_of_singleton Hnd']. destruct (Hold k' d' md' Hk' Hnd') as (file & Hf & Hr). exists file. split; [|done].
    rewrite Hv, decide_False, decide_False; [done| | |done].
    + intros ?%id_path_inj. by apply Hne, (ids_apart_old b M).
    + intros ?%id_path_inj. by eapply (ids_apart_cross b M k' k).
  - intros k' d' md' Hk' [->%elem_of_singleton|Hd]%elem_of_union.
    + exists file'. rewrite Hv, decide_True by done. split; [done|]. by rewrite Hk in Hk'; injection Hk' as <- <-.
    + assert (Hne : k' <> k) by (by intros ->). destruct (Hnew k' d' md' Hk' Hd) as (file & Hf & Hr). exists file. split; [|done].
      rewrite Hv, decide_False, decide_False; [done| | |done]; intros ?%id_path_inj; [by eapply (ids_apart_cross b M k k')|by eapply Hne, (ids_apart_new b M)].
  - intros q Hq Hb Hsome. rewrite Hv in Hsome by (by rewrite Hq). case_decide as Hqn.
    + exists k. split; [done|]. rewrite decide_True; [done|]. by apply elem_of_union_l, elem_of_singleton.
    + case_decide as Hqo; [by destruct Hsome|]. destruct (Honly q Hq Hb Hsome) as (k' & Hk' & ->). exists k'. split; [done|]. f_equal.
      assert (k' <> k) by (intros ->; by rewrite decide_False in Hqo). destruct (decide (k' ∈ done)); [rewrite decide_True by (by apply elem_of_union_r)|rewrite decide_False by (by rewrite not_elem_of_union, not_elem_of_singleton)]; done.
Qed.

(** Nothing outside [dir] changed, temporary files apart. *)
Record frame (dir : list string) (fs fs' : Fs) : Prop := mkFrame {
  fr_data : forall q, below dir (fp_dir q) = false -> fp_ext q <> "tmp" -> data_at fs' q = data_at fs q;
  fr_dirs : forall d, below dir d = false -> d ∈ fs_dirs fs' <-> d ∈ fs_dirs fs;
  fr_here : dir ∈ fs_dirs fs';
}.
Lemma frame_refl dir fs : dir ∈ fs_dirs fs -> frame dir fs fs.
Proof using. by constructor. Qed.
Lemma frame_trans dir fs fs1 fs2 : frame dir fs fs1 -> frame dir fs1 fs2 -> frame dir fs fs2.
Proof using.
  intros [Hv Hd _] [Hv' Hd' Hh]. constructor; [|intros d Hb; by rewrite Hd', Hd|done]. intros q Hb Hq. by rewrite Hv', Hv.
Qed.

Lemma ancestors_inside fs dir x y d : fs_ok fs -> dir ∈ fs_dirs fs -> below dir d = false -> d ∈ ancestors (dir ++ [x; y]) -> d ∈ fs_dirs fs.
Proof using.
  intros Hok Hdir Hb (n & Hn & ->)%elem_of_ancestors%below_take. apply (fo_closed _ Hok dir); [done|].
  destruct (decide (n <= length dir)%nat) as [Hle|Hgt]; [rewrite take_app_le by done; apply below_take_l|].
  exfalso. rewrite take_app_ge in Hb by lia. by rewrite below_app in Hb.
Qed.

Lemma moved_frame fs fs' dir i j file' : fs_ok fs -> dir ∈ fs_dirs fs -> moved fs fs' (id_path dir i) (id_path dir j) file' -> frame dir fs fs'.
Proof using.
  intros Hok Hdir (_ & Hd & Hv). constructor.
  - intros q Hb Hq. rewrite Hv, decide_False, decide_False; try done; intros ->; by rewrite below_id_path in Hb.
  - intros d Hb. rewrite Hd, elem_of_union, elem_of_list_to_set, elem_of_ancestors. split; [|by left]. intros [?|Hx]; [done|].
    eapply ancestors_inside; [done|done|done|]. eapply elem_of_ancestors, Hx.
  - rewrite Hd. by apply elem_of_union_l.
Qed.

(** Re-sealing one object after the other *)
Lemma migrate_loop b M dir : ids_apart b M -> forall L w done bm om ad, fs_ok (s_fs w) -> dir ∈ fs_dirs (s_fs w) -> rotated_upto (s_fs w) dir b M done ->
  NoDup L -> (forall p, p ∈ L <-> exists k, is_Some (M !! k) /\ (k ∉ done) /\ p = id_path dir (old_id b k)) ->
  exists fs' w', for_each (fun path stats => migrated ← migrate_object_file K path b; mret (count_object migrated stats)) L (mkRotationStats bm om ad) w
      = (Ok (mkRotationStats bm (om + length L) ad), w') /\
    refiled w fs' w' /\ fs_ok fs' /\ (exists done', rotated_upto fs' dir b M done' /\ forall k, is_Some (M !! k) -> k ∈ done') /\ frame dir (s_fs w) fs' /\
    data_at fs' (config_path dir) = data_at (s_fs w) (config_path dir).
Proof using AL HL RL.
  intros Hids. induction L as [|p L IH]; intros w done bm om ad Hok Hdir Hr Hnd HL0; cbn [for_each length].
  - exists (s_fs w), w. rewrite Nat.add_0_r. split_and!; [done|apply refiled_refl|done| |by apply frame_refl|done]. exists done. split; [done|]. intros k Hk.
    destruct (decide (k ∈ done)); [done|]. exfalso. apply (elem_of_nil (id_path dir (old_id b k))). apply HL0. eauto.
  - apply NoDup_cons in Hnd as [Hp Hnd]. destruct (proj1 (HL0 p)) as (k & [[d md] Hk] & Hkd & ->); [by left|].
    destruct (ru_md _ _ _ _ _ Hr k d md Hk) as [Hb Hkey]. destruct (ru_old _ _ _ _ _ Hr k d md Hk Hkd) as (file & Hf & Hs & Hu).
    destruct (migrate_run w dir (old_id b k) file d md b Hok Hf Hs Hu) as (fs1 & w1 & file' & E & Hre & Hmv & Hs').
    { rewrite Hb, Hkey. by eapply new_path_free. }
    rewrite Hb, Hkey in Hmv, Hs'. pose proof (refiled_fs _ _ _ Hre) as Hfs1.
    assert (Hr1 : rotated_upto fs1 dir b M ({[k]} ∪ done)) by (by eapply rotated_step).
    pose proof (moved_frame _ _ _ _ _ _ Hok Hdir Hmv) as Hfr. pose proof Hmv as (Hok1 & _ & Hv1).
    destruct (IH w1 ({[k]} ∪ done) bm (S om) ad) as (fs2 & w2 & E2 & Hre2 & Hok2 & Hdone & Hfr2 & Hcfg); try (rewrite ?Hfs1; try done; by apply (fr_here _ _ _ Hfr)).
    { intros p. split.
      - intros Hin. destruct (proj1 (HL0 p)) as (k' & Hk' & Hkd' & ->); [by right|]. exists k'. split_and!; [done| |done]. rewrite not_elem_of_union, not_elem_of_singleton. split; [|done]. by intros ->.
      - intros (k' & Hk' & [Hne%not_elem_of_singleton Hkd']%not_elem_of_union & ->). assert (Hin : id_path dir (old_id b k') ∈ id_path dir (old_id b k) :: L) by (apply HL0; eauto).
        apply elem_of_cons in Hin as [->%id_path_inj%(ids_apart_old b M)|Hin]; [done|done|done|by eexists|done]. }
    exists fs2, w2. erewrite prog_bind_run by (erewrite prog_bind_run by exact E; reflexivity). cbn [count_object buckets_migrated objects_migrated objects_already_done]. rewrite E2.
    split_and!; [do 3 f_equal; lia|by eapply refiled_trans|done|done|rewrite <- Hfs1 in Hfr; by eapply frame_trans|].
    rewrite Hcfg, Hfs1. by rewrite Hv1, decide_False, decide_False.
Qed.

(** ** The configuration of a bucket *)

(** The bucket's configuration reads as [cfg] under the key. *)
Definition config_held (fs : Fs) (dir : list string) (bck : bytes) (name : string) (cfg : option bytes) : Prop :=
  match cfg with
  | None => data_at fs (config_path dir) = None
  | Some plain => blen plain <= u32_max /\ exists blob, data_at fs (config_path dir) = Some blob /\ decrypt_meta bck blob name = Ok plain
  end.
Definition config_unmigrated (fs : Fs) (dir : list string) (b : string) : Prop :=
  forall blob, data_at fs (config_path dir) = Some blob -> is_ok (decrypt_meta (new_bck K) blob (encode_bucket_dir (new_path_key K) b)) = false.

Lemma migrate_config_run w dir b cfg : fs_ok (s_fs w) -> dir ∈ fs_dirs (s_fs w) ->
  config_held (s_fs w) dir (old_bck K) (encode_bucket_dir (old_path_key K) b) cfg -> config_unmigrated (s_fs w) dir b ->
  exists fs' w', migrate_bucket_config K dir b w = (Ok tt, w') /\ refiled w fs' w' /\ fs_ok fs' /\ fs_dirs fs' = fs_dirs (s_fs w) /\
    config_held fs' dir (new_bck K) (encode_bucket_dir (new_path_key K) b) cfg /\
    (forall q, q <> config_path dir -> q <> rotate_tmp dir -> data_at fs' q = data_at (s_fs w) q).
Proof using AL RL.
  intros Hok Hdir Hc Hu. unfold migrate_bucket_config. cbv zeta. destruct cfg as [plain|]; cbn [config_held] in *.
  - destruct Hc as (Hlen & blob & Hb & Hdec). erewrite prog_bind_run by (apply io_run; unfold match_res; rewrite (fs_read_ok _ _ _ Hok Hb); reflexivity). rewrite set_fs_self.
    rewrite (Hu _ Hb), Hdec. cbn [map_err]. erewrite prog_bind_run by reflexivity.
    destruct (encrypt_meta_spec (new_bck K) plain (encode_bucket_dir (new_path_key K) b) BUCKET_CONFIG_PAD_BLOCK (s_rng w) Hlen ltac:(by vm_compute)) as (blob' & r & Eenc & Hl' & Hdec').
    unfold seal_meta. erewrite prog_bind_run by (rewrite Eenc; reflexivity). erewrite prog_bind_run by reflexivity. set (w1 := set_rng r w).
    destruct (fs_write_ok (s_fs w1) (rotate_tmp dir) blob' (s_now w1) Hok Hdir) as (fs1 & E1 & [Hok1 Hv1 Hd1]).
    { pose proof (padded_len_of_ge (blen plain) BUCKET_CONFIG_PAD_BLOCK). unfold BUCKET_CONFIG_PAD_BLOCK, u32_max, FILE_MAX in *. lia. }
    erewrite prog_bind_run by (apply io_run; exact E1).
    destruct (fs_rename_ok fs1 (rotate_tmp dir) (config_path dir) blob' Hok1) as (fs2 & E2 & [Hok2 Hv2 Hd2]); [by rewrite Hv1, decide_True|by rewrite Hd1|done|].
    exists fs2. eexists. split; [by apply io_run|]. split_and!; [by exists r|done|by rewrite Hd2, Hd1|done|exists blob'; split; [by rewrite Hv2, decide_True|done]|].
    intros q Hq Hq'. by rewrite Hv2, decide_False, decide_False, Hv1, decide_False.
  - erewrite prog_bind_run by (apply io_run; unfold match_res; rewrite (fs_read_missing _ _ Hok Hc); reflexivity). rewrite set_fs_self.
    exists (s_fs w), w. split_and!; try done. apply refiled_refl.
Qed.

(** ** A bucket *)

Abbreviation old_name b := (encode_bucket_dir (old_path_key K) b).
Abbreviation new_name b := (encode_bucket_dir (new_path_key K) b).
Abbreviation old_dir b := (base ++ [old_name b]).
Abbreviation new_dir b := (base ++ [new_name b]).

Lemma rotated_ext fs fs' dir b M done : (forall q, fp_ext q = "obj" -> below dir (fp_dir q) = true -> data_at fs' q = data_at fs q) ->
  rotated_upto fs dir b M done -> rotated_upto fs' dir b M done.
Proof using.
  intros Hv [Hmd Hold Hnew Honly]. constructor; [done| | |].
  - intros k d md Hk Hd. destruct (Hold k d md Hk Hd) as (file & Hf & ?). exists file. rewrite Hv; [done|done|apply below_id_path].
  - intros k d md Hk Hd. destruct (Hnew k d md Hk Hd) as (file & Hf & ?). exists file. rewrite Hv; [done|done|apply below_id_path].
  - intros q Hq Hb. rewrite Hv by done. by apply Honly.
Qed.

Lemma rotated_swap fs fs' b M done : old_name b <> new_name b -> (forall q, data_at fs' q = data_at fs (swap_path (old_dir b) (new_dir b) q)) ->
  rotated_upto fs (old_dir b) b M done -> rotated_upto fs' (new_dir b) b M done.
Proof using.
  intros Hne Hv [Hmd Hold Hnew Honly].
  assert (Hid : forall i, swap_path (old_dir b) (new_dir b) (id_path (new_dir b) i) = id_path (old_dir b) i).
  { intros i. unfold swap_path, id_path. cbn [fp_dir fp_stem fp_ext]. by rewrite swap_new. }
  constructor; [done| | |].
  - intros k d md Hk Hd. destruct (Hold k d md Hk Hd) as (file & Hf & ?). exists file. by rewrite Hv, Hid.
  - intros k d md Hk Hd. destruct (Hnew k d md Hk Hd) as (file & Hf & ?). exists file. by rewrite Hv, Hid.
  - intros q Hq Hb Hs. apply below_inv in Hb as [r Hr]. rewrite Hv in Hs.
    assert (Hd : fp_dir (swap_path (old_dir b) (new_dir b) q) = old_dir b ++ r) by (unfold swap_path; cbn [fp_dir]; rewrite Hr; by apply swap_new).
    destruct (Honly (swap_path (old_dir b) (new_dir b) q)) as (k & Hk & He); [done|rewrite Hd; apply below_app|done|]. exists k. split; [done|].
    rewrite <- (swap_path_invol base _ _ Hne q), He. unfold swap_path, id_path. cbn [fp_dir fp_stem fp_ext]. by rewrite swap_old.
Qed.

(** A bucket whose files are all sealed under the old keys. *)
Record bucket_ready (fs : Fs) (b : string) (M : contents) (cfg : option bytes) : Prop := mkBucketReady {
  br_dir : old_dir b ∈ fs_dirs fs;
  br_free : new_dir b ∉ fs_dirs fs;
  br_names : old_name b <> new_name b;
  br_ids : ids_apart b M;
  br_objects : rotated_upto fs (old_dir b) b M ∅;
  br_config : config_held fs (old_dir b) (old_bck K) (old_name b) cfg;
  br_config_old : config_unmigrated fs (old_dir b) b;
}.

(** The bucket after its rotation. *)
Record bucket_rotated (fs : Fs) (b : string) (M : contents) (cfg : option bytes) : Prop := mkBucketRotated {
  bt_dir : new_dir b ∈ fs_dirs fs;
  bt_gone : old_dir b ∉ fs_dirs fs;
  bt_objects : exists done, rotated_upto fs (new_dir b) b M done /\ forall k, is_Some (M !! k) -> k ∈ done;
  bt_config : config_held fs (new_dir b) (new_bck K) (new_name b) cfg;
}.

(** Nothing changed outside the old and the new directory of the buckets. *)
Definition untouched (bs : list string) (fs fs' : Fs) : Prop :=
  (forall q, (forall b, b ∈ bs -> below (old_dir b) (fp_dir q) = false /\ below (new_dir b) (fp_dir q) = false) -> fp_ext q <> "tmp" -> data_at fs' q = data_at fs q) /\
  (forall d, (forall b, b ∈ bs -> below (old_dir b) d = false /\ below (new_dir b) d = false) -> d ∈ fs_dirs fs' <-> d ∈ fs_dirs fs).

Lemma bucket_files_ready fs b M cfg : fs_ok fs -> bucket_ready fs b M cfg ->
  forall p, p ∈ bucket_files fs (old_dir b) <-> exists k, is_Some (M !! k) /\ (k ∉ (∅ : gset string)) /\ p = id_path (old_dir b) (old_id b k).
Proof using.
  intros Hok [_ _ _ _ [Hmd Hold _ Honly] _ _] p. rewrite elem_of_bucket_files by done. split.
  - intros (Hs & He & x & y & Hd). destruct (Honly p He) as (k & Hk & ->); [rewrite Hd; apply below_app|done|]. exists k. split_and!; [done|apply not_elem_of_empty|].
    by rewrite decide_False by apply not_elem_of_empty.
  - intros (k & [[d md] Hk] & Hn & ->). destruct (Hold k d md Hk Hn) as (file & Hf & _). split_and!; [by rewrite Hf|done|]. eexists _, _. reflexivity.
Qed.

Lemma bucket_files_count fs b M cfg : fs_ok fs -> bucket_ready fs b M cfg -> length (bucket_files fs (old_dir b)) = size M.
Proof using.
  intros Hok Hb. rewrite <- (length_map_to_list M), <- (length_fmap fst), <- (length_fmap (fun k => id_path (old_dir b) (old_id b k))).
  apply Permutation_length, NoDup_Permutation; [apply NoDup_bucket_files| |].
  - apply NoDup_fmap_2_strong; [|apply NoDup_fst_map_to_list]. intros x y Hx Hy ?%id_path_inj. rewrite elem_of_keys in Hx, Hy. by eapply (ids_apart_old b M); [apply Hb|..].
  - intros p. rewrite bucket_files_ready by done. rewrite list_elem_of_fmap. split.
    + intros (k & Hk & _ & ->). exists k. split; [done|]. by rewrite elem_of_keys.
    + intros (k & -> & Hk). exists k. rewrite elem_of_keys in Hk. split_and!; [done|apply not_elem_of_empty|done].
Qed.

Lemma rotate_bucket_run w b M cfg bm om ad : fs_ok (s_fs w) -> bucket_ready (s_fs w) b M cfg ->
  exists fs' w', rotate_bucket base K b (mkRotationStats bm om ad) w = (Ok (mkRotationStats (S bm) (om + size M) ad), w') /\ refiled w fs' w' /\ fs_ok fs' /\
    bucket_rotated fs' b M cfg /\ untouched [b] (s_fs w) fs'.
Proof using AL HL RL.
  intros Hok Hb. pose proof Hb as [Hdir Hfree Hne Hids Hobj Hcfg Hcu]. unfold rotate_bucket, bucket_dir_path. cbv zeta.
  erewrite prog_bind_run by (apply io_run, unwrap_run, fs_try_exists_dir_ok; done). rewrite set_fs_self, bool_decide_eq_false_2 by done.
  erewrite prog_bind_run by (apply io_run, unwrap_run, fs_try_exists_dir_ok; done). rewrite set_fs_self, bool_decide_eq_true_2 by done. cbn [negb].
  erewrite prog_bind_run by (apply io_run, collect_bucket_run; done). rewrite set_fs_self.
  destruct (migrate_loop b M (old_dir b) Hids _ w ∅ bm om ad Hok Hdir Hobj (NoDup_bucket_files _ _) (bucket_files_ready _ _ _ _ Hok Hb)) as (fs1 & w1 & E1 & Hre1 & Hok1 & (done & Hr1 & Hall) & Hfr1 & Hc1).
  erewrite prog_bind_run by exact E1. rewrite (bucket_files_count _ _ _ _ Hok Hb). pose proof (refiled_fs _ _ _ Hre1) as Hfs1. pose proof (fr_here _ _ _ Hfr1) as Hdir1.
  assert (Hcfg1 : config_held (s_fs w1) (old_dir b) (old_bck K) (old_name b) cfg) by (rewrite Hfs1; unfold config_held in *; by rewrite Hc1).
  assert (Hcu1 : config_unmigrated (s_fs w1) (old_dir b) b) by (intros blob; rewrite Hfs1, Hc1; apply Hcu).
  destruct (migrate_config_run w1 (old_dir b) b cfg) as (fs2 & w2 & E2 & Hre2 & Hok2 & Hd2 & Hcfg2 & Hv2); try done; [by rewrite Hfs1|by rewrite Hfs1|].
  erewrite prog_bind_run by exact E2. pose proof (refiled_fs _ _ _ Hre2) as Hfs2. rewrite Hfs1 in *.
  assert (Hfree2 : new_dir b ∉ fs_dirs fs2).
  { rewrite Hd2. rewrite (fr_dirs _ _ _ Hfr1); [done|]. destruct (below (old_dir b) (new_dir b)) eqn:Eb; [|done]. apply below_inv in Eb as [r Er]. rewrite <- (app_nil_r (new_dir b)) in Er.
    symmetry in Er. by apply not_both in Er. }
  destruct (fs_rename_dir_ok base _ _ Hne fs2) as (fs3 & E3 & Hsh & Hd3); [done|by rewrite Hd2|done|]. destruct Hsh as [Hok3 Hv3 _].
  erewrite prog_bind_run by (apply io_run; rewrite Hfs2; exact E3).
  exists fs3. eexists. split; [reflexivity|]. split_and!; [eapply refiled_trans; [eapply refiled_trans; [exact Hre1|exact Hre2]|exists (s_rng w2); by destruct w2]|done| |].
  - constructor.
    + apply Hd3. rewrite swap_new_self by done. by rewrite Hd2.
    + rewrite Hd3. rewrite <- (app_nil_r (old_dir b)) at 2. by rewrite swap_old, app_nil_r.
    + exists done. split; [|done]. eapply rotated_swap; [done|exact Hv3|]. eapply rotated_ext; [|exact Hr1]. intros q Hq _. apply Hv2; by intros ->.
    + assert (Hc : data_at fs3 (config_path (new_dir b)) = data_at fs2 (config_path (old_dir b))).
      { rewrite Hv3. f_equal. unfold swap_path, config_path. cbn [fp_dir fp_stem fp_ext]. by rewrite swap_new_self. }
      unfold config_held in *. by rewrite Hc.
  - assert (Hin : b ∈ [b]) by (by left). split.
    + intros q Hq Hext. destruct (Hq b Hin) as [Ho Hn]. rewrite Hv3. assert (swap_path (old_dir b) (new_dir b) q = q) as ->.
      { destruct q as [qd qs qe]. unfold swap_path. cbn [fp_dir fp_stem fp_ext] in *. by rewrite swap_other. }
      rewrite Hv2, (fr_data _ _ _ Hfr1); try done; intros ->; unfold config_path, rotate_tmp in Ho; cbn [fp_dir] in Ho; by rewrite below_refl in Ho.
    + intros d Hd. destruct (Hd b Hin) as [Ho Hn]. rewrite Hd3, swap_other, Hd2 by done. by apply (fr_dirs _ _ _ Hfr1).
Qed.

(** ** The whole tree *)

(** No two buckets share a directory name, old or new. *)
Definition names_apart (bs : list string) : Prop := NoDup (((fun b => old_name b) <$> bs) ++ ((fun b => new_name b) <$> bs)).

Lemma below_sibling x y d : x <> y -> below (base ++ [x]) d = true -> below (base ++ [y]) d = false.
Proof using.
  intros Hne [r ->]%below_inv. destruct (below (base ++ [y]) _) eqn:E; [|done]. apply below_inv in E as [r' E]. by apply (not_both base x y Hne) in E.
Qed.

Lemma names_apart_cons b bs : names_apart (b :: bs) ->
  names_apart bs /\ forall b', b' ∈ bs -> old_name b <> old_name b' /\ old_name b <> new_name b' /\ new_name b <> old_name b' /\ new_name b <> new_name b'.
Proof using.
  unfold names_apart. cbn [fmap list_fmap app]. intros [Hb Hn]%NoDup_cons. apply NoDup_app in Hn as (Ho & Hx & [Hbn Hn]%NoDup_cons).
  split; [apply NoDup_app; split_and!; [done| |done]; intros x Hx1 Hx2; apply (Hx x Hx1); by right|].
  intros b' Hb'. assert (Ho' : old_name b' ∈ (fun b => old_name b) <$> bs) by (by apply list_elem_of_fmap_2 with (f := fun b => old_name b)).
  assert (Hn' : new_name b' ∈ (fun b => new_name b) <$> bs) by (by apply list_elem_of_fmap_2 with (f := fun b => new_name b)). split_and!; intros E.
  - apply Hb. rewrite E. apply elem_of_app. by left.
  - apply Hb. rewrite E. apply elem_of_app. right. by right.
  - apply (Hx _ Ho'). rewrite <- E. by left.
  - apply Hbn. by rewrite E.
Qed.

(** [d] is inside a directory of [b']. *)
Lemma outside_others b b' d : old_name b <> old_name b' /\ old_name b <> new_name b' /\ new_name b <> old_name b' /\ new_name b <> new_name b' ->
  below (old_dir b') d = true \/ below (new_dir b') d = true -> below (old_dir b) d = false /\ below (new_dir b) d = false.
Proof using. intros (H1 & H2 & H3 & H4) [Hb|Hb]; split; eapply below_sibling; try exact Hb; congruence. Qed.

(** The files and directories of the bucket are all that matters. *)
Lemma ready_ext fs fs' b M cfg : (forall d, below (old_dir b) d = true \/ below (new_dir b) d = true -> d ∈ fs_dirs fs' <-> d ∈ fs_dirs fs) ->
  (forall q, fp_ext q <> "tmp" -> below (old_dir b) (fp_dir q) = true -> data_at fs' q = data_at fs q) -> bucket_ready fs b M cfg -> bucket_ready fs' b M cfg.
Proof using.
  intros Hdir Hdat [H1 H2 H3 H4 H5 H6 H7].
  assert (Hcp : data_at fs' (config_path (old_dir b)) = data_at fs (config_path (old_dir b))) by (apply Hdat; [done|apply below_refl]).
  constructor; try done.
  - apply Hdir; [left; apply below_refl|done].
  - rewrite Hdir; [done|right; apply below_refl].
  - eapply rotated_ext; [|exact H5]. intros q Hq. apply Hdat. by rewrite Hq.
  - unfold config_held in *. by rewrite Hcp.
  - intros blob. rewrite Hcp. apply H7.
Qed.

Lemma rotated_bucket_ext fs fs' b M cfg : (forall d, below (old_dir b) d = true \/ below (new_dir b) d = true -> d ∈ fs_dirs fs' <-> d ∈ fs_dirs fs) ->
  (forall q, fp_ext q <> "tmp" -> below (new_dir b) (fp_dir q) = true -> data_at fs' q = data_at fs q) -> bucket_rotated fs b M cfg -> bucket_rotated fs' b M cfg.
Proof using.
  intros Hdir Hdat [H1 H0 (done & H2 & Hall) H3]. constructor.
  - apply Hdir; [right; apply below_refl|done].
  - rewrite Hdir; [done|left; apply below_refl].
  - exists done. split; [|done]. eapply rotated_ext; [|exact H2]. intros q Hq. apply Hdat. by rewrite Hq.
  - unfold config_held in *. by rewrite Hdat by (first [done|apply below_refl]).
Qed.

Lemma ready_untouched fs fs' bs b M cfg :
  (forall b', b' ∈ bs -> old_name b' <> old_name b /\ old_name b' <> new_name b /\ new_name b' <> old_name b /\ new_name b' <> new_name b) ->
  untouched bs fs fs' -> bucket_ready fs b M cfg -> bucket_ready fs' b M cfg.
Proof using.
  intros Hap [Hv Hd]. apply ready_ext; [intros d Hb; apply Hd; intros b' Hb'; eapply outside_others; eauto|].
  intros q Hq Hb; apply Hv; [intros b' Hb'; eapply outside_others; eauto|done].
Qed.

Lemma rotated_untouched fs fs' bs b M cfg :
  (forall b', b' ∈ bs -> old_name b' <> old_name b /\ old_name b' <> new_name b /\ new_name b' <> old_name b /\ new_name b' <> new_name b) ->
  untouched bs fs fs' -> bucket_rotated fs b M cfg -> bucket_rotated fs' b M cfg.
Proof using.
  intros Hap [Hv Hd]. apply rotated_bucket_ext; [intros d Hb; apply Hd; intros b' Hb'; eapply outside_others; eauto|].
  intros q Hq Hb; apply Hv; [intros b' Hb'; eapply outside_others; eauto|done].
Qed.

Lemma untouched_cons fs fs1 fs2 b bs : untouched [b] fs fs1 -> untouched bs fs1 fs2 -> untouched (b :: bs) fs fs2.
Proof using.
  intros [Hv Hd] [Hv' Hd']. split.
  - intros q Hq He. rewrite Hv', Hv; try done; intros b' Hb'; apply Hq; [apply list_elem_of_singleton in Hb' as ->; by left|by right].
  - intros d Hq. rewrite Hd', Hd; [done| |]; intros b' Hb'; apply Hq; [apply list_elem_of_singleton in Hb' as ->; by left|by right].
Qed.

Lemma rotate_tree_run (M : string -> contents) (cfg : string -> option bytes) : forall bs w bm om ad, fs_ok (s_fs w) -> names_apart bs ->
  (forall b, b ∈ bs -> bucket_ready (s_fs w) b (M b) (cfg b)) ->
  exists fs' w', for_each (rotate_bucket base K) bs (mkRotationStats bm om ad) w
      = (Ok (mkRotationStats (bm + length bs) (om + sum_list ((fun b => size (M b)) <$> bs)) ad), w') /\
    refiled w fs' w' /\ fs_ok fs' /\ untouched bs (s_fs w) fs' /\ forall b, b ∈ bs -> bucket_rotated fs' b (M b) (cfg b).
Proof using AL HL RL.
  induction bs as [|b bs IH]; intros w bm om ad Hok Hap Hrd; cbn [for_each length fmap list_fmap sum_list].
  - exists (s_fs w), w. rewrite !Nat.add_0_r. split_and!; [done|apply refiled_refl|done|done|by intros b ?%elem_of_nil].
  - apply names_apart_cons in Hap as [Hap Hb].
    destruct (rotate_bucket_run w b (M b) (cfg b) bm om ad Hok) as (fs1 & w1 & E1 & Hre1 & Hok1 & Hrot & Hun); [apply Hrd; by left|].
    pose proof (refiled_fs _ _ _ Hre1) as Hfs1.
    destruct (IH w1 (S bm) (om + size (M b))%nat ad) as (fs2 & w2 & E2 & Hre2 & Hok2 & Hun2 & Hall); rewrite ?Hfs1; try done.
    { intros b' Hb'. eapply ready_untouched; [|exact Hun|apply Hrd; by right]. intros b'' ->%list_elem_of_singleton. by apply Hb. }
    exists fs2, w2. erewrite prog_bind_run by exact E1. rewrite E2. rewrite Hfs1 in Hun2. split_and!; [f_equal; f_equal; f_equal; unfold id; lia|by eapply refiled_trans|done|by eapply untouched_cons|].
    intros b' [->|Hb']%elem_of_cons; [|by apply Hall]. eapply rotated_untouched; [|exact Hun2|done].
    intros b'' Hb''. destruct (Hb b'' Hb'') as (? & ? & ? & ?). split_and!; congruence.
Qed.

(** ** Files a run leaves alone *)

(** The object at [p] is as it was, and so are the directories that are not below [dir]. *)
Definition guards (dir : list string) (p : fpath) (file : bytes) (D : gset (list string)) (fs : Fs) : Prop :=
  fs_ok fs /\ data_at fs p = Some file /\ dir ∈ fs_dirs fs /\ forall d, below dir d = false -> d ∈ fs_dirs fs <-> d ∈ D.

Definition fs_guards (dir : list string) (p : fpath) (file : bytes) (D : gset (list string)) {T} (m : fsop T) : Prop :=
  forall fs, guards dir p file D fs -> post m (fun _ => guards dir p file D) (fun _ => guards dir p file D) fs.

Lemma guards_shows dir p file D fs fs' v : guards dir p file D fs -> shows fs' v (fs_dirs fs) -> v p = Some file -> guards dir p file D fs'.
Proof using. intros (_ & _ & Hd & Hx) [Hok' Hv' Hd'] Hp. split_and!; [done|by rewrite Hv'|by rewrite Hd'|by rewrite Hd']. Qed.

Lemma post_sys_ok (P : unit -> Fs -> Prop) Q fs : fs_ok fs -> P tt fs -> post sys P Q fs.
Proof using. unfold post. intros Hok. by rewrite sys_ok. Qed.

Lemma guards_read dir p file D q : fs_guards dir p file D (fs_read q).
Proof using.
  intros fs Hg. pose proof Hg as (Hok & _). unfold post. destruct (data_at fs q) as [b|] eqn:E; [by rewrite (fs_read_ok _ _ _ Hok E)|by rewrite (fs_read_missing _ _ Hok E)].
Qed.
Lemma guards_try_exists dir p file D q : fs_guards dir p file D (unwrap_or_false (fs_try_exists q)).
Proof using. intros fs Hg. pose proof Hg as (Hok & _). unfold post. by rewrite (unwrap_run _ _ _ (fs_try_exists_ok fs q Hok)). Qed.

Lemma guards_remove dir p file D q : q <> p -> fs_guards dir p file D (fs_remove_file q).
Proof using.
  intros Hne fs Hg. pose proof Hg as (Hok & Hp & _). unfold post. destruct (data_at fs q) as [b|] eqn:E.
  - destruct (fs_remove_file_ok fs q b Hok E) as (fs' & -> & Hs). eapply guards_shows; [done|exact Hs|]. cbn. by rewrite decide_False.
  - apply data_none in E; [|done]. unfold fs_remove_file, mbind, prog_bind. rewrite sys_ok by done. unfold gets, lift_res. by rewrite E.
Qed.

Lemma guards_rename dir p file D a b : a <> p -> b <> p -> a <> b -> fs_guards dir p file D (fs_rename a b).
Proof using.
  intros Ha Hb Hab fs Hg. pose proof Hg as (Hok & Hp & _). unfold post. destruct (data_at fs a) as [c|] eqn:E; [destruct (decide (fp_dir b ∈ fs_dirs fs)) as [Hd|Hd]|].
  - destruct (fs_rename_ok fs a b c Hok E Hd Hab) as (fs' & -> & Hs). eapply guards_shows; [done|exact Hs|]. cbn. by rewrite !decide_False.
  - apply data_entry in E as (i & n & Ei & _). unfold fs_rename, mbind, prog_bind. rewrite sys_ok by done. unfold gets, lift_res. rewrite Ei. cbn [ok_or]. by rewrite bool_decide_eq_false_2.
  - apply data_none in E; [|done]. unfold fs_rename, mbind, prog_bind. rewrite sys_ok by done. unfold gets, lift_res. by rewrite E.
Qed.

Lemma guards_write dir p file D q b now : q <> p -> fs_guards dir p file D (fs_write q b now).
Proof using.
  intros Hq fs Hg. pose proof Hg as (Hok & Hp & _). unfold fs_write, fs_open_truncate. apply post_bind, post_bind, post_sys_ok; [done|].
  apply post_bind, post_gets. case_bool_decide as Hd; cbn [negb]; [|by apply post_throw]. apply post_bind, post_gets.
  assert (Hrest : forall i fs1, guards dir p file D fs1 -> fs_entries fs1 !! q = Some i ->
    post (_ ← fs_write_all (mkFileHandle i 0) b now; mret tt) (fun _ => guards dir p file D) (fun _ => guards dir p file D) fs1).
  { intros i fs1 Hg1 Hi. pose proof Hg1 as (Hok1 & Hp1 & _). apply post_bind. unfold fs_write_all. case_bool_decide; [by apply post_ret, post_ret|].
    apply post_bind, post_sys_ok; [done|]. destruct (_ <? _); [by apply post_throw|]. apply post_bind, post_modify, post_ret, post_ret. unfold write_at.
    eapply guards_shows; [exact Hg1|by apply (set_inode_shows _ q)|]. cbn. by rewrite decide_False. }
  destruct (fs_entries fs !! q) as [i|] eqn:E.
  - apply post_bind, post_modify, post_ret, Hrest; [|done]. eapply guards_shows; [exact Hg|by apply (set_inode_shows _ q)|]. cbn. by rewrite decide_False.
  - apply post_bind, post_gets, post_bind, post_modify, post_ret, Hrest; [|unfold alloc; cbn; by rewrite lookup_partial_alter_eq].
    eapply guards_shows; [exact Hg|by apply alloc_shows|]. cbn. by rewrite decide_False.
Qed.

Lemma guards_create dir p file D x y : fs_guards dir p file D (fs_create_dir_all (dir ++ [x; y])).
Proof using.
  intros fs Hg. pose proof Hg as (Hok & Hp & Hdir & Hd). unfold post. destruct (fs_create_dir_all_ok fs (dir ++ [x; y]) Hok) as (fs' & -> & [Hok' Hv' Hd']).
  split_and!; [done|by rewrite Hv'|rewrite Hd'; by apply elem_of_union_l|]. intros d Hb. rewrite Hd', elem_of_union, elem_of_list_to_set, Hd by done. split; [|by left].
  intros [?|Hx]; [done|]. apply Hd; [done|]. by eapply ancestors_inside.
Qed.

(** Moving another object leaves this one alone. *)
Lemma guards_migrate dir p file D path x y b w : fp_dir path = dir ++ [x; y] -> fp_ext path = "obj" -> fp_ext p = "obj" -> path <> p ->
  guards dir p file D (s_fs w) ->
  post (migrate_object_file K path b) (fun _ w' => guards dir p file D (s_fs w')) (fun _ w' => guards dir p file D (s_fs w')) w.
Proof using.
  intros Hdir Hpe Hpx Hne Hg. pose proof Hg as (_ & Hp & _ & _).
  assert (Hio : forall T (f : FsError -> Error) (m : fsop T) (w1 : Store) (P : T -> Store -> Prop) (Q : Error -> Store -> Prop), fs_guards dir p file D m -> guards dir p file D (s_fs w1) ->
    (forall v w2, guards dir p file D (s_fs w2) -> P v w2) -> (forall e w2, guards dir p file D (s_fs w2) -> Q e w2) -> post (io f m) P Q w1).
  { intros T f m w1 P Q Hm Hg1 HP HQ. apply post_io. eapply post_mono; [| |apply Hm, Hg1]; cbn; auto. }
  unfold migrate_object_file. cbv zeta. apply post_bind, Hio; [apply guards_read|done| |done]. intros bytes w1 Hg1.
  destruct (_ <? _); [by apply post_throw|]. apply post_bind, post_lift; [|done]. intros h _. apply post_bind, post_lift; [|done]. intros _ _.
  destruct (is_ok _); [by apply post_ret|]. apply post_bind, post_lift; [|done]. intros json _. apply post_bind, post_lift; [|done]. intros md _.
  destruct (_ <? _)%nat; [by apply post_throw|]. set (new_path := id_path _ _).
  assert (Hnd : fp_dir new_path = dir ++ [String.substring 0 2 (fp_stem new_path); String.substring 2 2 (fp_stem new_path)]).
  { unfold new_path, id_path. cbn [fp_dir fp_stem]. rewrite Hdir, length_app. cbn [length]. replace (length dir + 2 - 2)%nat with (length dir) by lia. by rewrite take_app_length. }
  assert (Hnx : fp_ext new_path = "obj") by done. clearbody new_path. apply post_bind. apply post_io. unfold post.
  assert (Hok1 : fs_ok (s_fs w1)) by apply Hg1. rewrite (unwrap_run _ _ _ (fs_try_exists_ok (s_fs w1) new_path Hok1)), set_fs_self. fold (post (W := Store) (E := Error) (T := bool)).
  case_bool_decide as Hex.
  - apply post_bind. case_bool_decide; [by apply post_ret, post_ret|]. unfold best_effort. apply post_match, Hio; [by apply guards_remove|done| |]; intros ? w2 Hg2; by apply post_ret, post_ret.
  - assert (Hnp : new_path <> p) by (intros ->; apply Hex; pose proof Hg1 as (_ & -> & _); by eexists).
    apply post_bind. unfold seal_meta, post. destruct (encrypt_meta _ _ _ _ _) as [[blob r]|e]; [|done]. fold (post (W := Store) (E := Error) (T := bool)).
    apply post_bind, Hio; [rewrite Hnd; apply guards_create|done| |done]. intros _ w2 Hg2. apply post_bind, post_gets.
    apply post_bind, Hio; [apply guards_write; by intros <-|done| |done]. intros _ w3 Hg3.
    apply post_bind, Hio; [apply guards_rename; [by intros <-|done|intros E%(f_equal fp_ext); cbn in E; congruence]|done| |done].
    intros _ w4 Hg4. apply post_bind. case_bool_decide; [by apply post_ret, post_ret|]. apply Hio; [by apply guards_remove|done| |done]. intros _ w5 Hg5. by apply post_ret.
Qed.

(** ** An interrupted bucket *)

(** The bucket still has its old name, the ones before it have their new ones, and one of its
    objects has a header that the old key does not authenticate. *)
Record stuck (w : Store) (pre : list string) (b : string) : Prop := mkStuck {
  sk_ok : fs_ok (s_fs w);
  sk_pre : forall b', b' ∈ pre -> new_dir b' ∈ fs_dirs (s_fs w) /\ below (old_dir b) (new_dir b') = false;
  sk_dir : old_dir b ∈ fs_dirs (s_fs w);
  sk_free : new_dir b ∉ fs_dirs (s_fs w);
  sk_names : old_name b <> new_name b;
  sk_file : exists p file x y, data_at (s_fs w) p = Some file /\ fp_dir p = old_dir b ++ [x; y] /\ fp_ext p = "obj" /\
    is_ok (Format.decode (slice 0 HEADER_SIZE file) (old_chk K) (fp_stem p)) = false;
}.

Lemma migrate_refused w p file b : fs_ok (s_fs w) -> data_at (s_fs w) p = Some file ->
  is_ok (Format.decode (slice 0 HEADER_SIZE file) (old_chk K) (fp_stem p)) = false -> exists e, migrate_object_file K p b w = (Err e, w).
Proof using.
  intros Hok Hf Hd. unfold migrate_object_file. cbv zeta. erewrite prog_bind_run by (apply io_run, fs_read_ok; eassumption). rewrite set_fs_self.
  destruct (_ <? _); [by eexists|]. unfold object_id_from_path. destruct (Format.decode _ _ _) as [h|e]; [done|]. by eexists.
Qed.

Lemma migrate_loop_refused b dir p file D x y L : fp_dir p = dir ++ [x; y] -> fp_ext p = "obj" -> p ∈ L ->
  is_ok (Format.decode (slice 0 HEADER_SIZE file) (old_chk K) (fp_stem p)) = false ->
  (forall q, q ∈ L -> fp_ext q = "obj" /\ exists x y, fp_dir q = dir ++ [x; y]) -> forall stats w, guards dir p file D (s_fs w) ->
  exists e w', for_each (fun path stats => migrated ← migrate_object_file K path b; mret (count_object migrated stats)) L stats w = (Err e, w') /\ guards dir p file D (s_fs w').
Proof using.
  intros Hpd Hpe Hin Hdec. induction L as [|q L IH]; intros HL0 stats w Hg; [by apply elem_of_nil in Hin|]. cbn [for_each]. destruct (decide (q = p)) as [->|Hne].
  - pose proof Hg as (Hok & Hf & _). destruct (migrate_refused w p file b Hok Hf Hdec) as [e E]. exists e, w. split; [|done]. apply prog_bind_fails, prog_bind_fails, E.
  - apply elem_of_cons in Hin as [->|Hin]; [done|]. destruct (HL0 q) as (Hqe & x' & y' & Hqd); [by left|].
    pose proof (guards_migrate dir p file D q x' y' b w Hqd Hqe Hpe Hne Hg) as Hpost. unfold post in Hpost. destruct (migrate_object_file K q b w) as [[m|e] w1] eqn:E.
    + destruct (IH Hin) with (stats := count_object m stats) (w := w1) as (e & w2 & E2 & Hg2); [intros q' Hq'; apply HL0; by right|done|]. exists e, w2. split; [|done].
      erewrite prog_bind_run by (erewrite prog_bind_run by exact E; reflexivity). exact E2.
    + exists e, w1. split; [|done]. by apply prog_bind_fails, prog_bind_fails.
Qed.

Lemma stuck_fails w pre b rest : stuck w pre b ->
  exists e w', rotate_storage_tree base (pre ++ b :: rest) K w = (Err e, w') /\ stuck w' pre b.
Proof using.
  intros [Hok Hpre Hdir Hfree Hne (p & file & x & y & Hf & Hpd & Hpe & Hdec)]. unfold rotate_storage_tree. generalize stats_default.
  assert (Hskip : forall l, (forall b', b' ∈ l -> b' ∈ pre) -> forall stats, for_each (rotate_bucket base K) (l ++ b :: rest) stats w = for_each (rotate_bucket base K) (b :: rest) stats w).
  { induction l as [|b' l IH]; intros Hl stats; [done|]. cbn [app]. change (for_each (rotate_bucket base K) (b' :: l ++ b :: rest) stats w) with ((s ← rotate_bucket base K b' stats; for_each (rotate_bucket base K) (l ++ b :: rest) s) w).
    rewrite <- (IH (fun x Hx => Hl x ltac:(by right)) stats).
    apply prog_bind_run. unfold rotate_bucket, bucket_dir_path. cbv zeta. erewrite prog_bind_run by (apply io_run, unwrap_run, fs_try_exists_dir_ok; done).
    rewrite set_fs_self, bool_decide_eq_true_2; [done|]. apply Hpre, Hl. by left. }
  intros stats. rewrite Hskip by done. cbn [for_each].
  assert (Hg : guards (old_dir b) p file (fs_dirs (s_fs w)) (s_fs w)) by done.
  destruct (migrate_loop_refused b (old_dir b) p file (fs_dirs (s_fs w)) x y (bucket_files (s_fs w) (old_dir b)) Hpd Hpe) with (stats := stats) (w := w) as (e & w' & E & Hg'); [|done| |done|].
  - apply elem_of_bucket_files; [done|]. split_and!; [by rewrite Hf|done|eauto].
  - intros q (_ & He & Hq)%elem_of_bucket_files; [|done]. done.
  - exists e, w'. split.
    + apply prog_bind_fails. unfold rotate_bucket, bucket_dir_path. cbv zeta. erewrite prog_bind_run by (apply io_run, unwrap_run, fs_try_exists_dir_ok; done). rewrite set_fs_self, bool_decide_eq_false_2 by done.
      erewrite prog_bind_run by (apply io_run, unwrap_run, fs_try_exists_dir_ok; done). rewrite set_fs_self, bool_decide_eq_true_2 by done. cbn [negb].
      erewrite prog_bind_run by (apply io_run, collect_bucket_run; done). rewrite set_fs_self. by apply prog_bind_fails.
    + destruct Hg' as (Hok' & Hf' & Hd' & Hx'). constructor; [done| |done| |done|by exists p, file, x, y].
      * intros b' Hb'. destruct (Hpre b' Hb') as [Hn Hb0]. split; [|done]. by apply Hx'.
      * rewrite Hx'; [done|]. apply (below_sibling (new_name b)); [done|apply below_refl].
Qed.

End spec.

(** ** The store under the new key *)

Section theorems.
Context {A : AeadOps} {X : Xxh3Ops} {B : Base64Ops} {HO : HashOps} {R : RngOps}.
Context {RD : RedbOps} {J : MetadataJson} {CJ : ConfigJson} {U : UnicodeOps}.
Context {AL : AeadLaws} {HL : HashLaws} {RL : RngLaws}.

(** The store after [install_node_key]. *)
Definition install_node_key (nk : bytes) (w : Store) : Store :=
  mkStore (s_base w) (s_fs w) (s_index w) (install nk) (s_locks w) (s_rebuild w) (s_dirty w) (s_flush_limit w) (s_notified w) (s_rng w) (s_now w).

Lemma rotated_serving (old_nk new_nk : bytes) (w : Store) b M cfg k data md : bucket_rotated (rotation_keys old_nk new_nk) (s_base w) (s_fs w) b M cfg ->
  M !! k = Some (data, md) -> validate_bucket b = Ok tt -> validate_key k = Ok tt ->
  exists file, serving (install_node_key new_nk w) b k (obj_path_for (s_base w) (derive_path_key new_nk) b k)
    (derive_object_metadata_key new_nk) (derive_container_header_key new_nk) file data md.
Proof using HL.
  intros [_ _ (done & Hr & Hall) _] Hk Hvb Hvk. destruct (ru_new _ _ _ _ _ _ Hr k data md Hk) as (file & Hf & Hs); [apply Hall; by eexists|].
  destruct (installed_keys new_nk) as (_ & Hpk & Hmk & _ & Hck). exists file. constructor; [|exact Hf|by eapply sealed_object_file].
  constructor; try done. by exists (derive_path_key new_nk).
Qed.

Lemma rotated_config (old_nk new_nk : bytes) (w : Store) b M cfg : bucket_rotated (rotation_keys old_nk new_nk) (s_base w) (s_fs w) b M cfg -> fs_ok (s_fs w) ->
  validate_bucket b = Ok tt ->
  fst (get_bucket_config b (install_node_key new_nk w)) =
    match cfg with None => Ok config_default | Some plain => map_err (fun e => internal b "" "get_bucket_config" ("parse config: " +:+ e)) (config_from_slice plain) end.
Proof using HL.
  intros [_ _ _ Hc] Hok Hvb. destruct (installed_keys new_nk) as (_ & Hpk & _ & Hbk & _). set (w1 := install_node_key new_nk w). unfold get_bucket_config.
  assert (Hneed : forall T (f : NodeKeySlot -> result Error T) v, f (install new_nk) = Ok v -> need f w1 = (Ok v, w1)) by (intros T f v E; unfold need; erewrite prog_bind_run by reflexivity; cbn; by rewrite E).
  erewrite prog_bind_run by (apply Hneed; unfold require_path_key; rewrite Hpk; reflexivity). erewrite prog_bind_run by (apply Hneed; unfold require_bucket_config_key; rewrite Hbk; reflexivity).
  rewrite Hvb. erewrite prog_bind_run by reflexivity. erewrite prog_bind_run by reflexivity.
  unfold config_held in Hc. destruct cfg as [plain|].
  - destruct Hc as (_ & blob & Hb & Hdec). pose proof (fs_read_ok _ _ _ Hok Hb : fs_read (config_path (bucket_dir_path (s_base w1) (derive_path_key new_nk) b)) (s_fs w1) = _) as Er.
    erewrite prog_bind_run by (apply io_run; unfold match_res; rewrite Er; reflexivity).
    cbv beta iota. erewrite prog_bind_run; [|unfold lift_res; rewrite (Hdec : decrypt_meta (derive_bucket_config_key new_nk) blob (encode_bucket_dir (derive_path_key new_nk) b) = Ok plain); reflexivity]. done.
  - pose proof (fs_read_missing _ _ Hok Hc : fs_read (config_path (bucket_dir_path (s_base w1) (derive_path_key new_nk) b)) (s_fs w1) = _) as Er.
    by erewrite prog_bind_run by (apply io_run; unfold match_res; rewrite Er; reflexivity).
Qed.

(** Rotating the node key keeps the store. From a tree whose buckets are all sealed under
    the old node key, with no two ids or directory names colliding and no faults, the
    rotation succeeds and counts every object; a store opened with the new node key then
    serves the same data and metadata for every object and the same bucket configurations. *)
Theorem node_rotation_preserves (old_nk new_nk : bytes) (w : Store) (buckets : list string) (M : string -> gmap string (bytes * Metadata)) (cfg : string -> option bytes) :
  fs_ok (s_fs w) -> names_apart (rotation_keys old_nk new_nk) buckets ->
  (forall b, b ∈ buckets -> validate_bucket b = Ok tt /\ bucket_ready (rotation_keys old_nk new_nk) (s_base w) (s_fs w) b (M b) (cfg b)) ->
  exists w', rotate_storage_tree (s_base w) buckets (rotation_keys old_nk new_nk) w
      = (Ok (mkRotationStats (length buckets) (sum_list ((fun b => size (M b)) <$> buckets)) 0), w') /\
    forall b, b ∈ buckets ->
      (forall k data md, M b !! k = Some (data, md) -> validate_key k = Ok tt -> s_locks w !! (b, k) = None ->
        fst (get b k (install_node_key new_nk w')) = Ok data /\ fst (describe b k (install_node_key new_nk w')) = Ok md) /\
      fst (get_bucket_config b (install_node_key new_nk w')) =
        match cfg b with None => Ok config_default | Some plain => map_err (fun e => internal b "" "get_bucket_config" ("parse config: " +:+ e)) (config_from_slice plain) end.
Proof using AL HL RL.
  intros Hok Hap Hrd. destruct (rotate_tree_run (rotation_keys old_nk new_nk) (s_base w) M cfg buckets w 0 0 0 Hok Hap) as (fs' & w' & E & Hre & Hok' & _ & Hall); [intros b Hb; by apply Hrd|].
  exists w'. split; [exact E|]. destruct Hre as [r ->]. intros b Hb. destruct (Hrd b Hb) as [Hvb _]. specialize (Hall b Hb). split; [|by eapply rotated_config].
  intros k data md Hk Hvk Hl. destruct (rotated_serving old_nk new_nk (set_rng r (set_fs fs' w)) b (M b) (cfg b) k data md Hall Hk Hvb Hvk) as [file Hsv].
  pose proof (fo_quiet _ Hok') as Hq. split; (eapply yields_quiet; [|exact Hq]); [by eapply get_yields; [exact Hsv|exact Hl]|by eapply describe_yields; [exact Hsv|exact Hl|exact Hq]].
Qed.

(** An interrupted rotation cannot be resumed. Once an object of a bucket has been moved
    and the bucket still has its old name, every later run fails, however often it is
    repeated: the moved object's header is checked against the old key before the run
    looks whether the object was moved already. *)
Theorem rotation_cannot_resume (old_nk new_nk : bytes) (w : Store) (pre rest : list string) (b : string) (M : gmap string (bytes * Metadata)) (done : gset string) (k : string) :
  let K := rotation_keys old_nk new_nk in
  fs_ok (s_fs w) -> names_apart K (b :: pre) -> encode_bucket_dir (old_path_key K) b <> encode_bucket_dir (new_path_key K) b ->
  (forall b', b' ∈ pre -> bucket_dir_path (s_base w) (new_path_key K) b' ∈ fs_dirs (s_fs w)) ->
  bucket_dir_path (s_base w) (old_path_key K) b ∈ fs_dirs (s_fs w) -> (bucket_dir_path (s_base w) (new_path_key K) b ∉ fs_dirs (s_fs w)) ->
  rotated_upto K (s_fs w) (bucket_dir_path (s_base w) (old_path_key K) b) b M done -> k ∈ done -> is_Some (M !! k) ->
  (forall file, data_at (s_fs w) (id_path (bucket_dir_path (s_base w) (old_path_key K) b) (new_id K b k)) = Some file ->
     is_ok (Format.decode (slice 0 HEADER_SIZE file) (old_chk K) (new_id K b k)) = false) ->
  forall n, exists e, fst (rotate_storage_tree (s_base w) (pre ++ b :: rest) K (Nat.iter n (fun w1 => snd (rotate_storage_tree (s_base w) (pre ++ b :: rest) K w1)) w)) = Err e.
Proof using.
  intros K Hok Hap Hne Hpre Hdir Hfree Hr Hd [[d md] Hk] Hmac.
  assert (Hs : stuck K (s_base w) w pre b).
  { apply names_apart_cons in Hap as [_ Hap]. constructor; try done.
    - intros b' Hb'. split; [by apply Hpre|]. apply (below_sibling _ (encode_bucket_dir (new_path_key K) b')); [|apply below_refl]. destruct (Hap b' Hb') as (_ & ? & _). congruence.
    - destruct (ru_new _ _ _ _ _ _ Hr k d md Hk Hd) as (file & Hf & _).
      eexists _, file, _, _. split_and!; [exact Hf|reflexivity|done|]. by apply Hmac. }
  intros n. generalize (s_base w), Hs. clear. intros base Hs.
  assert (Hn : stuck K base (Nat.iter n (fun w1 => snd (rotate_storage_tree base (pre ++ b :: rest) K w1)) w) pre b).
  { induction n as [|n IH]; [done|]. rewrite Nat.iter_succ. destruct (stuck_fails K base _ pre b rest IH) as (e & w' & E & Hs'). by rewrite E. }
  destruct (stuck_fails K base _ pre b rest Hn) as (e & w' & E & _). exists e. by rewrite E.
Qed.

(** A rotation spoils objects whose metadata was sealed before padding. Such an object is
    reported as moved and its old file is removed, but the header of the new file still has
    the length of the old metadata, so that no reader accepts the file. *)
Theorem rotation_breaks_unpadded (K : RotationKeys) (w : Store) (dir : list string) (oid b : string) (file data meta json : bytes) (md : Metadata) :
  let new_path := id_path dir (encode_object_id (new_path_key K) (md_bucket md) (md_key md)) in
  fs_ok (s_fs w) -> data_at (s_fs w) (id_path dir oid) = Some file -> object_with (old_omk K) (old_chk K) oid file data meta json md -> unmigrated K oid file ->
  data_at (s_fs w) new_path = None -> blen file - blen meta + 29 + padded_len_of (blen json) META_PAD_BLOCK <= FILE_MAX ->
  blen meta <> 29 + padded_len_of (blen json) META_PAD_BLOCK ->
  exists w' file' h, migrate_object_file K (id_path dir oid) b w = (Ok true, w') /\
    data_at (s_fs w') (id_path dir oid) = None /\ data_at (s_fs w') new_path = Some file' /\
    Format.decode (slice 0 HEADER_SIZE file') (new_chk K) (fp_stem new_path) = Ok h /\ is_ok (check_total_len h (blen file')) = false.
Proof using AL HL RL.
  intros new_path Hok Hf Hs Hun Hnone Hfit Hlen.
  destruct (migrate_moves K w dir oid file data meta json md b Hok Hf Hs Hun Hnone Hfit) as (fs' & w' & h & meta' & E & Hre & (_ & _ & Hv) & Hwf & Hdl & Hml & Hml' & _ & Hsum).
  pose proof (refiled_fs _ _ _ Hre) as Hfs'. rewrite <- Hfs' in Hv. eexists w', _, h. split_and!; [exact E| | | |].
  - rewrite Hv by done. rewrite decide_False, decide_True by (try done; intros Ep; unfold new_path in Hnone; rewrite <- Ep in Hnone; congruence). done.
  - rewrite Hv, decide_True by done. reflexivity.
  - unfold migrated_file. cbv zeta. pose proof (blen_encode h (new_chk K) (encode_object_id (new_path_key K) (md_bucket md) (md_key md))) as He.
    rewrite (slice_app_take 0 HEADER_SIZE), slice_full by (unfold HEADER_SIZE; lia). pose proof Hwf as (Hft & Hver & Hmin). rewrite header_roundtrip by (try done; by right).
    rewrite (proj2 (Z.eqb_neq _ _)) by (unfold MIN_DATA_OFFSET, HEADER_SIZE in Hmin; lia). by destruct h.
  - rewrite migrated_len by done. destruct (check_total_len h _) as [[]|] eqn:Ec; [|done]. exfalso. apply (proj1 (header_layout h _ Hwf)) in Ec as [Ec _]. lia.
Qed.

(** ** Headers of the first format *)

Lemma decode_v1_wf buf h : decode_v1_header buf = Some h -> header_wf h /\ forall chk id, is_ok (Format.decode buf chk id) = false.
Proof using.
  unfold decode_v1_header, Format.decode. case_bool_decide; [|done]. cbn [negb]. destruct (Z.eqb_spec (from_le_bytes (slice 4 6 buf)) 1) as [Hv|]; [|done]. cbn [negb].
  destruct (_ =? crc32 _); [|done]. cbn [negb]. destruct (_ <? MIN_DATA_OFFSET) eqn:Hlt; [done|]. apply Z.ltb_ge in Hlt. intros [= <-]. split; [|intros; by rewrite Hv].
  assert (Hr : in_u 32 (from_le_bytes (slice 20 24 buf))) by (apply field_range; lia). split; [|done].
  refine (conj _ (conj _ (conj _ (conj _ _)))); cbn; first [done|apply field_range; lia|idtac]. destruct (_ =? 0); [by vm_compute|done].
Qed.

(** The two headers of a file, replaced. *)
Lemma overwrite_ends (a a' body z : bytes) : length a = length a' -> length z = length a' ->
  overwrite (overwrite (a ++ body ++ z) 0 a') (blen a + blen body) a' = a' ++ body ++ a'.
Proof using.
  intros Ha Hz. change 0 with (blen ([] : bytes)). rewrite <- (app_nil_l (a ++ _)), overwrite_middle by done. cbn [app]. rewrite app_assoc, <- (app_nil_r z).
  replace (blen a + blen body) with (blen (a' ++ body)) by (rewrite blen_app; unfold blen; lia). rewrite overwrite_middle by done. by rewrite app_nil_r, <- app_assoc.
Qed.

(** A file whose header the key authenticates is left alone. *)
Lemma upgrade_skips w p bucket chk file : fs_ok (s_fs w) -> data_at (s_fs w) p = Some file -> HEADER_SIZE <= blen file ->
  is_ok (Format.decode (slice 0 HEADER_SIZE file) chk (fp_stem p)) = true -> upgrade_one_container_header chk p bucket w = (Ok false, w).
Proof using.
  intros Hok Hf Hl Hd. destruct (fs_open_rw_ok _ _ _ Hok Hf) as (i & E & Hi & Hc). unfold upgrade_one_container_header. cbv zeta.
  erewrite prog_bind_run by (apply io_run; exact E). erewrite prog_bind_run by reflexivity. cbn [set_fs s_fs fh_inode]. rewrite Hc, set_fs_self.
  erewrite prog_bind_run by (apply io_run, fs_len_ok; done). rewrite set_fs_self. erewrite prog_bind_run by (apply io_run, fs_read_exact_ok; done). rewrite set_fs_self.
  change (slice 0 (0 + HEADER_SIZE) file) with (slice 0 HEADER_SIZE file). unfold object_id_from_path. by rewrite Hd.
Qed.

(** An object written before container headers had a MAC is readable after the upgrade.
    Its header and trailer are replaced by the authenticated ones with the same fields and
    everything between them stays; running the upgrade again changes nothing. *)
Theorem header_upgrade (w : Store) (p : fpath) (bucket : string) (chk v1 v1' pad data meta : bytes) (h : Header) :
  fs_ok (s_fs w) -> data_at (s_fs w) p = Some (v1 ++ pad ++ data ++ meta ++ v1') -> blen v1 = HEADER_SIZE -> blen v1' = HEADER_SIZE ->
  decode_v1_header v1 = Some h -> data_offset h = HEADER_SIZE + blen pad -> data_len h = blen data -> meta_len h = blen meta ->
  blen (v1 ++ pad ++ data ++ meta ++ v1') <= FILE_MAX ->
  let file' := Format.encode h chk (fp_stem p) ++ pad ++ data ++ meta ++ Format.encode h chk (fp_stem p) in
  exists w', upgrade_one_container_header chk p bucket w = (Ok true, w') /\ fs_ok (s_fs w') /\
    (forall q, data_at (s_fs w') q = if decide (q = p) then Some file' else data_at (s_fs w) q) /\
    (forall mek json md, decrypt_meta mek meta (fp_stem p) = Ok json -> from_slice json = Ok md -> object_file mek chk p file' data md) /\
    upgrade_one_container_header chk p bucket w' = (Ok false, w').
Proof using HL.
  intros Hok Hf Hl Hl' Hv1 Ho Hd Hm Hmax file'. destruct (decode_v1_wf v1 h Hv1) as [Hwf Hno]. set (file := v1 ++ pad ++ data ++ meta ++ v1') in *.
  pose proof (blen_encode h chk (fp_stem p)) as He. set (enc := Format.encode h chk (fp_stem p)) in *. pose proof (blen_nonneg pad). pose proof (blen_nonneg data). pose proof (blen_nonneg meta).
  assert (Hlen : blen file = data_offset h + data_len h + meta_len h + HEADER_SIZE) by (unfold file; rewrite !blen_app; lia). unfold HEADER_SIZE in *.
  assert (Hlen' : blen file' = blen file) by (unfold file', file; rewrite !blen_app; lia). assert (Hne : enc <> []) by (intros E; rewrite E in He; done).
  destruct (header_layout h (blen file) Hwf) as [Hct Hlay]. assert (Hc : check_total_len h (blen file) = Ok tt) by (apply Hct; unfold HEADER_SIZE, u64_max, FILE_MAX in *; lia). destruct (Hlay Hc) as (_ & Hmo & Hto & _).
  destruct (fs_open_rw_ok _ _ _ Hok Hf) as (i & E & Hi & Hdef).
  destruct (write_in_place (s_fs w) p i file 0 enc (s_now w) Hok Hi Hf Hne) as (fs1 & W1 & Hi1 & [Hok1 Hv1' Hd1]); [unfold FILE_MAX; lia|].
  destruct (write_in_place fs1 p i (overwrite file 0 enc) (trailer_offset h) enc (s_now w) Hok1 Hi1) as (fs2 & W2 & Hi2 & [Hok2 Hv2 Hd2]); [by rewrite Hv1', decide_True|done|unfold FILE_MAX in *; lia|].
  destruct (fs_sync_data_ok fs2 p (mkFileHandle i (trailer_offset h + blen enc)) Hok2 Hi2) as (fs3 & W3 & [Hok3 Hv3 _]).
  assert (Hover : overwrite (overwrite file 0 enc) (trailer_offset h) enc = file').
  { unfold file, file'. replace (pad ++ data ++ meta ++ v1') with ((pad ++ data ++ meta) ++ v1') by (by rewrite <- !app_assoc). replace (trailer_offset h) with (blen v1 + blen (pad ++ data ++ meta)) by (rewrite !blen_app; lia).
    rewrite overwrite_ends by (unfold blen in *; lia). by rewrite <- !app_assoc. }
  assert (Hall : forall q, data_at fs3 q = if decide (q = p) then Some file' else data_at (s_fs w) q).
  { intros q. rewrite Hv3, Hv2, Hover. case_decide; [done|]. by rewrite Hv1', decide_False. }
  assert (Hs1 : slice 0 64 file = v1) by (unfold file; by rewrite (slice_app_take 0 64), slice_full by lia).
  exists (set_fs fs3 w). split_and!; [|done|done| |].
  - unfold upgrade_one_container_header. cbv zeta. erewrite prog_bind_run by (apply io_run; exact E). erewrite prog_bind_run by reflexivity. cbn [set_fs s_fs fh_inode]. rewrite Hdef, set_fs_self.
    erewrite prog_bind_run by (apply io_run, fs_len_ok; done). rewrite set_fs_self. erewrite prog_bind_run by (apply io_run, fs_read_exact_ok; [done|unfold HEADER_SIZE; lia]). rewrite set_fs_self.
    change (slice 0 (0 + HEADER_SIZE) file) with (slice 0 64 file). unfold object_id_from_path. rewrite Hs1, Hno, Hv1. cbn [ok_or]. erewrite prog_bind_run by reflexivity. rewrite Hc. cbn [map_err]. erewrite prog_bind_run by reflexivity.
    erewrite prog_bind_run by reflexivity. erewrite prog_bind_run by (apply io_run, fs_seek_ok; done). rewrite set_fs_self. erewrite prog_bind_run by (apply io_run; exact W1).
    erewrite prog_bind_run by (apply io_run, fs_seek_ok; done). erewrite prog_bind_run by (apply io_run; exact W2). by erewrite prog_bind_run by (apply io_run; exact W3).
  - intros mek json md Hdec Hjs. exists h, pad, meta, json. split_and!; try done. lia.
  - apply (upgrade_skips _ _ _ _ file'); [done|by rewrite Hall, decide_True|unfold HEADER_SIZE; lia|]. unfold file', HEADER_SIZE. rewrite (slice_app_take 0 64), slice_full by lia.
    pose proof Hwf as (Hft & Hver & Hmin). unfold enc. by rewrite header_roundtrip by (try done; by right).
Qed.

End theorems.

