(* ===== verification/KeystoreSpec.v ===== *)
(** * What the keystore keeps

    A keystore made by a first run opens with its node key and with no other; re-keying the
    user store keeps every user and may be repeated; a first run that breaks off after the
    manifest leaves a keystore without users that can neither be used nor made again. *)

From S2P Require Import Prelude Effects Primitives Types Format Crypto NodeKeys Sink Slots BucketKeys Lex Query Index Locks Posix FsView Filesystem FilesystemSpec NodeRotation Rebuild NodeRotationSpec EncryptedFile Keystore.
Import FilesystemStorage.

(** ** Calls *)

Lemma fs_create_new_ok fs p now : fs_ok fs -> fp_dir p ∈ fs_dirs fs -> data_at fs p = None ->
  exists fs' i, fs_create_new p now fs = (Ok (mkFileHandle i 0), fs') /\ fs_entries fs' !! p = Some i /\
    shows fs' (fun q => if decide (q = p) then Some [] else data_at fs q) (fs_dirs fs).
Proof.
  intros Hok Hd Hn. apply data_none in Hn; [|done]. unfold fs_create_new, mbind, prog_bind. rewrite sys_ok by done. unfold gets, modify. rewrite bool_decide_eq_true_2 by done. cbn [negb]. rewrite Hn.
  eexists _, _. split; [done|]. split; [unfold alloc; cbn; by rewrite lookup_partial_alter_eq|]. by apply alloc_shows.
Qed.

Lemma fs_open_create_ok fs p now : fs_ok fs -> fp_dir p ∈ fs_dirs fs ->
  exists fs', fs_open_create p now fs = (Ok (default [] (data_at fs p)), fs') /\
    shows fs' (fun q => if decide (q = p) then Some (default [] (data_at fs p)) else data_at fs q) (fs_dirs fs).
Proof.
  intros Hok Hd. unfold fs_open_create, mbind, prog_bind. rewrite sys_ok by done. unfold gets, modify. rewrite bool_decide_eq_true_2 by done. cbn [negb].
  destruct (data_at fs p) as [c|] eqn:E; eexists; (split; [done|]).
  - split; [done| |done]. intros q. case_decide; by subst.
  - apply alloc_shows; [done| |done]. by apply data_none.
Qed.

Lemma fs_commit_ok fs p c0 c now : fs_ok fs -> data_at fs p = Some c0 ->
  exists fs', fs_commit p c now fs = (Ok tt, fs') /\ shows fs' (fun q => if decide (q = p) then Some c else data_at fs q) (fs_dirs fs).
Proof.
  intros Hok (i & n & Hi & _)%data_entry. unfold fs_commit, mbind, prog_bind. rewrite sys_ok by done. unfold gets, lift_res, modify. rewrite Hi. cbn [ok_or]. eexists. split; [done|]. by apply set_inode_shows.
Qed.

Lemma mark_path_synced_ok fs p c : fs_ok fs -> data_at fs p = Some c ->
  exists fs', mark_path_synced p fs = (Ok tt, fs') /\ shows fs' (data_at fs) (fs_dirs fs).
Proof.
  intros Hok Hc. pose proof Hc as (i & n & Hi & _)%data_entry. destruct (fs_sync_data_ok fs p (mkFileHandle i 0) Hok Hi) as (fs' & E & Hs). exists fs'. split; [|done].
  unfold mark_path_synced, mbind, prog_bind. rewrite sys_ok, sys_ok by done. unfold gets, lift_res. rewrite Hi. cbn [ok_or]. revert E. unfold fs_sync_data, mbind, prog_bind. by rewrite sys_ok.
Qed.

Lemma sync_dir_shows fs d : fs_ok fs -> shows (sync_dir d fs) (data_at fs) (fs_dirs fs).
Proof. intros [Hq Hn Hnm Hi Hl Hc]. split; [by constructor|done|done]. Qed.
Lemma sync_parent_ok fs d : fs_ok fs -> exists fs', sync_parent d fs = (Ok tt, fs') /\ shows fs' (data_at fs) (fs_dirs fs).
Proof.
  intros Hok. exists (sync_dir d fs). split; [|by apply sync_dir_shows]. unfold sync_parent, match_res, fs_sync_dir, mbind, prog_bind. by rewrite !sys_ok.
Qed.

(** Views that differ at one path *)
Definition put_at (p : fpath) (c : bytes) (view : fpath -> option bytes) (q : fpath) : option bytes := if decide (q = p) then Some c else view q.
Definition drop_at (p : fpath) (view : fpath -> option bytes) (q : fpath) : option bytes := if decide (q = p) then None else view q.
(** Look a path up in such a view. *)
Ltac at_path := unfold put_at, drop_at; repeat first [rewrite decide_True by done|rewrite decide_False by done].

Section spec.
Context {B : Base64Ops} {T : TokenOps} {HO : HashOps} {R : RngOps} {RR : RandomRange} {A : AeadOps} {KE : KemOps} {AR : Argon2Ops}.
Context {RD : RedbOps} {KJ : KeystoreJson} {UF : UserFileOps}.
Context {BL : Base64Laws} {HL : HashLaws} {KL : KeystoreJsonLaws} {UL : UserFileLaws}.

(** Only the files differ. *)
Definition runs {V} (m : prog Store CryptoError V) (w : Store) (v : V) (view : fpath -> option bytes) : Prop :=
  exists fs', m w = (Ok v, set_fs fs' w) /\ shows fs' view (fs_dirs (s_fs w)).

Lemma io_runs {V} f (m : fsop V) w v view fs' : m (s_fs w) = (Ok v, fs') -> shows fs' view (fs_dirs (s_fs w)) -> runs (io f m) w v view.
Proof using. intros E Hs. exists fs'. split; [by apply io_run|done]. Qed.

Lemma runs_bind {V V'} (m : prog Store CryptoError V) (k : V -> prog Store CryptoError V') w v v' view view' :
  runs m w v view -> (forall fs', shows fs' view (fs_dirs (s_fs w)) -> runs (k v) (set_fs fs' w) v' view') -> runs (m ≫= k) w v' view'.
Proof using.
  intros (fs1 & E1 & Hs1) Hk. destruct (Hk fs1 Hs1) as (fs2 & E2 & Hs2). exists fs2. erewrite prog_bind_run by exact E1. rewrite E2. split; [done|].
  destruct Hs2 as [H1 H2 H3]. split; [done|done|]. rewrite H3. apply (sh_dirs _ _ _ Hs1).
Qed.
Lemma runs_ret {V} (v : V) w : fs_ok (s_fs w) -> runs (mret v) w v (data_at (s_fs w)).
Proof using. intros Hok. exists (s_fs w). split; [by rewrite set_fs_self|by split]. Qed.
Lemma runs_lift {V} (m : result CryptoError V) v w : m = Ok v -> fs_ok (s_fs w) -> runs (lift_res m) w v (data_at (s_fs w)).
Proof using. intros -> Hok. exists (s_fs w). split; [by rewrite set_fs_self|by split]. Qed.
Lemma runs_gets {V} (f : Store -> V) w : fs_ok (s_fs w) -> runs (gets f) w (f w) (data_at (s_fs w)).
Proof using. intros Hok. exists (s_fs w). split; [by rewrite set_fs_self|by split]. Qed.
Lemma runs_view {V} (m : prog Store CryptoError V) w v view view' : runs m w v view -> (forall q, view q = view' q) -> runs m w v view'.
Proof using. intros (fs' & E & [H1 H2 H3]) Hv. exists fs'. split; [done|]. split; [done| |done]. intros q. by rewrite H2. Qed.


Lemma exists_runs p w : fs_ok (s_fs w) -> runs (exists_ p) w (bool_decide (is_Some (data_at (s_fs w) p))) (data_at (s_fs w)).
Proof using. intros Hok. eapply io_runs; [apply unwrap_run, fs_try_exists_ok, Hok|by split]. Qed.

Lemma us_open_runs p nk w c' : fs_ok (s_fs w) -> fp_dir p ∈ fs_dirs (s_fs w) -> uf_open (derive_user_store_file_key nk) (default [] (data_at (s_fs w) p)) = Ok c' ->
  runs (us_open p nk) w tt (put_at p c' (data_at (s_fs w))).
Proof using.
  intros Hok Hd Hu. unfold us_open. eapply runs_bind; [by apply runs_gets|]. intros fs0 [Hok0 Hv0 Hd0]. cbn [set_fs s_now].
  destruct (fs_open_create_ok fs0 p (s_now w) Hok0) as (fs1 & E1 & Hs1); [by rewrite Hd0|]. rewrite Hv0 in E1, Hs1. eapply runs_bind; [eapply io_runs; [exact E1|exact Hs1]|].
  intros fs2 [Hok2 Hv2 Hd2]. eapply runs_bind; [apply runs_lift; [by rewrite Hu|done]|]. intros fs3 [Hok3 Hv3 Hd3]. cbn [set_fs s_fs] in *.
  destruct (fs_commit_ok fs3 p (default [] (data_at (s_fs w) p)) c' (s_now w) Hok3) as (fs4 & E4 & Hs4); [by rewrite Hv3, Hv2, decide_True|].
  eapply runs_view; [eapply io_runs; [exact E4|exact Hs4]|]. intros q. unfold put_at. case_decide; [done|]. by rewrite Hv3, Hv2, decide_False, Hv0.
Qed.

Lemma with_users_runs {V} p (f : bytes -> result string V) w c v : fs_ok (s_fs w) -> data_at (s_fs w) p = Some c -> f c = Ok v ->
  runs (with_users p f) w v (data_at (s_fs w)).
Proof using.
  intros Hok Hc Hf. unfold with_users. eapply runs_bind; [eapply io_runs; [by apply fs_read_ok|by split]|]. intros fs' [Hok' Hv' _].
  eapply runs_view; [apply runs_lift; [by rewrite Hf|done]|]. exact Hv'.
Qed.

Lemma import_runs p nk l w c c' : fs_ok (s_fs w) -> data_at (s_fs w) p = Some c -> uf_insert (derive_user_store_file_key nk) c l = Ok c' ->
  runs (import_raw p nk l) w tt (put_at p c' (data_at (s_fs w))).
Proof using.
  intros Hok Hc Hi. unfold import_raw. eapply runs_bind; [by eapply with_users_runs|]. intros fs1 [Hok1 Hv1 Hd1]. eapply runs_bind; [by apply runs_gets|]. intros fs2 [Hok2 Hv2 Hd2]. cbn [set_fs s_fs s_now] in *.
  destruct (fs_commit_ok fs2 p c c' (s_now w) Hok2) as (fs3 & E3 & Hs3); [by rewrite Hv2, Hv1|]. eapply runs_view; [eapply io_runs; [exact E3|exact Hs3]|].
  intros q. unfold put_at. case_decide; [done|]. by rewrite Hv2, Hv1.
Qed.


Lemma remove_runs f p w : fs_ok (s_fs w) -> runs (remove_if_there f p) w tt (drop_at p (data_at (s_fs w))).
Proof using.
  intros Hok. unfold remove_if_there. destruct (data_at (s_fs w) p) as [c|] eqn:E.
  - destruct (fs_remove_file_ok _ p c Hok E) as (fs' & E' & Hs). eapply io_runs; [unfold match_res; rewrite E'; reflexivity|exact Hs].
  - assert (E' : fs_remove_file p (s_fs w) = (Err NoEntry, s_fs w)).
    { pose proof E as En. apply data_none in En; [|done]. unfold fs_remove_file, mbind, prog_bind. rewrite sys_ok by done. unfold gets, lift_res. by rewrite En. }
    eapply io_runs; [unfold match_res; rewrite E'; reflexivity|]. split; [done| |done]. intros q. unfold drop_at. case_decide; by subst.
Qed.

Lemma install_runs f tmp p w c : fs_ok (s_fs w) -> data_at (s_fs w) tmp = Some c -> fp_dir p ∈ fs_dirs (s_fs w) -> tmp <> p ->
  runs (install_users f tmp p) w tt (put_at p c (drop_at tmp (data_at (s_fs w)))).
Proof using.
  intros Hok Hc Hd Hne. unfold install_users. destruct (mark_path_synced_ok _ _ _ Hok Hc) as (fs1 & E1 & [Hok1 Hv1 Hd1]).
  eapply runs_bind; [eapply io_runs; [exact E1|by split]|]. intros fs2 [Hok2 Hv2 Hd2].
  destruct (fs_rename_ok fs2 tmp p c Hok2) as (fs3 & E3 & [Hok3 Hv3 Hd3]); [by rewrite Hv2|by rewrite Hd2|done|].
  eapply runs_bind; [eapply io_runs; [exact E3|split; [done|exact Hv3|done]]|]. intros fs4 [Hok4 Hv4 Hd4].
  destruct (sync_parent_ok fs4 (fp_dir p) Hok4) as (fs5 & E5 & Hs5). eapply runs_view; [eapply io_runs; [exact E5|exact Hs5]|].
  intros q. unfold put_at, drop_at. cbn [set_fs s_fs]. rewrite Hv4. case_decide; [done|]. case_decide; [done|]. apply Hv2.
Qed.

(** The users in the store's file, under the node key. *)
Definition users_are (nk : bytes) (view : fpath -> option bytes) (dir : list string) (m : gmap string bytes) : Prop :=
  exists c, view (users_path dir) = Some c /\ uf_view (derive_user_store_file_key nk) c = Some m.

Lemma us_open_wrong p nk w c : fs_ok (s_fs w) -> fp_dir p ∈ fs_dirs (s_fs w) -> data_at (s_fs w) p = Some c -> uf_view (derive_user_store_file_key nk) c = None -> c <> [] ->
  exists e fs', us_open p nk w = (Err e, set_fs fs' w) /\ shows fs' (data_at (s_fs w)) (fs_dirs (s_fs w)).
Proof using.
  intros Hok Hd Hc Hv Hne. unfold us_open. erewrite prog_bind_run by reflexivity.
  destruct (fs_open_create_ok (s_fs w) p (s_now w) Hok Hd) as (fs1 & E1 & [Hok1 Hv1 Hd1]). rewrite Hc in *. cbn [default from_option] in *. unfold id in *.
  erewrite prog_bind_run by (apply io_run; exact E1). pose proof (uf_open_wrong _ _ Hv Hne) as Hw. destruct (uf_open _ c) as [?|e]; [done|].
  eexists _, fs1. split; [by apply prog_bind_fails|]. split; [done| |done]. intros q. rewrite Hv1. case_decide; by subst.
Qed.

Lemma union_self (m : gmap string bytes) l : l ≡ₚ map_to_list m -> list_to_map l ∪ ∅ = m.
Proof using.
  intros Hp. rewrite (right_id_L ∅ (∪)). rewrite <- (list_to_map_to_list m). apply list_to_map_proper; [|done]. rewrite Hp. apply NoDup_fst_map_to_list.
Qed.

(** A store that is already under the new key *)
Lemma rekey_again dir old_nk new_nk w m : fs_ok (s_fs w) -> dir ∈ fs_dirs (s_fs w) -> users_are new_nk (data_at (s_fs w)) dir m ->
  sealed_apart (derive_user_store_file_key new_nk) (derive_user_store_file_key old_nk) ->
  exists w'', rekey_user_store dir old_nk new_nk w = (Ok tt, w'') /\ users_are new_nk (data_at (s_fs w'')) dir m /\
    forall q, q <> users_path dir -> q <> with_extension (users_path dir) "rekeying" -> data_at (s_fs w'') q = data_at (s_fs w) q.
Proof using UL.
  intros Hok1 Hd1 (c1 & Hc1 & Hm1) Hap. set (users := users_path dir) in *. set (tmp := with_extension users "rekeying") in *.
  assert (Hut : users <> tmp) by (by intros E%(f_equal fp_ext)). assert (Htu : tmp <> users) by congruence.
  unfold rekey_user_store. cbv zeta. fold users tmp.
    destruct (remove_runs (kio "remove " tmp) tmp w Hok1) as (fs1 & E1 & [Hok2 Hv2 Hd2]). erewrite prog_bind_run by exact E1. cbn [set_fs s_fs] in *.
    assert (Hc2 : data_at fs1 users = Some c1) by (rewrite Hv2; at_path; exact Hc1).
    destruct (us_open_wrong users old_nk (set_fs fs1 w) c1) as (e & fs2 & E2 & [Hok3 Hv3 Hd3]); [done|cbn; by rewrite Hd2|done|by apply Hap|intros ->; by rewrite uf_view_empty in Hm1|].
    destruct (uf_open_view _ _ _ Hm1) as (c2 & Hu & Hm2). cbn [set_fs s_fs] in *.
    destruct (us_open_runs users new_nk (set_fs fs2 w) c2) as (fs3 & E3 & [Hok4 Hv4 Hd4]); [done|cbn; by rewrite Hd3, Hd2|cbn; rewrite Hv3, Hc2; exact Hu|].
    eexists. unfold match_res. change (set_fs fs1 w) with (set_fs fs1 w). rewrite E2. change (set_fs fs2 (set_fs fs1 w)) with (set_fs fs2 w). rewrite E3. split; [reflexivity|]. cbn [set_fs s_fs]. split.
    - exists c2. rewrite Hv4. at_path; done.
    - intros q Hq Ht. rewrite Hv4. at_path. cbn. rewrite Hv3, Hv2. by at_path.
Qed.

(** A store under the old key, copied row by row *)
Lemma rekey_first dir old_nk new_nk w m c : fs_ok (s_fs w) -> dir ∈ fs_dirs (s_fs w) -> data_at (s_fs w) (users_path dir) = Some c -> uf_view (derive_user_store_file_key old_nk) c = Some m ->
  exists c3, uf_view (derive_user_store_file_key new_nk) c3 = Some m /\
    runs (rekey_user_store dir old_nk new_nk) w tt (put_at (users_path dir) c3 (drop_at (with_extension (users_path dir) "rekeying") (data_at (s_fs w)))).
Proof using UL.
  intros Hok Hdir Hc Hm. set (users := users_path dir) in *. set (tmp := with_extension users "rekeying") in *.
  assert (Hut : users <> tmp) by (by intros E%(f_equal fp_ext)). assert (Htu : tmp <> users) by congruence.
  destruct (uf_open_view _ _ _ Hm) as (c1 & Hu1 & Hm1). destruct (uf_rows_view _ _ _ Hm1) as (l & Hl & Hperm). destruct (uf_open_new (derive_user_store_file_key new_nk)) as (c2 & Hu2 & Hm2).
  destruct (uf_insert_view _ _ _ l Hm2) as (c3 & Hi & Hm3); [rewrite Hperm; apply NoDup_fst_map_to_list|]. rewrite (union_self m l Hperm) in Hm3.
  exists c3. split; [done|]. unfold rekey_user_store. cbv zeta. fold users tmp. eapply runs_bind; [by apply remove_runs|]. intros fs1 [Hok1 Hv1 Hd1].
    assert (Hc1 : data_at fs1 users = Some c) by (rewrite Hv1; at_path; exact Hc).
    destruct (us_open_runs users old_nk (set_fs fs1 w) c1) as (fs2 & E2 & [Hok2 Hv2 Hd2]); [done|cbn; by rewrite Hd1|cbn; rewrite Hc1; exact Hu1|]. cbn [set_fs s_fs] in *.
    assert (Hrest : runs (records ← export_raw users old_nk; _ ← us_open tmp new_nk; _ ← import_raw tmp new_nk records; install_users kio tmp users) (set_fs fs2 w) tt
      (put_at users c3 (drop_at tmp (data_at (s_fs w))))).
    { eapply runs_bind; [eapply with_users_runs; [done|cbn; rewrite Hv2; at_path; done|exact Hl]|]. intros fs3 [Hok3 Hv3 Hd3]. cbn [set_fs s_fs] in *.
      assert (Ht3 : data_at fs3 tmp = None) by (rewrite Hv3, Hv2; at_path; rewrite Hv1; by at_path).
      eapply runs_bind; [apply us_open_runs; [done|cbn; by rewrite Hd3, Hd2, Hd1|cbn; rewrite Ht3; exact Hu2]|]. intros fs4 [Hok4 Hv4 Hd4]. cbn [set_fs s_fs] in *.
      eapply runs_bind; [eapply import_runs; [done|cbn; rewrite Hv4; at_path; done|exact Hi]|]. intros fs5 [Hok5 Hv5 Hd5]. cbn [set_fs s_fs] in *.
      eapply runs_view; [eapply (install_runs _ _ _ _ c3); [done|cbn; rewrite Hv5; at_path; done|cbn; by rewrite Hd5, Hd4, Hd3, Hd2, Hd1|done]|].
      intros q. cbn [set_fs s_fs]. unfold put_at, drop_at. case_decide as Hqu; [done|]. case_decide as Hqt; [done|].
      rewrite Hv5. at_path. rewrite Hv4. at_path. rewrite Hv3, Hv2. at_path. rewrite Hv1. by at_path. }
    destruct Hrest as (fs3 & E3 & [Hok3 Hv3 Hd3]). exists fs3. unfold match_res. rewrite E2. split; [exact E3|]. split; [done|done|]. rewrite Hd3. cbn. by rewrite Hd2.
Qed.

(** Re-keying the user store keeps every user. The store is sealed under the new node key
    afterwards with the same records, whatever an earlier attempt left behind, and doing it
    again, as a resumed rotation does, changes nothing. *)
Theorem rekey_keeps_users (dir : list string) (old_nk new_nk : bytes) (w : Store) (m : gmap string bytes) :
  fs_ok (s_fs w) -> dir ∈ fs_dirs (s_fs w) -> users_are old_nk (data_at (s_fs w)) dir m ->
  sealed_apart (derive_user_store_file_key new_nk) (derive_user_store_file_key old_nk) ->
  exists w', rekey_user_store dir old_nk new_nk w = (Ok tt, w') /\ users_are new_nk (data_at (s_fs w')) dir m /\
    exists w'', rekey_user_store dir old_nk new_nk w' = (Ok tt, w'') /\ users_are new_nk (data_at (s_fs w'')) dir m /\
    forall q, q <> users_path dir -> q <> with_extension (users_path dir) "rekeying" -> data_at (s_fs w'') q = data_at (s_fs w) q.
Proof using UL.
  intros Hok Hdir (c & Hc & Hm) Hap. destruct (rekey_first dir old_nk new_nk w m c Hok Hdir Hc Hm) as (c3 & Hm3 & fs' & E & [Hok' Hv' Hd']). exists (set_fs fs' w). split; [done|].
  assert (Hnew : users_are new_nk (data_at fs') dir m) by (exists c3; rewrite Hv'; by at_path).
  split; [done|]. destruct (rekey_again dir old_nk new_nk (set_fs fs' w) m) as (w'' & E'' & Hu'' & Hq''); [done|cbn; by rewrite Hd'|done|done|]. exists w''. split_and!; [done|done|].
  intros q Hq Ht. rewrite Hq'' by done. cbn. rewrite Hv'. by at_path.
Qed.

(** ** The manifest *)

(** The manifest is the one of the node key. *)
Definition manifest_for (nk : bytes) (view : fpath -> option bytes) (dir : list string) : Prop :=
  exists raw m, view (manifest_path dir) = Some raw /\ manifest_from_slice raw = Ok m /\ format_version m = KEYSTORE_FORMAT_VERSION /\
    node_key_verifier_b64 m = b64_encode (derive_node_key_verifier nk).

Lemma read_manifest_runs p w raw m : fs_ok (s_fs w) -> data_at (s_fs w) p = Some raw -> manifest_from_slice raw = Ok m ->
  runs (read_manifest p) w m (data_at (s_fs w)).
Proof using.
  intros Hok Hr Hm. unfold read_manifest. eapply runs_bind; [eapply io_runs; [by apply fs_read_ok|by split]|]. intros fs1 [Hok1 Hv1 _].
  eapply runs_view; [apply runs_lift; [by rewrite Hm|done]|exact Hv1].
Qed.

(** What [verify_node_key] answers on a keystore with a manifest. *)
Lemma verify_runs dir nk nk' w : fs_ok (s_fs w) -> manifest_for nk (data_at (s_fs w)) dir -> data_at (s_fs w) (legacy_pubkey_path dir) = None ->
  exists fs', shows fs' (data_at (s_fs w)) (fs_dirs (s_fs w)) /\
    verify_node_key dir nk' w = (if bool_decide (derive_node_key_verifier nk = derive_node_key_verifier nk') then Ok tt else Err NodeKeyMismatch, set_fs fs' w).
Proof using BL.
  intros Hok (raw & m & Hr & Hm & Hv & Hb) Hleg. unfold verify_node_key. cbv zeta.
  destruct (exists_runs (legacy_pubkey_path dir) w Hok) as (fs1 & E1 & [Hok1 Hv1 Hd1]). rewrite Hleg, bool_decide_eq_false_2 in E1 by (by intros []). erewrite prog_bind_run by exact E1. cbv iota.
  destruct (exists_runs (manifest_path dir) (set_fs fs1 w) Hok1) as (fs2 & E2 & [Hok2 Hv2 Hd2]). cbn [set_fs s_fs] in *. rewrite Hv1, Hr, bool_decide_eq_true_2 in E2 by eauto. erewrite prog_bind_run by exact E2. cbn [negb].
  destruct (read_manifest_runs (manifest_path dir) (set_fs fs2 w) raw m Hok2) as (fs3 & E3 & [Hok3 Hv3 Hd3]); [cbn; by rewrite Hv2, Hv1|done|]. erewrite prog_bind_run by exact E3.
  rewrite Hv, Z.eqb_refl, Hb, b64_decode_encode. cbn [negb ok_or]. erewrite prog_bind_run by reflexivity. cbn [set_fs s_fs] in *.
  exists fs3. split; [split; [done|intros q; by rewrite Hv3, Hv2, Hv1|by rewrite Hd3, Hd2, Hd1]|]. by case_bool_decide.
Qed.

Lemma plaintext_runs p w : fs_ok (s_fs w) -> (data_at (s_fs w) p = None \/ exists k c m, data_at (s_fs w) p = Some c /\ uf_view k c = Some m) ->
  runs (is_plaintext_user_store p) w false (data_at (s_fs w)).
Proof using.
  intros Hok [Hn|(k & c & m & Hc & Hm)]; unfold is_plaintext_user_store.
  - assert (E : fs_open p (s_fs w) = (Err NoEntry, s_fs w)) by (unfold fs_open, mbind, prog_bind; rewrite sys_ok by done; unfold gets, lift_res; by rewrite Hn).
    eapply runs_bind; [eapply io_runs; [unfold match_res; rewrite E; reflexivity|by split]|]. intros fs1 [Hok1 Hv1 _]. eapply runs_view; [by apply runs_ret|exact Hv1].
  - assert (E : fs_open p (s_fs w) = (Ok c, s_fs w)) by (unfold fs_open, mbind, prog_bind; rewrite sys_ok by done; unfold gets, lift_res; by rewrite Hc).
    eapply runs_bind; [eapply io_runs; [unfold match_res; rewrite E; reflexivity|by split]|]. intros fs1 [Hok1 Hv1 Hd1]. cbv iota.
    eapply runs_bind; [eapply io_runs; [by apply sys_ok|by split]|]. intros fs2 [Hok2 Hv2 Hd2]. cbv zeta. rewrite (uf_magic _ _ _ Hm).
    eapply runs_view; [by apply runs_ret|]. exact Hv2.
Qed.

(** Opening a keystore whose user store is there, or was never made. *)
Lemma load_runs dir nk w m : fs_ok (s_fs w) -> dir ∈ fs_dirs (s_fs w) -> manifest_for nk (data_at (s_fs w)) dir -> data_at (s_fs w) (legacy_pubkey_path dir) = None ->
  (users_are nk (data_at (s_fs w)) dir m \/ data_at (s_fs w) (users_path dir) = None /\ m = ∅) ->
  exists c, uf_view (derive_user_store_file_key nk) c = Some m /\ runs (load dir nk) w tt (put_at (users_path dir) c (data_at (s_fs w))).
Proof using BL UL.
  intros Hok Hdir Hman Hleg Hus.
  assert (Hopen : exists c, uf_open (derive_user_store_file_key nk) (default [] (data_at (s_fs w) (users_path dir))) = Ok c /\ uf_view (derive_user_store_file_key nk) c = Some m).
  { destruct Hus as [(c & -> & Hm)|[-> ->]]; [by apply uf_open_view|apply uf_open_new]. }
  destruct Hopen as (c & Hu & Hm). exists c. split; [done|]. unfold load.
  destruct (verify_runs dir nk nk w Hok Hman Hleg) as (fs1 & Hs1 & E1). rewrite bool_decide_eq_true_2 in E1 by done. eapply runs_bind; [by exists fs1|].
  intros fs2 [Hok2 Hv2 Hd2]. eapply runs_bind; [apply plaintext_runs; [done|]|].
  { cbn. rewrite Hv2. destruct Hus as [(c0 & Hc0 & Hm0)|[Hn _]]; [right; eauto|by left]. }
  intros fs3 [Hok3 Hv3 Hd3]. cbn [set_fs s_fs] in *. eapply runs_bind; [by apply runs_ret|]. intros fs4 [Hok4 Hv4 Hd4]. cbn [set_fs s_fs] in *.
  eapply runs_view; [apply (us_open_runs _ _ _ c); [done|cbn; by rewrite Hd4, Hd3, Hd2|cbn; rewrite Hv4, Hv3, Hv2; exact Hu]|].
  intros q. cbn. unfold put_at. case_decide; [done|]. by rewrite Hv4, Hv3, Hv2.
Qed.

(** ** The first run *)

Lemma ensure_dir_runs dir w : fs_ok (s_fs w) -> dir ∈ fs_dirs (s_fs w) -> runs (ensure_keystore_dir dir) w false (data_at (s_fs w)).
Proof using.
  intros Hok Hd. unfold ensure_keystore_dir. cbv zeta. destruct (fs_create_dir_all_ok (s_fs w) (parent_dir dir) Hok) as (fs1 & E1 & [Hok1 Hv1 Hd1]).
  assert (Hsame : fs_dirs (s_fs w) ∪ list_to_set (ancestors (parent_dir dir)) = fs_dirs (s_fs w)).
  { rewrite (comm_L (∪)). apply subseteq_union_L. intros x (n & _ & ->)%elem_of_list_to_set%elem_of_ancestors%below_take. apply (fo_closed _ Hok dir); [done|].
    unfold parent_dir. rewrite take_take. apply below_take_l. }
  eapply runs_bind; [eapply io_runs; [exact E1|split; [done|exact Hv1|by rewrite Hd1]]|]. intros fs2 [Hok2 Hv2 Hd2].
  eapply runs_bind; [eapply io_runs; [by apply sys_ok|by split]|]. intros fs3 [Hok3 Hv3 Hd3]. cbn [set_fs s_fs] in *. eapply runs_bind; [by apply runs_gets|]. intros fs4 [Hok4 Hv4 Hd4]. cbn [set_fs s_fs] in *.
  rewrite bool_decide_eq_true_2 by (by rewrite Hd3, Hd2). eapply runs_view; [by apply runs_ret|]. intros q. cbn. by rewrite Hv4, ?Hv3, ?Hv2.
Qed.

(** A keystore with a manifest is not made again. *)
Lemma first_run_refused dir u params nk w raw : fs_ok (s_fs w) -> dir ∈ fs_dirs (s_fs w) -> data_at (s_fs w) (manifest_path dir) = Some raw ->
  is_ok (fst (first_run dir u params nk w)) = false.
Proof using.
  intros Hok Hd Hm. unfold first_run. destruct (ensure_dir_runs dir w Hok Hd) as (fs1 & E1 & [Hok1 Hv1 Hd1]). erewrite prog_bind_run by exact E1.
  destruct (exists_runs (manifest_path dir) (set_fs fs1 w) Hok1) as (fs2 & E2 & _). cbn [set_fs s_fs] in *. rewrite Hv1, Hm, bool_decide_eq_true_2 in E2 by eauto. by erewrite prog_bind_run by exact E2.
Qed.

(** A first run that breaks off between the manifest and the user store locks everyone
    out. The next start finds the manifest, opens an empty user store and succeeds, with no
    account in it, and a first run is refused from then on. *)
Theorem interrupted_first_run (dir : list string) (u : string) (params : Argon2Params) (nk : bytes) (w : Store) :
  fs_ok (s_fs w) -> dir ∈ fs_dirs (s_fs w) -> manifest_for nk (data_at (s_fs w)) dir ->
  data_at (s_fs w) (users_path dir) = None -> data_at (s_fs w) (legacy_pubkey_path dir) = None ->
  exists w', load dir nk w = (Ok tt, w') /\ users_are nk (data_at (s_fs w')) dir ∅ /\ is_ok (fst (first_run dir u params nk w')) = false.
Proof using BL UL.
  intros Hok Hd Hman Hus Hleg. destruct (load_runs dir nk w ∅ Hok Hd Hman Hleg) as (c & Hm & fs' & E & [Hok' Hv' Hd']); [by right|].
  exists (set_fs fs' w). split; [done|]. split; [exists c; cbn; rewrite Hv'; by at_path|]. destruct Hman as (raw & m & Hr & _).
  apply (first_run_refused _ _ _ _ _ raw); [done|cbn; by rewrite Hd'|cbn; rewrite Hv'; by at_path].
Qed.

(** A file opened empty, written and synced *)
Lemma write_synced_runs p (opened : fsop FileHandle) what b w :
  (forall fs, shows fs (data_at (s_fs w)) (fs_dirs (s_fs w)) -> exists fs1 i, opened fs = (Ok (mkFileHandle i 0), fs1) /\ fs_entries fs1 !! p = Some i /\
     shows fs1 (fun q => if decide (q = p) then Some [] else data_at fs q) (fs_dirs fs)) ->
  fs_ok (s_fs w) -> blen b <= 2 ^ 40 -> runs (write_synced p opened what b) w tt (put_at p b (data_at (s_fs w))).
Proof using.
  intros Hop Hok Hb. unfold write_synced. eapply runs_bind; [by apply runs_gets|]. intros fs0 Hs0. pose proof Hs0 as [Hok0 Hv0 Hd0]. cbn [set_fs s_fs s_now] in *.
  destruct (Hop fs0 Hs0) as (fs1 & i & E1 & Hi1 & [Hok1 Hv1 Hd1]).
  assert (Hw : exists fs2 pos, fs_write_all (mkFileHandle i 0) b (s_now w) fs1 = (Ok (mkFileHandle i pos), fs2) /\ fs_entries fs2 !! p = Some i /\ shows fs2 (put_at p b (data_at (s_fs w))) (fs_dirs fs1)).
  { destruct (decide (b = [])) as [->|Hne].
    - exists fs1, 0. split; [done|]. split; [done|]. split; [done| |done]. intros q. rewrite Hv1. unfold put_at. case_decide; [done|]. apply Hv0.
    - destruct (write_in_place fs1 p i [] 0 b (s_now w) Hok1 Hi1) as (fs2 & E2 & Hi2 & [Hok2 Hv2 Hd2]); [by rewrite Hv1, decide_True|done|unfold FILE_MAX; lia|].
      exists fs2, (0 + blen b). split; [done|]. split; [done|]. split; [done| |done]. intros q. rewrite Hv2. unfold put_at. case_decide; [change 0 with (blen ([] : bytes)); by rewrite overwrite_end|]. by rewrite Hv1, decide_False, Hv0. }
  destruct Hw as (fs2 & pos & E2 & Hi2 & [Hok2 Hv2 Hd2]). destruct (fs_sync_data_ok fs2 p (mkFileHandle i pos) Hok2 Hi2) as (fs3 & E3 & [Hok3 Hv3 Hd3]).
  exists fs3. erewrite prog_bind_run by (apply io_run; exact E1). erewrite prog_bind_run by (apply io_run; exact E2). split; [exact (io_run _ _ (set_fs fs2 w) _ _ E3)|].
  split; [done|intros q; by rewrite Hv3, Hv2|by rewrite Hd3, Hd2, Hd1].
Qed.

Definition root_record (u : string) (now : Z) (params : Argon2Params) (slots : list CredentialSlot) (primary : nat) : UserRecord :=
  mkUserRecord u now None params slots (Z.of_nat primary mod 256) Admin.

Lemma verifier_short nk : blen (as_bytes (b64_encode (derive_node_key_verifier nk))) <= 2 ^ 20.
Proof using BL HL. pose proof (b64_encode_len (derive_node_key_verifier nk)) as H. unfold derive_node_key_verifier, prf in *. rewrite hmac_sha256_len in H. change (4 * ((32 + 2) / 3)) with 44 in H. lia. Qed.

(** The files of a new keystore *)
Lemma first_run_writes dir u params nk w (pw : bytes) slots primary payload : fs_ok (s_fs w) -> dir ∈ fs_dirs (s_fs w) ->
  data_at (s_fs w) (manifest_path dir) = None -> data_at (s_fs w) (users_path dir) = None -> in_u 64 (s_now w) -> uf_record (root_record u (s_now w) params slots primary) = Ok payload ->
  let mf := mkKeystoreManifest KEYSTORE_FORMAT_VERSION (b64_encode (derive_node_key_verifier nk)) (s_now w) in
  exists raw c, manifest_from_slice raw = Ok mf /\ uf_view (derive_user_store_file_key nk) c = Some {[u := payload]} /\
    runs (_ ← write_manifest (manifest_path dir) mf; _ ← us_open (users_path dir) nk; now ← gets s_now;
      _ ← upsert_record (users_path dir) nk (root_record u now params slots primary); mret pw) w pw
    (put_at (users_path dir) c (put_at (manifest_path dir) raw (data_at (s_fs w)))).
Proof using BL HL KL UL.
  intros Hok Hd Hnm Hnu Hnow Hrec mf. destruct (manifest_written mf) as (raw & Hraw & Hrt & Hsmall); [split_and!; [done|done|apply verifier_short]|]. destruct (uf_open_new (derive_user_store_file_key nk)) as (c0 & Hu0 & Hm0).
  destruct (uf_insert_view _ _ _ [(u, payload)] Hm0) as (c & Hi & Hc); [apply NoDup_singleton|]. exists raw, c.
  assert (Hwm : runs (write_manifest (manifest_path dir) mf) w tt (put_at (manifest_path dir) raw (data_at (s_fs w)))).
  { unfold write_manifest. rewrite Hraw. cbn [map_err]. eapply runs_bind; [by apply runs_lift|]. intros fs1 [Hok1 Hv1 Hd1]. eapply runs_bind; [by apply runs_gets|]. intros fs2 [Hok2 Hv2 Hd2]. cbn [set_fs s_fs set_rng] in *.
    eapply runs_view; [apply write_synced_runs; [|done|done]|].
    { intros fs [Hok3 Hv3 Hd3]. cbn [set_fs s_fs] in *. apply fs_create_new_ok; [done|by rewrite Hd3, Hd2, Hd1|by rewrite Hv3, Hv2, ?Hv1]. }
    intros q. unfold put_at. cbn. case_decide; [done|]. by rewrite Hv2, ?Hv1. }
  assert (Hmu : manifest_path dir <> users_path dir) by done. assert (Hum : users_path dir <> manifest_path dir) by done.
  split; [done|]. split; [by rewrite (right_id_L ∅ (∪)) in Hc|]. eapply runs_bind; [exact Hwm|]. intros fs1 [Hok1 Hv1 Hd1]. cbn [set_fs s_fs set_rng] in *.
    eapply runs_bind; [apply (us_open_runs _ _ _ c0); [done|cbn; by rewrite Hd1|cbn; rewrite Hv1; at_path; by rewrite Hnu]|]. intros fs2 [Hok2 Hv2 Hd2]. cbn [set_fs s_fs] in *.
    eapply runs_bind; [by apply runs_gets|]. intros fs3 [Hok3 Hv3 Hd3]. cbn [set_fs s_fs s_now set_rng] in *. 
    assert (Hup : runs (upsert_record (users_path dir) nk (root_record u (s_now w) params slots primary)) (set_fs fs3 w) tt (put_at (users_path dir) c (put_at (manifest_path dir) raw (data_at (s_fs w))))).
    { unfold upsert_record. cbn [ur_username root_record]. rewrite Hrec. cbn [map_err]. eapply runs_bind; [by apply runs_lift|]. intros fs4 [Hok4 Hv4 Hd4]. cbn [set_fs s_fs] in *.
      eapply runs_view; [apply (import_runs _ _ _ _ c0 c); [done|cbn; rewrite Hv4, ?Hv3, Hv2; by at_path|done]|]. intros q. unfold put_at at 1 2. cbn. case_decide; [done|]. rewrite Hv4, ?Hv3, Hv2. unfold put_at at 1. rewrite decide_False by done. apply Hv1. }
    eapply runs_bind; [exact Hup|]. intros fs5 [Hok5 Hv5 Hd5]. eapply runs_view; [by apply runs_ret|exact Hv5].
Qed.

(** What the first run leaves. *)
Lemma first_run_leaves dir u params nk w pw r1 slots primary r2 payload : fs_ok (s_fs w) -> dir ∈ fs_dirs (s_fs w) ->
  data_at (s_fs w) (manifest_path dir) = None -> data_at (s_fs w) (users_path dir) = None -> in_u 64 (s_now w) ->
  fill_bytes (s_rng w) 24 = (pw, r1) -> new_slots_random u (as_bytes (b64url_encode pw)) params Admin false r1 = Ok (slots, primary, r2) ->
  uf_record (root_record u (s_now w) params slots primary) = Ok payload ->
  exists raw c fs', first_run dir u params nk w = (Ok (as_bytes (b64url_encode pw)), set_rng r2 (set_fs fs' w)) /\
    shows fs' (put_at (users_path dir) c (put_at (manifest_path dir) raw (data_at (s_fs w)))) (fs_dirs (s_fs w)) /\
    manifest_from_slice raw = Ok (mkKeystoreManifest KEYSTORE_FORMAT_VERSION (b64_encode (derive_node_key_verifier nk)) (s_now w)) /\
    uf_view (derive_user_store_file_key nk) c = Some {[u := payload]}.
Proof using BL HL KL UL.
  intros Hok Hd Hnm Hnu Hnow Hfill Hslots Hrec. destruct (ensure_dir_runs dir w Hok Hd) as (fs1 & E1 & [Hok1 Hv1 Hd1]).
  destruct (exists_runs (manifest_path dir) (set_fs fs1 w) Hok1) as (fs2 & E2 & [Hok2 Hv2 Hd2]). cbn [set_fs s_fs] in *. rewrite Hv1, Hnm, bool_decide_eq_false_2 in E2 by (by intros []).
  destruct (first_run_writes dir u params nk (set_rng r2 (set_fs fs2 w)) (as_bytes (b64url_encode pw)) slots primary payload) as (raw & c & Hraw & Hc & fs3 & E3 & [Hok3 Hv3 Hd3]); cbn [set_rng set_fs s_fs s_now] in *;
    [done|by rewrite Hd2, Hd1|by rewrite Hv2, ?Hv1|by rewrite Hv2, ?Hv1|done|done|].
  exists raw, c, fs3. split_and!; [|split; [done| |by rewrite Hd3, Hd2, Hd1]|done|done].
  - unfold first_run. erewrite prog_bind_run by exact E1. erewrite prog_bind_run by exact E2. cbv iota.
    unfold generate_root_password. erewrite prog_bind_run by (unfold draw; cbn [set_fs s_rng]; rewrite Hfill; reflexivity). erewrite prog_bind_run by (unfold draw; cbn [set_rng s_rng]; rewrite Hslots; reflexivity).
    cbv beta iota. erewrite prog_bind_run by reflexivity. exact E3.
  - intros q. rewrite Hv3. unfold put_at. repeat case_decide; [done|done|]. by rewrite Hv2, ?Hv1.
Qed.

(** A keystore opens with its node key and with no other. After a first run, which answers
    the root password, [load] with the same node key succeeds and finds exactly the root
    account, with any other node key it reports the mismatch, and a second first run is
    refused. *)
Theorem first_run_then_load (dir : list string) (u : string) (params : Argon2Params) (nk : bytes) (w : Store) (pw : bytes) (r1 r2 : rng) (slots : list CredentialSlot) (primary : nat) (payload : bytes) :
  fs_ok (s_fs w) -> dir ∈ fs_dirs (s_fs w) ->
  data_at (s_fs w) (manifest_path dir) = None -> data_at (s_fs w) (users_path dir) = None -> data_at (s_fs w) (legacy_pubkey_path dir) = None -> in_u 64 (s_now w) ->
  fill_bytes (s_rng w) 24 = (pw, r1) -> new_slots_random u (as_bytes (b64url_encode pw)) params Admin false r1 = Ok (slots, primary, r2) ->
  uf_record (root_record u (s_now w) params slots primary) = Ok payload ->
  exists w', first_run dir u params nk w = (Ok (as_bytes (b64url_encode pw)), w') /\
    (exists w'', load dir nk w' = (Ok tt, w'') /\ users_are nk (data_at (s_fs w'')) dir {[u := payload]}) /\
    (forall nk', derive_node_key_verifier nk' <> derive_node_key_verifier nk -> fst (load dir nk' w') = Err NodeKeyMismatch) /\
    is_ok (fst (first_run dir u params nk w')) = false.
Proof using BL HL KL UL.
  intros Hok Hd Hnm Hnu Hleg Hnow Hfill Hslots Hrec.
  destruct (first_run_leaves dir u params nk w pw r1 slots primary r2 payload Hok Hd Hnm Hnu Hnow Hfill Hslots Hrec) as (raw & c & fs' & E & [Hok' Hv' Hd'] & Hraw & Hc).
  set (w' := set_rng r2 (set_fs fs' w)) in *. exists w'. assert (Hm1 : manifest_path dir <> users_path dir) by done.
  assert (Hman : manifest_for nk (data_at (s_fs w')) dir) by (exists raw; eexists; split_and!; [cbn; rewrite Hv'; by at_path|exact Hraw|done|done]).
  assert (Hl' : data_at (s_fs w') (legacy_pubkey_path dir) = None) by (cbn; rewrite Hv'; by at_path). split_and!; [done| | |].
  - destruct (load_runs dir nk w' {[u := payload]}) as (c' & Hc' & fs2 & E2 & [Hok2 Hv2 Hd2]); [done|cbn; by rewrite Hd'|done|done|left; exists c; split; [cbn; rewrite Hv'; by at_path|done]|].
    eexists. split; [exact E2|]. exists c'. split; [cbn; rewrite Hv2; by at_path|done].
  - intros nk' Hne. destruct (verify_runs dir nk nk' w' Hok' Hman Hl') as (fs2 & _ & E2). rewrite bool_decide_eq_false_2 in E2 by congruence. unfold load. by erewrite prog_bind_fails by exact E2.
  - apply (first_run_refused _ _ _ _ _ raw); [done|cbn; by rewrite Hd'|cbn; rewrite Hv'; by at_path].
Qed.

End spec.
