(* ===== verification/NodeKeyRotation.v ===== *)
(** * The rotation run

    Models y2qd/src/node_key_rotation.rs (the run with operator-supplied keys, and the header
    upgrade) and the check of the rotation journal at the start of y2qd/src/lib.rs: the
    journal, the walk over the object tree, the new index, the user store and the
    manifest, in that order.

    A [Node] is a store and the file of its index: the file key it is sealed under and its
    tables.  The loading of the two keys and the lock of another process are arguments; the
    run with a device registry is not modelled. *)

From S2P Require Import Prelude Effects Primitives Types Format Crypto NodeKeys Sink Slots BucketKeys Lex Query Index IndexSpec Locks Posix FsView Filesystem FilesystemSpec FilesystemSafety Rebuild NodeRotation NodeRotationSpec EncryptedFile Keystore KeystoreSpec.
Import FilesystemStorage.

Section run.
Context {B : Base64Ops} {T : TokenOps} {HO : HashOps} {R : RngOps} {RR : RandomRange} {A : AeadOps} {KE : KemOps} {AR : Argon2Ops} {X : Xxh3Ops}.
Context {RD : RedbOps} {J : MetadataJson} {KJ : KeystoreJson} {UF : UserFileOps} {U : UnicodeOps} {CJ : ConfigJson}.
(** The tables of a database just created. *)
Context (empty_tables : MetaIndex.IndexDb).

Record Node : Type := mkNode { n_store : Store; n_index : option (bytes * MetaIndex.IndexDb) }.
Abbreviation node := (prog Node string).

Definition set_store (w : Store) (n : Node) : Node := mkNode w (n_index n).
Definition set_index_file (o : option (bytes * MetaIndex.IndexDb)) (n : Node) : Node := mkNode (n_store n) o.

(** A call on the store; what it commits to the open index is in the index file. *)
Definition on_store {E V} (f : E -> string) (m : prog Store E V) : node V := fun n =>
  let '(r, w) := m (n_store n) in
  (map_err f r, mkNode w (match n_index n, MetaIndex.idx_db (s_index w) with Some (k, _), Some d => Some (k, d) | o, _ => o end)).

Definition INTERRUPTED_MESSAGE : string := "node key rotation was interrupted; re-run y2qd --rotate-node-key to finish it".
Definition JOURNAL_MISMATCH_MESSAGE : string :=
  "an interrupted rotation's journal names a different key pair than the one supplied; supply the exact same old and new keys to resume it".

(** [MetadataIndex::open_db]: an index under another key does not open. *)
Definition open_db (nk : bytes) (o : option (bytes * MetaIndex.IndexDb)) : option MetaIndex.IndexDb * option (bytes * MetaIndex.IndexDb) :=
  match o with
  | None => (Some empty_tables, Some (derive_index_file_key nk, empty_tables))
  | Some (k, d) => if bool_decide (k = derive_index_file_key nk) then (Some d, o) else (None, o)
  end.

(** [FilesystemStorage::new] and [install_node_key] *)
Definition open_storage (nk : bytes) : node unit := fun n =>
  let '(db, o) := open_db nk (n_index n) in
  let w := install_node_key nk (n_store n) in
  (Ok tt, mkNode (set_rebuild Idle (set_index (MetaIndex.mkMetadataIndex db) w)) o).

Definition list_node_buckets (fuel : nat) : node (list string) := fun n =>
  match list_buckets_union fuel (s_index (n_store n)) with
  | Some r => (map_err Error_display r, n)
  | None => (Err "out of fuel", n)
  end.

(** The new index: the old file goes, a store with the new key rebuilds it, and the run waits
    for the task. *)
Definition rebuild_index (new_nk : bytes) : node unit :=
  _ ← (fun n => match sys (s_fs (n_store n)) with
                | (Ok _, fs) => (Ok tt, mkNode (set_fs fs (n_store n)) None)
                | (Err _, fs) => (Ok tt, set_store (set_fs fs (n_store n)) n)
                end);
  _ ← open_storage new_nk;
  '(mek, chk) ← on_store (fun e => "start index rebuild: " +:+ Error_display e) rebuild_cache;
  _ ← on_store (fun e => e) (rebuild_task mek chk);
  st ← on_store Error_display rebuild_progress;
  match st with
  | Completed => mret tt
  | Failed msg => throw ("index rebuild failed: " +:+ msg)
  | _ => throw "still running"
  end.

(** The buckets to walk, or [None] when the index is the new one already. *)
Definition buckets_needing_walk (fuel : nat) (old_nk new_nk : bytes) : node (option (list string)) :=
  _ ← open_storage old_nk;
  match_res (list_node_buckets fuel) (fun l => mret (Some l))
    (fun _ =>
       _ ← open_storage new_nk;
       match_res (list_node_buckets fuel) (fun _ => mret None)
         (fun _ =>
            missing ← gets (fun n => bool_decide (n_index n = None));
            if missing : bool then mret None
            else throw "the metadata index opens under neither the old nor the new node key")).

Definition migrate (fuel : nat) (base keystore_dir : list string) (old_nk new_nk : bytes) : node unit :=
  o ← buckets_needing_walk fuel old_nk new_nk;
  _ ← (match o with
       | Some buckets => _ ← on_store (fun e => "rotate storage tree: " +:+ Error_display e) (rotate_storage_tree base buckets (rotation_keys old_nk new_nk)); mret tt
       | None => mret tt
       end);
  _ ← rebuild_index new_nk;
  on_store (fun e => "re-key user store: " +:+ CryptoError_display e) (rekey_user_store keystore_dir old_nk new_nk).

Definition finish (keystore_dir : list string) (new_nk : bytes) : node unit :=
  _ ← on_store (fun e => "rewrite keystore verifier: " +:+ CryptoError_display e) (rewrite_verifier keystore_dir new_nk);
  on_store (fun e => "delete rotation journal: " +:+ CryptoError_display e) (delete_rotation_journal keystore_dir).

(** The journal of an earlier run has to name the same keys. *)
Definition check_journal (keystore_dir : list string) (old_nk new_nk : bytes) : node unit :=
  o ← on_store CryptoError_display (read_rotation_journal keystore_dir);
  match o with
  | Some journal =>
      let old_v := b64_encode (derive_node_key_verifier old_nk) in
      let new_v := b64_encode (derive_node_key_verifier new_nk) in
      if bool_decide (old_verifier_b64 journal <> old_v) || bool_decide (new_verifier_b64 journal <> new_v)
      then throw JOURNAL_MISMATCH_MESSAGE else mret tt
  | None => on_store CryptoError_display (write_rotation_journal keystore_dir old_nk new_nk)
  end.

Definition run (fuel : nat) (held : bool) (base keystore_dir : list string) (old new : result CryptoError bytes) : node unit :=
  _ ← on_store CryptoError_display (acquire_lock held keystore_dir);
  old_nk ← lift_res (map_err (fun e => "old node key: " +:+ CryptoError_display e) old);
  new_nk ← lift_res (map_err (fun e => "new node key: " +:+ CryptoError_display e) new);
  if bool_decide (old_nk = new_nk) then throw "--rotate-node-key: the new node key canonicalizes to the same 32 bytes as the old one" else
  _ ← on_store (fun e => "verify old node key against keystore: " +:+ CryptoError_display e) (verify_node_key keystore_dir old_nk);
  _ ← check_journal keystore_dir old_nk new_nk;
  _ ← migrate fuel base keystore_dir old_nk new_nk;
  finish keystore_dir new_nk.

Definition upgrade_headers (fuel : nat) (base keystore_dir : list string) (nk : bytes) : node unit :=
  _ ← on_store (fun e => "verify node key against keystore: " +:+ CryptoError_display e) (verify_node_key keystore_dir nk);
  _ ← open_storage nk;
  buckets ← list_node_buckets fuel;
  _ ← on_store (fun e => "upgrade container headers: " +:+ Error_display e)
        (upgrade_container_headers base buckets (derive_path_key nk) (derive_container_header_key nk));
  mret tt.

(** How the daemon starts: it refuses while a rotation is not finished. *)
Definition refuse_interrupted (keystore_dir : list string) : node unit :=
  there ← on_store CryptoError_display (rotation_journal_exists keystore_dir);
  if there : bool then throw INTERRUPTED_MESSAGE else mret tt.

End run.
