(* ===== verification/NodeKeyRotationSpec.v ===== *)
(** * What a rotation run leaves

    A run that breaks off between the new manifest and the removal of its journal cannot be
    finished with any keys, and the daemon refuses to start from then on; and the index a run
    rebuilds has lost the buckets without objects. *)

From S2P Require Import Prelude Effects Primitives Types Format Crypto NodeKeys Sink Slots BucketKeys Lex Query Index IndexSpec Locks Posix FsView Filesystem FilesystemSpec FilesystemSafety NodeRotation Rebuild NodeRotationSpec EncryptedFile Keystore KeystoreSpec NodeKeyRotation.
Import FilesystemStorage.

(** ** The keystore's part *)

Section journal.
Context {B : Base64Ops} {T : TokenOps} {HO : HashOps} {R : RngOps} {RR : RandomRange} {A : AeadOps} {KE : KemOps} {AR : Argon2Ops}.
Context {RD : RedbOps} {KJ : KeystoreJson} {BL : Base64Laws} {HL : HashLaws} {KL : KeystoreJsonLaws}.

Lemma acquire_lock_runs held dir w : fs_ok (s_fs w) -> dir ∈ fs_dirs (s_fs w) ->
  exists r fs', acquire_lock held dir w = (r, set_fs fs' w) /\ (held = true -> is_ok r = false) /\ (held = false -> r = Ok tt) /\
    shows fs' (put_at (lock_path dir) (default [] (data_at (s_fs w) (lock_path dir))) (data_at (s_fs w))) (fs_dirs (s_fs w)).
Proof using.
  intros Hok Hd. unfold acquire_lock. destruct (ensure_dir_runs dir w Hok Hd) as (fs1 & E1 & [Hok1 Hv1 Hd1]). erewrite prog_bind_run by exact E1.
  erewrite prog_bind_run by reflexivity. cbn [set_fs s_now].
  destruct (fs_open_create_ok fs1 (lock_path dir) (s_now w) Hok1) as (fs2 & E2 & [Hok2 Hv2 Hd2]); [by rewrite Hd1|]. rewrite Hv1 in *.
  erewrite prog_bind_run by (apply io_run; exact E2). erewrite prog_bind_run by (apply io_run; by apply sys_ok).
  exists (if held then Err (KeystoreIo ("another y2qd already holds " +:+ path_display (lock_path dir))) else Ok tt), fs2.
  split_and!; [by destruct held|by intros ->|by intros ->|]. split; [done| |by rewrite Hd2, Hd1]. intros q. rewrite Hv2. unfold put_at. case_decide; [done|]. apply Hv1.
Qed.

(** The journal of an interrupted run names these keys. *)
Definition journal_for (old_nk new_nk : bytes) (view : fpath -> option bytes) (dir : list string) : Prop :=
  exists raw, view (rotation_journal_path dir) = Some raw /\
    journal_from_slice raw = Ok (mkRotationJournal (b64_encode (derive_node_key_verifier old_nk)) (b64_encode (derive_node_key_verifier new_nk))).

Lemma read_journal_runs dir old_nk new_nk w : fs_ok (s_fs w) -> journal_for old_nk new_nk (data_at (s_fs w)) dir ->
  runs (read_rotation_journal dir) w (Some (mkRotationJournal (b64_encode (derive_node_key_verifier old_nk)) (b64_encode (derive_node_key_verifier new_nk)))) (data_at (s_fs w)).
Proof using.
  intros Hok (raw & Hr & Hj). unfold read_rotation_journal. cbv zeta. eapply runs_bind; [by apply exists_runs|]. intros fs1 [Hok1 Hv1 Hd1]. rewrite Hr, bool_decide_eq_true_2 by eauto. cbn [negb].
  eapply runs_bind; [eapply io_runs; [apply fs_read_ok; [done|by rewrite Hv1]|by split]|]. intros fs2 [Hok2 Hv2 Hd2]. cbn [set_fs s_fs] in *.
  rewrite Hj. cbn [map_err]. eapply runs_bind; [by apply runs_lift|]. intros fs3 [Hok3 Hv3 Hd3]. cbn [set_fs s_fs] in *. eapply runs_view; [by apply runs_ret|].
  intros q. cbn. by rewrite Hv3, ?Hv2, ?Hv1.
Qed.

(** The manifest is the new key's afterwards; every other file is as it was. *)
Lemma rewrite_verifier_runs dir old_nk new_nk w : fs_ok (s_fs w) -> dir ∈ fs_dirs (s_fs w) -> manifest_for old_nk (data_at (s_fs w)) dir ->
  exists view, runs (rewrite_verifier dir new_nk) w tt view /\ manifest_for new_nk view dir /\
    forall q, q <> manifest_path dir -> q <> manifest_tmp dir -> view q = data_at (s_fs w) q.
Proof using BL HL KL.
  intros Hok Hd (raw & m & Hr & Hm & Hv & _). set (m' := mkKeystoreManifest (format_version m) (b64_encode (derive_node_key_verifier new_nk)) (km_created_at m)).
  destruct (manifest_parsed _ _ Hm) as [Hfv Hca]. destruct (manifest_written m') as (json & Hjson & Hrt & Hsmall); [split_and!; [done|done|apply verifier_short]|]. exists (put_at (manifest_path dir) json (drop_at (manifest_tmp dir) (data_at (s_fs w)))).
  assert (Hne : manifest_tmp dir <> manifest_path dir) by done. split_and!.
  - unfold rewrite_verifier. eapply runs_bind; [by eapply read_manifest_runs|]. intros fs1 [Hok1 Hv1 Hd1]. cbv zeta. fold m'. rewrite Hjson. cbn [map_err].
    eapply runs_bind; [by apply runs_lift|]. intros fs2 [Hok2 Hv2 Hd2]. eapply runs_bind; [by apply runs_gets|]. intros fs3 [Hok3 Hv3 Hd3]. cbn [set_fs s_fs] in *.
    eapply runs_bind; [apply (write_synced_runs (manifest_tmp dir)); [|done|done]|].
    { intros fs [Hok4 Hv4 Hd4]. cbn [set_fs s_fs] in *. apply fs_open_truncate_ok; [done|by rewrite Hd4, Hd3, Hd2, Hd1]. }
    intros fs4 [Hok4 Hv4 Hd4]. cbn [set_fs s_fs] in *.
    destruct (fs_rename_ok fs4 (manifest_tmp dir) (manifest_path dir) json Hok4) as (fs5 & E5 & [Hok5 Hv5 Hd5]); [rewrite Hv4; by at_path|by rewrite Hd4, Hd3, Hd2, Hd1|done|].
    eapply runs_view; [eapply io_runs; [exact E5|split; [done|exact Hv5|done]]|]. intros q. unfold put_at, drop_at. case_decide; [done|]. case_decide; [done|].
    rewrite Hv4. at_path. cbn. by rewrite ?Hv3, ?Hv2, ?Hv1.
  - exists json, m'. split_and!; [by at_path|done|done|done].
  - intros q Hq Ht. by at_path.
Qed.

Lemma b64_encode_inj a b : b64_encode a = b64_encode b -> a = b.
Proof using BL. intros E. apply (f_equal b64_decode) in E. rewrite !b64_decode_encode in E. congruence. Qed.

End journal.

(** ** A run that broke off at the end *)

Section stuck.
Context {B : Base64Ops} {T : TokenOps} {HO : HashOps} {R : RngOps} {RR : RandomRange} {A : AeadOps} {KE : KemOps} {AR : Argon2Ops} {X : Xxh3Ops}.
Context {RD : RedbOps} {J : MetadataJson} {KJ : KeystoreJson} {UF : UserFileOps} {U : UnicodeOps} {CJ : ConfigJson}.
Context {BL : Base64Laws} {HL : HashLaws} {KL : KeystoreJsonLaws}.
Context (empty_tables : MetaIndex.IndexDb).

(** The manifest names the key [k]; the journal is still there and says [old_nk] to [new_nk]. *)
Record journalled (k old_nk new_nk : bytes) (dir : list string) (w : Store) : Prop := mkJournalled {
  jo_fs : fs_ok (s_fs w);
  jo_dir : dir ∈ fs_dirs (s_fs w);
  jo_manifest : manifest_for k (data_at (s_fs w)) dir;
  jo_legacy : data_at (s_fs w) (legacy_pubkey_path dir) = None;
  jo_journal : journal_for old_nk new_nk (data_at (s_fs w)) dir;
}.

Lemma journalled_same k old_nk new_nk dir w fs' view : journalled k old_nk new_nk dir w -> shows fs' view (fs_dirs (s_fs w)) ->
  (forall q, q <> lock_path dir -> view q = data_at (s_fs w) q) -> journalled k old_nk new_nk dir (set_fs fs' w).
Proof using.
  intros [Hok Hd (raw & m & Hr & Hm) Hl (jr & Hj & Hjv)] [Hok' Hv' Hd'] Hq. constructor; cbn [set_fs s_fs]; [done|by rewrite Hd'| | |].
  - exists raw, m. split; [|done]. by rewrite Hv', Hq.
  - by rewrite Hv', Hq.
  - exists jr. split; [|done]. by rewrite Hv', Hq.
Qed.

Lemma on_store_ok {E V} (f : E -> string) (m : prog Store E V) n v w : m (n_store n) = (Ok v, w) -> exists o, on_store f m n = (Ok v, mkNode w o).
Proof using. intros H. unfold on_store. rewrite H. by eexists. Qed.
Lemma on_store_err {E V} (f : E -> string) (m : prog Store E V) n e w : m (n_store n) = (Err e, w) -> exists o, on_store f m n = (Err (f e), mkNode w o).
Proof using. intros H. unfold on_store. rewrite H. by eexists. Qed.

(** Each attempt: whether another process holds the lock, and the two keys that load. *)
Definition attempt : Type := bool * result CryptoError bytes * result CryptoError bytes.
Definition attempt_run (fuel : nat) (base dir : list string) (a : attempt) : prog Node string unit := let '(held, old, new) := a in run empty_tables fuel held base dir old new.
Fixpoint after_attempts (fuel : nat) (base dir : list string) (l : list attempt) (n : Node) : Node :=
  match l with [] => n | a :: l => after_attempts fuel base dir l (snd (attempt_run fuel base dir a n)) end.

Lemma check_journal_refuses old_nk new_nk dir n k a b : journalled k old_nk new_nk dir (n_store n) -> derive_node_key_verifier a <> derive_node_key_verifier old_nk ->
  exists n', check_journal dir a b n = (Err JOURNAL_MISMATCH_MESSAGE, n') /\ journalled k old_nk new_nk dir (n_store n').
Proof using BL.
  intros Hj Ha. destruct (read_journal_runs dir old_nk new_nk (n_store n) (jo_fs _ _ _ _ _ Hj) (jo_journal _ _ _ _ _ Hj)) as (fs1 & E1 & Hs1). unfold check_journal.
  destruct (on_store_ok CryptoError_display _ _ _ _ E1) as [o Eo]. erewrite prog_bind_run by exact Eo. cbv beta iota zeta. cbn [old_verifier_b64].
  rewrite (bool_decide_eq_true_2 (b64_encode (derive_node_key_verifier old_nk) <> _)) by (intros ?%b64_encode_inj; congruence). cbn [orb]. eexists. split; [reflexivity|].
  cbn [n_store]. by eapply journalled_same; [exact Hj|exact Hs1|].
Qed.

(** With the new manifest in place, no pair of keys gets past both checks. *)
Lemma attempt_fails fuel base dir old_nk new_nk a n : journalled new_nk old_nk new_nk dir (n_store n) -> derive_node_key_verifier old_nk <> derive_node_key_verifier new_nk ->
  exists e n', attempt_run fuel base dir a n = (Err e, n') /\ journalled new_nk old_nk new_nk dir (n_store n').
Proof using BL.
  intros Hj Hne. destruct a as [[held old] new]. unfold attempt_run, run. destruct (acquire_lock_runs held dir (n_store n) (jo_fs _ _ _ _ _ Hj) (jo_dir _ _ _ _ _ Hj)) as (r & fs1 & E1 & Ht & Hf & Hs1).
  assert (Hj1 : journalled new_nk old_nk new_nk dir (set_fs fs1 (n_store n))) by (eapply journalled_same; [exact Hj|exact Hs1|]; intros q Hq; unfold put_at; by rewrite decide_False).
  destruct r as [[]|e]; [|destruct (on_store_err CryptoError_display _ _ _ _ E1) as [o Eo]; eexists _, _; split; [by apply prog_bind_fails; exact Eo|done]].
  destruct (on_store_ok CryptoError_display _ _ _ _ E1) as [o Eo]. erewrite prog_bind_run by exact Eo.
  destruct old as [a|e]; [|by eexists _, _; split; [by apply prog_bind_fails|]]. erewrite prog_bind_run by reflexivity.
  destruct new as [b|e]; [|by eexists _, _; split; [by apply prog_bind_fails|]]. erewrite prog_bind_run by reflexivity.
  case_bool_decide; [by eexists _, _|]. set (n1 := mkNode _ o). change (set_fs fs1 (n_store n)) with (n_store n1) in Hj1.
  destruct (verify_runs dir new_nk a (n_store n1) (jo_fs _ _ _ _ _ Hj1) (jo_manifest _ _ _ _ _ Hj1) (jo_legacy _ _ _ _ _ Hj1)) as (fs2 & Hs2 & E2).
  assert (Hj2 : journalled new_nk old_nk new_nk dir (set_fs fs2 (n_store n1))) by (by eapply journalled_same; [exact Hj1|exact Hs2|]).
  case_bool_decide as Hv.
  - destruct (on_store_ok (fun e => "verify old node key against keystore: " +:+ CryptoError_display e) _ _ _ _ E2) as [o2 Eo2]. erewrite prog_bind_run by exact Eo2.
    destruct (check_journal_refuses old_nk new_nk dir (mkNode (set_fs fs2 (n_store n1)) o2) new_nk a b Hj2) as (n3 & E3 & Hj3); [congruence|].
    eexists _, n3. split; [by apply prog_bind_fails|done].
  - destruct (on_store_err (fun e => "verify old node key against keystore: " +:+ CryptoError_display e) _ _ _ _ E2) as [o2 Eo2]. eexists _, _. split; [by apply prog_bind_fails; exact Eo2|done].
Qed.

Lemma attempts_fail fuel base dir old_nk new_nk : derive_node_key_verifier old_nk <> derive_node_key_verifier new_nk ->
  forall l n, journalled new_nk old_nk new_nk dir (n_store n) -> journalled new_nk old_nk new_nk dir (n_store (after_attempts fuel base dir l n)).
Proof using BL.
  intros Hne l. induction l as [|a l IH]; intros n Hj; [done|]. cbn. destruct (attempt_fails fuel base dir old_nk new_nk a n Hj Hne) as (e & n' & E & Hj'). rewrite E. by apply IH.
Qed.

Lemma refuse_runs dir k old_nk new_nk n : journalled k old_nk new_nk dir (n_store n) -> fst (refuse_interrupted dir n) = Err INTERRUPTED_MESSAGE.
Proof using.
  intros [Hok _ _ _ (raw & Hr & _)]. unfold refuse_interrupted, rotation_journal_exists. destruct (exists_runs (rotation_journal_path dir) (n_store n) Hok) as (fs1 & E1 & _).
  rewrite Hr, bool_decide_eq_true_2 in E1 by eauto. destruct (on_store_ok CryptoError_display _ _ _ _ E1) as [o Eo]. by erewrite prog_bind_run by exact Eo.
Qed.

(** A rotation that is interrupted right after it put the new manifest in place cannot be
    finished. The journal is still there, so the daemon refuses to start and asks for the run
    to be repeated; but a repeated run verifies the old key against the manifest, which names
    the new one now, and compares the keys with the journal, which names the old one first:
    with whatever keys and however often it is tried, it fails. *)
Theorem interrupted_finish_stuck (fuel : nat) (base dir : list string) (old_nk new_nk : bytes) (n : Node) :
  journalled old_nk old_nk new_nk dir (n_store n) -> derive_node_key_verifier old_nk <> derive_node_key_verifier new_nk ->
  exists w, rewrite_verifier dir new_nk (n_store n) = (Ok tt, w) /\
    forall l, let n' := after_attempts fuel base dir l (set_store w n) in
      (forall held old new, is_ok (fst (run empty_tables fuel held base dir old new n')) = false) /\
      fst (refuse_interrupted dir n') = Err INTERRUPTED_MESSAGE.
Proof using BL HL KL.
  intros [Hok Hd Hm Hl (raw & Hr & Hj)] Hne. destruct (rewrite_verifier_runs dir old_nk new_nk (n_store n) Hok Hd Hm) as (view & (fs' & E & [Hok' Hv' Hd']) & Hm' & Hq).
  exists (set_fs fs' (n_store n)). split; [done|]. intros l. cbv zeta.
  assert (Hj' : journalled new_nk old_nk new_nk dir (n_store (set_store (set_fs fs' (n_store n)) n))).
  { constructor; cbn [set_store n_store set_fs s_fs]; [done|by rewrite Hd'| | |].
    - destruct Hm' as (raw' & m' & Hr' & Hm'). exists raw', m'. by rewrite Hv'.
    - by rewrite Hv', Hq.
    - exists raw. by rewrite Hv', Hq. }
  pose proof (attempts_fail fuel base dir old_nk new_nk Hne l _ Hj') as Hafter. split; [|by eapply refuse_runs].
  intros held old new. destruct (attempt_fails fuel base dir old_nk new_nk (held, old, new) _ Hafter Hne) as (e & n' & Ee & _). unfold attempt_run in Ee. by rewrite Ee.
Qed.

End stuck.

(** ** The new index *)

Lemma ok_tree fs : fs_ok fs -> fs_tree fs.
Proof.
  intros Hok. split; [apply (fo_linked _ Hok)|]. intros d x Hd Hx. apply (fo_closed _ Hok d); [done|]. by apply elem_of_ancestors.
Qed.

Section index.
Context {B : Base64Ops} {T : TokenOps} {HO : HashOps} {R : RngOps} {RR : RandomRange} {A : AeadOps} {KE : KemOps} {AR : Argon2Ops} {X : Xxh3Ops}.
Context {RD : RedbOps} {J : MetadataJson} {KJ : KeystoreJson} {UF : UserFileOps} {U : UnicodeOps} {CJ : ConfigJson}.
Context {HL : HashLaws} {AL : AeadLaws} {RL : RngLaws} {RDL : RedbLaws} {JL : JsonLaws}.
Context (empty_tables : MetaIndex.IndexDb).
Hypothesis Hdb : redb_healthy.
Abbreviation catalog := (gmap (string * string) Metadata).

(** A database just created has no rows. *)
Definition no_rows (d : MetaIndex.IndexDb) : Prop :=
  tbl_view (MetaIndex.objects d) = ∅ /\ tbl_view (MetaIndex.labels d) = ∅ /\ tbl_view (MetaIndex.buckets d) = ∅.

Lemma no_rows_represents d : no_rows d -> represents d ∅.
Proof using.
  intros (Ho & Hl & _). constructor; try (intros *; rewrite lookup_empty; discriminate).
  - intros kb v. by rewrite Ho, lookup_empty.
  - intros lk. rewrite Hl, lookup_empty. split; [by intros []|]. intros (b & k & m & n & v & E & _). by rewrite lookup_empty in E.
Qed.

(** A bucket that is not registered and has no objects is not there. *)
Lemma bucket_absent d M b : represents d M -> tbl_view (MetaIndex.buckets d) !! as_bytes b = None -> (forall k, M !! (b, k) = None) -> name_ok b ->
  MetaIndex.bucket_exists (MetaIndex.commit d) b = Ok false.
Proof using Hdb.
  intros HR Hb HM Hn. unfold MetaIndex.bucket_exists, MetaIndex.commit. cbn.
  destruct (is_ok_inv _ (rh_get Hdb (MetaIndex.buckets d) (as_bytes b))) as [o Eo]. rewrite Eo. rewrite (tbl_get_view _ _ _ Eo), Hb. cbn.
  destruct (rh_iter Hdb (MetaIndex.objects d) (encode_bucket_prefix b)) as [items Ei]. rewrite Ei. cbn. pose proof (tbl_iter_view _ _ _ Ei) as Hrows.
  destruct items as [|[k v] items]; [done|]. cbn. apply delivers_cons in Hrows as (rows & Hrows & _).
  assert (Hin : (k, v) ∈ rows_from (tbl_view (MetaIndex.objects d)) (encode_bucket_prefix b)) by (rewrite Hrows; by left).
  apply elem_of_rows_from in Hin as [Hk _]. destruct (rep_objects _ _ HR _ _ Hk) as (m & _ & Hm & ->). destruct (rep_meta _ _ HR _ _ _ Hm) as (_ & _ & [Hnb _]).
  f_equal. apply not_true_is_false. intros Hs. apply field_prefix in Hs; [|done|done]. rewrite Hs in Hm. by rewrite HM in Hm.
Qed.

(** A bucket with an object is there. *)
Lemma bucket_present d M b k m : represents d M -> M !! (b, k) = Some m -> MetaIndex.bucket_exists (MetaIndex.commit d) b = Ok true.
Proof using Hdb.
  intros HR HM. unfold MetaIndex.bucket_exists, MetaIndex.commit. cbn.
  destruct (is_ok_inv _ (rh_get Hdb (MetaIndex.buckets d) (as_bytes b))) as [o Eo]. rewrite Eo. cbn. destruct o as [x|]; [done|].
  destruct (rh_iter Hdb (MetaIndex.objects d) (encode_bucket_prefix b)) as [items Ei]. rewrite Ei. cbn. pose proof (tbl_iter_view _ _ _ Ei) as Hrows.
  destruct (rep_complete _ _ HR _ _ _ HM) as (v & Hv & _). pose proof (prefix_le (encode_bucket_prefix b) (field k)) as Hle.
  assert (Hin : (encode_object_key b k, v) ∈ rows_from (tbl_view (MetaIndex.objects d)) (encode_bucket_prefix b)) by (by apply elem_of_rows_from).
  pose proof (rows_from_sorted (tbl_view (MetaIndex.objects d)) (encode_bucket_prefix b)) as Hs.
  destruct items as [|[k1 v1] items]; cbn.
  - assert (rows_from (tbl_view (MetaIndex.objects d)) (encode_bucket_prefix b) = []) as E by (by inversion Hrows). rewrite E in Hin. by apply elem_of_nil in Hin.
  - apply delivers_cons in Hrows as (rows & Hrows & _). f_equal.
    assert (Hfirst : (k1, v1) ∈ rows_from (tbl_view (MetaIndex.objects d)) (encode_bucket_prefix b)) by (rewrite Hrows; by left).
    apply elem_of_rows_from in Hfirst as [_ Hk1]. rewrite Hrows in Hs, Hin. inversion_clear Hs as [|? ? _ Hall].
    apply elem_of_cons in Hin as [[= <- <-]|Hin]; [apply starts_with_app|]. rewrite Forall_forall in Hall.
    apply (prefix_convex _ _ (encode_object_key b k)); [done|by apply (Hall _ Hin)|apply starts_with_app].
Qed.

Lemma rebuild_index_run new_nk n M : fs_ok (s_fs (n_store n)) -> s_base (n_store n) ∈ fs_dirs (s_fs (n_store n)) -> no_rows empty_tables ->
  on_disk (s_fs (n_store n)) (s_base (n_store n)) (derive_object_metadata_key new_nk) (derive_container_header_key new_nk) M ->
  exists n' d, rebuild_index empty_tables new_nk n = (Ok tt, n') /\ n_index n' = Some (derive_index_file_key new_nk, d) /\
    s_index (n_store n') = MetaIndex.commit d /\ same_files (install_node_key new_nk (n_store n)) (n_store n') /\
    represents d M /\ MetaIndex.buckets d = MetaIndex.buckets empty_tables.
Proof using Hdb HL RDL JL.
  intros Hok Hbase Hno Hon. destruct (installed_keys new_nk) as (_ & _ & Hmk & _ & Hck).
  unfold rebuild_index. erewrite prog_bind_run by (rewrite sys_ok by done; reflexivity). rewrite set_fs_self. erewrite prog_bind_run by reflexivity.
  set (w1 := set_rebuild Idle _).
  assert (Ec : rebuild_cache w1 = (Ok (derive_object_metadata_key new_nk, derive_container_header_key new_nk), set_rebuild (Running 0) w1)).
  { unfold rebuild_cache. do 3 erewrite prog_bind_run by reflexivity.
    assert (Hneed : forall V (f : NodeKeySlot -> result Error V) v w, s_keys w = install new_nk -> f (install new_nk) = Ok v -> need f w = (Ok v, w)) by (intros V f v w E1 E2; unfold need; erewrite prog_bind_run by reflexivity; by rewrite E1, E2).
    erewrite prog_bind_run by (apply Hneed; [done|]; unfold require_object_metadata_key; rewrite Hmk; reflexivity).
    by erewrite prog_bind_run by (apply Hneed; [done|]; unfold require_container_header_key; rewrite Hck; reflexivity). }
  destruct (on_store_ok (fun e => "start index rebuild: " +:+ Error_display e) rebuild_cache (mkNode w1 (Some (derive_index_file_key new_nk, empty_tables))) _ _ Ec) as [o0 Eo]. erewrite prog_bind_run by exact Eo.
  assert (o0 = Some (derive_index_file_key new_nk, empty_tables)) as -> by (unfold on_store in Eo; cbn [n_store] in Eo; rewrite Ec in Eo; subst w1; by injection Eo as <-).
  cbv beta iota. destruct (rebuild_task_run Hdb (set_rebuild (Running 0) w1) (derive_object_metadata_key new_nk) (derive_container_header_key new_nk) empty_tables ∅ M) as (w' & d & E & Hdone & Hsame & Hidx & HR & Hbk);
    [apply Hok|by apply ok_tree|done|done|by apply no_rows_represents|done|].
  erewrite prog_bind_run; [|unfold on_store; cbn [n_store n_index]; rewrite E, Hidx; reflexivity].
  erewrite prog_bind_run by reflexivity. cbn [n_store]. rewrite Hdone. eexists _, d. split; [reflexivity|]. cbn. rewrite Hidx. split_and!; [done|done|by destruct Hsame as (? & ? & ? & ? & ?)|done|done].
Qed.

(** A rotation forgets the buckets that hold no objects. The names of the buckets are only
    in the index, which a run deletes and rebuilds from the object files: when it is done the
    index has every object, but a bucket without any does not exist any more, and it cannot be
    created either, since its directory is still there. *)
Theorem rotation_forgets_buckets (new_nk : bytes) (n : Node) (M : catalog) :
  fs_ok (s_fs (n_store n)) -> s_base (n_store n) ∈ fs_dirs (s_fs (n_store n)) -> no_rows empty_tables ->
  on_disk (s_fs (n_store n)) (s_base (n_store n)) (derive_object_metadata_key new_nk) (derive_container_header_key new_nk) M ->
  exists n' d, rebuild_index empty_tables new_nk n = (Ok tt, n') /\ n_index n' = Some (derive_index_file_key new_nk, d) /\ represents d M /\
    forall b, name_ok b -> (forall k, M !! (b, k) = None) ->
      bucket_exists b (n_store n') = (Ok false, n_store n') /\
      (validate_bucket b = Ok tt -> bucket_dir_path (s_base (n_store n)) (derive_path_key new_nk) b ∈ fs_dirs (s_fs (n_store n)) ->
       create_bucket b (n_store n') = (Ok false, n_store n')).
Proof using Hdb HL RDL JL.
  intros Hok Hbase Hno Hon. destruct (rebuild_index_run new_nk n M Hok Hbase Hno Hon) as (n' & d & E & Hi & Hs & (Hf & Hb & Hk & _) & HR & Hbk). cbn [install_node_key s_fs s_base s_keys] in *.
  exists n', d. split_and!; [done|done|done|]. intros b Hn HM. split.
  - unfold bucket_exists. erewrite prog_bind_run by reflexivity. rewrite Hs. rewrite (bucket_absent d M); [done|done| |done|done]. rewrite Hbk. destruct Hno as (_ & _ & ->). apply lookup_empty.
  - intros Hv Hd. destruct (installed_keys new_nk) as (_ & Hpk & _). unfold create_bucket, need, require_path_key, gets, lift_res, mbind, prog_bind. rewrite Hk, Hpk. cbn [ok_or]. rewrite Hv, Hb. cbv beta iota zeta.
    assert (Hok' : fs_ok (s_fs (n_store n'))) by (by rewrite Hf). unfold io, unwrap_or_false, match_res. rewrite fs_try_exists_dir_ok by done. cbn [map_err]. rewrite bool_decide_eq_true_2 by (by rewrite Hf). cbn. unfold mret, prog_ret. by destruct (n_store n').
Qed.

End index.
