(* ===== verification/NodeKeyRotationRun.v ===== *)
(** * A complete rotation run

    The parts of a run put together: the journal and the checks of the keystore, the walk over
    the object tree, the index rebuilt from it, the user store and the manifest. *)

From S2P Require Import Prelude Effects Primitives Types Format Crypto NodeKeys Sink Slots BucketKeys Lex Query Index IndexSpec Locks Posix FsView Filesystem FilesystemSpec FilesystemSafety NodeRotation Rebuild NodeRotationSpec EncryptedFile Keystore KeystoreSpec NodeKeyRotation NodeKeyRotationSpec.
Import FilesystemStorage.

(** ** The object files of a rotated tree *)

Section tree.
Context {A : AeadOps} {X : Xxh3Ops} {B : Base64Ops} {HO : HashOps} {R : RngOps}.
Context {RD : RedbOps} {J : MetadataJson} {CJ : ConfigJson} {U : UnicodeOps}.
Context {AL : AeadLaws} {HL : HashLaws} {RL : RngLaws}.
Context (K : RotationKeys) (base : list string).

(** The records of the objects of these buckets, by address. *)
Definition catalog_of (buckets : list string) (M : string -> gmap string (bytes * Metadata)) : gmap (string * string) Metadata :=
  map_uncurry (map_imap (fun b _ => Some (snd <$> M b)) (gset_to_gmap tt (list_to_set buckets : gset string))).

Lemma catalog_of_lookup buckets M b k md : catalog_of buckets M !! (b, k) = Some md <-> b ∈ buckets /\ exists d, M b !! k = Some (d, md).
Proof using.
  unfold catalog_of. rewrite lookup_map_uncurry, map_lookup_imap, lookup_gset_to_gmap. destruct (decide (b ∈ buckets)) as [Hb|Hb].
  - rewrite option_guard_True by (by apply elem_of_list_to_set). cbn. rewrite lookup_fmap, fmap_Some. split; [intros ([d md'] & E & ->); eauto|intros [_ [d E]]; by exists (d, md)].
  - rewrite option_guard_False by (by rewrite elem_of_list_to_set). cbn. split; [done|tauto].
Qed.

(** Every object file belongs to one of the buckets. *)
Definition only_buckets (fs : Fs) (buckets : list string) : Prop :=
  forall p, shelved base fs p -> fp_ext p = "obj" -> exists b, b ∈ buckets /\ below (base ++ [encode_bucket_dir (old_path_key K) b]) (fp_dir p) = true.

Lemma id_path_shelved fs dir i : (exists x, dir = base ++ [x]) -> is_Some (fs_entries fs !! id_path dir i) -> shelved base fs (id_path dir i).
Proof using. intros [x ->] Hs. split; [done|]. unfold id_path. cbn [fp_dir]. rewrite <- app_assoc. by do 3 eexists. Qed.

Lemma rotated_on_disk fs fs' buckets (M : string -> gmap string (bytes * Metadata)) cfg : fs_ok fs -> fs_ok fs' -> only_buckets fs buckets -> untouched K base buckets fs fs' ->
  (forall b, b ∈ buckets -> bucket_rotated K base fs' b (M b) (cfg b)) ->
  (forall b k d md, b ∈ buckets -> M b !! k = Some (d, md) -> meta_ok md /\ is_ok (to_vec md) = true) ->
  on_disk fs' base (new_omk K) (new_chk K) (catalog_of buckets M).
Proof using HL.
  intros Hok Hok' Honly [Hdat Hdirs] Hrot Hmeta.
  assert (Hread : forall b k d md, b ∈ buckets -> M b !! k = Some (d, md) -> let p := id_path (base ++ [encode_bucket_dir (new_path_key K) b]) (new_id K b k) in
    md_bucket md = b /\ md_key md = k /\ is_Some (fs_entries fs' !! p) /\ fst (read_obj_metadata p (new_omk K) (new_chk K) fs') = Ok md).
  { intros b k d md Hb Hk p. destruct (Hrot b Hb) as [_ _ (done & Hr & Hall) _]. destruct (ru_md _ _ _ _ _ _ Hr k d md Hk) as [? ?].
    destruct (ru_new _ _ _ _ _ _ Hr k d md Hk) as (file & Hf & Hs); [apply Hall; by eexists|]. split_and!; [done|done|apply data_entry in Hf as (i & n & Hi & _); exists i; exact Hi|].
    destruct (yields_run fs_step fs_faulty (read_obj_metadata p (new_omk K) (new_chk K)) md fs') as (fs2 & -> & _); [eapply read_obj_metadata_yields; [by eapply sealed_object_file|exact Hf]|intros Hf'; by apply Hf', (fo_quiet _ Hok')|done]. }
  constructor.
  - intros p md Hsh Hext Hr. pose proof Hsh as [[i Hi] (x & y & z & Hd)]. pose proof (fo_linked _ Hok' _ _ Hi) as Hin.
    destruct (decide (Exists (fun b => below (base ++ [encode_bucket_dir (old_path_key K) b]) (fp_dir p) = true \/ below (base ++ [encode_bucket_dir (new_path_key K) b]) (fp_dir p) = true) buckets)) as [Hex|Hno].
    + apply Exists_exists in Hex as (b & Hb & [Ho|Hn]); destruct (Hrot b Hb) as [_ Hgone (done & Hru & Hall) _].
      * destruct Hgone. by apply (fo_closed _ Hok' (fp_dir p)).
      * destruct (ru_only _ _ _ _ _ _ Hru p Hext Hn) as (k & [[d md'] Hk] & Hp); [apply not_eq_None_Some; by rewrite data_none, Hi|].
        rewrite decide_True in Hp by (apply Hall; by eexists). destruct (Hread b k d md' Hb Hk) as (<- & <- & _ & Hr'). rewrite Hp in Hr. rewrite Hr in Hr'. injection Hr' as ->.
        apply catalog_of_lookup. eauto.
    + exfalso. rewrite <- Forall_Exists_neg, Forall_forall in Hno.
      assert (Hout : forall b, b ∈ buckets -> below (base ++ [encode_bucket_dir (old_path_key K) b]) (fp_dir p) = false /\ below (base ++ [encode_bucket_dir (new_path_key K) b]) (fp_dir p) = false).
      { intros b Hb. specialize (Hno b Hb). split; apply not_true_is_false; tauto. }
      destruct (Honly p) as (b & Hb & Hbl); [|done|destruct (Hout b Hb) as [E _]; congruence]. split; [|by exists x, y, z].
      assert (Hs : is_Some (data_at fs p)) by (rewrite <- (Hdat p Hout) by (by rewrite Hext); apply not_eq_None_Some; by rewrite data_none, Hi). destruct Hs as [c (j & n & -> & _)%data_entry]. by eexists.
  - intros [b k] md [Hb [d Hk]]%catalog_of_lookup. destruct (Hread b k d md Hb Hk) as (Hmb & Hmk & Hs & Hr). split; [by rewrite Hmb, Hmk|]. eexists. split_and!; [by apply id_path_shelved; [eexists|exact Hs]|done|exact Hr].
  - intros [b k] md [Hb [d Hk]]%catalog_of_lookup. by eapply Hmeta.
Qed.

End tree.

(** ** The steps of a run *)

Section steps.
Context {B : Base64Ops} {T : TokenOps} {HO : HashOps} {R : RngOps} {RR : RandomRange} {A : AeadOps} {KE : KemOps} {AR : Argon2Ops} {X : Xxh3Ops}.
Context {RD : RedbOps} {J : MetadataJson} {KJ : KeystoreJson} {UF : UserFileOps} {U : UnicodeOps} {CJ : ConfigJson}.
Context {BL : Base64Laws} {KL : KeystoreJsonLaws} {UL : UserFileLaws} {HL : HashLaws} {AL : AeadLaws} {RL : RngLaws} {RDL : RedbLaws} {JL : JsonLaws}.

Abbreviation nview n := (data_at (s_fs (n_store n))).

(** The open index, if there is one, is the one in the file. *)
Definition in_step (n : Node) : Prop := match n_index n, MetaIndex.idx_db (s_index (n_store n)) with Some (_, d), Some d' => d = d' | _, _ => True end.

Lemma on_store_runs {V} f (m : prog Store CryptoError V) n v view : in_step n -> runs m (n_store n) v view ->
  exists fs', on_store f m n = (Ok v, set_store (set_fs fs' (n_store n)) n) /\ shows fs' view (fs_dirs (s_fs (n_store n))).
Proof using.
  intros Hs (fs' & E & Hsh). exists fs'. split; [|done]. unfold on_store. rewrite E. cbn [map_err]. unfold set_store. f_equal. f_equal. cbn [set_fs s_index].
  unfold in_step in Hs. destruct (n_index n) as [[k d]|] eqn:Ei; [|done]. destruct (MetaIndex.idx_db _); by subst.
Qed.

Lemma write_journal_runs dir old_nk new_nk w : fs_ok (s_fs w) -> dir ∈ fs_dirs (s_fs w) -> data_at (s_fs w) (rotation_journal_path dir) = None ->
  exists raw, runs (write_rotation_journal dir old_nk new_nk) w tt (put_at (rotation_journal_path dir) raw (data_at (s_fs w))).
Proof using BL HL KL.
  intros Hok Hd Hn. set (j := mkRotationJournal (b64_encode (derive_node_key_verifier old_nk)) (b64_encode (derive_node_key_verifier new_nk))).
  destruct (journal_written j) as (raw & Hraw & _ & Hsmall); [split; apply verifier_short|]. exists raw. unfold write_rotation_journal. cbv zeta. fold j. rewrite Hraw. cbn [map_err].
  eapply runs_bind; [by apply runs_lift|]. intros fs1 [Hok1 Hv1 Hd1]. eapply runs_bind; [by apply runs_gets|]. intros fs2 [Hok2 Hv2 Hd2]. cbn [set_fs s_fs] in *.
  eapply runs_view; [apply write_synced_runs; [|done|done]|].
  - intros fs [Hok3 Hv3 Hd3]. cbn [set_fs s_fs] in *. apply fs_create_new_ok; [done|by rewrite Hd3, Hd2, Hd1|by rewrite Hv3, Hv2, ?Hv1].
  - intros q. unfold put_at. case_decide; [done|]. cbn. by rewrite Hv2, ?Hv1.
Qed.

Lemma delete_journal_runs dir w : fs_ok (s_fs w) -> runs (delete_rotation_journal dir) w tt (drop_at (rotation_journal_path dir) (data_at (s_fs w))).
Proof using.
  intros Hok. unfold delete_rotation_journal. cbv zeta. eapply runs_bind; [by apply exists_runs|]. intros fs1 [Hok1 Hv1 Hd1]. destruct (data_at (s_fs w) (rotation_journal_path dir)) as [c|] eqn:Ec.
  - rewrite bool_decide_eq_true_2 by eauto. destruct (fs_remove_file_ok fs1 (rotation_journal_path dir) c Hok1) as (fs2 & E2 & Hs2); [by rewrite Hv1|].
    eapply runs_view; [eapply io_runs; [exact E2|exact Hs2]|]. intros q. unfold drop_at. case_decide; [done|]. apply Hv1.
  - rewrite bool_decide_eq_false_2 by (by intros []). eapply runs_view; [by apply runs_ret|]. intros q. unfold drop_at. cbn. case_decide; [by subst; rewrite Hv1|apply Hv1].
Qed.

(** The files under [dir] itself that a step leaves alone. *)
Definition same_except (ps : list fpath) (v v' : fpath -> option bytes) : Prop := forall q, q ∉ ps -> v' q = v q.

Lemma same_except_trans ps ps' v v1 v2 : same_except ps v v1 -> same_except ps' v1 v2 -> same_except (ps ++ ps') v v2.
Proof using. intros H1 H2 q [? ?]%not_elem_of_app. by rewrite H2, H1. Qed.

(** Up to the journal *)
Lemma prepare_runs dir old_nk new_nk n : in_step n -> fs_ok (s_fs (n_store n)) -> dir ∈ fs_dirs (s_fs (n_store n)) -> manifest_for old_nk (nview n) dir ->
  nview n (legacy_pubkey_path dir) = None -> nview n (rotation_journal_path dir) = None -> forall (f : CryptoError -> string) V (k : prog Node string V),
  exists fs', fs_ok fs' /\ fs_dirs fs' = fs_dirs (s_fs (n_store n)) /\ same_except [lock_path dir; rotation_journal_path dir] (nview n) (data_at fs') /\
    (_ ← on_store CryptoError_display (acquire_lock false dir); _ ← on_store f (verify_node_key dir old_nk); _ ← check_journal dir old_nk new_nk; k) n = k (set_store (set_fs fs' (n_store n)) n).
Proof using BL HL KL.
  intros Hst Hok Hd Hm Hl Hj f V k. destruct (acquire_lock_runs false dir (n_store n) Hok Hd) as (r & fs1 & E1 & _ & Hr & Hs1). rewrite (Hr eq_refl) in E1.
  assert (R1 : runs (acquire_lock false dir) (n_store n) tt (put_at (lock_path dir) (default [] (nview n (lock_path dir))) (nview n))) by (by exists fs1).
  destruct (on_store_runs CryptoError_display _ n _ _ Hst R1) as (fs2 & E2 & [Hok2 Hv2 Hd2]). erewrite prog_bind_run by exact E2. clear fs1 E1 Hr Hs1 R1.
  set (n2 := set_store _ n). assert (Hm2 : manifest_for old_nk (nview n2) dir) by (destruct Hm as (raw & m & Hraw & Hm); exists raw, m; split; [cbn; rewrite Hv2; by at_path|done]).
  destruct (verify_runs dir old_nk old_nk (n_store n2)) as (fs3 & Hs3 & E3); [done|done|cbn; rewrite Hv2; by at_path|]. rewrite bool_decide_eq_true_2 in E3 by done.
  assert (R3 : runs (verify_node_key dir old_nk) (n_store n2) tt (nview n2)) by (by exists fs3). destruct (on_store_runs f _ n2 _ _ Hst R3) as (fs4 & E4 & [Hok4 Hv4 Hd4]). erewrite prog_bind_run by exact E4. clear fs3 E3 Hs3 R3.
  set (n4 := set_store _ n2). assert (Hj4 : nview n4 (rotation_journal_path dir) = None) by (cbn; rewrite Hv4; cbn; rewrite Hv2; by at_path).
  assert (R5 : runs (read_rotation_journal dir) (n_store n4) None (nview n4)).
  { unfold read_rotation_journal. cbv zeta. eapply runs_bind; [by apply exists_runs|]. intros fs5 [Hok5 Hv5 Hd5]. rewrite Hj4, bool_decide_eq_false_2 by (by intros []). eapply runs_view; [by apply runs_ret|exact Hv5]. }
  destruct (on_store_runs CryptoError_display _ n4 _ _ Hst R5) as (fs5 & E5 & [Hok5 Hv5 Hd5]). set (n5 := set_store (set_fs fs5 (n_store n4)) n4) in *.
  destruct (write_journal_runs dir old_nk new_nk (n_store n5)) as [raw R6]; [done|cbn; rewrite Hd5; cbn; rewrite Hd4; cbn; by rewrite Hd2|cbn; rewrite Hv5; exact Hj4|].
  destruct (on_store_runs CryptoError_display _ n5 _ _ Hst R6) as (fs6 & E6 & [Hok6 Hv6 Hd6]). exists fs6.
  split_and!; [done|rewrite Hd6; cbn; rewrite Hd5; cbn; rewrite Hd4; cbn; by rewrite Hd2| |].
  - intros q [Hq1 [Hq2 _]%not_elem_of_cons]%not_elem_of_cons. rewrite Hv6. at_path. cbn. rewrite Hv5. cbn. rewrite Hv4. cbn. rewrite Hv2. by at_path.
  - erewrite prog_bind_run; [reflexivity|]. unfold check_journal. erewrite prog_bind_run by exact E5. exact E6.
Qed.

(** The last two steps *)
Lemma finish_runs dir old_nk new_nk n : in_step n -> fs_ok (s_fs (n_store n)) -> dir ∈ fs_dirs (s_fs (n_store n)) -> manifest_for old_nk (nview n) dir ->
  exists fs', finish dir new_nk n = (Ok tt, set_store (set_fs fs' (n_store n)) n) /\ fs_ok fs' /\ fs_dirs fs' = fs_dirs (s_fs (n_store n)) /\ manifest_for new_nk (data_at fs') dir /\
    data_at fs' (rotation_journal_path dir) = None /\ same_except [manifest_path dir; manifest_tmp dir; rotation_journal_path dir] (nview n) (data_at fs').
Proof using BL HL KL.
  intros Hst Hok Hd Hm. destruct (rewrite_verifier_runs dir old_nk new_nk (n_store n) Hok Hd Hm) as (view & R1 & Hm1 & Hq1). unfold finish.
  destruct (on_store_runs (fun e => "rewrite keystore verifier: " +:+ CryptoError_display e) _ n _ _ Hst R1) as (fs1 & E1 & [Hok1 Hv1 Hd1]). erewrite prog_bind_run by exact E1. set (n1 := set_store _ n).
  destruct (on_store_runs (fun e => "delete rotation journal: " +:+ CryptoError_display e) _ n1 _ _ Hst (delete_journal_runs dir (n_store n1) Hok1)) as (fs2 & E2 & [Hok2 Hv2 Hd2]).
  exists fs2. split_and!; [exact E2|done|rewrite Hd2; exact Hd1| |rewrite Hv2; by at_path|].
  - destruct Hm1 as (raw & m & Hraw & Hm1). exists raw, m. split; [|done]. rewrite Hv2. at_path. cbn. by rewrite Hv1.
  - intros q [Ha [Hb [Hc _]%not_elem_of_cons]%not_elem_of_cons]%not_elem_of_cons. rewrite Hv2. at_path. cbn. by rewrite Hv1, Hq1.
Qed.

(** ** The run *)

Context (empty_tables : MetaIndex.IndexDb).
Hypothesis Hdb : redb_healthy.

(** What a run starts from: a healthy node whose keystore is not below the object tree, whose
    buckets are sealed under the old node key and listed by the index, and where no other
    object files are. The objects are as the code writes them now ([sealed_object]): their
    metadata is padded. An object from before padding does not survive a run, see
    [rotation_breaks_unpadded]. *)
Record tree_ready (K : RotationKeys) (base : list string) (fs : Fs) (buckets : list string) (M : string -> gmap string (bytes * Metadata)) (cfg : string -> option bytes) : Prop := mkTreeReady {
  tr_base : base ∈ fs_dirs fs;
  tr_names : names_apart K buckets;
  tr_ready : forall b, b ∈ buckets -> bucket_ready K base fs b (M b) (cfg b);
  tr_only : only_buckets K base fs buckets;
  tr_meta : forall b k d md, b ∈ buckets -> M b !! k = Some (d, md) -> meta_ok md /\ is_ok (to_vec md) = true;
}.

Lemma below_under base x d : below (base ++ [x]) d = true -> below base d = true.
Proof using. intros [r ->]%below_inv. rewrite <- app_assoc. apply below_app. Qed.

Lemma tree_ready_ext K base fs fs' buckets M cfg : fs_ok fs' -> fs_dirs fs' = fs_dirs fs -> (forall q, below base (fp_dir q) = true -> data_at fs' q = data_at fs q) -> fs_ok fs ->
  tree_ready K base fs buckets M cfg -> tree_ready K base fs' buckets M cfg.
Proof using.
  intros Hok' Hd Hv Hok [H1 H2 H3 H4 H5]. constructor; [by rewrite Hd|done| | |done].
  - intros b Hb. eapply ready_ext; [intros d _; by rewrite Hd| |by apply H3]. intros q _ Hq. apply Hv. by eapply below_under.
  - intros p [[i Hi] (x & y & z & Hp)] He. apply H4; [|done]. split; [|by exists x, y, z]. apply not_eq_None_Some. rewrite <- data_none by done. rewrite <- Hv by (rewrite Hp; apply below_app). by rewrite data_none, Hi.
Qed.

Lemma listed_buckets fuel old_nk new_nk n d0 buckets : n_index n = Some (derive_index_file_key old_nk, d0) -> list_buckets_union fuel (MetaIndex.commit d0) = Some (Ok buckets) ->
  buckets_needing_walk empty_tables fuel old_nk new_nk n
    = (Ok (Some buckets), mkNode (set_rebuild Idle (set_index (MetaIndex.commit d0) (install_node_key old_nk (n_store n)))) (n_index n)).
Proof using.
  intros Hi Hl. unfold buckets_needing_walk. erewrite prog_bind_run; [|unfold open_storage, open_db; rewrite Hi, bool_decide_eq_true_2 by done; reflexivity].
  unfold match_res, list_node_buckets. cbn [n_store set_rebuild set_index s_index]. fold (MetaIndex.commit d0). rewrite Hl, Hi. done.
Qed.

Lemma walk_runs base old_nk new_nk n d0 buckets M cfg : let K := rotation_keys old_nk new_nk in
  n_index n = Some (derive_index_file_key old_nk, d0) -> s_index (n_store n) = MetaIndex.commit d0 -> fs_ok (s_fs (n_store n)) -> tree_ready K base (s_fs (n_store n)) buckets M cfg ->
  exists n' fs', on_store (fun e => "rotate storage tree: " +:+ Error_display e) (rotate_storage_tree base buckets K) n
      = (Ok (mkRotationStats (length buckets) (sum_list ((fun b => size (M b)) <$> buckets)) 0), n') /\
    refiled (n_store n) fs' (n_store n') /\ n_index n' = n_index n /\ fs_ok fs' /\ untouched K base buckets (s_fs (n_store n)) fs' /\
    (forall b, b ∈ buckets -> bucket_rotated K base fs' b (M b) (cfg b)) /\ on_disk fs' base (new_omk K) (new_chk K) (catalog_of buckets M).
Proof using AL HL RL.
  intros K Hi Hs Hok [H1 H2 H3 H4 H5]. destruct (rotate_tree_run K base M cfg buckets (n_store n) 0 0 0 Hok H2 H3) as (fs' & w' & E & Hre & Hok' & Hun & Hall).
  exists (mkNode w' (n_index n)), fs'. split_and!; try done; [|exact (rotated_on_disk K base _ fs' buckets M cfg Hok Hok' H4 Hun Hall H5)].
  destruct Hre as [r ->]. unfold on_store, rotate_storage_tree, stats_default. rewrite E. cbn [map_err set_rng set_fs s_index]. by rewrite Hs, Hi.
Qed.

(** The node after the files have been migrated. *)
Record migrated (new_nk : bytes) (K : RotationKeys) (base dir : list string) (buckets : list string) (M : string -> gmap string (bytes * Metadata)) (cfg : string -> option bytes)
  (users : gmap string bytes) (n n' : Node) : Prop := mkMigrated {
  mg_fs : fs_ok (s_fs (n_store n'));
  mg_dir : dir ∈ fs_dirs (s_fs (n_store n'));
  mg_buckets : forall b, b ∈ buckets -> bucket_rotated K base (s_fs (n_store n')) b (M b) (cfg b);
  mg_index : exists d, n_index n' = Some (derive_index_file_key new_nk, d) /\ s_index (n_store n') = MetaIndex.commit d /\ represents d (catalog_of buckets M) /\ tbl_view (MetaIndex.buckets d) = ∅;
  mg_keys : s_keys (n_store n') = install new_nk;
  mg_base : s_base (n_store n') = s_base (n_store n);
  mg_locks : s_locks (n_store n') = s_locks (n_store n);
  mg_users : users_are new_nk (nview n') dir users;
  mg_keystore : forall q, fp_dir q = dir -> fp_ext q <> "tmp" -> q <> users_path dir -> q <> with_extension (users_path dir) "rekeying" -> nview n' q = nview n q;
}.

Lemma migrate_runs fuel base dir old_nk new_nk n d0 buckets M cfg users : let K := rotation_keys old_nk new_nk in
  s_base (n_store n) = base -> below base dir = false -> fs_ok (s_fs (n_store n)) -> dir ∈ fs_dirs (s_fs (n_store n)) -> tree_ready K base (s_fs (n_store n)) buckets M cfg ->
  n_index n = Some (derive_index_file_key old_nk, d0) -> list_buckets_union fuel (MetaIndex.commit d0) = Some (Ok buckets) -> no_rows empty_tables ->
  users_are old_nk (nview n) dir users ->
  exists n', migrate empty_tables fuel base dir old_nk new_nk n = (Ok tt, n') /\ migrated new_nk K base dir buckets M cfg users n n'.
Proof using Hdb AL HL RL RDL JL UL.
  intros K Hb Hbd Hok Hd Ht Hi Hl Hno (c & Hc & Hm). unfold migrate. erewrite prog_bind_run by (by apply listed_buckets). cbv iota. set (n1 := mkNode _ (n_index n)).
  destruct (walk_runs base old_nk new_nk n1 d0 buckets M cfg Hi eq_refl Hok Ht) as (n2 & fs2 & E2 & [r Hn2] & Hi2 & Hok2 & [Hv2 Hd2] & Hall & Hon).
  erewrite prog_bind_run by (erewrite prog_bind_run by exact E2; reflexivity).
  assert (Hout : forall b, below (base ++ [encode_bucket_dir (old_path_key K) b]) dir = false /\ below (base ++ [encode_bucket_dir (new_path_key K) b]) dir = false).
  { intros b. split; apply not_true_is_false; intros ?%below_under; congruence. }
  assert (Hf2 : s_fs (n_store n2) = fs2) by (by rewrite Hn2). assert (Hb2 : s_base (n_store n2) = base) by (by rewrite Hn2).
  assert (Hbase2 : base ∈ fs_dirs fs2).
  { apply Hd2; [|apply (tr_base _ _ _ _ _ _ Ht)]. intros b _. split; (destruct (below _ base) eqn:E; [|done]); apply below_inv in E as [r' E]; apply (f_equal length) in E; rewrite !length_app in E; cbn in E; lia. }
  destruct (rebuild_index_run empty_tables Hdb new_nk n2 (catalog_of buckets M)) as (n3 & d & E3 & Hi3 & Hs3 & (Hf3 & Hb3 & Hk3 & Hl3 & _) & HR & Hbk3); rewrite ?Hf2, ?Hb2; [done|done|done|exact Hon|].
  erewrite prog_bind_run by exact E3. cbn [install_node_key s_fs s_base s_keys s_locks] in *. rewrite Hf2 in Hf3. rewrite Hb2 in Hb3.
  assert (Hst : in_step n3) by (unfold in_step; by rewrite Hi3, Hs3).
  assert (Hkq : forall q, fp_dir q = dir -> fp_ext q <> "tmp" -> nview n3 q = nview n q) by (intros q Hq He; rewrite Hf3; apply Hv2; [intros b _; rewrite Hq; apply Hout|done]).
  assert (Hd3 : dir ∈ fs_dirs (s_fs (n_store n3))) by (rewrite Hf3; by apply Hd2; [intros b _; apply Hout|]).
  destruct (rekey_first dir old_nk new_nk (n_store n3) users c) as (c3 & Hm3 & R4); [by rewrite Hf3|done|by rewrite Hkq|done|].
  destruct (on_store_runs (fun e => "re-key user store: " +:+ CryptoError_display e) _ n3 _ _ Hst R4) as (fs4 & E4 & [Hok4 Hv4 Hd4]).
  eexists. split; [exact E4|]. assert (Hut : users_path dir <> with_extension (users_path dir) "rekeying") by (by intros E%(f_equal fp_ext)).
  constructor; cbn [set_store n_store set_fs s_fs s_keys s_base s_locks n_index s_index]; [done|by rewrite Hd4| |exists d; split_and!; try done; rewrite Hbk3; apply Hno|done|by rewrite Hb3|by rewrite Hl3, Hn2| |].
  - intros b Hin. eapply rotated_bucket_ext; [| |exact (Hall b Hin)]; [intros x _; by rewrite Hd4, Hf3|]. intros q _ Hq%below_under. rewrite Hv4. unfold put_at, drop_at.
    do 2 (rewrite decide_False by (intros ->; cbn in Hq; congruence)). by rewrite Hf3.
  - exists c3. split; [|done]. rewrite Hv4. by at_path.
  - intros q Hq He H1 H2. rewrite Hv4. at_path. by apply Hkq.
Qed.

(** C24: a rotation of the node key that is neither interrupted nor disturbed keeps the
    contents of a healthy node. With the right old key, and where all objects have padded
    metadata ([tree_ready]), the run succeeds, whatever the number of buckets, objects and
    users: afterwards the node serves every object and every bucket configuration as before,
    its index holds exactly the records of the objects, the user store holds the same users,
    the keystore opens with the new key, and no journal is left. What does not survive is
    the existence of a bucket without objects: of the buckets there were, exactly those with
    an object exist afterwards. *)
Theorem rotation_run_preserves (fuel : nat) (dir : list string) (old_nk new_nk : bytes) (n : Node) (d0 : MetaIndex.IndexDb) (buckets : list string)
    (M : string -> gmap string (bytes * Metadata)) (cfg : string -> option bytes) (users : gmap string bytes) :
  let K := rotation_keys old_nk new_nk in let base := s_base (n_store n) in
  old_nk <> new_nk -> no_rows empty_tables ->
  fs_ok (s_fs (n_store n)) -> below base dir = false -> dir ∈ fs_dirs (s_fs (n_store n)) -> s_locks (n_store n) = ∅ ->
  tree_ready K base (s_fs (n_store n)) buckets M cfg -> (forall b, b ∈ buckets -> validate_bucket b = Ok tt) ->
  n_index n = Some (derive_index_file_key old_nk, d0) -> MetaIndex.idx_db (s_index (n_store n)) = None -> list_buckets_union fuel (MetaIndex.commit d0) = Some (Ok buckets) ->
  manifest_for old_nk (nview n) dir -> nview n (legacy_pubkey_path dir) = None -> nview n (rotation_journal_path dir) = None -> users_are old_nk (nview n) dir users ->
  exists n', run empty_tables fuel false base dir (Ok old_nk) (Ok new_nk) n = (Ok tt, n') /\
    (forall b k data md, b ∈ buckets -> M b !! k = Some (data, md) -> validate_key k = Ok tt -> fst (get b k (n_store n')) = Ok data /\ fst (describe b k (n_store n')) = Ok md) /\
    (forall b, b ∈ buckets -> fst (get_bucket_config b (n_store n')) =
      match cfg b with None => Ok config_default | Some plain => map_err (fun e => internal b "" "get_bucket_config" ("parse config: " +:+ e)) (config_from_slice plain) end) /\
    (exists d, s_index (n_store n') = MetaIndex.commit d /\ represents d (catalog_of buckets M)) /\
    (forall b, b ∈ buckets -> name_ok b -> fst (bucket_exists b (n_store n')) = Ok (negb (bool_decide (M b = ∅)))) /\
    users_are new_nk (nview n') dir users /\ manifest_for new_nk (nview n') dir /\ fst (verify_node_key dir new_nk (n_store n')) = Ok tt /\ fst (refuse_interrupted dir n') = Ok tt.
Proof using Hdb AL HL RL RDL JL UL KL BL.
  intros K base Hne Hno Hok Hbd Hd Hlocks Ht Hvb Hi Hclosed Hl Hman Hleg Hj (c & Hc & Hm).
  assert (Hst : in_step n) by (unfold in_step; by rewrite Hi, Hclosed).
  destruct (prepare_runs dir old_nk new_nk n Hst Hok Hd Hman Hleg Hj (fun e => "verify old node key against keystore: " +:+ CryptoError_display e) unit
    (_ ← migrate empty_tables fuel base dir old_nk new_nk; finish dir new_nk)) as (fs1 & Hok1 & Hd1 & Hq1 & E1). set (n1 := set_store _ n) in *.
  assert (Hks : forall q, fp_ext q <> "" -> q <> rotation_journal_path dir -> nview n1 q = nview n q) by (intros q He Hr; apply Hq1; rewrite !not_elem_of_cons; split_and!; [by intros ->|done|apply not_elem_of_nil]).
  assert (Htree : forall q, below base (fp_dir q) = true -> data_at fs1 q = nview n q) by (intros q Hq; apply Hq1; rewrite !not_elem_of_cons; split_and!; [by intros ->; cbn in Hq; congruence|by intros ->; cbn in Hq; congruence|apply not_elem_of_nil]).
  destruct (migrate_runs fuel base dir old_nk new_nk n1 d0 buckets M cfg users) as (n2 & E2 & [Hok2 Hd2 Hall (d & Hi2 & Hs2 & HR & Hbk) Hk2 Hb2 Hl2 (c2 & Hc2 & Hm2) Hq2]); try done; [by rewrite <- Hd1 in Hd|by eapply tree_ready_ext|exists c; split; [by rewrite Hks|done]|].
  assert (Hst2 : in_step n2) by (unfold in_step; by rewrite Hi2, Hs2).
  destruct (finish_runs dir old_nk new_nk n2 Hst2 Hok2 Hd2) as (fs3 & E3 & Hok3 & Hd3 & Hman3 & Hj3 & Hq3).
  { destruct Hman as (raw & m & Hr & Hman). exists raw, m. split; [|done]. by rewrite Hq2, Hks. }
  set (n3 := set_store _ n2) in *. exists n3.
  assert (Hq4 : forall q, q <> manifest_path dir -> q <> manifest_tmp dir -> q <> rotation_journal_path dir -> nview n3 q = nview n2 q) by (intros q Ha Hb Hc3; apply Hq3; rewrite !not_elem_of_cons; split_and!; try done; apply not_elem_of_nil).
  assert (Hrun : run empty_tables fuel false base dir (Ok old_nk) (Ok new_nk) n = (Ok tt, n3)).
  { transitivity ((_ ← migrate empty_tables fuel base dir old_nk new_nk; finish dir new_nk) n1); [|by erewrite prog_bind_run by exact E2]. rewrite <- E1. unfold run, mbind, prog_bind.
    destruct (on_store _ _ n) as [[[]|e] n0]; [|done]. cbn. by rewrite bool_decide_eq_false_2. }
  assert (Hrot : forall b, b ∈ buckets -> bucket_rotated K base (s_fs (n_store n3)) b (M b) (cfg b)).
  { intros b Hb. eapply rotated_bucket_ext; [| |exact (Hall b Hb)]; [intros x _; cbn; by rewrite Hd3|]. intros q _ Hq%below_under. apply Hq4; intros ->; cbn in Hq; congruence. }
  assert (Hself : install_node_key new_nk (n_store n3) = n_store n3) by (cbn; unfold install_node_key; cbn; by rewrite <- Hk2; destruct (n_store n2)).
  assert (Hl3 : s_locks (n_store n3) = ∅) by (cbn; by rewrite Hl2). assert (Hb3 : s_base (n_store n3) = base) by (cbn; by rewrite Hb2).
  pose proof (fo_quiet _ Hok3) as Hquiet. split_and!; [done| | |by exists d| | |done| |].
  - intros b k data md Hb Hk Hvk. specialize (Hrot b Hb). rewrite <- Hb3 in Hrot. destruct (rotated_serving old_nk new_nk (n_store n3) b (M b) (cfg b) k data md Hrot Hk (Hvb b Hb) Hvk) as [file Hsv]. rewrite Hself in Hsv.
    assert (Hln : s_locks (n_store n3) !! (b, k) = None) by (by rewrite Hl3, lookup_empty). split; (eapply yields_quiet; [|exact Hquiet]); [by eapply get_yields; [exact Hsv|exact Hln]|by eapply describe_yields; [exact Hsv|exact Hln|exact Hquiet]].
  - intros b Hb. specialize (Hrot b Hb). rewrite <- Hb3 in Hrot. rewrite <- Hself. by eapply rotated_config; [exact Hrot|exact Hok3|apply Hvb].
  - intros b Hb Hn. unfold bucket_exists. erewrite prog_bind_run by reflexivity. change (s_index (n_store n3)) with (s_index (n_store n2)). rewrite Hs2. unfold lift_res. cbn [fst].
    case_bool_decide as Hemp; cbn [negb].
    + apply (bucket_absent Hdb d (catalog_of buckets M)); [done|by rewrite Hbk, lookup_empty| |done]. intros k. apply eq_None_not_Some. intros [md [_ [x Hx]]%catalog_of_lookup]. by rewrite Hemp, lookup_empty in Hx.
    + apply map_choose in Hemp as (k & [x md] & Hk). apply (bucket_present Hdb d (catalog_of buckets M) b k md); [done|]. apply catalog_of_lookup. eauto.
  - exists c2. split; [|done]. by rewrite Hq4.
  - destruct (verify_runs dir new_nk new_nk (n_store n3) Hok3 Hman3) as (fs4 & _ & E4); [by rewrite Hq4, Hq2, Hks|]. rewrite E4. by rewrite bool_decide_eq_true_2.
  - unfold refuse_interrupted, rotation_journal_exists. destruct (exists_runs (rotation_journal_path dir) (n_store n3) Hok3) as (fs4 & E4 & _). rewrite (Hj3 : nview n3 (rotation_journal_path dir) = None), bool_decide_eq_false_2 in E4 by (by intros []).
    destruct (on_store_ok CryptoError_display _ _ _ _ E4) as [o Eo]. by erewrite prog_bind_run by exact Eo.
Qed.

End steps.
