(* ===== verification/Rotation.v ===== *)
(** * Key rotation and rekeying

    Models y2qd/src/handlers/keys.rs: appending a key epoch to a bucket, the registry of
    rekey jobs, the job that re-encrypts old objects and prunes old epochs.

    Handlers run in the [World] of [Acl]; starting and running a job also has the
    registry, and the object half of the storage trait, an interface here whose listing is
    the index of [Index].  That a guarded buffer cannot be allocated, log lines and
    response bodies are not modelled. *)

From stdpp Require Import pretty sorting.
From S2P Require Import Prelude Effects Primitives Types Crypto Sink Cipher Slots Session BucketKeys Lex Query Index IndexSpec Authz Acl.

(** ** The registry *)

Inductive RekeyState : Type := Running (percent : Z) | Completed | Failed (reason : string).
Abbreviation RekeyRegistry := (gmap string RekeyState).

Definition is_running (s : option RekeyState) : bool := match s with Some (Running _) => true | _ => false end.

Definition try_start (reg : RekeyRegistry) (bucket : string) : result Error RekeyRegistry :=
  if is_running (reg !! bucket) then Err (RekeyAlreadyRunning bucket) else Ok (<[bucket := Running 0]> reg).

(** [rekey_status]'s body. *)
Definition status_of (s : option RekeyState) : string * option Z * option string :=
  match s with
  | None => ("idle", None, None)
  | Some (Running p) => ("running", Some p, None)
  | Some Completed => ("completed", None, None)
  | Some (Failed r) => ("failed", None, Some r)
  end.

Section rotate.
Context {A : AeadOps} {K : KemOps} {H : HkdfOps} {B : Base64Ops} {R : RngOps} {L : ListingOps} {US : UserStoreReader}.

(** ** Rotating *)

Definition no_key_material (bucket operation : string) : Error :=
  InternalError bucket "" operation "bucket has no key material yet".

Definition with_versions (cfg : BucketConfig) (ks : list BucketKeyVersion) : BucketConfig :=
  mkBucketConfig (quota_bytes cfg) (default_sse cfg) (cors_allow_origin cfg) (owner cfg) (acl cfg) ks (acl_generation cfg).

Definition rotate_key (bucket : string) : handler (Z * list Z) :=
  _ ← authorize bucket PAdmin;
  st ← ask_storage;
  ex ← lift (bucket_exists st bucket);
  if negb ex then fail (not_found bucket) else
  cfg ← lift (get_bucket_config st bucket);
  newest ← lift (ok_or (current_key cfg) (no_key_material bucket "rotate_key"));
  if MAX_RETAINED_EPOCHS <=? blen (keys cfg) then fail (TooManyBucketKeyEpochs bucket (blen (keys cfg)) MAX_RETAINED_EPOCHS) else
  _ ← callers_bwk bucket cfg (bk_epoch newest);
  auth ← ask_auth;
  grantees ← lift (current_grantees cfg bucket (au_username auth) (si_persona (au_session auth)));
  let new_epoch := wrap32 (bk_epoch newest + 1) in
  kv ← lift_rng (fun r => '(kv, _, r) ← new_bucket_key_version new_epoch bucket grantees r; Ok (kv, r));
  let cfg := with_versions cfg (keys cfg ++ [kv]) in
  _ ← store_config bucket cfg;
  mret (new_epoch, bk_epoch <$> keys cfg).

(** ** Starting a job *)

Record RekeyWorld : Type := mkRekeyWorld { rk_http : World; rk_registry : RekeyRegistry }.

Definition http {T} (m : handler T) : prog RekeyWorld Error T := fun w =>
  let '(x, h) := m (rk_http w) in (x, mkRekeyWorld h (rk_registry w)).
Definition claim_job (bucket : string) : prog RekeyWorld Error unit := fun w =>
  match try_start (rk_registry w) bucket with
  | Ok reg => (Ok tt, mkRekeyWorld (rk_http w) reg)
  | Err e => (Err e, w)
  end.

(** The caller's own copy of an epoch's secret key. *)
Definition callers_key (bucket : string) (cfg : BucketConfig) (epoch : Z) : handler bytes := fun w =>
  let session := au_session (w_auth w) in
  match with_identity_sk (keyring (w_sessions w)) session (fun sk =>
          read_key cfg bucket epoch (au_username (w_auth w)) (Z.to_nat (si_persona session)) sk) with
  | Err _ => (Err auth_app_error, w)
  | Ok res => (res, w)
  end.

Definition resolve_epoch (bucket : string) (cfg : BucketConfig) (newest : Z) (kv : BucketKeyVersion) (sks : gmap Z bytes)
  : prog RekeyWorld Error (gmap Z bytes) :=
  if bk_epoch kv <? newest
  then sk ← http (callers_key bucket cfg (bk_epoch kv)); mret (<[bk_epoch kv := sk]> sks)
  else mret sks.

(** Answers with the keys the spawned job works with. *)
Definition start_rekey (bucket : string) : prog RekeyWorld Error (gmap Z bytes) :=
  _ ← http (authorize bucket PAdmin);
  st ← http ask_storage;
  ex ← lift_res (bucket_exists st bucket);
  _ ← guard_not (negb ex) (not_found bucket);
  cfg ← lift_res (get_bucket_config st bucket);
  newest ← lift_res (ok_or (current_key cfg) (no_key_material bucket "rekey"));
  _ ← http (callers_bwk bucket cfg (bk_epoch newest));
  _ ← claim_job bucket;
  for_each (resolve_epoch bucket cfg (bk_epoch newest)) (keys cfg) empty.

Definition rekey_status (bucket : string) : prog RekeyWorld Error (string * option Z * option string) :=
  _ ← http (authorize bucket PAdmin);
  gets (fun w => status_of (rk_registry w !! bucket)).

End rotate.

(** ** The job *)

(** The object half of the storage trait; a put is opened, written to its sink and
    committed, and the write offset is what its guard remembers. *)
Class ObjectOps (Snk : Type) {L : ListingOps} : Type := {
  list_objects : storage -> string -> option string -> nat -> result Error ListPage;
  get_object : storage -> string -> string -> result Error bytes;
  describe : storage -> string -> string -> result Error Metadata;
  begin_streaming_put : storage -> string -> string -> result Error (Snk * Z * storage);
  commit_put : storage -> string -> string -> Z -> Snk -> LabelSet -> PlaintextMetrics -> CipherMetadata -> result Error storage;
}.

(** Why a job stops: with a reason, or, in the model, for lack of fuel. *)
Inductive RekeyStop : Type := Reason (what : string) | OutOfFuel.

Section job.
Context {A : AeadOps} {K : KemOps} {H : HkdfOps} {X : Xxh3Ops} {B : Base64Ops} {R : RngOps} {L : ListingOps}.
Context {Snk : Type} {SO : SinkOps Snk} {OO : ObjectOps Snk}.

Record JobWorld : Type := mkJobWorld { job_storage : storage; job_registry : RekeyRegistry }.

Definition set_job_storage (st : storage) (w : JobWorld) : JobWorld := mkJobWorld st (job_registry w).
Definition set_state (bucket : string) (s : RekeyState) (w : JobWorld) : JobWorld :=
  mkJobWorld (job_storage w) (<[bucket := s]> (job_registry w)).

Abbreviation job := (prog JobWorld RekeyStop).

Definition reason {T} (m : result Error T) : job T := lift_res (map_err (fun e => Reason (Error_display e)) m).
Definition or_reason {T} (o : option T) (what : string) : job T := lift_res (ok_or o (Reason what)).

Definition epoch_of (m : Metadata) : Z := default 0 (md_key_epoch m).
Definition stale_of (current_epoch : Z) (items : list Metadata) : list (string * Z) :=
  omap (fun m => if epoch_of m <? current_epoch then Some (md_key m, epoch_of m) else None) items.

(** The paging loop; [None] when the fuel is not enough. *)
Fixpoint collect_stale_loop (fuel : nat) (st : storage) (bucket : string) (current_epoch : Z) (after : option string)
    (out : list (string * Z)) : option (result Error (list (string * Z))) :=
  match fuel with
  | O => None
  | S fuel =>
      match list_objects st bucket after (page_limit (Some MAX_LIST_LIMIT)) with
      | Err e => Some (Err e)
      | Ok page =>
          let out := out ++ stale_of current_epoch (lp_items page) in
          match lp_next page with
          | Some cursor => collect_stale_loop fuel st bucket current_epoch (Some cursor) out
          | None => Some (Ok out)
          end
      end
  end.
Definition collect_stale_keys (fuel : nat) (st : storage) (bucket : string) (current_epoch : Z)
  : option (result Error (list (string * Z))) := collect_stale_loop fuel st bucket current_epoch None [].

(** One object: the [i]-th of [total]. [r] is the random source at that point. *)
Definition rekey_one (bucket : string) (epoch_sks : gmap Z bytes) (new_pk : bytes) (new_epoch chunk_size : Z) (total : nat)
    (rngs : nat -> rng) (item : nat * (string * Z)) (_ : unit) : job unit :=
  let '(i, (key, old_epoch)) := item in
  old_sk ← or_reason (epoch_sks !! old_epoch) ("no cached key for epoch " ++ pretty old_epoch ++ " (object " ++ key ++ ")")%string;
  st ← gets job_storage;
  obj ← reason (get_object st bucket key);
  existing ← reason (describe st bucket key);
  plaintext ← reason (decrypt_after_get old_sk bucket key obj (md_size existing));
  '(snk, woff, st) ← reason (begin_streaming_put st bucket key);
  _ ← modify (set_job_storage st);
  '(snk, pm, cm) ← reason (encrypt_bytes_for_put new_pk new_epoch plaintext snk bucket key woff chunk_size (rngs i));
  st ← reason (commit_put st bucket key woff snk (md_labels existing) pm cm);
  _ ← modify (set_job_storage st);
  modify (set_state bucket (Running (Z.of_nat (((i + 1) * 100) / Nat.max total 1)))).

(** Prune what is not the newest epoch and persist. *)
Definition prune_epochs (bucket : string) (newest : Z) : job unit :=
  st ← gets job_storage;
  cfg ← reason (get_bucket_config st bucket);
  st ← reason (set_bucket_config st bucket (with_versions cfg (filter (fun k => bk_epoch k = newest) (keys cfg))));
  modify (set_job_storage st).

Definition run_rekey (fuel : nat) (bucket : string) (epoch_sks : gmap Z bytes) (chunk_size : Z) (rngs : nat -> rng) : job unit :=
  st ← gets job_storage;
  cfg ← reason (get_bucket_config st bucket);
  newest ← or_reason (current_key cfg) "bucket has no key material";
  new_pk ← or_reason (b64_decode (public_key_b64 newest)) "malformed bucket public key";
  stale ← (match collect_stale_keys fuel st bucket (bk_epoch newest) with
           | Some res => reason res
           | None => throw OutOfFuel
           end);
  _ ← for_each (rekey_one bucket epoch_sks new_pk (bk_epoch newest) chunk_size (length stale) rngs) (imap pair stale) tt;
  prune_epochs bucket (bk_epoch newest).

(** The spawned task: run, then record the outcome. *)
Definition rekey_job (fuel : nat) (bucket : string) (epoch_sks : gmap Z bytes) (chunk_size : Z) (rngs : nat -> rng) : job unit :=
  match_res (run_rekey fuel bucket epoch_sks chunk_size rngs)
    (fun _ => modify (set_state bucket Completed))
    (fun stop => match stop with
                 | Reason what => modify (set_state bucket (Failed what))
                 | OutOfFuel => throw OutOfFuel
                 end).

End job.
