(* ===== verification/RotationSpec.v ===== *)
(** * What rotation and rekeying do

    Rotation gives the new epoch to exactly the bucket's present readers; a rekey job that
    completes has moved every object to the newest epoch with its contents unchanged.
    Also: how a start that fails half way blocks every later one, and how a job undoes a
    rotation it overlaps. *)

From stdpp Require Import pretty sorting.
From S2P Require Import Prelude Effects Primitives Types Crypto Envelope Sink EncryptSession Cipher Slots Session BucketKeys Lex Query Index IndexSpec Authz Acl Rotation.

Section rotate.
Context {A : AeadOps} {K : KemOps} {H : HkdfOps} {B : Base64Ops} {R : RngOps} {L : ListingOps} {US : UserStoreReader}.
Context {AL : AeadLaws} {KL : KemLaws} {HL : HkdfLaws} {BL : Base64Laws} {RL : RngLaws} {LL : ListingLaws}.

(** ** Rotation *)

(** Who the new epoch is sealed to. *)
Definition entitled (cfg : BucketConfig) (caller u : string) : Prop :=
  u = caller \/ owner cfg = Some u \/ u ∈ read_implying_grantees (acl cfg).

Lemma seal_grantees_dom bucket epoch bwk gs : forall m r m' r', seal_grantees bucket epoch bwk gs m r = Ok (m', r') ->
  forall u, is_Some (m' !! u) -> is_Some (m !! u) \/ u ∈ gs.*1.
Proof using.
  induction gs as [|[u0 slots] gs IH]; intros m r m' r' E u Hu; cbn [seal_grantees] in E; [injection E as <- _; by left|].
  apply bind_Ok_inv in E as ([row r1] & _ & E). destruct (IH _ _ _ _ E u Hu) as [Hin|Hin]; [|by right; right].
  apply lookup_insert_is_Some' in Hin as [<-|?]; [right; left|by left].
Qed.

Lemma seal_grantees_keeps bucket epoch bwk gs : forall m r m' r' u,
  seal_grantees bucket epoch bwk gs m r = Ok (m', r') -> u ∉ gs.*1 -> m' !! u = m !! u.
Proof using.
  induction gs as [|[u0 slots] gs IH]; intros m r m' r' u E Hu; cbn [seal_grantees] in E; [by injection E as <- _|].
  apply bind_Ok_inv in E as ([row r1] & _ & E). cbn [fmap list_fmap fst] in Hu. apply not_elem_of_cons in Hu as [Hne Hu].
  rewrite (IH _ _ _ _ _ E Hu). by rewrite lookup_insert_ne.
Qed.

Lemma seal_grantees_row bucket epoch bwk gs : blen bwk = 32 -> forall m r m' r', seal_grantees bucket epoch bwk gs m r = Ok (m', r') ->
  NoDup gs.*1 -> forall u dks auths, (u, mkGranteeSlots (published dks) auths) ∈ gs ->
  length dks = CREDENTIAL_SLOTS -> length auths = CREDENTIAL_SLOTS ->
  exists row, m' !! u = Some row /\ length row = CREDENTIAL_SLOTS /\
    forall i dk a s, dks !! i = Some dk -> auths !! i = Some a -> row !! i = Some s -> entry_ok bucket epoch u bwk i a dk s.
Proof using AL KL HL BL RL.
  intros Hb. induction gs as [|[u0 slots] gs IH]; intros m r m' r' E Hnd u dks auths Hin Hd Ha; [by apply elem_of_nil in Hin|].
  cbn [seal_grantees] in E. apply bind_Ok_inv in E as ([row r1] & Er & E). cbn [fmap list_fmap fst] in Hnd.
  apply NoDup_cons in Hnd as [Hu0 Hnd]. apply elem_of_cons in Hin as [[= <- <-]|Hin].
  - destruct (seal_grant_slots_spec bucket epoch u bwk dks auths r Hb Hd Ha) as (row' & r2 & Er' & Hl & Hall).
    rewrite Er in Er'. injection Er' as <- <-. exists row. rewrite (seal_grantees_keeps _ _ _ _ _ _ _ _ _ E Hu0), lookup_insert_eq. done.
  - by apply (IH _ _ _ _ E Hnd u dks auths).
Qed.

(** What the other personas of a grantee find in their entries. *)
Lemma seal_grantees_decoys bucket epoch bwk gs : forall m r m' r', seal_grantees bucket epoch bwk gs m r = Ok (m', r') ->
  NoDup gs.*1 -> forall u dks auths, (u, mkGranteeSlots (published dks) auths) ∈ gs -> exists row, m' !! u = Some row /\
    forall i dk s, dks !! i = Some dk -> auths !! i = Some false -> row !! i = Some s ->
      exists r0, drawn_after r r0 /\
        seal.open_sealed (seal.sk_bytes_of dk) s (seal.bucket_grant_aad bucket epoch u (Z.of_nat i)) = Ok (fill_bytes r0 32).1.
Proof using AL KL HL BL RL.
  induction gs as [|[u0 slots] gs IH]; intros m r m' r' E Hnd u dks auths Hin; [by apply elem_of_nil in Hin|].
  cbn [seal_grantees] in E. apply bind_Ok_inv in E as ([row r1] & Er & E). cbn [fmap list_fmap fst] in Hnd.
  apply NoDup_cons in Hnd as [Hu0 Hnd]. unfold seal_grant_slots in Er. destruct (negb _ || negb _); [done|].
  apply elem_of_cons in Hin as [[= <- <-]|Hin].
  - exists row. rewrite (seal_grantees_keeps _ _ _ _ _ _ _ _ _ E Hu0), lookup_insert_eq. split; [done|].
    intros i dk s Hd Ha Hs. exact (seal_slots_decoys _ _ _ _ _ _ _ _ _ _ Er i dk s Hd Ha Hs).
  - destruct (IH _ _ _ _ E Hnd u dks auths Hin) as (row' & Hrow & Hdec). exists row'. split; [done|]. intros i dk s Hd Ha Hs.
    destruct (Hdec i dk s Hd Ha Hs) as (r0 & Hr & Ho). exists r0. split; [|done]. etrans; [by eapply seal_slots_from_draws|exact Hr].
Qed.

Lemma grantees_of_spec bucket caller persona us : forall gs, grantees_of bucket caller persona us = Ok gs ->
  (forall u, u ∈ gs.*1 -> u ∈ us) /\
  (NoDup us -> NoDup gs.*1) /\
  (forall u rec, u ∈ us -> user_get u = Ok (Some rec) ->
     (u, mkGranteeSlots (identity_pk_b64 <$> ur_slots rec)
           (only_slot (Z.to_nat (if bool_decide (u = caller) then persona else ur_primary_slot rec)))) ∈ gs).
Proof using.
  induction us as [|u0 us IH]; intros gs E; cbn [grantees_of] in E.
  { injection E as <-. split_and!; [by intros u ?%elem_of_nil|done|by intros u rec ?%elem_of_nil]. }
  apply bind_Ok_inv in E as (rec & Er & E). apply map_err_Ok in Er. apply bind_Ok_inv in E as (gs' & Eg & E).
  destruct (IH gs' Eg) as (H1 & H2 & H3). destruct rec as [rec|]; injection E as <-.
  - cbn [fmap list_fmap fst]. split_and!.
    + intros u [->|Hu]%elem_of_cons; [left|right; auto].
    + intros [Hn Hnd]%NoDup_cons. apply NoDup_cons. auto.
    + intros u rec' [->|Hu]%elem_of_cons Hg; [|right; auto]. rewrite Er in Hg. injection Hg as <-. left.
  - split_and!.
    + intros u Hu. right. auto.
    + intros [_ ?]%NoDup_cons. auto.
    + intros u rec' [->|Hu]%elem_of_cons Hg; [congruence|auto].
Qed.

Lemma sorted_strings_NoDup s : NoDup (sorted_strings s).
Proof using. unfold sorted_strings. rewrite merge_sort_Permutation. apply NoDup_elements. Qed.

Lemma entitled_grantees cfg bucket caller persona gs : current_grantees cfg bucket caller persona = Ok gs ->
  (forall u, u ∈ gs.*1 -> entitled cfg caller u) /\ NoDup gs.*1 /\
  (forall u rec, entitled cfg caller u -> user_get u = Ok (Some rec) ->
     (u, mkGranteeSlots (identity_pk_b64 <$> ur_slots rec)
           (only_slot (Z.to_nat (if bool_decide (u = caller) then persona else ur_primary_slot rec)))) ∈ gs).
Proof using.
  unfold current_grantees. cbv zeta. set (us := sorted_strings _). intros E. apply grantees_of_spec in E as (H1 & H2 & H3).
  assert (Hus : forall u, u ∈ us <-> entitled cfg caller u).
  { intros u. unfold us. rewrite elem_of_sorted_strings. unfold entitled. destruct (owner cfg) as [o|].
    - rewrite !elem_of_union, !elem_of_singleton. split; [intros [?|[->|?]]; auto|intros [?|[[= ->]|?]]; auto].
    - rewrite elem_of_union, elem_of_singleton. split; [intros [?|?]; auto|intros [?|[?|?]]; [auto|done|auto]]. }
  split_and!; [intros u Hu; by apply Hus, H1|apply H2, sorted_strings_NoDup|intros u rec Hu; by apply H3, Hus].
Qed.

Lemma new_version_inv epoch bucket gs r kv bwk r' : new_bucket_key_version epoch bucket gs r = Ok (kv, bwk, r') ->
  bk_epoch kv = epoch /\ blen bwk = 32 /\ exists bdk rk r1 r2, public_key_b64 kv = b64_encode (seal.pk_bytes_of bdk) /\
    unwrap_with_key (sk_blob kv) bwk (seal.bucket_sk_wrap_aad bucket epoch) = Ok (seal.sk_bytes_of bdk) /\
    bwk = (fill_bytes rk 32).1 /\ drawn_after (fill_bytes rk 32).2 r1 /\
    seal_grantees bucket epoch bwk gs empty r1 = Ok (grants kv, r2).
Proof using AL KL RL.
  unfold new_bucket_key_version, kem.keypair. destruct (fill_bytes r 64) as [seed r1].
  pose proof (fill_bytes_len r1 32) as Hb. destruct (fill_bytes r1 32) as [bwk0 r2] eqn:Ebwk. cbn [fst] in Hb. set (bdk := dk_generate seed).
  destruct (wrap_with_key_shape (dk_to_expanded_bytes bdk) bwk0 (seal.bucket_sk_wrap_aad bucket epoch) r2)
    as (w & r3 & Ew & _ & _ & Hu).
  { rewrite dk_bytes_len. unfold AEAD_P_MAX. lia. }
  rewrite Ew. cbn [map_err mbind result_bind]. intros E. apply bind_Ok_inv in E as ([gr r4] & Eg & E). injection E as <- <- <-.
  split_and!; [done|unfold blen; lia|]. exists bdk, r1, r3, r4. rewrite Ebwk. split_and!; try done. by eapply wrap_with_key_draws.
Qed.

(** A successful rotation, step by step. *)
Lemma rotate_key_Ok bucket w e es w' : rotate_key bucket w = (Ok (e, es), w') ->
  exists cfg newest gs kv bwk r r', get_bucket_config (w_storage w) bucket = Ok cfg /\ current_key cfg = Some newest /\
    blen (keys cfg) < MAX_RETAINED_EPOCHS /\ e = wrap32 (bk_epoch newest + 1) /\
    current_grantees cfg bucket (au_username (w_auth w)) (si_persona (au_session (w_auth w))) = Ok gs /\
    new_bucket_key_version e bucket gs r = Ok (kv, bwk, r') /\
    get_bucket_config (w_storage w') bucket = Ok (with_versions cfg (keys cfg ++ [kv])) /\
    es = bk_epoch <$> keys cfg ++ [kv].
Proof using AL LL.
  intros E. unfold rotate_key in E. handler_step E d w0 E0.
  pose proof (authorize_frame bucket PAdmin w) as F0. rewrite E0 in F0. cbn [snd] in F0. destruct F0 as (Fst & _ & Fu & Fr & _).
  handler_step E st w1 E1. injection E1 as <- <-. handler_step E present w1 E1. apply lift_Ok in E1 as [E1 ->].
  destruct present; [|done]. cbn [negb] in E. handler_step E cfg w1 E2. apply lift_Ok in E2 as [E2 ->].
  handler_step E newest w1 E3. apply lift_Ok in E3 as [E3 ->]. destruct (current_key cfg) as [nk|] eqn:Ec; [|done]. injection E3 as ->.
  destruct (Z.leb_spec MAX_RETAINED_EPOCHS (blen (keys cfg))) as [|Hlt]; [done|].
  handler_step E bwk0 w1 E4. apply callers_bwk_Ok in E4 as [-> _].
  handler_step E auth w1 E5. injection E5 as <- <-. handler_step E gs w1 E6. apply lift_Ok in E6 as [E6 ->].
  cbv zeta in E. handler_step E kv w1 E7. unfold lift_rng in E7.
  destruct (new_bucket_key_version _ bucket gs (w_rng w0)) as [[[kv' bwk] r']|] eqn:Ek; [|done]. cbn in E7. injection E7 as -> <-.
  handler_step E u w2 E8. injection E as <- <- <-. unfold store_config in E8. cbn [w_storage] in E8.
  destruct (set_bucket_config (w_storage w0) bucket _) as [st'|] eqn:Es; [|done]. injection E8 as _ <-.
  rewrite Fst in E2. rewrite Fu, Fr in E6. apply config_of_set in Es. by exists cfg, newest, gs, kv, bwk, (w_rng w0), r'.
Qed.

Lemma find_epoch_snoc cfg kv e : e ∉ bk_epoch <$> keys cfg \/ e <> bk_epoch kv ->
  find_epoch (with_versions cfg (keys cfg ++ [kv])) e = if decide (e = bk_epoch kv) then Some kv else find_epoch cfg e.
Proof using.
  intros Hor. unfold find_epoch. cbn [keys with_versions]. case_decide as He.
  - destruct Hor as [Hne|]; [|done]. rewrite list_find_app_r.
    + subst e. cbn [list_find]. by rewrite decide_True by done.
    + apply list_find_None, Forall_forall. intros k Hk Hke. apply Hne, list_elem_of_fmap. eauto.
  - destruct (list_find (fun k => bk_epoch k = e) (keys cfg)) as [[i k]|] eqn:Ef.
    + by rewrite (list_find_app_l _ _ _ _ _ Ef).
    + rewrite list_find_app_r by done. cbn [list_find]. by rewrite decide_False by congruence.
Qed.

(** Uploads go to the epoch that was appended last. *)
Lemma resolve_write_snoc cfg kv bdk bucket : public_key_b64 kv = b64_encode (seal.pk_bytes_of bdk) ->
  resolve_write_key (with_versions cfg (keys cfg ++ [kv])) bucket = Ok (bk_epoch kv, seal.pk_bytes_of bdk).
Proof using BL.
  intros Hpk. unfold resolve_write_key, current_key. cbn [keys with_versions]. rewrite last_snoc. cbn [ok_or mbind result_bind].
  by rewrite Hpk, b64_decode_encode.
Qed.

(** What one reader gets of a new epoch [kv] whose secret key is [bdk]'s and whose wrap key
    is the draw at [rk]: the persona at [slot] opens it to the secret key; every other
    persona finds 32 bytes that were drawn after the wrap key, which do not open it unless
    they happen to unwrap the same blob. *)
Definition through_one_persona (cfg : BucketConfig) (bucket : string) (kv : BucketKeyVersion) (bdk : Dk) (rk : rng)
    (u : string) (dks : list Dk) (slot : nat) : Prop :=
  forall i dk, dks !! i = Some dk ->
    if decide (i = slot) then read_key cfg bucket (bk_epoch kv) u i (seal.sk_bytes_of dk) = Ok (seal.sk_bytes_of bdk)
    else exists r0, let decoy := (fill_bytes r0 32).1 in drawn_after (fill_bytes rk 32).2 r0 /\
      open_bwk cfg bucket (bk_epoch kv) u i (seal.sk_bytes_of dk) = Ok decoy /\
      (is_ok (unwrap_with_key (sk_blob kv) decoy (seal.bucket_sk_wrap_aad bucket (bk_epoch kv))) = false ->
       read_key cfg bucket (bk_epoch kv) u i (seal.sk_bytes_of dk) = Err (forbidden bucket)).

Lemma only_slot_others i j : (j < CREDENTIAL_SLOTS)%nat -> j <> i -> only_slot i !! j = Some false.
Proof using.
  intros Hj Hne. unfold only_slot. rewrite list_lookup_fmap, lookup_seq_lt by done. cbn. by rewrite bool_decide_eq_false_2.
Qed.

Lemma grantee_through_one cfg bucket kv bdk bwk rk r1 r2 gs u dks slot :
  has_version cfg kv -> public_key_b64 kv = b64_encode (seal.pk_bytes_of bdk) -> blen bwk = 32 ->
  unwrap_with_key (sk_blob kv) bwk (seal.bucket_sk_wrap_aad bucket (bk_epoch kv)) = Ok (seal.sk_bytes_of bdk) ->
  drawn_after (fill_bytes rk 32).2 r1 -> seal_grantees bucket (bk_epoch kv) bwk gs empty r1 = Ok (grants kv, r2) -> NoDup gs.*1 ->
  (u, mkGranteeSlots (published dks) (only_slot slot)) ∈ gs -> length dks = CREDENTIAL_SLOTS ->
  through_one_persona cfg bucket kv bdk rk u dks slot.
Proof using AL KL HL BL RL.
  intros Hv Hpk Hb Hblob Hrk Hseal Hnd Hin Hl i dk Hdk. assert (Hi : (i < CREDENTIAL_SLOTS)%nat) by (rewrite <- Hl; by apply lookup_lt_Some in Hdk).
  destruct (seal_grantees_row _ _ _ _ Hb _ _ _ _ Hseal Hnd u dks (only_slot slot) Hin Hl eq_refl) as (row & Hrow & Hrl & Hent).
  case_decide as Hslot.
  - subst slot. apply (read_key_authorized _ kv bucket bdk bwk u dks (only_slot i) i dk); try done; [|by apply only_slot_lookup].
    constructor; [done|done|]. by exists row.
  - destruct (lookup_lt_is_Some_2 row i) as [s Hs]; [by rewrite Hrl|].
    destruct (seal_grantees_decoys _ _ _ _ _ _ _ _ Hseal Hnd u dks (only_slot slot) Hin) as (row' & Hrow' & Hdec).
    rewrite Hrow in Hrow'. injection Hrow' as <-. pose proof (only_slot_others slot i Hi Hslot) as Ha.
    destruct (Hdec i dk s Hdk Ha Hs) as (r0 & Hr0 & Ho). exists r0. cbv zeta.
    destruct (open_bwk_entry cfg kv bucket u row dk bwk i false s Hv Hrow Hrl Hs (Hent i dk false s Hdk Ha Hs)) as (p & Hp & Hpl & _).
    assert (Heq : p = (fill_bytes r0 32).1).
    { unfold open_bwk in Hp. rewrite Hv in Hp. cbn [ok_or mbind result_bind] in Hp. rewrite Hrow in Hp. cbn [ok_or mbind result_bind] in Hp.
      rewrite bool_decide_eq_true_2 in Hp by done. cbn [negb] in Hp. rewrite Hs in Hp. cbn [ok_or mbind result_bind] in Hp.
      rewrite Ho in Hp. cbn [map_err mbind result_bind] in Hp. destruct (_ =? _); [|done]. by injection Hp as <-. }
    rewrite <- Heq in *. split_and!; [by etrans|done|]. intros Hno. by apply (read_key_decoy cfg kv bucket u row i s (seal.sk_bytes_of dk) p).
Qed.

(** C10: a rotation gives the new epoch to exactly the bucket's present readers, each through
    one persona. It keeps at most eight epochs; new writes go to the public half of a fresh
    key pair; keys of the older epochs stay as they were; someone who is neither the caller,
    nor the owner, nor a reader on the ACL cannot open the new epoch with any identity key.
    Everyone who is opens it through one persona, the caller through the current one and
    everybody else through the primary one; what their other personas find instead of the
    wrap key are random bytes drawn after it, with which they are refused. *)
Theorem rotation_reseals (bucket : string) (w w' : World) (e : Z) (es : list Z) :
  rotate_key bucket w = (Ok (e, es), w') ->
  let caller := au_username (w_auth w) in
  exists cfg cfg' newest bdk kv rk, get_bucket_config (w_storage w) bucket = Ok cfg /\ current_key cfg = Some newest /\
    e = wrap32 (bk_epoch newest + 1) /\ blen (keys cfg') <= MAX_RETAINED_EPOCHS /\ bk_epoch kv = e /\
    get_bucket_config (w_storage w') bucket = Ok cfg' /\ resolve_write_key cfg' bucket = Ok (e, seal.pk_bytes_of bdk) /\
    unwrap_with_key (sk_blob kv) (fill_bytes rk 32).1 (seal.bucket_sk_wrap_aad bucket e) = Ok (seal.sk_bytes_of bdk) /\
    (forall e', e' <> e -> find_epoch cfg' e' = find_epoch cfg e') /\
    (e ∉ bk_epoch <$> keys cfg ->
      find_epoch cfg' e = Some kv /\
      (forall u slot sk, ~ entitled cfg caller u -> read_key cfg' bucket e u slot sk = Err (forbidden bucket)) /\
      (forall u rec dks, entitled cfg caller u -> user_get u = Ok (Some rec) ->
         identity_pk_b64 <$> ur_slots rec = published dks -> length dks = CREDENTIAL_SLOTS ->
         through_one_persona cfg' bucket kv bdk rk u dks
           (Z.to_nat (if bool_decide (u = caller) then si_persona (au_session (w_auth w)) else ur_primary_slot rec)))).
Proof using AL KL HL BL RL LL.
  intros E caller. apply rotate_key_Ok in E as (cfg & newest & gs & kv & bwk & r & r' & Hc & Hn & Hlen & He & Hgs & Hkv & Hc' & _).
  apply new_version_inv in Hkv as (Hek & Hbwk & bdk & rk & r1 & r2 & Hpk & Hblob & Hdraw & Hafter & Hseal).
  apply entitled_grantees in Hgs as (Hin & Hnd & Hall). fold caller in Hin, Hall.
  exists cfg, (with_versions cfg (keys cfg ++ [kv])), newest, bdk, kv, rk.
  assert (Hfind := find_epoch_snoc cfg kv). rewrite Hek in Hfind. split_and!; try done.
  - cbn [keys with_versions]. rewrite blen_app, blen_cons, blen_nil. lia.
  - rewrite <- Hek. by apply resolve_write_snoc.
  - by rewrite <- Hdraw.
  - intros e' Hne. rewrite Hfind by (by right). by rewrite decide_False.
  - intros Hfresh. specialize (Hfind e (or_introl Hfresh)). rewrite decide_True in Hfind by done. split_and!; [done| |].
    + intros u slot sk Hno. unfold read_key, open_bwk. rewrite Hfind. cbn [ok_or mbind result_bind].
      destruct (grants kv !! u) as [row|] eqn:Eu; [|done]. exfalso. apply Hno, Hin.
      destruct (seal_grantees_dom _ _ _ _ _ _ _ _ Hseal u) as [Hs|]; [by exists row| |done]. rewrite lookup_empty in Hs. by destruct Hs.
    + intros u rec dks Hu Hget Hpub Hl. specialize (Hall u rec Hu Hget). rewrite Hpub in Hall. rewrite <- Hek in Hblob, Hseal.
      apply (grantee_through_one _ bucket kv bdk bwk rk r1 r2 gs); try done. unfold has_version. by rewrite Hek.
Qed.

(** ** Starting a job *)

Lemma post_http {T} (m : handler T) (P : T -> RekeyWorld -> Prop) Q w :
  (forall x h, m (rk_http w) = (Ok x, h) -> P x (mkRekeyWorld h (rk_registry w))) ->
  (forall e h, m (rk_http w) = (Err e, h) -> Q e (mkRekeyWorld h (rk_registry w))) -> post (http m) P Q w.
Proof using. intros HP HQ. unfold post, http. destruct (m (rk_http w)) as [[x|e] h]; eauto. Qed.

Lemma start_rekey_blocked bucket w : is_running (rk_registry w !! bucket) = true ->
  post (start_rekey bucket) (fun _ _ => False) (fun _ w' => rk_registry w' = rk_registry w) w.
Proof using.
  intros Hrun. unfold start_rekey. apply post_bind, post_http; [intros d h _|done]. apply post_bind, post_http; [intros st h' _|done].
  apply post_bind, post_lift; [intros ex _|done]. apply post_bind, post_guard; [intros _|done].
  apply post_bind, post_lift; [intros cfg _|done]. apply post_bind, post_lift; [intros newest _|done].
  apply post_bind, post_http; [intros bwk h2 _|done]. apply post_bind. unfold claim_job, try_start, post.
  cbn [rk_registry]. by rewrite Hrun.
Qed.

(** A rekey that fails while it resolves the old epochs blocks the bucket for good: if
    no job was running and the start is refused but leaves the bucket marked as running,
    then no job exists, yet every later start, by anyone and whatever has changed, is
    refused and leaves the mark in place. *)
Theorem failed_start_blocks (bucket : string) (w w' : RekeyWorld) (e : Error) :
  is_running (rk_registry w !! bucket) = false -> start_rekey bucket w = (Err e, w') ->
  is_running (rk_registry w' !! bucket) = true ->
  rk_registry w' !! bucket = Some (Running 0) /\
  forall later, exists e2 h2, start_rekey bucket (mkRekeyWorld later (rk_registry w')) = (Err e2, mkRekeyWorld h2 (rk_registry w')).
Proof using.
  intros Hidle E Hrun. split.
  - assert (Hp : post (start_rekey bucket) (fun _ _ => True) (fun _ w' => rk_registry w' = rk_registry w \/ rk_registry w' !! bucket = Some (Running 0)) w).
    { unfold start_rekey. apply post_bind, post_http; [intros d h _|by left]. apply post_bind, post_http; [intros st h' _|by left].
      apply post_bind, post_lift; [intros ex _|by left]. apply post_bind, post_guard; [intros _|by left].
      apply post_bind, post_lift; [intros cfg _|by left]. apply post_bind, post_lift; [intros newest _|by left].
      apply post_bind, post_http; [intros bwk h2 _|by left]. apply post_bind. unfold claim_job, try_start, post at 1.
      cbn [rk_registry]. rewrite Hidle. eapply post_mono; [| |apply (post_for_each _ (fun w => rk_registry w !! bucket = Some (Running 0)))]; [done|by right| |].
      - intros kv sks w1 _ Hw1. unfold resolve_epoch. destruct (bk_epoch kv <? bk_epoch newest); [|by apply post_ret].
        apply post_bind, post_http; [|done]. intros sk h3 _. by apply post_ret.
      - apply lookup_insert_eq. }
    destruct (post_run_err _ _ _ _ _ _ Hp E) as [Hsame|]; [|done]. rewrite Hsame, Hidle in Hrun. done.
  - intros later. pose proof (start_rekey_blocked bucket (mkRekeyWorld later (rk_registry w')) Hrun) as Hp. unfold post in Hp.
    destruct (start_rekey bucket (mkRekeyWorld later (rk_registry w'))) as [[sks|e2] [h2 reg]]; [done|]. cbn in Hp. subst reg. eauto.
Qed.

End rotate.

(** ** The job *)

Section job.
Context {A : AeadOps} {K : KemOps} {H : HkdfOps} {X : Xxh3Ops} {B : Base64Ops} {R : RngOps} {L : ListingOps}.
Context {AL : AeadLaws} {KL : KemLaws} {HL : HkdfLaws} {XL : Xxh3Laws} {BL : Base64Laws} {RL : RngLaws} {LL : ListingLaws}.
Context {Snk : Type} {SO : SinkOps Snk} {SL : SinkLaws Snk} {OO : ObjectOps Snk}.
Context {RD : RedbOps} {J : MetadataJson} {RDL : RedbLaws}.

(** What the storage trait documents of the object operations. The objects of a bucket are
    stored bodies with their metadata; listing goes through the index, which holds the
    metadata of every object; a put leaves the object alone until it is committed, and
    then the object is what was written behind the reserved header, described by what the
    encryption reported; configurations and objects do not affect each other. *)
Class ObjectLaws : Type := {
  objects_of : storage -> string -> gmap string (bytes * Metadata);
  index_of : storage -> MetaIndex.IndexDb;
  catalog_of : storage -> gmap (string * string) Metadata;
  index_holds st : represents (index_of st) (catalog_of st);
  catalog_objects st b k : catalog_of st !! (b, k) = snd <$> objects_of st b !! k;
  list_objects_scan st b after limit : list_objects st b after limit =
    MetaIndex.scan_objects (MetaIndex.commit (index_of st)) b None after limit;
  get_object_view st b k body : get_object st b k = Ok body -> exists md, objects_of st b !! k = Some (body, md);
  describe_view st b k md : describe st b k = Ok md -> exists body, objects_of st b !! k = Some (body, md);
  begin_put_view st b k snk woff st' : begin_streaming_put st b k = Ok (snk, woff, st') ->
    sink_at_end snk woff /\ objects_of st' = objects_of st /\ get_bucket_config st' b = get_bucket_config st b;
  commit_put_view st b k woff snk ls pm cm st' : commit_put st b k woff snk ls pm cm = Ok st' ->
    get_bucket_config st' b = get_bucket_config st b /\
    exists md, objects_of st' b = <[k := (drop (Z.to_nat woff) (sink_file snk), md)]> (objects_of st b) /\
      md_size md = pm_size pm /\ md_labels md = ls /\ md_key_epoch md = Some (cm_key_epoch cm);
  set_config_objects st b c st' : set_bucket_config st b c = Ok st' -> objects_of st' = objects_of st;
}.

Context {OL : ObjectLaws}.

(** *** Collecting *)

Lemma stale_of_app cur l l' : stale_of cur (l ++ l') = stale_of cur l ++ stale_of cur l'.
Proof using. apply omap_app. Qed.

Lemma collect_stale_loop_spec st bucket cur : name_ok bucket -> forall fuel after l out,
  listing (catalog_of st) bucket None after l -> (length l < fuel)%nat ->
  exists res, collect_stale_loop fuel st bucket cur after out = Some res /\
    forall v, res = Ok v -> v = out ++ stale_of cur l.
Proof using OL RDL.
  intros Hb. induction fuel as [|fuel IH]; intros after l out Hl Hf; [lia|]. cbn [collect_stale_loop].
  destruct (list_objects st bucket after _) as [page|e] eqn:Ep; [|by eexists; split; [|intros ? ?]].
  rewrite list_objects_scan in Ep. set (n := page_limit (Some MAX_LIST_LIMIT)) in *.
  assert (Hn : (0 < n)%nat) by (apply Nat.ltb_lt; vm_compute; reflexivity). clearbody n.
  destruct (scan_objects_spec _ _ _ _ _ _ _ (index_holds st) Hb Ep) as (l' & Hl' & Hitems & Hnext).
  assert (l' = l) as -> by (by eapply listing_unique). cbv zeta. rewrite Hitems, Hnext.
  destruct (Nat.ltb_spec n (length l)) as [Hlt|Hge].
  - destruct (last (take n l)) as [lst|] eqn:Elast.
    2: { apply last_None, (f_equal length) in Elast. rewrite length_take in Elast. cbn in Elast. lia. }
    cbn [fmap option_fmap option_map]. destruct (IH (Some (md_key lst)) (drop n l) (out ++ stale_of cur (take n l))) as (res & Hres & Hv).
    + apply (listing_next _ _ _ after _ n); [done|by rewrite Elast].
    + rewrite length_drop. lia.
    + exists res. split; [done|]. intros v Ev. rewrite (Hv v Ev), <- app_assoc, <- stale_of_app. by rewrite take_drop.
  - eexists. split; [done|]. intros v [= <-]. by rewrite take_ge.
Qed.

Lemma stale_of_elem cur l k e : (k, e) ∈ stale_of cur l <-> exists m, m ∈ l /\ md_key m = k /\ epoch_of m = e /\ e < cur.
Proof using.
  unfold stale_of. rewrite list_elem_of_omap. split.
  - intros (m & Hin & He). destruct (Z.ltb_spec (epoch_of m) cur); [|done]. injection He as <- <-. eauto.
  - intros (m & Hin & <- & <- & Hlt). exists m. split; [done|]. by rewrite (proj2 (Z.ltb_lt _ _)).
Qed.

Lemma stale_of_NoDup cur l : NoDup (md_key <$> l) -> NoDup (stale_of cur l).*1.
Proof using.
  induction l as [|m l IH]; [by intros; constructor|]. cbn [fmap list_fmap]. intros [Hm Hnd]%NoDup_cons.
  unfold stale_of. cbn [omap list_omap]. destruct (epoch_of m <? cur); [|by apply IH]. cbn [fmap list_fmap fst]. apply NoDup_cons.
  split; [|by apply IH]. intros ([k e] & Hk & Hin)%list_elem_of_fmap. cbn [fst] in Hk. apply stale_of_elem in Hin as (m' & Hin & He & _).
  apply Hm, list_elem_of_fmap. exists m'. split; [congruence|done].
Qed.

Lemma listing_keys_NoDup M bucket prefix after l : listing M bucket prefix after l -> NoDup (md_key <$> l).
Proof using.
  intros [Hs Hm]. apply NoDup_fmap_2_strong; [|by apply key_lt_sorted_NoDup]. intros m m' Hin Hin' He.
  apply Hm in Hin as (_ & Hin & _). apply Hm in Hin' as (_ & Hin' & _). rewrite He in Hin. congruence.
Qed.

Lemma collected st bucket cur fuel : name_ok bucket -> (size (catalog_of st) < fuel)%nat ->
  exists res, collect_stale_keys fuel st bucket cur = Some res /\
    forall out, res = Ok out -> NoDup out.*1 /\
      forall k e, (k, e) ∈ out <-> exists body md, objects_of st bucket !! k = Some (body, md) /\ epoch_of md = e /\ e < cur.
Proof using OL RDL.
  intros Hb Hf. destruct (listing_exists _ _ bucket None None (index_holds st)) as (l & Hl & Hlen).
  destruct (collect_stale_loop_spec st bucket cur Hb fuel None l []) as (res & Hres & Hv); [done|lia|]. exists res. split; [done|].
  intros out Ho. specialize (Hv out Ho). cbn [app] in Hv. subst out. split; [by eapply stale_of_NoDup, listing_keys_NoDup|].
  intros k e. rewrite stale_of_elem. destruct Hl as [_ Hm]. split.
  - intros (m & Hin & <- & He & Hlt). apply Hm in Hin as (_ & Hin & _). rewrite catalog_objects in Hin.
    destruct (objects_of st bucket !! md_key m) as [[body md]|] eqn:Eo; [|done]. injection Hin as ->. eauto.
  - intros (body & md & Eo & He & Hlt). assert (Hc : catalog_of st !! (bucket, k) = Some md) by (by rewrite catalog_objects, Eo).
    destruct (rep_meta _ _ (index_holds st) _ _ _ Hc) as (Hbk & Hk & _). exists md. split_and!; try done.
    apply Hm. subst k. by split_and!.
Qed.


(** *** Moving one object *)

(** What became of an object [key] of [old_epoch]: its labels stand, it is at the newest
    epoch, and the new key opens it to the plaintext the old key opened it to. *)
Definition moved (bucket : string) (sks : gmap Z bytes) (dk : Dk) (newest : Z) (key : string) (old new : bytes * Metadata) : Prop :=
  exists sk T, sks !! epoch_of old.2 = Some sk /\ decrypt_after_get sk bucket key old.1 (md_size old.2) = Ok T /\
    md_labels new.2 = md_labels old.2 /\ md_key_epoch new.2 = Some newest /\ md_size new.2 = blen T /\
    decrypt_after_get (seal.sk_bytes_of dk) bucket key new.1 (md_size new.2) = Ok T.

Lemma rekey_one_spec bucket sks dk newest cs total rngs i key e w :
  in_u 32 newest -> 0 < cs <= u32_max ->
  post (rekey_one bucket sks (seal.pk_bytes_of dk) newest cs total rngs (i, (key, e)) tt)
    (fun _ w' => get_bucket_config (job_storage w') bucket = get_bucket_config (job_storage w) bucket /\
       exists old new, objects_of (job_storage w) bucket !! key = Some old /\
         (e = epoch_of old.2 -> moved bucket sks dk newest key old new) /\
         objects_of (job_storage w') bucket = <[key := new]> (objects_of (job_storage w) bucket)) (fun _ _ => True) w.
Proof using OL AL KL HL XL RL SL.
  intros Hep Hcs. unfold rekey_one, or_reason, reason.
  apply post_bind, post_lift; [intros sk Esk|done]. apply post_bind, post_gets.
  apply post_bind, post_lift; [intros obj Eo%map_err_Ok|done]. apply post_bind, post_lift; [intros md Emd%map_err_Ok|done].
  apply post_bind, post_lift; [intros T ET%map_err_Ok|done]. apply post_bind, post_lift; [intros [[snk woff] st1] Eb%map_err_Ok|done].
  apply post_bind, post_modify, post_bind, post_lift; [intros [[snk' pm] cm] Ee%map_err_Ok|done].
  apply post_bind, post_lift; [intros st2 Ec%map_err_Ok|done]. apply post_bind, post_modify, post_modify. cbn [set_state set_job_storage job_storage].
  destruct (sks !! e) as [sk'|] eqn:Es; [|done]. injection Esk as ->.
  apply get_object_view in Eo as (md1 & Eo). apply describe_view in Emd as (body1 & Emd). rewrite Eo in Emd. injection Emd as <- ->.
  destruct (begin_put_view _ _ _ _ _ _ Eb) as (Hat & Hobj & Hcfg). destruct (commit_put_view _ _ _ _ _ _ _ _ _ Ec) as (Hcfg2 & md' & Hobj2 & Hsz & Hls & Hke).
  destruct (bytes_put_decrypts _ _ _ _ _ _ _ _ _ _ _ _ Hep Hcs Hat Ee) as (Hpm & Hcm & Hd).
  split; [congruence|]. exists (obj, md), (drop (Z.to_nat woff) (sink_file snk'), md'). split_and!; [done| |by rewrite Hobj2, Hobj].
  intros He. cbn [snd] in He. subst e. exists sk, T. cbn [fst snd]. rewrite Hsz, Hpm, Hke, Hcm. by split_and!.
Qed.

Lemma rekey_loop_spec bucket sks dk newest cs total rngs : in_u 32 newest -> 0 < cs <= u32_max -> forall items w,
  NoDup (items.*2).*1 -> (forall i k e, (i, (k, e)) ∈ items -> exists old, objects_of (job_storage w) bucket !! k = Some old /\ epoch_of old.2 = e) ->
  post (for_each (rekey_one bucket sks (seal.pk_bytes_of dk) newest cs total rngs) items tt)
    (fun _ w' => get_bucket_config (job_storage w') bucket = get_bucket_config (job_storage w) bucket /\
       forall k, if decide (k ∈ (items.*2).*1)
         then exists old new, objects_of (job_storage w) bucket !! k = Some old /\ objects_of (job_storage w') bucket !! k = Some new /\
                moved bucket sks dk newest k old new
         else objects_of (job_storage w') bucket !! k = objects_of (job_storage w) bucket !! k) (fun _ _ => True) w.
Proof using OL AL KL HL XL RL SL.
  intros Hep Hcs. induction items as [|[i [key e]] items IH]; intros w Hnd Hold; cbn [for_each].
  { apply post_ret. split; [done|]. intros k. rewrite decide_False; [done|by intros ?%elem_of_nil]. }
  cbn [fmap list_fmap fst snd] in Hnd. apply NoDup_cons in Hnd as [Hk Hnd]. apply post_bind.
  eapply post_mono; [| |apply (rekey_one_spec bucket sks dk newest cs total rngs i key e w Hep Hcs)]; [|done].
  intros [] w1 (Hc1 & old & new & Ho & Hm & H1). destruct (Hold i key e) as (old' & Ho' & He); [left|]. rewrite Ho in Ho'. injection Ho' as <-.
  specialize (Hm (eq_sym He)). assert (Hother : forall k, k <> key -> objects_of (job_storage w1) bucket !! k = objects_of (job_storage w) bucket !! k).
  { intros k Hne. by rewrite H1, lookup_insert_ne. }
  eapply post_mono; [| |apply (IH w1 Hnd)]; [|done|].
  - intros [] w2 [Hc2 H2]. split; [congruence|]. intros k. specialize (H2 k). cbn [fmap list_fmap fst snd].
    destruct (decide (k = key)) as [->|Hne].
    + rewrite decide_True by left. rewrite decide_False in H2 by done. exists old, new. split_and!; [done| |done]. by rewrite H2, H1, lookup_insert_eq.
    + case_decide as Hin.
      * rewrite decide_True by (by right). by rewrite <- Hother.
      * rewrite decide_False by (by intros [?|?]%elem_of_cons). by rewrite H2, Hother.
  - intros j k e' Hin. destruct (Hold j k e') as (o & Hok & Heo); [by right|]. exists o. split; [|done]. rewrite Hother; [done|].
    intros ->. apply Hk, list_elem_of_fmap. exists (key, e'). split; [done|]. apply list_elem_of_fmap. by exists (j, (key, e')).
Qed.

Lemma imap_pair_snd {T} (l : list T) : (imap pair l).*2 = l.
Proof using. rewrite fmap_imap. rewrite <- (list_fmap_id l) at 2. by rewrite <- imap_const. Qed.

(** C11: a rekey that completes has moved every object and lost none. If the public key of
    the newest epoch belongs to [dk], then afterwards the bucket holds the same keys with
    the same labels; an object of an older epoch is now at the newest one, and the newest
    secret key opens it to exactly the plaintext the old epoch's key opened it to; an
    object that was already there is untouched; and the epochs kept are those of the
    newest number only. *)
Theorem rekey_preserves (fuel : nat) (bucket : string) (sks : gmap Z bytes) (cs : Z) (rngs : nat -> rng) (w w' : JobWorld) (dk : Dk) (cfg : BucketConfig) (newest : BucketKeyVersion) :
  name_ok bucket -> 0 < cs <= u32_max -> (size (catalog_of (job_storage w)) < fuel)%nat ->
  get_bucket_config (job_storage w) bucket = Ok cfg -> current_key cfg = Some newest -> in_u 32 (bk_epoch newest) ->
  public_key_b64 newest = b64_encode (seal.pk_bytes_of dk) ->
  run_rekey fuel bucket sks cs rngs w = (Ok tt, w') ->
  get_bucket_config (job_storage w') bucket = Ok (with_versions cfg (filter (fun k => bk_epoch k = bk_epoch newest) (keys cfg))) /\
  forall k, match objects_of (job_storage w) bucket !! k with
    | None => objects_of (job_storage w') bucket !! k = None
    | Some old => exists new, objects_of (job_storage w') bucket !! k = Some new /\
        if epoch_of old.2 <? bk_epoch newest then moved bucket sks dk (bk_epoch newest) k old new else new = old
    end.
Proof using OL AL KL HL XL RL SL BL LL RDL.
  intros Hb Hcs Hfuel Hcfg Hnew Hep Hpk E. run_post E. unfold run_rekey, or_reason, reason.
  apply post_bind, post_gets, post_bind, post_lift; [intros cfg0 Ec%map_err_Ok|done]. rewrite Hcfg in Ec. injection Ec as <-.
  apply post_bind, post_lift; [intros nk En|done]. rewrite Hnew in En. injection En as <-.
  apply post_bind, post_lift; [intros pk Ep|done]. rewrite Hpk, b64_decode_encode in Ep. injection Ep as <-.
  destruct (collected (job_storage w) bucket (bk_epoch newest) fuel Hb Hfuel) as (res & -> & Hout).
  apply post_bind, post_lift; [intros stale Es%map_err_Ok|done]. destruct (Hout stale Es) as [Hnd Hin].
  apply post_bind. eapply post_mono; [| |apply (rekey_loop_spec bucket sks dk _ cs _ rngs Hep Hcs)]; [|done|by rewrite imap_pair_snd|].
  2: { intros i k e Hi. assert (Hke : (k, e) ∈ stale) by (rewrite <- (imap_pair_snd stale); apply list_elem_of_fmap; by exists (i, (k, e))).
       apply Hin in Hke as (body & md & Ho & He & _). by exists (body, md). }
  intros [] w1 [Hc1 Hk1]. rewrite imap_pair_snd in Hk1. unfold prune_epochs, reason.
  apply post_bind, post_gets, post_bind, post_lift; [intros cfg1 Ec1%map_err_Ok|done]. rewrite Hc1, Hcfg in Ec1. injection Ec1 as <-.
  apply post_bind, post_lift; [intros st2 Eset%map_err_Ok|done]. apply post_modify. split; cbn [set_job_storage job_storage].
  { by apply config_of_set in Eset. }
  rewrite (set_config_objects _ _ _ _ Eset). intros k. specialize (Hk1 k).
  destruct (objects_of (job_storage w) bucket !! k) as [[body md]|] eqn:Ho.
  - cbn [snd]. destruct (Z.ltb_spec (epoch_of md) (bk_epoch newest)) as [Hlt|Hge].
    + rewrite decide_True in Hk1.
      2: { apply list_elem_of_fmap. exists (k, epoch_of md). split; [done|]. apply Hin. eauto. }
      destruct Hk1 as (old & new & [= <-] & Hn & Hm). eauto.
    + rewrite decide_False in Hk1; [eauto|]. intros ([k' e] & Hk' & Hke)%list_elem_of_fmap. cbn [fst] in Hk'. subst k'.
      apply Hin in Hke as (b2 & m2 & Ho2 & <- & Hlt). rewrite Ho in Ho2. injection Ho2 as <- <-. lia.
  - rewrite decide_False in Hk1; [done|]. intros ([k' e] & Hk' & Hke)%list_elem_of_fmap. cbn [fst] in Hk'. subst k'.
    apply Hin in Hke as (b2 & m2 & Ho2 & _). congruence.
Qed.

(** C38: a job always ends and says how: with more fuel than the index has objects, the task
    stops with the bucket marked as completed or as failed with a reason, never as
    running, so that another job can start. *)
Theorem rekey_job_ends (fuel : nat) (bucket : string) (sks : gmap Z bytes) (cs : Z) (rngs : nat -> rng) (w : JobWorld) :
  name_ok bucket -> (size (catalog_of (job_storage w)) < fuel)%nat ->
  exists w', rekey_job fuel bucket sks cs rngs w = (Ok tt, w') /\
    (job_registry w' !! bucket = Some Completed \/ exists what, job_registry w' !! bucket = Some (Failed what)) /\
    exists reg, try_start (job_registry w') bucket = Ok reg.
Proof using OL RDL.
  intros Hb Hf. assert (Hstop : post (run_rekey fuel bucket sks cs rngs) (fun _ _ => True) (fun stop _ => stop <> OutOfFuel) w).
  { assert (Hreason : forall T (m : result Error T) stop, map_err (fun e => Reason (Error_display e)) m = Err stop -> stop <> OutOfFuel).
    { intros T [x|err] stop; cbn; congruence. }
    unfold run_rekey, or_reason, reason. apply post_bind, post_gets, post_bind, post_lift; [intros cfg _|by eauto].
    apply post_bind, post_lift; [intros nk _|by destruct (current_key cfg); cbn; congruence].
    apply post_bind, post_lift; [intros pk _|by destruct (b64_decode _); cbn; congruence].
    destruct (collected (job_storage w) bucket (bk_epoch nk) fuel Hb Hf) as (res & -> & _).
    apply post_bind, post_lift; [intros stale _|by eauto]. apply post_bind.
    eapply post_mono; [| |apply (post_for_each_err _ (fun _ => True) (fun stop _ => stop <> OutOfFuel))]; [|done| |done].
    - intros [] w1 _. unfold prune_epochs, reason. by post_steps; eauto.
    - intros [i [k e]] [] w1 _ _. unfold rekey_one, or_reason, reason.
      apply post_bind, post_lift; [intros sk _|by destruct (sks !! e); cbn; congruence]. apply post_bind, post_gets.
      do 3 (apply post_bind, post_lift; [intros ? _|by eauto]). apply post_bind, post_lift; [intros [[snk woff] st1] _|by eauto].
      apply post_bind, post_modify, post_bind, post_lift; [intros [[snk' pm] cm] _|by eauto]. post_steps; eauto. }
  unfold rekey_job, match_res. unfold post in Hstop. destruct (run_rekey fuel bucket sks cs rngs w) as [[[]|[what|]] w1]; [| |done].
  all: eexists; split_and!; [reflexivity| |]; unfold try_start; cbn [set_state job_registry]; rewrite lookup_insert_eq; cbn [is_running]; eauto.
Qed.

End job.

(** ** A rotation during a job *)

Section overlap.
Context {A : AeadOps} {K : KemOps} {H : HkdfOps} {B : Base64Ops} {R : RngOps} {L : ListingOps} {US : UserStoreReader}.
Context {AL : AeadLaws} {KL : KemLaws} {HL : HkdfLaws} {BL : Base64Laws} {RL : RngLaws} {LL : ListingLaws}.

Lemma pruned_epoch_unreadable cfg newest e bucket : e <> newest ->
  let cfg' := with_versions cfg (filter (fun k => bk_epoch k = newest) (keys cfg)) in
  forall u slot sk, read_key cfg' bucket e u slot sk = Err (forbidden bucket).
Proof using.
  intros Hne cfg' u slot sk. unfold read_key. assert (find_epoch cfg' e = None) as ->; [|done].
  unfold find_epoch. assert (list_find (fun k => bk_epoch k = e) (keys cfg') = None) as ->; [|done].
  apply list_find_None, Forall_forall. intros k [Hk _]%list_elem_of_filter He. congruence.
Qed.

(** A rotation that happens while a rekey job runs is undone by the job, and what was
    written in between is lost. The rotation succeeds and uploads go to its epoch [e]; when
    the job then prunes down to the epoch [newest] it started with, the new epoch's key
    material is gone, and nobody, with whatever identity key, can open an object of it. *)
Theorem rotation_lost_to_rekey (bucket : string) (hw hw' : World) (e : Z) (es : list Z) (newest : Z) (reg : RekeyRegistry) (w' : JobWorld) :
  rotate_key bucket hw = (Ok (e, es), hw') -> e <> newest ->
  prune_epochs bucket newest (mkJobWorld (w_storage hw') reg) = (Ok tt, w') ->
  (exists cfg pk, get_bucket_config (w_storage hw') bucket = Ok cfg /\ resolve_write_key cfg bucket = Ok (e, pk)) /\
  exists cfg', get_bucket_config (job_storage w') bucket = Ok cfg' /\ (e ∉ bk_epoch <$> keys cfg') /\
    forall u slot sk, read_key cfg' bucket e u slot sk = Err (forbidden bucket).
Proof using AL KL RL BL LL.
  intros E Hne Ep. apply rotate_key_Ok in E as (cfg & nk & gs & kv & bwk & r & r' & _ & _ & _ & _ & _ & Hkv & Hc' & _).
  apply new_version_inv in Hkv as (Hek & _ & bdk & _ & _ & _ & Hpk & _). split.
  { exists (with_versions cfg (keys cfg ++ [kv])), (seal.pk_bytes_of bdk). split; [done|]. rewrite <- Hek. by apply resolve_write_snoc. }
  run_post Ep. unfold prune_epochs, reason. apply post_bind, post_gets, post_bind, post_lift; [intros cfg1 Ec%map_err_Ok|done].
  apply post_bind, post_lift; [intros st2 Es%map_err_Ok|done]. apply post_modify. cbn [set_job_storage job_storage].
  apply config_of_set in Es. eexists. split; [exact Es|]. split; [|by apply pruned_epoch_unreadable].
  cbn [with_versions keys]. intros (k & Hk & Hin)%list_elem_of_fmap. apply list_elem_of_filter in Hin as [Hkn _]. congruence.
Qed.

End overlap.
