(* ===== verification/RotationWitness.v ===== *)
(** * Concrete index and rekey runs

    [Module ToyRedb] and [Module ToyStore] are a table kept in a map and a bucket kept in
    memory, which satisfy the interfaces of [IndexSpec] and [RotationSpec]; the witnesses
    run the theorems on them. *)

From stdpp Require Import pretty sorting.
From S2P Require Import Prelude Effects Primitives Types Crypto Envelope Sink EncryptSession Cipher Slots Session BucketKeys Lex Query Index IndexSpec Authz Acl Rotation RotationSpec.
Import MetaIndex.

Module ToyRedb.

#[export] Instance ops : RedbOps := {|
  tbl := gmap bytes bytes;
  tbl_get t k := Ok (t !! k);
  tbl_insert t k v := Ok (<[k := v]> t);
  tbl_remove t k := Ok (delete k t);
  tbl_iter t start := Ok (Ok <$> rows_from t start);
|}.

Lemma delivers_all {T} (rows : list T) : delivers (Ok <$> rows) rows.
Proof. induction rows; [done|]. split; [done|assumption]. Qed.

#[export] Instance laws : RedbLaws.
Proof.
  refine {| tbl_view := fun t : tbl => (t : gmap bytes bytes) |}; cbn [tbl_get tbl_insert tbl_remove tbl_iter ops];
    [intros; simplify_eq; reflexivity..|intros ? ? ? [= <-]; apply delivers_all].
Defined.

(** A record as far as the tests use it: address, size, epoch and at most one label. *)
Definition simple (bucket key : string) (size epoch : Z) (ls : LabelSet) : Metadata :=
  mkMetadata 0 0 size "" bucket key "" "" ls None None None None None None None (Some epoch).

#[global] Instance label_set_eq_dec : EqDecision LabelSet.
Proof. unfold LabelSet. apply _. Defined.
#[global] Instance metadata_eq_dec : EqDecision Metadata.
Proof. solve_decision. Defined.

Definition label_of (ls : LabelSet) : string * string := default ("", "") (head (elements ls)).
Definition enc (m : Metadata) : bytes :=
  field (md_bucket m) ++ field (md_key m) ++ field (label_of (md_labels m)).1 ++ field (label_of (md_labels m)).2
    ++ to_be_bytes 4 (md_size m) ++ to_be_bytes 4 (default 0 (md_key_epoch m)).
Definition dec (b : bytes) : option Metadata :=
  '(bucket, b) ← read_len_prefixed b;
  '(key, b) ← read_len_prefixed b;
  '(n, b) ← read_len_prefixed b;
  '(v, b) ← read_len_prefixed b;
  Some (simple bucket key (from_be_bytes (take 4 b)) (from_be_bytes (drop 4 b)) (if bool_decide (n = "") then empty else {[ (n, v) ]})).

#[export] Instance json : MetadataJson := {|
  to_vec m := if bool_decide (dec (enc m) = Some m) then Ok (enc m) else Err "unsupported";
  from_slice b := ok_or (dec b) "malformed";
|}.
#[export] Instance json_laws : JsonLaws.
Proof.
  split; cbn.
  - intros m b. case_bool_decide as Hd; [|done]. intros [= <-]. by rewrite Hd.
  - intros m b. unfold dec. destruct (_ ≫= _) as [m'|] eqn:E; [|done]. intros [= ->].
    repeat (apply bind_Some in E as ([? ?] & _ & E)). by injection E as <-.
Qed.

Lemma name_ok_dec s : valid_utf8 (as_bytes s) && (blen (as_bytes s) <? 2 ^ 32) = true -> name_ok s.
Proof. intros [Hu Hl]%andb_true_iff. split; [exact Hu|]. by apply Z.ltb_lt. Qed.

Definition empty_db : IndexDb := mkIndexDb empty empty empty.
Lemma empty_represents {J : MetadataJson} : represents (J := J) empty_db empty.
Proof.
  split.
  - intros b k m. by rewrite lookup_empty.
  - intros kb v. cbn. by rewrite lookup_empty.
  - intros b k m. by rewrite lookup_empty.
  - intros lk. cbn. rewrite lookup_empty. split; [by intros []|]. intros (b & k & m & n & v & Hm & _). by rewrite lookup_empty in Hm.
Qed.

End ToyRedb.

(** ** The index *)

Module IndexWitness.
Import ToyRedb.

Definition red : LabelSet := {[ ("colour", "red") ]}.
Definition blue : LabelSet := {[ ("colour", "blue") ]}.
Definition ops0 : list IndexOp :=
  [ Upsert (simple "photos" "a" 3 0 red); Upsert (simple "photos" "b" 4 0 red); Upsert (simple "docs" "a" 5 0 blue);
    Upsert (simple "photos" "a" 6 1 blue); Remove "photos" "b" ].

Lemma simple_ok b k size epoch n v : name_ok b -> name_ok k -> name_ok n -> name_ok v -> meta_ok (simple b k size epoch {[ (n, v) ]}).
Proof. intros Hb Hk Hn Hv. split_and!; [done|done|]. cbn [md_labels simple]. intros n' v' Hin. apply elem_of_singleton in Hin. by injection Hin as -> ->. Qed.

Lemma ops0_ok : Forall op_ok ops0.
Proof. repeat apply Forall_cons_2; [apply simple_ok..|split|apply Forall_nil_2]; apply name_ok_dec; vm_compute; reflexivity. Qed.

Definition idx0 : MetadataIndex := match run_ops (commit empty_db) ops0 with Ok idx => idx | Err _ => commit empty_db end.
Definition db0 : IndexDb := default empty_db (idx_db idx0).
Definition cat0 : gmap (string * string) Metadata := foldl spec_op empty ops0.

Lemma idx0_run : run_ops (commit empty_db) ops0 = Ok idx0.
Proof.
  assert (Hok : is_ok (run_ops (commit empty_db) ops0) = true) by (vm_compute; reflexivity).
  unfold idx0. by destruct (run_ops (commit empty_db) ops0).
Qed.

Lemma db0_represents : idx0 = commit db0 /\ represents db0 cat0.
Proof.
  destruct (run_ops_represents ops0 empty_db empty idx0 empty_represents ops0_ok idx0_run) as (d' & Hi & _ & HR).
  unfold db0. rewrite Hi. cbn [idx_db commit default]. by split.
Qed.

Lemma index_refines_witness :
  (forall o, lookup_by_key idx0 "photos" "a" = Ok o -> o = cat0 !! ("photos", "a")) /\
  lookup_by_label idx0 "colour" "red" = Ok [] /\ lookup_by_label idx0 "colour" "blue" = Ok [("docs", "a"); ("photos", "a")] /\
  (exists m, cat0 !! ("photos", "a") = Some m /\ ("colour", "blue") ∈ md_labels m).
Proof.
  assert (Hblue : lookup_by_label idx0 "colour" "blue" = Ok [("docs", "a"); ("photos", "a")]) by (vm_compute; reflexivity).
  destruct (index_refines empty_db empty ops0 idx0 empty_represents ops0_ok idx0_run) as [Hkey Hlabel]. split_and!.
  - intros o. apply Hkey; apply name_ok_dec; vm_compute; reflexivity.
  - vm_compute; reflexivity.
  - exact Hblue.
  - apply (Hlabel "colour" "blue" _ (name_ok_dec "colour" eq_refl) (name_ok_dec "blue" eq_refl) Hblue "photos" "a"). right. left.
Defined.

Lemma list_buckets_exact_witness :
  list_buckets 3 (commit db0) = Some (Ok ["docs"; "photos"]) /\ exists k m, cat0 !! ("photos", k) = Some m.
Proof.
  split; [vm_compute; reflexivity|]. destruct (list_buckets_exact db0 cat0 3 (proj2 db0_represents) ltac:(vm_compute; lia)) as (res & Hres & Hbs).
  assert (res = Ok ["docs"; "photos"]) as -> by (vm_compute in Hres; congruence).
  destruct (Hbs _ eq_refl) as (_ & _ & Hin). apply Hin. right. left.
Defined.
End IndexWitness.

(** ** A bucket in memory *)

Module ToyStore.
Import ToyRedb EncryptWitness.

Definition catalog_in (objs : gmap string (bytes * Metadata)) : gmap (string * string) Metadata :=
  kmap (pair "photos") (snd <$> objs).

(** Configurations, the objects of the one bucket, and an index of them. *)
Record store : Type := mkStore {
  s_cfgs : gmap string BucketConfig;
  s_objs : gmap string (bytes * Metadata);
  s_idx : IndexDb;
  s_ok : represents s_idx (catalog_in s_objs);
}.

Definition empty_store : store := mkStore empty empty empty_db empty_represents.
Definition with_cfgs (st : store) (cfgs : gmap string BucketConfig) : store := mkStore cfgs (s_objs st) (s_idx st) (s_ok st).

#[export] Instance listing_ops : ListingOps := {|
  storage := store;
  Authz.bucket_exists st b := Ok (bool_decide (is_Some (s_cfgs st !! b)));
  create_bucket st b := match s_cfgs st !! b with
                        | Some _ => Ok (false, st)
                        | None => Ok (true, with_cfgs st (<[b := config_default]> (s_cfgs st)))
                        end;
  get_bucket_config st b := Ok (default config_default (s_cfgs st !! b));
  set_bucket_config st b cfg := Ok (with_cfgs st (<[b := cfg]> (s_cfgs st)));
|}.

#[export] Instance listing_laws : ListingLaws.
Proof.
  split; cbn.
  - intros st b [= E]. apply bool_decide_eq_false in E. destruct (s_cfgs st !! b); [by destruct E|done].
  - intros st b st' E. destruct (s_cfgs st !! b); [done|]. injection E as <-. cbn. by rewrite lookup_insert_eq.
  - intros st b st' c E. destruct (s_cfgs st !! b) eqn:Eb; injection E as _ <-; cbn.
    + by rewrite Eb, bool_decide_eq_true_2.
    + by rewrite lookup_insert_eq, bool_decide_eq_true_2.
  - intros st b cfg st' [= <-]. cbn. by rewrite lookup_insert_eq.
Qed.

Definition acceptable (b k : string) (ls : LabelSet) : bool :=
  bool_decide (b = "photos") && bool_decide (ls = empty) && (valid_utf8 (as_bytes k) && (blen (as_bytes k) <? 2 ^ 32)).

Lemma commit_represents st b k ls body md d' : acceptable b k ls = true -> md_bucket md = b -> md_key md = k -> md_labels md = ls ->
  upsert (commit (s_idx st)) md = Ok (commit d') -> represents d' (catalog_in (<[k := (body, md)]> (s_objs st))).
Proof.
  unfold acceptable. rewrite !andb_true_iff, !bool_decide_eq_true. intros [[-> ->] [Hu Hl]] Hb Hk Hls E.
  assert (Hm : meta_ok md).
  { split_and!.
    - rewrite Hb. by apply name_ok_dec.
    - rewrite Hk. apply name_ok_dec. by rewrite Hu, Hl.
    - rewrite Hls. intros n v Hin. by apply elem_of_empty in Hin. }
  destruct (upsert_represents _ _ _ _ (s_ok st) Hm E) as (d1 & [= <-] & _ & HR).
  unfold catalog_in in *. rewrite fmap_insert, (kmap_insert _). cbn [snd]. by rewrite Hb, Hk in HR.
Qed.

Definition inspect {T} (x : T) : {y | x = y} := exist _ x eq_refl.
Definition missing : Error := NotFound "" "".
Definition put (st : store) (b k : string) (woff : Z) (snk : StreamingSink) (ls : LabelSet) (pm : PlaintextMetrics) (cm : CipherMetadata)
  : result Error store :=
  let body := drop (Z.to_nat woff) (sink_file snk) in
  let md := simple b k (pm_size pm) (cm_key_epoch cm) ls in
  match decide (acceptable b k ls = true), inspect (upsert (commit (s_idx st)) md) with
  | left Hok, exist _ (Ok (mkMetadataIndex (Some d'))) E =>
      Ok (mkStore (s_cfgs st) (<[k := (body, md)]> (s_objs st)) d' (commit_represents st b k ls body md d' Hok eq_refl eq_refl eq_refl E))
  | _, _ => Err missing
  end.

Definition view (st : store) (b : string) : gmap string (bytes * Metadata) := if bool_decide (b = "photos") then s_objs st else empty.

#[export] Instance object_ops : ObjectOps StreamingSink := {|
  list_objects (st : storage) b after limit := scan_objects (commit (s_idx st)) b None after limit;
  get_object (st : storage) b k := ok_or (fst <$> view st b !! k) missing;
  describe (st : storage) b k := ok_or (snd <$> view st b !! k) missing;
  begin_streaming_put st b k := Ok (w_sink, 64, st);
  commit_put := put;
|}.

Lemma put_inv st b k woff snk ls pm cm st' : put st b k woff snk ls pm cm = Ok st' ->
  b = "photos" /\ s_cfgs st' = s_cfgs st /\
  s_objs st' = <[k := (drop (Z.to_nat woff) (sink_file snk), simple b k (pm_size pm) (cm_key_epoch cm) ls)]> (s_objs st).
Proof.
  unfold put. destruct (decide _) as [Hok|]; [|done]. destruct (inspect _) as [[[[d'|]]|] E]; [|done..]. intros [= <-].
  pose proof Hok as Hb. unfold acceptable in Hb. rewrite !andb_true_iff, !bool_decide_eq_true in Hb. by destruct Hb as [[? _] _].
Qed.

#[export] Instance object_laws : ObjectLaws.
Proof.
  refine {| objects_of (st : storage) b := view st b; index_of (st : storage) := s_idx st; catalog_of (st : storage) := catalog_in (s_objs st) |}.
  - intros st. apply s_ok.
  - intros st b k. unfold catalog_in, view. case_bool_decide as Hb.
    + subst b. by rewrite lookup_kmap, lookup_fmap by apply _.
    + rewrite lookup_empty. apply lookup_kmap_None; [apply _|]. intros k' [= ? ?]. congruence.
  - done.
  - cbn. intros st b k body. destruct (view st b !! k) as [[body' md]|]; cbn; intros [= <-]. eauto.
  - cbn. intros st b k md. destruct (view st b !! k) as [[body md']|]; cbn; intros [= <-]. eauto.
  - cbn. intros st b k snk woff st' [= <- <- <-]. split_and!; [apply w_at_end|done|done].
  - cbn. intros st b k woff snk ls pm cm st' (-> & Hc & Ho)%put_inv. split; [by rewrite Hc|].
    eexists. split_and!; [unfold view; cbn; exact Ho|done..].
  - cbn. intros st b c st' [= <-]. done.
Defined.

End ToyStore.

(** ** Rotation and rekeying *)

Module RotationWitness.
Import BucketKeysWitness AuthzWitness AclWitness.
#[local] Existing Instances Toy.aead Toy.kem Toy.hkdf Toy.base64 Toy.rng_ops mem_listing users1.
#[local] Existing Instances Toy.aead_laws Toy.kem_laws Toy.hkdf_laws Toy.base64_laws Toy.rng_laws mem_listing_laws.

Definition rotated : World := (rotate_key "photos" world0).2.
Lemma rotated_run : rotate_key "photos" world0 = (Ok (1, [0; 1]), rotated).
Proof. unfold rotated. apply run_split. vm_compute. reflexivity. Qed.

(** Alice opens the new epoch through persona 2 and not through persona 1; Bob does not. *)
Lemma rotation_reseals_witness :
  exists cfg' bdk, get_bucket_config (w_storage rotated) "photos" = Ok cfg' /\ resolve_write_key cfg' "photos" = Ok (1, seal.pk_bytes_of bdk) /\
    (forall slot sk, read_key cfg' "photos" 1 "bob" slot sk = Err (forbidden "photos")) /\
    read_key cfg' "photos" 1 "alice" 2 (seal.sk_bytes_of (dk_of 3)) = Ok (seal.sk_bytes_of bdk) /\
    exists decoy, open_bwk cfg' "photos" 1 "alice" 1 (seal.sk_bytes_of (dk_of 2)) = Ok decoy.
Proof.
  destruct (rotation_reseals "photos" world0 rotated 1 [0; 1] rotated_run)
    as (cfg & cfg' & newest & bdk & kv & rk & Hc & _ & _ & _ & Hek & Hc' & Hw & _ & _ & Hnew). exists cfg', bdk.
  assert (cfg = config0) as -> by (injection Hc as <-; reflexivity).
  destruct Hnew as (_ & Hout & Hin).
  { rewrite list_elem_of_fmap. intros (k & Hk & Hin). vm_compute in Hin. apply list_elem_of_singleton in Hin. subst k. discriminate Hk. }
  assert (Hone : through_one_persona cfg' "photos" kv bdk rk "alice" personas 2).
  { apply (Hin "alice" record0 personas); [by left|vm_compute; reflexivity..]. }
  split; [exact Hc'|]. split; [exact Hw|]. split; [|split].
  - intros slot sk. apply Hout. intros [Hu|[Hu|Hu]]; [discriminate Hu|discriminate Hu|].
    assert (bool_decide ("bob" ∈ read_implying_grantees (acl config0)) = false) as Hno%bool_decide_eq_false by (vm_compute; reflexivity). exact (Hno Hu).
  - rewrite <- Hek. exact (Hone 2%nat (dk_of 3) eq_refl).
  - destruct (Hone 1%nat (dk_of 2) eq_refl) as (r0 & _ & Ho & _). rewrite Hek in Ho. eexists. exact Ho.
Defined.

(** Epoch 0 is sealed to Bob only; Alice holds epoch 1. *)
Definition two_epochs : BucketConfig :=
  match new_bucket_key_version 0 "photos" [("bob", mkGranteeSlots (published bobs) (only_slot 1))] (10 : @rng Toy.rng_ops),
        new_bucket_key_version 1 "photos" [("alice", mkGranteeSlots (published personas) (only_slot 2))] (20 : @rng Toy.rng_ops) with
  | Ok (kv, _, _), Ok (kv', _, _) => mkBucketConfig None None None (Some "alice") empty [kv; kv'] 0
  | _, _ => config_default
  end.
Definition idle : RekeyWorld := mkRekeyWorld (mkWorld ({["photos" := two_epochs]} : gmap string BucketConfig) sessions0 auth0 (60 : @rng Toy.rng_ops)) empty.
Definition stuck : RekeyWorld := (start_rekey "photos" idle).2.

Lemma failed_start_blocks_witness :
  rk_registry stuck !! "photos" = Some (Running 0) /\
  exists e2 h2, start_rekey "photos" stuck = (Err e2, mkRekeyWorld h2 (rk_registry stuck)).
Proof.
  assert (E : start_rekey "photos" idle = (Err (forbidden "photos"), stuck)) by (unfold stuck; apply run_split; vm_compute; reflexivity).
  assert (Hrun : is_running (rk_registry stuck !! "photos") = true) by (vm_compute; reflexivity).
  destruct (failed_start_blocks "photos" idle stuck (forbidden "photos") eq_refl E Hrun) as [Hmark Hlater].
  split; [exact Hmark|]. destruct (Hlater (rk_http stuck)) as (e2 & h2 & E2). exists e2, h2. exact E2.
Defined.

Definition undone : JobWorld := (prune_epochs "photos" 0 (mkJobWorld (w_storage rotated) empty)).2.
Lemma rotation_lost_to_rekey_witness :
  (exists cfg pk, get_bucket_config (w_storage rotated) "photos" = Ok cfg /\ resolve_write_key cfg "photos" = Ok (1, pk)) /\
  exists cfg', get_bucket_config (job_storage undone) "photos" = Ok cfg' /\
    read_key cfg' "photos" 1 "alice" 2 (seal.sk_bytes_of (dk_of 3)) = Err (forbidden "photos").
Proof.
  assert (E : prune_epochs "photos" 0 (mkJobWorld (w_storage rotated) empty) = (Ok tt, undone)) by (unfold undone; apply run_split; vm_compute; reflexivity).
  destruct (rotation_lost_to_rekey "photos" world0 rotated 1 [0; 1] 0 empty undone rotated_run ltac:(discriminate) E) as [Hw (cfg' & Hc & _ & Hr)].
  split; [exact Hw|]. exists cfg'. split; [exact Hc|]. apply Hr.
Defined.
End RotationWitness.

Module RekeyWitness.
Import ToyRedb EncryptWitness ToyStore.
#[local] Existing Instances Toy.aead Toy.kem Toy.hkdf Toy.xxh3_ops Toy.base64 Toy.rng_ops.
#[local] Existing Instances Toy.aead_laws Toy.kem_laws Toy.hkdf_laws Toy.xxh3_laws Toy.base64_laws Toy.rng_laws.

Definition dk0 : @Dk Toy.kem := tt.
Definition version (e : Z) : BucketKeyVersion := mkBucketKeyVersion e (b64_encode (seal.pk_bytes_of dk0)) (mkWrappedSk [] []) empty.
Definition cfg0 : BucketConfig := mkBucketConfig None None None (Some "alice") empty [version 0; version 1] 0.

(** "old" is an object of epoch 0, "new" one of epoch 1. *)
Definition upload (st : store) (k : string) (body : bytes) (e : Z) : store :=
  match encrypt_bytes_for_put (seal.pk_bytes_of dk0) e body w_sink "photos" k 64 4 (e : @rng Toy.rng_ops) with
  | Ok (snk, pm, cm) => match put st "photos" k 64 snk empty pm cm with Ok st' => st' | Err _ => st end
  | Err _ => st
  end.
Definition before : store :=
  upload (upload (with_cfgs empty_store {["photos" := cfg0]}) "old" [x61; x62; x63; x64; x65] 0) "new" [x66] 1.
Definition sks : gmap Z bytes := {[ 0 := seal.sk_bytes_of dk0 ]}.
Definition start : JobWorld := mkJobWorld (before : storage) {["photos" := Running 0]}.
Definition rngs (i : nat) : @rng Toy.rng_ops := 40 + Z.of_nat i.
Definition finish : JobWorld := (run_rekey (Snk := StreamingSink) 4 "photos" sks 4 rngs start).2.

Lemma rekey_preserves_witness :
  exists old new, objects_of (job_storage start) "photos" !! "old" = Some old /\ objects_of (job_storage finish) "photos" !! "old" = Some new /\
    moved "photos" sks dk0 1 "old" old new.
Proof.
  assert (E : run_rekey (Snk := StreamingSink) 4 "photos" sks 4 rngs start = (Ok tt, finish)) by (unfold finish; apply run_split; vm_compute; reflexivity).
  assert (Hep : in_u 32 (bk_epoch (version 1))) by (vm_compute; split; [discriminate|reflexivity]).
  assert (Hcs : 0 < 4 <= u32_max) by (split; [reflexivity|vm_compute; discriminate]).
  assert (Hfuel : (size (catalog_of (job_storage start)) < 4)%nat) by (vm_compute; lia).
  assert (Hcfg : get_bucket_config (job_storage start) "photos" = Ok cfg0) by (vm_compute; reflexivity).
  destruct (rekey_preserves 4 "photos" sks 4 rngs start finish dk0 cfg0 (version 1)
    (name_ok_dec "photos" eq_refl) Hcs Hfuel Hcfg eq_refl Hep eq_refl E) as [_ Hobj].
  specialize (Hobj "old"). assert (Hstale : epoch_of <$> (snd <$> objects_of (job_storage start) "photos" !! "old") = Some 0) by (vm_compute; reflexivity).
  destruct (objects_of (job_storage start) "photos" !! "old") as [old|]; [|discriminate Hstale]. injection Hstale as Hstale.
  rewrite Hstale in Hobj. destruct Hobj as (new & Hnew & Hm). exists old, new. split_and!; [reflexivity|exact Hnew|exact Hm].
Defined.

Lemma rekey_job_ends_witness : exists w', rekey_job (Snk := StreamingSink) 4 "photos" sks 4 rngs start = (Ok tt, w') /\
  (job_registry w' !! "photos" = Some Completed \/ exists what, job_registry w' !! "photos" = Some (Failed what)) /\
  exists reg, try_start (job_registry w') "photos" = Ok reg.
Proof.
  apply (rekey_job_ends 4 "photos" sks 4 rngs start).
  - apply name_ok_dec. vm_compute. reflexivity.
  - vm_compute. lia.
Defined.
End RekeyWitness.
