(* ===== verification/FilesystemWitness.v ===== *)
(** * Concrete runs of the filesystem store

    [Module ToyJson] serializes every field of a metadata record; [Module StoreWitness] starts
    a store on an empty directory and runs the theorems on it. *)

From S2P Require Import Prelude Effects Primitives Types Format Crypto NodeKeys Envelope Sink EncryptSession Cipher BucketKeys Lex Query Index IndexSpec Locks Posix Filesystem FilesystemSpec FilesystemSafety FilesystemStream Rebuild RotationWitness.
Import FilesystemStorage.

(** ** Serialized metadata *)

Module ToyJson.

Abbreviation parser T := (bytes -> option (T * bytes)).
Definition u64 : parser Z := fun b => if (length b <? 8)%nat then None else Some (from_be_bytes (take 8 b), drop 8 b).
Definition str : parser string := fun b =>
  let len := from_be_bytes (take 4 b) in
  if blen b <? 4 + len then None else Some (String.string_of_list_byte (slice 4 (4 + len) b), drop (Z.to_nat (4 + len)) b).
Definition opt {T} (p : parser T) : parser (option T) := fun b =>
  match b with
  | x00 :: b => Some (None, b)
  | x01 :: b => '(v, b) ← p b; Some (Some v, b)
  | _ => None
  end.
Fixpoint pairs (n : nat) : parser (list (string * string)) := fun b =>
  match n with
  | O => Some ([], b)
  | S n => '(x, b) ← str b; '(y, b) ← str b; '(l, b) ← pairs n b; Some ((x, y) :: l, b)
  end.

Definition put_u64 : Z -> bytes := to_be_bytes 8.
Definition put_opt {T} (f : T -> bytes) (o : option T) : bytes := match o with Some x => x01 :: f x | None => [x00] end.

(** Everything but the creation time. *)
Definition enc_rest (m : Metadata) : bytes :=
  put_u64 (md_modified m) ++ put_u64 (md_size m) ++ field (md_checksum_gxhash m) ++ field (md_bucket m) ++ field (md_key m)
  ++ field (md_disk_path m) ++ field (md_url_path m)
  ++ put_u64 (Z.of_nat (length (elements (md_labels m)))) ++ concat ((fun nv => field nv.1 ++ field nv.2) <$> elements (md_labels m))
  ++ put_opt put_u64 (md_cipher_size m) ++ put_opt field (md_cipher_checksum m) ++ put_opt field (md_kem_alg m) ++ put_opt field (md_aead_alg m)
  ++ put_opt put_u64 (md_envelope_version m) ++ put_opt put_u64 (md_version m) ++ put_opt put_u64 (md_committed_at m) ++ put_opt put_u64 (md_key_epoch m).
Definition dec_rest (created : Z) (b : bytes) : option Metadata :=
  '(modified, b) ← u64 b; '(size, b) ← u64 b; '(checksum, b) ← str b; '(bucket, b) ← str b; '(key, b) ← str b;
  '(disk, b) ← str b; '(url, b) ← str b; '(n, b) ← u64 b; '(ls, b) ← pairs (Z.to_nat n) b;
  '(csize, b) ← opt u64 b; '(csum, b) ← opt str b; '(kem, b) ← opt str b; '(aead, b) ← opt str b;
  '(ver, b) ← opt u64 b; '(version, b) ← opt u64 b; '(committed, b) ← opt u64 b; '(epoch, b) ← opt u64 b;
  Some (mkMetadata created modified size checksum bucket key disk url (list_to_set ls) csize csum kem aead ver version committed epoch).

Definition with_created (t : Z) (m : Metadata) : Metadata :=
  mkMetadata t (md_modified m) (md_size m) (md_checksum_gxhash m) (md_bucket m) (md_key m) (md_disk_path m) (md_url_path m) (md_labels m)
    (md_cipher_size m) (md_cipher_checksum m) (md_kem_alg m) (md_aead_alg m) (md_envelope_version m) (md_version m) (md_committed_at m) (md_key_epoch m).
Definition faithful (m : Metadata) : bool := bool_decide (dec_rest 0 (enc_rest m) = Some (with_created 0 m)).

#[export] Instance json : MetadataJson := {|
  to_vec m := if bool_decide (in_u 64 (md_created m)) && faithful m then Ok (put_u64 (md_created m) ++ enc_rest m) else Err "unsupported";
  from_slice b := ok_or (dec_rest (from_be_bytes (take 8 b)) (drop 8 b)) "malformed";
|}.

Lemma dec_rest_created t t' b m : dec_rest t b = Some m -> dec_rest t' b = Some (with_created t' m) /\ md_created m = t.
Proof.
  unfold dec_rest. intros E. repeat (apply bind_Some in E as ([? ?] & -> & E); cbn [mbind option_bind]). by injection E as <-.
Qed.

#[export] Instance json_laws : JsonLaws.
Proof.
  split; cbn [to_vec from_slice json].
  - intros m b. case_bool_decide as Hc; [|done]. unfold faithful. case_bool_decide as Hf; [|done]. cbn [andb]. intros E. assert (b = put_u64 (md_created m) ++ enc_rest m) as -> by congruence. clear E.
    rewrite take_app_length', drop_app_length' by (symmetry; apply length_to_be_bytes). unfold put_u64. rewrite from_to_be_bytes by exact Hc.
    destruct (dec_rest_created _ (md_created m) _ _ Hf) as [-> _]. by destruct m.
  - intros m b. destruct (dec_rest _ _) as [m'|] eqn:E; [|done]. intros [= ->]. destruct (dec_rest_created _ 0 _ _ E) as [_ ->].
    pose proof (from_be_bytes_range (take 8 b)) as Hr. unfold in_u. split; [lia|]. eapply Z.lt_le_trans; [apply Hr|].
    change (2 ^ 64) with (256 ^ 8). apply Z.pow_le_mono_r; [lia|]. unfold blen. rewrite length_take. lia.
Qed.

Lemma to_vec_ok m : faithful m = true -> in_u 64 (md_created m) -> to_vec m = Ok (put_u64 (md_created m) ++ enc_rest m).
Proof. intros Hf Hc. cbn. by rewrite Hf, bool_decide_eq_true_2. Qed.

End ToyJson.

(** ** A store on an empty directory *)

Module StoreWitness.
Import ToyRedb.
#[local] Remove Hints ToyRedb.json ToyRedb.json_laws : typeclass_instances.
Import ToyJson.
#[local] Existing Instances Toy.aead Toy.kem Toy.hkdf Toy.xxh3_ops Toy.base64 Toy.hash Toy.rng_ops.
#[local] Existing Instances Toy.aead_laws Toy.kem_laws Toy.hkdf_laws Toy.xxh3_laws Toy.base64_laws Toy.hash_laws Toy.rng_laws.
#[local] Instance ascii_only : UnicodeOps := {| unicode_alphanumeric := fun _ => false |}.
#[local] Instance config_json : ConfigJson := {| config_to_vec := fun _ => Err "unsupported"; config_from_slice := fun _ => Err "unsupported" |}.

Lemma fs_init_wf base faults : fs_wf (fs_init base faults).
Proof.
  constructor; cbn [fs_init fs_entries fs_inodes fs_dirs fs_next].
  - intros i. rewrite lookup_empty. by intros [].
  - intros p i. unfold candidates. cbn. rewrite !lookup_empty. by intros [|[]%elem_of_nil]%elem_of_cons.
  - intros p q i. by rewrite lookup_empty.
  - intros p q i _ _. by rewrite lookup_empty.
  - intros p i. by rewrite lookup_empty.
  - intros d x Hd Hx. rewrite !elem_of_list_to_set in *. rewrite elem_of_ancestors in *. by eapply below_trans.
Qed.

Definition start (fs : Fs) (seed : Z) : Store :=
  mkStore ["data"] fs (MetaIndex.commit empty_db) (install (replicate 32 x2a)) empty Idle None 0 false (seed : @rng Toy.rng_ops) 1700000000.
Definition w0 : Store := start (fs_init ["data"] []) 1.
Definition pk0 : bytes := default [] (path_key (s_keys w0)).
Definition mek0 : bytes := default [] (object_metadata_key (s_keys w0)).
Definition chk0 : bytes := default [] (container_header_key (s_keys w0)).
Definition p0 : fpath := obj_path_for ["data"] pk0 "photos" "cat.jpg".
Definition options0 : PutOptions := mkPutOptions {[ ("colour", "red") ]} Durable None None None.
Definition payload0 : bytes := as_bytes "meow".

Lemma at0 fs seed : addressed (start fs seed) "photos" "cat.jpg" p0 mek0 chk0.
Proof. constructor; try reflexivity. exists pk0. split; reflexivity. Qed.

Lemma ready0 fs seed : put_ready (start fs seed) "photos" "cat.jpg" payload0 options0 p0.
Proof.
  constructor; [done| |by vm_compute]. intros prior Hs. eexists. split; [apply to_vec_ok; [by vm_compute|]|].
  - cbn [put_metadata md_created]. destruct prior as [t|]; [by apply Hs|]. by vm_compute.
  - rewrite blen_app. unfold put_u64. rewrite blen_to_be_bytes. by vm_compute.
Qed.

Lemma fits0 fs seed : metadata_fits (fun prior => put_metadata "photos" "cat.jpg" p0 payload0 options0 prior (s_now (start fs seed))).
Proof. eapply put_ready_fits, ready0. Qed.

Lemma put_read_back_witness : exists w' prior, put "photos" "cat.jpg" payload0 options0 w0 = (Ok false, w') /\
  fst (get "photos" "cat.jpg" w') = Ok payload0 /\ @serves (reader w') "photos" "cat.jpg" payload0 /\
  fst (describe "photos" "cat.jpg" w') = Ok (put_metadata "photos" "cat.jpg" p0 payload0 options0 prior 1700000000).
Proof.
  destruct (put_read_back w0 "photos" "cat.jpg" payload0 options0 p0 mek0 chk0) as (w' & prior & E & Hg & Hs & Hd & _).
  - apply at0.
  - apply fs_init_wf.
  - reflexivity.
  - apply ready0.
  - exists w', prior. split_and!; assumption.
Defined.

(** The sixth call fails. *)
Definition w_faulty : Store := start (fs_init ["data"] [None; None; None; None; None; Some "disk full"]) 1.
Lemma put_crash_atomic_witness : let w' := snd (put "photos" "cat.jpg" payload0 options0 w_faulty) in
  is_ok (fst (put "photos" "cat.jpg" payload0 options0 w_faulty)) = false /\
  (forall q, fp_ext q = "obj" -> data_at (s_fs w') q = data_at (s_fs w_faulty) q) /\ fs_wf (s_fs w').
Proof.
  intros w'. assert (Hr : is_ok (fst (put "photos" "cat.jpg" payload0 options0 w_faulty)) = false) by (vm_compute; reflexivity). split; [exact Hr|].
  destruct (put_crash_atomic w_faulty "photos" "cat.jpg" payload0 options0 p0 mek0 chk0 (fst (put "photos" "cat.jpg" payload0 options0 w_faulty)) w') as (_ & Hd & Hw).
  - apply at0.
  - apply fs_init_wf.
  - apply fits0.
  - reflexivity.
  - unfold w'. apply surjective_pairing.
  - split; [exact (Hd Hr)|exact Hw].
Defined.

(** The shard directories are there and synced. *)
Definition w_shard : Store := start (fs_init (fp_dir p0) []) 1.
Lemma put_durable_witness : let w' := snd (put "photos" "cat.jpg" payload0 options0 w_shard) in
  fst (put "photos" "cat.jpg" payload0 options0 w_shard) = Ok false /\
  forall o, may_read (s_fs w') p0 o -> exists file md, o = Some file /\ object_file mek0 chk0 p0 file payload0 md.
Proof.
  intros w'. assert (Hr : fst (put "photos" "cat.jpg" payload0 options0 w_shard) = Ok false) by (vm_compute; reflexivity). split; [exact Hr|].
  apply (put_durable w_shard "photos" "cat.jpg" payload0 options0 p0 mek0 chk0 false w').
  - apply at0.
  - apply fs_init_wf.
  - apply fits0.
  - reflexivity.
  - reflexivity.
  - intros d Hd. split; [by apply elem_of_list_to_set|apply not_elem_of_empty].
  - rewrite <- Hr. apply surjective_pairing.
Defined.

Lemma first_put_lost_witness : let w' := snd (put "photos" "cat.jpg" payload0 options0 w0) in
  fst (put "photos" "cat.jpg" payload0 options0 w0) = Ok false /\ may_read (s_fs w') p0 None.
Proof.
  intros w'. assert (Hr : fst (put "photos" "cat.jpg" payload0 options0 w0) = Ok false) by (vm_compute; reflexivity). split; [exact Hr|].
  apply (first_put_lost w0 "photos" "cat.jpg" payload0 options0 p0 mek0 chk0 false w').
  - apply at0.
  - apply fs_init_wf.
  - apply fits0.
  - apply (bool_decide_eq_true_1 _). vm_compute. reflexivity.
  - rewrite <- Hr. apply surjective_pairing.
Defined.

(** *** A stored object *)

Definition w1 : Store := snd (put "photos" "cat.jpg" payload0 options0 w_shard).
Definition md1 : Metadata := put_metadata "photos" "cat.jpg" p0 payload0 options0 None 1700000000.
Definition file1 : bytes := default [] (data_at (s_fs w1) p0).

Lemma stored1 : serving w1 "photos" "cat.jpg" p0 mek0 chk0 file1 payload0 md1 /\ fs_wf (s_fs w1) /\ fs_faults (s_fs w1) = [].
Proof.
  pose proof (put_post w_shard "photos" "cat.jpg" payload0 options0 p0 mek0 chk0 (at0 _ _) (fs_init_wf _ _) (fits0 _ _)) as Hpost. unfold post in Hpost.
  destruct (put "photos" "cat.jpg" payload0 options0 w_shard) as [[ow|e] w'] eqn:E.
  2: { exfalso. assert (Hr : is_ok (fst (put "photos" "cat.jpg" payload0 options0 w_shard)) = true) by (vm_compute; reflexivity). by rewrite E in Hr. }
  assert (w1 = w') as Ew by (unfold w1; by rewrite E). destruct Hpost as [_ (prior & file & Hin & Hobj & _)].
  pose proof (installed_serving _ _ _ _ _ _ _ _ _ _ _ _ _ (at0 _ _) Hin Hobj) as Hsv. destruct (ii_files _ _ _ _ _ _ _ Hin) as (s & Hr & _).
  rewrite Ew. split_and!; [|apply (rp_wf _ _ _ _ _ Hr)|by apply (rp_quiet _ _ _ _ _ Hr)].
  assert (Hf : file1 = file) by (unfold file1; by rewrite Ew, (sv_file _ _ _ _ _ _ _ _ _ Hsv)). rewrite Hf.
  assert (Hq : fs_faults (s_fs w') = []) by (by apply (rp_quiet _ _ _ _ _ Hr)).
  assert (Hl : s_locks w' !! ("photos", "cat.jpg") = None) by (by rewrite (ii_locks _ _ _ _ _ _ _ Hin)).
  pose proof (yields_quiet _ _ _ (describe_yields _ _ _ _ _ _ _ _ _ Hsv Hl Hq) Hq) as Hd.
  assert (Hd1 : fst (describe "photos" "cat.jpg" w1) = Ok md1) by (vm_compute; reflexivity). rewrite Ew, Hd in Hd1.
  replace md1 with (put_metadata "photos" "cat.jpg" p0 payload0 options0 prior (s_now w_shard)) by congruence. exact Hsv.
Qed.

Lemma get_range_slices_get_witness : fst (get_range "photos" "cat.jpg" 1 2 w1) = Ok (as_bytes "eo") /\
  alike (fun part whole => part = slice 1 (Z.min 3 (blen whole)) whole) (get_range "photos" "cat.jpg" 1 2) (get "photos" "cat.jpg") w1.
Proof.
  split; [vm_compute; reflexivity|]. destruct stored1 as (_ & _ & Hq). apply (get_range_slices_get w1 "photos" "cat.jpg" 1 2); [exact Hq|lia].
Defined.

Definition blue : LabelSet := {[ ("colour", "blue") ]}.
Lemma set_labels_not_durable_witness : let w' := snd (set_labels "photos" "cat.jpg" blue w1) in
  fst (set_labels "photos" "cat.jpg" blue w1) = Ok tt /\ forall garbage, may_read (s_fs w') p0 (Some garbage).
Proof.
  intros w'. assert (Hr : fst (set_labels "photos" "cat.jpg" blue w1) = Ok tt) by (vm_compute; reflexivity). split; [exact Hr|].
  destruct stored1 as (Hs & Hw & Hq). apply (set_labels_not_durable w1 "photos" "cat.jpg" blue p0 mek0 chk0 file1 payload0 md1 w'); [exact Hs|exact Hw|exact Hq|].
  rewrite <- Hr. apply surjective_pairing.
Defined.

Definition payload2 : bytes := as_bytes "purr".
Lemma ready1 : put_ready w1 "photos" "cat.jpg" payload2 options0 p0.
Proof.
  assert (Hn : s_now w1 = 1700000000) by (vm_compute; reflexivity).
  constructor; [by vm_compute| |by vm_compute]. rewrite Hn. clear Hn. intros prior Hs. eexists. split; [apply to_vec_ok; [vm_compute; reflexivity|]|].
  - cbn [put_metadata md_created]. destruct prior as [t|]; [by apply Hs|]. by vm_compute.
  - rewrite blen_app. unfold put_u64. rewrite blen_to_be_bytes. by vm_compute.
Qed.
Lemma labels_undo_put_witness : exists w',
  race_run [true; false; true] (set_labels_thread "photos" "cat.jpg" blue, Atom (put "photos" "cat.jpg" payload2 options0) (fun ow => Halt (Ok ow)), w1) =
    (Halt (Ok tt), Halt (Ok true), w') /\ fst (get "photos" "cat.jpg" w') = Ok payload0.
Proof.
  destruct stored1 as (Hs & Hw & Hq). apply (labels_undo_put w1 "photos" "cat.jpg" blue payload2 options0 p0 mek0 chk0 file1 payload0 md1); [exact Hs|exact Hw|exact Hq|apply ready1| |vm_compute; discriminate].
  clear. eexists. split; [apply to_vec_ok; by vm_compute|by vm_compute].
Defined.

(** *** A streamed upload *)

Definition pieces0 : list bytes := [as_bytes "hello "; []; as_bytes "world"].
Definition session0 (f : TokioFile) :=
  stream_encrypt_for_put (seal.pk_bytes_of (tt : @Dk Toy.kem)) 0 (Ok <$> pieces0) f "photos" "cat.jpg" write_offset 4 (Some 11) (7 : @rng Toy.rng_ops).
Definition out0 : TokioFile * PlaintextMetrics * CipherMetadata :=
  match session0 fresh_file with Ok x => x | Err _ => (fresh_file, mkPlaintextMetrics 0 "", mkCipherMetadata 0 "" "" "" 0 0) end.

Lemma upload_download_witness : exists w' md,
  streaming_put "photos" "cat.jpg" session0 [] options0 w0 = (Ok false, w') /\ fst (describe "photos" "cat.jpg" w') = Ok md /\ md_size md = 11 /\
  exists items, @drain _ _ _ (reader w') 9 (@plaintext_stream "photos" "cat.jpg" md (seal.sk_bytes_of (tt : @Dk Toy.kem)) 2 8) = (items, Some EndOk) /\ concat items = as_bytes "llo wor".
Proof.
  destruct (upload_download w0 "photos" "cat.jpg" p0 mek0 chk0 (tt : @Dk Toy.kem) 0 pieces0 4 (Some 11) (7 : @rng Toy.rng_ops) options0) as (w' & md & E & Hd & Hs & Hr).
  - apply at0.
  - apply fs_init_wf.
  - reflexivity.
  - reflexivity.
  - unfold in_u. lia.
  - unfold u32_max. lia.
  - vm_compute. discriminate.
  - intros limit [= <-]. vm_compute. discriminate.
  - intros f pm cm ow prior Hst Es. cbv beta in Es. assert (Ho : out0 = (f, pm, cm)) by (unfold out0, session0; by rewrite Es).
    replace f with out0.1.1 by (by rewrite Ho). replace pm with out0.1.2 by (by rewrite Ho). replace cm with out0.2 by (by rewrite Ho). clear Es Ho f pm cm.
    split; [vm_compute; discriminate|]. eexists. split; [apply to_vec_ok; [vm_compute; reflexivity|]|].
    + cbn [commit_metadata md_created guard_for g_prior_created]. destruct prior as [t|]; [by apply Hst|]. by vm_compute.
    + rewrite blen_app. unfold put_u64. rewrite blen_to_be_bytes. by vm_compute.
  - exists w', md. split_and!; [exact E|exact Hd|exact Hs|]. apply (Hr 2 8 9%nat); [lia|vm_compute; reflexivity|vm_compute; lia].
Defined.

(** *** A rebuild after the index was lost *)

Lemma set_index_fs idx (w : Store) : s_fs (set_index idx w) = s_fs w.
Proof. reflexivity. Qed.
Definition w_lost : Store := set_index (MetaIndex.commit empty_db) w1.
Definition M1 : gmap (string * string) Metadata := {[ ("photos", "cat.jpg") := md1 ]}.

Lemma healthy : redb_healthy.
Proof. split; intros; cbn; eauto. Qed.
Lemma only_p0 p : is_Some (fs_entries (s_fs w1) !! p) -> p = p0.
Proof.
  intros [i Hi%elem_of_map_to_list]. assert (E : (map_to_list (fs_entries (s_fs w1))).*1 = [p0]) by (vm_compute; reflexivity).
  apply (list_elem_of_singleton p p0). rewrite <- E. apply list_elem_of_fmap. exists (p, i). split; [reflexivity|exact Hi].
Qed.
Lemma reads1 : fst (read_obj_metadata p0 mek0 chk0 (s_fs w1)) = Ok md1.
Proof. vm_compute. reflexivity. Qed.
Lemma on_disk1 : on_disk (s_fs w1) ["data"] mek0 chk0 M1.
Proof.
  assert (HM : forall bk md, M1 !! bk = Some md -> ("photos", "cat.jpg") = bk /\ md1 = md) by (intros bk md; apply lookup_singleton_Some). split.
  - intros p md [Hp _] _ Hr. rewrite (only_p0 p Hp), reads1 in Hr. replace md with md1 by congruence. apply lookup_singleton_Some. by split.
  - intros bk md [<- <-]%HM. split; [done|]. exists p0. split_and!; [|done|apply reads1].
    split; [|by do 3 eexists]. vm_compute. eauto.
  - intros bk md [<- <-]%HM. split; [|by vm_compute]. split_and!; [by apply name_ok_dec; vm_compute..|].
    intros n v Hin. change (md_labels md1) with (po_labels options0) in Hin. apply (elem_of_singleton (C := gset (string * string)) (n, v) ("colour", "red")) in Hin as [= -> ->]. split; by apply name_ok_dec; vm_compute.
Qed.

Lemma rebuild_restores_witness : exists w' d', rebuild_task mek0 chk0 w_lost = (Ok tt, w') /\ s_rebuild w' = Completed /\
  s_index w' = MetaIndex.commit d' /\ represents d' M1.
Proof.
  destruct stored1 as (_ & Hw & Hq). pose proof (set_index_fs (MetaIndex.commit empty_db) w1) as Ef. fold w_lost in Ef.
  assert (Eb : s_base w_lost = ["data"]) by (vm_compute; reflexivity).
  destruct (rebuild_restores healthy w_lost mek0 chk0 empty_db empty M1) as (w' & d' & E & Hc & _ & Hi & Hr & _).
  - rewrite Ef. exact Hq.
  - rewrite Ef. exact Hw.
  - apply (bool_decide_eq_true_1 _). vm_compute. reflexivity.
  - reflexivity.
  - apply empty_represents.
  - rewrite Ef, Eb. apply on_disk1.
  - exists w', d'. split_and!; assumption.
Defined.

Lemma on_disk0 : on_disk (s_fs w0) ["data"] mek0 chk0 empty.
Proof.
  split; [|intros bk md; by rewrite lookup_empty..]. intros p md [[i Hi] _]. cbn in Hi. by rewrite lookup_empty in Hi.
Qed.
Lemma rebuild_hides_put_witness : exists seen w1 w2 w3 ow d3, rebuild_scan mek0 chk0 w0 = (Ok seen, w1) /\
  put "photos" "cat.jpg" payload0 options0 w1 = (Ok ow, w2) /\ rebuild_prune seen w2 = (Ok tt, w3) /\
  fst (get "photos" "cat.jpg" w3) = Ok payload0 /\ s_index w3 = MetaIndex.commit d3 /\ represents d3 empty.
Proof.
  apply (rebuild_hides_put healthy w0 "photos" "cat.jpg" payload0 options0 p0 mek0 chk0 empty_db empty empty).
  - reflexivity.
  - apply fs_init_wf.
  - apply (bool_decide_eq_true_1 _). vm_compute. reflexivity.
  - reflexivity.
  - apply empty_represents.
  - apply on_disk0.
  - apply at0.
  - apply ready0.
  - reflexivity.
  - apply (od_ok _ _ _ _ _ on_disk1 ("photos", "cat.jpg") md1). apply lookup_singleton_Some. split; reflexivity.
Defined.

End StoreWitness.

(** ** A database that refuses writes *)

Module BucketWitness.
#[local] Existing Instances Toy.aead Toy.xxh3_ops Toy.base64 Toy.hash Toy.rng_ops ToyJson.json.
#[local] Instance ascii_only : UnicodeOps := {| unicode_alphanumeric := fun _ => false |}.
#[local] Instance config_json : ConfigJson := {| config_to_vec := fun _ => Err "unsupported"; config_from_slice := fun _ => Err "unsupported" |}.
#[local] Instance full : RedbOps := {|
  tbl := gmap bytes bytes;
  tbl_get t k := Ok (t !! k);
  tbl_insert _ _ _ := Err "disk full";
  tbl_remove t k := Ok (base.delete k t);
  tbl_iter t start := Ok (Ok <$> rows_from t start);
|}.
Definition w_full : Store :=
  mkStore ["data"] (fs_init ["data"] []) (MetaIndex.commit (MetaIndex.mkIndexDb empty empty empty)) (install (replicate 32 x2a)) empty Idle None 0 false (1 : @rng Toy.rng_ops) 1700000000.

Lemma half_created_bucket_witness : let w' := snd (create_bucket "photos" w_full) in
  is_ok (fst (create_bucket "photos" w_full)) = false /\ create_bucket "photos" w' = (Ok false, w') /\ s_index w' = s_index w_full.
Proof.
  intros w'. split; [vm_compute; reflexivity|].
  apply (half_created_bucket w_full "photos" (default [] (path_key (s_keys w_full))) (Index "disk full") w').
  - reflexivity.
  - apply StoreWitness.fs_init_wf.
  - reflexivity.
  - apply (bool_decide_eq_true_1 _). vm_compute. reflexivity.
  - reflexivity.
  - vm_compute. reflexivity.
  - unfold w'. assert (Hr : fst (create_bucket "photos" w_full) = Err (Index "disk full")) by (vm_compute; reflexivity). rewrite <- Hr. apply surjective_pairing.
Defined.

End BucketWitness.
