(* ===== verification/NodeRotationWitness.v ===== *)
(** * Concrete node key rotations *)

From S2P Require Import Prelude Effects Primitives Types Format Crypto NodeKeys Sink BucketKeys Lex Query Index IndexSpec Locks Posix FsView Filesystem FilesystemSpec FilesystemSafety Rebuild RotationWitness NodeRotation NodeRotationSpec FilesystemWitness.
Import FilesystemStorage.

Module NodeRotationWitness.
Import ToyRedb.
#[local] Remove Hints ToyRedb.json ToyRedb.json_laws : typeclass_instances.
Import ToyJson.
#[local] Existing Instances Toy.aead Toy.xxh3_ops Toy.base64 Toy.hash Toy.rng_ops.
#[local] Existing Instances Toy.aead_laws Toy.xxh3_laws Toy.base64_laws Toy.hash_laws Toy.rng_laws.
#[local] Instance ascii_only : UnicodeOps := {| unicode_alphanumeric := fun _ => false |}.
#[local] Instance config_json : ConfigJson := {| config_to_vec := fun _ => Err "unsupported"; config_from_slice := fun _ => Err "unsupported" |}.

Definition nk0 : bytes := replicate 32 x2a.
Definition nk1 : bytes := replicate 31 x2a ++ [x2b].
Definition K0 : RotationKeys := rotation_keys nk0 nk1.
Definition base0 : list string := ["data"].
Definition dir0 : list string := bucket_dir_path base0 (old_path_key K0) "photos".

(** Two objects, written the way [put] lays them out. *)
Definition md_of (k : string) : Metadata :=
  mkMetadata 5 6 4 "sum" "photos" k "/disk" "photos/k" empty None None None None None None None None.
Definition json_of (k : string) : bytes := put_u64 5 ++ enc_rest (md_of k).
Definition blob (omk : bytes) (k id : string) : bytes :=
  match encrypt_meta omk (json_of k) id META_PAD_BLOCK (7 : @rng Toy.rng_ops) with Ok (b, _) => b | Err _ => [] end.
Definition data0 : bytes := as_bytes "meow".
Definition header0 (meta : bytes) : Header := mkHeader (blen data0) (blen meta) HEADER_SIZE 0 VERSION.
Definition object_bytes (omk chk : bytes) (id : string) (meta : bytes) : bytes :=
  Format.encode (header0 meta) chk id ++ [] ++ data0 ++ meta ++ Format.encode (header0 meta) chk id.
Definition old_file (k : string) : bytes := object_bytes (old_omk K0) (old_chk K0) (old_id K0 "photos" k) (blob (old_omk K0) k (old_id K0 "photos" k)).
Definition new_file (k : string) : bytes := object_bytes (new_omk K0) (new_chk K0) (new_id K0 "photos" k) (blob (new_omk K0) k (new_id K0 "photos" k)).

Definition contents0 : gmap string (bytes * Metadata) := {["cat" := (data0, md_of "cat"); "dog" := (data0, md_of "dog")]}.

Lemma contents0_cases (k : string) d md : contents0 !! k = Some (d, md) -> (k = "cat" \/ k = "dog") /\ d = data0 /\ md = md_of k.
Proof.
  unfold contents0. rewrite lookup_insert_Some. intros [[<- E]|[Hne E]]; [by simplify_eq; auto|]. rewrite lookup_singleton_Some in E. destruct E as [<- E]. by simplify_eq; auto.
Qed.

Lemma sealed0 omk chk id k : k = "cat" \/ k = "dog" -> sealed_object omk chk id (object_bytes omk chk id (blob omk k id)) data0 (md_of k).
Proof.
  intros Hk. assert (Hjl : blen (json_of k) <= 200) by (destruct Hk as [->| ->]; vm_compute; discriminate).
  assert (Hjs : from_slice (json_of k) = Ok (md_of k)) by (destruct Hk as [->| ->]; vm_compute; reflexivity).
  destruct (encrypt_meta_spec omk (json_of k) id META_PAD_BLOCK (7 : @rng Toy.rng_ops)) as (b & r & E & Hl & Hd); [unfold u32_max; lia|vm_compute; discriminate|].
  unfold blob. rewrite E. pose proof (padded_len_of_ge (blen (json_of k)) META_PAD_BLOCK) as Hp. pose proof (blen_nonneg (json_of k)). unfold META_PAD_BLOCK in Hp.
  exists b, (json_of k). split; [|done]. exists (header0 b), []. unfold object_bytes. pose proof (blen_encode (header0 b) chk id) as He.
  split_and!; try done; [|rewrite !blen_app, He; unfold FILE_MAX; change (blen data0) with 4; change (blen []) with 0; unfold META_PAD_BLOCK in *; lia|unfold u32_max; lia].
  - split; [|split; [done|by vm_compute]]. unfold header_fits, in_u. cbn [header0 data_len meta_len data_offset hflags version]. unfold HEADER_SIZE, VERSION. change (blen data0) with 4. unfold META_PAD_BLOCK in *. lia.
Qed.

(** ** The files *)

(** The directory of the bucket with two object files in it. *)
Definition setup (p1 p2 : fpath) (f1 f2 : bytes) : fsop unit :=
  _ ← fs_create_dir_all (fp_dir p1); _ ← fs_create_dir_all (fp_dir p2); _ ← fs_write p1 f1 0; fs_write p2 f2 0.
Definition fs_of (p1 p2 : fpath) (f1 f2 : bytes) : Fs := snd (setup p1 p2 f1 f2 (fs_init base0 [])).

Lemma fs_of_shows p1 p2 f1 f2 : blen f1 <= FILE_MAX -> blen f2 <= FILE_MAX ->
  shows (fs_of p1 p2 f1 f2) (fun q => if decide (q = p2) then Some f2 else if decide (q = p1) then Some f1 else None)
    (list_to_set (ancestors base0) ∪ list_to_set (ancestors (fp_dir p1)) ∪ list_to_set (ancestors (fp_dir p2))).
Proof.
  intros H1 H2. pose proof (wf_ok _ (StoreWitness.fs_init_wf base0 []) eq_refl) as Hok.
  destruct (fs_create_dir_all_ok _ (fp_dir p1) Hok) as (fsa & Ea & [Hoka Hva Hda]). destruct (fs_create_dir_all_ok _ (fp_dir p2) Hoka) as (fsb & Eb & [Hokb Hvb Hdb]).
  destruct (fs_write_ok fsb p1 f1 0 Hokb) as (fsc & Ec & [Hokc Hvc Hdc]); [rewrite Hdb, Hda; apply elem_of_union_l, elem_of_union_r, elem_of_list_to_set, ancestors_self|done|].
  destruct (fs_write_ok fsc p2 f2 0 Hokc) as (fsd & Ed & [Hokd Hvd Hdd]); [rewrite Hdc, Hdb; apply elem_of_union_r, elem_of_list_to_set, ancestors_self|done|].
  unfold fs_of, setup. erewrite prog_bind_run by exact Ea. erewrite prog_bind_run by exact Eb. erewrite prog_bind_run by exact Ec. rewrite Ed. cbn [snd].
  split; [done| |by rewrite Hdd, Hdc, Hdb, Hda]. intros q. rewrite Hvd. case_decide; [done|]. rewrite Hvc. case_decide; [done|]. rewrite Hvb, Hva. by vm_compute.
Qed.

(** The bucket with the objects in [done] already moved. *)
Definition path_at (done : gset string) (k : string) : fpath := id_path dir0 (if decide (k ∈ done) then new_id K0 "photos" k else old_id K0 "photos" k).
Definition file_at (done : gset string) (k : string) : bytes := if decide (k ∈ done) then new_file k else old_file k.
Definition fs_at (done : gset string) : Fs := fs_of (path_at done "cat") (path_at done "dog") (file_at done "cat") (file_at done "dog").
Definition store_at (done : gset string) : Store :=
  mkStore base0 (fs_at done) (MetaIndex.commit empty_db) (install nk0) empty Idle None 0 false (1 : @rng Toy.rng_ops) 1700000000.

Lemma ids0 : ids_apart K0 "photos" contents0.
Proof. unfold ids_apart. eapply (@bool_decide_eq_true_1 _ (NoDup_dec _)). vm_compute. reflexivity. Qed.

Lemma unmigrated0 k : k = "cat" \/ k = "dog" -> unmigrated K0 (old_id K0 "photos" k) (old_file k).
Proof.
  intros Hk h Hd. assert (Hh : Format.decode (slice 0 HEADER_SIZE (old_file k)) (old_chk K0) (old_id K0 "photos" k) = Ok (header0 (blob (old_omk K0) k (old_id K0 "photos" k)))).
  { destruct Hk as [->| ->]; vm_compute; reflexivity. }
  rewrite Hh in Hd. assert (h = header0 (blob (old_omk K0) k (old_id K0 "photos" k))) as -> by congruence. destruct Hk as [->| ->]; vm_compute; reflexivity.
Qed.

Lemma file_small done k : k = "cat" \/ k = "dog" -> blen (file_at done k) <= FILE_MAX.
Proof. intros Hk. unfold file_at. case_decide; destruct (sealed0 (new_omk K0) (new_chk K0) (new_id K0 "photos" k) k Hk) as (? & ? & (? & ? & ? & ? & ? & ? & ? & ? & _) & _), (sealed0 (old_omk K0) (old_chk K0) (old_id K0 "photos" k) k Hk) as (? & ? & (? & ? & ? & ? & ? & ? & ? & ? & _) & _); done. Qed.

Lemma fs_at_shows done : shows (fs_at done) (fun q => if decide (q = path_at done "dog") then Some (file_at done "dog") else if decide (q = path_at done "cat") then Some (file_at done "cat") else None)
  (list_to_set (ancestors base0) ∪ list_to_set (ancestors (fp_dir (path_at done "cat"))) ∪ list_to_set (ancestors (fp_dir (path_at done "dog")))).
Proof. exact (fs_of_shows (path_at done "cat") (path_at done "dog") (file_at done "cat") (file_at done "dog") (file_small done "cat" (or_introl eq_refl)) (file_small done "dog" (or_intror eq_refl))). Qed.

Lemma paths_apart done : path_at done "cat" <> path_at done "dog".
Proof. unfold path_at. intros E%id_path_inj. revert E. repeat case_decide; vm_compute; discriminate. Qed.

Lemma rotated0 done : rotated_upto K0 (fs_at done) dir0 "photos" contents0 done.
Proof.
  destruct (fs_at_shows done) as [_ Hv _].
  assert (Hat : forall k, k = "cat" \/ k = "dog" -> data_at (fs_at done) (path_at done k) = Some (file_at done k)).
  { intros k [->| ->]; rewrite Hv; [rewrite decide_False, decide_True by (done || apply paths_apart)|rewrite decide_True by done]; done. }
  constructor.
  - intros k d md (Hk & _ & ->)%contents0_cases. done.
  - intros k d md (Hk & -> & ->)%contents0_cases Hn. specialize (Hat k Hk). unfold path_at, file_at in Hat. rewrite !decide_False in Hat by done.
    exists (old_file k). split; [done|]. split; [by apply sealed0|by apply unmigrated0].
  - intros k d md (Hk & -> & ->)%contents0_cases Hn. specialize (Hat k Hk). unfold path_at, file_at in Hat. rewrite !decide_True in Hat by done.
    exists (new_file k). split; [done|]. by apply sealed0.
  - intros q _ _. rewrite Hv. repeat case_decide; intros [? ?]; simplify_eq; [exists "dog"|exists "cat"]; (split; [by vm_compute; eexists|]); done.
Qed.

Lemma dirs0 done d : d ∈ fs_dirs (fs_at done) <-> below d (fp_dir (path_at done "cat")) = true \/ below d (fp_dir (path_at done "dog")) = true.
Proof.
  rewrite (sh_dirs _ _ _ (fs_at_shows done)), !elem_of_union, !elem_of_list_to_set, !elem_of_ancestors. split; [|tauto].
  intros [[Hb|?]|?]; [|tauto|tauto]. left. eapply below_trans; [exact Hb|]. unfold path_at, dir0, bucket_dir_path, id_path. cbn [fp_dir]. rewrite <- app_assoc. apply below_app.
Qed.

Lemma bucket_ready0 : bucket_ready K0 base0 (fs_at ∅) "photos" contents0 None.
Proof.
  constructor.
  - apply dirs0. left. apply below_id_path.
  - rewrite dirs0. vm_compute. intros [?|?]; discriminate.
  - vm_compute. discriminate.
  - apply ids0.
  - apply rotated0.
  - unfold config_held. rewrite (sh_data _ _ _ (fs_at_shows ∅)), !decide_False by done. done.
  - intros b. rewrite (sh_data _ _ _ (fs_at_shows ∅)), !decide_False by done. done.
Qed.

Lemma node_rotation_preserves_witness :
  exists w', rotate_storage_tree base0 ["photos"] K0 (store_at ∅) = (Ok (mkRotationStats 1 2 0), w') /\
    fst (get "photos" "cat" (install_node_key nk1 w')) = Ok data0 /\ fst (describe "photos" "dog" (install_node_key nk1 w')) = Ok (md_of "dog").
Proof.
  destruct (node_rotation_preserves nk0 nk1 (store_at ∅) ["photos"] (fun _ => contents0) (fun _ => None)) as (w' & E & Hall).
  - apply (sh_ok _ _ _ (fs_at_shows ∅)).
  - unfold names_apart. eapply (@bool_decide_eq_true_1 _ (NoDup_dec _)). vm_compute. reflexivity.
  - intros b ->%list_elem_of_singleton. split; [vm_compute; reflexivity|exact bucket_ready0].
  - exists w'. split; [exact E|]. destruct (Hall "photos") as [Ho _]; [by left|].
    split; [apply (Ho "cat" data0 (md_of "cat"))|apply (Ho "dog" data0 (md_of "dog"))]; vm_compute; reflexivity.
Defined.

(** The cat was moved when the run broke off. *)
Definition broken_off : Store := store_at {["cat"]}.

Lemma moved_cat file : data_at (fs_at {["cat"]}) (id_path dir0 (new_id K0 "photos" "cat")) = Some file -> file = new_file "cat".
Proof.
  intros Hf. pose proof (sh_data _ _ _ (fs_at_shows {["cat"]}) (path_at {["cat"]} "cat")) as Hd. cbv beta in Hd. rewrite decide_False, decide_True in Hd by (done || apply paths_apart).
  unfold path_at, file_at in Hd. destruct (decide _) as [_|Hn]; [|destruct Hn; by apply elem_of_singleton]. rewrite Hd in Hf. congruence.
Qed.
Lemma moved_cat_refused : is_ok (Format.decode (slice 0 HEADER_SIZE (new_file "cat")) (old_chk K0) (new_id K0 "photos" "cat")) = false.
Proof. vm_compute. reflexivity. Qed.

Lemma rotation_cannot_resume_witness :
  exists e, fst (rotate_storage_tree (s_base broken_off) ([] ++ ["photos"]) (rotation_keys nk0 nk1)
    (Nat.iter 1 (fun w1 => snd (rotate_storage_tree (s_base broken_off) ([] ++ ["photos"]) (rotation_keys nk0 nk1) w1)) broken_off)) = Err e.
Proof.
  apply (rotation_cannot_resume nk0 nk1 broken_off [] [] "photos" contents0 {["cat"]} "cat") with (n := 1%nat).
  - apply (sh_ok _ _ _ (fs_at_shows {["cat"]})).
  - unfold names_apart. eapply (@bool_decide_eq_true_1 _ (NoDup_dec _)). vm_compute. reflexivity.
  - vm_compute. discriminate.
  - by intros b' ?%elem_of_nil.
  - apply (dirs0 {["cat"]}). left. apply below_id_path.
  - intros Hd. apply (dirs0 {["cat"]}) in Hd. revert Hd. vm_compute. intros [?|?]; discriminate.
  - apply (rotated0 {["cat"]}).
  - vm_compute. reflexivity.
  - vm_compute. by eexists.
  - intros file ->%moved_cat. exact moved_cat_refused.
Defined.

(** Metadata sealed before it was padded. *)
Definition oid0 : string := old_id K0 "photos" "cat".
Definition unpadded_blob : bytes :=
  VERSION_BYTE :: replicate 12 x07 ++ default [] (aead_encrypt (old_omk K0) (replicate 12 x07) (as_bytes oid0) (json_of "cat")).
Definition unpadded_file : bytes := object_bytes (old_omk K0) (old_chk K0) oid0 unpadded_blob.
Definition unpadded_fs : Fs := fs_of (id_path dir0 oid0) (id_path dir0 "0000") unpadded_file [].
Definition unpadded_store : Store :=
  mkStore base0 unpadded_fs (MetaIndex.commit empty_db) (install nk0) empty Idle None 0 false (1 : @rng Toy.rng_ops) 1700000000.

Lemma unpadded_small : blen unpadded_file <= 1000.
Proof. vm_compute. discriminate. Qed.
Lemma unpadded_shows : shows unpadded_fs (fun q => if decide (q = id_path dir0 "0000") then Some [] else if decide (q = id_path dir0 oid0) then Some unpadded_file else None)
    (list_to_set (ancestors base0) ∪ list_to_set (ancestors (fp_dir (id_path dir0 oid0))) ∪ list_to_set (ancestors (fp_dir (id_path dir0 "0000")))).
Proof. pose proof unpadded_small. apply fs_of_shows; unfold FILE_MAX; [lia|by vm_compute]. Qed.
Lemma unpadded_object : object_with (old_omk K0) (old_chk K0) oid0 unpadded_file data0 unpadded_blob (json_of "cat") (md_of "cat").
Proof.
  exists (header0 unpadded_blob), []. pose proof unpadded_small. split_and!; try reflexivity; [|unfold FILE_MAX; lia|vm_compute; discriminate].
  unfold header_wf, header_fits, in_u. vm_compute. split_and!; (reflexivity || discriminate).
Qed.
Lemma unpadded_unmigrated : unmigrated K0 oid0 unpadded_file.
Proof.
  intros h Hd. assert (Hh : Format.decode (slice 0 HEADER_SIZE unpadded_file) (old_chk K0) oid0 = Ok (header0 unpadded_blob)) by (vm_compute; reflexivity).
  rewrite Hh in Hd. assert (h = header0 unpadded_blob) as -> by congruence. vm_compute. reflexivity.
Qed.

Lemma rotation_breaks_unpadded_witness :
  exists w' file' h, migrate_object_file K0 (id_path dir0 oid0) "photos" unpadded_store = (Ok true, w') /\ data_at (s_fs w') (id_path dir0 oid0) = None /\
    data_at (s_fs w') (id_path dir0 (new_id K0 "photos" "cat")) = Some file' /\
    Format.decode (slice 0 HEADER_SIZE file') (new_chk K0) (new_id K0 "photos" "cat") = Ok h /\ is_ok (check_total_len h (blen file')) = false.
Proof.
  apply (rotation_breaks_unpadded K0 unpadded_store dir0 oid0 "photos" unpadded_file data0 unpadded_blob (json_of "cat") (md_of "cat")).
  - apply (sh_ok _ _ _ unpadded_shows).
  - change (s_fs unpadded_store) with unpadded_fs. rewrite (sh_data _ _ _ unpadded_shows). rewrite decide_False, decide_True; [reflexivity|reflexivity|]. intros E%id_path_inj. revert E. vm_compute. discriminate.
  - exact unpadded_object.
  - exact unpadded_unmigrated.
  - change (s_fs unpadded_store) with unpadded_fs. rewrite (sh_data _ _ _ unpadded_shows). rewrite decide_False, decide_False; [reflexivity| |]; intros E%id_path_inj; revert E; vm_compute; discriminate.
  - vm_compute. discriminate.
  - vm_compute. discriminate.
Defined.

(** A header of the first format. *)
Definition v1_body : bytes := MAGIC ++ to_le_bytes 2 1 ++ to_le_bytes 2 0 ++ to_le_bytes 8 4 ++ to_le_bytes 4 6 ++ to_le_bytes 4 64 ++ replicate 36 x00.
Definition v1_header : bytes := v1_body ++ to_le_bytes 4 (crc32 v1_body).
Definition v1_path : fpath := id_path dir0 "00ff".
Definition v1_file : bytes := v1_header ++ [] ++ data0 ++ as_bytes "sealed" ++ v1_header.
Definition v1_fs : Fs := fs_of v1_path (id_path dir0 "0000") v1_file [].
Definition v1_store : Store :=
  mkStore base0 v1_fs (MetaIndex.commit empty_db) (install nk0) empty Idle None 0 false (1 : @rng Toy.rng_ops) 1700000000.

Lemma header_upgrade_witness :
  exists w', upgrade_one_container_header (old_chk K0) v1_path "photos" v1_store = (Ok true, w') /\
    upgrade_one_container_header (old_chk K0) v1_path "photos" w' = (Ok false, w').
Proof.
  destruct (header_upgrade v1_store v1_path "photos" (old_chk K0) v1_header v1_header [] data0 (as_bytes "sealed") (mkHeader 4 6 64 0 2)) as (w' & E & _ & _ & _ & E').
  - apply (sh_ok v1_fs _ _ (fs_of_shows v1_path (id_path dir0 "0000") v1_file [] ltac:(vm_compute; discriminate) ltac:(vm_compute; discriminate))).
  - change (s_fs v1_store) with v1_fs. rewrite (sh_data _ _ _ (fs_of_shows v1_path (id_path dir0 "0000") v1_file [] ltac:(vm_compute; discriminate) ltac:(vm_compute; discriminate))).
    rewrite decide_False, decide_True; [reflexivity|reflexivity|]. intros Ep%id_path_inj. revert Ep. vm_compute. discriminate.
  - vm_compute. reflexivity.
  - vm_compute. reflexivity.
  - vm_compute. reflexivity.
  - vm_compute. reflexivity.
  - vm_compute. reflexivity.
  - vm_compute. reflexivity.
  - vm_compute. discriminate.
  - exists w'. split; [exact E|exact E'].
Defined.

End NodeRotationWitness.
