(* ===== verification/KeystoreWitness.v ===== *)
(** * Concrete keystores

    [Module ToyKeystore] serializes the keystore's records and keeps the users of a user file
    as one number; [Module KeystoreWitness] runs the keystore's theorems on it. *)

From S2P Require Import Prelude Effects Primitives Types Format Crypto NodeKeys Sink Slots BucketKeys Lex Query Index IndexSpec Locks Posix FsView Filesystem FilesystemSpec NodeRotation Rebuild NodeRotationSpec EncryptedFile Keystore KeystoreSpec RotationWitness FilesystemWitness.
Import FilesystemStorage.

Module ToyKeystore.

(** ** JSON *)

Definition enc_manifest (m : KeystoreManifest) : bytes := to_be_bytes 2 (format_version m) ++ to_be_bytes 8 (km_created_at m) ++ as_bytes (node_key_verifier_b64 m).
Definition dec_manifest (b : bytes) : KeystoreManifest :=
  mkKeystoreManifest (from_be_bytes (take 2 b)) (String.string_of_list_byte (drop 10 b)) (from_be_bytes (take 8 (drop 2 b))).
Definition enc_journal (j : RotationJournal) : bytes := to_be_bytes 8 (blen (as_bytes (old_verifier_b64 j))) ++ as_bytes (old_verifier_b64 j) ++ as_bytes (new_verifier_b64 j).
Definition dec_journal (b : bytes) : RotationJournal :=
  let n := Z.to_nat (from_be_bytes (take 8 b)) in
  mkRotationJournal (String.string_of_list_byte (take n (drop 8 b))) (String.string_of_list_byte (drop n (drop 8 b))).

#[export] Instance json : KeystoreJson := {|
  manifest_to_vec m := Ok (enc_manifest m); manifest_from_slice b := if (length b <? 10)%nat then Err "short" else Ok (dec_manifest b);
  journal_to_vec j := Ok (enc_journal j); journal_from_slice b := if (length b <? 8)%nat then Err "short" else Ok (dec_journal b);
|}.

Lemma of_as_bytes s : String.string_of_list_byte (as_bytes s) = s.
Proof. apply String.string_of_list_byte_of_string. Qed.
Lemma be_len n z : blen (to_be_bytes n z) = Z.of_nat n.
Proof. unfold blen. by rewrite length_to_be_bytes. Qed.
Lemma be_range k b : (k <= length b)%nat -> in_u (8 * Z.of_nat k) (from_be_bytes (take k b)).
Proof.
  intros Hk. pose proof (from_be_bytes_range (take k b)) as Hr. unfold blen in Hr. rewrite length_take, Nat.min_l in Hr by done. unfold in_u. by rewrite Z.pow_mul_r by lia.
Qed.

#[export] Instance json_laws : KeystoreJsonLaws.
Proof.
  split; cbn [manifest_to_vec manifest_from_slice journal_to_vec journal_from_slice json].
  - intros m (Hf & Hc & Hv). exists (enc_manifest m). split; [done|]. pose proof (length_to_be_bytes 2 (format_version m)) as L2. pose proof (length_to_be_bytes 8 (km_created_at m)) as L8. unfold enc_manifest. split.
    + rewrite !length_app, L2, L8, (proj2 (Nat.ltb_ge _ _)) by lia. unfold dec_manifest. rewrite take_app_length' by lia. rewrite from_to_be_bytes by exact Hf.
      replace (drop 2 _) with (to_be_bytes 8 (km_created_at m) ++ as_bytes (node_key_verifier_b64 m)) by (by rewrite drop_app_length' by lia). rewrite take_app_length' by lia. rewrite from_to_be_bytes by exact Hc.
      rewrite app_assoc, drop_app_length' by (rewrite length_app; lia). rewrite of_as_bytes. by destruct m.
    + rewrite !blen_app, !be_len. lia.
  - intros b m. destruct (Nat.ltb_spec (length b) 10) as [?|Hl]; [done|]. intros [= <-]. cbn [dec_manifest format_version km_created_at].
    split; [apply (be_range 2); lia|apply (be_range 8); rewrite length_drop; lia].
  - intros j (Ho & Hn). exists (enc_journal j). split; [done|]. pose proof (length_to_be_bytes 8 (blen (as_bytes (old_verifier_b64 j)))) as L8. unfold enc_journal. split.
    + rewrite !length_app, L8, (proj2 (Nat.ltb_ge _ _)) by lia. unfold dec_journal. rewrite take_app_length' by lia. rewrite from_to_be_bytes by (pose proof (blen_nonneg (as_bytes (old_verifier_b64 j))); change (256 ^ Z.of_nat 8) with (2 ^ 64); lia).
      rewrite drop_app_length' by lia. unfold blen. rewrite Nat2Z.id. rewrite take_app_length, drop_app_length, !of_as_bytes. by destruct j.
    + rewrite !blen_app, be_len. lia.
Qed.

(** ** User files *)

Fixpoint put_pos (p : positive) : bytes := match p with xH => [] | xO p => x00 :: put_pos p | xI p => x01 :: put_pos p end.
Fixpoint get_pos (b : bytes) : positive := match b with [] => xH | x :: b => if bool_decide (x = x00) then xO (get_pos b) else xI (get_pos b) end.
Lemma get_put_pos p : get_pos (put_pos p) = p.
Proof. induction p as [p IH|p IH|]; cbn; [by rewrite IH|by rewrite IH|done]. Qed.

Abbreviation sealed := (bytes * gmap string bytes)%type.
Definition user_file (k : bytes) (m : gmap string bytes) : bytes := EncryptedFileBackend.MAGIC ++ put_pos (countable.encode ((k, m) : sealed)).
Definition view (k c : bytes) : option (gmap string bytes) :=
  if bool_decide (take 8 c = EncryptedFileBackend.MAGIC) then
    match countable.decode (get_pos (drop 8 c)) : option sealed with Some (k', m) => if bool_decide (k' = k) then Some m else None | None => None end
  else None.

#[export] Instance users : UserFileOps := {|
  uf_open k c := match c, view k c with [], _ => Ok (user_file k ∅) | _, Some m => Ok (user_file k m) | _, None => Err "wrong key" end;
  uf_rows k c := match view k c with Some m => Ok (map_to_list m) | None => Err "wrong key" end;
  uf_insert k c l := match view k c with Some m => Ok (user_file k (list_to_map l ∪ m)) | None => Err "wrong key" end;
  uf_plaintext_rows _ := Err "not a database";
  uf_record r := Ok (as_bytes (ur_username r));
|}.

Lemma view_file k m : view k (user_file k m) = Some m.
Proof.
  unfold view, user_file. rewrite take_app_length', drop_app_length' by done. rewrite bool_decide_eq_true_2 by done. rewrite get_put_pos, decode_encode. by rewrite bool_decide_eq_true_2.
Qed.
Lemma view_apart k k' c : k <> k' -> is_Some (view k c) -> view k' c = None.
Proof.
  unfold view. intros Hne [m Hm]. case_bool_decide; [|done]. destruct (countable.decode _) as [[k0 m0]|]; [|done]. repeat case_bool_decide; congruence.
Qed.
Lemma file_nonempty k m : user_file k m <> [].
Proof. done. Qed.

#[export] Instance users_laws : UserFileLaws.
Proof.
  refine {| uf_view := view |}; cbn [uf_open uf_rows uf_insert users].
  - intros k. exists (user_file k ∅). split; [done|apply view_file].
  - intros k c m Hm. exists (user_file k m). split; [|apply view_file]. destruct c; [done|]. by rewrite Hm.
  - intros k c Hv Hne. destruct c; [done|]. by rewrite Hv.
  - intros k c m ->. by exists (map_to_list m).
  - intros k c m l -> _. eexists. split; [done|apply view_file].
  - done.
  - intros k c m. unfold view. by case_bool_decide.
Defined.

End ToyKeystore.

Module KeystoreWitness.
Import ToyKeystore ToyRedb.
#[local] Existing Instances Toy.aead Toy.kem Toy.base64 Toy.hash Toy.rng_ops Toy.range_ops Toy.argon2 Toy.token_ops.
#[local] Existing Instances Toy.aead_laws Toy.base64_laws Toy.hash_laws Toy.rng_laws.

Definition old_nk : bytes := replicate 32 x2a.
Definition new_nk : bytes := replicate 31 x2a ++ [x2b].
Definition dir0 : list string := ["keys"].
Definition params0 : Argon2Params := mkArgon2Params 65536 3 4 (replicate 16 x09).

(** Files written one after the other into directories that are there. *)
Definition put_files (files : list (fpath * bytes)) : fsop unit := for_each (fun x _ => fs_write x.1 x.2 0) files tt.
Lemma put_files_shows files : forall fs, fs_ok fs -> Forall (fun x => fp_dir x.1 ∈ fs_dirs fs /\ blen x.2 <= FILE_MAX) files ->
  shows (snd (put_files files fs)) (foldl (fun v x => put_at x.1 x.2 v) (data_at fs) files) (fs_dirs fs) /\ fst (put_files files fs) = Ok tt.
Proof.
  unfold put_files. induction files as [|[p b] files IH]; intros fs Hok Hall; cbn [for_each foldl fst snd]; [by split|].
  apply Forall_cons in Hall as [[Hd Hb] Hall]. cbn [fst snd] in *. destruct (fs_write_ok fs p b 0 Hok Hd Hb) as (fs1 & E1 & [Hok1 Hv1 Hd1]). erewrite prog_bind_run by exact E1.
  destruct (IH fs1 Hok1) as [[Hok2 Hv2 Hd2] E2]; [by rewrite Hd1|]. split; [|exact E2]. split; [done| |by rewrite Hd2, Hd1].
  intros q. rewrite Hv2. clear -Hv1. revert Hv1. generalize (data_at fs1) (data_at fs). intros v1 v. revert q.
  assert (Hext : forall l v v', (forall q, v q = v' q) -> forall q, foldl (fun v x => put_at x.1 x.2 v) v l q = foldl (fun v x => put_at x.1 x.2 v) v' l q).
  { induction l as [|x l IHl]; intros u u' Hu q; cbn [foldl]; [done|]. apply IHl. intros q'. unfold put_at. case_decide; [done|apply Hu]. }
  intros q Hv1. apply Hext. intros q'. rewrite Hv1. done.
Qed.

Definition fs0 : Fs := fs_init dir0 [].
Lemma fs0_ok : fs_ok fs0.
Proof. apply wf_ok; [apply StoreWitness.fs_init_wf|done]. Qed.
Lemma dir0_there : dir0 ∈ fs_dirs fs0.
Proof. apply elem_of_list_to_set, ancestors_self. Qed.

Definition store_with (files : list (fpath * bytes)) : Store :=
  mkStore ["data"] (snd (put_files files fs0)) (MetaIndex.commit empty_db) (install old_nk) empty Idle None 0 false (1 : @rng Toy.rng_ops) 1700000000.

Definition users0 : gmap string bytes := {["root" := as_bytes "r"; "ann" := as_bytes "a"]}.
Definition users_file0 : bytes := user_file (derive_user_store_file_key old_nk) users0.
Definition manifest0 : bytes := enc_manifest (mkKeystoreManifest 3 (b64_encode (derive_node_key_verifier old_nk)) 5).

Lemma in_dir0 (p : fpath) b : fp_dir p = dir0 -> blen b <= FILE_MAX -> Forall (fun x : fpath * bytes => fp_dir x.1 ∈ fs_dirs fs0 /\ blen x.2 <= FILE_MAX) [(p, b)].
Proof. intros Hp Hb. apply Forall_singleton. cbn. rewrite Hp. split; [apply dir0_there|done]. Qed.

Lemma rekey_keeps_users_witness :
  exists w', rekey_user_store dir0 old_nk new_nk (store_with [(users_path dir0, users_file0)]) = (Ok tt, w') /\ users_are new_nk (data_at (s_fs w')) dir0 users0 /\
    exists w'', rekey_user_store dir0 old_nk new_nk w' = (Ok tt, w'') /\ users_are new_nk (data_at (s_fs w'')) dir0 users0.
Proof.
  destruct (put_files_shows [(users_path dir0, users_file0)] fs0 fs0_ok) as [[Hok Hv Hd] _]; [apply in_dir0; [reflexivity|vm_compute; discriminate]|].
  destruct (rekey_keeps_users dir0 old_nk new_nk (store_with [(users_path dir0, users_file0)]) users0) as (w' & E & Hu & w'' & E' & Hu' & _).
  - exact Hok.
  - cbn [store_with s_fs]. rewrite Hd. exact dir0_there.
  - exists users_file0. split; [cbn [store_with s_fs]; rewrite Hv; cbn [foldl fst snd]; unfold put_at; by rewrite decide_True|apply view_file].
  - intros c. apply view_apart. vm_compute. discriminate.
  - exists w'. split; [exact E|]. split; [exact Hu|]. exists w''. split; [exact E'|exact Hu'].
Defined.

Lemma interrupted_first_run_witness :
  exists w', load dir0 old_nk (store_with [(manifest_path dir0, manifest0)]) = (Ok tt, w') /\ users_are old_nk (data_at (s_fs w')) dir0 ∅ /\
    is_ok (fst (first_run dir0 "root" params0 old_nk w')) = false.
Proof.
  destruct (put_files_shows [(manifest_path dir0, manifest0)] fs0 fs0_ok) as [[Hok Hv Hd] _]; [apply in_dir0; [reflexivity|vm_compute; discriminate]|].
  apply (interrupted_first_run dir0 "root" params0 old_nk (store_with [(manifest_path dir0, manifest0)])).
  - exact Hok.
  - cbn [store_with s_fs]. rewrite Hd. exact dir0_there.
  - exists manifest0. eexists. split_and!; [cbn [store_with s_fs]; rewrite Hv; cbn [foldl fst snd]; unfold put_at; by rewrite decide_True|vm_compute; reflexivity|reflexivity|vm_compute; reflexivity].
  - cbn [store_with s_fs]. rewrite Hv. vm_compute. reflexivity.
  - cbn [store_with s_fs]. rewrite Hv. vm_compute. reflexivity.
Defined.

Definition slots0 : list CredentialSlot * nat * @rng Toy.rng_ops :=
  match new_slots_random "root" (as_bytes (b64url_encode (fst (fill_bytes (1 : @rng Toy.rng_ops) 24)))) params0 Admin false (snd (fill_bytes (1 : @rng Toy.rng_ops) 24)) with
  | Ok x => x | Err _ => ([], 0%nat, 1)
  end.

Lemma first_run_then_load_witness :
  exists w', fst (first_run dir0 "root" params0 old_nk (store_with [])) = Ok (as_bytes (b64url_encode (fst (fill_bytes (1 : @rng Toy.rng_ops) 24)))) /\
    snd (first_run dir0 "root" params0 old_nk (store_with [])) = w' /\
    (exists w'', load dir0 old_nk w' = (Ok tt, w'') /\ users_are old_nk (data_at (s_fs w'')) dir0 {["root" := as_bytes "root"]}) /\
    fst (load dir0 new_nk w') = Err NodeKeyMismatch /\ is_ok (fst (first_run dir0 "root" params0 old_nk w')) = false.
Proof.
  destruct (first_run_then_load dir0 "root" params0 old_nk (store_with []) (fst (fill_bytes (1 : @rng Toy.rng_ops) 24)) (snd (fill_bytes (1 : @rng Toy.rng_ops) 24))
    (snd slots0) (fst (fst slots0)) (snd (fst slots0)) (as_bytes "root")) as (w' & E & Hl & Hn & Hr).
  - exact fs0_ok.
  - exact dir0_there.
  - vm_compute. reflexivity.
  - vm_compute. reflexivity.
  - vm_compute. reflexivity.
  - vm_compute. split; [discriminate|reflexivity].
  - reflexivity.
  - vm_compute. reflexivity.
  - reflexivity.
  - exists w'. rewrite E. split; [reflexivity|]. split; [reflexivity|]. split; [exact Hl|]. split; [apply Hn; vm_compute; discriminate|exact Hr].
Defined.

End KeystoreWitness.
