(* ===== verification/NodeKeyRotationWitness.v ===== *)
(** * Concrete rotation runs *)

From S2P Require Import Prelude Effects Primitives Types Format Crypto NodeKeys Sink Slots BucketKeys Lex Query Index IndexSpec Locks Posix FsView Filesystem FilesystemSpec FilesystemSafety NodeRotation Rebuild NodeRotationSpec EncryptedFile Keystore KeystoreSpec NodeKeyRotation NodeKeyRotationSpec NodeKeyRotationRun RotationWitness FilesystemWitness NodeRotationWitness KeystoreWitness.
Import FilesystemStorage.

Module NodeKeyRotationWitness.
Import ToyKeystore ToyRedb.
#[local] Remove Hints ToyRedb.json ToyRedb.json_laws : typeclass_instances.
Import ToyJson NodeRotationWitness.
#[local] Existing Instances Toy.aead Toy.kem Toy.xxh3_ops Toy.base64 Toy.hash Toy.rng_ops Toy.range_ops Toy.argon2 Toy.token_ops.
#[local] Existing Instances Toy.aead_laws Toy.xxh3_laws Toy.base64_laws Toy.hash_laws Toy.rng_laws.
#[local] Existing Instances NodeRotationWitness.ascii_only NodeRotationWitness.config_json.

Definition keys0 : list string := ["keys"].
Definition users0 : gmap string bytes := KeystoreWitness.users0.
Definition users_file0 : bytes := user_file (derive_user_store_file_key nk0) users0.
Definition manifest0 : bytes := enc_manifest (mkKeystoreManifest 3 (b64_encode (derive_node_key_verifier nk0)) 5).
Definition journal0 : bytes := enc_journal (mkRotationJournal (b64_encode (derive_node_key_verifier nk0)) (b64_encode (derive_node_key_verifier nk1))).

(** The two objects of a bucket, and a keystore beside them. *)
Definition fs_keys : Fs := snd (fs_create_dir_all keys0 (fs_at ∅)).
Definition files0 : list (fpath * bytes) := [(manifest_path keys0, manifest0); (users_path keys0, users_file0)].
Definition fs_run (files : list (fpath * bytes)) : Fs := snd (KeystoreWitness.put_files files fs_keys).

Lemma fs_keys_shows : shows fs_keys (data_at (fs_at ∅)) (fs_dirs (fs_at ∅) ∪ list_to_set (ancestors keys0)).
Proof.
  destruct (fs_create_dir_all_ok (fs_at ∅) keys0 (sh_ok _ _ _ (fs_at_shows ∅))) as (fs' & E & Hs). unfold fs_keys. rewrite E. exact Hs.
Qed.
Lemma fs_run_shows files : Forall (fun x : fpath * bytes => fp_dir x.1 = keys0 /\ blen x.2 <= FILE_MAX) files ->
  shows (fs_run files) (foldl (fun v x => put_at x.1 x.2 v) (data_at fs_keys) files) (fs_dirs (fs_at ∅) ∪ list_to_set (ancestors keys0)).
Proof.
  intros Hall. destruct fs_keys_shows as [Hok Hv Hd]. destruct (KeystoreWitness.put_files_shows files fs_keys Hok) as [[Hok' Hv' Hd'] _].
  - eapply Forall_impl; [exact Hall|]. intros x [-> Hb]. split; [|exact Hb]. rewrite Hd. apply elem_of_union_r, elem_of_list_to_set, ancestors_self.
  - split; [exact Hok'|exact Hv'|etransitivity; [exact Hd'|exact Hd]].
Qed.
Lemma small_files0 : Forall (fun x : fpath * bytes => fp_dir x.1 = keys0 /\ blen x.2 <= FILE_MAX) files0.
Proof. repeat (apply Forall_cons; split; [split; [reflexivity|vm_compute; discriminate]|]). apply Forall_nil_2. Qed.
Lemma run0_shows : shows (fs_run files0) (put_at (users_path keys0) users_file0 (put_at (manifest_path keys0) manifest0 (data_at fs_keys))) (fs_dirs (fs_at ∅) ∪ list_to_set (ancestors keys0)).
Proof. exact (fs_run_shows files0 small_files0). Qed.

Lemma fs_keys_below q : fp_dir q = keys0 -> data_at fs_keys q = None.
Proof.
  intros Hq. rewrite (sh_data _ _ _ fs_keys_shows), (sh_data _ _ _ (fs_at_shows ∅)). rewrite !decide_False; [done| |]; intros ->; revert Hq; vm_compute; discriminate.
Qed.

Definition d0 : MetaIndex.IndexDb := match MetaIndex.register_bucket (MetaIndex.commit empty_db) "photos" with Ok (MetaIndex.mkMetadataIndex (Some d)) => d | _ => empty_db end.
Definition node_with (files : list (fpath * bytes)) : Node :=
  mkNode (mkStore base0 (fs_run files) (MetaIndex.mkMetadataIndex None) (install nk0) empty Idle None 0 false (1 : @rng Toy.rng_ops) 1700000000)
    (Some (derive_index_file_key nk0, d0)).

Lemma run0_data q : fp_dir q <> keys0 -> data_at (fs_run files0) q = data_at (fs_at ∅) q.
Proof.
  intros Hq. rewrite (sh_data _ _ _ run0_shows). unfold put_at. rewrite !decide_False by (intros ->; by apply Hq). apply (sh_data _ _ _ fs_keys_shows).
Qed.

Lemma tree0 : tree_ready K0 base0 (fs_run files0) ["photos"] (fun _ => contents0) (fun _ => None).
Proof.
  destruct run0_shows as [Hok Hv Hd]. constructor.
  - rewrite Hd. apply elem_of_union_l. apply (dirs0 ∅). left. vm_compute. reflexivity.
  - unfold names_apart. eapply (@bool_decide_eq_true_1 _ (NoDup_dec _)). vm_compute. reflexivity.
  - intros b ->%list_elem_of_singleton. eapply ready_ext; [| |exact bucket_ready0].
    + intros d Hb. rewrite Hd. rewrite elem_of_union, elem_of_list_to_set, elem_of_ancestors. split; [|tauto]. intros [?|Hk]; [done|]. exfalso.
      destruct Hb as [Hb|Hb]; pose proof (below_trans _ _ _ Hb Hk) as Hx; revert Hx; vm_compute; discriminate.
    + intros q _ Hb. apply run0_data. intros Hq. rewrite Hq in Hb. revert Hb. vm_compute. discriminate.
  - intros p [[i Hi] (x & y & z & Hp)] _. exists "photos". split; [by left|].
    assert (Hs : is_Some (data_at (fs_at ∅) p)) by (rewrite <- run0_data by (rewrite Hp; vm_compute; discriminate); apply not_eq_None_Some; by rewrite data_none, Hi).
    rewrite (sh_data _ _ _ (fs_at_shows ∅)) in Hs. repeat case_decide; [subst p; apply below_id_path|subst p; apply below_id_path|by destruct Hs].
  - intros b k d md _ (Hk & _ & ->)%contents0_cases. split; [|destruct Hk as [->| ->]; vm_compute; reflexivity].
    split_and!; [destruct Hk as [->| ->]; by apply name_ok_dec; vm_compute..|]. intros n v Hin. exfalso. revert Hin. cbn [md_of md_labels]. apply not_elem_of_empty.
Qed.

Lemma parsed0 : manifest_from_slice manifest0 = Ok (mkKeystoreManifest 3 (b64_encode (derive_node_key_verifier nk0)) 5).
Proof. vm_compute. reflexivity. Qed.
Lemma manifest_there fs : data_at fs (manifest_path keys0) = Some manifest0 -> manifest_for nk0 (data_at fs) keys0.
Proof. intros Hm. exists manifest0. eexists. split; [exact Hm|]. split; [exact parsed0|]. split; reflexivity. Qed.
Lemma run0_manifest : data_at (fs_run files0) (manifest_path keys0) = Some manifest0.
Proof. rewrite (sh_data _ _ _ run0_shows). unfold put_at. by rewrite decide_False, decide_True. Qed.
Lemma run0_users : data_at (fs_run files0) (users_path keys0) = Some users_file0.
Proof. rewrite (sh_data _ _ _ run0_shows). unfold put_at. by rewrite decide_True. Qed.
Lemma run0_absent q : fp_dir q = keys0 -> q <> users_path keys0 -> q <> manifest_path keys0 -> data_at (fs_run files0) q = None.
Proof. intros Hq H1 H2. rewrite (sh_data _ _ _ run0_shows). unfold put_at. rewrite !decide_False by done. by apply fs_keys_below. Qed.

Lemma rotation_run_preserves_witness :
  exists n', run empty_db 5 false base0 keys0 (Ok nk0) (Ok nk1) (node_with files0) = (Ok tt, n') /\
    fst (get "photos" "cat" (n_store n')) = Ok data0 /\ fst (describe "photos" "dog" (n_store n')) = Ok (md_of "dog") /\
    users_are nk1 (data_at (s_fs (n_store n'))) keys0 users0 /\ fst (verify_node_key keys0 nk1 (n_store n')) = Ok tt /\ fst (refuse_interrupted keys0 n') = Ok tt.
Proof.
  destruct run0_shows as [Hok Hv Hd].
  destruct (rotation_run_preserves empty_db StoreWitness.healthy 5 keys0 nk0 nk1 (node_with files0) d0 ["photos"] (fun _ => contents0) (fun _ => None) users0) as (n' & E & Ho & _ & _ & _ & Hu & _ & Hvf & Hrf).
  - vm_compute. discriminate.
  - split_and!; reflexivity.
  - exact Hok.
  - reflexivity.
  - cbn [node_with n_store s_fs]. rewrite Hd. apply elem_of_union_r, elem_of_list_to_set, ancestors_self.
  - reflexivity.
  - exact tree0.
  - intros b ->%list_elem_of_singleton. vm_compute. reflexivity.
  - reflexivity.
  - reflexivity.
  - vm_compute. reflexivity.
  - exact (manifest_there (fs_run files0) run0_manifest).
  - apply (run0_absent (legacy_pubkey_path keys0)); [reflexivity|discriminate|discriminate].
  - apply (run0_absent (rotation_journal_path keys0)); [reflexivity|discriminate|discriminate].
  - exists users_file0. split; [exact run0_users|exact (view_file _ users0)].
  - exists n'. split; [exact E|]. split; [apply (Ho "photos" "cat" data0 (md_of "cat")); [by left|vm_compute; reflexivity|vm_compute; reflexivity]|].
    split; [apply (Ho "photos" "dog" data0 (md_of "dog")); [by left|vm_compute; reflexivity|vm_compute; reflexivity]|]. split; [exact Hu|]. split; [exact Hvf|exact Hrf].
Defined.

(** The run broke off when all but the last two steps were done. *)
Definition files1 : list (fpath * bytes) := [(manifest_path keys0, manifest0); (rotation_journal_path keys0, journal0)].
Lemma small_files1 : Forall (fun x : fpath * bytes => fp_dir x.1 = keys0 /\ blen x.2 <= FILE_MAX) files1.
Proof. repeat (apply Forall_cons; split; [split; [reflexivity|vm_compute; discriminate]|]). apply Forall_nil_2. Qed.
Lemma run1_shows : shows (fs_run files1) (put_at (rotation_journal_path keys0) journal0 (put_at (manifest_path keys0) manifest0 (data_at fs_keys))) (fs_dirs (fs_at ∅) ∪ list_to_set (ancestors keys0)).
Proof. exact (fs_run_shows files1 small_files1). Qed.

Lemma run1_manifest : data_at (fs_run files1) (manifest_path keys0) = Some manifest0.
Proof. rewrite (sh_data _ _ _ run1_shows). unfold put_at. by rewrite decide_False, decide_True. Qed.
Lemma run1_journal : data_at (fs_run files1) (rotation_journal_path keys0) = Some journal0.
Proof. rewrite (sh_data _ _ _ run1_shows). unfold put_at. by rewrite decide_True. Qed.
Lemma run1_absent : data_at (fs_run files1) (legacy_pubkey_path keys0) = None.
Proof. rewrite (sh_data _ _ _ run1_shows). unfold put_at. rewrite !decide_False by done. by apply fs_keys_below. Qed.
Lemma journal0_parsed : journal_from_slice journal0 = Ok (mkRotationJournal (b64_encode (derive_node_key_verifier nk0)) (b64_encode (derive_node_key_verifier nk1))).
Proof. vm_compute. reflexivity. Qed.

Lemma interrupted_finish_stuck_witness :
  exists w, rewrite_verifier keys0 nk1 (n_store (node_with files1)) = (Ok tt, w) /\
    forall l, let n' := after_attempts empty_db 5 base0 keys0 l (set_store w (node_with files1)) in
      (forall held old new, is_ok (fst (run empty_db 5 held base0 keys0 old new n')) = false) /\ fst (refuse_interrupted keys0 n') = Err INTERRUPTED_MESSAGE.
Proof.
  destruct run1_shows as [Hok Hv Hd]. apply (interrupted_finish_stuck empty_db 5 base0 keys0 nk0 nk1 (node_with files1)); [constructor|].
  - exact Hok.
  - cbn [node_with n_store s_fs]. rewrite Hd. apply elem_of_union_r, elem_of_list_to_set, ancestors_self.
  - exact (manifest_there (fs_run files1) run1_manifest).
  - exact run1_absent.
  - exists journal0. split; [exact run1_journal|exact journal0_parsed].
  - vm_compute. discriminate.
Defined.

(** A bucket without objects, already moved to its new directory. *)
Definition fs_empty_bucket : Fs := snd (fs_create_dir_all (bucket_dir_path base0 (derive_path_key nk1) "photos") (fs_init base0 [])).
Definition node_empty : Node :=
  mkNode (mkStore base0 fs_empty_bucket (MetaIndex.mkMetadataIndex None) (install nk0) empty Idle None 0 false (1 : @rng Toy.rng_ops) 1700000000)
    (Some (derive_index_file_key nk0, d0)).
Lemma empty_bucket_shows : shows fs_empty_bucket (fun _ => None) (fs_dirs (fs_init base0 []) ∪ list_to_set (ancestors (bucket_dir_path base0 (derive_path_key nk1) "photos"))).
Proof.
  destruct (fs_create_dir_all_ok (fs_init base0 []) (bucket_dir_path base0 (derive_path_key nk1) "photos") (wf_ok _ (StoreWitness.fs_init_wf base0 []) eq_refl)) as (fs' & E & [H1 H2 H3]).
  unfold fs_empty_bucket. rewrite E. split; [exact H1| |exact H3]. intros q. rewrite H2. by vm_compute.
Qed.

Lemma rotation_forgets_buckets_witness :
  exists n' d, rebuild_index empty_db nk1 node_empty = (Ok tt, n') /\ n_index n' = Some (derive_index_file_key nk1, d) /\
    bucket_exists "photos" (n_store n') = (Ok false, n_store n') /\ create_bucket "photos" (n_store n') = (Ok false, n_store n').
Proof.
  destruct empty_bucket_shows as [Hok Hv Hd].
  destruct (rotation_forgets_buckets empty_db StoreWitness.healthy nk1 node_empty ∅) as (n' & d & E & Hi & _ & Hb).
  - exact Hok.
  - cbn [node_empty n_store s_fs]. rewrite Hd. apply elem_of_union_l, elem_of_list_to_set, ancestors_self.
  - split_and!; reflexivity.
  - split; [|intros bk md; by rewrite lookup_empty..]. intros p md [[i Hp] _]. exfalso. cbn [node_empty n_store s_fs] in Hp. assert (Hn : data_at fs_empty_bucket p <> None) by (rewrite data_none by exact Hok; by rewrite Hp). apply Hn, Hv.
  - exists n', d. split; [exact E|]. split; [exact Hi|]. destruct (Hb "photos") as [He Hc]; [by apply name_ok_dec; vm_compute|intros k; apply lookup_empty|]. split; [exact He|].
    apply Hc; [vm_compute; reflexivity|]. cbn [node_empty n_store s_fs]. rewrite Hd. apply elem_of_union_r, elem_of_list_to_set, ancestors_self.
Defined.

End NodeKeyRotationWitness.
