(* ===== verification/Upload.v ===== *)
(** * S3 upload bodies

    Models y2qd/src/s3/body/upload.rs with the error sideband of body/mod.rs and the
    signature helpers of y2qd/src/s3/sigv4.rs it uses: the aws-chunked decoder, its
    per-chunk signature chain and trailer, and the verifier that checks a whole-body
    digest at end of stream.

    Text is kept as its UTF-8 bytes.  A body stream is the list of the items it will
    yield; the decoder pulls items on demand, so how the network cut the body is part of
    its input.  The results: a body in the documented grammar decodes to its payload
    however it is cut; a signed body is accepted only if it is in the grammar with every
    signature of the chain right, the trailer's included; a body whose digest is wrong is
    never committed. *)

From S2P Require Import Prelude Lex Primitives Types Crypto Envelope Sink EncryptSession Cipher.

(** ** Errors *)

(** [S3Error] as its constructors build it; resource and request id are filled in later. *)
Record S3Error : Type := mkS3Error { s3_code : string; s3_status : Z; s3_message : string }.

Definition invalid_argument (message : string) : S3Error := mkS3Error "InvalidArgument" 400 message.
Definition invalid_request (message : string) : S3Error := mkS3Error "InvalidRequest" 400 message.
Definition signature_does_not_match : S3Error := mkS3Error "SignatureDoesNotMatch" 403
  "The request signature we calculated does not match the signature you provided.".
Definition x_amz_content_sha256_mismatch : S3Error := mkS3Error "XAmzContentSHA256Mismatch" 400
  "The provided 'x-amz-content-sha256' header does not match what was computed.".

Definition sideband_abort (bucket : string) : Error := Forbidden bucket.

(** ** Text *)

Definition cr : byte := x0d.
Definition lf : byte := x0a.
Definition crlf : bytes := [cr; lf].

Definition is_byte (b c : byte) : bool := bool_decide (b = c).

(** [buf.windows(2).position(|w| w == b"\r\n")] *)
Fixpoint find_crlf (buf : bytes) : option nat :=
  match buf with
  | [] => None
  | a :: r =>
      match r with
      | b :: _ => if is_byte a cr && is_byte b lf then Some O else S <$> find_crlf r
      | [] => None
      end
  end.

(** [str::trim], on the white space of [char::is_whitespace]. *)
Fixpoint trim_start (s : bytes) : bytes :=
  match s with
  | (x09 | x0a | x0b | x0c | x0d | x20) :: r => trim_start r
  | xc2 :: (x85 | xa0) :: r => trim_start r
  | xe1 :: x9a :: x80 :: r => trim_start r
  | xe2 :: x80 :: (x80 | x81 | x82 | x83 | x84 | x85 | x86 | x87 | x88 | x89 | x8a | xa8 | xa9 | xaf) :: r => trim_start r
  | xe2 :: x81 :: x9f :: r => trim_start r
  | xe3 :: x80 :: x80 :: r => trim_start r
  | _ => s
  end.

(** The same on reversed bytes. *)
Fixpoint trim_start_rev (s : bytes) : bytes :=
  match s with
  | (x09 | x0a | x0b | x0c | x0d | x20) :: r => trim_start_rev r
  | (x85 | xa0) :: xc2 :: r => trim_start_rev r
  | x80 :: x9a :: xe1 :: r => trim_start_rev r
  | (x80 | x81 | x82 | x83 | x84 | x85 | x86 | x87 | x88 | x89 | x8a | xa8 | xa9 | xaf) :: x80 :: xe2 :: r => trim_start_rev r
  | x9f :: x81 :: xe2 :: r => trim_start_rev r
  | x80 :: x80 :: xe3 :: r => trim_start_rev r
  | _ => s
  end.

Definition trim (s : bytes) : bytes := reverse (trim_start_rev (reverse (trim_start s))).

(** [s.split_once(c)] for a one-byte separator. *)
Fixpoint split_once (c : byte) (s : bytes) : option (bytes * bytes) :=
  match s with
  | [] => None
  | b :: r => if is_byte b c then Some ([], r)
              else match split_once c r with Some (x, y) => Some (b :: x, y) | None => None end
  end.

Fixpoint strip_prefix (p s : bytes) : option bytes :=
  match p, s with
  | [], _ => Some s
  | a :: p, b :: s => if is_byte a b then strip_prefix p s else None
  | _ :: _, [] => None
  end.

(** [u64::from_str_radix(s, 16)]; [None] is any parse error. *)
Definition hex_digit_value (b : byte) : option Z :=
  if in_range 48 57 b then Some (Z_of_byte b - 48)
  else if in_range 97 102 b then Some (Z_of_byte b - 87)
  else if in_range 65 70 b then Some (Z_of_byte b - 55)
  else None.

Fixpoint radix16 (acc : Z) (s : bytes) : option Z :=
  match s with
  | [] => Some acc
  | b :: s => match hex_digit_value b with
              | Some d => if acc * 16 + d <=? u64_max then radix16 (acc * 16 + d) s else None
              | None => None
              end
  end.

Definition from_str_radix_16 (s : bytes) : option Z :=
  match s with
  | [] => None
  | [x2b] => None
  | x2b :: s => radix16 0 s
  | _ => radix16 0 s
  end.

(** ** Signatures *)

Section decoder.
Context {HO : HashOps} {T : TokenOps} {B : Base64Ops}.

Definition sha256_hex (b : bytes) : bytes := hex_encode (sha256 b).
Definition hex_hmac_sha256 (key msg : bytes) : bytes := hex_encode (hmac_sha256 key msg).
Definition EMPTY_PAYLOAD_SHA256 : bytes :=
  as_bytes "e3b0c44298fc1c149afbf4c8996fb92427ae41e4649b934ca495991b7852b855".

Definition signatures_match (expected provided : bytes) : bool :=
  if negb (blen expected =? blen provided) then false else bool_decide (expected = provided).

Definition chunk_string_to_sign (amz_date scope prev_signature chunk_sha256_hex : bytes) : bytes :=
  as_bytes "AWS4-HMAC-SHA256-PAYLOAD" ++ [lf] ++ amz_date ++ [lf] ++ scope ++ [lf] ++ prev_signature ++ [lf]
  ++ EMPTY_PAYLOAD_SHA256 ++ [lf] ++ chunk_sha256_hex.

Definition trailer_string_to_sign (amz_date scope prev_signature trailer_sha256_hex : bytes) : bytes :=
  as_bytes "AWS4-HMAC-SHA256-TRAILER" ++ [lf] ++ amz_date ++ [lf] ++ scope ++ [lf] ++ prev_signature ++ [lf]
  ++ trailer_sha256_hex.

(** ** Checksums *)

Inductive ChecksumAlgo : Type := Crc32 | Sha256.

Inductive ChecksumDecl : Type := Supported (algo : ChecksumAlgo) | Unsupported | NotAChecksum.

Definition classify (name : bytes) : ChecksumDecl :=
  let name := to_ascii_lowercase name in
  if bool_decide (name = as_bytes "crc32") then Supported Crc32
  else if bool_decide (name = as_bytes "sha256") then Supported Sha256
  else if bool_decide (name = as_bytes "crc32c") || bool_decide (name = as_bytes "crc64nvme")
          || bool_decide (name = as_bytes "sha1") then Unsupported
  else NotAChecksum.

(** The incremental hashers, by what they have absorbed. *)
Inductive ChecksumHasher : Type := HCrc32 (absorbed : bytes) | HSha256 (absorbed : bytes).

Definition hasher_new (algo : ChecksumAlgo) : ChecksumHasher :=
  match algo with Crc32 => HCrc32 [] | Sha256 => HSha256 [] end.
Definition hasher_update (h : ChecksumHasher) (data : bytes) : ChecksumHasher :=
  match h with HCrc32 a => HCrc32 (a ++ data) | HSha256 a => HSha256 (a ++ data) end.
Definition hasher_finish_b64 (h : ChecksumHasher) : bytes :=
  match h with
  | HCrc32 a => as_bytes (b64_encode (to_be_bytes 4 (crc32 a)))
  | HSha256 a => as_bytes (b64_encode (sha256 a))
  end.

(** ** The decoder's state *)

Definition MAX_CHUNK_HEADER_LINE_BYTES : Z := 1024.

Record ChunkSigningState : Type := mkChunkSigningState {
  signing_key : bytes;
  scope : bytes;
  amz_date : bytes;
  prev_signature : bytes;
}.

Record ChunkedState : Type := mkChunkedState {
  cs_inner : list (result Error bytes);
  cs_buf : bytes;
  cs_inner_done : bool;
  cs_signing : option ChunkSigningState;
  cs_expect_trailer : bool;
  cs_max_frame_bytes : Z;
  cs_trailer_checksum : option ChecksumAlgo;
  cs_hasher : option ChecksumHasher;
  cs_sideband : option S3Error;
  cs_bucket : string;
  cs_finished : bool;
}.

(** A step of the decoder. *)
Definition dec (U : Type) : Type := ChunkedState -> result Error U * ChunkedState.

#[global] Instance dec_ret : MRet dec := fun U x st => (Ok x, st).
#[global] Instance dec_bind : MBind dec := fun U V f m st =>
  match m st with
  | (Ok x, st) => f x st
  | (Err e, st) => (Err e, st)
  end.

Definition with_source (st : ChunkedState) (inner : list (result Error bytes)) (buf : bytes) (inner_done : bool)
  : ChunkedState :=
  mkChunkedState inner buf inner_done (cs_signing st) (cs_expect_trailer st) (cs_max_frame_bytes st)
    (cs_trailer_checksum st) (cs_hasher st) (cs_sideband st) (cs_bucket st) (cs_finished st).
Definition with_sideband (st : ChunkedState) (e : S3Error) : ChunkedState :=
  mkChunkedState (cs_inner st) (cs_buf st) (cs_inner_done st) (cs_signing st) (cs_expect_trailer st)
    (cs_max_frame_bytes st) (cs_trailer_checksum st) (cs_hasher st) (Some e) (cs_bucket st) (cs_finished st).
Definition with_prev (st : ChunkedState) (s : ChunkSigningState) (sig : bytes) : ChunkedState :=
  mkChunkedState (cs_inner st) (cs_buf st) (cs_inner_done st)
    (Some (mkChunkSigningState (signing_key s) (scope s) (amz_date s) sig)) (cs_expect_trailer st)
    (cs_max_frame_bytes st) (cs_trailer_checksum st) (cs_hasher st) (cs_sideband st) (cs_bucket st) (cs_finished st).
Definition with_hasher (st : ChunkedState) (h : option ChecksumHasher) : ChunkedState :=
  mkChunkedState (cs_inner st) (cs_buf st) (cs_inner_done st) (cs_signing st) (cs_expect_trailer st)
    (cs_max_frame_bytes st) (cs_trailer_checksum st) h (cs_sideband st) (cs_bucket st) (cs_finished st).
Definition set_finished (st : ChunkedState) : ChunkedState :=
  mkChunkedState (cs_inner st) (cs_buf st) (cs_inner_done st) (cs_signing st) (cs_expect_trailer st)
    (cs_max_frame_bytes st) (cs_trailer_checksum st) (cs_hasher st) (cs_sideband st) (cs_bucket st) true.

(** Record the real reason in the sideband, abort with the placeholder. *)
Definition framing_abort {U} (e : S3Error) : dec U := fun st =>
  (Err (sideband_abort (cs_bucket st)), with_sideband st e).

(** ** Reading *)

(** Why a read stopped short: an item of the stream failed, or the framing is bad. *)
Definition read_abort {U} (e : Error + S3Error) : dec U :=
  match e with inl e => fun st => (Err e, st) | inr e => framing_abort e end.

(** The loop of [read_line]; when the stream ends, [inner_done] is set and the next turn
    reports the truncation. *)
Fixpoint pull_line (inner : list (result Error bytes)) (buf : bytes) (inner_done : bool)
  : (Error + S3Error + bytes) * (list (result Error bytes) * bytes * bool) :=
  match find_crlf buf with
  | Some pos => (inr (take pos buf), (inner, drop (pos + 2) buf, inner_done))
  | None =>
      if MAX_CHUNK_HEADER_LINE_BYTES <? blen buf then
        (inl (inr (invalid_argument "aws-chunked frame header too long")), (inner, buf, inner_done))
      else if inner_done then
        (inl (inr (invalid_argument "truncated aws-chunked body")), (inner, buf, inner_done))
      else match inner with
           | Ok chunk :: rest => pull_line rest (buf ++ chunk) inner_done
           | Err e :: rest => (inl (inl e), (rest, buf, inner_done))
           | [] => (inl (inr (invalid_argument "truncated aws-chunked body")), ([], buf, true))
           end
  end.

Definition read_line : dec bytes := fun st =>
  let '(res, (inner, buf, inner_done)) := pull_line (cs_inner st) (cs_buf st) (cs_inner_done st) in
  let st := with_source st inner buf inner_done in
  match res with
  | inl e => read_abort e st
  | inr line => if valid_utf8 line then (Ok line, st)
                else framing_abort (invalid_argument "malformed aws-chunked framing") st
  end.

Fixpoint pull_exact (n : Z) (inner : list (result Error bytes)) (buf : bytes) (inner_done : bool)
  : (Error + S3Error + bytes) * (list (result Error bytes) * bytes * bool) :=
  if blen buf <? n then
    if inner_done then
      (inl (inr (invalid_argument "truncated aws-chunked body")), (inner, buf, inner_done))
    else match inner with
         | Ok chunk :: rest => pull_exact n rest (buf ++ chunk) inner_done
         | Err e :: rest => (inl (inl e), (rest, buf, inner_done))
         | [] => (inl (inr (invalid_argument "truncated aws-chunked body")), ([], buf, true))
         end
  else (inr (take (Z.to_nat n) buf), (inner, drop (Z.to_nat n) buf, inner_done)).

Definition read_exact (n : Z) : dec bytes := fun st =>
  let '(res, (inner, buf, inner_done)) := pull_exact n (cs_inner st) (cs_buf st) (cs_inner_done st) in
  let st := with_source st inner buf inner_done in
  match res with
  | inl e => read_abort e st
  | inr data => (Ok data, st)
  end.

Definition get_state : dec ChunkedState := fun st => (Ok st, st).
Definition put_state (st : ChunkedState) : dec unit := fun _ => (Ok tt, st).

Definition verify_chunk_signature (declared_sig : option bytes) (payload_sha256_hex : bytes) : dec unit :=
  st ← get_state;
  match cs_signing st with
  | None => mret tt
  | Some signing =>
      match declared_sig with
      | None => framing_abort signature_does_not_match
      | Some declared =>
          let sts := chunk_string_to_sign (amz_date signing) (scope signing) (prev_signature signing)
                       payload_sha256_hex in
          let computed := hex_hmac_sha256 (signing_key signing) sts in
          if negb (signatures_match computed declared) then framing_abort signature_does_not_match
          else put_state (with_prev st signing declared)
      end
  end.

(** ** The trailer *)

(** Every line takes at least its two terminator bytes out of what is left. *)
Definition items_len (inner : list (result Error bytes)) : nat :=
  list_sum ((fun i => match i with Ok c => length c | Err _ => O end) <$> inner).
Definition remaining (st : ChunkedState) : nat := (length (cs_buf st) + items_len (cs_inner st))%nat.

Record Trailer : Type := mkTrailer {
  t_content : bytes;
  t_sig : option bytes;
  t_values : gmap bytes bytes;
}.

(** One non-empty trailer line. *)
Definition trailer_line (acc : Trailer) (line : bytes) : Trailer :=
  match strip_prefix (as_bytes "x-amz-trailer-signature:") (to_ascii_lowercase line) with
  | Some sig => mkTrailer (t_content acc) (Some (trim sig)) (t_values acc)
  | None =>
      mkTrailer (t_content acc ++ line ++ [lf]) (t_sig acc)
        (match split_once x3a line with
         | Some (name, value) => <[to_ascii_lowercase (trim name) := trim value]> (t_values acc)
         | None => t_values acc
         end)
  end.

Fixpoint trailer_lines (fuel : nat) (acc : Trailer) : dec Trailer :=
  match fuel with
  | O => framing_abort (invalid_argument "truncated aws-chunked body")
  | S fuel =>
      line ← read_line;
      match line with
      | [] => mret acc
      | _ :: _ => trailer_lines fuel (trailer_line acc line)
      end
  end.

Definition read_trailer : dec (gmap bytes bytes) :=
  st ← get_state;
  tr ← trailer_lines (S (remaining st)) (mkTrailer [] None empty);
  st ← get_state;
  match cs_signing st with
  | None => mret (t_values tr)
  | Some signing =>
      match t_sig tr with
      | None => framing_abort signature_does_not_match
      | Some sig =>
          let trailer_hash := sha256_hex (t_content tr) in
          let sts := trailer_string_to_sign (amz_date signing) (scope signing) (prev_signature signing) trailer_hash in
          let computed := hex_hmac_sha256 (signing_key signing) sts in
          if negb (signatures_match computed sig) then framing_abort signature_does_not_match
          else _ ← put_state (with_prev st signing sig); mret (t_values tr)
      end
  end.

(** ** Frames *)

Definition parse_header (header_line : bytes) : bytes * option bytes :=
  match split_once x3b header_line with
  | Some (s, rest) => (s, strip_prefix (as_bytes "chunk-signature=") (trim rest))
  | None => (header_line, None)
  end.

Definition checksum_name (algo : ChecksumAlgo) : bytes :=
  match algo with
  | Crc32 => as_bytes "x-amz-checksum-crc32"
  | Sha256 => as_bytes "x-amz-checksum-sha256"
  end.

(** The terminal frame, once its header line is parsed. *)
Definition finish_frames (declared_sig : option bytes) : dec (option bytes) :=
  _ ← verify_chunk_signature declared_sig EMPTY_PAYLOAD_SHA256;
  st ← get_state;
  trailer_values ←
    (if cs_expect_trailer st then read_trailer
     else blank ← read_line;
          if bool_decide (blank = []) then mret empty
          else framing_abort (invalid_argument "expected blank line after terminal chunk"));
  st ← get_state;
  _ ← match cs_trailer_checksum st with
      | None => mret tt
      | Some algo =>
          let declared := (trailer_values : gmap bytes bytes) !! checksum_name algo in
          let actual := hasher_finish_b64 <$> cs_hasher st in
          _ ← put_state (with_hasher st None);
          if bool_decide (is_Some declared) && bool_decide (declared = actual) then mret tt
          else framing_abort (invalid_request "trailer checksum mismatch or missing")
      end;
  st ← get_state;
  _ ← put_state (set_finished st);
  mret None.

(** A data frame of [frame_size] bytes. *)
Definition data_frame (declared_sig : option bytes) (frame_size : Z) : dec (option bytes) :=
  data ← read_exact frame_size;
  trailing ← read_exact 2;
  if negb (bool_decide (trailing = crlf)) then
    framing_abort (invalid_argument "malformed aws-chunked frame terminator")
  else
  _ ← verify_chunk_signature declared_sig (sha256_hex data);
  st ← get_state;
  _ ← put_state (with_hasher st ((fun h => hasher_update h data) <$> cs_hasher st));
  mret (Some data).

Definition next_chunked_frame : dec (option bytes) :=
  st ← get_state;
  if cs_finished st then mret None else
  header_line ← read_line;
  let '(size_hex, declared_sig) := parse_header header_line in
  match from_str_radix_16 (trim size_hex) with
  | None => framing_abort (invalid_argument "malformed aws-chunked frame size")
  | Some frame_size =>
      if cs_max_frame_bytes st <? frame_size then
        framing_abort (invalid_request "chunk exceeds the configured max_part_bytes")
      else if frame_size =? 0 then finish_frames declared_sig
      else data_frame declared_sig frame_size
  end.

Record ChunkedOptions : Type := mkChunkedOptions {
  co_chunk_signing : option ChunkSigningState;
  co_trailer_checksum : option ChecksumAlgo;
  co_max_frame_bytes : Z;
  co_expect_trailer : bool;
  co_bucket : string;
}.

Definition start_state (inner : list (result Error bytes)) (o : ChunkedOptions) : ChunkedState :=
  mkChunkedState inner [] false (co_chunk_signing o) (co_expect_trailer o) (co_max_frame_bytes o)
    (co_trailer_checksum o) (hasher_new <$> co_trailer_checksum o) None (co_bucket o) false.

(** [try_unfold]: frames until the end of the body or the first error; [None] for the
    outcome when [fuel] polls did not reach it. *)
Fixpoint frames (fuel : nat) (st : ChunkedState) : list bytes * option (result Error unit) * ChunkedState :=
  match fuel with
  | O => ([], None, st)
  | S fuel =>
      match next_chunked_frame st with
      | (Ok (Some data), st) => let '(ds, res, st) := frames fuel st in (data :: ds, res, st)
      | (Ok None, st) => ([], Some (Ok tt), st)
      | (Err e, st) => ([], Some (Err e), st)
      end
  end.

(** The items of the decoded stream. *)
Definition stream_items (ds : list bytes) (res : option (result Error unit)) : list (result Error bytes) :=
  (Ok <$> ds) ++ match res with Some (Err e) => [Err e] | _ => [] end.

Definition decode_aws_chunked (inner : list (result Error bytes)) (o : ChunkedOptions) : list (result Error bytes) :=
  let '(ds, res, _) := frames (S (items_len inner)) (start_state inner o) in stream_items ds res.

(** ** Whole-body digests *)

Inductive EofVerifier : Type :=
| PayloadSha256 (absorbed : bytes) (expected_hex : bytes)
| ChecksumHeader (h : ChecksumHasher) (expected_b64 : bytes).

Definition verifier_update (v : EofVerifier) (chunk : bytes) : EofVerifier :=
  match v with
  | PayloadSha256 a x => PayloadSha256 (a ++ chunk) x
  | ChecksumHeader h x => ChecksumHeader (hasher_update h chunk) x
  end.

Definition verifier_finish (v : EofVerifier) : result S3Error unit :=
  match v with
  | PayloadSha256 a x => if bool_decide (hex_encode (sha256 a) = x) then Ok tt else Err x_amz_content_sha256_mismatch
  | ChecksumHeader h x =>
      let actual := hasher_finish_b64 h in
      if bool_decide (actual = x) then Ok tt
      else Err (invalid_request ("checksum mismatch: computed " ++ String.string_of_list_byte actual
                  ++ ", declared " ++ String.string_of_list_byte x))
  end.

(** The items the verified stream yields, with what it leaves in the sideband. *)
Fixpoint verify_at_eof (inner : list (result Error bytes)) (v : EofVerifier) (bucket : string)
  : list (result Error bytes) * option S3Error :=
  match inner with
  | Ok chunk :: rest =>
      let '(items, side) := verify_at_eof rest (verifier_update v chunk) bucket in (Ok chunk :: items, side)
  | Err e :: _ => ([Err e], None)
  | [] => match verifier_finish v with
          | Ok _ => ([], None)
          | Err e => ([Err (sideband_abort bucket)], Some e)
          end
  end.

End decoder.

(** ** Lemmas on text *)

Definition graphic (b : byte) : bool := in_range 33 126 b.
Definition graphic_text (s : bytes) : Prop := Forall (fun b => graphic b = true) s.
Definition is_hex (b : byte) : bool := bool_decide (is_Some (hex_digit_value b)).

Lemma is_byte_eq a b : is_byte a b = true <-> a = b.
Proof. unfold is_byte. apply bool_decide_eq_true. Qed.

Lemma find_crlf_none b : lf ∉ b -> find_crlf b = None.
Proof.
  induction b as [|a b IH]; [done|]. intros [Ha Hb]%not_elem_of_cons. cbn [find_crlf].
  destruct b as [|c b]; [done|]. rewrite IH by done. apply not_elem_of_cons in Hb as [Hc _].
  destruct (is_byte c lf) eqn:E; [by apply is_byte_eq in E|]. by rewrite andb_false_r.
Qed.

Lemma find_crlf_first line rest : lf ∉ line -> find_crlf (line ++ crlf ++ rest) = Some (length line).
Proof.
  induction line as [|a line IH]; [done|]. intros [Ha Hl]%not_elem_of_cons. specialize (IH Hl).
  assert (Hf : forall r, r <> [] -> find_crlf r = Some (length line) -> is_byte (hd cr r) lf = false ->
    find_crlf (a :: r) = Some (S (length line))).
  { intros [|b r] Hne Hr Hb; [done|]. cbn [hd] in Hb. cbn [find_crlf]. rewrite Hb, andb_false_r.
    change (S <$> find_crlf (b :: r) = Some (S (length line))). by rewrite Hr. }
  apply Hf; [by destruct line | done |]. destruct line as [|b line]; [done|]. cbn [app hd].
  destruct (is_byte b lf) eqn:E; [|done]. apply is_byte_eq in E as ->. by apply not_elem_of_cons in Hl as [? _].
Qed.

Lemma find_crlf_sound b p : find_crlf b = Some p -> b = take p b ++ crlf ++ drop (p + 2) b.
Proof.
  revert p. induction b as [|a b IH]; [done|]. intros p. cbn [find_crlf]. destruct b as [|c b]; [done|].
  destruct (is_byte a cr && is_byte c lf) eqn:E.
  - intros [= <-]. apply andb_true_iff in E as [->%is_byte_eq ->%is_byte_eq]. done.
  - intros Hp. destruct (find_crlf (c :: b)) as [q|] eqn:Eq; [|done]. injection Hp as <-.
    cbn [take Nat.add drop app]. by rewrite <- IH.
Qed.

(** The part of a body that has arrived, when no line end has. *)
Lemma find_crlf_prefix buf more line rest : buf ++ more = line ++ crlf ++ rest -> lf ∉ line ->
  (find_crlf buf = None /\ blen buf <= blen line + 1) \/
  (find_crlf buf = Some (length line) /\ take (length line) buf = line /\ drop (length line + 2) buf ++ more = rest).
Proof.
  intros E Hl. destruct (decide (length buf <= length line + 1)%nat) as [Hs|Hs].
  - left. assert (Hp : buf `prefix_of` line ++ [cr]).
    { exists (drop (length buf) (line ++ [cr])). transitivity (take (length buf) (line ++ [cr]) ++ drop (length buf) (line ++ [cr])).
      { by rewrite take_drop. }
      f_equal. transitivity (take (length buf) (line ++ crlf ++ rest)); [|by rewrite <- E, take_app_length].
      change (line ++ crlf ++ rest) with (line ++ [cr] ++ [lf] ++ rest). rewrite app_assoc. rewrite (take_app_le (line ++ [cr])); [done|].
      rewrite length_app. cbn. lia. }
    destruct Hp as [k Hk]. split; [|unfold blen; lia]. apply find_crlf_none. intros Hin.
    assert (Hin' : lf ∈ line ++ [cr]) by (rewrite Hk; apply elem_of_app; by left).
    apply elem_of_app in Hin' as [?|Hc%list_elem_of_singleton]; done.
  - right. assert (Hb : buf = line ++ crlf ++ take (length buf - length line - 2) rest).
    { transitivity (take (length buf) (line ++ crlf ++ rest)); [by rewrite <- E, take_app_length|].
      rewrite take_app_ge, (take_app_ge crlf) by (cbn; lia). cbn [length crlf].
      do 3 f_equal; lia. }
    rewrite Hb in E |- *. split_and!.
    + by apply find_crlf_first.
    + apply take_app_length.
    + rewrite <- drop_drop, drop_app_length. change (drop 2 (crlf ++ ?x)) with x.
      rewrite <- !app_assoc in E. by do 2 apply app_inv_head in E.
Qed.

(** ** Pulling from a stream *)

Lemma pull_line_complete line rest : lf ∉ line -> blen line <= 1023 ->
  forall ps buf, buf ++ concat ps = line ++ crlf ++ rest ->
  exists ps' buf', pull_line (Ok <$> ps) buf false = (inr line, (Ok <$> ps', buf', false)) /\ buf' ++ concat ps' = rest.
Proof.
  intros Hl Hn. induction ps as [|p ps IH]; intros buf E.
  - destruct (find_crlf_prefix buf [] line rest E Hl) as [[_ Hs]|(Hf & Ht & Hd)].
    + exfalso. apply (f_equal blen) in E. cbn [concat] in E. rewrite !blen_app in E. unfold crlf in E.
      rewrite !blen_cons, !blen_nil in E. pose proof (blen_nonneg rest). lia.
    + exists [], (drop (length line + 2) buf). cbn [fmap list_fmap pull_line]. rewrite Hf, Ht. done.
  - cbn [concat] in E. destruct (find_crlf_prefix buf (p ++ concat ps) line rest E Hl) as [[Hf Hs]|(Hf & Ht & Hd)].
    + destruct (IH (buf ++ p)) as (ps' & buf' & Hp & Hr); [by rewrite <- app_assoc|].
      exists ps', buf'. split; [|done]. cbn [fmap list_fmap pull_line]. rewrite Hf.
      unfold MAX_CHUNK_HEADER_LINE_BYTES. destruct (Z.ltb_spec 1024 (blen buf)); [lia|]. exact Hp.
    + exists (p :: ps), (drop (length line + 2) buf). cbn [fmap list_fmap pull_line]. rewrite Hf, Ht. done.
Qed.

Lemma pull_line_sound : forall inner buf d line inner' buf' d',
  pull_line inner buf d = (inr line, (inner', buf', d')) ->
  exists ps, inner = (Ok <$> ps) ++ inner' /\ buf ++ concat ps = line ++ crlf ++ buf'.
Proof.
  induction inner as [|i inner IH]; intros buf d line inner' buf' d' E; cbn [pull_line] in E;
    (destruct (find_crlf buf) as [p|] eqn:Ef;
     [injection E as <- <- <- <-; exists []; split; [done|]; cbn [concat]; rewrite app_nil_r; by apply find_crlf_sound|]);
    destruct (MAX_CHUNK_HEADER_LINE_BYTES <? blen buf); [done| |done|]; destruct d; try done.
  destruct i as [c|e]; [|done]. apply IH in E as (ps & -> & E). exists (c :: ps). split; [done|].
  cbn [concat]. by rewrite app_assoc.
Qed.

Lemma pull_exact_complete data rest : forall ps buf, buf ++ concat ps = data ++ rest ->
  exists ps' buf', pull_exact (blen data) (Ok <$> ps) buf false = (inr data, (Ok <$> ps', buf', false)) /\
    buf' ++ concat ps' = rest.
Proof.
  induction ps as [|p ps IH]; intros buf E; cbn [fmap list_fmap pull_exact concat] in *;
    destruct (Z.ltb_spec (blen buf) (blen data)) as [Hlt|Hge].
  - exfalso. apply (f_equal blen) in E. rewrite !blen_app, blen_nil in E. pose proof (blen_nonneg rest). lia.
  - unfold blen in Hge. exists [], (drop (length data) buf). unfold blen. rewrite !Nat2Z.id. rewrite app_nil_r in E.
    subst buf. rewrite take_app_length, drop_app_length. cbn [concat]. by rewrite app_nil_r.
  - destruct (IH (buf ++ p)) as (ps' & buf' & Hp & Hr); [by rewrite <- app_assoc|]. by exists ps', buf'.
  - unfold blen in Hge. exists (p :: ps), (drop (length data) buf). unfold blen. rewrite !Nat2Z.id.
    assert (Hb : buf = data ++ drop (length data) buf).
    { rewrite <- (take_drop (length data) buf) at 1. f_equal. transitivity (take (length data) (buf ++ p ++ concat ps)).
      - by rewrite take_app_le by lia.
      - by rewrite E, take_app_length. }
    split.
    + rewrite Hb at 1. by rewrite take_app_length.
    + rewrite Hb in E. rewrite <- app_assoc in E. by apply app_inv_head in E.
Qed.

Lemma pull_exact_sound n : 0 <= n -> forall inner buf d data inner' buf' d',
  pull_exact n inner buf d = (inr data, (inner', buf', d')) ->
  blen data = n /\ exists ps, inner = (Ok <$> ps) ++ inner' /\ buf ++ concat ps = data ++ buf'.
Proof.
  intros Hn. induction inner as [|i inner IH]; intros buf d data inner' buf' d' E; cbn [pull_exact] in E;
    destruct (Z.ltb_spec (blen buf) n) as [Hlt|Hge].
  1: by destruct d.
  1,3: injection E as <- <- <- <-; split; [rewrite blen_take; lia|]; exists []; split; [done|]; cbn [concat];
    by rewrite app_nil_r, take_drop.
  destruct d; [done|]. destruct i as [c|e]; [|done]. apply IH in E as (Hl & ps & -> & E). split; [done|].
  exists (c :: ps). split; [done|]. cbn [concat]. by rewrite app_assoc.
Qed.

(** ** ASCII text *)

Lemma graphic_not_lf s : graphic_text s -> lf ∉ s.
Proof. unfold graphic_text. intros Hs Hin. rewrite Forall_forall in Hs. by specialize (Hs _ Hin). Qed.

Lemma valid_utf8_ascii s : Forall (fun b => in_range 0 127 b = true) s -> valid_utf8 s = true.
Proof. induction 1 as [|b s Hb _ IH]; [done|]. cbn [valid_utf8]. by rewrite Hb. Qed.

Lemma graphic_ascii b : graphic b = true -> in_range 0 127 b = true.
Proof. unfold graphic, in_range. rewrite !andb_true_iff, !Z.leb_le. lia. Qed.

Lemma valid_utf8_graphic s : graphic_text s -> valid_utf8 s = true.
Proof. intros Hs. apply valid_utf8_ascii. eapply Forall_impl; [done|]. apply graphic_ascii. Qed.

Lemma trim_start_graphic b s : graphic b = true -> trim_start (b :: s) = b :: s.
Proof. destruct b; vm_compute; intros; first [reflexivity | discriminate]. Qed.
Lemma trim_start_rev_graphic b s : graphic b = true -> trim_start_rev (b :: s) = b :: s.
Proof. destruct b; vm_compute; intros; first [reflexivity | discriminate]. Qed.

Lemma trim_graphic s : graphic_text s -> trim s = s.
Proof.
  intros Hs. unfold trim. assert (E : trim_start s = s).
  { destruct s as [|b s]; [done|]. apply trim_start_graphic. by apply Forall_inv in Hs. }
  rewrite E. assert (Hr : graphic_text (reverse s)) by by apply Forall_reverse.
  destruct (reverse s) as [|b r] eqn:Er.
  - cbn. rewrite <- (reverse_involutive s), Er. done.
  - rewrite trim_start_rev_graphic by by apply Forall_inv in Hr. rewrite <- Er. apply reverse_involutive.
Qed.

Lemma hex_char_facts n : 0 <= n < 16 ->
  graphic (hex_char n) = true /\ is_byte (hex_char n) x3b = false /\
  (if in_range 65 90 (hex_char n) then byte_of_Z (Z_of_byte (hex_char n) + 32) else hex_char n) = hex_char n.
Proof.
  intros Hn. assert (Hc : n ∈ seqZ 0 16) by (apply elem_of_seqZ; lia).
  repeat (apply elem_of_cons in Hc as [->|Hc]; [split_and!; vm_compute; reflexivity|]). by apply elem_of_nil in Hc.
Qed.

Lemma hex_encode_text b : graphic_text (hex_encode b) /\ to_ascii_lowercase (hex_encode b) = hex_encode b /\
  blen (hex_encode b) = 2 * blen b.
Proof.
  induction b as [|x b (IHg & IHl & IHn)]; [split_and!; [constructor|done|done]|].
  change (hex_encode (x :: b)) with
    (hex_char (Z_of_byte x / 16) :: hex_char (Z_of_byte x mod 16) :: hex_encode b).
  pose proof (Z_of_byte_range x) as Hx.
  destruct (hex_char_facts (Z_of_byte x / 16)) as (G1 & _ & L1); [split; [apply Z.div_pos; lia | apply Z.div_lt_upper_bound; lia]|].
  destruct (hex_char_facts (Z_of_byte x mod 16)) as (G2 & _ & L2); [apply Z.mod_pos_bound; lia|].
  split_and!.
  - by do 2 (constructor; [done|]).
  - unfold to_ascii_lowercase in *. cbn [fmap list_fmap] in *. by rewrite L1, L2, IHl.
  - rewrite !blen_cons. lia.
Qed.

Lemma split_once_absent c s : c ∉ s -> split_once c s = None.
Proof.
  induction s as [|b s IH]; [done|]. intros [Hb Hs]%not_elem_of_cons. cbn [split_once].
  destruct (is_byte b c) eqn:E; [by apply is_byte_eq in E|]. by rewrite IH.
Qed.
Lemma split_once_first c x y : c ∉ x -> split_once c (x ++ c :: y) = Some (x, y).
Proof.
  induction x as [|b x IH]; cbn [app split_once].
  - intros _. by rewrite (proj2 (is_byte_eq c c) eq_refl).
  - intros [Hb Hx]%not_elem_of_cons. destruct (is_byte b c) eqn:E; [by apply is_byte_eq in E|]. by rewrite IH.
Qed.
Lemma strip_prefix_app p s : strip_prefix p (p ++ s) = Some s.
Proof. induction p as [|a p IH]; [done|]. cbn [strip_prefix app]. by rewrite (proj2 (is_byte_eq a a) eq_refl). Qed.

(** The text of a frame size: hex digits that read as [n]. *)
Definition size_text (hx : bytes) (n : Z) : Prop :=
  Forall (fun b => is_hex b = true) hx /\ from_str_radix_16 hx = Some n /\ blen hx <= 900.

Lemma is_hex_facts b : is_hex b = true -> graphic b = true /\ b <> x3b.
Proof. destruct b; vm_compute; intros; first [discriminate | split; [reflexivity | discriminate]]. Qed.

Lemma size_text_graphic hx n : size_text hx n -> graphic_text hx /\ x3b ∉ hx.
Proof.
  intros [Hx _]. split; [eapply Forall_impl; [done|]; intros b Hb; by apply is_hex_facts|].
  intros Hin. rewrite Forall_forall in Hx. by destruct (is_hex_facts _ (Hx _ Hin)).
Qed.

(** ** Well-formed bodies decode *)

Section theorems.
Context {HO : HashOps} {T : TokenOps} {B : Base64Ops} {HL : HashLaws} {TL : TokenLaws}.

(** The next signature of the chain, and the chain after it. *)
Definition chunk_sig (s : ChunkSigningState) (hash : bytes) : bytes :=
  hex_hmac_sha256 (signing_key s) (chunk_string_to_sign (amz_date s) (scope s) (prev_signature s) hash).
Definition trailer_sig (s : ChunkSigningState) (content : bytes) : bytes :=
  hex_hmac_sha256 (signing_key s)
    (trailer_string_to_sign (amz_date s) (scope s) (prev_signature s) (sha256_hex content)).
Definition advance (s : ChunkSigningState) (hash : bytes) : ChunkSigningState :=
  mkChunkSigningState (signing_key s) (scope s) (amz_date s) (chunk_sig s hash).

Definition header_line (hx : bytes) (sg : option ChunkSigningState) (hash : bytes) : bytes :=
  hx ++ match sg with Some s => x3b :: as_bytes "chunk-signature=" ++ chunk_sig s hash | None => [] end.

(** What a client sends for one data frame: size text, signature, payload. *)
Definition frame_bytes (hx : bytes) (sg : option ChunkSigningState) (data : bytes) : bytes :=
  header_line hx sg (sha256_hex data) ++ crlf ++ data ++ crlf.

Fixpoint frames_bytes (sg : option ChunkSigningState) (fs : list (bytes * bytes)) : bytes :=
  match fs with
  | [] => []
  | (hx, data) :: fs => frame_bytes hx sg data ++ frames_bytes ((fun s => advance s (sha256_hex data)) <$> sg) fs
  end.

Definition checksum_line (algo : ChecksumAlgo) (value : bytes) : bytes := checksum_name algo ++ x3a :: value.
Definition signature_line (s : ChunkSigningState) (content : bytes) : bytes :=
  as_bytes "x-amz-trailer-signature:" ++ trailer_sig s content.

Definition trailer_texts (sg : option ChunkSigningState) (ck : option (ChecksumAlgo * bytes)) : list bytes :=
  match ck with Some (algo, v) => [checksum_line algo v] | None => [] end ++
  match sg with
  | Some s => [signature_line s match ck with Some (algo, v) => checksum_line algo v ++ [lf] | None => [] end]
  | None => []
  end.
Definition lines_bytes (ls : list bytes) : bytes := concat ((fun l => l ++ crlf) <$> ls).

(** The terminal frame and what follows it. *)
Definition end_bytes (sg : option ChunkSigningState) (trailer : bool) (ck : option (ChecksumAlgo * bytes)) : bytes :=
  header_line [x30] sg EMPTY_PAYLOAD_SHA256 ++ crlf ++
  (if trailer then lines_bytes (trailer_texts ((fun s => advance s EMPTY_PAYLOAD_SHA256) <$> sg) ck) else []) ++ crlf.

(** The decoder in mid-body: [rest] is still to come, the chain is at [sg], the digest at [h]. *)
Record running (o : ChunkedOptions) (sg : option ChunkSigningState) (h : option ChecksumHasher) (rest : bytes)
    (st : ChunkedState) : Prop := mkRunning {
  run_feed : exists ps, cs_inner st = Ok <$> ps /\ cs_buf st ++ concat ps = rest;
  run_done : cs_inner_done st = false;
  run_signing : cs_signing st = sg;
  run_hasher : cs_hasher st = h;
  run_trailer : cs_expect_trailer st = co_expect_trailer o;
  run_max : cs_max_frame_bytes st = co_max_frame_bytes o;
  run_checksum : cs_trailer_checksum st = co_trailer_checksum o;
  run_open : cs_finished st = false;
}.

Lemma read_line_running o sg h line rest st : running o sg h (line ++ crlf ++ rest) st ->
  graphic_text line -> blen line <= 1023 -> exists st', read_line st = (Ok line, st') /\ running o sg h rest st'.
Proof using.
  intros [(ps & Hi & Hb) Hd Hs Hh Ht Hm Hc Hf] Hg Hn.
  destruct (pull_line_complete line rest (graphic_not_lf _ Hg) Hn ps (cs_buf st) Hb) as (ps' & buf' & E & Hr).
  unfold read_line. rewrite Hi, Hd, E, (valid_utf8_graphic _ Hg). eexists. split; [done|].
  split; try done. by exists ps'.
Qed.

Lemma read_exact_running o sg h data rest st : running o sg h (data ++ rest) st ->
  exists st', read_exact (blen data) st = (Ok data, st') /\ running o sg h rest st'.
Proof using.
  intros [(ps & Hi & Hb) Hd Hs Hh Ht Hm Hc Hf].
  destruct (pull_exact_complete data rest ps (cs_buf st) Hb) as (ps' & buf' & E & Hr).
  unfold read_exact. rewrite Hi, Hd, E. eexists. split; [done|]. split; try done. by exists ps'.
Qed.

Lemma signatures_match_refl s : signatures_match s s = true.
Proof using. unfold signatures_match. rewrite Z.eqb_refl. cbn [negb]. by apply bool_decide_eq_true. Qed.

Lemma verify_running o sg h rest hash st : running o sg h rest st ->
  exists st', verify_chunk_signature ((fun s => chunk_sig s hash) <$> sg) hash st = (Ok tt, st') /\
    running o ((fun s => advance s hash) <$> sg) h rest st'.
Proof using.
  intros [Hfeed Hd Hs Hh Ht Hm Hc Hf]. unfold verify_chunk_signature, mbind, dec_bind, get_state. rewrite Hs.
  destruct sg as [s|]; cbn [fmap option_fmap option_map].
  - unfold chunk_sig at 1. rewrite signatures_match_refl. cbn [negb]. eexists. split; [done|]. by split.
  - eexists. split; [done|]. by split.
Qed.

Lemma chunk_sig_text s hash : graphic_text (chunk_sig s hash) /\ blen (chunk_sig s hash) = 64.
Proof using HL.
  unfold chunk_sig, hex_hmac_sha256. destruct (hex_encode_text (hmac_sha256 (signing_key s)
    (chunk_string_to_sign (amz_date s) (scope s) (prev_signature s) hash))) as (Hg & _ & Hn).
  split; [done|]. by rewrite Hn, hmac_sha256_len.
Qed.

Lemma header_line_text hx n sg hash : size_text hx n ->
  graphic_text (header_line hx sg hash) /\ blen (header_line hx sg hash) <= 1023 /\
  parse_header (header_line hx sg hash) = (hx, (fun s => chunk_sig s hash) <$> sg) /\
  from_str_radix_16 (trim hx) = Some n.
Proof using HL.
  intros Hx. pose proof Hx as (_ & Hr & Hl). destruct (size_text_graphic _ _ Hx) as [Hg Hsc].
  assert (Htrim : from_str_radix_16 (trim hx) = Some n) by by rewrite trim_graphic.
  unfold header_line, parse_header. destruct sg as [s|]; cbn [fmap option_fmap option_map].
  - destruct (chunk_sig_text s hash) as [Hsg Hsl].
    assert (Hp : graphic_text (as_bytes "chunk-signature=" ++ chunk_sig s hash)).
    { apply Forall_app. split; [|done]. by repeat (constructor; [reflexivity|]). }
    split_and!; [| | |done].
    + apply Forall_app. split; [done|]. by constructor.
    + rewrite blen_app, blen_cons, blen_app, Hsl. change (blen (as_bytes "chunk-signature=")) with 16. lia.
    + rewrite split_once_first by done. by rewrite (trim_graphic _ Hp), strip_prefix_app.
  - rewrite app_nil_r. split_and!; [done | lia | by rewrite split_once_absent by done | done].
Qed.

(** One data frame. *)
Lemma data_frame_running o sg h hx data rest st : running o sg h (frame_bytes hx sg data ++ rest) st ->
  size_text hx (blen data) -> 0 < blen data <= co_max_frame_bytes o ->
  exists st', next_chunked_frame st = (Ok (Some data), st') /\
    running o ((fun s => advance s (sha256_hex data)) <$> sg) ((fun h => hasher_update h data) <$> h) rest st'.
Proof using HL.
  intros Hrun Hx Hlen. destruct (header_line_text hx _ sg (sha256_hex data) Hx) as (Hg & Hn & Hparse & Hsize).
  unfold frame_bytes in Hrun. rewrite <- !app_assoc in Hrun.
  unfold next_chunked_frame, mbind at 1, dec_bind at 1, get_state at 1. rewrite (run_open _ _ _ _ _ Hrun).
  pose proof (run_max _ _ _ _ _ Hrun) as Hmax.
  destruct (read_line_running _ _ _ _ _ _ Hrun Hg Hn) as (st1 & E1 & R1).
  unfold mbind at 1, dec_bind at 1. rewrite E1, Hparse. cbn [fst snd]. rewrite Hsize, Hmax.
  destruct (Z.ltb_spec (co_max_frame_bytes o) (blen data)); [lia|]. destruct (Z.eqb_spec (blen data) 0); [lia|].
  destruct (read_exact_running _ _ _ data (crlf ++ rest) st1 R1) as (st2 & E2 & R2).
  unfold data_frame, mbind at 1, dec_bind at 1. rewrite E2.
  destruct (read_exact_running _ _ _ crlf rest st2 R2) as (st3 & E3 & R3).
  unfold mbind at 1, dec_bind at 1. change 2 with (blen crlf). rewrite E3, bool_decide_eq_true_2 by done. cbn [negb].
  destruct (verify_running _ _ _ _ (sha256_hex data) _ R3) as (st4 & E4 & R4).
  unfold mbind at 1, dec_bind at 1. rewrite E4. eexists. split; [done|].
  destruct R4. by split; try (cbn; congruence).
Qed.

(** ** The end of a body *)

Definition trailer_text (l : bytes) : Prop := l <> [] /\ graphic_text l /\ blen l <= 1023.

Lemma trailer_lines_running o sg h rest ls : Forall trailer_text ls ->
  forall fuel acc st, (length ls < fuel)%nat -> running o sg h (lines_bytes ls ++ crlf ++ rest) st ->
  exists st', trailer_lines fuel acc st = (Ok (foldl trailer_line acc ls), st') /\ running o sg h rest st'.
Proof using.
  induction 1 as [|l ls (Hne & Hg & Hn) _ IH]; intros fuel acc st Hf Hrun; (destruct fuel as [|fuel]; [cbn in Hf; lia|]);
    cbn [trailer_lines]; unfold mbind, dec_bind.
  - destruct (read_line_running o sg h [] rest st Hrun) as (st1 & -> & R1); [constructor | done |].
    by exists st1.
  - change (lines_bytes (l :: ls)) with ((l ++ crlf) ++ lines_bytes ls) in Hrun. rewrite <- !app_assoc in Hrun.
    destruct (read_line_running _ _ _ _ _ _ Hrun Hg Hn) as (st1 & -> & R1). destruct l as [|b l]; [done|].
    apply IH; [cbn in Hf; lia | done].
Qed.

Lemma items_len_ok (ps : list bytes) : items_len (Ok <$> ps) = length (concat ps).
Proof using.
  induction ps as [|p ps IH]; [done|]. cbn [concat]. rewrite length_app, <- IH. done.
Qed.

Lemma remaining_running o sg h rest st : running o sg h rest st -> remaining st = length rest.
Proof using.
  intros [(ps & Hi & Hb) _ _ _ _ _ _ _]. unfold remaining. rewrite Hi, items_len_ok, <- Hb, length_app. done.
Qed.

(** The value of a checksum line, as base64 prints it. *)
Definition value_text (ck : option (ChecksumAlgo * bytes)) : Prop :=
  match ck with Some (_, v) => graphic_text v /\ blen v <= 900 | None => True end.

Lemma checksum_line_facts algo v acc : graphic_text v -> blen v <= 900 ->
  trailer_text (checksum_line algo v) /\
  trailer_line acc (checksum_line algo v) =
    mkTrailer (t_content acc ++ checksum_line algo v ++ [lf]) (t_sig acc) (<[checksum_name algo := v]> (t_values acc)).
Proof using.
  intros Hg Hn. assert (Hname : graphic_text (checksum_name algo) /\ blen (checksum_name algo) <= 30 /\ x3a ∉ checksum_name algo).
  { destruct algo; (split; [by repeat (constructor; [reflexivity|])|]; split; [vm_compute; discriminate|]);
      apply (bool_decide_unpack _); vm_compute; exact I. }
  destruct Hname as (Hng & Hnl & Hnc). split.
  - split_and!; [by destruct algo | |].
    + apply Forall_app. split; [done|]. by constructor.
    + unfold checksum_line. rewrite blen_app, blen_cons. lia.
  - unfold trailer_line. replace (strip_prefix _ _) with (@None bytes) by (destruct algo; vm_compute; reflexivity).
    unfold checksum_line at 2. rewrite split_once_first by done. rewrite !trim_graphic by done.
    f_equal. f_equal. destruct algo; vm_compute; reflexivity.
Qed.

Lemma signature_line_facts s content acc :
  trailer_text (signature_line s content) /\
  trailer_line acc (signature_line s content) = mkTrailer (t_content acc) (Some (trailer_sig s content)) (t_values acc).
Proof using HL.
  unfold trailer_sig, hex_hmac_sha256. destruct (hex_encode_text (hmac_sha256 (signing_key s) (trailer_string_to_sign
    (amz_date s) (scope s) (prev_signature s) (sha256_hex content)))) as (Hg & Hlow & Hn).
  rewrite hmac_sha256_len in Hn. unfold signature_line, trailer_sig, hex_hmac_sha256. split.
  - split_and!; [done | |].
    + apply Forall_app. split; [by repeat (constructor; [reflexivity|]) | done].
    + rewrite blen_app, Hn. vm_compute. discriminate.
  - unfold trailer_line, to_ascii_lowercase in *. rewrite fmap_app, Hlow.
    change (_ <$> as_bytes "x-amz-trailer-signature:") with (as_bytes "x-amz-trailer-signature:").
    by rewrite strip_prefix_app, trim_graphic.
Qed.

(** The trailer that belongs to the digest [h] the decoder keeps. *)
Definition declared_checksum (o : ChunkedOptions) (h : option ChecksumHasher) : option (ChecksumAlgo * bytes) :=
  match co_trailer_checksum o, h with
  | Some algo, Some h => Some (algo, hasher_finish_b64 h)
  | _, _ => None
  end.

Definition sig_content (ck : option (ChecksumAlgo * bytes)) : bytes :=
  match ck with Some (algo, v) => checksum_line algo v ++ [lf] | None => [] end.

Lemma trailer_texts_facts sg ck : value_text ck ->
  Forall trailer_text (trailer_texts sg ck) /\ (length (trailer_texts sg ck) <= 2)%nat /\
  foldl trailer_line (mkTrailer [] None empty) (trailer_texts sg ck) =
    mkTrailer (sig_content ck) ((fun s => trailer_sig s (sig_content ck)) <$> sg)
      (match ck with Some (algo, v) => {[checksum_name algo := v]} | None => empty end).
Proof using HL.
  intros Hv. unfold trailer_texts. destruct ck as [[algo v]|]; cbn [app value_text] in *.
  - destruct Hv as [Hg Hn]. destruct (checksum_line_facts algo v (mkTrailer [] None empty) Hg Hn) as [Ht1 E1].
    destruct sg as [s|]; cbn [foldl length fmap option_fmap option_map].
    + destruct (signature_line_facts s (sig_content (Some (algo, v))) (trailer_line (mkTrailer [] None empty) (checksum_line algo v)))
        as [Ht2 E2].
      split; [constructor; [exact Ht1 | constructor; [exact Ht2 | constructor]]|]. split; [lia|]. cbn [sig_content] in E2. rewrite E2, E1. done.
    + split; [constructor; [exact Ht1 | constructor]|]. split; [lia|]. by rewrite E1.
  - destruct sg as [s|]; cbn [foldl length fmap option_fmap option_map].
    + destruct (signature_line_facts s [] (mkTrailer [] None empty)) as [Ht E].
      split; [constructor; [exact Ht | constructor]|]. split; [lia|]. by rewrite E.
    + split; [constructor|]. split; [lia|done].
Qed.

Lemma read_trailer_running o sg h ck rest st : value_text ck ->
  running o sg h (lines_bytes (trailer_texts sg ck) ++ crlf ++ rest) st ->
  exists st' sg', read_trailer st =
      (Ok (match ck with Some (algo, v) => {[checksum_name algo := v]} | None => empty end), st') /\
    running o sg' h rest st'.
Proof using HL.
  intros Hv Hrun. destruct (trailer_texts_facts sg ck Hv) as (Ht & Hlen & Hfold).
  pose proof (remaining_running _ _ _ _ _ Hrun) as Hrem.
  destruct (trailer_lines_running o sg h rest _ Ht (S (remaining st)) (mkTrailer [] None empty) st) as (st1 & E1 & R1).
  { rewrite Hrem, !length_app. cbn. lia. }
  { done. }
  unfold read_trailer, mbind at 1, dec_bind at 1, get_state at 1. unfold mbind at 1, dec_bind at 1. rewrite E1, Hfold.
  unfold mbind at 1, dec_bind at 1, get_state at 1. rewrite (run_signing _ _ _ _ _ R1).
  destruct sg as [s|]; cbn [t_sig t_content t_values fmap option_fmap option_map].
  - unfold trailer_sig at 1. rewrite signatures_match_refl. cbn [negb].
    eexists _, _. split; [done|]. destruct R1. by split.
  - eexists _, _. split; [done|]. exact R1.
Qed.

(** The terminal frame, with its trailer when there is one. *)
Lemma end_running o sg h rest st :
  running o sg h (end_bytes sg (co_expect_trailer o) (declared_checksum o h) ++ rest) st ->
  value_text (declared_checksum o h) -> 0 <= co_max_frame_bytes o ->
  (co_expect_trailer o = false -> co_trailer_checksum o = None) -> (is_Some (co_trailer_checksum o) -> is_Some h) ->
  exists st', next_chunked_frame st = (Ok None, st') /\ cs_finished st' = true.
Proof using HL.
  intros Hrun Hv Hmax Hno Hh. unfold end_bytes in Hrun. rewrite <- !app_assoc in Hrun.
  assert (Hx : size_text [x30] 0).
  { split_and!; [by repeat constructor | reflexivity | vm_compute; discriminate]. }
  destruct (header_line_text _ _ sg EMPTY_PAYLOAD_SHA256 Hx) as (Hg & Hn & Hparse & Hsize).
  unfold next_chunked_frame, mbind at 1, dec_bind at 1, get_state at 1. rewrite (run_open _ _ _ _ _ Hrun).
  pose proof (run_max _ _ _ _ _ Hrun) as Hm. destruct (read_line_running _ _ _ _ _ _ Hrun Hg Hn) as (st1 & E1 & R1).
  unfold mbind at 1, dec_bind at 1. rewrite E1, Hparse. cbn [fst snd]. rewrite Hsize, Hm.
  destruct (Z.ltb_spec (co_max_frame_bytes o) 0); [lia|]. cbn [Z.eqb].
  destruct (verify_running _ _ _ _ EMPTY_PAYLOAD_SHA256 _ R1) as (st2 & E2 & R2).
  unfold finish_frames, mbind at 1, dec_bind at 1. rewrite E2.
  unfold mbind at 1, dec_bind at 1, get_state at 1. rewrite (run_trailer _ _ _ _ _ R2).
  unfold declared_checksum in *. destruct (co_expect_trailer o) eqn:Et.
  - destruct (read_trailer_running _ _ _ _ _ _ Hv R2) as (st3 & sg3 & E3 & R3).
    unfold mbind at 1, dec_bind at 1. rewrite E3. unfold mbind at 1, dec_bind at 1, get_state at 1.
    rewrite (run_checksum _ _ _ _ _ R3), (run_hasher _ _ _ _ _ R3).
    destruct (co_trailer_checksum o) as [algo|]; [|by eexists].
    destruct Hh as [h' ->]; [by eexists|]. cbn [fmap option_fmap option_map].
    unfold mbind at 1, dec_bind at 1. unfold mbind at 1, dec_bind at 1, put_state at 1.
    rewrite lookup_singleton_eq, !bool_decide_eq_true_2 by (by eexists || done). by eexists.
  - rewrite (Hno eq_refl) in *. destruct (read_line_running _ _ _ [] rest _ R2) as (st3 & E3 & R3); [constructor | done|].
    unfold mbind at 1, dec_bind at 1. unfold mbind at 1, dec_bind at 1. rewrite E3, bool_decide_eq_true_2 by done.
    unfold mret at 1, dec_ret at 1. unfold mbind at 1, dec_bind at 1, get_state at 1.
    rewrite (run_checksum _ _ _ _ _ R3), (Hno eq_refl). by eexists.
Qed.

(** ** The whole body *)

(** The frames a client may send: size text that reads as the payload's length, payload
    neither empty nor over the limit. *)
Definition frame_ok (o : ChunkedOptions) (f : bytes * bytes) : Prop :=
  size_text f.1 (blen f.2) /\ 0 < blen f.2 <= co_max_frame_bytes o.

Definition advance_all (sg : option ChunkSigningState) (ds : list bytes) : option ChunkSigningState :=
  foldl (fun sg d => (fun s => advance s (sha256_hex d)) <$> sg) sg ds.
Definition absorb (h : option ChecksumHasher) (ds : list bytes) : option ChecksumHasher :=
  foldl (fun h d => (fun h => hasher_update h d) <$> h) h ds.

Lemma frames_running o fs : Forall (frame_ok o) fs -> forall fuel sg h rest st,
  (length fs < fuel)%nat -> running o sg h (frames_bytes sg fs ++ rest) st ->
  exists st1, running o (advance_all sg fs.*2) (absorb h fs.*2) rest st1 /\
    forall st2, next_chunked_frame st1 = (Ok None, st2) -> frames fuel st = (fs.*2, Some (Ok tt), st2).
Proof using HL.
  induction 1 as [|[hx data] fs (Hx & Hlen) _ IH]; intros fuel sg h rest st Hf Hrun;
    (destruct fuel as [|fuel]; [cbn in Hf; lia|]).
  - exists st. split; [done|]. intros st2 E. cbn [frames]. by rewrite E.
  - cbn [frames_bytes] in Hrun. rewrite <- app_assoc in Hrun. cbn [fst snd] in Hx, Hlen.
    destruct (data_frame_running _ _ _ _ _ _ _ Hrun Hx Hlen) as (st1 & E1 & R1).
    destruct (IH fuel _ _ rest st1 ltac:(cbn in Hf; lia) R1) as (st3 & R3 & H3).
    exists st3. split; [done|]. intros st2 E2. cbn [frames fmap list_fmap]. rewrite E1, (H3 st2 E2). done.
Qed.

(** The body a client sends: frames, terminal frame, trailer. *)
Definition body_bytes (o : ChunkedOptions) (fs : list (bytes * bytes)) : bytes :=
  let h := absorb (hasher_new <$> co_trailer_checksum o) fs.*2 in
  frames_bytes (co_chunk_signing o) fs ++
  end_bytes (advance_all (co_chunk_signing o) fs.*2) (co_expect_trailer o) (declared_checksum o h).

Lemma absorb_some h ds : is_Some h -> is_Some (absorb h ds).
Proof using.
  revert h. induction ds as [|d ds IH]; intros h Hh; [done|]. apply IH. destruct Hh as [x ->]. by eexists.
Qed.

Lemma frames_bytes_len o sg fs : Forall (frame_ok o) fs -> (length fs <= length (frames_bytes sg fs))%nat.
Proof using.
  intros Hfs. revert sg. induction Hfs as [|[hx data] fs (_ & Hlen) _ IH]; intros sg; [done|].
  cbn [frames_bytes length]. unfold frame_bytes. rewrite !length_app.
  specialize (IH ((fun s => advance s (sha256_hex data)) <$> sg)). cbn [crlf length snd] in *. lia.
Qed.

(** C31: an aws-chunked body in the documented grammar decodes to its payload: for every
    mode (signed or not, with or without a trailer and a trailer checksum), every list of
    frames and every way the network may cut the body into pieces, the decoder yields
    exactly the frames' payloads in order and ends cleanly. *)
Theorem aws_chunked_roundtrip (o : ChunkedOptions) (fs : list (bytes * bytes)) (ps : list bytes) :
  Forall (frame_ok o) fs -> 0 <= co_max_frame_bytes o ->
  (co_expect_trailer o = false -> co_trailer_checksum o = None) ->
  value_text (declared_checksum o (absorb (hasher_new <$> co_trailer_checksum o) fs.*2)) ->
  concat ps = body_bytes o fs ->
  decode_aws_chunked (Ok <$> ps) o = Ok <$> fs.*2 /\
  exists st', frames (S (items_len (Ok <$> ps))) (start_state (Ok <$> ps) o) = (fs.*2, Some (Ok tt), st') /\
    cs_finished st' = true.
Proof using HL.
  intros Hfs Hmax Hno Hv Hbody. set (h0 := hasher_new <$> co_trailer_checksum o) in *.
  assert (Hrun : running o (co_chunk_signing o) h0 (body_bytes o fs ++ []) (start_state (Ok <$> ps) o)).
  { split; try done. exists ps. rewrite app_nil_r. by split. }
  unfold body_bytes in Hrun. rewrite <- app_assoc in Hrun. fold h0 in Hrun.
  destruct (frames_running o fs Hfs (S (items_len (Ok <$> ps))) _ _ _ _ ltac:(
    rewrite items_len_ok, Hbody; unfold body_bytes; rewrite length_app;
    pose proof (frames_bytes_len o (co_chunk_signing o) fs Hfs); lia) Hrun) as (st1 & R1 & H1).
  destruct (end_running _ _ _ _ _ R1 Hv Hmax Hno) as (st2 & E2 & F2).
  { intros [algo Ha]. apply absorb_some. unfold h0. rewrite Ha. by eexists. }
  specialize (H1 st2 E2). split; [|by exists st2]. unfold decode_aws_chunked. rewrite H1.
  unfold stream_items. by rewrite app_nil_r.
Qed.

(** ** Signed bodies: nothing else is accepted *)

(** [closing o sg h tail]: [tail] ends a body after its signed terminal header. It is the
    trailer's lines and the blank line: no line at all where the mode has no trailer;
    otherwise lines of which the trailer signature is the one chained from [sg] over all
    the others. A declared checksum is there and is the digest [h] of the payloads. *)
Definition closing (o : ChunkedOptions) (sg : ChunkSigningState) (h : option ChecksumHasher) (tail : bytes) : Prop :=
  exists ls, tail = lines_bytes ls ++ crlf /\ Forall (fun l => l <> []) ls /\
    let tr := foldl trailer_line (mkTrailer [] None empty) ls in
    (if co_expect_trailer o then t_sig tr = Some (trailer_sig sg (t_content tr)) else ls = []) /\
    (forall algo, co_trailer_checksum o = Some algo ->
       exists d, h = Some d /\ t_values tr !! checksum_name algo = Some (hasher_finish_b64 d)).

(** [accepted o sg h ds b]: [b] starts with signed frames of payloads [ds], each carrying
    the right signature of the chain that starts at [sg], a signed terminal frame, and the
    closing that belongs to the mode. *)
Inductive accepted (o : ChunkedOptions) : ChunkSigningState -> option ChecksumHasher -> list bytes -> bytes -> Prop :=
| accepted_end sg h line size tail rest :
    parse_header line = (size, Some (chunk_sig sg EMPTY_PAYLOAD_SHA256)) ->
    from_str_radix_16 (trim size) = Some 0 ->
    closing o (advance sg EMPTY_PAYLOAD_SHA256) h tail ->
    accepted o sg h [] (line ++ crlf ++ tail ++ rest)
| accepted_frame sg h line size data ds rest :
    parse_header line = (size, Some (chunk_sig sg (sha256_hex data))) ->
    from_str_radix_16 (trim size) = Some (blen data) -> 0 < blen data <= co_max_frame_bytes o ->
    accepted o (advance sg (sha256_hex data)) ((fun d => hasher_update d data) <$> h) ds rest ->
    accepted o sg h (data :: ds) (line ++ crlf ++ data ++ crlf ++ rest).

Lemma dec_bind_Ok {U V} (m : dec U) (f : U -> dec V) st x st' :
  (m ≫= f) st = (Ok x, st') -> exists y st1, m st = (Ok y, st1) /\ f y st1 = (Ok x, st').
Proof using.
  unfold mbind, dec_bind. destruct (m st) as [[y|e] st1]; [eauto|]. intros; simplify_eq.
Qed.

(** The decoder runs under the options [o]: its chain is at [sg], its digest at [h]. *)
Definition under (o : ChunkedOptions) (sg : ChunkSigningState) (h : option ChecksumHasher) (st : ChunkedState) : Prop :=
  cs_signing st = Some sg /\ cs_hasher st = h /\ cs_expect_trailer st = co_expect_trailer o /\
  cs_max_frame_bytes st = co_max_frame_bytes o /\ cs_trailer_checksum st = co_trailer_checksum o.

(** [st'] differs from [st] in its input only. *)
Definition kept (st st' : ChunkedState) : Prop :=
  cs_finished st' = cs_finished st /\ forall o sg h, under o sg h st -> under o sg h st'.

(** [b] was taken off the front of what [st] has, and [st'] is left. *)
Definition taken (st : ChunkedState) (b : bytes) (st' : ChunkedState) : Prop :=
  exists ps, cs_inner st = (Ok <$> ps) ++ cs_inner st' /\ cs_buf st ++ concat ps = b ++ cs_buf st'.
Definition consumed (st : ChunkedState) (b : bytes) (st' : ChunkedState) : Prop := kept st st' /\ taken st b st'.

Lemma taken_app st b st1 b' st2 : taken st b st1 -> taken st1 b' st2 -> taken st (b ++ b') st2.
Proof using.
  intros (ps1 & I1 & B1) (ps2 & I2 & B2). exists (ps1 ++ ps2). split.
  - by rewrite I1, I2, fmap_app, app_assoc.
  - by rewrite concat_app, app_assoc, B1, <- !app_assoc, B2.
Qed.

Lemma consumed_app st b st1 b' st2 : consumed st b st1 -> consumed st1 b' st2 -> consumed st (b ++ b') st2.
Proof using.
  intros [[F1 U1] T1] [[F2 U2] T2]. split; [|by apply taken_app with st1]. split; [congruence|auto].
Qed.

Lemma read_line_consumed st line st' : read_line st = (Ok line, st') -> consumed st (line ++ crlf) st'.
Proof using.
  unfold read_line. destruct (pull_line (cs_inner st) (cs_buf st) (cs_inner_done st)) as [[e|l] [[i b] d]] eqn:E;
    [by destruct e|]. destruct (valid_utf8 l); [|done]. intros [= <- <-].
  apply pull_line_sound in E as (ps & Hi & Hb). split; [done|]. exists ps. split; [done|].
  by rewrite <- app_assoc.
Qed.

Lemma read_exact_consumed n st data st' : 0 <= n -> read_exact n st = (Ok data, st') ->
  blen data = n /\ consumed st data st'.
Proof using.
  intros Hn. unfold read_exact. destruct (pull_exact n (cs_inner st) (cs_buf st) (cs_inner_done st)) as [[e|l] [[i b] d]] eqn:E;
    [by destruct e|]. intros [= <- <-]. apply pull_exact_sound in E as (Hl & ps & Hi & Hb); [|done].
  split; [done|]. split; [done|]. by exists ps.
Qed.

Lemma verify_signed sig hash st u st' sg : cs_signing st = Some sg ->
  verify_chunk_signature sig hash st = (Ok u, st') -> sig = Some (chunk_sig sg hash) /\ st' = with_prev st sg (chunk_sig sg hash).
Proof using.
  intros Hs E. unfold verify_chunk_signature, mbind, dec_bind, get_state in E. rewrite Hs in E. destruct sig as [sig|]; [|done].
  unfold signatures_match in E. destruct (blen _ =? blen sig); [|done]. cbn [negb] in E.
  fold (chunk_sig sg hash) in E. case_bool_decide as Heq; [|done]. injection E as _ <-. by rewrite Heq.
Qed.

Lemma radix16_nonneg s : forall acc n, 0 <= acc -> radix16 acc s = Some n -> 0 <= n.
Proof using.
  induction s as [|b s IH]; intros acc n Ha; cbn [radix16]; [intros; simplify_eq; done|].
  unfold hex_digit_value, in_range. pose proof (Z_of_byte_range b).
  repeat match goal with |- context [if ?c then Some _ else _] => destruct c eqn:? end; try done;
    (destruct (_ <=? u64_max); [|done]); apply IH;
    repeat match goal with H : _ && _ = true |- _ => apply andb_true_iff in H as [?%Z.leb_le ?%Z.leb_le] end; lia.
Qed.

Lemma from_str_radix_16_nonneg s n : from_str_radix_16 s = Some n -> 0 <= n.
Proof using.
  unfold from_str_radix_16. destruct s as [|b s]; [done|].
  destruct b; try (apply radix16_nonneg; lia). destruct s; [done|]. apply radix16_nonneg. lia.
Qed.

Lemma trailer_lines_taken fuel : forall acc st tr st', trailer_lines fuel acc st = (Ok tr, st') ->
  exists ls, tr = foldl trailer_line acc ls /\ Forall (fun l => l <> []) ls /\ consumed st (lines_bytes ls ++ crlf) st'.
Proof using.
  induction fuel as [|fuel IH]; intros acc st tr st' E; [done|]. cbn [trailer_lines] in E.
  apply dec_bind_Ok in E as (line & st1 & E1 & E). apply read_line_consumed in E1. destruct line as [|b line].
  - injection E as <- <-. by exists [].
  - destruct (IH _ _ _ _ E) as (ls & -> & Hls & C2). exists ((b :: line) :: ls). split; [done|]. split; [by constructor|].
    change (lines_bytes ((b :: line) :: ls)) with (((b :: line) ++ crlf) ++ lines_bytes ls). rewrite <- app_assoc.
    by apply consumed_app with st1.
Qed.

(** What reading the trailer of a signed body checks. *)
Lemma read_trailer_signed o sg h st vs st' : under o sg h st -> read_trailer st = (Ok vs, st') ->
  exists ls sg', taken st (lines_bytes ls ++ crlf) st' /\ Forall (fun l => l <> []) ls /\ under o sg' h st' /\
    let tr := foldl trailer_line (mkTrailer [] None empty) ls in
    t_sig tr = Some (trailer_sig sg (t_content tr)) /\ vs = t_values tr.
Proof using.
  intros Hu E. unfold read_trailer in E. apply dec_bind_Ok in E as (? & ? & E0 & E). injection E0 as <- <-.
  apply dec_bind_Ok in E as (tr & st1 & E1 & E). apply trailer_lines_taken in E1 as (ls & -> & Hls & [[_ Hk] T1]).
  apply dec_bind_Ok in E as (? & ? & E0 & E). injection E0 as <- <-. destruct (Hk _ _ _ Hu) as (Hs & Hrest). rewrite Hs in E.
  set (tr := foldl trailer_line _ ls) in *. destruct (t_sig tr) as [sig|] eqn:Es; [|done]. cbv zeta in E.
  fold (trailer_sig sg (t_content tr)) in E. unfold signatures_match in E. destruct (blen _ =? blen sig); [|done]. cbn [negb] in E.
  case_bool_decide as Heq; [|done]. cbn [negb] in E. apply dec_bind_Ok in E as (? & ? & E0 & E). injection E0 as _ <-.
  injection E as <- <-. exists ls, (mkChunkSigningState (signing_key sg) (scope sg) (amz_date sg) sig).
  split_and!; try done. cbv zeta. fold tr. by rewrite Es, Heq.
Qed.

Lemma under_advance o sg h st hash : under o sg h st -> under o (advance sg hash) h (with_prev st sg (chunk_sig sg hash)).
Proof using. intros (_ & ? & ? & ? & ?). by split. Qed.

(** What the terminal frame of a signed body checks. *)
Lemma finish_signed o sg h st sig res st' : under o sg h st -> finish_frames sig st = (Ok res, st') ->
  sig = Some (chunk_sig sg EMPTY_PAYLOAD_SHA256) /\
  exists tail st2, taken st tail st2 /\ closing o (advance sg EMPTY_PAYLOAD_SHA256) h tail.
Proof using.
  intros Hu E. unfold finish_frames in E. apply dec_bind_Ok in E as (u & st1 & E1 & E).
  apply (verify_signed _ _ _ _ _ _ (proj1 Hu)) in E1 as [-> ->]. split; [done|].
  apply (under_advance _ _ _ _ EMPTY_PAYLOAD_SHA256) in Hu.
  apply dec_bind_Ok in E as (? & ? & E0 & E). injection E0 as <- <-. apply dec_bind_Ok in E as (vs & st2 & E2 & E).
  assert (Hend : exists ls sg', taken st (lines_bytes ls ++ crlf) st2 /\ Forall (fun l => l <> []) ls /\ under o sg' h st2 /\
    let tr := foldl trailer_line (mkTrailer [] None empty) ls in vs = t_values tr /\
    (if co_expect_trailer o then t_sig tr = Some (trailer_sig (advance sg EMPTY_PAYLOAD_SHA256) (t_content tr)) else ls = [])).
  { destruct (Hu) as (_ & _ & Het & _). rewrite Het in E2. destruct (co_expect_trailer o).
    - destruct (read_trailer_signed _ _ _ _ _ _ Hu E2) as (ls & sg' & ? & ? & ? & ? & ?). exists ls, sg'. by split_and!.
    - apply dec_bind_Ok in E2 as (blank & st3 & E3 & E2). apply read_line_consumed in E3 as [[_ Hk] Tk].
      case_bool_decide as Hb; [|done]. injection E2 as <- <-. subst blank. exists [], (advance sg EMPTY_PAYLOAD_SHA256).
      split; [exact Tk|]. split; [by constructor|]. split; [by apply Hk|done]. }
  destruct Hend as (ls & sg' & T2 & Hls & Hu2 & -> & Hmode). exists (lines_bytes ls ++ crlf), st2. split; [done|].
  exists ls. split; [done|]. split; [done|]. split; [done|]. intros algo Ha. apply dec_bind_Ok in E as (? & ? & E0 & E). injection E0 as <- <-.
  apply dec_bind_Ok in E as (? & ? & E3 & E). destruct Hu2 as (_ & Hh & _ & _ & Hc). rewrite Hc, Ha, Hh in E3. cbv zeta in E3.
  apply dec_bind_Ok in E3 as (? & ? & _ & E3). destruct (_ && _) eqn:Eb; [|done].
  apply andb_true_iff in Eb as [[d Hd]%bool_decide_eq_true Heq%bool_decide_eq_true]. rewrite Hd in Heq |- *.
  destruct h as [dg|]; [|done]. injection Heq as ->. by exists dg.
Qed.

(** One poll of a signed body that yields a payload or ends. *)
Lemma next_signed o sg h st res st' : under o sg h st -> cs_finished st = false ->
  next_chunked_frame st = (Ok res, st') ->
  exists line size n, from_str_radix_16 (trim size) = Some n /\
  match res with
  | None => exists tail st1, n = 0 /\ parse_header line = (size, Some (chunk_sig sg EMPTY_PAYLOAD_SHA256)) /\
      taken st ((line ++ crlf) ++ tail) st1 /\ closing o (advance sg EMPTY_PAYLOAD_SHA256) h tail
  | Some data => n = blen data /\ 0 < blen data <= co_max_frame_bytes o /\
      parse_header line = (size, Some (chunk_sig sg (sha256_hex data))) /\
      taken st ((line ++ crlf) ++ data ++ crlf) st' /\ cs_finished st' = false /\
      under o (advance sg (sha256_hex data)) ((fun d => hasher_update d data) <$> h) st'
  end.
Proof using.
  intros Hu Hf E. unfold next_chunked_frame, mbind at 1, dec_bind at 1, get_state at 1 in E. rewrite Hf in E.
  apply dec_bind_Ok in E as (line & st1 & E1 & E). apply read_line_consumed in E1 as [[F1 K1] T1].
  assert (Hmax : cs_max_frame_bytes st = co_max_frame_bytes o) by apply Hu. apply K1 in Hu. rewrite Hf in F1.
  destruct (parse_header line) as [size sig] eqn:Ep. destruct (from_str_radix_16 (trim size)) as [n|] eqn:En; [|done].
  pose proof (from_str_radix_16_nonneg _ _ En) as Hn. rewrite Hmax in E.
  destruct (Z.ltb_spec (co_max_frame_bytes o) n) as [|Hle]; [done|].
  exists line, size, n. split; [done|]. destruct (Z.eqb_spec n 0) as [->|Hne].
  - destruct res as [data|].
    { exfalso. unfold finish_frames in E. repeat (apply dec_bind_Ok in E as (? & ? & _ & E)). done. }
    destruct (finish_signed _ _ _ _ _ _ _ Hu E) as (-> & tail & st2 & T2 & Hc). exists tail, st2. split_and!; try done.
    by apply taken_app with st1.
  - unfold data_frame in E. apply dec_bind_Ok in E as (data & st2 & E2 & E).
    apply read_exact_consumed in E2 as [Hl C2]; [|lia]. apply dec_bind_Ok in E as (tr & st3 & E3 & E).
    apply read_exact_consumed in E3 as [_ C3]; [|lia]. case_bool_decide as Htr; [|done]. cbn [negb] in E. subst tr.
    destruct (consumed_app _ _ _ _ _ C2 C3) as [[F3 K3] T3]. apply K3 in Hu.
    apply dec_bind_Ok in E as (u & st4 & E4 & E). apply (verify_signed _ _ _ _ _ _ (proj1 Hu)) in E4 as [-> ->].
    injection E as <- <-. split; [done|]. split; [lia|]. split; [done|]. split; [by apply (taken_app _ _ _ _ _ T1)|].
    split; [cbn; congruence|]. destruct Hu as (_ & <- & ? & ? & ?). by split.
Qed.

Lemma frames_signed o fuel : forall st sg h ds st', under o sg h st -> cs_finished st = false ->
  frames fuel st = (ds, Some (Ok tt), st') ->
  exists ps rest, cs_inner st = (Ok <$> ps) ++ rest /\ accepted o sg h ds (cs_buf st ++ concat ps).
Proof using.
  induction fuel as [|fuel IH]; intros st sg h ds st' Hu Hf E; [done|]. cbn [frames] in E.
  destruct (next_chunked_frame st) as [[[data|]|e] st1] eqn:En; [| |done].
  - destruct (next_signed _ _ _ _ _ _ Hu Hf En) as (line & size & n & Hsz & -> & Hlen & Hp & (ps1 & I1 & B1) & Hf1 & Hu1).
    destruct (frames fuel st1) as [[ds1 res1] st4] eqn:Ef. injection E as <- -> <-.
    destruct (IH _ _ _ _ _ Hu1 Hf1 Ef) as (ps & rest & Hin & Hacc).
    exists (ps1 ++ ps), rest. split; [by rewrite I1, Hin, fmap_app, <- app_assoc|].
    rewrite concat_app, app_assoc, B1, <- !app_assoc. by apply accepted_frame with size.
  - destruct (next_signed _ _ _ _ _ _ Hu Hf En) as (line & size & n & Hsz & tail & st2 & -> & Hp & (ps1 & I1 & B1) & Hc).
    injection E as <- <-. exists ps1, (cs_inner st2). split; [done|].
    rewrite B1, <- !app_assoc. by apply accepted_end with size.
Qed.

(** C32: whatever bytes arrive, and however they are cut, a signed aws-chunked body that the
    decoder accepts is in the grammar with every signature right: each payload it yielded
    came in a frame, within the size limit, whose header carried the signature chained from
    the request's own signature over that payload; the terminal header carried the next
    signature; and what follows is, in a mode without a trailer, only the blank line, and
    otherwise a trailer whose signature is the next of the chain over all its other lines
    and whose declared checksum, if the request announced one, is that of the payloads. *)
Theorem signed_body_authentic (inner : list (result Error bytes)) (o : ChunkedOptions) (sg : ChunkSigningState)
    (ds : list bytes) (fuel : nat) (st' : ChunkedState) :
  co_chunk_signing o = Some sg -> frames fuel (start_state inner o) = (ds, Some (Ok tt), st') ->
  exists ps rest, inner = (Ok <$> ps) ++ rest /\
    accepted o sg (hasher_new <$> co_trailer_checksum o) ds (concat ps).
Proof using. intros Hs E. by apply (frames_signed o fuel (start_state inner o) sg _ ds st'). Qed.

(** ** The fuel is enough *)

Lemma consumed_remaining st b st' : consumed st b st' -> remaining st = (length b + remaining st')%nat.
Proof using.
  intros (_ & ps & Hi & Hb). unfold remaining. rewrite Hi. unfold items_len. rewrite fmap_app, list_sum_app.
  fold (items_len (Ok <$> ps)). rewrite items_len_ok. apply (f_equal length) in Hb. rewrite !length_app in Hb.
  fold (items_len (cs_inner st')). lia.
Qed.

Lemma verify_source sig hash st u st' : verify_chunk_signature sig hash st = (Ok u, st') -> remaining st' = remaining st.
Proof using.
  unfold verify_chunk_signature, mbind, dec_bind, get_state. destruct (cs_signing st) as [sg|]; [|by intros [= _ <-]].
  destruct sig; [|done]. destruct (negb _); [done|]. by intros [= _ <-].
Qed.

(** Every payload the decoder yields uses up input. *)
Lemma next_shrinks st data st' : next_chunked_frame st = (Ok (Some data), st') -> (remaining st' < remaining st)%nat.
Proof using.
  intros E. unfold next_chunked_frame in E. apply dec_bind_Ok in E as (st0 & st1 & E0 & E). injection E0 as <- <-.
  destruct (cs_finished st); [done|]. apply dec_bind_Ok in E as (line & st1 & E1 & E).
  apply read_line_consumed, consumed_remaining in E1. destruct (parse_header line) as [size sig].
  destruct (from_str_radix_16 (trim size)) as [n|] eqn:En; [|done]. apply from_str_radix_16_nonneg in En.
  destruct (_ <? n); [done|]. destruct (n =? 0).
  - unfold finish_frames in E. repeat (apply dec_bind_Ok in E as (? & ? & _ & E)). done.
  - unfold data_frame in E. apply dec_bind_Ok in E as (d & st2 & E2 & E).
    apply read_exact_consumed in E2 as [_ C2]; [|lia]. apply consumed_remaining in C2.
    apply dec_bind_Ok in E as (tr & st3 & E3 & E). apply read_exact_consumed in E3 as [_ C3]; [|lia].
    apply consumed_remaining in C3. destruct (negb _); [done|]. apply dec_bind_Ok in E as (u & st4 & E4 & E).
    apply verify_source in E4. injection E as _ <-. unfold remaining in *. cbn [with_hasher cs_buf cs_inner].
    rewrite length_app in E1. cbn in E1. lia.
Qed.

Lemma frames_enough fuel : forall st, (remaining st < fuel)%nat -> is_Some (frames fuel st).1.2.
Proof using.
  induction fuel as [|fuel IH]; intros st Hf; [lia|]. cbn [frames].
  destruct (next_chunked_frame st) as [[[data|]|e] st1] eqn:En; [|by eexists..].
  apply next_shrinks in En. specialize (IH st1 ltac:(lia)). destruct (frames fuel st1) as [[ds res] st2]. done.
Qed.

(** The polls [decode_aws_chunked] allows itself always reach the end of the stream. *)
Lemma decode_reaches_end inner o : is_Some (frames (S (items_len inner)) (start_state inner o)).1.2.
Proof using. apply frames_enough. unfold remaining. cbn [start_state cs_buf cs_inner length]. lia. Qed.

(** More fuel than there is input makes no difference to reading a trailer. *)
Lemma trailer_fuel fuel : forall acc st, (remaining st < fuel)%nat ->
  trailer_lines (S fuel) acc st = trailer_lines fuel acc st.
Proof using.
  induction fuel as [|fuel IH]; intros acc st Hf; [lia|].
  change (trailer_lines (S (S fuel)) acc) with (read_line ≫= fun line => match line with
    | [] => mret acc | _ :: _ => trailer_lines (S fuel) (trailer_line acc line) end).
  change (trailer_lines (S fuel) acc) with (read_line ≫= fun line => match line with
    | [] => mret acc | _ :: _ => trailer_lines fuel (trailer_line acc line) end).
  unfold mbind, dec_bind. destruct (read_line st) as [[line|e] st1] eqn:E; [|done].
  apply read_line_consumed, consumed_remaining in E. destruct line as [|b line]; [done|]. apply IH.
  rewrite length_app in E. cbn in E. lia.
Qed.

(** ** Nothing is committed after a rejection *)

Definition absorb_verifier (v : EofVerifier) (ps : list bytes) : EofVerifier := foldl verifier_update v ps.

Lemma verify_at_eof_items ps bucket : forall v,
  verify_at_eof (Ok <$> ps) v bucket =
  match verifier_finish (absorb_verifier v ps) with
  | Ok _ => (Ok <$> ps, None)
  | Err e => ((Ok <$> ps) ++ [Err (sideband_abort bucket)], Some e)
  end.
Proof using.
  induction ps as [|p ps IH]; intros v; cbn [fmap list_fmap verify_at_eof].
  - unfold absorb_verifier. cbn [foldl]. by destruct (verifier_finish v) as [[]|].
  - change (list_fmap _ _ Ok ps) with (@Ok Error bytes <$> ps). rewrite (IH (verifier_update v p)).
    unfold absorb_verifier. cbn [foldl]. by destruct (verifier_finish _).
Qed.

Context {A : AeadOps} {K : KemOps} {H : HkdfOps} {X : Xxh3Ops} {R : RngOps} {Snk : Type} {SO : SinkOps Snk}.

Lemma put_loop_rejects bucket key cap e : forall ps rest s h n,
  is_ok (put_loop (Snk := Snk) bucket key cap s h n ((Ok <$> ps) ++ Err e :: rest)) = false.
Proof using.
  induction ps as [|p ps IH]; intros rest s h n; cbn [fmap list_fmap app put_loop]; [done|].
  destruct (match cap with Some limit => _ | None => false end); [done|].
  destruct (enc_failed bucket key (feed s p)) as [s'|]; [|done]. cbn [mbind result_bind]. apply IH.
Qed.

(** A body whose whole-body digest is wrong is never stored: the verifying stream passes
    every piece through unchanged and, exactly when the digest of what it passed differs
    from the declared one, ends with an error that makes the upload fail before the
    envelope is finished; the precise reason is left for the response. *)
Theorem bad_digest_never_stored (ps : list bytes) (v : EofVerifier) (bucket key : string)
    (pk : bytes) (ep : Z) (snk : Snk) (woff cs : Z) (cap : option Z) (r : rng) :
  match verifier_finish (absorb_verifier v ps) with
  | Ok _ => verify_at_eof (Ok <$> ps) v bucket = (Ok <$> ps, None)
  | Err e =>
      (verify_at_eof (Ok <$> ps) v bucket).2 = Some e /\
      is_ok (stream_encrypt_for_put pk ep (verify_at_eof (Ok <$> ps) v bucket).1 snk bucket key woff cs cap r) = false
  end.
Proof using.
  rewrite verify_at_eof_items. destruct (verifier_finish (absorb_verifier v ps)) as [|e]; [done|].
  split; [done|]. unfold stream_encrypt_for_put. cbn [fst].
  destruct (enc_failed bucket key (session_new snk pk ep bucket key woff cs r)) as [[s r']|]; [|done].
  cbn [mbind result_bind]. pose proof (put_loop_rejects bucket key cap (sideband_abort bucket) ps [] s checksum.new 0) as Hr.
  destruct (put_loop bucket key cap s checksum.new 0 _) as [[[s' h'] n']|]; [done|done].
Qed.

End theorems.

(** ** Witnesses *)
Module UploadWitness.

(** Base64 replaced by hexadecimal: printable text that determines the bytes. *)
Definition hex64 : Base64Ops := {|
  b64_encode := fun b => String.string_of_list_byte (hex_encode b);
  b64_decode := fun _ => None |}.
#[local] Existing Instances Toy.hash Toy.token_ops hex64.
#[local] Existing Instances Toy.hash_laws.

Definition seed : ChunkSigningState :=
  mkChunkSigningState (replicate 32 x01) (as_bytes "20250101/us-east-1/s3/aws4_request") (as_bytes "20250101T000000Z")
    (as_bytes "deadbeef").
Definition opts : ChunkedOptions := mkChunkedOptions (Some seed) (Some Crc32) 1000 true "photos".
Definition sent : list (bytes * bytes) := [(as_bytes "5", as_bytes "hello"); (as_bytes "00b", as_bytes " wide world")].
Definition wire : bytes := body_bytes opts sent.
Definition cut : list bytes := [take 3 wire; []; take 90 (drop 3 wire); drop 93 wire].

Lemma aws_chunked_roundtrip_witness :
  decode_aws_chunked (Ok <$> cut) opts = Ok <$> [as_bytes "hello"; as_bytes " wide world"] /\
  exists st', frames (S (items_len (Ok <$> cut))) (start_state (Ok <$> cut) opts) =
      ([as_bytes "hello"; as_bytes " wide world"], Some (Ok tt), st') /\ cs_finished st' = true.
Proof.
  apply (aws_chunked_roundtrip opts sent cut).
  - repeat constructor; vm_compute; first [reflexivity | discriminate].
  - vm_compute; discriminate.
  - intros Hf; discriminate Hf.
  - vm_compute. split; [repeat constructor | discriminate].
  - vm_compute; reflexivity.
Defined.

Lemma signed_body_authentic_witness :
  exists ps rest, (Ok <$> cut : list (result Error bytes)) = (Ok <$> ps) ++ rest /\
    accepted opts seed (Some (HCrc32 [])) [as_bytes "hello"; as_bytes " wide world"] (concat ps).
Proof.
  apply (signed_body_authentic (Ok <$> cut) opts seed [as_bytes "hello"; as_bytes " wide world"] 400
    (frames 400 (start_state (Ok <$> cut) opts)).2).
  - reflexivity.
  - vm_compute; reflexivity.
Defined.
End UploadWitness.
