(* ===== verification/SigV4Spec.v ===== *)
(** * What the canonical request says

    Percent coding round trips; the canonical query is the multiset of the decoded
    parameters; the canonical request determines the method, the path, the parameters, the
    signed headers and the payload token. *)

From stdpp Require Import sorting.
From S2P Require Import Prelude Effects Lex Primitives Types Crypto Locks Upload SigV4.

(** ** Lossy text *)

Lemma lossy_valid s : valid_utf8 s = true -> from_utf8_lossy s = s.
Proof.
  induction s as [s IH] using (well_founded_induction (well_founded_ltof _ length)). unfold ltof in IH. destruct s as [|a s1]; [done|]. cbn [valid_utf8 from_utf8_lossy].
  destruct (in_range 0 127 a); [intros; f_equal; apply IH; [cbn; lia|done]|]. destruct s1 as [|b s2]; [done|].
  destruct (in_range 194 223 a); [intros [-> Hv]%andb_true_iff; do 2 f_equal; apply IH; [cbn; lia|done]|]. destruct s2 as [|c s3]; [done|].
  destruct (in_range 224 239 a); [intros [[-> ->]%andb_true_iff Hv]%andb_true_iff; do 3 f_equal; apply IH; [cbn; lia|done]|]. destruct s3 as [|d s4]; [done|].
  intros [[[[-> ->]%andb_true_iff ->]%andb_true_iff ->]%andb_true_iff Hv]%andb_true_iff. do 4 f_equal. apply IH; [cbn; lia|done].
Qed.

Lemma valid_replacement s : valid_utf8 (replacement ++ s) = valid_utf8 s.
Proof. done. Qed.

(** The result is text. *)
Lemma valid_lossy s : valid_utf8 (from_utf8_lossy s) = true.
Proof.
  induction s as [s IH] using (well_founded_induction (well_founded_ltof _ length)). unfold ltof in IH. destruct s as [|a s1]; [done|]. cbn [from_utf8_lossy].
  assert (Hrec : forall s', (length s' <= length s1)%nat -> valid_utf8 (from_utf8_lossy s') = true) by (intros s' Hl; apply IH; cbn; lia).
  assert (Hrep : forall s', (length s' <= length s1)%nat -> valid_utf8 (replacement ++ from_utf8_lossy s') = true) by (intros s' Hl; rewrite valid_replacement; by apply Hrec).
  destruct (in_range 0 127 a) eqn:Ha; [cbn [valid_utf8]; rewrite Ha; by apply Hrec|].
  destruct (in_range 194 223 a) eqn:Ha2.
  { destruct s1 as [|b s2]; [done|]. destruct (cont b) eqn:Hb; [cbn [valid_utf8]; rewrite Ha, Ha2, Hb; apply Hrec; cbn; lia|by apply Hrep]. }
  destruct (in_range 224 239 a) eqn:Ha3.
  { destruct s1 as [|b s2]; [done|]. match goal with |- context [in_range ?l ?h b] => destruct (in_range l h b) eqn:Hb; [|by apply Hrep] end.
    destruct s2 as [|c s3]; [done|]. destruct (cont c) eqn:Hc; [|apply Hrep; cbn; lia]. cbn [valid_utf8]. rewrite Ha, Ha2, Ha3, Hb, Hc. apply Hrec. cbn. lia. }
  destruct (in_range 240 244 a) eqn:Ha4; [|by apply Hrep].
  destruct s1 as [|b s2]; [done|]. match goal with |- context [in_range ?l ?h b] => destruct (in_range l h b) eqn:Hb; [|by apply Hrep] end.
  destruct s2 as [|c s3]; [done|]. destruct (cont c) eqn:Hc; [|apply Hrep; cbn; lia]. destruct s3 as [|d s4]; [done|]. destruct (cont d) eqn:Hd; [|apply Hrep; cbn; lia].
  cbn [valid_utf8]. rewrite Ha, Ha2, Ha3, Ha4, Hb, Hc, Hd. apply Hrec. cbn. lia.
Qed.

(** ** Percent coding *)

Lemma unescape_plain b rest : is_byte b x25 = false -> unescape (b :: rest) = b :: unescape rest.
Proof. intros Hb. destruct rest as [|h1 [|h2 r]]; cbn [unescape]; rewrite ?Hb; done. Qed.
Lemma unescape_escape b r : unescape (escape b ++ r) = b :: unescape r.
Proof. destruct b; reflexivity. Qed.
Lemma unreserved_plain b : is_unreserved b = true -> is_byte b x25 = false.
Proof. destruct b; vm_compute; done. Qed.

Lemma unescape_encode s : unescape (percent_encode s) = s.
Proof.
  unfold percent_encode. induction s as [|b s IH]; [done|]. rewrite bind_cons. destruct (is_unreserved b) eqn:Hu.
  - cbn [app]. rewrite unescape_plain by (by apply unreserved_plain). by rewrite IH.
  - by rewrite unescape_escape, IH.
Qed.

Lemma decode_encode s : valid_utf8 s = true -> percent_decode (percent_encode s) = s.
Proof. intros Hs. unfold percent_decode. rewrite unescape_encode. by apply lossy_valid. Qed.
Lemma valid_decode s : valid_utf8 (percent_decode s) = true.
Proof. apply valid_lossy. Qed.
Lemma encode_inj s t : percent_encode s = percent_encode t -> s = t.
Proof. intros E. by rewrite <- (unescape_encode s), E, unescape_encode. Qed.

(** What encoded text is made of. *)
Definition plain (b : byte) : bool := is_unreserved b || is_byte b x25.
Lemma encode_plain s : Forall (fun b => plain b = true) (percent_encode s).
Proof.
  unfold percent_encode. apply Forall_bind, Forall_forall. intros b _. unfold compose. destruct (is_unreserved b) eqn:Hu.
  - apply Forall_singleton. by apply orb_true_intro; left.
  - unfold escape. do 3 (apply Forall_cons; split; [clear Hu; destruct b; reflexivity|]). apply Forall_nil_2.
Qed.
Definition free (c : byte) (s : bytes) : Prop := c ∉ s.
Lemma encode_free c s : plain c = false -> free c (percent_encode s).
Proof. intros Hc Hin. pose proof (proj1 (Forall_forall _ _) (encode_plain s) c Hin). congruence. Qed.

(** ** Splitting and joining *)

Lemma is_byte_true a b : is_byte a b = true <-> a = b.
Proof. unfold is_byte. by rewrite bool_decide_eq_true. Qed.

Lemma split_free c s : free c s -> split c s = [s].
Proof.
  unfold free. induction s as [|b s IH]; [done|]. intros [Hb Hs]%not_elem_of_cons. cbn [split]. unfold is_byte. rewrite bool_decide_eq_false_2 by congruence. by rewrite IH.
Qed.
Lemma split_app c x s : free c x -> split c (x ++ c :: s) = x :: split c s.
Proof.
  unfold free. induction x as [|b x IH]; cbn [app split]; [intros _; unfold is_byte; by rewrite bool_decide_eq_true_2|].
  intros [Hb Hx]%not_elem_of_cons. unfold is_byte. rewrite bool_decide_eq_false_2 by congruence. by rewrite IH.
Qed.
Lemma split_join c l : l <> [] -> Forall (free c) l -> split c (join [c] l) = l.
Proof.
  induction l as [|x l IH]; [done|]. intros _ [Hx Hl]%Forall_cons. destruct l as [|y l]; [by apply split_free|].
  change (join [c] (x :: y :: l)) with (x ++ c :: join [c] (y :: l)). rewrite split_app by done. by rewrite IH.
Qed.
Lemma join_inj c l l' : l <> [] -> l' <> [] -> Forall (free c) l -> Forall (free c) l' -> join [c] l = join [c] l' -> l = l'.
Proof. intros H1 H2 H3 H4 E. by rewrite <- (split_join c l), E, split_join. Qed.
Lemma split_nonempty c s : split c s <> [].
Proof. destruct s as [|b s]; [done|]. cbn. destruct (is_byte b c); [done|]. by destruct (split c s). Qed.
Lemma split_frees c s : Forall (free c) (split c s).
Proof.
  induction s as [|b s IH]; cbn [split]; [apply Forall_singleton, not_elem_of_nil|]. destruct (is_byte b c) eqn:Hb; [apply Forall_cons; split; [apply not_elem_of_nil|done]|].
  assert (Hbc : c <> b) by (intros <-; unfold is_byte in Hb; by rewrite bool_decide_eq_true_2 in Hb).
  destruct (split c s) as [|x l]; [apply Forall_singleton; by intros ?%list_elem_of_singleton|]. apply Forall_cons in IH as [Hx Hl]. apply Forall_cons. split; [|done]. by intros [?|?]%elem_of_cons.
Qed.
Lemma split_once_app c x s : free c x -> split_once c (x ++ c :: s) = Some (x, s).
Proof.
  unfold free. induction x as [|b x IH]; cbn [app split_once]; [intros _; unfold is_byte; by rewrite bool_decide_eq_true_2|].
  intros [Hb Hx]%not_elem_of_cons. unfold is_byte. rewrite bool_decide_eq_false_2 by congruence. by rewrite IH.
Qed.
Lemma free_app c x y : free c (x ++ y) <-> free c x /\ free c y.
Proof. unfold free. rewrite elem_of_app. tauto. Qed.

(** A text cut at its first separator. *)
Lemma cut_first c x y x' y' : free c x -> free c x' -> x ++ c :: y = x' ++ c :: y' -> x = x' /\ y = y'.
Proof. intros Hx Hx' E. pose proof (split_once_app c x y Hx) as H1. rewrite E, split_once_app in H1 by done. by injection H1. Qed.

(** ** The canonical query *)

#[global] Instance pair_le_total : Total pair_le.
Proof. intros a b. unfold pair_le. destruct (decide (a.1 = b.1)) as [->|Hne]; [rewrite decide_True by done; apply (total bytes_le)|]. rewrite decide_False by congruence. apply (total bytes_le). Qed.
#[global] Instance pair_le_trans : Transitive pair_le.
Proof.
  intros a b c. unfold pair_le. destruct (decide (a.1 = b.1)) as [Hab|Hab], (decide (b.1 = c.1)) as [Hbc|Hbc]; intros H1 H2.
  - rewrite decide_True by congruence. by etrans.
  - rewrite decide_False by congruence. by rewrite Hab.
  - rewrite decide_False by congruence. by rewrite <- Hbc.
  - case_decide as Hac; [|by etrans]. destruct Hab. apply (anti_symm bytes_le); [done|by rewrite Hac].
Qed.
#[global] Instance pair_le_antisymm : AntiSymm (=) pair_le.
Proof.
  intros [a1 a2] [b1 b2]. unfold pair_le. cbn. destruct (decide (a1 = b1)) as [->|Hne]; [rewrite decide_True by done|rewrite decide_False by congruence]; intros H1 H2.
  - f_equal. by apply (anti_symm bytes_le).
  - destruct Hne. by apply (anti_symm bytes_le).
Qed.

#[global] Instance encoded_pair_inj : Inj (=) (=) encoded.
Proof. intros [? ?] [? ?]. intros [= ?%encode_inj ?%encode_inj]. by subst. Qed.

Lemma covered_encoded kv : covered (encoded kv) <-> covered kv.
Proof.
  unfold covered, encoded. cbn [fst]. assert (E : percent_encode (as_bytes "X-Amz-Signature") = as_bytes "X-Amz-Signature") by (vm_compute; reflexivity).
  split; intros H He; apply H; [by rewrite He|]. rewrite <- E in He. by apply encode_inj.
Qed.
(** The parameters the signature covers *)
Definition signed_params (query : bytes) : list (bytes * bytes) := filter covered (decoded_params query).
Lemma filter_encoded (l : list (bytes * bytes)) : filter covered (encoded <$> l) = encoded <$> filter covered l.
Proof.
  induction l as [|kv l IH]; [done|]. rewrite fmap_cons, !filter_cons. destruct (decide (covered kv)) as [Hc|Hc]; [rewrite decide_True by (by apply covered_encoded)|rewrite decide_False by (by rewrite covered_encoded)]; by rewrite IH.
Qed.
Lemma canonical_pairs_perm query : canonical_pairs query ≡ₚ encoded <$> signed_params query.
Proof. unfold canonical_pairs. rewrite merge_sort_Permutation. by rewrite filter_encoded. Qed.

(** The text of a pair *)
Definition pair_text (kv : bytes * bytes) : bytes := kv.1 ++ [x3d] ++ kv.2.
Lemma pair_text_inj a b : free x3d a.1 -> free x3d b.1 -> pair_text a = pair_text b -> a = b.
Proof. destruct a as [a1 a2], b as [b1 b2]. unfold pair_text. cbn [fst snd app]. intros Ha Hb E. apply cut_first in E as [E1 E2]; [by subst|done|done]. Qed.

Lemma pairs_text_free (l : list (bytes * bytes)) : Forall (free x26) (pair_text <$> (encoded <$> l)).
Proof.
  apply Forall_fmap, Forall_fmap, Forall_forall. intros kv _. unfold compose, pair_text, encoded. cbn [fst snd].
  rewrite !free_app. split_and!; [by apply encode_free| |by apply encode_free]. by intros ?%list_elem_of_singleton.
Qed.
Lemma pairs_text_inj (l l' : list (bytes * bytes)) : join [x26] (pair_text <$> (encoded <$> l)) = join [x26] (pair_text <$> (encoded <$> l')) -> encoded <$> l = encoded <$> l'.
Proof.
  assert (Hp : forall kv, pair_text kv <> []) by (intros [[|] ?]; done).
  assert (Hjoin : forall kv m, join [x26] (pair_text <$> (encoded <$> kv :: m)) <> []).
  { intros kv m. rewrite !fmap_cons. cbn [join]. destruct (pair_text <$> (encoded <$> m)); [apply Hp|]. intros E. apply app_eq_nil in E as [E _]. by eapply Hp. }
  destruct l as [|a l], l' as [|b l']; [done|intros E; symmetry in E; by apply Hjoin in E|intros E; by apply Hjoin in E|].
  intros E. apply join_inj in E; [|done|done|apply pairs_text_free|apply pairs_text_free].
  revert E. generalize (a :: l) (b :: l'). clear. induction l as [|a l IH]; intros [|b l'] E; rewrite ?fmap_nil, ?fmap_cons in *; try done. injection E as E1 E2.
  f_equal; [|by apply IH]. apply pair_text_inj in E1; [done|by apply encode_free|by apply encode_free].
Qed.

Lemma sorted_pairs query : exists l, canonical_pairs query = encoded <$> l /\ l ≡ₚ signed_params query.
Proof.
  destruct (Permutation_map_inv encoded _ (canonical_pairs_perm query)) as (l & E & Hp). exists l. split; [exact E|by symmetry].
Qed.

(** The canonical query is the multiset of the parameters: two query strings have the same
    canonical query exactly when their decoded parameters, the signature itself left out, are
    the same up to order, however they are escaped and in whatever order they are written. *)
Lemma canonical_query_inj (q q' : bytes) : canonical_query_string q = canonical_query_string q' <-> signed_params q ≡ₚ signed_params q'.
Proof.
  unfold canonical_query_string. change (fun kv : bytes * bytes => kv.1 ++ [x3d] ++ kv.2) with pair_text. split.
  - destruct (sorted_pairs q) as (l & -> & Hl), (sorted_pairs q') as (l' & -> & Hl'). intros E%pairs_text_inj.
    apply (inj (fmap encoded)) in E as <-.
    by rewrite <- Hl, Hl'.
  - intros Hp. do 2 f_equal. apply (Sorted_unique pair_le); [apply Sorted_merge_sort, _|apply Sorted_merge_sort, _|]. by rewrite !canonical_pairs_perm, Hp.
Qed.

(** ** The canonical path *)

(** The decoded segments of a path; the empty path is the root. *)
Definition segments (path : bytes) : list bytes := percent_decode <$> split x2f (if bool_decide (path = []) then [x2f] else path).
Lemma canonical_uri_segments path : canonical_uri path = join [x2f] (percent_encode <$> segments path).
Proof.
  unfold canonical_uri, segments. destruct (bool_decide_reflect (path = [])) as [->|Hne]; [reflexivity|]. destruct (bool_decide_reflect (path = [x2f])) as [->|Hne']; [reflexivity|].
  cbn [orb]. by rewrite <- list_fmap_compose.
Qed.
Lemma segments_nonempty path : percent_encode <$> segments path <> [].
Proof. unfold segments. by intros ?%fmap_nil_inv%fmap_nil_inv%split_nonempty. Qed.
#[global] Instance percent_encode_inj : Inj (=) (=) percent_encode.
Proof. intros s t. apply encode_inj. Qed.
Lemma canonical_uri_inj path path' : canonical_uri path = canonical_uri path' <-> segments path = segments path'.
Proof.
  rewrite !canonical_uri_segments. split; [|by intros ->]. intros E. apply join_inj in E; [by apply (inj (fmap percent_encode)) in E|apply segments_nonempty|apply segments_nonempty| |];
    apply Forall_fmap, Forall_forall; intros s _; by apply encode_free.
Qed.

(** ** Lines *)

Lemma join_free c sep l : free c sep -> Forall (free c) l -> free c (join sep l).
Proof.
  intros Hs. induction l as [|x l IH]; [intros _; apply not_elem_of_nil|]. intros [Hx Hl]%Forall_cons. destruct l as [|y l]; [done|].
  change (join sep (x :: y :: l)) with (x ++ sep ++ join sep (y :: l)). rewrite !free_app. auto.
Qed.
Lemma free_singleton c b : c <> b -> free c [b].
Proof. by intros Hne ?%list_elem_of_singleton. Qed.
Lemma free_sub c (s t : bytes) : (forall b, b ∈ s -> b ∈ t) -> free c t -> free c s.
Proof. unfold free. auto. Qed.

Lemma words_sub v word w b : w ∈ words v word -> b ∈ w -> b ∈ word \/ b ∈ v.
Proof.
  revert word. induction v as [|a v IH]; intros word; cbn [words]; [case_bool_decide; [by intros ?%not_elem_of_nil|intros E%list_elem_of_singleton; subst; auto]|].
  destruct (is_space a).
  - case_bool_decide; [|intros [->|Hw]%elem_of_cons; [auto|]]; [intros Hw|]; intros Hb; destruct (IH [] Hw Hb) as [?%not_elem_of_nil|?]; try done; right; by apply elem_of_cons; right.
  - intros Hw Hb. destruct (IH _ Hw Hb) as [[?|E%list_elem_of_singleton]%elem_of_app|?]; [auto|subst; right; by left|right; by right].
Qed.
Lemma fold_header_value_free c v : c <> x20 -> free c v -> free c (fold_header_value v).
Proof.
  intros Hc Hv. apply join_free; [by apply free_singleton|]. apply Forall_forall. intros w Hw Hb. destruct (words_sub v [] w c Hw Hb) as [?%not_elem_of_nil|?]; [done|by apply Hv].
Qed.
Lemma to_str_free v v' : to_str v = Some v' -> free lf v'.
Proof.
  unfold to_str. destruct (forallb _ v) eqn:Hf; [|done]. intros [= <-] Hin. rewrite forallb_forall in Hf. specialize (Hf lf). rewrite <- list_elem_of_In in Hf. by specialize (Hf Hin).
Qed.
Lemma header_value_free headers host name : free lf host -> free lf (header_value headers host name).
Proof.
  intros Hh. unfold header_value. case_bool_decide; [done|]. apply join_free; [by apply free_singleton|].
  assert (Hall : Forall (free lf) (fold_header_value <$> omap to_str (get_all headers name))).
  { apply Forall_fmap, Forall_forall. intros v (u & _ & Hv)%list_elem_of_omap. unfold compose. apply fold_header_value_free; [done|]. by eapply to_str_free. }
  destruct (fold_header_value <$> _); [apply Forall_singleton, not_elem_of_nil|done].
Qed.

Definition signed_line (headers : HeaderMap) (host name : bytes) : bytes := name ++ x3a :: header_value headers host name.
Lemma block_lines headers host names s p :
  (canonical_headers headers host names).1 ++ [lf] ++ s ++ [lf] ++ p = join [lf] ((signed_line headers host <$> names) ++ [[]; s; p]).
Proof.
  unfold canonical_headers. cbn [fst]. induction names as [|n names IH]; [done|]. rewrite bind_cons, fmap_cons, <- !app_comm_cons.
  change (join [lf] (?x :: ?l)) with (match l with [] => x | _ => x ++ [lf] ++ join [lf] l end).
  destruct ((signed_line headers host <$> names) ++ [[]; s; p]) as [|y l] eqn:E; [by apply app_eq_nil in E as [_ ?]|]. rewrite <- IH.
  unfold signed_line. rewrite <- !app_assoc. cbn [app]. by rewrite <- !app_assoc.
Qed.

(** Pieces of a line are lines. *)
Lemma lowercase_free c s : in_range 97 122 c = false -> free c s -> free c (to_ascii_lowercase s).
Proof.
  intros Hc Hs (b & Hb & Hin)%list_elem_of_fmap. destruct (in_range 65 90 b) eqn:Er; [|subst; by apply Hs]. subst c. revert Hc Er. clear. destruct b; done.
Qed.
Lemma split_free_all c d s : free c s -> Forall (free c) (split d s).
Proof.
  induction s as [|b s IH]; cbn [split]; [intros _; apply Forall_singleton, not_elem_of_nil|]. intros [Hb Hs]%not_elem_of_cons. specialize (IH Hs). destruct (is_byte b d); [apply Forall_cons; split; [apply not_elem_of_nil|done]|].
  destruct (split d s) as [|x l]; [apply Forall_singleton; by apply free_singleton|]. apply Forall_cons in IH as [Hx Hl]. apply Forall_cons. split; [|done]. by intros [?|?]%elem_of_cons.
Qed.
Lemma split_once_free c d s x y : free c s -> split_once d s = Some (x, y) -> free c x /\ free c y.
Proof.
  revert x y. induction s as [|b s IH]; intros x y; [done|]. intros [Hb Hs]%not_elem_of_cons. cbn [split_once]. destruct (is_byte b d); [intros [= <- <-]; split; [apply not_elem_of_nil|done]|].
  destruct (split_once d s) as [[x' y']|]; [|done]. intros [= <- <-]. destruct (IH x' y' Hs eq_refl) as [Hx Hy]. split; [|done]. by intros [?|?]%elem_of_cons.
Qed.
(** White space takes at most three bytes; what is left is a suffix. *)
Ltac trimmed s :=
  induction s as [s IH] using (well_founded_induction (well_founded_ltof _ length)); unfold ltof in IH;
  let H0 := fresh in assert (H0 : s `suffix_of` s) by done;
  destruct s as [|b1 s]; [done|]; let H1 := fresh in pose proof (suffix_app_r _ _ [b1] (IH s ltac:(cbn; lia))) as H1;
  destruct s as [|b2 s]; [destruct b1; first [exact H0|exact H1]|]; let H2 := fresh in pose proof (suffix_app_r _ _ [b1; b2] (IH s ltac:(cbn; lia))) as H2;
  destruct s as [|b3 s]; [destruct b1; first [exact H0|exact H1|destruct b2; first [exact H0|exact H2]]|]; let H3 := fresh in pose proof (suffix_app_r _ _ [b1; b2; b3] (IH s ltac:(cbn; lia))) as H3;
  clear IH; destruct b1; first [exact H0|exact H1|destruct b2; first [exact H0|exact H2|destruct b3; first [exact H0|exact H3]]].
Lemma trim_start_suffix s : trim_start s `suffix_of` s.
Proof. trimmed s. Qed.
Lemma trim_start_rev_suffix s : trim_start_rev s `suffix_of` s.
Proof. trimmed s. Qed.
Lemma suffix_free c s t : s `suffix_of` t -> free c t -> free c s.
Proof. intros [k ->]. rewrite free_app. by intros [_ ?]. Qed.
Lemma trim_free c s : free c s -> free c (trim s).
Proof.
  intros Hs. unfold trim. assert (Hrev : forall t, free c (reverse t) <-> free c t) by (intros t; unfold free; by rewrite elem_of_reverse).
  apply Hrev. eapply suffix_free; [apply trim_start_rev_suffix|]. apply Hrev. eapply suffix_free; [apply trim_start_suffix|done].
Qed.

Lemma get_all_cons n v (h : HeaderMap) name : get_all ((n, v) :: h) name = if decide (n = name) then v :: get_all h name else get_all h name.
Proof. unfold get_all, HeaderMap in *. rewrite (filter_cons (fun nv : bytes * bytes => nv.1 = name) (n, v) h). cbn [fst]. by destruct (decide (n = name)). Qed.

(** ** The whole request *)

(** Every part is one line of text; the names carry no semicolon. *)
Record parts_ok (r : RequestParts) : Prop := {
  ok_method : free lf (rp_method r);
  ok_host : free lf (rp_host r);
  ok_names : Forall (fun n => free lf n /\ free x3b n) (rp_signed r);
  ok_some : rp_signed r <> [];
  ok_token : free lf (rp_token r);
}.
(** Two requests agree on what is signed. *)
Record same_signed (r r' : RequestParts) : Prop := {
  same_method : rp_method r = rp_method r';
  same_path : segments (rp_path r) = segments (rp_path r');
  same_params : signed_params (rp_query r) ≡ₚ signed_params (rp_query r');
  same_names : rp_signed r = rp_signed r';
  same_values : Forall (fun n => header_value (rp_headers r) (rp_host r) n = header_value (rp_headers r') (rp_host r') n) (rp_signed r);
  same_token : rp_token r = rp_token r';
}.

Lemma uri_free path : free lf (canonical_uri path).
Proof. rewrite canonical_uri_segments. apply join_free; [by apply free_singleton|]. apply Forall_fmap, Forall_forall. intros s _. by apply encode_free. Qed.
Lemma query_free query : free lf (canonical_query_string query).
Proof.
  unfold canonical_query_string. apply join_free; [by apply free_singleton|]. destruct (sorted_pairs query) as (l & -> & _). apply Forall_fmap, Forall_fmap, Forall_forall. intros kv _.
  unfold compose, encoded. cbn [fst snd]. rewrite !free_app. split_and!; [by apply encode_free|by apply free_singleton|by apply encode_free].
Qed.

(** The text as lines *)
Definition text_lines (r : RequestParts) : list bytes :=
  [rp_method r; canonical_uri (rp_path r); canonical_query_string (rp_query r)] ++ (signed_line (rp_headers r) (rp_host r) <$> rp_signed r) ++ [[]; join [x3b] (rp_signed r); rp_token r].
Lemma request_text_lines r : request_text r = join [lf] (text_lines r).
Proof.
  unfold request_text, canonical_request. rewrite (surjective_pairing (canonical_headers _ _ _)), block_lines. unfold text_lines. cbn [canonical_headers snd].
  destruct ((signed_line (rp_headers r) (rp_host r) <$> rp_signed r) ++ _) eqn:E; [by apply app_eq_nil in E as [_ ?]|done].
Qed.
Lemma text_lines_free r : parts_ok r -> Forall (free lf) (text_lines r).
Proof.
  intros []. unfold text_lines. apply Forall_app. split; [repeat apply Forall_cons_2; auto using uri_free, query_free|]. apply Forall_app. split.
  - apply Forall_fmap. eapply Forall_impl; [exact ok_names0|]. intros n [Hn _]. unfold compose, signed_line. rewrite free_app. split; [done|].
    apply (free_app lf [x3a]). split; [by apply free_singleton|by apply header_value_free].
  - repeat apply Forall_cons_2; auto; [apply not_elem_of_nil|]. apply join_free; [by apply free_singleton|]. eapply Forall_impl; [exact ok_names0|]. by intros n [? _].
Qed.
Lemma signed_lines_inj r r' names :
  (signed_line (rp_headers r) (rp_host r) <$> names) = (signed_line (rp_headers r') (rp_host r') <$> names) <->
  Forall (fun n => header_value (rp_headers r) (rp_host r) n = header_value (rp_headers r') (rp_host r') n) names.
Proof.
  induction names as [|n names IH]; [done|]. rewrite Forall_cons, !fmap_cons. split.
  - intros [= E1 E2]. split; [|by apply IH]. unfold signed_line in E1. apply app_inv_head in E1. by injection E1.
  - intros [E1 E2]. f_equal; [unfold signed_line; by rewrite E1|by apply IH].
Qed.

Lemma signed_text_inj r r' : parts_ok r -> parts_ok r' -> request_text r = request_text r' -> same_signed r r'.
Proof.
  intros Hr Hr' E. rewrite !request_text_lines in E.
  apply join_inj in E; [|done|done|by apply text_lines_free|by apply text_lines_free]. unfold text_lines in E. cbn [app] in E. injection E as Em Eu Eq El.
  apply app_inj_2 in El as [Eh [= En Et]]; [|done]. apply join_inj in En; [|apply Hr|apply Hr'|eapply Forall_impl; [apply Hr|]; by intros n []|eapply Forall_impl; [apply Hr'|]; by intros n []].
  rewrite <- En in Eh. split; [done|by apply canonical_uri_inj|by apply canonical_query_inj|done|by apply signed_lines_inj|done].
Qed.

(** C34: the signed text determines the request. Two requests have the same canonical request
    exactly when they have the same method, the same decoded path segments, the same
    parameters up to order, the same signed headers with the same values, and the same
    payload token. *)
Theorem canonical_request_exact (r r' : RequestParts) : parts_ok r -> parts_ok r' -> (request_text r = request_text r' <-> same_signed r r').
Proof.
  intros Hr Hr'. split; [by apply signed_text_inj|]. intros []. rewrite !request_text_lines. f_equal. unfold text_lines.
  rewrite same_method0, same_token0, <- same_names0. rewrite (proj2 (canonical_uri_inj _ _) same_path0), (proj2 (canonical_query_inj _ _) same_params0).
  by rewrite (proj2 (signed_lines_inj r r' (rp_signed r)) same_values0).
Qed.
