(* ===== verification/HttpDate.v ===== *)
(** * Calendar dates

    Models y2qd/src/s3/httpdate.rs and [parse_amz_date] of y2qd/src/s3/sigv4.rs.  The
    arithmetic is that of [i64] in a release build: division truncates, results wrap.
    Text is kept as its bytes.

    The results: the day number of a date counts the days of the Gregorian calendar from
    1970-01-01, whatever the number, and a formatted time parses back to itself. *)

From Stdlib Require Import Ascii.
From stdpp Require Import pretty.
From S2P Require Import Prelude Effects Lex Primitives Types Crypto Locks Upload SigV4 SigV4Spec.

Definition i64 (z : Z) : Z := (z + 2 ^ 63) mod 2 ^ 64 - 2 ^ 63.

Definition civil_from_days (z : Z) : Z * Z * Z :=
  let z := i64 (z + 719468) in
  let era := Z.quot (if 0 <=? z then z else i64 (z - 146096)) 146097 in
  let doe := z - era * 146097 in
  let yoe := Z.quot (doe - Z.quot doe 1460 + Z.quot doe 36524 - Z.quot doe 146096) 365 in
  let y := yoe + era * 400 in
  let doy := doe - (365 * yoe + Z.quot yoe 4 - Z.quot yoe 100) in
  let mp := Z.quot (5 * doy + 2) 153 in
  let d := doy - Z.quot (153 * mp + 2) 5 + 1 in
  let m := if mp <? 10 then mp + 3 else mp - 9 in
  ((if m <=? 2 then y + 1 else y), m, d).

Definition days_from_civil (y m d : Z) : Z :=
  let y := if m <=? 2 then i64 (y - 1) else y in
  let era := Z.quot (if 0 <=? y then y else i64 (y - 399)) 400 in
  let yoe := y - era * 400 in
  let mp := Z.rem (m + 9) 12 in
  let doy := Z.quot (153 * mp + 2) 5 + d - 1 in
  let doe := yoe * 365 + Z.quot yoe 4 - Z.quot yoe 100 + doy in
  i64 (i64 (i64 (era * 146097) + doe) - 719468).

(** ** Text *)

Definition WEEKDAYS : list bytes := as_bytes <$> ["Sun"; "Mon"; "Tue"; "Wed"; "Thu"; "Fri"; "Sat"].
Definition MONTHS : list bytes := as_bytes <$> [""; "Jan"; "Feb"; "Mar"; "Apr"; "May"; "Jun"; "Jul"; "Aug"; "Sep"; "Oct"; "Nov"; "Dec"].

Definition decimal (n : Z) : bytes := as_bytes (pretty n).
(** The number padded with zeros to a width. *)
Definition padded (width : nat) (n : Z) : bytes := replicate (width - length (decimal n)) x30 ++ decimal n.

(** Hours, minutes and seconds of a time of day *)
Definition clock (unix_secs : Z) : Z * Z * Z := let s := unix_secs mod 86400 in (s / 3600, s mod 3600 / 60, s mod 60).
Definition clock_text (unix_secs : Z) : bytes :=
  let '(hour, minute, second) := clock unix_secs in padded 2 hour ++ [x3a] ++ padded 2 minute ++ [x3a] ++ padded 2 second.

Definition http_date (unix_secs : Z) : bytes :=
  let days := unix_secs / 86400 in
  let '(y, m, d) := civil_from_days days in
  let weekday := Z.rem (Z.rem days 7 + 7 + 4) 7 in
  nth (Z.to_nat weekday) WEEKDAYS [] ++ as_bytes ", " ++ padded 2 d ++ [x20] ++ nth (Z.to_nat m) MONTHS [] ++ [x20] ++ decimal y ++ [x20] ++ clock_text unix_secs ++ as_bytes " GMT".

Definition iso8601 (unix_secs : Z) : bytes :=
  let '(y, m, d) := civil_from_days (unix_secs / 86400) in
  padded 4 y ++ [x2d] ++ padded 2 m ++ [x2d] ++ padded 2 d ++ [x54] ++ clock_text unix_secs ++ as_bytes ".000Z".
(** Nanoseconds since the epoch, possibly before it *)
Definition iso8601_from (t : Z) : bytes := iso8601 (if t <? 0 then 0 else t / 1000000000).

(** [str::parse::<i64>] and [str::parse::<u32>] *)
Definition parse_i64 (v : bytes) : option Z :=
  match v with
  | x2d :: ((_ :: _) as ds) => if forallb ascii_digit ds && (digits_value ds <=? 2 ^ 63) then Some (- digits_value ds) else None
  | x2b :: ((_ :: _) as ds) => if forallb ascii_digit ds && (digits_value ds <=? 2 ^ 63 - 1) then Some (digits_value ds) else None
  | [] => None
  | _ => if forallb ascii_digit v && (digits_value v <=? 2 ^ 63 - 1) then Some (digits_value v) else None
  end.
Definition parse_u32 (v : bytes) : option Z := n ← parse_unsigned v; if n <=? u32_max then Some n else None.

Definition month_index (name : bytes) : option Z := (fun x : nat * bytes => Z.of_nat x.1) <$> list_find (fun m => m = name) MONTHS.

(** Seconds since the epoch of a date and a time of day; [None] on overflow or before the epoch. *)
Definition unix_seconds (days hour minute second : Z) : option Z :=
  if negb ((- 2 ^ 63 <=? days * 86400) && (days * 86400 <=? 2 ^ 63 - 1)) then None else
  let secs := days * 86400 + (hour * 3600 + minute * 60 + second) in
  if negb ((- 2 ^ 63 <=? secs) && (secs <=? 2 ^ 63 - 1)) then None else
  if secs <? 0 then None else Some secs.
Definition between (lo hi z : Z) : bool := (lo <=? z) && (z <=? hi).

(** The value of a header is text: its only white space is spaces and tabs. *)
Definition parse_http_date (s : bytes) : option Z :=
  match words s [] with
  | [_; p1; p2; p3; p4; p5] =>
      day ← parse_u32 p1;
      month ← month_index p2;
      year ← parse_i64 p3;
      match split x3a p4 with
      | [h; mi; sec] =>
          hour ← parse_i64 h;
          minute ← parse_i64 mi;
          second ← parse_i64 sec;
          if negb (bool_decide (p5 = as_bytes "GMT")) then None else
          if negb (between 1 31 day && between 0 23 hour && between 0 59 minute && between 0 59 second) then None else
          unix_seconds (days_from_civil year month day) hour minute second
      | _ => None
      end
  | _ => None
  end.

Definition digit_run (s : bytes) (lo hi : Z) : option Z :=
  let r := slice lo hi s in if forallb ascii_digit r then Some (digits_value r) else None.
(** Seconds since the epoch of yyyymmddTHHMMSSZ *)
Definition parse_amz_date (s : bytes) : result SigV4Error Z :=
  if negb (blen s =? 16) || negb (bool_decide (slice 8 9 s = [x54])) || negb (bool_decide (slice 15 16 s = [x5a])) then Err MalformedDate else
  ok_or (year ← digit_run s 0 4; month ← digit_run s 4 6; day ← digit_run s 6 8;
         hour ← digit_run s 9 11; minute ← digit_run s 11 13; second ← digit_run s 13 15;
         if negb (between 1 12 month && between 1 31 day && between 0 23 hour && between 0 59 minute && between 0 59 second) then None else
         unix_seconds (days_from_civil year month day) hour minute second) MalformedDate.

(** ** The calendar *)

Definition leap (y : Z) : bool := (y mod 4 =? 0) && (negb (y mod 100 =? 0) || (y mod 400 =? 0)).
Definition month_length (y m : Z) : Z := if m =? 2 then (if leap y then 29 else 28) else if (m =? 4) || (m =? 6) || (m =? 9) || (m =? 11) then 30 else 31.
Definition next_day (date : Z * Z * Z) : Z * Z * Z :=
  let '(y, m, d) := date in
  if d <? month_length y m then (y, m, d + 1) else if m <? 12 then (y, m + 1, 1) else (y + 1, 1, 1).

(** A date in its period of 400 years, which starts in March. *)
Definition in_period (doe : Z) : Z * Z * Z :=
  let yoe := (doe - doe / 1460 + doe / 36524 - doe / 146096) / 365 in
  let doy := doe - (365 * yoe + yoe / 4 - yoe / 100) in
  let mp := (5 * doy + 2) / 153 in
  (yoe, if mp <? 10 then mp + 3 else mp - 9, doy - (153 * mp + 2) / 5 + 1).
Definition of_period (yoe m d : Z) : Z := yoe * 365 + yoe / 4 - yoe / 100 + (153 * ((m + 9) mod 12) + 2) / 5 + d - 1.
Definition civil (era : Z) (p : Z * Z * Z) : Z * Z * Z := let '(yoe, m, d) := p in ((if m <=? 2 then 1 else 0) + yoe + era * 400, m, d).

(** Days before a year of the period *)
Definition before_year (yoe : Z) : Z := 365 * yoe + yoe / 4 - yoe / 100.
Definition year_of (doe : Z) : Z := (doe - doe / 1460 + doe / 36524 - doe / 146096) / 365.
Definition last_day (yoe : Z) : Z := before_year (yoe + 1) + (if yoe =? 399 then 1 else 0) - 1.

Section days.
#[local] Ltac Zify.zify_post_hook ::= Z.to_euclidean_division_equations.

Lemma year_of_range doe : 0 <= doe < 146097 -> 0 <= year_of doe <= 399 /\ before_year (year_of doe) <= doe <= last_day (year_of doe).
Proof. intros Hd. unfold last_day. split; [unfold year_of; lia|]. destruct (Z.eqb_spec (year_of doe) 399); unfold before_year, year_of in *; lia. Qed.

Lemma year_of_unique doe yoe : 0 <= doe < 146097 -> 0 <= yoe <= 399 -> before_year yoe <= doe <= last_day yoe -> year_of doe = yoe.
Proof.
  intros Hd Hy. destruct (year_of_range doe Hd) as [Hr Hb]. unfold last_day in *. generalize dependent (year_of doe). intros y Hr Hb Hl. unfold before_year in *.
  destruct (Z.eqb_spec y 399), (Z.eqb_spec yoe 399); lia.
Qed.

(** Day of the year to month and day *)
Definition month_of (doy : Z) : Z := (5 * doy + 2) / 153.
Lemma month_of_range doy : 0 <= doy <= 365 -> 0 <= month_of doy <= 11 /\ (153 * month_of doy + 2) / 5 <= doy < (153 * (month_of doy + 1) + 2) / 5.
Proof. intros Hd. unfold month_of. lia. Qed.
Lemma month_of_unique doy mp : 0 <= doy <= 365 -> 0 <= mp <= 11 -> (153 * mp + 2) / 5 <= doy < (153 * (mp + 1) + 2) / 5 -> month_of doy = mp.
Proof. intros Hd Hm. unfold month_of. lia. Qed.

Lemma in_period_back doe : 0 <= doe < 146097 -> let '(yoe, m, d) := in_period doe in of_period yoe m d = doe /\ 0 <= yoe <= 399 /\ 1 <= m <= 12 /\ 1 <= d <= 31.
Proof.
  intros Hd. destruct (year_of_range doe Hd) as [Hy Hb]. unfold in_period. fold (year_of doe). fold (before_year (year_of doe)). cbv zeta. set (doy := doe - before_year (year_of doe)). fold (month_of doy).
  assert (Hdoy : 0 <= doy <= 365) by (unfold last_day, before_year in *; destruct (Z.eqb_spec (year_of doe) 399); lia).
  destruct (month_of_range doy Hdoy) as [Hm Hr]. unfold of_period. fold (before_year (year_of doe)). split_and!; try lia.
  - replace (((if month_of doy <? 10 then month_of doy + 3 else month_of doy - 9) + 9) mod 12) with (month_of doy) by (destruct (Z.ltb_spec (month_of doy) 10); lia). unfold doy, before_year in *. lia.
  - destruct (Z.ltb_spec (month_of doy) 10); lia.
  - destruct (Z.ltb_spec (month_of doy) 10); lia.
Qed.

Definition month_number (mp : Z) : Z := if mp <? 10 then mp + 3 else mp - 9.
Lemma in_period_at yoe doy mp : 0 <= yoe <= 399 -> 0 <= doy -> before_year yoe + doy <= last_day yoe -> 0 <= mp <= 11 ->
  (153 * mp + 2) / 5 <= doy < (153 * (mp + 1) + 2) / 5 ->
  in_period (before_year yoe + doy) = (yoe, month_number mp, doy - (153 * mp + 2) / 5 + 1).
Proof.
  intros Hy Hd Hl Hm Hr.
  assert (Hbound : last_day yoe < 146097 /\ 0 <= before_year yoe /\ doy <= 365) by (unfold last_day, before_year in *; destruct (Z.eqb_spec yoe 399); lia).
  assert (Ey : year_of (before_year yoe + doy) = yoe) by (apply year_of_unique; lia).
  unfold in_period. fold (year_of (before_year yoe + doy)). rewrite Ey. fold (before_year yoe). cbv zeta.
  replace (before_year yoe + doy - before_year yoe) with doy by lia. fold (month_of doy). by rewrite (month_of_unique doy mp) by lia.
Qed.

(** Where a day stands in its year of the period. *)
Lemma period_view doe : 0 <= doe < 146097 -> exists yoe doy mp,
  doe = before_year yoe + doy /\ 0 <= yoe <= 399 /\ 0 <= doy <= 365 /\ before_year yoe + doy <= last_day yoe /\ 0 <= mp <= 11 /\
  (153 * mp + 2) / 5 <= doy < (153 * (mp + 1) + 2) / 5.
Proof.
  intros Hd. destruct (year_of_range doe Hd) as [Hy Hb]. exists (year_of doe), (doe - before_year (year_of doe)), (month_of (doe - before_year (year_of doe))).
  assert (Hdoy : 0 <= doe - before_year (year_of doe) <= 365) by (unfold last_day, before_year in *; destruct (Z.eqb_spec (year_of doe) 399); lia).
  destruct (month_of_range _ Hdoy). split_and!; lia.
Qed.

Lemma last_day_leap era yoe : 0 <= yoe <= 399 -> last_day yoe = before_year yoe + 364 + (if leap (yoe + 1 + era * 400) then 1 else 0).
Proof.
  intros Hy. unfold last_day, leap, before_year.
  replace ((yoe + 1 + era * 400) mod 4) with ((yoe + 1) mod 4) by lia. replace ((yoe + 1 + era * 400) mod 100) with ((yoe + 1) mod 100) by lia.
  replace ((yoe + 1 + era * 400) mod 400) with ((yoe + 1) mod 400) by lia.
  destruct (Z.eqb_spec yoe 399), (Z.eqb_spec ((yoe + 1) mod 4) 0), (Z.eqb_spec ((yoe + 1) mod 100) 0), (Z.eqb_spec ((yoe + 1) mod 400) 0); cbn [andb orb negb]; lia.
Qed.

Definition month_start (mp : Z) : Z := (153 * mp + 2) / 5.
(** The months have their lengths; February ends the year. *)
Lemma month_days era yoe mp : 0 <= yoe <= 399 -> 0 <= mp <= 11 ->
  month_length ((if month_number mp <=? 2 then 1 else 0) + yoe + era * 400) (month_number mp) =
  (if mp =? 11 then last_day yoe - before_year yoe + 1 else month_start (mp + 1)) - month_start mp.
Proof.
  intros Hy Hm. assert (mp = 0 \/ mp = 1 \/ mp = 2 \/ mp = 3 \/ mp = 4 \/ mp = 5 \/ mp = 6 \/ mp = 7 \/ mp = 8 \/ mp = 9 \/ mp = 10 \/ mp = 11) as Hc by lia.
  repeat destruct Hc as [->|Hc]; try reflexivity. subst mp. rewrite (last_day_leap era) by done.
  change (month_number 11) with 2. change (month_start 11) with 337. change (2 <=? 2) with true. change (11 =? 11) with true. cbv iota. replace (1 + yoe + era * 400) with (yoe + 1 + era * 400) by lia. unfold month_length. change (2 =? 2) with true. cbv iota.
  destruct (leap (yoe + 1 + era * 400)); lia.
Qed.

Lemma next_day_period era doe : 0 <= doe < 146096 -> next_day (civil era (in_period doe)) = civil era (in_period (doe + 1)).
Proof.
  intros Hd. destruct (period_view doe ltac:(lia)) as (yoe & doy & mp & -> & Hy & Hdoy & Hl & Hm & Hr). rewrite (in_period_at _ _ mp) by lia. unfold civil, next_day.
  rewrite month_days by done. change ((153 * mp + 2) / 5) with (month_start mp) in *. change ((153 * (mp + 1) + 2) / 5) with (month_start (mp + 1)) in *.
  destruct (decide (before_year yoe + doy = last_day yoe)) as [Elast|Hin].
  - (* the last of February: the next year of the period starts *)
    assert (mp = 11) as -> by (pose proof (last_day_leap 0 yoe Hy); unfold month_start in *; destruct (leap _); lia).
    assert (Hlt : yoe < 399) by (unfold last_day, before_year in *; destruct (Z.eqb_spec yoe 399); lia).
    replace (before_year yoe + doy + 1) with (before_year (yoe + 1) + 0) by (unfold last_day in Elast; destruct (Z.eqb_spec yoe 399); lia).
    rewrite (in_period_at (yoe + 1) 0 0); [|lia|lia|unfold last_day, before_year; destruct (Z.eqb_spec (yoe + 1) 399); lia|lia|cbn; lia].
    cbn [Z.eqb Pos.eqb]. destruct (Z.ltb_spec (doy - month_start 11 + 1) (last_day yoe - before_year yoe + 1 - month_start 11)); [lia|].
    change (month_number 11) with 2. change (month_number 0) with 3. change (2 <=? 2) with true. change (2 <? 12) with true. change (3 <=? 2) with false. cbv iota. f_equal; f_equal; lia.
  - replace (before_year yoe + doy + 1) with (before_year yoe + (doy + 1)) by lia.
    destruct (Z.ltb_spec (doy - month_start mp + 1) ((if mp =? 11 then last_day yoe - before_year yoe + 1 else month_start (mp + 1)) - month_start mp)) as [Hlt|Hge].
    + rewrite (in_period_at yoe (doy + 1) mp); [|lia|lia|lia|lia|fold (month_start mp) (month_start (mp + 1)); destruct (Z.eqb_spec mp 11) as [->|]; [change (month_start (11 + 1)) with 367; lia|lia]].
      fold (month_start mp). f_equal. lia.
    + destruct (Z.eqb_spec mp 11) as [->|Hn]; [lia|].
      rewrite (in_period_at yoe (doy + 1) (mp + 1)); [|lia|lia|lia|lia|fold (month_start (mp + 1)); unfold month_start in *; lia].
      fold (month_start (mp + 1)). replace (doy + 1 - month_start (mp + 1) + 1) with 1 by lia. unfold month_number.
      destruct (Z.ltb_spec mp 10), (Z.ltb_spec (mp + 1) 10); repeat (match goal with |- context [?a <=? ?b] => destruct (Z.leb_spec a b) | |- context [?a <? ?b] => destruct (Z.ltb_spec a b) end; try lia); f_equal; f_equal; lia.
Qed.

Lemma i64_id z : - 2 ^ 63 <= z < 2 ^ 63 -> i64 z = z.
Proof. unfold i64. lia. Qed.

Definition day_number (z : Z) : Prop := - 2 ^ 63 <= z < 2 ^ 63 - 719468.
Lemma civil_from_days_eq z : day_number z -> civil_from_days z = civil ((z + 719468) / 146097) (in_period ((z + 719468) mod 146097)).
Proof.
  intros Hz. unfold day_number in Hz. unfold civil_from_days. rewrite (i64_id (z + 719468)) by lia. set (z' := z + 719468). cbv zeta.
  assert (Eera : Z.quot (if 0 <=? z' then z' else i64 (z' - 146096)) 146097 = z' / 146097) by (destruct (Z.leb_spec 0 z'); [|rewrite i64_id by lia]; lia).
  rewrite Eera. replace (z' - z' / 146097 * 146097) with (z' mod 146097) by lia. set (doe := z' mod 146097). assert (Hd : 0 <= doe < 146097) by lia. clearbody doe. clear Eera.
  destruct (year_of_range doe Hd) as [Hy Hb]. unfold in_period.
  assert (Ey : Z.quot (doe - Z.quot doe 1460 + Z.quot doe 36524 - Z.quot doe 146096) 365 = year_of doe) by (unfold year_of; lia).
  rewrite Ey. fold (year_of doe). rewrite !(Z.quot_div_nonneg (year_of doe)) by lia. fold (before_year (year_of doe)).
  assert (Hdoy : 0 <= doe - before_year (year_of doe)) by lia.
  rewrite (Z.quot_div_nonneg (5 * (doe - before_year (year_of doe)) + 2)) by lia. fold (month_of (doe - before_year (year_of doe))).
  assert (Hmp : 0 <= month_of (doe - before_year (year_of doe))) by (unfold month_of; lia).
  rewrite Z.quot_div_nonneg by lia. unfold civil. f_equal. f_equal. destruct (_ <=? 2); lia.
Qed.

Lemma next_day_number z : day_number z -> day_number (z + 1) -> next_day (civil_from_days z) = civil_from_days (z + 1).
Proof.
  intros Hz Hz'. rewrite !civil_from_days_eq by done. destruct (decide ((z + 719468) mod 146097 = 146096)) as [E|E].
  - rewrite E. replace ((z + 1 + 719468) mod 146097) with 0 by lia. replace ((z + 1 + 719468) / 146097) with ((z + 719468) / 146097 + 1) by lia.
    change (in_period 146096) with (399, 2, 29). change (in_period 0) with (0, 3, 1). set (era := (z + 719468) / 146097). unfold civil, next_day, month_length. change (2 =? 2) with true. cbv iota.
    replace (29 <? _) with false by (destruct (leap _); done). change (2 <=? 2) with true. change (3 <=? 2) with false. change (2 <? 12) with true. cbv iota. f_equal; f_equal; lia.
  - replace ((z + 1 + 719468) mod 146097) with ((z + 719468) mod 146097 + 1) by lia. replace ((z + 1 + 719468) / 146097) with ((z + 719468) / 146097) by lia. apply next_day_period. lia.
Qed.

Lemma days_from_civil_of z : day_number z -> let '(y, m, d) := civil_from_days z in days_from_civil y m d = z.
Proof.
  intros Hz. rewrite civil_from_days_eq by done. unfold day_number in Hz. pose proof (in_period_back ((z + 719468) mod 146097) ltac:(lia)) as Hback. set (era := (z + 719468) / 146097).
  destruct (in_period _) as [[yoe m] d]. destruct Hback as (Eb & Hy & Hm & Hd). unfold civil, days_from_civil.
  assert (Ey : (if m <=? 2 then i64 ((if m <=? 2 then 1 else 0) + yoe + era * 400 - 1) else (if m <=? 2 then 1 else 0) + yoe + era * 400) = yoe + era * 400) by (destruct (m <=? 2); [rewrite i64_id|]; lia).
  rewrite Ey. cbv zeta.
  assert (Eera : Z.quot (if 0 <=? yoe + era * 400 then yoe + era * 400 else i64 (yoe + era * 400 - 399)) 400 = era) by (destruct (Z.leb_spec 0 (yoe + era * 400)); [|rewrite i64_id by lia]; lia).
  rewrite Eera. replace (yoe + era * 400 - era * 400) with yoe by lia. rewrite (Z.rem_mod_nonneg (m + 9)) by lia. rewrite !(Z.quot_div_nonneg yoe) by lia.
  rewrite (Z.quot_div_nonneg (153 * _ + 2)) by lia. unfold of_period in Eb. rewrite (i64_id (era * 146097)) by lia. rewrite (i64_id (era * 146097 + _)) by lia. rewrite i64_id; lia.
Qed.
End days.

(** The dates of the gateway are those of the Gregorian calendar. Day n after 1970-01-01
    is the date that n steps to the next day reach, with the leap years of the calendar, for
    every day number whose arithmetic stays within 64 bits. *)
Theorem civil_calendar (n : nat) : Z.of_nat n < 2 ^ 63 - 719468 -> civil_from_days (Z.of_nat n) = Nat.iter n next_day (1970, 1, 1).
Proof.
  induction n as [|n IH]; [done|]. intros Hn. rewrite Nat2Z.inj_succ in Hn |- *. unfold Z.succ in *. rewrite Nat.iter_succ, <- IH by lia.
  symmetry. apply next_day_number; unfold day_number; lia.
Qed.

(** ** Text that parses back *)

Lemma digits_value_app a b : digits_value (a ++ b) = digits_value a * 10 ^ Z.of_nat (length b) + digits_value b.
Proof.
  unfold digits_value. rewrite foldl_app. generalize (foldl (fun acc c => acc * 10 + (Z_of_byte c - 48)) 0 a). intros v.
  revert v. induction b as [|c b IH]; intros v; cbn [foldl length]; [lia|]. rewrite IH, (IH (0 * 10 + _)), Nat2Z.inj_succ, Z.pow_succ_r by lia. lia.
Qed.
Definition digits (ds : bytes) : Prop := ds <> [] /\ forallb ascii_digit ds = true.

Lemma digit_char x : (x < 10)%N -> let c := byte_of_ascii (pretty_N_char x) in ascii_digit c = true /\ Z_of_byte c - 48 = Z.of_N x.
Proof. intros Hx. assert (x = 0 \/ x = 1 \/ x = 2 \/ x = 3 \/ x = 4 \/ x = 5 \/ x = 6 \/ x = 7 \/ x = 8 \/ x = 9)%N as Hc by lia. repeat destruct Hc as [->|Hc]; subst; done. Qed.

Lemma pretty_N_go_digits x s : exists ds, as_bytes (pretty_N_go x s) = ds ++ as_bytes s /\ forallb ascii_digit ds = true /\ digits_value ds = Z.of_N x /\ (x <> 0%N -> ds <> []).
Proof.
  revert s. induction (N.lt_wf_0 x) as [x _ IH]. intros s. destruct (decide (x = 0%N)) as [->|Hx]; [by exists []|].
  rewrite pretty_N_go_step by lia. destruct (IH (x `div` 10)%N ltac:(apply N.div_lt; lia) (String (pretty_N_char (x `mod` 10)) s)) as (ds & E & Hd & Ev & _).
  destruct (digit_char (x `mod` 10)) as [Hc Hv]; [by apply N.mod_lt|]. exists (ds ++ [byte_of_ascii (pretty_N_char (x `mod` 10))]). split_and!.
  - rewrite E. cbn [as_bytes String.list_byte_of_string]. by rewrite <- app_assoc.
  - by rewrite forallb_app, Hd; cbn [forallb]; rewrite Hc.
  - rewrite digits_value_app, Ev. unfold digits_value. cbn [foldl length]. rewrite N2Z.inj_div. rewrite N2Z.inj_mod in Hv. change (10 ^ Z.of_nat 1) with 10. change (Z.of_N 10) with 10 in *. pose proof (Z.div_mod (Z.of_N x) 10). lia.
  - by intros _ [_ ?]%app_eq_nil.
Qed.

Lemma decimal_digits n : 0 <= n -> digits (decimal n) /\ digits_value (decimal n) = n.
Proof.
  intros Hn. unfold decimal. destruct n as [|p|p]; [by vm_compute|clear Hn|lia].
  change (pretty (Z.pos p)) with (pretty (N.pos p)). unfold pretty, pretty_N. case_decide as Hz; [done|].
  destruct (pretty_N_go_digits (N.pos p) "") as (ds & E & Hd & Ev & Hne). rewrite E. cbn [as_bytes String.list_byte_of_string]. rewrite app_nil_r. split; [split; [by apply Hne|done]|done].
Qed.
Lemma padded_digits w n : 0 <= n -> digits (padded w n) /\ digits_value (padded w n) = n.
Proof.
  intros Hn. destruct (decimal_digits n Hn) as [[Hne Hd] Hv]. unfold padded. generalize (w - length (decimal n))%nat. intros k. split; [split|].
  - by intros [_ ?]%app_eq_nil.
  - rewrite forallb_app, Hd, andb_true_r. induction k as [|k IH]; [done|]. exact IH.
  - rewrite digits_value_app, Hv. replace (digits_value (replicate k x30)) with 0; [lia|]. induction k as [|k IH]; [done|exact IH].
Qed.

(** How text of digits parses. *)
Lemma digits_head ds : digits ds -> exists c r, ds = c :: r /\ c <> x2b /\ c <> x2d.
Proof. intros [Hne Hd]. destruct ds as [|c r]; [done|]. apply andb_true_iff in Hd as [Hc _]. exists c, r. split_and!; [done|by intros ->|by intros ->]. Qed.
Lemma parse_u32_digits ds : digits ds -> digits_value ds <= u32_max -> parse_u32 ds = Some (digits_value ds).
Proof.
  intros Hd Hv. destruct (digits_head ds Hd) as (c & r & E & Hc & _). destruct Hd as [Hne Hd]. unfold parse_u32, parse_unsigned.
  replace (match ds with x2b :: ((_ :: _) as r) => r | _ => ds end) with ds by (rewrite E; destruct c; try done; destruct r; done).
  rewrite Hd. unfold parse_u64. rewrite bool_decide_eq_false_2 by done. destruct (Z.leb_spec (digits_value ds) u64_max); [|unfold u32_max, u64_max in *; lia].
  cbn. destruct (Z.leb_spec (digits_value ds) u32_max); [done|lia].
Qed.
Lemma parse_i64_digits ds : digits ds -> digits_value ds < 2 ^ 63 -> parse_i64 ds = Some (digits_value ds).
Proof.
  intros Hd Hv. destruct (digits_head ds Hd) as (c & r & E & Hc & Hc'). destruct Hd as [Hne Hd]. unfold parse_i64.
  transitivity (if forallb ascii_digit ds && (digits_value ds <=? 2 ^ 63 - 1) then Some (digits_value ds) else None).
  - rewrite E. destruct c; try done; destruct r; done.
  - rewrite Hd. destruct (Z.leb_spec (digits_value ds) (2 ^ 63 - 1)); [done|lia].
Qed.

(** Words and colons *)
Definition word (w : bytes) : Prop := w <> [] /\ forallb (fun b => negb (is_space b)) w = true.
Lemma words_word w v acc : forallb (fun b => negb (is_space b)) w = true -> words (w ++ v) acc = words v (acc ++ w).
Proof.
  revert acc. induction w as [|b w IH]; intros acc; [by rewrite app_nil_r|]. intros [Hb Hw]%andb_true_iff. apply negb_true_iff in Hb. cbn [app words]. rewrite Hb, IH by done. by rewrite <- app_assoc.
Qed.
Lemma words_cons w v : word w -> words (w ++ [x20] ++ v) [] = w :: words v [].
Proof. intros [Hne Hw]. rewrite words_word by done. cbn. by rewrite bool_decide_eq_false_2. Qed.
Lemma words_last w : word w -> words w [] = [w].
Proof. intros [Hne Hw]. rewrite <- (app_nil_r w) at 1. rewrite words_word by done. cbn. by rewrite bool_decide_eq_false_2. Qed.
Lemma digits_word ds : digits ds -> word ds.
Proof.
  intros [Hne Hd]. split; [done|]. clear Hne. induction ds as [|b ds IH]; [done|]. apply andb_true_iff in Hd as [Hb Hd]. cbn [forallb]. rewrite IH by done. by destruct b.
Qed.
Lemma digits_free c ds : ascii_digit c = false -> digits ds -> c ∉ ds.
Proof. intros Hc [_ Hd] Hin. rewrite forallb_forall in Hd. specialize (Hd c). rewrite <- list_elem_of_In in Hd. rewrite Hd in Hc by done. done. Qed.

Lemma civil_range z : 0 <= z < 2 ^ 63 - 719468 -> let '(y, m, d) := civil_from_days z in 0 <= y < 2 ^ 63 /\ 1 <= m <= 12 /\ 1 <= d <= 31.
Proof.
  intros Hz. rewrite civil_from_days_eq by (unfold day_number; lia). pose proof (in_period_back ((z + 719468) mod 146097) (Z.mod_pos_bound _ 146097 eq_refl)) as Hback.
  destruct (in_period _) as [[yoe m] d]. destruct Hback as (_ & Hy & Hm & Hd). unfold civil. pose proof (Z.div_mod (z + 719468) 146097). pose proof (Z.mod_pos_bound (z + 719468) 146097).
  destruct (m <=? 2); lia.
Qed.

Lemma month_name m : 1 <= m <= 12 -> word (nth (Z.to_nat m) MONTHS []) /\ month_index (nth (Z.to_nat m) MONTHS []) = Some m.
Proof. intros Hm. assert (m = 1 \/ m = 2 \/ m = 3 \/ m = 4 \/ m = 5 \/ m = 6 \/ m = 7 \/ m = 8 \/ m = 9 \/ m = 10 \/ m = 11 \/ m = 12) as Hc by lia. repeat destruct Hc as [->|Hc]; subst; (split; [split; [discriminate|reflexivity]|vm_compute; reflexivity]). Qed.
Lemma weekday_word k : 0 <= k <= 6 -> word (nth (Z.to_nat k) WEEKDAYS [] ++ [x2c]).
Proof. intros Hk. assert (k = 0 \/ k = 1 \/ k = 2 \/ k = 3 \/ k = 4 \/ k = 5 \/ k = 6) as Hc by lia. repeat destruct Hc as [->|Hc]; subst; (split; [discriminate|reflexivity]). Qed.

Lemma clock_split t : 0 <= t -> let '(h, mi, s) := clock t in
  word (clock_text t) /\ split x3a (clock_text t) = [padded 2 h; padded 2 mi; padded 2 s] /\ 0 <= h <= 23 /\ 0 <= mi <= 59 /\ 0 <= s <= 59 /\ h * 3600 + mi * 60 + s = t mod 86400.
Proof.
  intros Ht. unfold clock_text, clock. cbv zeta. set (s := t mod 86400). assert (0 <= s < 86400) by (apply Z.mod_pos_bound; lia). clearbody s.
  assert (Hr : 0 <= s / 3600 <= 23 /\ 0 <= s mod 3600 / 60 <= 59 /\ 0 <= s mod 60 <= 59 /\ s / 3600 * 3600 + s mod 3600 / 60 * 60 + s mod 60 = s) by (Z.div_mod_to_equations; lia).
  destruct Hr as (Hh & Hm & Hs & E). generalize dependent (s / 3600). generalize dependent (s mod 3600 / 60). generalize dependent (s mod 60). intros s' Hs m Hm h Hh E.
  destruct (padded_digits 2 h) as [D1 _]; [lia|]. destruct (padded_digits 2 m) as [D2 _]; [lia|]. destruct (padded_digits 2 s') as [D3 _]; [lia|]. split_and!; try lia.
  - pose proof (digits_word _ D1) as [? W1]. pose proof (digits_word _ D2) as [_ W2]. pose proof (digits_word _ D3) as [_ W3]. split; [by intros [? _]%app_eq_nil|].
    rewrite !forallb_app, W1, W2, W3. done.
  - cbn [app]. rewrite split_app by (by apply digits_free). rewrite split_app by (by apply digits_free). by rewrite split_free by (by apply digits_free).
Qed.

Lemma parse_http_date_of (t : Z) : 0 <= t < 2 ^ 63 -> parse_http_date (http_date t) = Some t.
Proof.
  intros Ht. unfold http_date. assert (Hdays : 0 <= t / 86400 < 2 ^ 63 - 719468 /\ t = t / 86400 * 86400 + t mod 86400) by (Z.div_mod_to_equations; lia). destruct Hdays as [Hdays Et].
  pose proof (civil_range (t / 86400) Hdays) as Hciv. pose proof (days_from_civil_of (t / 86400) ltac:(unfold day_number; lia)) as Hback.
  pose proof (clock_split t ltac:(lia)) as Hclock. destruct (civil_from_days _) as [[y m] d]. destruct (clock t) as [[h mi] s] eqn:Eclock.
  destruct Hciv as (Hy & Hm & Hd), Hclock as (Wt & Es & Hh & Hmi & Hs & Eday). destruct (month_name m Hm) as [Wm Em].
  destruct (padded_digits 2 d) as [Dd Vd]; [lia|]. destruct (decimal_digits y) as [Dy Vy]; [lia|]. destruct (padded_digits 2 h) as [Dh Vh]; [lia|]. destruct (padded_digits 2 mi) as [Dm Vm]; [lia|]. destruct (padded_digits 2 s) as [Ds Vs]; [lia|].
  set (k := Z.rem _ 7). assert (Hk : 0 <= k <= 6) by (unfold k; rewrite !Z.rem_mod_nonneg by (try (rewrite Z.rem_mod_nonneg by lia); Z.div_mod_to_equations; lia); Z.div_mod_to_equations; lia). clearbody k.
  pose proof (weekday_word k Hk) as Ww. unfold parse_http_date.
  replace (words _ _) with [nth (Z.to_nat k) WEEKDAYS [] ++ [x2c]; padded 2 d; nth (Z.to_nat m) MONTHS []; decimal y; clock_text t; as_bytes "GMT"].
  2:{ change (as_bytes ", ") with ([x2c] ++ [x20]). rewrite <- (app_assoc [x2c]), (app_assoc _ [x2c]). rewrite words_cons by done. rewrite words_cons by (by apply digits_word). rewrite words_cons by done. rewrite words_cons by (by apply digits_word).
      change (as_bytes " GMT") with ([x20] ++ as_bytes "GMT"). rewrite words_cons by done. by rewrite words_last. }
  rewrite parse_u32_digits, Vd by (done || (rewrite Vd; unfold u32_max; lia)). cbn [mbind option_bind]. rewrite Em. cbn [mbind option_bind]. rewrite parse_i64_digits, Vy by (done || lia). cbn [mbind option_bind].
  rewrite Es, !parse_i64_digits, Vh, Vm, Vs by (done || lia). cbn [mbind option_bind]. rewrite bool_decide_eq_true_2 by done.
  replace (between 1 31 d && _ && _ && _) with true by (unfold between; symmetry; rewrite !andb_true_iff, !Z.leb_le; lia). cbn [negb]. rewrite Hback. unfold unix_seconds.
  replace (_ && _) with true by (symmetry; rewrite !andb_true_iff, !Z.leb_le; lia). cbn [negb].
  replace (_ && _) with true by (symmetry; rewrite !andb_true_iff, !Z.leb_le; lia). cbn [negb]. destruct (Z.ltb_spec (t / 86400 * 86400 + (h * 3600 + mi * 60 + s)) 0); [lia|]. f_equal. lia.
Qed.

(** The text is visible ASCII, as a header value is. *)
Lemma digits_visible ds : digits ds -> forallb (fun b => in_range 32 126 b || is_byte b x09) ds = true.
Proof. intros [_ Hd]. induction ds as [|b ds IH]; [done|]. apply andb_true_iff in Hd as [Hb Hd]. cbn [forallb]. rewrite IH by done. by destruct b. Qed.
Lemma table_visible (l : list bytes) k : Forall (fun w => forallb (fun b => in_range 32 126 b || is_byte b x09) w = true) l -> forallb (fun b => in_range 32 126 b || is_byte b x09) (nth k l []) = true.
Proof. intros Hl. revert k. induction Hl as [|w l Hw _ IH]; intros [|k]; try done. apply IH. Qed.
Lemma http_date_visible t : 0 <= t < 2 ^ 63 -> to_str (http_date t) = Some (http_date t).
Proof.
  intros Ht. unfold to_str. replace (forallb _ _) with true; [done|]. symmetry. unfold http_date. assert (Hdays : 0 <= t / 86400 < 2 ^ 63 - 719468) by (Z.div_mod_to_equations; lia).
  pose proof (civil_range _ Hdays) as Hc. destruct (civil_from_days _) as [[y m] d]. destruct Hc as (Hy & _ & Hd). unfold clock_text. destruct (clock t) as [[h mi] s] eqn:Ek.
  assert (Hk : 0 <= h /\ 0 <= mi /\ 0 <= s) by (unfold clock in Ek; simplify_eq; split_and!; Z.div_mod_to_equations; lia).
  rewrite !forallb_app, !table_visible by (repeat constructor). rewrite (digits_visible (padded 2 d)), (digits_visible (decimal y)), (digits_visible (padded 2 h)), (digits_visible (padded 2 mi)), (digits_visible (padded 2 s)) by ((apply padded_digits || apply decimal_digits); lia). done.
Qed.

(** C35: formatted times round trip. The text [http_date] writes for any time of a 64-bit
    clock is a valid header value, and parsing it gives that time back. *)
Theorem http_date_roundtrip (t : Z) : 0 <= t < 2 ^ 63 -> to_str (http_date t) = Some (http_date t) /\ parse_http_date (http_date t) = Some t.
Proof. intros Ht. split; [by apply http_date_visible|by apply parse_http_date_of]. Qed.

Lemma civil_calendar_witness : 789 < 2 ^ 63 - 719468 /\ civil_from_days 789 = Nat.iter 789 next_day (1970, 1, 1) /\ civil_from_days 789 = (1972, 2, 29).
Proof. split; [reflexivity|]. split; [exact (civil_calendar 789 eq_refl)|vm_compute; reflexivity]. Defined.

Lemma http_date_roundtrip_witness : 0 <= 784111777 < 2 ^ 63 /\ http_date 784111777 = as_bytes "Sun, 06 Nov 1994 08:49:37 GMT" /\ parse_http_date (http_date 784111777) = Some 784111777.
Proof. split; [lia|]. split; [vm_compute; reflexivity|]. apply (http_date_roundtrip 784111777). lia. Defined.

(** The year is not bounded before the arithmetic: where overflow is not checked, a year far
    away wraps to a date in 1973. *)
Example far_year_wraps : parse_http_date (as_bytes "Sun, 01 Mar 8434413465874031200 00:00:00 GMT") = Some (1226 * 86400).
Proof. vm_compute. reflexivity. Qed.
