(* ===== verification/S3State.v ===== *)
(** * S3 credentials and multipart uploads

    Models y2qd/src/s3/state.rs and the endpoints of y2qd/src/s3/credentials.rs: the
    table of temporary S3 credentials, each bound to the session that minted it, and the
    registry of in-flight multipart uploads.

    A [DashMap] is a finite map; the order its iterators visit rows in is whatever
    [map_to_list] gives, and no statement depends on it.  The part table of an upload is
    shared by every [Arc<MultipartUpload>] that points to it, so the registry keeps a
    heap of part tables and an upload holds the address of its own. *)

From stdpp Require Import sorting.
From S2P Require Import Prelude Primitives Types Crypto Session Upload.

(** ** Data *)

Record S3Credential : Type := mkS3Credential {
  sc_access_key_id : string;
  sc_token_hash : bytes;
  sc_username : string;
  sc_secret : SealedSecret;
  sc_created_at : Z;
  sc_expires_at : Z;
}.

Record S3CredentialStore : Type := mkS3CredentialStore {
  cred_inner : gmap string S3Credential;
  cred_keyring : MemoryKey;
  cred_max_per_session : nat;
}.

Record MultipartUpload : Type := mkMultipartUpload {
  mu_upload_id : string;
  mu_bucket : string;
  mu_key : string;
  mu_token_hash : bytes;
  mu_username : string;
  mu_created_at : Z;
  mu_labels : LabelSet;
  mu_parts : Z;
}.

(** Part number to (plaintext size, etag). *)
Definition Parts : Type := gmap Z (Z * string).

Record MultipartRegistry : Type := mkMultipartRegistry {
  up_inner : gmap string MultipartUpload;
  up_heap : gmap Z Parts;
  up_next : Z;
  up_max_per_session : nat;
}.

Record NewUpload : Type := mkNewUpload {
  nu_bucket : string;
  nu_key : string;
  nu_token_hash : bytes;
  nu_username : string;
  nu_labels : LabelSet;
}.

Record S3Config : Type := mkS3Config {
  s3_region : string;
  default_credential_ttl_seconds : Z;
  session_recheck_bytes : Z;
  session_recheck_interval_secs : Z;
  max_clock_skew_secs : Z;
}.

Record S3State : Type := mkS3State {
  credentials : S3CredentialStore;
  uploads : MultipartRegistry;
  s3_config : S3Config;
}.

Definition slow_down (message : string) : S3Error := mkS3Error "SlowDown" 503 message.

Definition cred_is_expired (c : S3Credential) (now : Z) : bool := sc_expires_at c <=? now.

Definition credential_store_new (key : MemoryKey) (max_per_session : nat) : S3CredentialStore :=
  mkS3CredentialStore empty key max_per_session.

Definition with_creds (st : S3CredentialStore) (m : gmap string S3Credential) : S3CredentialStore :=
  mkS3CredentialStore m (cred_keyring st) (cred_max_per_session st).

Definition AKID_ALPHABET : bytes := as_bytes "ABCDEFGHIJKLMNOPQRSTUVWXYZ234567".
Definition AKID_SUFFIX_LEN : nat := 17.
Definition SECRET_RAW_LEN : nat := 30.
Definition UPLOAD_ID_RAW_LEN : nat := 16.

(** [older_first]: the order of [sort_by_key(|c| c.created_at)]. *)
Definition older_first (a b : S3Credential) : Prop := sc_created_at a <= sc_created_at b.
#[global] Instance older_first_dec : RelDecision older_first.
Proof. intros a b. unfold older_first. apply _. Defined.
#[global] Instance older_first_total : Total older_first.
Proof. intros a b. unfold older_first. lia. Qed.
#[global] Instance older_first_trans : Transitive older_first.
Proof. intros a b c. unfold older_first. lia. Qed.

Section s3_state.
Context {A : AeadOps} {R : RngOps} {T : TokenOps} {B : Base64Ops}.

(** ** Credentials *)

Definition with_secret {U} (c : S3Credential) (key : MemoryKey) (f : bytes -> U) : result AuthError U :=
  opened ← open_s3_secret key (sc_token_hash c) (sc_access_key_id c) (sc_secret c);
  Ok (f opened).

Definition akid_char (b : byte) : byte :=
  default x00 (AKID_ALPHABET !! Z.to_nat (Z_of_byte b mod 32)).

Definition generate_access_key_id (r : rng) : string * rng :=
  let '(raw, r) := fill_bytes r AKID_SUFFIX_LEN in
  (String.append "Y2Q" (String.string_of_list_byte (akid_char <$> raw)), r).

Definition generate_secret_bytes (r : rng) : bytes * rng := fill_bytes r SECRET_RAW_LEN.

Definition cred_list_for_session (st : S3CredentialStore) (token_hash : bytes) : list S3Credential :=
  (map_to_list (filter (fun kv => sc_token_hash kv.2 = token_hash) (cred_inner st))).*2.

(** [while remaining.len() > max { remove the oldest }] *)
Fixpoint evict_oldest (max : nat) (remaining : list S3Credential) (m : gmap string S3Credential)
  : gmap string S3Credential :=
  match remaining with
  | [] => m
  | oldest :: rest =>
      if (max <? length remaining)%nat then evict_oldest max rest (delete (sc_access_key_id oldest) m) else m
  end.

Definition cred_mint (st : S3CredentialStore) (token_hash : bytes) (username : string)
    (requested_expires_at session_expires_at now : Z) (r : rng)
  : result AuthError (string * string * S3CredentialStore * rng) :=
  let expires_at := Z.min requested_expires_at session_expires_at in
  let '(access_key_id, r) := generate_access_key_id r in
  let '(secret_bytes, r) := generate_secret_bytes r in
  let secret_b64 := b64_encode secret_bytes in
  '(sealed, r) ← seal_s3_secret (cred_keyring st) token_hash access_key_id (as_bytes secret_b64) r;
  let cred := mkS3Credential access_key_id token_hash username sealed now expires_at in
  let st := with_creds st (<[access_key_id := cred]> (cred_inner st)) in
  let remaining := merge_sort older_first (cred_list_for_session st token_hash) in
  Ok (access_key_id, secret_b64, with_creds st (evict_oldest (cred_max_per_session st) remaining (cred_inner st)), r).

Definition cred_get (st : S3CredentialStore) (access_key_id : string) : option S3Credential :=
  cred_inner st !! access_key_id.

Definition cred_remove (st : S3CredentialStore) (access_key_id : string) : bool * S3CredentialStore :=
  (bool_decide (is_Some (cred_inner st !! access_key_id)), with_creds st (delete access_key_id (cred_inner st))).

(** One credential of [rekey_session]; a failure to re-seal drops it. *)
Definition rekey_credential (old new : bytes) (acc : S3CredentialStore * Z * rng) (c : S3Credential)
  : S3CredentialStore * Z * rng :=
  let '(st, n, r) := acc in
  let resealed := opened ← open_s3_secret (cred_keyring st) old (sc_access_key_id c) (sc_secret c);
                  seal_s3_secret (cred_keyring st) new (sc_access_key_id c) opened r in
  match resealed with
  | Ok (sealed, r) =>
      let rebuilt := mkS3Credential (sc_access_key_id c) new (sc_username c) sealed (sc_created_at c) (sc_expires_at c) in
      (with_creds st (<[sc_access_key_id c := rebuilt]> (cred_inner st)), n + 1, r)
  | Err _ => (with_creds st (delete (sc_access_key_id c) (cred_inner st)), n, r)
  end.

Definition cred_rekey_session (st : S3CredentialStore) (old new : bytes) (r : rng) : S3CredentialStore * Z * rng :=
  foldl (rekey_credential old new) (st, 0, r) (cred_list_for_session st old).

(** [sweep] asks the session store about every credential it has not already found
    expired, and that question drops expired session rows. *)
Fixpoint stale_credentials (now : Z) (rows : list (string * S3Credential)) (sessions : SessionStore)
  : list string * SessionStore :=
  match rows with
  | [] => ([], sessions)
  | (akid, c) :: rest =>
      let '(stale, sessions) :=
        if cred_is_expired c now then (true, sessions)
        else let '(res, sessions) := get_active sessions (sc_token_hash c) now in (negb (is_ok res), sessions) in
      let '(more, sessions) := stale_credentials now rest sessions in
      (if (stale : bool) then akid :: more else more, sessions)
  end.

Definition cred_sweep (st : S3CredentialStore) (sessions : SessionStore) (now : Z)
  : Z * S3CredentialStore * SessionStore :=
  let '(stale, sessions) := stale_credentials now (map_to_list (cred_inner st)) sessions in
  (blen stale, with_creds st (foldl (fun m k => delete k m) (cred_inner st) stale), sessions).

(** ** Multipart uploads *)

Definition registry_new (max_per_session : nat) : MultipartRegistry :=
  mkMultipartRegistry empty empty 0 max_per_session.

Definition with_uploads (st : MultipartRegistry) (m : gmap string MultipartUpload) : MultipartRegistry :=
  mkMultipartRegistry m (up_heap st) (up_next st) (up_max_per_session st).

Definition generate_upload_id (r : rng) : string * rng :=
  let '(raw, r) := fill_bytes r UPLOAD_ID_RAW_LEN in (b64url_encode raw, r).

Definition up_filter (p : MultipartUpload -> bool) (st : MultipartRegistry) : list MultipartUpload :=
  (map_to_list (filter (fun kv => p kv.2 = true) (up_inner st))).*2.

Definition up_list_for_session (st : MultipartRegistry) (token_hash : bytes) : list MultipartUpload :=
  up_filter (fun u => bool_decide (mu_token_hash u = token_hash)) st.

Definition up_list_for_bucket (st : MultipartRegistry) (bucket : string) : list MultipartUpload :=
  up_filter (fun u => bool_decide (mu_bucket u = bucket)) st.

Definition up_create (st : MultipartRegistry) (new : NewUpload) (now : Z) (r : rng)
  : result S3Error (MultipartUpload * MultipartRegistry * rng) :=
  if (up_max_per_session st <=? length (up_list_for_session st (nu_token_hash new)))%nat then
    Err (slow_down "too many in-flight multipart uploads for this session; complete or abort an existing upload")
  else
  let '(upload_id, r) := generate_upload_id r in
  let upload := mkMultipartUpload upload_id (nu_bucket new) (nu_key new) (nu_token_hash new)
    (nu_username new) now (nu_labels new) (up_next st) in
  Ok (upload, mkMultipartRegistry (<[upload_id := upload]> (up_inner st)) (<[up_next st := empty]> (up_heap st))
                (up_next st + 1) (up_max_per_session st), r).

Definition up_get (st : MultipartRegistry) (upload_id : string) : option MultipartUpload := up_inner st !! upload_id.

Definition up_remove (st : MultipartRegistry) (upload_id : string) : option MultipartUpload * MultipartRegistry :=
  (up_inner st !! upload_id, with_uploads st (delete upload_id (up_inner st))).

(** Recording a part through an [Arc<MultipartUpload>], however old. *)
Definition record_part (st : MultipartRegistry) (u : MultipartUpload) (part size : Z) (etag : string) : MultipartRegistry :=
  mkMultipartRegistry (up_inner st) (alter (<[part := (size, etag)]>) (mu_parts u) (up_heap st)) (up_next st) (up_max_per_session st).

Definition parts_of (st : MultipartRegistry) (u : MultipartUpload) : Parts := default empty (up_heap st !! mu_parts u).

Definition rebind_upload (new : bytes) (u : MultipartUpload) : MultipartUpload :=
  mkMultipartUpload (mu_upload_id u) (mu_bucket u) (mu_key u) new (mu_username u) (mu_created_at u) (mu_labels u) (mu_parts u).

Definition up_rekey_session (st : MultipartRegistry) (old new : bytes) : MultipartRegistry * Z :=
  let matching := up_list_for_session st old in
  (with_uploads st (foldl (fun m u => <[mu_upload_id u := rebind_upload new u]> m) (up_inner st) matching), blen matching).

Definition rekey_session (s3 : S3State) (old new : bytes) (r : rng) : S3State * rng :=
  let '(creds, _, r) := cred_rekey_session (credentials s3) old new r in
  let '(ups, _) := up_rekey_session (uploads s3) old new in
  (mkS3State creds ups (s3_config s3), r).

(** ** The credential endpoints *)

Definition to_unix (t : Z) : Z := if t <? 0 then 0 else t / 1000000000.

Record MintResponse : Type := mkMintResponse {
  mr_access_key_id : string;
  mr_secret_access_key : string;
  mr_region : string;
  mr_expires_at : Z;
  mr_session_expires_at : Z;
}.

Definition s3_mint (s3 : S3State) (auth : Authenticated) (ttl_seconds : option Z) (max_ttl_seconds now : Z) (r : rng)
  : result AuthError (MintResponse * S3State * rng) :=
  requested_expires_at ← compute_expiry ttl_seconds (default_credential_ttl_seconds (s3_config s3)) max_ttl_seconds now;
  '(access_key_id, secret_access_key, creds, r) ←
    cred_mint (credentials s3) (au_token_hash auth) (au_username auth) requested_expires_at
      (si_expires_at (au_session auth)) now r;
  let expires_at := Z.min requested_expires_at (si_expires_at (au_session auth)) in
  Ok (mkMintResponse access_key_id secret_access_key (s3_region (s3_config s3)) (to_unix expires_at)
        (to_unix (si_expires_at (au_session auth))), mkS3State creds (uploads s3) (s3_config s3), r).

(** [(access_key_id, created_at, expires_at)] of each of the caller's credentials. *)
Definition s3_list (s3 : S3State) (auth : Authenticated) : list (string * Z * Z) :=
  (fun c => (sc_access_key_id c, to_unix (sc_created_at c), to_unix (sc_expires_at c))) <$>
    cred_list_for_session (credentials s3) (au_token_hash auth).

Definition s3_revoke (s3 : S3State) (auth : Authenticated) (access_key_id : string) : result AuthError S3State :=
  cred ← ok_or (cred_get (credentials s3) access_key_id) S3CredentialUnknown;
  if negb (bool_decide (sc_token_hash cred = au_token_hash auth)) then Err S3CredentialUnknown
  else Ok (mkS3State (snd (cred_remove (credentials s3) access_key_id)) (uploads s3) (s3_config s3)).

End s3_state.

(** ** Theorems *)

Section theorems.
Context {A : AeadOps} {R : RngOps} {T : TokenOps} {B : Base64Ops}.
Context {AL : AeadLaws} {RL : RngLaws} {BL : Base64Laws}.

(** Every credential sits under its own id and its secret opens for its session. *)
Definition cred_ok (key : MemoryKey) (akid : string) (c : S3Credential) : Prop :=
  sc_access_key_id c = akid /\ exists s, open_s3_secret key (sc_token_hash c) akid (sc_secret c) = Ok s /\ blen s <= AEAD_P_MAX.

Definition creds_ok (st : S3CredentialStore) : Prop := map_Forall (cred_ok (cred_keyring st)) (cred_inner st).

Lemma seal_s3_secret_opens key h akid s r sealed r' :
  seal_s3_secret key h akid s r = Ok (sealed, r') -> open_s3_secret key h akid sealed = Ok s.
Proof.
  intros E%map_err_Ok_inv. unfold open_s3_secret. by rewrite (memory_open_seal _ _ _ _ _ _ E).
Qed.

Lemma seal_s3_secret_total key h akid s r :
  blen s <= AEAD_P_MAX -> exists sealed r', seal_s3_secret key h akid s r = Ok (sealed, r').
Proof.
  intros Hs. destruct (memory_seal_total key s (s3_secret_aad h akid) r Hs) as (sealed & r' & E).
  exists sealed, r'. unfold seal_s3_secret. by rewrite E.
Qed.

Lemma elem_of_session_creds st h c :
  creds_ok st -> c ∈ cred_list_for_session st h <->
  cred_inner st !! sc_access_key_id c = Some c /\ sc_token_hash c = h.
Proof.
  intros Hok. unfold cred_list_for_session. rewrite list_elem_of_fmap. split.
  - intros ([k c'] & -> & Hin). apply elem_of_map_to_list, map_lookup_filter_Some in Hin as [Hk Hh].
    cbn in *. by rewrite (proj1 (Hok k c' Hk)).
  - intros [Hk Hh]. exists (sc_access_key_id c, c). split; [done|].
    by apply elem_of_map_to_list, map_lookup_filter_Some.
Qed.

Lemma session_creds_NoDup st h :
  creds_ok st -> NoDup (sc_access_key_id <$> cred_list_for_session st h).
Proof.
  intros Hok. unfold cred_list_for_session. rewrite <- list_fmap_compose.
  rewrite (list_fmap_ext _ fst); [apply NoDup_fst_map_to_list|].
  intros i [k c] Hi. apply list_elem_of_lookup_2, elem_of_map_to_list, map_lookup_filter_Some in Hi as [Hk _].
  exact (proj1 (Hok k c Hk)).
Qed.

Lemma evict_oldest_take max l : forall m,
  evict_oldest max l m = foldl (fun m k => delete k m) m (sc_access_key_id <$> take (length l - max) l).
Proof.
  induction l as [|c l IH]; intros m; cbn [evict_oldest]; [by rewrite take_nil|].
  destruct (Nat.ltb_spec max (length (c :: l))) as [Hlt|Hge]; cbn [length] in *.
  - rewrite IH. by replace (S (length l) - max)%nat with (S (length l - max)) by lia.
  - by replace (S (length l) - max)%nat with 0%nat by lia.
Qed.

Lemma foldl_delete_creds (ks : list string) (m : gmap string S3Credential) (k : string) :
  foldl (fun m k => delete k m) m ks !! k = if decide (k ∈ ks) then None else m !! k.
Proof.
  revert m. induction ks as [|x ks IH]; intros m; cbn [foldl].
  { by rewrite decide_False by apply not_elem_of_nil. }
  rewrite IH. destruct (decide (k ∈ ks)); [by rewrite decide_True by (by right)|].
  destruct (decide (k = x)) as [->|Hne].
  - by rewrite lookup_delete_eq, decide_True by (by left).
  - rewrite lookup_delete_ne, decide_False; [done| |done]. by intros [?|?]%elem_of_cons.
Qed.

Lemma creds_ok_sub st m :
  creds_ok st -> (forall k c, m !! k = Some c -> cred_inner st !! k = Some c) -> creds_ok (with_creds st m).
Proof. intros Hok Hsub k c Hk. by apply Hok, Hsub. Qed.

Lemma creds_ok_insert st c :
  creds_ok st -> cred_ok (cred_keyring st) (sc_access_key_id c) c ->
  creds_ok (with_creds st (<[sc_access_key_id c := c]> (cred_inner st))).
Proof. intros Hok Hc. by apply map_Forall_insert_2. Qed.

(** Trimming a session to its [max] newest credentials. *)
Lemma trim_session st h :
  creds_ok st ->
  let l := merge_sort older_first (cred_list_for_session st h) in
  let st' := with_creds st (evict_oldest (cred_max_per_session st) l (cred_inner st)) in
  creds_ok st' /\ cred_list_for_session st' h ≡ₚ drop (length l - cred_max_per_session st) l /\
  (forall k c, sc_token_hash c <> h -> cred_inner st !! k = Some c -> cred_inner st' !! k = Some c) /\
  (forall c c', c ∈ cred_list_for_session st h -> c ∉ cred_list_for_session st' h ->
     c' ∈ cred_list_for_session st' h -> sc_created_at c <= sc_created_at c').
Proof.
  intros Hok l st'. set (n := (length l - cred_max_per_session st)%nat).
  assert (Hperm : l ≡ₚ cred_list_for_session st h) by apply merge_sort_Permutation.
  assert (Hnd : NoDup (sc_access_key_id <$> l)) by (rewrite Hperm; by apply session_creds_NoDup).
  assert (Hlook : forall k, cred_inner st' !! k =
            if decide (k ∈ sc_access_key_id <$> take n l) then None else cred_inner st !! k).
  { intros k. unfold st'. cbn [cred_inner with_creds]. by rewrite evict_oldest_take, foldl_delete_creds. }
  assert (Hok' : creds_ok st').
  { apply creds_ok_sub; [done|]. intros k c Hk. fold st' in Hk. change (cred_inner st' !! k = Some c) in Hk.
    rewrite Hlook in Hk. by case_decide. }
  assert (Hmem : forall c, c ∈ cred_list_for_session st' h <-> c ∈ drop n l).
  { intros c. rewrite elem_of_session_creds by done. rewrite Hlook.
    pose proof (take_drop n l) as Htd. assert (Hcl : c ∈ l <-> cred_inner st !! sc_access_key_id c = Some c /\ sc_token_hash c = h).
    { rewrite Hperm. exact (elem_of_session_creds st h c Hok). }
    rewrite <- Htd in Hcl, Hnd. rewrite fmap_app, NoDup_app in Hnd. destruct Hnd as (_ & Hdisj & _).
    rewrite elem_of_app in Hcl. case_decide as Hin.
    - split; [by intros []|]. intros Hd. exfalso. apply (Hdisj _ Hin). by apply list_elem_of_fmap_2.
    - rewrite <- Hcl. split; [|tauto]. intros [Ht|?]; [|done]. exfalso. apply Hin. by apply list_elem_of_fmap_2. }
  split; [done|]. split_and!.
  - apply NoDup_Permutation.
    + apply (NoDup_fmap_1 sc_access_key_id). by apply session_creds_NoDup.
    + apply (NoDup_fmap_1 sc_access_key_id). rewrite <- (take_drop n l), fmap_app in Hnd. by apply NoDup_app in Hnd as (_ & _ & ?).
    + apply Hmem.
  - intros k c Hh Hk. rewrite Hlook. case_decide as Hin; [|done]. exfalso.
    apply list_elem_of_fmap in Hin as (c' & -> & Hc').
    assert (Hl : c' ∈ l) by (rewrite <- (take_drop n l); apply elem_of_app; by left).
    rewrite Hperm, elem_of_session_creds in Hl by done. destruct Hl as [Hl ?]. congruence.
  - intros c c' Hc Hnc Hc'. rewrite Hmem in Hnc, Hc'. rewrite <- Hperm, <- (take_drop n l), elem_of_app in Hc.
    destruct Hc as [Hc|?]; [|done].
    pose proof (StronglySorted_merge_sort older_first (cred_list_for_session st h)) as Hs.
    fold l in Hs. rewrite <- (take_drop n l) in Hs. apply StronglySorted_app in Hs as (Hs & _). exact (Hs c c' Hc Hc').
Qed.

(** Minting an S3 credential binds it to the caller's session: it expires no later
    than the session, opens to the secret that was handed out, and leaves the session with
    at most its quota of credentials, the oldest ones going first; credentials of other
    sessions are not touched. *)
Theorem mint_bounded (st st' : S3CredentialStore) (h : bytes) (user : string) (requested session_exp now : Z)
    (r r' : rng) (akid secret : string) :
  creds_ok st -> blen (as_bytes secret) <= AEAD_P_MAX ->
  cred_mint st h user requested session_exp now r = Ok (akid, secret, st', r') ->
  creds_ok st' /\ (length (cred_list_for_session st' h) <= cred_max_per_session st)%nat /\
  (forall k c, k <> akid -> sc_token_hash c <> h -> cred_inner st !! k = Some c -> cred_inner st' !! k = Some c) /\
  (forall c, cred_inner st' !! akid = Some c -> sc_token_hash c = h /\ sc_username c = user /\
     sc_expires_at c <= session_exp /\ with_secret c (cred_keyring st') id = Ok (as_bytes secret)) /\
  (forall c c', cred_inner st !! sc_access_key_id c = Some c -> sc_token_hash c = h -> sc_access_key_id c <> akid ->
     cred_inner st' !! sc_access_key_id c = None -> c' ∈ cred_list_for_session st' h -> sc_created_at c <= sc_created_at c').
Proof.
  intros Hok Hsec E. unfold cred_mint in E. destruct (generate_access_key_id r) as [k r1].
  destruct (generate_secret_bytes r1) as [raw r2]. apply bind_Ok_inv in E as ([sealed r3] & Es & E).
  injection E as -> <- <- <-. apply seal_s3_secret_opens in Es as Hopen.
  set (cred := mkS3Credential akid h user sealed now (Z.min requested session_exp)) in *.
  set (st1 := with_creds st (<[akid := cred]> (cred_inner st))) in *.
  assert (Hok1 : creds_ok st1).
  { apply (creds_ok_insert st cred); [done|]. split; [done|]. exists (as_bytes (b64_encode raw)). done. }
  destruct (trim_session st1 h Hok1) as (Hok' & Hp & Ho & Hfifo).
  cbv zeta in *. set (st' := with_creds st1 (evict_oldest _ _ _)) in *. split; [done|]. split_and!.
  - rewrite Hp, length_drop. cbn [cred_max_per_session st1 with_creds]. lia.
  - intros k c Hne Hh Hk. apply Ho; [done|]. cbn. by rewrite lookup_insert_ne.
  - intros c Hc. assert (c = cred) as ->.
    { assert (Hsub : cred_inner st1 !! akid = Some c).
      { unfold st' in Hc. cbn [cred_inner with_creds] in Hc.
        rewrite evict_oldest_take, foldl_delete_creds in Hc. by case_decide. }
      cbn in Hsub. rewrite lookup_insert_eq in Hsub. congruence. }
    split_and!; try done; [cbn; lia|]. unfold with_secret. cbn [sc_token_hash sc_access_key_id sc_secret cred].
    change (cred_keyring st') with (cred_keyring st). by rewrite Hopen.
  - intros c c' Hc Hh Hne Hgone Hc'. apply (Hfifo c c'); [|intros Hin|done].
    + apply elem_of_session_creds; [done|]. cbn. by rewrite lookup_insert_ne by done.
    + apply elem_of_session_creds in Hin as [Hin _]; [|done]. congruence.
Qed.

(** What a refresh does to one credential of the session. *)
Definition rebound (key : MemoryKey) (new : bytes) (c c' : S3Credential) : Prop :=
  sc_access_key_id c' = sc_access_key_id c /\ sc_token_hash c' = new /\ sc_username c' = sc_username c /\
  sc_created_at c' = sc_created_at c /\ sc_expires_at c' = sc_expires_at c /\
  with_secret c' key id = with_secret c key id.

Lemma rekey_all old new l : forall st n r st' n' r',
  creds_ok st -> NoDup (sc_access_key_id <$> l) ->
  (forall c, c ∈ l -> cred_inner st !! sc_access_key_id c = Some c /\ sc_token_hash c = old) ->
  foldl (rekey_credential old new) (st, n, r) l = (st', n', r') ->
  creds_ok st' /\ cred_keyring st' = cred_keyring st /\ n' = n + blen l /\
  (forall c, c ∈ l -> exists c', cred_inner st' !! sc_access_key_id c = Some c' /\ rebound (cred_keyring st) new c c') /\
  (forall k, k ∉ sc_access_key_id <$> l -> cred_inner st' !! k = cred_inner st !! k).
Proof.
  induction l as [|c l IH]; intros st n r st' n' r' Hok Hnd Hin E; cbn [foldl] in E.
  { simplify_eq. split_and!; try done; [rewrite blen_nil; lia|]. by intros c ?%elem_of_nil. }
  cbn [fmap list_fmap] in Hnd. apply NoDup_cons in Hnd as [Hc Hnd].
  destruct (Hin c) as [Hlook Hh]; [by left|]. destruct (Hok _ _ Hlook) as (_ & s & Hopen & Hlen).
  rewrite Hh in Hopen.
  destruct (seal_s3_secret_total (cred_keyring st) new (sc_access_key_id c) s r Hlen) as (sealed & r1 & Eseal).
  unfold rekey_credential in E at 2. rewrite Hopen in E. cbn [mbind result_bind] in E. rewrite Eseal in E.
  set (c' := mkS3Credential _ new _ sealed _ _) in E. apply seal_s3_secret_opens in Eseal as Hopen'.
  apply IH in E as (Hok' & Hk & Hn & Hl & Ho); [| |done|].
  - cbn [cred_keyring with_creds] in *. split_and!; try done.
    + rewrite blen_cons. lia.
    + intros d [->|Hd]%elem_of_cons; [|by apply Hl]. exists c'. rewrite Ho by done.
      cbn [cred_inner with_creds]. rewrite lookup_insert_eq. split; [done|].
      split_and!; try done. unfold with_secret. cbn [sc_token_hash sc_access_key_id sc_secret c'].
      by rewrite Hopen', Hh, Hopen.
    + intros k Hnk. cbn [fmap list_fmap] in Hnk. apply not_elem_of_cons in Hnk as [? ?]. rewrite Ho by done.
      cbn [cred_inner with_creds]. by rewrite lookup_insert_ne.
  - apply (creds_ok_insert st c'); [done|]. split; [done|]. by exists s.
  - intros d Hd. destruct (Hin d) as [Hd1 Hd2]; [by right|]. split; [|done]. cbn [cred_inner with_creds].
    rewrite lookup_insert_ne; [done|]. intros Heq. apply Hc. rewrite Heq. by apply list_elem_of_fmap_2.
Qed.

Lemma foldl_rebind new (l : list MultipartUpload) : forall (m : gmap string MultipartUpload) u,
  u ∈ l -> (forall v, v ∈ l -> mu_upload_id v = mu_upload_id u -> v = u) ->
  foldl (fun m v => <[mu_upload_id v := rebind_upload new v]> m) m l !! mu_upload_id u = Some (rebind_upload new u).
Proof.
  induction l as [|v l IH] using rev_ind; intros m u Hin Hinj; [by apply elem_of_nil in Hin|].
  rewrite foldl_snoc. destruct (decide (mu_upload_id v = mu_upload_id u)) as [He|He].
  - rewrite He, (Hinj v) by (done || (apply elem_of_app; right; by left)). apply lookup_insert_eq.
  - rewrite lookup_insert_ne by done. apply IH.
    + apply elem_of_app in Hin as [?|Hs]; [done|]. apply list_elem_of_singleton in Hs as ->. done.
    + intros w Hw. apply Hinj. apply elem_of_app. by left.
Qed.

Lemma up_rekey_lookup st old new id u :
  map_Forall (fun k u => mu_upload_id u = k) (up_inner st) ->
  up_inner st !! id = Some u -> mu_token_hash u = old ->
  up_inner (fst (up_rekey_session st old new)) !! id = Some (rebind_upload new u).
Proof.
  intros Hids Hu Hh. cbn [up_rekey_session fst up_inner with_uploads]. rewrite <- (Hids _ _ Hu).
  assert (Hmem : forall v, v ∈ up_list_for_session st old -> up_inner st !! mu_upload_id v = Some v).
  { intros v ([k v'] & -> & Hv)%list_elem_of_fmap.
    apply elem_of_map_to_list, map_lookup_filter_Some in Hv as [Hv _]. cbn. by rewrite (Hids _ _ Hv). }
  apply foldl_rebind.
  - apply list_elem_of_fmap. exists (id, u). split; [done|]. apply elem_of_map_to_list, map_lookup_filter_Some.
    split; [done|]. by apply bool_decide_eq_true.
  - intros v Hv He. apply Hmem in Hv. rewrite He, (Hids _ _ Hu), Hu in Hv. by injection Hv.
Qed.

(** A token refresh carries a session's S3 state over: every credential of the old
    token is now bound to the new one, with the same id, owner and expiry, and still opens
    to the same secret; none is left behind and no other session's is touched; and every
    in-flight upload keeps its part table, so a part recorded through a handle obtained
    before the refresh is a part of the upload afterwards. *)
Theorem refresh_keeps_s3 (s3 : S3State) (old new : bytes) (r r' : rng) (s3' : S3State) :
  creds_ok (credentials s3) -> old <> new ->
  map_Forall (fun k u => mu_upload_id u = k) (up_inner (uploads s3)) ->
  rekey_session s3 old new r = (s3', r') ->
  creds_ok (credentials s3') /\
  (forall k c, cred_inner (credentials s3) !! k = Some c ->
     if bool_decide (sc_token_hash c = old)
     then exists c', cred_inner (credentials s3') !! k = Some c' /\ rebound (cred_keyring (credentials s3)) new c c'
     else cred_inner (credentials s3') !! k = Some c) /\
  cred_list_for_session (credentials s3') old = [] /\
  (forall id u, up_inner (uploads s3) !! id = Some u -> mu_token_hash u = old ->
     exists u', up_inner (uploads s3') !! id = Some u' /\ mu_token_hash u' = new /\
       forall part size etag, parts_of (record_part (uploads s3') u part size etag) u' =
         parts_of (record_part (uploads s3) u part size etag) u).
Proof.
  intros Hok Hne Hids E. unfold rekey_session in E.
  destruct (cred_rekey_session (credentials s3) old new r) as [[creds n] r1] eqn:Ec.
  injection E as <- <-. cbn [credentials uploads].
  unfold cred_rekey_session in Ec. apply rekey_all in Ec as (Hok' & Hk & _ & Hin & Hout).
  - assert (Hcases : forall k c, cred_inner (credentials s3) !! k = Some c ->
     if bool_decide (sc_token_hash c = old)
     then exists c', cred_inner creds !! k = Some c' /\ rebound (cred_keyring (credentials s3)) new c c'
     else cred_inner creds !! k = Some c).
    { intros k c Hc. assert (Hid : sc_access_key_id c = k) by exact (proj1 (Hok k c Hc)).
      case_bool_decide as Hh.
      - rewrite <- Hid. apply Hin. apply elem_of_session_creds; [done|]. by rewrite Hid.
      - rewrite Hout; [done|]. intros (d & Hd & Hdin)%list_elem_of_fmap.
        apply elem_of_session_creds in Hdin as [Hd1 Hd2]; [|done]. congruence. }
    split_and!; [done|exact Hcases| |].
    + apply elem_of_nil_inv. intros c Hc. apply elem_of_session_creds in Hc as [Hc Hh]; [|done].
      destruct (decide (sc_access_key_id c ∈ sc_access_key_id <$> cred_list_for_session (credentials s3) old)) as [Hi|Hi].
      * apply list_elem_of_fmap in Hi as (d & Hd & Hdin). destruct (Hin d Hdin) as (d' & Hd' & _ & Hnew & _).
        rewrite <- Hd, Hc in Hd'. congruence.
      * rewrite Hout in Hc by done. apply Hi, list_elem_of_fmap_2, elem_of_session_creds; done.
    + intros id u Hu Hh. exists (rebind_upload new u). split; [|done]. by apply up_rekey_lookup.
  - done.
  - by apply session_creds_NoDup.
  - intros c Hc. by apply elem_of_session_creds.
Qed.

(** ** Sweeping *)

Definition live (sessions : SessionStore) (h : bytes) (now : Z) : bool :=
  match inner sessions !! h with Some i => negb (is_expired i now) | None => false end.

Lemma get_active_live sessions h now :
  is_ok (fst (get_active sessions h now)) = live sessions h now /\
  forall h', live (snd (get_active sessions h now)) h' now = live sessions h' now.
Proof.
  unfold get_active, live. destruct (inner sessions !! h) as [i|] eqn:Hi; [|done].
  destruct (is_expired i now) eqn:He; cbn [fst snd is_ok negb]; [|done].
  split; [done|]. intros h'. cbn [inner with_inner]. destruct (decide (h' = h)) as [->|Hne].
  - by rewrite lookup_delete_eq, Hi, He.
  - by rewrite lookup_delete_ne.
Qed.

Lemma stale_credentials_spec now rows : forall sessions,
  let '(stale, sessions') := stale_credentials now rows sessions in
  stale = (filter (fun kc => (cred_is_expired kc.2 now || negb (live sessions (sc_token_hash kc.2) now)) = true) rows).*1 /\
  forall h, live sessions' h now = live sessions h now.
Proof.
  induction rows as [|[akid c] rows IH]; intros sessions; cbn [stale_credentials]; [done|].
  destruct (cred_is_expired c now) eqn:He.
  - specialize (IH sessions). destruct (stale_credentials now rows sessions) as [more s'].
    destruct IH as [-> Hl]. split; [|done]. rewrite filter_cons_True; [done|]. cbn. by rewrite He.
  - destruct (get_active_live sessions (sc_token_hash c) now) as [Hok Hpres].
    destruct (get_active sessions (sc_token_hash c) now) as [res s1]. cbn [fst snd] in *.
    specialize (IH s1). destruct (stale_credentials now rows s1) as [more s'].
    destruct IH as [-> Hl]. split; [|intros h; by rewrite Hl, Hpres].
    rewrite Hok. rewrite filter_cons. cbn [snd]. rewrite He. cbn [orb].
    assert (Hf : filter (fun kc => (cred_is_expired kc.2 now || negb (live s1 (sc_token_hash kc.2) now)) = true) rows =
                 filter (fun kc => (cred_is_expired kc.2 now || negb (live sessions (sc_token_hash kc.2) now)) = true) rows).
    { apply list_filter_iff. intros [k d]. cbn. by rewrite Hpres. }
    rewrite Hf. by destruct (live sessions (sc_token_hash c) now).
Qed.

Lemma map_to_list_filter_perm (P : string * S3Credential -> Prop) `{forall x, Decision (P x)} (m : gmap string S3Credential) :
  map_to_list (filter P m) ≡ₚ filter P (map_to_list m).
Proof.
  apply NoDup_Permutation; [apply NoDup_map_to_list | apply NoDup_filter, NoDup_map_to_list |].
  intros [k c]. rewrite list_elem_of_filter, !elem_of_map_to_list, map_lookup_filter_Some. tauto.
Qed.

(** The sweep of S3 credentials is exact: a credential survives it if and only if it
    has not expired and the session it is bound to is still live, and the count it reports
    is the number of credentials that went. *)
Theorem sweep_exact (st : S3CredentialStore) (sessions : SessionStore) (now : Z) (k : string) :
  let '(n, st', sessions') := cred_sweep st sessions now in
  cred_inner st' !! k =
    match cred_inner st !! k with
    | Some c => if negb (cred_is_expired c now) && live sessions (sc_token_hash c) now then Some c else None
    | None => None
    end /\
  n = Z.of_nat (size (cred_inner st)) - Z.of_nat (size (cred_inner st')) /\
  forall h, live sessions' h now = live sessions h now.
Proof.
  unfold cred_sweep. pose proof (stale_credentials_spec now (map_to_list (cred_inner st)) sessions) as Hs.
  destruct (stale_credentials now (map_to_list (cred_inner st)) sessions) as [stale s'].
  destruct Hs as [Hst Hl]. set (p := fun kc : string * S3Credential => _ = true) in Hst.
  assert (Hmap : foldl (fun m k => delete k m) (cred_inner st) stale = filter (fun kc => ~ p kc) (cred_inner st)).
  { apply map_eq. intros j. rewrite foldl_delete_creds, map_lookup_filter.
    destruct (decide (j ∈ stale)) as [Hin|Hin].
    - rewrite Hst in Hin. apply list_elem_of_fmap in Hin as ([j' c] & -> & Hin).
      apply list_elem_of_filter in Hin as [Hp Hin]. apply elem_of_map_to_list in Hin. cbn.
      rewrite Hin. cbn. rewrite option_guard_False; [done|]. intros H. by apply H.
    - destruct (cred_inner st !! j) as [c|] eqn:Hj; [|done]. cbn. rewrite option_guard_True; [done|].
      intros Hp. apply Hin. rewrite Hst. apply list_elem_of_fmap. exists (j, c). split; [done|].
      apply list_elem_of_filter. split; [done|]. by apply elem_of_map_to_list. }
  cbn [cred_inner with_creds]. rewrite Hmap. split_and!; [| |exact Hl].
  - rewrite map_lookup_filter. destruct (cred_inner st !! k) as [c|]; [|done]. cbn.
    assert (Hp : p (k, c) <-> negb (cred_is_expired c now) && live sessions (sc_token_hash c) now = false).
    { unfold p. cbn. rewrite orb_true_iff, negb_true_iff, andb_false_iff, negb_false_iff. done. }
    destruct (negb (cred_is_expired c now) && live sessions (sc_token_hash c) now).
    + by rewrite option_guard_True by (rewrite Hp; done).
    + by rewrite option_guard_False by (rewrite Hp; intros H; by apply H).
  - pose proof (map_filter_union_complement p (cred_inner st)) as Hu.
    rewrite <- Hu at 1. rewrite map_size_disj_union by apply map_disjoint_filter_complement.
    rewrite Nat2Z.inj_add. unfold blen. rewrite Hst, length_fmap.
    rewrite <- (length_map_to_list (filter p (cred_inner st))), (Permutation_length (map_to_list_filter_perm p (cred_inner st))).
    lia.
Qed.

End theorems.

(** ** Witnesses *)
Module S3Witness.
#[local] Existing Instances Toy.aead Toy.rng_ops Toy.token_ops Toy.range_ops Toy.base64 Toy.aead_laws Toy.rng_laws Toy.range_laws Toy.base64_laws.

Definition s3_key : MemoryKey := replicate 32 x05.
Definition s3_fresh : S3CredentialStore := credential_store_new s3_key 2.
Definition mint_once (r : @rng Toy.rng_ops) (st : S3CredentialStore) := cred_mint st [x01] "alice" 500 400 10 r.
Definition minted (r : @rng Toy.rng_ops) (st : S3CredentialStore) : S3CredentialStore :=
  match mint_once r st with Ok (_, _, st, _) => st | Err _ => st end.

Definition mint1 : string * string * S3CredentialStore * @rng Toy.rng_ops :=
  match mint_once 7 s3_fresh with Ok x => x | Err _ => (EmptyString, EmptyString, s3_fresh, 0) end.

Lemma s3_fresh_ok : creds_ok s3_fresh.
Proof. apply map_Forall_empty. Qed.

Lemma mint_bounded_witness :
  (length (cred_list_for_session mint1.1.2 [x01]) <= 2)%nat /\
  forall c, cred_inner mint1.1.2 !! mint1.1.1.1 = Some c -> sc_expires_at c <= 400 /\
    with_secret c (cred_keyring mint1.1.2) id = Ok (as_bytes mint1.1.1.2).
Proof.
  destruct (mint_bounded s3_fresh mint1.1.2 [x01] "alice" 500 400 10 (7 : @rng Toy.rng_ops) mint1.2 mint1.1.1.1 mint1.1.1.2)
    as (_ & Hlen & _ & Hc & _).
  - exact s3_fresh_ok.
  - vm_compute. discriminate.
  - vm_compute. reflexivity.
  - split; [exact Hlen|]. intros c Hin. destruct (Hc c Hin) as (_ & _ & ? & ?). auto.
Defined.

(** One credential and one upload under the old token. *)
Definition cred1 : S3Credential :=
  default (mkS3Credential EmptyString [] EmptyString (mkSealedSecret [] []) 0 0) (cred_inner mint1.1.2 !! mint1.1.1.1).
Definition upload1 : MultipartUpload * MultipartRegistry * @rng Toy.rng_ops :=
  match up_create (registry_new 4) (mkNewUpload "photos" "cat.jpg" [x01] "alice" empty) 10 (9 : @rng Toy.rng_ops) with
  | Ok x => x
  | Err _ => (mkMultipartUpload EmptyString EmptyString EmptyString [] EmptyString 0 empty 0, registry_new 4, 0)
  end.
Definition s3_old : S3State :=
  mkS3State (mkS3CredentialStore {[sc_access_key_id cred1 := cred1]} s3_key 2) upload1.1.2 (mkS3Config "us-east-1" 3600 0 0 900).
Definition s3_new : S3State * @rng Toy.rng_ops := rekey_session s3_old [x01] [x02] (20 : @rng Toy.rng_ops).

Lemma refresh_keeps_s3_witness :
  cred_list_for_session (credentials s3_new.1) [x01] = [] /\
  exists u', up_inner (uploads s3_new.1) !! mu_upload_id upload1.1.1 = Some u' /\ mu_token_hash u' = [x02] /\
    parts_of (record_part (uploads s3_new.1) upload1.1.1 1 5 "etag") u' =
    parts_of (record_part (uploads s3_old) upload1.1.1 1 5 "etag") upload1.1.1.
Proof.
  destruct (refresh_keeps_s3 s3_old [x01] [x02] (20 : @rng Toy.rng_ops) s3_new.2 s3_new.1) as (_ & _ & Hnone & Hup).
  - apply map_Forall_singleton. split; [reflexivity|]. eexists. split; [vm_compute; reflexivity|vm_compute; discriminate].
  - discriminate.
  - apply map_Forall_singleton. reflexivity.
  - vm_compute. reflexivity.
  - split; [exact Hnone|]. destruct (Hup (mu_upload_id upload1.1.1) upload1.1.1) as (u' & Hu & Ht & Hp); [vm_compute; reflexivity..|].
    exists u'. split; [exact Hu|]. split; [exact Ht|]. exact (Hp 1 5 "etag").
Defined.

End S3Witness.
