(* ===== verification/S3Auth.v ===== *)
(** * Authenticating S3 requests

    Models y2qd/src/s3/auth.rs, its error conversions in y2qd/src/s3/error.rs, and the
    leashed download of y2qd/src/s3/body/download.rs: a request is accepted when its
    signature was made with the secret of a live credential whose session is live, and a
    long transfer keeps checking that session.

    A request reads the clock in several places; each reading is an argument.  Times are
    nanoseconds.  [Arc::ptr_eq] compares session rows by address: the store is paired with
    the generation of each row, which changes when a row is replaced and not when its key
    cache changes, and the address of a row is its token hash with its generation.  The
    gateway's state and the session store are registered when the listener starts. *)

From S2P Require Import Prelude Effects Lex Primitives Types Crypto Session Locks Upload SigV4 HttpDate S3State.

(** ** Errors *)

Definition access_denied (message : string) : S3Error := mkS3Error "AccessDenied" 403 message.
Definition invalid_access_key_id : S3Error := mkS3Error "InvalidAccessKeyId" 403 "The access key id you provided does not exist.".
Definition expired_token (message : string) : S3Error := mkS3Error "ExpiredToken" 400 message.
Definition authorization_header_malformed (message : string) : S3Error := mkS3Error "AuthorizationHeaderMalformed" 400 message.
Definition request_time_too_skewed : S3Error := mkS3Error "RequestTimeTooSkewed" 403 "The difference between the request time and the current time is too large.".
Definition internal_error : S3Error := mkS3Error "InternalError" 500 "We encountered an internal error. Please try again.".

(** A text in double quotes *)
Definition quoted (s : string) : string := let q := String (Ascii.ascii_of_nat 34) EmptyString in q +:+ s +:+ q.

Definition SigV4Error_display (e : SigV4Error) : string :=
  match e with
  | NoCredentials => "no Authorization header or X-Amz-* query credentials present"
  | MalformedHeader => "malformed Authorization header"
  | UnsupportedAlgorithm => "unsupported signing algorithm"
  | MalformedScope => "malformed credential scope"
  | MissingHostHeader => "SignedHeaders must include host"
  | MalformedDate => "malformed or missing X-Amz-Date"
  | MalformedExpires => "malformed or missing X-Amz-Expires"
  end.
Definition from_SigV4Error (e : SigV4Error) : S3Error :=
  match e with
  | NoCredentials => access_denied "Access Denied"
  | UnsupportedAlgorithm => authorization_header_malformed "Unsupported signing algorithm."
  | _ => authorization_header_malformed (SigV4Error_display e)
  end.
Definition from_AuthError (e : AuthError) : S3Error :=
  match e with
  | TokenExpired | TokenInvalid => expired_token "The provided token has expired."
  | TokenMissing | AuthForbidden | AccountDisabled => access_denied "Access Denied"
  | S3CredentialUnknown => invalid_access_key_id
  | _ => internal_error
  end.

(** ** Session rows and their addresses *)

Record Rows : Type := mkRows { rw_store : SessionStore; rw_gens : gmap bytes Z; rw_next : Z }.
Definition row_gen (w : Rows) (token_hash : bytes) : option Z := rw_gens w !! token_hash.

Record SessionLeash : Type := mkSessionLeash {
  sl_token_hash : bytes;
  sl_session : Z;
  bytes_since_check : Z;
  last_check : Z;
  recheck_bytes : Z;
  recheck_interval : Z;
}.

(** The store after a read: a dropped row has no generation any more. *)
Definition after_read (w : Rows) (st : SessionStore) : Rows :=
  mkRows st (filter (fun kv => is_Some (inner st !! kv.1)) (rw_gens w)) (rw_next w).

Definition leash_force (l : SessionLeash) (w : Rows) (now mono : Z) : result S3Error SessionLeash * Rows :=
  let '(res, st) := get_active (rw_store w) (sl_token_hash l) now in
  let w := after_read w st in
  (match res with
   | Err _ => Err (expired_token "session expired during transfer")
   | Ok _ =>
       if negb (bool_decide (row_gen w (sl_token_hash l) = Some (sl_session l))) then Err (expired_token "session changed during transfer")
       else Ok (mkSessionLeash (sl_token_hash l) (sl_session l) (bytes_since_check l) mono (recheck_bytes l) (recheck_interval l))
   end, w).

(** The counter is kept also when the check fails. *)
Definition leash_note (l : SessionLeash) (n : Z) (w : Rows) (now mono : Z) : result S3Error unit * SessionLeash * Rows :=
  let l := mkSessionLeash (sl_token_hash l) (sl_session l) ((bytes_since_check l + n) mod 2 ^ 64) (last_check l) (recheck_bytes l) (recheck_interval l) in
  if (recheck_bytes l <=? bytes_since_check l) || (recheck_interval l <=? Z.max 0 (mono - last_check l)) then
    let '(res, w) := leash_force l w now mono in
    match res with
    | Err e => (Err e, l, w)
    | Ok l => (Ok tt, mkSessionLeash (sl_token_hash l) (sl_session l) 0 (last_check l) (recheck_bytes l) (recheck_interval l), w)
    end
  else (Ok tt, l, w).
Definition leash_checkpoint (l : SessionLeash) (w : Rows) (now mono : Z) : result S3Error SessionLeash * Rows := leash_force l w now mono.

(** [LeashedDownload::poll_next] on what the inner stream yields. *)
Definition poll_leashed (from_app : Error -> S3Error) (item : option (result Error bytes)) (l : SessionLeash) (w : Rows) (now mono : Z)
  : option (result S3Error bytes) * SessionLeash * Rows :=
  match item with
  | Some (Ok chunk) =>
      match leash_note l (blen chunk) w now mono with
      | (Ok _, l, w) => (Some (Ok chunk), l, w)
      | (Err e, l, w) => (Some (Err e), l, w)
      end
  | Some (Err e) => (Some (Err (from_app e)), l, w)
  | None => (None, l, w)
  end.

(** ** Requests *)

Record HttpRequest : Type := mkHttpRequest {
  rq_method : bytes;
  rq_path : bytes;
  rq_query : bytes;
  rq_headers : HeaderMap;
  rq_original_uri : option bytes;
}.
Record ChunkSigning : Type := mkChunkSigning { ch_signing_key : bytes; ch_scope : bytes; ch_amz_date : bytes; ch_seed_signature : bytes }.
Record S3Authenticated : Type := mkS3Authenticated { sa_auth : Authenticated; sa_leash : SessionLeash; sa_chunk_signing : option ChunkSigning; sa_payload : PayloadHash }.

(** [s.get(0..n).unwrap_or("")] *)
Definition str_prefix (n : nat) (s : bytes) : bytes :=
  if (n <=? length s)%nat && match s !! n with Some b => negb (cont b) | None => true end then take n s else [].
Definition request_parts (req : HttpRequest) (p : SignedRequest) : RequestParts :=
  mkRequestParts (rq_method req) (default (rq_path req) (rq_original_uri req)) (rq_query req) (rq_headers req)
    (default [] (get_str (rq_headers req) (as_bytes "host"))) (signed_headers p) (payload_hash_token (payload p)).

Section verify.
Context {A : AeadOps} {R : RngOps} {HO : HashOps} {T : TokenOps}.

(** Steps 1 to 3: what the request says, and when it says it was signed. *)
Definition check_scope (cfg : S3Config) (req : HttpRequest) (now : Z) : result S3Error (SignedRequest * Z) :=
  match parse (rq_query req) (rq_headers req) with
  | Err e => Err (from_SigV4Error e)
  | Ok parsed =>
      let scope := sr_scope parsed in
      if negb (bool_decide (cs_service scope = as_bytes "s3")) then
        Err (authorization_header_malformed ("credential scope service must be " +:+ quoted "s3"))
      else if negb (bool_decide (cs_region scope = as_bytes (s3_region cfg))) then
        Err (authorization_header_malformed ("credential scope region " +:+ quoted (String.string_of_list_byte (cs_region scope))
               +:+ " does not match this endpoint's region " +:+ quoted (s3_region cfg)))
      else if negb (bool_decide (cs_date scope = str_prefix 8 (amz_date parsed))) then
        Err (authorization_header_malformed "credential scope date does not match X-Amz-Date")
      else
      match parse_amz_date (amz_date parsed) with
      | Err _ => Err (authorization_header_malformed "malformed X-Amz-Date")
      | Ok secs =>
          let request_time := secs * 1000000000 in
          let skewed := max_clock_skew_secs cfg <? Z.abs (now - request_time) / 1000000000 in
          if bool_decide (presigned_expires parsed = None) && skewed then Err request_time_too_skewed
          else Ok (parsed, request_time)
      end
  end.

(** Step 8 *)
Definition check_presigned (parsed : SignedRequest) (request_time now : Z) (cred : S3Credential) (session : SessionInfo) : result S3Error unit :=
  match presigned_expires parsed with
  | None => Ok tt
  | Some expires_secs =>
      if negb ((1 <=? expires_secs) && (expires_secs <=? 604800)) then
        Err (authorization_header_malformed "X-Amz-Expires must be between 1 and 604800 seconds")
      else
      let url_expiry := request_time + expires_secs * 1000000000 in
      let effective := Z.min (Z.min url_expiry (sc_expires_at cred)) (si_expires_at session) in
      if effective <=? now then Err (access_denied "Request has expired") else Ok tt
  end.

(** Step 9: the signing key, if the signature is right. *)
Definition request_signature (key : bytes) (req : HttpRequest) (parsed : SignedRequest) : bytes :=
  hex_hmac_sha256 key (string_to_sign (amz_date parsed) (scope_string (sr_scope parsed)) (request_text (request_parts req parsed))).
Definition check_signature (req : HttpRequest) (parsed : SignedRequest) (cred : S3Credential) (kr : MemoryKey) : result S3Error bytes :=
  let scope := sr_scope parsed in
  match with_secret cred kr (fun secret => signing_key secret (cs_date scope) (cs_region scope) (cs_service scope)) with
  | Err e => Err (from_AuthError e)
  | Ok key => if signatures_match (request_signature key req parsed) (signature parsed) then Ok key else Err signature_does_not_match
  end.

Definition build (s3 : S3State) (parsed : SignedRequest) (cred : S3Credential) (auth : Authenticated) (gen key_mono : Z) (key : bytes) : S3Authenticated :=
  mkS3Authenticated auth
    (mkSessionLeash (sc_token_hash cred) gen 0 key_mono (session_recheck_bytes (s3_config s3)) (session_recheck_interval_secs (s3_config s3) * 1000000000))
    (match payload parsed with
     | StreamingSigned _ => Some (mkChunkSigning key (scope_string (sr_scope parsed)) (amz_date parsed) (signature parsed))
     | _ => None
     end)
    (payload parsed).

Definition without_credential (s3 : S3State) (akid : string) : S3State := mkS3State (snd (cred_remove (credentials s3) akid)) (uploads s3) (s3_config s3).

(** [verify]; [now] is read before the credential is looked up, [now_auth] by the session
    check, [mono] when the leash is built. *)
Definition verify (s3 : S3State) (w : Rows) (enforce : bool) (req : HttpRequest) (now now_auth mono : Z) : result S3Error S3Authenticated * S3State * Rows :=
  match check_scope (s3_config s3) req now with
  | Err e => (Err e, s3, w)
  | Ok (parsed, request_time) =>
      let akid := String.string_of_list_byte (access_key_id (sr_scope parsed)) in
      match cred_get (credentials s3) akid with
      | None => (Err invalid_access_key_id, s3, w)
      | Some cred =>
          if cred_is_expired cred now then (Err (expired_token "credential has expired"), without_credential s3 akid, w) else
          let '(res, st) := authenticate_token_hash (rw_store w) enforce (sc_token_hash cred) now_auth in
          let w := after_read w st in
          match res with
          | Err e => (Err (from_AuthError e), match e with AccountDisabled => s3 | _ => without_credential s3 akid end, w)
          | Ok auth =>
              (_ ← check_presigned parsed request_time now cred (au_session auth);
               key ← check_signature req parsed cred (cred_keyring (credentials s3));
               Ok (build s3 parsed cred auth (default 0 (row_gen w (sc_token_hash cred))) mono key), s3, w)
          end
      end
  end.

Definition verify_buffered_payload (p : PayloadHash) (body : bytes) : result S3Error unit :=
  match p with
  | Exact expected => if bool_decide (sha256_hex body = expected) then Ok tt else Err x_amz_content_sha256_mismatch
  | Unsigned => Ok tt
  | StreamingSigned _ | StreamingUnsigned => Err (invalid_request "aws-chunked payload encoding is not supported for this operation")
  end.
End verify.
