(* ===== verification/S3AuthSpec.v ===== *)
(** * What an accepted S3 request proves

    The conditions under which [verify] accepts are exactly those its documentation names;
    a signature belongs to one request; and a transfer whose session has gone moves less
    than one re-check's worth of bytes. *)

From stdpp Require Import relations.
From S2P Require Import Prelude Effects Lex Primitives Types Crypto Session Locks Upload SigV4 SigV4Spec HttpDate S3State S3Auth.

Section spec.
Context {A : AeadOps} {R : RngOps} {HO : HashOps} {T : TokenOps}.

(** When a request is fresh: a header-signed one by the clock, a presigned one by the
    earliest of its own window, its credential and its session. *)
Definition fresh (cfg : S3Config) (parsed : SignedRequest) (request_time now : Z) (cred : S3Credential) (session : SessionInfo) : Prop :=
  match presigned_expires parsed with
  | None => Z.abs (now - request_time) < (max_clock_skew_secs cfg + 1) * 1000000000
  | Some e => 1 <= e <= 604800 /\ now < request_time + e * 1000000000 /\ now < si_expires_at session
  end.

(** Everything acceptance rests on. *)
Record admitted (s3 : S3State) (w : Rows) (enforce : bool) (req : HttpRequest) (now now_auth : Z)
    (parsed : SignedRequest) (secs : Z) (cred : S3Credential) (session : SessionInfo) (secret : bytes) : Prop := {
  ad_parsed : parse (rq_query req) (rq_headers req) = Ok parsed;
  ad_service : cs_service (sr_scope parsed) = as_bytes "s3";
  ad_region : cs_region (sr_scope parsed) = as_bytes (s3_region (s3_config s3));
  ad_date : cs_date (sr_scope parsed) = str_prefix 8 (amz_date parsed);
  ad_time : parse_amz_date (amz_date parsed) = Ok secs;
  ad_fresh : fresh (s3_config s3) parsed (secs * 1000000000) now cred session;
  ad_cred : cred_get (credentials s3) (String.string_of_list_byte (access_key_id (sr_scope parsed))) = Some cred;
  ad_cred_live : now < sc_expires_at cred;
  ad_session : inner (rw_store w) !! sc_token_hash cred = Some session;
  ad_session_live : now_auth < si_expires_at session;
  ad_enabled : enforce = true -> si_role session <> Disabled;
  ad_secret : open_s3_secret (cred_keyring (credentials s3)) (sc_token_hash cred) (sc_access_key_id cred) (sc_secret cred) = Ok secret;
  ad_signature : signature parsed = request_signature (signing_key secret (cs_date (sr_scope parsed)) (cs_region (sr_scope parsed)) (cs_service (sr_scope parsed))) req parsed;
}.

Lemma signatures_match_true e p : signatures_match e p = true <-> e = p.
Proof. unfold signatures_match. destruct (Z.eqb_spec (blen e) (blen p)); cbn [negb]; [apply bool_decide_eq_true|]. split; [done|]. by intros ->. Qed.

(** The steps, each as what it requires. *)
Lemma check_scope_ok cfg req now parsed request_time :
  check_scope cfg req now = Ok (parsed, request_time) <->
  parse (rq_query req) (rq_headers req) = Ok parsed /\ cs_service (sr_scope parsed) = as_bytes "s3" /\ cs_region (sr_scope parsed) = as_bytes (s3_region cfg) /\
  cs_date (sr_scope parsed) = str_prefix 8 (amz_date parsed) /\
  exists secs, parse_amz_date (amz_date parsed) = Ok secs /\ request_time = secs * 1000000000 /\
    (presigned_expires parsed = None -> Z.abs (now - request_time) < (max_clock_skew_secs cfg + 1) * 1000000000).
Proof.
  unfold check_scope. destruct (parse _ _) as [p|e] eqn:Ep; [|split; [done|by intros [? _]]].
  destruct (bool_decide_reflect (cs_service (sr_scope p) = as_bytes "s3")) as [Hs|Hs]; cbn [negb]; [|split; [done|by intros ([= <-] & ? & _)]].
  destruct (bool_decide_reflect (cs_region (sr_scope p) = as_bytes (s3_region cfg))) as [Hr|Hr]; cbn [negb]; [|split; [done|by intros ([= <-] & ? & ? & _)]].
  destruct (bool_decide_reflect (cs_date (sr_scope p) = str_prefix 8 (amz_date p))) as [Hd|Hd]; cbn [negb]; [|split; [done|by intros ([= <-] & ? & ? & ? & _)]].
  destruct (parse_amz_date (amz_date p)) as [secs|e] eqn:Et; [|split; [done|intros ([= <-] & _ & _ & _ & ? & ? & _); congruence]].
  assert (Hskew : forall x, (max_clock_skew_secs cfg <? x / 1000000000) = false <-> x < (max_clock_skew_secs cfg + 1) * 1000000000).
  { intros x. rewrite Z.ltb_ge. pose proof (Z.div_mod x 1000000000). pose proof (Z.mod_pos_bound x 1000000000). split; intros; nia. }
  destruct (bool_decide_reflect (presigned_expires p = None)) as [Hn|Hn]; cbn [andb].
  - destruct (_ <? _) eqn:E; split; [done| | |].
    + intros ([= <-] & _ & _ & _ & secs' & Es & -> & Hlt). assert (secs' = secs) as -> by congruence. specialize (Hlt Hn). apply Hskew in Hlt. congruence.
    + intros [= <- <-]. split_and!; [done..|]. exists secs. split_and!; [done|done|]. intros _. by apply Hskew.
    + intros ([= <-] & _ & _ & _ & secs' & Es & -> & Hlt). congruence.
  - split; [intros [= <- <-]; split_and!; [done..|]; by exists secs|]. intros ([= <-] & _ & _ & _ & secs' & Es & -> & Hlt). congruence.
Qed.

Lemma check_presigned_ok parsed rt now cred session : now < sc_expires_at cred ->
  (check_presigned parsed rt now cred session = Ok tt <->
   match presigned_expires parsed with None => True | Some e => 1 <= e <= 604800 /\ now < rt + e * 1000000000 /\ now < si_expires_at session end).
Proof.
  intros Hc. unfold check_presigned. destruct (presigned_expires parsed) as [e|]; [|done].
  destruct (Z.leb_spec 1 e), (Z.leb_spec e 604800); cbn [andb negb]; [|split; [done|lia]..].
  destruct (Z.leb_spec (Z.min (Z.min (rt + e * 1000000000) (sc_expires_at cred)) (si_expires_at session)) now); split; try done; lia.
Qed.

Lemma check_signature_ok req parsed cred kr key :
  check_signature req parsed cred kr = Ok key <->
  exists secret, open_s3_secret kr (sc_token_hash cred) (sc_access_key_id cred) (sc_secret cred) = Ok secret /\
    key = signing_key secret (cs_date (sr_scope parsed)) (cs_region (sr_scope parsed)) (cs_service (sr_scope parsed)) /\ signature parsed = request_signature key req parsed.
Proof.
  unfold check_signature, with_secret. destruct (open_s3_secret _ _ _ _) as [secret|e]; cbn [mbind result_bind]; [|split; [done|by intros (? & ? & _)]].
  destruct (signatures_match _ _) eqn:E.
  - apply signatures_match_true in E. split; [intros [= <-]; by exists secret|]. by intros (? & [= <-] & -> & _).
  - split; [done|]. intros (? & [= <-] & -> & Es). symmetry in Es. apply signatures_match_true in Es. congruence.
Qed.

Lemma authenticate_ok st enforce h now auth st' :
  authenticate_token_hash st enforce h now = (Ok auth, st') <->
  exists session, inner st !! h = Some session /\ now < si_expires_at session /\ (enforce = true -> si_role session <> Disabled) /\
    st' = st /\ auth = mkAuthenticated (si_username session) (si_role session) h session enforce.
Proof.
  unfold authenticate_token_hash, get_active, is_expired. destruct (inner st !! h) as [i|]; cbn; [|split; [done|by intros (? & ? & _)]].
  destruct (Z.leb_spec (si_expires_at i) now); cbn; [split; [done|intros (? & [= <-] & ? & _); lia]|].
  destruct (enforce && _) eqn:E.
  - split; [done|]. intros (? & [= <-] & _ & Hne & _). apply andb_true_iff in E as [-> ?%bool_decide_eq_true]. by destruct Hne.
  - split; [|by intros (? & [= <-] & _ & _ & -> & ->)]. intros [= <- <-]. exists i. split_and!; try done. intros -> ?. by rewrite bool_decide_eq_true_2 in E.
Qed.

Lemma row_gen_read w st h : is_Some (inner st !! h) -> row_gen (after_read w st) h = row_gen w h.
Proof. intros Hs. unfold row_gen, after_read. cbn [rw_gens]. destruct (rw_gens w !! h) eqn:E; [by apply map_lookup_filter_Some|]. apply map_lookup_filter_None. by left. Qed.

Definition admitted_result (s3 : S3State) (w : Rows) (enforce : bool) (mono : Z) (parsed : SignedRequest) (cred : S3Credential) (session : SessionInfo) (secret : bytes) : S3Authenticated :=
  build s3 parsed cred (mkAuthenticated (si_username session) (si_role session) (sc_token_hash cred) session enforce)
    (default 0 (row_gen w (sc_token_hash cred))) mono (signing_key secret (cs_date (sr_scope parsed)) (cs_region (sr_scope parsed)) (cs_service (sr_scope parsed))).

Lemma verify_admits s3 w enforce req now now_auth mono a :
  (verify s3 w enforce req now now_auth mono).1.1 = Ok a <->
  exists parsed secs cred session secret, admitted s3 w enforce req now now_auth parsed secs cred session secret /\ a = admitted_result s3 w enforce mono parsed cred session secret.
Proof.
  unfold verify. destruct (check_scope _ _ _) as [[parsed rt]|e] eqn:Esc.
  2:{ split; [done|]. intros (parsed & secs & cred & session & secret & [] & _). exfalso. enough (check_scope (s3_config s3) req now = Ok (parsed, secs * 1000000000)) by congruence.
      apply check_scope_ok. split_and!; [done..|]. exists secs. split_and!; [done|done|]. unfold fresh in ad_fresh0. by destruct (presigned_expires parsed). }
  apply check_scope_ok in Esc as (Ep & Hsv & Hrg & Hdt & secs & Et & -> & Hskew).
  destruct (cred_get _ _) as [cred|] eqn:Ec; [|split; [done|]; intros (parsed' & ? & ? & ? & ? & [] & _); congruence].
  unfold cred_is_expired. destruct (Z.leb_spec (sc_expires_at cred) now) as [Hx|Hx]; [split; [done|]; intros (parsed' & ? & ? & ? & ? & [] & _); assert (parsed' = parsed) as -> by congruence; simplify_eq; lia|].
  destruct (authenticate_token_hash _ _ _ _) as [[auth|e] st] eqn:Ea; cbn [fst].
  2:{ split; [done|]. intros (parsed' & secs' & cred' & session & secret & [] & _). exfalso. assert (parsed' = parsed) as -> by congruence. assert (cred' = cred) as -> by congruence.
      enough (authenticate_token_hash (rw_store w) enforce (sc_token_hash cred) now_auth = (Ok (mkAuthenticated (si_username session) (si_role session) (sc_token_hash cred) session enforce), rw_store w)) by congruence.
      apply authenticate_ok. by exists session. }
  apply authenticate_ok in Ea as (session & Hs & Hlive & Hen & -> & ->). cbn [au_session].
  assert (Hpre := check_presigned_ok parsed (secs * 1000000000) now cred session Hx). rewrite row_gen_read by (by exists session).
  assert (Hfresh : check_presigned parsed (secs * 1000000000) now cred session = Ok tt <-> fresh (s3_config s3) parsed (secs * 1000000000) now cred session).
  { rewrite Hpre. unfold fresh. destruct (presigned_expires parsed); [done|]. split; [by intros _; apply Hskew|done]. }
  clear Hpre. split.
  - destruct (check_presigned _ _ _ _ _) as [[]|e]; [|done]. cbn [mbind result_bind]. destruct (check_signature _ _ _ _) as [key|e] eqn:Eg; [|done]. cbn [mbind result_bind]. intros [= <-].
    apply check_signature_ok in Eg as (secret & Eo & -> & Esig). exists parsed, secs, cred, session, secret. split; [|done]. split; try done. by apply Hfresh.
  - intros (parsed' & secs' & cred' & session' & secret & [] & ->). assert (parsed' = parsed) as -> by congruence. assert (secs' = secs) as -> by congruence. assert (cred' = cred) as -> by congruence. assert (session' = session) as -> by congruence.
    rewrite (proj2 Hfresh ad_fresh0). cbn [mbind result_bind].
    erewrite (proj2 (check_signature_ok _ _ _ _ _)); [|by exists secret]. done.
Qed.

(** C4: a request is accepted exactly under the conditions of the security contract: its
    scope names this service, this region and the date it was signed on; it is fresh by the
    clock, or a presigned link inside its own window and its session's; its credential
    exists and has not expired; the session behind it is live and, where authorization is
    enforced, enabled; and its signature is the one the credential's secret makes of the
    canonical request. What is then returned is that session's identity, with a leash on
    the row it was found in. *)
Theorem verify_exact (s3 : S3State) (w : Rows) (enforce : bool) (req : HttpRequest) (now now_auth mono : Z) (a : S3Authenticated) :
  (verify s3 w enforce req now now_auth mono).1.1 = Ok a <->
  exists parsed secs cred session secret, admitted s3 w enforce req now now_auth parsed secs cred session secret /\ a = admitted_result s3 w enforce mono parsed cred session secret.
Proof. apply verify_admits. Qed.

(** ** One signature, one request *)

(** Two messages with the same digest, or with the same code under keys of this length. *)
Definition sha256_collision : Prop := exists x y, x <> y /\ sha256 x = sha256 y.
Definition hmac_collision : Prop := exists k m k' m', blen k = 32 /\ blen k' = 32 /\ m <> m' /\ hmac_sha256 k m = hmac_sha256 k' m'.

Lemma hex_char_inj a b : hex_encode [a] = hex_encode [b] -> a = b.
Proof.
  assert (H : forall x, (h1 ← hex_digit_value (nth 0 (hex_encode [x]) x00); h2 ← hex_digit_value (nth 1 (hex_encode [x]) x00); Some (byte_of_Z (h1 * 16 + h2))) = Some x) by (intros x; destruct x; reflexivity).
  intros E. pose proof (H a) as Ha. rewrite E, H in Ha. by injection Ha.
Qed.
Lemma hex_encode_inj a b : hex_encode a = hex_encode b -> a = b.
Proof.
  revert b. induction a as [|x a IH]; intros [|y b] E; [done|done|done|]. change (hex_encode (x :: a)) with (hex_encode [x] ++ hex_encode a) in E. change (hex_encode (y :: b)) with (hex_encode [y] ++ hex_encode b) in E.
  apply app_inj_1 in E as [E1 E2]; [|done]. by rewrite (hex_char_inj x y E1), (IH b E2).
Qed.

Lemma amz_date_text s secs : parse_amz_date s = Ok secs -> length s = 16%nat /\ length (str_prefix 8 s) = 8%nat.
Proof.
  unfold parse_amz_date. destruct (Z.eqb_spec (blen s) 16) as [El|]; [|done]. unfold blen in El. assert (Hl : length s = 16%nat) by lia. cbn [negb orb].
  case_bool_decide as E8; [|done]. intros _. split; [done|]. unfold str_prefix. rewrite Hl. cbn [Nat.leb andb].
  do 9 (destruct s as [|? s]; [done|]). cbv in E8. injection E8 as ->. done.
Qed.

(** One step of a parser that succeeded. *)
Tactic Notation "parse_step" ident(x) ident(E) := match goal with |- ?m ≫= _ = Ok _ -> _ => destruct m as [x|] eqn:E; [cbn [mbind result_bind]|done] end.
Lemma ok_or_Ok {V E} (o : option V) (e : E) v : ok_or o e = Ok v -> o = Some v.
Proof. destruct o; cbn; congruence. Qed.

Lemma get_str_free h name v : get_str h name = Some v -> free lf v.
Proof. unfold get_str. destruct (head _) as [u|]; cbn; [apply to_str_free|done]. Qed.
Lemma signed_names s names : parse_signed_headers s = Ok names -> names <> [] /\ Forall (free x3b) names /\ (free lf s -> Forall (free lf) names).
Proof.
  unfold parse_signed_headers. case_bool_decide; [|done]. intros [= <-]. split_and!.
  - by intros ?%fmap_nil_inv%split_nonempty.
  - apply Forall_fmap. eapply Forall_impl; [apply split_frees|]. intros x Hx. by apply lowercase_free.
  - intros Hs. apply Forall_fmap. eapply Forall_impl; [by apply split_free_all|]. intros x Hx. by apply lowercase_free.
Qed.
Lemma auth_fields_free parts acc f : Forall (free lf) parts -> (forall v, af_signed acc = Some v -> free lf v) -> auth_fields parts acc = Ok f -> forall v, af_signed f = Some v -> free lf v.
Proof.
  revert acc. induction parts as [|part parts IH]; intros acc Hp Hacc; cbn [auth_fields]; [by intros [= <-]|]. apply Forall_cons in Hp as [Hpart Hparts].
  destruct (split_once x3d (trim part)) as [[k v]|] eqn:E; [|done]. cbn [ok_or mbind result_bind]. apply (split_once_free lf) in E as [_ Hv]; [|by apply trim_free].
  apply IH; [done|]. intros u. unfold auth_field. repeat case_bool_decide; cbn [af_signed]; auto. by intros [= <-].
Qed.
Lemma declared_token_free headers : free lf (payload_hash_token (declared_payload headers)).
Proof.
  assert (Hc : Forall (free lf) [UNSIGNED_PAYLOAD; STREAMING_SIGNED; STREAMING_SIGNED_TRAILER; STREAMING_UNSIGNED_TRAILER]) by (eapply (@bool_decide_eq_true_1 _ (Forall_dec _ _)); vm_compute; reflexivity).
  rewrite !Forall_cons in Hc. destruct Hc as (H1 & H2 & H3 & H4 & _). unfold declared_payload. destruct (get_str _ _) as [v|] eqn:E; [|done]. apply get_str_free in E.
  unfold classify_payload_hash. repeat (case_bool_decide; [done|]). by apply lowercase_free.
Qed.
Lemma signed_names_ok query headers parsed : parse query headers = Ok parsed ->
  signed_headers parsed <> [] /\ Forall (free x3b) (signed_headers parsed) /\ free lf (payload_hash_token (payload parsed)) /\
  (is_Some (get_str headers (as_bytes "authorization")) -> Forall (free lf) (signed_headers parsed)).
Proof.
  assert (Hu : free lf UNSIGNED_PAYLOAD) by (eapply (@bool_decide_eq_true_1 _ _); vm_compute; reflexivity).
  unfold parse. destruct (get_str headers (as_bytes "authorization")) as [auth|] eqn:Ea.
  - apply get_str_free in Ea. unfold parse_header_auth. parse_step ar Es. destruct ar as [algorithm rest]. apply ok_or_Ok, (split_once_free lf) in Es as [_ Hrest]; [|done]. case_bool_decide; [|done]. cbn [negb].
    parse_step f Ef. parse_step cr' Ec. parse_step scope Esc. parse_step sh Esh. parse_step names En. parse_step sig Eg. parse_step date Ed. intros [= <-]. cbn [signed_headers payload].
    apply signed_names in En as (H1 & H2 & H3). split_and!; [done|done|case_bool_decide; [apply declared_token_free|done]|]. intros _. apply H3. apply ok_or_Ok in Esh.
    refine (auth_fields_free _ _ _ _ _ Ef sh Esh); [by apply split_free_all|done].
  - unfold parse_presigned. cbv zeta. parse_step algorithm Eal. case_bool_decide; [|done]. cbn [negb]. parse_step cr' Ec. parse_step scope Esc. parse_step sh Esh. parse_step names En.
    parse_step sig Eg. parse_step date Ed. parse_step e Ee. parse_step e' Ee'. intros [= <-]. cbn [signed_headers payload]. apply signed_names in En as (H1 & H2 & _).
    split_and!; [done|done|apply declared_token_free|by intros []].
Qed.

(** The method and the signed header names are single lines: a method is a token, and the
    names of a request signed in its Authorization header always are. *)
Definition one_line (req : HttpRequest) : Prop :=
  free lf (rq_method req) /\ (is_Some (get_str (rq_headers req) (as_bytes "authorization")) \/ forall parsed, parse (rq_query req) (rq_headers req) = Ok parsed -> Forall (free lf) (signed_headers parsed)).
Lemma request_parts_ok req parsed : one_line req -> parse (rq_query req) (rq_headers req) = Ok parsed -> parts_ok (request_parts req parsed).
Proof.
  intros [Hm Hn] Hp. destruct (signed_names_ok _ _ _ Hp) as (H1 & H2 & H3 & H4). split; cbn [rp_method rp_host rp_signed rp_token request_parts]; [done| | |done|done].
  - destruct (get_str (rq_headers req) (as_bytes "host")) eqn:E; [by eapply get_str_free|apply not_elem_of_nil].
  - apply Forall_forall. intros n Hin. split; [|by apply (proj1 (Forall_forall _ _) H2)]. destruct Hn as [Hn|Hn]; [apply (proj1 (Forall_forall _ _) (H4 Hn))|apply (proj1 (Forall_forall _ _) (Hn _ Hp))]; done.
Qed.

Lemma scope_text s3 w en req now na parsed secs cred session secret : admitted s3 w en req now na parsed secs cred session secret ->
  scope_string (sr_scope parsed) = str_prefix 8 (amz_date parsed) ++ [x2f] ++ as_bytes (s3_region (s3_config s3)) ++ [x2f] ++ as_bytes "s3" ++ [x2f] ++ aws4_request.
Proof. intros []. unfold scope_string. by rewrite ad_date0, ad_region0, ad_service0. Qed.

(** C19: a signature belongs to one request. Two requests that this gateway accepts with the
    same signature were signed at the same time and agree on the method, the path, the
    parameters, the signed headers with their values, and the payload token; otherwise they
    exhibit a collision of SHA-256 or of HMAC-SHA-256. *)
Theorem signature_binds_request {HL : HashLaws} (s3 s3' : S3State) (w w' : Rows) (en en' : bool) (req req' : HttpRequest) (now now' na na' mono mono' : Z)
    (a a' : S3Authenticated) (parsed parsed' : SignedRequest) :
  s3_region (s3_config s3) = s3_region (s3_config s3') ->
  one_line req -> one_line req' ->
  parse (rq_query req) (rq_headers req) = Ok parsed -> parse (rq_query req') (rq_headers req') = Ok parsed' ->
  (verify s3 w en req now na mono).1.1 = Ok a -> (verify s3' w' en' req' now' na' mono').1.1 = Ok a' ->
  signature parsed = signature parsed' ->
  (amz_date parsed = amz_date parsed' /\ same_signed (request_parts req parsed) (request_parts req' parsed')) \/ sha256_collision \/ hmac_collision.
Proof.
  intros Hreg Hl Hl' Hp Hp' Hv Hv' Hsig. apply verify_admits in Hv as (p & secs & cred & session & secret & Had & _), Hv' as (p' & secs' & cred' & session' & secret' & Had' & _).
  assert (p = parsed) as -> by (destruct Had; congruence). assert (p' = parsed') as -> by (destruct Had'; congruence).
  pose proof (scope_text _ _ _ _ _ _ _ _ _ _ _ Had) as Es. pose proof (scope_text _ _ _ _ _ _ _ _ _ _ _ Had') as Es'. rewrite <- Hreg in Es'.
  destruct (amz_date_text _ _ (ad_time _ _ _ _ _ _ _ _ _ _ _ Had)) as [Hd Hd8], (amz_date_text _ _ (ad_time _ _ _ _ _ _ _ _ _ _ _ Had')) as [Hd' Hd8'].
  rewrite (ad_signature _ _ _ _ _ _ _ _ _ _ _ Had), (ad_signature _ _ _ _ _ _ _ _ _ _ _ Had') in Hsig. unfold request_signature, hex_hmac_sha256 in Hsig. apply hex_encode_inj in Hsig.
  match type of Hsig with hmac_sha256 ?k ?m = hmac_sha256 ?k' ?m' => destruct (decide (m = m')) as [Em|Hne]; [|right; right; exists k, m, k', m'; split_and!; [apply hmac_sha256_len|apply hmac_sha256_len|done|done]] end.
  unfold string_to_sign in Em. apply app_inv_head, app_inv_head in Em. apply app_inj_1 in Em as [Ed Em]; [|lia]. apply app_inv_head in Em.
  apply app_inj_1 in Em as [_ Em]; [|rewrite Es, Es', !length_app; lia]. apply app_inv_head in Em. unfold sha256_hex in Em. apply hex_encode_inj in Em.
  destruct (decide (request_text (request_parts req parsed) = request_text (request_parts req' parsed'))) as [Et|Hne]; [|right; left; by exists (request_text (request_parts req parsed)), (request_text (request_parts req' parsed'))].
  left. split; [done|]. apply signed_text_inj; [by apply request_parts_ok|by apply request_parts_ok|done].
Qed.
End spec.
