(* ===== verification/S3Upload.v ===== *)
(** * The body of an S3 upload

    Models [leashed_upload] and [upload_stream] of y2qd/src/s3/body/upload.rs: which
    adapters the body of a PutObject or UploadPart passes through, chosen by the payload
    declaration of the verified request and by its checksum headers.

    A body is the list of the items its stream yields.  Between two chunks other requests
    may change the session rows and time passes: [world] gives, for each chunk, the rows it
    finds and the two clocks.  The result: a body that arrives without an error has the
    digests its request declared. *)

From S2P Require Import Prelude Effects Lex Primitives Types Crypto Session Locks Envelope Sink EncryptSession Cipher Upload SigV4 SigV4Spec HttpDate S3State S3Auth.

Section upload.
Context {A : AeadOps} {R : RngOps} {HO : HashOps} {T : TokenOps} {B : Base64Ops}.

(** ** The leash *)

Definition World : Type := nat -> Rows -> Rows * Z * Z.
Fixpoint leashed_upload (world : World) (k : nat) (inner : list (result Error bytes)) (l : SessionLeash) (w : Rows) (bucket : string) : list (result Error bytes) * option S3Error :=
  match inner with
  | Ok chunk :: rest =>
      let '(w, now, mono) := world k w in
      match leash_note l (blen chunk) w now mono with
      | (Ok _, l, w) => let '(items, side) := leashed_upload world (S k) rest l w bucket in (Ok chunk :: items, side)
      | (Err e, _, _) => ([Err (sideband_abort bucket)], Some e)
      end
  | Err e :: _ => ([Err e], None)
  | [] => ([], None)
  end.

(** ** What the headers declare *)

Definition checksum_headers : list (string * string) :=
  [("x-amz-checksum-crc32", "crc32"); ("x-amz-checksum-sha256", "sha256"); ("x-amz-checksum-crc32c", "crc32c"); ("x-amz-checksum-crc64nvme", "crc64nvme"); ("x-amz-checksum-sha1", "sha1")].
Fixpoint header_checksum (headers : HeaderMap) (table : list (string * string)) (acc : option (ChecksumAlgo * bytes)) : result S3Error (option (ChecksumAlgo * bytes)) :=
  match table with
  | [] => Ok acc
  | (header_name, algo_name) :: table =>
      match get_str headers (as_bytes header_name) with
      | None => header_checksum headers table acc
      | Some v =>
          match classify (as_bytes algo_name) with
          | Supported algo => header_checksum headers table (Some (algo, v))
          | _ => Err (invalid_request ("unsupported checksum algorithm " +:+ algo_name +:+ "; y2q supports CRC32 and SHA256"))
          end
      end
  end.
Fixpoint trailer_names (names : list bytes) : result S3Error (option ChecksumAlgo) :=
  match names with
  | [] => Ok None
  | name :: names =>
      match strip_prefix (as_bytes "x-amz-checksum-") (to_ascii_lowercase (trim name)) with
      | None => trailer_names names
      | Some algo_name =>
          match classify algo_name with
          | Supported algo => Ok (Some algo)
          | Unsupported => Err (invalid_request ("unsupported checksum algorithm: " +:+ String.string_of_list_byte algo_name))
          | NotAChecksum => trailer_names names
          end
      end
  end.
Definition trailer_checksum (headers : HeaderMap) : result S3Error (option ChecksumAlgo) :=
  match get_str headers (as_bytes "x-amz-trailer") with Some v => trailer_names (split x2c v) | None => Ok None end.

(** ** The adapters *)

Definition chunk_state (c : ChunkSigning) : ChunkSigningState := mkChunkSigningState (ch_signing_key c) (ch_scope c) (ch_amz_date c) (ch_seed_signature c).
Definition decoded_stream (base : list (result Error bytes)) (auth : S3Authenticated) (trailer : option ChecksumAlgo) (max_frame_bytes : Z) (bucket : string) : list (result Error bytes) * option S3Error :=
  match sa_payload auth with
  | Exact hex => verify_at_eof base (PayloadSha256 [] hex) bucket
  | Unsigned => (base, None)
  | StreamingSigned _ | StreamingUnsigned =>
      let o := mkChunkedOptions (chunk_state <$> sa_chunk_signing auth) trailer max_frame_bytes (has_trailer (sa_payload auth)) bucket in
      let '(ds, res, st) := frames (S (items_len base)) (start_state base o) in (stream_items ds res, cs_sideband st)
  end.
(** The sideband keeps what was recorded last. *)
Definition later (side side' : option S3Error) : option S3Error := match side' with Some e => Some e | None => side end.

Definition upload_stream (world : World) (base : list (result Error bytes)) (auth : S3Authenticated) (w : Rows) (headers : HeaderMap) (max_frame_bytes : Z) (bucket : string)
  : result S3Error (list (result Error bytes) * option S3Error) :=
  checksum ← header_checksum headers checksum_headers None;
  trailer ← trailer_checksum headers;
  let '(decoded, side) := decoded_stream base auth trailer max_frame_bytes bucket in
  let '(checked, side') := match checksum with Some (algo, expected) => verify_at_eof decoded (ChecksumHeader (hasher_new algo) expected) bucket | None => (decoded, None) end in
  let '(items, side'') := leashed_upload world 0 checked (sa_leash auth) w bucket in
  Ok (items, later (later side side') side'').

(** ** What an error-free body has passed *)

Lemma leashed_passes world ps : forall k inner l w bucket side, leashed_upload world k inner l w bucket = (Ok <$> ps, side) -> inner = Ok <$> ps.
Proof.
  induction ps as [|p ps IH]; intros k inner l w bucket side; destruct inner as [|[chunk|e] inner]; cbn [leashed_upload fmap list_fmap]; try done;
    destruct (world k w) as [[w1 now] mono]; destruct (leash_note l (blen chunk) w1 now mono) as [[[u|e] l1] w2]; try done; destruct (leashed_upload world (S k) inner l1 w2 bucket) as [items side1] eqn:E; try done.
  intros [= <- -> _]. f_equal. by eapply IH.
Qed.
Lemma verified_passes ps : forall inner v bucket side, verify_at_eof inner v bucket = (Ok <$> ps, side) -> inner = Ok <$> ps /\ verifier_finish (absorb_verifier v ps) = Ok tt.
Proof.
  induction ps as [|p ps IH]; intros inner v bucket side; destruct inner as [|[chunk|e] inner]; cbn [verify_at_eof fmap list_fmap]; try done.
  - destruct (verifier_finish v) as [[]|] eqn:Ef; [|done]. intros _. split; [done|exact Ef].
  - by destruct (verify_at_eof inner (verifier_update v chunk) bucket).
  - by destruct (verifier_finish v).
  - destruct (verify_at_eof inner (verifier_update v chunk) bucket) as [items side1] eqn:E. intros [= <- -> _]. apply IH in E as [-> E]. split; [done|]. exact E.
Qed.

Lemma absorb_payload a x ps : absorb_verifier (PayloadSha256 a x) ps = PayloadSha256 (a ++ concat ps) x.
Proof. unfold absorb_verifier. revert a. induction ps as [|p ps IH]; intros a; cbn [foldl concat]; [by rewrite app_nil_r|]. cbn [verifier_update]. by rewrite IH, <- app_assoc. Qed.
Lemma absorb_checksum h x ps : absorb_verifier (ChecksumHeader h x) ps = ChecksumHeader (hasher_update h (concat ps)) x.
Proof.
  unfold absorb_verifier. revert h. induction ps as [|p ps IH]; intros h; cbn [foldl concat verifier_update]; [destruct h; cbn; by rewrite app_nil_r|]. rewrite IH. destruct h; cbn; by rewrite <- app_assoc.
Qed.

(** C33: a body that arrives in full is the one that was declared. When the stream of an upload
    yields its pieces without an error, whatever happened to the session meanwhile, their
    concatenation has the SHA-256 digest the signed request declared, if it declared one,
    and the checksum of the last supported checksum header. *)
Theorem upload_stream_certifies (world : World) (base : list (result Error bytes)) (auth : S3Authenticated) (w : Rows) (headers : HeaderMap) (max_frame : Z) (bucket : string)
    (ps : list bytes) (side : option S3Error) :
  upload_stream world base auth w headers max_frame bucket = Ok (Ok <$> ps, side) ->
  (forall hex, sa_payload auth = Exact hex -> sha256_hex (concat ps) = hex /\ base = Ok <$> ps) /\
  (forall algo expected, header_checksum headers checksum_headers None = Ok (Some (algo, expected)) -> hasher_finish_b64 (hasher_update (hasher_new algo) (concat ps)) = expected).
Proof.
  unfold upload_stream. destruct (header_checksum headers checksum_headers None) as [checksum|e]; [|done]. cbn [mbind result_bind]. destruct (trailer_checksum headers) as [trailer|e]; [|done]. cbn [mbind result_bind].
  destruct (decoded_stream base auth trailer max_frame bucket) as [decoded s1] eqn:Ed.
  assert (Hpayload : decoded = Ok <$> ps -> forall hex, sa_payload auth = Exact hex -> sha256_hex (concat ps) = hex /\ base = Ok <$> ps).
  { intros -> hex Ep. unfold decoded_stream in Ed. rewrite Ep in Ed. apply verified_passes in Ed as [-> Ef]. split; [|done]. rewrite absorb_payload in Ef. cbn [verifier_finish app] in Ef. by case_bool_decide. }
  destruct checksum as [[algo expected]|].
  - destruct (verify_at_eof decoded _ bucket) as [checked s2] eqn:Ec. destruct (leashed_upload world 0 checked (sa_leash auth) w bucket) as [items s3] eqn:El. intros [= -> _]. apply leashed_passes in El as ->.
    apply verified_passes in Ec as [-> Ef]. split; [by apply Hpayload|]. intros algo' expected' [= <- <-]. rewrite absorb_checksum in Ef. cbn [verifier_finish] in Ef. by case_bool_decide.
  - destruct (leashed_upload world 0 decoded (sa_leash auth) w bucket) as [items s3] eqn:El. intros [= -> _]. apply leashed_passes in El as ->. split; [by apply Hpayload|done].
Qed.
End upload.
