(* ===== verification/S3Leash.v ===== *)
(** * Transfers whose session goes away

    The session store with the addresses of its rows, stepped by every operation that any
    request may run meanwhile, and a transfer that notes its chunks on a leash.  Once the
    row a transfer was admitted under is gone or replaced it never comes back, and the
    transfer then moves less than one re-check's worth of bytes, in less than one re-check
    interval. *)

From stdpp Require Import relations.
From S2P Require Import Prelude Effects Lex Primitives Types Crypto Session Locks Upload SigV4 HttpDate S3State S3Auth.

Section leash.
Context {A : AeadOps} {R : RngOps} {T : TokenOps}.

(** The rows after an operation: those in [fresh] are new objects, the others are kept. *)
Definition renew (w : Rows) (st : SessionStore) (fresh : bytes -> bool) : Rows :=
  mkRows st (map_imap (fun h _ => if fresh h then Some (rw_next w) else rw_gens w !! h) (inner st)) (rw_next w + 1).

(** The rows [switch_user_to_persona] replaced: it skips a row it cannot seal. *)
Definition switched (st st' : SessionStore) (h : bytes) : bool :=
  match inner st !! h, inner st' !! h with Some i, Some i' => negb (si_persona i =? si_persona i') | _, _ => false end.

Inductive row_step (max_refreshes : Z) : Rows -> Rows -> Prop :=
| rows_insert w s r token st r' :
    session_insert (rw_store w) s r = Ok (token, st, r') -> row_step max_refreshes w (renew w st (fun h => bool_decide (h = hash_token token)))
| rows_reissue w h e r token st r' :
    reissue (rw_store w) h e max_refreshes r = Ok (token, st, r') -> row_step max_refreshes w (renew w st (fun h => bool_decide (h = hash_token token)))
| rows_get_active w h now : row_step max_refreshes w (after_read w (get_active (rw_store w) h now).2)
| rows_revoke w h : row_step max_refreshes w (renew w (revoke (rw_store w) h).2 (fun _ => false))
| rows_revoke_user w u : row_step max_refreshes w (renew w (revoke_user (rw_store w) u).2 (fun _ => false))
| rows_revoke_persona w u p : row_step max_refreshes w (renew w (revoke_user_persona (rw_store w) u p).2 (fun _ => false))
| rows_revoke_except w u p k : row_step max_refreshes w (renew w (revoke_user_persona_except (rw_store w) u p k).2 (fun _ => false))
| rows_sweep w now : row_step max_refreshes w (renew w (sweep (rw_store w) now).2 (fun _ => false))
| rows_switch w u p role rv sk r n st r' :
    switch_user_to_persona (rw_store w) u p role rv sk r = (n, st, r') -> row_step max_refreshes w (renew w st (switched (rw_store w) st))
| rows_cache w h s b e sk r s' r' :
    inner (rw_store w) !! h = Some s -> cache_bucket_key (keyring (rw_store w)) s b e sk r = Ok (s', r') ->
    row_step max_refreshes w (renew w (with_inner (rw_store w) (<[h := s']> (inner (rw_store w)))) (fun _ => false)).

(** Generations were given out, and belong to rows. *)
Definition rows_ok (w : Rows) : Prop := forall h g, row_gen w h = Some g -> g < rw_next w /\ is_Some (inner (rw_store w) !! h).

Lemma renew_gen w st fr h g : row_gen (renew w st fr) h = Some g <-> is_Some (inner st !! h) /\ (if fr h then g = rw_next w else row_gen w h = Some g).
Proof.
  unfold row_gen, renew. cbn [rw_gens]. rewrite map_lookup_imap. destruct (inner st !! h) as [i|]; cbn; [|split; [done|by intros [[] _]]]. destruct (fr h); split; try done; [by intros [= <-]|by intros [_ ->]|by intros [_ ?]].
Qed.
Lemma read_gen w st h g : row_gen (after_read w st) h = Some g <-> row_gen w h = Some g /\ is_Some (inner st !! h).
Proof. unfold row_gen, after_read. cbn [rw_gens]. by rewrite map_lookup_filter_Some. Qed.

Lemma renew_ok w st fr : rows_ok w -> rows_ok (renew w st fr).
Proof. intros Hw h g [Hs Hg]%renew_gen. cbn [rw_next rw_store renew]. split; [|done]. destruct (fr h); [lia|]. apply Hw in Hg as [? _]. lia. Qed.
Lemma read_ok w st : rows_ok w -> rows_ok (after_read w st).
Proof. intros Hw h g [Hg Hs]%read_gen. split; [|done]. by apply Hw in Hg as [? _]. Qed.
Lemma row_step_ok max w w' : row_step max w w' -> rows_ok w -> rows_ok w'.
Proof. intros []; auto using renew_ok, read_ok. Qed.

(** The row the leash holds is no longer the one in the store. *)
Definition lost (l : SessionLeash) (w : Rows) : Prop := sl_session l < rw_next w /\ row_gen w (sl_token_hash l) <> Some (sl_session l).

(** A lost row does not come back. *)
Lemma lost_renew l w st fr : lost l w -> lost l (renew w st fr).
Proof. intros [Hg Hl]. split; [cbn; lia|]. intros [_ E]%renew_gen. destruct (fr _); [lia|done]. Qed.
Lemma lost_read l w st : lost l w -> lost l (after_read w st).
Proof. intros [Hg Hl]. split; [done|]. by intros [? _]%read_gen. Qed.
Lemma lost_step max l w w' : row_step max w w' -> lost l w -> lost l w'.
Proof. intros []; auto using lost_renew, lost_read. Qed.

(** A check of a lost row fails. *)
Lemma force_lost l w now mono : lost l w -> exists e, (leash_force l w now mono).1 = Err e.
Proof.
  intros Hl. unfold leash_force. destruct (get_active _ _ _) as [[i|e] st] eqn:E; cbn [fst]; [|by eauto].
  rewrite bool_decide_eq_false_2 by apply (lost_read _ _ st Hl). cbn. eauto.
Qed.

(** ** A transfer *)

(** What it has delivered: the sizes of the chunks and when. *)
Record Transfer : Type := mkTransfer { tr_rows : Rows; tr_leash : SessionLeash; tr_delivered : list (Z * Z) }.
Inductive transfer_step (max_refreshes : Z) : Transfer -> Transfer -> Prop :=
| transfer_other t w : row_step max_refreshes (tr_rows t) w -> transfer_step max_refreshes t (mkTransfer w (tr_leash t) (tr_delivered t))
| transfer_chunk t n now mono l w :
    0 <= n < 2 ^ 63 -> leash_note (tr_leash t) n (tr_rows t) now mono = (Ok tt, l, w) ->
    transfer_step max_refreshes t (mkTransfer w l (tr_delivered t ++ [(n, mono)])).

Definition total (chunks : list (Z * Z)) : Z := foldr (fun c acc => c.1 + acc) 0 chunks.
Lemma total_snoc (chunks : list (Z * Z)) c : total (chunks ++ [c]) = total chunks + c.1.
Proof. unfold total. induction chunks as [|x chunks IH]; cbn; [lia|]. unfold total in IH. rewrite IH. lia. Qed.

(** A chunk noted on a lost row is below both thresholds. *)
Lemma note_lost l n w now mono l' w' : lost l w -> leash_note l n w now mono = (Ok tt, l', w') ->
  w' = w /\ l' = mkSessionLeash (sl_token_hash l) (sl_session l) ((bytes_since_check l + n) mod 2 ^ 64) (last_check l) (recheck_bytes l) (recheck_interval l) /\
  (bytes_since_check l + n) mod 2 ^ 64 < recheck_bytes l /\ mono - last_check l < recheck_interval l.
Proof.
  intros Hl. unfold leash_note. set (l1 := mkSessionLeash _ _ ((bytes_since_check l + n) mod 2 ^ 64) _ _ _). assert (Hl1 : lost l1 w) by exact Hl.
  destruct (_ || _) eqn:E.
  - destruct (force_lost l1 w now mono Hl1) as [e Ee]. destruct (leash_force l1 w now mono) as [res w1]. cbn in Ee. by subst.
  - intros [= <- <-]. apply orb_false_iff in E as [E1%Z.leb_gt E2%Z.leb_gt]. cbn in *. split_and!; try done. lia.
Qed.

(** What has happened to a transfer since its row was lost. *)
Record after_loss (t0 t : Transfer) (more : list (Z * Z)) : Prop := {
  al_lost : lost (tr_leash t) (tr_rows t);
  al_delivered : tr_delivered t = tr_delivered t0 ++ more;
  al_leash : tr_leash t = let l := tr_leash t0 in mkSessionLeash (sl_token_hash l) (sl_session l) (bytes_since_check l + total more) (last_check l) (recheck_bytes l) (recheck_interval l);
  al_nonneg : 0 <= total more;
  al_bytes : more = [] \/ bytes_since_check (tr_leash t0) + total more < recheck_bytes (tr_leash t0);
  al_time : Forall (fun c => c.2 - last_check (tr_leash t0) < recheck_interval (tr_leash t0)) more;
}.

Lemma after_loss_step max t0 t t' more : 0 <= bytes_since_check (tr_leash t0) < 2 ^ 63 -> recheck_bytes (tr_leash t0) <= 2 ^ 63 ->
  after_loss t0 t more -> transfer_step max t t' -> exists more', after_loss t0 t' more'.
Proof.
  intros Hb Hr [Hlost Hd Hl Hn Hbytes Ht] Hstep. destruct Hstep as [t w Hw|t n now mono l w Hn' Hnote].
  - exists more. split; try done. by eapply lost_step.
  - destruct (note_lost _ _ _ _ _ _ _ Hlost Hnote) as (-> & -> & Hlt & Htime). rewrite Hl in Hlost, Hlt, Htime |- *. cbn [sl_token_hash sl_session bytes_since_check last_check recheck_bytes recheck_interval] in *.
    assert (Hsmall : bytes_since_check (tr_leash t0) + total more < 2 ^ 63) by (destruct Hbytes as [->|]; [cbn; lia|lia]).
    rewrite Z.mod_small in Hlt by lia. rewrite Z.mod_small by lia. exists (more ++ [(n, mono)]). split; cbn [tr_rows tr_leash tr_delivered]; rewrite ?total_snoc; cbn [fst].
    + exact Hlost.
    + by rewrite Hd, app_assoc.
    + rewrite Z.add_assoc. done.
    + lia.
    + right. lia.
    + apply Forall_app. split; [done|]. by apply Forall_singleton.
Qed.

Lemma after_loss_run max t0 t t' : 0 <= bytes_since_check (tr_leash t0) < 2 ^ 63 -> recheck_bytes (tr_leash t0) <= 2 ^ 63 ->
  rtc (transfer_step max) t t' -> (exists more, after_loss t0 t more) -> exists more, after_loss t0 t' more.
Proof. intros Hb Hr Hs. induction Hs as [|t1 t2 t3 Hstep _ IH]; [done|]. intros [more H1]. apply IH. by eapply after_loss_step. Qed.

(** What takes a session's authority away: logging out, revoking its user or its persona,
    its expiry, a switch to another persona under duress, and a refresh, which moves it to
    a new token. *)
Inductive cut_off (max_refreshes : Z) (l : SessionLeash) (i : SessionInfo) (w : Rows) : Rows -> Prop :=
| cut_logout : cut_off max_refreshes l i w (renew w (revoke (rw_store w) (sl_token_hash l)).2 (fun _ => false))
| cut_user : cut_off max_refreshes l i w (renew w (revoke_user (rw_store w) (si_username i)).2 (fun _ => false))
| cut_persona : cut_off max_refreshes l i w (renew w (revoke_user_persona (rw_store w) (si_username i) (si_persona i)).2 (fun _ => false))
| cut_expired now : si_expires_at i <= now -> cut_off max_refreshes l i w (renew w (sweep (rw_store w) now).2 (fun _ => false))
| cut_expired_read now : si_expires_at i <= now -> cut_off max_refreshes l i w (after_read w (get_active (rw_store w) (sl_token_hash l) now).2)
| cut_duress u p role rv sk r n st r' i' :
    switch_user_to_persona (rw_store w) u p role rv sk r = (n, st, r') -> inner st !! sl_token_hash l = Some i' -> si_persona i' <> si_persona i ->
    cut_off max_refreshes l i w (renew w st (switched (rw_store w) st))
| cut_refresh e r token st r' :
    reissue (rw_store w) (sl_token_hash l) e max_refreshes r = Ok (token, st, r') -> cut_off max_refreshes l i w (renew w st (fun h => bool_decide (h = hash_token token))).

Lemma removed_row st p h i : inner st !! h = Some i -> p h i = true -> inner (remove_all st (victims_of p (inner st))) !! h = None.
Proof. intros Hi Hp. unfold remove_all, with_inner. cbn [inner]. rewrite foldl_delete_lookup, decide_True; [done|]. apply elem_of_victims. eauto. Qed.

Lemma cut_off_lost max l i w w' : rows_ok w -> inner (rw_store w) !! sl_token_hash l = Some i -> row_gen w (sl_token_hash l) = Some (sl_session l) -> cut_off max l i w w' -> lost l w'.
Proof.
  intros Hw Hi Hg Hcut. assert (Hlt : sl_session l < rw_next w) by (by apply Hw in Hg as [? _]).
  assert (Hgone : forall st fr, inner st !! sl_token_hash l = None -> lost l (renew w st fr)) by (intros st fr Hn; split; [cbn; lia|]; intros [[x Hx] _]%renew_gen; congruence).
  destruct Hcut as [| | |now He|now He|u p role rv sk r n st r' i' Es Hi' Hp|e r token st r' Er].
  - apply Hgone. unfold revoke. cbn. apply lookup_delete_eq.
  - apply Hgone. eapply removed_row; [exact Hi|]. by apply bool_decide_eq_true.
  - apply Hgone. eapply removed_row; [exact Hi|]. rewrite bool_decide_eq_true_2 by done. apply Z.eqb_refl.
  - apply Hgone. eapply removed_row; [exact Hi|]. by apply Z.leb_le.
  - split; [done|]. intros [_ [x Hx]]%read_gen. revert Hx. unfold get_active, is_expired. rewrite Hi. rewrite (proj2 (Z.leb_le _ _) He). cbn. by rewrite lookup_delete_eq.
  - split; [cbn; lia|]. intros [_ E]%renew_gen. revert E. unfold switched. rewrite Hi, Hi'. destruct (Z.eqb_spec (si_persona i) (si_persona i')); cbn [negb]; [congruence|]. lia.
  - apply Hgone. unfold reissue in Er. rewrite Hi in Er. cbn [ok_or mbind result_bind] in Er. destruct (_ <=? _); [done|]. destruct (open_identity_sk _ _); [|done]. cbn [mbind result_bind] in Er.
    destruct (token_random r). destruct (seal_identity _ _ _ _ _ _) as [[]|]; [|done]. cbn [mbind result_bind] in Er. simplify_eq. cbn. apply lookup_delete_eq.
Qed.

(** C20: a transfer stops soon after its session does. Once the session a transfer was
    admitted under is logged out, revoked, expired, switched to another persona or
    refreshed, the transfer delivers, whatever other requests do meanwhile, fewer bytes
    than the re-check threshold, counted with those since the last check, and nothing after
    the re-check interval since that check has passed. *)
Theorem cut_off_transfer_bounded (max_refreshes : Z) (l : SessionLeash) (i : SessionInfo) (w w' : Rows) (sent : list (Z * Z)) (t : Transfer) :
  rows_ok w -> inner (rw_store w) !! sl_token_hash l = Some i -> row_gen w (sl_token_hash l) = Some (sl_session l) ->
  0 <= bytes_since_check l < recheck_bytes l -> recheck_bytes l <= 2 ^ 63 ->
  cut_off max_refreshes l i w w' -> rtc (transfer_step max_refreshes) (mkTransfer w' l sent) t ->
  exists more, tr_delivered t = sent ++ more /\ bytes_since_check l + total more < recheck_bytes l /\ Forall (fun c => c.2 - last_check l < recheck_interval l) more.
Proof.
  intros Hw Hi Hg Hb Hr Hcut Hsteps. pose proof (cut_off_lost _ _ _ _ _ Hw Hi Hg Hcut) as Hlost. set (t0 := mkTransfer w' l sent).
  destruct (after_loss_run max_refreshes t0 t0 t) as (more & [_ Hd _ _ Hbytes Ht]); [cbn; lia|done|done| |].
  - exists []. split; cbn; try done; [by rewrite app_nil_r|by rewrite Z.add_0_r; destruct l|by left].
  - exists more. split_and!; [done| |done]. destruct Hbytes as [->|]; [cbn; lia|done].
Qed.
End leash.
