(* ===== verification/S3Ops.v ===== *)
(** * S3 object requests

    Models what y2qd/src/s3/object.rs, bucket.rs and multipart.rs decide before they touch
    the storage: which operation a request names, whether its preconditions hold, and which
    bytes it asks for.

    The operation is read from the query and the headers as they are written, while the
    signature covers them decoded and only where they are listed as signed; the theorems
    at the end say what follows from that. *)

From stdpp Require Import sorting.
From S2P Require Import Prelude Effects Lex Primitives Types Crypto Session Locks Upload SigV4 SigV4Spec HttpDate S3State S3Auth.

(** ** Operations *)

Definition not_implemented (message : string) : S3Error := mkS3Error "NotImplemented" 501 message.

Definition has (sub : gmap bytes bytes) (name : string) : bool := bool_decide (is_Some (sub !! as_bytes name)).

Definition UNIMPLEMENTED_SUBRESOURCES : list string :=
  ["acl"; "policy"; "lifecycle"; "cors"; "website"; "encryption"; "replication"; "object-lock"; "legal-hold"; "retention"; "select"; "restore";
   "accelerate"; "logging"; "notification"; "requestPayment"; "analytics"; "inventory"; "metrics"; "intelligent-tiering"; "ownershipControls";
   "publicAccessBlock"; "tagging"; "versioning"].
Definition reject_unimplemented_subresources (sub : gmap bytes bytes) : result S3Error unit :=
  match list_find (fun name => has sub name = true) UNIMPLEMENTED_SUBRESOURCES with
  | Some (_, name) => Err (not_implemented ("the " +:+ name +:+ " sub-resource is not implemented"))
  | None => Ok tt
  end.

Definition PREFIX : string := ".y2q-mpu/".
Definition is_reserved_key (key : bytes) : bool := bool_decide (is_Some (strip_prefix (as_bytes PREFIX) key)).
Definition reject_reserved_key (key : bytes) : result S3Error unit :=
  if is_reserved_key key then Err (invalid_argument "keys under .y2q-mpu/ are reserved for multipart upload parts") else Ok tt.

(** The requests on an object, each with what the handler goes on to do. *)
Inductive ObjectOp : Type :=
| GetObjectTagging | ListParts | GetObject
| DeleteObjectTagging | AbortMultipartUpload | DeleteObject
| CreateMultipartUpload | CompleteMultipartUpload
| UploadPart | PutObjectTagging | CopyObject (source : bytes) | PutObject.

Definition object_get (key query : bytes) : result S3Error ObjectOp :=
  _ ← reject_reserved_key key;
  let sub := sub_resource query in
  if has sub "tagging" then Ok GetObjectTagging else
  if has sub "uploadId" then Ok ListParts else
  _ ← reject_unimplemented_subresources sub;
  Ok GetObject.

Definition object_delete (key query : bytes) : result S3Error ObjectOp :=
  _ ← reject_reserved_key key;
  let sub := sub_resource query in
  if has sub "tagging" then Ok DeleteObjectTagging else
  if has sub "uploadId" then Ok AbortMultipartUpload else
  _ ← reject_unimplemented_subresources sub;
  Ok DeleteObject.

Definition object_post (query : bytes) : result S3Error ObjectOp :=
  let sub := sub_resource query in
  if has sub "uploads" then Ok CreateMultipartUpload else
  if has sub "uploadId" then Ok CompleteMultipartUpload else
  Err (not_implemented "unsupported object POST sub-resource").

Definition copy_source_header : bytes := as_bytes "x-amz-copy-source".
Definition object_put (key query : bytes) (headers : HeaderMap) : result S3Error ObjectOp :=
  _ ← reject_reserved_key key;
  let sub := sub_resource query in
  if has sub "uploadId" then Ok UploadPart else
  if has sub "tagging" then Ok PutObjectTagging else
  _ ← reject_unimplemented_subresources sub;
  match get_str headers copy_source_header with
  | Some source => Ok (CopyObject source)
  | None => Ok PutObject
  end.

(** The bucket and key a copy reads from. *)
Fixpoint trim_slashes (s : bytes) : bytes := match s with x2f :: r => trim_slashes r | _ => s end.
Definition copy_source (source dest_bucket dest_key directive : bytes) : result S3Error (bytes * bytes) :=
  _ ← reject_reserved_key dest_key;
  let trimmed := trim_slashes source in
  if bool_decide (x3f ∈ trimmed) then Err (invalid_argument "object versioning (?versionId=) is not supported") else
  '(src_bucket, src_key) ← ok_or (split_once x2f (percent_decode trimmed)) (invalid_argument "malformed x-amz-copy-source");
  _ ← reject_reserved_key src_key;
  if bool_decide (src_bucket = dest_bucket) && bool_decide (src_key = dest_key) && negb (bool_decide (directive = as_bytes "REPLACE")) then
    Err (invalid_request "copy source and destination must differ unless x-amz-metadata-directive: REPLACE")
  else Ok (src_bucket, src_key).

Inductive BucketOp : Type := GetBucketLocation | GetBucketVersioning | ListMultipartUploads | ListObjectsV1 | ListObjectsV2.
Definition bucket_get (query : bytes) : result S3Error BucketOp :=
  let sub := sub_resource query in
  if has sub "location" then Ok GetBucketLocation else
  if has sub "versioning" then Ok GetBucketVersioning else
  if has sub "uploads" then Ok ListMultipartUploads else
  _ ← reject_unimplemented_subresources sub;
  if bool_decide (sub !! as_bytes "list-type" = Some (as_bytes "2")) then Ok ListObjectsV2 else Ok ListObjectsV1.

(** ** Preconditions and ranges *)

(** A label set in the order of its pairs. *)
Definition label_le (a b : string * string) : Prop := pair_le (as_bytes a.1, as_bytes a.2) (as_bytes b.1, as_bytes b.2).
#[global] Instance label_le_dec : RelDecision label_le.
Proof. intros a b. unfold label_le. apply _. Defined.
Definition label_rows (labels : LabelSet) : list (string * string) := merge_sort label_le (elements labels).
Definition find_label (md : Metadata) (name : string) : option string := (fun x : nat * (string * string) => x.2.2) <$> list_find (fun kv => kv.1 = name) (label_rows (md_labels md)).
Definition MPU_PARTS_LABEL : string := "amz-mpu-parts".

Section object.
Context {B : Base64Ops}.

Definition double_quote : byte := x22.
Definition etag_from_checksum_b64 (b64 : string) : bytes := [double_quote] ++ hex_encode (default [] (b64_decode b64)) ++ [double_quote].
Definition etag (md : Metadata) : bytes :=
  match find_label md MPU_PARTS_LABEL with
  | Some n => [double_quote] ++ hex_encode (default [] (b64_decode (md_checksum_gxhash md))) ++ [x2d] ++ as_bytes n ++ [double_quote]
  | None => etag_from_checksum_b64 (md_checksum_gxhash md)
  end.

Inductive Precondition : Type := PreconditionFailed | NotModified.
Definition matches_etag (v current : bytes) : bool := existsb (fun t => bool_decide (trim t = current)) (split x2c v).
Definition if_match (headers : HeaderMap) (md : Metadata) : bool :=
  match get_str headers (as_bytes "if-match") with
  | Some v => negb (bool_decide (v = as_bytes "*")) && negb (matches_etag v (etag md))
  | None =>
      match get_str headers (as_bytes "if-unmodified-since") ≫= parse_http_date with
      | Some t => t * 1000000000 <? md_modified md
      | None => false
      end
  end.
Definition if_none_match (headers : HeaderMap) (md : Metadata) : bool :=
  match get_str headers (as_bytes "if-none-match") with
  | Some v => bool_decide (v = as_bytes "*") || matches_etag v (etag md)
  | None =>
      match get_str headers (as_bytes "if-modified-since") ≫= parse_http_date with
      | Some t => md_modified md <=? t * 1000000000
      | None => false
      end
  end.
Definition check_conditionals (headers : HeaderMap) (md : Metadata) : option Precondition :=
  if if_match headers md then Some PreconditionFailed
  else if if_none_match headers md then Some NotModified
  else None.
(** The date served with an object *)
Definition last_modified (md : Metadata) : bytes := http_date (md_modified md / 1000000000).

Definition parse_range (headers : HeaderMap) (size : Z) : option (Z * Z) :=
  raw ← get_str headers (as_bytes "range");
  spec ← strip_prefix (as_bytes "bytes=") raw;
  '(start_s, end_s) ← split_once x2d spec;
  if size =? 0 then None else
  match start_s with
  | [] =>
      suffix_len ← parse_unsigned end_s;
      if suffix_len =? 0 then None else Some (Z.max 0 (size - suffix_len), size - 1)
  | _ =>
      start ← parse_unsigned start_s;
      end_ ← match end_s with [] => Some (size - 1) | _ => parse_unsigned end_s end;
      if (end_ <? start) || (size <=? start) then None else Some (start, Z.min end_ (size - 1))
  end.
(** What a read serves: the range, or the whole object. *)
Definition served_range (headers : HeaderMap) (size : Z) : Z * Z * Z :=
  let '(start, end_) := default (0, Z.max 0 (size - 1)) (parse_range headers size) in
  (start, end_, if size =? 0 then 0 else end_ - start + 1).
End object.

(** ** Ranges *)

Section facts.
Context {B : Base64Ops}.

Lemma parse_unsigned_nonneg v n : parse_unsigned v = Some n -> 0 <= n.
Proof.
  unfold parse_unsigned. set (ds := match v with x2b :: ((_ :: _) as r) => r | _ => v end). destruct (forallb ascii_digit ds) eqn:Hd; [|done]. unfold parse_u64. case_bool_decide; [done|]. cbv zeta.
  destruct (_ <=? _); [|done]. intros [= <-]. clearbody ds. unfold digits_value. assert (Hgen : forall acc, 0 <= acc -> 0 <= foldl (fun acc c => acc * 10 + (Z_of_byte c - 48)) acc ds); [|by apply Hgen].
  clear -Hd. induction ds as [|c ds IH]; [done|]. apply andb_true_iff in Hd as [Hc Hd]. intros acc Ha. cbn [foldl]. apply IH; [done|]. assert (48 <= Z_of_byte c) by (destruct c; vm_compute in Hc |- *; congruence). lia.
Qed.

(** A read stays inside the object. Whatever the Range header says, the bytes served of a
    non-empty object are a non-empty interval of it of the announced length, and nothing is
    served of an empty one. *)
Theorem served_range_bounds (headers : HeaderMap) (size : Z) : 0 <= size ->
  let '(start, end_, len) := served_range headers size in
  (0 < size -> 0 <= start <= end_ /\ end_ < size /\ len = end_ - start + 1) /\ (size = 0 -> parse_range headers size = None /\ len = 0).
Proof.
  intros Hs. unfold served_range, parse_range. destruct (get_str headers (as_bytes "range")) as [raw|]; cbn [mbind option_bind default].
  2:{ destruct (Z.eqb_spec size 0); split; intros; try done; lia. }
  destruct (strip_prefix (as_bytes "bytes=") raw) as [spec|]; cbn [mbind option_bind default]; [|destruct (Z.eqb_spec size 0); split; intros; try done; lia].
  destruct (split_once x2d spec) as [[s e]|]; cbn [mbind option_bind default]; [|destruct (Z.eqb_spec size 0); split; intros; try done; lia].
  destruct (Z.eqb_spec size 0) as [->|Hne]; [split; intros; try done; lia|]. cbn [mbind option_bind default]. destruct s as [|c s].
  - destruct (parse_unsigned e) as [n|] eqn:En; cbn [mbind option_bind default]; [|split; intros; lia]. apply parse_unsigned_nonneg in En. destruct (Z.eqb_spec n 0); cbn [default]; split; intros; lia.
  - destruct (parse_unsigned (c :: s)) as [n|] eqn:En; cbn [mbind option_bind default]; [|split; intros; lia]. apply parse_unsigned_nonneg in En.
    match goal with |- context [match e with [] => _ | _ => _ end] => destruct (match e with [] => Some (size - 1) | _ => parse_unsigned e end) as [m|] end; cbn [mbind option_bind default]; [|split; intros; lia].
    destruct (Z.ltb_spec m n), (Z.leb_spec size n); cbn [orb default]; split; intros; lia.
Qed.

(** C40: the date an object is served with does not satisfy its own precondition. For an
    object modified at a fraction of a second, a client that sends back the Last-Modified
    date it was given as If-Unmodified-Since is refused, and as If-Modified-Since is never
    told that the object is unchanged. *)
Theorem echoed_last_modified_fails (md : Metadata) : 0 <= md_modified md < 2 ^ 63 * 1000000000 -> md_modified md mod 1000000000 <> 0 ->
  check_conditionals [(as_bytes "if-unmodified-since", last_modified md)] md = Some PreconditionFailed /\
  check_conditionals [(as_bytes "if-modified-since", last_modified md)] md = None.
Proof.
  intros Hm Hf. set (t := md_modified md / 1000000000). assert (Ht : 0 <= t < 2 ^ 63 /\ t * 1000000000 < md_modified md) by (unfold t; Z.div_mod_to_equations; lia). destruct Ht as [Ht Hlt].
  assert (Hget : forall name, get_str [(name, last_modified md)] name = Some (last_modified md)) by (intros name; unfold get_str; rewrite get_all_cons, decide_True by done; cbn; by apply http_date_visible).
  assert (Hno : forall name name', name <> name' -> get_str [(name, last_modified md)] name' = None) by (intros name name' Hne; unfold get_str; by rewrite get_all_cons, decide_False by done).
  unfold check_conditionals, if_match, if_none_match. rewrite !Hget, !Hno by (apply (bool_decide_eq_true_1 _); vm_compute; reflexivity). cbn [mbind option_bind].
  unfold last_modified. fold t. rewrite parse_http_date_of by done. split; [by rewrite (proj2 (Z.ltb_lt _ _) Hlt)|]. rewrite (proj2 (Z.leb_gt _ _)) by done. done.
Qed.
End facts.

(** ** What the signature leaves open *)

(** Names as the handlers see them. *)
Definition names (query : bytes) : list bytes := (raw_params query).*1.
Lemma has_names query name : has (sub_resource query) name = true <-> as_bytes name ∈ names query.
Proof.
  unfold has, sub_resource, names. rewrite bool_decide_eq_true. generalize (raw_params query). intros l.
  assert (Hgen : forall m : gmap bytes bytes, is_Some (foldl (fun m kv => <[kv.1 := percent_decode kv.2]> m) m l !! as_bytes name) <-> is_Some (m !! as_bytes name) \/ as_bytes name ∈ l.*1).
  { induction l as [|[k v] l IH]; intros m; cbn [foldl fmap list_fmap fst snd]; [rewrite elem_of_nil; tauto|]. rewrite IH, elem_of_cons. destruct (decide (k = as_bytes name)) as [->|Hne].
    - rewrite lookup_insert_eq. split; [by auto|]. intros _. by left; eauto.
    - rewrite lookup_insert_ne by done. split; [intros [?|?]; auto|intros [?|[?|?]]; [auto|congruence|auto]]. }
  rewrite Hgen, lookup_empty. split; [by intros [[]|?]|by auto].
Qed.

Lemma raw_params_cons name v rest : free x3d name -> free x26 name -> free x26 v ->
  raw_params (name ++ x3d :: v ++ x26 :: rest) = (name, v) :: raw_params rest.
Proof.
  intros H1 H2 H3. unfold raw_params. change (x3d :: v ++ x26 :: rest) with ((x3d :: v) ++ x26 :: rest). rewrite app_assoc, split_app.
  2:{ apply free_app. split; [done|]. apply (free_app x26 [x3d]). split; [by apply free_singleton|done]. }
  rewrite filter_cons, decide_True by (by destruct name). rewrite fmap_cons, split_once_app by done. done.
Qed.

(** The names that choose an operation. *)
Definition operation_names : list string := "uploadId" :: "uploads" :: UNIMPLEMENTED_SUBRESOURCES.
Definition no_operation (query : bytes) : Prop := Forall (fun name => as_bytes name ∉ names query) operation_names.
Lemma no_operation_has query name : no_operation query -> name ∈ operation_names -> has (sub_resource query) name = false.
Proof. intros Hq Hn. apply not_true_is_false. rewrite has_names. by apply (proj1 (Forall_forall _ _) Hq). Qed.
Lemma no_operation_accepted query : no_operation query -> reject_unimplemented_subresources (sub_resource query) = Ok tt.
Proof.
  intros Hq. unfold reject_unimplemented_subresources. destruct (list_find _ _) as [[i name]|] eqn:E; [|done]. apply list_find_Some in E as (Hin & Hhas & _). apply list_elem_of_lookup_2 in Hin.
  rewrite no_operation_has in Hhas; [done|done|]. unfold operation_names. do 2 (apply elem_of_cons; right). done.
Qed.

(** [verify] reads the query only decoded. *)
Definition with_query (req : HttpRequest) (q : bytes) : HttpRequest := mkHttpRequest (rq_method req) (rq_path req) q (rq_headers req) (rq_original_uri req).
Definition with_header (req : HttpRequest) (name v : bytes) : HttpRequest := mkHttpRequest (rq_method req) (rq_path req) (rq_query req) ((name, v) :: rq_headers req) (rq_original_uri req).

Section open.
Context {A : AeadOps} {R : RngOps} {HO : HashOps} {T : TokenOps}.

(** [verify] sees a request only through what it parses to and the text that is signed. *)
Lemma verify_ext s3 w enforce req req' now na mono :
  parse (rq_query req) (rq_headers req) = parse (rq_query req') (rq_headers req') ->
  (forall parsed, parse (rq_query req) (rq_headers req) = Ok parsed -> request_text (request_parts req parsed) = request_text (request_parts req' parsed)) ->
  verify s3 w enforce req now na mono = verify s3 w enforce req' now na mono.
Proof.
  intros Ep Et. unfold verify. assert (Esc : check_scope (s3_config s3) req now = check_scope (s3_config s3) req' now) by (unfold check_scope; by rewrite Ep).
  rewrite <- Esc. destruct (check_scope _ _ _) as [[parsed rt]|e] eqn:E; [|done]. unfold check_scope in E. destruct (parse (rq_query req) (rq_headers req)) as [p|] eqn:Eparse; [|done].
  assert (p = parsed) as -> by (repeat case_match; by simplify_eq). repeat case_match; try done. do 3 f_equal. unfold check_signature, request_signature. by rewrite (Et parsed eq_refl).
Qed.

Lemma parse_query_ext q q' headers : decoded_params q = decoded_params q' -> parse q headers = parse q' headers.
Proof. intros E. unfold parse, parse_presigned, parse_query_params. by rewrite E. Qed.
Lemma verify_query_ext s3 w enforce req q now na mono : decoded_params (rq_query req) = decoded_params q ->
  verify s3 w enforce req now na mono = verify s3 w enforce (with_query req q) now na mono.
Proof.
  intros E. apply verify_ext; cbn [rq_query rq_headers with_query]; [by apply parse_query_ext|]. intros parsed _.
  assert (Hc : canonical_query_string (rq_query req) = canonical_query_string q) by (unfold canonical_query_string, canonical_pairs; by rewrite E).
  unfold request_text, request_parts. cbn [rp_method rp_path rp_query rp_headers rp_host rp_signed rp_token rq_method rq_path rq_query rq_headers rq_original_uri with_query]. by rewrite Hc.
Qed.

(** The query of a multipart upload, and the same with one letter of its name escaped. *)
Definition upload_query (v rest : bytes) : bytes := as_bytes "uploadId" ++ x3d :: v ++ x26 :: rest.
Definition respelled_query (v rest : bytes) : bytes := as_bytes "up%6CoadId" ++ x3d :: v ++ x26 :: rest.

(** C39: the signature does not fix the operation (1). Take any request to abort a multipart
    upload: spelling one letter of the parameter name uploadId as an escape leaves the
    verdict of [verify] as it is, and the request now deletes the object. *)
Theorem abort_request_deletes (s3 : S3State) (w : Rows) (enforce : bool) (req : HttpRequest) (v rest key : bytes) (now now_auth mono : Z) :
  free x26 v -> rq_query req = upload_query v rest -> no_operation rest -> is_reserved_key key = false ->
  verify s3 w enforce (with_query req (respelled_query v rest)) now now_auth mono = verify s3 w enforce req now now_auth mono /\
  object_delete key (upload_query v rest) = Ok AbortMultipartUpload /\ object_delete key (respelled_query v rest) = Ok DeleteObject.
Proof.
  intros Hv Hq Hrest Hkey.
  assert (Hfree : forall c, c = x3d \/ c = x26 -> free c (as_bytes "uploadId") /\ free c (as_bytes "up%6CoadId")) by (intros c [->| ->]; split; apply (bool_decide_eq_true_1 _); vm_compute; reflexivity).
  assert (Eu : raw_params (upload_query v rest) = (as_bytes "uploadId", v) :: raw_params rest) by (apply raw_params_cons; [by apply Hfree; left|by apply Hfree; right|done]).
  assert (Er : raw_params (respelled_query v rest) = (as_bytes "up%6CoadId", v) :: raw_params rest) by (apply raw_params_cons; [by apply Hfree; left|by apply Hfree; right|done]).
  split; [|split].
  - symmetry. apply verify_query_ext. rewrite Hq. unfold decoded_params. rewrite Eu, Er. done.
  - unfold object_delete, reject_reserved_key. rewrite Hkey. cbn [mbind result_bind].
    assert (Ht : has (sub_resource (upload_query v rest)) "tagging" = false).
    { apply not_true_is_false. rewrite has_names. unfold names. rewrite Eu. intros [E|E]%elem_of_cons; [discriminate|]. revert E. apply (proj1 (Forall_forall _ _) Hrest). apply (bool_decide_eq_true_1 _). vm_compute. reflexivity. }
    rewrite Ht. replace (has _ "uploadId") with true; [done|]. symmetry. apply has_names. unfold names. rewrite Eu. by left.
  - assert (Hno : no_operation (respelled_query v rest)).
    { apply Forall_forall. intros name Hin. unfold names. rewrite Er. intros [E|E]%elem_of_cons; [|by revert E; apply (proj1 (Forall_forall _ _) Hrest)].
      assert (Hne : Forall (fun n => as_bytes n <> as_bytes "up%6CoadId") operation_names) by (apply (bool_decide_eq_true_1 _); vm_compute; reflexivity). by apply (proj1 (Forall_forall _ _) Hne name Hin). }
    unfold object_delete, reject_reserved_key. rewrite Hkey. cbn [mbind result_bind]. rewrite !no_operation_has; [|done|apply (bool_decide_eq_true_1 _); vm_compute; reflexivity|done|apply (bool_decide_eq_true_1 _); vm_compute; reflexivity].
    by rewrite no_operation_accepted.
Qed.

Lemma bind_ext_in (f g : bytes -> bytes) (l : list bytes) : (forall x, x ∈ l -> f x = g x) -> l ≫= f = l ≫= g.
Proof. induction l as [|x l IH]; [done|]. intros Hx. rewrite !bind_cons, (Hx x) by (by left). f_equal. apply IH. intros y Hy. apply Hx. by right. Qed.
Lemma get_str_other h name name' v : name <> name' -> get_str ((name, v) :: h) name' = get_str h name'.
Proof. intros Hne. unfold get_str. by rewrite get_all_cons, decide_False. Qed.

(** The signature does not fix the operation (2). A request to store an object that does
    not list x-amz-copy-source among its signed headers is accepted just the same with that
    header added, and then copies whatever object the header names instead. *)
Theorem put_request_copies (s3 : S3State) (w : Rows) (enforce : bool) (req : HttpRequest) (parsed : SignedRequest) (key source : bytes) (now now_auth mono : Z) :
  parse (rq_query req) (rq_headers req) = Ok parsed -> copy_source_header ∉ signed_headers parsed -> to_str source = Some source ->
  object_put key (rq_query req) (rq_headers req) = Ok PutObject ->
  let req' := with_header req copy_source_header source in
  verify s3 w enforce req' now now_auth mono = verify s3 w enforce req now now_auth mono /\ object_put key (rq_query req') (rq_headers req') = Ok (CopyObject source).
Proof.
  intros Hp Hn Hs Hput. cbv zeta.
  assert (Hother : forall name, name ∈ [as_bytes "authorization"; as_bytes "x-amz-date"; content_sha256; as_bytes "host"] -> get_str ((copy_source_header, source) :: rq_headers req) name = get_str (rq_headers req) name).
  { intros name Hin. apply get_str_other. intros <-. revert Hin. apply (bool_decide_eq_false_1 _). vm_compute. reflexivity. }
  assert (Hparse : parse (rq_query req) ((copy_source_header, source) :: rq_headers req) = parse (rq_query req) (rq_headers req)).
  { unfold parse, parse_header_auth, parse_presigned, declared_payload. rewrite !Hother; [done|..]; apply (bool_decide_eq_true_1 _); vm_compute; reflexivity. }
  split.
  - apply verify_ext; cbn [rq_query rq_headers with_header]; [done|]. intros p Hp'. rewrite Hparse, Hp in Hp'. injection Hp' as <-. unfold request_text, request_parts, canonical_headers. cbn [rp_method rp_path rp_query rp_headers rp_host rp_signed rp_token rq_method rq_path rq_query rq_headers rq_original_uri with_header].
    rewrite Hother by (apply (bool_decide_eq_true_1 _); vm_compute; reflexivity). f_equal. apply bind_ext_in. intros n Hin. unfold header_value. rewrite get_all_cons, decide_False by (intros <-; done). done.
  - unfold object_put in *. cbn [rq_query rq_headers with_header]. destruct (reject_reserved_key key) as [[]|]; [|done]. cbn [mbind result_bind] in *. destruct (has _ "uploadId"); [done|]. destruct (has _ "tagging"); [done|].
    destruct (reject_unimplemented_subresources _) as [[]|]; [|done]. cbn [mbind result_bind] in *. unfold get_str. rewrite get_all_cons, decide_True by done. cbn. by rewrite Hs.
Qed.
End open.
