(* ===== verification/S3AuthWitness.v ===== *)
(** * A request that is accepted

    A session, a credential minted under it, and requests signed with the credential's
    secret, at concrete values. *)

From stdpp Require Import relations.
From S2P Require Import Prelude Effects Lex Primitives Types Crypto Session Locks Upload SigV4 SigV4Spec HttpDate S3State S3Auth S3AuthSpec S3Upload S3Leash S3Ops.

Module S3AuthWitness.
#[local] Existing Instances Toy.aead Toy.rng_ops Toy.token_ops Toy.hash Toy.base64 Toy.hash_laws.

Definition day : Z := 1767225600.
Definition now : Z := (day + 60) * 1000000000.
Definition sessions : SessionStore := mkSessionStore empty (replicate 32 x05).
Definition alice : NewSession := mkNewSession "alice" User 0 ((day + 3600) * 1000000000) 0 false [x41; x42].
Definition logged_in : string * SessionStore :=
  match session_insert sessions alice (10 : @rng Toy.rng_ops) with Ok (token, st, _) => (token, st) | Err _ => (EmptyString, sessions) end.
Definition token_hash : bytes := hash_token logged_in.1.
Definition rows : Rows := mkRows logged_in.2 {[ token_hash := 0 ]} 1.

Definition minted : string * string * S3CredentialStore :=
  match cred_mint (credential_store_new (replicate 32 x05) 4) token_hash "alice" ((day + 1800) * 1000000000) ((day + 3600) * 1000000000) (day * 1000000000) (7 : @rng Toy.rng_ops) with
  | Ok (akid, secret, st, _) => (akid, secret, st)
  | Err _ => (EmptyString, EmptyString, credential_store_new [] 0)
  end.
Definition gateway : S3State := mkS3State minted.2 (registry_new 4) (mkS3Config "us-east-1" 3600 1048576 30 900).

(** What a client does with its secret. *)
Definition scope : CredentialScope := mkCredentialScope (as_bytes minted.1.1) (as_bytes "20260101") (as_bytes "us-east-1") (as_bytes "s3").
Definition base_headers : HeaderMap := [(as_bytes "host", as_bytes "s3.example.org"); (as_bytes "x-amz-date", as_bytes "20260101T000000Z")].
Definition unsigned (meth path query : bytes) : HttpRequest := mkHttpRequest meth path query base_headers None.
Definition declaration (sig : bytes) : SignedRequest := mkSignedRequest scope [as_bytes "host"; as_bytes "x-amz-date"] sig (as_bytes "20260101T000000Z") Unsigned None.
Definition sign (meth path query : bytes) : HttpRequest :=
  let sig := request_signature (signing_key (as_bytes minted.1.2) (cs_date scope) (cs_region scope) (cs_service scope)) (unsigned meth path query) (declaration []) in
  let authorization := as_bytes "AWS4-HMAC-SHA256 Credential=" ++ access_key_id scope ++ [x2f] ++ scope_string scope ++ as_bytes ", SignedHeaders=host;x-amz-date, Signature=" ++ sig in
  mkHttpRequest meth path query ((as_bytes "authorization", authorization) :: base_headers) None.

Definition verdict (req : HttpRequest) := (verify gateway rows true req now now 5).1.1.
Definition the_request : HttpRequest := sign (as_bytes "DELETE") (as_bytes "/photos/cat.jpg") (upload_query (as_bytes "u1") (as_bytes "x=1")).
Lemma the_request_accepted : is_ok (verdict the_request) = true.
Proof. vm_compute. reflexivity. Qed.


Definition respelled : HttpRequest := with_query the_request (respelled_query (as_bytes "u1") (as_bytes "x=1")).
Definition outcome (req : HttpRequest) : S3Authenticated :=
  match verdict req with Ok a => a | Err _ => mkS3Authenticated (mkAuthenticated "" User [] (mkSessionInfo "" User 0 0 0 false (mkSealedSecret [] []) 0 [] cache_default) true) (mkSessionLeash [] 0 0 0 0 0) None Unsigned end.
Definition parsed_of (req : HttpRequest) : SignedRequest := match parse (rq_query req) (rq_headers req) with Ok p => p | Err _ => declaration [] end.

Lemma the_request_one_line : one_line the_request.
Proof. split; [apply (bool_decide_eq_true_1 _); vm_compute; reflexivity|]. left. apply (bool_decide_eq_true_1 _). vm_compute. reflexivity. Qed.
Lemma respelled_one_line : one_line respelled.
Proof. split; [apply (bool_decide_eq_true_1 _); vm_compute; reflexivity|]. left. apply (bool_decide_eq_true_1 _). vm_compute. reflexivity. Qed.

Lemma signature_binds_request_witness :
  (amz_date (parsed_of the_request) = amz_date (parsed_of respelled) /\ same_signed (request_parts the_request (parsed_of the_request)) (request_parts respelled (parsed_of respelled)))
  \/ sha256_collision \/ hmac_collision.
Proof.
  apply (signature_binds_request gateway gateway rows rows true true the_request respelled now now now now 5 5 (outcome the_request) (outcome respelled) (parsed_of the_request) (parsed_of respelled)).
  - reflexivity.
  - exact the_request_one_line.
  - exact respelled_one_line.
  - vm_compute. reflexivity.
  - vm_compute. reflexivity.
  - vm_compute. reflexivity.
  - vm_compute. reflexivity.
  - vm_compute. reflexivity.
Defined.

Lemma abort_request_deletes_witness :
  verify gateway rows true respelled now now 5 = verify gateway rows true the_request now now 5 /\
  object_delete (as_bytes "cat.jpg") (rq_query the_request) = Ok AbortMultipartUpload /\ object_delete (as_bytes "cat.jpg") (rq_query respelled) = Ok DeleteObject.
Proof.
  apply (abort_request_deletes gateway rows true the_request (as_bytes "u1") (as_bytes "x=1") (as_bytes "cat.jpg") now now 5).
  - apply (bool_decide_eq_true_1 _). vm_compute. reflexivity.
  - reflexivity.
  - apply (bool_decide_eq_true_1 _). vm_compute. reflexivity.
  - reflexivity.
Defined.

Definition put_request : HttpRequest := sign (as_bytes "PUT") (as_bytes "/inbox/upload.bin") [].
Definition stolen : bytes := as_bytes "/payroll/salaries.csv".
Lemma put_request_accepted : is_ok (verdict put_request) = true.
Proof. vm_compute. reflexivity. Qed.
Lemma put_request_copies_witness :
  verify gateway rows true (with_header put_request copy_source_header stolen) now now 5 = verify gateway rows true put_request now now 5 /\
  object_put (as_bytes "upload.bin") (rq_query put_request) ((copy_source_header, stolen) :: rq_headers put_request) = Ok (CopyObject stolen).
Proof.
  apply (put_request_copies gateway rows true put_request (parsed_of put_request) (as_bytes "upload.bin") stolen now now 5).
  - vm_compute. reflexivity.
  - apply (bool_decide_eq_true_1 _). vm_compute. reflexivity.
  - vm_compute. reflexivity.
  - vm_compute. reflexivity.
Defined.

(** The leash the request was given, and a transfer after its user logged out. *)
Definition leash : SessionLeash := sa_leash (outcome the_request).
Definition info : SessionInfo := default (mkSessionInfo "" User 0 0 0 false (mkSealedSecret [] []) 0 [] cache_default) (inner logged_in.2 !! token_hash).
Definition logged_out : Rows := renew rows (revoke logged_in.2 token_hash).2 (fun _ => false).
Definition noted : SessionLeash := (leash_note leash 1000 logged_out now 7).1.2.

Lemma rows_fine : rows_ok rows.
Proof.
  intros h g. unfold row_gen, rows. cbn [rw_gens]. rewrite lookup_singleton_Some. intros [<- <-]. split; [done|]. apply (bool_decide_eq_true_1 _). vm_compute. reflexivity.
Qed.

Lemma cut_off_transfer_bounded_witness : exists more, [(1000, 7)] = [] ++ more /\ 0 + total more < 1048576 /\ Forall (fun c => c.2 - 5 < 30000000000) more.
Proof.
  apply (cut_off_transfer_bounded 3 leash info rows logged_out [] (mkTransfer logged_out noted [(1000, 7)])).
  - exact rows_fine.
  - vm_compute. reflexivity.
  - vm_compute. reflexivity.
  - vm_compute. split; [discriminate|reflexivity].
  - vm_compute. discriminate.
  - apply cut_logout.
  - eapply rtc_l; [|apply rtc_refl]. apply (transfer_chunk 3 (mkTransfer logged_out leash []) 1000 now 7 noted logged_out); [lia|vm_compute; reflexivity].
Defined.

(** An object of ten bytes, modified half a second after midnight. *)
Definition object : Metadata := mkMetadata 0 (day * 1000000000 + 500000000) 10 (b64_encode [x01]) "photos" "cat.jpg" "" "photos/cat.jpg" empty None None None None None None None None.
Lemma served_range_bounds_witness : (served_range [(as_bytes "range", as_bytes "bytes=-4")] 10 = (6, 9, 4)) /\ (0 < 10 -> 0 <= 6 <= 9 /\ 9 < 10 /\ 4 = 9 - 6 + 1).
Proof. split; [vm_compute; reflexivity|]. apply (served_range_bounds [(as_bytes "range", as_bytes "bytes=-4")] 10). lia. Defined.
Lemma echoed_last_modified_fails_witness :
  check_conditionals [(as_bytes "if-unmodified-since", last_modified object)] object = Some PreconditionFailed /\ check_conditionals [(as_bytes "if-modified-since", last_modified object)] object = None.
Proof. apply (echoed_last_modified_fails object); vm_compute; [split; [discriminate|reflexivity]|discriminate]. Defined.

(** A body in two pieces whose request declared its digest twice. *)
Definition steady : World := fun _ w => (w, now, 7).
Definition hello : list bytes := [as_bytes "hel"; as_bytes "lo"].
Definition declared : S3Authenticated := mkS3Authenticated (sa_auth (outcome put_request)) (sa_leash (outcome put_request)) None (Exact (sha256_hex (as_bytes "hello"))).
Definition checksums : HeaderMap := [(as_bytes "x-amz-checksum-sha256", as_bytes (b64_encode (sha256 (as_bytes "hello"))))].
Lemma upload_stream_certifies_witness :
  (forall hex, sa_payload declared = Exact hex -> sha256_hex (concat hello) = hex /\ (Ok <$> hello : list (result Error bytes)) = Ok <$> hello) /\
  (forall algo expected, header_checksum checksums checksum_headers None = Ok (Some (algo, expected)) -> hasher_finish_b64 (hasher_update (hasher_new algo) (concat hello)) = expected).
Proof. apply (upload_stream_certifies steady (Ok <$> hello) declared rows checksums 1048576 "inbox" hello None). vm_compute. reflexivity. Defined.

Lemma canonical_request_exact_witness :
  request_text (request_parts the_request (parsed_of the_request)) = request_text (request_parts respelled (parsed_of respelled)) <->
  same_signed (request_parts the_request (parsed_of the_request)) (request_parts respelled (parsed_of respelled)).
Proof.
  apply (canonical_request_exact (request_parts the_request (parsed_of the_request)) (request_parts respelled (parsed_of respelled))).
  - apply request_parts_ok; [exact the_request_one_line|vm_compute; reflexivity].
  - apply request_parts_ok; [exact respelled_one_line|vm_compute; reflexivity].
Defined.
End S3AuthWitness.
