(* ===== verification/S3ListingSpec.v ===== *)
(** * ListObjectsV2 lists everything once

    The entries of a listing are the keys that are not folded and the prefixes they are
    folded into.  A page holds the next entries in order, and its continuation token leads
    to the rest, so the pages of a walk make up the listing. *)

From stdpp Require Import sorting.
From S2P Require Import Prelude Effects BucketKeys Lex Primitives Types Crypto Session Locks Query Index IndexSpec Upload SigV4 S3State S3Ops S3Listing.

Import MetaIndex.

(** ** Folding *)

Lemma find_sub_bound d x i : find_sub d x = Some i -> (i + length d <= length x)%nat.
Proof.
  revert i. induction x as [|b x IH]; intros i; cbn [find_sub].
  - destruct (starts_with [] d) eqn:E; [|done]. intros [= <-]. apply starts_with_spec in E as [rest E]. apply (f_equal length) in E. rewrite length_app in E. cbn in *. lia.
  - destruct (starts_with (b :: x) d) eqn:E.
    + intros [= <-]. apply starts_with_spec in E as [rest E]. rewrite E, length_app. lia.
    + destruct (find_sub d x) as [j|]; [|done]. intros [= <-]. specialize (IH j eq_refl). cbn [length]. lia.
Qed.

(** The first occurrence depends only on the text up to its end. *)
Lemma find_sub_stable d x y i : find_sub d x = Some i -> find_sub d (take (i + length d) x ++ y) = Some i.
Proof.
  revert i. induction x as [|b x IH]; intros i Hf.
  - pose proof (find_sub_bound _ _ _ Hf). destruct d; cbn in *; [|lia]. assert (i = 0%nat) as -> by lia. by destruct y.
  - pose proof (find_sub_bound _ _ _ Hf) as Hb. cbn [find_sub] in Hf. destruct (starts_with (b :: x) d) eqn:E.
    + injection Hf as <-. apply starts_with_spec in E as [rest E]. cbn [Nat.add]. rewrite E, take_app_length. destruct (d ++ y) eqn:Ed; cbn [find_sub]; rewrite <- Ed, starts_with_app; done.
    + destruct (find_sub d x) as [j|] eqn:Ej; [|done]. injection Hf as <-. cbn [Nat.add take app find_sub]. specialize (IH j eq_refl). rewrite IH.
      destruct (starts_with (b :: take (j + length d) x ++ y) d) eqn:E'; [|done]. exfalso. apply starts_with_spec in E' as [rest E']. cbn [length] in Hb.
      assert (Ht : take (length d) (b :: x) = d).
      { transitivity (take (length d) (b :: take (j + length d) x ++ y)); [|by rewrite E', take_app_length]. rewrite app_comm_cons, take_app_le by (cbn; rewrite length_take; lia).
        change (b :: take (j + length d) x) with (take (S (j + length d)) (b :: x)). rewrite take_take. f_equal. lia. }
      assert (Htrue : starts_with (b :: x) d = true) by (apply starts_with_spec; exists (drop (length d) (b :: x)); transitivity (take (length d) (b :: x) ++ drop (length d) (b :: x)); [by rewrite take_drop|by rewrite Ht]). congruence.
Qed.

Lemma filter_nothing {X} (P : X -> Prop) `{!forall x, Decision (P x)} (l : list X) : (forall x, x ∈ l -> ~ P x) -> filter P l = [].
Proof. induction l as [|x l IH]; [done|]. intros Hl. rewrite filter_cons_False by (apply Hl; by left). apply IH. intros y Hy. apply Hl. by right. Qed.
Lemma filter_everything {X} (P : X -> Prop) `{!forall x, Decision (P x)} (l : list X) : (forall x, x ∈ l -> P x) -> filter P l = l.
Proof. induction l as [|x l IH]; [done|]. intros Hl. rewrite filter_cons_True by (apply Hl; by left). f_equal. apply IH. intros y Hy. apply Hl. by right. Qed.

Section spec.
Context (prefix : bytes) (delimiter : option bytes) (max_keys : nat).
#[local] Abbreviation common_prefix := (common_prefix prefix delimiter).

Lemma common_prefix_inv key cp : starts_with key prefix = true -> common_prefix key = Some cp -> starts_with key cp = true /\ starts_with cp prefix = true.
Proof.
  intros [r ->]%starts_with_spec. unfold S3Listing.common_prefix. rewrite strip_prefix_app. cbn [default from_option id]. destruct delimiter as [d|]; [|done]. cbn [mbind option_bind]. destruct (find_sub d r) as [i|]; [|done]. cbn [mbind option_bind]. intros [= <-].
  split; [|apply starts_with_app]. apply starts_with_spec. exists (drop (i + length d) r). by rewrite <- app_assoc, take_drop.
Qed.

(** Every key under a common prefix is folded into it. *)
Lemma common_prefix_convex key key' cp : starts_with key prefix = true -> common_prefix key = Some cp -> starts_with key' cp = true -> common_prefix key' = Some cp.
Proof.
  intros [r ->]%starts_with_spec. unfold S3Listing.common_prefix. rewrite strip_prefix_app. cbn [default from_option id]. destruct delimiter as [d|]; [|done]. cbn [mbind option_bind]. destruct (find_sub d r) as [i|] eqn:Ei; [|done]. cbn [mbind option_bind]. intros [= <-].
  intros [y ->]%starts_with_spec. rewrite <- app_assoc, strip_prefix_app. cbn [default from_option id]. rewrite find_sub_stable by done. cbn [mbind option_bind]. pose proof (find_sub_bound _ _ _ Ei).
  do 2 f_equal. rewrite take_app_le by (rewrite length_take; lia). rewrite take_take. f_equal. lia.
Qed.

(** ** Entries *)

Inductive Entry : Type := Item (md : Metadata) | Folded (cp : bytes).
Fixpoint outline (seen : gset bytes) (l : list Metadata) : list Entry :=
  match l with
  | [] => []
  | md :: l =>
      if is_reserved_key (key_bytes md) then outline seen l else
      match common_prefix (key_bytes md) with
      | Some cp => if bool_decide (cp ∈ seen) then outline seen l else Folded cp :: outline ({[cp]} ∪ seen) l
      | None => Item md :: outline seen l
      end
  end.
Definition items_of (es : list Entry) : list Metadata := omap (fun e => match e with Item md => Some md | Folded _ => None end) es.
Definition folded_of (es : list Entry) : list bytes := omap (fun e => match e with Folded cp => Some cp | Item _ => None end) es.

Lemma items_of_app es es' : items_of (es ++ es') = items_of es ++ items_of es'.
Proof. apply omap_app. Qed.
Lemma folded_of_app es es' : folded_of (es ++ es') = folded_of es ++ folded_of es'.
Proof. apply omap_app. Qed.

Lemma outline_app seen l l' : outline seen (l ++ l') = outline seen l ++ outline (list_to_set (folded_of (outline seen l)) ∪ seen) l'.
Proof.
  revert seen. induction l as [|md l IH]; intros seen; cbn [app outline]; [cbn; by rewrite union_empty_l_L|].
  destruct (is_reserved_key _); [apply IH|]. destruct (common_prefix _) as [cp|]; [|cbn; by rewrite IH].
  case_bool_decide; [apply IH|]. cbn [app]. rewrite IH. do 3 f_equal. cbn. set_solver.
Qed.
Lemma outline_fresh seen l : NoDup (folded_of (outline seen l)) /\ forall cp, cp ∈ folded_of (outline seen l) -> cp ∉ seen.
Proof.
  revert seen. induction l as [|md l IH]; intros seen; cbn [outline]; [split; [constructor|intros cp; cbn; by rewrite elem_of_nil]|].
  destruct (is_reserved_key _); [apply IH|]. destruct (common_prefix _) as [cp|]; [|apply IH]. case_bool_decide as Hin; [apply IH|].
  destruct (IH ({[cp]} ∪ seen)) as [Hnd Hf]. change (folded_of (Folded cp :: ?es)) with (cp :: folded_of es). split.
  - constructor; [|done]. intros Hc%Hf. set_solver.
  - intros cp' [->|Hc%Hf]%elem_of_cons; [done|set_solver].
Qed.

(** What a scan has collected. *)
Record collected (s0 s : Scan) (es : list Entry) : Prop := {
  co_results : sn_results s = sn_results s0 ++ items_of es;
  co_common : sn_common s = list_to_set (folded_of es) ∪ sn_common s0;
  co_count : entries_of s = (entries_of s0 + length es)%nat;
}.

#[local] Abbreviation scan_item := (scan_item prefix delimiter max_keys).
#[local] Abbreviation scan_items := (scan_items prefix delimiter max_keys).

Lemma scan_item_go s md s' : scan_item s md = inl s' -> collected s s' (outline (sn_common s) [md]) /\ ((entries_of s <= max_keys)%nat -> (entries_of s' <= max_keys)%nat).
Proof.
  unfold S3Listing.scan_item. cbn [outline]. destruct (is_reserved_key _).
  { intros [= <-]. split; [split; cbn; [by rewrite app_nil_r|set_solver|unfold entries_of; cbn; lia]|done]. }
  destruct (common_prefix _) as [cp|].
  - destruct (bool_decide_reflect (cp ∈ sn_common s)) as [Hin|Hin]; cbn [negb andb].
    + intros [= <-]. assert (E : {[cp]} ∪ sn_common s = sn_common s) by set_solver. rewrite E. split; [split; cbn; [by rewrite app_nil_r|set_solver|unfold entries_of; cbn; lia]|done].
    + destruct (Nat.leb_spec max_keys (entries_of s)); [done|]. intros [= <-]. assert (Hs : size ({[cp]} ∪ sn_common s) = S (size (sn_common s))) by (rewrite size_union by set_solver; by rewrite size_singleton).
      split; [split; cbn; [by rewrite app_nil_r|set_solver|]|intros _]; unfold entries_of in *; cbn; rewrite Hs; lia.
  - destruct (Nat.leb_spec max_keys (entries_of s)); [done|]. intros [= <-]. split; [split; cbn; [done|set_solver|]|intros _]; unfold entries_of in *; cbn; rewrite length_app; cbn; lia.
Qed.

Lemma collected_trans s0 s1 s2 es es' : collected s0 s1 es -> collected s1 s2 es' -> collected s0 s2 (es ++ es').
Proof. intros [R1 C1 N1] [R2 C2 N2]. split; [by rewrite R2, R1, items_of_app, app_assoc|rewrite C2, C1, folded_of_app, list_to_set_app_L; set_solver|rewrite N2, N1, length_app; lia]. Qed.
Lemma collected_refl s : collected s s [].
Proof. split; [by rewrite app_nil_r|cbn; set_solver|cbn; lia]. Qed.

(** A scan goes through, or stops at an entry it has no room for. *)
Lemma scan_items_spec s l : (entries_of s <= max_keys)%nat ->
  match scan_items s l with
  | (s', None) => collected s s' (outline (sn_common s) l) /\ (entries_of s' <= max_keys)%nat
  | (s', Some stop) => exists l1 md l2, l = l1 ++ md :: l2 /\ scan_items s l1 = (s', None) /\ scan_item s' md = inr stop
  end.
Proof.
  revert s. induction l as [|md l IH]; intros s Hs; cbn [S3Listing.scan_items]; [split; [apply collected_refl|done]|].
  destruct (scan_item s md) as [s1|stop] eqn:E.
  - destruct (scan_item_go _ _ _ E) as [Hc Hle]. specialize (IH s1 (Hle Hs)). destruct (scan_items s1 l) as [s' [stop|]].
    + destruct IH as (l1 & md' & l2 & -> & E1 & E2). exists (md :: l1), md', l2. split_and!; [done| |done]. cbn [S3Listing.scan_items]. by rewrite E.
    + destruct IH as [Hc' Hle']. split; [|done]. change (md :: l) with ([md] ++ l). rewrite outline_app. destruct Hc as [R C N]. rewrite <- C. by eapply collected_trans.
  - exists [], md, l. done.
Qed.

(** Where a folded entry comes from. *)
Lemma folded_source seen l cp : cp ∈ folded_of (outline seen l) -> exists y, y ∈ l /\ common_prefix (key_bytes y) = Some cp.
Proof.
  revert seen. induction l as [|md l IH]; intros seen; cbn [outline]; [cbn; by rewrite elem_of_nil|].
  assert (Hrec : forall seen', cp ∈ folded_of (outline seen' l) -> exists y, y ∈ (md :: l) /\ common_prefix (key_bytes y) = Some cp) by (intros seen' (y & Hy & E)%IH; exists y; split; [by right|done]).
  destruct (is_reserved_key _); [apply Hrec|]. destruct (common_prefix (key_bytes md)) as [c|] eqn:E; [|apply Hrec]. case_bool_decide; [apply Hrec|].
  change (folded_of (Folded c :: ?es)) with (c :: folded_of es). intros [->|Hin]%elem_of_cons; [exists md; split; [by left|done]|by eapply Hrec].
Qed.
(** Objects of a prefix that has been seen add nothing. *)
Lemma outline_skip seen cp (keep : Metadata -> Prop) `{!forall m, Decision (keep m)} l : cp ∈ seen ->
  (forall m, m ∈ l -> ~ keep m -> common_prefix (key_bytes m) = Some cp) -> outline seen (filter keep l) = outline seen l.
Proof.
  revert seen. induction l as [|md l IH]; intros seen Hcp Hl; [done|]. assert (Hl' : forall m, m ∈ l -> ~ keep m -> common_prefix (key_bytes m) = Some cp) by (intros m Hm; apply Hl; by right).
  destruct (decide (keep md)) as [Hk|Hk].
  - rewrite filter_cons_True by done. cbn [outline]. destruct (is_reserved_key _); [by apply IH|]. destruct (common_prefix _); [|by rewrite IH]. case_bool_decide; [by apply IH|]. rewrite IH; [done|set_solver|done].
  - rewrite filter_cons_False by done. cbn [outline]. rewrite (Hl md) by (done || by left). rewrite bool_decide_eq_true_2 by done. rewrite (IH seen) by done. by destruct (is_reserved_key _).
Qed.
(** Prefixes that do not occur make no difference. *)
Lemma outline_unseen seen extra l : (forall m cp, m ∈ l -> is_reserved_key (key_bytes m) = false -> common_prefix (key_bytes m) = Some cp -> cp ∉ extra) -> outline (extra ∪ seen) l = outline seen l.
Proof.
  revert seen. induction l as [|md l IH]; intros seen Hl; [done|]. cbn [outline]. assert (Hl' : forall m cp, m ∈ l -> is_reserved_key (key_bytes m) = false -> common_prefix (key_bytes m) = Some cp -> cp ∉ extra) by (intros m cp Hm; apply Hl; by right).
  destruct (is_reserved_key _) eqn:Er; [by apply IH|]. destruct (common_prefix _) as [cp|] eqn:E; [|by rewrite IH]. assert (Hcp : cp ∉ extra) by (apply (Hl md cp); [by left|done|done]).
  assert (Hiff : cp ∈ extra ∪ seen <-> cp ∈ seen) by set_solver. rewrite (bool_decide_ext _ _ Hiff). case_bool_decide; [by apply IH|]. f_equal.
  rewrite <- (IH ({[cp]} ∪ seen)) by done. f_equal. set_solver.
Qed.

(** ** The objects of a bucket, in order *)

Context (L : list Metadata) (sorted : StronglySorted key_lt L).
Hypothesis under_prefix : forall m, m ∈ L -> starts_with (key_bytes m) prefix = true.
(** Skipping to the sentinel behind a common prefix skips every key folded into it: no key
    has U+10FFFF followed by more right after its common prefix. Keys are not checked for
    this; [Sentinel] below shows what a listing does with such a key. *)
Definition groups_skippable : Prop :=
  forall m cp, m ∈ L -> common_prefix (key_bytes m) = Some cp -> bytes_le (key_bytes m) (cp ++ sentinel).
Hypothesis below_sentinel : groups_skippable.

Definition rem (after : option bytes) : list Metadata := remaining_after L (String.string_of_list_byte <$> after).

Lemma after_ok_bytes a m : after_ok (Some (String.string_of_list_byte a)) (md_key m) = true <-> bytes_lt a (key_bytes m).
Proof. rewrite after_ok_lt. unfold as_bytes at 1. by rewrite String.list_byte_of_string_of_list_byte. Qed.

Lemma sorted_app l1 l2 x y : L = l1 ++ l2 -> x ∈ l1 -> y ∈ l2 -> key_lt x y.
Proof. intros E Hx Hy. rewrite E in sorted. apply StronglySorted_app in sorted as (H & _ & _). by apply H. Qed.

(** What is left after a cursor that lies between two parts. *)
Lemma rem_filter a P Q : L = P ++ Q -> (forall m, m ∈ P -> bytes_le (key_bytes m) a) -> rem (Some a) = filter (fun m => after_ok (Some (String.string_of_list_byte a)) (md_key m) = true) Q.
Proof.
  intros E HP. unfold rem, remaining_after. cbn [fmap option_fmap option_map]. rewrite E, filter_app, (filter_nothing _ P); [done|].
  intros m Hm. rewrite after_ok_bytes, bytes_lt_nge. intros Hn. by apply Hn, HP.
Qed.

Lemma scan_items_snoc s l m s' : scan_items s (l ++ [m]) = (s', None) -> exists s1, scan_items s l = (s1, None) /\ scan_item s1 m = inl s'.
Proof.
  revert s. induction l as [|x l IH]; intros s; cbn [app S3Listing.scan_items].
  - destruct (scan_item s m) as [s1|stop] eqn:E; [|done]. intros [= <-]. by exists s.
  - destruct (scan_item s x) as [s1|stop]; [apply IH|done].
Qed.

(** After a scan, the cursor leads to what was not scanned, up to objects of a prefix that
    has been seen. *)
Lemma scan_aligned P0 P Q s s' : L = P0 ++ P ++ Q -> P <> [] -> scan_items s P = (s', None) ->
  is_Some (sn_after s') /\ outline (sn_common s') (rem (sn_after s')) = outline (sn_common s') Q /\ (forall x, x ∈ rem (sn_after s') -> x ∈ Q) /\ (length (rem (sn_after s')) <= length Q)%nat.
Proof.
  intros EL Hne Hscan. destruct (exists_last Hne) as (P' & m & ->). apply scan_items_snoc in Hscan as (s1 & _ & Hm).
  assert (HmL : m ∈ L) by (rewrite EL; apply elem_of_app; right; apply elem_of_app; left; apply elem_of_app; right; by left).
  assert (Hle : forall x, x ∈ P0 ++ P' ++ [m] -> bytes_le (key_bytes x) (key_bytes m)).
  { intros x. rewrite app_assoc. intros [Hx|Hx%list_elem_of_singleton]%elem_of_app; [|by subst]. apply bytes_lt_le, (sorted_app (P0 ++ P') (m :: Q)); [rewrite EL, <- !app_assoc; done|done|by left]. }
  assert (Hgt : forall x, x ∈ Q -> key_lt m x) by (intros x Hx; apply (sorted_app (P0 ++ P' ++ [m]) Q); [rewrite EL, <- !app_assoc; done|rewrite !elem_of_app; right; right; by left|done]).
  assert (EL' : L = (P0 ++ P' ++ [m]) ++ Q) by (rewrite EL, <- !app_assoc; done).
  assert (Hkey : sn_after s' = Some (key_bytes m) -> rem (sn_after s') = Q).
  { intros ->. rewrite (rem_filter _ _ _ EL' Hle). apply filter_everything. intros x Hx. by apply after_ok_bytes, Hgt. }
  assert (Hdone : sn_after s' = Some (key_bytes m) -> is_Some (sn_after s') /\ outline (sn_common s') (rem (sn_after s')) = outline (sn_common s') Q /\ (forall x, x ∈ rem (sn_after s') -> x ∈ Q) /\ (length (rem (sn_after s')) <= length Q)%nat) by (intros E; rewrite (Hkey E); split_and!; [by exists (key_bytes m)|done|done|done]).
  revert Hm. unfold S3Listing.scan_item. destruct (is_reserved_key _); [intros [= <-]; by apply Hdone|]. destruct (common_prefix _) as [cp|] eqn:Ecp.
  2:{ destruct (_ <=? _)%nat; [done|]. intros [= <-]. by apply Hdone. }
  destruct (_ && _); [done|]. intros [= <-]. cbn [sn_after sn_common] in *. clear Hkey Hdone.
  pose proof (below_sentinel m cp HmL Ecp) as Hsent. pose proof (common_prefix_inv _ _ (under_prefix m HmL) Ecp) as [Hmcp _].
  rewrite (rem_filter (cp ++ sentinel) _ _ EL') by (intros x Hx; transitivity (key_bytes m); [by apply Hle|done]). split_and!; [done| |by intros x [_ ?]%list_elem_of_filter|apply length_filter].
  apply (outline_skip _ cp); [set_solver|]. intros x Hx Hn. rewrite after_ok_bytes, bytes_lt_nge in Hn. apply dec_stable in Hn. apply (common_prefix_convex (key_bytes m)); [by apply under_prefix|done|].
  apply (prefix_convex cp (key_bytes x) (cp ++ sentinel)); [|done|apply starts_with_app]. apply starts_with_spec in Hmcp as [r Er]. transitivity (key_bytes m); [rewrite Er; apply prefix_le|]. by apply bytes_lt_le, Hgt.
Qed.

(** ** A page *)

Context (max_pos : (0 < max_keys)%nat).

Definition base (start : option bytes) : Scan := mkScan [] ∅ start None.
Definition listed (start : option bytes) : list Entry := outline ∅ (rem start).

(** Every prefix seen has an object before all that is left. *)
Definition seen_before (c : gset bytes) (Q : list Metadata) : Prop := forall cp, cp ∈ c -> exists y, y ∈ L /\ common_prefix (key_bytes y) = Some cp /\ forall x, x ∈ Q -> key_lt y x.

(** Where the loop stands. *)
Record progress (start : option bytes) (s : Scan) (es : list Entry) : Prop := {
  pr_collected : collected (base start) s es;
  pr_listed : listed start = es ++ outline (sn_common s) (rem (sn_after s));
  pr_room : (entries_of s <= max_keys)%nat;
  pr_started : sn_after s = None -> entries_of s = 0%nat;
  pr_seen : seen_before (sn_common s) (rem (sn_after s));
}.

(** What a page promises. *)
Record page_good (start : option bytes) (p : S3ListPage) : Prop := {
  pg_items : sp_items p = items_of (take max_keys (listed start));
  pg_prefixes : sp_common_prefixes p ≡ₚ folded_of (take max_keys (listed start));
  pg_truncated : sp_truncated p = (max_keys <? length (listed start))%nat;
  pg_resume : (max_keys < length (listed start))%nat -> exists a, sp_resume_cursor p = Some a /\ listed (Some a) = drop max_keys (listed start);
}.

Lemma entries_length start s es : collected (base start) s es -> entries_of s = length es.
Proof. intros [_ _ ->]. unfold entries_of. cbn. rewrite size_empty. lia. Qed.
Lemma page_contents start s es stop : collected (base start) s es -> NoDup (folded_of es) ->
  sp_items (finish_page s stop) = items_of es /\ sp_common_prefixes (finish_page s stop) ≡ₚ folded_of es.
Proof.
  intros [Hr Hc _] Hnd. cbn [finish_page sp_items sp_common_prefixes]. split; [exact Hr|]. rewrite merge_sort_Permutation, Hc. cbn [base sn_common]. rewrite union_empty_r_L. by apply elements_list_to_set.
Qed.
Lemma listed_nodup start es rest : listed start = es ++ rest -> NoDup (folded_of es).
Proof. intros E. destruct (outline_fresh ∅ (rem start)) as [Hnd _]. fold (listed start) in Hnd. rewrite E, folded_of_app in Hnd. by apply NoDup_app in Hnd as (? & _ & _). Qed.

(** Nothing is left. *)
Lemma finish_good start s es : collected (base start) s es -> listed start = es -> (entries_of s <= max_keys)%nat -> page_good start (finish_page s None).
Proof.
  intros Hc Hl Hroom. rewrite (entries_length _ _ _ Hc) in Hroom. destruct (page_contents start s es None Hc) as [Hi Hp]; [apply (listed_nodup start es []); by rewrite app_nil_r|].
  split; rewrite Hl, ?take_ge by done; [done|done| |intros; lia]. cbn. symmetry. apply Nat.ltb_ge. lia.
Qed.

(** The loop stopped at [md]. *)
Lemma stop_good start s es Q md l2 stop : collected (base start) s es -> listed start = es ++ outline (sn_common s) Q -> (entries_of s <= max_keys)%nat -> (sn_after s = None -> entries_of s = 0%nat) ->
  Q = md :: l2 -> (forall x, x ∈ Q -> x ∈ L) -> (forall x, x ∈ l2 -> key_lt md x) -> seen_before (sn_common s) Q ->
  outline (sn_common s) (rem (sn_after s)) = outline (sn_common s) Q -> (forall x, x ∈ rem (sn_after s) -> x ∈ Q) ->
  scan_item s md = inr stop -> page_good start (finish_page s (Some stop)).
Proof.
  intros Hc Hl Hroom Hst EQ HQL Hmd Hseen Hal Hsub Hstop. pose proof (entries_length _ _ _ Hc) as Hlen. destruct (page_contents start s es (Some stop) Hc) as [Hi Hp]; [by eapply listed_nodup|].
  assert (Hinfo : (max_keys <= entries_of s)%nat /\ (exists x, stop.1 = Some (default x (sn_after s))) /\ is_reserved_key (key_bytes md) = false /\ (forall cp, common_prefix (key_bytes md) = Some cp -> cp ∉ sn_common s)).
  { revert Hstop. unfold S3Listing.scan_item. destruct (is_reserved_key _); [done|]. destruct (common_prefix _) as [cp|].
    - destruct (bool_decide_reflect (cp ∈ sn_common s)); cbn [negb andb]; [done|]. destruct (Nat.leb_spec max_keys (entries_of s)); [|done]. intros [= <-]. split_and!; [done|by exists cp|done|by intros ? [= <-]].
    - destruct (Nat.leb_spec max_keys (entries_of s)); [|done]. intros [= <-]. split_and!; [done|by exists (key_bytes md)|done|done]. }
  destruct Hinfo as (Hfull & [x Hx] & Hres & Hnew). assert (Hmax : length es = max_keys) by lia.
  assert (Hmore : outline (sn_common s) Q <> []).
  { rewrite EQ. cbn [outline]. rewrite Hres. destruct (common_prefix (key_bytes md)) as [cp|]; [|done]. by rewrite bool_decide_eq_false_2 by (by apply Hnew). }
  destruct (sn_after s) as [a|] eqn:Ea; [|specialize (Hst eq_refl); lia].
  assert (Hrest : listed (Some a) = outline (sn_common s) Q).
  { rewrite <- Hal. unfold listed. rewrite <- (outline_unseen ∅ (sn_common s)), union_empty_r_L; [done|]. intros y cp Hy Hyr Hycp Hin. apply Hsub in Hy.
    destruct (Hseen cp Hin) as (z & HzL & Hzcp & Hzlt). pose proof (common_prefix_inv _ _ (under_prefix z HzL) Hzcp) as [[r Er]%starts_with_spec _].
    pose proof (common_prefix_inv _ _ (under_prefix y (HQL y Hy)) Hycp) as [Hycp' _]. assert (HmdQ : md ∈ Q) by (rewrite EQ; by left).
    apply (Hnew cp); [|done]. apply (common_prefix_convex (key_bytes z)); [by apply under_prefix|done|].
    apply (prefix_convex cp (key_bytes md) (key_bytes y)); [|rewrite EQ in Hy; apply elem_of_cons in Hy as [->|Hy]; [done|by apply bytes_lt_le, Hmd]|done].
    transitivity (key_bytes z); [rewrite Er; apply prefix_le|]. by apply bytes_lt_le, Hzlt. }
  assert (Hlong : (max_keys < length (listed start))%nat) by (rewrite Hl, length_app; destruct (outline (sn_common s) Q); [done|cbn; lia]).
  split.
  - by rewrite Hl, take_app_length' by done.
  - by rewrite Hl, take_app_length' by done.
  - cbn. symmetry. by apply Nat.ltb_lt.
  - intros _. exists a. split; [cbn; by rewrite Hx|]. by rewrite Hrest, Hl, drop_app_length' by done.
Qed.

(** What is left is an end of the listing. *)
Lemma rem_suffix after : exists P0, L = P0 ++ rem after.
Proof.
  destruct after as [a|]; [|exists []; symmetry; apply filter_everything; done]. unfold rem, remaining_after. cbn [fmap option_fmap option_map]. clear under_prefix below_sentinel.
  induction sorted as [|m l Hs IH Hall]; [by exists []|]. destruct (IH Hs) as [P0 E]. destruct (decide (after_ok (Some (String.string_of_list_byte a)) (md_key m) = true)) as [Hk|Hk].
  - exists []. rewrite filter_cons_True by done. cbn [app]. f_equal. symmetry. apply filter_everything. intros x Hx. rewrite after_ok_bytes in *. rewrite Forall_forall in Hall. eapply bytes_lt_trans; [exact Hk|by apply Hall].
  - exists (m :: P0). rewrite filter_cons_False by done. by rewrite <- app_comm_cons, <- E.
Qed.

Lemma seen_before_grow c l1 Q s s' : seen_before (sn_common s) Q -> c = sn_common s' -> collected s s' (outline (sn_common s) l1) -> (forall y, y ∈ l1 -> y ∈ L /\ forall x, x ∈ Q -> key_lt y x) -> seen_before c Q.
Proof.
  intros Hs -> [_ Hc _] Hl1 cp Hin. rewrite Hc in Hin. apply elem_of_union in Hin as [Hin%elem_of_list_to_set|Hin]; [|by apply Hs]. apply folded_source in Hin as (y & Hy & E). destruct (Hl1 y Hy) as [HyL Hlt]. eauto.
Qed.
Lemma seen_before_sub c Q Q' : (forall x, x ∈ Q' -> x ∈ Q) -> seen_before c Q -> seen_before c Q'.
Proof. intros Hsub Hs cp Hin. destruct (Hs cp Hin) as (y & HyL & E & Hlt). exists y. split_and!; auto. Qed.

(** Scanning the first part of what is left. *)
Lemma progress_scan start s es P Q s' : progress start s es -> rem (sn_after s) = P ++ Q -> scan_items s P = (s', None) ->
  let es' := es ++ outline (sn_common s) P in
  collected (base start) s' es' /\ listed start = es' ++ outline (sn_common s') Q /\ (entries_of s' <= max_keys)%nat /\ seen_before (sn_common s') Q /\ (P <> [] -> is_Some (sn_after s')).
Proof.
  intros [Hc Hl Hr Hst Hseen] Erem Hscan. cbv zeta. pose proof (scan_items_spec s P Hr) as Hspec. rewrite Hscan in Hspec. destruct Hspec as [Hc' Hr'].
  destruct (rem_suffix (sn_after s)) as [P0 EL]. rewrite Erem in EL. split_and!; [by eapply collected_trans| |done| |].
  - rewrite Hl, Erem, outline_app. destruct Hc' as [_ Hcom _]. by rewrite <- Hcom, <- app_assoc.
  - apply (seen_before_grow _ P Q s s'); [|done|done|].
    + eapply seen_before_sub; [|exact Hseen]. intros x Hx. rewrite Erem. apply elem_of_app. by right.
    + intros y Hy. split; [rewrite EL, !elem_of_app; auto|]. intros x Hx. apply (sorted_app (P0 ++ P) Q); [by rewrite EL, app_assoc|apply elem_of_app; by right|done].
  - intros Hne. by destruct (scan_aligned P0 P Q s s' EL Hne Hscan) as [? _].
Qed.

Lemma list_loop_good start fuel : forall s es, progress start s es -> (length (rem (sn_after s)) < fuel)%nat ->
  exists p, list_loop prefix delimiter max_keys fuel (fetch_from L) s = Some (Ok p) /\ page_good start p.
Proof.
  induction fuel as [|fuel IH]; intros s es Hp Hfuel; [lia|]. cbn [list_loop fetch_from]. fold (rem (sn_after s)).
  destruct (rem_suffix (sn_after s)) as [P0 EL]. unfold page_at. cbn [lp_items lp_next]. fold (rem (sn_after s)). set (r := rem (sn_after s)) in *.
  destruct (decide (r = [])) as [Er|Hne].
  { rewrite Er, take_nil. cbn [length is_empty andb]. exists (finish_page s None). split; [done|]. destruct Hp as [Hc Hl Hroom _ _]. apply (finish_good start s es); [done| |done]. rewrite Hl. fold r. rewrite Er. cbn. by rewrite app_nil_r. }
  set (P := take LIST_PAGE_SIZE r). set (Q := drop LIST_PAGE_SIZE r). assert (EPQ : r = P ++ Q) by (symmetry; apply take_drop). assert (HneP : P <> []) by (unfold P; destruct r; done).
  replace (is_empty P) with false by (by destruct P). cbn [andb]. pose proof (scan_items_spec s P (pr_room _ _ _ Hp)) as Hspec. destruct (scan_items s P) as [s' [stop|]] eqn:Hscan.
  - destruct Hspec as (l1 & md & l2 & EP & Hscan1 & Hstop). exists (finish_page s' (Some stop)). split; [done|].
    destruct (progress_scan start s es l1 (md :: l2 ++ Q) s' Hp) as (Hc & Hl & Hroom & Hseen & Hafter); [fold r; rewrite EPQ, EP, <- app_assoc; done|done|].
    assert (Er : r = l1 ++ md :: l2 ++ Q) by (rewrite EPQ, EP, <- app_assoc; done). rewrite Er in EL.
    assert (Hal : outline (sn_common s') (rem (sn_after s')) = outline (sn_common s') (md :: l2 ++ Q) /\ (forall x, x ∈ rem (sn_after s') -> x ∈ md :: l2 ++ Q)).
    { destruct (decide (l1 = [])) as [->|Hl1]; [injection Hscan1 as <-; fold r; by rewrite Er|]. by destruct (scan_aligned P0 l1 (md :: l2 ++ Q) s s' EL Hl1 Hscan1) as (_ & ? & ? & _). }
    destruct Hal as [Hal Hsub]. eapply (stop_good start s' _ (md :: l2 ++ Q) md (l2 ++ Q)); try done.
    + intros E. destruct (decide (l1 = [])) as [->|Hl1]; [injection Hscan1 as <-; by apply Hp|]. destruct (Hafter Hl1) as [? ?]. congruence.
    + intros x Hx. rewrite EL, !elem_of_app. auto.
    + intros x Hx. apply (sorted_app (P0 ++ l1 ++ [md]) (l2 ++ Q)); [rewrite EL, <- !app_assoc; done|rewrite !elem_of_app; right; right; by left|done].
  - destruct (progress_scan start s es P Q s' Hp EPQ Hscan) as (Hc & Hl & Hroom & Hseen & Hafter). rewrite EPQ in EL. destruct (scan_aligned P0 P Q s s' EL HneP Hscan) as (_ & Hal & Hsub & Hlen).
    destruct (Nat.ltb_spec LIST_PAGE_SIZE (length r)) as [Hlt|Hge].
    + assert (Hlast : is_Some (last P)) by (apply last_is_Some; done). destruct Hlast as [lst Elst]. rewrite Elst. cbn [fmap option_fmap option_map].
      apply (IH s' (es ++ outline (sn_common s) P)); [|rewrite EPQ, length_app in Hfuel; destruct P; [done|cbn in *; lia]]. split; [done|by rewrite Hal|done|intros E; destruct (Hafter HneP); congruence|by eapply seen_before_sub].
    + assert (EQ : Q = []) by (apply drop_ge; done). exists (finish_page s' None). split; [done|]. apply (finish_good start s' _ Hc); [|done]. rewrite Hl, EQ. cbn. by rewrite app_nil_r.
Qed.

Lemma list_page_good start fuel : (length L < fuel)%nat -> exists p, list_page prefix delimiter max_keys fuel (fetch_from L) start = Some (Ok p) /\ page_good start p.
Proof.
  intros Hf. apply (list_loop_good start fuel (base start) []).
  - split; [apply collected_refl|done|unfold entries_of; cbn; rewrite size_empty; lia|done|]. intros cp Hin. cbn in Hin. set_solver.
  - eapply Nat.le_lt_trans; [apply length_filter|done].
Qed.

(** ** Walking through the pages *)

(** A client that follows the continuation tokens. *)
Fixpoint follow (n fuel : nat) (start : option bytes) : option (list S3ListPage) :=
  match n with
  | O => None
  | S n =>
      match list_page prefix delimiter max_keys fuel (fetch_from L) start with
      | Some (Ok p) => if sp_truncated p then (match sp_resume_cursor p with Some a => cons p <$> follow n fuel (Some a) | None => None end) else Some [p]
      | _ => None
      end
  end.

Definition plain_key (m : Metadata) : Prop := is_reserved_key (key_bytes m) = false /\ common_prefix (key_bytes m) = None.
#[global] Instance plain_key_dec m : Decision (plain_key m).
Proof. unfold plain_key. apply _. Defined.
Lemma items_of_outline seen l : items_of (outline seen l) = filter plain_key l.
Proof.
  revert seen. induction l as [|md l IH]; intros seen; [done|]. rewrite filter_cons. cbn [outline]. destruct (decide (plain_key md)) as [[H1 H2]|Hn].
  - rewrite H1, H2. change (items_of (Item md :: ?es)) with (md :: items_of es). by rewrite IH.
  - destruct (is_reserved_key _) eqn:E1; [apply IH|]. destruct (common_prefix _) as [cp|] eqn:E2; [case_bool_decide; apply IH|]. by destruct Hn.
Qed.
Lemma folded_of_outline seen l cp : cp ∈ folded_of (outline seen l) <-> (cp ∉ seen) /\ exists m, m ∈ l /\ is_reserved_key (key_bytes m) = false /\ common_prefix (key_bytes m) = Some cp.
Proof.
  revert seen. induction l as [|md l IH]; intros seen; cbn [outline]; [cbn; rewrite elem_of_nil; split; [done|by intros (_ & (m & (?%not_elem_of_nil & _)))]|].
  assert (Hcons : forall P, (exists m, m ∈ (md :: l) /\ P m) <-> P md \/ exists m, m ∈ l /\ P m).
  { intros P. split; [intros (m & [->|Hm]%elem_of_cons & HP); eauto|intros [HP|(m & Hm & HP)]; [exists md|exists m]; (split; [|done]); apply elem_of_cons; auto]. }
  rewrite Hcons. destruct (is_reserved_key (key_bytes md)) eqn:Er; [rewrite IH; split; [intros [? ?]; split; auto|intros [? [[? _]|?]]; [done|by split]]|].
  destruct (common_prefix (key_bytes md)) as [c|] eqn:Ec.
  - case_bool_decide as Hin.
    + rewrite IH. split; [intros [? ?]; split; auto|]. intros [Hn [[_ [= <-]]|?]]; [done|by split].
    + change (folded_of (Folded c :: ?es)) with (c :: folded_of es). rewrite elem_of_cons, IH, not_elem_of_union, not_elem_of_singleton. split.
      * intros [->|[[? ?] ?]]; (split; [done|]); [left; done|by right].
      * intros [Hn [[_ [= <-]]|He]]; [by left|]. destruct (decide (cp = c)) as [->|Hne]; [by left|right; done].
  - change (folded_of (Item md :: ?es)) with (folded_of es). rewrite IH. split; [intros [? ?]; split; auto|]. intros [Hn [[_ ?]|?]]; [done|by split].
Qed.

Lemma entries_split es : (length (items_of es) + length (folded_of es) = length es)%nat.
Proof. induction es as [|[md|cp] es IH]; [done|change (items_of (Item md :: es)) with (md :: items_of es); change (folded_of (Item md :: es)) with (folded_of es)|change (items_of (Folded cp :: es)) with (items_of es); change (folded_of (Folded cp :: es)) with (cp :: folded_of es)]; cbn [length]; lia. Qed.

Lemma follow_listed n fuel start : (length L < fuel)%nat -> (length (listed start) < n)%nat ->
  exists pages, follow n fuel start = Some pages /\ concat (sp_items <$> pages) = items_of (listed start) /\ concat (sp_common_prefixes <$> pages) ≡ₚ folded_of (listed start) /\
    Forall (fun p => (length (sp_items p) + length (sp_common_prefixes p) <= max_keys)%nat) pages.
Proof.
  intros Hf. revert start. induction n as [|n IH]; intros start Hn; [lia|]. cbn [follow]. destruct (list_page_good start fuel Hf) as (p & -> & [Hi Hp Ht Hr]).
  assert (Hsize : (length (sp_items p) + length (sp_common_prefixes p) <= max_keys)%nat).
  { rewrite Hi, Hp. transitivity (length (take max_keys (listed start))); [|rewrite length_take; lia]. by rewrite entries_split. }
  rewrite Ht. destruct (Nat.ltb_spec max_keys (length (listed start))) as [Hlt|Hge].
  - destruct (Hr Hlt) as (a & -> & Ea). destruct (IH (Some a)) as (pages & -> & Hpi & Hpp & Hps); [rewrite Ea, length_drop; lia|]. exists (p :: pages). split_and!; [done| | |by constructor].
    + rewrite fmap_cons. cbn [concat]. rewrite Hpi, Hi, Ea, <- items_of_app. by rewrite take_drop.
    + rewrite fmap_cons. cbn [concat]. rewrite Hpp, Hp, Ea, <- folded_of_app. by rewrite take_drop.
  - exists [p]. rewrite take_ge in Hi, Hp by done. split_and!; [done|cbn; by rewrite app_nil_r|cbn; by rewrite app_nil_r|by constructor].
Qed.
Lemma outline_length seen l : (length (outline seen l) <= length l)%nat.
Proof. revert seen. induction l as [|md l IH]; intros seen; [done|]. cbn [outline length]. destruct (is_reserved_key _); [specialize (IH seen); lia|]. destruct (common_prefix _) as [cp|]; [case_bool_decide; cbn [length]; [specialize (IH seen)|specialize (IH ({[cp]} ∪ seen))]; lia|cbn [length]; specialize (IH seen); lia]. Qed.

Lemma tokens_exact (n fuel : nat) : (length L < fuel)%nat -> (length L < n)%nat ->
  exists pages, follow n fuel None = Some pages /\
    concat (sp_items <$> pages) = filter plain_key L /\
    NoDup (concat (sp_common_prefixes <$> pages)) /\
    (forall cp, cp ∈ concat (sp_common_prefixes <$> pages) <-> exists m, m ∈ L /\ is_reserved_key (key_bytes m) = false /\ common_prefix (key_bytes m) = Some cp) /\
    Forall (fun p => (length (sp_items p) + length (sp_common_prefixes p) <= max_keys)%nat) pages.
Proof.
  intros Hf Hn. assert (EL : rem None = L) by (apply filter_everything; done). destruct (follow_listed n fuel None Hf) as (pages & -> & Hi & Hp & Hs); [unfold listed; rewrite EL; eapply Nat.le_lt_trans; [apply outline_length|done]|].
  unfold listed in *. rewrite EL in *. exists pages. split_and!; [done|by rewrite Hi, items_of_outline| | |done].
  - rewrite Hp. apply outline_fresh.
  - intros cp. rewrite Hp, folded_of_outline. split; [by intros [_ ?]|]. intros ?. split; [set_solver|done].
Qed.
End spec.

(** C22: ListObjectsV2 lists everything exactly once while the bucket does not change, if no
    key of it carries U+10FFFF and more right behind the prefix it is folded into
    ([groups_skippable]; [sentinel_key_loops] is what happens otherwise). Then a client
    that follows the continuation tokens from the start comes to an end; the keys on its
    pages are, in order, the keys of the bucket under the prefix that are neither parts of
    uploads nor folded; its common prefixes are those of all the other keys, each once; and
    no page has more entries than were asked for. *)
Theorem continuation_tokens_exact (prefix : bytes) (delimiter : option bytes) (max_keys : nat) (L : list Metadata) (n fuel : nat) :
  StronglySorted key_lt L -> (forall m, m ∈ L -> starts_with (key_bytes m) prefix = true) -> groups_skippable prefix delimiter L ->
  (0 < max_keys)%nat -> (length L < fuel)%nat -> (length L < n)%nat ->
  exists pages, follow prefix delimiter max_keys L n fuel None = Some pages /\
    concat (sp_items <$> pages) = filter (plain_key prefix delimiter) L /\
    NoDup (concat (sp_common_prefixes <$> pages)) /\
    (forall cp, cp ∈ concat (sp_common_prefixes <$> pages) <-> exists m, m ∈ L /\ is_reserved_key (key_bytes m) = false /\ common_prefix prefix delimiter (key_bytes m) = Some cp) /\
    Forall (fun p => (length (sp_items p) + length (sp_common_prefixes p) <= max_keys)%nat) pages.
Proof. intros Hs Hp Hg Hm. by apply tokens_exact. Qed.

(** The metadata index answers with such pages. *)
Section index.
Context {RO : RedbOps} {RL : RedbLaws} {MJ : MetadataJson} {JL : JsonLaws}.
Lemma index_fetch d M bucket prefix after page L : represents d M -> name_ok bucket -> listing M bucket (Some prefix) None L ->
  scan_objects (commit d) bucket (Some prefix) after LIST_PAGE_SIZE = Ok page -> fetch_from L after = Ok page.
Proof.
  intros HR Hb HL E. destruct (scan_objects_spec d M bucket (Some prefix) after LIST_PAGE_SIZE page HR Hb E) as (l & Hl & Hi & Hn).
  assert (Hrem : l = remaining_after L after).
  { apply (listing_unique M bucket (Some prefix) after); [done|]. destruct HL as [Hs Hm]. split; [by apply sorted_filter|]. intros m. unfold remaining_after. rewrite list_elem_of_filter, Hm. cbn [after_ok]. tauto. }
  unfold fetch_from, page_at. rewrite <- Hrem, <- Hn, <- Hi. by destruct page.
Qed.
End index.

(** ** Keys behind the sentinel *)

Module Sentinel.
Definition object (key : bytes) : Metadata := mkMetadata 0 0 0 "" "b" (String.string_of_list_byte key) "" "" empty None None None None None None None None.
(** a/1, a/U+10FFFFx and b *)
Definition held : list Metadata := object <$> [as_bytes "a/1"; as_bytes "a/" ++ sentinel ++ as_bytes "x"; as_bytes "b"].
(** ListObjectsV2 with a delimiter, one entry at a time *)
Definition page (token : option bytes) : option (result Error S3ListPage) := list_page [] (Some (as_bytes "/")) 1 4 (fetch_from held) token.
Definition next (p : option (result Error S3ListPage)) : option bytes := match p with Some (Ok p) => sp_resume_cursor p | _ => None end.
Definition walk (n : nat) : option (result Error S3ListPage) := Nat.iter n (fun p => page (next p)) (page None).

(** A key that continues behind U+10FFFF right after its common prefix sends a client round in
    circles: the token that skips the group a/ leads in front of the key, which brings the
    group up again. One entry at a time, the client is given the prefix a/ for ever, always
    told there is more, and never the key b. *)
Theorem sentinel_key_loops (n : nat) : exists p, walk n = Some (Ok p) /\ sp_items p = [] /\ sp_common_prefixes p = [as_bytes "a/"] /\
  sp_truncated p = true /\ sp_resume_cursor p = Some (as_bytes "a/" ++ sentinel).
Proof.
  assert (Hstart : page None = page (Some (as_bytes "a/" ++ sentinel))) by (vm_compute; reflexivity).
  assert (Hnext : next (page None) = Some (as_bytes "a/" ++ sentinel)) by (vm_compute; reflexivity).
  assert (Hwalk : walk n = page None) by (unfold walk; induction n as [|n IH]; [done|]; by rewrite Nat.iter_succ, IH, Hnext).
  rewrite Hwalk. exists (mkS3ListPage [] [as_bytes "a/"] true (Some (as_bytes "a/" ++ sentinel)) (Some (as_bytes "a/"))).
  split; [vm_compute; reflexivity|]. split_and!; reflexivity.
Qed.
End Sentinel.

Module ListingWitness.
Definition object (key : string) : Metadata := mkMetadata 0 0 0 "" "b" key "" "" empty None None None None None None None None.
Definition held : list Metadata := object <$> [".y2q-mpu/u/00001"; "a/1"; "a/2"; "b"; "c/"; "d/x/y"].
Definition slash : option bytes := Some (as_bytes "/").

Lemma held_sorted : StronglySorted key_lt held.
Proof. repeat (constructor; [|repeat (constructor; [vm_compute; reflexivity|]); constructor]). constructor. Qed.
Lemma held_below m cp : m ∈ held -> common_prefix [] slash (key_bytes m) = Some cp -> bytes_le (key_bytes m) (cp ++ sentinel).
Proof.
  intros Hm. assert (Hall : Forall (fun m => match common_prefix [] slash (key_bytes m) with Some cp => bytes_leb (key_bytes m) (cp ++ sentinel) | None => true end = true) held) by (repeat (constructor; [vm_compute; reflexivity|]); constructor).
  apply (proj1 (Forall_forall _ _) Hall) in Hm. intros E. rewrite E in Hm. exact Hm.
Qed.

(** Two entries to a page: a/ and b, then c/ and d/. *)
Lemma continuation_tokens_exact_witness : exists pages, follow [] slash 2 held 7 7 None = Some pages /\
    concat (sp_items <$> pages) = filter (plain_key [] slash) held /\
    NoDup (concat (sp_common_prefixes <$> pages)) /\
    (forall cp, cp ∈ concat (sp_common_prefixes <$> pages) <-> exists m, m ∈ held /\ is_reserved_key (key_bytes m) = false /\ common_prefix [] slash (key_bytes m) = Some cp) /\
    Forall (fun p => (length (sp_items p) + length (sp_common_prefixes p) <= 2)%nat) pages.
Proof.
  apply (continuation_tokens_exact [] slash 2 held 7 7); [exact held_sorted|done|exact held_below|lia|cbn; lia|cbn; lia].
Defined.
End ListingWitness.
