(* ===== verification/S3Xml.v ===== *)
(** * S3 documents

    Models y2qd/src/s3/xml.rs: the writer of flat elements and the tag scanner that reads
    the request bodies.  Text is kept as its bytes; a character that is escaped or replaced
    is one byte, so the character loops of the source are byte loops here.  The scanner is
    given a step of fuel for every byte.

    The results: escaping is undone by unescaping, the scanner never runs out of fuel, and
    what was written as elements is read back. *)

From S2P Require Import Prelude Effects Lex Primitives Types Crypto Session Locks Query Index IndexSpec Upload SigV4 SigV4Spec S3State S3Ops S3Listing S3ListingSpec.

Definition MAX_XML_BYTES : Z := 1024 * 1024.
Inductive XmlError : Type := XmlTooLarge | Unterminated (name : bytes).

(** ** Writing *)

Definition escape_byte (b : byte) : bytes :=
  if is_byte b x26 then as_bytes "&amp;"
  else if is_byte b x3c then as_bytes "&lt;"
  else if is_byte b x3e then as_bytes "&gt;"
  else if is_byte b x22 then as_bytes "&quot;"
  else if is_byte b x27 then as_bytes "&apos;"
  else if is_byte b x09 || is_byte b x0a || is_byte b x0d then [b]
  else if Z_of_byte b <? 32 then replacement
  else [b].
Definition xml_escape (s : bytes) : bytes := s ≫= escape_byte.
Definition open_tag (name : bytes) : bytes := [x3c] ++ name ++ [x3e].
Definition close_tag (name : bytes) : bytes := [x3c; x2f] ++ name ++ [x3e].
Definition xml_tag (name value : bytes) : bytes := open_tag name ++ xml_escape value ++ close_tag name.

(** ** Reading *)

Definition entities : list (bytes * byte) := [(as_bytes "&amp;", x26); (as_bytes "&lt;", x3c); (as_bytes "&gt;", x3e); (as_bytes "&quot;", x22); (as_bytes "&apos;", x27)].
(** The entity a text starts with, and what follows it. *)
Definition entity (s : bytes) : option (byte * bytes) :=
  head (omap (fun e : bytes * byte => (fun r => (e.2, r)) <$> strip_prefix e.1 s) entities).
Fixpoint xml_unescape_loop (fuel : nat) (s : bytes) : bytes :=
  match fuel with
  | O => []
  | S fuel =>
      match entity s with
      | Some (b, r) => b :: xml_unescape_loop fuel r
      | None => match s with [] => [] | b :: r => b :: xml_unescape_loop fuel r end
      end
  end.
Definition xml_unescape (s : bytes) : bytes := xml_unescape_loop (S (length s)) s.

Definition tag_boundary (b : byte) : bool := is_byte b x3e || is_byte b x20 || is_byte b x09 || is_byte b x0a || is_byte b x0d || is_byte b x2f.
(** The content after the next open tag, and whether the tag closed itself. *)
Fixpoint find_open_tag (fuel : nat) (name s : bytes) : result XmlError (option (bytes * bool)) :=
  match fuel with
  | O => Ok None
  | S fuel =>
      let pat := x3c :: name in
      match find_sub pat s with
      | None => Ok None
      | Some i =>
          let after := drop (i + length pat) s in
          if match head after with Some b => tag_boundary b | None => false end then
            match find_sub [x3e] after with
            | None => Err (Unterminated name)
            | Some g => Ok (Some (drop (S g) after, bool_decide (last (pat ++ take g after) = Some x2f)))
            end
          else find_open_tag fuel name after
      end
  end.
Fixpoint extract_blocks (fuel : nat) (name s : bytes) : result XmlError (list bytes) :=
  match fuel with
  | O => Ok []
  | S fuel =>
      found ← find_open_tag (S (length s)) name s;
      match found with
      | None => Ok []
      | Some (content, true) => blocks ← extract_blocks fuel name content; Ok ([] :: blocks)
      | Some (content, false) =>
          match find_sub (close_tag name) content with
          | None => Err (Unterminated name)
          | Some e => blocks ← extract_blocks fuel name (drop (e + length (close_tag name)) content); Ok (take e content :: blocks)
          end
      end
  end.
Definition blocks_of (name s : bytes) : result XmlError (list bytes) := extract_blocks (S (length s)) name s.

Definition text_elements (xml name : bytes) : result XmlError (list bytes) :=
  if MAX_XML_BYTES <? blen xml then Err XmlTooLarge else
  blocks ← blocks_of name xml; Ok (xml_unescape <$> (blocks : list bytes)).

Fixpoint first_children (inner : list bytes) (block : bytes) : result XmlError (list (option bytes)) :=
  match inner with
  | [] => Ok []
  | name :: inner => vals ← blocks_of name block; row ← first_children inner block; Ok ((xml_unescape <$> head (vals : list bytes)) :: row)
  end.
Fixpoint rows_of (inner : list bytes) (blocks : list bytes) : result XmlError (list (list (option bytes))) :=
  match blocks with
  | [] => Ok []
  | block :: blocks => row ← first_children inner block; rows ← rows_of inner blocks; Ok (row :: rows)
  end.
Definition nested_elements (xml outer : bytes) (inner : list bytes) : result XmlError (list (list (option bytes))) :=
  if MAX_XML_BYTES <? blen xml then Err XmlTooLarge else blocks ← blocks_of outer xml; rows_of inner blocks.

(** ** Round trips *)

(** Text that XML 1.0 can hold *)
Definition representable (b : byte) : bool := (32 <=? Z_of_byte b) || is_byte b x09 || is_byte b x0a || is_byte b x0d.

Lemma escape_length b : (1 <= length (escape_byte b))%nat.
Proof. destruct b; vm_compute; lia. Qed.
Lemma entity_escaped b r : representable b = true ->
  match entity (escape_byte b ++ r) with Some (c, r') => c = b /\ r' = r | None => escape_byte b = [b] end.
Proof. destruct b; vm_compute; done. Qed.
Lemma entity_unescape v fuel : forallb representable v = true -> (length (xml_escape v) < fuel)%nat -> xml_unescape_loop fuel (xml_escape v) = v.
Proof.
  revert fuel. induction v as [|b v IH]; intros [|fuel] Hv Hf; try (cbn in Hf; lia); [done|]. apply andb_true_iff in Hv as [Hb Hv]. unfold xml_escape in *. rewrite bind_cons in *. rewrite length_app in Hf. pose proof (escape_length b).
  cbn [xml_unescape_loop]. pose proof (entity_escaped b (v ≫= escape_byte) Hb) as He. destruct (entity (escape_byte b ++ (v ≫= escape_byte))) as [[c r']|].
  - destruct He as [-> ->]. f_equal. apply IH; [done|lia].
  - rewrite He in *. cbn [app]. f_equal. apply IH; [done|lia].
Qed.
Lemma escape_free v : free x3c (xml_escape v).
Proof. intros (b & Hin & _)%list_elem_of_bind. revert Hin. destruct b; apply (bool_decide_eq_false_1 _); vm_compute; reflexivity. Qed.

(** ** The scanner finds its way *)

Lemma find_sub_free c pat s r : free c s -> find_sub (c :: pat) (s ++ (c :: pat) ++ r) = Some (length s).
Proof.
  intros Hs. induction s as [|b s IH].
  - cbn [app]. cbn [find_sub]. change (c :: pat ++ r) with ((c :: pat) ++ r). by rewrite starts_with_app.
  - apply not_elem_of_cons in Hs as [Hb Hs]. rewrite <- app_comm_cons. cbn [find_sub starts_with]. rewrite bool_decide_eq_false_2 by done. cbn [andb]. by rewrite IH.
Qed.
Lemma find_sub_none c pat s : free c s -> find_sub (c :: pat) s = None.
Proof.
  induction s as [|b s IH]; [done|]. intros [Hb Hs]%not_elem_of_cons. cbn [find_sub starts_with]. rewrite bool_decide_eq_false_2 by done. cbn [andb]. by rewrite IH.
Qed.

(** An element name *)
Definition tag_name (name : bytes) : Prop := name <> [] /\ free x2f name.

Lemma find_open_element name content fuel : tag_name name -> find_open_tag (S fuel) name (open_tag name ++ content) = Ok (Some (content, false)).
Proof.
  intros [Hne Hslash]. cbn [find_open_tag]. unfold open_tag. rewrite <- !app_assoc. change ([x3c] ++ name ++ [x3e] ++ content) with ([] ++ (x3c :: name) ++ [x3e] ++ content). rewrite find_sub_free by apply not_elem_of_nil. cbn [length app Nat.add].
  change (x3c :: name ++ x3e :: content) with ((x3c :: name) ++ x3e :: content). change (S (length name)) with (length (x3c :: name)). rewrite drop_app_length. cbn [head]. change (tag_boundary x3e) with true. cbv iota.
  change (find_sub [x3e] (x3e :: content)) with (Some 0%nat). cbv iota. cbn [drop take]. rewrite app_nil_r, bool_decide_eq_false_2; [done|].
  intros E. destruct (exists_last Hne) as (n' & b & ->). rewrite app_comm_cons, last_snoc in E. injection E as ->. apply Hslash, elem_of_app. right. by left.
Qed.

Lemma extract_elements name vs fuel : tag_name name -> (length vs < fuel)%nat -> extract_blocks fuel name (vs ≫= xml_tag name) = Ok (xml_escape <$> vs).
Proof.
  intros Hn. revert fuel. induction vs as [|v vs IH]; intros [|fuel] Hf; try (cbn in Hf; lia).
  - cbn [extract_blocks mbind list_bind length]. done.
  - rewrite bind_cons. cbn [extract_blocks]. set (rest := vs ≫= xml_tag name) in *.
    assert (Eopen : xml_tag name v ++ rest = open_tag name ++ xml_escape v ++ close_tag name ++ rest) by (unfold xml_tag; by rewrite <- !app_assoc).
    assert (Eclose : find_sub (close_tag name) (xml_escape v ++ close_tag name ++ rest) = Some (length (xml_escape v))) by (apply (find_sub_free x3c (x2f :: name ++ [x3e])), escape_free).
    rewrite Eopen, find_open_element by done. cbn [mbind result_bind]. rewrite Eclose, take_app_length. rewrite app_assoc, drop_app_length' by (by rewrite length_app).
    rewrite IH by (cbn in Hf; lia). done.
Qed.

(** Any fuel beyond the length of the text gives the same result. *)
Lemma find_open_tag_fuel name s : forall f f', (length s < f)%nat -> (length s < f')%nat -> find_open_tag f name s = find_open_tag f' name s.
Proof.
  induction s as [s IH] using (well_founded_induction (well_founded_ltof _ length)). unfold ltof in IH. intros [|f] [|f'] Hf Hf'; try lia. cbn [find_open_tag].
  destruct (find_sub (x3c :: name) s) as [i|] eqn:Ei; [|done]. pose proof (find_sub_bound _ _ _ Ei) as Hb. cbn [length] in Hb.
  destruct (match head _ with Some _ => _ | None => _ end); [done|]. apply IH; rewrite length_drop; cbn [length]; lia.
Qed.
Lemma find_open_tag_shorter name s content self : forall f, find_open_tag f name s = Ok (Some (content, self)) -> (length content < length s)%nat.
Proof.
  induction s as [s IH] using (well_founded_induction (well_founded_ltof _ length)). unfold ltof in IH. intros [|f]; [done|]. cbn [find_open_tag].
  destruct (find_sub (x3c :: name) s) as [i|] eqn:Ei; [|done]. pose proof (find_sub_bound _ _ _ Ei) as Hb. cbn [length] in Hb. set (after := drop (i + length (x3c :: name)) s).
  assert (Hlen : (length after < length s)%nat) by (unfold after; rewrite length_drop; cbn [length]; lia). destruct (match head _ with Some _ => _ | None => _ end).
  - destruct (find_sub [x3e] after) as [g|]; [|done]. intros [= <- _]. rewrite length_drop. lia.
  - intros E. specialize (IH after Hlen f E). lia.
Qed.
Lemma extract_blocks_fuel name s : forall f f', (length s < f)%nat -> (length s < f')%nat -> extract_blocks f name s = extract_blocks f' name s.
Proof.
  induction s as [s IH] using (well_founded_induction (well_founded_ltof _ length)). unfold ltof in IH. intros [|f] [|f'] Hf Hf'; try lia. cbn [extract_blocks].
  destruct (find_open_tag (S (length s)) name s) as [[[content [|]]|]|e] eqn:Eo; cbn [mbind result_bind]; [| |done|done]; pose proof (find_open_tag_shorter _ _ _ _ _ Eo) as Hlt.
  - by rewrite (IH content Hlt f f') by lia.
  - destruct (find_sub (close_tag name) content) as [e|]; [|done]. rewrite (IH (drop (e + length (close_tag name)) content)) with (f' := f'); rewrite ?length_drop; try lia. done.
Qed.

(** Documents round trip. The text of elements that were written one after the other is
    read back exactly, whatever characters it has that XML can hold, markup included. *)
Theorem elements_roundtrip (name : bytes) (vs : list bytes) : tag_name name -> Forall (fun v => forallb representable v = true) vs ->
  blen (vs ≫= xml_tag name) <= MAX_XML_BYTES -> text_elements (vs ≫= xml_tag name) name = Ok vs.
Proof.
  intros Hn Hv Hl. unfold text_elements, blocks_of. rewrite (proj2 (Z.ltb_ge _ _) Hl). rewrite extract_elements; [|done|].
  - cbn [mbind result_bind]. f_equal. rewrite <- list_fmap_compose. rewrite <- (list_fmap_id vs) at 2. apply list_fmap_ext. intros i v Hi. unfold compose, id, xml_unescape. apply entity_unescape; [|apply Nat.lt_succ_diag_r].
    rewrite Forall_forall in Hv. apply Hv. by eapply list_elem_of_lookup_2.
  - clear. induction vs as [|v vs IH]; [cbn; lia|]. rewrite bind_cons, length_app. unfold xml_tag at 1, open_tag. rewrite !length_app. cbn [length]. lia.
Qed.
Lemma elements_roundtrip_witness : text_elements ([as_bytes "a&b<c"; as_bytes "&lt;"; []] ≫= xml_tag (as_bytes "Key")) (as_bytes "Key") = Ok [as_bytes "a&b<c"; as_bytes "&lt;"; []].
Proof.
  apply (elements_roundtrip (as_bytes "Key") [as_bytes "a&b<c"; as_bytes "&lt;"; []]).
  - split; [discriminate|]. apply (bool_decide_eq_true_1 _). vm_compute. reflexivity.
  - repeat (constructor; [reflexivity|]). constructor.
  - vm_compute. discriminate.
Defined.
