(* ===== verification/S3Meta.v ===== *)
(** * S3 metadata and tags as labels

    Models y2qd/src/s3/meta.rs: which labels the headers of a write become, which headers
    the labels of an object become, and how its tags are replaced.

    The results: replacing the tags of an object changes its tags only and leaves exactly
    the new ones; what a client stores as metadata comes back with the object. *)

From stdpp Require Import sorting.
From S2P Require Import Prelude Effects Lex Primitives Types Crypto Session Locks Upload SigV4 SigV4Spec HttpDate S3State S3Ops.

Record LabelLimits : Type := mkLabelLimits { max_labels : nat; max_label_name_bytes : Z; max_label_value_bytes : Z }.

(** (header, label, query override) *)
Definition S3_SYSTEM_HEADERS : list (string * string * string) :=
  [("content-type", "amz-content-type", "response-content-type");
   ("content-encoding", "amz-content-encoding", "response-content-encoding");
   ("content-disposition", "amz-content-disposition", "response-content-disposition");
   ("content-language", "amz-content-language", "response-content-language");
   ("cache-control", "amz-cache-control", "response-cache-control");
   ("expires", "amz-expires", "response-expires")].
Definition MAX_TAGS : nat := 10.
Definition RESERVED : list string := ["created"; "modified"; "checksum-gxhash"].

Definition invalid_tag (message : string) : S3Error := mkS3Error "InvalidTag" 400 message.
Definition metadata_too_large (name : string) : S3Error := mkS3Error "MetadataTooLarge" 400 ("metadata value too long: " +:+ name).

Definition text (b : bytes) : string := String.string_of_list_byte b.
Definition lower (s : string) : string := text (to_ascii_lowercase (as_bytes s)).
Definition is_amz (name : string) : bool := starts_with (as_bytes name) (as_bytes "amz-").

Definition validate_tag_name (name : string) : result S3Error unit :=
  if is_amz name || bool_decide (name ∈ RESERVED) then Err (invalid_tag ("reserved tag name: " +:+ name)) else Ok tt.
Definition check_len (name value : string) (limits : LabelLimits) (on_name on_value : string -> S3Error) : result S3Error unit :=
  if max_label_name_bytes limits <? blen (as_bytes name) then Err (on_name name) else
  if max_label_value_bytes limits <? blen (as_bytes value) then Err (on_value name) else Ok tt.

Fixpoint parse_tags (pairs : list bytes) : result S3Error (list (string * string)) :=
  match pairs with
  | [] => Ok []
  | p :: pairs =>
      if bool_decide (p = []) then parse_tags pairs else
      '(k, v) ← ok_or (split_once x3d p) (invalid_tag "malformed x-amz-tagging");
      rest ← parse_tags pairs;
      Ok ((text (to_ascii_lowercase (percent_decode k)), text (percent_decode v)) :: rest)
  end.
Definition parse_tagging_header (s : bytes) : result S3Error (list (string * string)) := parse_tags (split x26 s).

(** [push] of [labels_from_request] *)
Definition push (limits : LabelLimits) (out : LabelSet) (name value : string) (oversized : string -> S3Error) : result S3Error LabelSet :=
  _ ← check_len name value limits (fun n => invalid_tag ("label name too long: " +:+ n)) oversized;
  Ok ({[(name, value)]} ∪ out).
Fixpoint push_system (headers : HeaderMap) (limits : LabelLimits) (table : list (string * string * string)) (out : LabelSet) : result S3Error LabelSet :=
  match table with
  | [] => Ok out
  | (header, label, _) :: table =>
      out ← match get_str headers (as_bytes header) with Some v => push limits out label (text v) metadata_too_large | None => Ok out end;
      push_system headers limits table out
  end.
Definition meta_prefix : bytes := as_bytes "x-amz-meta-".
Fixpoint push_meta (limits : LabelLimits) (headers : HeaderMap) (out : LabelSet) : result S3Error LabelSet :=
  match headers with
  | [] => Ok out
  | (name, value) :: headers =>
      out ← match strip_prefix meta_prefix (to_ascii_lowercase name) with
            | None | Some [] => Ok out
            | Some meta_name =>
                v ← ok_or (to_str value) (invalid_tag ("invalid value for x-amz-meta-" +:+ text meta_name));
                push limits out ("amz-meta-" +:+ text meta_name) (text v) metadata_too_large
            end;
      push_meta limits headers out
  end.
Fixpoint push_tags (limits : LabelLimits) (tags : list (string * string)) (out : LabelSet) : result S3Error LabelSet :=
  match tags with
  | [] => Ok out
  | (name, value) :: tags =>
      _ ← validate_tag_name name;
      out ← push limits out name value (fun n => invalid_tag ("tag value too long: " +:+ n));
      push_tags limits tags out
  end.
Definition labels_from_request (headers : HeaderMap) (limits : LabelLimits) : result S3Error LabelSet :=
  out ← push_system headers limits S3_SYSTEM_HEADERS ∅;
  out ← push_meta limits headers out;
  out ← match get_str headers (as_bytes "x-amz-tagging") with
        | None => Ok out
        | Some tagging =>
            tags ← parse_tagging_header tagging;
            if (MAX_TAGS <? length tags)%nat then Err (invalid_tag "too many tags (max 10)") else push_tags limits tags out
        end;
  if (max_labels limits <? size out)%nat then Err (invalid_tag "too many labels") else Ok out.

(** ** From labels to headers *)

Definition system_headers (md : Metadata) (sub : gmap bytes bytes) : list (string * bytes) :=
  omap (fun x : string * string * string =>
    let '(header, label, response_override) := x in
    let value := match sub !! as_bytes response_override with Some v => Some v | None => as_bytes <$> find_label md label end in
    if bool_decide (header = "content-type"%string) then Some (header, default (as_bytes "binary/octet-stream") value)
    else (fun v => (header, v)) <$> value) S3_SYSTEM_HEADERS.
Definition meta_headers (md : Metadata) : list (bytes * bytes) :=
  omap (fun kv : string * string => (fun n => (meta_prefix ++ n, as_bytes kv.2)) <$> strip_prefix (as_bytes "amz-meta-") (as_bytes kv.1)) (label_rows (md_labels md)).

Definition labels_for_copy (src : Metadata) : LabelSet := filter (fun kv => kv.1 <> MPU_PARTS_LABEL) (md_labels src).
Definition tag_set (md : Metadata) : list (string * string) := filter (fun kv => is_amz kv.1 = false) (label_rows (md_labels md)).

Fixpoint insert_tags (limits : LabelLimits) (tags : list (string * string)) (out : LabelSet) : result S3Error LabelSet :=
  match tags with
  | [] => Ok out
  | (name, value) :: tags =>
      let name := lower name in
      _ ← validate_tag_name name;
      _ ← check_len name value limits (fun n => invalid_tag ("tag name too long: " +:+ n)) (fun n => invalid_tag ("tag value too long: " +:+ n));
      insert_tags limits tags ({[(name, value)]} ∪ out)
  end.
Definition replace_tags (md : Metadata) (tags : list (string * string)) (limits : LabelLimits) : result S3Error LabelSet :=
  if (MAX_TAGS <? length tags)%nat then Err (invalid_tag "too many tags (max 10)") else
  insert_tags limits tags (filter (fun kv => is_amz kv.1 = true) (md_labels md)).

(** ** Tags *)

Lemma validate_tag_name_ok name u : validate_tag_name name = Ok u -> is_amz name = false.
Proof. unfold validate_tag_name. by destruct (is_amz name). Qed.
Lemma insert_tags_spec limits tags : forall out out', insert_tags limits tags out = Ok out' ->
  out' = list_to_set ((fun kv => (lower kv.1, kv.2)) <$> tags) ∪ out /\ Forall (fun kv => is_amz (lower kv.1) = false) tags.
Proof.
  induction tags as [|[name value] tags IH]; intros out out'; cbn [insert_tags]; [intros [= <-]; split; [cbn; by rewrite union_empty_l_L|constructor]|].
  destruct (validate_tag_name (lower name)) as [[]|] eqn:Ev; [|done]. cbn [mbind result_bind]. destruct (check_len _ _ _ _ _) as [[]|]; [|done]. cbn [mbind result_bind].
  intros [-> Hf]%IH. split; [cbn; rewrite (assoc_L (∪)); f_equal; apply (comm_L (∪))|]. constructor; [by eapply validate_tag_name_ok|done].
Qed.

(** Replacing tags touches tags only. The new label set has the system labels and the
    user metadata of the object as they were, and as tags exactly the given ones with their
    names in lower case; at most ten are taken, and none that would be read as a system
    label. *)
Theorem replace_tags_exact (md : Metadata) (tags : list (string * string)) (limits : LabelLimits) (out : LabelSet) : replace_tags md tags limits = Ok out ->
  (forall kv, is_amz kv.1 = true -> (kv ∈ out <-> kv ∈ md_labels md)) /\
  (forall kv, is_amz kv.1 = false -> (kv ∈ out <-> kv ∈ (fun t : string * string => (lower t.1, t.2)) <$> tags)) /\ (length tags <= 10)%nat.
Proof.
  unfold replace_tags. destruct (Nat.ltb_spec MAX_TAGS (length tags)) as [|Hlen]; [done|]. intros [-> Hf]%insert_tags_spec.
  assert (Htag : forall kv, kv ∈ (fun t : string * string => (lower t.1, t.2)) <$> tags -> is_amz kv.1 = false) by (intros kv (t & -> & Ht)%list_elem_of_fmap; by apply (proj1 (Forall_forall _ _) Hf)).
  split_and!; [| |exact Hlen]; intros kv Hkv; rewrite elem_of_union, elem_of_list_to_set, elem_of_filter; (split; [intros [H|[H1 H2]]|intros H]); try (by auto); exfalso; first [specialize (Htag _ H)|idtac]; congruence.
Qed.

(** ** Metadata *)

Lemma as_bytes_text b : as_bytes (text b) = b.
Proof. apply String.list_byte_of_string_of_list_byte. Qed.
Lemma push_ok limits out name value f out' : push limits out name value f = Ok out' -> out' = {[(name, value)]} ∪ out.
Proof. unfold push. destruct (check_len _ _ _ _ _); [|done]. by intros [= <-]. Qed.

(** The label of a user metadata name *)
Definition meta_label (n : bytes) : string := "amz-meta-" +:+ text n.
Lemma push_system_other headers limits table n v : forall out out', Forall (fun x : string * string * string => x.1.2 <> meta_label n) table -> push_system headers limits table out = Ok out' -> ((meta_label n, v) ∈ out' <-> (meta_label n, v) ∈ out).
Proof.
  induction table as [|[[header label] ov] table IH]; intros out out' Ht; cbn [push_system]; [by intros [= <-]|]. apply Forall_cons in Ht as [Hl Ht]. cbn in Hl.
  destruct (get_str headers (as_bytes header)) as [w|]; [|by apply IH]. destruct (push _ _ _ _ _) as [out1|] eqn:Ep; [|done]. cbn [mbind result_bind]. apply push_ok in Ep as ->. intros ->%(IH _ _ Ht). set_solver.
Qed.
Lemma push_tags_other limits tags n v : forall out out', push_tags limits tags out = Ok out' -> is_amz (meta_label n) = true -> ((meta_label n, v) ∈ out' <-> (meta_label n, v) ∈ out).
Proof.
  induction tags as [|[name value] tags IH]; intros out out'; cbn [push_tags]; [by intros [= <-]|]. destruct (validate_tag_name name) as [[]|] eqn:Ev; [|done]. cbn [mbind result_bind]. apply validate_tag_name_ok in Ev.
  destruct (push _ _ _ _ _) as [out1|] eqn:Ep; [|done]. cbn [mbind result_bind]. apply push_ok in Ep as ->. intros E Ha. rewrite (IH _ _ E Ha). rewrite elem_of_union, elem_of_singleton. split; [intros [[= <- _]|?]; [congruence|done]|auto].
Qed.

Lemma strip_prefix_spec p s r : strip_prefix p s = Some r <-> s = p ++ r.
Proof.
  revert s. induction p as [|b p IH]; intros s; [split; [by intros [= <-]|by intros ->]|]. destruct s as [|c s]; [done|]. cbn [strip_prefix app]. unfold is_byte. case_bool_decide as E.
  - subst. rewrite IH. split; [by intros ->|by intros [= ->]].
  - split; [done|]. intros [= -> _]. done.
Qed.
Lemma meta_label_inj n n' : meta_label n = meta_label n' -> n = n'.
Proof. intros E. apply (f_equal as_bytes) in E. unfold meta_label in E. cbn in E. apply (f_equal (drop 9)) in E. cbn in E. by rewrite <- (as_bytes_text n), <- (as_bytes_text n'). Qed.
Lemma meta_label_bytes n : as_bytes (meta_label n) = as_bytes "amz-meta-" ++ n.
Proof. rewrite <- (as_bytes_text n) at 2. reflexivity. Qed.

(** A name has a value in the headers. *)
Definition carries (headers : HeaderMap) (n v : bytes) : Prop := exists name, (name, v) ∈ headers /\ to_ascii_lowercase name = meta_prefix ++ n.
Lemma push_meta_spec limits headers n v : n <> [] -> forall out out', push_meta limits headers out = Ok out' -> ((meta_label n, text v) ∈ out' <-> (meta_label n, text v) ∈ out \/ carries headers n v).
Proof.
  intros Hn. assert (Htext : forall a b, text a = text b -> a = b) by (intros a b E; by rewrite <- (as_bytes_text a), E, as_bytes_text).
  induction headers as [|[name value] headers IH]; intros out out'; cbn [push_meta]; [intros [= <-]; split; [by left|intros [?|(? & ?%not_elem_of_nil & _)]; done]|].
  assert (Hcons : carries ((name, value) :: headers) n v <-> (value = v /\ to_ascii_lowercase name = meta_prefix ++ n) \/ carries headers n v).
  { split; [intros (m & [[= -> ->]|Hm]%elem_of_cons & E); [by left|right; by exists m]|intros [[-> E]|(m & Hm & E)]; [exists name|exists m]; (split; [|done]); [by left|by right]]. }
  rewrite Hcons. destruct (strip_prefix meta_prefix (to_ascii_lowercase name)) as [[|b mn]|] eqn:Es.
  - apply strip_prefix_spec in Es. cbn [mbind result_bind]. intros ->%IH. split; [intros [?|?]; auto|]. intros [?|[[_ E]|?]]; auto. rewrite Es in E. apply app_inv_head in E. by destruct Hn.
  - apply strip_prefix_spec in Es. destruct (to_str value) as [u|] eqn:Eu; [|done]. assert (u = value) as -> by (unfold to_str in Eu; destruct (forallb _ _); congruence). cbn [ok_or mbind result_bind].
    destruct (push _ _ _ _ _) as [out1|] eqn:Ep; [|done]. cbn [mbind result_bind]. apply push_ok in Ep as ->. fold (meta_label (b :: mn)). intros ->%IH. rewrite elem_of_union, elem_of_singleton. split.
    + intros [[E|?]|?]; auto. apply pair_equal_spec in E as [E1 E2]. apply meta_label_inj in E1 as ->. apply Htext in E2 as ->. auto.
    + intros [?|[[-> E]|?]]; auto. rewrite Es in E. apply app_inv_head in E as <-. auto.
  - cbn [mbind result_bind]. intros ->%IH. split; [intros [?|?]; auto|]. intros [?|[[_ E]|?]]; auto. apply strip_prefix_spec in E. congruence.
Qed.

Lemma system_not_meta n : Forall (fun x : string * string * string => x.1.2 <> meta_label n) S3_SYSTEM_HEADERS.
Proof. unfold S3_SYSTEM_HEADERS. repeat (constructor; [cbn; discriminate|]). constructor. Qed.

(** User metadata round trips. An object stored with the labels a request gives it is
    served with an x-amz-meta header for exactly the names and values that request carried,
    the names in lower case. *)
Theorem user_metadata_roundtrip (headers : HeaderMap) (limits : LabelLimits) (md : Metadata) (n v : bytes) :
  labels_from_request headers limits = Ok (md_labels md) -> n <> [] -> ((meta_prefix ++ n, v) ∈ meta_headers md <-> carries headers n v).
Proof.
  intros Hl Hn.
  assert (Hset : (meta_label n, text v) ∈ md_labels md <-> carries headers n v).
  { revert Hl. unfold labels_from_request. destruct (push_system _ _ _ _) as [o1|] eqn:E1; [|done]. cbn [mbind result_bind]. destruct (push_meta _ _ _) as [o2|] eqn:E2; [|done]. cbn [mbind result_bind].
    apply (push_system_other _ _ _ n (text v) _ _ (system_not_meta n)) in E1. apply (push_meta_spec _ _ n v Hn) in E2. rewrite E1 in E2.
    assert (H2 : (meta_label n, text v) ∈ o2 <-> carries headers n v) by (rewrite E2; split; [intros [?%elem_of_empty|?]; done|by right]).
    destruct (get_str headers (as_bytes "x-amz-tagging")) as [tagging|]; cbn [mbind result_bind].
    - destruct (parse_tagging_header tagging) as [tags|]; [|done]. cbn [mbind result_bind]. destruct (_ <? _)%nat; [done|]. destruct (push_tags _ _ _) as [o3|] eqn:E3; [|done]. cbn [mbind result_bind].
      destruct (_ <? _)%nat; [done|]. intros [= <-]. by rewrite (push_tags_other _ _ n (text v) _ _ E3 eq_refl).
    - destruct (_ <? _)%nat; [done|]. by intros [= <-]. }
  rewrite <- Hset. unfold meta_headers. rewrite list_elem_of_omap. split.
  - intros ([k w] & Hkw & E). cbn [fst snd] in E. destruct (strip_prefix (as_bytes "amz-meta-") (as_bytes k)) as [m|] eqn:Es; [|done]. cbn [fmap option_fmap option_map] in E. apply (inj Some), pair_equal_spec in E as [Em Ew]. apply app_inv_head in Em as ->. apply strip_prefix_spec in Es. rewrite <- meta_label_bytes in Es. apply as_bytes_inj in Es as ->.
    assert (text v = w) as -> by (apply as_bytes_inj; by rewrite as_bytes_text, Ew). unfold label_rows in Hkw. rewrite merge_sort_Permutation in Hkw. by apply elem_of_elements.
  - intros Hin. exists (meta_label n, text v). split; [unfold label_rows; rewrite merge_sort_Permutation; by apply elem_of_elements|]. cbn [fst snd]. rewrite (proj2 (strip_prefix_spec _ _ n)) by apply meta_label_bytes. cbn [fmap option_fmap option_map]. by rewrite as_bytes_text.
Qed.

Module MetaWitness.
Definition limits : LabelLimits := mkLabelLimits 20 128 1024.
Definition object (labels : LabelSet) : Metadata := mkMetadata 0 0 0 "" "b" "k" "" "" labels None None None None None None None None.
Definition labels_or_none (r : result S3Error LabelSet) : LabelSet := match r with Ok out => out | Err _ => ∅ end.
Lemma labels_ok r : is_ok r = true -> r = Ok (labels_or_none r).
Proof. by destruct r. Qed.

Definition tagged : Metadata := object {[("amz-content-type", "text/plain"); ("colour", "red")]}.
Definition retagged : result S3Error LabelSet := replace_tags tagged [("Colour", "blue")] limits.
Lemma retagged_runs : retagged = Ok (labels_or_none retagged).
Proof. apply labels_ok. vm_compute. reflexivity. Qed.
Lemma replace_tags_exact_witness :
  (forall kv, is_amz kv.1 = true -> (kv ∈ labels_or_none retagged <-> kv ∈ md_labels tagged)) /\
  (forall kv, is_amz kv.1 = false -> (kv ∈ labels_or_none retagged <-> kv ∈ (fun t : string * string => (lower t.1, t.2)) <$> [("Colour", "blue")])) /\ (length [("Colour", "blue")] <= 10)%nat.
Proof. exact (replace_tags_exact tagged [("Colour"%string, "blue"%string)] limits (labels_or_none retagged) retagged_runs). Defined.

Definition sent : HeaderMap := [(as_bytes "Host", as_bytes "h"); (as_bytes "X-Amz-Meta-Owner", as_bytes "alice"); (as_bytes "content-type", as_bytes "text/plain")].
Definition given : result S3Error LabelSet := labels_from_request sent limits.
Lemma given_runs : given = Ok (labels_or_none given).
Proof. apply labels_ok. vm_compute. reflexivity. Qed.
Lemma user_metadata_roundtrip_witness : (meta_prefix ++ as_bytes "owner", as_bytes "alice") ∈ meta_headers (object (labels_or_none given)) <-> carries sent (as_bytes "owner") (as_bytes "alice").
Proof. exact (user_metadata_roundtrip sent limits (object (labels_or_none given)) (as_bytes "owner") (as_bytes "alice") given_runs ltac:(discriminate)). Defined.
End MetaWitness.
