(* ===== verification/UserStore.v ===== *)
(** * The user store

    Models the table operations of y2q-core/src/crypto/user_store.rs.  The redb database
    (and the JSON codec of a row) is third-party code: [UserDbOps] is the part of it the
    store calls, one call per transaction, and [UserDbLaws] what a transactional ordered
    table promises: a committed write is what later reads see, and a failed one leaves
    the table as it was.  [Module ToyDb] is a table that keeps its rows in a map. *)

From stdpp Require Import sorting.
From S2P Require Import Prelude Primitives Types Crypto Slots Session BucketKeys.

(** Errors carry the message of the failing step. *)
Class UserDbOps : Type := {
  udb : Type;
  udb_get : udb -> string -> result string (option UserRecord);
  udb_insert : udb -> string -> UserRecord -> result string udb;
  udb_remove : udb -> string -> result string (bool * udb);
  udb_rows : udb -> result string (list UserRecord);
}.

Class UserDbLaws {U : UserDbOps} : Type := {
  udb_view : udb -> gmap string UserRecord;
  udb_get_view : forall d k o, udb_get d k = Ok o -> o = udb_view d !! k;
  udb_insert_view : forall d k rec d', udb_insert d k rec = Ok d' -> udb_view d' = <[k := rec]> (udb_view d);
  udb_remove_view : forall d k b d', udb_remove d k = Ok (b, d') ->
    b = bool_decide (is_Some (udb_view d !! k)) /\ udb_view d' = delete k (udb_view d);
  udb_rows_view : forall d l, udb_rows d = Ok l -> l ≡ₚ (map_to_list (udb_view d)).*2;
}.

Record UserSummary : Type := mkUserSummary {
  us_username : string;
  us_created_at : Z;
  us_last_login : option Z;
  us_role : Role;
}.

Definition summary_of (r : UserRecord) : UserSummary :=
  mkUserSummary (ur_username r) (ur_created_at r) (ur_last_login r) (ur_role r).

Definition by_username (a b : UserSummary) : Prop := str_le (us_username a) (us_username b).
#[global] Instance by_username_dec : RelDecision by_username.
Proof. intros a b. unfold by_username. apply _. Defined.

Definition with_last_login (r : UserRecord) (ts : Z) : UserRecord :=
  mkUserRecord (ur_username r) (ur_created_at r) (Some ts) (ur_kdf r) (ur_slots r) (ur_primary_slot r) (ur_role r).

Section user_store.
Context {U : UserDbOps}.

(** A failed transaction is a [CryptoError::UserStore]. *)
Definition db {T} (m : result string T) : result CryptoError T := map_err CUserStore m.

Definition upsert (d : udb) (record : UserRecord) : result CryptoError udb :=
  db (udb_insert d (ur_username record) record).

(** One write transaction: it reads the row and writes it back with [last_login] set. *)
Definition update_last_login (d : udb) (username : string) (ts : Z) : result CryptoError (option UserRecord * udb) :=
  existing ← db (udb_get d username);
  match existing with
  | None => Ok (None, d)
  | Some record =>
      let record := with_last_login record ts in
      d ← db (udb_insert d username record);
      Ok (Some record, d)
  end.

Definition us_get (d : udb) (username : string) : result CryptoError (option UserRecord) := db (udb_get d username).

Definition us_delete (d : udb) (username : string) : result CryptoError (bool * udb) := db (udb_remove d username).

Definition us_list (d : udb) : result CryptoError (list UserSummary) :=
  rows ← db (udb_rows d);
  Ok (merge_sort by_username (summary_of <$> rows)).

(** The store as the bucket-key layer sees it. *)
Definition reader_of (d : udb) : UserStoreReader := {| user_get := us_get d |}.

End user_store.

Section theorems.
Context {U : UserDbOps} {UL : UserDbLaws}.

Lemma us_get_view d k o : us_get d k = Ok o -> o = udb_view d !! k.
Proof. intros E%map_err_Ok. by apply udb_get_view. Qed.

Lemma upsert_view d rec d' : upsert d rec = Ok d' -> udb_view d' = <[ur_username rec := rec]> (udb_view d).
Proof. intros E%map_err_Ok. by apply udb_insert_view. Qed.

Lemma us_delete_view d k b d' : us_delete d k = Ok (b, d') ->
  b = bool_decide (is_Some (udb_view d !! k)) /\ udb_view d' = delete k (udb_view d).
Proof. intros E%map_err_Ok. by apply udb_remove_view. Qed.

Lemma update_last_login_view d k ts o d' : update_last_login d k ts = Ok (o, d') ->
  o = (fun rec => with_last_login rec ts) <$> udb_view d !! k /\
  udb_view d' = match o with Some rec => <[k := rec]> (udb_view d) | None => udb_view d end.
Proof.
  unfold update_last_login. intros E. apply bind_Ok_inv in E as (e & E1 & E). apply us_get_view in E1 as ->.
  destruct (udb_view d !! k) as [rec|]; [|by simplify_eq].
  apply bind_Ok_inv in E as (d1 & E2 & E). apply map_err_Ok in E2. apply udb_insert_view in E2. by simplify_eq.
Qed.

Lemma us_list_view d l : us_list d = Ok l -> l ≡ₚ summary_of <$> (map_to_list (udb_view d)).*2.
Proof.
  unfold us_list. intros E. apply bind_Ok_inv in E as (rows & E1 & E). apply map_err_Ok in E1.
  apply udb_rows_view in E1. injection E as <-. by rewrite merge_sort_Permutation, E1.
Qed.

End theorems.

(** ** A concrete table, for witnesses only *)

Module ToyDb.

Definition ops : UserDbOps := {|
  udb := gmap string UserRecord;
  udb_get := fun d k => Ok (d !! k);
  udb_insert := fun d k rec => Ok (<[k := rec]> d);
  udb_remove := fun d k => Ok (bool_decide (is_Some (d !! k)), delete k d);
  udb_rows := fun d => Ok (map_to_list d).*2;
|}.

Definition laws : @UserDbLaws ops.
Proof.
  refine {| udb_view := fun (d : @udb ops) => (d : gmap string UserRecord) |}; cbn; intros; by simplify_eq.
Defined.

End ToyDb.
