(* ===== verification/Accounts.v ===== *)
(** * Accounts, logins and personas

    Models y2qd/src/auth/state.rs, y2qd/src/auth/users.rs and the handlers of
    y2qd/src/auth/handlers.rs: logging in and out, refreshing, changing a password, and
    the administrator's and the account's own changes to user records.

    A handler is a [prog] over [AccountWorld]: the user table, the session store, the
    failed-login counters, the bucket configurations, the S3 state, the random source and
    a clock.  [Instant] and [SystemTime] are readings of that one clock, in nanoseconds;
    an Argon2 run takes the time the caller of the model says, and [apply_floor] sleeps.
    Metrics and log lines are not modelled, nor is the failure of a worker thread to
    join.  Key derivation is where a handler awaits: [finalize_login_after_unwrap] and the
    second halves of the other handlers start in whatever world the wait left behind. *)

From stdpp Require Import pretty sorting.
From S2P Require Import Prelude Effects Primitives Types Crypto Slots Session BucketKeys Lex Authz Upload S3State UserStore.

(** ** [auth/state.rs]: failed logins *)

Record AttemptState : Type := mkAttemptState { failed_count : Z; locked_until : option Z }.
Abbreviation LoginAttempts := (gmap string AttemptState).
Definition attempt_default : AttemptState := mkAttemptState 0 None.

Definition check_lockout (a : LoginAttempts) (username : string) (now : Z) : result Z unit * LoginAttempts :=
  match a !! username with
  | Some s =>
      match locked_until s with
      | Some until => if now <? until then (Err until, a) else (Ok tt, <[username := attempt_default]> a)
      | None => (Ok tt, a)
      end
  | None => (Ok tt, a)
  end.

Definition record_failure (a : LoginAttempts) (username : string) (max_failed lockout_duration now : Z) : LoginAttempts :=
  if max_failed =? 0 then a else
  let s := default attempt_default (a !! username) in
  let n := Z.min (failed_count s + 1) u32_max in
  <[username := mkAttemptState n (if max_failed <=? n then Some (now + lockout_duration) else locked_until s)]> a.

Definition record_success (a : LoginAttempts) (username : string) : LoginAttempts :=
  match a !! username with
  | Some _ => <[username := attempt_default]> a
  | None => a
  end.

(** ** [auth/users.rs] *)

Definition MAX_USERNAME_BYTES : Z := 64.

Definition username_byte (b : byte) : bool :=
  in_range 48 57 b || in_range 65 90 b || in_range 97 122 b ||
  bool_decide (b = x5f) || bool_decide (b = x2d) || bool_decide (b = x2e).

Definition validate (username : string) : result AuthError unit :=
  if bool_decide (username = "") then Err (InvalidUsername "empty") else
  if MAX_USERNAME_BYTES <? blen (as_bytes username) then Err (InvalidUsername "too long") else
  if negb (forallb username_byte (as_bytes username)) then Err (InvalidUsername "only [A-Za-z0-9_.-] allowed")
  else Ok tt.

(** ** Configuration and state *)

Record AuthConfig : Type := mkAuthConfig {
  default_ttl_seconds : Z;
  max_ttl_seconds : Z;
  min_login_response_ms : Z;
  max_failed_logins : Z;
  lockout_seconds : Z;
  max_refreshes : Z;
}.

Record Argon2Config : Type := mkArgon2Config { cfg_m_cost_kib : Z; cfg_t_cost : Z; cfg_p_cost : Z }.

(** The part of [AuthState] that does not change. *)
Record AuthEnv : Type := mkAuthEnv {
  auth_config : AuthConfig;
  argon2_config : Argon2Config;
  dummy_record : UserRecord;
}.

Record TokenResponse : Type := mkTokenResponse { tr_token : string; tr_expires_at : Z; tr_username : string }.

(** [Listing::list_buckets], beside the operations of [ListingOps]. *)
Class BucketEnum {L : ListingOps} : Type := { list_buckets : storage -> result Error (list string) }.

Definition parse_role (s : string) : result AuthError Role :=
  let l := to_ascii_lowercase (as_bytes s) in
  if bool_decide (l = as_bytes "admin") then Ok Admin else
  if bool_decide (l = as_bytes "user") then Ok User else
  if bool_decide (l = as_bytes "readonly") then Ok ReadOnly else
  if bool_decide (l = as_bytes "writeonly") then Ok WriteOnly else
  if bool_decide (l = as_bytes "auditor") then Ok Auditor else
  if bool_decide (l = as_bytes "disabled") then Ok Disabled else Err (InvalidRole s).

(** [AdminAuthenticated] and [AdminReadAuthenticated]. *)
Definition admin_authenticated (auth : Authenticated) : result AuthError unit :=
  if is_admin auth then Ok tt else Err AuthForbidden.
Definition admin_read_authenticated (auth : Authenticated) : result AuthError unit :=
  if is_admin_or_auditor auth then Ok tt else Err AuthForbidden.

#[global] Instance Argon2Params_eq_dec : EqDecision Argon2Params.
Proof. solve_decision. Defined.
#[global] Instance WrappedSk_eq_dec : EqDecision WrappedSk.
Proof. solve_decision. Defined.
#[global] Instance CredentialSlot_eq_dec : EqDecision CredentialSlot.
Proof. solve_decision. Defined.

Definition with_slots (rec : UserRecord) (slots : list CredentialSlot) (primary : Z) : UserRecord :=
  mkUserRecord (ur_username rec) (ur_created_at rec) (ur_last_login rec) (ur_kdf rec) slots primary (ur_role rec).
(** [rec.slots[i] = s] *)
Definition with_slot (rec : UserRecord) (i : nat) (s : CredentialSlot) : UserRecord :=
  with_slots rec (<[i := s]> (ur_slots rec)) (ur_primary_slot rec).
Definition with_role (rec : UserRecord) (role : Role) : UserRecord :=
  mkUserRecord (ur_username rec) (ur_created_at rec) (ur_last_login rec) (ur_kdf rec) (ur_slots rec)
    (ur_primary_slot rec) role.

Section accounts.
Context {A : AeadOps} {K : KemOps} {H : HkdfOps} {B : Base64Ops} {R : RngOps} {RR : RandomRange} {G : Argon2Ops}.
Context {T : TokenOps} {L : ListingOps} {BE : BucketEnum} {U : UserDbOps}.
Variable env : AuthEnv.

Abbreviation cfg := (auth_config env).

Definition new_argon2_params (r : rng) : Argon2Params * rng :=
  let c := argon2_config env in with_random_salt (cfg_m_cost_kib c) (cfg_t_cost c) (cfg_p_cost c) r.

(** [build_dummy_record]: every slot is a decoy. *)
Definition build_dummy_record (c : Argon2Config) (r : rng) : result CryptoError (UserRecord * rng) :=
  let '(params, r) := with_random_salt (cfg_m_cost_kib c) (cfg_t_cost c) (cfg_p_cost c) r in
  '(slots, r) ← decoy_slots_from "" 0 params r;
  Ok (mkUserRecord "" 0 None params slots 0 User, r).

Record AccountWorld : Type := mkAccountWorld {
  aw_users : udb;
  aw_sessions : SessionStore;
  aw_attempts : LoginAttempts;
  aw_storage : storage;
  aw_s3 : S3State;
  aw_rng : rng;
  aw_now : Z;
}.

Definition set_users (d : udb) (w : AccountWorld) : AccountWorld :=
  mkAccountWorld d (aw_sessions w) (aw_attempts w) (aw_storage w) (aw_s3 w) (aw_rng w) (aw_now w).
Definition set_sessions (s : SessionStore) (w : AccountWorld) : AccountWorld :=
  mkAccountWorld (aw_users w) s (aw_attempts w) (aw_storage w) (aw_s3 w) (aw_rng w) (aw_now w).
Definition set_attempts (a : LoginAttempts) (w : AccountWorld) : AccountWorld :=
  mkAccountWorld (aw_users w) (aw_sessions w) a (aw_storage w) (aw_s3 w) (aw_rng w) (aw_now w).
Definition set_storage (s : storage) (w : AccountWorld) : AccountWorld :=
  mkAccountWorld (aw_users w) (aw_sessions w) (aw_attempts w) s (aw_s3 w) (aw_rng w) (aw_now w).
Definition set_s3 (s : S3State) (w : AccountWorld) : AccountWorld :=
  mkAccountWorld (aw_users w) (aw_sessions w) (aw_attempts w) (aw_storage w) s (aw_rng w) (aw_now w).
Definition set_rng (r : rng) (w : AccountWorld) : AccountWorld :=
  mkAccountWorld (aw_users w) (aw_sessions w) (aw_attempts w) (aw_storage w) (aw_s3 w) r (aw_now w).
Definition set_now (t : Z) (w : AccountWorld) : AccountWorld :=
  mkAccountWorld (aw_users w) (aw_sessions w) (aw_attempts w) (aw_storage w) (aw_s3 w) (aw_rng w) t.

#[local] Abbreviation account := (prog AccountWorld AuthError).

(** ** The steps handlers are made of *)

Definition crypto {V} (m : result CryptoError V) : account V := lift_res (map_err backend m).
Definition stored {V} (m : result Error V) : account V := lift_res (map_err (fun e => Backend (Error_display e)) m).
(** A step that draws from the random source. *)
Definition draw {V} (m : rng -> result AuthError (V * rng)) : account V := fun w =>
  match m (aw_rng w) with
  | Ok (x, r) => (Ok x, set_rng r w)
  | Err e => (Err e, w)
  end.
Definition draw_crypto {V} (m : rng -> result CryptoError (V * rng)) : account V :=
  draw (fun r => map_err backend (m r)).

Definition get_user (username : string) : account (option UserRecord) := fun w =>
  crypto (us_get (aw_users w) username) w.
Definition upsert_user (rec : UserRecord) : account unit := fun w =>
  match upsert (aw_users w) rec with
  | Ok d => (Ok tt, set_users d w)
  | Err e => (Err (backend e), w)
  end.
Definition delete_record (username : string) : account bool := fun w =>
  match us_delete (aw_users w) username with
  | Ok (b, d) => (Ok b, set_users d w)
  | Err e => (Err (backend e), w)
  end.
Definition touch_last_login (username : string) : account (option UserRecord) := fun w =>
  match update_last_login (aw_users w) username (aw_now w) with
  | Ok (o, d) => (Ok o, set_users d w)
  | Err e => (Err (backend e), w)
  end.
Definition list_records : account (list UserSummary) := fun w => crypto (us_list (aw_users w)) w.

Definition note_failure (username : string) : account unit := modify (fun w =>
  set_attempts (record_failure (aw_attempts w) username (max_failed_logins cfg)
                  (lockout_seconds cfg * 1000000000) (aw_now w)) w).
Definition note_success (username : string) : account unit :=
  modify (fun w => set_attempts (record_success (aw_attempts w) username) w).
(** The lockout check; [until] of the answer is the same instant on the wall clock. *)
Definition refuse_if_locked (username : string) : account unit := fun w =>
  let '(res, a) := check_lockout (aw_attempts w) username (aw_now w) in
  (map_err LockedOut res, set_attempts a w).

Definition insert_session (s : NewSession) : account string := fun w =>
  match session_insert (aw_sessions w) s (aw_rng w) with
  | Ok (token, st, r) => (Ok token, set_rng r (set_sessions st w))
  | Err e => (Err e, w)
  end.
Definition drop_sessions (f : SessionStore -> Z * SessionStore) : account unit :=
  modify (fun w => set_sessions (snd (f (aw_sessions w))) w).
Definition switch_sessions (username : string) (persona : Z) (role : Role) (rv : bool) (sk : bytes) : account unit :=
  modify (fun w =>
    let '(_, st, r) := switch_user_to_persona (aw_sessions w) username persona role rv sk (aw_rng w) in
    set_rng r (set_sessions st w)).

(** An Argon2 run of [ns] nanoseconds. *)
Definition spend (ns : Z) : account unit := modify (fun w => set_now (aw_now w + ns) w).

Definition apply_floor (floor_ms started : Z) : account unit :=
  modify (fun w => set_now (Z.max (aw_now w) (started + floor_ms * 1000000)) w).
Abbreviation floor started := (apply_floor (min_login_response_ms cfg) started).

(** ** Opening a record's slots *)

Definition attempt_unwrap (rec : UserRecord) (password : bytes) (kdf_ns : Z)
  : account (UserRecord * nat * SlotPayload) :=
  _ ← spend kdf_ns;
  match derive_kek (ur_kdf rec) password with
  | Ok kek =>
      match open_slots (ur_username rec) kek 0 (ur_slots rec) None with
      | Some (slot, payload) => mret (rec, slot, payload)
      | None => throw InvalidCredentials
      end
  | Err _ => throw InvalidCredentials
  end.

(** One slot only. *)
Definition open_slot (rec : UserRecord) (password : bytes) (slot_idx : nat) : option SlotPayload :=
  match derive_kek (ur_kdf rec) password, ur_slots rec !! slot_idx with
  | Ok kek, Some s =>
      match unwrap_slot (wrapped s) kek (slot_wrap_aad (ur_username rec) (Z.of_nat slot_idx)) with
      | Ok b => match SlotPayload_from_bytes b with Ok p => Some p | Err _ => None end
      | Err _ => None
      end
  | _, _ => None
  end.

Definition attempt_unwrap_slot (rec : UserRecord) (password : bytes) (slot_idx : nat) (kdf_ns : Z)
  : account (UserRecord * nat * SlotPayload) :=
  _ ← guard_not (negb (slot_idx <? CREDENTIAL_SLOTS)%nat) InvalidCredentials;
  _ ← spend kdf_ns;
  match open_slot rec password slot_idx with
  | Some payload => mret (rec, slot_idx, payload)
  | None => throw InvalidCredentials
  end.

(** ** Login *)

(** [if bad { record; apply_floor; return Err(e) }] *)
Definition refuse_if (bad : bool) (started : Z) (e : AuthError) : account unit :=
  if bad then fail_after (floor started) e else mret tt.

Definition finalize_login_after_unwrap (username : string) (snapshot : UserRecord) (slot_idx : nat)
    (payload : SlotPayload) (expires_at started : Z) : account TokenResponse :=
  fresh ← get_user username;
  match fresh with
  | None => fail_after (floor started) InvalidCredentials
  | Some fresh =>
      _ ← refuse_if (negb (bool_decide (ur_kdf fresh = ur_kdf snapshot)) || negb (bool_decide (ur_slots fresh = ur_slots snapshot)))
            started InvalidCredentials;
      _ ← refuse_if (bool_decide (sp_role payload = Disabled) || bool_decide (ur_role fresh = Disabled)
                     || negb (role_permits (sp_role payload) (ur_role fresh))) started AccountDisabled;
      touched ← touch_last_login username;
      _ ← refuse_if (bool_decide (touched = None)) started InvalidCredentials;
      created_at ← gets aw_now;
      token ← insert_session (mkNewSession username (sp_role payload) created_at expires_at (Z.of_nat slot_idx)
                                (sp_revoke_other_sessions payload) (sp_identity_sk payload));
      again ← get_user username;
      _ ← (if bool_decide (again = None)
           then fail_after (_ ← drop_sessions (fun st => revoke_user st username); floor started) InvalidCredentials
           else mret tt);
      _ ← (if sp_revoke_other_sessions payload
           then switch_sessions username (Z.of_nat slot_idx) (sp_role payload) (sp_revoke_other_sessions payload)
                  (sp_identity_sk payload)
           else mret tt);
      _ ← note_success username;
      _ ← floor started;
      mret (mkTokenResponse token (to_unix expires_at) username)
  end.

Definition login (username : string) (password : bytes) (ttl_seconds : option Z) (kdf_ns : Z) : account TokenResponse :=
  _ ← lift_res (validate username);
  _ ← refuse_if_locked username;
  started ← gets aw_now;
  expires_at ← lift_res (compute_expiry ttl_seconds (default_ttl_seconds cfg) (max_ttl_seconds cfg) started);
  record ← get_user username;
  match_res
    (match record with
     | Some rec => attempt_unwrap rec password kdf_ns
     | None => match_res (attempt_unwrap (dummy_record env) password kdf_ns)
                 (fun _ => throw InvalidCredentials) (fun _ => throw InvalidCredentials)
     end)
    (fun '(rec, slot_idx, payload) => finalize_login_after_unwrap username rec slot_idx payload expires_at started)
    (fun e => fail_after (_ ← note_failure username; floor started) e).

Definition refresh (auth : Authenticated) : account TokenResponse :=
  now ← gets aw_now;
  expires_at ← lift_res (compute_expiry None (default_ttl_seconds cfg) (max_ttl_seconds cfg) now);
  token ← (fun w => match reissue (aw_sessions w) (au_token_hash auth) expires_at (max_refreshes cfg) (aw_rng w) with
                    | Ok (token, st, r) => (Ok token, set_rng r (set_sessions st w))
                    | Err e => (Err e, w)
                    end : result AuthError string * AccountWorld);
  _ ← modify (fun w => let '(s3, r) := rekey_session (aw_s3 w) (au_token_hash auth) (hash_token token) (aw_rng w) in
                       set_rng r (set_s3 s3 w));
  mret (mkTokenResponse token (to_unix expires_at) (au_username auth)).

Definition logout (auth : Authenticated) : account unit :=
  modify (fun w => set_sessions (snd (revoke (aw_sessions w) (au_token_hash auth))) w).

(** ** Changing a password *)

Definition rewrap (rec : UserRecord) (slot_idx : nat) (payload : SlotPayload) (password : bytes) (r : rng)
  : result CryptoError (CredentialSlot * rng) :=
  payload_bytes ← SlotPayload_to_bytes payload;
  '(w, r) ← wrap_slot payload_bytes password (ur_kdf rec) (slot_wrap_aad (ur_username rec) (Z.of_nat slot_idx)) r;
  Ok (mkCredentialSlot (default "" (identity_pk_b64 <$> ur_slots rec !! slot_idx)) w, r).

(** The second half: what happens once the new slot has been wrapped. *)
Definition commit_password (auth : Authenticated) (rec : UserRecord) (slot_idx : nat) (new_slot : CredentialSlot)
    (started : Z) : account unit :=
  _ ← upsert_user (with_slot rec slot_idx new_slot);
  _ ← note_success (au_username auth);
  _ ← drop_sessions (fun st => revoke_user_persona_except st (au_username auth) (si_persona (au_session auth)) (au_token_hash auth));
  floor started.

Definition change_password (auth : Authenticated) (current new : bytes) (kdf_ns : Z) : account unit :=
  let username := au_username auth in
  _ ← guard_not (bool_decide (new = [])) (InvalidBody "new password must not be empty");
  _ ← refuse_if_locked username;
  started ← gets aw_now;
  rec ← get_user username;
  match rec with
  | None => fail_after (_ ← note_failure username; floor started) InvalidCredentials
  | Some rec =>
      match_res (attempt_unwrap_slot rec current (Z.to_nat (si_persona (au_session auth))) kdf_ns)
        (fun '(rec, slot_idx, payload) =>
           new_slot ← draw_crypto (rewrap rec slot_idx payload new);
           _ ← spend kdf_ns;
           commit_password auth rec slot_idx new_slot started)
        (fun e => fail_after (_ ← note_failure username; floor started) e)
  end.

(** ** Administration *)

Definition add_user (auth : Authenticated) (username : string) (password : bytes) (role : Role) (kdf_ns : Z) : account unit :=
  _ ← lift_res (admin_authenticated auth);
  _ ← lift_res (validate username);
  _ ← guard_not (bool_decide (password = [])) (InvalidBody "password must not be empty");
  existing ← get_user username;
  _ ← guard_not (bool_decide (is_Some existing)) (UserExists username);
  params ← draw (fun r => Ok (new_argon2_params r));
  slots ← draw_crypto (fun r => '(slots, primary, r) ← new_slots_random username password params role false r; Ok ((slots, primary), r));
  _ ← spend kdf_ns;
  created_at ← gets aw_now;
  upsert_user (mkUserRecord username created_at None params (fst slots) (Z.of_nat (snd slots)) role).

Definition list_users (auth : Authenticated) : account (list UserSummary) :=
  _ ← lift_res (admin_read_authenticated auth);
  list_records.

Definition is_sole_grantee (username : string) (c : BucketConfig) : bool :=
  match current_key c with
  | Some kv => bool_decide (size (grants kv) = 1%nat) && bool_decide (is_Some (grants kv !! username))
  | None => false
  end.

Definition get_config (bucket : string) : account BucketConfig := fun w =>
  stored (get_bucket_config (aw_storage w) bucket) w.
Definition set_config (bucket : string) (c : BucketConfig) : account unit := fun w =>
  match set_bucket_config (aw_storage w) bucket c with
  | Ok st => (Ok tt, set_storage st w)
  | Err e => (Err (Backend (Error_display e)), w)
  end.
Definition buckets_ : account (list string) := fun w => stored (list_buckets (aw_storage w)) w.

Definition sole_grantee_buckets (username : string) : account (list string) :=
  buckets ← buckets_;
  for_each (fun bucket sole =>
    c ← get_config bucket;
    mret (if is_sole_grantee username c then sole ++ [bucket] else sole)) buckets [].

Definition with_keys (c : BucketConfig) (ks : list BucketKeyVersion) : BucketConfig :=
  mkBucketConfig (quota_bytes c) (default_sse c) (cors_allow_origin c) (owner c) (acl c) ks (acl_generation c).
Definition without_grant (username : string) (kv : BucketKeyVersion) : BucketKeyVersion :=
  mkBucketKeyVersion (bk_epoch kv) (public_key_b64 kv) (sk_blob kv) (delete username (grants kv)).

Definition scrub_bucket_grants (username bucket : string) (orphaned : list string) : account (list string) :=
  c ← get_config bucket;
  if negb (existsb (fun kv => bool_decide (is_Some (grants kv !! username))) (keys c)) then mret orphaned else
  let c := with_keys c (without_grant username <$> keys c) in
  let orphaned := match last (keys c) with
                  | Some newest => if bool_decide (grants newest = empty) then orphaned ++ [bucket] else orphaned
                  | None => orphaned
                  end in
  _ ← set_config bucket c;
  mret orphaned.

Definition scrub_user_grants (username : string) : account (list string) :=
  buckets ← buckets_;
  for_each (scrub_bucket_grants username) buckets [].

Definition scrub_bucket_acl (username bucket : string) (_ : unit) : account unit :=
  c ← get_config bucket;
  if bool_decide (acl c !! username = None) then mret tt else
  set_config bucket (mkBucketConfig (quota_bytes c) (default_sse c) (cors_allow_origin c) (owner c)
                       (delete username (acl c)) (keys c) (acl_generation c)).

Definition scrub_deleted_user_acl_entries (username : string) : account unit :=
  buckets ← buckets_;
  for_each (scrub_bucket_acl username) buckets tt.

(** [users.iter().filter(|(_, r)| *r == Role::Admin).count()] *)
Definition admin_count (users : list UserSummary) : nat := length (filter (fun u => us_role u = Admin) users).

(** The guard of [delete_user] on the list of accounts. *)
Definition deletable (username : string) (users : list UserSummary) : result AuthError unit :=
  if (length users <=? 1)%nat then Err CannotDeleteLastUser else
  let target_is_admin := existsb (fun u => bool_decide (us_username u = username) && bool_decide (us_role u = Admin)) users in
  if target_is_admin && (admin_count users <=? 1)%nat then Err CannotDeleteLastAdmin else Ok tt.

Definition delete_user (auth : Authenticated) (username : string) (force : bool) : account unit :=
  _ ← lift_res (admin_authenticated auth);
  _ ← (if force then mret tt else
       sole ← sole_grantee_buckets username;
       guard_not (negb (bool_decide (sole = []))) (CannotDeleteSoleGrantee sole));
  users ← list_records;
  _ ← lift_res (deletable username users);
  removed ← delete_record username;
  _ ← guard_not (negb removed) (UserNotFound username);
  _ ← scrub_user_grants username;
  _ ← scrub_deleted_user_acl_entries username;
  drop_sessions (fun st => revoke_user st username).

Definition set_role (auth : Authenticated) (username role : string) : account unit :=
  _ ← lift_res (admin_authenticated auth);
  new_role ← lift_res (parse_role role);
  current ← get_user username;
  users ← list_records;
  current_role ← lift_res (ok_or (ur_role <$> current) (UserNotFound username));
  _ ← guard_not (bool_decide (current_role = Admin) && negb (bool_decide (new_role = Admin)) && (admin_count users <=? 1)%nat)
        CannotDemoteLastAdmin;
  rec ← get_user username;
  rec ← lift_res (ok_or rec (UserNotFound username));
  _ ← upsert_user (with_role rec new_role);
  drop_sessions (fun st => revoke_user st username).

Definition reset_identity (auth : Authenticated) (username : string) (password : bytes) (kdf_ns : Z) : account (list string) :=
  _ ← lift_res (admin_authenticated auth);
  _ ← guard_not (bool_decide (password = [])) (InvalidBody "password must not be empty");
  rec ← get_user username;
  rec ← lift_res (ok_or rec (UserNotFound username));
  slots ← draw_crypto (fun r => '(slots, primary, r) ← new_slots_random username password (ur_kdf rec) (ur_role rec) false r; Ok ((slots, primary), r));
  _ ← spend kdf_ns;
  _ ← upsert_user (with_slots rec (fst slots) (Z.of_nat (snd slots)));
  _ ← drop_sessions (fun st => revoke_user st username);
  scrub_user_grants username.

(** ** Personas *)

Definition persona_slot (auth : Authenticated) (slot : Z) : account nat :=
  _ ← guard_not (negb (Z.to_nat slot <? CREDENTIAL_SLOTS)%nat) (InvalidPersonaSlot "slot must be in range 0..CREDENTIAL_SLOTS");
  _ ← guard_not (slot =? si_persona (au_session auth))
        (InvalidPersonaSlot "cannot overwrite the slot this session is currently authenticated through");
  mret (Z.to_nat slot).

(** Whether [kek] opens any slot; every slot is tried. *)
Fixpoint collides (username : string) (kek : bytes) (i : nat) (slots : list CredentialSlot) : bool :=
  match slots with
  | [] => false
  | s :: rest => is_ok (unwrap_slot (wrapped s) kek (slot_wrap_aad username (Z.of_nat i))) || collides username kek (S i) rest
  end.

Definition distinct_slot (rec : UserRecord) (slot : nat) (password : bytes) (role : Role) (rv : bool) (r : rng)
  : result CryptoError (option CredentialSlot * rng) :=
  kek ← derive_kek (ur_kdf rec) password;
  if collides (ur_username rec) kek 0 (ur_slots rec) then Ok (None, r) else
  '(s, r) ← new_slot (ur_username rec) slot password (ur_kdf rec) role rv r;
  Ok (Some s, r).

Definition create_persona (auth : Authenticated) (slot : Z) (password : bytes) (role : Role) (rv : bool) (kdf_ns : Z)
  : account string :=
  slot ← persona_slot auth slot;
  _ ← guard_not (bool_decide (password = [])) (InvalidBody "password must not be empty");
  rec ← get_user (au_username auth);
  rec ← lift_res (ok_or rec InvalidCredentials);
  _ ← guard_not (negb (role_permits role (ur_role rec)) || negb (role_permits role (au_role auth))) RoleExceedsAccount;
  fresh ← draw_crypto (distinct_slot rec slot password role rv);
  _ ← spend kdf_ns;
  new ← lift_res (ok_or fresh PasswordReused);
  _ ← upsert_user (with_slot rec slot new);
  mret ("slot " ++ pretty slot ++ " overwritten; any grants sealed to it are gone")%string.

Definition delete_persona (auth : Authenticated) (slot : Z) (kdf_ns : Z) : account unit :=
  slot ← persona_slot auth slot;
  rec ← get_user (au_username auth);
  rec ← lift_res (ok_or rec InvalidCredentials);
  decoy ← draw_crypto (decoy_slot (ur_username rec) slot (ur_kdf rec));
  _ ← spend kdf_ns;
  _ ← upsert_user (with_slot rec slot decoy);
  drop_sessions (fun st => revoke_user_persona st (au_username auth) (Z.of_nat slot)).

Definition whoami_persona (auth : Authenticated) : Z * Role := (si_persona (au_session auth), si_role (au_session auth)).

End accounts.
