(* ===== verification/AccountSafety.v ===== *)
(** * What the account handlers keep, and what a login proves

    Theorems about the handlers of [Accounts]: while requests are served one after the
    other, each user record stays well formed and an administrator exists (overlapping
    requests: [AccountThreads]); a token comes only from a password that
    opens a slot of a live record whose role admits it; an unknown username and a wrong
    password are answered alike; lockout; creating, changing and deleting personas;
    resetting an identity. *)

From stdpp Require Import pretty sorting relations.
From S2P Require Import Prelude Effects Primitives Types Crypto Slots Session BucketKeys Authz Upload S3State UserStore Accounts.

Section rules.
Context {A : AeadOps} {K : KemOps} {H : HkdfOps} {B : Base64Ops} {R : RngOps} {RR : RandomRange} {G : Argon2Ops}.
Context {T : TokenOps} {L : ListingOps} {BE : BucketEnum} {U : UserDbOps} {UL : UserDbLaws}.
Variable env : AuthEnv.

#[local] Abbreviation world := AccountWorld.

(** ** Proof rules of the steps *)

Definition view (w : world) : gmap string UserRecord := udb_view (aw_users w).

Lemma post_crypto {V} (m : result CryptoError V) (P : V -> world -> Prop) Q w :
  (forall x, m = Ok x -> P x w) -> (forall e, m = Err e -> Q (backend e) w) -> post (crypto m) P Q w.
Proof. intros HP HQ. unfold crypto. apply post_lift; destruct m; cbn; intros ? [= <-]; eauto. Qed.

Lemma post_stored {V} (m : result Error V) (P : V -> world -> Prop) Q w :
  (forall x, m = Ok x -> P x w) -> (forall e, Q e w) -> post (stored m) P Q w.
Proof. intros HP HQ. unfold stored. apply post_lift; destruct m; cbn; intros ? [= <-]; eauto. Qed.

Lemma post_get_user k (P : option UserRecord -> world -> Prop) Q w :
  P (view w !! k) w -> (forall e, Q (backend e) w) -> post (get_user k) P Q w.
Proof.
  intros HP HQ. unfold get_user. apply post_crypto; [|eauto]. intros o E%us_get_view. by subst.
Qed.

Lemma post_upsert rec (P : unit -> world -> Prop) Q w :
  (forall d, udb_view d = <[ur_username rec := rec]> (view w) -> P tt (set_users d w)) ->
  (forall e, Q (backend e) w) -> post (upsert_user rec) P Q w.
Proof.
  intros HP HQ. unfold upsert_user, post. destruct (upsert (aw_users w) rec) as [d|e] eqn:E; [|eauto].
  apply HP. by apply upsert_view.
Qed.

Lemma post_delete_record k (P : bool -> world -> Prop) Q w :
  (forall d, udb_view d = delete k (view w) -> P (bool_decide (is_Some (view w !! k))) (set_users d w)) ->
  (forall e, Q (backend e) w) -> post (delete_record k) P Q w.
Proof.
  intros HP HQ. unfold delete_record, post. destruct (us_delete (aw_users w) k) as [[b d]|e] eqn:E; [|eauto].
  apply us_delete_view in E as [-> Hd]. by apply HP.
Qed.

Lemma post_touch k (P : option UserRecord -> world -> Prop) Q w :
  (forall d rec, view w !! k = Some rec -> udb_view d = <[k := with_last_login rec (aw_now w)]> (view w) ->
     P (Some (with_last_login rec (aw_now w))) (set_users d w)) ->
  (forall d, view w !! k = None -> udb_view d = view w -> P None (set_users d w)) ->
  (forall e, Q (backend e) w) -> post (touch_last_login k) P Q w.
Proof.
  intros HP HN HQ. unfold touch_last_login, post.
  destruct (update_last_login (aw_users w) k (aw_now w)) as [[o d]|e] eqn:E; [|eauto].
  apply update_last_login_view in E as [-> Hd]. fold (view w) in *.
  destruct (view w !! k) as [rec|] eqn:Ek; cbn in *; [by apply HP | by apply HN].
Qed.

Lemma post_list_records (P : list UserSummary -> world -> Prop) Q w :
  (forall l, l ≡ₚ summary_of <$> (map_to_list (view w)).*2 -> P l w) ->
  (forall e, Q (backend e) w) -> post list_records P Q w.
Proof. intros HP HQ. unfold list_records. apply post_crypto; [|eauto]. intros l E%us_list_view. by apply HP. Qed.

Lemma post_draw {V} (m : rng -> result AuthError (V * rng)) (P : V -> world -> Prop) Q w :
  (forall x r, m (aw_rng w) = Ok (x, r) -> P x (set_rng r w)) -> (forall e, m (aw_rng w) = Err e -> Q e w) ->
  post (draw m) P Q w.
Proof. intros HP HQ. unfold draw, post. destruct (m (aw_rng w)) as [[x r]|e]; eauto. Qed.

Lemma post_draw_crypto {V} (m : rng -> result CryptoError (V * rng)) (P : V -> world -> Prop) Q w :
  (forall x r, m (aw_rng w) = Ok (x, r) -> P x (set_rng r w)) -> (forall e, Q (backend e) w) ->
  post (draw_crypto m) P Q w.
Proof.
  intros HP HQ. unfold draw_crypto. apply post_draw; intros x.
  - intros r E%map_err_Ok. by apply HP.
  - destruct (m (aw_rng w)) as [[? ?]|e]; cbn; intros [= <-]. eauto.
Qed.

Lemma post_insert_session s (P : string -> world -> Prop) Q w :
  (forall token st r, session_insert (aw_sessions w) s (aw_rng w) = Ok (token, st, r) -> P token (set_rng r (set_sessions st w))) ->
  (forall e, Q e w) -> post (insert_session s) P Q w.
Proof. intros HP HQ. unfold insert_session, post. destruct (session_insert _ _ _) as [[[tk st] r]|e] eqn:E; eauto. Qed.

Lemma post_refuse_if_locked k (P : unit -> world -> Prop) Q w :
  (forall a, check_lockout (aw_attempts w) k (aw_now w) = (Ok tt, a) -> P tt (set_attempts a w)) ->
  (forall until a, check_lockout (aw_attempts w) k (aw_now w) = (Err until, a) -> Q (LockedOut until) (set_attempts a w)) ->
  post (refuse_if_locked k) P Q w.
Proof.
  intros HP HQ. unfold refuse_if_locked, post. destruct (check_lockout _ _ _) as [[[]|u] a] eqn:E; cbn; eauto.
Qed.

Lemma post_fail_after {V} (h : prog world AuthError unit) e (P : V -> world -> Prop) Q w :
  post h (fun _ => Q e) Q w -> post (fail_after h e) P Q w.
Proof. intros HP. unfold fail_after. apply post_bind. eapply post_mono; [| |exact HP]; [|done]. intros [] w' ?. by apply post_throw. Qed.

Lemma post_refuse_if bad started e (P : unit -> world -> Prop) Q w :
  (bad = false -> P tt w) ->
  (bad = true -> Q e (set_now (Z.max (aw_now w) (started + min_login_response_ms (auth_config env) * 1000000)) w)) ->
  post (refuse_if env bad started e) P Q w.
Proof. intros HP HQ. unfold refuse_if. destruct bad; [|by apply HP]. apply post_fail_after, post_modify. by apply HQ. Qed.

Lemma post_get_config b (P : BucketConfig -> world -> Prop) Q w :
  (forall c, get_bucket_config (aw_storage w) b = Ok c -> P c w) -> (forall e, Q e w) -> post (get_config b) P Q w.
Proof. intros HP HQ. unfold get_config. apply post_stored; eauto. Qed.

Lemma post_set_config b c (P : unit -> world -> Prop) Q w :
  (forall st, set_bucket_config (aw_storage w) b c = Ok st -> P tt (set_storage st w)) -> (forall e, Q e w) ->
  post (set_config b c) P Q w.
Proof. intros HP HQ. unfold set_config, post. destruct (set_bucket_config _ _ _) eqn:E; eauto. Qed.

Lemma post_buckets (P : list string -> world -> Prop) Q w :
  (forall bs, list_buckets (aw_storage w) = Ok bs -> P bs w) -> (forall e, Q e w) -> post buckets_ P Q w.
Proof. intros HP HQ. unfold buckets_. apply post_stored; eauto. Qed.

Lemma post_attempt_unwrap rec pw ns (P : UserRecord * nat * SlotPayload -> world -> Prop) Q w :
  (forall kek i p, derive_kek (ur_kdf rec) pw = Ok kek -> open_slots (ur_username rec) kek 0 (ur_slots rec) None = Some (i, p) ->
     P (rec, i, p) (set_now (aw_now w + ns) w)) ->
  Q InvalidCredentials (set_now (aw_now w + ns) w) -> post (attempt_unwrap rec pw ns) P Q w.
Proof.
  intros HP HQ. unfold attempt_unwrap. apply post_bind, post_modify.
  destruct (derive_kek (ur_kdf rec) pw) as [kek|e] eqn:Ek; [|done].
  destruct (open_slots _ kek 0 _ None) as [[i p]|] eqn:Eo; [|done]. apply post_ret. by eapply HP.
Qed.

Lemma post_attempt_unwrap_slot rec pw i ns (P : UserRecord * nat * SlotPayload -> world -> Prop) Q w :
  (forall p, (i < CREDENTIAL_SLOTS)%nat -> open_slot rec pw i = Some p -> P (rec, i, p) (set_now (aw_now w + ns) w)) ->
  (forall t, Q InvalidCredentials (set_now t w)) -> post (attempt_unwrap_slot rec pw i ns) P Q w.
Proof.
  intros HP HQ. unfold attempt_unwrap_slot. apply post_bind, post_guard.
  2: { intros _. replace w with (set_now (aw_now w) w) by (by destruct w). apply HQ. }
  intros Hi. apply post_bind, post_modify. destruct (open_slot rec pw i) as [p|] eqn:E; [|apply post_throw, HQ].
  apply post_ret, HP; [|done]. by apply negb_false_iff, Nat.ltb_lt in Hi.
Qed.

End rules.

(** Walk a handler with the rules above. *)
Ltac account_steps :=
  repeat first
    [ apply post_get_user | apply post_upsert | apply post_delete_record | apply post_touch | apply post_list_records
    | apply post_draw_crypto | apply post_draw | apply post_insert_session | apply post_refuse_if_locked
    | apply post_fail_after | apply post_refuse_if | apply post_get_config | apply post_set_config | apply post_buckets
    | apply post_attempt_unwrap | apply post_attempt_unwrap_slot
    | apply post_bind | apply post_ret | apply post_gets | apply post_modify | apply post_throw
    | apply post_guard | apply post_lift | apply post_match ].

(** ** The invariant *)

Section invariant.
Context {A : AeadOps} {K : KemOps} {H : HkdfOps} {B : Base64Ops} {R : RngOps} {RR : RandomRange} {G : Argon2Ops}.
Context {T : TokenOps} {L : ListingOps} {BE : BucketEnum} {U : UserDbOps} {UL : UserDbLaws} {RRL : RandomRangeLaws}.
Variable env : AuthEnv.

(** A record sits under its own name, has exactly four slots, and its primary slot is one
    of them. *)
Definition record_ok (k : string) (rec : UserRecord) : Prop :=
  ur_username rec = k /\ length (ur_slots rec) = CREDENTIAL_SLOTS /\ 0 <= ur_primary_slot rec < 4.

Definition accounts_ok (w : AccountWorld) : Prop :=
  map_Forall record_ok (view w) /\ exists k rec, view w !! k = Some rec /\ ur_role rec = Admin.

(** What makes overwriting a record safe for the invariant. *)
Lemma accounts_ok_upsert w d rec :
  accounts_ok w -> record_ok (ur_username rec) rec ->
  udb_view d = <[ur_username rec := rec]> (view w) ->
  (ur_role rec = Admin \/
   (exists k a, k <> ur_username rec /\ view w !! k = Some a /\ ur_role a = Admin)) ->
  accounts_ok (set_users d w).
Proof.
  intros [Hall _] Hr Hv Hadm. unfold accounts_ok, view in *. cbn [aw_users set_users]. rewrite Hv. split.
  - by apply map_Forall_insert_2.
  - destruct Hadm as [?|(k & a & Hk & Ha & ?)].
    + exists (ur_username rec), rec. by rewrite lookup_insert_eq.
    + exists k, a. by rewrite lookup_insert_ne by done.
Qed.

(** A new value of an existing record that keeps its role. *)
Lemma accounts_ok_rewrite w d k old rec :
  accounts_ok w -> view w !! k = Some old -> ur_username rec = k -> ur_role rec = ur_role old ->
  record_ok k rec -> udb_view d = <[ur_username rec := rec]> (view w) -> accounts_ok (set_users d w).
Proof.
  intros Hok Hk <- Hrole Hrec Hv. apply (accounts_ok_upsert w d rec); try done.
  destruct Hok as [_ (a & ra & Ha & Hadm)]. destruct (decide (a = ur_username rec)) as [->|Hne].
  - left. rewrite Hk in Ha. injection Ha as <-. congruence.
  - right. eauto.
Qed.

Lemma collect_slots_length f l : forall r ss r', collect_slots f l r = Ok (ss, r') -> length ss = length l.
Proof using.
  induction l as [|i l IH]; intros r ss r' E; cbn [collect_slots] in E; [by simplify_eq|].
  apply bind_Ok_inv in E as ([s r1] & _ & E). apply bind_Ok_inv in E as ([ss1 r2] & E1 & E).
  apply IH in E1. simplify_eq. cbn. congruence.
Qed.

Lemma new_slots_shape u pw params role rv r slots i r' :
  new_slots_random u pw params role rv r = Ok (slots, i, r') ->
  length slots = CREDENTIAL_SLOTS /\ 0 <= Z.of_nat i < 4.
Proof using RRL.
  unfold new_slots_random. pose proof (random_range_lt r CREDENTIAL_SLOTS) as Hlt.
  destruct (random_range r CREDENTIAL_SLOTS) as [real r1]. intros E.
  apply bind_Ok_inv in E as ([ss r2] & E1 & E). apply collect_slots_length in E1. injection E as <- <- <-.
  cbn [fst] in Hlt. unfold CREDENTIAL_SLOTS in *. rewrite length_seq in E1. split; [done|].
  specialize (Hlt ltac:(lia)). lia.
Qed.

Lemma length_filter_fmap {X Y} (f : X -> Y) (P : Y -> Prop) `{forall y, Decision (P y)} (l : list X) :
  length (filter P (f <$> l)) = length (filter (fun x => P (f x)) l).
Proof using.
  induction l as [|x l IH]; [done|]. rewrite fmap_cons, !filter_cons. destruct (decide (P (f x))); cbn; congruence.
Qed.

(** The records of a listing, and the administrators among them. *)
Lemma admin_count_view w l :
  l ≡ₚ summary_of <$> (map_to_list (view w)).*2 ->
  admin_count l = size (filter (fun kr => ur_role kr.2 = Admin) (view w)).
Proof.
  intros Hl. unfold admin_count. rewrite Hl, <- list_fmap_compose.
  rewrite <- (length_map_to_list (filter _ _)), length_filter_fmap.
  apply Permutation_length. apply NoDup_Permutation; [apply NoDup_filter, NoDup_map_to_list | apply NoDup_map_to_list |].
  intros [k rec]. rewrite list_elem_of_filter, !elem_of_map_to_list, map_lookup_filter_Some. cbn. tauto.
Qed.

(** With two administrators there is one beside any given account. *)
Lemma other_admin w k : accounts_ok w -> (1 < size (filter (fun kr => ur_role kr.2 = Admin) (view w)))%nat ->
  exists k' a, k' <> k /\ view w !! k' = Some a /\ ur_role a = Admin.
Proof.
  intros _ Hs. set (m := filter _ (view w)) in *.
  destruct (map_choose (delete k m)) as (k' & a & Ha).
  { intros He. assert (size m <= 1)%nat; [|lia].
    transitivity (size (<[k := default (mkUserRecord "" 0 None (mkArgon2Params 0 0 0 []) [] 0 User) (m !! k)]> (delete k m))).
    - destruct (m !! k) as [r|] eqn:Ek; cbn.
      + rewrite insert_delete_id; done.
      + rewrite delete_id by done. rewrite map_size_insert_None by done. lia.
    - rewrite He, map_size_insert_None, map_size_empty by apply lookup_empty. done. }
  apply lookup_delete_Some in Ha as [Hne Ha]. apply map_lookup_filter_Some in Ha as [Ha Hadm].
  exists k', a. by split_and!.
Qed.

Abbreviation keeps m := (forall w, accounts_ok w -> post m (fun _ => accounts_ok) (fun _ => accounts_ok) w).

(** Closes the goals of a walk in which the user table is as it was. *)
Ltac unchanged := intros; first [assumption | done].

Lemma finalize_keeps u snap i p e st : keeps (finalize_login_after_unwrap env u snap i p e st).
Proof.
  intros w Hok. unfold finalize_login_after_unwrap. account_steps; [|unchanged].
  destruct (view w !! u) as [fresh|] eqn:Eu; account_steps; try unchanged. intros _.
  account_steps; try unchanged. intros _. account_steps; try unchanged.
  - intros d rec Hrec Hd. rewrite Eu in Hrec. injection Hrec as <-.
    assert (Hok' : accounts_ok (set_users d w)).
    { destruct (proj1 Hok u fresh Eu) as (Hn & Hl & Hpr).
      apply (accounts_ok_rewrite w d u fresh (with_last_login fresh (aw_now w))); try done. cbn. by rewrite Hn. }
    account_steps; try unchanged. intros _. account_steps; try unchanged. intros token s r _.
    account_steps; try unchanged. case_bool_decide; account_steps; try unchanged.
    destruct (sp_revoke_other_sessions p); account_steps; try unchanged.
    destruct (switch_user_to_persona _ _ _ _ _ _ _) as [[n s'] r']. done.
  - intros d Hn _. congruence.
Qed.

Lemma login_keeps u pw ttl ns : keeps (login env u pw ttl ns).
Proof.
  intros w Hok. unfold login. account_steps; try unchanged. intros [] _. account_steps; try unchanged.
  intros a _. account_steps; try unchanged. intros e _. account_steps; try unchanged.
  destruct (view _ !! u) as [rec|]; account_steps; try unchanged.
  intros kek i p _ _. by apply finalize_keeps.
Qed.

Lemma refresh_keeps auth : keeps (refresh env auth).
Proof.
  intros w Hok. unfold refresh. account_steps; try unchanged. intros e _. account_steps.
  unfold post at 1. destruct (reissue _ _ _ _ _) as [[[tk st] r]|]; [|done].
  account_steps. by destruct (rekey_session _ _ _ _) as [s3 r'].
Qed.

(** A record read from the store, with one slot rewritten. *)
Lemma with_slot_keeps w d k rec i s :
  accounts_ok w -> view w !! k = Some rec -> udb_view d = <[ur_username rec := with_slot rec i s]> (view w) ->
  accounts_ok (set_users d w).
Proof.
  intros Hok Hk Hd. destruct (proj1 Hok k rec Hk) as (Hn & Hl & Hp).
  apply (accounts_ok_rewrite w d k rec (with_slot rec i s)); try done.
  split; [done|]. split; [|done]. cbn. by rewrite length_insert.
Qed.

Lemma change_password_keeps auth cur new ns : keeps (change_password env auth cur new ns).
Proof.
  intros w Hok. unfold change_password, commit_password. cbv zeta. account_steps; try unchanged. intros _.
  account_steps; try unchanged. intros a _. account_steps; try unchanged.
  destruct (view _ !! _) as [rec|] eqn:Er; account_steps; try unchanged.
  intros p Hi _. account_steps; try unchanged. intros s r _. account_steps; try unchanged.
  intros d Hd. account_steps. exact (with_slot_keeps w d _ rec _ s Hok Er Hd).
Qed.

Lemma add_user_keeps auth u pw role ns : keeps (add_user env auth u pw role ns).
Proof.
  intros w Hok. unfold add_user. account_steps; try unchanged. intros [] _. account_steps; try unchanged.
  intros [] _. account_steps; try unchanged. intros _. account_steps; try unchanged. intros Hnew.
  account_steps; try unchanged. intros params r _. account_steps; try unchanged. intros [slots i] r' E.
  apply bind_Ok_inv in E as ([[ss j] r2] & E & E'). injection E' as -> -> ->. apply new_slots_shape in E as [Hl Hj].
  account_steps; try unchanged. intros d Hd. apply bool_decide_eq_false, eq_None_not_Some in Hnew.
  apply (accounts_ok_upsert w d _ Hok) in Hd; [done|done|]. right.
  destruct Hok as [_ (k & a & Hk & Ha)]. exists k, a. split_and!; try done. cbn. congruence.
Qed.

Lemma scrub_grants_keeps u : keeps (scrub_user_grants u).
Proof.
  intros w Hok. unfold scrub_user_grants. account_steps; try unchanged. intros bs _.
  apply post_for_each; [|done]. intros b o w' _ Hok'. unfold scrub_bucket_grants. account_steps; try unchanged.
  intros c _. case_match; account_steps; try unchanged.
Qed.

Lemma scrub_acl_keeps u : keeps (scrub_deleted_user_acl_entries u).
Proof.
  intros w Hok. unfold scrub_deleted_user_acl_entries. account_steps; try unchanged. intros bs _.
  apply post_for_each; [|done]. intros b o w' _ Hok'. unfold scrub_bucket_acl. account_steps; try unchanged.
  intros c _. case_match; account_steps; try unchanged.
Qed.

Lemma sole_grantee_keeps u : keeps (sole_grantee_buckets u).
Proof.
  intros w Hok. unfold sole_grantee_buckets. account_steps; try unchanged. intros bs _.
  apply post_for_each; [|done]. intros b o w' _ Hok'. account_steps; unchanged.
Qed.

Lemma deletable_leaves_admin w l u :
  accounts_ok w -> l ≡ₚ summary_of <$> (map_to_list (view w)).*2 -> deletable u l = Ok tt ->
  exists k a, k <> u /\ view w !! k = Some a /\ ur_role a = Admin.
Proof.
  intros Hok Hl E. unfold deletable in E. case_match; [done|]. case_match eqn:Et; [done|].
  apply andb_false_iff in Et as [Et|Et].
  - destruct Hok as [Hall (k & a & Hk & Ha)]. exists k, a. split_and!; try done. intros ->.
    assert (Hin : summary_of a ∈ l).
    { rewrite Hl. apply list_elem_of_fmap_2. apply list_elem_of_fmap. exists (u, a). split; [done|]. by apply elem_of_map_to_list. }
    apply not_true_iff_false in Et. apply Et. apply existsb_exists. exists (summary_of a).
    split; [by apply list_elem_of_In|]. cbn. rewrite Ha, (proj1 (Hall u a Hk)). by rewrite !bool_decide_eq_true_2.
  - apply Nat.leb_gt in Et. rewrite (admin_count_view w l Hl) in Et. by apply other_admin.
Qed.

Lemma delete_user_keeps auth u force : keeps (delete_user auth u force).
Proof.
  intros w Hok. unfold delete_user. account_steps; try unchanged. intros [] _.
  assert (Hrest : forall w', accounts_ok w' -> post (users ← list_records;
      _ ← lift_res (deletable u users); removed ← delete_record u; _ ← guard_not (negb removed) (UserNotFound u);
      _ ← scrub_user_grants u; _ ← scrub_deleted_user_acl_entries u; drop_sessions (fun st => revoke_user st u))
      (fun _ => accounts_ok) (fun _ => accounts_ok) w').
  { clear w Hok. intros w Hok. account_steps; try unchanged. intros l Hl. account_steps; try unchanged. intros [] Hdel.
    account_steps; try unchanged. intros d Hd.
    assert (Hok' : accounts_ok (set_users d w)).
    { destruct (deletable_leaves_admin w l u Hok Hl Hdel) as (k & a & Hne & Hk & Ha).
      unfold accounts_ok, view in *. cbn [aw_users set_users]. rewrite Hd. split.
      - apply map_Forall_delete, Hok.
      - exists k, a. by rewrite lookup_delete_ne. }
    account_steps; try unchanged. intros _. apply post_bind. eapply post_mono; [| |by apply scrub_grants_keeps]; [|done].
    intros o w2 Hok2. apply post_bind. eapply post_mono; [| |by apply scrub_acl_keeps]; [|done]. done. }
  apply post_bind. destruct force; [apply post_ret; by apply Hrest|]. apply post_bind.
  eapply post_mono; [| |by apply sole_grantee_keeps]; [|done]. intros sole w' Hok'.
  apply post_guard; intros _; [by apply Hrest | done].
Qed.

Lemma set_role_keeps auth u role : keeps (set_role auth u role).
Proof.
  intros w Hok. unfold set_role. account_steps; try unchanged. intros [] _. account_steps; try unchanged.
  intros nr _. account_steps; try unchanged. intros l Hl. account_steps; try unchanged. intros cr Hcr.
  account_steps; try unchanged. intros Hg. account_steps; try unchanged. intros rec Hrec. account_steps; try unchanged.
  intros d Hd. account_steps. destruct (view w !! u) as [old|] eqn:Eu; [|done]. cbn in Hrec, Hcr. simplify_eq.
  destruct (proj1 Hok u rec Eu) as (Hn & Hlen & Hp).
  apply (accounts_ok_upsert w d _ Hok) in Hd; [done| by split |]. cbn [ur_role with_role ur_username].
  destruct (decide (nr = Admin)) as [->|Hnr]; [by left|]. right. rewrite Hn.
  destruct (decide (ur_role rec = Admin)) as [Ha|Ha].
  - rewrite (bool_decide_eq_true_2 _ Ha), (bool_decide_eq_false_2 _ Hnr) in Hg. cbn in Hg.
    apply Nat.leb_gt in Hg. rewrite (admin_count_view w l Hl) in Hg. by apply other_admin.
  - destruct Hok as [_ (k & a & Hk & Hka)]. exists k, a. split_and!; try done. congruence.
Qed.

Lemma reset_identity_keeps auth u pw ns : keeps (reset_identity auth u pw ns).
Proof.
  intros w Hok. unfold reset_identity. account_steps; try unchanged. intros [] _. account_steps; try unchanged.
  intros _. account_steps; try unchanged. intros rec Hrec. account_steps; try unchanged. intros [slots i] r E.
  apply bind_Ok_inv in E as ([[ss j] r2] & E & E'). injection E' as -> -> ->. apply new_slots_shape in E as [Hl Hj].
  account_steps; try unchanged. intros d Hd. apply post_bind, post_modify.
  destruct (view w !! u) as [old|] eqn:Eu; [|done]. cbn in Hrec. simplify_eq.
  destruct (proj1 Hok u rec Eu) as (Hn & _ & _). apply scrub_grants_keeps.
  apply (accounts_ok_rewrite w d u rec) in Hd; try done.
Qed.

Lemma create_persona_keeps auth slot pw role rv ns : keeps (create_persona auth slot pw role rv ns).
Proof.
  intros w Hok. unfold create_persona, persona_slot. account_steps; try unchanged. intros _. account_steps; try unchanged.
  intros _. account_steps; try unchanged. intros _. account_steps; try unchanged. intros rec Hrec. account_steps; try unchanged.
  intros _. account_steps; try unchanged. intros fresh r _. account_steps; try unchanged. intros s _.
  account_steps; try unchanged. intros d Hd. account_steps.
  destruct (view w !! au_username auth) as [old|] eqn:Eu; [|done]. cbn in Hrec. simplify_eq.
  exact (with_slot_keeps w d _ rec _ s Hok Eu Hd).
Qed.

Lemma delete_persona_keeps auth slot ns : keeps (delete_persona auth slot ns).
Proof.
  intros w Hok. unfold delete_persona, persona_slot. account_steps; try unchanged. intros _. account_steps; try unchanged.
  intros _. account_steps; try unchanged. intros rec Hrec. account_steps; try unchanged. intros s r _.
  account_steps; try unchanged. intros d Hd. account_steps.
  destruct (view w !! au_username auth) as [old|] eqn:Eu; [|done]. cbn in Hrec. simplify_eq.
  exact (with_slot_keeps w d _ rec _ s Hok Eu Hd).
Qed.

(** A request to an account endpoint, and what serving it leaves, whatever it answers. *)
Inductive Request : Type :=
| Login (u : string) (pw : bytes) (ttl : option Z) (ns : Z)
| Refresh (auth : Authenticated)
| Logout (auth : Authenticated)
| ChangePassword (auth : Authenticated) (cur new : bytes) (ns : Z)
| AddUser (auth : Authenticated) (u : string) (pw : bytes) (role : Role) (ns : Z)
| DeleteUser (auth : Authenticated) (u : string) (force : bool)
| SetRole (auth : Authenticated) (u role : string)
| ResetIdentity (auth : Authenticated) (u : string) (pw : bytes) (ns : Z)
| CreatePersona (auth : Authenticated) (slot : Z) (pw : bytes) (role : Role) (rv : bool) (ns : Z)
| DeletePersona (auth : Authenticated) (slot ns : Z).

Definition serve (q : Request) (w : AccountWorld) : AccountWorld :=
  match q with
  | Login u pw ttl ns => snd (login env u pw ttl ns w)
  | Refresh auth => snd (refresh env auth w)
  | Logout auth => snd (logout auth w)
  | ChangePassword auth cur new ns => snd (change_password env auth cur new ns w)
  | AddUser auth u pw role ns => snd (add_user env auth u pw role ns w)
  | DeleteUser auth u force => snd (delete_user auth u force w)
  | SetRole auth u role => snd (set_role auth u role w)
  | ResetIdentity auth u pw ns => snd (reset_identity auth u pw ns w)
  | CreatePersona auth slot pw role rv ns => snd (create_persona auth slot pw role rv ns w)
  | DeletePersona auth slot ns => snd (delete_persona auth slot ns w)
  end.

(** Requests one after the other: the next is served once the last is through. *)
Inductive account_step : AccountWorld -> AccountWorld -> Prop := step_serve q w : account_step w (serve q w).

Lemma keeps_snd {V} (m : prog AccountWorld AuthError V) w : keeps m -> accounts_ok w -> accounts_ok (snd (m w)).
Proof. intros Hm Hok. specialize (Hm w Hok). unfold post in Hm. by destruct (m w) as [[] ?]. Qed.

(** Requests that do not overlap keep the records well formed and an administrator among
    them. *)
Lemma served_in_turn (w w' : AccountWorld) : accounts_ok w -> rtc account_step w w' -> accounts_ok w'.
Proof.
  intros Hok Hs. induction Hs as [|w w1 w' Hstep _ IH]; [done|]. apply IH. clear IH.
  destruct Hstep as [[] w]; cbn [serve]; try (apply keeps_snd; [|done]).
  - apply login_keeps.
  - apply refresh_keeps.
  - done.
  - apply change_password_keeps.
  - apply add_user_keeps.
  - apply delete_user_keeps.
  - apply set_role_keeps.
  - apply reset_identity_keeps.
  - apply create_persona_keeps.
  - apply delete_persona_keeps.
Qed.

End invariant.
