(* ===== verification/AccountThreads.v ===== *)
(** * The account handlers as threads

    The worker threads of the daemon run handlers side by side.  A transaction on the user
    table is atomic, and so is one operation on a row of the session map; a handler is
    not, and neither are the methods of the session store that go over several rows.  Here
    every handler of [Accounts] is cut at those operations.  Undisturbed it does what the
    handler does; with any number of requests in flight the user records stay well formed,
    while the administrator they keep one after another can be lost. *)

From stdpp Require Import pretty sorting relations.
From S2P Require Import Prelude Effects Threads Primitives Types Crypto Slots Session BucketKeys Authz Upload S3State UserStore Accounts AccountSafety.

(** [DashMap], as far as iteration goes: it looks at one shard after the other, each under
    its lock. *)
Class Sharding : Type := { shard : bytes -> nat; shards : nat }.
Class ShardingLaws {D : Sharding} : Prop := { shard_lt : forall h, (shard h < shards)%nat }.

Section threads.
Context {A : AeadOps} {K : KemOps} {H : HkdfOps} {B : Base64Ops} {R : RngOps} {RR : RandomRange} {G : Argon2Ops}.
Context {T : TokenOps} {L : ListingOps} {BE : BucketEnum} {U : UserDbOps} {D : Sharding}.
Variable env : AuthEnv.

#[local] Abbreviation account_thread := (thread AccountWorld AuthError).
#[local] Abbreviation floor started := (apply_floor (min_login_response_ms (auth_config env)) started).

(** ** Going over the rows of the session map *)

Definition row (h : bytes) : prog AccountWorld AuthError (option SessionInfo) := gets (fun w => inner (aw_sessions w) !! h).
Definition remove_row (h : bytes) : prog AccountWorld AuthError unit :=
  modify (fun w => set_sessions (with_inner (aw_sessions w) (delete h (inner (aw_sessions w)))) w).

(** [iter().filter_map(..).collect()] *)
Fixpoint collect_rows {V} (p : bytes -> SessionInfo -> bool) (l : list nat) (victims : list bytes) (k : list bytes -> account_thread V) : account_thread V :=
  match l with
  | [] => k victims
  | j :: l => Atom (gets (fun w => victims_of (fun h i => p h i && (shard h =? j)%nat) (inner (aw_sessions w)))) (fun vs => collect_rows p l (victims ++ vs) k)
  end.
Fixpoint remove_rows {V} (victims : list bytes) (k : account_thread V) : account_thread V :=
  match victims with
  | [] => k
  | h :: victims => Atom (remove_row h) (fun _ => remove_rows victims k)
  end.
(** [revoke_user] and the methods like it *)
Definition revoke_rows {V} (p : bytes -> SessionInfo -> bool) (k : account_thread V) : account_thread V :=
  collect_rows p (seq 0 shards) [] (fun victims => remove_rows victims k).
Definition of_user (username : string) (_ : bytes) (i : SessionInfo) : bool := bool_decide (si_username i = username).

Definition switched (h : bytes) (old : SessionInfo) (persona : Z) (role : Role) (rv : bool) (sealed : SealedSecret) : SessionInfo :=
  mkSessionInfo (si_username old) role (si_created_at old) (si_expires_at old) persona rv sealed (si_refresh_count old) h cache_default.
(** Seal, and write the row that was read a moment ago. *)
Definition put_switched (username : string) (persona : Z) (role : Role) (rv : bool) (sk h : bytes) (old : SessionInfo) : prog AccountWorld AuthError unit := fun w =>
  match seal_identity (keyring (aw_sessions w)) h username persona sk (aw_rng w) with
  | Ok (sealed, r) => (Ok tt, set_rng r (set_sessions (with_inner (aw_sessions w) (<[h := switched h old persona role rv sealed]> (inner (aw_sessions w)))) w))
  | Err _ => (Ok tt, w)
  end.
Fixpoint switch_rows {V} (username : string) (persona : Z) (role : Role) (rv : bool) (sk : bytes) (victims : list bytes) (k : account_thread V) : account_thread V :=
  match victims with
  | [] => k
  | h :: victims =>
      Atom (row h) (fun old =>
      match old with
      | None => switch_rows username persona role rv sk victims k
      | Some old => Atom (put_switched username persona role rv sk h old) (fun _ => switch_rows username persona role rv sk victims k)
      end)
  end.
Definition switch_thread {V} (username : string) (persona : Z) (role : Role) (rv : bool) (sk : bytes) (k : account_thread V) : account_thread V :=
  collect_rows (fun _ i => bool_decide (si_username i = username) && negb (si_persona i =? persona)) (seq 0 shards) []
    (fun victims => switch_rows username persona role rv sk victims k).

(** ** Logins *)

Section finalize.
Variables (username : string) (snapshot : UserRecord) (slot_idx : nat) (payload : SlotPayload) (expires_at started : Z).

Definition refused (e : AuthError) : account_thread TokenResponse := Atom (floor started) (fun _ => Halt (Err e)).

Definition answer_thread (token : string) : account_thread TokenResponse :=
  Atom (note_success username) (fun _ =>
  Atom (floor started) (fun _ =>
  Halt (Ok (mkTokenResponse token (to_unix expires_at) username)))).

Definition finish_thread (token : string) : account_thread TokenResponse :=
  if sp_revoke_other_sessions payload
  then switch_thread username (Z.of_nat slot_idx) (sp_role payload) (sp_revoke_other_sessions payload) (sp_identity_sk payload) (answer_thread token)
  else answer_thread token.

Definition recheck_thread (token : string) : account_thread TokenResponse :=
  Atom (get_user username) (fun again =>
  if bool_decide (again = None)
  then revoke_rows (of_user username) (refused InvalidCredentials)
  else finish_thread token).

Definition insert_thread (created_at : Z) : account_thread TokenResponse :=
  Atom (insert_session (mkNewSession username (sp_role payload) created_at expires_at (Z.of_nat slot_idx)
          (sp_revoke_other_sessions payload) (sp_identity_sk payload))) recheck_thread.

Definition touched_thread (touched : option UserRecord) : account_thread TokenResponse :=
  if bool_decide (touched = None) then refused InvalidCredentials else Atom (gets aw_now) insert_thread.

Definition finalize_thread : account_thread TokenResponse :=
  Atom (get_user username) (fun fresh =>
  match fresh with
  | None => refused InvalidCredentials
  | Some fresh =>
      if negb (bool_decide (ur_kdf fresh = ur_kdf snapshot)) || negb (bool_decide (ur_slots fresh = ur_slots snapshot))
      then refused InvalidCredentials else
      if bool_decide (sp_role payload = Disabled) || bool_decide (ur_role fresh = Disabled)
         || negb (role_permits (sp_role payload) (ur_role fresh)) then refused AccountDisabled else
      Atom (touch_last_login username) touched_thread
  end).
End finalize.

Definition failed_thread {V} (username : string) (started : Z) (e : AuthError) : account_thread V :=
  Atom (note_failure env username) (fun _ => Atom (floor started) (fun _ => Halt (Err e))).

Definition login_thread (username : string) (password : bytes) (ttl_seconds : option Z) (kdf_ns : Z) : account_thread TokenResponse :=
  Atom (lift_res (validate username)) (fun _ =>
  Atom (refuse_if_locked username) (fun _ =>
  Atom (gets aw_now) (fun started =>
  Atom (lift_res (compute_expiry ttl_seconds (default_ttl_seconds (auth_config env)) (max_ttl_seconds (auth_config env)) started)) (fun expires_at =>
  Atom (get_user username) (fun record =>
  Atom (attempt (match record with
                 | Some rec => attempt_unwrap rec password kdf_ns
                 | None => match_res (attempt_unwrap (dummy_record env) password kdf_ns)
                             (fun _ => throw InvalidCredentials) (fun _ => throw InvalidCredentials)
                 end)) (fun opened =>
  match opened with
  | Ok (rec, slot_idx, payload) => finalize_thread username rec slot_idx payload expires_at started
  | Err e => failed_thread username started e
  end)))))).

(** [reissue]: the row is read, a new one inserted and the old one removed. *)
Definition mint_row (old : SessionInfo) (sk : bytes) (expires_at : Z) : prog AccountWorld AuthError string := fun w =>
  let '(token, r) := token_random (aw_rng w) in
  match seal_identity (keyring (aw_sessions w)) (hash_token token) (si_username old) (si_persona old) sk r with
  | Ok (identity_sk, r) =>
      let info := mkSessionInfo (si_username old) (si_role old) (si_created_at old) expires_at (si_persona old)
        (si_revoke_other_sessions old) identity_sk (si_refresh_count old + 1) (hash_token token) cache_default in
      (Ok token, set_rng r (set_sessions (with_inner (aw_sessions w) (<[hash_token token := info]> (inner (aw_sessions w)))) w))
  | Err e => (Err e, w)
  end.

Definition refresh_thread (auth : Authenticated) : account_thread TokenResponse :=
  Atom (gets aw_now) (fun now =>
  Atom (lift_res (compute_expiry None (default_ttl_seconds (auth_config env)) (max_ttl_seconds (auth_config env)) now)) (fun expires_at =>
  Atom (row (au_token_hash auth)) (fun old =>
  Atom (lift_res (ok_or old TokenInvalid)) (fun old =>
  Atom (guard_not (max_refreshes (auth_config env) <=? si_refresh_count old) RefreshLimitExceeded) (fun _ =>
  Atom (fun w => lift_res (open_identity_sk (keyring (aw_sessions w)) old) w) (fun sk =>
  Atom (mint_row old sk expires_at) (fun token =>
  Atom (remove_row (au_token_hash auth)) (fun _ =>
  Atom (modify (fun w => let '(s3, r) := rekey_session (aw_s3 w) (au_token_hash auth) (hash_token token) (aw_rng w) in
                         set_rng r (set_s3 s3 w))) (fun _ =>
  Halt (Ok (mkTokenResponse token (to_unix expires_at) (au_username auth)))))))))))).

Definition logout_thread (auth : Authenticated) : account_thread unit := Atom (remove_row (au_token_hash auth)) (fun _ => Halt (Ok tt)).

(** ** Passwords *)

Definition commit_thread (auth : Authenticated) (rec : UserRecord) (slot_idx : nat) (new_slot : CredentialSlot) (started : Z) : account_thread unit :=
  Atom (upsert_user (with_slot rec slot_idx new_slot)) (fun _ =>
  Atom (note_success (au_username auth)) (fun _ =>
  revoke_rows (fun h i => bool_decide (si_username i = au_username auth) && (si_persona i =? si_persona (au_session auth)) && negb (bool_decide (h = au_token_hash auth)))
    (Atom (floor started) (fun _ => Halt (Ok tt))))).

Definition change_password_thread (auth : Authenticated) (current new : bytes) (kdf_ns : Z) : account_thread unit :=
  let username := au_username auth in
  Atom (guard_not (bool_decide (new = [])) (InvalidBody "new password must not be empty")) (fun _ =>
  Atom (refuse_if_locked username) (fun _ =>
  Atom (gets aw_now) (fun started =>
  Atom (get_user username) (fun rec =>
  match rec with
  | None => failed_thread username started InvalidCredentials
  | Some rec =>
      Atom (attempt (attempt_unwrap_slot rec current (Z.to_nat (si_persona (au_session auth))) kdf_ns)) (fun opened =>
      match opened with
      | Err e => failed_thread username started e
      | Ok (rec, slot_idx, payload) =>
          Atom (draw_crypto (rewrap rec slot_idx payload new)) (fun new_slot =>
          Atom (spend kdf_ns) (fun _ => commit_thread auth rec slot_idx new_slot started))
      end)
  end)))).

(** ** Administration *)

Definition add_user_thread (auth : Authenticated) (username : string) (password : bytes) (role : Role) (kdf_ns : Z) : account_thread unit :=
  Atom (lift_res (admin_authenticated auth)) (fun _ =>
  Atom (lift_res (validate username)) (fun _ =>
  Atom (guard_not (bool_decide (password = [])) (InvalidBody "password must not be empty")) (fun _ =>
  Atom (get_user username) (fun existing =>
  Atom (guard_not (bool_decide (is_Some existing)) (UserExists username)) (fun _ =>
  Atom (draw (fun r => Ok (new_argon2_params env r))) (fun params =>
  Atom (draw_crypto (fun r => '(slots, primary, r) ← new_slots_random username password params role false r; Ok ((slots, primary), r))) (fun slots =>
  Atom (spend kdf_ns) (fun _ =>
  Atom (gets aw_now) (fun created_at =>
  Atom (upsert_user (mkUserRecord username created_at None params (fst slots) (Z.of_nat (snd slots)) role)) (fun _ => Halt (Ok tt))))))))))).

Definition sole_bucket {V} (username bucket : string) (sole : list string) (k : list string -> account_thread V) : account_thread V :=
  Atom (get_config bucket) (fun c => k (if is_sole_grantee username c then sole ++ [bucket] else sole)).
Definition grants_bucket {V} (username bucket : string) (orphaned : list string) (k : list string -> account_thread V) : account_thread V :=
  Atom (get_config bucket) (fun c =>
  if negb (existsb (fun kv => bool_decide (is_Some (grants kv !! username))) (keys c)) then k orphaned else
  let c := with_keys c (without_grant username <$> keys c) in
  let orphaned := match last (keys c) with
                  | Some newest => if bool_decide (grants newest = empty) then orphaned ++ [bucket] else orphaned
                  | None => orphaned
                  end in
  Atom (set_config bucket c) (fun _ => k orphaned)).
Definition acl_bucket {V} (username bucket : string) (_ : unit) (k : unit -> account_thread V) : account_thread V :=
  Atom (get_config bucket) (fun c =>
  if bool_decide (acl c !! username = None) then k tt else
  Atom (set_config bucket (mkBucketConfig (quota_bytes c) (default_sse c) (cors_allow_origin c) (owner c)
          (delete username (acl c)) (keys c) (acl_generation c))) k).
Definition grants_thread {V} (username : string) (k : list string -> account_thread V) : account_thread V :=
  Atom buckets_ (fun buckets => each (grants_bucket username) buckets [] k).

Definition revoke_thread (username : string) : account_thread unit := revoke_rows (of_user username) (Halt (Ok tt)).
Definition scrub_thread (username : string) : account_thread unit :=
  grants_thread username (fun _ => Atom buckets_ (fun buckets => each (acl_bucket username) buckets tt (fun _ => revoke_thread username))).
Definition removed_thread (username : string) (removed : bool) : account_thread unit :=
  Atom (guard_not (negb removed) (UserNotFound username)) (fun _ => scrub_thread username).
Definition remove_thread (username : string) : account_thread unit := Atom (delete_record username) (removed_thread username).
Definition list_thread (username : string) : account_thread unit :=
  Atom list_records (fun users => Atom (lift_res (deletable username users)) (fun _ => remove_thread username)).
Definition delete_thread (auth : Authenticated) (username : string) (force : bool) : account_thread unit :=
  Atom (lift_res (admin_authenticated auth)) (fun _ =>
  if force then list_thread username else
  Atom buckets_ (fun buckets => each (sole_bucket username) buckets [] (fun sole =>
  Atom (guard_not (negb (bool_decide (sole = []))) (CannotDeleteSoleGrantee sole)) (fun _ => list_thread username)))).

Definition set_role_thread (auth : Authenticated) (username role : string) : account_thread unit :=
  Atom (lift_res (admin_authenticated auth)) (fun _ =>
  Atom (lift_res (parse_role role)) (fun new_role =>
  Atom (get_user username) (fun current =>
  Atom list_records (fun users =>
  Atom (lift_res (ok_or (ur_role <$> current) (UserNotFound username))) (fun current_role =>
  Atom (guard_not (bool_decide (current_role = Admin) && negb (bool_decide (new_role = Admin)) && (admin_count users <=? 1)%nat)
          CannotDemoteLastAdmin) (fun _ =>
  Atom (get_user username) (fun rec =>
  Atom (lift_res (ok_or rec (UserNotFound username))) (fun rec =>
  Atom (upsert_user (with_role rec new_role)) (fun _ => revoke_thread username))))))))).

Definition reset_identity_thread (auth : Authenticated) (username : string) (password : bytes) (kdf_ns : Z) : account_thread (list string) :=
  Atom (lift_res (admin_authenticated auth)) (fun _ =>
  Atom (guard_not (bool_decide (password = [])) (InvalidBody "password must not be empty")) (fun _ =>
  Atom (get_user username) (fun rec =>
  Atom (lift_res (ok_or rec (UserNotFound username))) (fun rec =>
  Atom (draw_crypto (fun r => '(slots, primary, r) ← new_slots_random username password (ur_kdf rec) (ur_role rec) false r; Ok ((slots, primary), r))) (fun slots =>
  Atom (spend kdf_ns) (fun _ =>
  Atom (upsert_user (with_slots rec (fst slots) (Z.of_nat (snd slots)))) (fun _ =>
  revoke_rows (of_user username) (grants_thread username (fun orphaned => Halt (Ok orphaned)))))))))).

(** ** Personas *)

Definition create_persona_thread (auth : Authenticated) (slot : Z) (password : bytes) (role : Role) (rv : bool) (kdf_ns : Z) : account_thread string :=
  Atom (persona_slot auth slot) (fun slot =>
  Atom (guard_not (bool_decide (password = [])) (InvalidBody "password must not be empty")) (fun _ =>
  Atom (get_user (au_username auth)) (fun rec =>
  Atom (lift_res (ok_or rec InvalidCredentials)) (fun rec =>
  Atom (guard_not (negb (role_permits role (ur_role rec)) || negb (role_permits role (au_role auth))) RoleExceedsAccount) (fun _ =>
  Atom (draw_crypto (distinct_slot rec slot password role rv)) (fun fresh =>
  Atom (spend kdf_ns) (fun _ =>
  Atom (lift_res (ok_or fresh PasswordReused)) (fun new =>
  Atom (upsert_user (with_slot rec slot new)) (fun _ =>
  Halt (Ok ("slot " ++ pretty slot ++ " overwritten; any grants sealed to it are gone")%string)))))))))).

Definition delete_persona_thread (auth : Authenticated) (slot : Z) (kdf_ns : Z) : account_thread unit :=
  Atom (persona_slot auth slot) (fun slot =>
  Atom (get_user (au_username auth)) (fun rec =>
  Atom (lift_res (ok_or rec InvalidCredentials)) (fun rec =>
  Atom (draw_crypto (decoy_slot (ur_username rec) slot (ur_kdf rec))) (fun decoy =>
  Atom (spend kdf_ns) (fun _ =>
  Atom (upsert_user (with_slot rec slot decoy)) (fun _ =>
  revoke_rows (fun _ i => bool_decide (si_username i = au_username auth) && (si_persona i =? Z.of_nat slot)) (Halt (Ok tt)))))))).

(** A request, in flight. *)
Definition thread_of (q : Request) : Flight AccountWorld AuthError :=
  match q with
  | Login u pw ttl ns => InFlight (login_thread u pw ttl ns)
  | Refresh auth => InFlight (refresh_thread auth)
  | Logout auth => InFlight (logout_thread auth)
  | ChangePassword auth cur new ns => InFlight (change_password_thread auth cur new ns)
  | AddUser auth u pw role ns => InFlight (add_user_thread auth u pw role ns)
  | DeleteUser auth u force => InFlight (delete_thread auth u force)
  | SetRole auth u role => InFlight (set_role_thread auth u role)
  | ResetIdentity auth u pw ns => InFlight (reset_identity_thread auth u pw ns)
  | CreatePersona auth slot pw role rv ns => InFlight (create_persona_thread auth slot pw role rv ns)
  | DeletePersona auth slot ns => InFlight (delete_persona_thread auth slot ns)
  end.
End threads.

(** ** Undisturbed threads *)

Section alone.
Context {A : AeadOps} {K : KemOps} {H : HkdfOps} {B : Base64Ops} {R : RngOps} {RR : RandomRange} {G : Argon2Ops}.
Context {T : TokenOps} {L : ListingOps} {BE : BucketEnum} {U : UserDbOps} {D : Sharding} {DL : ShardingLaws}.
Variable env : AuthEnv.

#[local] Abbreviation account_thread := (thread AccountWorld AuthError).

Lemma collect_rows_alone {V} p l : forall acc (k : list bytes -> account_thread V) w,
  alone (collect_rows p l acc k) w = alone (k (acc ++ concat ((fun j => victims_of (fun h i => p h i && (shard h =? j)%nat) (inner (aw_sessions w))) <$> l))) w.
Proof using.
  induction l as [|j l IH]; intros acc k w; cbn [collect_rows alone fmap list_fmap concat]; [by rewrite app_nil_r|].
  rewrite (prog_bind_run (gets _) _ w _ w eq_refl), IH, <- app_assoc. done.
Qed.

Lemma remove_rows_alone {V} vs : forall (k : account_thread V) w, alone (remove_rows vs k) w = alone k (set_sessions (remove_all (aw_sessions w) vs) w).
Proof using.
  induction vs as [|h vs IH]; intros k w; cbn [remove_rows alone].
  - unfold remove_all, with_inner. cbn [foldl]. by destruct w as [u [] a s s3 r n].
  - rewrite (prog_bind_run (remove_row h) _ w tt _ eq_refl), IH. done.
Qed.

Lemma remove_all_same st vs vs' : (forall h, h ∈ vs <-> h ∈ vs') -> remove_all st vs = remove_all st vs'.
Proof using.
  intros Hv. unfold remove_all. f_equal. apply map_eq. intros h. rewrite !foldl_delete_lookup. destruct (decide (h ∈ vs)), (decide (h ∈ vs')); naive_solver.
Qed.

(** Shard by shard or at once, the same rows are collected. *)
Lemma elem_of_collected (p : bytes -> SessionInfo -> bool) (m : gmap bytes SessionInfo) h :
  h ∈ concat ((fun j => victims_of (fun h i => p h i && (shard h =? j)%nat) m) <$> seq 0 shards) <-> h ∈ victims_of p m.
Proof using DL.
  rewrite list_elem_of_In, List.in_concat, elem_of_victims. split.
  - intros (l & (j & <- & _)%List.in_map_iff & (i & Hi & [Hp _]%andb_true_iff)%list_elem_of_In%elem_of_victims). eauto.
  - intros (i & Hi & Hp). eexists. split.
    + apply list_elem_of_In, list_elem_of_fmap. exists (shard h). split; [done|]. apply elem_of_seq. pose proof (shard_lt h). lia.
    + apply list_elem_of_In, elem_of_victims. exists i. by rewrite Hp, Nat.eqb_refl.
Qed.

Lemma revoke_rows_alone {V} p (k : account_thread V) w :
  alone (revoke_rows p k) w = alone k (set_sessions (remove_all (aw_sessions w) (victims_of p (inner (aw_sessions w)))) w).
Proof using DL. unfold revoke_rows. rewrite collect_rows_alone, remove_rows_alone. cbn [app]. do 2 f_equal. apply remove_all_same. intros h. apply elem_of_collected. Qed.

Lemma revoke_rows_drop {V} p (f : SessionStore -> Z * SessionStore) (k : account_thread V) w : (forall st, snd (f st) = remove_all st (victims_of p (inner st))) ->
  alone (revoke_rows p k) w = (drop_sessions f ≫= fun _ => alone k) w.
Proof using DL. intros Hf. rewrite revoke_rows_alone, <- Hf. done. Qed.

Lemma set_same w : set_rng (aw_rng w) (set_sessions (aw_sessions w) w) = w.
Proof using. by destruct w. Qed.
Lemma set_twice w st r st' r' : set_rng r' (set_sessions st' (set_rng r (set_sessions st w))) = set_rng r' (set_sessions st' w).
Proof using. done. Qed.

Lemma switch_rows_alone {V} u persona role rv sk vs : forall (k : account_thread V) w,
  alone (switch_rows u persona role rv sk vs k) w =
  let '(st, r) := foldl (switch_one u persona role rv sk) (aw_sessions w, aw_rng w) vs in alone k (set_rng r (set_sessions st w)).
Proof using.
  induction vs as [|h vs IH]; intros k w; cbn [switch_rows alone foldl]; [by rewrite set_same|].
  unfold row at 1. rewrite (prog_bind_run (gets _) _ w _ w eq_refl). unfold switch_one at 2. destruct (inner (aw_sessions w) !! h) as [old|]; [|apply IH]. cbn [alone].
  unfold mbind, prog_bind, put_switched. destruct (seal_identity _ _ _ _ _ _) as [[sealed r]|]; [|apply IH]. rewrite IH. cbn [aw_sessions aw_rng set_rng set_sessions].
  destruct (foldl _ _ vs) as [st r']. done.
Qed.

(** On a map of one shard the rows are switched in the same order. *)
Lemma switch_thread_alone {V} u persona role rv sk (k : account_thread V) w : shards = 1%nat ->
  alone (switch_thread u persona role rv sk k) w = (switch_sessions u persona role rv sk ≫= fun _ => alone k) w.
Proof using DL.
  intros Hone. unfold switch_thread. rewrite collect_rows_alone, switch_rows_alone, Hone. cbn [seq fmap list_fmap concat app]. rewrite app_nil_r.
  replace (victims_of _ (inner (aw_sessions w))) with (victims_of (fun _ i => bool_decide (si_username i = u) && negb (si_persona i =? persona)) (inner (aw_sessions w))).
  2: { unfold victims_of. do 2 f_equal. apply map_filter_ext. intros h i _. cbn. pose proof (shard_lt h) as Hs. rewrite Hone in Hs. rewrite (proj2 (Nat.eqb_eq _ _)), andb_true_r by lia. done. }
  unfold switch_sessions, mbind, prog_bind, modify, switch_user_to_persona. cbv zeta. by destruct (foldl _ _ _) as [st r].
Qed.

Lemma finalize_thread_alone u snap i p e st w : sp_revoke_other_sessions p = false \/ shards = 1%nat ->
  alone (finalize_thread env u snap i p e st) w = finalize_login_after_unwrap env u snap i p e st w.
Proof using DL.
  intros Hp. unfold finalize_thread, finalize_login_after_unwrap. cbn [alone]. apply prog_bind_ext. intros [fresh|] w1; [|done]. unfold refuse_if.
  destruct (negb _ || _); [done|]. destruct (_ || negb _); [done|]. cbn [alone].
  rewrite 2 (prog_bind_run (mret tt) _ w1 tt w1 eq_refl). apply prog_bind_ext. intros o w2. unfold touched_thread.
  destruct (bool_decide (o = None)); [done|]. rewrite (prog_bind_run (mret tt) _ w2 tt w2 eq_refl). cbn [alone insert_thread recheck_thread].
  apply prog_bind_ext. intros c w3. apply prog_bind_ext. intros token w4. apply prog_bind_ext. intros o2 w5.
  destruct (bool_decide (o2 = None)); [by rewrite (revoke_rows_drop _ (fun st => revoke_user st u))|].
  unfold finish_thread. destruct (sp_revoke_other_sessions p); [|done]. destruct Hp as [|Hp]; [done|]. by rewrite switch_thread_alone.
Qed.

Lemma login_thread_alone u pw ttl ns w : shards = 1%nat -> alone (login_thread env u pw ttl ns) w = login env u pw ttl ns w.
Proof using DL.
  intros Hone. unfold login_thread, login. cbn [alone]. do 5 (apply prog_bind_ext; intros ? ?). rewrite <- attempt_match. apply prog_bind_ext.
  intros [[[rec i] p]|e] wz; [|done]. apply finalize_thread_alone. by right.
Qed.

Lemma refresh_thread_alone auth w : alone (refresh_thread env auth) w = refresh env auth w.
Proof using.
  unfold refresh_thread, refresh. cbn [alone]. apply prog_bind_ext. intros now w1. apply prog_bind_ext. intros e w2. unfold mbind, prog_bind, row, gets, lift_res, guard_not, mint_row, reissue, remove_row, modify.
  destruct (inner (aw_sessions w2) !! au_token_hash auth) as [old|]; [|done]. cbn [ok_or mbind result_bind]. destruct (_ <=? _); [done|].
  destruct (open_identity_sk _ old) as [sk|]; [|done]. cbn [mbind result_bind]. destruct (token_random (aw_rng w2)) as [token r]. destruct (seal_identity _ _ _ _ _ _) as [[sealed r']|]; [|done].
  cbn [mbind result_bind aw_s3 set_rng set_sessions aw_rng]. by destruct (rekey_session _ _ _ _).
Qed.

Lemma change_password_thread_alone auth cur new ns w : alone (change_password_thread env auth cur new ns) w = change_password env auth cur new ns w.
Proof using DL.
  unfold change_password_thread, change_password, commit_thread, commit_password. cbv zeta. cbn [alone]. do 3 (apply prog_bind_ext; intros ? ?). apply prog_bind_ext. intros [rec|] wy; [|done]. cbn [alone].
  rewrite <- attempt_match. apply prog_bind_ext. intros [[[rec' i] p]|e] wz; [|done]. cbn [alone]. do 4 (apply prog_bind_ext; intros ? ?).
  by rewrite (revoke_rows_drop _ (fun st => revoke_user_persona_except st (au_username auth) (si_persona (au_session auth)) (au_token_hash auth))).
Qed.

Lemma grants_bucket_alone {V} u b o (k : list string -> account_thread V) w : alone (grants_bucket u b o k) w = (scrub_bucket_grants u b o ≫= fun o => alone (k o)) w.
Proof using.
  unfold grants_bucket, scrub_bucket_grants. cbn [alone]. unfold mbind, prog_bind. destruct (get_config b w) as [[c|e] w1]; [|done].
  destruct (negb _); [done|]. cbn [alone]. unfold mbind, prog_bind. by destruct (set_config _ _ w1) as [[]].
Qed.
Lemma grants_thread_alone {V} u (k : list string -> account_thread V) w : alone (grants_thread u k) w = (scrub_user_grants u ≫= fun o => alone (k o)) w.
Proof using.
  unfold grants_thread, scrub_user_grants. cbn [alone]. unfold mbind at 1 2, prog_bind at 1 2. unfold mbind at 1, prog_bind at 1. destruct (buckets_ w) as [[bs|e] w1]; [|done].
  apply (each_alone (grants_bucket u) (scrub_bucket_grants u)). intros. apply grants_bucket_alone.
Qed.
Lemma acl_bucket_alone {V} u b o (k : unit -> account_thread V) w : alone (acl_bucket u b o k) w = (scrub_bucket_acl u b o ≫= fun o => alone (k o)) w.
Proof using.
  unfold acl_bucket, scrub_bucket_acl. cbn [alone]. unfold mbind, prog_bind. destruct (get_config b w) as [[c|e] w1]; [|done]. by destruct (bool_decide _).
Qed.
Lemma sole_bucket_alone {V} u b o (k : list string -> account_thread V) w :
  alone (sole_bucket u b o k) w = ((c ← get_config b; mret (if is_sole_grantee u c then o ++ [b] else o)) ≫= fun o => alone (k o)) w.
Proof using. unfold sole_bucket. cbn [alone]. unfold mbind, prog_bind. by destruct (get_config b w) as [[c|e] w1]. Qed.

Lemma revoke_thread_alone u w : alone (revoke_thread u) w = drop_sessions (fun st => revoke_user st u) w.
Proof using DL. unfold revoke_thread. by rewrite (revoke_rows_drop _ (fun st => revoke_user st u)). Qed.
Lemma scrub_thread_alone u w : alone (scrub_thread u) w = (_ ← scrub_user_grants u; _ ← scrub_deleted_user_acl_entries u; drop_sessions (fun st => revoke_user st u)) w.
Proof using DL.
  unfold scrub_thread. rewrite grants_thread_alone. apply prog_bind_ext. intros _ w1. unfold scrub_deleted_user_acl_entries. cbn [alone].
  unfold mbind at 1 2, prog_bind at 1 2. unfold mbind at 1, prog_bind at 1. destruct (buckets_ w1) as [[bs|e] w2]; [|done].
  rewrite (each_alone (acl_bucket u) (scrub_bucket_acl u)) by (intros; apply acl_bucket_alone). apply prog_bind_ext. intros _ w3. apply revoke_thread_alone.
Qed.
Lemma list_thread_alone u w : alone (list_thread u) w = (users ← list_records; _ ← lift_res (deletable u users); removed ← delete_record u;
  _ ← guard_not (negb removed) (UserNotFound u); _ ← scrub_user_grants u; _ ← scrub_deleted_user_acl_entries u; drop_sessions (fun st => revoke_user st u)) w.
Proof using DL. unfold list_thread, remove_thread, removed_thread. cbn [alone]. do 4 (apply prog_bind_ext; intros ? ?). apply scrub_thread_alone. Qed.
Lemma delete_thread_alone auth u force w : alone (delete_thread auth u force) w = delete_user auth u force w.
Proof using DL.
  unfold delete_thread, delete_user. cbn [alone]. apply prog_bind_ext. intros _ w1. destruct force; [rewrite list_thread_alone; done|]. cbn [alone]. unfold sole_grantee_buckets.
  rewrite !prog_bind_assoc. apply prog_bind_ext. intros bs w2.
  rewrite (each_alone (sole_bucket u) (fun b o => c ← get_config b; mret (if is_sole_grantee u c then o ++ [b] else o))) by (intros; apply sole_bucket_alone).
  apply prog_bind_ext. intros sole w3. cbn [alone]. apply prog_bind_ext. intros _ w4. apply list_thread_alone.
Qed.

Lemma set_role_thread_alone auth u role w : alone (set_role_thread auth u role) w = set_role auth u role w.
Proof using DL. unfold set_role_thread, set_role. cbn [alone]. do 9 (apply prog_bind_ext; intros ? ?). apply revoke_thread_alone. Qed.
Lemma add_user_thread_alone auth u pw role ns w : alone (add_user_thread env auth u pw role ns) w = add_user env auth u pw role ns w.
Proof using. unfold add_user_thread, add_user. cbn [alone]. do 9 (apply prog_bind_ext; intros ? ?). unfold mbind, prog_bind. by destruct (upsert_user _ _) as [[[]|]]. Qed.
Lemma reset_identity_thread_alone auth u pw ns w : alone (reset_identity_thread auth u pw ns) w = reset_identity auth u pw ns w.
Proof using DL.
  unfold reset_identity_thread, reset_identity. cbn [alone]. do 7 (apply prog_bind_ext; intros ? ?). rewrite (revoke_rows_drop _ (fun st => revoke_user st u)) by done.
  apply prog_bind_ext. intros _ wz. rewrite grants_thread_alone. cbn [alone]. unfold mbind, prog_bind. by destruct (scrub_user_grants u wz) as [[]].
Qed.
Lemma create_persona_thread_alone auth slot pw role rv ns w : alone (create_persona_thread auth slot pw role rv ns) w = create_persona auth slot pw role rv ns w.
Proof using. unfold create_persona_thread, create_persona. cbn [alone]. do 9 (apply prog_bind_ext; intros ? ?). done. Qed.
Lemma delete_persona_thread_alone auth slot ns w : alone (delete_persona_thread auth slot ns) w = delete_persona auth slot ns w.
Proof using DL.
  unfold delete_persona_thread, delete_persona. cbn [alone]. apply prog_bind_ext. intros s w0. do 5 (apply prog_bind_ext; intros ? ?).
  by rewrite (revoke_rows_drop _ (fun st => revoke_user_persona st (au_username auth) (Z.of_nat s))).
Qed.

(** A request whose thread nobody interferes with is served as its handler does. *)
Definition finish_flight (f : Flight AccountWorld AuthError) (w : AccountWorld) : AccountWorld := let '(InFlight t) := f in snd (alone t w).
Lemma flight_alone q w : shards = 1%nat -> finish_flight (thread_of env q) w = serve env q w.
Proof using DL.
  intros Hone. destruct q; cbn [thread_of finish_flight serve]; apply (f_equal snd).
  - by apply login_thread_alone.
  - apply refresh_thread_alone.
  - done.
  - apply change_password_thread_alone.
  - apply add_user_thread_alone.
  - apply delete_thread_alone.
  - apply set_role_thread_alone.
  - apply reset_identity_thread_alone.
  - apply create_persona_thread_alone.
  - apply delete_persona_thread_alone.
Qed.
End alone.

(** ** Requests that overlap *)

Section overlap.
Context {A : AeadOps} {K : KemOps} {H : HkdfOps} {B : Base64Ops} {R : RngOps} {RR : RandomRange} {G : Argon2Ops}.
Context {T : TokenOps} {L : ListingOps} {BE : BucketEnum} {U : UserDbOps} {UL : UserDbLaws} {RRL : RandomRangeLaws} {D : Sharding}.
Variable env : AuthEnv.

#[local] Abbreviation account_thread := (thread AccountWorld AuthError).

Definition records_ok (w : AccountWorld) : Prop := map_Forall record_ok (view w).
#[local] Abbreviation steady t := (steady_thread records_ok t).

(** A step that leaves the user table alone, and what its answer says. *)
Definition aside {X} (m : prog AccountWorld AuthError X) : Prop := forall w, aw_users (m w).2 = aw_users w.

Lemma steady_info {X V} (m : prog AccountWorld AuthError X) (P : X -> Prop) (k : X -> account_thread V) :
  aside m -> (forall w x w', m w = (Ok x, w') -> P x) -> (forall x, P x -> steady (k x)) -> steady (Atom m k).
Proof using.
  intros Hm HP Hk w Hw. unfold post. specialize (Hm w). specialize (HP w). destruct (m w) as [[x|e] w']; cbn in Hm; [split; [|eauto]|]; unfold records_ok, view in *; by rewrite Hm.
Qed.
Lemma steady_aside {X V} (m : prog AccountWorld AuthError X) (k : X -> account_thread V) : aside m -> (forall x, steady (k x)) -> steady (Atom m k).
Proof using. intros Hm Hk. by apply (steady_info m (fun _ => True)). Qed.
Lemma steady_get {V} u (k : option UserRecord -> account_thread V) : (forall o, (forall rec, o = Some rec -> record_ok u rec) -> steady (k o)) -> steady (Atom (get_user u) k).
Proof using UL. intros Hk w Hw. apply post_get_user; [|done]. split; [done|]. apply Hk. intros rec Hrec. by apply Hw. Qed.
Lemma steady_upsert {V} rec (k : unit -> account_thread V) : record_ok (ur_username rec) rec -> steady (k tt) -> steady (Atom (upsert_user rec) k).
Proof using UL. intros Hr Hk w Hw. apply post_upsert; [|done]. intros d Hd. split; [|done]. unfold records_ok, view. cbn. rewrite Hd. by apply map_Forall_insert_2. Qed.
Lemma steady_delete {V} u (k : bool -> account_thread V) : (forall b, steady (k b)) -> steady (Atom (delete_record u) k).
Proof using UL. intros Hk w Hw. apply post_delete_record; [|done]. intros d Hd. split; [|done]. unfold records_ok, view. cbn. rewrite Hd. by apply map_Forall_delete. Qed.
Lemma steady_touch {V} u (k : option UserRecord -> account_thread V) : (forall o, steady (k o)) -> steady (Atom (touch_last_login u) k).
Proof using UL.
  intros Hk w Hw. apply post_touch; [| |done]; intros d.
  - intros rec Hrec Hd. split; [|done]. unfold records_ok, view. cbn. rewrite Hd. apply map_Forall_insert_2; [|done]. by apply (Hw u rec).
  - intros _ Hd. split; [|done]. unfold records_ok, view. cbn. by rewrite Hd.
Qed.

Lemma aside_draw {V} (m : rng -> result AuthError (V * rng)) : aside (draw m).
Proof using. intros w. unfold draw. by destruct (m (aw_rng w)) as [[? ?]|]. Qed.
Lemma aside_insert s : aside (insert_session s).
Proof using. intros w. unfold insert_session. by destruct (session_insert _ _ _) as [[[? ?] ?]|]. Qed.
Lemma aside_locked u : aside (refuse_if_locked u).
Proof using. intros w. unfold refuse_if_locked. by destruct (check_lockout _ _ _). Qed.
Lemma aside_set_config b c : aside (set_config b c).
Proof using. intros w. unfold set_config. by destruct (set_bucket_config _ _ _). Qed.
Lemma aside_put_switched u p role rv sk h old : aside (put_switched u p role rv sk h old).
Proof using. intros w. unfold put_switched. by destruct (seal_identity _ _ _ _ _ _) as [[? ?]|]. Qed.
Lemma aside_mint old sk e : aside (mint_row old sk e).
Proof using. intros w. unfold mint_row. destruct (token_random _). by destruct (seal_identity _ _ _ _ _ _) as [[? ?]|]. Qed.
Lemma aside_rekey h h' : aside (modify (fun w => let '(s3, r) := rekey_session (aw_s3 w) h h' (aw_rng w) in set_rng r (set_s3 s3 w))).
Proof using. intros w. unfold modify. cbn. by destruct (rekey_session _ _ _ _). Qed.
Lemma aside_unwrap rec pw ns : aside (attempt_unwrap rec pw ns).
Proof using. intros w. unfold attempt_unwrap, spend, modify, mbind, prog_bind. by repeat case_match. Qed.
Lemma aside_unwrap_slot rec pw i ns : aside (attempt_unwrap_slot rec pw i ns).
Proof using. intros w. unfold attempt_unwrap_slot, spend, modify, guard_not, mbind, prog_bind. by repeat case_match. Qed.
Lemma aside_persona_slot auth slot : aside (persona_slot auth slot).
Proof using. intros w. unfold persona_slot, guard_not, mbind, prog_bind. by repeat case_match. Qed.
Lemma aside_attempt {X} (m : prog AccountWorld AuthError X) : aside m -> aside (attempt m).
Proof using. intros Hm w. unfold attempt. specialize (Hm w). by destruct (m w). Qed.
Lemma aside_match {X V} (m : prog AccountWorld AuthError X) (k : X -> prog AccountWorld AuthError V) h : aside m -> (forall x, aside (k x)) -> (forall e, aside (h e)) -> aside (match_res m k h).
Proof using. intros Hm Hk Hh w. unfold match_res. specialize (Hm w). destruct (m w) as [[x|e] w1]; cbn in Hm; by rewrite ?Hk, ?Hh. Qed.

Create HintDb asides.
#[local] Hint Resolve aside_draw aside_insert aside_locked aside_set_config aside_put_switched aside_mint aside_rekey aside_unwrap aside_unwrap_slot aside_persona_slot aside_attempt aside_match : asides.
#[local] Hint Extern 5 (aside _) => (intros ?; reflexivity) : asides.
Lemma unwrap_slot_same rec pw i ns w r w' : attempt (attempt_unwrap_slot rec pw i ns) w = (Ok r, w') -> match r with Ok (rec', _, _) => rec' = rec | Err _ => True end.
Proof using.
  unfold attempt. destruct (attempt_unwrap_slot rec pw i ns w) as [r' w1] eqn:E. intros [= -> ->]. destruct r as [[[rec' j] p]|]; [|done].
  refine (post_run _ (fun x _ => x.1.1 = rec) (fun _ _ => True) _ _ _ _ E). by apply post_attempt_unwrap_slot.
Qed.
Lemma slots_shape u pw params role w x w' : draw_crypto (fun r => '(slots, primary, r) ← new_slots_random u pw params role false r; Ok ((slots, primary), r)) w = (Ok x, w') ->
  length (fst x) = CREDENTIAL_SLOTS /\ 0 <= Z.of_nat (snd x) < 4.
Proof using RRL.
  unfold draw_crypto, draw. destruct (new_slots_random _ _ _ _ _ (aw_rng w)) as [[[slots i] r]|e] eqn:E; cbn; [|done]. intros [= <- <-]. by apply new_slots_shape in E.
Qed.
Lemma steady_found {X V} (o : option X) e (k : X -> account_thread V) : (forall x, o = Some x -> steady (k x)) -> steady (Atom (lift_res (ok_or o e)) k).
Proof using. apply steady_info; [by intros ?|]. intros w x w' [E _]%lift_res_Ok. by destruct o; simplify_eq/=. Qed.
Lemma steady_slots {V} u pw params role (k : list CredentialSlot * nat -> account_thread V) : (forall x, length (fst x) = CREDENTIAL_SLOTS /\ 0 <= Z.of_nat (snd x) < 4 -> steady (k x)) ->
  steady (Atom (draw_crypto (fun r => '(slots, primary, r) ← new_slots_random u pw params role false r; Ok ((slots, primary), r))) k).
Proof using RRL. apply steady_info; [eauto with asides|]. intros w x w'. apply slots_shape. Qed.
Lemma steady_unwrap {V} rec pw i ns (k : result AuthError (UserRecord * nat * SlotPayload) -> account_thread V) :
  (forall e, steady (k (Err e))) -> (forall j p, steady (k (Ok (rec, j, p)))) -> steady (Atom (attempt (attempt_unwrap_slot rec pw i ns)) k).
Proof using. intros He Hk. eapply steady_info; [eauto with asides|intros w r w'; apply unwrap_slot_same|]. intros [[[rec' j] p]|e]; [by intros ->|done]. Qed.
Ltac walk_step := first [apply steady_get; intros ? ? | apply steady_found; intros ? ? | apply steady_slots; intros ? [? ?] | apply steady_unwrap; [intros ?|intros ? ?] | apply steady_touch; intros ? | apply steady_delete; intros ? | apply steady_aside; [solve [eauto with asides]|intros ?]].
Ltac walk := repeat lazymatch goal with |- steady_thread _ (Atom _ _) => walk_step | |- steady_thread _ (Halt _) => exact I end.

(** A record that was read, with one slot rewritten. *)
Lemma record_ok_slot k rec i s : record_ok k rec -> record_ok (ur_username (with_slot rec i s)) (with_slot rec i s).
Proof using. intros (<- & Hl & Hp). split_and!; try done; cbn; [by rewrite length_insert|lia..]. Qed.

Lemma steady_collect {V} p l : forall acc (k : list bytes -> account_thread V), (forall vs, steady (k vs)) -> steady (collect_rows p l acc k).
Proof using. induction l as [|j l IH]; intros acc k Hk; cbn [collect_rows]; [apply Hk|]. walk. by apply IH. Qed.
Lemma steady_revoke {V} p (k : account_thread V) : steady k -> steady (revoke_rows p k).
Proof using. intros Hk. apply steady_collect. intros vs. induction vs as [|h vs IH]; cbn [remove_rows]; [done|]. by walk. Qed.
Lemma steady_switch {V} u p role rv sk (k : account_thread V) : steady k -> steady (switch_thread u p role rv sk k).
Proof using. intros Hk. apply steady_collect. intros vs. induction vs as [|h vs IH]; cbn [switch_rows]; [done|]. walk. case_match; [|done]. by walk. Qed.
Lemma steady_each {X S V} (body : X -> S -> (S -> account_thread V) -> account_thread V) l k : (forall x s k, (forall s, steady (k s)) -> steady (body x s k)) -> (forall s, steady (k s)) -> forall s, steady (each body l s k).
Proof using. intros Hb Hk. induction l as [|x l IH]; intros s; cbn [each]; [apply Hk|]. by apply Hb. Qed.
Lemma steady_grants {V} u (k : list string -> account_thread V) : (forall o, steady (k o)) -> steady (grants_thread u k).
Proof using. intros Hk. unfold grants_thread. walk. apply steady_each; [|done]. intros b s k' Hk'. unfold grants_bucket. walk. destruct (negb _); [done|]. cbv zeta. by walk. Qed.

Lemma steady_finalize u snap i p e st : steady (finalize_thread env u snap i p e st).
Proof using UL.
  assert (Hr : forall e0, steady (refused env st e0)) by (intros; unfold refused; walk). unfold finalize_thread. walk. destruct o as [fresh|]; [|done]. destruct (negb _ || _); [done|]. destruct (_ || negb _); [done|].
  walk. unfold touched_thread. destruct (bool_decide _); [done|]. unfold insert_thread. walk. unfold recheck_thread. walk. destruct (bool_decide _); [by apply steady_revoke|].
  unfold finish_thread. assert (Ha : forall t, steady (answer_thread env u e st t)) by (intros; unfold answer_thread; walk). destruct (sp_revoke_other_sessions p); [by apply steady_switch|done].
Qed.
Lemma steady_login u pw ttl ns : steady (login_thread env u pw ttl ns).
Proof using UL.
  unfold login_thread. walk. apply steady_aside.
  - apply aside_attempt. destruct o; [apply aside_unwrap|]. apply aside_match; [apply aside_unwrap|intros ? ?; reflexivity..].
  - intros [[[rec i] p]|e]; [apply steady_finalize|]. unfold failed_thread. walk.
Qed.
Lemma steady_refresh auth : steady (refresh_thread env auth).
Proof using. unfold refresh_thread. walk. Qed.
Lemma steady_change_password auth cur new ns : steady (change_password_thread env auth cur new ns).
Proof using UL.
  unfold change_password_thread. walk. assert (Hf : forall e st, steady (failed_thread (V := unit) env (au_username auth) st e)) by (intros; unfold failed_thread; walk).
  destruct o as [rec|]; [|apply Hf]. walk; [apply Hf|]. unfold commit_thread. apply steady_upsert; [by eapply record_ok_slot; eauto|]. walk. apply steady_revoke. walk.
Qed.
Lemma steady_add_user auth u pw role ns : steady (add_user_thread env auth u pw role ns).
Proof using UL RRL. unfold add_user_thread. walk. by apply steady_upsert. Qed.
Lemma steady_revoke_thread u : steady (revoke_thread u).
Proof using. by apply steady_revoke. Qed.
Lemma steady_delete_user auth u force : steady (delete_thread auth u force).
Proof using UL.
  assert (Hl : steady (list_thread u)).
  { unfold list_thread, remove_thread, removed_thread, scrub_thread. walk. apply steady_grants. intros _. walk. apply steady_each; [|intros; apply steady_revoke_thread].
    intros bk s k Hk. unfold acl_bucket. walk. destruct (bool_decide _); [done|]. by walk. }
  unfold delete_thread. walk. destruct force; [done|]. walk. apply steady_each; [intros b s k Hk; unfold sole_bucket; by walk|]. intros sole. by walk.
Qed.
Lemma steady_set_role auth u role : steady (set_role_thread auth u role).
Proof using UL.
  unfold set_role_thread. walk. destruct (H2 _ H3) as (Hn & Hl & Hp). apply steady_upsert; [by split|]. apply steady_revoke_thread.
Qed.
Lemma steady_reset_identity auth u pw ns : steady (reset_identity_thread auth u pw ns).
Proof using UL RRL.
  unfold reset_identity_thread. walk. destruct (H0 _ H1) as (Hn & Hl & Hp). apply steady_upsert; [done|]. apply steady_revoke, steady_grants. intros; walk.
Qed.
Lemma steady_create_persona auth slot pw role rv ns : steady (create_persona_thread auth slot pw role rv ns).
Proof using UL. unfold create_persona_thread. walk. apply steady_upsert; [eapply record_ok_slot; eauto|]. walk. Qed.
Lemma steady_delete_persona auth slot ns : steady (delete_persona_thread auth slot ns).
Proof using UL. unfold delete_persona_thread. walk. apply steady_upsert; [eapply record_ok_slot; eauto|]. by apply steady_revoke. Qed.

Lemma steady_requests q : steady_flight records_ok (thread_of env q).
Proof using UL RRL.
  destruct q; cbn [thread_of steady_flight]; first [apply steady_login|apply steady_refresh|apply steady_change_password|apply steady_add_user|apply steady_delete_user
    |apply steady_set_role|apply steady_reset_identity|apply steady_create_persona|apply steady_delete_persona|unfold logout_thread; walk].
Qed.

(** C14: what the account endpoints keep. Requests that are served one after the other
    (logins, refreshes, password changes, additions, deletions, role changes, resets,
    persona writes), whatever each one answers, never lock everyone out: from well-formed
    records with an administrator among them they lead to well-formed records with an
    administrator among them.  Requests that overlap, any number of them, each stopped
    before any operation on the user table or on a session, still keep every record well
    formed: under its own name, with exactly four credential slots and a primary slot
    among them.  They may lose the last administrator: [concurrent_demotions] of
    AccountWitness.v. *)
Theorem accounts_invariant (w w' : AccountWorld) :
  (accounts_ok w -> rtc (account_step env) w w' -> accounts_ok w') /\
  (forall flights, map_Forall record_ok (view w) -> rtc (pool_step (thread_of env)) ([], w) (flights, w') -> map_Forall record_ok (view w')).
Proof using UL RRL.
  split; [apply served_in_turn|]. intros flights Hw Hs. by apply (pool_keeps (thread_of env) records_ok _ _ steady_requests Hs Hw).
Qed.
End overlap.
