(* ===== verification/Logins.v ===== *)
(** * Logins and personas

    What a login proves about its caller, what its answers give away, and what the
    persona endpoints do to later logins. *)

From stdpp Require Import pretty sorting relations.
From S2P Require Import Prelude Effects Primitives Types Crypto Slots Session BucketKeys Authz Upload S3State UserStore Accounts AccountSafety.

Section open_slots.
Context {A : AeadOps}.

(** Whether slot [s], at position [i], opens under [kek] to the payload [p]. *)
Definition opens (username : string) (kek : bytes) (i : nat) (s : CredentialSlot) (p : SlotPayload) : Prop :=
  exists b, unwrap_slot (wrapped s) kek (slot_wrap_aad username (Z.of_nat i)) = Ok b /\ SlotPayload_from_bytes b = Ok p.

Lemma open_slots_found username kek slots : forall k i p,
  open_slots username kek k slots None = Some (i, p) ->
  exists s, (k <= i)%nat /\ slots !! (i - k)%nat = Some s /\ opens username kek i s p /\
    forall j s' p', (k <= j < i)%nat -> slots !! (j - k)%nat = Some s' -> ~ opens username kek j s' p'.
Proof.
  induction slots as [|s slots IH]; intros k i p E; cbn [open_slots] in E; [done|].
  destruct (unwrap_slot (wrapped s) kek (slot_wrap_aad username (Z.of_nat k))) as [b|] eqn:Eu;
    [destruct (SlotPayload_from_bytes b) as [q|] eqn:Eq|].
  { rewrite open_slots_kept in E. injection E as <- <-. exists s. rewrite Nat.sub_diag. split_and!; try done.
    - by exists b.
    - intros. lia. }
  all: apply IH in E as (s' & Hle & Hl & Ho & Hno); exists s'; replace (i - k)%nat with (S (i - S k)) by lia;
    split_and!; [lia | done | done |]; intros j c q' Hj Hc;
    (destruct (decide (j = k)) as [->|Hne]; [rewrite Nat.sub_diag in Hc; injection Hc as <-; intros (b' & ? & ?); congruence|]);
    apply (Hno j c q'); [lia|]; by replace (j - k)%nat with (S (j - S k)) in Hc by lia.
Qed.

Lemma open_slots_first username kek slots : forall k i p s,
  slots !! i = Some s -> opens username kek (k + i) s p ->
  (forall j s', (j < i)%nat -> slots !! j = Some s' -> forall p', ~ opens username kek (k + j) s' p') ->
  open_slots username kek k slots None = Some ((k + i)%nat, p).
Proof.
  induction slots as [|c slots IH]; intros k i p s Hs Ho Hno; [done|]. cbn [open_slots].
  destruct i as [|i]; cbn in Hs.
  - injection Hs as <-. rewrite Nat.add_0_r in Ho |- *. destruct Ho as (b & -> & ->). apply open_slots_kept.
  - pose proof (Hno 0%nat c ltac:(lia) eq_refl) as Hc. rewrite Nat.add_0_r in Hc.
    assert (E : open_slots username kek (S k) slots None = Some ((k + S i)%nat, p)).
    { rewrite <- Nat.add_succ_comm. apply (IH (S k) i p s); [done | by rewrite Nat.add_succ_comm |].
      intros j s' Hj Hs' p'. rewrite Nat.add_succ_comm. apply (Hno (S j) s'); [lia|done]. }
    destruct (unwrap_slot (wrapped c) kek _) as [b|] eqn:Eu; [|done].
    destruct (SlotPayload_from_bytes b) as [q|] eqn:Eq; [|done]. exfalso. apply (Hc q). by exists b.
Qed.

Lemma open_slots_some username kek slots : forall k j s p,
  slots !! j = Some s -> opens username kek (k + j) s p ->
  exists i q, (i <= k + j)%nat /\ open_slots username kek k slots None = Some (i, q).
Proof.
  induction slots as [|c slots IH]; intros k j s p Hs Ho; [done|]. cbn [open_slots].
  assert (Hrest : (exists q, opens username kek k c q /\
      open_slots username kek k (c :: slots) None = Some (k, q)) \/ exists j', j = S j').
  { destruct j as [|j']; [left|eauto]. injection Hs as ->. rewrite Nat.add_0_r in Ho. exists p. split; [done|].
    cbn [open_slots]. destruct Ho as (b & -> & ->). apply open_slots_kept. }
  destruct Hrest as [(q & _ & E)|(j' & ->)].
  { exists k, q. split; [lia|]. exact E. }
  rewrite <- Nat.add_succ_comm in Ho. destruct (IH (S k) j' s p Hs Ho) as (i & q & Hi & E).
  destruct (unwrap_slot (wrapped c) kek _) as [b|]; [destruct (SlotPayload_from_bytes b) as [q'|]|].
  1: exists k, q'; split; [lia | apply open_slots_kept].
  all: exists i, q; split; [lia | done].
Qed.

Lemma payload_sk_len b p : SlotPayload_from_bytes b = Ok p -> blen (sp_identity_sk p) <= AEAD_P_MAX.
Proof.
  unfold SlotPayload_from_bytes. case_match eqn:El; [done|]. destruct (drop _ b) as [|t0 [|t1 ?]]; [done..|].
  intros E. apply bind_Ok_inv in E as (role & _ & E). injection E as <-. cbn [sp_identity_sk].
  rewrite blen_take. unfold kem.SECRET_KEY_BYTES, AEAD_P_MAX. lia.
Qed.

End open_slots.

Section logins.
Context {A : AeadOps} {K : KemOps} {H : HkdfOps} {B : Base64Ops} {R : RngOps} {RR : RandomRange} {G : Argon2Ops}.
Context {T : TokenOps} {L : ListingOps} {BE : BucketEnum} {U : UserDbOps} {UL : UserDbLaws}.
Context {AL : AeadLaws} {RL : RngLaws}.
Variable env : AuthEnv.

(** The row a login leaves behind. *)
Definition logged_in (w' : AccountWorld) (token u : string) (i : nat) (p : SlotPayload) (expires_at : Z) : Prop :=
  exists s, inner (aw_sessions w') !! hash_token token = Some s /\ si_username s = u /\ si_role s = sp_role p /\
    si_persona s = Z.of_nat i /\ si_expires_at s = expires_at /\ si_refresh_count s = 0 /\
    open_identity_sk (keyring (aw_sessions w')) s = Ok (sp_identity_sk p).

Lemma session_insert_row st ns r token st' r' :
  session_insert st ns r = Ok (token, st', r') ->
  keyring st' = keyring st /\
  exists s, inner st' = <[hash_token token := s]> (inner st) /\ si_username s = ns_username ns /\ si_role s = ns_role ns /\
    si_persona s = ns_persona ns /\ si_expires_at s = ns_expires_at ns /\ si_refresh_count s = 0 /\
    open_identity_sk (keyring st) s = Ok (ns_identity_sk ns).
Proof using AL.
  unfold session_insert. destruct (token_random r) as [tk r1]. intros E.
  apply bind_Ok_inv in E as ([sealed r2] & Es & E). injection E as -> <- <-. split; [done|]. eexists. split; [done|].
  split_and!; try done. by apply seal_identity_opens in Es.
Qed.

Lemma switch_user_keyring st u p role rv sk r n st' r' :
  switch_user_to_persona st u p role rv sk r = (n, st', r') -> keyring st' = keyring st.
Proof using.
  unfold switch_user_to_persona. cbv zeta. generalize (victims_of
    (fun _ i => bool_decide (si_username i = u) && negb (si_persona i =? p)) (inner st)) as vs.
  intros vs. destruct (foldl _ _ vs) as [st1 r1] eqn:E. intros [= <- <- <-].
  revert st r E. induction vs as [|v vs IH]; intros st r E; cbn [foldl] in E; [by simplify_eq|].
  destruct (switch_one u p role rv sk (st, r) v) as [st2 r2] eqn:E2. rewrite (IH _ _ E).
  unfold switch_one in E2. destruct (inner st !! v); [|by simplify_eq].
  destruct (seal_identity _ _ _ _ _ _) as [[? ?]|]; by simplify_eq.
Qed.

(** What holds of the account when the second half of a login succeeds, in any world. *)
Definition admitted (fresh snapshot : UserRecord) (p : SlotPayload) : Prop :=
  ur_kdf fresh = ur_kdf snapshot /\ ur_slots fresh = ur_slots snapshot /\ sp_role p <> Disabled /\
  ur_role fresh <> Disabled /\ role_permits (sp_role p) (ur_role fresh) = true.

Lemma finalize_spec u snap i p e started w :
  blen (sp_identity_sk p) <= AEAD_P_MAX ->
  post (finalize_login_after_unwrap env u snap i p e started)
    (fun tr w' => exists fresh, view w !! u = Some fresh /\ admitted fresh snap p /\
       view w' = <[u := with_last_login fresh (aw_now w)]> (view w) /\
       tr_username tr = u /\ logged_in w' (tr_token tr) u i p e /\
       (sp_revoke_other_sessions p = true ->
        forall h s, inner (aw_sessions w') !! h = Some s -> si_username s = u -> si_persona s = Z.of_nat i))
    (fun _ w' => (forall k, u <> k -> view w' !! k = view w !! k) /\
       (forall h s, inner (aw_sessions w') !! h = Some s -> inner (aw_sessions w) !! h = Some s \/
          exists fresh, view w !! u = Some fresh /\ admitted fresh snap p)) w.
Proof using AL UL.
  intros Hsk. unfold finalize_login_after_unwrap. account_steps; [|auto].
  destruct (view w !! u) as [fresh|] eqn:Eu; account_steps; auto. intros Hsnap.
  account_steps; auto. intros Hrole. account_steps; auto.
  2: { intros d Hn. rewrite Eu in Hn. done. }
  assert (Hadm : admitted fresh snap p).
  { apply orb_false_iff in Hsnap as [H1%negb_false_iff%bool_decide_eq_true H2%negb_false_iff%bool_decide_eq_true].
    apply orb_false_iff in Hrole as [Hrole H5%negb_false_iff].
    apply orb_false_iff in Hrole as [H3%bool_decide_eq_false H4%bool_decide_eq_false]. done. }
  clear Hsnap Hrole.
  intros d rec Hrec Hd. rewrite Eu in Hrec. injection Hrec as <-.
  assert (Hframe : forall k, u <> k -> view (set_users d w) !! k = view w !! k).
  { intros k Hk. unfold view in *. cbn [aw_users set_users]. rewrite Hd. by rewrite lookup_insert_ne. }
  account_steps; eauto. intros _. account_steps; eauto 10. intros token st r Ei.
  apply session_insert_row in Ei as (Hkr & s & Hst & Hu & Hr & Hp & He & Hc & Ho). cbn [ns_username ns_role ns_persona ns_expires_at ns_identity_sk] in *.
  account_steps; [|eauto 10]. case_bool_decide as Hag.
  { exfalso. unfold view in Hag. cbn [aw_users set_rng set_sessions set_users] in Hag. rewrite Hd, lookup_insert_eq in Hag. done. }
  account_steps. destruct (sp_revoke_other_sessions p) eqn:Erv; account_steps.
  - destruct (switch_user_to_persona _ _ _ _ _ _ _) as [[n st'] r'] eqn:Esw.
    apply switch_user_keyring in Esw as Hkr'. apply switch_user_rows in Esw as (_ & Hkeep & Hall & _); [|done].
    exists fresh. split_and!; try done.
    exists s. cbn [aw_sessions set_now set_attempts set_rng set_sessions set_users] in *. split_and!; try done.
    + apply Hkeep; [|by right]. rewrite Hst. apply lookup_insert_eq.
    + rewrite Hkr', Hkr. done.
  - exists fresh. split_and!; try done.
    exists s. cbn [aw_sessions set_now set_attempts set_rng set_sessions set_users] in *. split_and!; try done.
    + rewrite Hst. apply lookup_insert_eq.
    + by rewrite Hkr.
Qed.

Lemma compute_expiry_Ok ttl d m now e : compute_expiry ttl d m now = Ok e ->
  let t := default d ttl in e = now + t * 1000000000 /\ t <> 0 /\ t <= m.
Proof using.
  unfold compute_expiry. cbv zeta. destruct (_ || _) eqn:E; [done|]. intros [= <-].
  apply orb_false_iff in E as [?%Z.eqb_neq ?%Z.ltb_ge]. done.
Qed.

(** Not locked out at [now]. *)
Definition unlocked (a : LoginAttempts) (u : string) (now : Z) : Prop :=
  forall s until, a !! u = Some s -> locked_until s = Some until -> until <= now.

Lemma check_lockout_Ok a u now a' : check_lockout a u now = (Ok tt, a') -> unlocked a u now.
Proof using.
  unfold check_lockout, unlocked. intros E s until Hs Hl. rewrite Hs, Hl in E.
  destruct (Z.ltb_spec now until); [done|lia].
Qed.

(** C16: a login hands out a token only to someone who knows a password of the account: the
    account exists and is not locked out, some slot of its record opens under the key
    derived from that password (the first one that does), the account is not disabled and
    its role admits the slot's.  The session it creates runs as that slot's persona, with
    its role and identity key, and expires when asked; nothing else of the record
    changes, and after a duress login every session of the account runs as that
    persona. *)
Theorem login_sound (u : string) (pw : bytes) (ttl : option Z) (ns : Z) (w w' : AccountWorld) (tr : TokenResponse) :
  login env u pw ttl ns w = (Ok tr, w') ->
  exists rec kek i s p, view w !! u = Some rec /\ derive_kek (ur_kdf rec) pw = Ok kek /\
    ur_slots rec !! i = Some s /\ opens (ur_username rec) kek i s p /\
    (forall j s' p', (j < i)%nat -> ur_slots rec !! j = Some s' -> ~ opens (ur_username rec) kek j s' p') /\
    admitted rec rec p /\ unlocked (aw_attempts w) u (aw_now w) /\
    logged_in w' (tr_token tr) u i p (aw_now w + default (default_ttl_seconds (auth_config env)) ttl * 1000000000) /\
    (sp_revoke_other_sessions p = true ->
      forall h s', inner (aw_sessions w') !! h = Some s' -> si_username s' = u -> si_persona s' = Z.of_nat i) /\
    view w' = <[u := with_last_login rec (aw_now w + ns)]> (view w).
Proof using AL UL.
  intros E. run_post E.
  unfold login. account_steps; try done. intros [] _. account_steps; try done. intros a Ha%check_lockout_Ok.
  account_steps; try done. intros e [-> _]%compute_expiry_Ok. account_steps; try done.
  change (view (set_attempts a w)) with (view w). destruct (view w !! u) as [rec|] eqn:Eu; account_steps; try done.
  intros kek i p Hk Ho. apply open_slots_found in Ho as (s & _ & Hs & Hop & Hfirst). rewrite Nat.sub_0_r in Hs.
  eapply post_mono; [| |apply finalize_spec; by destruct Hop as (b & _ & ?%payload_sk_len)]; [|done].
  intros tr' w2 (fresh & Hf & Hadm & Hv & _ & Hlog & Hrev). cbn [aw_users set_now set_attempts] in *.
  unfold view in Hf, Hv. cbn [aw_users set_now set_attempts aw_now] in Hf, Hv. fold (view w) in *. rewrite Eu in Hf. injection Hf as <-.
  exists rec, kek, i, s, p. split_and!; try done.
  intros j s' p' Hj Hs'. apply (Hfirst j); [lia|]. by rewrite Nat.sub_0_r.
Qed.

(** The password check may be overtaken: while it runs, other requests may change or
    delete the account.  Whatever world the second half of a login finds, it gives out a
    token only if the account still exists there with the very slots and key-derivation
    parameters the password was checked against, is not disabled and still admits the
    slot's role; it writes nothing to the record but the time of the login, so it neither
    resurrects a deleted account nor undoes another change; and if it fails for one of
    those reasons it leaves no session behind. *)
Theorem login_survives_races (u : string) (snapshot : UserRecord) (i : nat) (p : SlotPayload) (expires started : Z)
    (w : AccountWorld) :
  blen (sp_identity_sk p) <= AEAD_P_MAX ->
  match finalize_login_after_unwrap env u snapshot i p expires started w with
  | (Ok tr, w') => exists now, view w !! u = Some now /\ admitted now snapshot p /\
      view w' = <[u := with_last_login now (aw_now w)]> (view w) /\ logged_in w' (tr_token tr) u i p expires
  | (Err _, w') => (forall k, u <> k -> view w' !! k = view w !! k) /\
      ((forall now, view w !! u = Some now -> ~ admitted now snapshot p) ->
       forall h s, inner (aw_sessions w') !! h = Some s -> inner (aw_sessions w) !! h = Some s)
  end.
Proof using AL UL.
  intros Hsk. pose proof (finalize_spec u snapshot i p expires started w Hsk) as Hp. unfold post in Hp.
  destruct (finalize_login_after_unwrap env u snapshot i p expires started w) as [[tr|e] w'].
  - destruct Hp as (f & ? & ? & ? & _ & ? & _). eauto 10.
  - destruct Hp as [Hv Hs]. split; [done|]. intros Hno h s Hh. destruct (Hs h s Hh) as [?|(f & Hf & Ha)]; [done|].
    exfalso. exact (Hno f Hf Ha).
Qed.

(** The world a refused login leaves: one more failure on record, and the response held
    back to the floor. *)
Definition after_refusal (u : string) (ns : Z) (w : AccountWorld) : AccountWorld :=
  let a := snd (check_lockout (aw_attempts w) u (aw_now w)) in
  let c := auth_config env in
  set_now (Z.max (aw_now w + ns) (aw_now w + min_login_response_ms c * 1000000))
    (set_attempts (record_failure a u (max_failed_logins c) (lockout_seconds c * 1000000000) (aw_now w + ns)) w).

(** C36: a refused login does not tell whether the account exists: for an unknown username
    and for a known one with a wrong password the answer, the failure counter, the time
    the answer takes and everything else the request leaves behind are the same, and the
    answer is never sent before the configured floor. *)
Theorem login_no_username_oracle (u : string) (pw : bytes) (ttl : option Z) (ns e : Z) (w : AccountWorld)
    (found : option UserRecord) :
  validate u = Ok tt -> fst (check_lockout (aw_attempts w) u (aw_now w)) = Ok tt ->
  compute_expiry ttl (default_ttl_seconds (auth_config env)) (max_ttl_seconds (auth_config env)) (aw_now w) = Ok e ->
  us_get (aw_users w) u = Ok found ->
  (forall rec kek i s p, found = Some rec -> derive_kek (ur_kdf rec) pw = Ok kek ->
     ur_slots rec !! i = Some s -> ~ opens (ur_username rec) kek i s p) ->
  login env u pw ttl ns w = (Err InvalidCredentials, after_refusal u ns w) /\
  aw_now w + min_login_response_ms (auth_config env) * 1000000 <= aw_now (after_refusal u ns w).
Proof using.
  intros Hv Hlk He Hg Hwrong. split; [|cbn; lia].
  assert (Hun : forall rec w1, found = Some rec ->
    attempt_unwrap rec pw ns w1 = (Err InvalidCredentials, set_now (aw_now w1 + ns) w1)).
  { intros rec w1 Hrec. unfold attempt_unwrap. rewrite (prog_bind_run (spend ns) _ _ tt _ eq_refl).
    destruct (derive_kek (ur_kdf rec) pw) as [kek|] eqn:Ek; [|done].
    destruct (open_slots _ kek 0 _ None) as [[i p]|] eqn:Eo; [|done]. exfalso.
    apply open_slots_found in Eo as (s & _ & Hs & Ho & _). rewrite Nat.sub_0_r in Hs. exact (Hwrong rec kek i s p Hrec Ek Hs Ho). }
  unfold login, after_refusal. rewrite Hv. destruct (check_lockout _ _ _) as [res a] eqn:Ec. cbn [fst snd] in *. subst res.
  rewrite (prog_bind_run (lift_res (Ok tt)) _ _ tt w eq_refl).
  rewrite (prog_bind_run (refuse_if_locked u) _ _ tt (set_attempts a w)) by (unfold refuse_if_locked; by rewrite Ec).
  rewrite (prog_bind_run (gets aw_now) _ (set_attempts a w) (aw_now w) (set_attempts a w) eq_refl), He.
  rewrite (prog_bind_run (lift_res (Ok e)) _ (set_attempts a w) e (set_attempts a w) eq_refl).
  rewrite (prog_bind_run (get_user u) _ _ found (set_attempts a w)).
  2: { unfold get_user, crypto, lift_res. cbn [aw_users set_attempts]. by rewrite Hg. }
  unfold match_res at 1. destruct found as [rec|].
  - by rewrite (Hun rec _ eq_refl).
  - assert (Hd : match_res (attempt_unwrap (dummy_record env) pw ns) (fun _ => throw InvalidCredentials)
        (fun _ => throw InvalidCredentials) (set_attempts a w) =
      (Err InvalidCredentials, set_now (aw_now w + ns) (set_attempts a w)) :> result AuthError (UserRecord * nat * SlotPayload) * _).
    { unfold match_res, attempt_unwrap. rewrite (prog_bind_run (spend ns) _ _ tt _ eq_refl).
      destruct (derive_kek _ pw); [|done]. by destruct (open_slots _ _ _ _ _) as [[? ?]|]. }
    by rewrite Hd.
Qed.

(** ** Lockout *)

(** Failed attempts at the times [ts], in order. *)
Definition failures (a : LoginAttempts) (u : string) (max dur : Z) (ts : list Z) : LoginAttempts :=
  foldl (fun a t => record_failure a u max dur t) a ts.

Lemma failures_row a u max dur ts :
  0 < max <= u32_max -> a !! u = None -> ts <> [] ->
  failures a u max dur ts !! u = Some (mkAttemptState (Z.min (blen ts) u32_max)
    (if max <=? blen ts then (fun t => t + dur) <$> last ts else None)) /\
  forall v, v <> u -> failures a u max dur ts !! v = a !! v.
Proof using.
  intros Hmax Ha. unfold failures. induction ts as [|t ts IH] using rev_ind; [done|]. intros _.
  rewrite foldl_snoc, blen_app, blen_cons, blen_nil, last_snoc. cbn [fmap option_fmap option_map].
  set (prev := foldl _ a ts) in *. unfold record_failure. destruct (Z.eqb_spec max 0); [lia|]. cbv zeta.
  destruct ts as [|t0 ts0].
  - change prev with a. rewrite Ha. cbn [default failed_count locked_until attempt_default]. split.
    + rewrite lookup_insert_eq. change (blen (@nil Z)) with 0. unfold u32_max in *.
      replace (Z.min (0 + 1) (2 ^ 32 - 1)) with 1 by lia. replace (Z.min (0 + (1 + 0)) (2 ^ 32 - 1)) with 1 by lia.
      by replace (0 + (1 + 0)) with 1 by lia.
    + intros v Hv. by rewrite lookup_insert_ne.
  - destruct IH as [IH Ho]; [done|]. rewrite IH. cbn [default from_option id failed_count locked_until]. set (l := t0 :: ts0) in *. split.
    + rewrite lookup_insert_eq. pose proof (blen_nonneg l). unfold u32_max in *.
      replace (Z.min (Z.min (blen l) (2 ^ 32 - 1) + 1) (2 ^ 32 - 1)) with (Z.min (blen l + (1 + 0)) (2 ^ 32 - 1)) by lia.
      f_equal. f_equal. destruct (Z.leb_spec max (Z.min (blen l + (1 + 0)) (2 ^ 32 - 1))), (Z.leb_spec max (blen l + (1 + 0))); try lia; [done|].
      by destruct (Z.leb_spec max (blen l)); [lia|].
    + intros v Hv. rewrite lookup_insert_ne by done. by apply Ho.
Qed.

(** Lockout begins and ends when it should: with fewer failures than the limit a login
    is never refused by it; from the failure that reaches the limit on, every login for
    that name is refused with the instant the lockout ends, at once, without touching
    anything and without running the key derivation; once that instant has come the name
    can try again with a clean counter; other names are never affected. *)
Theorem lockout_cycle (u v : string) (pw : bytes) (ttl : option Z) (ns max dur t now : Z) (ts : list Z)
    (a : LoginAttempts) (w : AccountWorld) :
  0 < max <= u32_max -> a !! u = None -> v <> u -> validate u = Ok tt ->
  let a1 := failures a u max dur ts in
  let a2 := failures a u max dur (ts ++ [t]) in
  failures a u max dur ts !! v = a !! v /\
  (blen ts < max -> check_lockout a1 u now = (Ok tt, a1)) /\
  (max <= blen ts + 1 ->
   (now < t + dur -> aw_attempts w = a2 -> aw_now w = now -> login env u pw ttl ns w = (Err (LockedOut (t + dur)), w)) /\
   (t + dur <= now -> check_lockout a2 u now = (Ok tt, <[u := attempt_default]> a2))).
Proof using.
  intros Hmax Ha Hv Hval a1 a2. split_and!.
  - destruct ts as [|t0 ts0]; [done|]. by apply failures_row.
  - intros Hlt. unfold check_lockout. destruct ts as [|t0 ts0]; [by unfold a1; cbn; rewrite Ha|].
    unfold a1. rewrite (proj1 (failures_row a u max dur (t0 :: ts0) Hmax Ha ltac:(done))).
    cbn [locked_until]. by rewrite (proj2 (Z.leb_gt _ _)).
  - intros Hge. assert (Hrow : a2 !! u = Some (mkAttemptState (Z.min (blen (ts ++ [t])) u32_max) (Some (t + dur)))).
    { unfold a2. rewrite (proj1 (failures_row a u max dur (ts ++ [t]) Hmax Ha ltac:(by destruct ts))).
      rewrite last_snoc, (proj2 (Z.leb_le _ _)); [done|]. rewrite blen_app, blen_cons, blen_nil. lia. }
    split.
    + intros Hnow Hw Ht. unfold login. rewrite Hval.
      rewrite (prog_bind_run (lift_res (Ok tt)) _ w tt w eq_refl). apply prog_bind_fails.
      unfold refuse_if_locked, check_lockout. rewrite Hw, Hrow. cbn [locked_until]. rewrite (proj2 (Z.ltb_lt _ _)) by lia.
      rewrite <- Hw. by destruct w.
    + intros Hnow. unfold check_lockout. rewrite Hrow. cbn [locked_until]. by rewrite (proj2 (Z.ltb_ge _ _)).
Qed.

End logins.
