(* ===== verification/AccountAdmin.v ===== *)
(** * Changes to accounts

    What the persona, password and administration endpoints do to later logins, to live
    sessions and to bucket grants: a persona that was created can be logged into, a
    password change keeps its promises except about reuse, an identity reset leaves
    nothing behind, and what an interrupted deletion does leave behind. *)

From stdpp Require Import pretty sorting relations.
From S2P Require Import Prelude Effects Primitives Types Crypto Slots Session BucketKeys Authz Upload S3State UserStore Accounts AccountSafety Logins.

(** Writing the configuration of a bucket leaves the other buckets alone, as the trait
    documents a sidecar per bucket, and makes no bucket appear or disappear. *)
Class ListingFrame {L : ListingOps} {BE : BucketEnum} : Prop := {
  config_of_set_other st b c st' b' : set_bucket_config st b c = Ok st' -> b' <> b ->
    get_bucket_config st' b' = get_bucket_config st b';
  list_of_set st b c st' : set_bucket_config st b c = Ok st' -> list_buckets st' = list_buckets st;
}.

Section personas.
Context {A : AeadOps} {K : KemOps} {H : HkdfOps} {B : Base64Ops} {R : RngOps} {RR : RandomRange} {G : Argon2Ops}.
Context {T : TokenOps} {L : ListingOps} {BE : BucketEnum} {U : UserDbOps} {UL : UserDbLaws}.
Context {AL : AeadLaws} {KL : KemLaws} {BL : Base64Laws} {RL : RngLaws}.
Variable env : AuthEnv.

Lemma collides_false username kek slots : forall k, collides username kek k slots = false ->
  forall j s p, slots !! j = Some s -> ~ opens username kek (k + j) s p.
Proof using.
  induction slots as [|c slots IH]; intros k E j s p Hj; [done|]. cbn [collides] in E. apply orb_false_iff in E as [E1 E2].
  destruct j as [|j]; cbn in Hj.
  - injection Hj as <-. rewrite Nat.add_0_r. intros (b & Hb & _). by rewrite Hb in E1.
  - rewrite <- Nat.add_succ_comm. by apply (IH (S k)).
Qed.

Lemma attempt_unwrap_run rec pw ns kek i p (w : AccountWorld) :
  derive_kek (ur_kdf rec) pw = Ok kek -> open_slots (ur_username rec) kek 0 (ur_slots rec) None = Some (i, p) ->
  attempt_unwrap rec pw ns w = (Ok (rec, i, p), set_now (aw_now w + ns) w).
Proof using.
  intros Hk Ho. unfold attempt_unwrap. rewrite (prog_bind_run (spend ns) _ w tt _ eq_refl). by rewrite Hk, Ho.
Qed.

(** Writing a persona works and cannot be used to climb: it never touches the slot the
    caller is logged in through, its role is admitted by both the account and the calling
    session, and from then on the password that was given logs in as exactly that persona,
    with that role and duress flag and with the secret half of the slot's public key; no
    other slot, session or account changes. *)
Theorem create_persona_login (auth : Authenticated) (slot : Z) (pw : bytes) (role : Role) (rv : bool) (ns : Z)
    (w w' : AccountWorld) (msg : string) :
  accounts_ok w -> create_persona auth slot pw role rv ns w = (Ok msg, w') ->
  let u := au_username auth in let i := Z.to_nat slot in
  exists rec s dk, view w !! u = Some rec /\ (i < CREDENTIAL_SLOTS)%nat /\ slot <> si_persona (au_session auth) /\
    role_permits role (ur_role rec) = true /\ role_permits role (au_role auth) = true /\
    view w' = <[u := with_slot rec i s]> (view w) /\ aw_sessions w' = aw_sessions w /\
    identity_pk_b64 s = b64_encode (seal.pk_bytes_of dk) /\
    forall w1, attempt_unwrap (with_slot rec i s) pw ns w1 =
      (Ok (with_slot rec i s, i, mkSlotPayload (seal.sk_bytes_of dk) role rv), set_now (aw_now w1 + ns) w1).
Proof using AL KL BL RL UL.
  intros Hok E u i. run_post E. unfold create_persona, persona_slot. account_steps; try done. intros Hi%negb_false_iff%Nat.ltb_lt.
  account_steps; try done. intros Hslot%Z.eqb_neq. account_steps; try done. intros _. account_steps; try done.
  intros rec Hrec. account_steps; try done. intros [Hr1%negb_false_iff Hr2%negb_false_iff]%orb_false_iff.
  account_steps; try done. intros fresh r Ed. account_steps; try done. intros s Hs. account_steps; try done.
  intros d Hd. account_steps. destruct (view w !! au_username auth) as [old|] eqn:Eu; [|done]. cbn in Hrec.
  injection Hrec as ->. destruct fresh as [s'|]; [|done]. cbn in Hs. injection Hs as ->.
  destruct (proj1 Hok _ _ Eu) as (Hn & Hlen & _). fold i in Hi, Ed, Hd.
  unfold distinct_slot in Ed. apply bind_Ok_inv in Ed as (kek & Hk & Ed). destruct (collides _ _ _ _) eqn:Ecol; [done|].
  apply bind_Ok_inv in Ed as ([s1 r1] & Enew & Ed). injection Ed as -> ->.
  destruct (new_slot_spec (ur_username rec) i pw (ur_kdf rec) role rv kek (aw_rng w) Hk) as (s2 & r2 & Enew2 & _ & dk & b & Hpk & Hu & Hf).
  rewrite Enew in Enew2. injection Enew2 as <- <-.
  exists rec, s, dk. split_and!; try done.
  - cbn [ur_username with_slot with_slots] in Hd. unfold view. cbn. by rewrite Hd, Hn.
  - intros w1. apply (attempt_unwrap_run _ _ _ kek); [done|]. cbn [ur_username ur_slots with_slot with_slots].
    apply (open_slots_first _ _ _ 0 i _ s).
    + apply list_lookup_insert_eq. by rewrite Hlen.
    + by exists b.
    + intros j c Hj Hc p. rewrite list_lookup_insert_ne in Hc by lia. by apply (collides_false _ _ _ 0 Ecol).
Qed.

(** A password change is not checked for reuse: when the new password also opens an
    earlier slot of the account, the change still succeeds, but from then on that
    password logs in as an earlier persona, so the persona whose password was changed can
    no longer be reached. *)
Theorem changed_password_shadowed (auth : Authenticated) (cur new : bytes) (ns : Z) (w w' : AccountWorld)
    (rec : UserRecord) (j : nat) (pj : SlotPayload) :
  accounts_ok w -> change_password env auth cur new ns w = (Ok tt, w') ->
  view w !! au_username auth = Some rec -> (j < Z.to_nat (si_persona (au_session auth)))%nat ->
  open_slot rec new j = Some pj ->
  exists rec', view w' !! au_username auth = Some rec' /\
    exists i p, (i <= j)%nat /\ forall w1, attempt_unwrap rec' new ns w1 = (Ok (rec', i, p), set_now (aw_now w1 + ns) w1).
Proof using UL.
  intros Hok E Hrec Hj Hoj. revert E. set (x := tt). clearbody x. intros E. run_post E.
  unfold change_password, commit_password. cbv zeta. account_steps; try done. intros _.
  account_steps; try done. intros a _. account_steps; try done.
  change (view (set_attempts a w)) with (view w). rewrite Hrec. account_steps; try done. intros p Hi _.
  account_steps; try done. intros s r _. account_steps; try done. intros d Hd. account_steps.
  destruct (proj1 Hok _ _ Hrec) as (Hn & Hlen & _). set (i := Z.to_nat _) in *. exists (with_slot rec i s).
  cbn [ur_username with_slot with_slots] in Hd. split.
  { unfold view. cbn. rewrite Hd, Hn. apply lookup_insert_eq. }
  unfold open_slot in Hoj. destruct (derive_kek (ur_kdf rec) new) as [kek|] eqn:Hk; [|done].
  destruct (ur_slots rec !! j) as [sj|] eqn:Hsj; [|done]. destruct (unwrap_slot (wrapped sj) kek _) as [b|] eqn:Hu; [|done].
  destruct (SlotPayload_from_bytes b) as [q|] eqn:Hq; [|done]. injection Hoj as ->.
  destruct (open_slots_some (ur_username rec) kek (<[i := s]> (ur_slots rec)) 0 j sj pj) as (i' & p' & Hle & Eo).
  - by rewrite list_lookup_insert_ne by lia.
  - by exists b.
  - exists i', p'. split; [done|]. intros w1. by apply (attempt_unwrap_run _ _ _ kek).
Qed.

End personas.

(** ** Scrubbing buckets *)

Section admin.
Context {A : AeadOps} {K : KemOps} {H : HkdfOps} {B : Base64Ops} {R : RngOps} {RR : RandomRange} {G : Argon2Ops}.
Context {T : TokenOps} {L : ListingOps} {BE : BucketEnum} {U : UserDbOps} {UL : UserDbLaws}.
Context {LL : ListingLaws} {LF : ListingFrame} {RRL : RandomRangeLaws}.

Definition config_has (Q : BucketConfig -> Prop) (w : AccountWorld) (b : string) : Prop :=
  forall c, get_bucket_config (aw_storage w) b = Ok c -> Q c.

(** What a scrub leaves alone. *)
Definition same_but_configs (w w' : AccountWorld) : Prop :=
  aw_users w' = aw_users w /\ aw_sessions w' = aw_sessions w /\
  list_buckets (aw_storage w') = list_buckets (aw_storage w).

(** One bucket scrubbed: [Q] holds of it afterwards, it keeps [Q] and [I], the other
    buckets are untouched. *)
Definition scrubbed (Q I : BucketConfig -> Prop) (b : string) (w w' : AccountWorld) : Prop :=
  same_but_configs w w' /\ config_has Q w' b /\ (config_has I w b -> config_has I w' b) /\
  forall b', b' <> b -> get_bucket_config (aw_storage w') b' = get_bucket_config (aw_storage w) b'.

Lemma config_has_other P w w' b b' : b' <> b ->
  (forall b', b' <> b -> get_bucket_config (aw_storage w') b' = get_bucket_config (aw_storage w) b') ->
  config_has P w b' -> config_has P w' b'.
Proof using. intros Hne Hf HP c Hc. apply HP. by rewrite <- Hf. Qed.

(** A loop of scrubs establishes [Q] of every bucket it visits. *)
Lemma scrub_loop {S} (body : string -> S -> prog AccountWorld AuthError S) (Q I : BucketConfig -> Prop) :
  (forall b s w, post (body b s) (fun _ => scrubbed Q I b w) (fun _ _ => True) w) ->
  forall bs s w, post (for_each body bs s) (fun _ w' => same_but_configs w w' /\
     (forall b, b ∈ bs \/ config_has Q w b -> config_has Q w' b) /\
     (forall b, config_has I w b -> config_has I w' b)) (fun _ _ => True) w.
Proof using.
  intros Hbody. induction bs as [|b bs IH]; intros s w; cbn [for_each].
  { apply post_ret. split_and!; try done. by intros b [?%elem_of_nil|?]. }
  apply post_bind. eapply post_mono; [| |apply Hbody]; [|done]. intros s1 w1 ((Hu1 & Hs1 & Hl1) & HQ & HI & Hf).
  eapply post_mono; [| |apply IH]; [|done]. intros s2 w2 ((Hu2 & Hs2 & Hl2) & HQ2 & HI2). split_and!.
  - unfold same_but_configs. by rewrite Hu2, Hs2, Hl2.
  - intros b' Hb'. apply HQ2. destruct (decide (b' = b)) as [->|Hne]; [by right|].
    destruct Hb' as [[?|?]%elem_of_cons|Hb']; [done | by left | right; by apply (config_has_other _ w w1 b)].
  - intros b' Hb'. apply HI2. destruct (decide (b' = b)) as [->|Hne]; [by apply HI | by apply (config_has_other _ w w1 b)].
Qed.

Definition no_grants (u : string) (c : BucketConfig) : Prop := Forall (fun kv => grants kv !! u = None) (keys c).
Definition no_acl (u : string) (c : BucketConfig) : Prop := acl c !! u = None.

(** Writing back a configuration that has [Q] and keeps [I]. *)
Lemma scrubbed_write (Q I : BucketConfig -> Prop) b w c c' st :
  get_bucket_config (aw_storage w) b = Ok c -> set_bucket_config (aw_storage w) b c' = Ok st ->
  Q c' -> (I c -> I c') -> scrubbed Q I b w (set_storage st w).
Proof using LL LF.
  intros Hc Hst HQ HI. pose proof (config_of_set _ _ _ _ Hst) as Hg.
  unfold scrubbed, same_but_configs, config_has. cbn [aw_storage aw_users aw_sessions set_storage]. rewrite Hg.
  split_and!; try done.
  - by apply (list_of_set _ _ _ _ Hst).
  - by intros ? [= <-].
  - intros Ha ? [= <-]. auto.
  - intros b' Hne. by apply (config_of_set_other _ _ _ _ _ Hst).
Qed.

Lemma scrubbed_same (Q I : BucketConfig -> Prop) b w c :
  get_bucket_config (aw_storage w) b = Ok c -> Q c -> scrubbed Q I b w w.
Proof using. intros Hc HQ. split_and!; try done. intros c' Hc'. congruence. Qed.

Lemma scrub_bucket_grants_spec u b o w :
  post (scrub_bucket_grants u b o) (fun _ => scrubbed (no_grants u) (no_acl u) b w) (fun _ _ => True) w.
Proof using LL LF.
  unfold scrub_bucket_grants. account_steps; [|done]. intros c Hc.
  destruct (existsb _ (keys c)) eqn:Ex; cbn [negb].
  - account_steps; [|done]. intros st Hst. account_steps. apply (scrubbed_write _ _ _ _ _ _ _ Hc Hst); [|by intros ?].
    apply Forall_fmap, Forall_true. intros kv. apply lookup_delete_eq.
  - account_steps. apply (scrubbed_same _ _ _ _ _ Hc), Forall_forall. intros kv Hkv. apply eq_None_not_Some. intros Hs.
    apply not_true_iff_false in Ex. apply Ex, existsb_exists. exists kv. split; [by apply list_elem_of_In|].
    by apply bool_decide_eq_true_2.
Qed.

Lemma scrub_bucket_acl_spec u b o w :
  post (scrub_bucket_acl u b o) (fun _ => scrubbed (no_acl u) (no_grants u) b w) (fun _ _ => True) w.
Proof using LL LF.
  unfold scrub_bucket_acl. account_steps; [|done]. intros c Hc. destruct (bool_decide (acl c !! u = None)) eqn:Ea.
  - apply bool_decide_eq_true in Ea. account_steps. by apply (scrubbed_same _ _ _ _ _ Hc).
  - account_steps; [|done]. intros st Hst. apply (scrubbed_write _ _ _ _ _ _ _ Hc Hst); [|by intros ?]. apply lookup_delete_eq.
Qed.

Lemma scrub_user_grants_spec u w bs : list_buckets (aw_storage w) = Ok bs ->
  post (scrub_user_grants u) (fun _ w' => same_but_configs w w' /\ forall b, b ∈ bs -> config_has (no_grants u) w' b)
    (fun _ _ => True) w.
Proof using LL LF.
  intros Hb. unfold scrub_user_grants. apply post_bind, post_buckets; [|done]. intros bs' Hb'. rewrite Hb in Hb'. injection Hb' as <-.
  eapply post_mono; [| |apply (scrub_loop _ (no_grants u) (no_acl u)); intros; apply scrub_bucket_grants_spec]; [|done].
  intros x w' (? & HQ & _). split; [done|]. intros b Hin. apply HQ. by left.
Qed.

Lemma scrub_acl_spec u w bs : list_buckets (aw_storage w) = Ok bs ->
  (forall b, b ∈ bs -> config_has (no_grants u) w b) ->
  post (scrub_deleted_user_acl_entries u) (fun _ w' => same_but_configs w w' /\
    forall b, b ∈ bs -> config_has (no_grants u) w' b /\ config_has (no_acl u) w' b) (fun _ _ => True) w.
Proof using LL LF.
  intros Hb Hno. unfold scrub_deleted_user_acl_entries. apply post_bind, post_buckets; [|done]. intros bs' Hb'. rewrite Hb in Hb'. injection Hb' as <-.
  eapply post_mono; [| |apply (scrub_loop _ (no_acl u) (no_grants u)); intros; apply scrub_bucket_acl_spec]; [|done].
  intros x w' (? & HQ & HI). split; [done|]. intros b Hin. split; [by apply HI, Hno|]. apply HQ. by left.
Qed.

(** Without a grant row no identity key opens the bucket. *)
Lemma no_grants_forbidden u c b e slot sk : no_grants u c -> read_key c b e u slot sk = Err (forbidden b).
Proof using.
  intros Hno. unfold read_key, open_bwk, find_epoch. destruct (list_find _ (keys c)) as [[i kv]|] eqn:Ef; [|done].
  apply list_find_Some in Ef as (Hkv & _ & _). cbn [fmap option_fmap option_map snd ok_or mbind result_bind].
  unfold no_grants in Hno. rewrite Forall_forall in Hno. apply list_elem_of_lookup_2 in Hkv. by rewrite (Hno kv Hkv).
Qed.

(** Resetting an identity leaves nothing of the old one usable: the account gets a
    fresh row of four slots and keeps its role, none of its sessions survives, and in no
    bucket of the deployment does its name open any key epoch, whatever identity key is
    tried. *)
Theorem reset_identity_cuts_off (auth : Authenticated) (u : string) (pw : bytes) (ns : Z) (w w' : AccountWorld)
    (orphaned bs : list string) :
  list_buckets (aw_storage w) = Ok bs ->
  reset_identity auth u pw ns w = (Ok orphaned, w') ->
  (exists rec slots i, view w !! u = Some rec /\ length slots = CREDENTIAL_SLOTS /\
     view w' = <[ur_username rec := with_slots rec slots (Z.of_nat i)]> (view w)) /\
  (forall h s, inner (aw_sessions w') !! h = Some s -> inner (aw_sessions w) !! h = Some s /\ si_username s <> u) /\
  (forall b c e slot sk, b ∈ bs -> get_bucket_config (aw_storage w') b = Ok c -> read_key c b e u slot sk = Err (forbidden b)).
Proof using LL LF RRL UL.
  intros Hb E. run_post E. unfold reset_identity. account_steps; try done. intros [] _. account_steps; try done.
  intros _. account_steps; try done. intros rec Hrec. account_steps; try done. intros [slots i] r E.
  apply bind_Ok_inv in E as ([[ss j] r2] & E & E'). injection E' as -> -> ->. apply new_slots_shape in E as [Hl Hj].
  account_steps; try done. intros d Hd. apply post_bind, post_modify.
  eapply post_mono; [| |apply (scrub_user_grants_spec u _ bs); exact Hb]; [|done].
  intros o w2 ((Hu & Hs & _) & Hno). split_and!.
  - destruct (view w !! u) as [old|] eqn:Eu; [|done]. cbn in Hrec. injection Hrec as ->.
    exists rec, slots, i. split_and!; try done. unfold view. rewrite Hu. cbn. by rewrite Hd.
  - intros h s Hh. rewrite Hs in Hh. cbn [aw_sessions set_sessions] in Hh. unfold revoke_user in Hh. cbn [snd] in Hh.
    apply lookup_revoked in Hh as [Hh Hu']. by apply bool_decide_eq_false in Hu'.
  - intros b c e slot sk Hin Hc. apply no_grants_forbidden. by apply (Hno b).
Qed.

(** The check that a deletion strands no bucket only reads. *)
Lemma sole_check_reads u (force : bool) (w : AccountWorld) :
  post (if force then mret tt else
       sole ← sole_grantee_buckets u; guard_not (negb (bool_decide (sole = []))) (CannotDeleteSoleGrantee sole))
    (fun _ w1 => w1 = w) (fun _ w1 => w1 = w) w.
Proof using.
  destruct force; [by apply post_ret|]. apply post_bind. unfold sole_grantee_buckets. apply post_bind, post_buckets; [|done].
  intros bs _. eapply (post_mono _ (fun _ w1 => w1 = w)); [| |]; last first.
  - apply post_for_each; [|done]. intros b s w1 _ ->. account_steps; done.
  - done.
  - intros s w1 ->. by apply post_guard.
Qed.

(** A deleted account takes its access with it: its record and all its sessions are
    gone, and in every bucket of the deployment it has neither a key grant nor an ACL
    entry, so that an account later created under the same name has no relationship to
    any bucket it does not appear as the owner of. *)
Theorem delete_user_scrubs (auth : Authenticated) (u : string) (force : bool) (w w' : AccountWorld) (bs : list string) :
  list_buckets (aw_storage w) = Ok bs -> delete_user auth u force w = (Ok tt, w') ->
  view w' = delete u (view w) /\ is_Some (view w !! u) /\
  (forall h s, inner (aw_sessions w') !! h = Some s <-> inner (aw_sessions w) !! h = Some s /\ si_username s <> u) /\
  (forall b c, b ∈ bs -> get_bucket_config (aw_storage w') b = Ok c ->
     (forall e slot sk, read_key c b e u slot sk = Err (forbidden b)) /\
     (owner c <> Some u -> bucket_grant_caps c u = None)).
Proof using LL LF UL.
  intros Hb. generalize tt as x. intros x E. run_post E. unfold delete_user.
  apply post_bind, post_lift; [|done]. intros [] _. apply post_bind.
  eapply post_mono; [| |apply sole_check_reads]; [|done]. intros _ w1 ->. apply post_bind, post_list_records; [|done]. intros l _.
  apply post_bind, post_lift; [|done]. intros [] _. apply post_bind, post_delete_record; [|done]. intros d Hd.
  apply post_bind, post_guard; [|done]. intros Hpres%negb_false_iff%bool_decide_eq_true.
  apply post_bind. eapply post_mono; [| |apply (scrub_user_grants_spec u _ bs); exact Hb]; [|done].
  intros _ w2 ((Hu2 & Hs2 & Hl2) & Hno). apply post_bind.
  eapply post_mono; [| |apply (scrub_acl_spec u w2 bs); [by rewrite Hl2|done]]; [|done].
  intros _ w3 ((Hu3 & Hs3 & Hl3) & Hno3). apply post_modify. split_and!; try done.
  - unfold view. cbn. by rewrite Hu3, Hu2.
  - intros h s. cbn [aw_sessions set_sessions]. rewrite Hs3, Hs2. unfold revoke_user. cbn [snd]. rewrite lookup_revoked.
    by rewrite bool_decide_eq_false.
  - intros b c Hin Hc. cbn [aw_storage set_sessions] in Hc. destruct (Hno3 b Hin) as [H1 H2]. split.
    + intros e slot sk. by apply no_grants_forbidden, H1.
    + intros Hown. unfold bucket_grant_caps. rewrite (H2 c Hc). destruct (owner c) as [o|] eqn:Eo; [|done]. case_bool_decide; [congruence|done].
Qed.

(** The scrubs change configurations only, also when they fail half way. *)
Definition same_accounts (w w' : AccountWorld) : Prop := aw_users w' = aw_users w /\ aw_sessions w' = aw_sessions w.

Lemma scrub_user_grants_frame u (w : AccountWorld) :
  post (scrub_user_grants u) (fun _ => same_accounts w) (fun _ => same_accounts w) w.
Proof using.
  unfold scrub_user_grants. apply post_bind, post_buckets; [|done]. intros bs _. apply post_for_each; [|done].
  intros b s w1 _ Hw1. unfold scrub_bucket_grants. account_steps; [|done]. intros c _. destruct (negb _); account_steps; done.
Qed.

Lemma scrub_acl_frame u (w : AccountWorld) :
  post (scrub_deleted_user_acl_entries u) (fun _ => same_accounts w) (fun _ => same_accounts w) w.
Proof using.
  unfold scrub_deleted_user_acl_entries. apply post_bind, post_buckets; [|done]. intros bs _. apply post_for_each; [|done].
  intros b s w1 _ Hw1. unfold scrub_bucket_acl. account_steps; [|done]. intros c _. case_bool_decide; account_steps; done.
Qed.

Lemma delete_user_outcome auth u force (w : AccountWorld) :
  post (delete_user auth u force) (fun _ w' => is_Some (view w !! u) /\ view w' = delete u (view w))
    (fun _ w' => aw_sessions w' = aw_sessions w) w.
Proof using UL.
  unfold delete_user. apply post_bind, post_lift; [|done]. intros [] _. apply post_bind.
  eapply post_mono; [| |apply sole_check_reads]; [|by intros ? ? ->]. intros _ w1 ->.
  apply post_bind, post_list_records; [|done]. intros l _.
  apply post_bind, post_lift; [|done]. intros [] _. apply post_bind, post_delete_record; [|done]. intros d Hd.
  apply post_bind, post_guard; [|done]. intros Hpres%negb_false_iff%bool_decide_eq_true.
  apply post_bind. eapply post_mono; [| |apply scrub_user_grants_frame]; [|by intros ? ? [_ ->]]. intros _ w2 [H2 H2'].
  apply post_bind. eapply post_mono; [| |apply scrub_acl_frame]; [|by intros ? ? [_ ->]]. intros _ w3 [H3 _].
  apply post_modify. split; [done|]. unfold view. cbn. by rewrite H3, H2.
Qed.

(** A deletion that fails after the record is gone is never completed: the sessions of
    the account were not touched, and every later deletion of that name, forced or not,
    fails again without touching them, so that the deleted account's tokens live until
    they expire although the code means a deletion to revoke them at once. *)
Theorem interrupted_delete_keeps_sessions (auth : Authenticated) (u : string) (force : bool) (w w' : AccountWorld)
    (e : AuthError) :
  delete_user auth u force w = (Err e, w') -> view w' !! u = None ->
  aw_sessions w' = aw_sessions w /\
  forall auth2 force2, exists e2 w2, delete_user auth2 u force2 w' = (Err e2, w2) /\ aw_sessions w2 = aw_sessions w.
Proof using UL.
  intros E Hgone. assert (Hs : aw_sessions w' = aw_sessions w) by exact (post_run_err _ _ _ _ _ _ (delete_user_outcome auth u force w) E).
  split; [done|]. intros auth2 force2. pose proof (delete_user_outcome auth2 u force2 w') as Hp. unfold post in Hp.
  destruct (delete_user auth2 u force2 w') as [[[]|e2] w2]; [|exists e2, w2; by rewrite Hp, Hs].
  rewrite Hgone in Hp. by destruct Hp as [[] _].
Qed.

End admin.
