(* ===== verification/AccountRaces.v ===== *)
(** * Account handlers that overlap

    A login that races a deletion of its account leaves no session behind, however the
    operations of the two interleave; handlers that read a record, wait and write it back
    undo what happened in between.  The threads are those of [AccountThreads]. *)

From stdpp Require Import pretty sorting relations.
From S2P Require Import Prelude Effects Threads Primitives Types Crypto Slots Session BucketKeys Authz Upload S3State UserStore Accounts AccountSafety AccountThreads Logins AccountAdmin.

Section login_delete.
Context {A : AeadOps} {K : KemOps} {H : HkdfOps} {B : Base64Ops} {R : RngOps} {RR : RandomRange} {G : Argon2Ops}.
Context {T : TokenOps} {L : ListingOps} {BE : BucketEnum} {U : UserDbOps} {UL : UserDbLaws} {D : Sharding} {DL : ShardingLaws}.
Variable env : AuthEnv.

#[local] Abbreviation account_thread := (thread AccountWorld AuthError).

Section race.
Variable u : string.

Definition gone (w : AccountWorld) : Prop := view w !! u = None.
(** A session of the account. *)
Definition held (w : AccountWorld) (h : bytes) : Prop := exists s, inner (aw_sessions w) !! h = Some s /\ si_username s = u.

(** ** Removing the sessions of the account

    Where a thread that removes them can be before it goes on with [k], and the rows it
    will still remove. *)
Inductive revoking {V} (k : account_thread V) : account_thread V -> (bytes -> Prop) -> Prop :=
| rv_collect l vs : revoking k (collect_rows (of_user u) l vs (fun victims => remove_rows victims k)) (fun h => shard h ∈ l \/ h ∈ vs)
| rv_remove vs : revoking k (remove_rows vs k) (fun h => h ∈ vs).

Lemma held_remove w h h' : held (remove_row h w).2 h' -> held w h' /\ h' <> h.
Proof using. intros (s & Hs & Hu). cbn in Hs. apply lookup_delete_Some in Hs as [Hne Hs]. split; [by exists s|done]. Qed.

(** It is through, and has nothing left to remove, or its next step keeps the promise. *)
Lemma revoking_step {V} (k t : account_thread V) c w : revoking k t c ->
  (t = k /\ forall h, ~ c h) \/
  exists t' w' c', resume t w = (t', w') /\ revoking k t' c' /\ aw_users w' = aw_users w /\ forall h, held w' h -> held w h /\ (c h -> c' h).
Proof using.
  assert (Hremove : forall vs, (remove_rows vs k = k /\ forall h, ~ h ∈ vs) \/
    exists t' w' c', resume (remove_rows vs k) w = (t', w') /\ revoking k t' c' /\ aw_users w' = aw_users w /\ forall h, held w' h -> held w h /\ (h ∈ vs -> c' h)).
  { intros [|h vs]; [left; split; [done|]; intros h; apply not_elem_of_nil|right]. eexists _, _, _. split; [done|]. split; [apply rv_remove|]. split; [done|].
    intros h' Hh. apply (held_remove w h h') in Hh as [Hh Hne]. split; [done|]. by intros [->|?]%elem_of_cons. }
  intros [l vs|vs]; [|apply Hremove]. destruct l as [|j l].
  - destruct (Hremove vs) as [[E Hn]|(t' & w' & c' & E & Hr & Hu & Hh)]; [left; split; [done|]; intros h [Hin%elem_of_nil|Hin]; naive_solver|right].
    exists t', w', c'. split_and!; try done. intros h Hw. destruct (Hh h Hw) as [H1 H2]. split; [done|]. intros [Hin%elem_of_nil|Hin]; [done|auto].
  - right. eexists _, _, _. split; [done|]. split; [apply rv_collect|]. split; [done|]. intros h Hw. split; [done|]. rewrite elem_of_cons, elem_of_app. intros [[Hj|Hl]|Hv]; [|tauto..].
    right. right. destruct Hw as (s & Hs & Hu). apply elem_of_victims. exists s. split; [done|]. unfold of_user. by rewrite Hj, Nat.eqb_refl, bool_decide_eq_true_2.
Qed.

Lemma revoking_halt {V} (k : account_thread V) r c : revoking k (Halt r) c -> forall h, ~ c h.
Proof using.
  intros Hr h. inversion Hr as [l vs El|vs El]; [destruct l; [|done]|]; destruct vs; try done; [intros [Hh|Hh]|intros Hh]; by apply elem_of_nil in Hh.
Qed.

(** Once it starts over all shards, every row is covered. *)
Lemma revoking_all {V} (k : account_thread V) : exists c, revoking k (revoke_rows (of_user u) k) c /\ forall h, c h.
Proof using DL. eexists. split; [apply rv_collect|]. intros h. left. apply elem_of_seq. pose proof (shard_lt h). lia. Qed.

(** ** The login

    Where the second half of an ordinary login can be, and the rows it still answers for:
    those it is removing, and the one it inserted until it has looked at the account
    again.  If that look fails, the row stays. *)
Inductive logging (snap : UserRecord) (i : nat) (p : SlotPayload) (e st : Z) : account_thread TokenResponse -> (bytes -> Prop) -> Prop :=
| lg_start : logging snap i p e st (finalize_thread env u snap i p e st) (fun _ => False)
| lg_touch : logging snap i p e st (Atom (touch_last_login u) (touched_thread env u i p e st)) (fun _ => False)
| lg_now : logging snap i p e st (Atom (gets aw_now) (insert_thread env u i p e st)) (fun _ => False)
| lg_insert t : logging snap i p e st (insert_thread env u i p e st t) (fun _ => False)
| lg_recheck token : logging snap i p e st (recheck_thread env u i p e st token) (fun h => h = hash_token token)
| lg_revoke t c : revoking (refused env st InvalidCredentials) t c -> logging snap i p e st t c
| lg_refused err : logging snap i p e st (refused env st err) (fun _ => False)
| lg_answer token : logging snap i p e st (answer_thread env u e st token) (fun _ => False)
| lg_floor r : logging snap i p e st (Atom (apply_floor (min_login_response_ms (auth_config env)) st) (fun _ => Halt r)) (fun _ => False)
| lg_end r : logging snap i p e st (Halt r) (fun _ => False)
| lg_failed token what : logging snap i p e st (Halt (Err (Backend what))) (fun h => h = hash_token token).

(** What a step of it may do to the rows, when another thread answers for [other]. *)
Definition covers (w : AccountWorld) (c other : bytes -> Prop) : Prop := forall h, held w h -> other h \/ c h.

Lemma quiet_step {X V} (m : prog AccountWorld AuthError X) (k : X -> account_thread V) w t' w' (Q : account_thread V -> Prop) :
  (forall w, aw_users (m w).2 = aw_users w /\ aw_sessions (m w).2 = aw_sessions w) -> (forall x, Q (k x)) -> (forall err, Q (Halt (Err err))) ->
  resume (Atom m k) w = (t', w') -> Q t' /\ aw_users w' = aw_users w /\ aw_sessions w' = aw_sessions w.
Proof using. intros Hm Hk He. cbn [resume]. destruct (Hm w) as [H1 H2]. destruct (m w) as [[x|err] w1]; cbn in *; by intros [= <- <-]. Qed.

Lemma same_rows w w' c other : aw_sessions w' = aw_sessions w -> covers w c other -> covers w' c other.
Proof using. intros Hs Hc h (s & Hr & Hu). rewrite Hs in Hr. apply Hc. by exists s. Qed.
Lemma same_gone w w' : aw_users w' = aw_users w -> gone w -> gone w'.
Proof using. intros Hu. unfold gone, view. by rewrite Hu. Qed.

(** A login that is ordinary goes on as one, and with the account gone it keeps answering
    for its rows. *)
Lemma logging_step snap i p e st t c w t' w' : sp_revoke_other_sessions p = false -> logging snap i p e st t c -> resume t w = (t', w') ->
  exists c', logging snap i p e st t' c' /\ (gone w -> gone w' /\ forall other, covers w c other -> covers w' c' other).
Proof using UL DL.
  intros Hp Ht E.
  assert (Hquiet : forall c', logging snap i p e st t' c' -> aw_users w' = aw_users w -> aw_sessions w' = aw_sessions w -> (forall h, c h -> c' h) ->
    exists c', logging snap i p e st t' c' /\ (gone w -> gone w' /\ forall other, covers w c other -> covers w' c' other)).
  { intros c' Hl Hu Hs Hcc. exists c'. split; [done|]. intros Hg. split; [by eapply same_gone|]. intros other Hc. apply (same_rows w); [done|]. intros h Hh. destruct (Hc h Hh); auto. }
  assert (Hrun : forall c t, revoking (refused env st InvalidCredentials) t c -> resume t w = (t', w') -> t <> refused env st InvalidCredentials ->
    exists c', logging snap i p e st t' c' /\ (gone w -> gone w' /\ forall other, covers w c other -> covers w' c' other)).
  { intros c0 t0 Hr E0 Hne. destruct (revoking_step _ _ _ w Hr) as [[-> _]|(t1 & w1 & c1 & E1 & Hr1 & Hu & Hh)]; [done|]. rewrite E1 in E0. injection E0 as <- <-.
    exists c1. split; [by apply lg_revoke|]. intros Hg. split; [by eapply same_gone|]. intros other Hc h Hw. destruct (Hh h Hw) as [Hw0 Hcc]. destruct (Hc h Hw0); auto. }
  destruct Ht as [| | |now|token|t c Hr|err|token|r|r|token what].
  - unfold finalize_thread in E. cbn [resume] in E. pose proof (post_get_user u (fun o w1 => o = view w !! u /\ w1 = w) (fun _ w1 => w1 = w) w ltac:(done) ltac:(done)) as Hget. unfold post in Hget.
    destruct (get_user u w) as [[fresh|err] w1]; [destruct Hget as [_ ->]|subst w1]; injection E as <- <-; [|by eapply Hquiet; [apply lg_end|..]].
    destruct fresh as [fresh|]; [|by eapply Hquiet; [apply lg_refused|..]]. destruct (negb _ || _); [by eapply Hquiet; [apply lg_refused|..]|]. destruct (_ || negb _); [by eapply Hquiet; [apply lg_refused|..]|].
    by eapply Hquiet; [apply lg_touch|..].
  - cbn [resume] in E. pose proof (post_touch u (fun o w1 => aw_sessions w1 = aw_sessions w /\ (gone w -> gone w1)) (fun _ w1 => w1 = w) w) as Htouch. unfold post in Htouch.
    assert (Ht : match touch_last_login u w with (Ok _, w1) => aw_sessions w1 = aw_sessions w /\ (gone w -> gone w1) | (Err _, w1) => w1 = w end).
    { apply Htouch; [| |done]; intros d; [intros rec Hrec _; split; [done|]; unfold gone; congruence|]. intros _ Hd. split; [done|]. unfold gone, view. cbn. by rewrite Hd. }
    destruct (touch_last_login u w) as [[o|err] w1]; injection E as <- <-; [destruct Ht as [Hs Hg]|subst w1; by eapply Hquiet; [apply lg_end|..]].
    assert (Hl : logging snap i p e st (touched_thread env u i p e st o) (fun _ => False)) by (unfold touched_thread; destruct (bool_decide _); constructor).
    exists (fun _ => False). split; [done|]. intros Hg0. split; [auto|]. intros other. by apply same_rows.
  - cbn [resume gets] in E. injection E as <- <-. by eapply Hquiet; [apply lg_insert|..].
  - cbn [resume insert_thread] in E. unfold insert_session in E. destruct (session_insert _ _ _) as [[[token s'] r]|err] eqn:Ei; injection E as <- <-; [|by eapply Hquiet; [apply lg_end|..]].
    exists (fun h => h = hash_token token). split; [apply lg_recheck|]. intros Hg. split; [done|]. intros other Hc h (s & Hs & Hu). unfold session_insert in Ei. destruct (token_random _) as [tk r0].
    apply bind_Ok_inv in Ei as ([sealed r1] & _ & Ei). injection Ei as <- <- _. cbn in Hs. apply lookup_insert_Some in Hs as [[Hh _]|[_ Hs]]; [right; congruence|]. destruct (Hc h) as [Hh|[]]; [by exists s|by left].
  - unfold recheck_thread in E. cbn [resume] in E. pose proof (post_get_user u (fun o w1 => o = view w !! u /\ w1 = w) (fun err w1 => (exists what, err = Backend what) /\ w1 = w) w ltac:(done) ltac:(intros ?; split; [by eexists|done])) as Hget.
    unfold post in Hget. destruct (get_user u w) as [[again|err] w1]; [destruct Hget as [-> ->]|destruct Hget as [[what ->] ->]]; injection E as <- <-; [|by eapply Hquiet; [apply (lg_failed _ _ _ _ _ token)|..]].
    case_bool_decide as Hn.
    + destruct (revoking_all (refused env st InvalidCredentials)) as (c' & Hr & Hall). eapply Hquiet; [by apply lg_revoke|done|done|auto].
    + unfold finish_thread. rewrite Hp. exists (fun _ => False). split; [apply lg_answer|]. intros Hg. by destruct Hn.
  - destruct (revoking_step _ _ _ w Hr) as [[-> Hn]|(t1 & w1 & c1 & E1 & Hr1 & Hu & Hh)].
    + cbn [resume refused] in E. injection E as <- <-. eapply Hquiet; [apply lg_end|done|done|naive_solver].
    + rewrite E1 in E. injection E as <- <-. exists c1. split; [by apply lg_revoke|]. intros Hg. split; [by eapply same_gone|]. intros other Hc h Hw. destruct (Hh h Hw) as [Hw0 Hcc]. destruct (Hc h Hw0); auto.
  - cbn [resume refused] in E. injection E as <- <-. by eapply Hquiet; [apply lg_end|..].
  - cbn [resume answer_thread] in E. injection E as <- <-. by eapply Hquiet; [apply lg_floor|..].
  - cbn [resume] in E. injection E as <- <-. by eapply Hquiet; [apply lg_end|..].
  - cbn [resume] in E. injection E as <- <-. by eapply Hquiet; [apply lg_end|..].
  - cbn [resume] in E. injection E as <- <-. by eapply Hquiet; [apply (lg_failed _ _ _ _ _ token)|..].
Qed.

(** ** The deletion *)

(** Steps that leave the user table as it is, up to [k]. *)
Inductive toward {V} (k : account_thread V) : account_thread V -> Prop :=
| tw_here : toward k k
| tw_step {X} (m : prog AccountWorld AuthError X) f : aside m -> (forall x, toward k (f x)) -> toward k (Atom m f).

Lemma toward_each {X S V} (k : account_thread V) (body : X -> S -> (S -> account_thread V) -> account_thread V) l f :
  (forall x s g, (forall s, toward k (g s)) -> toward k (body x s g)) -> (forall s, toward k (f s)) -> forall s, toward k (each body l s f).
Proof using. intros Hb Hf. induction l as [|x l IH]; intros s; cbn [each]; [apply Hf|]. by apply Hb. Qed.

Lemma scrub_toward : toward (revoke_thread u) (scrub_thread u).
Proof using.
  unfold scrub_thread, grants_thread. apply tw_step; [done|]. intros bs. apply toward_each.
  - intros b o g Hg. unfold grants_bucket. apply tw_step; [done|]. intros c. destruct (negb _); [done|]. apply tw_step; [apply aside_set_config|]. done.
  - intros _. apply tw_step; [done|]. intros bs'. apply toward_each; [|intros; apply tw_here]. intros b o g Hg. unfold acl_bucket. apply tw_step; [done|]. intros c. destruct (bool_decide _); [done|]. by apply tw_step; [apply aside_set_config|].
Qed.
Lemma delete_toward auth force : toward (remove_thread u) (delete_thread auth u force).
Proof using.
  assert (Hl : toward (remove_thread u) (list_thread u)) by (unfold list_thread; apply tw_step; [done|]; intros users; apply tw_step; [done|]; intros _; apply tw_here).
  unfold delete_thread. apply tw_step; [done|]. intros _. destruct force; [done|]. apply tw_step; [done|]. intros bs. apply toward_each; [|intros sole; by apply tw_step].
  intros b o g Hg. unfold sole_bucket. by apply tw_step.
Qed.

(** Where a deletion can be, the rows it will still remove, and whether the account is
    gone. *)
Inductive deleting : account_thread unit -> (bytes -> Prop) -> bool -> Prop :=
| dl_before t : toward (remove_thread u) t -> deleting t (fun _ => True) false
| dl_removed b : deleting (removed_thread u b) (fun _ => True) true
| dl_scrub t : toward (revoke_thread u) t -> deleting t (fun _ => True) true
| dl_revoke t c : revoking (Halt (Ok tt)) t c -> deleting t c true
| dl_error err : deleting (Halt (Err err)) (fun _ => True) false.

Definition promised (w : AccountWorld) (c dc : bytes -> Prop) (removed : bool) : Prop := removed = true -> gone w /\ covers w c dc.

Lemma deleting_step d dc b w d' w' c : deleting d dc b -> promised w c dc b -> resume d w = (d', w') ->
  exists dc' b', deleting d' dc' b' /\ promised w' c dc' b'.
Proof using UL DL.
  intros Hd Hpr E. assert (Hfail : forall err w1, exists dc' b', deleting (Halt (Err err)) dc' b' /\ promised w1 c dc' b') by (intros; exists (fun _ => True), false; split; [constructor|done]).
  assert (Hrev : forall t, revoking (Halt (Ok tt)) d t -> (forall h, held w h -> dc h -> t h) -> b = true -> exists dc' b', deleting d' dc' b' /\ promised w' c dc' b').
  { intros c0 Hr Hcc ->. destruct (Hpr eq_refl) as [Hg Hc]. destruct (revoking_step _ _ _ w Hr) as [[-> Hn]|(t1 & w1 & c1 & E1 & Hr1 & Hu & Hh)].
    - cbn in E. injection E as <- <-. exists c0, true. split; [by apply dl_revoke|]. intros _. split; [done|]. intros h Hw. destruct (Hc h Hw); [left; auto|by right].
    - rewrite E1 in E. injection E as <- <-. exists c1, true. split; [by apply dl_revoke|]. intros _. split; [by eapply same_gone|]. intros h Hw. destruct (Hh h Hw) as [Hw0 Hcc']. destruct (Hc h Hw0); [left; auto|by right]. }
  destruct Hd as [t Ht|r|t Ht|t dc Hr|err].
  - destruct Ht as [|X m f Hm Hf].
    + unfold remove_thread in E. cbn [resume] in E. pose proof (post_delete_record u (fun _ => gone) (fun _ _ => True) w) as Hdel. unfold post in Hdel.
      assert (Hd : match delete_record u w with (Ok _, w1) => gone w1 | (Err _, _) => True end).
      { apply Hdel; [|done]. intros d Hd. unfold gone, view. cbn. rewrite Hd. apply lookup_delete_eq. }
      destruct (delete_record u w) as [[x|err] w1]; injection E as <- <-; [|apply Hfail]. exists (fun _ => True), true. split; [constructor|]. intros _. split; [done|]. intros h _. by left.
    + cbn [resume] in E. destruct (m w) as [[x|err] w1]; injection E as <- <-; [|apply Hfail]. exists (fun _ => True), false. split; [by apply dl_before|done].
  - cbn [resume removed_thread guard_not] in E. destruct (negb r); injection E as <- <-; [apply Hfail|]. exists (fun _ => True), true. split; [apply dl_scrub, scrub_toward|exact Hpr].
  - destruct Ht as [|X m f Hm Hf].
    + destruct (revoking_all (Halt (Ok tt) : account_thread unit)) as (c0 & Hr & Hall). by apply (Hrev c0); auto.
    + cbn [resume] in E. specialize (Hm w). destruct (m w) as [[x|err] w1]; injection E as <- <-; [|apply Hfail]. exists (fun _ => True), true. split; [by apply dl_scrub|].
      intros _. destruct (Hpr eq_refl) as [Hg _]. split; [by eapply same_gone|]. intros h _. by left.
  - by apply (Hrev dc); auto.
  - cbn in E. injection E as <- <-. apply Hfail.
Qed.

(** ** The race *)

Section runs.
Variables (snap : UserRecord) (i : nat) (p : SlotPayload) (e st : Z).
Hypothesis Hp : sp_revoke_other_sessions p = false.

Definition race_inv (c : account_thread TokenResponse * account_thread unit * AccountWorld) : Prop :=
  let '(login, del, w) := c in exists c dc b, logging snap i p e st login c /\ deleting del dc b /\ promised w c dc b.

Lemma race_inv_step c c' : race_step c c' -> race_inv c -> race_inv c'.
Proof using UL DL Hp.
  intros [t t' d w w' E|t d d' w w' E] (c0 & dc & b & Ht & Hd & Hpr).
  - destruct (logging_step snap i p e st t c0 w t' w' Hp Ht E) as (c1 & Ht1 & Hg). exists c1, dc, b. split_and!; [done|done|]. intros ->. destruct (Hpr eq_refl) as [Hgone Hc].
    destruct (Hg Hgone) as [Hg' Hc']. split; [done|]. by apply Hc'.
  - destruct (deleting_step d dc b w d' w' c0 Hd Hpr E) as (dc' & b' & Hd' & Hpr'). by exists c0, dc', b'.
Qed.
Lemma race_inv_run c c' : rtc race_step c c' -> race_inv c -> race_inv c'.
Proof using UL DL Hp. induction 1 as [|c c1 c' Hs _ IH]; [done|]. intros Hi. by apply IH, (race_inv_step c c1). Qed.

Lemma deleted_end dc b : deleting (Halt (Ok tt)) dc b -> b = true /\ forall h, ~ dc h.
Proof using DL.
  intros Hd. inversion Hd as [t Ht| |t Ht|t c Hr|]; subst; try discriminate.
  - inversion Ht.
  - inversion Ht as [Hh|]; subst. unfold revoke_thread, revoke_rows in Hh. destruct (seq 0 shards) as [|j l] eqn:Es; [|done]. split; [done|]. intros h _. pose proof (shard_lt h) as Hs. destruct shards; [lia|done].
  - split; [done|]. by eapply revoking_halt.
Qed.
End runs.
End race.

(** C29: a login and the deletion of its account may overlap in any way. Let the second half
    of an ordinary login (not one that is flagged to take over the other sessions) and a
    deletion take turns, one operation on the user table or on one session at a time, under
    any schedule that lets both go again and again: both end, and if the deletion
    succeeded, the account is gone and no session of it is left, whichever of the two
    finished first.  The one exception is a login that ends in a storage error: it may
    leave the one session it inserted, whose token nobody was given.  For a login that is
    flagged it is false: [duress_login_revives] of AccountWitness.v. *)
Theorem login_delete_race (auth : Authenticated) (u : string) (force : bool) (snapshot : UserRecord) (i : nat)
    (p : SlotPayload) (expires started : Z) (w : AccountWorld) (sched : nat -> bool) :
  sp_revoke_other_sessions p = false -> fair sched ->
  exists n r d w', race_run (upto sched n) (finalize_thread env u snapshot i p expires started, delete_thread auth u force, w) = (Halt r, Halt d, w') /\
    (d = Ok tt -> view w' !! u = None /\
       exists left, forall h s, inner (aw_sessions w') !! h = Some s -> si_username s = u -> h = left /\ exists what, r = Err (Backend what)).
Proof using UL DL.
  intros Hp Hfair. destruct (race_ends (finalize_thread env u snapshot i p expires started) (delete_thread auth u force) w sched Hfair) as (n & r & d & w' & E). exists n, r, d, w'. split; [done|]. intros ->.
  assert (Hinv : race_inv u snapshot i p expires started (Halt r, Halt (Ok tt), w')).
  { apply (race_inv_run u snapshot i p expires started Hp (finalize_thread env u snapshot i p expires started, delete_thread auth u force, w)); [rewrite <- E; apply race_run_steps|].
    exists (fun _ => False), (fun _ => True), false. split_and!; [constructor|apply dl_before, delete_toward|done]. }
  destruct Hinv as (c & dc & b & Ht & Hd & Hpr). apply deleted_end in Hd as [-> Hnone]. destruct (Hpr eq_refl) as [Hg Hc]. split; [done|].
  assert (Hend : exists left, forall h, c h -> h = left /\ exists what, r = Err (Backend what)).
  { inversion Ht as [| | | | |t c0 Hr| | | | |token what]; subst; try (exists []; done).
    - exists []. intros h Hh. by destruct (revoking_halt u _ _ _ Hr h).
    - exists (hash_token token). intros h ->. eauto. }
  destruct Hend as [left Hleft]. exists left. intros h s Hs Hu. apply Hleft. destruct (Hc h) as [Hh|Hh]; [by exists s|by destruct (Hnone h)|done].
Qed.

End login_delete.

(** ** Reading, waiting and writing back *)

Section write_back.
Context {A : AeadOps} {K : KemOps} {H : HkdfOps} {B : Base64Ops} {R : RngOps} {RR : RandomRange} {G : Argon2Ops}.
Context {T : TokenOps} {L : ListingOps} {BE : BucketEnum} {U : UserDbOps} {UL : UserDbLaws}.
Variable env : AuthEnv.

Lemma commit_password_writes auth rec i s started w w' :
  commit_password env auth rec i s started w = (Ok tt, w') -> view w' !! ur_username rec = Some (with_slot rec i s).
Proof using UL.
  generalize tt as x. intros x E. run_post E. unfold commit_password. account_steps; [|done]. intros d Hd. account_steps.
  unfold view. cbn. rewrite Hd. apply lookup_insert_eq.
Qed.

Lemma set_role_writes auth u role w w' :
  set_role auth u role w = (Ok tt, w') ->
  exists rec r, view w !! u = Some rec /\ parse_role role = Ok r /\ view w' = <[ur_username rec := with_role rec r]> (view w).
Proof using UL.
  generalize tt as x. intros x E. run_post E. unfold set_role. account_steps; try done. intros [] _. account_steps; try done.
  intros r Hr. account_steps; try done. intros l _. account_steps; try done. intros cr _. account_steps; try done. intros _.
  account_steps; try done. intros rec Hrec. account_steps; try done. intros d Hd. account_steps.
  destruct (view w !! u) as [rec'|]; [|done]. cbn in Hrec. injection Hrec as ->. exists rec, r. split_and!; try done.
Qed.

(** A password change undoes what an administrator did while it was running. The
    handler reads the record, derives keys for as long as Argon2 takes, and writes its
    copy of the record back without looking again: an account that was disabled in the
    meantime gets its old role back, and one that was deleted exists again. *)
Theorem password_change_undoes_admin (admin auth : Authenticated) (u : string) (force : bool) (rec : UserRecord)
    (i : nat) (s : CredentialSlot) (started : Z) (w w1 w2 : AccountWorld) :
  accounts_ok w -> view w !! u = Some rec -> ur_role rec <> Disabled ->
  set_role admin u "disabled" w = (Ok tt, w1) \/ delete_user admin u force w = (Ok tt, w1) ->
  commit_password env auth rec i s started w1 = (Ok tt, w2) ->
  (view w1 !! u = None \/ ur_role <$> view w1 !! u = Some Disabled) /\
  view w2 !! u = Some (with_slot rec i s) /\ ur_role (with_slot rec i s) = ur_role rec.
Proof using UL.
  intros Hok Hrec _ Hadm E. destruct (proj1 Hok _ _ Hrec) as [Hn _]. apply commit_password_writes in E. rewrite Hn in E.
  split_and!; try done. destruct Hadm as [Hset|Hdel].
  - right. apply set_role_writes in Hset as (rec' & r & Hrec' & Hr & ->). rewrite Hrec in Hrec'. injection Hrec' as <-.
    rewrite Hn, lookup_insert_eq. vm_compute in Hr. by injection Hr as <-.
  - left. apply (post_run _ _ _ _ _ _ (delete_user_outcome admin u force w)) in Hdel as [_ ->]. apply lookup_delete_eq.
Qed.

End write_back.
