(* ===== verification/AccountWitness.v ===== *)
(** * A small deployment, for witnesses only

    Two administrators and a user, one bucket and the toy primitives: the theorems of the
    account files applied to it. *)

From stdpp Require Import pretty sorting relations.
From S2P Require Import Prelude Effects Threads Primitives Types Crypto Slots Session BucketKeys Authz Upload S3State UserStore Accounts AccountSafety AccountThreads Logins AccountAdmin AccountRaces.

Module Deployment.
Import BucketKeysWitness AuthzWitness.
#[global] Existing Instances Toy.aead Toy.kem Toy.hkdf Toy.base64 Toy.rng_ops Toy.range_ops Toy.argon2 Toy.token_ops ToyDb.ops.
#[global] Existing Instances Toy.aead_laws Toy.kem_laws Toy.hkdf_laws Toy.base64_laws Toy.rng_laws Toy.range_laws ToyDb.laws.
#[global] Existing Instances mem_listing mem_listing_laws.

#[global] Instance enum : BucketEnum := {| list_buckets _ := Ok ["photos"] |}.
#[global] Instance frame : ListingFrame.
Proof.
  split; cbn; [|done]. intros st b c st' b' [= <-] Hne. by rewrite lookup_insert_ne.
Qed.

(** A session map of two shards. *)
#[global] Instance two_shards : Sharding := {| shard h := match h with b :: _ => Z.to_nat (Z_of_byte b mod 2) | [] => 0%nat end; shards := 2 |}.
#[global] Instance two_shards_laws : ShardingLaws.
Proof. constructor. intros [|b h]; cbn; [lia|]. pose proof (Z.mod_pos_bound (Z_of_byte b) 2). lia. Qed.

Definition env : AuthEnv :=
  mkAuthEnv (mkAuthConfig 3600 86400 0 2 900 3) (mkArgon2Config 65536 3 4)
    (mkUserRecord "" 0 None (mkArgon2Params 65536 3 4 []) [] 0 User).

Definition params : Argon2Params := mkArgon2Params 65536 3 4 (replicate 16 x09).
Definition pw (s : string) : bytes := as_bytes s.

Definition record_of (u : string) (role : Role) (r : @rng Toy.rng_ops) : UserRecord :=
  match new_slots_random u (pw u) params role false r with
  | Ok (slots, i, _) => mkUserRecord u 0 None params slots (Z.of_nat i) role
  | Err _ => mkUserRecord u 0 None params [] 0 role
  end.

Definition root : UserRecord := record_of "root" Admin 6.
Definition ann : UserRecord := record_of "ann" Admin 5.
Definition alice : UserRecord := record_of "alice" User 4.
Definition users : @udb ToyDb.ops := ({["root" := root; "ann" := ann; "alice" := alice]} : gmap string UserRecord).

Definition s3_none : S3State := mkS3State (credential_store_new key0 2) (registry_new 4) (mkS3Config "us-east-1" 3600 0 0 900).
Definition start : AccountWorld := mkAccountWorld users (mkSessionStore empty key0) empty st0 s3_none (30 : @rng Toy.rng_ops) 1000.

Definition session_of (u : string) (role : Role) (persona : Z) : SessionInfo :=
  mkSessionInfo u role 0 100 persona false (mkSealedSecret [] []) 0 [] cache_default.
Definition as_user (u : string) (role : Role) (persona : Z) : Authenticated :=
  mkAuthenticated u role [] (session_of u role persona) true.
Definition by_root : Authenticated := as_user "root" Admin 3.
Definition by_ann : Authenticated := as_user "ann" Admin 3.
End Deployment.

Module AccountWitness.
Import Deployment BucketKeysWitness AuthzWitness.

Lemma start_ok : accounts_ok start.
Proof.
  split.
  - repeat apply map_Forall_insert_2; [..|apply map_Forall_empty]; (split; [|split; [|split]]); vm_compute; done.
  - exists "root", root. split; vm_compute; reflexivity.
Qed.

Definition new_bob := add_user env by_root "bob" (pw "secret") ReadOnly 5.

(** Bob is added; then, while root disables alice, her password change is under way. *)
Definition overlapped : AccountWorld := snd (race_run (replicate 4 true ++ replicate 30 false ++ replicate 30 true)
  (change_password_thread env (as_user "alice" User (ur_primary_slot alice)) (pw "alice") (pw "new") 7, set_role_thread by_root "alice" "disabled", start)).
Lemma race_pool {V V'} (t : thread AccountWorld AuthError V) (u : thread AccountWorld AuthError V') sched w :
  exists (t' : thread AccountWorld AuthError V) (u' : thread AccountWorld AuthError V'), rtc (pool_step (thread_of env)) ([InFlight t; InFlight u], w) ([InFlight t'; InFlight u'], snd (race_run sched (t, u, w))).
Proof.
  revert t u w. induction sched as [|b sched IH]; intros t u w; [by exists t, u|]. cbn [race_run]. destruct b.
  - destruct (resume t w) as [t1 w1] eqn:E. destruct (IH t1 u w1) as (t' & u' & Hr). exists t', u'. eapply rtc_l; [|exact Hr]. by apply (pool_advance _ [] [InFlight u]).
  - destruct (resume u w) as [u1 w1] eqn:E. destruct (IH t u1 w1) as (t' & u' & Hr). exists t', u'. eapply rtc_l; [|exact Hr]. by apply (pool_advance _ [InFlight t] []).
Qed.

Lemma accounts_invariant_witness :
  accounts_ok (snd (new_bob start)) /\ is_Some (view (snd (new_bob start)) !! "bob") /\ map_Forall record_ok (view overlapped) /\ ur_role <$> view overlapped !! "alice" = Some User.
Proof.
  split_and!; [|vm_compute; eauto| |vm_compute; reflexivity].
  - apply (proj1 (accounts_invariant env start (snd (new_bob start))) start_ok). eapply rtc_l; [|apply rtc_refl]. apply (step_serve env (AddUser by_root "bob" (pw "secret") ReadOnly 5)).
  - destruct (race_pool (change_password_thread env (as_user "alice" User (ur_primary_slot alice)) (pw "alice") (pw "new") 7) (set_role_thread by_root "alice" "disabled")
      (replicate 4 true ++ replicate 30 false ++ replicate 30 true) start) as (t' & u' & Hr).
    apply (proj2 (accounts_invariant env start overlapped) [InFlight t'; InFlight u'] (proj1 start_ok)). eapply rtc_l; [apply (pool_arrive _ (SetRole by_root "alice" "disabled"))|].
    eapply rtc_l; [apply (pool_arrive _ (ChangePassword (as_user "alice" User (ur_primary_slot alice)) (pw "alice") (pw "new") 7))|]. exact Hr.
Defined.

Definition logged : result AuthError TokenResponse * AccountWorld := login env "alice" (pw "alice") (Some 60) 7 start.
Definition token_of (m : result AuthError TokenResponse) : TokenResponse :=
  match m with Ok t => t | Err _ => mkTokenResponse "" 0 "" end.

Lemma login_sound_witness :
  exists rec kek i s p, view start !! "alice" = Some rec /\ derive_kek (ur_kdf rec) (pw "alice") = Ok kek /\
    ur_slots rec !! i = Some s /\ opens (ur_username rec) kek i s p /\
    (forall j s' p', (j < i)%nat -> ur_slots rec !! j = Some s' -> ~ opens (ur_username rec) kek j s' p') /\
    admitted rec rec p /\ unlocked (aw_attempts start) "alice" (aw_now start) /\
    logged_in (snd logged) (tr_token (token_of (fst logged))) "alice" i p (aw_now start + 60 * 1000000000) /\
    (sp_revoke_other_sessions p = true ->
      forall h s', inner (aw_sessions (snd logged)) !! h = Some s' -> si_username s' = "alice" -> si_persona s' = Z.of_nat i) /\
    view (snd logged) = <["alice" := with_last_login rec (aw_now start + 7)]> (view start).
Proof.
  apply (login_sound env "alice" (pw "alice") (Some 60) 7 start (snd logged) (token_of (fst logged))).
  apply run_split. vm_compute. reflexivity.
Defined.

Lemma login_no_username_oracle_witness :
  login env "alice" (pw "guess") None 7 start = (Err InvalidCredentials, after_refusal env "alice" 7 start) /\
  login env "nobody" (pw "guess") None 7 start = (Err InvalidCredentials, after_refusal env "nobody" 7 start).
Proof.
  split.
  - refine (proj1 (login_no_username_oracle env "alice" (pw "guess") None 7 (1000 + 3600 * 1000000000) start (Some alice) _ _ _ _ _));
      [vm_compute; reflexivity..|].
    intros rec kek i s p [= <-] Hk Hs (b & Hb & _). vm_compute in Hk. injection Hk as <-.
    do 4 (destruct i as [|i]; [vm_compute in Hs; injection Hs as <-; vm_compute in Hb; discriminate|]).
    vm_compute in Hs. discriminate.
  - refine (proj1 (login_no_username_oracle env "nobody" (pw "guess") None 7 (1000 + 3600 * 1000000000) start None _ _ _ _ _));
      [vm_compute; reflexivity..|]. done.
Defined.

Definition locked_world : AccountWorld := set_attempts (failures empty "alice" 2 900 ([10] ++ [20])) (set_now 30 start).

Lemma lockout_cycle_witness : login env "alice" (pw "alice") None 7 locked_world = (Err (LockedOut (20 + 900)), locked_world).
Proof.
  refine (proj1 (proj2 (proj2 (lockout_cycle env "alice" "bob" (pw "alice") None 7 2 900 20 30 [10] empty locked_world _ _ _ _)) _) _ _ _);
    first [reflexivity | discriminate | split; [reflexivity|discriminate] | by vm_compute].
Defined.

(** Alice, logged in through her own slot, gives herself a read-only persona in slot 1. *)
Definition by_alice : Authenticated := as_user "alice" User (ur_primary_slot alice).
Definition persona := create_persona by_alice 1 (pw "other") ReadOnly true 7.
Definition message (m : result AuthError string) : string := match m with Ok s => s | Err _ => "" end.

Lemma create_persona_login_witness :
  exists rec s dk, view start !! "alice" = Some rec /\
    view (snd (persona start)) = <["alice" := with_slot rec 1 s]> (view start) /\
    forall w1, attempt_unwrap (with_slot rec 1 s) (pw "other") 7 w1 =
      (Ok (with_slot rec 1 s, 1%nat, mkSlotPayload (seal.sk_bytes_of dk) ReadOnly true), set_now (aw_now w1 + 7) w1).
Proof.
  destruct (create_persona_login by_alice 1 (pw "other") ReadOnly true 7 start (snd (persona start))
    (message (fst (persona start)))) as (rec & s & dk & H1 & _ & _ & _ & _ & H2 & _ & _ & H3).
  - exact start_ok.
  - apply run_split. vm_compute. reflexivity.
  - exists rec, s, dk. auto.
Defined.

Definition deleted : result AuthError unit * AccountWorld := delete_user by_root "alice" true start.

Lemma delete_user_scrubs_witness :
  view (snd deleted) = delete "alice" (view start) /\
  forall c, get_bucket_config (aw_storage (snd deleted)) "photos" = Ok c ->
    forall e slot sk, read_key c "photos" e "alice" slot sk = Err (forbidden "photos").
Proof.
  destruct (delete_user_scrubs by_root "alice" true start (snd deleted) ["photos"]) as (H1 & _ & _ & H2).
  - reflexivity.
  - apply run_split. vm_compute. reflexivity.
  - split; [done|]. intros c Hc. by apply (H2 "photos" c); [left|].
Defined.

Definition reset : result AuthError (list string) * AccountWorld := reset_identity by_root "alice" (pw "new") 7 start.
Definition orphans (m : result AuthError (list string)) : list string := match m with Ok l => l | Err _ => [] end.

Lemma reset_identity_cuts_off_witness :
  exists c, get_bucket_config (aw_storage (snd reset)) "photos" = Ok c /\ read_key c "photos" 0 "alice" 2 (seal.sk_bytes_of (dk_of 3)) = Err (forbidden "photos").
Proof.
  assert (E : reset_identity by_root "alice" (pw "new") 7 start = (Ok (orphans (fst reset)), snd reset)).
  { unfold reset. apply run_split. vm_compute. reflexivity. }
  destruct (reset_identity_cuts_off by_root "alice" (pw "new") 7 start (snd reset) (orphans (fst reset)) ["photos"]) as (_ & _ & H2); [reflexivity|exact E|].
  eexists. split; [reflexivity|]. by apply (H2 "photos" _ 0); [left|reflexivity].
Defined.

(** The same deployment when buckets cannot be listed. *)
Definition broken : @BucketEnum mem_listing := {| list_buckets _ := Err (InternalError "" "" "list_buckets" "disk") |}.
Definition alice_session : SessionStore := mkSessionStore {[ [x01] := session_of "alice" User 0 ]} key0.
Definition half_deleted : result AuthError unit * AccountWorld :=
  delete_user (BE := broken) by_root "alice" true (set_sessions alice_session start).

Lemma interrupted_delete_keeps_sessions_witness :
  aw_sessions (snd half_deleted) = alice_session /\
  exists e w, delete_user (BE := broken) by_root "alice" true (snd half_deleted) = (Err e, w) /\ aw_sessions w = alice_session.
Proof.
  destruct (interrupted_delete_keeps_sessions (BE := broken) by_root "alice" true (set_sessions alice_session start)
    (snd half_deleted) (Backend (Error_display (InternalError "" "" "list_buckets" "disk")))) as [H1 H2].
  - apply run_split. vm_compute. reflexivity.
  - vm_compute. reflexivity.
  - split; [exact H1|]. exact (H2 by_root true).
Defined.

(** The deletion overtakes the login between its last look at the record and the insertion
    of its session. *)
Definition alice_payload : SlotPayload := mkSlotPayload (replicate 2400 x03) User false.
Definition overtaken (n : nat) : bool := if (n <? 3)%nat then true else if (n <? 40)%nat then false else Nat.even n.
Lemma overtaken_fair : fair overtaken.
Proof.
  intros b n. exists (if b then 2 * (n + 20) else S (2 * (n + 20)))%nat. split; [destruct b; lia|]. unfold overtaken.
  rewrite (proj2 (Nat.ltb_ge _ 3)), (proj2 (Nat.ltb_ge _ 40)) by (destruct b; lia). destruct b; [apply Nat.even_even|]. replace (S (2 * (n + 20))) with (2 * (n + 20) + 1)%nat by lia. apply Nat.even_odd.
Qed.
Definition racing := (finalize_thread env "alice" alice 0 alice_payload 5000 1000, delete_thread by_root "alice" true, start).

Lemma login_delete_race_witness :
  halted (race_run (upto overtaken 60) racing).1.2 = Some (Ok tt) /\
  exists n r d w', race_run (upto overtaken n) racing = (Halt r, Halt d, w') /\
    (d = Ok tt -> view w' !! "alice" = None /\
       exists left, forall h s, inner (aw_sessions w') !! h = Some s -> si_username s = "alice" -> h = left /\ exists what, r = Err (Backend what)).
Proof.
  split; [vm_compute; reflexivity|]. apply (login_delete_race env by_root "alice" true alice 0 alice_payload 5000 1000 start overtaken); [reflexivity|exact overtaken_fair].
Defined.

(** A login that is flagged to take over the account's other sessions reads each of them,
    seals its own key and writes it back. A deletion that comes between removes the
    session, and the write brings it back: the account is gone and a session of it is
    alive. *)
Theorem duress_login_revives :
  exists p w w' r h s, sp_revoke_other_sessions p = true /\
    rtc race_step (finalize_thread env "alice" alice 0 p 5000 1000, delete_thread by_root "alice" true, w) (Halt (Ok r), Halt (Ok tt), w') /\
    view w' !! "alice" = None /\ inner (aw_sessions w') !! h = Some s /\ si_username s = "alice" /\ is_expired s 50 = false.
Proof.
  set (p := mkSlotPayload [x03] User true). set (w := set_sessions (mkSessionStore {[ [x01] := session_of "alice" User 1 ]} key0) start).
  set (final := race_run (replicate 8 true ++ replicate 30 false ++ replicate 5 true) (finalize_thread env "alice" alice 0 p 5000 1000, delete_thread by_root "alice" true, w)).
  assert (Hr : (fun r => match r with Ok _ => true | Err _ => false end) <$> halted final.1.1 = Some true) by (vm_compute; reflexivity).
  assert (Hd : halted final.1.2 = Some (Ok tt)) by (vm_compute; reflexivity). assert (Hg : view (snd final) !! "alice" = None) by (vm_compute; reflexivity).
  assert (Hs : (fun s => (si_username s, is_expired s 50)) <$> inner (aw_sessions (snd final)) !! [x01] = Some ("alice", false)) by (vm_compute; reflexivity).
  destruct (halted final.1.1) as [[r|]|] eqn:Eh; try discriminate Hr. destruct (inner (aw_sessions (snd final)) !! [x01]) as [s|] eqn:Es; [|discriminate Hs]. injection Hs as Hu Hx.
  exists p, w, (snd final), r, [x01], s. split_and!; [reflexivity|by apply race_run_halts|exact Hg|exact Es|exact Hu|exact Hx].
Qed.

Definition disabled : result AuthError unit * AccountWorld := set_role by_root "alice" "disabled" start.
Definition alice_slot : CredentialSlot := mkCredentialSlot "" (mkWrappedSk [] []).
Definition written : result AuthError unit * AccountWorld := commit_password env by_alice alice 1 alice_slot 1000 (snd disabled).

Lemma password_change_undoes_admin_witness :
  (view (snd disabled) !! "alice" = None \/ ur_role <$> view (snd disabled) !! "alice" = Some Disabled) /\
  view (snd written) !! "alice" = Some (with_slot alice 1 alice_slot) /\ ur_role (with_slot alice 1 alice_slot) = User.
Proof.
  apply (password_change_undoes_admin env by_root by_alice "alice" false alice 1 alice_slot 1000 start (snd disabled) (snd written)).
  - exact start_ok.
  - reflexivity.
  - vm_compute. discriminate.
  - left. apply run_split. vm_compute. reflexivity.
  - apply run_split. vm_compute. reflexivity.
Defined.

(** The guard against losing the last administrator only holds for requests that do
    not overlap: two administrators who demote each other at the same time both pass it,
    since each counts the administrators before either writes, and nobody is left who
    could undo it. *)
Theorem concurrent_demotions :
  exists w w', accounts_ok w /\
    rtc race_step (set_role_thread by_root "ann" "user", set_role_thread by_ann "root" "user", w)
      (Halt (Ok tt), Halt (Ok tt), w') /\
    forall k rec, view w' !! k = Some rec -> ur_role rec <> Admin.
Proof.
  set (final := race_run (replicate 6 true ++ replicate 20 false ++ replicate 10 true)
    (set_role_thread by_root "ann" "user", set_role_thread by_ann "root" "user", start)).
  exists start, (snd final). split_and!.
  - exact start_ok.
  - apply race_run_halts; vm_compute; reflexivity.
  - assert (Hall : bool_decide (map_Forall (fun _ rec => ur_role rec <> Admin) (view (snd final))) = true) by (vm_compute; reflexivity).
    apply bool_decide_eq_true in Hall. exact Hall.
Qed.

End AccountWitness.
