(* ===== verification/DeviceTypes.v ===== *)
(** * Devices that hold the node key

    Models the data of y2q-core/src/crypto/devices/types.rs, the device variants of
    [CryptoError] in y2q-core/src/crypto/mod.rs, and the time rules of
    y2q-core/src/crypto/devices/roughtime.rs.

    The variants of [CryptoError] that only this feature raises are [DeviceError]; the other
    ones are carried by [DCrypto].  What a time server answers is an argument. *)

From stdpp Require Import pretty.
From S2P Require Import Prelude Primitives Crypto.

Definition DEVICES_FORMAT_VERSION : Z := 1.
Definition EMERGENCY_SLOTS : nat := 10.
Definition MAX_LABEL_LEN : Z := 64.
Definition MIN_AWAY_GRANT_SECONDS : Z := 60.
Definition MAX_AWAY_GRANT_SECONDS : Z := 2592000.

Inductive DeviceKind : Type := Tpm2 | Fido2.
#[global] Instance DeviceKind_eq_dec : EqDecision DeviceKind.
Proof. solve_decision. Defined.

Record Wrap : Type := mkWrap { wr_nonce_b64 : string; wr_ct_b64 : string }.

Record Grant : Type := mkGrant { gr_not_after_unix : Z; gr_issued_at_unix : Z; gr_wrap : Wrap }.

Record Tpm2Params : Type := mkTpm2Params {
  tp_private_b64 : string;
  tp_public_b64 : string;
  tp_pcr_slots : bytes;
  tp_pcr_bank : string;
}.

Record Fido2Params : Type := mkFido2Params {
  fd_rp_id : string;
  fd_credential_id_b64 : string;
  fd_hmac_salt_b64 : string;
  fd_uv_required : bool;
}.

Inductive HomeFactor : Type :=
| Passcode (salt_b64 : string) (m_cost_kib t_cost p_cost : Z)
| FactorFido2 (device_id : string).

Record DeviceRecord : Type := mkDeviceRecord {
  dr_id : string;
  dr_label : string;
  dr_kind : DeviceKind;
  dr_added_at_unix : Z;
  dr_wrap : option Wrap;
  dr_grant : option Grant;
  dr_tpm2 : option Tpm2Params;
  dr_fido2 : option Fido2Params;
  dr_sign_count_last : option Z;
  dr_kek_wrap : option Wrap;
  dr_home_factor : option HomeFactor;
  (** Not in the file: the bytes of [dr_id]. *)
  dr_id_bytes : bytes;
}.

Record EmergencySlot : Type := mkEmergencySlot { es_index : Z; es_wrap : option Wrap; es_burned_at_unix : option Z }.

Record DeviceRegistryFile : Type := mkDeviceRegistryFile {
  rg_format_version : Z;
  rg_esc_b64 : string;
  rg_away_grant_seconds : Z;
  rg_permanent_away : bool;
  rg_nk_wrap : Wrap;
  rg_state_mac_b64 : string;
  rg_devices : list DeviceRecord;
  rg_emergency_slots : list EmergencySlot;
  (** Not in the file: what [rg_esc_b64] decodes to. *)
  rg_esc : bytes;
}.

Inductive Authority : Type :=
| AuthHome (id label : string)
| AuthAway (id label : string) (not_after_unix : option Z)
| AuthEmergency (index : Z).

Definition describe (a : Authority) : string :=
  match a with
  | AuthHome _ _ => "a home device"
  | AuthAway _ label _ => "away device '" +:+ label +:+ "'"
  | AuthEmergency _ => "an emergency code"
  end.

Record NewDevice : Type := mkNewDevice {
  nd_label : string;
  nd_kind : DeviceKind;
  nd_tpm2 : option Tpm2Params;
  nd_fido2 : option Fido2Params;
  nd_secret : bytes;
  nd_sign_count : Z;
}.

Record NewHomeFactor : Type := mkNewHomeFactor { nf_factor : HomeFactor; nf_secret : bytes }.

Record Unlock : Type := mkUnlock { ul_nk : bytes; ul_rmk : bytes; ul_grants_issued : nat; ul_grants_erased : nat }.

Record EmergencyUnlock : Type := mkEmergencyUnlock { eu_nk : bytes; eu_rmk : bytes; eu_slot : Z }.

Record UnlockOutcome : Type := mkUnlockOutcome {
  uo_node_key : bytes;
  uo_registry_master_key : bytes;
  uo_registry_state_key : bytes;
  uo_registry : DeviceRegistryFile;
  uo_authority : Authority;
  uo_grants_issued : nat;
  uo_grants_erased : nat;
  uo_emergency_slots_unused : nat;
}.

(** ** Errors *)

Inductive DeviceError : Type :=
| DCrypto (e : CryptoError)
| DeviceRegistryIo (what : string)
| DeviceRegistryMissing (path : string)
| DeviceRegistryCorrupt (path reason : string)
| DeviceRegistryExists (path : string)
| DeviceRegistryVersion (path : string) (found expected : Z)
| DeviceRegistryLastDevice
| DeviceLastHomeRemovalRefused (label : string)
| DevicePermanentAwayMismatch (kind : DeviceKind)
| DeviceStateTampered
| DeviceStateIntact
| DeviceRepairNotAccepted
| DeviceAuthorityInsufficient (operation required actor : string)
| DeviceUnwrapFailed
| DeviceGrantExpired (label : string) (not_after_unix attested_now : Z)
| DeviceGrantAbsent (label : string)
| DeviceGrantPeriodInvalid (seconds : Z)
| DeviceSignCountRollback (label : string) (asserted last : Z)
| AttestedTimeUnavailable (what : string)
| AttestedTimeInconsistent (low high : Z)
| RoughtimeNotConfigured
| DeviceSecretLength (label : string) (len : Z)
| DeviceNotFound (selector : string)
| DeviceLabelInUse (label : string)
| DeviceLabelInvalid (why : string)
| DeviceFactorInUse (label : string)
| DeviceFactorInvalid (why : string)
| DeviceUnlockUnavailable (reasons : string)
| DeviceBackend (what : string)
| TpmUnavailable (what : string)
| Tpm (what : string)
| TpmPcrMismatch
| EmergencyCodeMalformed (why : string)
| EmergencyCodeRejected
| EmergencyCodesExhausted.

(** [Display] of the device variants. *)
Definition DeviceError_display (e : DeviceError) : string :=
  match e with
  | DCrypto e => CryptoError_display e
  | DeviceRegistryIo what => "device registry io: " +:+ what
  | DeviceRegistryMissing path => "device registry not found at " +:+ path
  | DeviceRegistryCorrupt path reason => "device registry corrupt at " +:+ path +:+ ": " +:+ reason
  | DeviceRegistryExists path =>
      "device registry already exists at " +:+ path +:+ "; the emergency codes are printed once at init and there is no regeneration command — a new set requires a new registry (new RMK), and over an existing dataset only with --adopt-existing-node-key and the raw node key in hand"
  | DeviceRegistryVersion path found expected =>
      "device registry at " +:+ path +:+ " has format_version " +:+ pretty found +:+ ", this build understands " +:+ pretty expected
  | DeviceRegistryLastDevice =>
      "refusing to remove the last registered device: at least one device must remain able to unlock this node; add another device first"
  | DeviceLastHomeRemovalRefused label =>
      "refusing to remove the last home device '" +:+ label +:+ "' while FIDO2 devices remain; add another home device first (this needs a home unlock)"
  | DevicePermanentAwayMismatch kind =>
      "--permanent-away must be given exactly when the first device is FIDO2; the first device here is " +:+ (match kind with Tpm2 => "Tpm2" | Fido2 => "Fido2" end)
  | DeviceStateTampered =>
      "device registry state does not authenticate: grants, signature counters, burn records, or the grant period were modified outside y2q"
  | DeviceStateIntact =>
      "device registry state already authenticates; there is nothing to repair — `repair-state` applies only when the state MAC does not verify"
  | DeviceRepairNotAccepted =>
      "refusing to repair without acknowledgement: review the printed inventory (record labels, ids, timestamps, PCR selections and uv flags are re-signed as found), then re-run with --accept-current-inventory"
  | DeviceAuthorityInsufficient operation required actor =>
      "operation '" +:+ operation +:+ "' requires " +:+ required +:+ "; attempted by " +:+ actor
  | DeviceUnwrapFailed =>
      "device wrap did not open: wrong device secret, a tampered registry, or a registry from another deployment"
  | DeviceGrantExpired label not_after_unix attested_now =>
      "away device '" +:+ label +:+ "' had access until " +:+ pretty not_after_unix +:+ "; attested time is " +:+ pretty attested_now +:+ ", so the grant has been erased — unlock on a home device to issue a new one (an emergency code does not issue grants); the authenticator stays registered"
  | DeviceGrantAbsent label =>
      "away device '" +:+ label +:+ "' has no live grant; unlock on a home device to issue one"
  | DeviceGrantPeriodInvalid seconds =>
      "away grant period " +:+ pretty seconds +:+ "s is outside the allowed range 60 .. 2592000"
  | DeviceSignCountRollback label asserted last =>
      "away device '" +:+ label +:+ "' reported signature counter " +:+ pretty asserted +:+ ", not above the last recorded " +:+ pretty last +:+ "; replay, clone, or a rolled-back authenticator"
  | AttestedTimeUnavailable what =>
      "could not attest the current time from any configured Roughtime server: " +:+ what +:+ "; an away device cannot unlock without attested time (a home device or an emergency code still works)"
  | AttestedTimeInconsistent low high =>
      "configured Roughtime servers disagree: the highest lower bound " +:+ pretty low +:+ " exceeds the lowest upper bound " +:+ pretty high +:+ "; at least one server is lying or badly skewed, refusing to pick a winner"
  | RoughtimeNotConfigured =>
      "no Roughtime servers are configured; set [crypto.devices.roughtime] servers (or pass --roughtime-server) — away-device unlock has no host-clock fallback by design"
  | DeviceSecretLength label len =>
      "device '" +:+ label +:+ "' produced a " +:+ pretty len +:+ "-byte secret; expected exactly 32"
  | DeviceNotFound selector =>
      "no registered device with id or label '" +:+ selector +:+ "'"
  | DeviceLabelInUse label =>
      "a device labelled '" +:+ label +:+ "' is already registered; labels must be unique"
  | DeviceLabelInvalid why => "device label invalid: " +:+ why
  | DeviceFactorInUse label =>
      "device '" +:+ label +:+ "' is the second factor of a home device; change the home device's factor before removing it"
  | DeviceFactorInvalid why => "home device factor invalid: " +:+ why
  | DeviceUnlockUnavailable reasons =>
      "no registered device could unlock the node key: " +:+ reasons +:+ "; set Y2QD_EMERGENCY_KEY to one of the ten codes printed at `y2q admin device init`"
  | DeviceBackend what => "device backend: " +:+ what
  | TpmUnavailable what => "tpm unavailable: " +:+ what
  | Tpm what => "tpm error: " +:+ what
  | TpmPcrMismatch =>
      "tpm policy check failed: PCR values changed (kernel, firmware, or Secure Boot update); re-seal with: y2q admin device reseal-tpm <id>"
  | EmergencyCodeMalformed why => "emergency code malformed: " +:+ why
  | EmergencyCodeRejected =>
      "emergency code rejected: no unused emergency slot opens with it (already used, or not from this registry)"
  | EmergencyCodesExhausted =>
      "all 10 emergency codes have been used; emergency access is permanently exhausted for this registry"
  end.

(** ** Attested time *)

Definition MAX_RADIUS_S : Z := 60.
Definition usable_radius (radius_s : Z) : bool := negb (radius_s =? 0) && (radius_s <=? MAX_RADIUS_S).

(** [max]/[min] of an iterator *)
Definition max_of (l : list Z) : option Z := match l with [] => None | x :: l => Some (foldl Z.max x l) end.
Definition min_of (l : list Z) : option Z := match l with [] => None | x :: l => Some (foldl Z.min x l) end.

Definition combine_intervals (intervals : list (Z * Z)) (min_responses : Z) (failures : string) : result DeviceError Z :=
  if blen intervals <? min_responses then
    Err (AttestedTimeUnavailable
           (pretty (length intervals) +:+ " of " +:+ pretty min_responses +:+ " required servers answered"
            +:+ (if bool_decide (failures = "") then "" else ": ") +:+ failures))
  else
  match max_of intervals.*1, min_of intervals.*2 with
  | Some low, Some high => if low <=? high then Ok low else Err (AttestedTimeInconsistent low high)
  | _, _ => Err (AttestedTimeUnavailable "no measurements")
  end.

(** What one configured server answers: its bounds and its radius, or why it has none. *)
Record ServerAnswer : Type := mkServerAnswer { sv_name : string; sv_answer : result string (Z * Z * Z) }.

Definition probe_one (s : ServerAnswer) : result string (Z * Z) :=
  '(lower, upper, radi) ← sv_answer s;
  if negb (usable_radius radi)
  then Err ("radius " +:+ pretty radi +:+ "s outside the usable range 1..=" +:+ pretty MAX_RADIUS_S +:+ "s")
  else Ok (lower, upper).

Fixpoint split_probes (l : list ServerAnswer) : list (Z * Z) * list string :=
  match l with
  | [] => ([], [])
  | s :: l =>
      let '(pairs, failures) := split_probes l in
      match probe_one s with Ok b => (b :: pairs, failures) | Err e => (pairs, (sv_name s +:+ ": " +:+ e) :: failures) end
  end.

(** [RoughtimeTimeSource::attested_now] on what the servers answer *)
Definition attested_now (servers : list ServerAnswer) (min_responses : Z) : result DeviceError Z :=
  if bool_decide (servers = []) then Err RoughtimeNotConfigured else
  let '(pairs, failures) := split_probes servers in
  combine_intervals pairs min_responses (String.concat "; " failures).
