(* ===== verification/Devices.v ===== *)
(** * The device registry

    Models y2q-core/src/crypto/devices/registry.rs: the node key is wrapped under a registry
    master key, which is wrapped in turn for every home device (TPM), for away devices
    (FIDO2) as grants that run out, and for ten emergency codes; the registry's mutable
    state carries a MAC.

    A function that takes the registry by mutable reference runs on a [Desk], the registry
    in memory beside the [Store] of the keystore directory, and what it changed before an
    error stays changed.  serde on the registry is an interface.  What the TPM, the token,
    the operator and the time servers answer are arguments.  An index into the device list
    comes from the list itself.  Log lines, file modes, guarded memory and the text of a
    base64 error are not modelled. *)

From stdpp Require Import pretty.
From S2P Require Import Prelude Effects Primitives Types Format Crypto NodeKeys Sink Slots BucketKeys Lex Query Index Locks Posix FsView Filesystem Keystore Upload DeviceTypes.
Import FilesystemStorage.

(** [serde_json] on the registry; the fields that are not in the file come back empty. *)
Class RegistryJson : Type := {
  registry_to_vec : DeviceRegistryFile -> result string bytes;
  registry_from_slice : bytes -> result string DeviceRegistryFile;
}.

(** [STANDARD_NO_PAD.decode] *)
Class Base64NoPad : Type := { b64_decode_no_pad : string -> option bytes }.

#[global] Instance DeviceRecord_inhabited : Inhabited DeviceRecord :=
  populate (mkDeviceRecord "" "" Tpm2 0 None None None None None None None []).

Definition with_devices (l : list DeviceRecord) (r : DeviceRegistryFile) : DeviceRegistryFile :=
  mkDeviceRegistryFile (rg_format_version r) (rg_esc_b64 r) (rg_away_grant_seconds r) (rg_permanent_away r) (rg_nk_wrap r) (rg_state_mac_b64 r) l (rg_emergency_slots r) (rg_esc r).
Definition with_esc (esc : bytes) (r : DeviceRegistryFile) : DeviceRegistryFile :=
  mkDeviceRegistryFile (rg_format_version r) (rg_esc_b64 r) (rg_away_grant_seconds r) (rg_permanent_away r) (rg_nk_wrap r) (rg_state_mac_b64 r) (rg_devices r) (rg_emergency_slots r) esc.
Definition with_mac (m : string) (r : DeviceRegistryFile) : DeviceRegistryFile :=
  mkDeviceRegistryFile (rg_format_version r) (rg_esc_b64 r) (rg_away_grant_seconds r) (rg_permanent_away r) (rg_nk_wrap r) m (rg_devices r) (rg_emergency_slots r) (rg_esc r).
Definition with_permanent_away (b : bool) (r : DeviceRegistryFile) : DeviceRegistryFile :=
  mkDeviceRegistryFile (rg_format_version r) (rg_esc_b64 r) (rg_away_grant_seconds r) b (rg_nk_wrap r) (rg_state_mac_b64 r) (rg_devices r) (rg_emergency_slots r) (rg_esc r).
Definition with_nk_wrap (seconds : Z) (w : Wrap) (r : DeviceRegistryFile) : DeviceRegistryFile :=
  mkDeviceRegistryFile (rg_format_version r) (rg_esc_b64 r) seconds (rg_permanent_away r) w (rg_state_mac_b64 r) (rg_devices r) (rg_emergency_slots r) (rg_esc r).
Definition with_slots (l : list EmergencySlot) (r : DeviceRegistryFile) : DeviceRegistryFile :=
  mkDeviceRegistryFile (rg_format_version r) (rg_esc_b64 r) (rg_away_grant_seconds r) (rg_permanent_away r) (rg_nk_wrap r) (rg_state_mac_b64 r) (rg_devices r) l (rg_esc r).

Definition with_wrap (w : option Wrap) (d : DeviceRecord) : DeviceRecord :=
  mkDeviceRecord (dr_id d) (dr_label d) (dr_kind d) (dr_added_at_unix d) w (dr_grant d) (dr_tpm2 d) (dr_fido2 d) (dr_sign_count_last d) (dr_kek_wrap d) (dr_home_factor d) (dr_id_bytes d).
Definition with_grant (g : option Grant) (d : DeviceRecord) : DeviceRecord :=
  mkDeviceRecord (dr_id d) (dr_label d) (dr_kind d) (dr_added_at_unix d) (dr_wrap d) g (dr_tpm2 d) (dr_fido2 d) (dr_sign_count_last d) (dr_kek_wrap d) (dr_home_factor d) (dr_id_bytes d).
Definition with_sign_count (c : option Z) (d : DeviceRecord) : DeviceRecord :=
  mkDeviceRecord (dr_id d) (dr_label d) (dr_kind d) (dr_added_at_unix d) (dr_wrap d) (dr_grant d) (dr_tpm2 d) (dr_fido2 d) c (dr_kek_wrap d) (dr_home_factor d) (dr_id_bytes d).
Definition with_tpm2 (p : Tpm2Params) (d : DeviceRecord) : DeviceRecord :=
  mkDeviceRecord (dr_id d) (dr_label d) (dr_kind d) (dr_added_at_unix d) (dr_wrap d) (dr_grant d) (Some p) (dr_fido2 d) (dr_sign_count_last d) (dr_kek_wrap d) (dr_home_factor d) (dr_id_bytes d).
Definition with_factor (f : option HomeFactor) (d : DeviceRecord) : DeviceRecord :=
  mkDeviceRecord (dr_id d) (dr_label d) (dr_kind d) (dr_added_at_unix d) (dr_wrap d) (dr_grant d) (dr_tpm2 d) (dr_fido2 d) (dr_sign_count_last d) (dr_kek_wrap d) f (dr_id_bytes d).
Definition with_id_bytes (b : bytes) (d : DeviceRecord) : DeviceRecord :=
  mkDeviceRecord (dr_id d) (dr_label d) (dr_kind d) (dr_added_at_unix d) (dr_wrap d) (dr_grant d) (dr_tpm2 d) (dr_fido2 d) (dr_sign_count_last d) (dr_kek_wrap d) (dr_home_factor d) b.

(** ** Associated data *)

Definition NONCE_LEN : Z := 12.
Definition WRAP_CT_LEN : Z := 48.
Definition MAX_DEVICES : Z := 4096.
Definition PASSCODE_SALT_LEN : Z := 16.
Definition HOME_FACTOR_SALT : bytes := as_bytes "y2q/v1/home-factor".

Definition kind_byte (k : DeviceKind) : byte := match k with Tpm2 => x01 | Fido2 => x02 end.
Definition factor_byte (f : option HomeFactor) : byte :=
  match f with None => x00 | Some (Passcode _ _ _ _) => x01 | Some (FactorFido2 _) => x02 end.
Definition bool_byte (b : bool) : byte := if b then x01 else x00.
Definition uv_required (d : DeviceRecord) : bool := match dr_fido2 d with Some f => fd_uv_required f | None => false end.

Definition device_wrap_aad_raw (device_id : bytes) (kind : DeviceKind) (selector : byte) (esc : bytes) : bytes :=
  as_bytes "y2q/v1/device-wrap" ++ [x00] ++ device_id ++ [kind_byte kind; selector] ++ esc.
Definition device_wrap_aad (device_id : bytes) (kind : DeviceKind) (uv : bool) (esc : bytes) : bytes := device_wrap_aad_raw device_id kind (bool_byte uv) esc.
Definition record_wrap_aad (d : DeviceRecord) (esc : bytes) : bytes :=
  device_wrap_aad_raw (dr_id_bytes d) (dr_kind d) (match dr_kind d with Tpm2 => factor_byte (dr_home_factor d) | Fido2 => bool_byte (uv_required d) end) esc.
Definition grant_aad (device_id : bytes) (uv : bool) (not_after_unix away_grant_seconds : Z) (esc : bytes) : bytes :=
  as_bytes "y2q/v1/away-grant" ++ [x00] ++ device_id ++ [bool_byte uv] ++ to_le_bytes 8 not_after_unix ++ to_le_bytes 4 away_grant_seconds ++ esc.
Definition emergency_wrap_aad (index : Z) (esc : bytes) : bytes := as_bytes "y2q/v1/emergency-wrap" ++ [x00; byte_of_Z index] ++ esc.
Definition nk_wrap_aad (esc : bytes) (away_grant_seconds : Z) : bytes := as_bytes "y2q/v1/nk-wrap" ++ [x00] ++ esc ++ to_le_bytes 4 away_grant_seconds.
Definition kek_cache_aad (device_id esc : bytes) : bytes := as_bytes "y2q/v1/kek-cache" ++ [x00] ++ device_id ++ esc.

Section registry.
Context {A : AeadOps} {B : Base64Ops} {R : RngOps} {HK : HkdfOps} {HO : HashOps} {T : TokenOps} {AR : Argon2Ops}.
Context {RD : RedbOps} {RJ : RegistryJson}.

(** ** Keys *)

Definition hkdf32 (ikm salt info : bytes) : result DeviceError bytes := ok_or (hkdf_sha256_expand salt ikm info 32) (DCrypto (Aead "hkdf expand")).
Definition derive_device_kek (secret device_id : bytes) : result DeviceError bytes := hkdf32 secret (as_bytes "y2q/v1/device-kek") device_id.
Definition derive_emergency_kek (code : bytes) (index : Z) : result DeviceError bytes := hkdf32 code (as_bytes "y2q/v1/emergency-kek") [byte_of_Z index].
Definition nk_wrap_key (rmk : bytes) : result DeviceError bytes := hkdf32 rmk (as_bytes "y2q/v1/nk-wrap-key") [].
Definition kek_cache_key (rmk : bytes) : result DeviceError bytes := hkdf32 rmk (as_bytes "y2q/v1/kek-cache-key") [].
Definition derive_state_key (rmk : bytes) : result DeviceError bytes := hkdf32 rmk (as_bytes "y2q/v1/registry-state-key") [].

(** ** The desk *)

Record Desk : Type := mkDesk { dk_reg : DeviceRegistryFile; dk_store : Store }.
Abbreviation dev := (prog Desk DeviceError).
Abbreviation dsk := (prog Store DeviceError).

Definition set_reg (r : DeviceRegistryFile) (w : Desk) : Desk := mkDesk r (dk_store w).
Definition on_reg (f : DeviceRegistryFile -> DeviceRegistryFile) : dev unit := modify (fun w => set_reg (f (dk_reg w)) w).
Definition on_store {V} (m : dsk V) : dev V := fun w => let '(r, st) := m (dk_store w) in (r, mkDesk (dk_reg w) st).
(** A call that has its own registry. *)
Definition with_registry {V} (r : DeviceRegistryFile) (m : dev V) : dsk (V * DeviceRegistryFile) := fun st =>
  let '(res, w) := m (mkDesk r st) in (match res with Ok x => Ok (x, dk_reg w) | Err e => Err e end, dk_store w).
Definition update_device (i : nat) (f : DeviceRecord -> DeviceRecord) : dev unit := on_reg (fun r => with_devices (alter f i (rg_devices r)) r).
Definition device_at (i : nat) : dev DeviceRecord := gets (fun w => rg_devices (dk_reg w) !!! i).
Definition draw_bytes (n : nat) : dsk bytes := fun st => let '(b, r) := fill_bytes (s_rng st) n in (Ok b, set_rng r st).

(** ** Wraps *)

Definition wrap_secret (kek secret aad : bytes) : dsk Wrap :=
  nonce ← draw_bytes 12;
  ct ← lift_res (ok_or (aead_encrypt kek nonce aad secret) (DCrypto (Aead "device wrap encrypt")));
  mret (mkWrap (b64_encode nonce) (b64_encode ct)).

Definition corrupt (path : fpath) (reason : string) : DeviceError := DeviceRegistryCorrupt (path_display path) reason.

Definition unwrap_secret (kek : bytes) (w : Wrap) (aad : bytes) (path : fpath) : result DeviceError bytes :=
  nonce_raw ← ok_or (b64_decode (wr_nonce_b64 w)) (corrupt path "wrap nonce base64");
  ct ← ok_or (b64_decode (wr_ct_b64 w)) (corrupt path "wrap ciphertext base64");
  if negb (blen nonce_raw =? NONCE_LEN) then Err (corrupt path ("wrap nonce is " +:+ pretty (blen nonce_raw) +:+ " bytes, expected " +:+ pretty NONCE_LEN)) else
  if negb (blen ct =? WRAP_CT_LEN) then Err (corrupt path ("wrap ciphertext is " +:+ pretty (blen ct) +:+ " bytes, expected " +:+ pretty WRAP_CT_LEN)) else
  plain ← ok_or (aead_decrypt kek nonce_raw aad ct) DeviceUnwrapFailed;
  if negb (blen plain =? 32) then Err (corrupt path ("wrap plaintext is " +:+ pretty (blen plain) +:+ " bytes, expected 32")) else
  Ok plain.

(** ** The MAC of the mutable state *)

Definition sha256_wrap (w : Wrap) : bytes := sha256 (as_bytes (wr_nonce_b64 w) ++ [x00] ++ as_bytes (wr_ct_b64 w)).
(** [try_from(len).unwrap_or(MAX)] *)
Definition len_u8 {V} (l : list V) : byte := byte_of_Z (Z.min (blen l) 255).
Definition len_u16 {V} (l : list V) : bytes := to_le_bytes 2 (Z.min (blen l) 65535).

(** Lower-case hex digits only. *)
Definition hex_digit (b : byte) : option Z :=
  let z := Z_of_byte b in
  if (48 <=? z) && (z <=? 57) then Some (z - 48) else if (97 <=? z) && (z <=? 102) then Some (z - 87) else None.
Fixpoint decode_hex_pairs (s : bytes) : option bytes :=
  match s with
  | [] => Some []
  | h :: l :: s => hi ← hex_digit h; lo ← hex_digit l; rest ← decode_hex_pairs s; Some (byte_of_Z (hi * 16 + lo) :: rest)
  | _ => None
  end.
Definition decode_hex_id (id : string) : option bytes := let s := as_bytes id in if negb (blen s =? 32) then None else decode_hex_pairs s.
Definition hex (b : bytes) : string := String.string_of_list_byte (hex_encode b).

Definition encode_home_factor (f : HomeFactor) : bytes :=
  match f with
  | Passcode salt_b64 m t p =>
      [x81] ++ len_u16 (as_bytes salt_b64) ++ as_bytes salt_b64 ++ to_le_bytes 4 m ++ to_le_bytes 4 t ++ to_le_bytes 4 p
  | FactorFido2 device_id => [x82] ++ default (replicate 16 x00) (decode_hex_id device_id)
  end.

Definition is_some {V} (o : option V) : bool := match o with Some _ => true | None => false end.

Definition kind_state (d : DeviceRecord) : bytes :=
  match dr_kind d with
  | Tpm2 =>
      match dr_tpm2 d with
      | Some t => [len_u8 (as_bytes (tp_pcr_bank t))] ++ as_bytes (tp_pcr_bank t) ++ [len_u8 (tp_pcr_slots t)] ++ tp_pcr_slots t
      | None => []
      end ++ match dr_home_factor d with Some f => encode_home_factor f | None => [] end
  | Fido2 => [bool_byte (uv_required d)] ++ match dr_kek_wrap d with Some w => sha256_wrap w | None => replicate 32 x00 end
  end.
Definition record_state (d : DeviceRecord) : bytes :=
  dr_id_bytes d ++ [kind_byte (dr_kind d); bool_byte (is_some (dr_wrap d)); bool_byte (is_some (dr_grant d)); bool_byte (is_some (dr_kek_wrap d))]
  ++ to_le_bytes 8 (from_option gr_not_after_unix 0 (dr_grant d)) ++ to_le_bytes 8 (from_option gr_issued_at_unix 0 (dr_grant d))
  ++ to_le_bytes 4 (default 0 (dr_sign_count_last d)) ++ to_le_bytes 8 (dr_added_at_unix d)
  ++ [bool_byte (is_some (dr_tpm2 d)); bool_byte (is_some (dr_fido2 d))] ++ kind_state d
  ++ [len_u8 (as_bytes (dr_label d))] ++ as_bytes (dr_label d).
Definition slot_state (s : EmergencySlot) : bytes := [bool_byte (is_some (es_wrap s))] ++ to_le_bytes 8 (default 0 (es_burned_at_unix s)).
Definition state_bytes (reg : DeviceRegistryFile) : bytes :=
  as_bytes "y2q/v1/registry-state-bytes" ++ [x00] ++ to_le_bytes 2 (rg_format_version reg) ++ to_le_bytes 4 (rg_away_grant_seconds reg)
  ++ [bool_byte (rg_permanent_away reg)] ++ sha256_wrap (rg_nk_wrap reg) ++ len_u16 (rg_devices reg)
  ++ concat (record_state <$> rg_devices reg) ++ [len_u8 (rg_emergency_slots reg)] ++ concat (slot_state <$> rg_emergency_slots reg).
Definition state_mac (state_key : bytes) (reg : DeviceRegistryFile) : bytes := hmac_sha256 state_key (state_bytes reg).

Definition decode32 (s : string) : option bytes := b ← b64_decode s; if blen b =? 32 then Some b else None.

Definition verify_state_mac (state_key : bytes) (reg : DeviceRegistryFile) (path : fpath) : result DeviceError unit :=
  stored ← ok_or (decode32 (rg_state_mac_b64 reg)) (corrupt path "state_mac_b64 must decode to 32 bytes");
  if bool_decide (stored = state_mac state_key reg) then Ok tt else Err DeviceStateTampered.

(** ** Loading, checking and writing *)

(** [{b:#04x}] *)
Definition hex_byte (b : byte) : string := "0x" +:+ hex [b].
Definition valid_label (label : string) : result string unit :=
  let s := as_bytes label in
  if bool_decide (s = []) then Err "label must not be empty" else
  if MAX_LABEL_LEN <? blen s then Err ("label is longer than " +:+ pretty MAX_LABEL_LEN +:+ " bytes") else
  match find (fun b => negb ((32 <=? Z_of_byte b) && (Z_of_byte b <=? 126))) s with
  | Some b => Err ("label contains byte " +:+ hex_byte b +:+ "; only 0x20..=0x7e are allowed")
  | None => Ok tt
  end.

Fixpoint fill_ids (path : fpath) (l : list DeviceRecord) : result DeviceError (list DeviceRecord) :=
  match l with
  | [] => Ok []
  | d :: l =>
      b ← ok_or (decode_hex_id (dr_id d)) (corrupt path ("device id '" +:+ dr_id d +:+ "' must be 32 lowercase hex chars"));
      l ← fill_ids path l;
      Ok (with_id_bytes b d :: l)
  end.
(** A registry it rejects is left as it was: every caller gives up then. *)
Definition fill_derived (reg : DeviceRegistryFile) (path : fpath) : result DeviceError DeviceRegistryFile :=
  esc ← ok_or (decode32 (rg_esc_b64 reg)) (corrupt path "esc_b64 must decode to 32 bytes");
  l ← fill_ids path (rg_devices reg);
  Ok (with_devices l (with_esc esc reg)).

Definition home_count (reg : DeviceRegistryFile) : nat := length (filter (fun d => dr_kind d = Tpm2) (rg_devices reg)).

Definition validate_passcode_params (salt_b64 : string) (m_cost_kib t_cost p_cost : Z) : result DeviceError unit :=
  let invalid := DeviceFactorInvalid in
  if negb (match b64_decode salt_b64 with Some s => blen s =? PASSCODE_SALT_LEN | None => false end)
  then Err (invalid ("passcode salt must be " +:+ pretty PASSCODE_SALT_LEN +:+ " bytes of standard base64")) else
  if negb ((8 <=? m_cost_kib) && (m_cost_kib <=? 1048576)) then Err (invalid ("passcode memory cost " +:+ pretty m_cost_kib +:+ " KiB is outside 8..=1048576")) else
  if negb ((1 <=? t_cost) && (t_cost <=? 16)) then Err (invalid ("passcode time cost " +:+ pretty t_cost +:+ " is outside 1..=16")) else
  if negb ((1 <=? p_cost) && (p_cost <=? 16)) then Err (invalid ("passcode parallelism " +:+ pretty p_cost +:+ " is outside 1..=16")) else
  if m_cost_kib <? 8 * p_cost
  then Err (invalid ("passcode memory cost " +:+ pretty m_cost_kib +:+ " KiB is below the 8 KiB per lane Argon2 minimum for parallelism " +:+ pretty p_cost)) else
  Ok tt.

Definition check_home_factor (reg : DeviceRegistryFile) (home : DeviceRecord) (factor : HomeFactor) : result DeviceError unit :=
  match factor with
  | Passcode salt_b64 m t p => validate_passcode_params salt_b64 m t p
  | FactorFido2 device_id =>
      match find (fun r => bool_decide (dr_id r = device_id)) (rg_devices reg) with
      | Some r =>
          if bool_decide (dr_kind r = Fido2) then Ok tt
          else Err (DeviceFactorInvalid ("home device " +:+ dr_id home +:+ " names " +:+ device_id +:+ " as its factor, which is not an away device"))
      | None => Err (DeviceFactorInvalid ("home device " +:+ dr_id home +:+ " names " +:+ device_id +:+ " as its factor, which is not registered"))
      end
  end.

Fixpoint check_slots (path : fpath) (i : nat) (l : list EmergencySlot) : result DeviceError unit :=
  match l with
  | [] => Ok tt
  | s :: l =>
      if negb (es_index s =? Z.of_nat i) then Err (corrupt path ("emergency slot at position " +:+ pretty i +:+ " has index " +:+ pretty (es_index s))) else
      if Bool.eqb (is_some (es_wrap s)) (is_some (es_burned_at_unix s))
      then Err (corrupt path ("emergency slot " +:+ pretty i +:+ " must have exactly one of wrap / burned_at_unix")) else
      check_slots path (S i) l
  end.

Definition kind_ok (d : DeviceRecord) : bool :=
  match dr_kind d with Tpm2 => is_some (dr_tpm2 d) && negb (is_some (dr_fido2 d)) | Fido2 => is_some (dr_fido2 d) && negb (is_some (dr_tpm2 d)) end.
Definition lower_label (label : string) : bytes := to_ascii_lowercase (as_bytes label).

(** Step 7, with the labels and identifiers seen so far. *)
Fixpoint check_records (path : fpath) (labels : list bytes) (ids : list string) (l : list DeviceRecord) : result DeviceError unit :=
  match l with
  | [] => Ok tt
  | d :: l =>
      id_bytes ← ok_or (decode_hex_id (dr_id d)) (corrupt path ("device id '" +:+ dr_id d +:+ "' must be 32 lowercase hex chars"));
      if negb (bool_decide (id_bytes = dr_id_bytes d)) then Err (corrupt path ("device " +:+ dr_id d +:+ " id cache is out of sync")) else
      _ ← map_err (fun e => corrupt path ("device " +:+ dr_id d +:+ ": " +:+ e)) (valid_label (dr_label d));
      if bool_decide (lower_label (dr_label d) ∈ labels) then Err (corrupt path ("duplicate device label '" +:+ dr_label d +:+ "'")) else
      if bool_decide (dr_id d ∈ ids) then Err (corrupt path ("duplicate device id " +:+ dr_id d)) else
      if negb (kind_ok d) then Err (corrupt path ("device " +:+ dr_id d +:+ " parameter block does not match its kind")) else
      check_records path (lower_label (dr_label d) :: labels) (dr_id d :: ids) l
  end.

(** Steps 8 and 9. *)
Definition check_roles (path : fpath) (reg : DeviceRegistryFile) (d : DeviceRecord) : result DeviceError unit :=
  match dr_kind d with
  | Tpm2 =>
      if negb (is_some (dr_wrap d)) then Err (corrupt path ("home device " +:+ dr_id d +:+ " has no wrap")) else
      if is_some (dr_grant d) || is_some (dr_sign_count_last d) || is_some (dr_kek_wrap d)
      then Err (corrupt path ("home device " +:+ dr_id d +:+ " carries away-only fields")) else
      match dr_home_factor d with Some f => check_home_factor reg d f | None => Ok tt end
  | Fido2 =>
      if is_some (dr_home_factor d) then Err (DeviceFactorInvalid ("away device " +:+ dr_id d +:+ " carries a home factor; only home devices may")) else
      if negb (is_some (dr_sign_count_last d)) || negb (is_some (dr_kek_wrap d))
      then Err (corrupt path ("away device " +:+ dr_id d +:+ " is missing kek_wrap or sign_count_last")) else
      if is_some (dr_wrap d) && is_some (dr_grant d) then Err (corrupt path ("away device " +:+ dr_id d +:+ " has both a permanent wrap and a grant")) else
      if is_some (dr_wrap d) && negb (rg_permanent_away reg)
      then Err (corrupt path ("away device " +:+ dr_id d +:+ " holds a permanent wrap in a registry that is not permanent_away")) else
      if is_some (dr_grant d) && (home_count reg =? 0)%nat
      then Err (corrupt path ("away device " +:+ dr_id d +:+ " holds a grant but no home device is registered")) else
      Ok tt
  end.
Fixpoint each {V} (f : V -> result DeviceError unit) (l : list V) : result DeviceError unit :=
  match l with [] => Ok tt | x :: l => _ ← f x; each f l end.

Definition check (reg : DeviceRegistryFile) (path : fpath) : result DeviceError unit :=
  _ ← ok_or (decode32 (rg_esc_b64 reg)) (corrupt path "esc_b64 must decode to 32 bytes");
  _ ← ok_or (decode32 (rg_state_mac_b64 reg)) (corrupt path "state_mac_b64 must decode to 32 bytes");
  if negb ((MIN_AWAY_GRANT_SECONDS <=? rg_away_grant_seconds reg) && (rg_away_grant_seconds reg <=? MAX_AWAY_GRANT_SECONDS))
  then Err (DeviceGrantPeriodInvalid (rg_away_grant_seconds reg)) else
  if negb (length (rg_emergency_slots reg) =? EMERGENCY_SLOTS)%nat
  then Err (corrupt path ("expected " +:+ pretty EMERGENCY_SLOTS +:+ " emergency slots, found " +:+ pretty (length (rg_emergency_slots reg)))) else
  _ ← check_slots path 0 (rg_emergency_slots reg);
  if MAX_DEVICES <? blen (rg_devices reg) then Err (corrupt path "too many device records") else
  _ ← check_records path [] [] (rg_devices reg);
  _ ← each (check_roles path reg) (rg_devices reg);
  if negb (Bool.eqb (rg_permanent_away reg) (negb (bool_decide (rg_devices reg = [])) && (home_count reg =? 0)%nat))
  then Err (corrupt path "permanent_away does not match the home-device count") else
  if rg_permanent_away reg && existsb (fun d => bool_decide (dr_kind d = Fido2) && (negb (is_some (dr_wrap d)) || is_some (dr_grant d))) (rg_devices reg)
  then Err (corrupt path "permanent_away registry has an away device without a permanent wrap") else
  Ok tt.

Definition devices_path (dir : list string) : fpath := mkPath dir "devices" "json".
(** [devices.json.tmp] *)
Definition tmp_path (dir : list string) : fpath := mkPath dir "devices.json" "tmp".
Definition lock_file (dir : list string) : fpath := mkPath dir ".devices" "lock".

Definition dio (what : string) (p : fpath) (e : FsError) : DeviceError := DeviceRegistryIo (what +:+ path_display p +:+ ": " +:+ fs_message e).
Definition dir_display (dir : list string) : string := "/" +:+ String.concat "/" dir.

Definition load (dir : list string) : dsk DeviceRegistryFile :=
  let path := devices_path dir in
  raw ← io (fun e => match e with NoEntry => DeviceRegistryMissing (path_display path) | _ => dio "read " path e end) (fs_read path);
  reg ← lift_res (map_err (fun e => corrupt path ("parse: " +:+ e)) (registry_from_slice raw));
  if negb (rg_format_version reg =? DEVICES_FORMAT_VERSION)
  then throw (DeviceRegistryVersion (path_display path) (rg_format_version reg) DEVICES_FORMAT_VERSION) else
  reg ← lift_res (fill_derived reg path);
  _ ← lift_res (check reg path);
  mret reg.

(** Opening the directory is a call of its own. *)
Definition fsync_dir (dir : list string) : dsk unit :=
  io (fun e => DeviceRegistryIo ("fsync " +:+ dir_display dir +:+ ": " +:+ fs_message e)) (_ ← sys; fs_sync_dir dir).

(** Write the temporary file, sync it, rename it into place and sync the directory. *)
Definition install_registry (dir : list string) (b : bytes) : dsk unit :=
  let tmp := tmp_path dir in
  now ← gets s_now;
  h ← io (dio "open " tmp) (fs_open_truncate tmp now);
  h ← io (dio "write " tmp) (fs_write_all h b now);
  _ ← io (dio "sync " tmp) (fs_sync_data h);
  _ ← io (fun e => DeviceRegistryIo ("rename " +:+ path_display tmp +:+ " -> " +:+ path_display (devices_path dir) +:+ ": " +:+ fs_message e)) (fs_rename tmp (devices_path dir));
  fsync_dir dir.

Definition persist (dir : list string) (state_key : bytes) : dev unit :=
  let path := devices_path dir in
  reg ← gets dk_reg;
  reg ← lift_res (fill_derived reg path);
  let reg := with_mac (b64_encode (state_mac state_key reg)) reg in
  _ ← on_reg (fun _ => reg);
  _ ← lift_res (check reg path);
  b ← lift_res (map_err (fun e => DeviceRegistryIo ("serialize: " +:+ e)) (registry_to_vec reg));
  on_store (install_registry dir b).

(** Whether another process holds the lock is up to the environment. *)
Definition try_lock_registry (held : bool) (dir : list string) : dsk bool :=
  now ← gets s_now;
  _ ← io (dio "open lock " (lock_file dir)) (fs_open_create (lock_file dir) now);
  _ ← io (dio "lock " (lock_file dir)) sys;
  mret (negb held).
Definition lock_registry (held : bool) (dir : list string) : dsk unit :=
  got ← try_lock_registry held dir;
  if got : bool then mret tt
  else throw (DeviceRegistryIo ("device registry is busy: another y2q process (the key agent or a device command) holds " +:+ path_display (lock_file dir))).

Definition registry_exists (dir : list string) : dsk bool := io (fun e => DeviceRegistryIo (fs_message e)) (unwrap_or_false (fs_try_exists (devices_path dir))).

Definition insufficient (operation required : string) (a : Authority) : DeviceError := DeviceAuthorityInsufficient operation required (DeviceTypes.describe a).

(** ** Grants *)

Definition expired (attested_now : Z) (d : DeviceRecord) : bool := match dr_grant d with Some g => gr_not_after_unix g <? attested_now | None => false end.
Definition sweep_devices (attested_now : Z) (l : list DeviceRecord) : list DeviceRecord := (fun d => if expired attested_now d then with_grant None d else d) <$> l.
Definition sweep_grants (attested_now : Z) : dev nat :=
  l ← gets (fun w => rg_devices (dk_reg w));
  _ ← on_reg (with_devices (sweep_devices attested_now l));
  mret (length (filter (fun d => expired attested_now d = true) l)).

(** The grant of one away record; [None] when it is passed over. *)
Definition mint_one (cache_key rmk esc : bytes) (secs attested_now not_after_unix : Z) (path : fpath) (d : DeviceRecord) : dev (option Grant) :=
  if negb (bool_decide (dr_kind d = Fido2)) || is_some (dr_wrap d) then mret None else
  match dr_kek_wrap d with
  | None => mret None
  | Some kek_wrap =>
      match unwrap_secret cache_key kek_wrap (kek_cache_aad (dr_id_bytes d) esc) path with
      | Err _ => mret None
      | Ok kek =>
          w ← on_store (wrap_secret kek rmk (grant_aad (dr_id_bytes d) (uv_required d) not_after_unix secs esc));
          mret (Some (mkGrant not_after_unix attested_now w))
      end
  end.
Fixpoint mint_loop (mint : DeviceRecord -> dev (option Grant)) (i : nat) (todo : list DeviceRecord) (minted : nat) : dev nat :=
  match todo with
  | [] => mret minted
  | d :: todo =>
      g ← mint d;
      match g with
      | Some g => _ ← update_device i (with_grant (Some g)); mint_loop mint (S i) todo (S minted)
      | None => mint_loop mint (S i) todo minted
      end
  end.
Definition mint_grants (rmk : bytes) (attested_now : Z) (path : fpath) : dev nat :=
  reg ← gets dk_reg;
  if rg_permanent_away reg then mret 0%nat else
  cache_key ← lift_res (kek_cache_key rmk);
  let secs := rg_away_grant_seconds reg in
  mint_loop (mint_one cache_key rmk (rg_esc reg) secs attested_now (saturating_add_u64 attested_now secs) path) 0 (rg_devices reg) 0.

Definition open_nk (reg : DeviceRegistryFile) (rmk : bytes) (path : fpath) : result DeviceError bytes :=
  key ← nk_wrap_key rmk;
  map_err (fun e => match e with DeviceUnwrapFailed => corrupt path "nk_wrap does not open under this registry's master key and grant policy" | other => other end)
    (unwrap_secret key (rg_nk_wrap reg) (nk_wrap_aad (rg_esc reg) (rg_away_grant_seconds reg)) path).

Definition secret32 (label : string) (secret : bytes) : result DeviceError unit :=
  if blen secret =? 32 then Ok tt else Err (DeviceSecretLength label (blen secret)).

Definition rmk_from_permanent (reg : DeviceRegistryFile) (d : DeviceRecord) (kek : bytes) (path : fpath) : result DeviceError bytes :=
  w ← ok_or (dr_wrap d) (corrupt path ("device " +:+ dr_id d +:+ " has no permanent wrap"));
  unwrap_secret kek w (record_wrap_aad d (rg_esc reg)) path.

(** ** Unlocking *)

Definition refresh_on_home (rmk : bytes) (time : result DeviceError Z) (path : fpath) : dev (nat * nat) :=
  match time with
  | Ok now => erased ← sweep_grants now; issued ← mint_grants rmk now path; mret (issued, erased)
  | Err _ => mret (0, 0)%nat
  end.

Definition unlock_with_home (dir : list string) (index : nat) (device_secret : bytes) (time : result DeviceError Z) : dev Unlock :=
  let path := devices_path dir in
  d ← device_at index;
  _ ← lift_res (secret32 (dr_label d) device_secret);
  _ ← guard_not (negb (bool_decide (dr_kind d = Tpm2))) (corrupt path ("device " +:+ dr_label d +:+ " is not a home device"));
  kek ← lift_res (derive_device_kek device_secret (dr_id_bytes d));
  reg ← gets dk_reg;
  rmk ← lift_res (rmk_from_permanent reg d kek path);
  state_key ← lift_res (derive_state_key rmk);
  _ ← lift_res (verify_state_mac state_key reg path);
  nk ← lift_res (open_nk reg rmk path);
  '(issued, erased) ← refresh_on_home rmk time path;
  _ ← (if (0 <? issued)%nat || (0 <? erased)%nat then persist dir state_key else mret tt);
  mret (mkUnlock nk rmk issued erased).

(** The master key from the permanent wrap, or else from the grant. *)
Definition rmk_for_away (reg : DeviceRegistryFile) (d : DeviceRecord) (kek : bytes) (path : fpath) : result DeviceError bytes :=
  match dr_wrap d, dr_grant d with
  | None, Some g => unwrap_secret kek (gr_wrap g) (grant_aad (dr_id_bytes d) (uv_required d) (gr_not_after_unix g) (rg_away_grant_seconds reg) (rg_esc reg)) path
  | _, _ => rmk_from_permanent reg d kek path
  end.

(** Step 5: only a grant has a deadline. *)
Definition check_deadline (dir : list string) (d : DeviceRecord) (state_key : bytes) (time : result DeviceError Z) : dev nat :=
  match dr_wrap d, dr_grant d with
  | None, Some g =>
      now ← lift_res time;
      erased ← sweep_grants now;
      if gr_not_after_unix g <? now then _ ← persist dir state_key; throw (DeviceGrantExpired (dr_label d) (gr_not_after_unix g) now) else
      mret erased
  | _, _ => mret 0%nat
  end.

Definition unlock_with_away (dir : list string) (index : nat) (device_secret : bytes) (asserted_sign_count : Z) (time : result DeviceError Z) : dev Unlock :=
  let path := devices_path dir in
  d ← device_at index;
  let label := dr_label d in
  _ ← lift_res (secret32 label device_secret);
  _ ← guard_not (negb (bool_decide (dr_kind d = Fido2))) (corrupt path ("device " +:+ label +:+ " is not an away device"));
  _ ← guard_not (negb (is_some (dr_wrap d)) && negb (is_some (dr_grant d))) (DeviceGrantAbsent label);
  kek ← lift_res (derive_device_kek device_secret (dr_id_bytes d));
  reg ← gets dk_reg;
  rmk ← lift_res (rmk_for_away reg d kek path);
  state_key ← lift_res (derive_state_key rmk);
  _ ← lift_res (verify_state_mac state_key reg path);
  erased ← check_deadline dir d state_key time;
  last ← lift_res (ok_or (dr_sign_count_last d) (corrupt path ("away device " +:+ label +:+ " has no sign_count_last")));
  _ ← guard_not (asserted_sign_count <=? last) (DeviceSignCountRollback label asserted_sign_count last);
  reg ← gets dk_reg;
  nk ← lift_res (open_nk reg rmk path);
  _ ← update_device index (with_sign_count (Some asserted_sign_count));
  _ ← persist dir state_key;
  mret (mkUnlock nk rmk 0 erased).

Definition sweep_now (held : bool) (dir : list string) (state_key : bytes) (rmk : option bytes) (time : result DeviceError Z) : dsk (nat * nat) :=
  let path := devices_path dir in
  got ← try_lock_registry held dir;
  if negb got then mret (0, 0)%nat else
  reg ← load dir;
  if negb (is_ok (verify_state_mac state_key reg path)) then mret (0, 0)%nat else
  let any_grant := existsb (fun d => is_some (dr_grant d)) (rg_devices reg) in
  let can_mint := is_some rmk && negb (rg_permanent_away reg) && existsb (fun d => bool_decide (dr_kind d = Fido2)) (rg_devices reg) in
  if negb any_grant && negb can_mint then mret (0, 0)%nat else
  match time with
  | Err _ => mret (0, 0)%nat
  | Ok now =>
      '(n, _) ← with_registry reg
        (erased ← sweep_grants now;
         issued ← match rmk with Some rmk => mint_grants rmk now path | None => mret 0%nat end;
         _ ← (if (0 <? issued)%nat || (0 <? erased)%nat then persist dir state_key else mret tt);
         mret (issued, erased));
      mret n
  end.

(** ** Changes, in memory *)

Definition is_home (a : Authority) : bool := match a with AuthHome _ _ => true | _ => false end.
Definition home_or_emergency (a : Authority) : bool := match a with AuthAway _ _ _ => false | _ => true end.

Definition may_enroll (homes_before : nat) (a : Authority) : bool :=
  match a with AuthHome _ _ => true | AuthAway _ _ _ => (homes_before =? 0)%nat | AuthEmergency _ => false end.
Definition enroll_name (k : DeviceKind) : string := match k with Tpm2 => "add-tpm" | Fido2 => "add-fido2" end.

(** Up to [n] tries. *)
Fixpoint fresh_id (n : nat) (l : list DeviceRecord) (path : fpath) : dsk bytes :=
  match n with
  | O => throw (corrupt path "could not generate a unique device id")
  | S n =>
      b ← draw_bytes 16;
      if existsb (fun d => bool_decide (dr_id d = hex b)) l then fresh_id n l path else mret b
  end.

(** The record of a new device: its wrap, or the cached key with a permanent wrap while
    there is no home device. *)
Definition new_record (new : NewDevice) (id_bytes kek rmk esc : bytes) (permanent : bool) (now_host : Z) : dsk DeviceRecord :=
  let rec := fun wrap tpm2 fido2 count kek_wrap =>
    mkDeviceRecord (hex id_bytes) (nd_label new) (nd_kind new) now_host wrap None tpm2 fido2 count kek_wrap None id_bytes in
  match nd_kind new with
  | Tpm2 =>
      params ← lift_res (ok_or (nd_tpm2 new) (DeviceBackend "enrollment result carries no tpm2 parameters"));
      w ← wrap_secret kek rmk (device_wrap_aad id_bytes Tpm2 false esc);
      mret (rec (Some w) (Some params) None None None)
  | Fido2 =>
      params ← lift_res (ok_or (nd_fido2 new) (DeviceBackend "enrollment result carries no fido2 parameters"));
      cache_key ← lift_res (kek_cache_key rmk);
      kw ← wrap_secret cache_key kek (kek_cache_aad id_bytes esc);
      w ← (if permanent then w ← wrap_secret kek rmk (device_wrap_aad id_bytes Fido2 (fd_uv_required params) esc); mret (Some w) else mret None);
      mret (rec w None (Some params) (Some (nd_sign_count new)) (Some kw))
  end.

Definition settle_permanent_away (r : DeviceRegistryFile) : DeviceRegistryFile :=
  with_permanent_away ((home_count r =? 0)%nat && negb (bool_decide (rg_devices r = []))) r.
Definition strip_away (l : list DeviceRecord) : list DeviceRecord := (fun d => if bool_decide (dr_kind d = Fido2) then with_wrap None d else d) <$> l.

Definition enroll_device (dir : list string) (new : NewDevice) (rmk : bytes) (a : Authority) (time : result DeviceError Z) (now_host : Z) : dev string :=
  let path := devices_path dir in
  reg ← gets dk_reg;
  let homes_before := home_count reg in
  _ ← guard_not (negb (may_enroll homes_before a)) (insufficient (enroll_name (nd_kind new)) "a home device, or an away device with no home devices" a);
  _ ← lift_res (map_err DeviceLabelInvalid (valid_label (nd_label new)));
  _ ← guard_not (existsb (fun d => bool_decide (lower_label (dr_label d) = lower_label (nd_label new))) (rg_devices reg)) (DeviceLabelInUse (nd_label new));
  _ ← lift_res (secret32 (nd_label new) (nd_secret new));
  id_bytes ← on_store (fresh_id 8 (rg_devices reg) path);
  kek ← lift_res (derive_device_kek (nd_secret new) id_bytes);
  rec ← on_store (new_record new id_bytes kek rmk (rg_esc reg) (homes_before =? 0)%nat now_host);
  let first_home_over_away := bool_decide (nd_kind new = Tpm2) && (homes_before =? 0)%nat && existsb (fun d => bool_decide (dr_kind d = Fido2)) (rg_devices reg) in
  _ ← on_reg (fun r => settle_permanent_away (with_devices (rg_devices r ++ [rec]) r));
  _ ← (if first_home_over_away then
         _ ← on_reg (fun r => with_devices (strip_away (rg_devices r)) r);
         match time with Ok now => _ ← mint_grants rmk now path; mret tt | Err _ => mret tt end
       else mret tt);
  mret (hex id_bytes).

Definition positions (p : DeviceRecord -> bool) (l : list DeviceRecord) : list nat := (filter (fun x : nat * DeviceRecord => p x.2 = true) (imap pair l)).*1.
Definition resolve_selector (reg : DeviceRegistryFile) (selector : string) : result DeviceError nat :=
  match positions (fun d => bool_decide (dr_id d = selector)) (rg_devices reg) with
  | i :: _ => Ok i
  | [] =>
      match positions (fun d => bool_decide (lower_label (dr_label d) = lower_label selector)) (rg_devices reg) with
      | [i] => Ok i
      | _ => Err (DeviceNotFound selector)
      end
  end.

(** Whether a home device names [d] as its second factor. *)
Definition factor_of_home (reg : DeviceRegistryFile) (d : DeviceRecord) : bool :=
  existsb (fun h => match dr_home_factor h with Some (FactorFido2 device_id) => bool_decide (device_id = dr_id d) | _ => false end) (rg_devices reg).

Definition remove_device (selector : string) (a : Authority) : dev unit :=
  reg ← gets dk_reg;
  idx ← lift_res (resolve_selector reg selector);
  _ ← guard_not (negb (home_or_emergency a)) (insufficient "remove" "a home device or an emergency code" a);
  let d := rg_devices reg !!! idx in
  _ ← guard_not (length (rg_devices reg) =? 1)%nat DeviceRegistryLastDevice;
  _ ← guard_not (bool_decide (dr_kind d = Tpm2) && (home_count reg =? 1)%nat) (DeviceLastHomeRemovalRefused (dr_label d));
  _ ← guard_not (bool_decide (dr_kind d = Fido2) && factor_of_home reg d) (DeviceFactorInUse (dr_label d));
  on_reg (fun r => settle_permanent_away (with_devices (base.delete idx (rg_devices r)) r)).

Definition refresh_grants (dir : list string) (rmk : bytes) (a : Authority) (time : result DeviceError Z) : dev nat :=
  _ ← guard_not (negb (is_home a)) (insufficient "refresh" "a home device" a);
  now ← lift_res time;
  _ ← sweep_grants now;
  mint_grants rmk now (devices_path dir).

Definition may_set_period (reg : DeviceRegistryFile) (seconds : Z) (a : Authority) : result DeviceError unit :=
  match a with
  | AuthHome _ _ => Ok tt
  | AuthEmergency _ =>
      if rg_away_grant_seconds reg <=? seconds
      then Err (insufficient "set-grant-period" "a home device, or an emergency code with a strictly shorter period" a) else Ok tt
  | AuthAway _ _ _ => Err (insufficient "set-grant-period" "a home device or an emergency code" a)
  end.
Definition drop_grants (l : list DeviceRecord) : list DeviceRecord := with_grant None <$> l.

(** The assignments of [set_grant_period] and [nk_wrap] are made one by one: the period is
    already the new one when the wrap fails. *)
Definition set_grant_period (dir : list string) (seconds : Z) (nk rmk : bytes) (a : Authority) (time : result DeviceError Z) : dev unit :=
  _ ← guard_not (negb ((MIN_AWAY_GRANT_SECONDS <=? seconds) && (seconds <=? MAX_AWAY_GRANT_SECONDS))) (DeviceGrantPeriodInvalid seconds);
  reg ← gets dk_reg;
  _ ← lift_res (may_set_period reg seconds a);
  _ ← on_reg (with_nk_wrap seconds (rg_nk_wrap reg));
  key ← lift_res (nk_wrap_key rmk);
  w ← on_store (wrap_secret key nk (nk_wrap_aad (rg_esc reg) seconds));
  _ ← on_reg (with_nk_wrap seconds w);
  _ ← on_reg (fun r => with_devices (drop_grants (rg_devices r)) r);
  if is_home a then
    match time with Ok now => _ ← mint_grants rmk now (devices_path dir); mret tt | Err _ => mret tt end
  else mret tt.

(** ** Second factors *)

Definition passcode_factor_secret (factor : HomeFactor) (passcode : string) : result DeviceError bytes :=
  match factor with
  | FactorFido2 _ => Err (DeviceFactorInvalid "factor is not a passcode")
  | Passcode salt_b64 m t p =>
      _ ← validate_passcode_params salt_b64 m t p;
      salt ← ok_or (b64_decode salt_b64) (DeviceFactorInvalid "passcode salt base64");
      _ ← map_err (fun e => DeviceFactorInvalid ("argon2 parameters: " +:+ e)) (argon2_params m t p);
      map_err (fun e => DCrypto (Kdf ("passcode derivation: " +:+ e))) (argon2id m t p (as_bytes passcode) salt)
  end.

Definition new_passcode_factor (passcode : string) (m t p : Z) : dsk NewHomeFactor :=
  _ ← guard_not (bool_decide (passcode = "")) (DeviceFactorInvalid "passcode must not be empty");
  salt ← draw_bytes 16;
  let factor := Passcode (b64_encode salt) m t p in
  secret ← lift_res (passcode_factor_secret factor passcode);
  mret (mkNewHomeFactor factor secret).

Definition combine_home_secret (tpm_secret factor_secret device_id : bytes) : result DeviceError bytes := hkdf32 (tpm_secret ++ factor_secret) HOME_FACTOR_SALT device_id.

(** [passcode] is what the operator answers, [hmac] the token's [hmac-secret]. *)
Definition home_device_secret (reg : DeviceRegistryFile) (index : nat) (tpm_secret : bytes) (passcode : result DeviceError string)
    (hmac : Fido2Params -> string -> result DeviceError (bytes * Z)) : result DeviceError bytes :=
  let d := rg_devices reg !!! index in
  if negb (bool_decide (dr_kind d = Tpm2)) then Err (DeviceRegistryCorrupt "devices.json" ("device " +:+ dr_label d +:+ " is not a home device")) else
  match dr_home_factor d with
  | None => Ok tpm_secret
  | Some factor =>
      _ ← secret32 (dr_label d) tpm_secret;
      factor_secret ←
        match factor with
        | Passcode _ _ _ _ => passcode ← passcode; passcode_factor_secret factor passcode
        | FactorFido2 device_id =>
            away ← ok_or (find (fun r => bool_decide (dr_id r = device_id) && bool_decide (dr_kind r = Fido2)) (rg_devices reg))
                     (DeviceFactorInvalid ("home device " +:+ dr_label d +:+ " names " +:+ device_id +:+ " as its factor, which is not a registered away device"));
            params ← ok_or (dr_fido2 away) (DeviceRegistryCorrupt "devices.json" ("away device " +:+ dr_id away +:+ " has no fido2 parameters"));
            '(s, _) ← hmac params (dr_label away);
            Ok s
        end;
      combine_home_secret tpm_secret factor_secret (dr_id_bytes d)
  end.

Definition set_home_factor (home_selector : string) (factor : option NewHomeFactor) (tpm_secret rmk : bytes) (a : Authority) : dev unit :=
  _ ← guard_not (negb (home_or_emergency a)) (insufficient "set-home-factor" "a home device or an emergency code" a);
  reg ← gets dk_reg;
  idx ← lift_res (resolve_selector reg home_selector);
  let d := rg_devices reg !!! idx in
  _ ← guard_not (negb (bool_decide (dr_kind d = Tpm2))) (DeviceFactorInvalid ("device '" +:+ dr_label d +:+ "' is not a home device; only home devices carry a second factor"));
  _ ← lift_res (secret32 (dr_label d) tpm_secret);
  _ ← lift_res (match factor with Some nf => check_home_factor reg d (nf_factor nf) | None => Ok tt end);
  device_secret ← lift_res (match factor with None => Ok tpm_secret | Some nf => combine_home_secret tpm_secret (nf_secret nf) (dr_id_bytes d) end);
  kek ← lift_res (derive_device_kek device_secret (dr_id_bytes d));
  w ← on_store (wrap_secret kek rmk (device_wrap_aad_raw (dr_id_bytes d) Tpm2 (factor_byte (nf_factor <$> factor)) (rg_esc reg)));
  update_device idx (fun d => with_factor (nf_factor <$> factor) (with_wrap (Some w) d)).

(** [resealed] is what the TPM makes of the record's parameters. *)
Definition reseal_device (id : string) (rmk : bytes) (a : Authority) (resealed : Tpm2Params -> result DeviceError (Tpm2Params * bytes)) (passcode : result DeviceError string)
    (hmac : Fido2Params -> string -> result DeviceError (bytes * Z)) : dev unit :=
  _ ← guard_not (negb (home_or_emergency a)) (insufficient "reseal-tpm" "a home device or an emergency code" a);
  reg ← gets dk_reg;
  idx ← lift_res (resolve_selector reg id);
  let d := rg_devices reg !!! idx in
  params ← lift_res (match dr_kind d, dr_tpm2 d with Tpm2, Some p => Ok p | _, _ => Err (DeviceNotFound id) end);
  '(new_params, new_secret) ← lift_res (resealed params);
  _ ← lift_res (secret32 (dr_label d) new_secret);
  device_secret ← lift_res (home_device_secret reg idx new_secret passcode hmac);
  kek ← lift_res (derive_device_kek device_secret (dr_id_bytes d));
  w ← on_store (wrap_secret kek rmk (record_wrap_aad d (rg_esc reg)));
  update_device idx (fun d => with_wrap (Some w) (with_tpm2 new_params d)).

Definition unlock_for_repair (reg : DeviceRegistryFile) (d : DeviceRecord) (device_secret : bytes) (path : fpath) : result DeviceError bytes :=
  _ ← secret32 (dr_label d) device_secret;
  kek ← derive_device_kek device_secret (dr_id_bytes d);
  rmk_from_permanent reg d kek path.

End registry.
