(* ===== verification/DeviceUnlock.v ===== *)
(** * Opening the node key with a device or a code

    Models y2q-core/src/crypto/devices/emergency.rs and the unlocking of
    y2q-core/src/crypto/devices/mod.rs, with the repair of registry.rs: the first registry
    and its ten codes, a code that opens the node key once, the order in which the ways of
    unlocking are tried, and the repair of a registry whose state does not authenticate.

    What the hardware, the operator and the time servers answer when a record is tried is
    given by its index ([Outside]): no record is tried twice in a run. *)

From stdpp Require Import pretty.
From S2P Require Import Prelude Effects Primitives Types Format Crypto NodeKeys Sink Slots BucketKeys Lex Query Index Locks Posix FsView Filesystem Keystore Upload DeviceTypes Devices.
Import FilesystemStorage.

Record Outside : Type := mkOutside {
  (** [tpm2::unseal] of the home record *)
  o_unseal : nat -> result DeviceError bytes;
  (** [pins.passcode] for it *)
  o_passcode : nat -> result DeviceError string;
  (** [fido2::hmac_secret] of the token that is its second factor *)
  o_factor : nat -> result DeviceError (bytes * Z);
  (** [fido2::hmac_secret] of the away record *)
  o_token : nat -> result DeviceError (bytes * Z);
  (** [time.attested_now] *)
  o_time : nat -> result DeviceError Z;
  (** [pins.emergency_code], or the environment variable *)
  o_code : result DeviceError (option string);
}.

Section unlock.
Context {A : AeadOps} {B : Base64Ops} {NP : Base64NoPad} {R : RngOps} {HK : HkdfOps} {HO : HashOps} {T : TokenOps} {AR : Argon2Ops}.
Context {RD : RedbOps} {RJ : RegistryJson} {KJ : KeystoreJson}.
Abbreviation dev := (prog Desk DeviceError).
Abbreviation dsk := (prog Store DeviceError).

(** ** Emergency codes *)

Definition NODE_KEY_ROOT_SALT : bytes := as_bytes "y2q/v4/node-key-root".
Definition EMERGENCY_SET_LABEL : bytes := as_bytes "y2q/v1/emergency-set".
Definition EMERGENCY_CODE_BYTES : nat := 32.

Fixpoint draw_codes (n : nat) : dsk (list bytes) :=
  match n with O => mret [] | S n => c ← draw_bytes EMERGENCY_CODE_BYTES; l ← draw_codes n; mret (c :: l) end.
Definition emergency_commitment (codes : list bytes) : bytes := sha256 (EMERGENCY_SET_LABEL ++ concat (sha256 <$> codes)).

Fixpoint wrap_slots (i : nat) (codes : list bytes) (rmk esc : bytes) : dsk (list EmergencySlot) :=
  match codes with
  | [] => mret []
  | c :: codes =>
      kek ← lift_res (derive_emergency_kek c (Z.of_nat i));
      w ← wrap_secret kek rmk (emergency_wrap_aad (Z.of_nat i) esc);
      l ← wrap_slots (S i) codes rmk esc;
      mret (mkEmergencySlot (Z.of_nat i) (Some w) None :: l)
  end.

(** [{:>2}] *)
Definition pad2 (n : nat) : string := if (n <? 10)%nat then " " +:+ pretty n else pretty n.
(** The sheet [print_codes] writes, line by line. *)
Definition code_sheet (codes : list bytes) : list string :=
  ["emergency access codes (printed once, never stored, cannot be regenerated):"]
  ++ imap (fun i c => pad2 (S i) +:+ ": " +:+ b64_encode c) codes
  ++ ["WARNING: write these down now. Each code unlocks this node exactly once and is erased on use. There is no way to print them again and no way to generate new ones. Keep at least two unused."].

(** Errors of the keystore inside the registry's. *)
Definition keystore_call {V} (m : prog Store CryptoError V) : dsk V := fun st => let '(r, st) := m st in (map_err DCrypto r, st).

(** The hash of the root secret and the commitment, for a new node key. *)
Definition new_node_key (adopt : option bytes) (root esc : bytes) : bytes :=
  match adopt with Some nk => nk | None => hmac_sha256 NODE_KEY_ROOT_SALT (root ++ esc) end.

Definition eio (what : string) (e : FsError) : DeviceError := DeviceRegistryIo (what +:+ ": " +:+ fs_message e).

(** [let _ = fs::remove_file(&tmp)] *)
Definition discard (p : fpath) : dsk unit := match_res (io (eio "") (fs_remove_file p)) mret (fun _ => mret tt).

(** A new file, which must not replace another. *)
Definition create_registry (dir : list string) (b : bytes) : dsk unit :=
  let tmp := tmp_path dir in
  _ ← io (eio ("remove stale " +:+ path_display tmp)) (match_res (fs_remove_file tmp) mret (fun e => match e with NoEntry => mret tt | _ => throw e end));
  now ← gets s_now;
  h ← io (eio ("create " +:+ path_display tmp)) (fs_create_new tmp now);
  _ ← io (eio ("write " +:+ path_display tmp)) (h ← fs_write_all h b now; fs_sync_data h);
  there ← registry_exists dir;
  if there : bool then _ ← discard tmp; throw (DeviceRegistryExists (path_display (devices_path dir))) else
  _ ← match_res (io (eio ("rename " +:+ path_display tmp +:+ " -> " +:+ path_display (devices_path dir))) (fs_rename tmp (devices_path dir)))
        mret (fun e => _ ← discard tmp; throw e);
  fsync_dir dir.

(** Step 9: the permanent wrap of the first device. *)
Definition first_record (first : NewDevice) (id_bytes kek rmk esc : bytes) (now : Z) : dsk DeviceRecord :=
  let rec := fun wrap tpm2 fido2 count kek_wrap =>
    mkDeviceRecord (hex id_bytes) (nd_label first) (nd_kind first) now wrap None tpm2 fido2 count kek_wrap None id_bytes in
  match nd_kind first with
  | Tpm2 =>
      params ← lift_res (ok_or (nd_tpm2 first) (DeviceBackend "enrollment result carries no tpm2 parameters"));
      w ← wrap_secret kek rmk (device_wrap_aad id_bytes Tpm2 false esc);
      mret (rec (Some w) (Some params) None None None)
  | Fido2 =>
      params ← lift_res (ok_or (nd_fido2 first) (DeviceBackend "enrollment result carries no fido2 parameters"));
      w ← wrap_secret kek rmk (device_wrap_aad id_bytes Fido2 (fd_uv_required params) esc);
      cache_key ← lift_res (kek_cache_key rmk);
      kw ← wrap_secret cache_key kek (kek_cache_aad id_bytes esc);
      mret (rec (Some w) None (Some params) (Some (nd_sign_count first)) (Some kw))
  end.

(** The registry before it is written: the keys, the codes, and the record of the first
    device. *)
Definition build_registry (dir : list string) (first : NewDevice) (away_grant_seconds : Z) (permanent_away : bool) (now : Z) (adopt : option bytes)
  : dsk (bytes * DeviceRegistryFile * list bytes) :=
  rmk ← draw_bytes 32;
  root ← (match adopt with
          | None => draw_bytes 32
          | Some nk => there ← keystore_call (exists_ (manifest_path dir));
                       _ ← (if there : bool then keystore_call (verify_node_key dir nk) else mret tt);
                       mret []
          end);
  codes ← draw_codes EMERGENCY_SLOTS;
  let esc := emergency_commitment codes in
  let nk := new_node_key adopt root esc in
  key ← lift_res (nk_wrap_key rmk);
  nk_wrap ← wrap_secret key nk (nk_wrap_aad esc away_grant_seconds);
  slots ← wrap_slots 0 codes rmk esc;
  id_bytes ← draw_bytes 16;
  kek ← lift_res (derive_device_kek (nd_secret first) id_bytes);
  rec ← first_record first id_bytes kek rmk esc now;
  let reg := mkDeviceRegistryFile DEVICES_FORMAT_VERSION (b64_encode esc) away_grant_seconds permanent_away nk_wrap "" [rec] slots esc in
  state_key ← lift_res (derive_state_key rmk);
  mret (nk, with_mac (b64_encode (state_mac state_key reg)) reg, codes).

(** [print] is what writing the sheet to the operator gives. *)
Definition init_registry (dir : list string) (first : NewDevice) (away_grant_seconds : Z) (permanent_away : bool) (now : Z) (adopt : option bytes)
    (print : list string -> result DeviceError unit) : dsk (bytes * DeviceRegistryFile) :=
  there ← registry_exists dir;
  if there : bool then throw (DeviceRegistryExists (path_display (devices_path dir))) else
  _ ← guard_not (negb (Bool.eqb permanent_away (bool_decide (nd_kind first = Fido2)))) (DevicePermanentAwayMismatch (nd_kind first));
  _ ← guard_not (negb ((MIN_AWAY_GRANT_SECONDS <=? away_grant_seconds) && (away_grant_seconds <=? MAX_AWAY_GRANT_SECONDS))) (DeviceGrantPeriodInvalid away_grant_seconds);
  _ ← lift_res (map_err DeviceLabelInvalid (valid_label (nd_label first)));
  _ ← lift_res (secret32 (nd_label first) (nd_secret first));
  '(nk, reg, codes) ← build_registry dir first away_grant_seconds permanent_away now adopt;
  _ ← lift_res (check reg (devices_path dir));
  b ← lift_res (map_err (fun e => DeviceRegistryIo ("serialize: " +:+ e)) (registry_to_vec reg));
  _ ← lift_res (print (code_sheet codes));
  _ ← create_registry dir b;
  mret (nk, reg).

Definition decode_code (text : string) : result DeviceError bytes :=
  let malformed := EmergencyCodeMalformed "expected 32 bytes of standard base64 — paste the exact string printed at registry init" in
  raw ← ok_or (match b64_decode text with Some b => Some b | None => b64_decode_no_pad text end) malformed;
  if negb (length raw =? EMERGENCY_CODE_BYTES)%nat then Err malformed else Ok raw.
Definition trim_text (s : string) : string := String.string_of_list_byte (trim (as_bytes s)).

(** The slots in order, from position [pos]. *)
Fixpoint try_slots (esc code : bytes) (path : fpath) (pos : nat) (l : list EmergencySlot) : result DeviceError (bytes * nat) :=
  match l with
  | [] => Err EmergencyCodeRejected
  | s :: l =>
      match es_wrap s with
      | None => try_slots esc code path (S pos) l
      | Some w =>
          kek ← derive_emergency_kek code (es_index s);
          match unwrap_secret kek w (emergency_wrap_aad (es_index s) esc) path with
          | Ok rmk => Ok (rmk, pos)
          | Err DeviceUnwrapFailed => try_slots esc code path (S pos) l
          | Err e => Err e
          end
      end
  end.
Definition open_slot (reg : DeviceRegistryFile) (code : bytes) (path : fpath) : result DeviceError (bytes * nat) :=
  if forallb (fun s => negb (is_some (es_wrap s))) (rg_emergency_slots reg) then Err EmergencyCodesExhausted
  else try_slots (rg_esc reg) code path 0 (rg_emergency_slots reg).

Definition burn (now : Z) (s : EmergencySlot) : EmergencySlot := mkEmergencySlot (es_index s) None (Some now).
Definition burn_slot (pos : nat) (now : Z) (reg : DeviceRegistryFile) : DeviceRegistryFile := with_slots (alter (burn now) pos (rg_emergency_slots reg)) reg.
Definition slot_index (reg : DeviceRegistryFile) (pos : nat) : Z := from_option es_index 0 (rg_emergency_slots reg !! pos).

Definition emergency_unlock (dir : list string) (now_host : Z) (code : option string) : dev (option EmergencyUnlock) :=
  match code with
  | None => mret None
  | Some text =>
      let path := devices_path dir in
      code ← lift_res (decode_code (trim_text text));
      reg ← gets dk_reg;
      '(rmk, pos) ← lift_res (open_slot reg code path);
      state_key ← lift_res (derive_state_key rmk);
      _ ← lift_res (verify_state_mac state_key reg path);
      nk ← lift_res (open_nk reg rmk path);
      _ ← on_reg (burn_slot pos now_host);
      _ ← persist dir state_key;
      mret (Some (mkEmergencyUnlock nk rmk (slot_index reg pos)))
  end.

(** [emergency::unlock_for_repair]: no MAC, and the slot is burned in memory only. *)
Definition emergency_for_repair (dir : list string) (now : Z) (code : result DeviceError (option string)) : dev (bytes * Z) :=
  text ← lift_res code;
  code ← lift_res (match text with Some text => decode_code (trim_text text) | None => Err (EmergencyCodeMalformed "Y2QD_EMERGENCY_KEY is not set") end);
  reg ← gets dk_reg;
  '(rmk, pos) ← lift_res (open_slot reg code (devices_path dir));
  _ ← on_reg (burn_slot pos now);
  mret (rmk, slot_index reg pos).

Definition rewrite_nk_wrap (dir : list string) (rmk new_nk : bytes) : dev unit :=
  reg ← gets dk_reg;
  key ← lift_res (nk_wrap_key rmk);
  w ← on_store (wrap_secret key new_nk (nk_wrap_aad (rg_esc reg) (rg_away_grant_seconds reg)));
  _ ← on_reg (with_nk_wrap (rg_away_grant_seconds reg) w);
  state_key ← lift_res (derive_state_key rmk);
  persist dir state_key.

(** ** The order of the ways *)

Definition is_continue_class (e : DeviceError) : bool :=
  match e with
  | TpmPcrMismatch | TpmUnavailable _ | Tpm _ | DeviceBackend _ | DeviceSecretLength _ _ | DeviceUnwrapFailed | DeviceGrantAbsent _
  | DeviceGrantExpired _ _ _ | DeviceSignCountRollback _ _ _ | AttestedTimeUnavailable _ | AttestedTimeInconsistent _ _ | RoughtimeNotConfigured => true
  | _ => false
  end.

Definition finish_outcome (nk rmk : bytes) (authority : Authority) (issued erased : nat) : dev UnlockOutcome :=
  state_key ← lift_res (derive_state_key rmk);
  reg ← gets dk_reg;
  mret (mkUnlockOutcome nk rmk state_key reg authority issued erased (length (filter (fun s => is_some (es_wrap s) = true) (rg_emergency_slots reg)))).

Definition reason (d : DeviceRecord) (e : DeviceError) : string := dr_label d +:+ ": " +:+ DeviceError_display e.

Definition try_home_record (dir : list string) (o : Outside) (i : nat) : dev Unlock :=
  d ← device_at i;
  _ ← lift_res (ok_or (dr_tpm2 d) (corrupt (devices_path dir) ("tpm2 device " +:+ dr_id d +:+ " has no tpm2 parameters")));
  secret ← lift_res (o_unseal o i);
  reg ← gets dk_reg;
  device_secret ← lift_res (home_device_secret reg i secret (o_passcode o i) (fun _ _ => o_factor o i));
  unlock_with_home dir i device_secret (o_time o i).

(** The records from position [i] on, [n] of them: the one that opened, or why none did. *)
Fixpoint try_home_records (dir : list string) (o : Outside) (i n : nat) (reasons : list string) : dev ((Unlock * Authority) + list string) :=
  match n with
  | O => mret (inr reasons)
  | S n =>
      d ← device_at i;
      if negb (bool_decide (dr_kind d = Tpm2)) then try_home_records dir o (S i) n reasons else
      match_res (try_home_record dir o i)
        (fun u => mret (inl (u, AuthHome (dr_id d) (dr_label d))))
        (fun e => if is_continue_class e then try_home_records dir o (S i) n (reasons ++ [reason d e]) else throw e)
  end.

Definition try_away_record (dir : list string) (o : Outside) (i : nat) : dev Unlock :=
  d ← device_at i;
  _ ← lift_res (ok_or (dr_fido2 d) (corrupt (devices_path dir) ("fido2 device " +:+ dr_id d +:+ " has no fido2 parameters")));
  '(secret, sign_count) ← lift_res (o_token o i);
  unlock_with_away dir i secret sign_count (o_time o i).
Fixpoint try_away_records (dir : list string) (o : Outside) (i n : nat) (reasons : list string) : dev ((Unlock * Authority) + list string) :=
  match n with
  | O => mret (inr reasons)
  | S n =>
      d ← device_at i;
      if negb (bool_decide (dr_kind d = Fido2)) then try_away_records dir o (S i) n reasons else
      if negb (is_some (dr_wrap d)) && negb (is_some (dr_grant d)) then try_away_records dir o (S i) n (reasons ++ [reason d (DeviceGrantAbsent (dr_label d))]) else
      match_res (try_away_record dir o i)
        (fun u => mret (inl (u, AuthAway (dr_id d) (dr_label d) (if is_some (dr_wrap d) then None else gr_not_after_unix <$> dr_grant d))))
        (fun e => if is_continue_class e then try_away_records dir o (S i) n (reasons ++ [reason d e]) else throw e)
  end.

Definition unavailable (none : string) (reasons : list string) : DeviceError :=
  DeviceUnlockUnavailable (if bool_decide (reasons = []) then none else String.concat "; " reasons).

Definition unlock_home (dir : list string) (o : Outside) : dsk UnlockOutcome :=
  reg ← load dir;
  '(out, _) ← with_registry reg
    (r ← try_home_records dir o 0 (length (rg_devices reg)) [];
     match r with
     | inl (u, a) => finish_outcome (ul_nk u) (ul_rmk u) a (ul_grants_issued u) (ul_grants_erased u)
     | inr reasons => throw (unavailable "no home devices registered" reasons)
     end);
  mret out.

Definition try_devices (dir : list string) (o : Outside) : dev UnlockOutcome :=
  n ← gets (fun w => length (rg_devices (dk_reg w)));
  r ← try_home_records dir o 0 n [];
  match r with
  | inl (u, a) => finish_outcome (ul_nk u) (ul_rmk u) a (ul_grants_issued u) (ul_grants_erased u)
  | inr reasons =>
      r ← try_away_records dir o 0 n reasons;
      match r with
      | inl (u, a) => finish_outcome (ul_nk u) (ul_rmk u) a 0 (ul_grants_erased u)
      | inr reasons => throw (unavailable "no devices registered" reasons)
      end
  end.

Definition unlock_registry (dir : list string) (o : Outside) (now_host : Z) : dev UnlockOutcome :=
  code ← lift_res (o_code o);
  match_res (emergency_unlock dir now_host code)
    (fun r => match r with
              | Some e => finish_outcome (eu_nk e) (eu_rmk e) (AuthEmergency (eu_slot e)) 0 0
              | None => try_devices dir o
              end)
    (fun e => match e with EmergencyCodesExhausted | EmergencyCodeRejected => try_devices dir o | e => throw e end).

Definition unlock (dir : list string) (o : Outside) (now_host : Z) : dsk UnlockOutcome :=
  reg ← load dir;
  '(out, _) ← with_registry reg (unlock_registry dir o now_host);
  mret out.

(** ** Repair *)

Record RepairSearch : Type := mkRepairSearch { rs_found : option (bytes * Authority); rs_reasons : list string; rs_refused : option string }.

(** What one record gives: the master key, a reason to go on, or [None] when it may not. *)
Definition repair_with (dir : list string) (o : Outside) (reg : DeviceRegistryFile) (allow_away : bool) (i : nat) (d : DeviceRecord) : option (result DeviceError (bytes * Authority)) :=
  match dr_kind d with
  | Tpm2 => Some (
      secret ← o_unseal o i;
      secret ← home_device_secret reg i secret (o_passcode o i) (fun _ _ => o_factor o i);
      k ← unlock_for_repair reg d secret (devices_path dir);
      Ok (k, AuthHome (dr_id d) (dr_label d)))
  | Fido2 =>
      if is_some (dr_wrap d) && (home_count reg =? 0)%nat && allow_away then Some (
        '(secret, _) ← o_token o i;
        k ← unlock_for_repair reg d secret (devices_path dir);
        Ok (k, AuthAway (dr_id d) (dr_label d) None))
      else None
  end.
Fixpoint repair_search (dir : list string) (o : Outside) (reg : DeviceRegistryFile) (allow_away : bool) (i : nat) (l : list DeviceRecord) (s : RepairSearch)
  : result DeviceError RepairSearch :=
  match l with
  | [] => Ok s
  | d :: l =>
      match repair_with dir o reg allow_away i d with
      | None => repair_search dir o reg allow_away (S i) l
                  (mkRepairSearch (rs_found s) (rs_reasons s) (Some (default (dr_label d) (rs_refused s))))
      | Some (Ok found) => Ok (mkRepairSearch (Some found) (rs_reasons s) (rs_refused s))
      | Some (Err (DeviceRegistryIo w)) => Err (DeviceRegistryIo w)
      | Some (Err (DeviceRegistryCorrupt p w)) => Err (DeviceRegistryCorrupt p w)
      | Some (Err e) => repair_search dir o reg allow_away (S i) l (mkRepairSearch (rs_found s) (rs_reasons s ++ [reason d e]) (rs_refused s))
      end
  end.

(** Whether the environment variable is there is [code_set]. *)
Definition repair_key (dir : list string) (o : Outside) (now : Z) (allow_away code_set : bool) : dev (bytes * Authority) :=
  reg ← gets dk_reg;
  s ← lift_res (repair_search dir o reg allow_away 0 (rg_devices reg) (mkRepairSearch None [] None));
  s ← (if negb (is_some (rs_found s)) && code_set then
         match_res (emergency_for_repair dir now (o_code o))
           (fun '(k, slot) => mret (mkRepairSearch (Some (k, AuthEmergency slot)) (rs_reasons s) (rs_refused s)))
           (fun e => mret (mkRepairSearch None (rs_reasons s ++ ["emergency code: " +:+ DeviceError_display e]) (rs_refused s)))
       else mret s);
  let refused := DeviceAuthorityInsufficient "repair-state" "a home device or an emergency code" in
  match rs_found s, rs_refused s with
  | Some found, _ => mret found
  | None, Some label => throw (refused ("away device '" +:+ label +:+ "'"))
  | None, None => if bool_decide (rs_reasons s = []) then throw (refused "no device record holding a permanent wrap")
                  else throw (DeviceUnlockUnavailable (String.concat "; " (rs_reasons s)))
  end.

Definition repair_registry (dir : list string) (o : Outside) (now : Z) (allow_away code_set : bool) : dev Authority :=
  let path := devices_path dir in
  pristine ← gets dk_reg;
  '(rmk, authority) ← repair_key dir o now allow_away code_set;
  reg ← gets dk_reg;
  nk ← lift_res (open_nk reg rmk path);
  there ← on_store (keystore_call (exists_ (manifest_path dir)));
  rotating ← (if there : bool then on_store (keystore_call (rotation_journal_exists dir)) else mret true);
  _ ← (if rotating : bool then mret tt else on_store (keystore_call (verify_node_key dir nk)));
  state_key ← lift_res (derive_state_key rmk);
  _ ← guard_not (is_ok (verify_state_mac state_key pristine path)) DeviceStateIntact;
  _ ← on_reg (fun r => with_devices (drop_grants (rg_devices r)) r);
  _ ← persist dir state_key;
  mret authority.

Definition repair_state_entry (dir : list string) (o : Outside) (now : Z) (allow_away accept_inventory code_set : bool) : dsk Authority :=
  if negb accept_inventory then throw DeviceRepairNotAccepted else
  reg ← load dir;
  '(a, _) ← with_registry reg (repair_registry dir o now allow_away code_set);
  mret a.

End unlock.
