(* ===== verification/DeviceCheck.v ===== *)
(** * What a checked registry is

    [check] decides [well_formed]: every record has what its kind needs and nothing else,
    identifiers and labels are unique, and a registry is permanently away exactly when no
    home device is registered. *)

From stdpp Require Import pretty.
From S2P Require Import Prelude Effects Primitives Crypto Posix Filesystem Keystore Upload DeviceTypes Devices.

Section check.
Context {B : Base64Ops}.

Definition factor_ok (l : list DeviceRecord) (f : HomeFactor) : Prop :=
  match f with
  | Passcode s m t p => validate_passcode_params s m t p = Ok tt
  | FactorFido2 id => exists r, r ∈ l /\ dr_id r = id /\ dr_kind r = Fido2
  end.

Definition role_ok (reg : DeviceRegistryFile) (d : DeviceRecord) : Prop :=
  match dr_kind d with
  | Tpm2 => is_Some (dr_wrap d) /\ dr_grant d = None /\ dr_sign_count_last d = None /\ dr_kek_wrap d = None /\
      (forall f, dr_home_factor d = Some f -> factor_ok (rg_devices reg) f)
  | Fido2 => dr_home_factor d = None /\ is_Some (dr_sign_count_last d) /\ is_Some (dr_kek_wrap d) /\
      (is_Some (dr_wrap d) -> dr_grant d = None /\ rg_permanent_away reg = true) /\ (is_Some (dr_grant d) -> home_count reg <> 0%nat)
  end.

Definition record_ok (d : DeviceRecord) : Prop :=
  decode_hex_id (dr_id d) = Some (dr_id_bytes d) /\ valid_label (dr_label d) = Ok tt /\ kind_ok d = true.

Definition slot_ok (i : nat) (s : EmergencySlot) : Prop := es_index s = Z.of_nat i /\ is_some (es_wrap s) = negb (is_some (es_burned_at_unix s)).

Record well_formed (reg : DeviceRegistryFile) : Prop := {
  wf_esc : is_Some (decode32 (rg_esc_b64 reg));
  wf_mac : is_Some (decode32 (rg_state_mac_b64 reg));
  wf_period : MIN_AWAY_GRANT_SECONDS <= rg_away_grant_seconds reg <= MAX_AWAY_GRANT_SECONDS;
  wf_ten : length (rg_emergency_slots reg) = EMERGENCY_SLOTS;
  wf_slots : forall i s, rg_emergency_slots reg !! i = Some s -> slot_ok i s;
  wf_few : blen (rg_devices reg) <= MAX_DEVICES;
  wf_records : Forall record_ok (rg_devices reg);
  wf_labels : NoDup ((fun d => lower_label (dr_label d)) <$> rg_devices reg);
  wf_ids : NoDup (dr_id <$> rg_devices reg);
  wf_roles : Forall (role_ok reg) (rg_devices reg);
  wf_permanent : rg_permanent_away reg = negb (bool_decide (rg_devices reg = [])) && (home_count reg =? 0)%nat;
  wf_wraps : rg_permanent_away reg = true -> Forall (fun d => dr_kind d = Fido2 -> is_Some (dr_wrap d) /\ dr_grant d = None) (rg_devices reg);
}.

Lemma is_some_spec {V} (o : option V) : is_some o = true <-> is_Some o.
Proof. destruct o as [v|]; cbn; split; [by exists v|done|done|by intros []]. Qed.
Lemma is_some_none {V} (o : option V) : is_some o = false <-> o = None.
Proof. by destruct o. Qed.

Lemma each_iff {V} (f : V -> result DeviceError unit) l : each f l = Ok tt <-> Forall (fun x => f x = Ok tt) l.
Proof.
  induction l as [|x l IH]; cbn [each]; [split; [constructor|done]|]. rewrite Forall_cons, <- IH.
  destruct (f x) as [[]|] eqn:E; cbn; split; try done; by intros [].
Qed.

Lemma check_slots_iff path l : forall i, check_slots path i l = Ok tt <-> (forall j s, l !! j = Some s -> slot_ok (i + j) s).
Proof.
  induction l as [|s l IH]; intros i; cbn [check_slots]; [split; [by intros _ [] ?|done]|].
  destruct (es_index s =? Z.of_nat i) eqn:Ei; cbn [negb]; [|split; [done|]]; cycle 1.
  { intros H. destruct (H 0%nat s eq_refl) as [H1 _]. rewrite Nat.add_0_r in H1. apply Z.eqb_neq in Ei. congruence. }
  apply Z.eqb_eq in Ei. destruct (Bool.eqb _ _) eqn:Eb.
  - apply eqb_prop in Eb. split; [done|]. intros H. destruct (H 0%nat s eq_refl) as [_ H2]. rewrite Eb in H2. by destruct (is_some (es_burned_at_unix s)).
  - rewrite IH. split.
    + intros H [|j] x; cbn; [intros [= <-]; rewrite Nat.add_0_r; split; [done|]|].
      * apply eqb_false_iff in Eb. by destruct (is_some (es_wrap s)), (is_some (es_burned_at_unix s)).
      * intros Hx. replace (i + S j)%nat with (S i + j)%nat by lia. by apply H.
    + intros H j x Hx. replace (S i + j)%nat with (i + S j)%nat by lia. by apply H.
Qed.

Lemma check_records_iff path l : forall labels ids, check_records path labels ids l = Ok tt <->
  Forall record_ok l /\ NoDup ((fun d => lower_label (dr_label d)) <$> l) /\ NoDup (dr_id <$> l) /\
  (forall d, d ∈ l -> lower_label (dr_label d) ∉ labels /\ dr_id d ∉ ids).
Proof.
  induction l as [|d l IH]; intros labels ids; cbn [check_records fmap list_fmap].
  { split; [intros _|done]. split_and!; [constructor..|]. intros d Hd. by apply not_elem_of_nil in Hd. }
  rewrite Forall_cons, !NoDup_cons. unfold record_ok at 1.
  destruct (decode_hex_id (dr_id d)) as [b|] eqn:Eid; cbn; [|split; [done|]; by intros [[[? _] _] _]].
  destruct (decide (b = dr_id_bytes d)) as [->|Hb]; [rewrite bool_decide_eq_true_2 by done|rewrite bool_decide_eq_false_2 by done]; cbn;
    [|split; [done|]; intros [[[[= ?] _] _] _]; congruence].
  destruct (valid_label (dr_label d)) as [[]|] eqn:El; cbn; [|split; [done|]; by intros [[(_ & ? & _) _] _]].
  destruct (decide (lower_label (dr_label d) ∈ labels)) as [Hl|Hl]; [rewrite bool_decide_eq_true_2 by done|rewrite bool_decide_eq_false_2 by done].
  { split; [done|]. intros (_ & _ & _ & H). by destruct (H d (list_elem_of_here _ _)). }
  destruct (decide (dr_id d ∈ ids)) as [Hi|Hi]; [rewrite bool_decide_eq_true_2 by done|rewrite bool_decide_eq_false_2 by done].
  { split; [done|]. intros (_ & _ & _ & H). by destruct (H d (list_elem_of_here _ _)). }
  destruct (kind_ok d) eqn:Ek; cbn; [|split; [done|]; by intros [[(_ & _ & ?) _] _]].
  rewrite IH. split.
  - intros (H1 & H2 & H3 & H4). split_and!; try done.
    + intros (x & Ex & Hx)%list_elem_of_fmap. destruct (H4 x Hx) as [Ha _]. apply not_elem_of_cons in Ha as [Ha _]. congruence.
    + intros (x & Ex & Hx)%list_elem_of_fmap. destruct (H4 x Hx) as [_ Ha]. apply not_elem_of_cons in Ha as [Ha _]. congruence.
    + intros x [->|Hx]%elem_of_cons; [done|]. destruct (H4 x Hx) as [[_ Ha]%not_elem_of_cons [_ Hb]%not_elem_of_cons]. done.
  - intros ([_ H1] & [H2 H2'] & [H3 H3'] & H4). split_and!; try done. intros x Hx. rewrite !not_elem_of_cons.
    destruct (H4 x (list_elem_of_further _ _ _ Hx)). split_and!; try done; intros E; [apply H2|apply H3]; rewrite <- E; apply list_elem_of_fmap; eauto.
Qed.

Lemma find_id_iff l id : NoDup (dr_id <$> l) ->
  match find (fun r => bool_decide (dr_id r = id)) l with Some r => r ∈ l /\ dr_id r = id /\ (forall r', r' ∈ l -> dr_id r' = id -> r' = r) | None => forall r, r ∈ l -> dr_id r <> id end.
Proof.
  induction l as [|d l IH]; cbn [find fmap list_fmap]; [intros _ r Hr; by apply not_elem_of_nil in Hr|].
  rewrite NoDup_cons. intros [Hd Hn]. destruct (decide (dr_id d = id)) as [<-|Hne].
  - rewrite bool_decide_eq_true_2 by done. split; [left|]. split; [done|]. intros r' [->|Hr]%elem_of_cons E; [done|].
    destruct Hd. apply list_elem_of_fmap. by exists r'.
  - rewrite bool_decide_eq_false_2 by done. specialize (IH Hn). destruct (find _ l) as [r|].
    + destruct IH as (H1 & H2 & H3). split; [by right|]. split; [done|]. intros r' [->|Hr]%elem_of_cons E; [done|]. by apply H3.
    + intros r [->|Hr]%elem_of_cons; [done|]. by apply IH.
Qed.

Lemma check_home_factor_iff reg home f : NoDup (dr_id <$> rg_devices reg) -> check_home_factor reg home f = Ok tt <-> factor_ok (rg_devices reg) f.
Proof.
  intros Hn. destruct f as [s m t p|id]; cbn [check_home_factor factor_ok]; [done|]. pose proof (find_id_iff _ id Hn) as Hf.
  destruct (find _ _) as [r|]; [|split; [done|]; intros (r & Hr & E & _); by destruct (Hf r Hr)].
  destruct Hf as (H1 & H2 & H3). destruct (decide (dr_kind r = Fido2)) as [Hk|Hk].
  - rewrite bool_decide_eq_true_2 by done. split; [|done]. intros _. by exists r.
  - rewrite bool_decide_eq_false_2 by done. split; [done|]. intros (r' & Hr' & E & Hk'). by rewrite (H3 r' Hr' E) in Hk'.
Qed.

Lemma check_roles_iff path reg d : NoDup (dr_id <$> rg_devices reg) -> check_roles path reg d = Ok tt <-> role_ok reg d.
Proof.
  intros Hn. unfold check_roles, role_ok. destruct (dr_kind d).
  - destruct (dr_wrap d), (dr_grant d), (dr_sign_count_last d), (dr_kek_wrap d); cbn; try (split; [done|]; by intros ([] & ? & ? & ? & _)).
    destruct (dr_home_factor d) as [f|]; [rewrite check_home_factor_iff by done|]; split; try naive_solver eauto.
  - destruct (dr_home_factor d); cbn; [split; [done|]; by intros [? _]|].
    destruct (dr_sign_count_last d), (dr_kek_wrap d); cbn; try (split; [done|]; by intros (_ & [] & [] & _)).
    assert (Hz : (home_count reg =? 0)%nat = false <-> home_count reg <> 0%nat) by apply Nat.eqb_neq.
    destruct (dr_wrap d), (dr_grant d), (rg_permanent_away reg), (home_count reg =? 0)%nat; cbn; split; try done; try naive_solver eauto.
Qed.

Lemma ok_or_iff {E V} (o : option V) (e : E) x : ok_or o e = Ok x <-> o = Some x.
Proof. destruct o; cbn; split; congruence. Qed.
Lemma if_err {E V} (c : bool) (e : E) (m : result E V) x : (if c then Err e else m) = Ok x <-> c = false /\ m = Ok x.
Proof. destruct c; naive_solver. Qed.
Lemma bind_Ok {E V U} (m : result E V) (f : V -> result E U) x : m ≫= f = Ok x <-> exists y, m = Ok y /\ f y = Ok x.
Proof. destruct m; cbn; naive_solver. Qed.
Lemma bind_unit {E U} (m : result E unit) (f : unit -> result E U) x : m ≫= f = Ok x <-> m = Ok tt /\ f tt = Ok x.
Proof. destruct m as [[]|]; cbn; naive_solver. Qed.

Theorem check_iff reg path : check reg path = Ok tt <-> well_formed reg.
Proof.
  unfold check. destruct (decode32 (rg_esc_b64 reg)) as [e|] eqn:He; [|split; [done|]; intros []; rewrite He in *; by destruct wf_esc0].
  destruct (decode32 (rg_state_mac_b64 reg)) as [m|] eqn:Hm; [|split; [done|]; intros []; rewrite Hm in *; by destruct wf_mac0].
  cbn [ok_or mbind result_bind]. rewrite !if_err, bind_unit, if_err, !bind_unit, !if_err. split.
  - intros (Hp & Ht & Hs & Hf & Hr & Ho & Hb & Hw & _). apply check_records_iff in Hr as (H1 & H2 & H3 & _).
    constructor; try done.
    + apply negb_false_iff, andb_true_iff in Hp as [H%Z.leb_le H'%Z.leb_le]. lia.
    + by apply negb_false_iff, Nat.eqb_eq in Ht.
    + intros i s. apply (proj1 (check_slots_iff path _ 0) Hs).
    + apply Z.ltb_ge in Hf. done.
    + apply each_iff in Ho. eapply Forall_impl; [exact Ho|]. intros d Hd. by apply (check_roles_iff path) in Hd.
    + apply negb_false_iff in Hb. by apply eqb_prop in Hb.
    + intros Hpa. rewrite Hpa in Hw. cbn in Hw. apply Forall_forall. intros d Hd Hk.
      assert (Hx : bool_decide (dr_kind d = Fido2) && (negb (is_some (dr_wrap d)) || is_some (dr_grant d)) = false).
      { apply not_true_iff_false. intros Hx. apply not_true_iff_false in Hw. apply Hw, existsb_exists. exists d. split; [by apply list_elem_of_In|done]. }
      rewrite bool_decide_eq_true_2 in Hx by done. cbn in Hx. apply orb_false_iff in Hx as [H4%negb_false_iff%is_some_spec H5%is_some_none]. done.
  - intros [_ _ Hp Ht Hs Hf Hr Hl Hi Ho Hb Hw]. split_and!; try done.
    + rewrite (proj2 (Z.leb_le _ _)), (proj2 (Z.leb_le _ _)) by lia. done.
    + by rewrite Ht, Nat.eqb_refl.
    + apply check_slots_iff. done.
    + by apply Z.ltb_ge.
    + apply check_records_iff. split_and!; try done. intros d _. split; apply not_elem_of_nil.
    + apply each_iff. eapply Forall_impl; [exact Ho|]. intros d Hd. by apply check_roles_iff.
    + by rewrite Hb, eqb_reflx.
    + destruct (rg_permanent_away reg); [|done]. cbn. apply not_true_iff_false. intros (d & Hd%list_elem_of_In & Hx)%existsb_exists.
      specialize (Hw eq_refl). rewrite Forall_forall in Hw. apply andb_true_iff in Hx as [Hk%bool_decide_eq_true Hx]. destruct (Hw d Hd Hk) as [[w Ew] Eg]. by rewrite Ew, Eg in Hx.
Qed.
End check.
