(* ===== verification/DeviceState.v ===== *)
(** * What the state MAC covers

    The bytes the MAC is taken over determine exactly a view of the registry: the policy,
    and for every device and emergency slot what may be done with it.  The wrapped keys
    themselves, apart from the node key's and the cached ones, are not in the view. *)

From stdpp Require Import pretty.
From S2P Require Import Prelude Effects Primitives Crypto Posix Filesystem Keystore Upload DeviceTypes Devices DeviceCheck.

(** ** Hexadecimal identifiers *)

Lemma hex_digit_range b z : hex_digit b = Some z -> 0 <= z < 16.
Proof. unfold hex_digit. repeat case_match; intros [= <-]; lia. Qed.
Lemma hex_digit_inj a b z : hex_digit a = Some z -> hex_digit b = Some z -> a = b.
Proof. unfold hex_digit. intros Ha Hb. apply Z_of_byte_inj. repeat case_match; simplify_eq; lia. Qed.

Lemma pairs_ind (P : bytes -> Prop) : P [] -> (forall x, P [x]) -> (forall x y l, P l -> P (x :: y :: l)) -> forall l, P l.
Proof. intros H0 H1 H2. fix IH 1. intros [|x [|y l]]; [done|done|]. apply H2, IH. Qed.

Lemma decode_hex_pairs_len s : forall b, decode_hex_pairs s = Some b -> length s = (2 * length b)%nat.
Proof.
  induction s as [|x|h l s IH] using pairs_ind; intros b; cbn [decode_hex_pairs]; [by intros [= <-]|done|].
  destruct (hex_digit h), (hex_digit l), (decode_hex_pairs s) as [c|]; cbn; try done. intros [= <-]. cbn. rewrite (IH c eq_refl). lia.
Qed.
Lemma decode_hex_pairs_inj s : forall s' b, decode_hex_pairs s = Some b -> decode_hex_pairs s' = Some b -> s = s'.
Proof.
  induction s as [|x|h l s IH] using pairs_ind; intros s' b; cbn [decode_hex_pairs]; [|done|].
  - intros [= <-]. destruct s' as [|h' [|l' s']]; [done|done|]. cbn. by destruct (hex_digit h'), (hex_digit l'), (decode_hex_pairs s').
  - destruct (hex_digit h) as [hi|] eqn:Eh, (hex_digit l) as [lo|] eqn:El, (decode_hex_pairs s) as [c|] eqn:Es; cbn; try done. intros [= <-].
    destruct s' as [|h' [|l' s']]; [done|done|]. cbn [decode_hex_pairs].
    destruct (hex_digit h') as [hi'|] eqn:Eh', (hex_digit l') as [lo'|] eqn:El', (decode_hex_pairs s') as [c'|] eqn:Es'; cbn; try done. intros [= E ->].
    apply hex_digit_range in Eh as Rh, El as Rl, Eh' as Rh', El' as Rl'. apply (f_equal Z_of_byte) in E. rewrite !Z_of_byte_of_Z, !Z.mod_small in E by lia.
    assert (hi' = hi /\ lo' = lo) as [-> ->] by lia. f_equal; [by eapply hex_digit_inj|]. f_equal; [by eapply hex_digit_inj|]. by eapply IH.
Qed.

Lemma decode_hex_id_len id b : decode_hex_id id = Some b -> length b = 16%nat.
Proof.
  unfold decode_hex_id. destruct (blen (as_bytes id) =? 32) eqn:E; [|done]. cbn. intros H%decode_hex_pairs_len. apply Z.eqb_eq in E. unfold blen in E. lia.
Qed.
Lemma decode_hex_id_inj id id' b : decode_hex_id id = Some b -> decode_hex_id id' = Some b -> id = id'.
Proof.
  unfold decode_hex_id. destruct (_ =? 32), (_ =? 32); try done. cbn. intros H H'. pose proof (decode_hex_pairs_inj _ _ _ H H') as E. by apply as_bytes_inj.
Qed.

(** ** Self-delimiting pieces *)

Lemma bool_byte_inj b b' : bool_byte b = bool_byte b' -> b = b'.
Proof. by destruct b, b'. Qed.
Lemma kind_byte_inj k k' : kind_byte k = kind_byte k' -> k = k'.
Proof. by destruct k, k'. Qed.
Lemma le_inj n z z' : 0 <= z < 256 ^ Z.of_nat n -> 0 <= z' < 256 ^ Z.of_nat n -> to_le_bytes n z = to_le_bytes n z' -> z = z'.
Proof. intros H H' E. apply (f_equal le_value) in E. unfold to_le_bytes in E. by rewrite !le_value_bytes in E. Qed.

Lemma app_split {V} (a b x y : list V) : length a = length b -> a ++ x = b ++ y -> a = b /\ x = y.
Proof. intros Hl E. by apply app_inj_1. Qed.

(** A length byte and what it counts, when one side is short. *)
Lemma counted_u8 (a b x y : bytes) : blen a < 255 -> [len_u8 a] ++ a ++ x = [len_u8 b] ++ b ++ y -> a = b /\ x = y.
Proof.
  intros Ha [= El E]. apply app_split; [|done]. apply (f_equal Z_of_byte) in El. unfold len_u8 in El. rewrite !Z_of_byte_of_Z in El.
  unfold blen in *. rewrite !Z.mod_small in El by lia. lia.
Qed.
Lemma counted_u16 (a b x y : bytes) : blen a < 65535 -> len_u16 a ++ a ++ x = len_u16 b ++ b ++ y -> a = b /\ x = y.
Proof.
  intros Ha E. apply app_split in E as [El E]; [|unfold len_u16; by rewrite !length_to_le_bytes]. apply app_split; [|done].
  unfold len_u16, blen in *. apply le_inj in El; [lia|simpl; lia..].
Qed.

(** ** The view

    What [state_bytes] hashes, as fields; [swapped] below is the rest of the file that
    can change. *)

Section state.
Context {B : Base64Ops} {T : TokenOps} {TL : TokenLaws}.

Record DeviceView : Type := mkDeviceView {
  dv_id : string;
  dv_label : string;
  dv_kind : DeviceKind;
  dv_added_at_unix : Z;
  dv_wrapped : bool;
  (** The deadline of the grant and when it was issued. *)
  dv_grant : option (Z * Z);
  dv_pcrs : option (string * bytes);
  dv_uv_required : bool;
  dv_sign_count_last : option Z;
  (** The digest of the cached key. *)
  dv_kek : option bytes;
  dv_home_factor : option HomeFactor;
}.
Definition device_view (d : DeviceRecord) : DeviceView :=
  mkDeviceView (dr_id d) (dr_label d) (dr_kind d) (dr_added_at_unix d) (is_some (dr_wrap d)) ((fun g => (gr_not_after_unix g, gr_issued_at_unix g)) <$> dr_grant d)
    ((fun t => (tp_pcr_bank t, tp_pcr_slots t)) <$> dr_tpm2 d) (uv_required d) (dr_sign_count_last d) (sha256_wrap <$> dr_kek_wrap d) (dr_home_factor d).

Record RegistryView : Type := mkRegistryView {
  rv_format_version : Z;
  rv_away_grant_seconds : Z;
  rv_permanent_away : bool;
  rv_nk : bytes;
  rv_devices : list DeviceView;
  (** When each slot was burned. *)
  rv_slots : list (option Z);
}.
Definition registry_view (r : DeviceRegistryFile) : RegistryView :=
  mkRegistryView (rg_format_version r) (rg_away_grant_seconds r) (rg_permanent_away r) (sha256_wrap (rg_nk_wrap r)) (device_view <$> rg_devices r) (es_burned_at_unix <$> rg_emergency_slots r).

(** The ranges of the field types. *)
Definition factor_fits (f : HomeFactor) : Prop := match f with Passcode _ m t p => in_u 32 m /\ in_u 32 t /\ in_u 32 p | FactorFido2 _ => True end.
Definition device_fits (d : DeviceRecord) : Prop :=
  in_u 64 (dr_added_at_unix d) /\ in_u 32 (default 0 (dr_sign_count_last d)) /\ (forall f, dr_home_factor d = Some f -> factor_fits f) /\
  (forall g, dr_grant d = Some g -> in_u 64 (gr_not_after_unix g) /\ in_u 64 (gr_issued_at_unix g)).
Record registry_fits (r : DeviceRegistryFile) : Prop := {
  fit_version : in_u 16 (rg_format_version r);
  fit_devices : Forall device_fits (rg_devices r);
  fit_slots : Forall (fun s => in_u 64 (default 0 (es_burned_at_unix s))) (rg_emergency_slots r);
}.

(** Nothing is as long as its length prefix can count. *)
Definition device_short (d : DeviceRecord) : Prop :=
  (forall t, dr_tpm2 d = Some t -> blen (as_bytes (tp_pcr_bank t)) < 255 /\ blen (tp_pcr_slots t) < 255) /\
  (forall s m t p, dr_home_factor d = Some (Passcode s m t p) -> blen (as_bytes s) < 65535).

(** What [check] says of one record by itself, and that its factor decodes. *)
Definition stateful (d : DeviceRecord) : Prop :=
  record_ok d /\
  match dr_kind d with
  | Tpm2 => dr_sign_count_last d = None /\ dr_kek_wrap d = None /\ (forall id, dr_home_factor d = Some (FactorFido2 id) -> is_Some (decode_hex_id id))
  | Fido2 => is_Some (dr_sign_count_last d) /\ is_Some (dr_kek_wrap d) /\ dr_home_factor d = None
  end.

Lemma well_formed_stateful reg : well_formed reg -> Forall stateful (rg_devices reg).
Proof.
  intros Hwf. pose proof (wf_records _ Hwf) as Hr. pose proof (wf_roles _ Hwf) as Ho. rewrite Forall_forall in *. intros d Hd. split; [auto|].
  specialize (Ho d Hd). unfold role_ok in Ho. destruct (dr_kind d).
  - destruct Ho as (_ & _ & H1 & H2 & H3). split_and!; try done. intros id Hf. destruct (H3 _ Hf) as (r & Hin & <- & _). destruct (Hr r Hin) as [E _]. by rewrite E.
  - naive_solver.
Qed.

Lemma valid_label_len label : valid_label label = Ok tt -> blen (as_bytes label) <= 64.
Proof. unfold valid_label. repeat case_match; try done. intros _. by apply Z.ltb_ge. Qed.

Lemma factor_state_inj d d' (x y : bytes) : stateful d -> stateful d' -> device_fits d -> device_fits d' -> device_short d -> dr_kind d = Tpm2 -> dr_kind d' = Tpm2 ->
  from_option encode_home_factor [] (dr_home_factor d) ++ [len_u8 (as_bytes (dr_label d))] ++ as_bytes (dr_label d) ++ x =
  from_option encode_home_factor [] (dr_home_factor d') ++ [len_u8 (as_bytes (dr_label d'))] ++ as_bytes (dr_label d') ++ y ->
  dr_home_factor d = dr_home_factor d' /\ dr_label d = dr_label d' /\ x = y.
Proof.
  intros [(_ & Hl & _) Hs] [(_ & Hl' & _) Hs'] Hf Hf' Hsh Hk Hk'. rewrite Hk in Hs. rewrite Hk' in Hs'. destruct Hs as (_ & _ & Hid), Hs' as (_ & _ & Hid').
  destruct Hf as (_ & _ & Hf & _), Hf' as (_ & _ & Hf' & _), Hsh as [_ Hsh]. apply valid_label_len in Hl as Ll, Hl' as Ll'.
  assert (Hend : forall x y, [len_u8 (as_bytes (dr_label d))] ++ as_bytes (dr_label d) ++ x = [len_u8 (as_bytes (dr_label d'))] ++ as_bytes (dr_label d') ++ y -> dr_label d = dr_label d' /\ x = y).
  { intros x' y' E. apply counted_u8 in E as [E ->]; [|lia]. split; [by apply as_bytes_inj|done]. }
  assert (Hmark : forall label (b : byte), blen (as_bytes label) <= 64 -> 128 <= Z_of_byte b -> len_u8 (as_bytes label) <> b).
  { intros label b Hb Hge E. apply (f_equal Z_of_byte) in E. unfold len_u8 in E. unfold blen in *. rewrite Z_of_byte_of_Z, Z.mod_small in E by lia. lia. }
  destruct (dr_home_factor d) as [[s m t p|id]|], (dr_home_factor d') as [[s' m' t' p'|id']|]; cbn [from_option encode_home_factor]; intros E.
  all: rewrite <- ?app_assoc in E; try (exfalso; apply (f_equal head) in E; cbn in E; simplify_eq; fail).
  all: try (exfalso; apply (f_equal head) in E; cbn in E; injection E as E; first [revert E; apply Hmark; [done|by vm_compute]|symmetry in E; revert E; apply Hmark; [done|by vm_compute]]).
  - destruct (Hf _ eq_refl) as (? & ? & ?), (Hf' _ eq_refl) as (? & ? & ?). apply app_split in E as [_ E]; [|done].
    apply counted_u16 in E as [Es E]; [|by eapply Hsh]. apply as_bytes_inj in Es as <-.
    apply app_split in E as [Em E]; [|by rewrite !length_to_le_bytes]. apply app_split in E as [Et E]; [|by rewrite !length_to_le_bytes]. apply app_split in E as [Ep E]; [|by rewrite !length_to_le_bytes].
    apply le_inj in Em as <-, Et as <-, Ep as <-; [|done..]. apply Hend in E as [-> ->]. done.
  - destruct (Hid _ eq_refl) as [b Hb], (Hid' _ eq_refl) as [b' Hb']. rewrite Hb, Hb' in E. cbn [default from_option Datatypes.id] in E. apply app_split in E as [_ E]; [|done].
    apply app_split in E as [<- E]; [|by rewrite (decode_hex_id_len _ _ Hb), (decode_hex_id_len _ _ Hb')].
    apply Hend in E as [-> ->]. by rewrite (decode_hex_id_inj _ _ _ Hb Hb').
  - apply Hend in E as [-> ->]. done.
Qed.

Lemma kind_state_home d : dr_kind d = Tpm2 -> kind_ok d = true -> exists t, dr_tpm2 d = Some t /\ dr_fido2 d = None /\
  kind_state d = [len_u8 (as_bytes (tp_pcr_bank t))] ++ as_bytes (tp_pcr_bank t) ++ [len_u8 (tp_pcr_slots t)] ++ tp_pcr_slots t ++ from_option encode_home_factor [] (dr_home_factor d).
Proof.
  unfold kind_ok, kind_state. intros ->. destruct (dr_tpm2 d) as [t|], (dr_fido2 d); cbn; try done. intros _. exists t. split_and!; try done. by destruct (dr_home_factor d); rewrite <- ?app_assoc.
Qed.
Lemma kind_state_away d : dr_kind d = Fido2 -> kind_ok d = true -> forall w, dr_kek_wrap d = Some w -> dr_tpm2 d = None /\ is_Some (dr_fido2 d) /\ kind_state d = [bool_byte (uv_required d)] ++ sha256_wrap w.
Proof. unfold kind_ok, kind_state. intros -> Hk w ->. destruct (dr_tpm2 d), (dr_fido2 d); cbn in *; done. Qed.

Lemma grant_times_inj (d d' : DeviceRecord) : device_fits d -> device_fits d' -> is_some (dr_grant d) = is_some (dr_grant d') ->
  to_le_bytes 8 (from_option gr_not_after_unix 0 (dr_grant d)) = to_le_bytes 8 (from_option gr_not_after_unix 0 (dr_grant d')) ->
  to_le_bytes 8 (from_option gr_issued_at_unix 0 (dr_grant d)) = to_le_bytes 8 (from_option gr_issued_at_unix 0 (dr_grant d')) ->
  (fun g => (gr_not_after_unix g, gr_issued_at_unix g)) <$> dr_grant d = (fun g => (gr_not_after_unix g, gr_issued_at_unix g)) <$> dr_grant d'.
Proof.
  intros (_ & _ & _ & Hg) (_ & _ & _ & Hg'). intros Hi; destruct (dr_grant d) as [g|], (dr_grant d') as [g'|]; try discriminate Hi; [|done]. cbn [from_option]. intros E1 E2. cbn [fmap option_fmap option_map].
  destruct (Hg g eq_refl), (Hg' g' eq_refl). apply le_inj in E1, E2; [|done..]. by rewrite E1, E2.
Qed.

Lemma record_state_inj d d' x y : stateful d -> stateful d' -> device_fits d -> device_fits d' -> device_short d ->
  record_state d ++ x = record_state d' ++ y -> device_view d = device_view d' /\ x = y.
Proof.
  intros Hs Hs' Hf Hf' Hsh. pose proof Hs as [(Hid & Hl & Hk) Hr]. pose proof Hs' as [(Hid' & Hl' & Hk') Hr']. unfold record_state. rewrite <- !app_assoc. intros E.
  apply app_split in E as [Eid E]; [|by rewrite (decode_hex_id_len _ _ Hid), (decode_hex_id_len _ _ Hid')].
  apply app_split in E as [E1 E]; [|done]. apply app_split in E as [E2 E]; [|by rewrite !length_to_le_bytes]. apply app_split in E as [E3 E]; [|by rewrite !length_to_le_bytes].
  apply app_split in E as [E4 E]; [|by rewrite !length_to_le_bytes]. apply app_split in E as [E5 E]; [|by rewrite !length_to_le_bytes]. apply app_split in E as [E6 E]; [|done].
  injection E1 as Ek%kind_byte_inj Ew%bool_byte_inj Eg%bool_byte_inj Ekw%bool_byte_inj. rewrite <- Eid in Hid'. pose proof (decode_hex_id_inj _ _ _ Hid Hid') as Ei.
  pose proof (grant_times_inj _ _ Hf Hf' Eg E2 E3) as Egr. destruct Hf as (Ha & Hc & Hff & Hg), Hf' as (Ha' & Hc' & Hff' & Hg'). apply le_inj in E4, E5; [|done..].
  unfold device_view. rewrite Ei, Ek, E5, Ew, Egr. destruct (dr_kind d) eqn:Kd; rewrite <- Ek in *.
  - destruct (kind_state_home d Kd Hk) as (t & Et & Ef & Est), (kind_state_home d' (eq_sym Ek) Hk') as (t' & Et' & Ef' & Est'). destruct Hr as (Hn & Hkn & _), Hr' as (Hn' & Hkn' & _).
    rewrite Est, Est', <- !app_assoc in E. destruct (proj1 Hsh t Et) as [Lb Lp]. apply counted_u8 in E as [Eb E]; [|done]. apply counted_u8 in E as [Ep E]; [|done].
    apply factor_state_inj in E as (Efa & Ela & ->); [|done..]. unfold uv_required. rewrite Ef, Ef', Et, Et', Hn, Hn', Hkn, Hkn', Efa, Ela. cbn. apply as_bytes_inj in Eb as ->. by rewrite Ep.
  - destruct Hr as ([c Hn] & [w Hw] & Hfa), Hr' as ([c' Hn'] & [w' Hw'] & Hfa'). destruct (kind_state_away d Kd Hk w Hw) as (Et & _ & Est), (kind_state_away d' (eq_sym Ek) Hk' w' Hw') as (Et' & _ & Est').
    rewrite Est, Est', <- !app_assoc in E. apply app_split in E as [Eu E]; [|done]. apply app_split in E as [Edig E]; [|unfold sha256_wrap; by rewrite !sha256_len].
    injection Eu as Eu%bool_byte_inj. apply counted_u8 in E as [Ela ->]; [|apply valid_label_len in Hl; lia]. apply as_bytes_inj in Ela as ->.
    rewrite Hn, Hn' in E4. cbn in E4. rewrite Et, Et', Hn, Hn', Hw, Hw', Hfa, Hfa', Eu, E4. cbn. by rewrite Edig.
Qed.

Lemma record_state_view d d' : stateful d -> stateful d' -> device_view d = device_view d' -> record_state d = record_state d'.
Proof.
  intros [(Hid & _ & Hk) Hr] [(Hid' & _ & Hk') Hr'] E. unfold device_view in E. injection E as Ei El Ek Ea Ew Eg Ep Eu Ec Ekk Ef. unfold record_state.
  rewrite Ei in Hid. rewrite Hid in Hid'. injection Hid' as Hb. rewrite Hb, Ek, Ew, Ec, Ea, El. destruct (dr_kind d) eqn:Kd; rewrite <- Ek in *.
  - destruct (kind_state_home d Kd Hk) as (t & Et & Efd & Est), (kind_state_home d' (eq_sym Ek) Hk') as (t' & Et' & Efd' & Est'). destruct Hr as (_ & Hkn & _), Hr' as (_ & Hkn' & _).
    rewrite Est, Est', Et, Et', Efd, Efd', Hkn, Hkn', Ef. rewrite Et, Et' in Ep. cbn in Ep. injection Ep as -> ->. destruct (dr_grant d), (dr_grant d'); try discriminate Eg; [|done]. cbn [is_some from_option]. by injection Eg as -> ->.
  - destruct Hr as (_ & [w Hw] & _), Hr' as (_ & [w' Hw'] & _). destruct (kind_state_away d Kd Hk w Hw) as (Et & [f Ff] & Est), (kind_state_away d' (eq_sym Ek) Hk' w' Hw') as (Et' & [f' Ff'] & Est').
    rewrite Est, Est', Et, Et', Ff, Ff', Hw, Hw', Eu. rewrite Hw, Hw' in Ekk. cbn in Ekk. injection Ekk as ->. destruct (dr_grant d), (dr_grant d'); try discriminate Eg; [|done]. cbn [is_some from_option]. by injection Eg as -> ->.
Qed.

Lemma records_state_inj l : forall l' x y, Forall stateful l -> Forall stateful l' -> Forall device_fits l -> Forall device_fits l' -> Forall device_short l -> length l = length l' ->
  concat (record_state <$> l) ++ x = concat (record_state <$> l') ++ y -> device_view <$> l = device_view <$> l' /\ x = y.
Proof.
  induction l as [|d l IH]; intros [|d' l'] x y; try done. rewrite !Forall_cons. intros [Hs Hss] [Hs' Hss'] [Hf Hff] [Hf' Hff'] [Hh Hhh] [= Hl]. cbn [fmap list_fmap concat]. rewrite <- !app_assoc.
  intros [Ed E]%record_state_inj; [|done..]. apply IH in E as [El ->]; [|done..]. by rewrite Ed, El.
Qed.
Lemma records_state_view l : forall l', Forall stateful l -> Forall stateful l' -> device_view <$> l = device_view <$> l' -> concat (record_state <$> l) = concat (record_state <$> l').
Proof.
  induction l as [|d l IH]; intros [|d' l']; try done. rewrite !Forall_cons. intros [Hs Hss] [Hs' Hss']. cbn [fmap list_fmap concat]. intros E.
  apply (f_equal head) in E as Ed. apply (f_equal tail) in E as El. cbn in Ed, El. injection Ed as Ed. rewrite (record_state_view d d'), (IH l'); try done.
  unfold device_view. by f_equal.
Qed.

Lemma slots_state_inj l : forall l', (forall i s, l !! i = Some s -> is_some (es_wrap s) = negb (is_some (es_burned_at_unix s))) -> (forall i s, l' !! i = Some s -> is_some (es_wrap s) = negb (is_some (es_burned_at_unix s))) ->
  Forall (fun s => in_u 64 (default 0 (es_burned_at_unix s))) l -> Forall (fun s => in_u 64 (default 0 (es_burned_at_unix s))) l' -> length l = length l' ->
  concat (slot_state <$> l) = concat (slot_state <$> l') <-> es_burned_at_unix <$> l = es_burned_at_unix <$> l'.
Proof.
  induction l as [|s l IH]; intros [|s' l']; try done. intros Hw Hw'. rewrite !Forall_cons. intros [Hf Hff] [Hf' Hff'] [= Hl]. cbn [fmap list_fmap concat].
  pose proof (Hw 0%nat s eq_refl) as Es. pose proof (Hw' 0%nat s' eq_refl) as Es'. specialize (IH l' (fun i => Hw (S i)) (fun i => Hw' (S i)) Hff Hff' Hl). assert (Hdef : forall x, slot_state x = [bool_byte (is_some (es_wrap x))] ++ to_le_bytes 8 (default 0 (es_burned_at_unix x))) by done. rewrite !Hdef, Es, Es', <- !app_assoc. split.
  - intros E. apply app_split in E as [Eb E]; [|done]. apply app_split in E as [Et E]; [|by rewrite !length_to_le_bytes]. apply IH in E. apply le_inj in Et; [|done..]. injection Eb as Eb%bool_byte_inj. f_equal; [|done].
    destruct (es_burned_at_unix s), (es_burned_at_unix s'); cbn in *; congruence.
  - intros E. apply (f_equal head) in E as Eb. apply (f_equal tail) in E. cbn in Eb, E. injection Eb as ->. by rewrite (proj2 IH E).
Qed.

Lemma state_bytes_exact reg reg' : well_formed reg -> well_formed reg' -> registry_fits reg -> registry_fits reg' -> Forall device_short (rg_devices reg) ->
  state_bytes reg = state_bytes reg' <-> registry_view reg = registry_view reg'.
Proof.
  intros Hwf Hwf' [Hv Hd Hs] [Hv' Hd' Hs'] Hsh. pose proof (well_formed_stateful _ Hwf) as St. pose proof (well_formed_stateful _ Hwf') as St'.
  assert (Hsl : concat (slot_state <$> rg_emergency_slots reg) = concat (slot_state <$> rg_emergency_slots reg') <-> es_burned_at_unix <$> rg_emergency_slots reg = es_burned_at_unix <$> rg_emergency_slots reg').
  { apply slots_state_inj; [intros i s Hi; by apply (wf_slots _ Hwf) in Hi as [_ Hi]|intros i s Hi; by apply (wf_slots _ Hwf') in Hi as [_ Hi]|done|done|]. by rewrite (wf_ten _ Hwf), (wf_ten _ Hwf'). }
  pose proof (wf_period _ Hwf) as Hp. pose proof (wf_period _ Hwf') as Hp'. unfold MIN_AWAY_GRANT_SECONDS, MAX_AWAY_GRANT_SECONDS in Hp, Hp'.
  pose proof (wf_few _ Hwf) as Hn. pose proof (wf_few _ Hwf') as Hn'. unfold MAX_DEVICES, blen in Hn, Hn'. unfold state_bytes, registry_view. split.
  - intros E. apply app_split in E as [_ E]; [|done]. apply app_split in E as [_ E]; [|done].
    apply app_split in E as [E1 E]; [|by rewrite !length_to_le_bytes]. apply app_split in E as [E2 E]; [|by rewrite !length_to_le_bytes]. apply app_split in E as [E3 E]; [|done].
    apply app_split in E as [E4 E]; [|unfold sha256_wrap; by rewrite !sha256_len]. apply app_split in E as [E5 E]; [|unfold len_u16; by rewrite !length_to_le_bytes].
    apply le_inj in E1; [|done..]. apply le_inj in E2; [|simpl; lia..]. injection E3 as E3%bool_byte_inj. unfold len_u16, blen in E5. apply le_inj in E5; [|simpl; lia..].
    apply records_state_inj in E as [E6 E]; [|done..|lia]. apply app_split in E as [_ E]; [|done]. apply Hsl in E. by rewrite E1, E2, E3, E4, E6, E.
  - intros [= E1 E2 E3 E4 E5 E6]. rewrite E1, E2, E3, E4, (records_state_view _ _ St St' E5), (proj2 Hsl E6). unfold len_u16, len_u8, blen.
    apply (f_equal length) in E5. rewrite !length_fmap in E5. by rewrite E5, (wf_ten _ Hwf), (wf_ten _ Hwf').
Qed.

(** What the view leaves out: another text for every wrap that is present, for the sealed
    blobs of a TPM and for the credential of a security key. *)
Record Swap : Type := mkSwap {
  sw_wrap : DeviceRecord -> Wrap -> Wrap;
  sw_grant : DeviceRecord -> Wrap -> Wrap;
  sw_private : DeviceRecord -> string -> string;
  sw_public : DeviceRecord -> string -> string;
  sw_credential : DeviceRecord -> string -> string;
  sw_salt : DeviceRecord -> string -> string;
  sw_slot : EmergencySlot -> Wrap -> Wrap;
}.
Definition swap_device (sw : Swap) (d : DeviceRecord) : DeviceRecord :=
  mkDeviceRecord (dr_id d) (dr_label d) (dr_kind d) (dr_added_at_unix d) (sw_wrap sw d <$> dr_wrap d)
    ((fun g => mkGrant (gr_not_after_unix g) (gr_issued_at_unix g) (sw_grant sw d (gr_wrap g))) <$> dr_grant d)
    ((fun t => mkTpm2Params (sw_private sw d (tp_private_b64 t)) (sw_public sw d (tp_public_b64 t)) (tp_pcr_slots t) (tp_pcr_bank t)) <$> dr_tpm2 d)
    ((fun f => mkFido2Params (fd_rp_id f) (sw_credential sw d (fd_credential_id_b64 f)) (sw_salt sw d (fd_hmac_salt_b64 f)) (fd_uv_required f)) <$> dr_fido2 d)
    (dr_sign_count_last d) (dr_kek_wrap d) (dr_home_factor d) (dr_id_bytes d).
Definition swap_slot (sw : Swap) (s : EmergencySlot) : EmergencySlot := mkEmergencySlot (es_index s) (sw_slot sw s <$> es_wrap s) (es_burned_at_unix s).
Definition swapped (sw : Swap) (r : DeviceRegistryFile) : DeviceRegistryFile :=
  mkDeviceRegistryFile (rg_format_version r) (rg_esc_b64 r) (rg_away_grant_seconds r) (rg_permanent_away r) (rg_nk_wrap r) (rg_state_mac_b64 r)
    (swap_device sw <$> rg_devices r) (swap_slot sw <$> rg_emergency_slots r) (rg_esc r).

Lemma swap_device_state sw d : record_state (swap_device sw d) = record_state d.
Proof. unfold record_state, kind_state, uv_required. destruct d as [? ? [] ? [] [] [] [] ? [] ? ?]; reflexivity. Qed.
Lemma swapped_state sw r : state_bytes (swapped sw r) = state_bytes r.
Proof.
  unfold state_bytes, len_u16, len_u8, blen. cbn -[record_state slot_state app]. rewrite !length_fmap, <- !list_fmap_compose.
  rewrite (list_fmap_ext (record_state ∘ swap_device sw) record_state) by (intros; apply swap_device_state).
  rewrite (list_fmap_ext (slot_state ∘ swap_slot sw) slot_state); [done|]. intros _ [i [w|] b] _; reflexivity.
Qed.

(** C25: what the state MAC authenticates, and what it does not. Take the MAC that was made
    for one checked registry and put it into another, with no text as long as its length
    prefix can count: the other one verifies if the two agree on the format, the grant
    period, whether away devices are permanent, the digest of the wrapped node key, and
    for every device and slot on its identity, kind, label, deadlines, PCRs, counter,
    factor, the digest of its cached key, which wraps are there and whether it is burned;
    and if it verifies they do agree on all of that, or exhibit a collision of the MAC.
    That is less than every mutable field, which is what its comment says: replacing the
    wraps of devices, grants and slots, the sealed blobs of a TPM, or the credential and
    the salt of a security key changes no verdict. *)
Theorem state_mac_exact {HO : HashOps} {HL : HashLaws} (reg reg' : DeviceRegistryFile) (state_key : bytes) (path : fpath) :
  well_formed reg -> well_formed reg' -> registry_fits reg -> registry_fits reg' -> Forall device_short (rg_devices reg) ->
  b64_decode (rg_state_mac_b64 reg') = Some (state_mac state_key reg) ->
  (registry_view reg' = registry_view reg -> verify_state_mac state_key reg' path = Ok tt) /\
  (verify_state_mac state_key reg' path = Ok tt -> registry_view reg' = registry_view reg \/ exists m m', m <> m' /\ hmac_sha256 state_key m = hmac_sha256 state_key m') /\
  forall sw, verify_state_mac state_key (swapped sw reg') path = verify_state_mac state_key reg' path.
Proof.
  intros Hwf Hwf' Hf Hf' Hsh Em.
  assert (Hsw : forall sw, verify_state_mac state_key (swapped sw reg') path = verify_state_mac state_key reg' path) by (intros; unfold verify_state_mac, state_mac; by rewrite swapped_state).
  split_and!; [..|exact Hsw]; clear Hsw; unfold verify_state_mac, decode32; rewrite Em; cbn [mbind option_bind]; rewrite (proj2 (Z.eqb_eq _ _)) by apply hmac_sha256_len;
    cbn [ok_or mbind result_bind]; unfold state_mac.
  - intros Ev. rewrite bool_decide_eq_true_2; [done|]. f_equal. by apply state_bytes_exact.
  - case_bool_decide as Emac; [|done]. intros _. destruct (decide (state_bytes reg = state_bytes reg')) as [E|E]; [left; symmetry; by apply state_bytes_exact|].
    right. by exists (state_bytes reg), (state_bytes reg').
Qed.
End state.
