(* ===== verification/DeviceDurable.v ===== *)
(** * What the registry leaves on disk

    A registry that [persist] wrote is the one every later start loads, also after a crash
    ([survives]): the temporary file is synced before it takes the name, and the directory
    before the call returns.  [init_registry] draws, reads and seals before it writes
    anything, and puts the first registry there the same way. *)

From S2P Require Import Prelude Effects Primitives Types Format Crypto NodeKeys Sink Slots BucketKeys Lex Query Index Locks Posix FsView Filesystem FilesystemSpec Keystore Upload DeviceTypes Devices DeviceUnlock DeviceCheck.
Import FilesystemStorage.

(** What comes back from the file: the registry without what is not in it. *)
Definition stripped (r : DeviceRegistryFile) : DeviceRegistryFile := with_devices (with_id_bytes [] <$> rg_devices r) (with_esc [] r).

(** [serde_json] reads what it wrote. *)
Class RegistryJsonLaws {RJ : RegistryJson} : Prop := {
  registry_from_to : forall reg b, registry_to_vec reg = Ok b -> registry_from_slice b = Ok (stripped reg);
}.

Section durable.
Context {A : AeadOps} {B : Base64Ops} {R : RngOps} {HK : HkdfOps} {HO : HashOps} {T : TokenOps} {AR : Argon2Ops}.
Context {RD : RedbOps} {RJ : RegistryJson}.

(** The directories that lead to the registry are safe. *)
Definition safe_dirs (dir : list string) (st : Store) : Prop := forall d, d ∈ ancestors dir -> d ∉ fs_volatile (s_fs st).

(** [st'] is a store a crash of [st] may leave, as far as the registry goes; also [st]
    itself. *)
Definition survives (dir : list string) (st st' : Store) : Prop :=
  fs_ok (s_fs st') /\ may_read (s_fs st) (devices_path dir) (data_at (s_fs st') (devices_path dir)).

Definition settled_as (dir : list string) (b : bytes) (st : Store) : Prop := forall o, may_read (s_fs st) (devices_path dir) o -> o = Some b.

(** ** Staging, without the rules for objects *)

Record open_as (fs0 fs : Fs) (p : fpath) (i : nat) (data : bytes) (synced : bool) : Prop := mkOpenAs {
  oa_entry : fs_entries fs !! p = Some i;
  oa_inode : exists t, fs_inodes fs !! i = Some (mkInode data synced t);
  oa_volatile : fs_volatile fs = fs_volatile fs0;
}.

Lemma open_as_faults fs0 fs p i data s l : open_as fs0 fs p i data s -> open_as fs0 (with_faults l fs) p i data s.
Proof. by intros []. Qed.
Lemma open_as_write fs0 fs p i data s data' s' t : open_as fs0 fs p i data s -> open_as fs0 (set_inode i (mkInode data' s' t) fs) p i data' s'.
Proof. intros [He _ Hv]. constructor; [done| |done]. exists t. cbn. by rewrite lookup_insert_eq. Qed.

Lemma open_truncate_open fs p now : post (fs_open_truncate p now) (fun h fs' => open_as fs fs' p (fh_inode h) [] false /\ fh_pos h = 0) (fun _ _ => True) fs.
Proof.
  unfold fs_open_truncate. apply post_bind, post_sys; [|done]. intros l _. apply post_bind, post_gets. case_bool_decide; [|done]. cbn [negb].
  apply post_bind, post_gets. destruct (fs_entries (with_faults l fs) !! p) as [i|] eqn:Ei.
  - apply post_bind, post_modify, post_ret. split; [|done]. constructor; [done| |done]. exists now. cbn. by rewrite lookup_insert_eq.
  - apply post_bind, post_gets, post_bind, post_modify, post_ret. split; [|done]. constructor; [|exists now|done].
    + unfold alloc. by rewrite entry_relink, decide_True.
    + unfold alloc. cbn [relink fs_inodes fh_inode with_faults fs_next]. by rewrite lookup_insert_eq.
Qed.

Lemma write_all_open fs0 fs p h b now : open_as fs0 fs p (fh_inode h) [] false -> fh_pos h = 0 ->
  post (fs_write_all h b now) (fun h' fs' => open_as fs0 fs' p (fh_inode h') b false) (fun _ _ => True) fs.
Proof.
  intros Ho Hp. unfold fs_write_all. case_bool_decide as Hb; [by rewrite Hb; apply post_ret|].
  apply post_bind, post_sys; [|done]. intros l _. case_match; [done|]. apply post_bind, post_modify, post_ret. cbn [fh_inode]. unfold write_at.
  destruct (oa_inode _ _ _ _ _ _ Ho) as [t Ht]. cbn [with_faults fs_inodes]. rewrite Ht, Hp.
  pose proof (overwrite_end [] b) as Hw. change (blen []) with 0 in Hw. change (overwrite _ 0 b) with (overwrite [] 0 b). rewrite Hw. eapply open_as_write, open_as_faults, Ho.
Qed.

Lemma sync_data_open fs0 fs p h b s : open_as fs0 fs p (fh_inode h) b s ->
  post (fs_sync_data h) (fun _ fs' => open_as fs0 fs' p (fh_inode h) b true) (fun _ _ => True) fs.
Proof.
  intros Ho. unfold fs_sync_data. apply post_bind, post_sys; [|done]. intros l _. apply post_modify. unfold mark_synced. cbn [with_faults fs_inodes].
  destruct (oa_inode _ _ _ _ _ _ Ho) as [t Ht]. rewrite Ht. cbn [in_data in_mtime]. eapply open_as_write, open_as_faults, Ho.
Qed.

Lemma rename_open fs0 fs p q i b : open_as fs0 fs p i b true -> p <> q ->
  post (fs_rename p q) (fun _ fs' => (exists t, inode_at fs' q = Some (mkInode b true t)) /\ fs_volatile fs' = fs_volatile fs0) (fun _ _ => True) fs.
Proof.
  intros [He [t Ht] Hv] Hpq. unfold fs_rename. apply post_bind, post_sys; [|done]. intros l _. apply post_bind, post_gets. cbn [with_faults fs_entries]. rewrite He.
  apply post_bind, post_lift; [|done]. intros j [= <-]. apply post_bind, post_gets. case_bool_decide; [|done]. cbn [negb]. apply post_modify. split; [|done].
  exists t. unfold inode_at. rewrite !entry_relink, decide_False, decide_True by done. done.
Qed.

Lemma install_settled dir b st :
  post (install_registry dir b) (fun _ st' => safe_dirs dir st -> settled_as dir b st') (fun e _ => exists what, e = DeviceRegistryIo what) st.
Proof.
  unfold install_registry. apply post_bind, post_gets, post_bind, post_io. eapply post_mono; [| |apply open_truncate_open]; [|by intros; eexists]. intros h fs1 [H1 Hp].
  apply post_bind, post_io. eapply post_mono; [| |apply (write_all_open _ _ _ _ b _ H1 Hp)]; [|by intros; eexists]. intros h2 fs2 H2.
  apply post_bind, post_io. eapply post_mono; [| |apply (sync_data_open _ _ _ _ _ _ H2)]; [|by intros; eexists]. intros [] fs3 H3.
  apply post_bind, post_io. eapply post_mono; [| |apply (rename_open _ _ _ (devices_path dir) _ _ H3)]; [|by intros; eexists|done]. intros [] fs4 [[t H4] Hv].
  unfold fsync_dir. apply post_io. cbn [s_fs set_fs]. apply post_bind, post_sys; [|by intros; eexists]. intros l _. unfold fs_sync_dir. apply post_bind, post_sys; [|by intros; eexists]. intros l' _.
  apply post_modify. intros Hs o. cbn [s_fs set_fs]. apply (synced_for_good _ (devices_path dir) b t); [done|]. intros d Hd. cbn [with_faults fs_volatile]. rewrite Hv. by apply Hs.
Qed.

(** ** The registry in memory and in the file *)

(** What is not in the file agrees with it. *)
Definition cached (reg : DeviceRegistryFile) : Prop :=
  decode32 (rg_esc_b64 reg) = Some (rg_esc reg) /\ Forall (fun d => decode_hex_id (dr_id d) = Some (dr_id_bytes d)) (rg_devices reg).

Definition signed (sk : bytes) (reg : DeviceRegistryFile) : DeviceRegistryFile := with_mac (b64_encode (state_mac sk reg)) reg.
Definition authentic (sk : bytes) (reg : DeviceRegistryFile) : Prop := forall path, verify_state_mac sk reg path = Ok tt.

Lemma fill_ids_fill path l l' : l' = with_id_bytes [] <$> l \/ l' = l -> Forall (fun d => decode_hex_id (dr_id d) = Some (dr_id_bytes d)) l -> fill_ids path l' = Ok l.
Proof.
  revert l'. induction l as [|d l IH]; intros l' Hl; [intros _; by destruct Hl as [->| ->]|]. rewrite Forall_cons. intros [Hd Hf].
  destruct Hl as [-> | ->]; cbn [fmap list_fmap fill_ids with_id_bytes dr_id]; rewrite Hd; cbn [ok_or mbind result_bind]; rewrite (IH _ (or_introl eq_refl) Hf) || rewrite (IH _ (or_intror eq_refl) Hf); by destruct d.
Qed.
Lemma fill_derived_same path reg : cached reg -> fill_derived reg path = Ok reg.
Proof. intros [He Hd]. unfold fill_derived. rewrite He. cbn [ok_or mbind result_bind]. rewrite (fill_ids_fill path (rg_devices reg)); [|by right|done]. by destruct reg. Qed.
Lemma fill_derived_stripped path reg : cached reg -> fill_derived (stripped reg) path = Ok reg.
Proof. intros [He Hd]. unfold fill_derived, stripped. cbn [with_devices with_esc rg_esc_b64 rg_devices]. rewrite He. cbn [ok_or mbind result_bind]. rewrite (fill_ids_fill path (rg_devices reg)); [|by left|done]. by destruct reg. Qed.

Context {BL : Base64Laws} {HL : HashLaws} {JL : RegistryJsonLaws}.

Lemma decode32_encode b : blen b = 32 -> decode32 (b64_encode b) = Some b.
Proof. intros Hb. unfold decode32. rewrite b64_decode_encode. cbn [mbind option_bind]. by rewrite Hb. Qed.
Lemma signed_authentic sk reg : authentic sk (signed sk reg).
Proof.
  intros path. unfold verify_state_mac, signed. cbn [with_mac rg_state_mac_b64]. rewrite decode32_encode by apply hmac_sha256_len. cbn [ok_or mbind result_bind].
  by rewrite bool_decide_eq_true_2.
Qed.
Lemma signed_well_formed sk reg : well_formed reg -> well_formed (signed sk reg).
Proof. intros []. constructor; try done. unfold signed. cbn [with_mac rg_state_mac_b64]. rewrite decode32_encode by apply hmac_sha256_len. eauto. Qed.

(** A registry that was written and loaded again is the same. *)
Lemma load_written dir reg b st : registry_to_vec reg = Ok b -> cached reg -> well_formed reg -> rg_format_version reg = DEVICES_FORMAT_VERSION ->
  fs_ok (s_fs st) -> data_at (s_fs st) (devices_path dir) = Some b -> exists st', load dir st = (Ok reg, st') /\ s_fs st' = s_fs st.
Proof.
  intros Hb Hc Hwf Hv Hok Hd. exists (set_fs (s_fs st) st). split; [|done]. unfold load.
  rewrite (prog_bind_run _ _ _ b (set_fs (s_fs st) st)) by (unfold io; by rewrite (fs_read_ok _ _ _ Hok Hd)).
  rewrite (prog_bind_run _ _ _ (stripped reg) (set_fs (s_fs st) st)) by (unfold lift_res; by rewrite (registry_from_to _ _ Hb)).
  change (rg_format_version (stripped reg)) with (rg_format_version reg). rewrite Hv. cbn [Z.eqb negb]. rewrite Z.eqb_refl. cbn [negb].
  rewrite (prog_bind_run _ _ _ reg (set_fs (s_fs st) st)) by (unfold lift_res; by rewrite fill_derived_stripped).
  rewrite (prog_bind_run _ _ _ tt (set_fs (s_fs st) st)) by (unfold lift_res; by rewrite (proj2 (check_iff reg _) Hwf)). done.
Qed.

(** [persist]: the registry is signed; what was written loads as it is, also after a crash.
    A well-formed registry is refused for nothing but a failure of the disk. *)
Lemma persist_durable dir sk w : cached (dk_reg w) ->
  post (persist dir sk)
    (fun _ w' => dk_reg w' = signed sk (dk_reg w) /\ well_formed (dk_reg w') /\
       (safe_dirs dir (dk_store w) -> rg_format_version (dk_reg w) = DEVICES_FORMAT_VERSION ->
        forall st', survives dir (dk_store w') st' -> exists st'', load dir st' = (Ok (dk_reg w'), st'')))
    (fun e _ => well_formed (dk_reg w) -> exists what, e = DeviceRegistryIo what) w.
Proof.
  intros Hc. unfold persist. apply post_bind, post_gets, post_bind, post_lift; [|intros e; by rewrite fill_derived_same].
  intros reg E. rewrite fill_derived_same in E by done. injection E as <-. apply post_bind. unfold on_reg. apply post_modify. fold (signed sk (dk_reg w)).
  apply post_bind, post_lift; [|intros e He Hwf; by rewrite (proj2 (check_iff _ _) (signed_well_formed sk _ Hwf)) in He]. intros [] Hwf%check_iff.
  apply post_bind, post_lift; [|intros e He _; destruct (registry_to_vec _); [done|]; injection He as <-; eauto].
  intros b Hb. destruct (registry_to_vec _) as [b'|] eqn:Eb; [|done]. injection Hb as ->.
  unfold post, on_store, set_reg. cbn [dk_store dk_reg].
  pose proof (install_settled dir b (dk_store w)) as Hi. unfold post in Hi. destruct (install_registry dir b (dk_store w)) as [[[]|e] st]; cbn [dk_reg dk_store].
  - split; [done|]. split; [done|]. intros Hs Hv st' [Hok Hm].
    apply (Hi Hs) in Hm.
    destruct (load_written dir _ b st' Eb Hc Hwf Hv Hok Hm) as (st'' & -> & _). eauto.
  - done.
Qed.
End durable.

(** ** The first registry *)

Section init.
Context {A : AeadOps} {B : Base64Ops} {NP : Base64NoPad} {R : RngOps} {HK : HkdfOps} {HO : HashOps} {T : TokenOps} {AR : Argon2Ops}.
Context {RD : RedbOps} {RJ : RegistryJson} {KJ : KeystoreJson}.

(** ** What leaves the directories as safe as they were *)

Definition steady {E V} (m : prog Store E V) : Prop := forall st, fs_volatile (s_fs (m st).2) = fs_volatile (s_fs st).

Lemma steady_bind {E V U} (m : prog Store E V) (k : V -> prog Store E U) : steady m -> (forall x, steady (k x)) -> steady (m ≫= k).
Proof. intros Hm Hk st. unfold mbind, prog_bind. pose proof (Hm st) as E1. destruct (m st) as [[x|e] st1]; cbn in *; [|done]. by rewrite (Hk x st1). Qed.
Lemma steady_ret {E V} (x : V) : steady (E := E) (mret x).
Proof. done. Qed.
Lemma steady_throw {E V} (e : E) : steady (V := V) (throw e).
Proof. done. Qed.
Lemma steady_lift {E V} (r : result E V) : steady (lift_res r).
Proof. done. Qed.
Lemma steady_draw n : steady (draw_bytes n).
Proof. intros st. unfold draw_bytes. by destruct (fill_bytes _ _). Qed.
Lemma steady_io {E V} (f : FsError -> E) (m : fsop V) : (forall fs, fs_volatile (m fs).2 = fs_volatile fs) -> steady (io f m).
Proof. intros Hm st. unfold io. specialize (Hm (s_fs st)). by destruct (m (s_fs st)). Qed.
Lemma reads_volatile {V} (m : fsop V) fs : only_reads m -> fs_volatile (m fs).2 = fs_volatile fs.
Proof. intros Hm. by destruct (Hm fs) as (l & -> & _). Qed.
Lemma exists_volatile p fs : fs_volatile (unwrap_or_false (fs_try_exists p) fs).2 = fs_volatile fs.
Proof. pose proof (reads_volatile _ fs (fs_try_exists_reads p)) as H. unfold unwrap_or_false, match_res. by destruct (fs_try_exists p fs) as [[]]. Qed.
Lemma steady_exists p : steady (exists_ p).
Proof. apply steady_io, exists_volatile. Qed.
Lemma steady_registry_exists dir : steady (registry_exists dir).
Proof. apply steady_io, exists_volatile. Qed.
Lemma steady_read_manifest p : steady (read_manifest p).
Proof. apply steady_bind; [apply steady_io; intros fs; apply reads_volatile, fs_read_reads|intros; apply steady_lift]. Qed.
Lemma steady_keystore_call {V} (m : prog Store CryptoError V) : steady m -> steady (keystore_call m).
Proof. intros Hm st. unfold keystore_call. specialize (Hm st). by destruct (m st). Qed.

Create HintDb steady.
#[local] Hint Resolve steady_ret steady_throw steady_lift steady_draw steady_exists steady_registry_exists steady_read_manifest steady_keystore_call : steady.
Ltac steady := repeat first [solve [eauto with steady]|apply steady_bind; [|intros ?]|progress cbv zeta|case_match].

Lemma steady_verify_node_key dir nk : steady (verify_node_key dir nk).
Proof. unfold verify_node_key. steady. Qed.
Lemma steady_wrap kek secret aad : steady (wrap_secret kek secret aad).
Proof. unfold wrap_secret. steady. Qed.
Lemma steady_draw_codes n : steady (draw_codes n).
Proof. induction n; cbn [draw_codes]; steady. Qed.
#[local] Hint Resolve steady_verify_node_key steady_wrap steady_draw_codes : steady.
Lemma steady_wrap_slots l rmk esc : forall i, steady (wrap_slots i l rmk esc).
Proof. induction l; intros i; cbn [wrap_slots]; steady. Qed.
Lemma steady_first_record first id kek rmk esc now : steady (first_record first id kek rmk esc now).
Proof. unfold first_record. steady. Qed.
#[local] Hint Resolve steady_wrap_slots steady_first_record : steady.
Lemma steady_build dir first secs perm now adopt : steady (build_registry dir first secs perm now adopt).
Proof. unfold build_registry. steady. Qed.

Lemma steady_run {E V} (m : prog Store E V) st x st' : steady m -> m st = (x, st') -> fs_volatile (s_fs st') = fs_volatile (s_fs st).
Proof. intros Hm E0. specialize (Hm st). by rewrite E0 in Hm. Qed.

(** ** The new file *)

Lemma create_new_open fs p now : post (fs_create_new p now) (fun h fs' => open_as fs fs' p (fh_inode h) [] false /\ fh_pos h = 0) (fun _ _ => True) fs.
Proof.
  unfold fs_create_new. apply post_bind, post_sys; [|done]. intros l _. apply post_bind, post_gets. case_bool_decide; [|done]. cbn [negb].
  apply post_bind, post_gets. destruct (fs_entries (with_faults l fs) !! p) as [i|]; [done|].
  apply post_bind, post_gets, post_bind, post_modify, post_ret. split; [|done]. constructor; [|exists now|done].
  - unfold alloc. by rewrite entry_relink, decide_True.
  - unfold alloc. cbn [relink fs_inodes fh_inode with_faults fs_next]. by rewrite lookup_insert_eq.
Qed.

(** Nothing else is removed or made on the way. *)
Lemma remove_stale_volatile p fs : fs_volatile (match_res (fs_remove_file p) mret (fun e => match e with NoEntry => mret tt | _ => throw e end) fs).2 = fs_volatile fs.
Proof.
  unfold match_res, fs_remove_file, mbind, prog_bind, sys, gets, lift_res, modify. destruct (fs_faults fs) as [|[msg|] rest]; cbn; try done; by destruct (fs_entries fs !! p).
Qed.

Lemma create_settled dir b st : post (create_registry dir b) (fun _ st' => safe_dirs dir st -> settled_as dir b st') (fun _ _ => True) st.
Proof.
  unfold create_registry. cbv zeta. apply post_bind. unfold post at 1, io. pose proof (remove_stale_volatile (tmp_path dir) (s_fs st)) as Hv0. destruct (match_res _ _ _ (s_fs st)) as [[[]|e] fs0]; [|done]. cbn in Hv0.
  cbn [map_err]. apply post_bind, post_gets, post_bind, post_io. eapply post_mono; [| |apply create_new_open]; [|done]. intros h fs1 [H1 Hp].
  apply post_bind, post_io, post_bind. eapply post_mono; [| |apply (write_all_open _ _ _ _ b _ H1 Hp)]; [|done]. intros h2 fs2 H2.
  eapply post_mono; [| |apply (sync_data_open _ _ _ _ _ _ H2)]; [|done]. intros [] fs3 H3.
  apply post_bind. unfold post at 1, registry_exists, io. cbn [s_fs set_fs].
  assert (Hr : exists l r, unwrap_or_false (fs_try_exists (devices_path dir)) fs3 = (Ok r, with_faults l fs3)).
  { destruct (fs_try_exists_reads (devices_path dir) fs3) as (l & E & _). unfold unwrap_or_false, match_res. destruct (fs_try_exists (devices_path dir) fs3) as [[r|e] fs']; cbn in E; subst fs'; by repeat eexists. }
  destruct Hr as (l & there & ->). cbn [map_err]. destruct there.
  { apply post_bind. unfold post at 1. destruct (discard _ _) as [[[]|e] st4]; done. }
  apply post_bind, post_match, post_io. cbn [s_fs set_fs].
  eapply post_mono; [| |apply (rename_open _ _ _ (devices_path dir) _ _ (open_as_faults _ _ _ _ _ _ l H3))]; [| |done].
  2: { intros e fs' _. apply post_bind. unfold post at 1. destruct (discard _ _) as [[[]|e'] st4]; done. }
  intros [] fs4 [[t H4] Hv]. apply post_ret.
  unfold fsync_dir. apply post_io. cbn [s_fs set_fs]. apply post_bind, post_sys; [|done]. intros l1 _. unfold fs_sync_dir. apply post_bind, post_sys; [|done]. intros l' _.
  apply post_modify. intros Hs o. cbn [s_fs set_fs]. apply (synced_for_good _ (devices_path dir) b t); [done|]. intros d Hd. cbn [with_faults fs_volatile]. rewrite Hv. cbn [set_fs s_fs]. rewrite Hv0. by apply Hs.
Qed.
End init.
