(* ===== verification/DeviceKeyed.v ===== *)
(** * Every key of a registry opens

    [sound] is what the registry is for: it is checked and cached, and every wrap in it
    opens to what it is a wrap of, under the secret of its device or the code of its slot.
    The changes of registry.rs keep it. *)

From S2P Require Import Prelude Effects Primitives Types Format Crypto NodeKeys Sink Slots BucketKeys Lex Query Index Locks Posix FsView Filesystem FilesystemSpec Keystore Upload DeviceTypes Devices DeviceCheck DeviceState DeviceDurable.
Import FilesystemStorage.

Section keyed.
Context {A : AeadOps} {B : Base64Ops} {R : RngOps} {HK : HkdfOps} {HO : HashOps} {T : TokenOps} {AR : Argon2Ops}.
Context {RD : RedbOps} {RJ : RegistryJson}.

Definition opens (kek : bytes) (w : Wrap) (aad secret : bytes) : Prop := forall path, unwrap_secret kek w aad path = Ok secret.

(** What a device is opened with, by its identifier, and a slot, by its index. *)
Abbreviation secrets := (bytes -> bytes).
Abbreviation codebook := (Z -> bytes).

Record device_keyed (rmk : bytes) (sec : secrets) (esc : bytes) (secs : Z) (d : DeviceRecord) : Prop := {
  dk_secret : blen (sec (dr_id_bytes d)) = 32;
  dk_wrap : forall kek w, derive_device_kek (sec (dr_id_bytes d)) (dr_id_bytes d) = Ok kek -> dr_wrap d = Some w -> opens kek w (record_wrap_aad d esc) rmk;
  dk_grant : forall kek g, derive_device_kek (sec (dr_id_bytes d)) (dr_id_bytes d) = Ok kek -> dr_grant d = Some g ->
    opens kek (gr_wrap g) (grant_aad (dr_id_bytes d) (uv_required d) (gr_not_after_unix g) secs esc) rmk;
  dk_cache : forall kek key w, derive_device_kek (sec (dr_id_bytes d)) (dr_id_bytes d) = Ok kek -> kek_cache_key rmk = Ok key -> dr_kek_wrap d = Some w ->
    opens key w (kek_cache_aad (dr_id_bytes d) esc) kek;
}.

Record keyed (sec : secrets) (codes : codebook) (rmk nk : bytes) (reg : DeviceRegistryFile) : Prop := {
  ky_rmk : blen rmk = 32;
  ky_nk : blen nk = 32;
  ky_node : forall key, nk_wrap_key rmk = Ok key -> opens key (rg_nk_wrap reg) (nk_wrap_aad (rg_esc reg) (rg_away_grant_seconds reg)) nk;
  ky_devices : Forall (device_keyed rmk sec (rg_esc reg) (rg_away_grant_seconds reg)) (rg_devices reg);
  ky_slots : forall s w kek, s ∈ rg_emergency_slots reg -> es_wrap s = Some w -> derive_emergency_kek (codes (es_index s)) (es_index s) = Ok kek ->
    opens kek w (emergency_wrap_aad (es_index s) (rg_esc reg)) rmk;
}.

Record sound (sec : secrets) (codes : codebook) (rmk nk : bytes) (reg : DeviceRegistryFile) : Prop := {
  so_wf : well_formed reg;
  so_cached : cached reg;
  so_version : rg_format_version reg = DEVICES_FORMAT_VERSION;
  so_keyed : keyed sec codes rmk nk reg;
}.

Context {AL : AeadLaws} {BL : Base64Laws} {RL : RngLaws} {KL : HkdfLaws} {HL : HashLaws}.

Lemma hkdf32_total ikm salt info : exists k, hkdf32 ikm salt info = Ok k /\ blen k = 32.
Proof. unfold hkdf32. destruct (hkdf_expand_total salt ikm info 32) as (k & -> & Hk); [lia|]. exists k. split; [done|]. unfold blen. lia. Qed.

Lemma wrap_opens kek secret aad st : blen secret = 32 -> post (wrap_secret kek secret aad) (fun w _ => opens kek w aad secret) (fun _ _ => False) st.
Proof.
  intros Hs. unfold wrap_secret. apply post_bind. unfold post at 1, draw_bytes. pose proof (fill_bytes_len (s_rng st) 12) as Hn. destruct (fill_bytes _ _) as [nonce r]. cbn in Hn.
  destruct (aead_encrypt_total kek nonce aad secret) as [c Hc]; [by rewrite Hs|]. rewrite Hc. apply post_bind, post_lift; [|done]. intros ? [= <-]. apply post_ret. intros path.
  unfold unwrap_secret. cbn [wr_nonce_b64 wr_ct_b64]. rewrite !b64_decode_encode. cbn [ok_or mbind result_bind].
  assert (Hb : blen nonce = 12) by (unfold blen; lia). rewrite Hb, (aead_encrypt_len _ _ _ _ _ Hc), Hs. cbn [Z.eqb negb NONCE_LEN WRAP_CT_LEN Pos.eqb Z.add Pos.add].
  rewrite (aead_decrypt_encrypt _ _ _ _ _ Hc). cbn [ok_or mbind result_bind]. by rewrite Hs.
Qed.

(** ** Changes that go from device to device *)

Definition same_face (d d' : DeviceRecord) : Prop :=
  dr_id d' = dr_id d /\ dr_label d' = dr_label d /\ dr_kind d' = dr_kind d /\ dr_id_bytes d' = dr_id_bytes d /\ kind_ok d' = kind_ok d.

Definition sealed_ok (reg : DeviceRegistryFile) (d : DeviceRecord) : Prop := rg_permanent_away reg = true -> dr_kind d = Fido2 -> is_Some (dr_wrap d) /\ dr_grant d = None.

(** [d'] may take the place of [d]. *)
Record may_replace (rmk : bytes) (sec : secrets) (reg : DeviceRegistryFile) (d d' : DeviceRecord) : Prop := {
  mr_face : same_face d d';
  mr_role : role_ok reg d';
  mr_sealed : sealed_ok reg d';
  mr_keyed : device_keyed rmk sec (rg_esc reg) (rg_away_grant_seconds reg) d';
}.

Lemma Forall2_face_fmap {V} (f : DeviceRecord -> V) l l' : (forall d d', same_face d d' -> f d' = f d) -> Forall2 same_face l l' -> f <$> l' = f <$> l.
Proof. intros Hf. induction 1 as [|d d' l l' Hd _ IH]; cbn; [done|]. by rewrite IH, (Hf _ _ Hd). Qed.
Lemma home_count_face l l' : Forall2 same_face l l' -> length (filter (fun d => dr_kind d = Tpm2) l') = length (filter (fun d => dr_kind d = Tpm2) l).
Proof.
  induction 1 as [|d d' l l' (_ & _ & Hk & _) _ IH]; [done|]. rewrite !filter_cons. destruct (decide (dr_kind d = Tpm2)), (decide (dr_kind d' = Tpm2)); cbn; congruence.
Qed.
Lemma factor_ok_face l l' f : Forall2 same_face l l' -> factor_ok l f -> factor_ok l' f.
Proof.
  intros Hl. destruct f as [s m t p|id]; [done|]. intros (r & [i Hi]%list_elem_of_lookup & Hid & Hk). destruct (Forall2_lookup_l _ _ _ _ _ Hl Hi) as (r' & Hi' & Ha & _ & Hb & _).
  exists r'. split; [by eapply list_elem_of_lookup_2|]. by rewrite Ha, Hb.
Qed.

Lemma well_formed_replace reg l' : well_formed reg -> Forall2 same_face (rg_devices reg) l' -> Forall (role_ok reg) l' -> Forall (sealed_ok reg) l' -> well_formed (with_devices l' reg).
Proof.
  intros [He Hm Hp Ht Hs Hf Hr Hlab Hid Ho Hpa Hw] Hface Hro Hse. pose proof (Forall2_length _ _ _ Hface) as Hlen.
  assert (Hhc : home_count (with_devices l' reg) = home_count reg) by (unfold home_count; by apply home_count_face).
  constructor; try done; cbn [with_devices rg_devices rg_permanent_away].
  - unfold blen in *. by rewrite <- Hlen.
  - rewrite Forall_forall. intros d' [i Hi]%list_elem_of_lookup. destruct (Forall2_lookup_r _ _ _ _ _ Hface Hi) as (d & Hd & E1 & E2 & E3 & E4 & E5).
    rewrite Forall_lookup in Hr. destruct (Hr i d Hd) as (H1 & H2 & H3). unfold record_ok. by rewrite E1, E2, E4, E5.
  - rewrite (Forall2_face_fmap (fun d => lower_label (dr_label d)) (rg_devices reg) l'); [done| |done]. by intros d d' (_ & -> & _).
  - rewrite (Forall2_face_fmap dr_id (rg_devices reg) l'); [done| |done]. by intros d d' (-> & _).
  - eapply Forall_impl; [exact Hro|]. intros d. unfold role_ok. rewrite Hhc. cbn [with_devices rg_devices rg_permanent_away]. destruct (dr_kind d); [|done].
    intros (? & ? & ? & ? & Hfa). split_and!; try done. intros f Hdf. eapply factor_ok_face; eauto.
  - rewrite Hpa, Hhc. f_equal. f_equal. apply bool_decide_ext. destruct (rg_devices reg), l'; done.
  - intros E. eapply Forall_impl; [exact Hse|]. intros d Hd. by apply Hd.
Qed.

Lemma keyed_devices reg d sec codes rmk nk : sound sec codes rmk nk reg -> d ∈ rg_devices reg -> device_keyed rmk sec (rg_esc reg) (rg_away_grant_seconds reg) d.
Proof. intros [_ _ _ [_ _ _ Hd _]]. rewrite Forall_forall in Hd. apply Hd. Qed.

Lemma replace_self reg d sec codes rmk nk : sound sec codes rmk nk reg -> d ∈ rg_devices reg -> may_replace rmk sec reg d d.
Proof.
  intros Hs Hd. pose proof (so_wf _ _ _ _ _ Hs) as Hwf. pose proof (wf_roles _ Hwf) as Hr. rewrite Forall_forall in Hr. constructor; [done|by apply Hr| |by eapply keyed_devices].
  intros E. pose proof (wf_wraps _ Hwf E) as Hw. rewrite Forall_forall in Hw. by apply Hw.
Qed.

Lemma sound_replace sec sec' codes rmk nk reg l' : sound sec codes rmk nk reg -> Forall2 (may_replace rmk sec' reg) (rg_devices reg) l' -> sound sec' codes rmk nk (with_devices l' reg).
Proof.
  intros [Hwf [He Hc] Hv [H1 H2 H3 H4 H5]] Hl. assert (Hface : Forall2 same_face (rg_devices reg) l') by (eapply Forall2_impl; [exact Hl|]; by intros ? ? []).
  assert (Hr : forall P : DeviceRecord -> Prop, (forall d d', may_replace rmk sec' reg d d' -> P d') -> Forall P l').
  { intros P HP. rewrite Forall_lookup. intros i d' Hi. destruct (Forall2_lookup_r _ _ _ _ _ Hl Hi) as (d & _ & Hd). eauto. }
  constructor; [| |done|].
  - apply well_formed_replace; [done|done|apply Hr; by intros ? ? []..].
  - split; [done|]. cbn [with_devices rg_devices]. rewrite Forall_lookup in *. intros i d' Hi. destruct (Forall2_lookup_r _ _ _ _ _ Hface Hi) as (d & Hd & -> & _ & _ & -> & _). by eapply Hc.
  - constructor; try done. cbn [with_devices rg_devices rg_esc rg_away_grant_seconds]. apply Hr. by intros ? ? [].
Qed.

Lemma Forall2_map_self {V} (P : V -> V -> Prop) (f : V -> V) l : (forall d, d ∈ l -> P d (f d)) -> Forall2 P l (f <$> l).
Proof. intros Hf. rewrite Forall2_fmap_r. apply Forall_Forall2_diag, Forall_forall. exact Hf. Qed.

Lemma sound_map sec codes rmk nk reg f : sound sec codes rmk nk reg -> (forall d, d ∈ rg_devices reg -> may_replace rmk sec reg d (f d)) -> sound sec codes rmk nk (with_devices (f <$> rg_devices reg) reg).
Proof. intros Hs Hf. eapply sound_replace; [done|]. by apply Forall2_map_self. Qed.

(** One device changes, and its secret perhaps. *)
Lemma sound_alter sec sec' codes rmk nk reg i f d : sound sec codes rmk nk reg -> rg_devices reg !! i = Some d -> may_replace rmk sec' reg d (f d) ->
  (forall b, b <> dr_id_bytes d -> sec' b = sec b) -> sound sec' codes rmk nk (with_devices (alter f i (rg_devices reg)) reg).
Proof.
  intros Hs Hi Hf Hsec. eapply sound_replace; [done|]. apply Forall2_same_length_lookup. split; [by rewrite length_alter|]. intros j x y Hx Hy. destruct (decide (i = j)) as [<-|Hij].
  - rewrite list_lookup_alter in Hy by done. rewrite decide_True in Hy by done. rewrite Hi in *. cbn in Hy. by simplify_eq.
  - rewrite list_lookup_alter_ne in Hy by done. rewrite Hx in Hy. injection Hy as <-. destruct (replace_self _ x _ _ _ _ Hs) as [H1 H2 H3 [K1 K2 K3 K4]]; [by eapply list_elem_of_lookup_2|].
    assert (Hne : sec' (dr_id_bytes x) = sec (dr_id_bytes x)).
    { apply Hsec. intros E. destruct (so_cached _ _ _ _ _ Hs) as [_ Hc]. rewrite Forall_lookup in Hc. pose proof (Hc _ _ Hx) as Ex. pose proof (Hc _ _ Hi) as Ei. rewrite E in Ex.
      pose proof (decode_hex_id_inj _ _ _ Ex Ei) as Eid. apply Hij. eapply (NoDup_lookup (dr_id <$> rg_devices reg)); [apply wf_ids, (so_wf _ _ _ _ _ Hs)|rewrite list_lookup_fmap, Hi; done|rewrite list_lookup_fmap, Hx; cbn; by rewrite Eid]. }
    constructor; try done. constructor; rewrite Hne; done.
Qed.
End keyed.
