(* ===== verification/DeviceChanges.v ===== *)
(** * What the changes of the registry keep

    Sweeping and minting grants, new devices and removed ones, the grant period, second
    factors and resealing: each takes a sound registry to a sound one, and only those that
    are about a device's secret change what it opens with. *)

From S2P Require Import Prelude Effects Primitives Types Format Crypto NodeKeys Sink Slots BucketKeys Lex Query Index Locks Posix FsView Filesystem FilesystemSpec Keystore Upload DeviceTypes Devices DeviceCheck DeviceState DeviceDurable DeviceKeyed DeviceUnlock.
Import FilesystemStorage.

Section changes.
Context {A : AeadOps} {B : Base64Ops} {R : RngOps} {HK : HkdfOps} {HO : HashOps} {T : TokenOps} {AR : Argon2Ops}.
Context {RD : RedbOps} {RJ : RegistryJson}.
Context {AL : AeadLaws} {BL : Base64Laws} {RL : RngLaws} {KL : HkdfLaws} {HL : HashLaws}.
Abbreviation secrets := (bytes -> bytes).
Abbreviation codebook := (Z -> bytes).
Abbreviation dev := (prog Desk DeviceError).

Lemma post_on_store {V} (m : prog Store DeviceError V) (P : V -> Desk -> Prop) (Q : DeviceError -> Desk -> Prop) w :
  post m (fun x st => P x (mkDesk (dk_reg w) st)) (fun e st => Q e (mkDesk (dk_reg w) st)) (dk_store w) -> post (on_store m) P Q w.
Proof. unfold post, on_store. by destruct (m (dk_store w)) as [[] ?]. Qed.
Lemma post_on_reg f (P : unit -> Desk -> Prop) (Q : DeviceError -> Desk -> Prop) w : P tt (mkDesk (f (dk_reg w)) (dk_store w)) -> post (on_reg f) P Q w.
Proof. unfold on_reg, set_reg. by intros; apply post_modify. Qed.

(** ** Grants *)

Lemma replace_ungranted sec codes rmk nk reg d : sound sec codes rmk nk reg -> d ∈ rg_devices reg -> may_replace rmk sec reg d (with_grant None d).
Proof.
  intros Hs Hd. destruct (replace_self _ d _ _ _ _ Hs Hd) as [H1 H2 H3 [K1 K2 K3 K4]]. constructor.
  - done.
  - unfold role_ok in *. cbn [with_grant dr_kind dr_wrap dr_grant dr_sign_count_last dr_kek_wrap dr_home_factor]. destruct (dr_kind d); [naive_solver|].
    destruct H2 as (? & ? & ? & Hw & _). split_and!; try done; intros Hi; by destruct (Hw Hi).
  - intros E1 E2. destruct (H3 E1 E2). done.
  - by constructor.
Qed.

Lemma sweep_sound sec codes rmk nk now w : sound sec codes rmk nk (dk_reg w) ->
  post (sweep_grants now) (fun n w' => sound sec codes rmk nk (dk_reg w') /\ dk_store w' = dk_store w /\ dk_reg w' = with_devices (sweep_devices now (rg_devices (dk_reg w))) (dk_reg w) /\
    (n = 0%nat -> dk_reg w' = dk_reg w)) (fun _ _ => False) w.
Proof.
  intros Hs. unfold sweep_grants. apply post_bind, post_gets, post_bind, post_on_reg, post_ret. cbn [dk_reg dk_store]. split_and!; [|done|done|].
  - apply sound_map; [done|]. intros d Hd. destruct (expired now d); [by eapply replace_ungranted|by eapply replace_self].
  - intros Hn. assert (E : sweep_devices now (rg_devices (dk_reg w)) = rg_devices (dk_reg w)); [|rewrite E; by destruct (dk_reg w)].
    unfold sweep_devices. revert Hn. generalize (rg_devices (dk_reg w)). intros l. induction l as [|d l IH]; cbn [fmap list_fmap]; [done|]. rewrite filter_cons.
    destruct (decide (expired now d = true)) as [E|E]; [done|]. intros Hn. apply not_true_iff_false in E. by rewrite E, IH.
Qed.

(** [d'] is [d] with the grant a home unlock at [now] gives it, when it takes one. *)
Definition takes_grant (d : DeviceRecord) : Prop := dr_kind d = Fido2 /\ dr_wrap d = None.
Definition renewed (now not_after : Z) (d d' : DeviceRecord) : Prop :=
  (takes_grant d -> exists g, d' = with_grant (Some g) d /\ gr_not_after_unix g = not_after /\ gr_issued_at_unix g = now) /\ (~ takes_grant d -> d' = d).

Lemma mint_loop_spec (mint : DeviceRecord -> dev (option Grant)) (Rel : DeviceRecord -> DeviceRecord -> Prop) todo : forall done i n w,
  (forall d w, d ∈ todo -> post (mint d) (fun g w' => dk_reg w' = dk_reg w /\ Rel d (from_option (fun g => with_grant (Some g) d) d g)) (fun _ _ => False) w) ->
  rg_devices (dk_reg w) = done ++ todo -> length done = i ->
  post (mint_loop mint i todo n) (fun m w' => (n <= m)%nat /\ exists l', dk_reg w' = with_devices (done ++ l') (dk_reg w) /\ Forall2 Rel todo l' /\ (m = n -> l' = todo)) (fun _ _ => False) w.
Proof.
  induction todo as [|d todo IH]; intros dn i n w Hm Hl Hi; cbn [mint_loop].
  { apply post_ret. split; [lia|]. exists []. split_and!; try done. rewrite <- Hl. by destruct (dk_reg w). }
  apply post_bind. eapply post_mono; [| |apply (Hm d w); by left]; [|done]. intros g w1 [E1 Hrel].
  assert (Hm' : forall d w, d ∈ todo -> post (mint d) (fun g w' => dk_reg w' = dk_reg w /\ Rel d (from_option (fun g => with_grant (Some g) d) d g)) (fun _ _ => False) w) by (intros; apply Hm; by right).
  destruct g as [g|]; cbn [from_option] in Hrel.
  - apply post_bind. unfold update_device. apply post_on_reg. rewrite E1, Hl. rewrite <- Hi, <- (Nat.add_0_r (length dn)), alter_app_r. cbn [alter list_alter].
    eapply post_mono; [| |apply (IH (dn ++ [with_grant (Some g) d]) (S (length dn + 0)) (S n)); [done| |rewrite length_app; cbn; lia]]; cbn [dk_reg with_devices rg_devices]; [|done|by rewrite <- app_assoc].
    intros m w2 (Hle & l' & E2 & HF & _). split; [lia|]. exists (with_grant (Some g) d :: l'). rewrite E2, <- app_assoc. split_and!; [done|by constructor|lia].
  - eapply post_mono; [| |apply (IH (dn ++ [d]) (S i) n); [done|by rewrite E1, Hl, <- app_assoc|rewrite length_app; cbn; lia]]; [|done].
    intros m w2 (Hle & l' & E2 & HF & Hz). split; [lia|]. exists (d :: l'). rewrite E2, E1, <- app_assoc. split_and!; [done|by constructor|]. intros E. by rewrite (Hz E).
Qed.

Lemma mint_one_spec sec codes rmk nk reg key now na path d w : sound sec codes rmk nk reg -> rg_permanent_away reg = false -> kek_cache_key rmk = Ok key -> d ∈ rg_devices reg ->
  post (mint_one key rmk (rg_esc reg) (rg_away_grant_seconds reg) now na path d)
    (fun g w' => dk_reg w' = dk_reg w /\ (fun d d' => may_replace rmk sec reg d d' /\ renewed now na d d') d (from_option (fun g => with_grant (Some g) d) d g)) (fun _ _ => False) w.
Proof.
  intros Hs Hpa Hk Hd. pose proof (replace_self _ d _ _ _ _ Hs Hd) as Hself. destruct Hself as [H1 H2 H3 K]. pose proof K as [K1 K2 K3 K4]. unfold mint_one.
  case_bool_decide as Ek; cbn [negb orb]; cycle 1. { apply post_ret. cbn. split; [done|]. split; [done|]. split; [by intros []|done]. }
  destruct (dr_wrap d) as [w0|] eqn:Ew; cbn [is_some]. { apply post_ret. cbn. split; [done|]. split; [by rewrite <- Ew in K2|]. split; [intros []; congruence|done]. }
  unfold role_ok in H2. rewrite Ek in H2. destruct H2 as (Hhf & Hsc & [kw Ekw] & Hw & _). rewrite Ekw.
  destruct (hkdf32_total (sec (dr_id_bytes d)) (as_bytes "y2q/v1/device-kek") (dr_id_bytes d)) as (kek & Ekek & _). fold (derive_device_kek (sec (dr_id_bytes d)) (dr_id_bytes d)) in Ekek.
  rewrite (K4 _ _ _ Ekek Hk Ekw path). apply post_bind, post_on_store. pose proof (ky_rmk _ _ _ _ _ (so_keyed _ _ _ _ _ Hs)) as Hrmk.
  eapply post_mono; [| |apply (wrap_opens kek rmk _ _ Hrmk)]; [|done]. intros wr st Hop. apply post_ret. cbn [dk_reg from_option]. split; [done|]. split.
  - constructor.
    + done.
    + unfold role_ok. cbn [with_grant dr_kind dr_wrap dr_grant dr_sign_count_last dr_kek_wrap dr_home_factor]. rewrite Ek. split; [done|]. split; [done|]. split; [by exists kw|]. split; [intros Hi; rewrite Ew in Hi; by destruct Hi|]. intros _.
      pose proof (wf_permanent _ (so_wf _ _ _ _ _ Hs)) as Hp. rewrite Hpa in Hp. rewrite bool_decide_eq_false_2 in Hp by (intros E; rewrite E in Hd; by apply not_elem_of_nil in Hd). cbn in Hp. by apply eq_sym, Nat.eqb_neq in Hp.
    + intros E. congruence.
    + constructor; [done|intros ? ? _ E; cbn in E; congruence| |done]. intros kek' g' Ekek' [= <-]. cbn [with_grant dr_id_bytes] in Ekek'. rewrite Ekek in Ekek'. injection Ekek' as <-. exact Hop.
  - split; [|intros Hn; by destruct Hn]. intros _. by eexists.
Qed.

Lemma mint_sound sec codes rmk nk now path w : sound sec codes rmk nk (dk_reg w) ->
  post (mint_grants rmk now path) (fun n w' => sound sec codes rmk nk (dk_reg w') /\
    exists l', dk_reg w' = with_devices l' (dk_reg w) /\ Forall2 (renewed now (saturating_add_u64 now (rg_away_grant_seconds (dk_reg w)))) (rg_devices (dk_reg w)) l' /\
      (n = 0%nat -> dk_reg w' = dk_reg w)) (fun _ _ => False) w.
Proof.
  intros Hs. assert (Hsame : forall l, l = rg_devices (dk_reg w) -> with_devices l (dk_reg w) = dk_reg w) by (intros l ->; by destruct (dk_reg w)).
  unfold mint_grants. apply post_bind, post_gets. destruct (rg_permanent_away (dk_reg w)) eqn:Hpa.
  - apply post_ret. split; [done|]. exists (rg_devices (dk_reg w)). split; [by rewrite Hsame|]. split; [|done]. apply Forall_Forall2_diag, Forall_forall. intros d Hd. split; [|done].
    intros [Hk Hw]. pose proof (wf_wraps _ (so_wf _ _ _ _ _ Hs) Hpa) as Hww. rewrite Forall_forall in Hww. destruct (Hww d Hd Hk) as [[] _]. congruence.
  - destruct (hkdf32_total rmk (as_bytes "y2q/v1/kek-cache-key") []) as (key & Ekey & _). fold (kek_cache_key rmk) in Ekey. apply post_bind, post_lift; [|intros e; by rewrite Ekey].
    intros key' E. rewrite Ekey in E. injection E as <-. eapply post_mono; [| |apply (mint_loop_spec _ (fun d d' => may_replace rmk sec (dk_reg w) d d' /\ renewed now (saturating_add_u64 now (rg_away_grant_seconds (dk_reg w))) d d') (rg_devices (dk_reg w)) [] 0 0 w); [|done|done]]; [|done|].
    + intros n w' (_ & l' & -> & HF & Hz). cbn [app] in *. split; [eapply sound_replace; [done|]; eapply Forall2_impl; [exact HF|]; by intros ? ? []|].
      exists l'. split; [done|]. split; [eapply Forall2_impl; [exact HF|]; by intros ? ? []|]. intros E. by rewrite Hsame by auto.
    + intros d w1 Hd. by eapply mint_one_spec.
Qed.

(** ** The grant period *)

Lemma rewrap_sound sec codes rmk nk nk' reg seconds w key : sound sec codes rmk nk reg -> blen nk' = 32 -> MIN_AWAY_GRANT_SECONDS <= seconds <= MAX_AWAY_GRANT_SECONDS ->
  (seconds = rg_away_grant_seconds reg \/ Forall (fun d => dr_grant d = None) (rg_devices reg)) ->
  nk_wrap_key rmk = Ok key -> opens key w (nk_wrap_aad (rg_esc reg) seconds) nk' -> sound sec codes rmk nk' (with_nk_wrap seconds w reg).
Proof.
  intros [[] Hc Hv [H1 H2 H3 H4 H5]] Hnk Hsec Hno Hk Hop. constructor; [by constructor|done|done|]. constructor; try done; cbn [with_nk_wrap rg_nk_wrap rg_esc rg_away_grant_seconds rg_devices].
  - intros key' E. rewrite Hk in E. by injection E as <-.
  - destruct Hno as [->|Hno]; [done|]. rewrite Forall_forall in *. intros d Hd. destruct (H4 d Hd). constructor; try done. intros kek g _ E. rewrite (Hno d Hd) in E. done.
Qed.

Lemma drop_grants_sound sec codes rmk nk reg : sound sec codes rmk nk reg -> sound sec codes rmk nk (with_devices (drop_grants (rg_devices reg)) reg).
Proof. intros Hs. apply sound_map; [done|]. intros d. by eapply replace_ungranted. Qed.
Lemma drop_grants_none l : Forall (fun d => dr_grant d = None) (drop_grants l).
Proof. unfold drop_grants. by apply Forall_fmap, Forall_true. Qed.

Lemma nk_key_total rmk : exists key, nk_wrap_key rmk = Ok key.
Proof. destruct (hkdf32_total rmk (as_bytes "y2q/v1/nk-wrap-key") []) as (key & E & _). by exists key. Qed.

Lemma mint_if_time sec codes rmk nk (time : result DeviceError Z) path w : sound sec codes rmk nk (dk_reg w) ->
  post (match time with Ok now => _ ← mint_grants rmk now path; mret tt | Err _ => mret tt end) (fun _ w' => sound sec codes rmk nk (dk_reg w')) (fun _ _ => False) w.
Proof.
  intros Hs. destruct time as [now|e]; [|by apply post_ret]. apply post_bind. eapply post_mono; [| |by apply (mint_sound sec codes rmk nk)]; [|done]. intros n w' [H _]. by apply post_ret.
Qed.

Lemma period_sound sec codes rmk nk dir seconds a time w : sound sec codes rmk nk (dk_reg w) ->
  post (set_grant_period dir seconds nk rmk a time) (fun _ w' => sound sec codes rmk nk (dk_reg w')) (fun _ _ => True) w.
Proof.
  intros Hs. unfold set_grant_period. apply post_bind, post_guard; [|done]. intros Hp%negb_false_iff%andb_true_iff. destruct Hp as [Hp1%Z.leb_le Hp2%Z.leb_le].
  apply post_bind, post_gets, post_bind, post_lift; [|done]. intros [] _. apply post_bind, post_on_reg. destruct (nk_key_total rmk) as [key Ekey].
  apply post_bind, post_lift; [|done]. intros key' E. rewrite Ekey in E. injection E as <-. apply post_bind, post_on_store. cbn [dk_store dk_reg].
  pose proof (so_keyed _ _ _ _ _ Hs) as [_ Hnk _ _ _]. eapply post_mono; [| |apply (wrap_opens key nk _ _ Hnk)]; [|done]. intros wr st Hop.
  apply post_bind, post_on_reg, post_bind, post_on_reg. cbn [dk_reg dk_store with_nk_wrap rg_devices].
  assert (Hsound : sound sec codes rmk nk (with_devices (drop_grants (rg_devices (dk_reg w))) (with_nk_wrap seconds wr (dk_reg w)))).
  { eapply (rewrap_sound sec codes rmk nk nk (with_devices (drop_grants (rg_devices (dk_reg w))) (dk_reg w)) seconds wr key); try done; [by apply drop_grants_sound|].
    right. apply drop_grants_none. }
  destruct (is_home a); [|by apply post_ret]. eapply post_mono; [| |eapply (mint_if_time sec codes rmk nk time); exact Hsound]; done.
Qed.

(** ** Counters and codes *)

Lemma sign_count_sound sec codes rmk nk reg i d c : sound sec codes rmk nk reg -> rg_devices reg !! i = Some d -> dr_kind d = Fido2 ->
  sound sec codes rmk nk (with_devices (alter (with_sign_count (Some c)) i (rg_devices reg)) reg).
Proof.
  intros Hs Hi Hk. eapply sound_alter; [done|done| |done]. destruct (replace_self _ d _ _ _ _ Hs) as [H1 H2 H3 []]; [by eapply list_elem_of_lookup_2|]. constructor; [done| |done|by constructor].
  unfold role_ok in *. cbn [with_sign_count dr_kind dr_wrap dr_grant dr_sign_count_last dr_kek_wrap dr_home_factor]. rewrite Hk in *. destruct H2 as (? & _ & ?). split_and!; try done; naive_solver.
Qed.

Lemma burn_sound sec codes rmk nk reg pos now : sound sec codes rmk nk reg -> sound sec codes rmk nk (burn_slot pos now reg).
Proof.
  assert (Hl : forall i s, alter (burn now) pos (rg_emergency_slots reg) !! i = Some s -> rg_emergency_slots reg !! i = Some s \/ exists s0, rg_emergency_slots reg !! i = Some s0 /\ s = burn now s0).
  { intros i s. destruct (decide (pos = i)) as [<-|Hne]; [rewrite list_lookup_alter, decide_True by done|rewrite list_lookup_alter_ne by done; by left]. destruct (rg_emergency_slots reg !! pos) as [s0|]; [|done]. cbn. intros [= <-]. right. eauto. }
  intros [[] Hc Hv [H1 H2 H3 H4 H5]]. constructor; [|done|done|].
  - constructor; try done; cbn [burn_slot with_slots rg_emergency_slots]; [by rewrite length_alter|]. intros i s [Hi|(s0 & Hi & ->)]%Hl; [by apply wf_slots|]. by destruct (wf_slots _ _ Hi).
  - constructor; try done. cbn [burn_slot with_slots rg_emergency_slots rg_esc]. intros s w kek [i [Hi|(s0 & Hi & ->)]%Hl]%list_elem_of_lookup; [|done]. apply H5. by eapply list_elem_of_lookup_2.
Qed.
End changes.
