(* ===== verification/DeviceRoster.v ===== *)
(** * Devices come and go

    Second factors and resealing change what one home device opens with; enrolling adds a
    device and removing takes one away.  The registry stays sound, whichever kind of device
    it is and whether or not a home device is left. *)

From S2P Require Import Prelude Effects Primitives Types Format Crypto NodeKeys Sink Slots BucketKeys Lex Query Index Locks Posix FsView Filesystem FilesystemSpec Keystore Upload DeviceTypes Devices DeviceCheck DeviceState DeviceDurable DeviceKeyed DeviceUnlock DeviceChanges.
Import FilesystemStorage.

Section roster.
Context {A : AeadOps} {B : Base64Ops} {R : RngOps} {HK : HkdfOps} {HO : HashOps} {T : TokenOps} {AR : Argon2Ops}.
Context {RD : RedbOps} {RJ : RegistryJson}.
Context {AL : AeadLaws} {BL : Base64Laws} {RL : RngLaws} {KL : HkdfLaws} {HL : HashLaws}.
Abbreviation secrets := (bytes -> bytes).
Abbreviation codebook := (Z -> bytes).
Abbreviation dev := (prog Desk DeviceError).

(** The secret of one device is [s] now. *)
Definition upd (sec : secrets) (id s : bytes) : secrets := fun b => if bool_decide (b = id) then s else sec b.
Lemma upd_same sec id s : upd sec id s id = s.
Proof. unfold upd. by rewrite bool_decide_eq_true_2. Qed.
Lemma upd_other sec id s b : b <> id -> upd sec id s b = sec b.
Proof. intros. unfold upd. by rewrite bool_decide_eq_false_2. Qed.

(** ** Finding a device *)

Lemma positions_lookup p l i : i ∈ positions p l -> exists d, l !! i = Some d /\ p d = true.
Proof.
  unfold positions. intros ([j d] & -> & [Hp Hin]%list_elem_of_filter)%list_elem_of_fmap. apply elem_of_lookup_imap in Hin as (k & y & [= -> ->] & Hk). eauto.
Qed.
Lemma resolve_lookup reg sel i : resolve_selector reg sel = Ok i -> exists d, rg_devices reg !! i = Some d.
Proof.
  unfold resolve_selector. destruct (positions _ (rg_devices reg)) as [|j l] eqn:Ep.
  - destruct (positions (fun d => bool_decide (lower_label _ = _)) _) as [|k [|? ?]] eqn:Eq; try done. intros [= ->].
    destruct (positions_lookup (fun d => bool_decide (lower_label (dr_label d) = lower_label sel)) (rg_devices reg) i) as (d & Hd & _); [rewrite Eq; by left|eauto].
  - intros [= ->]. destruct (positions_lookup (fun d => bool_decide (dr_id d = sel)) (rg_devices reg) i) as (d & Hd & _); [rewrite Ep; by left|eauto].
Qed.
Lemma total_lookup (l : list DeviceRecord) i d : l !! i = Some d -> l !!! i = d.
Proof. apply list_lookup_total_correct. Qed.

(** ** Second factors *)

(** What a home device opens with once [factor] is set. *)
Definition factor_secret (tpm_secret id : bytes) (factor : option NewHomeFactor) : result DeviceError bytes :=
  match factor with None => Ok tpm_secret | Some nf => combine_home_secret tpm_secret (nf_secret nf) id end.

Lemma combine_len a b id s : combine_home_secret a b id = Ok s -> blen s = 32.
Proof. unfold combine_home_secret. destruct (hkdf32_total (a ++ b) HOME_FACTOR_SALT id) as (k & -> & Hk). by intros [= <-]. Qed.
Lemma secret32_Ok label s : secret32 label s = Ok tt -> blen s = 32.
Proof. unfold secret32. destruct (Z.eqb_spec (blen s) 32); done. Qed.

(** A home record with a wrap that opens under a new secret. *)
Lemma replace_rewrapped sec codes rmk nk reg d factor secret kek w tpm : sound sec codes rmk nk reg -> d ∈ rg_devices reg -> dr_kind d = Tpm2 -> is_Some (dr_tpm2 d) ->
  (forall f, factor = Some f -> factor_ok (rg_devices reg) f) -> blen secret = 32 -> derive_device_kek secret (dr_id_bytes d) = Ok kek ->
  opens kek w (device_wrap_aad_raw (dr_id_bytes d) Tpm2 (factor_byte factor) (rg_esc reg)) rmk ->
  let d' := with_factor factor (with_wrap (Some w) d) in
  may_replace rmk (upd sec (dr_id_bytes d) secret) reg d d' /\ may_replace rmk (upd sec (dr_id_bytes d) secret) reg d (with_tpm2 tpm d').
Proof.
  intros Hs Hd Hk Ht Hf Hlen Hkek Hop d'. destruct (replace_self _ d _ _ _ _ Hs Hd) as [H1 H2 H3 _]. unfold role_ok in H2. rewrite Hk in H2. destruct H2 as (_ & Hg & Hc & Hw & _).
  assert (Hkey : forall x, dr_id_bytes x = dr_id_bytes d -> dr_wrap x = Some w -> dr_kind x = Tpm2 -> dr_home_factor x = factor -> dr_grant x = None -> dr_kek_wrap x = None ->
    device_keyed rmk (upd sec (dr_id_bytes d) secret) (rg_esc reg) (rg_away_grant_seconds reg) x).
  { intros x Eid Ew Ek Ef Eg Ekw. constructor; rewrite ?Eid, ?upd_same; [done| | |].
    - intros kek' w' E E'. rewrite Hkek in E. injection E as <-. rewrite Ew in E'. injection E' as <-. unfold record_wrap_aad. by rewrite Ek, Ef, Eid.
    - intros kek' g _ E. congruence.
    - intros kek' key w' _ _ E. congruence. }
  split; (constructor; [| |intros _ E; cbn in E; congruence|by apply Hkey]).
  - done.
  - unfold role_ok. cbn. rewrite Hk. split_and!; done || eauto.
  - split_and!; try done. unfold kind_ok. cbn. rewrite Hk. destruct Ht as [t ->]. done.
  - unfold role_ok. cbn. rewrite Hk. split_and!; done || eauto.
Qed.

Lemma tpm2_of_home sec codes rmk nk reg d : sound sec codes rmk nk reg -> d ∈ rg_devices reg -> dr_kind d = Tpm2 -> is_Some (dr_tpm2 d).
Proof.
  intros Hs Hd Hk. pose proof (wf_records _ (so_wf _ _ _ _ _ Hs)) as Hr. rewrite Forall_forall in Hr. destruct (Hr d Hd) as (_ & _ & Hok). unfold kind_ok in Hok. rewrite Hk in Hok.
  apply andb_true_iff in Hok as [Hok _]. by apply is_some_spec.
Qed.

Lemma factor_sound sec codes rmk nk home factor tpm_secret a w : sound sec codes rmk nk (dk_reg w) ->
  post (set_home_factor home factor tpm_secret rmk a)
    (fun _ w' => exists i d secret, resolve_selector (dk_reg w) home = Ok i /\ rg_devices (dk_reg w) !! i = Some d /\ factor_secret tpm_secret (dr_id_bytes d) factor = Ok secret /\
       sound (upd sec (dr_id_bytes d) secret) codes rmk nk (dk_reg w')) (fun _ _ => True) w.
Proof.
  intros Hs. unfold set_home_factor. apply post_bind, post_guard; [|done]. intros _. apply post_bind, post_gets, post_bind, post_lift; [|done]. intros i Hi.
  destruct (resolve_lookup _ _ _ Hi) as [d Hd]. cbv zeta. rewrite (total_lookup _ _ _ Hd). apply post_bind, post_guard; [|done]. intros Hk%negb_false_iff%bool_decide_eq_true.
  apply post_bind, post_lift; [|done]. intros [] Hlen%secret32_Ok. apply post_bind, post_lift; [|done]. intros [] Hf. apply post_bind, post_lift; [|done]. intros secret Hsec.
  apply post_bind, post_lift; [|done]. intros kek Hkek. apply post_bind, post_on_store. pose proof (ky_rmk _ _ _ _ _ (so_keyed _ _ _ _ _ Hs)) as Hrmk.
  eapply post_mono; [| |apply (wrap_opens kek rmk _ _ Hrmk)]; [|done]. intros wr st Hop. unfold update_device. apply post_on_reg. cbn [dk_reg]. exists i, d, secret. split_and!; try done.
  assert (Hin : d ∈ rg_devices (dk_reg w)) by (by eapply list_elem_of_lookup_2). eapply sound_alter; [done|done| |intros; by apply upd_other].
  eapply (replace_rewrapped sec codes rmk nk (dk_reg w) d (nf_factor <$> factor) secret kek wr (mkTpm2Params "" "" [] "")); try done; [by eapply tpm2_of_home| |].
  - intros f Ef. destruct factor as [nf|]; [|done]. injection Ef as <-. eapply check_home_factor_iff; [apply (wf_ids _ (so_wf _ _ _ _ _ Hs))|exact Hf].
  - destruct factor as [nf|]; [by eapply combine_len|]. by injection Hsec as <-.
Qed.

Lemma reseal_sound sec codes rmk nk id a resealed passcode hmac w : sound sec codes rmk nk (dk_reg w) ->
  post (reseal_device id rmk a resealed passcode hmac)
    (fun _ w' => exists i d p p' fresh secret, resolve_selector (dk_reg w) id = Ok i /\ rg_devices (dk_reg w) !! i = Some d /\ dr_tpm2 d = Some p /\ resealed p = Ok (p', fresh) /\
       home_device_secret (dk_reg w) i fresh passcode hmac = Ok secret /\ sound (upd sec (dr_id_bytes d) secret) codes rmk nk (dk_reg w')) (fun _ _ => True) w.
Proof.
  intros Hs. unfold reseal_device. apply post_bind, post_guard; [|done]. intros _. apply post_bind, post_gets, post_bind, post_lift; [|done]. intros i Hi.
  destruct (resolve_lookup _ _ _ Hi) as [d Hd]. cbv zeta. rewrite (total_lookup _ _ _ Hd). apply post_bind, post_lift; [|done]. intros p Hp.
  destruct (dr_kind d) eqn:Hk; [|done]. destruct (dr_tpm2 d) as [p0|] eqn:Et; [|done]. injection Hp as ->. apply post_bind, post_lift; [|done]. intros [p' fresh] Hre.
  apply post_bind, post_lift; [|done]. intros [] Hlen%secret32_Ok. apply post_bind, post_lift; [|done]. intros secret Hsec. apply post_bind, post_lift; [|done]. intros kek Hkek.
  apply post_bind, post_on_store. pose proof (ky_rmk _ _ _ _ _ (so_keyed _ _ _ _ _ Hs)) as Hrmk. eapply post_mono; [| |apply (wrap_opens kek rmk _ _ Hrmk)]; [|done]. intros wr st Hop.
  unfold update_device. apply post_on_reg. cbn [dk_reg]. exists i, d, p, p', fresh, secret. split_and!; try done. assert (Hin : d ∈ rg_devices (dk_reg w)) by (by eapply list_elem_of_lookup_2).
  unfold record_wrap_aad in Hop. rewrite Hk in Hop.
  assert (Hs32 : blen secret = 32).
  { unfold home_device_secret in Hsec. rewrite (total_lookup _ _ _ Hd), Hk in Hsec. cbn [bool_decide decide decide_rel DeviceKind_eq_dec] in Hsec. rewrite bool_decide_eq_true_2 in Hsec by done. cbn [negb] in Hsec.
    destruct (dr_home_factor d) as [f|]; [|by injection Hsec as <-]. apply bind_Ok in Hsec as ([] & _ & Hsec). apply bind_Ok in Hsec as (fs & _ & Hsec). by eapply combine_len. }
  eapply sound_alter; [done|done| |intros; by apply upd_other].
  destruct (replace_rewrapped sec codes rmk nk (dk_reg w) d (dr_home_factor d) secret kek wr p') as [_ Hr]; try done.
  pose proof (wf_roles _ (so_wf _ _ _ _ _ Hs)) as Hro. rewrite Forall_forall in Hro. specialize (Hro d Hin). unfold role_ok in Hro. rewrite Hk in Hro. naive_solver.
Qed.

(** ** Removing *)

Lemma home_count_perm (l l' : list DeviceRecord) : l ≡ₚ l' -> length (filter (fun d => dr_kind d = Tpm2) l) = length (filter (fun d => dr_kind d = Tpm2) l').
Proof. intros E. apply Permutation_length. by rewrite E. Qed.

Lemma delete_sound sec codes rmk nk reg i d : sound sec codes rmk nk reg -> rg_devices reg !! i = Some d -> length (rg_devices reg) <> 1%nat ->
  (dr_kind d = Tpm2 -> home_count reg <> 1%nat) -> (dr_kind d = Fido2 -> factor_of_home reg d = false) ->
  sound sec codes rmk nk (settle_permanent_away (with_devices (base.delete i (rg_devices reg)) reg)).
Proof.
  intros [Hwf [He Hc] Hv [K1 K2 K3 K4 K5]] Hi Hlen Hhome Hfac. pose proof (delete_Permutation _ _ _ Hi) as Hperm. set (l' := base.delete i (rg_devices reg)) in *.
  assert (Hhc : home_count reg = ((if bool_decide (dr_kind d = Tpm2) then 1 else 0) + length (filter (fun d => dr_kind d = Tpm2) l'))%nat).
  { unfold home_count. rewrite (home_count_perm _ _ Hperm), filter_cons. destruct (decide (dr_kind d = Tpm2)); [rewrite bool_decide_eq_true_2 by done|rewrite bool_decide_eq_false_2 by done]; done. }
  assert (Hne : l' <> []) by (intros E; apply Permutation_length in Hperm; rewrite E in Hperm; done).
  assert (Hnz : home_count reg <> 0%nat -> length (filter (fun d => dr_kind d = Tpm2) l') <> 0%nat) by (case_bool_decide; [specialize (Hhome H); lia|lia]).
  destruct Hwf as [He' Hm Hp Ht Hs Hf Hr Hlab Hid Ho Hpa Hw].
  assert (Hperm' : (length (filter (fun d => dr_kind d = Tpm2) l') =? 0)%nat && negb (bool_decide (l' = [])) = rg_permanent_away reg).
  { rewrite Hpa, (bool_decide_eq_false_2 (l' = [])), (bool_decide_eq_false_2 (rg_devices reg = [])) by (done || (intros E; by rewrite E in Hi)). cbn [negb andb]. rewrite andb_true_r.
    destruct (home_count reg) as [|n]; [cbn; apply Nat.eqb_eq; lia|]. cbn. apply Nat.eqb_neq. lia. }
  assert (Hsub : forall P : DeviceRecord -> Prop, Forall P (rg_devices reg) -> Forall P l') by (intros P HP; rewrite Hperm, Forall_cons in HP; by destruct HP).
  assert (Hfo : forall x f, x ∈ l' -> dr_home_factor x = Some f -> factor_ok (rg_devices reg) f -> factor_ok l' f).
  { intros x f Hx Ef. destruct f as [|id]; [done|]. intros (r & Hin & Er & Ek). exists r. split; [|done]. rewrite Hperm in Hin. apply elem_of_cons in Hin as [->|Hin]; [|done]. exfalso.
    specialize (Hfac Ek). apply not_true_iff_false in Hfac. apply Hfac, existsb_exists. exists x. split; [apply list_elem_of_In; rewrite Hperm; by right|]. rewrite Ef. by apply bool_decide_eq_true_2. }
  constructor; [|split; [done|by apply Hsub]|done|constructor; try done; by apply Hsub].
  constructor; try done; unfold settle_permanent_away; cbn [with_permanent_away with_devices rg_devices rg_permanent_away]; fold l'; unfold home_count in *; cbn [with_permanent_away with_devices rg_devices] in *; fold l'.
  - apply Permutation_length in Hperm. unfold blen in *. rewrite Hperm in Hf. cbn in Hf. lia.
  - by apply Hsub.
  - rewrite Hperm in Hlab. cbn in Hlab. by apply NoDup_cons in Hlab as [_ ?].
  - rewrite Hperm in Hid. cbn in Hid. by apply NoDup_cons in Hid as [_ ?].
  - rewrite Forall_forall. intros x Hx. apply Hsub in Ho. rewrite Forall_forall in Ho. specialize (Ho x Hx). unfold role_ok, home_count in *. cbn [with_permanent_away with_devices rg_devices rg_permanent_away]. fold l'. rewrite Hperm'.
    destruct (dr_kind x); [|naive_solver]. destruct Ho as (? & ? & ? & ? & Hff). split_and!; try done. eauto.
  - by rewrite andb_comm.
  - rewrite Hperm'. intros E. by apply Hsub, Hw.
Qed.

Lemma remove_sound sec codes rmk nk sel a w : sound sec codes rmk nk (dk_reg w) ->
  post (remove_device sel a) (fun _ w' => sound sec codes rmk nk (dk_reg w')) (fun _ _ => True) w.
Proof.
  intros Hs. unfold remove_device. apply post_bind, post_gets, post_bind, post_lift; [|done]. intros i Hi. destruct (resolve_lookup _ _ _ Hi) as [d Hd]. rewrite (total_lookup _ _ _ Hd).
  apply post_bind, post_guard; [|done]. intros _. apply post_bind, post_guard; [|done]. intros Hl%Nat.eqb_neq. apply post_bind, post_guard; [|done]. intros Hh. apply post_bind, post_guard; [|done]. intros Hf.
  apply post_on_reg. cbn [dk_reg]. eapply delete_sound; try done; intros Hk.
  - rewrite bool_decide_eq_true_2 in Hh by done. by apply Nat.eqb_neq in Hh.
  - by rewrite bool_decide_eq_true_2 in Hf by done.
Qed.

(** ** Enrolling *)

Lemma hex_digit_char n : 0 <= n < 16 -> hex_digit (hex_char n) = Some n.
Proof.
  intros Hn. assert (Hc : n ∈ seqZ 0 16) by (apply elem_of_seqZ; lia).
  repeat (apply elem_of_cons in Hc as [->|Hc]; [vm_compute; reflexivity|]). by apply elem_of_nil in Hc.
Qed.
Lemma decode_hex_pairs_encode b : decode_hex_pairs (hex_encode b) = Some b.
Proof.
  induction b as [|x b IH]; [done|]. change (hex_encode (x :: b)) with (hex_char (Z_of_byte x / 16) :: hex_char (Z_of_byte x mod 16) :: hex_encode b). cbn [decode_hex_pairs].
  pose proof (Z_of_byte_range x) as Hx. rewrite !hex_digit_char, IH by first [apply Z.mod_pos_bound; lia|split; [apply Z.div_pos; lia|apply Z.div_lt_upper_bound; lia]]. cbn.
  f_equal. f_equal. apply Z_of_byte_inj. rewrite Z_of_byte_of_Z, Z.mul_comm, <- (Z.div_mod (Z_of_byte x) 16) by lia. by apply Z.mod_small.
Qed.
Lemma as_bytes_hex b : as_bytes (hex b) = hex_encode b.
Proof. unfold as_bytes, hex. by rewrite String.list_byte_of_string_of_list_byte. Qed.
Lemma decode_hex_id_hex b : length b = 16%nat -> decode_hex_id (hex b) = Some b.
Proof.
  intros Hb. unfold decode_hex_id. rewrite as_bytes_hex, decode_hex_pairs_encode. destruct (hex_encode_text b) as (_ & _ & ->). unfold blen. by rewrite Hb.
Qed.

Lemma fresh_id_spec l path n : forall st, post (fresh_id n l path) (fun b _ => length b = 16%nat /\ hex b ∉ dr_id <$> l) (fun _ _ => True) st.
Proof.
  induction n as [|n IH]; intros st; cbn [fresh_id]; [done|]. apply post_bind. unfold post at 1, draw_bytes. pose proof (fill_bytes_len (s_rng st) 16) as Hn. destruct (fill_bytes _ _) as [b r]. cbn in Hn.
  destruct (existsb _ l) eqn:E; [apply IH|]. apply post_ret. split; [done|]. intros (d & Ed & Hd)%list_elem_of_fmap. apply not_true_iff_false in E. apply E, existsb_exists. exists d.
  split; [by apply list_elem_of_In|by apply bool_decide_eq_true_2].
Qed.

(** The record of a device with secret [s], before anything else of the registry changes. *)
Record new_record_ok (rmk s esc : bytes) (secs : Z) (new : NewDevice) (id : bytes) (permanent : bool) (rec : DeviceRecord) : Prop := {
  nr_id : dr_id rec = hex id;
  nr_id_bytes : dr_id_bytes rec = id;
  nr_label : dr_label rec = nd_label new;
  nr_kind : dr_kind rec = nd_kind new;
  nr_kind_ok : kind_ok rec = true;
  nr_grant : dr_grant rec = None;
  nr_factor : dr_home_factor rec = None;
  nr_role : match nd_kind new with
            | Tpm2 => is_Some (dr_wrap rec) /\ dr_sign_count_last rec = None /\ dr_kek_wrap rec = None
            | Fido2 => (is_Some (dr_wrap rec) <-> permanent = true) /\ is_Some (dr_sign_count_last rec) /\ is_Some (dr_kek_wrap rec)
            end;
  nr_keyed : device_keyed rmk (fun _ => s) esc secs rec;
}.

Lemma new_record_spec new id kek rmk esc secs permanent now st : blen rmk = 32 -> blen (nd_secret new) = 32 -> derive_device_kek (nd_secret new) id = Ok kek ->
  post (new_record new id kek rmk esc permanent now) (fun rec _ => new_record_ok rmk (nd_secret new) esc secs new id permanent rec) (fun _ _ => True) st.
Proof.
  intros Hrmk Hlen Hkek. assert (Hkl : blen kek = 32) by (unfold derive_device_kek in Hkek; destruct (hkdf32_total (nd_secret new) (as_bytes "y2q/v1/device-kek") id) as (k & E & Hk); congruence).
  unfold new_record. cbv zeta. destruct (nd_kind new) eqn:Ek.
  - apply post_bind, post_lift; [|done]. intros tp _. apply post_bind. eapply post_mono; [| |apply (wrap_opens kek rmk _ _ Hrmk)]; [|done]. intros w st1 Hop. apply post_ret.
    constructor; try done; [by rewrite Ek|]. constructor; cbn; try done. intros k w' E [= <-]. rewrite Hkek in E. by injection E as <-.
  - apply post_bind, post_lift; [|done]. intros fp _. destruct (hkdf32_total rmk (as_bytes "y2q/v1/kek-cache-key") []) as (key & Ekey & _). fold (kek_cache_key rmk) in Ekey.
    apply post_bind, post_lift; [|done]. intros key' E. rewrite Ekey in E. injection E as <-. apply post_bind. eapply post_mono; [| |apply (wrap_opens key kek _ _ Hkl)]; [|done]. intros kw st1 Hkw.
    assert (Hc : forall k key0 w0, derive_device_kek (nd_secret new) id = Ok k -> kek_cache_key rmk = Ok key0 -> Some kw = Some w0 -> opens key0 w0 (kek_cache_aad id esc) k).
    { intros k key0 w0 E1 E2 [= <-]. rewrite Hkek in E1. rewrite Ekey in E2. by injection E1 as <-; injection E2 as <-. }
    apply post_bind. destruct permanent.
    + apply post_bind. eapply post_mono; [| |apply (wrap_opens kek rmk _ _ Hrmk)]; [|done]. intros w st2 Hop. apply post_ret, post_ret. constructor; try done; [by rewrite Ek|].
      constructor; cbn [dr_id_bytes dr_wrap dr_grant dr_kek_wrap]; try done. intros k w' E [= <-]. rewrite Hkek in E. by injection E as <-.
    + apply post_ret, post_ret. constructor; try done. rewrite Ek. split; [split; [by intros []|done]|]. split; done.
Qed.

(** A list of the old devices, some of them changed, and the new one. *)
Lemma append_sound sec codes rmk nk reg l0 rec id s p : sound sec codes rmk nk reg -> Forall2 same_face (rg_devices reg) l0 -> blen (rg_devices reg) < MAX_DEVICES ->
  length id = 16%nat -> dr_id rec = hex id -> dr_id_bytes rec = id -> valid_label (dr_label rec) = Ok tt -> kind_ok rec = true ->
  lower_label (dr_label rec) ∉ (fun d => lower_label (dr_label d)) <$> rg_devices reg -> hex id ∉ dr_id <$> rg_devices reg ->
  p = (length (filter (fun d => dr_kind d = Tpm2) (l0 ++ [rec])) =? 0)%nat ->
  let reg' := with_permanent_away p (with_devices (l0 ++ [rec]) reg) in
  (forall d, d ∈ l0 -> role_ok reg' d /\ sealed_ok reg' d /\ device_keyed rmk sec (rg_esc reg) (rg_away_grant_seconds reg) d) ->
  role_ok reg' rec -> sealed_ok reg' rec -> device_keyed rmk (fun _ => s) (rg_esc reg) (rg_away_grant_seconds reg) rec ->
  sound (upd sec id s) codes rmk nk reg'.
Proof.
  intros [[He' Hm Hp Ht Hs Hf Hr Hlab Hid Ho Hpa Hw] [He Hc] Hv [K1 K2 K3 K4 K5]] Hface Hfew Hl16 Ei Eb Hvl Hko Hfl Hfi -> reg' Hold Hro Hse Hke.
  pose proof (Forall2_length _ _ _ Hface) as Hlen. pose proof (decode_hex_id_hex _ Hl16) as Hdec.
  assert (Hcl : Forall (fun d => decode_hex_id (dr_id d) = Some (dr_id_bytes d)) l0).
  { rewrite Forall_lookup in *. intros i d' Hi. destruct (Forall2_lookup_r _ _ _ _ _ Hface Hi) as (d & Hd & -> & _ & _ & -> & _). by eapply Hc. }
  assert (Hrl : Forall record_ok l0).
  { rewrite Forall_lookup in *. intros i d' Hi. destruct (Forall2_lookup_r _ _ _ _ _ Hface Hi) as (d & Hd & E1 & E2 & E3 & E4 & E5). unfold record_ok. rewrite E1, E2, E4, E5. by eapply Hr. }
  assert (Hel : (fun d => lower_label (dr_label d)) <$> l0 = (fun d => lower_label (dr_label d)) <$> rg_devices reg) by (apply Forall2_face_fmap; [by intros d d' (_ & -> & _)|done]).
  assert (Hei : dr_id <$> l0 = dr_id <$> rg_devices reg) by (apply Forall2_face_fmap; [by intros d d' (-> & _)|done]).
  constructor; [|split; [done|]|done|constructor; try done]; cbn [reg' with_permanent_away with_devices rg_devices].
  - constructor; try done; cbn [reg' with_permanent_away with_devices rg_devices rg_permanent_away].
    + unfold blen in *. rewrite length_app. cbn. lia.
    + apply Forall_app. split; [done|]. apply Forall_singleton. split; [by rewrite Ei, Eb|done].
    + rewrite fmap_app, Hel. apply NoDup_app. split; [done|]. split; [|apply NoDup_singleton]. intros x Hx ->%list_elem_of_singleton. done.
    + rewrite fmap_app, Hei. apply NoDup_app. split; [done|]. split; [|apply NoDup_singleton]. cbn. rewrite Ei. intros x Hx ->%list_elem_of_singleton. done.
    + apply Forall_app. split; [|by apply Forall_singleton]. apply Forall_forall. intros d Hd. apply Hold, Hd.
    + rewrite bool_decide_eq_false_2 by (by destruct l0). done.
    + intros E. apply Forall_app. split; [|apply Forall_singleton; by apply Hse]. apply Forall_forall. intros d Hd. by apply (proj2 (Hold d Hd)).
  - apply Forall_app. split; [done|]. apply Forall_singleton. by rewrite Ei, Eb.
  - cbn [reg' with_permanent_away with_devices rg_devices rg_esc rg_away_grant_seconds]. apply Forall_app. split; [|apply Forall_singleton; destruct Hke; constructor; rewrite Eb, upd_same in *; done].
    rewrite Forall_forall in *. intros d Hd. destruct (Hold d Hd) as (_ & _ & []).
    assert (Hne : dr_id_bytes d <> id). { intros E. pose proof (Hcl d Hd) as Ed. rewrite E in Ed. pose proof (decode_hex_id_inj _ _ _ Ed Hdec) as Ex. apply Hfi. rewrite <- Hei, <- Ex. apply list_elem_of_fmap. eauto. }
    constructor; rewrite upd_other by done; done.
Qed.

Lemma role_transfer reg reg' d : role_ok reg d -> (forall f, factor_ok (rg_devices reg) f -> factor_ok (rg_devices reg') f) -> (home_count reg <> 0%nat -> home_count reg' <> 0%nat) ->
  (dr_kind d = Fido2 -> is_Some (dr_wrap d) -> rg_permanent_away reg' = true) -> role_ok reg' d.
Proof. unfold role_ok. intros Hr Hf Hh Hp. destruct (dr_kind d); naive_solver. Qed.

Lemma homes_app l (d : DeviceRecord) : length (filter (fun d => dr_kind d = Tpm2) (l ++ [d])) = (length (filter (fun d => dr_kind d = Tpm2) l) + if bool_decide (dr_kind d = Tpm2) then 1 else 0)%nat.
Proof. rewrite filter_app, length_app. f_equal. rewrite filter_cons. destruct (decide (dr_kind d = Tpm2)); [rewrite bool_decide_eq_true_2 by done|rewrite bool_decide_eq_false_2 by done]; done. Qed.
Lemma factor_ok_app l l' f : factor_ok l f -> factor_ok (l ++ l') f.
Proof. destruct f; [done|]. intros (r & Hr & H). exists r. split; [|done]. apply elem_of_app. by left. Qed.

(** The new device leaves the old ones as they are. *)
Lemma enroll_plain sec codes rmk nk reg new id rec : sound sec codes rmk nk reg -> blen (rg_devices reg) < MAX_DEVICES -> length id = 16%nat -> hex id ∉ dr_id <$> rg_devices reg ->
  valid_label (nd_label new) = Ok tt -> lower_label (nd_label new) ∉ (fun d => lower_label (dr_label d)) <$> rg_devices reg ->
  new_record_ok rmk (nd_secret new) (rg_esc reg) (rg_away_grant_seconds reg) new id (home_count reg =? 0)%nat rec ->
  (nd_kind new = Tpm2 -> home_count reg = 0%nat -> rg_devices reg = []) ->
  sound (upd sec id (nd_secret new)) codes rmk nk (settle_permanent_away (with_devices (rg_devices reg ++ [rec]) reg)).
Proof.
  intros Hs Hfew Hl Hfi Hvl Hfl [Ei Eb El Ek Hko Hg Hfa Hro Hke] Hcase. unfold settle_permanent_away.
  pose proof (so_wf _ _ _ _ _ Hs) as Hwf. pose proof (wf_permanent _ Hwf) as Hpa.
  assert (Hp : (home_count (with_devices (rg_devices reg ++ [rec]) reg) =? 0)%nat && negb (bool_decide (rg_devices reg ++ [rec] = [])) = (length (filter (fun d => dr_kind d = Tpm2) (rg_devices reg ++ [rec])) =? 0)%nat).
  { rewrite (bool_decide_eq_false_2 (_ = [])) by (by destruct (rg_devices reg)). apply andb_true_r. }
  cbn [with_devices rg_devices] in *. rewrite Hp. pose proof (homes_app (rg_devices reg) rec) as Hh. rewrite Ek in Hh. fold (home_count reg) in Hh.
  eapply append_sound; try done; [|by rewrite El|by rewrite El| | |].
  - apply Forall_Forall2_diag, Forall_forall. done.
  - intros d Hd. destruct (replace_self _ d _ _ _ _ Hs Hd) as [_ H2 H3 H4]. assert (Hne : rg_devices reg <> []) by (intros E; rewrite E in Hd; by apply not_elem_of_nil in Hd).
    rewrite (bool_decide_eq_false_2 (rg_devices reg = [])) in Hpa by done. cbn [negb andb] in Hpa. split_and!; [|intros Hpt Hk; cbn in Hpt|done].
    + eapply role_transfer; [exact H2|intros f; apply factor_ok_app|unfold home_count at 2; cbn; rewrite Hh; lia|]. intros Hk Hw. cbn. rewrite Hh.
      unfold role_ok in H2. rewrite Hk in H2. destruct H2 as (_ & _ & _ & H2 & _). destruct (H2 Hw) as [_ E]. rewrite E in Hpa. apply eq_sym, Nat.eqb_eq in Hpa. rewrite Hpa in *.
      destruct (nd_kind new) eqn:En; [by destruct Hne; apply Hcase|done].
    + apply H3; [|done]. rewrite Hpa. apply Nat.eqb_eq. apply Nat.eqb_eq in Hpt. lia.
  - unfold role_ok. rewrite Ek, Hg, Hfa. unfold home_count. cbn. rewrite Hh. destruct (nd_kind new) eqn:En.
    + destruct Hro as (? & ? & ?). done.
    + destruct Hro as (Hw & ? & ?). split_and!; try done. intros Hi. split; [done|]. apply Hw in Hi. apply Nat.eqb_eq in Hi. by rewrite Hi.
  - intros Hpt Hk. cbn in Hpt. rewrite Ek in Hk. rewrite Hk in Hro, Hh. split; [|done]. apply Hro, Nat.eqb_eq. apply Nat.eqb_eq in Hpt. lia.
Qed.

(** The first home device takes the permanent wraps of the away devices. *)
Lemma enroll_strips sec codes rmk nk reg new id rec : sound sec codes rmk nk reg -> blen (rg_devices reg) < MAX_DEVICES -> length id = 16%nat -> hex id ∉ dr_id <$> rg_devices reg ->
  valid_label (nd_label new) = Ok tt -> lower_label (nd_label new) ∉ (fun d => lower_label (dr_label d)) <$> rg_devices reg ->
  new_record_ok rmk (nd_secret new) (rg_esc reg) (rg_away_grant_seconds reg) new id (home_count reg =? 0)%nat rec -> nd_kind new = Tpm2 -> home_count reg = 0%nat ->
  let reg1 := settle_permanent_away (with_devices (rg_devices reg ++ [rec]) reg) in
  sound (upd sec id (nd_secret new)) codes rmk nk (with_devices (strip_away (rg_devices reg1)) reg1).
Proof.
  intros Hs Hfew Hl Hfi Hvl Hfl [Ei Eb El Ek Hko Hg Hfa Hro Hke] Hk Hz reg1. rewrite Hk in Ek, Hro.
  pose proof (so_wf _ _ _ _ _ Hs) as Hwf. pose proof (wf_permanent _ Hwf) as Hpa.
  assert (Hp : rg_permanent_away reg1 = false).
  { unfold reg1, settle_permanent_away, home_count. cbn. rewrite homes_app, Ek. fold (home_count reg). by rewrite Hz. }
  assert (Hst : strip_away (rg_devices reg1) = strip_away (rg_devices reg) ++ [rec]).
  { unfold reg1, strip_away. cbn. rewrite fmap_app. cbn. by rewrite Ek. }
  assert (Hface : Forall2 same_face (rg_devices reg) (strip_away (rg_devices reg))).
  { unfold strip_away. apply Forall2_map_self. intros d _. unfold same_face. by destruct (bool_decide (dr_kind d = Fido2)). }
  assert (Hhc : length (filter (fun d => dr_kind d = Tpm2) (strip_away (rg_devices reg) ++ [rec])) = 1%nat).
  { rewrite homes_app, Ek, (home_count_face _ _ Hface). fold (home_count reg). by rewrite Hz. }
  assert (Er : with_devices (strip_away (rg_devices reg1)) reg1 = with_permanent_away false (with_devices (strip_away (rg_devices reg) ++ [rec]) reg)).
  { rewrite Hst. unfold with_devices at 1. rewrite Hp. done. }
  rewrite Er. eapply append_sound; try done; [by rewrite El|by rewrite El|by rewrite Hhc| |].
  - intros d' Hd'. apply list_elem_of_fmap in Hd' as (d & -> & Hd). destruct (replace_self _ d _ _ _ _ Hs Hd) as [_ H2 H3 [K1 K2 K3 K4]].
    rewrite (bool_decide_eq_false_2 (rg_devices reg = [])), Hz in Hpa by (intros E; rewrite E in Hd; by apply not_elem_of_nil in Hd). cbn in Hpa.
    destruct (decide (dr_kind d = Fido2)) as [Ekd|Ekd]; [rewrite bool_decide_eq_true_2 by done|rewrite bool_decide_eq_false_2 by done]; (split_and!; [|done|]).
    + destruct (H3 Hpa Ekd) as [_ Egr]. unfold role_ok in *. cbn [with_wrap dr_kind dr_wrap dr_grant dr_sign_count_last dr_kek_wrap dr_home_factor]. rewrite Ekd in *. rewrite Egr. split_and!; try done; naive_solver.
    + by constructor.
    + eapply role_transfer; [exact H2|intros f Hff; cbn; apply factor_ok_app; by eapply factor_ok_face|unfold home_count at 2; cbn; rewrite Hhc; lia|done].
    + done.
  - unfold role_ok. rewrite Ek, Hg, Hfa. by destruct Hro as (? & ? & ?).
Qed.

Lemma all_away reg : home_count reg = 0%nat -> existsb (fun d => bool_decide (dr_kind d = Fido2)) (rg_devices reg) = false -> rg_devices reg = [].
Proof.
  unfold home_count. destruct (rg_devices reg) as [|d l]; [done|]. rewrite filter_cons. cbn [existsb]. intros Hz [Hd _]%orb_false_iff. apply bool_decide_eq_false in Hd.
  destruct (dr_kind d) eqn:E; [|done]. by rewrite decide_True in Hz.
Qed.

Lemma enroll_sound sec codes rmk nk dir new a time now_host w : sound sec codes rmk nk (dk_reg w) -> blen (rg_devices (dk_reg w)) < MAX_DEVICES ->
  post (enroll_device dir new rmk a time now_host)
    (fun id w' => exists b, id = hex b /\ length b = 16%nat /\ id ∉ dr_id <$> rg_devices (dk_reg w) /\ sound (upd sec b (nd_secret new)) codes rmk nk (dk_reg w')) (fun _ _ => True) w.
Proof.
  intros Hs Hfew. unfold enroll_device. apply post_bind, post_gets, post_bind, post_guard; [|done]. intros _. apply post_bind, post_lift; [|done]. intros [] Hvl.
  destruct (valid_label (nd_label new)) as [[]|] eqn:Evl; [|done]. apply post_bind, post_guard; [|done]. intros Hlab. apply post_bind, post_lift; [|done]. intros [] Hlen%secret32_Ok.
  apply post_bind, post_on_store. eapply post_mono; [| |apply fresh_id_spec]; [|done]. intros id st1 [Hid Hfi]. apply post_bind, post_lift; [|done]. intros kek Hkek. apply post_bind, post_on_store.
  pose proof (ky_rmk _ _ _ _ _ (so_keyed _ _ _ _ _ Hs)) as Hrmk.
  eapply post_mono; [| |apply (new_record_spec new id kek rmk (rg_esc (dk_reg w)) (rg_away_grant_seconds (dk_reg w)) _ now_host _ Hrmk Hlen Hkek)]; [|done]. intros rec st2 Hrec. cbv zeta.
  assert (Hfl : lower_label (nd_label new) ∉ (fun d => lower_label (dr_label d)) <$> rg_devices (dk_reg w)).
  { intros (d & Ed & Hd)%list_elem_of_fmap. apply not_true_iff_false in Hlab. apply Hlab, existsb_exists. exists d. split; [by apply list_elem_of_In|by apply bool_decide_eq_true_2]. }
  apply post_bind, post_on_reg. cbn [dk_reg dk_store]. apply post_bind. destruct (_ && _ && _) eqn:Efirst.
  - apply andb_true_iff in Efirst as [[Ek%bool_decide_eq_true Ez%Nat.eqb_eq]%andb_true_iff _]. apply post_bind, post_on_reg. cbn [dk_reg dk_store].
    eapply post_mono; [| |eapply (mint_if_time (upd sec id (nd_secret new)) codes rmk nk)]; [|done|cbn [dk_reg]; by apply enroll_strips]. intros [] w' Hs'. apply post_ret. by exists id.
  - apply post_ret, post_ret. exists id. split_and!; try done. cbn [dk_reg]. eapply enroll_plain; try done. intros Ek Ez. rewrite (bool_decide_eq_true_2 _ Ek), Ez in Efirst. by apply all_away.
Qed.

(** A registry that is full after the new device was: no other change adds one. *)
Lemma mint_length rmk now path w : post (mint_grants rmk now path) (fun _ w' => length (rg_devices (dk_reg w')) = length (rg_devices (dk_reg w))) (fun _ _ => True) w.
Proof.
  unfold mint_grants. apply post_bind, post_gets. destruct (rg_permanent_away _); [by apply post_ret|]. apply post_bind, post_lift; [|done]. intros key _.
  generalize (saturating_add_u64 now (rg_away_grant_seconds (dk_reg w))). generalize (rg_esc (dk_reg w)), (rg_away_grant_seconds (dk_reg w)). intros esc secs na.
  assert (Hm : forall todo i n w', length (rg_devices (dk_reg w')) = length (rg_devices (dk_reg w)) ->
    post (mint_loop (mint_one key rmk esc secs now na path) i todo n) (fun _ w'' => length (rg_devices (dk_reg w'')) = length (rg_devices (dk_reg w))) (fun _ _ => True) w'); [|by apply Hm].
  induction todo as [|d todo IH]; intros i n w' Hw; cbn [mint_loop]; [by apply post_ret|]. apply post_bind.
  eapply (post_mono _ (fun _ w1 => dk_reg w1 = dk_reg w') _ (fun _ _ => True)); [|done|].
  - intros [g|] w1 E; [|apply IH; by rewrite E]. apply post_bind. unfold update_device. apply post_on_reg, IH. cbn. by rewrite length_alter, E.
  - unfold mint_one. case_match; [by apply post_ret|]. case_match; [|by apply post_ret]. case_match; [|by apply post_ret]. apply post_bind, post_on_store. unfold post. destruct (wrap_secret _ _ _ _) as [[|] ?]; [by apply post_ret|done].
Qed.
End roster.
