(* ===== verification/DeviceSpec.v ===== *)
(** * What the device registry promises

    A home device always opens the node key; an away device does so only in time and with
    a counter that goes up; a code does so once, whatever the disk does.  Every change keeps
    the registry so that the next unlock works. *)

From S2P Require Import Prelude Effects Primitives Types Format Crypto NodeKeys Sink Slots BucketKeys Lex Query Index Locks Posix FsView Filesystem FilesystemSpec Keystore Upload DeviceTypes Devices DeviceCheck DeviceState DeviceDurable DeviceKeyed DeviceUnlock DeviceChanges DeviceRoster.
Import FilesystemStorage.

Section spec.
Context {A : AeadOps} {B : Base64Ops} {NP : Base64NoPad} {R : RngOps} {HK : HkdfOps} {HO : HashOps} {T : TokenOps} {AR : Argon2Ops}.
Context {RD : RedbOps} {RJ : RegistryJson} {KJ : KeystoreJson}.
Context {AL : AeadLaws} {BL : Base64Laws} {RL : RngLaws} {KL : HkdfLaws} {HL : HashLaws} {JL : RegistryJsonLaws}.
Abbreviation secrets := (bytes -> bytes).
Abbreviation codebook := (Z -> bytes).
Abbreviation dev := (prog Desk DeviceError).

(** A sound registry whose state authenticates. *)
Record trusted (sec : secrets) (codes : codebook) (rmk nk : bytes) (reg : DeviceRegistryFile) : Prop := {
  tr_sound : sound sec codes rmk nk reg;
  tr_mac : forall sk, derive_state_key rmk = Ok sk -> authentic sk reg;
}.

Lemma signed_sound sec codes rmk nk sk reg : sound sec codes rmk nk reg -> sound sec codes rmk nk (signed sk reg).
Proof. intros [Hwf Hc Hv [K1 K2 K3 K4 K5]]. constructor; [by apply signed_well_formed|done|done|by constructor]. Qed.
Lemma signed_trusted sec codes rmk nk sk reg : sound sec codes rmk nk reg -> derive_state_key rmk = Ok sk -> trusted sec codes rmk nk (signed sk reg).
Proof. intros Hs Hk. constructor; [by apply signed_sound|]. intros sk' E. rewrite Hk in E. injection E as <-. apply signed_authentic. Qed.
Lemma state_key_total rmk : exists sk, derive_state_key rmk = Ok sk.
Proof. destruct (hkdf32_total rmk (as_bytes "y2q/v1/registry-state-key") []) as (k & E & _). by exists k. Qed.
Lemma device_kek_total s id : exists kek, derive_device_kek s id = Ok kek.
Proof. destruct (hkdf32_total s (as_bytes "y2q/v1/device-kek") id) as (k & E & _). by exists k. Qed.

Lemma persist_trusted sec codes rmk nk dir sk w : sound sec codes rmk nk (dk_reg w) -> derive_state_key rmk = Ok sk ->
  post (persist dir sk) (fun _ w' => dk_reg w' = signed sk (dk_reg w) /\ trusted sec codes rmk nk (dk_reg w')) (fun e _ => exists what, e = DeviceRegistryIo what) w.
Proof.
  intros Hs Hk. eapply post_mono; [| |apply (persist_durable dir sk w (so_cached _ _ _ _ _ Hs))].
  - intros [] w' (-> & _ & _). split; [done|]. by apply signed_trusted.
  - intros e w' He. apply He, (so_wf _ _ _ _ _ Hs).
Qed.

Lemma open_nk_sound sec codes rmk nk reg path : sound sec codes rmk nk reg -> open_nk reg rmk path = Ok nk.
Proof. intros Hs. unfold open_nk. destruct (nk_key_total rmk) as [key Ek]. rewrite Ek. cbn [mbind result_bind]. by rewrite (ky_node _ _ _ _ _ (so_keyed _ _ _ _ _ Hs) key Ek). Qed.

Lemma default_device (l : list DeviceRecord) i : l !! i = None -> l !!! i = mkDeviceRecord "" "" Tpm2 0 None None None None None None None [].
Proof. intros E. rewrite list_lookup_total_alt, E. done. Qed.

(** ** Home devices *)

(** What a home unlock leaves of the devices. *)
Definition refreshed (time : result DeviceError Z) (reg : DeviceRegistryFile) (l' : list DeviceRecord) : Prop :=
  match time with
  | Ok now => Forall2 (renewed now (saturating_add_u64 now (rg_away_grant_seconds reg))) (sweep_devices now (rg_devices reg)) l'
  | Err _ => l' = rg_devices reg
  end.

Lemma refresh_on_home_sound sec codes rmk nk time path w : sound sec codes rmk nk (dk_reg w) ->
  post (refresh_on_home rmk time path) (fun n w' => sound sec codes rmk nk (dk_reg w') /\ refreshed time (dk_reg w) (rg_devices (dk_reg w')) /\
    ((0 <? n.1)%nat || (0 <? n.2)%nat = false -> dk_reg w' = dk_reg w)) (fun _ _ => False) w.
Proof.
  intros Hs. unfold refresh_on_home. destruct time as [now|e]; [|by apply post_ret].
  apply post_bind. eapply post_mono; [| |apply (sweep_sound sec codes rmk nk now w Hs)]; [|done]. intros erased w1 (Hs1 & _ & E1 & Hz1).
  apply post_bind. eapply post_mono; [| |apply (mint_sound sec codes rmk nk now path w1 Hs1)]; [|done]. intros issued w2 (Hs2 & l' & E2 & HF & Hz2).
  apply post_ret. cbn [fst snd]. split; [done|]. split.
  - rewrite E2. cbn [with_devices rg_devices refreshed]. by rewrite E1 in HF.
  - intros [H1%Nat.ltb_ge H2%Nat.ltb_ge]%orb_false_iff. rewrite Hz2, Hz1 by lia. done.
Qed.

Lemma home_unlock_spec sec codes rmk nk dir i secret time w : trusted sec codes rmk nk (dk_reg w) ->
  post (unlock_with_home dir i secret time)
    (fun u w' => (forall d, rg_devices (dk_reg w) !! i = Some d -> dr_kind d = Tpm2 -> secret = sec (dr_id_bytes d) -> ul_rmk u = rmk) /\
       (ul_rmk u = rmk -> ul_nk u = nk /\ trusted sec codes rmk nk (dk_reg w') /\ refreshed time (dk_reg w) (rg_devices (dk_reg w'))))
    (fun e _ => forall d, rg_devices (dk_reg w) !! i = Some d -> dr_kind d = Tpm2 -> secret = sec (dr_id_bytes d) -> exists what, e = DeviceRegistryIo what) w.
Proof.
  intros [Hs Hm]. unfold unlock_with_home, device_at. apply post_bind, post_gets. destruct (rg_devices (dk_reg w) !! i) as [d|] eqn:Hi.
  2: { rewrite (default_device _ _ Hi). apply post_bind, post_lift; [|done]. intros [] _. apply post_bind, post_guard; [|done]. intros _. apply post_bind, post_lift; [|done]. intros kek _. apply post_bind, post_gets, post_bind, post_lift; done. }
  rewrite (total_lookup _ _ _ Hi). assert (Hin : d ∈ rg_devices (dk_reg w)) by (by eapply list_elem_of_lookup_2). destruct (keyed_devices _ d _ _ _ _ Hs Hin) as [K1 K2 _ _].
  apply post_bind, post_lift; [|intros e E d' [= <-] _ ->; unfold secret32 in E; by rewrite K1 in E]. intros [] _.
  apply post_bind, post_guard; [|intros E d' [= <-] Hk _; by rewrite bool_decide_eq_true_2 in E]. intros Hk%negb_false_iff%bool_decide_eq_true.
  apply post_bind, post_lift; [|intros e E; destruct (device_kek_total secret (dr_id_bytes d)); congruence]. intros kek Hkek. apply post_bind, post_gets.
  assert (Hw : is_Some (dr_wrap d)). { pose proof (wf_roles _ (so_wf _ _ _ _ _ Hs)) as Hr. rewrite Forall_forall in Hr. specialize (Hr d Hin). unfold role_ok in Hr. rewrite Hk in Hr. by destruct Hr. }
  destruct Hw as [wr Ewr]. apply post_bind, post_lift.
  2: { intros e E d' [= <-] _ ->. unfold rmk_from_permanent in E. rewrite Ewr in E. cbn [ok_or mbind result_bind] in E. by rewrite (K2 kek wr Hkek Ewr) in E. }
  intros rmk' Hrmk. destruct (state_key_total rmk') as [sk Hsk]. apply post_bind, post_lift; [|congruence]. intros sk' E. rewrite Hsk in E. injection E as <-.
  assert (Hsame : forall d', Some d = Some d' -> dr_kind d' = Tpm2 -> secret = sec (dr_id_bytes d') -> rmk' = rmk).
  { intros d' [= <-] _ ->. unfold rmk_from_permanent in Hrmk. rewrite Ewr in Hrmk. cbn [ok_or mbind result_bind] in Hrmk. rewrite (K2 kek wr Hkek Ewr) in Hrmk. by injection Hrmk. }
  apply post_bind, post_lift. 2: { intros e E d' Ed Ek Es. specialize (Hsame d' Ed Ek Es). subst rmk'. by rewrite (Hm sk Hsk) in E. }
  intros [] _. apply post_bind, post_lift. 2: { intros e E d' Ed Ek Es. specialize (Hsame d' Ed Ek Es). subst rmk'. by rewrite (open_nk_sound sec codes rmk nk) in E. }
  intros nk' Hnk. destruct (decide (rmk' = rmk)) as [->|Hne].
  2: { apply post_bind. unfold post at 1. destruct (refresh_on_home rmk' time _ w) as [[[issued erased]|e] w1]; [|intros d' Ed Ek Es; by destruct Hne; eapply Hsame].
       apply post_bind. unfold post at 1. destruct (if _ : bool then _ else _) as [[[]|e] w2]; [apply post_ret; by split|intros d' Ed Ek Es; by destruct Hne; eapply Hsame]. }
  rewrite (open_nk_sound sec codes rmk nk) in Hnk by done. injection Hnk as <-.
  apply post_bind. eapply post_mono; [| |apply (refresh_on_home_sound sec codes rmk nk time _ w Hs)]; [|done]. intros [issued erased] w1 (Hs1 & Href & Hz). cbn [fst snd] in Hz.
  apply post_bind. destruct (_ || _).
  - eapply post_mono; [| |apply (persist_trusted sec codes rmk nk dir sk w1 Hs1 Hsk)]; [|eauto]. intros [] w2 [E2 Ht]. apply post_ret. split; [done|]. intros _. split; [done|]. split; [done|]. by rewrite E2.
  - apply post_ret, post_ret. split; [done|]. intros _. split; [done|]. rewrite Hz in Href by done. rewrite Hz by done. split; [|done]. by constructor.
Qed.

(** ** Away devices *)

Lemma cached_map reg f : cached reg -> (forall d, dr_id (f d) = dr_id d /\ dr_id_bytes (f d) = dr_id_bytes d) -> cached (with_devices (f <$> rg_devices reg) reg).
Proof. intros [He Hc] Hf. split; [done|]. cbn [with_devices rg_devices]. apply Forall_fmap. eapply Forall_impl; [exact Hc|]. intros d Hd. cbn. by destruct (Hf d) as [-> ->]. Qed.
Lemma cached_alter reg f i : cached reg -> (forall d, dr_id (f d) = dr_id d /\ dr_id_bytes (f d) = dr_id_bytes d) -> cached (with_devices (alter f i (rg_devices reg)) reg).
Proof.
  intros [He Hc] Hf. split; [done|]. cbn [with_devices rg_devices]. apply Forall_alter; [done|]. intros d _ Hd. by destruct (Hf d) as [-> ->].
Qed.

(** The registry once the deadline of [d] was checked: a grant is checked against the
    attested time, and the time is used to sweep. *)
Definition swept (time : result DeviceError Z) (d : DeviceRecord) (reg : DeviceRegistryFile) : DeviceRegistryFile :=
  match dr_wrap d, dr_grant d, time with
  | None, Some _, Ok now => with_devices (sweep_devices now (rg_devices reg)) reg
  | _, _, _ => reg
  end.
Lemma cached_swept time d reg : cached reg -> cached (swept time d reg).
Proof. intros Hc. unfold swept. destruct (dr_wrap d), (dr_grant d), time; try done. apply cached_map; [done|]. intros x. by destruct (expired _ _). Qed.
Lemma swept_lookup time d reg i : rg_devices reg !! i = Some d -> exists d', rg_devices (swept time d reg) !! i = Some d' /\ (d' = d \/ d' = with_grant None d).
Proof.
  intros Hi. unfold swept. destruct (dr_wrap d), (dr_grant d), time as [now|]; try (exists d; by split; [|left]).
  cbn [with_devices rg_devices]. unfold sweep_devices. rewrite list_lookup_fmap, Hi. cbn. destruct (expired now d); eexists; (split; [done|auto]).
Qed.

(** The ways out of step 5. *)
Lemma check_deadline_spec dir d sk time w :
  post (check_deadline dir d sk time)
    (fun _ w' => w' = mkDesk (swept time d (dk_reg w)) (dk_store w) /\ (dr_wrap d = None -> forall g, dr_grant d = Some g -> exists now, time = Ok now /\ now <= gr_not_after_unix g))
    (fun e _ => dr_wrap d = None /\ exists g, dr_grant d = Some g /\ (time = Err e \/ exists now, time = Ok now /\ gr_not_after_unix g < now)) w.
Proof.
  assert (Hself : w = mkDesk (dk_reg w) (dk_store w)) by (by destruct w). unfold check_deadline, swept. destruct (dr_wrap d) as [wr|]; [by apply post_ret|]. destruct (dr_grant d) as [g|]; [|by apply post_ret].
  apply post_bind, post_lift; [|intros e ->; eauto]. intros now ->. apply post_bind. unfold sweep_grants. apply post_bind, post_gets, post_bind, post_on_reg, post_ret.
  destruct (Z.ltb_spec (gr_not_after_unix g) now).
  - apply post_bind. unfold post. destruct (persist dir sk _) as [[[]|e] w']; cbn; eauto 10.
  - apply post_ret. split; [done|]. intros _ g' [= <-]. eauto.
Qed.

Record away_checked (reg : DeviceRegistryFile) (i : nat) (d : DeviceRecord) (c : Z) (time : result DeviceError Z) (u : Unlock) (sk : bytes) (path : fpath) : Prop := {
  ac_device : rg_devices reg !! i = Some d;
  ac_kind : dr_kind d = Fido2;
  (** It holds a permanent wrap, or a grant that has not run out. *)
  ac_grant : dr_wrap d = None -> exists g now, dr_grant d = Some g /\ time = Ok now /\ now <= gr_not_after_unix g;
  ac_count : exists last, dr_sign_count_last d = Some last /\ last < c;
  ac_state : derive_state_key (ul_rmk u) = Ok sk /\ verify_state_mac sk reg path = Ok tt;
  ac_node_key : open_nk (swept time d reg) (ul_rmk u) path = Ok (ul_nk u);
}.

Definition counted (c : Z) (i : nat) (reg : DeviceRegistryFile) : DeviceRegistryFile := with_devices (alter (with_sign_count (Some c)) i (rg_devices reg)) reg.

Lemma away_unlock_spec dir i secret c time w : cached (dk_reg w) ->
  post (unlock_with_away dir i secret c time)
    (fun u w' => exists d sk, away_checked (dk_reg w) i d c time u sk (devices_path dir) /\ dk_reg w' = signed sk (counted c i (swept time d (dk_reg w))) /\
       (safe_dirs dir (dk_store w) -> rg_format_version (dk_reg w) = DEVICES_FORMAT_VERSION ->
        forall st', survives dir (dk_store w') st' -> exists st'', load dir st' = (Ok (dk_reg w'), st'')))
    (fun _ _ => True) w.
Proof.
  intros Hc. unfold unlock_with_away, device_at. apply post_bind, post_gets. destruct (rg_devices (dk_reg w) !! i) as [d|] eqn:Hi.
  2: { rewrite (default_device _ _ Hi). apply post_bind, post_lift; [|done]. intros [] _. apply post_bind, post_guard; done. }
  rewrite (total_lookup _ _ _ Hi). cbv zeta. apply post_bind, post_lift; [|done]. intros [] _. apply post_bind, post_guard; [|done]. intros Hk%negb_false_iff%bool_decide_eq_true.
  apply post_bind, post_guard; [|done]. intros Hsome. apply post_bind, post_lift; [|done]. intros kek _. apply post_bind, post_gets, post_bind, post_lift; [|done]. intros rmk _.
  apply post_bind, post_lift; [|done]. intros sk Hsk. apply post_bind, post_lift; [|done]. intros [] Hmac. apply post_bind.
  eapply post_mono; [| |apply check_deadline_spec]; [|done]. intros erased w1 [-> Hdl]. apply post_bind, post_lift; [|done]. intros last Hlast%ok_or_iff.
  apply post_bind, post_guard; [|done]. intros Hcount%Z.leb_gt. apply post_bind, post_gets, post_bind, post_lift; [|done]. intros nk Hnk. cbn [dk_reg] in Hnk.
  apply post_bind. unfold update_device. apply post_on_reg. cbn [dk_reg dk_store]. fold (counted c i (swept time d (dk_reg w))). apply post_bind.
  assert (Hc' : cached (counted c i (swept time d (dk_reg w)))) by (by apply cached_alter; [apply cached_swept|]).
  eapply post_mono; [| |apply (persist_durable dir sk (mkDesk (counted c i (swept time d (dk_reg w))) (dk_store w)) Hc')]; [|done]. cbn [dk_reg dk_store].
  intros [] w2 (E2 & _ & Hdur). apply post_ret. exists d, sk. split; [|split; [done|]].
  - constructor; try done; [|by exists last]. intros Hw. destruct (dr_grant d) as [g|] eqn:Eg; [|by rewrite Hw in Hsome]. destruct (Hdl Hw g eq_refl) as (now & ? & ?). eauto.
  - intros Hsafe Hv. apply Hdur; [done|]. unfold swept. destruct (dr_wrap d), (dr_grant d), time; done.
Qed.

(** C15: an away device (a security key) opens the node key only when it may. It has a
    permanent wrap, or else a grant that the attested time has not passed; its signature
    counter is above the last one recorded; and the state of the registry authenticates.
    By the time the key is answered the new counter is on disk: whatever a crash leaves of
    the registry loads, and no run on it accepts the same counter or a smaller one again. *)
Theorem away_unlock_guarded dir i secret c time w u w' :
  cached (dk_reg w) -> rg_format_version (dk_reg w) = DEVICES_FORMAT_VERSION -> safe_dirs dir (dk_store w) ->
  unlock_with_away dir i secret c time w = (Ok u, w') ->
  (exists d sk, away_checked (dk_reg w) i d c time u sk (devices_path dir)) /\
  forall st', survives dir (dk_store w') st' -> exists reg' st'', load dir st' = (Ok reg', st'') /\
    forall secret' c' time' st v w2, unlock_with_away dir i secret' c' time' (mkDesk reg' st) = (Ok v, w2) -> c < c'.
Proof.
  intros Hc Hv Hsafe Hrun. destruct (post_run _ _ _ _ _ _ (away_unlock_spec dir i secret c time w Hc) Hrun) as (d & sk & Hok & Er & Hdur). split; [eauto|].
  intros st' Hsurv. destruct (Hdur Hsafe Hv st' Hsurv) as [st'' Hload]. exists (dk_reg w'), st''. split; [done|]. intros secret' c' time' st v w2 Hrun'.
  assert (Hc' : cached (dk_reg w')). { rewrite Er. by apply (cached_alter (swept time d (dk_reg w))); [apply cached_swept|]. }
  destruct (post_run _ _ _ _ _ _ (away_unlock_spec dir i secret' c' time' (mkDesk (dk_reg w') st) Hc') Hrun') as (d' & sk' & [Hi' _ _ (last & Hl & Hlt) _ _] & _).
  destruct (swept_lookup time d (dk_reg w) i (ac_device _ _ _ _ _ _ _ _ Hok)) as (d0 & Hd0 & _). cbn [dk_reg] in Hi'. rewrite Er in Hi'. cbn [signed counted with_mac with_devices rg_devices] in Hi'.
  rewrite list_lookup_alter, decide_True, Hd0 in Hi' by done. cbn in Hi'. injection Hi' as <-. cbn in Hl. injection Hl as <-. done.
Qed.

(** ** Emergency codes *)

Lemma try_slots_Ok esc code path l : forall p rmk pos, try_slots esc code path p l = Ok (rmk, pos) ->
  exists k s w kek, pos = (p + k)%nat /\ l !! k = Some s /\ es_wrap s = Some w /\ derive_emergency_kek code (es_index s) = Ok kek /\ unwrap_secret kek w (emergency_wrap_aad (es_index s) esc) path = Ok rmk.
Proof.
  induction l as [|s l IH]; intros p rmk pos; cbn [try_slots]; [done|].
  assert (Hnext : try_slots esc code path (S p) l = Ok (rmk, pos) -> exists k s' w kek, pos = (p + k)%nat /\ (s :: l) !! k = Some s' /\ es_wrap s' = Some w /\ derive_emergency_kek code (es_index s') = Ok kek /\ unwrap_secret kek w (emergency_wrap_aad (es_index s') esc) path = Ok rmk).
  { intros H. destruct (IH _ _ _ H) as (k & s' & w & kek & -> & H'). exists (S k), s', w, kek. split; [lia|done]. }
  destruct (es_wrap s) as [w|] eqn:Ew; [|done]. destruct (derive_emergency_kek code (es_index s)) as [kek|] eqn:Ek; [|done]. cbn [mbind result_bind].
  destruct (unwrap_secret kek w _ path) as [r|e] eqn:Eu; [|destruct e; done]. intros [= -> ->]. exists 0%nat, s, w, kek. split; [lia|done].
Qed.

Record code_checked (reg : DeviceRegistryFile) (text : string) (pos : nat) (u : EmergencyUnlock) (sk : bytes) (path : fpath) : Prop := {
  cc_slot : exists s, rg_emergency_slots reg !! pos = Some s /\ es_index s = eu_slot u /\ exists w code kek,
    es_wrap s = Some w /\ decode_code (trim_text text) = Ok code /\ derive_emergency_kek code (es_index s) = Ok kek /\
    unwrap_secret kek w (emergency_wrap_aad (es_index s) (rg_esc reg)) path = Ok (eu_rmk u);
  cc_state : derive_state_key (eu_rmk u) = Ok sk /\ verify_state_mac sk reg path = Ok tt;
  cc_node_key : open_nk reg (eu_rmk u) path = Ok (eu_nk u);
}.

Lemma emergency_spec dir now text w : cached (dk_reg w) ->
  post (emergency_unlock dir now (Some text))
    (fun o w' => exists u pos sk, o = Some u /\ code_checked (dk_reg w) text pos u sk (devices_path dir) /\ dk_reg w' = signed sk (burn_slot pos now (dk_reg w)) /\
       (safe_dirs dir (dk_store w) -> rg_format_version (dk_reg w) = DEVICES_FORMAT_VERSION ->
        forall st', survives dir (dk_store w') st' -> exists st'', load dir st' = (Ok (dk_reg w'), st'')))
    (fun _ _ => True) w.
Proof.
  intros Hc. unfold emergency_unlock. cbv zeta. apply post_bind, post_lift; [|done]. intros code Hcode. apply post_bind, post_gets, post_bind, post_lift; [|done]. intros [rmk pos] Hopen.
  unfold open_slot in Hopen. case_match; [done|]. destruct (try_slots_Ok _ _ _ _ _ _ _ Hopen) as (k & s & wr & kek & -> & Hs & Hw & Hk & Hu).
  apply post_bind, post_lift; [|done]. intros sk Hsk. apply post_bind, post_lift; [|done]. intros [] Hmac. apply post_bind, post_lift; [|done]. intros nk Hnk.
  apply post_bind, post_on_reg, post_bind. eapply post_mono; [| |apply (persist_durable dir sk (mkDesk (burn_slot (0 + k) now (dk_reg w)) (dk_store w)) Hc)]; [|done]. cbn [dk_reg dk_store].
  intros [] w2 (E2 & _ & Hdur). apply post_ret. eexists _, k, sk. split; [done|]. split; [|split; [done|done]].
  constructor; cbn [eu_rmk eu_nk eu_slot]; [|done|done]. exists s. split; [done|]. split; [unfold slot_index; cbn [Nat.add]; by rewrite Hs|]. by exists wr, code, kek.
Qed.

(** C13: an emergency code is worth one unlock. When a code has opened the node key, its
    slot was unused until then and its state authenticated; the registry that every later
    start loads, also after a crash at any moment, is the one with that slot burned and
    everything else as it was, so no code opens that slot again. *)
Theorem emergency_code_spent dir now text w u w' :
  well_formed (dk_reg w) -> cached (dk_reg w) -> rg_format_version (dk_reg w) = DEVICES_FORMAT_VERSION -> safe_dirs dir (dk_store w) ->
  emergency_unlock dir now (Some text) w = (Ok (Some u), w') ->
  exists pos sk, code_checked (dk_reg w) text pos u sk (devices_path dir) /\
    forall st', survives dir (dk_store w') st' -> exists reg' st'', load dir st' = (Ok reg', st'') /\ reg' = signed sk (burn_slot pos now (dk_reg w)) /\
      forall text' now' st v w2, emergency_unlock dir now' (Some text') (mkDesk reg' st) = (Ok (Some v), w2) -> eu_slot v <> eu_slot u.
Proof.
  intros Hwf Hc Hv Hsafe Hrun. destruct (post_run _ _ _ _ _ _ (emergency_spec dir now text w Hc) Hrun) as (u' & pos & sk & [= <-] & Hok & Er & Hdur). exists pos, sk. split; [done|].
  intros st' Hsurv. destruct (Hdur Hsafe Hv st' Hsurv) as [st'' Hload]. exists (dk_reg w'), st''. split; [done|]. split; [done|]. intros text' now' st v w2 Hrun'.
  assert (Hc' : cached (dk_reg w')) by (by rewrite Er). destruct (cc_slot _ _ _ _ _ _ Hok) as (s & Hs & Es & _).
  destruct (post_run _ _ _ _ _ _ (emergency_spec dir now' text' (mkDesk (dk_reg w') st) Hc') Hrun') as (v' & pos' & sk' & [= <-] & [(s' & Hs' & Es' & (wr & _ & _ & Hw & _)) _ _] & _).
  cbn [dk_reg] in Hs'. rewrite Er in Hs'. cbn [signed burn_slot with_mac with_slots rg_emergency_slots] in Hs'. rewrite <- Es', <- Es.
  destruct (decide (pos = pos')) as [<-|Hne].
  - rewrite list_lookup_alter, decide_True, Hs in Hs' by done. cbn in Hs'. injection Hs' as <-. done.
  - rewrite list_lookup_alter_ne in Hs' by done. destruct (wf_slots _ Hwf _ _ Hs) as [-> _], (wf_slots _ Hwf _ _ Hs') as [-> _]. lia.
Qed.

(** ** Any sequence of changes *)

(** The parties' secrets, the node key, and the registry in the file. *)
Record Node : Type := mkNode { n_secrets : secrets; n_key : bytes; n_registry : DeviceRegistryFile }.

(** A command of the operator, which has unlocked and has the master key, or an unlock;
    each on the registry it loaded, with whatever state the disk and the random generator
    are in. *)
Inductive registry_step (dir : list string) (rmk : bytes) : Node -> Node -> Prop :=
| step_enroll sec nk reg st sk new a time now id b w1 w2 : derive_state_key rmk = Ok sk ->
    enroll_device dir new rmk a time now (mkDesk reg st) = (Ok id, w1) -> persist dir sk w1 = (Ok tt, w2) -> decode_hex_id id = Some b ->
    registry_step dir rmk (mkNode sec nk reg) (mkNode (upd sec b (nd_secret new)) nk (dk_reg w2))
| step_remove sec nk reg st sk sel a w1 w2 : derive_state_key rmk = Ok sk ->
    remove_device sel a (mkDesk reg st) = (Ok tt, w1) -> persist dir sk w1 = (Ok tt, w2) ->
    registry_step dir rmk (mkNode sec nk reg) (mkNode sec nk (dk_reg w2))
| step_refresh sec nk reg st sk a time n w1 w2 : derive_state_key rmk = Ok sk ->
    refresh_grants dir rmk a time (mkDesk reg st) = (Ok n, w1) -> persist dir sk w1 = (Ok tt, w2) ->
    registry_step dir rmk (mkNode sec nk reg) (mkNode sec nk (dk_reg w2))
| step_period sec nk reg st sk seconds a time w1 w2 : derive_state_key rmk = Ok sk ->
    set_grant_period dir seconds nk rmk a time (mkDesk reg st) = (Ok tt, w1) -> persist dir sk w1 = (Ok tt, w2) ->
    registry_step dir rmk (mkNode sec nk reg) (mkNode sec nk (dk_reg w2))
| step_factor sec nk reg st sk home factor tpm_secret a i d s w1 w2 : derive_state_key rmk = Ok sk ->
    set_home_factor home factor tpm_secret rmk a (mkDesk reg st) = (Ok tt, w1) -> persist dir sk w1 = (Ok tt, w2) ->
    resolve_selector reg home = Ok i -> rg_devices reg !! i = Some d -> factor_secret tpm_secret (dr_id_bytes d) factor = Ok s ->
    registry_step dir rmk (mkNode sec nk reg) (mkNode (upd sec (dr_id_bytes d) s) nk (dk_reg w2))
| step_reseal sec nk reg st sk id a resealed passcode hmac i d p p' fresh s w1 w2 : derive_state_key rmk = Ok sk ->
    reseal_device id rmk a resealed passcode hmac (mkDesk reg st) = (Ok tt, w1) -> persist dir sk w1 = (Ok tt, w2) ->
    resolve_selector reg id = Ok i -> rg_devices reg !! i = Some d -> dr_tpm2 d = Some p -> resealed p = Ok (p', fresh) -> home_device_secret reg i fresh passcode hmac = Ok s ->
    registry_step dir rmk (mkNode sec nk reg) (mkNode (upd sec (dr_id_bytes d) s) nk (dk_reg w2))
| step_rotate sec nk nk' reg st w1 : rewrite_nk_wrap dir rmk nk' (mkDesk reg st) = (Ok tt, w1) -> blen nk' = 32 ->
    registry_step dir rmk (mkNode sec nk reg) (mkNode sec nk' (dk_reg w1))
| step_home sec nk reg st i secret time u w1 : unlock_with_home dir i secret time (mkDesk reg st) = (Ok u, w1) -> ul_rmk u = rmk ->
    registry_step dir rmk (mkNode sec nk reg) (mkNode sec nk (dk_reg w1))
| step_away sec nk reg st i secret c time u w1 : unlock_with_away dir i secret c time (mkDesk reg st) = (Ok u, w1) -> ul_rmk u = rmk ->
    registry_step dir rmk (mkNode sec nk reg) (mkNode sec nk (dk_reg w1))
| step_code sec nk reg st now text u w1 : emergency_unlock dir now (Some text) (mkDesk reg st) = (Ok (Some u), w1) -> eu_rmk u = rmk ->
    registry_step dir rmk (mkNode sec nk reg) (mkNode sec nk (dk_reg w1)).

Definition node_ok (codes : codebook) (rmk : bytes) (n : Node) : Prop := trusted (n_secrets n) codes rmk (n_key n) (n_registry n).

(** A command that keeps the registry sound, and is then written. *)
Lemma persisted sec codes rmk nk dir sk w1 w2 : sound sec codes rmk nk (dk_reg w1) -> derive_state_key rmk = Ok sk -> persist dir sk w1 = (Ok tt, w2) -> trusted sec codes rmk nk (dk_reg w2).
Proof. intros Hs Hk Hp. by destruct (post_run _ _ _ _ _ _ (persist_trusted _ _ _ _ dir sk w1 Hs Hk) Hp). Qed.

Lemma refresh_sound sec codes rmk nk dir a time w : sound sec codes rmk nk (dk_reg w) ->
  post (refresh_grants dir rmk a time) (fun _ w' => sound sec codes rmk nk (dk_reg w')) (fun _ _ => True) w.
Proof.
  intros Hs. unfold refresh_grants. apply post_bind, post_guard; [|done]. intros _. apply post_bind, post_lift; [|done]. intros now _.
  apply post_bind. eapply post_mono; [| |apply (sweep_sound sec codes rmk nk now w Hs)]; [|done]. intros n w1 [Hs1 _].
  eapply post_mono; [| |apply (mint_sound sec codes rmk nk now _ w1 Hs1)]; [|done]. by intros m w2 [Hs2 _].
Qed.

Lemma swept_sound sec codes rmk nk time d reg : sound sec codes rmk nk reg -> sound sec codes rmk nk (swept time d reg).
Proof.
  intros Hs. unfold swept. destruct (dr_wrap d), (dr_grant d), time as [now|]; try done. apply sound_map; [done|]. intros x Hx. destruct (expired now x); [by eapply replace_ungranted|by eapply replace_self].
Qed.

Lemma rotate_trusted sec codes rmk nk nk' dir w : sound sec codes rmk nk (dk_reg w) -> blen nk' = 32 ->
  post (rewrite_nk_wrap dir rmk nk') (fun _ w' => trusted sec codes rmk nk' (dk_reg w')) (fun _ _ => True) w.
Proof.
  intros Hs Hn. unfold rewrite_nk_wrap. apply post_bind, post_gets. destruct (nk_key_total rmk) as [key Ekey]. apply post_bind, post_lift; [|done]. intros key' E. rewrite Ekey in E. injection E as <-.
  apply post_bind, post_on_store. eapply post_mono; [| |apply (wrap_opens key nk' _ _ Hn)]; [|done]. intros wr st Hop. apply post_bind, post_on_reg. cbn [dk_reg dk_store].
  apply post_bind, post_lift; [|done]. intros sk Hsk.
  assert (Hs' : sound sec codes rmk nk' (with_nk_wrap (rg_away_grant_seconds (dk_reg w)) wr (dk_reg w))) by (eapply rewrap_sound; try done; [apply (wf_period _ (so_wf _ _ _ _ _ Hs))|by left]).
  eapply post_mono; [| |apply (persist_trusted sec codes rmk nk' dir sk (mkDesk (with_nk_wrap (rg_away_grant_seconds (dk_reg w)) wr (dk_reg w)) st) Hs' Hsk)]; [|done]. by intros [] w' [_ Ht].
Qed.

(** Enrolling leaves one device more, which [persist] would refuse beyond the limit. *)
Lemma enroll_grows dir new rmk a time now w : post (enroll_device dir new rmk a time now) (fun _ w' => length (rg_devices (dk_reg w')) = S (length (rg_devices (dk_reg w)))) (fun _ _ => True) w.
Proof.
  unfold enroll_device. apply post_bind, post_gets, post_bind, post_guard; [|done]. intros _. apply post_bind, post_lift; [|done]. intros [] _. apply post_bind, post_guard; [|done]. intros _.
  apply post_bind, post_lift; [|done]. intros [] _. apply post_bind, post_on_store. unfold post at 1. destruct (fresh_id _ _ _ _) as [[id|] st1]; [|done].
  apply post_bind, post_lift; [|done]. intros kek _. apply post_bind, post_on_store. unfold post at 1. destruct (new_record _ _ _ _ _ _ _ _) as [[rec|] st2]; [|done]. cbv zeta.
  apply post_bind, post_on_reg. cbn [dk_reg dk_store]. apply post_bind. destruct (_ && _ && _).
  - apply post_bind, post_on_reg. cbn [dk_reg dk_store]. destruct time as [t|]; [|apply post_ret, post_ret; cbn; unfold strip_away; rewrite length_fmap, length_app; cbn; lia].
    apply post_bind. eapply post_mono; [| |apply mint_length]; [|done]. intros n w' Hl. apply post_ret, post_ret. rewrite Hl. cbn. unfold strip_away. rewrite length_fmap, length_app. cbn. lia.
  - apply post_ret, post_ret. cbn. rewrite length_app. cbn. lia.
Qed.

Lemma fill_ids_length path l : forall l', fill_ids path l = Ok l' -> length l' = length l.
Proof.
  induction l as [|d l IH]; intros l'; cbn [fill_ids]; [by intros [= <-]|]. intros Hl. apply bind_Ok in Hl as (b & _ & Hl). apply bind_Ok in Hl as (l1 & Hl1 & [= <-]). cbn. by rewrite (IH _ Hl1).
Qed.
Lemma persist_few dir sk w w' : persist dir sk w = (Ok tt, w') -> blen (rg_devices (dk_reg w)) <= MAX_DEVICES.
Proof.
  unfold persist. intros H. apply prog_bind_Ok in H as (r & w0 & [= <- <-] & H). apply prog_bind_Ok in H as (r & w1 & [Hf _]%lift_res_Ok & H).
  apply prog_bind_Ok in H as ([] & w2 & _ & H). apply prog_bind_Ok in H as ([] & w3 & [Hck%check_iff _]%lift_res_Ok & _). apply wf_few in Hck.
  unfold fill_derived in Hf. apply bind_Ok in Hf as (e & _ & Hf). apply bind_Ok in Hf as (l & Hl%fill_ids_length & [= <-]). cbn in Hck. unfold blen in *. lia.
Qed.

Lemma step_trusted dir codes rmk n n' : registry_step dir rmk n n' -> node_ok codes rmk n -> node_ok codes rmk n'.
Proof.
  unfold node_ok. intros Hstep. destruct Hstep; cbn [n_secrets n_key n_registry]; intros [Hs Hm].
  - pose proof (post_run _ _ _ _ _ _ (enroll_grows dir new rmk a time now (mkDesk reg st)) H0) as Hlen. cbn [dk_reg] in Hlen.
    pose proof (persist_few _ _ _ _ H1) as Hmax.
    unfold blen in Hmax. destruct (post_run _ _ _ _ _ _ (enroll_sound _ _ _ _ dir new a time now (mkDesk reg st) Hs ltac:(cbn; unfold blen; lia)) H0) as (b' & -> & Hl & _ & Hs').
    rewrite decode_hex_id_hex in H2 by done. injection H2 as <-. by eapply persisted.
  - eapply persisted; [|done..]. exact (post_run _ _ _ _ _ _ (remove_sound _ _ _ _ sel a (mkDesk reg st) Hs) H0).
  - eapply persisted; [|done..]. exact (post_run _ _ _ _ _ _ (refresh_sound _ _ _ _ dir a time (mkDesk reg st) Hs) H0).
  - eapply persisted; [|done..]. exact (post_run _ _ _ _ _ _ (period_sound _ _ _ _ dir seconds a time (mkDesk reg st) Hs) H0).
  - destruct (post_run _ _ _ _ _ _ (factor_sound _ _ _ _ home factor tpm_secret a (mkDesk reg st) Hs) H0) as (i' & d' & s' & Hi & Hd & Hsec & Hs'). cbn [dk_reg] in Hi, Hd.
    assert (i' = i) as -> by congruence. assert (d' = d) as -> by congruence. assert (s' = s) as -> by congruence. by eapply persisted.
  - destruct (post_run _ _ _ _ _ _ (reseal_sound _ _ _ _ id a resealed passcode hmac (mkDesk reg st) Hs) H0) as (i' & d' & q & q' & f' & s' & Hi & Hd & Hq & Hr & Hsec & Hs'). cbn [dk_reg] in Hi, Hd, Hsec.
    assert (i' = i) as -> by congruence. assert (d' = d) as -> by congruence. assert (q = p) as -> by congruence. assert (f' = fresh) as -> by congruence. assert (s' = s) as -> by congruence. by eapply persisted.
  - exact (post_run _ _ _ _ _ _ (rotate_trusted _ _ _ _ nk' dir (mkDesk reg st) Hs H0) H).
  - destruct (post_run _ _ _ _ _ _ (home_unlock_spec sec codes rmk nk dir i secret time (mkDesk reg st) (Build_trusted _ _ _ _ _ Hs Hm)) H) as [_ Hu]. by destruct (Hu H0) as (_ & ? & _).
  - destruct (post_run _ _ _ _ _ _ (away_unlock_spec dir i secret c time (mkDesk reg st) (so_cached _ _ _ _ _ Hs)) H) as (d & sk & [Hi Hk _ _ [Hsk _] _] & -> & _). rewrite H0 in Hsk.
    apply signed_trusted; [|done]. destruct (swept_lookup time d reg i Hi) as (d0 & Hd0 & Hor). eapply sign_count_sound; [by apply swept_sound|exact Hd0|]. by destruct Hor as [->| ->].
  - destruct (post_run _ _ _ _ _ _ (emergency_spec dir now text (mkDesk reg st) (so_cached _ _ _ _ _ Hs)) H) as (u' & pos & sk & [= <-] & [_ [Hsk _] _] & -> & _). rewrite H0 in Hsk.
    apply signed_trusted; [by apply burn_sound|done].
Qed.

(** C12: the registry never loses the node key. Starting from a registry whose keys all
    open and whose state authenticates, after any sequence of enrolments, removals,
    refreshes, period changes, second factors, reseals, key rotations and unlocks, whatever
    the disk and the random generator did, they still do: every home device that is still
    registered opens the current node key with its current secret, or the registry file
    could not be written. *)
Theorem registry_keeps_opening dir codes rmk n n' : node_ok codes rmk n -> rtc (registry_step dir rmk) n n' ->
  node_ok codes rmk n' /\
  forall i d st time, rg_devices (n_registry n') !! i = Some d -> dr_kind d = Tpm2 ->
    match fst (unlock_with_home dir i (n_secrets n' (dr_id_bytes d)) time (mkDesk (n_registry n') st)) with
    | Ok u => ul_nk u = n_key n' /\ ul_rmk u = rmk
    | Err e => exists what, e = DeviceRegistryIo what
    end.
Proof.
  intros Hn Hsteps. assert (Hn' : node_ok codes rmk n') by (induction Hsteps; [done|]; eauto using step_trusted). split; [done|]. intros i d st time Hi Hk.
  pose proof (home_unlock_spec (n_secrets n') codes rmk (n_key n') dir i (n_secrets n' (dr_id_bytes d)) time (mkDesk (n_registry n') st) Hn') as Hp. unfold post in Hp.
  destruct (unlock_with_home _ _ _ _ _) as [[u|e] w']; cbn [fst dk_reg] in *; [|by eapply Hp]. destruct Hp as [Hr Hu]. specialize (Hr d Hi Hk eq_refl). by destruct (Hu Hr) as [? _].
Qed.

(** ** The first registry *)

Context {TL : TokenLaws}.

Lemma draw_codes_spec n : forall st, post (draw_codes n) (fun l _ => length l = n /\ Forall (fun c => blen c = 32) l) (fun _ _ => False) st.
Proof.
  induction n as [|n IH]; intros st; cbn [draw_codes]; [by apply post_ret|]. apply post_bind. unfold post at 1, draw_bytes. pose proof (fill_bytes_len (s_rng st) EMERGENCY_CODE_BYTES) as Hl. destruct (fill_bytes _ _) as [c r]. cbn in Hl. unfold EMERGENCY_CODE_BYTES in Hl.
  apply post_bind. eapply post_mono; [| |apply IH]; [|done]. intros l st' [Hn HF]. apply post_ret. split; [cbn; lia|]. constructor; [unfold blen; lia|done].
Qed.

Lemma wrap_slots_spec rmk esc l : forall i st, blen rmk = 32 -> post (wrap_slots i l rmk esc)
  (fun slots _ => length slots = length l /\ forall k s, slots !! k = Some s -> es_index s = Z.of_nat (i + k) /\ es_burned_at_unix s = None /\ exists c w, l !! k = Some c /\ es_wrap s = Some w /\
     forall kek, derive_emergency_kek c (es_index s) = Ok kek -> opens kek w (emergency_wrap_aad (es_index s) esc) rmk) (fun _ _ => True) st.
Proof.
  induction l as [|c l IH]; intros i st Hr; cbn [wrap_slots]; [apply post_ret; by split; [|intros [|k]]|]. apply post_bind, post_lift; [|done]. intros kek Hk. apply post_bind.
  eapply post_mono; [| |apply (wrap_opens kek rmk _ _ Hr)]; [|done]. intros w st1 Hop. apply post_bind. eapply post_mono; [| |apply (IH (S i) st1 Hr)]; [|done]. intros slots st2 [Hl Hs]. apply post_ret.
  split; [cbn; by rewrite Hl|]. intros [|k] s; cbn.
  - intros [= <-]. split; [cbn; lia|]. split; [done|]. exists c, w. split_and!; try done. cbn [es_index]. intros kek' Hk'. by replace kek' with kek by congruence.
  - intros Hi. destruct (Hs k s Hi) as [-> H']. split; [lia|done].
Qed.

Lemma first_record_spec first id kek rmk esc secs now st : blen rmk = 32 -> blen (nd_secret first) = 32 -> derive_device_kek (nd_secret first) id = Ok kek ->
  post (first_record first id kek rmk esc now) (fun rec _ => new_record_ok rmk (nd_secret first) esc secs first id true rec /\ (nd_kind first = Fido2 -> dr_sign_count_last rec = Some (nd_sign_count first))) (fun _ _ => True) st.
Proof.
  intros Hrmk Hlen Hkek. assert (Hkl : blen kek = 32) by (unfold derive_device_kek in Hkek; destruct (hkdf32_total (nd_secret first) (as_bytes "y2q/v1/device-kek") id) as (k & E & Hk); congruence).
  unfold first_record. cbv zeta. destruct (nd_kind first) eqn:Ek.
  - apply post_bind, post_lift; [|done]. intros tp _. apply post_bind. eapply post_mono; [| |apply (wrap_opens kek rmk _ _ Hrmk)]; [|done]. intros w st1 Hop. apply post_ret. split; [|done].
    constructor; try done; [by rewrite Ek|]. constructor; cbn; try done. intros k w' E [= <-]. rewrite Hkek in E. by injection E as <-.
  - apply post_bind, post_lift; [|done]. intros fp _. apply post_bind. eapply post_mono; [| |apply (wrap_opens kek rmk _ _ Hrmk)]; [|done]. intros w st1 Hop.
    apply post_bind, post_lift; [|done]. intros key Ekey. apply post_bind. eapply post_mono; [| |apply (wrap_opens key kek _ _ Hkl)]; [|done]. intros kw st2 Hkw. apply post_ret. split; [|done].
    constructor; try done; [by rewrite Ek|]. constructor; cbn [dr_id_bytes dr_wrap dr_grant dr_kek_wrap]; try done.
    + intros k w' E [= <-]. rewrite Hkek in E. by injection E as <-.
    + intros k key' w' E1 E2 [= <-]. rewrite Hkek in E1. rewrite Ekey in E2. by injection E1 as <-; injection E2 as <-.
Qed.

Lemma hmac_node_key adopt root esc : (forall k, adopt = Some k -> blen k = 32) -> blen (new_node_key adopt root esc) = 32.
Proof. destruct adopt as [k|]; cbn; [auto|]. intros _. apply hmac_sha256_len. Qed.

Lemma post_any {W E V} (m : prog W E V) w : post m (fun _ _ => True) (fun _ _ => True) w.
Proof. unfold post. by destruct (m w) as [[] ?]. Qed.

Definition book (codes : list bytes) : codebook := fun i => codes !!! Z.to_nat i.

(** What a printed code is worth: its slot is there, unburned, and holds the master key under
    the code. *)
Definition slot_for (reg : DeviceRegistryFile) (rmk : bytes) (i : nat) (c : bytes) : Prop :=
  exists s w, rg_emergency_slots reg !! i = Some s /\ es_index s = Z.of_nat i /\ es_burned_at_unix s = None /\ es_wrap s = Some w /\
    forall kek, derive_emergency_kek c (Z.of_nat i) = Ok kek -> opens kek w (emergency_wrap_aad (Z.of_nat i) (rg_esc reg)) rmk.

Lemma build_registry_spec dir first secs perm now adopt st : blen (nd_secret first) = 32 -> (forall k, adopt = Some k -> blen k = 32) ->
  post (build_registry dir first secs perm now adopt)
    (fun '(nk, reg, codes) _ => length codes = EMERGENCY_SLOTS /\ (forall k, adopt = Some k -> nk = k) /\ rg_format_version reg = DEVICES_FORMAT_VERSION /\ exists rmk d, rmk = (fill_bytes (s_rng st) 32).1 /\ rg_devices reg = [d] /\ dr_label d = nd_label first /\ dr_kind d = nd_kind first /\
       is_Some (dr_wrap d) /\ (nd_kind first = Fido2 -> dr_sign_count_last d = Some (nd_sign_count first)) /\ (forall i c, codes !! i = Some c -> slot_for reg rmk i c) /\
       cached reg /\ keyed (fun _ => nd_secret first) (book codes) rmk nk reg /\ forall sk, derive_state_key rmk = Ok sk -> authentic sk reg) (fun _ _ => True) st.
Proof.
  intros Hlen Hadopt. unfold build_registry. apply post_bind. unfold post at 1, draw_bytes at 1. pose proof (fill_bytes_len (s_rng st) 32) as Hr. destruct (fill_bytes (s_rng st) 32) as [rmk r0] eqn:Edraw. cbn in Hr.
  assert (Hrmk : blen rmk = 32) by (unfold blen; lia). apply post_bind. eapply (post_mono _ (fun _ _ => True) _ (fun _ _ => True)); [|done|apply post_any].
  intros root st1 _. apply post_bind. eapply post_mono; [| |apply draw_codes_spec]; [|done]. intros codes st2 [Hn HF]. cbv zeta. set (esc := emergency_commitment codes). set (nk := new_node_key adopt root esc).
  assert (Hnk : blen nk = 32) by (by apply hmac_node_key). assert (Hesc : blen esc = 32) by (unfold esc, emergency_commitment, blen; by rewrite sha256_len).
  destruct (nk_key_total rmk) as [key Ekey]. apply post_bind, post_lift; [|done]. intros key' E. rewrite Ekey in E. injection E as <-. apply post_bind.
  eapply post_mono; [| |apply (wrap_opens key nk _ _ Hnk)]; [|done]. intros nkw st3 Hnkw. apply post_bind. eapply post_mono; [| |apply (wrap_slots_spec rmk esc codes 0 _ Hrmk)]; [|done]. intros slots st4 [Hsl Hslots].
  apply post_bind. unfold post at 1, draw_bytes at 1. pose proof (fill_bytes_len (s_rng st4) 16) as Hid. destruct (fill_bytes (s_rng st4) 16) as [id r1]. cbn in Hid.
  apply post_bind, post_lift; [|done]. intros kek Hkek. apply post_bind. eapply post_mono; [| |apply (first_record_spec first id kek rmk esc secs now _ Hrmk Hlen Hkek)]; [|done]. intros rec st5 [[Ei Eb El Ek _ _ _ Hro Hke] Hcnt].
  apply post_bind, post_lift; [|done]. intros sk Hsk. apply post_ret. split; [done|]. split; [by intros k ->|]. split; [done|]. exists rmk, rec. split_and!; try done.
  - destruct (nd_kind first); [by destruct Hro as [? _]|]. destruct Hro as [Hro _]. by apply Hro.
  - intros i c Hi. assert (is_Some (slots !! i)) as [s Hs] by (apply lookup_lt_is_Some; rewrite Hsl; by eapply lookup_lt_Some). destruct (Hslots i s Hs) as (Hx & Hb & c' & w & Hc & Hw & Hop).
    rewrite Hi in Hc. injection Hc as <-. rewrite Hx in Hop. exists s, w. split_and!; try done.
  - split; cbn; [by apply decode32_encode|]. apply Forall_singleton. rewrite Ei, Eb. by apply decode_hex_id_hex.
  - constructor; try done; cbn [with_mac rg_nk_wrap rg_esc rg_away_grant_seconds rg_devices rg_emergency_slots].
    + intros k E. rewrite Ekey in E. by injection E as <-.
    + by apply Forall_singleton.
    + intros s w kek' [k Hk]%list_elem_of_lookup Hw Hd. destruct (Hslots k s Hk) as (Hx & _ & c & w' & Hc & Hw' & Hop). rewrite Hw in Hw'. injection Hw' as <-. apply Hop. rewrite Hx in Hd |- *. unfold book in Hd. cbn [Nat.add] in *. rewrite Nat2Z.id in Hd. by rewrite (list_lookup_total_correct _ _ _ Hc) in Hd.
  - intros sk' E. rewrite Hsk in E. injection E as <-. apply signed_authentic.
Qed.

(** ** The first unlock *)

(** An unlock that gives the node key, unless the registry file could not be written. *)
Definition served {U} (key : U -> bytes) (nk : bytes) (r : result DeviceError U) : Prop :=
  match r with Ok u => key u = nk | Err e => exists what, e = DeviceRegistryIo what end.

Lemma home_opens sec codes rmk nk dir i d time reg st : trusted sec codes rmk nk reg -> rg_devices reg !! i = Some d -> dr_kind d = Tpm2 ->
  served ul_nk nk (fst (unlock_with_home dir i (sec (dr_id_bytes d)) time (mkDesk reg st))).
Proof.
  intros Ht Hi Hk. pose proof (home_unlock_spec sec codes rmk nk dir i (sec (dr_id_bytes d)) time (mkDesk reg st) Ht) as Hp. unfold post in Hp. unfold served.
  destruct (unlock_with_home _ _ _ _ _) as [[u|e] w']; cbn [fst dk_reg] in *; [|by eapply Hp]. destruct Hp as [Hr Hu]. by destruct (Hu (Hr d Hi Hk eq_refl)) as [? _].
Qed.

Lemma away_opens sec codes rmk nk dir i d c last time reg st : trusted sec codes rmk nk reg -> rg_devices reg !! i = Some d -> dr_kind d = Fido2 -> is_Some (dr_wrap d) ->
  dr_sign_count_last d = Some last -> last < c -> served ul_nk nk (fst (unlock_with_away dir i (sec (dr_id_bytes d)) c time (mkDesk reg st))).
Proof.
  intros [Hs Hm] Hi Hk [w Hw] Hlast Hlt. destruct (keyed_devices _ d _ _ _ _ Hs) as [K1 K2 _ _]; [by eapply list_elem_of_lookup_2|].
  destruct (device_kek_total (sec (dr_id_bytes d)) (dr_id_bytes d)) as [kek Ek]. destruct (state_key_total rmk) as [sk Hsk].
  enough (Hp : post (unlock_with_away dir i (sec (dr_id_bytes d)) c time) (fun u _ => ul_nk u = nk) (fun e _ => exists what, e = DeviceRegistryIo what) (mkDesk reg st)).
  { unfold post in Hp. unfold served. by destruct (unlock_with_away _ _ _ _ _ _) as [[]]. }
  unfold unlock_with_away, device_at. apply post_bind, post_gets. cbn [dk_reg]. rewrite (total_lookup _ _ _ Hi). cbv zeta. unfold secret32. rewrite K1, Hk, Ek, Hw.
  apply post_bind, post_lift; [|done]. intros [] _. apply post_bind, post_guard; [|done]. intros _. apply post_bind, post_guard; [|done]. intros _.
  apply post_bind, post_lift; [|done]. intros ? [= <-]. apply post_bind, post_gets. cbn [dk_reg]. unfold rmk_for_away, rmk_from_permanent, check_deadline. rewrite Hw. cbn [ok_or mbind result_bind]. rewrite (K2 kek w Ek Hw), Hlast.
  apply post_bind, post_lift; [|done]. intros ? [= <-]. rewrite Hsk. apply post_bind, post_lift; [|done]. intros ? [= <-]. rewrite (Hm sk Hsk). apply post_bind, post_lift; [|done]. intros [] _.
  apply post_bind, post_ret, post_bind, post_lift; [|done]. intros ? [= <-]. apply post_bind, post_guard; [|intros E%Z.leb_le; lia]. intros _. apply post_bind, post_gets. cbn [dk_reg].
  rewrite (open_nk_sound sec codes rmk nk) by done. apply post_bind, post_lift; [|done]. intros ? [= <-]. apply post_bind. unfold update_device. apply post_on_reg, post_bind. cbn [dk_reg dk_store].
  eapply post_mono; [| |apply (persist_trusted sec codes rmk nk dir sk (mkDesk _ st)); [by eapply sign_count_sound|done]]; [|done]. intros [] w2 _. by apply post_ret.
Qed.

(** No slot before [i] is opened by the code. *)
Definition earlier_refuse (dir : list string) (reg : DeviceRegistryFile) (i : nat) (c : bytes) : Prop :=
  forall j s w kek, (j < i)%nat -> rg_emergency_slots reg !! j = Some s -> es_wrap s = Some w -> derive_emergency_kek c (es_index s) = Ok kek ->
    unwrap_secret kek w (emergency_wrap_aad (es_index s) (rg_esc reg)) (devices_path dir) = Err DeviceUnwrapFailed.

Lemma emergency_kek_total c i : exists kek, derive_emergency_kek c i = Ok kek.
Proof. destruct (hkdf32_total c (as_bytes "y2q/v1/emergency-kek") [byte_of_Z i]) as (k & E & _). by exists k. Qed.

Lemma try_slots_at esc c path l : forall p i s w kek rmk, l !! i = Some s -> es_wrap s = Some w -> derive_emergency_kek c (es_index s) = Ok kek ->
  unwrap_secret kek w (emergency_wrap_aad (es_index s) esc) path = Ok rmk ->
  (forall j s w kek, (j < i)%nat -> l !! j = Some s -> es_wrap s = Some w -> derive_emergency_kek c (es_index s) = Ok kek ->
    unwrap_secret kek w (emergency_wrap_aad (es_index s) esc) path = Err DeviceUnwrapFailed) -> try_slots esc c path p l = Ok (rmk, (p + i)%nat).
Proof.
  induction l as [|s0 l IH]; intros p [|i] s w kek rmk Hi Hw Hk Hu He; try done; cbn [try_slots].
  - injection Hi as ->. rewrite Hw, Hk. cbn [mbind result_bind]. rewrite Hu. by rewrite Nat.add_0_r.
  - assert (Hrest : try_slots esc c path (S p) l = Ok (rmk, (p + S i)%nat)) by (replace (p + S i)%nat with (S p + i)%nat by lia; eapply IH; eauto; intros j s' w' kek' Hj; apply (He (S j)); lia).
    destruct (es_wrap s0) as [w0|] eqn:E0; [|done]. destruct (emergency_kek_total c (es_index s0)) as [k0 Ek0]. rewrite Ek0. cbn [mbind result_bind]. by rewrite (He 0%nat s0 w0 k0 ltac:(lia) eq_refl E0 Ek0).
Qed.

Lemma code_opens sec codes rmk nk dir reg i c text now st : trusted sec codes rmk nk reg -> slot_for reg rmk i c -> decode_code (trim_text text) = Ok c -> earlier_refuse dir reg i c ->
  served (fun o => from_option eu_nk [] o) nk (fst (emergency_unlock dir now (Some text) (mkDesk reg st))).
Proof.
  intros [Hs Hm] (s & w & Hi & Hx & _ & Hw & Hop) Hc He. destruct (emergency_kek_total c (Z.of_nat i)) as [kek Ek]. destruct (state_key_total rmk) as [sk Hsk].
  assert (Ho : open_slot reg c (devices_path dir) = Ok (rmk, i)).
  { unfold open_slot. destruct (forallb _ _) eqn:E.
    - pose proof (proj1 (List.forallb_forall _ _) E s ltac:(apply list_elem_of_In; by eapply list_elem_of_lookup_2)) as E'. cbn in E'. by rewrite Hw in E'.
    - apply (try_slots_at _ _ _ _ 0 i s w kek rmk); try done; rewrite Hx; [done|by apply Hop]. }
  enough (Hp : post (emergency_unlock dir now (Some text)) (fun o _ => from_option eu_nk [] o = nk) (fun e _ => exists what, e = DeviceRegistryIo what) (mkDesk reg st)).
  { unfold post in Hp. unfold served. by destruct (emergency_unlock _ _ _ _) as [[]]. }
  unfold emergency_unlock. cbv zeta. rewrite Hc. apply post_bind, post_lift; [|done]. intros ? [= <-]. apply post_bind, post_gets. cbn [dk_reg]. rewrite Ho. apply post_bind, post_lift; [|done]. intros ? [= <-].
  rewrite Hsk. apply post_bind, post_lift; [|done]. intros ? [= <-]. rewrite (Hm sk Hsk). apply post_bind, post_lift; [|done]. intros [] _.
  rewrite (open_nk_sound sec codes rmk nk) by done. apply post_bind, post_lift; [|done]. intros ? [= <-]. apply post_bind, post_on_reg, post_bind. cbn [dk_reg dk_store].
  eapply post_mono; [| |apply (persist_trusted sec codes rmk nk dir sk (mkDesk _ st)); [by apply burn_sound|done]]; [|done]. intros [] w2 _. by apply post_ret.
Qed.

(** C26: what initialising a registry gives. When it succeeds, the registry holds one
    device, the given one, and ten unburned slots, one for each code of the sheet that was
    printed; it is sound and its state authenticates.  Unlocking with the device (a
    security key with a counter above the one it was enrolled with) gives the node key
    that was answered, the adopted one when one was; so does each code, when no earlier
    slot opens under it by accident; both unless the registry file cannot be written back.
    In directories that are safe the registry is on the disk: what a crash leaves loads as
    the one that was answered. *)
Theorem init_registry_opens dir first secs perm now adopt print st nk reg st' : (forall k, adopt = Some k -> blen k = 32) ->
  init_registry dir first secs perm now adopt print st = (Ok (nk, reg), st') ->
  exists rmk codes d, length codes = EMERGENCY_SLOTS /\ print (code_sheet codes) = Ok tt /\ rg_devices reg = [d] /\ dr_label d = nd_label first /\ dr_kind d = nd_kind first /\
    trusted (fun _ => nd_secret first) (book codes) rmk nk reg /\ (forall k, adopt = Some k -> nk = k) /\
    (forall time st1, match nd_kind first with
                      | Tpm2 => served ul_nk nk (fst (unlock_with_home dir 0 (nd_secret first) time (mkDesk reg st1)))
                      | Fido2 => forall c, nd_sign_count first < c -> served ul_nk nk (fst (unlock_with_away dir 0 (nd_secret first) c time (mkDesk reg st1)))
                      end) /\
    length (rg_emergency_slots reg) = EMERGENCY_SLOTS /\
    (forall i c, codes !! i = Some c -> slot_for reg rmk i c /\
       forall text now1 st1, decode_code (trim_text text) = Ok c -> earlier_refuse dir reg i c ->
         served (fun o => from_option eu_nk [] o) nk (fst (emergency_unlock dir now1 (Some text) (mkDesk reg st1)))) /\
    (safe_dirs dir st -> forall st1, survives dir st' st1 -> exists st2, load dir st1 = (Ok reg, st2)).
Proof.
  intros Hadopt Hrun. unfold init_registry in Hrun. apply prog_bind_Ok in Hrun as (there & st1 & Hx & Hrun). apply (steady_run _ _ _ _ (steady_registry_exists dir)) in Hx. destruct there; [done|].
  apply prog_bind_Ok in Hrun as ([] & st2 & [_ ->]%guard_not_Ok & Hrun). apply prog_bind_Ok in Hrun as ([] & st3 & [_ ->]%guard_not_Ok & Hrun). apply prog_bind_Ok in Hrun as ([] & st4 & [_ ->]%lift_res_Ok & Hrun).
  apply prog_bind_Ok in Hrun as ([] & st5 & [Hlen%secret32_Ok ->]%lift_res_Ok & Hrun). apply prog_bind_Ok in Hrun as ([[nk0 reg0] codes] & st6 & Hbuild & Hrun).
  destruct (post_run _ _ _ _ _ _ (build_registry_spec dir first secs perm now adopt _ Hlen Hadopt) Hbuild) as (Hn & Hk & Hv & rmk & d & _ & Hd & Hlab & Hkind & Hwr & Hcnt & Hsl & Hc & Hke & Hau).
  apply (steady_run _ _ _ _ (steady_build dir first secs perm now adopt)) in Hbuild.
  apply prog_bind_Ok in Hrun as ([] & st7 & [Hwf%check_iff ->]%lift_res_Ok & Hrun). apply prog_bind_Ok in Hrun as (b & st8 & [Hb ->]%lift_res_Ok & Hrun).
  apply prog_bind_Ok in Hrun as ([] & st9 & [Hp ->]%lift_res_Ok & Hrun). apply prog_bind_Ok in Hrun as ([] & st10 & Hcr & Hrun). injection Hrun as <- <- <-.
  pose proof (post_run _ _ _ _ _ _ (create_settled dir b st6) Hcr) as Hset. assert (Htr : trusted (fun _ => nd_secret first) (book codes) rmk nk0 reg0) by (constructor; [by constructor|done]).
  exists rmk, codes, d. split_and!; try done.
  - intros time s1. assert (H0 : rg_devices reg0 !! 0%nat = Some d) by (by rewrite Hd). destruct (nd_kind first) eqn:Ek; [by apply (home_opens _ _ _ _ dir 0 d time reg0 s1 Htr)|].
    intros c Hlt. by apply (away_opens _ _ _ _ dir 0 d c (nd_sign_count first) time reg0 s1 Htr); auto.
  - apply (wf_ten _ Hwf).
  - intros i c Hi. split; [by apply Hsl|]. intros text now1 s1 Ht He. eapply code_opens; eauto.
  - intros Hsafe s1 [Hok Hm]. destruct (registry_to_vec reg0) as [b'|] eqn:Eb; [|done]. injection Hb as ->.
    apply Hset in Hm; [|intros x Hin; rewrite Hbuild, Hx; by apply Hsafe]. destruct (load_written dir reg0 b s1 Eb Hc Hwf Hv Hok Hm) as (s2 & -> & _). eauto.
Qed.
End spec.
