(* ===== verification/DeviceWitness.v ===== *)
(** * Concrete registries

    A registry with a home device and one with a security key, made by [build_registry]
    over the toy primitives, and the theorems on devices at these values. *)

From stdpp Require Import relations.
From S2P Require Import Prelude Effects Primitives Types Format Crypto NodeKeys Sink Slots BucketKeys Lex Query Index Locks Posix FsView Filesystem FilesystemSpec Keystore Upload DeviceTypes Devices DeviceCheck DeviceState DeviceDurable DeviceKeyed DeviceUnlock DeviceChanges DeviceRoster DeviceSpec IndexSpec RotationWitness FilesystemWitness KeystoreWitness.
Import FilesystemStorage.

Module DeviceWitness.
Import ToyKeystore ToyRedb.
#[local] Existing Instances Toy.aead Toy.base64 Toy.hash Toy.rng_ops Toy.argon2 Toy.token_ops Toy.hkdf.
#[local] Existing Instances Toy.aead_laws Toy.base64_laws Toy.hash_laws Toy.rng_laws Toy.hkdf_laws Toy.token_laws.

#[local] Instance no_pad : Base64NoPad := {| b64_decode_no_pad := fun _ => None |}.

(** ** A serializer that knows one registry *)

#[local] Instance Wrap_eq_dec : EqDecision Wrap.
Proof. solve_decision. Defined.
#[local] Instance Grant_eq_dec : EqDecision Grant.
Proof. solve_decision. Defined.
#[local] Instance Tpm2Params_eq_dec : EqDecision Tpm2Params.
Proof. solve_decision. Defined.
#[local] Instance Fido2Params_eq_dec : EqDecision Fido2Params.
Proof. solve_decision. Defined.
#[local] Instance HomeFactor_eq_dec : EqDecision HomeFactor.
Proof. solve_decision. Defined.
#[local] Instance DeviceRecord_eq_dec : EqDecision DeviceRecord.
Proof. solve_decision. Defined.
#[local] Instance EmergencySlot_eq_dec : EqDecision EmergencySlot.
Proof. solve_decision. Defined.
#[local] Instance DeviceRegistryFile_eq_dec : EqDecision DeviceRegistryFile.
Proof. solve_decision. Defined.

Definition json_of (r : DeviceRegistryFile) : RegistryJson := {|
  registry_to_vec reg := if bool_decide (reg = r) then Ok [x01] else Err "unknown registry";
  registry_from_slice b := if bool_decide (b = [x01]) then Ok (stripped r) else Err "unknown bytes";
|}.
Lemma json_of_laws r : @RegistryJsonLaws (json_of r).
Proof. split. intros reg b. cbn. case_bool_decide as E; [|done]. subst. intros [= <-]. done. Qed.

(** ** Two registries *)

Definition store0 : Store := mkStore ["data"] KeystoreWitness.fs0 (MetaIndex.commit empty_db) (install (replicate 32 x2a)) empty Idle None 0 false (65 : @rng Toy.rng_ops) 1700000000.
Definition secret0 : bytes := replicate 32 x07.
Definition laptop : NewDevice := mkNewDevice "laptop" Tpm2 (Some (mkTpm2Params "priv" "pub" [x07] "sha256")) None secret0 0.
Definition key_fob : NewDevice := mkNewDevice "fob" Fido2 None (Some (mkFido2Params "y2q" "cred" "salt" true)) secret0 4.

Definition dir0 : list string := ["keys"].
Definition Built : Type := bytes * DeviceRegistryFile * list bytes.
Definition none_built : Built := ([], mkDeviceRegistryFile 0 "" 0 false (mkWrap "" "") "" [] [] [], []).
Definition run_of {V} (d : V) (r : result DeviceError V * Store) : V := match r.1 with Ok x => x | Err _ => d end.
Definition home_built : Built := Eval vm_compute in run_of none_built (build_registry dir0 laptop 3600 false 5 None store0).
Definition away_built : Built := Eval vm_compute in run_of none_built (build_registry dir0 key_fob 3600 true 5 None store0).
Definition rmk0 : bytes := replicate 32 x41.

Lemma run_ok {V} (d : V) (r : result DeviceError V * Store) : is_ok r.1 = true -> r = (Ok (run_of d r), r.2).
Proof. destruct r as [[x|e] st]; done. Qed.

Lemma home_built_ok : is_ok (fst (build_registry dir0 laptop 3600 false 5 None store0)) = true.
Proof. vm_compute. reflexivity. Qed.
Lemma home_built_eq : home_built = run_of none_built (build_registry dir0 laptop 3600 false 5 None store0).
Proof. vm_compute. reflexivity. Qed.
Lemma away_built_eq : away_built = run_of none_built (build_registry dir0 key_fob 3600 true 5 None store0).
Proof. vm_compute. reflexivity. Qed.
Lemma away_built_ok : is_ok (fst (build_registry dir0 key_fob 3600 true 5 None store0)) = true.
Proof. vm_compute. reflexivity. Qed.

Lemma built_trusted first perm (b : Built) : nd_secret first = secret0 -> is_ok (fst (build_registry dir0 first 3600 perm 5 None store0)) = true ->
  b = run_of none_built (build_registry dir0 first 3600 perm 5 None store0) -> check b.1.2 (devices_path dir0) = Ok tt -> trusted (fun _ => secret0) (book b.2) rmk0 b.1.1 b.1.2.
Proof.
  intros Hsec Hok Eb. pose proof (run_ok none_built _ Hok) as Hrun. assert (Hlen : blen (nd_secret first) = 32) by (by rewrite Hsec).
  pose proof (post_run _ _ _ _ _ _ (build_registry_spec dir0 first 3600 perm 5 None store0 Hlen ltac:(done)) Hrun) as Hb. rewrite <- Eb in Hb. clear Eb.
  destruct b as [[nk reg] codes]. destruct Hb as (_ & _ & Hv & rmk & d & -> & _ & _ & _ & _ & _ & _ & Hc & Hk & Ha). rewrite Hsec in Hk. intros Hwf%check_iff. constructor; [by constructor|exact Ha].
Qed.

Definition home_nk : bytes := home_built.1.1.
Definition home_reg : DeviceRegistryFile := home_built.1.2.
Definition home_codes : list bytes := home_built.2.
Definition away_nk : bytes := away_built.1.1.
Definition away_reg : DeviceRegistryFile := away_built.1.2.

Lemma home_trusted : trusted (fun _ => secret0) (book home_codes) rmk0 home_nk home_reg.
Proof. apply (built_trusted laptop false home_built eq_refl home_built_ok home_built_eq). vm_compute. reflexivity. Qed.
Lemma away_trusted : trusted (fun _ => secret0) (book away_built.2) rmk0 away_nk away_reg.
Proof. apply (built_trusted key_fob true away_built eq_refl away_built_ok away_built_eq). vm_compute. reflexivity. Qed.

Lemma fs0_safe : safe_dirs dir0 store0.
Proof. intros d _ Hd. by apply elem_of_empty in Hd. Qed.

Definition sk0 : bytes := match derive_state_key rmk0 with Ok k => k | Err _ => [] end.

(** ** The state MAC *)

(** The same registry with another label, under the old MAC. *)
Definition relabelled : DeviceRegistryFile := with_devices ((fun d => mkDeviceRecord (dr_id d) "other" (dr_kind d) (dr_added_at_unix d) (dr_wrap d) (dr_grant d) (dr_tpm2 d) (dr_fido2 d) (dr_sign_count_last d) (dr_kek_wrap d) (dr_home_factor d) (dr_id_bytes d)) <$> rg_devices home_reg) home_reg.

Lemma state_mac_exact_witness :
  (registry_view relabelled = registry_view home_reg -> verify_state_mac sk0 relabelled (devices_path dir0) = Ok tt) /\
  (verify_state_mac sk0 relabelled (devices_path dir0) = Ok tt -> registry_view relabelled = registry_view home_reg \/ exists m m', m <> m' /\ hmac_sha256 sk0 m = hmac_sha256 sk0 m') /\
  forall sw, verify_state_mac sk0 (swapped sw relabelled) (devices_path dir0) = verify_state_mac sk0 relabelled (devices_path dir0).
Proof.
  apply (state_mac_exact home_reg relabelled sk0 (devices_path dir0)).
  - apply (so_wf _ _ _ _ _ (tr_sound _ _ _ _ _ home_trusted)).
  - apply (check_iff relabelled (devices_path dir0)). vm_compute. reflexivity.
  - constructor; [split; [vm_compute; discriminate|vm_compute; reflexivity]| |].
    + apply Forall_singleton. split_and!; [vm_compute; split; [discriminate|reflexivity]|vm_compute; split; [discriminate|reflexivity]|intros f E; vm_compute in E; discriminate E|intros g E; vm_compute in E; discriminate E].
    + apply (Forall_impl (fun s => es_burned_at_unix s = None)); [apply (bool_decide_eq_true_1 _); vm_compute; reflexivity|]. intros s ->. split; [discriminate|reflexivity].
  - constructor; [split; [vm_compute; discriminate|vm_compute; reflexivity]| |].
    + apply Forall_singleton. split_and!; [vm_compute; split; [discriminate|reflexivity]|vm_compute; split; [discriminate|reflexivity]|intros f E; vm_compute in E; discriminate E|intros g E; vm_compute in E; discriminate E].
    + apply (Forall_impl (fun s => es_burned_at_unix s = None)); [apply (bool_decide_eq_true_1 _); vm_compute; reflexivity|]. intros s ->. split; [discriminate|reflexivity].
  - apply Forall_singleton. split; [intros t E; vm_compute in E; injection E as <-; vm_compute; split; reflexivity|intros ? ? ? ? E; vm_compute in E; discriminate E].
  - vm_compute. reflexivity.
Defined.

Lemma dev_ok {V} (d : V) (r : result DeviceError V * Desk) : is_ok r.1 = true -> r = (Ok (match r.1 with Ok x => x | Err _ => d end), r.2).
Proof. destruct r as [[x|e] w]; done. Qed.

(** ** A security key *)

Section away.
Definition offline : result DeviceError Z := Err RoughtimeNotConfigured.
Definition away_next : DeviceRegistryFile := Eval vm_compute in signed sk0 (counted 7 0 away_reg).
#[local] Instance away_json : RegistryJson := json_of away_next.
#[local] Instance away_json_laws : RegistryJsonLaws := json_of_laws away_next.
Definition away_run : result DeviceError Unlock * Desk := unlock_with_away dir0 0 secret0 7 offline (mkDesk away_reg store0).
Definition no_unlock : Unlock := mkUnlock [] [] 0 0.
Definition away_unlock : Unlock := match away_run.1 with Ok u => u | Err _ => no_unlock end.

Lemma away_unlock_guarded_witness :
  (exists d sk, away_checked away_reg 0 d 7 offline away_unlock sk (devices_path dir0)) /\
  forall st', survives dir0 (dk_store away_run.2) st' -> exists reg' st'', load dir0 st' = (Ok reg', st'') /\
    forall secret' c' time' st v w2, unlock_with_away dir0 0 secret' c' time' (mkDesk reg' st) = (Ok v, w2) -> 7 < c'.
Proof.
  apply (away_unlock_guarded dir0 0 secret0 7 offline (mkDesk away_reg store0) away_unlock away_run.2).
  - apply (so_cached _ _ _ _ _ (tr_sound _ _ _ _ _ away_trusted)).
  - vm_compute. reflexivity.
  - exact fs0_safe.
  - apply (dev_ok no_unlock away_run). vm_compute. reflexivity.
Defined.
End away.

(** ** A code *)

Section code.
Definition code0 : string := Eval vm_compute in b64_encode (home_codes !!! 0%nat).
Definition burned : DeviceRegistryFile := Eval vm_compute in signed sk0 (burn_slot 0 9 home_reg).
#[local] Instance code_json : RegistryJson := json_of burned.
#[local] Instance code_json_laws : RegistryJsonLaws := json_of_laws burned.
Definition code_run : result DeviceError (option EmergencyUnlock) * Desk := emergency_unlock dir0 9 (Some code0) (mkDesk home_reg store0).
Definition code_unlock : EmergencyUnlock := match code_run.1 with Ok (Some u) => u | _ => mkEmergencyUnlock [] [] 0 end.
Lemma code_run_ok : match code_run.1 with Ok (Some _) => true | _ => false end = true.
Proof. vm_compute. reflexivity. Qed.

Lemma emergency_code_spent_witness :
  exists pos sk, code_checked home_reg code0 pos code_unlock sk (devices_path dir0) /\
    forall st', survives dir0 (dk_store code_run.2) st' -> exists reg' st'', load dir0 st' = (Ok reg', st'') /\ reg' = signed sk (burn_slot pos 9 home_reg) /\
      forall text' now' st v w2, emergency_unlock dir0 now' (Some text') (mkDesk reg' st) = (Ok (Some v), w2) -> eu_slot v <> eu_slot code_unlock.
Proof.
  pose proof (tr_sound _ _ _ _ _ home_trusted) as Hs.
  apply (emergency_code_spent dir0 9 code0 (mkDesk home_reg store0) code_unlock code_run.2).
  - apply (so_wf _ _ _ _ _ Hs).
  - apply (so_cached _ _ _ _ _ Hs).
  - apply (so_version _ _ _ _ _ Hs).
  - exact fs0_safe.
  - pose proof code_run_ok as Hok. unfold code_unlock. fold code_run. revert Hok. destruct code_run as [[[u|]|e] w]; cbn; done.
Defined.
End code.

(** ** A second device *)

Section enrol.
Definition boss : Authority := AuthHome "id" "laptop".
Definition enrol_run : result DeviceError string * Desk := enroll_device dir0 key_fob rmk0 boss offline 6 (mkDesk home_reg store0).
Definition enrolled : DeviceRegistryFile := Eval vm_compute in signed sk0 (dk_reg enrol_run.2).
Definition fob_id : bytes := Eval vm_compute in match enrol_run.1 with Ok id => default [] (decode_hex_id id) | Err _ => [] end.
#[local] Instance enrol_json : RegistryJson := json_of enrolled.
#[local] Instance enrol_json_laws : RegistryJsonLaws := json_of_laws enrolled.
Definition persist_run : result DeviceError unit * Desk := persist dir0 sk0 enrol_run.2.
Definition node0 : Node := mkNode (fun _ => secret0) home_nk home_reg.
Definition node1 : Node := mkNode (upd (fun _ => secret0) fob_id secret0) home_nk (dk_reg persist_run.2).

Lemma node0_step : registry_step dir0 rmk0 node0 node1.
Proof.
  eapply (step_enroll dir0 rmk0 (fun _ => secret0) home_nk home_reg store0 sk0 key_fob boss offline 6 (match enrol_run.1 with Ok id => id | Err _ => "" end) fob_id enrol_run.2 persist_run.2).
  - vm_compute. reflexivity.
  - apply (dev_ok "" enrol_run). vm_compute. reflexivity.
  - assert (Hok : is_ok persist_run.1 = true) by (vm_compute; reflexivity). unfold persist_run in *. revert Hok. destruct (persist dir0 sk0 enrol_run.2) as [[[]|e] w]; done.
  - vm_compute. reflexivity.
Qed.

Lemma registry_keeps_opening_witness :
  node_ok (book home_codes) rmk0 node1 /\
  forall i d st time, rg_devices (n_registry node1) !! i = Some d -> dr_kind d = Tpm2 ->
    match fst (unlock_with_home dir0 i (n_secrets node1 (dr_id_bytes d)) time (mkDesk (n_registry node1) st)) with
    | Ok u => ul_nk u = n_key node1 /\ ul_rmk u = rmk0
    | Err e => exists what, e = DeviceRegistryIo what
    end.
Proof.
  apply (registry_keeps_opening dir0 (book home_codes) rmk0 node0 node1).
  - exact home_trusted.
  - apply rtc_once. exact node0_step.
Defined.
End enrol.

(** ** The first one *)

Section init.
#[local] Instance init_json : RegistryJson := json_of home_reg.
#[local] Instance init_json_laws : RegistryJsonLaws := json_of_laws home_reg.
Definition printed (sheet : list string) : result DeviceError unit := Ok tt.
Definition init_run : result DeviceError (bytes * DeviceRegistryFile) * Store := init_registry dir0 laptop 3600 false 5 None printed store0.
Definition init_out : bytes * DeviceRegistryFile := run_of ([], home_reg) init_run.

(** The second code, as it was printed, is refused by the first slot. *)
Lemma second_code_reads : decode_code (trim_text (b64_encode (home_codes !!! 1%nat))) = Ok (home_codes !!! 1%nat) /\ earlier_refuse dir0 init_out.2 1 (home_codes !!! 1%nat).
Proof.
  split; [vm_compute; reflexivity|]. intros [|j] s w kek Hj Hs Hw Hk; [|lia]. vm_compute in Hs. injection Hs as <-. vm_compute in Hw. injection Hw as <-. vm_compute in Hk. injection Hk as <-. vm_compute. reflexivity.
Qed.

Lemma init_registry_opens_witness :
  exists rmk codes d, length codes = EMERGENCY_SLOTS /\ printed (code_sheet codes) = Ok tt /\ rg_devices init_out.2 = [d] /\ dr_label d = nd_label laptop /\ dr_kind d = nd_kind laptop /\
    trusted (fun _ => nd_secret laptop) (book codes) rmk init_out.1 init_out.2 /\ (forall k, None = Some k -> init_out.1 = k) /\
    (forall time st1, served ul_nk init_out.1 (fst (unlock_with_home dir0 0 (nd_secret laptop) time (mkDesk init_out.2 st1)))) /\
    length (rg_emergency_slots init_out.2) = EMERGENCY_SLOTS /\
    (forall i c, codes !! i = Some c -> slot_for init_out.2 rmk i c /\
       forall text now1 st1, decode_code (trim_text text) = Ok c -> earlier_refuse dir0 init_out.2 i c ->
         served (fun o => from_option eu_nk [] o) init_out.1 (fst (emergency_unlock dir0 now1 (Some text) (mkDesk init_out.2 st1)))) /\
    (safe_dirs dir0 store0 -> forall st1, survives dir0 init_run.2 st1 -> exists st2, load dir0 st1 = (Ok init_out.2, st2)).
Proof.
  apply (init_registry_opens dir0 laptop 3600 false 5 None printed store0 init_out.1 init_out.2 init_run.2).
  - intros k E. discriminate E.
  - assert (Hok : is_ok init_run.1 = true) by (vm_compute; reflexivity). unfold init_out. fold init_run. revert Hok. destruct init_run as [[[nk reg]|e] st]; done.
Defined.
End init.

End DeviceWitness.
